(* ===== verification/_CoqProject ===== *)
-Q . S2P
Prelude.v
Memory.v
Cstring.v
RingBuffer.v
Util.v
RingBufferOpen.v
RingBufferInv.v
RingBufferSpec.v
RingBufferTheorems.v
RingBufferExamples.v
Tlist.v
TlistHeap.v
TlistTheorems.v
Array.v
ArrayTheorems.v
Hdb.v
HdbTheorems.v
QbList.v
QbListTheorems.v
Map.v
Hashtable.v
HashtableTheorems.v
Skiplist.v
SkiplistShape.v
SkiplistSearch.v
SkiplistOps.v
SkiplistTheorems.v
Trie.v
TrieShape.v
TrieChange.v
TrieInv.v
TrieInsert.v
TrieOps.v
TrieWalk.v
TrieTheorems.v
TrieIter.v
Loop.v
LoopTheorems.v
LoopPoll.v
LoopPollEntries.v
LoopPollInv.v
LoopPollOps.v
LoopPollCalls.v
LoopPollTheorems.v
LoopPollRun.v
LoopPollExamples.v
Serialize.v
SerializeTheorems.v
SerializeBounds.v
LogFormat.v
LogFormatTheorems.v
LogState.v
Log.v
LogSites.v
LogInv.v
LogTheorems.v
LogThread.v
LogThreadTheorems.v
BlackBox.v
BlackBoxTheorems.v
IpcBase.v
IpcSock.v
Ipcs.v
IpcShm.v
IpcSocket.v
IpcSetup.v
Ipcc.v
IpcLogic.v
IpcInv.v
IpcsSafe.v
IpcsLife.v
IpcShmLaws.v
IpcsTheorems.v
IpcsServe.v
IpcsNotify.v
IpcSocketTheorems.v
IpccTheorems.v
IpcWitnesses.v
IpcSocketExamples.v
