(* ===== verification/Prelude.v ===== *)
(** * libqb: a verification library

    libqb is a C library for client/server programs: a shared memory ring
    buffer, a main loop with jobs, timers and file descriptors, a timer list, a
    dynamic array, a handle database, linked lists, maps from strings, logging
    and inter-process calls.  This library models its data structures, its
    scheduler, its logging and its inter-process calls as executable functions
    translated from the C code, and proves what makes them correct.  Names are those of the source wherever the
    language allows it.

    ** How the C code is represented

    - Integers are [Z]; wrap-around is written out where the code can reach it
      (the word indices of the ring, the 64-bit sizes, the signed 32-bit wait
      time of the loop, the 32-bit hash, the halves of a handle).
    - Memory that is shared or freed is explicit: the data area of a ring is a
      list of bytes mapped twice in a row, timers and hash nodes live in stores
      from addresses to records, list heads in a heap.  Freeing removes from the
      store.
    - Errors are values: [- EINVAL] and the like where the code returns them,
      [errno] as an explicit argument and result where it sets them.  [None] is
      a failed [assert], an access out of bounds or a call that never returns,
      as the comment on each function says.
    - What is outside the program (allocation, clocks, random numbers, the
      results of system calls) is an argument of the functions that use it.
      Calls the program makes to its user (destructors, notifiers, callbacks)
      are results, or, in the loop, run through a function argument.
    - Execution is sequential.  Locks are left out, and atomic operations are
      their sequential effect.  The exception is the logging thread, which is a
      step relation: posting, starting, stopping and the steps of the thread
      interleave in any order.
    - The IPC files use a small machine (a state and fault monad, [IpcBase]):
      its stores hold services, connections and rings that can be freed, a use of
      a freed one is the fault [F_freed], a failed [assert] is [F_assert].  The
      answers of the system are a parameter, a function of the history of all
      calls made, which is part of the state.  Callbacks of the application are
      computations of the machine, so that they can call back into the library.

    ** Files

    Concrete inputs, at which the theorems apply and at which the code goes
    wrong, are in the module [<Name>Examples] at the end of a component's last
    file, or in a file of that name.

    - [Prelude] (this file): scopes, tactics, hint databases, lemmas on lists,
      words and integers.
    - [Memory]: the byte memory behind [qb_sys_circular_mmap] (lib/unix.c).
    - [RingBuffer]: the header, the chunk operations and the notifier of
      lib/ringbuffer.c and lib/ringbuffer_int.h; [RingBufferOpen]: the semaphore
      notifier of lib/ringbuffer_helper.c, opening, closing, saving, loading;
      [RingBufferInv]: the layout invariant [rb_inv]; [RingBufferSpec]: the
      abstract queue and the refinement; [RingBufferTheorems] and
      [RingBufferExamples]: the other theorems, and concrete rings.
    - [Util]: module [Stopwatch], the stopwatch of lib/util.c; module [SysFile],
      opening and mapping files, lib/unix.c.
    - [Tlist], [TlistHeap], [TlistTheorems]: the heap of timers of
      include/tlist.h.
    - [Array], [ArrayTheorems]: lib/array.c.
    - [Hdb], [HdbTheorems]: lib/hdb.c, on top of [Array].
    - [QbList], [QbListTheorems]: include/qb/qblist.h, on a heap.
    - [Map]: the function table of lib/map.c and lib/map_int.h, the abstract map
      and the type classes [MapLaws] and [WalkLaws], what a kind of map owes its
      users; clients of a map are proved against them.
    - [Hashtable], [HashtableTheorems]: lib/hashtable.c; [Skiplist],
      [SkiplistShape], [SkiplistSearch], [SkiplistOps], [SkiplistTheorems]:
      lib/skiplist.c; both are instances of [MapLaws].
    - [Trie]: lib/trie.c on a store of nodes; [TrieShape]: the tree a store
      represents; [TrieChange], [TrieInv]: its invariant and how changes of nodes
      keep it; [TrieInsert], [TrieOps]: putting, getting and removing;
      [TrieWalk], [TrieIter]: iteration; [TrieTheorems]: the instance of
      [MapLaws].
    - [Loop], [LoopTheorems]: lib/loop.c, lib/loop_job.c and
      lib/loop_timerlist.c, on top of [Tlist] and [Array].  The source of file
      descriptor events is the interface [FdSource] with the laws [FdLaws]
      (polling and dispatching change the queues as the loop's own operations
      do) and [FdQuiet] (they do not use timers and return).
    - [LoopPoll]: the source itself, lib/loop_poll.c with the driver
      lib/loop_poll_epoll.c, descriptors and signals; [LoopPollEntries],
      [LoopPollInv]: entries, handles and the invariant that ties them to the
      queues of the levels; [LoopPollOps], [LoopPollCalls]: every operation keeps
      it, callbacks included; [LoopPollTheorems], [LoopPollRun],
      [LoopPollExamples]: what follows.
    - [Cstring]: C strings in byte buffers; [Serialize],
      [SerializeTheorems], [SerializeBounds]: storing a format with its arguments
      and printing it later (lib/log_format.c).
    - [LogFormat], [LogFormatTheorems]: formats of targets and the layout of a
      line (lib/log_format.c).
    - [LogState], [Log]: targets, filters and messages (lib/log.c) with the file
      and syslog targets (lib/log_file.c, lib/log_syslog.c); [LogSites]: call
      sites made at run time (lib/log_dcs.c), on top of [Array]; [LogInv],
      [LogTheorems]: the invariant and what it gives.
    - [LogThread], [LogThreadTheorems]: lib/log_thread.c.
    - [BlackBox], [BlackBoxTheorems]: lib/log_blackbox.c, on top of the ring
      buffer, its files and [Serialize].
    - [IpcBase], [IpcSock]: the machine of the IPC files, with objects, sockets
      and the calls of lib/ipc_setup.c that move bytes; [Ipcs]: lib/ipcs.c
      against the record of functions a transport has; [IpcShm]: lib/ipc_shm.c
      on top of [RingBuffer]; [IpcSocket]: lib/ipc_socket.c, on datagram sockets
      and control structures in a shared file; [IpcSetup]: the handshake of
      lib/ipc_setup.c; [Ipcc]: the client, lib/ipcc.c.
    - [IpcLogic]: the program logic of the machine (the predicate [wp] and its
      rules, computations that leave the service alone); [IpcInv]: the invariant
      of the server with its ghost count of references, and the type class
      [TransportLaws], what a transport owes the server; [IpcsSafe],
      [IpcsLife]: the specification of every function of lib/ipcs.c, proved
      against that class and the rules [AppOk] an application must follow;
      [IpcShmLaws]: the shared memory transport as an instance; [IpcsTheorems],
      [IpcsServe], [IpcsNotify], [IpccTheorems],
      [IpcWitnesses]: what follows, and concrete runs.
    - [IpcSocketTheorems]: the socket transport against the classes [Datagrams]
      and [PairLimit], what datagram sockets do; [IpcSocketExamples]: a network
      of sockets, and a server and a client that talk over it.

    ** Theorems

    Each theorem's own comment has its conditions in full.  Where the code goes wrong,
    the theorem leaves the case out and a statement named below, or an example of the
    component, shows what the code does there.

    - Ring buffer: with a semaphore it is a bounded FIFO queue of byte strings
      ([rb_refines]); a ring opened for a size holds a chunk of that size
      ([open_capacity]); an overwriting ring drops the fewest oldest chunks
      ([overwrite_keeps_newest]) and always finds an end ([alloc_terminates]);
      saving and loading round-trips ([save_load_roundtrip]); the space counters
      ([space_accounting]) and the clean-up of a failed open
      ([open_error_cleanup]).  [load_accepts_out_of_range],
      [forged_chunk_is_read] and [overwrite_semaphore_refuses] state where the
      code does less than it means to.
    - Timer list: adding, deleting and expiring keep the heap and do what they
      say to the set of pending timers ([add_duration_correct], [del_correct],
      [expire_correct]); the wait is that of the earliest timer
      ([msec_to_expire_earliest]); the debug check decides the heap order
      ([debug_check_decides]).
    - Array: an index in range gives an address that never changes, and growing
      keeps all values ([index_correct], [index_errors]), except when [realloc]
      fails ([grow_failure_loses_bins]).
    - Handle database: it is a map from slots to reference counted objects, as long
      as handles with the checks 0 and -1 are not used on free slots
      ([hdb_refines]); objects are released by the last put
      ([destroyed_object_drains]); the iterator visits the active ones
      ([iterator_visits_active]).
    - Linked lists: adding, also to the empty list, removing and replacing
      ([insert_remove_correct]), [splice_correct], [traversal_correct].
    - Hash table: it is a finite map ([hashtable_refines]), walks visit each pair
      once ([hashtable_foreach_visits]), values are handed to the free notifiers
      once ([free_notified_once]); [abandoned_iterator_pins_item] and
      [put_during_iteration_lost] state what goes wrong when iterators are
      abandoned or pairs put again during a walk.
    - Loop: whatever the callbacks do, the counts are right
      ([todo_counts_queue]), a round serves levels by priority
      ([round_serves_by_priority]), no job starves in a loop without timers
      ([no_starvation]), deleting jobs ([job_del_correct]);
      [wait_time_overflows] and [failed_timer_add_leaks_slot] state two faults of
      the timer source.
    - Skip list: it is a finite map whatever the random levels
      ([skiplist_refines]), walked in the order of its keys
      ([skiplist_foreach_ordered]).
    - Trie: it is a finite map, as long as only keys are removed, or strings that no
      key begins with ([trie_refines]); a walk, also over the keys with a
      prefix, visits each pair once, in the order of the keys
      ([trie_walk_ordered]); [trie_faults] states where removing, notifiers and
      iterators do less than they mean to.
    - Descriptors and signals: in whatever order descriptors and signals are added,
      changed, deleted, polled and run, with levels, handles and memory as the code
      expects them, the queues of the loop have exactly the entries that say
      so ([poll_source_safe]); a poll queues the entries with events
      ([poll_queues_ready]), a signal one copy for each handler
      ([signal_queues_copies]), and an event leads to one call
      ([event_delivered]).
    - Stopwatch and files: with room for two splits or more, laps and the times
      between splits are right, for an overwriting stopwatch once it is full
      ([stopwatch_measures]); opening and mapping a file leaves nothing behind
      when it fails, but the descriptor when already the first [mmap] fails
      ([mapping_all_or_nothing]).
    - Serialisation: a message stored and printed later is the message the
      arguments describe, with precisions but without doubled percent signs
      ([message_roundtrip]); with at most one string storing succeeds, for every
      format, and stays within the given size ([serialize_in_bounds]), but more
      strings can get past it ([format_faults]).
    - Logging: as long as filters are added and cleared but not removed one by one, and
      targets are enabled while their bits agree with their filters, a call site is
      switched on for the targets with a matching filter ([filters_route]) and a
      message goes to exactly those ([message_delivered]); filters by name ([name_filter_matches]); lines are
      laid out as the format says ([target_format_correct]);
      [closed_target_keeps_filters] and [filter_faults] state where the code does
      less than it means to.
    - Logging thread: under every interleaving messages are written in the order
      accepted ([thread_queue_fifo]); all of them are as long as no stop is requested,
      and what a stop leaves unwritten is counted ([worker_progress]);
      [thread_faults] states what stopping and failing to start can do.
    - Black box: what is logged, saved and printed are the newest messages
      ([blackbox_roundtrip]), and printing ends for every file, its loop over the
      format of a message too, if not always well ([print_terminates]);
      [blackbox_faults] has lengths at which it goes wrong.
    - IPC server: over shared memory, whatever the application does within its rules,
      the system answers and the clients send, reference counts stay exact, callbacks
      come in their order and nothing freed is used ([service_runs_safely]; the lemma
      [service_safe_over] is for any transport with [TransportLaws]); a
      dispatch hands over the oldest requests in order, once each
      ([requests_in_order]); an event is announced by one byte, or, after a hard
      error, not at all or later ([announced_once]).
    - IPC transport and client: connecting opens three rings, or closes each that it
      created ([shm_connect_all_or_nothing]); the wait for a
      response ends ([response_wait_ends]).  [IpcExamples] has runs of the server
      that end in a fault or a leak, each outside the rules above.
    - IPC over sockets: one direction of a connection is a queue of messages with
      an exact count, for buffers that are long enough ([us_channel_refines]); receiving ends whatever the sockets
      do ([recv_waits_once]); the search for the largest message finds the limit
      up to its step, or near the size asked for less ([largest_datagram_found]).  The transport does not promise
      all that [TransportLaws] asks for: it has no [peek], and it receives beyond
      the end of the buffer when a message says that it is longer
      ([long_message_overruns]).

    ** Fuel

    Loops of the code that are not structural recursions take fuel, chosen
    inside the operation so that a theorem shows it to be enough: the reclaim
    loop of a ring has [word_size + 1] rounds, since each round that goes on
    destroys one chunk magic ([alloc_terminates], for any bytes in the ring);
    sifting and expiring have the size of the heap; the scans of the handle
    database and of the loop's timers have the number of handles; the walk of the
    hash table to the next bucket has the number of buckets; walks in a trie have
    one round more than it has nodes; storing a message and printing it have one
    round more than the format has characters, since a round takes a percent sign
    ([serialize_in_bounds] shows that storing returns, [deserialize_ends] that printing
    does; without fuel it would be [Diverges], which is not undefined behaviour,
    [Faults]).  Walks over
    linked lists and [qb_map_foreach] take the fuel as an argument, and their
    theorems hold for any fuel above the length.  [qb_loop_run] is indexed by the
    number of rounds it is let run, and [no_starvation] bounds that number.
    In the IPC files a loop around a system call that may be interrupted for
    ever takes its number of repeats from the parameters of the system, and
    running out is the fault [F_loop], which the server's theorems allow because
    the code has no bound either.  The loops that the code does bound have fuel
    that is enough: the loop over requests has one round more than the bytes it
    is given, and the client's wait has one round for each two seconds of its
    timeout and one more ([response_wait_ends] shows that it returns).  Receiving
    from a socket needs two rounds, and the search for the largest message one
    for each 256 bytes and four more ([recv_waits_once],
    [largest_datagram_found]).

    ** Not modelled

    The handling of SIGPIPE and SIGBUS; the drivers of the loop for [poll] and
    kqueue (lib/loop_poll_poll.c, lib/loop_poll_kqueue.c); clocks, locks, and the
    emulation of atomics and semaphores for systems without them (lib/util.c,
    lib/unix.c, lib/rpl_sem.c); the System V variant of the semaphore,
    [qb_rb_chown] and [qb_rb_chmod]; dumps for debugging of rings, tries and
    logging, which print only; the destruction of a loop and its default
    instance; the mutexes and the memory ordering of the atomics; bindings, tests,
    examples and the documentation generator, which is not part of the library.

    ** What is left

    [FdSource] is an interface without a state of its own, so [LoopPoll] shows the
    properties of [FdLaws] of its operations on the loop's queues and is not an
    instance of it; an interface with a state would join the two.  An invariant that
    ties the timers of the loop to the timer list would extend [no_starvation] to
    loops with timers. *)
From Stdlib Require Export ZArith Lia.
From stdpp Require Export sorting base list gmap option numbers.

#[export] Set Default Goal Selector "!".
#[export] Set Warnings "-clear-no-such-hyp".

(** ** Scope, hint databases and tactics of the development *)

Declare Scope qb_scope.
Delimit Scope qb_scope with qb.
Create HintDb qb discriminated.
Create Rewrite HintDb qb_len.

Global Open Scope Z_scope.

(** [zlia] closes integer goals after clearing the [mod]s and [/]s that [lia]
    does not see through on its own. *)
Ltac zlia := Z.to_euclidean_division_equations; lia.

(** Case analysis on a boolean comparison of [Z] in the goal or a hypothesis,
    with the comparison recorded as a proposition. *)
Ltac zcase :=
  match goal with
  | |- context [Z.eqb ?a ?b] => destruct (Z.eqb_spec a b)
  | |- context [Z.ltb ?a ?b] => destruct (Z.ltb_spec a b)
  | |- context [Z.leb ?a ?b] => destruct (Z.leb_spec a b)
  | H : context [Z.eqb ?a ?b] |- _ => destruct (Z.eqb_spec a b)
  | H : context [Z.ltb ?a ?b] |- _ => destruct (Z.ltb_spec a b)
  | H : context [Z.leb ?a ?b] |- _ => destruct (Z.leb_spec a b)
  end.

(** Split every conjunction and existential among the hypotheses. *)
Ltac dest :=
  repeat match goal with
  | H : _ /\ _ |- _ => destruct H
  | H : exists _, _ |- _ => destruct H
  end.

(** ** Machine integers

    A C integer is a [Z]; the conversions below are the ones the language
    applies on assignment to a variable of that type. *)

Definition u8 (z : Z) : Z := z mod 2 ^ 8.
Definition u16 (z : Z) : Z := z mod 2 ^ 16.
Definition u32 (z : Z) : Z := z mod 2 ^ 32.
Definition u64 (z : Z) : Z := z mod 2 ^ 64.
Definition i32 (z : Z) : Z := (z + 2 ^ 31) mod 2 ^ 32 - 2 ^ 31.
Definition i64 (z : Z) : Z := (z + 2 ^ 63) mod 2 ^ 64 - 2 ^ 63.

Definition UINT32_MAX : Z := 2 ^ 32 - 1.
Definition SIZE_MAX : Z := 2 ^ 64 - 1.

(** [x & y] used as a C condition. *)
Definition has_flag (x y : Z) : bool := negb (Z.land x y =? 0).

(** C's [a / b] and [a % b] on non-negative operands are [Z.div] and
    [Z.modulo]; on signed operands they truncate ([Z.quot], [Z.rem]). *)

Definition QB_ROUNDUP (x y : Z) : Z := ((x + (y - 1)) / y) * y.
Definition QB_MAX (a b : Z) : Z := if b <? a then a else b.
Definition QB_MIN (a b : Z) : Z := if a <? b then a else b.
Definition QB_TIME_NS_IN_MSEC : Z := 1000000.

Lemma u32_small z : 0 <= z < 2 ^ 32 -> u32 z = z.
Proof. unfold u32. intros. now apply Z.mod_small. Qed.

Lemma u64_small z : 0 <= z < 2 ^ 64 -> u64 z = z.
Proof. unfold u64. intros. now apply Z.mod_small. Qed.

Lemma i32_small z : - 2 ^ 31 <= z < 2 ^ 31 -> i32 z = z.
Proof. unfold i32. intros. rewrite Z.mod_small; lia. Qed.

Lemma i64_small z : - 2 ^ 63 <= z < 2 ^ 63 -> i64 z = z.
Proof. unfold i64. intros. rewrite Z.mod_small; lia. Qed.

Lemma u32_range z : 0 <= u32 z < 2 ^ 32.
Proof. unfold u32. apply Z.mod_pos_bound. lia. Qed.

Lemma u64_range z : 0 <= u64 z < 2 ^ 64.
Proof. unfold u64. apply Z.mod_pos_bound. lia. Qed.

Lemma i32_range z : - 2 ^ 31 <= i32 z < 2 ^ 31.
Proof. unfold i32. pose proof (Z.mod_pos_bound (z + 2 ^ 31) (2 ^ 32)). lia. Qed.

Lemma QB_MIN_min a b : QB_MIN a b = Z.min a b.
Proof. unfold QB_MIN. zcase; lia. Qed.

Lemma QB_MAX_max a b : QB_MAX a b = Z.max a b.
Proof. unfold QB_MAX. zcase; lia. Qed.

(** The rounded value is the least multiple of [y] that is at least [x]. *)
Lemma QB_ROUNDUP_bounds x y : 0 < y -> x <= QB_ROUNDUP x y < x + y.
Proof.
  intros. unfold QB_ROUNDUP.
  pose proof (Z.div_mod (x + (y - 1)) y). pose proof (Z.mod_pos_bound (x + (y - 1)) y). lia.
Qed.

Lemma QB_ROUNDUP_divide x y : (y | QB_ROUNDUP x y).
Proof. exists ((x + (y - 1)) / y). reflexivity. Qed.

Lemma QB_ROUNDUP_multiple x y : 0 < y -> (y | x) -> QB_ROUNDUP x y = x.
Proof.
  intros ? [k ->]. unfold QB_ROUNDUP. f_equal.
  rewrite Z.add_comm, Z.div_add, Z.div_small; lia.
Qed.

(** ** Error numbers (Linux values) *)

Module Errno.
Definition ENOENT : Z := 2.
Definition EINTR : Z := 4.
Definition ENXIO : Z := 6.
Definition EBADF : Z := 9.
Definition EAGAIN : Z := 11.
Definition ENOMEM : Z := 12.
Definition EEXIST : Z := 17.
Definition EINVAL : Z := 22.
Definition ERANGE : Z := 34.
Definition ENOSYS : Z := 38.
Definition EIDRM : Z := 43.
Definition EBADMSG : Z := 74.
Definition EOVERFLOW : Z := 75.
Definition ENOTSUP : Z := 95.
Definition ENOBUFS : Z := 105.
Definition ETIMEDOUT : Z := 110.
End Errno.
Export Errno.

(** ** Arrays indexed by [Z]

    [zget] and [zset] read and write one cell.  Out of range the C code has
    undefined behaviour; here the read gives the inhabitant and the write does
    nothing, and every lemma that uses the value has the range as a side
    condition. *)

Definition zlen {A} (l : list A) : Z := Z.of_nat (length l).
Definition zget {A} `{Inhabited A} (l : list A) (i : Z) : A := l !!! Z.to_nat i.
Definition zset {A} (l : list A) (i : Z) (x : A) : list A :=
  if i <? 0 then l else <[Z.to_nat i := x]> l.
Definition zrepeat {A} (x : A) (n : Z) : list A := replicate (Z.to_nat n) x.

Lemma zlen_nonneg {A} (l : list A) : 0 <= zlen l.
Proof. unfold zlen. lia. Qed.

Lemma zlen_nil (A : Type) : zlen ([] : list A) = 0.
Proof. reflexivity. Qed.

Lemma zlen_cons {A} (x : A) l : zlen (x :: l) = 1 + zlen l.
Proof. unfold zlen. simpl. lia. Qed.

Lemma zlen_app {A} (l k : list A) : zlen (l ++ k) = zlen l + zlen k.
Proof. unfold zlen. rewrite length_app. lia. Qed.

Lemma zlen_zset {A} (l : list A) i x : zlen (zset l i x) = zlen l.
Proof. unfold zset, zlen. zcase; [done|]. now rewrite length_insert. Qed.

Lemma zlen_zrepeat {A} (x : A) n : 0 <= n -> zlen (zrepeat x n) = n.
Proof. intros. unfold zlen, zrepeat. rewrite length_replicate. lia. Qed.

Lemma zget_zset_eq {A} `{Inhabited A} (l : list A) i x :
  0 <= i < zlen l -> zget (zset l i x) i = x.
Proof.
  unfold zget, zset, zlen. intros. zcase; [lia|].
  apply list_lookup_total_insert_eq. lia.
Qed.

Lemma zget_zset_ne {A} `{Inhabited A} (l : list A) i j x :
  0 <= j -> i <> j -> zget (zset l i x) j = zget l j.
Proof.
  unfold zget, zset. intros. zcase; [done|].
  apply list_lookup_total_insert_ne. lia.
Qed.

Lemma zget_zrepeat {A} `{Inhabited A} (x : A) n i :
  0 <= i < n -> zget (zrepeat x n) i = x.
Proof. intros. unfold zget, zrepeat. apply lookup_total_replicate_2. lia. Qed.

Lemma zget_cons_S {A} `{Inhabited A} (x : A) l i :
  0 <= i -> zget (x :: l) (i + 1) = zget l i.
Proof.
  intros. unfold zget.
  replace (Z.to_nat (i + 1)) with (S (Z.to_nat i)) by lia. reflexivity.
Qed.

Lemma zget_lookup {A} `{Inhabited A} (l : list A) i x :
  0 <= i -> l !! Z.to_nat i = Some x -> zget l i = x.
Proof. intros. unfold zget. now apply list_lookup_total_correct. Qed.

Lemma lookup_zget {A} `{Inhabited A} (l : list A) i :
  0 <= i < zlen l -> l !! Z.to_nat i = Some (zget l i).
Proof. unfold zget, zlen. intros. apply list_lookup_lookup_total_lt. lia. Qed.

Lemma zlist_eq {A} `{Inhabited A} (l k : list A) :
  zlen l = zlen k -> (forall i, 0 <= i < zlen l -> zget l i = zget k i) -> l = k.
Proof.
  unfold zlen. intros Hl Hi. apply list_eq_same_length with (length k); [done|lia|].
  intros i x y Hlt Hx Hy.
  specialize (Hi (Z.of_nat i)). unfold zget in Hi. rewrite Nat2Z.id in Hi.
  apply list_lookup_total_correct in Hx. apply list_lookup_total_correct in Hy.
  rewrite <- Hx, <- Hy. apply Hi. lia.
Qed.

#[export] Hint Rewrite @zlen_nil @zlen_cons @zlen_app @zlen_zset : qb_len.
Ltac zlen_simpl := autorewrite with qb_len in *.

(** ** Counting with filters *)

Lemma filter_length_le {A} (P Q : A -> Prop) `{!forall x, Decision (P x)} `{!forall x, Decision (Q x)}
    (l : list A) :
  (forall y, y ∈ l -> Q y -> P y) -> (length (filter Q l) <= length (filter P l))%nat.
Proof.
  induction l as [|y l IH]; intros HQP; [done|].
  specialize (IH ltac:(intros; apply HQP; [by right|done])).
  rewrite !filter_cons. destruct (decide (Q y)), (decide (P y)); simpl; try lia.
  exfalso. set_solver.
Qed.

Lemma filter_length_lt {A} (P Q : A -> Prop) `{!forall x, Decision (P x)} `{!forall x, Decision (Q x)}
    (l : list A) x :
  (forall y, y ∈ l -> Q y -> P y) -> x ∈ l -> P x -> ~ Q x ->
  (length (filter Q l) < length (filter P l))%nat.
Proof.
  induction l as [|y l IH]; intros HQP Hx HP HQ; [set_solver|].
  pose proof (filter_length_le P Q l ltac:(intros; apply HQP; [by right|done])).
  rewrite !filter_cons. apply elem_of_cons in Hx as [->|Hx].
  - destruct (decide (Q y)), (decide (P y)); simpl; done || lia.
  - specialize (IH ltac:(intros; apply HQP; [by right|done]) Hx HP HQ).
    destruct (decide (Q y)), (decide (P y)); simpl; try lia. exfalso. set_solver.
Qed.

(** Filters that keep all or nothing. *)
Lemma filter_all {A} (P : A -> Prop) `{!forall x, Decision (P x)} (l : list A) :
  (forall x, x ∈ l -> P x) -> filter P l = l.
Proof.
  induction l as [|y l IH]; intros Hl; [done|]. rewrite filter_cons, decide_True by (apply Hl; set_solver).
  f_equal. apply IH. intros x Hx. apply Hl. set_solver.
Qed.

Lemma filter_none {A} (P : A -> Prop) `{!forall x, Decision (P x)} (l : list A) :
  (forall x, x ∈ l -> ~ P x) -> filter P l = [].
Proof. intros Hl. apply elem_of_nil_inv. intros x [HP Hx]%list_elem_of_filter. by apply (Hl x). Qed.
