(* ===== verification/Memory.v ===== *)
(** * Byte memory mapped twice in a row

    [qb_sys_circular_mmap] maps the data file of a ring buffer twice, the
    second mapping right behind the first, so that byte [off] of the data area
    and byte [off + size] are the same cell.  A data area is the list of its
    [size] bytes, and an access at any offset goes to the cell at the offset
    modulo [size].  Words are 32 bits wide and stored little-endian. *)
From S2P Require Import Prelude.

(** ** Definitions *)

(** Bytes at offsets [off .. off + n - 1]. *)
Definition slice (m : list Z) (off n : Z) : list Z :=
  (fun k => zget m ((off + k) mod zlen m)) <$> seqZ 0 n.

(** [memcpy (m + off, bs, len bs)] through the double mapping. *)
Fixpoint blit (m : list Z) (off : Z) (bs : list Z) : list Z :=
  match bs with
  | [] => m
  | b :: bs' => blit (zset m (off mod zlen m) b) (off + 1) bs'
  end.

Fixpoint le_split (n : nat) (w : Z) : list Z :=
  match n with
  | O => []
  | S n' => w mod 256 :: le_split n' (w / 256)
  end.

Fixpoint le_combine (bs : list Z) : Z :=
  match bs with
  | [] => 0
  | b :: bs' => b + 256 * le_combine bs'
  end.

(** [m[i]] on the area seen as an array of [uint32_t]. *)
Definition word_get (m : list Z) (i : Z) : Z := le_combine (slice m (4 * i) 4).
Definition word_set (m : list Z) (i w : Z) : list Z := blit m (4 * i) (le_split 4 w).

(** ** Little-endian words *)

Lemma length_le_split n w : length (le_split n w) = n.
Proof. revert w; induction n; simpl; auto. Qed.

Lemma zlen_le_split n w : zlen (le_split n w) = Z.of_nat n.
Proof. unfold zlen. now rewrite length_le_split. Qed.

Lemma le_combine_split n w : le_combine (le_split n w) = w mod 256 ^ Z.of_nat n.
Proof.
  revert w; induction n as [|n IH]; intros w.
  - simpl. now rewrite Z.mod_1_r.
  - simpl le_split. simpl le_combine. rewrite IH.
    replace (Z.of_nat (S n)) with (Z.of_nat n + 1) by lia.
    rewrite Z.pow_add_r, Z.pow_1_r, (Z.mul_comm _ 256) by lia.
    rewrite Z.rem_mul_r; [lia| lia |].
    assert (0 < 256 ^ Z.of_nat n) by (apply Z.pow_pos_nonneg; lia). lia.
Qed.

Lemma le_combine_split_u32 w : 0 <= w < 2 ^ 32 -> le_combine (le_split 4 w) = w.
Proof. intros. rewrite le_combine_split. apply Z.mod_small. simpl. lia. Qed.

Lemma le_split_combine bs :
  Forall (fun b => 0 <= b < 256) bs -> le_split (length bs) (le_combine bs) = bs.
Proof.
  induction 1 as [|b bs Hb _ IH]; simpl; [done|].
  rewrite (Z.mul_comm 256), Z.mod_add, Z.mod_small, Z.div_add, Z.div_small by lia.
  now rewrite Z.add_0_l, IH.
Qed.

(** ** Slices and copies *)

Lemma zlen_slice m off n : 0 <= n -> zlen (slice m off n) = n.
Proof. intros. unfold slice, zlen. rewrite length_fmap, length_seqZ. lia. Qed.

Lemma zget_slice m off n i :
  0 <= i < n -> zget (slice m off n) i = zget m ((off + i) mod zlen m).
Proof.
  intros. unfold slice. apply zget_lookup; [lia|].
  rewrite list_lookup_fmap, lookup_seqZ_lt by lia. simpl.
  do 2 f_equal. f_equal. lia.
Qed.

Lemma zlen_blit m off bs : zlen (blit m off bs) = zlen m.
Proof. revert m off; induction bs; simpl; intros; [done|]. now rewrite IHbs, zlen_zset. Qed.

Lemma length_blit m off bs : length (blit m off bs) = length m.
Proof. pose proof (zlen_blit m off bs). unfold zlen in *. lia. Qed.

#[export] Hint Rewrite zlen_blit zlen_le_split : qb_len.

(** A slice depends on its offset only modulo the size of the area. *)
Lemma slice_congr m o o' n :
  o mod zlen m = o' mod zlen m -> slice m o n = slice m o' n.
Proof.
  intros E. unfold slice. apply list_fmap_ext. intros i x _.
  destruct (decide (zlen m = 0)) as [Hz|Hz]; [rewrite Hz, !Z.mod_0_r in E; now subst|].
  now rewrite <- (Zplus_mod_idemp_l o), E, Zplus_mod_idemp_l.
Qed.

Lemma slice_mod m o n : slice m (o mod zlen m) n = slice m o n.
Proof. apply slice_congr, Z.mod_mod_divide, Z.divide_refl. Qed.

Lemma blit_mod m o bs : blit m (o mod zlen m) bs = blit m o bs.
Proof.
  revert m o. induction bs as [|b bs IH]; intros m o; simpl; [done|].
  rewrite Z.mod_mod_divide by apply Z.divide_refl.
  rewrite <- IH, <- (IH _ (o + 1)), zlen_zset.
  f_equal. apply Zplus_mod_idemp_l.
Qed.

Lemma zget_blit_ne m off bs j :
  0 <= j < zlen m ->
  (forall k, 0 <= k < zlen bs -> (off + k) mod zlen m <> j) ->
  zget (blit m off bs) j = zget m j.
Proof.
  revert m off. induction bs as [|b bs IH]; intros m off Hj Hk; simpl; [done|].
  rewrite zlen_cons in Hk. pose proof (zlen_nonneg bs).
  rewrite IH; rewrite ?zlen_zset; [|done|].
  - apply zget_zset_ne; [lia|]. specialize (Hk 0). rewrite Z.add_0_r in Hk. apply Hk. lia.
  - intros k Hkb. replace (off + 1 + k) with (off + (k + 1)) by lia. apply Hk. lia.
Qed.

Lemma zget_blit_in m off bs k :
  0 <= k < zlen bs -> zlen bs <= zlen m ->
  zget (blit m off bs) ((off + k) mod zlen m) = zget bs k.
Proof.
  revert m off k. induction bs as [|b bs IH]; intros m off k Hk Hle; simpl;
    rewrite ?zlen_nil, ?zlen_cons in *; [lia|].
  destruct (decide (k = 0)) as [->|Hne].
  - rewrite Z.add_0_r, zget_blit_ne, zget_zset_eq; rewrite ?zlen_zset; [done|..].
    + apply Z.mod_pos_bound. lia.
    + apply Z.mod_pos_bound. lia.
    + intros i Hi. rewrite <- (Z.add_0_r off) at 2. intros E.
      rewrite <- Z.add_assoc in E.
      assert (((off + (1 + i)) - (off + 0)) mod zlen m = 0) as E'.
      { rewrite Zminus_mod, E, Z.sub_diag. now apply Z.mod_0_l; lia. }
      replace (off + (1 + i) - (off + 0)) with (1 + i) in E' by lia.
      rewrite Z.mod_small in E'; lia.
  - replace (off + k) with (off + 1 + (k - 1)) by lia.
    specialize (IH (zset m (off mod zlen m) b) (off + 1) (k - 1)).
    rewrite zlen_zset in IH. rewrite IH by lia.
    replace k with ((k - 1) + 1) at 2 by lia. symmetry. apply zget_cons_S. lia.
Qed.

(** Reading back what a copy stored. *)
Lemma slice_blit_same m off bs :
  zlen bs <= zlen m -> slice (blit m off bs) off (zlen bs) = bs.
Proof.
  intros. pose proof (zlen_nonneg bs). apply zlist_eq; rewrite zlen_slice; try lia.
  intros i Hi. rewrite zget_slice, zlen_blit by lia. now apply zget_blit_in.
Qed.

(** A copy of [zlen bs] bytes leaves alone the bytes from [d >= zlen bs] on,
    as long as these do not wrap around into the copied ones. *)
Lemma slice_blit_disjoint m off bs d n :
  zlen bs <= d -> 0 <= n -> d + n <= zlen m ->
  slice (blit m off bs) (off + d) n = slice m (off + d) n.
Proof.
  intros. pose proof (zlen_nonneg bs). apply zlist_eq; rewrite !zlen_slice; try lia.
  intros i Hi. rewrite !zget_slice, zlen_blit by lia.
  apply zget_blit_ne; [apply Z.mod_pos_bound; lia|].
  intros k Hk E.
  assert (((off + d + i) - (off + k)) mod zlen m = 0) as E'.
  { rewrite Zminus_mod, E, Z.sub_diag. now apply Z.mod_0_l; lia. }
  replace (off + d + i - (off + k)) with (d + i - k) in E' by lia.
  rewrite Z.mod_small in E'; lia.
Qed.

Lemma blit_app m off bs cs :
  blit m off (bs ++ cs) = blit (blit m off bs) (off + zlen bs) cs.
Proof.
  revert m off. induction bs as [|b bs IH]; intros m off; simpl.
  - now rewrite zlen_nil, Z.add_0_r.
  - rewrite IH, zlen_cons. f_equal. lia.
Qed.

(** Copying a whole area over an area of the same size replaces it. *)
Lemma blit_full m bs : zlen bs = zlen m -> blit m 0 bs = bs.
Proof.
  intros. apply zlist_eq; [now rewrite zlen_blit|]. rewrite zlen_blit. intros i Hi.
  rewrite <- (Z.mod_small i (zlen m)) at 1 by lia.
  rewrite <- (Z.add_0_l i) at 1. apply zget_blit_in; lia.
Qed.

(** One cell after a copy. *)
Lemma zget_blit m off bs j :
  0 <= j < zlen m -> zlen bs <= zlen m ->
  zget (blit m off bs) j =
  if (j - off) mod zlen m <? zlen bs then zget bs ((j - off) mod zlen m) else zget m j.
Proof.
  intros Hj Hle. pose proof (Z.mod_pos_bound (j - off) (zlen m)) as Hb.
  assert (Ej : (off + (j - off) mod zlen m) mod zlen m = j).
  { rewrite Zplus_mod_idemp_r. replace (off + (j - off)) with j by lia. apply Z.mod_small. lia. }
  zcase.
  - rewrite <- Ej at 1. apply zget_blit_in; lia.
  - apply zget_blit_ne; [done|]. intros k Hk E.
    assert ((j - off) mod zlen m = k); [|lia].
    rewrite <- E, Zminus_mod_idemp_l. replace (off + k - off) with k by lia. apply Z.mod_small. lia.
Qed.

(** Copies to places that do not overlap commute. *)
Lemma blit_comm m off bs d cs :
  zlen bs <= d -> d + zlen cs <= zlen m ->
  blit (blit m off bs) (off + d) cs = blit (blit m (off + d) cs) off bs.
Proof.
  intros H1 H2. pose proof (zlen_nonneg bs). pose proof (zlen_nonneg cs).
  apply zlist_eq; autorewrite with qb_len; [done|]. intros j Hj.
  rewrite !zget_blit by (autorewrite with qb_len; lia). autorewrite with qb_len.
  pose proof (Z.mod_pos_bound (j - off) (zlen m)) as Hb.
  assert (Ed : (j - (off + d)) mod zlen m = ((j - off) mod zlen m - d) mod zlen m).
  { rewrite Zminus_mod_idemp_l. f_equal. lia. }
  rewrite Ed. set (a := (j - off) mod zlen m) in *. clearbody a. clear Ed.
  destruct (Z.ltb_spec a (zlen bs)); [|done].
  destruct (Z.ltb_spec ((a - d) mod zlen m) (zlen cs)); [|done]. exfalso.
  rewrite <- (Z_mod_plus_full (a - d) 1), Z.mod_small in *; lia.
Qed.

(** ** Words *)

Lemma word_get_slice m i w :
  0 <= w < 2 ^ 32 -> slice m (4 * i) 4 = le_split 4 w -> word_get m i = w.
Proof. intros ? E. unfold word_get. rewrite E. now apply le_combine_split_u32. Qed.

Lemma zlen_word_set m i w : zlen (word_set m i w) = zlen m.
Proof. apply zlen_blit. Qed.

#[export] Hint Rewrite zlen_word_set : qb_len.

(** The word index, like the byte offset, counts modulo the size. *)
Lemma word_mod (m : list Z) i N : 0 < N -> zlen m = 4 * N -> (4 * (i mod N)) mod zlen m = (4 * i) mod zlen m.
Proof. intros ? ->. now rewrite !Zmult_mod_distr_l, Z.mod_mod_divide by apply Z.divide_refl. Qed.

Lemma word_get_mod m i N : 0 < N -> zlen m = 4 * N -> word_get m (i mod N) = word_get m i.
Proof. intros. unfold word_get. f_equal. apply slice_congr. now apply word_mod. Qed.

Lemma word_set_mod m i w N : 0 < N -> zlen m = 4 * N -> word_set m (i mod N) w = word_set m i w.
Proof.
  intros. unfold word_set. rewrite <- blit_mod, <- (blit_mod _ (4 * i)).
  now rewrite (word_mod m i N).
Qed.

Lemma slice_word_mod m i N n : 0 < N -> zlen m = 4 * N -> slice m (4 * (i mod N)) n = slice m (4 * i) n.
Proof. intros. apply slice_congr. now apply word_mod. Qed.

Lemma slice_word_set_same m i w :
  4 <= zlen m -> slice (word_set m i w) (4 * i) 4 = le_split 4 w.
Proof.
  intros. unfold word_set.
  replace 4 with (zlen (le_split 4 w)) at 4 by apply zlen_le_split.
  apply slice_blit_same. now rewrite zlen_le_split.
Qed.

Lemma word_get_set_same m i w :
  4 <= zlen m -> 0 <= w < 2 ^ 32 -> word_get (word_set m i w) i = w.
Proof. intros. apply word_get_slice; [done|]. now apply slice_word_set_same. Qed.

(** Writing word [i] leaves the bytes of words [i + d ..] alone. *)
Lemma slice_word_set_disjoint m i w j n :
  i < j -> 0 <= n -> 4 * (j - i) + n <= zlen m ->
  slice (word_set m i w) (4 * j) n = slice m (4 * j) n.
Proof.
  intros. unfold word_set. replace (4 * j) with (4 * i + 4 * (j - i)) by lia.
  apply slice_blit_disjoint; rewrite ?zlen_le_split; lia.
Qed.

(** Reading a word after writing one. *)
Lemma word_get_set N m i w j :
  0 < N -> zlen m = 4 * N -> 0 <= w < 2 ^ 32 -> 0 <= j < N ->
  word_get (word_set m i w) j = if decide (i mod N = j) then w else word_get m j.
Proof.
  intros HN Hm Hw Hj. rewrite <- (word_set_mod m i w N) by done.
  pose proof (Z.mod_pos_bound i N HN). set (k := i mod N) in *. clearbody k. case_decide as E.
  - subst. apply word_get_set_same; lia.
  - unfold word_get. f_equal.
    assert (Hshift : forall m', zlen m' = 4 * N -> slice m' (4 * j) 4 = slice m' (4 * (j + N)) 4).
    { intros m' Hm'. apply slice_congr. rewrite Hm'.
      replace (4 * (j + N)) with (4 * j + 1 * (4 * N)) by lia. symmetry. apply Z_mod_plus_full. }
    destruct (Z_lt_le_dec k j).
    + apply slice_word_set_disjoint; lia.
    + rewrite !Hshift by (by rewrite ?zlen_word_set). apply slice_word_set_disjoint; lia.
Qed.
