(* ===== verification/Cstring.v ===== *)
(** * C strings in byte buffers (lib/strlcpy.c, lib/strlcat.c, lib/strchrnul.c)

    A buffer is the list of its bytes; an access outside it is [None].  A string
    is the list of its bytes without the final NUL; a pointer into a string is
    the rest of the string from there on. *)
From Stdlib Require Import Ascii String.
From S2P Require Import Prelude.
Export String.StringSyntax.

(** ** Literals *)

Definition byte_of (a : ascii) : Z := Z.of_N (N_of_ascii a).
Definition bytes (s : String.string) : list Z := byte_of <$> String.list_ascii_of_string s.
Arguments bytes s%_string.

(** [c] is one of the characters of [s]. *)
Definition among (c : Z) (s : String.string) : bool := existsb (Z.eqb c) (bytes s).
Arguments among c s%_string.

(** ** Buffers *)

(** [memcpy (&b[i], bs, len bs)]. *)
Definition buf_put (b : list Z) (i : Z) (bs : list Z) : option (list Z) :=
  if (0 <=? i) && (i + zlen bs <=? zlen b)
  then Some (take (Z.to_nat i) b ++ bs ++ drop (Z.to_nat (i + zlen bs)) b) else None.

(** [n] bytes from [i] on. *)
Definition buf_get (b : list Z) (i n : Z) : option (list Z) :=
  if (0 <=? i) && (i + n <=? zlen b) then Some (take (Z.to_nat n) (drop (Z.to_nat i) b)) else None.

(** The string at the start of a buffer. *)
Fixpoint cstr (b : list Z) : option (list Z) :=
  match b with
  | [] => None
  | c :: b => if c =? 0 then Some [] else cons c <$> cstr b
  end.

Definition cstr_at (b : list Z) (i : Z) : option (list Z) :=
  if (0 <=? i) && (i <=? zlen b) then cstr (drop (Z.to_nat i) b) else None.

(** ** String functions *)

(** The result of the copy and the length of [src]. *)
Definition strlcpy (dest : list Z) (at_ : Z) (src : list Z) (maxlen : Z) : option (list Z * Z) :=
  let srclen := zlen src in
  if maxlen =? 0 then Some (dest, srclen)
  else
    let len2cpy := QB_MIN (maxlen - 1) srclen in
    dest ← buf_put dest at_ (take (Z.to_nat len2cpy) src);
    dest ← buf_put dest (at_ + len2cpy) [0];
    Some (dest, srclen).

Definition strlcat (dest : list Z) (src : list Z) (maxlen : Z) : option (list Z * Z) :=
  cur ← cstr dest;
  let curlen := zlen cur in
  let appendlen := u64 (maxlen - curlen) in
  if 0 <? appendlen then
    '(dest, _) ← strlcpy dest curlen src appendlen;
    Some (dest, curlen + zlen src)
  else Some (dest, curlen + zlen src).

Fixpoint strchrnul (s : list Z) (c : Z) : list Z :=
  match s with
  | [] => []
  | x :: s' => if x =? c then s else strchrnul s' c
  end.

(** [snprintf] of a text: at most [n - 1] bytes and a NUL; the result is the
    length of the text. *)
Definition snprintf (dest : list Z) (at_ n : Z) (text : list Z) : option (list Z * Z) :=
  if n =? 0 then Some (dest, zlen text)
  else dest ← buf_put dest at_ (take (Z.to_nat (n - 1)) text ++ [0]); Some (dest, zlen text).

(** The decimal digits that [%d] prints. *)
Fixpoint digits (fuel : nat) (n : Z) : list Z :=
  match fuel with
  | O => []
  | S fuel' => (if n <? 10 then [] else digits fuel' (n / 10)) ++ [48 + n mod 10]
  end.
Definition decimal (n : Z) : list Z := if n <? 0 then 45 :: digits 20 (- n) else digits 20 n.

(** ** Lemmas *)

Lemma buf_put_end out rest bs :
  zlen bs <= zlen rest -> buf_put (out ++ rest) (zlen out) bs = Some ((out ++ bs) ++ drop (length bs) rest).
Proof.
  intros H. unfold buf_put. pose proof (zlen_nonneg out).
  rewrite (proj2 (Z.leb_le 0 (zlen out))), (proj2 (Z.leb_le _ (zlen (out ++ rest)))) by (rewrite ?zlen_app; lia). cbn [andb].
  unfold zlen. rewrite Nat2Z.id, take_app_length. replace (Z.to_nat (Z.of_nat (length out) + Z.of_nat (length bs))) with (length out + length bs)%nat by lia.
  by rewrite <- drop_drop, drop_app_length, app_assoc.
Qed.

Lemma buf_get_mid pre bs post : buf_get (pre ++ bs ++ post) (zlen pre) (zlen bs) = Some bs.
Proof.
  unfold buf_get. pose proof (zlen_nonneg pre). pose proof (zlen_nonneg bs). pose proof (zlen_nonneg post).
  rewrite (proj2 (Z.leb_le 0 (zlen pre))), (proj2 (Z.leb_le _ (zlen _))) by (rewrite ?zlen_app; lia). cbn [andb].
  unfold zlen. by rewrite !Nat2Z.id, drop_app_length, take_app_length.
Qed.

Definition nul_free (s : list Z) : Prop := Forall (fun c => c <> 0) s.

Lemma cstr_app s rest : nul_free s -> cstr (s ++ 0 :: rest) = Some s.
Proof.
  induction 1 as [|c s Hc _ IH]; [done|]. cbn [app cstr]. destruct (Z.eqb_spec c 0); [done|]. by rewrite IH.
Qed.

Lemma cstr_at_mid pre s post : nul_free s -> cstr_at (pre ++ s ++ 0 :: post) (zlen pre) = Some s.
Proof.
  intros Hs. unfold cstr_at. pose proof (zlen_nonneg pre). pose proof (zlen_nonneg (s ++ 0 :: post)).
  rewrite (zlen_app pre), (proj2 (Z.leb_le 0 (zlen pre))), (proj2 (Z.leb_le (zlen pre) (zlen pre + zlen (s ++ 0 :: post)))) by lia.
  cbn [andb]. unfold zlen. rewrite Nat2Z.id, drop_app_length. by apply cstr_app.
Qed.

Lemma strlcpy_end out rest src maxlen :
  zlen src < maxlen -> zlen src < zlen rest ->
  strlcpy (out ++ rest) (zlen out) src maxlen = Some ((out ++ src ++ [0]) ++ drop (S (length src)) rest, zlen src).
Proof.
  intros Hm Hr. pose proof (zlen_nonneg src). unfold strlcpy. destruct (Z.eqb_spec maxlen 0); [lia|].
  unfold QB_MIN. destruct (Z.ltb_spec (maxlen - 1) (zlen src)); [lia|].
  replace (take (Z.to_nat (zlen src)) src) with src by (unfold zlen; by rewrite Nat2Z.id, firstn_all).
  rewrite buf_put_end by lia. cbn [mbind option_bind]. rewrite <- zlen_app.
  rewrite buf_put_end by (unfold zlen in *; cbn [length]; rewrite length_drop; lia). cbn [mbind option_bind].
  rewrite drop_drop. cbn [length]. by rewrite Nat.add_1_r, !app_assoc.
Qed.

Lemma snprintf_end out rest n text :
  zlen text < n -> zlen text < zlen rest ->
  snprintf (out ++ rest) (zlen out) n text = Some ((out ++ text ++ [0]) ++ drop (S (length text)) rest, zlen text).
Proof.
  intros Hn Hr. pose proof (zlen_nonneg text). unfold snprintf. destruct (Z.eqb_spec n 0); [lia|].
  rewrite take_ge by (unfold zlen in *; lia). rewrite buf_put_end by (rewrite zlen_app, zlen_cons, zlen_nil; lia).
  cbn [mbind option_bind]. rewrite length_app. cbn [length]. by rewrite Nat.add_1_r.
Qed.

Lemma strchrnul_skip s c rest : Forall (fun x => x <> c) s -> strchrnul (s ++ c :: rest) c = c :: rest.
Proof.
  induction 1 as [|x s Hx _ IH]; cbn [app strchrnul]; [by rewrite Z.eqb_refl|]. destruct (Z.eqb_spec x c); [done|]. exact IH.
Qed.

Lemma strchrnul_none s c : Forall (fun x => x <> c) s -> strchrnul s c = [].
Proof. induction 1 as [|x s Hx _ IH]; cbn [strchrnul]; [done|]. destruct (Z.eqb_spec x c); [done|]. exact IH. Qed.

Lemma among_elem c s : among c s = true <-> c ∈ bytes s.
Proof.
  unfold among. rewrite existsb_exists. split.
  - intros (x & Hx & E%Z.eqb_eq). subst. by apply list_elem_of_In.
  - intros Hc. exists c. split; [by apply list_elem_of_In|apply Z.eqb_refl].
Qed.

(** Compute [among] on literals. *)
Ltac among_compute :=
  repeat match goal with
  | |- context [among ?c ?s] => let r := eval vm_compute in (among c s) in change (among c s) with r
  end; cbv iota.

(** A character of a literal is each of its characters in turn. *)
Ltac among_cases H :=
  apply among_elem in H; match type of H with _ ∈ ?l => let r := eval vm_compute in l in change l with r in H end;
  repeat (apply elem_of_cons in H as [->|H]); [..|by apply not_elem_of_nil in H].

(** Characters with no meaning of their own in a format. *)
Definition plain (c : Z) : Prop := c <> 0 /\ c <> 37 /\ c <> 7.
Definition plain_text (s : list Z) : Prop := Forall plain s.

Lemma plain_nul_free s : plain_text s -> nul_free s.
Proof. apply Forall_impl. by intros c [? _]. Qed.
Lemma plain_no_percent s : plain_text s -> Forall (fun c => c <> 37) s.
Proof. apply Forall_impl. by intros c (_ & ? & _). Qed.

Lemma digits_range fuel : forall n, Forall (fun c => 48 <= c <= 57) (digits fuel n).
Proof.
  induction fuel as [|fuel IH]; intros n; cbn [digits]; [constructor|]. apply Forall_app. split; [|constructor; [zlia|constructor]].
  destruct (n <? 10); [constructor|apply IH].
Qed.

Lemma decimal_nul_free n : nul_free (decimal n).
Proof.
  assert (Hd : forall m, nul_free (digits 20 m)).
  { intros m. eapply Forall_impl; [|apply digits_range]. cbn. lia. }
  unfold decimal. destruct (n <? 0); [constructor; [done|apply Hd]|apply Hd].
Qed.

(** ** Writes below a bound *)

(** [b'] is [b] with changes below [m] only. *)
Definition same_from (m : Z) (b b' : list Z) : Prop := zlen b' = zlen b /\ drop (Z.to_nat m) b' = drop (Z.to_nat m) b.

#[export] Instance same_from_refl m : Reflexive (same_from m).
Proof. by split. Qed.
#[export] Instance same_from_trans m : Transitive (same_from m).
Proof. intros b1 b2 b3 [H1 H2] [H3 H4]. split; congruence. Qed.

Lemma buf_put_below m b i bs b' : buf_put b i bs = Some b' -> i + zlen bs <= m -> same_from m b b'.
Proof.
  unfold buf_put. destruct (Z.leb_spec 0 i), (Z.leb_spec (i + zlen bs) (zlen b)); cbn [andb]; try done. intros [= <-] Hm.
  pose proof (zlen_nonneg bs). unfold same_from, zlen in *. split.
  - rewrite !length_app, length_take, length_drop. lia.
  - rewrite app_assoc, drop_app_ge by (rewrite length_app, length_take; lia).
    rewrite drop_drop. f_equal. rewrite length_app, length_take. lia.
Qed.

Lemma strlcpy_below m b i src maxlen b' rc :
  strlcpy b i src maxlen = Some (b', rc) -> 0 <= maxlen -> i + maxlen <= m -> same_from m b b'.
Proof.
  unfold strlcpy. intros E Hn Hm. destruct (Z.eqb_spec maxlen 0); [by injection E as <- _|]. pose proof (zlen_nonneg src).
  set (len := QB_MIN (maxlen - 1) (zlen src)) in *.
  assert (Hlen : 0 <= len <= maxlen - 1 /\ len <= zlen src) by (unfold len, QB_MIN; zcase; lia).
  destruct (buf_put b i _) as [b1|] eqn:E1; [|done]. cbn [mbind option_bind] in E.
  destruct (buf_put b1 (i + len) [0]) as [b2|] eqn:E2; [|done]. cbn [mbind option_bind] in E. injection E as <- _.
  apply (buf_put_below m) in E1; [|unfold zlen in *; rewrite length_take; lia].
  apply (buf_put_below m) in E2; [|rewrite zlen_cons, zlen_nil; lia]. by etrans.
Qed.
