(* ===== verification/RingBuffer.v ===== *)
(** * Ring buffer (lib/ringbuffer.c, lib/ringbuffer_int.h)

    The state of a ring buffer and its chunk operations.  The data area is a
    list of bytes mapped twice in a row (file [Memory]); the header is a
    record; the notifier is a record of optional functions on an instance
    state of any type [I], as the code's [struct qb_rb_notifier] is a record of
    function pointers on a [void *instance].

    A pointer argument that may be NULL is an [option]; operations that change
    the ring return it.  [errno] is passed explicitly to the operations that
    read it or set it for a caller that reads it.  A wait that never returns, or
    a call through a function pointer that is not set, is [None]. *)
From stdpp Require Import strings.
From S2P Require Import Prelude Memory.

(** ** Constants *)

Definition QB_RB_FLAG_CREATE : Z := 1.
Definition QB_RB_FLAG_OVERWRITE : Z := 2.
Definition QB_RB_FLAG_SHARED_THREAD : Z := 4.
Definition QB_RB_FLAG_SHARED_PROCESS : Z := 8.
Definition QB_RB_FLAG_NO_SEMAPHORE : Z := 16.

Definition QB_RB_FILE_HEADER_VERSION : Z := 1.
Definition QB_CACHE_LINE_WORDS : Z := 0.
Definition QB_RB_CHUNK_HEADER_WORDS : Z := 2.
Definition QB_RB_WORD_ALIGN : Z := 1.
Definition QB_RB_CHUNK_MARGIN : Z :=
  4 * (QB_RB_CHUNK_HEADER_WORDS + QB_RB_WORD_ALIGN + QB_CACHE_LINE_WORDS).
Definition QB_RB_CHUNK_MAGIC : Z := 0xA1A1A1A1.
Definition QB_RB_CHUNK_MAGIC_DEAD : Z := 0xD0D0D0D0.
Definition QB_RB_CHUNK_MAGIC_ALLOC : Z := 0xA110CED0.

(** ** State *)

Record qb_rb_notifier (I : Type) := {
  post_fn : option (I -> Z -> I * Z);
  q_len_fn : option (I -> Z);
  space_used_fn : option (I -> Z);
  timedwait_fn : option (I -> Z -> option (I * Z));
  reclaim_fn : option (I -> Z -> I * Z);
  destroy_fn : option (I -> I * Z);
}.
Arguments post_fn {I}. Arguments q_len_fn {I}. Arguments space_used_fn {I}.
Arguments timedwait_fn {I}. Arguments reclaim_fn {I}. Arguments destroy_fn {I}.
Arguments Build_qb_rb_notifier {I}.

Record qb_ringbuffer_shared_s := {
  write_pt : Z;
  read_pt : Z;
  word_size : Z;
  hdr_path : string;
  data_path : string;
  ref_count : Z;
}.

Record qb_ringbuffer_s (I : Type) := {
  flags : Z;
  shared_hdr : qb_ringbuffer_shared_s;
  shared_data : list Z;
  notifier : qb_rb_notifier I;
  instance : I;
}.
Arguments flags {I}. Arguments shared_hdr {I}. Arguments shared_data {I}.
Arguments notifier {I}. Arguments instance {I}. Arguments Build_qb_ringbuffer_s {I}.

Section Ops.
Context {I : Type}.
Abbreviation RB := (qb_ringbuffer_s I).
Implicit Types (rb : RB).

Definition set_hdr rb (h : qb_ringbuffer_shared_s) : RB :=
  {| flags := flags rb; shared_hdr := h; shared_data := shared_data rb;
     notifier := notifier rb; instance := instance rb |}.
Definition set_write_pt rb (p : Z) : RB :=
  let h := shared_hdr rb in
  set_hdr rb {| write_pt := p; read_pt := read_pt h; word_size := word_size h;
     hdr_path := hdr_path h; data_path := data_path h; ref_count := ref_count h |}.
Definition set_read_pt rb (p : Z) : RB :=
  let h := shared_hdr rb in
  set_hdr rb {| write_pt := write_pt h; read_pt := p; word_size := word_size h;
     hdr_path := hdr_path h; data_path := data_path h; ref_count := ref_count h |}.
Definition set_ref_count rb (n : Z) : RB :=
  let h := shared_hdr rb in
  set_hdr rb {| write_pt := write_pt h; read_pt := read_pt h; word_size := word_size h;
     hdr_path := hdr_path h; data_path := data_path h; ref_count := n |}.
Definition set_data rb (m : list Z) : RB :=
  {| flags := flags rb; shared_hdr := shared_hdr rb; shared_data := m;
     notifier := notifier rb; instance := instance rb |}.
Definition set_instance rb (i : I) : RB :=
  {| flags := flags rb; shared_hdr := shared_hdr rb; shared_data := shared_data rb;
     notifier := notifier rb; instance := i |}.

(** The word at [shared_data[p]]. *)
Definition QB_RB_CHUNK_SIZE_GET rb (p : Z) : Z := word_get (shared_data rb) p.
Definition QB_RB_CHUNK_MAGIC_GET rb (p : Z) : Z :=
  word_get (shared_data rb) (u32 (p + 1) mod word_size (shared_hdr rb)).
Definition QB_RB_CHUNK_MAGIC_SET rb (p new_val : Z) : RB :=
  set_data rb (word_set (shared_data rb) (u32 (p + 1) mod word_size (shared_hdr rb)) new_val).
(** The byte offset in the data area of the address the macro computes. *)
Definition QB_RB_CHUNK_DATA_GET rb (p : Z) : Z :=
  4 * (u32 (p + QB_RB_CHUNK_HEADER_WORDS) mod word_size (shared_hdr rb)).

Definition idx_cache_line_step rb (idx : Z) : Z :=
  if u32 (word_size (shared_hdr rb) - 1) <? idx
  then idx mod word_size (shared_hdr rb) else idx.

(** ** Space *)

Definition qb_rb_space_free (orb : option RB) : Z :=
  match orb with
  | None => - EINVAL
  | Some rb =>
    let h := shared_hdr rb in
    match space_used_fn (notifier rb) with
    | Some f => i64 (word_size h * 4 - f (instance rb))
    | None =>
      let write_size := write_pt h in
      let read_size := read_pt h in
      let space_free :=
        if read_size <? write_size then
          u32 (u32 (read_size - write_size + word_size h) - 1)
        else if write_size <? read_size then
          u32 (u32 (read_size - write_size) - 1)
        else if match q_len_fn (notifier rb) with
                | Some f => 0 <? f (instance rb)
                | None => false
                end
        then 0 else word_size h in
      i64 (u64 (space_free * 4))
    end
  end.

Definition qb_rb_space_used (orb : option RB) : Z :=
  match orb with
  | None => - EINVAL
  | Some rb =>
    let h := shared_hdr rb in
    match space_used_fn (notifier rb) with
    | Some f => f (instance rb)
    | None =>
      let write_size := write_pt h in
      let read_size := read_pt h in
      let space_used :=
        if read_size <? write_size then u32 (write_size - read_size)
        else if write_size <? read_size then
          u32 (u32 (write_size - read_size + word_size h) - 1)
        else 0 in
      i64 (u64 (space_used * 4))
    end
  end.

Definition qb_rb_chunks_used (orb : option RB) : Z :=
  match orb with
  | None => - EINVAL
  | Some rb =>
    match q_len_fn (notifier rb) with
    | Some f => f (instance rb)
    | None => - ENOTSUP
    end
  end.

Definition qb_rb_refcount_get (orb : option RB) : Z :=
  match orb with
  | None => - EINVAL
  | Some rb => ref_count (shared_hdr rb)
  end.

(** ** Chunks *)

Definition qb_rb_chunk_step rb (pointer : Z) : Z :=
  let chunk_size := QB_RB_CHUNK_SIZE_GET rb pointer in
  let pointer := u32 (pointer + QB_RB_CHUNK_HEADER_WORDS) in
  let pointer := u32 (pointer + chunk_size / 4) in
  let pointer :=
    if chunk_size mod (4 * QB_RB_WORD_ALIGN) =? 0 then pointer else u32 (pointer + 1) in
  idx_cache_line_step rb pointer.

(** Returns the ring, [errno] and the return code. *)
Definition _rb_chunk_reclaim rb (errno : Z) : RB * Z * Z :=
  let old_read_pt := read_pt (shared_hdr rb) in
  let chunk_magic := QB_RB_CHUNK_MAGIC_GET rb old_read_pt in
  if negb (chunk_magic =? QB_RB_CHUNK_MAGIC) then (rb, EINVAL, - EINVAL)
  else
    let old_chunk_size := QB_RB_CHUNK_SIZE_GET rb old_read_pt in
    let new_read_pt := qb_rb_chunk_step rb old_read_pt in
    let rb := set_data rb (word_set (shared_data rb) old_read_pt 0) in
    let rb := QB_RB_CHUNK_MAGIC_SET rb old_read_pt QB_RB_CHUNK_MAGIC_DEAD in
    let rb := set_read_pt rb new_read_pt in
    match reclaim_fn (notifier rb) with
    | Some f =>
      let '(i, rc) := f (instance rb) old_chunk_size in
      (set_instance rb i, if rc <? 0 then - rc else errno, rc)
    | None => (rb, errno, 0)
    end.

Definition qb_rb_chunk_reclaim (orb : option RB) (errno : Z) : option RB * Z :=
  match orb with
  | None => (None, errno)
  | Some rb => let '(rb, errno, _) := _rb_chunk_reclaim rb errno in (Some rb, errno)
  end.

(** The test [qb_rb_space_free(rb) < (len + QB_RB_CHUNK_MARGIN)], a comparison
    of a [ssize_t] with a [size_t], hence unsigned. *)
Definition no_space rb (len : Z) : bool :=
  u64 (qb_rb_space_free (Some rb)) <? u64 (len + QB_RB_CHUNK_MARGIN).

(** The reclaim loop of an overwriting ring: [inl] the ring with enough space,
    [inr] the ring and [errno] after a failed reclaim, [None] out of fuel. *)
Fixpoint overwrite_loop (fuel : nat) rb (len errno : Z) : option ((RB * Z) + (RB * Z)) :=
  match fuel with
  | O => None
  | S fuel' =>
    if no_space rb len then
      let '(rb', errno', rc) := _rb_chunk_reclaim rb errno in
      if rc =? 0 then overwrite_loop fuel' rb' len errno' else Some (inr (rb', errno'))
    else Some (inl (rb, errno))
  end.

(** What [qb_rb_chunk_alloc] returns: the byte offset of the chunk's data, or
    NULL; [Alloc_diverges] is the reclaim loop out of fuel. *)
Inductive alloc_result :=
  | Alloc_at (off : Z)
  | Alloc_null
  | Alloc_diverges.

Definition insert_chunk_header rb : RB :=
  let p := write_pt (shared_hdr rb) in
  let rb := set_data rb (word_set (shared_data rb) p 0) in
  QB_RB_CHUNK_MAGIC_SET rb p QB_RB_CHUNK_MAGIC_ALLOC.

Definition qb_rb_chunk_alloc (orb : option RB) (len errno : Z)
    : option RB * Z * alloc_result :=
  match orb with
  | None => (None, EINVAL, Alloc_null)
  | Some rb =>
    if has_flag (flags rb) QB_RB_FLAG_OVERWRITE then
      match overwrite_loop (S (Z.to_nat (word_size (shared_hdr rb)))) rb len errno with
      | None => (Some rb, errno, Alloc_diverges)
      | Some (inr (rb, errno)) => (Some rb, errno, Alloc_null)
      | Some (inl (rb, errno)) =>
        (Some (insert_chunk_header rb), errno,
         Alloc_at (QB_RB_CHUNK_DATA_GET rb (write_pt (shared_hdr rb))))
      end
    else if no_space rb len then (Some rb, EAGAIN, Alloc_null)
    else (Some (insert_chunk_header rb), errno,
          Alloc_at (QB_RB_CHUNK_DATA_GET rb (write_pt (shared_hdr rb))))
  end.

Definition qb_rb_chunk_commit (orb : option RB) (len : Z) : option RB * Z :=
  match orb with
  | None => (None, - EINVAL)
  | Some rb =>
    let old_write_pt := write_pt (shared_hdr rb) in
    let rb := set_data rb (word_set (shared_data rb) old_write_pt (u32 len)) in
    let rb := set_write_pt rb (qb_rb_chunk_step rb old_write_pt) in
    let rb := QB_RB_CHUNK_MAGIC_SET rb old_write_pt QB_RB_CHUNK_MAGIC in
    match post_fn (notifier rb) with
    | Some f => let '(i, rc) := f (instance rb) len in (Some (set_instance rb i), rc)
    | None => (Some rb, 0)
    end
  end.

(** [None]: the reclaim loop out of fuel.  [data] is the [len] bytes copied. *)
Definition qb_rb_chunk_write (orb : option RB) (data : list Z) (errno : Z)
    : option (option RB * Z * Z) :=
  let len := zlen data in
  let '(orb, errno, dest) := qb_rb_chunk_alloc orb len errno in
  match orb with
  | None => Some (None, errno, - EINVAL)
  | Some rb =>
    match dest with
    | Alloc_diverges => None
    | Alloc_null => Some (orb, errno, - errno)
    | Alloc_at off =>
      let rb := set_data rb (blit (shared_data rb) off data) in
      let '(orb, res) := qb_rb_chunk_commit (Some rb) len in
      Some (orb, errno, if res <? 0 then res else len)
    end
  end.

(** Wait for the notifier, if there is one; [None] blocks for ever. *)
Definition wait_notifier rb (timeout : Z) : option (RB * Z) :=
  match timedwait_fn (notifier rb) with
  | Some f =>
    match f (instance rb) timeout with
    | Some (i, res) => Some (set_instance rb i, res)
    | None => None
    end
  | None => Some (rb, 0)
  end.

(** Call [post_fn] if it is set and drop its result. *)
Definition repost rb (v : Z) : RB :=
  match post_fn (notifier rb) with
  | Some f => set_instance rb (fst (f (instance rb) v))
  | None => rb
  end.

(** The third component is [*data_out] where the code assigns it. *)
Definition qb_rb_chunk_peek (orb : option RB) (timeout : Z)
    : option (option RB * Z * option Z) :=
  match orb with
  | None => Some (None, - EINVAL, None)
  | Some rb =>
    match wait_notifier rb timeout with
    | None => None
    | Some (rb, res) =>
      if (res <? 0) && negb (res =? - EIDRM) then
        if res =? - ETIMEDOUT then Some (Some rb, 0, None)
        else Some (Some rb, res, None)
      else
        let read_pt := read_pt (shared_hdr rb) in
        let chunk_magic := QB_RB_CHUNK_MAGIC_GET rb read_pt in
        if negb (chunk_magic =? QB_RB_CHUNK_MAGIC) then
          Some (Some (repost rb res), - EBADMSG, None)
        else
          let chunk_size := QB_RB_CHUNK_SIZE_GET rb read_pt in
          Some (Some rb, chunk_size, Some (QB_RB_CHUNK_DATA_GET rb read_pt))
    end
  end.

(** The third component is the bytes copied to [data_out]. *)
Definition qb_rb_chunk_read (orb : option RB) (len timeout errno : Z)
    : option (option RB * Z * list Z) :=
  match orb with
  | None => Some (None, - EINVAL, [])
  | Some rb =>
    match wait_notifier rb timeout with
    | None => None
    | Some (rb, res) =>
      if (res <? 0) && negb (res =? - EIDRM) then Some (Some rb, res, [])
      else
        let read_pt := read_pt (shared_hdr rb) in
        let chunk_magic := QB_RB_CHUNK_MAGIC_GET rb read_pt in
        if negb (chunk_magic =? QB_RB_CHUNK_MAGIC) then
          match timedwait_fn (notifier rb) with
          | None => Some (Some rb, - ETIMEDOUT, [])
          | Some _ =>
            match post_fn (notifier rb) with
            | Some f => Some (Some (set_instance rb (fst (f (instance rb) res))), - EBADMSG, [])
            | None => None
            end
          end
        else
          let chunk_size := QB_RB_CHUNK_SIZE_GET rb read_pt in
          if len <? chunk_size then Some (Some (repost rb chunk_size), - ENOBUFS, [])
          else
            let out := slice (shared_data rb) (QB_RB_CHUNK_DATA_GET rb read_pt) chunk_size in
            let '(rb, _, _) := _rb_chunk_reclaim rb errno in
            Some (Some rb, chunk_size, out)
    end
  end.
End Ops.
