(* ===== verification/Util.v ===== *)
(** * Utilities: the stopwatch (lib/util.c), files and mappings (lib/unix.c)

    A stopwatch keeps the times of its splits in an array, which it may use over
    again.  The files behind shared memory are opened and mapped by sequences of
    system calls, whose answers are an argument and which are a result. *)
From stdpp Require Import strings list.
From S2P Require Import Prelude Memory Cstring RingBuffer.

(** * The stopwatch *)
Module Stopwatch.

Definition QB_TIME_NS_IN_SEC : Z := 1000000000.
Definition QB_TIME_NS_IN_USEC : Z := 1000.
Definition QB_UTIL_SW_OVERWRITE : Z := 1.

(** [split_entry_list] is [None] for NULL. *)
Record qb_util_stopwatch := {
  started : Z;
  stopped : Z;
  split_options : Z;
  split_size : Z;
  split_entries : Z;
  split_entry_list : option (list Z);
}.

(** Times are read from a clock: each [now] is a result of
    [qb_util_nano_current_get]; [errno] is that of a failed [calloc]. *)
Definition qb_util_stopwatch_create (calloc_ok : bool) : option qb_util_stopwatch :=
  if calloc_ok then
    Some {| started := 0; stopped := 0; split_options := 0; split_size := 0; split_entries := 0; split_entry_list := None |}
  else None.

Definition qb_util_stopwatch_start (sw : qb_util_stopwatch) (now : Z) : qb_util_stopwatch :=
  {| started := now; stopped := 0; split_options := split_options sw; split_size := split_size sw; split_entries := 0;
     split_entry_list := split_entry_list sw |}.

Definition qb_util_stopwatch_stop (sw : qb_util_stopwatch) (now : Z) : qb_util_stopwatch :=
  {| started := started sw; stopped := now; split_options := split_options sw; split_size := split_size sw;
     split_entries := split_entries sw; split_entry_list := split_entry_list sw |}.

Definition qb_util_stopwatch_us_elapsed_get (sw : qb_util_stopwatch) : Z :=
  if (stopped sw =? 0) || (started sw =? 0) then 0 else u64 (stopped sw - started sw) / QB_TIME_NS_IN_USEC.

Definition qb_util_stopwatch_split_ctl (sw : qb_util_stopwatch) (max_splits options : Z) (calloc_ok : bool) (errno : Z)
    : qb_util_stopwatch * Z :=
  ({| started := started sw; stopped := stopped sw; split_options := options; split_size := max_splits;
      split_entries := split_entries sw;
      split_entry_list := if calloc_ok then Some (zrepeat 0 max_splits) else None |},
   if calloc_ok then 0 else - errno).

(** [None]: an access through NULL or beyond the array. *)
Definition entry_at (sw : qb_util_stopwatch) (i : Z) : option Z :=
  l ← split_entry_list sw; if (0 <=? i) && (i <? zlen l) then Some (zget l i) else None.
Definition record_entry (sw : qb_util_stopwatch) (i now : Z) : option qb_util_stopwatch :=
  l ← split_entry_list sw;
  if (0 <=? i) && (i <? zlen l) then
    Some {| started := started sw; stopped := stopped sw; split_options := split_options sw; split_size := split_size sw;
            split_entries := u32 (split_entries sw + 1); split_entry_list := Some (zset l i now) |}
  else None.

(** [start] is the time at which a stopwatch is started that was not. *)
Definition qb_util_stopwatch_split (sw : qb_util_stopwatch) (start now : Z) : option (qb_util_stopwatch * Z) :=
  if split_size sw =? 0 then Some (sw, 0)
  else if negb (has_flag (split_options sw) QB_UTIL_SW_OVERWRITE) && (split_entries sw =? split_size sw) then Some (sw, 0)
  else
    let sw := if started sw =? 0 then qb_util_stopwatch_start sw start else sw in
    let new_entry_pos := split_entries sw mod split_size sw in
    sw ← record_entry sw new_entry_pos now;
    time_start ← entry_at sw new_entry_pos;
    time_end ← (if split_entries sw =? 1 then Some (started sw)
                else if new_entry_pos =? 0 then entry_at sw (u32 (split_size sw - 1))
                else entry_at sw (u32 (new_entry_pos - 1) mod split_size sw));
    Some (sw, u64 (time_start - time_end) / QB_TIME_NS_IN_USEC).

Definition qb_util_stopwatch_split_last (sw : qb_util_stopwatch) : Z :=
  if negb (split_entries sw =? 0) then split_entries sw - 1 else split_entries sw.

Definition qb_util_stopwatch_time_split_get (sw : qb_util_stopwatch) (receint older : Z) : option Z :=
  if (started sw =? 0) || (split_entries sw <=? receint) || (split_entries sw <=? older) || (receint <? older) then Some 0
  else if has_flag (split_options sw) QB_UTIL_SW_OVERWRITE &&
          ((receint <? u32 (split_entries sw - split_size sw)) || (older <? u32 (split_entries sw - split_size sw))) then Some 0
  else
    time_start ← entry_at sw (receint mod split_size sw);
    time_end ← (if older =? receint then Some (started sw) else entry_at sw (older mod split_size sw));
    Some (u64 (time_start - time_end) / QB_TIME_NS_IN_USEC).

(** [qb_timespec_add_ms]: seconds and nanoseconds; division of C. *)
Definition qb_timespec_add_ms (ts : Z * Z) (ms : Z) : Z * Z :=
  let sec := fst ts + Z.quot ms 1000 in
  let nsec := snd ts + Z.rem ms 1000 * QB_TIME_NS_IN_MSEC in
  if 1000000000 <=? nsec then (sec + 1, nsec - 1000000000) else (sec, nsec).

(** ** The splits since the start *)

Definition overwrites (sw : qb_util_stopwatch) : bool := has_flag (split_options sw) QB_UTIL_SW_OVERWRITE.

(** The stopwatch was started at [t0] and split at the [times]; the array has the
    newest of them. *)
Record sw_rep (sw : qb_util_stopwatch) (t0 : Z) (times : list Z) : Prop := {
  rep_started : started sw = t0;
  rep_nonzero : 0 < t0;
  rep_size : 0 < split_size sw < 2 ^ 32;
  rep_entries : split_entries sw = zlen times;
  rep_few : zlen times < 2 ^ 32;
  rep_full : overwrites sw = false -> zlen times <= split_size sw;
  rep_list : exists l, split_entry_list sw = Some l /\ zlen l = split_size sw /\
    forall i, 0 <= i < zlen times -> zlen times - split_size sw <= i -> zget l (i mod split_size sw) = zget times i;
}.

Lemma entry_at_rep sw t0 times i : sw_rep sw t0 times ->
  0 <= i < zlen times -> zlen times - split_size sw <= i -> entry_at sw (i mod split_size sw) = Some (zget times i).
Proof.
  intros [H1 H2 H3 H4 H5 H6 (l & Hl & Hz & Hg)] Hi Hn. unfold entry_at. rewrite Hl. cbn.
  pose proof (Z.mod_pos_bound i (split_size sw)). rewrite (proj2 (Z.leb_le _ _)), (proj2 (Z.ltb_lt _ _)) by lia.
  cbn. by rewrite Hg.
Qed.

Lemma zget_snoc (l : list Z) x i : 0 <= i <= zlen l -> zget (l ++ [x]) i = if i =? zlen l then x else zget l i.
Proof.
  intros Hi. unfold zget, zlen in *. destruct (Z.eqb_spec i (Z.of_nat (length l))) as [->|Hne].
  - rewrite Nat2Z.id. apply list_lookup_total_correct. by apply list_lookup_middle.
  - rewrite !list_lookup_total_alt. by rewrite lookup_app_l by lia.
Qed.

(** Two places of the array are the same only for entries a multiple of its size apart. *)
Lemma mod_ne a b n : 0 < n -> a < b < a + n -> a mod n <> b mod n.
Proof.
  intros Hn Hab He. assert ((b - a) mod n = 0) as H0 by (rewrite Zminus_mod, He, Z.sub_diag; done).
  rewrite Z.mod_small in H0 by lia. lia.
Qed.

(** A new time goes where the oldest one was. *)
Lemma record_rep sw t0 times now : sw_rep sw t0 times -> overwrites sw = true \/ zlen times < split_size sw ->
  zlen times + 1 < 2 ^ 32 ->
  exists sw', record_entry sw (split_entries sw mod split_size sw) now = Some sw' /\ sw_rep sw' t0 (times ++ [now]) /\
    split_size sw' = split_size sw /\ overwrites sw' = overwrites sw.
Proof.
  intros [H1 H2 H3 H4 H5 H6 (l & Hl & Hz & Hg)] Hroom Hmax. unfold record_entry. rewrite Hl. cbn.
  pose proof (zlen_nonneg times). pose proof (Z.mod_pos_bound (split_entries sw) (split_size sw)).
  rewrite (proj2 (Z.leb_le _ _)), (proj2 (Z.ltb_lt _ _)) by lia. cbn. eexists. split; [done|].
  assert (Hlen : zlen (times ++ [now]) = zlen times + 1) by (rewrite zlen_app; reflexivity).
  split; [|done]. constructor; cbn; try done; rewrite ?Hlen; try lia.
  - rewrite H4, u32_small by lia. lia.
  - intros Ho. unfold overwrites in *. cbn in Ho. destruct Hroom; [congruence|lia].
  - exists (zset l (split_entries sw mod split_size sw) now). split_and!; [done|by rewrite zlen_zset|].
    intros i Hi Hn. rewrite zget_snoc by lia. rewrite H4. destruct (Z.eqb_spec i (zlen times)) as [->|Hne].
    + rewrite zget_zset_eq; [done|]. rewrite Hz. apply Z.mod_pos_bound. lia.
    + rewrite zget_zset_ne; [apply Hg; lia|apply Z.mod_pos_bound; lia|]. apply not_eq_sym, mod_ne; lia.
Qed.

(** The time a split is measured from: the split before it, or the start. *)
Definition before (t0 : Z) (times : list Z) : Z :=
  if zlen times =? 0 then t0 else zget times (zlen times - 1).
Definition lap (from to : Z) : Z := u64 (to - from) / QB_TIME_NS_IN_USEC.

(** The entry that is looked up as the one before. *)
Lemma previous_index k n : 0 < n < 2 ^ 32 -> 0 < k ->
  (if k mod n =? 0 then u32 (n - 1) else u32 (k mod n - 1) mod n) = (k - 1) mod n.
Proof.
  intros Hn Hk. pose proof (Z.mod_pos_bound k n). pose proof (Z.div_mod k n).
  destruct (Z.eqb_spec (k mod n) 0) as [E|E].
  - rewrite u32_small by lia. apply (Z.mod_unique_pos _ _ (k / n - 1)); lia.
  - rewrite u32_small, (Z.mod_small (k mod n - 1)) by lia. apply (Z.mod_unique_pos _ _ (k / n)); lia.
Qed.

(** Splitting, for a stopwatch that runs. *)
Lemma split_spec sw t0 times start now : sw_rep sw t0 times -> 2 <= split_size sw -> zlen times + 1 < 2 ^ 32 ->
  if negb (overwrites sw) && (zlen times =? split_size sw) then qb_util_stopwatch_split sw start now = Some (sw, 0)
  else exists sw', qb_util_stopwatch_split sw start now = Some (sw', lap (before t0 times) now) /\
    sw_rep sw' t0 (times ++ [now]) /\ split_size sw' = split_size sw /\ overwrites sw' = overwrites sw.
Proof.
  intros Hr Htwo Hmax. pose proof Hr as [H1 H2 H3 H4 H5 H6 _]. unfold qb_util_stopwatch_split. fold (overwrites sw).
  destruct (Z.eqb_spec (split_size sw) 0); [lia|]. rewrite H4. destruct (negb (overwrites sw) && _) eqn:Hfull; [done|].
  destruct (Z.eqb_spec (started sw) 0); [lia|].
  assert (Hroom : overwrites sw = true \/ zlen times < split_size sw).
  { destruct (overwrites sw); [by left|right]. destruct (Z.eqb_spec (zlen times) (split_size sw)); [done|].
    specialize (H6 eq_refl). lia. }
  destruct (record_rep sw t0 times now Hr Hroom Hmax) as (sw' & Hrec & Hr' & Hsz & Hov). rewrite H4 in Hrec.
  exists sw'. rewrite H4, Hrec. cbn [mbind option_bind].
  assert (Hlen : zlen (times ++ [now]) = zlen times + 1) by (rewrite zlen_app; reflexivity).
  pose proof (zlen_nonneg times). pose proof (Z.mod_pos_bound (zlen times) (split_size sw)) as Hmod.
  assert (Hnew : entry_at sw' (zlen times mod split_size sw) = Some now).
  { rewrite <- Hsz, (entry_at_rep sw' t0 _ (zlen times) Hr') by (rewrite ?Hlen, ?Hsz; lia).
    by rewrite zget_snoc, Z.eqb_refl by lia. }
  rewrite Hnew. cbn [mbind option_bind]. pose proof Hr' as [R1 _ _ R4 _ _ _]. rewrite R4, Hlen, R1, Hsz. unfold before.
  destruct (Z.eqb_spec (zlen times + 1) 1) as [E1|E1]; destruct (Z.eqb_spec (zlen times) 0) as [E0|E0]; try lia; [done|].
  assert (Hif : forall b x y, (if b : bool then entry_at sw' x else entry_at sw' y) = entry_at sw' (if b then x else y))
    by (by intros []).
  rewrite Hif, previous_index by lia.
  rewrite <- Hsz at 1. rewrite (entry_at_rep sw' t0 _ (zlen times - 1) Hr') by (rewrite ?Hlen, ?Hsz; lia).
  rewrite zget_snoc by lia. by destruct (Z.eqb_spec (zlen times - 1) (zlen times)); [lia|].
Qed.

(** ** Runs of splits *)

Fixpoint split_all (sw : qb_util_stopwatch) (nows : list Z) : option (qb_util_stopwatch * list Z) :=
  match nows with
  | [] => Some (sw, [])
  | now :: nows =>
    '(sw, d) ← qb_util_stopwatch_split sw 0 now;
    '(sw, ds) ← split_all sw nows;
    Some (sw, d :: ds)
  end.

(** What the splits are to return, and which times are recorded: all, or, without
    overwriting, as many as there is room for. *)
Fixpoint laps (n t0 : Z) (over : bool) (times nows : list Z) : list Z :=
  match nows with
  | [] => []
  | now :: nows =>
    if negb over && (zlen times =? n) then 0 :: laps n t0 over times nows
    else lap (before t0 times) now :: laps n t0 over (times ++ [now]) nows
  end.
Definition recorded (n : Z) (over : bool) (nows : list Z) : list Z := if over then nows else take (Z.to_nat n) nows.

(** The time between two splits, or from the start, if both are among the [n] newest. *)
Definition between (n t0 : Z) (times : list Z) (receint older : Z) : Z :=
  if (receint <? zlen times) && (older <=? receint) && (zlen times - n <=? older)
  then lap (if older =? receint then t0 else zget times older) (zget times receint) else 0.

Lemma time_split_spec sw t0 times receint older : sw_rep sw t0 times -> 0 <= receint -> 0 <= older ->
  (overwrites sw = true -> split_size sw <= zlen times) ->
  qb_util_stopwatch_time_split_get sw receint older = Some (between (split_size sw) t0 times receint older).
Proof.
  intros Hr Hrec Hold Hfull. pose proof Hr as [H1 H2 H3 H4 H5 H6 _]. unfold qb_util_stopwatch_time_split_get, between.
  fold (overwrites sw). rewrite H1, H4. destruct (Z.eqb_spec t0 0); [lia|].
  destruct (Z.leb_spec (zlen times) receint), (Z.ltb_spec receint (zlen times)); try lia; [done|].
  destruct (Z.leb_spec (zlen times) older).
  { destruct (Z.leb_spec older receint); [lia|]. done. }
  destruct (Z.ltb_spec receint older), (Z.leb_spec older receint); try lia; [done|]. cbn [orb andb negb].
  destruct (overwrites sw) eqn:Ho; cbn [andb negb orb].
  - specialize (Hfull eq_refl). rewrite u32_small by lia.
    destruct (Z.leb_spec (zlen times - split_size sw) older), (Z.ltb_spec older (zlen times - split_size sw)); try lia.
    2:{ by rewrite orb_true_r. }
    destruct (Z.ltb_spec receint (zlen times - split_size sw)); [lia|]. cbn [orb andb].
    rewrite (entry_at_rep sw t0 times receint), (entry_at_rep sw t0 times older) by (done || lia). cbn.
    by destruct (older =? receint).
  - specialize (H6 eq_refl). destruct (Z.leb_spec (zlen times - split_size sw) older); [|lia].
    rewrite (entry_at_rep sw t0 times receint), (entry_at_rep sw t0 times older) by (done || lia). cbn.
    by destruct (older =? receint).
Qed.

Lemma split_all_spec nows : forall sw t0 times, sw_rep sw t0 times -> 2 <= split_size sw ->
  zlen times + zlen nows < 2 ^ 32 ->
  exists sw', split_all sw nows = Some (sw', laps (split_size sw) t0 (overwrites sw) times nows) /\
    sw_rep sw' t0 (times ++ recorded (split_size sw - zlen times) (overwrites sw) nows) /\
    split_size sw' = split_size sw /\ overwrites sw' = overwrites sw.
Proof.
  induction nows as [|now nows IH]; intros sw t0 times Hr Htwo Hmax; cbn [split_all laps].
  - exists sw. unfold recorded. rewrite take_nil. destruct (overwrites sw); rewrite app_nil_r; done.
  - rewrite zlen_cons in Hmax. pose proof (zlen_nonneg nows). pose proof (split_spec sw t0 times 0 now Hr Htwo) as Hs.
    destruct (negb (overwrites sw) && (zlen times =? split_size sw)) eqn:Hfull.
    + rewrite Hs by lia. cbn [mbind option_bind]. destruct (IH sw t0 times Hr) as (sw' & -> & Hr' & Hsz & Hov); [lia..|].
      exists sw'. split_and!; [done| |done|done]. apply andb_true_iff in Hfull as [Hn Hz]. apply Z.eqb_eq in Hz.
      apply negb_true_iff in Hn. unfold recorded in *. rewrite Hn, Hz, Z.sub_diag in *. exact Hr'.
    + destruct Hs as (sw1 & -> & Hr1 & Hsz1 & Hov1); [lia|]. cbn [mbind option_bind].
      assert (Hlen : zlen (times ++ [now]) = zlen times + 1) by (rewrite zlen_app; reflexivity).
      destruct (IH sw1 t0 (times ++ [now]) Hr1) as (sw' & -> & Hr' & Hsz & Hov); [lia..|]. exists sw'.
      rewrite Hsz1, Hov1 in *. split_and!; [done| |done|done]. unfold recorded in *. rewrite Hlen, <- app_assoc in Hr'.
      destruct (overwrites sw) eqn:Ho; [exact Hr'|]. cbn [negb andb] in Hfull. apply Z.eqb_neq in Hfull.
      pose proof (rep_full _ _ _ Hr Ho). replace (Z.to_nat (split_size sw - zlen times)) with
        (S (Z.to_nat (split_size sw - (zlen times + 1)))) by lia. exact Hr'.
Qed.

(** C29. A stopwatch measures.  Started with room for [n] splits, two at least, and split
    at the times [nows], it returns the time from each split to the one before it, or
    from the start for the first; without overwriting, 0 once there is no room.
    Afterwards it returns the time between any two of the [n] newest splits, and from
    the start to one of them if both are the same, and 0 for splits it does not have.
    For an overwriting stopwatch this last part is after [n] splits at least: before
    that the code subtracts below 0 and returns 0 for splits it has, as it returns 0
    for every lap but the first if [n] is 1. *)
Theorem stopwatch_measures sw n options t0 nows :
  2 <= n < 2 ^ 32 -> 0 < t0 -> zlen nows < 2 ^ 32 ->
  let over := has_flag options QB_UTIL_SW_OVERWRITE in
  let sw1 := qb_util_stopwatch_start (fst (qb_util_stopwatch_split_ctl sw n options true 0)) t0 in
  exists sw2, split_all sw1 nows = Some (sw2, laps n t0 over [] nows) /\
    qb_util_stopwatch_split_last sw2 = Z.max 0 (zlen (recorded n over nows) - 1) /\
    ((over = true -> n <= zlen nows) -> forall receint older, 0 <= receint -> 0 <= older ->
      qb_util_stopwatch_time_split_get sw2 receint older = Some (between n t0 (recorded n over nows) receint older)).
Proof.
  intros Hn Ht Hmax over sw1. assert (Hr : sw_rep sw1 t0 []).
  { constructor; [done|done|change (0 < n < 2 ^ 32); lia|done..|intros _; change (0 <= n); lia|]. exists (zrepeat 0 n). split_and!; [done|change (zlen (zrepeat 0 n) = n); apply zlen_zrepeat; lia|].
    intros i Hi. unfold zlen in Hi. cbn in Hi. lia. }
  destruct (split_all_spec nows sw1 t0 [] Hr) as (sw2 & Hs & Hr2 & Hsz & Hov); [change (2 <= n); lia|done|]. cbn in Hsz. rewrite Z.sub_0_r in Hr2.
  exists sw2. split_and!; [exact Hs| |].
  - unfold qb_util_stopwatch_split_last. rewrite (rep_entries _ _ _ Hr2). cbn [app].
    change (split_size sw1) with n. change (overwrites sw1) with over.
    pose proof (zlen_nonneg (recorded n over nows)). destruct (Z.eqb_spec (zlen (recorded n over nows)) 0); cbn [negb]; lia.
  - intros Hfull receint older H1 H2. rewrite (time_split_spec _ _ _ _ _ Hr2 H1 H2), Hsz; [done|].
    rewrite Hov, Hsz. change (overwrites sw1) with over. intros Ho. rewrite Ho in Hfull |- *. cbn. by apply Hfull.
Qed.
End Stopwatch.

(** ** Concrete stopwatches *)
Module StopwatchExamples.
Import Stopwatch.

Definition new_watch : qb_util_stopwatch :=
  {| started := 0; stopped := 0; split_options := 0; split_size := 0; split_entries := 0; split_entry_list := None |}.
Definition watch (n options : Z) : qb_util_stopwatch :=
  qb_util_stopwatch_start (fst (qb_util_stopwatch_split_ctl new_watch n options true 0)) 1000000.
Definition some_times : list Z := [3000000; 4000000; 9000000; 9500000].

Lemma stopwatch_measures_witness :
  exists sw2, split_all (watch 3 1) some_times = Some (sw2, [2000; 1000; 5000; 500]) /\
    qb_util_stopwatch_split_last sw2 = 3 /\ qb_util_stopwatch_time_split_get sw2 3 1 = Some 5500.
Proof.
  destruct (stopwatch_measures new_watch 3 1 1000000 some_times) as (sw2 & Hs & Hl & Hg);
    [lia|lia|by vm_compute|].
  exists sw2. split; [exact Hs|]. split; [exact Hl|]. rewrite (Hg ltac:(by vm_compute) 3 1) by lia. reflexivity.
Defined.

(** An overwriting stopwatch that still has room says that it has no splits. *)
Example not_yet_full_has_none :
  match split_all (watch 5 1) [3000000; 4000000] with
  | Some (sw, ds) => ds = [2000; 1000] /\ qb_util_stopwatch_time_split_get sw 1 0 = Some 0
  | None => False
  end.
Proof. vm_compute. split; reflexivity. Qed.

(** With room for one split all laps but the first are 0. *)
Example one_entry_laps :
  match split_all (watch 1 1) [3000000; 4000000] with Some (_, ds) => ds = [2000; 0] | None => False end.
Proof. vm_compute. reflexivity. Qed.

(** After a failed [calloc] the next split writes through NULL. *)
Example split_after_failure :
  snd (qb_util_stopwatch_split_ctl (watch 3 0) 5 0 false 12) = -12 /\
  qb_util_stopwatch_split (fst (qb_util_stopwatch_split_ctl (watch 3 0) 5 0 false 12)) 0 3000000 = None.
Proof. vm_compute. split; reflexivity. Qed.

(** Less room than splits: without overwriting the stopwatch overwrites for ever. *)
Example shrunk_overwrites :
  match split_all (watch 3 0) [3000000; 4000000; 5000000] with
  | Some (sw, _) =>
    match split_all (fst (qb_util_stopwatch_split_ctl sw 2 0 true 0)) [6000000; 7000000; 8000000] with
    | Some (sw, _) => split_entries sw = 6
    | None => False
    end
  | None => False
  end.
Proof. vm_compute. reflexivity. Qed.

(** A negative time in milliseconds leaves negative nanoseconds. *)
Example add_negative_ms : qb_timespec_add_ms (5, 0) (-1) = (5, -1000000).
Proof. reflexivity. Qed.
End StopwatchExamples.

(** * Files and mappings *)
Module SysFile.

(** The calls that acquire and release something; a descriptor is its number, a mapping its
    address and size. *)
Inductive action :=
  | Opened (fd : Z) (path : list Z)
  | Closed (fd : Z)
  | Unlinked (path : list Z)
  | Mapped (addr bytes : Z)
  | Mapped_fixed (addr bytes fd : Z)
  | Unmapped (addr bytes : Z).

(** [open] gives a descriptor or -1, [mkstemp] the path as well; then [errno]. *)
Record file_env := {
  fe_open : list Z -> Z -> Z * Z;
  fe_mkstemp : list Z -> (Z * list Z) * Z;
  fe_ftruncate : Z * Z;
  fe_fallocate : list Z;
  fe_socketdir : list Z;
}.

Definition PATH_MAX : Z := 4096.
Definition fits_path (s : list Z) : list Z := take (Z.to_nat (PATH_MAX - 1)) s.

(** [strstr(path, "XXXXXX") != NULL]. *)
Fixpoint has_template (path : list Z) : bool :=
  bool_decide (take 6 path = bytes "XXXXXX"%string) || match path with [] => false | _ :: rest => has_template rest end.

(** The descriptor, [errno] and the path. *)
Definition open_mmap_file (e : file_env) (path : list Z) (file_flags : Z) : Z * Z * list Z :=
  if has_template path then let '((fd, path'), err) := fe_mkstemp e path in (fd, err, path')
  else let '(fd, err) := fe_open e path file_flags in (fd, err, path).


(** At most [retry] attempts; an attempt that was interrupted is no error. *)
Fixpoint fallocate_loop (retry : nat) (results : list Z) : Z :=
  match retry with
  | O => 0
  | S retry' =>
    let res := hd 0 results in
    if res =? EINTR then fallocate_loop retry' (tail results) else if negb (res =? 0) then - res else 0
  end.

(** With a descriptor: its size is set and the blocks are allocated, or the file is gone. *)
Definition size_file (e : file_env) (fd : Z) (path : list Z) : Z * list Z * list action :=
  if fst (fe_ftruncate e) =? -1 then (- snd (fe_ftruncate e), path, [Opened fd path; Unlinked path; Closed fd])
  else
    let res := fallocate_loop 5 (fe_fallocate e) in
    if negb (res =? 0) then (res, path, [Opened fd path; Unlinked path; Closed fd]) else (fd, path, [Opened fd path]).

(** The result, what is in the caller's [path], and what was acquired and released. *)
Definition qb_sys_mmap_file_open (e : file_env) (file : list Z) (file_flags : Z) : Z * list Z * list action :=
  let is_absolute := bool_decide (47 ∈ file) in
  let path := fits_path (if is_absolute then file else bytes "/dev/shm/qb-"%string ++ file) in
  let '(fd, err, path) := open_mmap_file e path file_flags in
  if fd <? 0 then
    if is_absolute then (- err, path, [])
    else
      let '(fd, err, path) := open_mmap_file e (fits_path (fe_socketdir e ++ bytes "/"%string ++ file)) file_flags in
      if fd <? 0 then (- err, path, []) else size_file e fd path
  else size_file e fd path.

(** The answers to the three calls of [mmap] (-1 is [MAP_FAILED]) with [errno], and the
    result of [close]. *)
Record mmap_env := { me_first : Z; me_second : Z; me_third : Z; me_errno : Z; me_close : Z }.

Definition qb_sys_circular_mmap (e : mmap_env) (fd bytes : Z) : Z * option Z * list action :=
  let addr_orig := me_first e in
  let both := u64 (Z.shiftl bytes 1) in
  if addr_orig =? -1 then (- me_errno e, None, [])
  else if negb (me_second e =? addr_orig) then
    (- me_errno e, None, [Mapped addr_orig both; Closed fd; Unmapped addr_orig both])
  else
    let addr_next := addr_orig + bytes in
    let halves := [Mapped addr_orig both; Mapped_fixed addr_orig bytes fd] in
    if negb (me_third e =? addr_next) then (- me_errno e, None, halves ++ [Closed fd; Unmapped addr_orig both])
    else
      let halves := halves ++ [Mapped_fixed addr_next bytes fd; Closed fd] in
      if negb (me_close e =? 0) then (me_close e, None, halves ++ [Unmapped addr_orig both])
      else (0, Some addr_orig, halves).

(** Results and [errno] of [fcntl]: reading the flags, setting them, setting the mode. *)
Definition qb_sys_fd_nonblock_cloexec_set (getfd setfd setfl : Z * Z) : Z :=
  if fst setfd =? -1 then - snd setfd else if fst setfl =? -1 then - snd setfl else fst setfl.
(** The flags that are set. *)
Definition cloexec_flags (getfd : Z) : Z := Z.lor (if getfd <? 0 then 0 else getfd) 1.

Definition qb_sys_unlink_or_truncate (unlink truncate : Z * Z) (truncate_fallback : bool) : Z :=
  if fst unlink =? -1 then
    if negb (snd unlink =? ENOENT) && truncate_fallback then
      if fst truncate =? -1 then - snd truncate else 0
    else - snd unlink
  else 0.

(** ** Nothing is left behind *)

(** The descriptors that are open after the actions. *)
Definition open_fds (acts : list action) : list Z :=
  foldl (fun fds a => match a with Opened fd _ => fd :: fds | Closed fd => filter (fun x => x <> fd) fds | _ => fds end) [] acts.
(** The reservations of addresses that are still there. *)
Definition mappings (acts : list action) : list (Z * Z) :=
  foldl (fun ms a => match a with
                     | Mapped addr n => (addr, n) :: ms
                     | Unmapped addr n => filter (fun x => x <> (addr, n)) ms
                     | _ => ms end) [] acts.

(** The errors that the system reports are numbers above 0. *)
Record errors_ok (e : file_env) : Prop := {
  eo_open : forall p f, fst (fe_open e p f) < 0 -> 0 < snd (fe_open e p f);
  eo_mkstemp : forall p, fst (fst (fe_mkstemp e p)) < 0 -> 0 < snd (fe_mkstemp e p);
  eo_ftruncate : fst (fe_ftruncate e) = -1 -> 0 < snd (fe_ftruncate e);
  eo_fallocate : Forall (fun r => 0 <= r) (fe_fallocate e);
}.

Lemma fallocate_loop_error retry results : Forall (fun r => 0 <= r) results -> fallocate_loop retry results <= 0.
Proof.
  revert results. induction retry as [|retry IH]; intros results H; cbn [fallocate_loop]; [lia|].
  destruct results as [|r rest]; [reflexivity|]. inversion H; subst. cbn [hd tail]. destruct (r =? EINTR); [by apply IH|].
  destruct (negb (r =? 0)); lia.
Qed.

Lemma open_mmap_file_error e path flags fd err path' : errors_ok e ->
  open_mmap_file e path flags = (fd, err, path') -> fd < 0 -> 0 < err.
Proof.
  intros He. unfold open_mmap_file. destruct (has_template path).
  - pose proof (eo_mkstemp e He path). destruct (fe_mkstemp e path) as [[fd' p'] err']. cbn in *. by intros [= <- <- <-].
  - pose proof (eo_open e He path flags). destruct (fe_open e path flags) as [fd' err']. cbn in *. by intros [= <- <- <-].
Qed.

Definition file_result (r : Z * list Z * list action) : Prop :=
  let '(res, path, acts) := r in
  if 0 <=? res then acts = [Opened res path]
  else acts = [] \/ exists fd, acts = [Opened fd path; Unlinked path; Closed fd].

Lemma size_file_result e fd path : errors_ok e -> 0 <= fd -> file_result (size_file e fd path).
Proof.
  intros He Hfd. unfold size_file, file_result. destruct (Z.eqb_spec (fst (fe_ftruncate e)) (-1)) as [H|H].
  - pose proof (eo_ftruncate e He H). destruct (Z.leb_spec 0 (- snd (fe_ftruncate e))); [lia|]. eauto.
  - pose proof (fallocate_loop_error 5 _ (eo_fallocate e He)).
    destruct (Z.eqb_spec (fallocate_loop 5 (fe_fallocate e)) 0) as [E|E]; cbn [negb].
    + by destruct (Z.leb_spec 0 fd); [|lia].
    + destruct (Z.leb_spec 0 (fallocate_loop 5 (fe_fallocate e))); [lia|]. eauto.
Qed.

Lemma file_open_result e file flags : errors_ok e -> file_result (qb_sys_mmap_file_open e file flags).
Proof.
  intros He. unfold qb_sys_mmap_file_open. destruct (open_mmap_file e _ flags) as [[fd err] path] eqn:Ho.
  pose proof (open_mmap_file_error _ _ _ _ _ _ He Ho) as H1. destruct (Z.ltb_spec fd 0); [|by apply size_file_result].
  case_bool_decide.
  - unfold file_result. destruct (Z.leb_spec 0 (- err)); [lia|]. by left.
  - destruct (open_mmap_file e _ flags) as [[fd2 err2] path2] eqn:Ho2 in |- *.
    pose proof (open_mmap_file_error _ _ _ _ _ _ He Ho2) as H2. destruct (Z.ltb_spec fd2 0); [|by apply size_file_result].
    unfold file_result. destruct (Z.leb_spec 0 (- err2)); [lia|]. by left.
Qed.

(** C30. The file behind shared memory is opened or left alone.  [qb_sys_mmap_file_open] returns
    a descriptor, which is the one that is open, or an error, and then no
    descriptor is open and a file that was opened has been removed; mapping a file twice
    in a row returns 0 with one reservation, both halves mapped and the descriptor
    closed, or an error with no mapping left and the descriptor closed, except that it
    stays open when already the first [mmap], which reserves the addresses, fails. *)
Theorem mapping_all_or_nothing e file flags m fd bytes :
  errors_ok e -> me_errno m <> 0 ->
  (let '(res, path, acts) := qb_sys_mmap_file_open e file flags in
   open_fds acts = (if 0 <=? res then [res] else []) /\
   (res < 0 -> forall d p, Opened d p ∈ acts -> Unlinked p ∈ acts)) /\
  (let '(res, addr, acts) := qb_sys_circular_mmap m fd bytes in
   (res = 0 <-> is_Some addr) /\
   match addr with
   | Some a => mappings acts = [(a, u64 (Z.shiftl bytes 1))] /\
       Mapped_fixed a bytes fd ∈ acts /\ Mapped_fixed (a + bytes) bytes fd ∈ acts
   | None => mappings acts = []
   end /\
   (Closed fd ∈ acts <-> me_first m <> -1)).
Proof.
  intros He Hm. split.
  - pose proof (file_open_result e file flags He) as H. destruct (qb_sys_mmap_file_open e file flags) as [[res path] acts].
    unfold file_result in H. destruct (Z.leb_spec 0 res).
    + rewrite H. split; [done|lia].
    + destruct H as [->|[d ->]]; (split; [|intros _ d' p]).
      * done.
      * set_solver.
      * cbn. by case_decide.
      * rewrite !elem_of_cons. intros [[= <- <-]|[?|[?|Hn]]]; [auto|done|done|by apply elem_of_nil in Hn].
  - unfold qb_sys_circular_mmap. destruct (Z.eqb_spec (me_first m) (-1)) as [E1|E1].
    { split_and!; [split; [lia|by intros []]|done|]. split; [|done]. by intros ?%elem_of_nil. }
    destruct (Z.eqb_spec (me_second m) (me_first m)); cbn [negb].
    2:{ split_and!; [split; [lia|by intros []]|cbn; by case_decide|set_solver]. }
    destruct (Z.eqb_spec (me_third m) (me_first m + bytes)); cbn [negb].
    2:{ split_and!; [split; [lia|by intros []]|cbn; by case_decide|set_solver]. }
    destruct (Z.eqb_spec (me_close m) 0); cbn [negb].
    + split_and!; [by split; eauto|done|set_solver..].
    + split_and!; [split; [lia|by intros []]|cbn; by case_decide|set_solver].
Qed.
End SysFile.

(** ** Concrete files *)
Module SysFileExamples.
Import SysFile.

Definition some_env (trunc : Z * Z) (alloc : list Z) : file_env :=
  {| fe_open := fun _ _ => (7, 0); fe_mkstemp := fun p => ((8, p), 0); fe_ftruncate := trunc; fe_fallocate := alloc;
     fe_socketdir := bytes "/var/run"%string |}.
Lemma some_env_ok trunc alloc : (fst trunc = -1 -> 0 < snd trunc) -> Forall (fun r => 0 <= r) alloc -> errors_ok (some_env trunc alloc).
Proof. intros H1 H2. by constructor; cbn. Qed.

Lemma mapping_all_or_nothing_witness :
  open_fds [Opened 7 (bytes "/dev/shm/a"%string); Unlinked (bytes "/dev/shm/a"%string); Closed 7] = [] /\
  mappings [Mapped 4096 8192; Closed 3; Unmapped 4096 8192] = [].
Proof.
  destruct (mapping_all_or_nothing (some_env (0, 0) [4; 28]) (bytes "/dev/shm/a"%string) 2
    {| me_first := 4096; me_second := -1; me_third := 0; me_errno := 12; me_close := 0 |} 3 4096) as [[H1 _] [_ [H2 _]]].
  - by apply some_env_ok; [cbn; lia|repeat constructor; lia].
  - by cbn.
  - split; [exact H1|exact H2].
Defined.

(** A descriptor is closed, unless already the first [mmap] fails; the caller relies on
    its being closed. *)
Example first_mapping_fails :
  qb_sys_circular_mmap {| me_first := -1; me_second := 0; me_third := 0; me_errno := 12; me_close := 0 |} 3 4096 = (-12, None, []).
Proof. reflexivity. Qed.

(** Interrupted five times, the allocation is given up without an error. *)
Example interrupted_allocation :
  qb_sys_mmap_file_open (some_env (0, 0) [4; 4; 4; 4; 4; 28]) (bytes "/dev/shm/a"%string) 2 =
    (7, bytes "/dev/shm/a"%string, [Opened 7 (bytes "/dev/shm/a"%string)]).
Proof. reflexivity. Qed.

(** A file that exists, and is only to be opened, is removed when its size cannot be
    set. *)
Example existing_file_removed :
  qb_sys_mmap_file_open (some_env (-1, 1) []) (bytes "/dev/shm/a"%string) 2 =
    (-1, bytes "/dev/shm/a"%string, [Opened 7 (bytes "/dev/shm/a"%string); Unlinked (bytes "/dev/shm/a"%string); Closed 7]).
Proof. reflexivity. Qed.

(** When [close] fails the result is -1, not the error. *)
Example close_error_lost :
  fst (fst (qb_sys_circular_mmap {| me_first := 4096; me_second := 4096; me_third := 8192; me_errno := 5; me_close := -1 |} 3 4096)) = -1.
Proof. reflexivity. Qed.
End SysFileExamples.
