(* ===== verification/RingBufferOpen.v ===== *)
(** * Opening, closing, saving and loading a ring buffer
      (lib/ringbuffer.c, lib/ringbuffer_helper.c)

    The semaphore notifier, [qb_rb_open], [qb_rb_close], and the file format
    of the black box.  What the operating system answers is an argument: a
    record with the outcome of each call, a list of outcomes for [write]. *)
From Stdlib Require Import Ascii.
From stdpp Require Import strings.
From S2P Require Import Prelude Memory RingBuffer.

(** ** The POSIX semaphore in the shared header

    [posix_sem] is the semaphore's value; [wait_env] is the errors that waits
    on a zero semaphore meet, in order (an interrupted call, say).  A timed wait
    that meets no other error times out; an untimed one blocks. *)
Record psem := { posix_sem : Z; wait_env : list Z }.

Definition SEM_VALUE_MAX : Z := 2 ^ 31 - 1.

Fixpoint sem_wait_again (sem : Z) (env : list Z) (ms_timeout : Z) : option (psem * Z) :=
  if 0 <? sem then Some ({| posix_sem := sem - 1; wait_env := env |}, 0)
  else if ms_timeout =? 0 then Some ({| posix_sem := sem; wait_env := env |}, - ETIMEDOUT)
  else
    match env with
    | [] =>
      if 0 <? ms_timeout then Some ({| posix_sem := sem; wait_env := [] |}, - ETIMEDOUT)
      else None
    | e :: env' =>
      if e =? EINTR then sem_wait_again sem env' ms_timeout
      else if e =? EAGAIN then Some ({| posix_sem := sem; wait_env := env' |}, - ETIMEDOUT)
      else Some ({| posix_sem := sem; wait_env := env' |}, - e)
    end.

Definition my_posix_sem_timedwait (i : psem) (ms_timeout : Z) : option (psem * Z) :=
  sem_wait_again (posix_sem i) (wait_env i) ms_timeout.

Definition my_posix_sem_post (i : psem) (msg_size : Z) : psem * Z :=
  if posix_sem i =? SEM_VALUE_MAX then (i, - EOVERFLOW)
  else ({| posix_sem := posix_sem i + 1; wait_env := wait_env i |}, 0).

Definition my_posix_getvalue_fn (i : psem) : Z := posix_sem i.

Definition my_posix_sem_destroy (i : psem) : psem * Z := (i, 0).

(** [init_errno] is 0 or the error of [sem_init]. *)
Definition my_posix_sem_create (i : psem) (fl init_errno : Z) : psem * Z :=
  if has_flag fl QB_RB_FLAG_SHARED_PROCESS && negb (has_flag fl QB_RB_FLAG_CREATE)
  then (i, 0)
  else if init_errno =? 0 then ({| posix_sem := 0; wait_env := wait_env i |}, 0)
  else (i, - init_errno).

Definition no_notifier : qb_rb_notifier psem :=
  {| post_fn := None; q_len_fn := None; space_used_fn := None;
     timedwait_fn := None; reclaim_fn := None; destroy_fn := None |}.

Definition posix_notifier : qb_rb_notifier psem :=
  {| post_fn := Some my_posix_sem_post; q_len_fn := Some my_posix_getvalue_fn;
     space_used_fn := None; timedwait_fn := Some my_posix_sem_timedwait;
     reclaim_fn := None; destroy_fn := Some my_posix_sem_destroy |}.

(** [qb_rb_sem_create] in the configuration with process-shared POSIX
    semaphores ([use_posix] stays true): the notifier, the semaphore, the
    return code. *)
Definition qb_rb_sem_create (i : psem) (fl init_errno : Z)
    : qb_rb_notifier psem * psem * Z :=
  if has_flag fl QB_RB_FLAG_NO_SEMAPHORE then (no_notifier, i, 0)
  else
    let '(i, rc) := my_posix_sem_create i fl init_errno in
    (posix_notifier, i, rc).

(** ** Opening *)

(** The outcome of each call of [qb_rb_open_2] to the system: a file
    descriptor or a negative error; 0 or an error number. *)
Record open_env := {
  page_size : Z;
  env_calloc_ok : bool;
  env_fd_hdr : Z;
  env_hdr_path : string;
  env_mmap_hdr_errno : Z;
  env_sem_init_errno : Z;
  env_fd_data : Z;
  env_data_path : string;
  env_circular_mmap : Z;
  (** the header, semaphore and data that the files already hold *)
  env_shared_hdr : qb_ringbuffer_shared_s;
  env_psem : psem;
  env_data : list Z;
}.

(** [rb->shared_hdr]: NULL until the [mmap], then MAP_FAILED or the header. *)
Inductive hdr_ptr :=
  | Hdr_null
  | Hdr_failed
  | Hdr_at (h : qb_ringbuffer_shared_s).

(** What the error path does to the system, in order.  [Act_unlink_null_hdr] is
    an unlink of the address of [hdr_path] in a header at NULL. *)
Inductive cleanup_action :=
  | Act_unlink (path : string)
  | Act_close_hdr
  | Act_unlink_null_hdr
  | Act_destroy_notifier
  | Act_munmap_hdr
  | Act_free_rb.

(** From [cleanup_hdr] on. *)
Definition cleanup_hdr (fd_hdr : Z) (h : hdr_ptr) (fl : Z) (has_destroy : bool)
    : list cleanup_action :=
  (if 0 <=? fd_hdr then [Act_close_hdr] else []) ++
  (match h with
   | Hdr_failed => []
   | Hdr_null =>
     if has_flag fl QB_RB_FLAG_CREATE then [Act_unlink_null_hdr] else []
   | Hdr_at h =>
     if has_flag fl QB_RB_FLAG_CREATE then
       Act_unlink (hdr_path h) :: (if has_destroy then [Act_destroy_notifier] else [])
     else []
   end) ++
  (match h with Hdr_failed => [] | _ => [Act_munmap_hdr] end) ++
  [Act_free_rb].

(** [inl (errno, cleanup)] or the ring; the argument [notifiers] is the
    caller's notifier with its instance, if it passes one. *)
Definition open_result : Type := (Z * list cleanup_action) + qb_ringbuffer_s psem.

Definition has_post (notifiers : option (qb_rb_notifier psem * psem)) : bool :=
  match notifiers with
  | Some (n, _) => match post_fn n with Some _ => true | None => false end
  | None => false
  end.

(** [size += QB_RB_CHUNK_MARGIN + 1] and [QB_ROUNDUP(size, page_size)], in
    [size_t]. *)
Definition real_size_of (env : open_env) (size : Z) : Z :=
  let size := u64 (size + (QB_RB_CHUNK_MARGIN + 1)) in
  u64 (u64 (size + (page_size env - 1)) / page_size env * page_size env).

Definition qb_rb_open_2 (size fl : Z)
    (notifiers : option (qb_rb_notifier psem * psem)) (env : open_env) : open_result :=
  let real_size := real_size_of env size in
  let create := has_flag fl QB_RB_FLAG_CREATE in
  if negb (env_calloc_ok env) then inl (ENOMEM, [])
  else if env_fd_hdr env <? 0 then
    inl (- env_fd_hdr env, cleanup_hdr (env_fd_hdr env) Hdr_null fl false)
  else if negb (env_mmap_hdr_errno env =? 0) then
    inl (env_mmap_hdr_errno env, cleanup_hdr (env_fd_hdr env) Hdr_failed fl false)
  else
    let h0 := env_shared_hdr env in
    let h :=
      if create then
        {| write_pt := 0; read_pt := 0; word_size := u32 (real_size / 4);
           hdr_path := env_hdr_path env; data_path := data_path h0;
           ref_count := ref_count h0 |}
      else h0 in
    let '(ntf, inst, error) :=
      match notifiers with
      | Some (n, i) =>
        if has_post notifiers then (n, i, 0)
        else qb_rb_sem_create (env_psem env) fl (env_sem_init_errno env)
      | None => qb_rb_sem_create (env_psem env) fl (env_sem_init_errno env)
      end in
    let has_destroy := match destroy_fn ntf with Some _ => true | None => false end in
    if error <? 0 then
      inl (- error, cleanup_hdr (env_fd_hdr env) (Hdr_at h) fl has_destroy)
    else
      let h :=
        if create then
          {| write_pt := write_pt h; read_pt := read_pt h; word_size := word_size h;
             hdr_path := hdr_path h; data_path := env_data_path env;
             ref_count := ref_count h |}
        else h in
      if env_fd_data env <? 0 then
        inl (- env_fd_data env, cleanup_hdr (env_fd_hdr env) (Hdr_at h) fl has_destroy)
      else if negb (env_circular_mmap env =? 0) then
        inl (- env_circular_mmap env,
             (if create then [Act_unlink (data_path h)] else []) ++
             cleanup_hdr (env_fd_hdr env) (Hdr_at h) fl has_destroy)
      else
        let rb := {| flags := fl; shared_hdr := h; shared_data := env_data env;
                     notifier := ntf; instance := inst |} in
        if create then
          let data := zrepeat 0 real_size in
          inr (set_ref_count (set_data rb (word_set data (word_size h) 5)) 1)
        else inr (set_ref_count rb (i32 (ref_count h + 1))).

Definition qb_rb_open (size fl : Z) (env : open_env) : open_result :=
  qb_rb_open_2 size fl None env.

(** ** Closing *)

(** What closing asks of the system, in order: [Close_unlink] names the file
    relative to the directory, with the flag that a failed unlink falls back
    to truncating the file. *)
Inductive close_action :=
  | Close_destroy_notifier
  | Close_open_dir (dir : string)
  | Close_unlink (name : string) (truncate_fallback : bool)
  | Close_close_dir
  | Close_munmap_data (bytes : Z)
  | Close_munmap_hdr
  | Close_free_rb.

(** The outcome of each call: 0 or a negative error. *)
Record close_env := {
  ce_open_dir : Z;
  ce_unlink_data : Z;
  ce_unlink_hdr : Z;
  ce_munmap_data : Z;
  ce_munmap_hdr : Z;
}.

(** [strrchr(s, '/') - s]. *)
Fixpoint strrchr_slash (s : string) : option nat :=
  match s with
  | EmptyString => None
  | String c s' =>
    match strrchr_slash s' with
    | Some n => Some (S n)
    | None => if Ascii.eqb c "/"%char then Some 0%nat else None
    end
  end.

(** The first [n] characters, and what is left after them. *)
Fixpoint str_take (n : nat) (s : string) : string :=
  match n, s with
  | S n', String c s' => String c (str_take n' s')
  | _, _ => EmptyString
  end.
Fixpoint str_drop (n : nat) (s : string) : string :=
  match n, s with
  | S n', String _ s' => str_drop n' s'
  | _, _ => s
  end.

(** C's [res ? res : res2]. *)
Definition first_error (res res2 : Z) : Z := if res =? 0 then res2 else res.

Definition unlink_files (hdr data : string) (truncate_fallback : bool) (ce : close_env)
    : list close_action * Z :=
  match strrchr_slash data with
  | None => ([], - EINVAL)
  | Some sep =>
    let dir := str_take sep data in
    if ce_open_dir ce <? 0 then ([Close_open_dir dir], ce_open_dir ce)
    else
      let res :=
        if String.eqb dir (str_take sep hdr) then ce_unlink_data ce else - ENXIO in
      ([Close_open_dir dir; Close_unlink (str_drop (S sep) data) truncate_fallback;
        Close_unlink (str_drop (S sep) hdr) truncate_fallback; Close_close_dir],
       first_error res (ce_unlink_hdr ce))
  end.

Definition qb_rb_close_helper (rb : qb_ringbuffer_s psem) (unlink_it truncate_fallback : bool)
    (ce : close_env) : list close_action * Z :=
  let h := shared_hdr rb in
  let '(acts, res) :=
    if unlink_it then
      let '(acts, res) := unlink_files (hdr_path h) (data_path h) truncate_fallback ce in
      ((match destroy_fn (notifier rb) with
        | Some _ => [Close_destroy_notifier] | None => [] end) ++ acts, res)
    else ([], 0) in
  (acts ++ [Close_munmap_data (Z.shiftl (word_size h * 4) 1); Close_munmap_hdr; Close_free_rb],
   first_error (first_error res (ce_munmap_data ce)) (ce_munmap_hdr ce)).

(** The header as other processes that map it see it, and the calls made. *)
Definition qb_rb_close (orb : option (qb_ringbuffer_s psem)) (ce : close_env)
    : option (qb_ringbuffer_s psem) * list close_action :=
  match orb with
  | None => (None, [])
  | Some rb =>
    let rb := set_ref_count rb (i32 (ref_count (shared_hdr rb) - 1)) in
    (Some rb, fst (qb_rb_close_helper rb (has_flag (flags rb) QB_RB_FLAG_CREATE) false ce))
  end.

Definition qb_rb_force_close (orb : option (qb_ringbuffer_s psem)) (ce : close_env)
    : option (qb_ringbuffer_s psem) * list close_action :=
  match orb with
  | None => (None, [])
  | Some rb =>
    let rb := set_ref_count rb (-1) in
    (Some rb, fst (qb_rb_close_helper rb true true ce))
  end.

(** [*rb = NULL] and the ring with one reference left. *)
Definition qb_rb_lastref_and_ret (orb : option (qb_ringbuffer_s psem))
    : option (qb_ringbuffer_s psem) * option (qb_ringbuffer_s psem) :=
  match orb with
  | None => (None, None)
  | Some rb => (None, Some (set_ref_count rb 1))
  end.

(** ** Saving to a file

    The outcome of one [write]: how many bytes it took ([-1] on error) and
    [errno]. *)
Record write_outcome := { wr_result : Z; wr_errno : Z }.

(** [write(fd, bs)] followed by the code's check that all of [bs] was taken.
    The state is the file so far and [written_size]. *)
Definition write_all (st : list Z * Z) (bs : list Z) (w : write_outcome)
    : (list Z * Z) + (list Z * Z) :=
  let '(file, written) := st in
  let file := file ++ take (Z.to_nat (wr_result w)) bs in
  if wr_result w =? zlen bs then inr (file, written + wr_result w)
  else inl (file, - wr_errno w).

Fixpoint write_seq (st : list Z * Z) (parts : list (list Z)) (ws : list write_outcome)
    : list Z * Z :=
  match parts, ws with
  | bs :: parts', w :: ws' =>
    match write_all st bs w with
    | inr st' => write_seq st' parts' ws'
    | inl r => r
    end
  | _, _ => st
  end.

Definition header_hash (word_size write_pt read_pt version : Z) : Z :=
  u32 (word_size + write_pt + read_pt + version).

(** The six pieces written: word size, write and read pointer, version, hash,
    data. *)
Definition file_parts (rb : qb_ringbuffer_s psem) : list (list Z) :=
  let h := shared_hdr rb in
  [ le_split 4 (word_size h); le_split 4 (write_pt h); le_split 4 (read_pt h);
    le_split 4 QB_RB_FILE_HEADER_VERSION;
    le_split 4 (header_hash (word_size h) (write_pt h) (read_pt h) QB_RB_FILE_HEADER_VERSION);
    slice (shared_data rb) 0 (word_size h * 4) ].

(** The file and the return value ([written_size] or a negative error). *)
Definition qb_rb_write_to_file (orb : option (qb_ringbuffer_s psem)) (ws : list write_outcome)
    : list Z * Z :=
  match orb with
  | None => ([], - EINVAL)
  | Some rb => write_seq ([], 0) (file_parts rb) ws
  end.

(** ** Loading from a file *)

Inductive load_result :=
  | Load_null
  | Load_assert_failed
  | Load_rb (rb : qb_ringbuffer_s psem).

(** [read(fd, buf, n)] on a regular file: the bytes read and the rest. *)
Definition file_read (f : list Z) (n : Z) : list Z * list Z :=
  (take (Z.to_nat n) f, drop (Z.to_nat n) f).

(** The five header words, each read with a [read] of four bytes.  [fstat] and
    [read] succeed; closing the ring after a short read is not shown.  The file
    is read from where [fd] is: [file] is what is left, [st_size] the size of the
    whole. *)
Definition load_from (fd st_size : Z) (file : list Z) (env : open_env) : load_result :=
  if fd <? 0 then Load_null
  else
    let '(b1, f1) := file_read file 4 in
    if negb (zlen b1 =? 4) then Load_null
    else
      let word_size := le_combine b1 in
      if st_size / 4 <? word_size then Load_null
      else
        let '(b2, f2) := file_read f1 4 in
        if negb (zlen b2 =? 4) then Load_assert_failed
        else
          let write_pt := le_combine b2 in
          let '(b3, f3) := file_read f2 4 in
          if negb (zlen b3 =? 4) then Load_assert_failed
          else
            let read_pt := le_combine b3 in
            if (st_size <? write_pt) || (st_size <? read_pt) then Load_null
            else
              let '(b4, f4) := file_read f3 4 in
              if negb (zlen b4 =? 4) then Load_null
              else
                let version := le_combine b4 in
                let '(b5, f5) := file_read f4 4 in
                if negb (zlen b5 =? 4) then Load_null
                else
                  let hash := le_combine b5 in
                  if negb (hash =? header_hash word_size write_pt read_pt version) then Load_null
                  else if negb (version =? QB_RB_FILE_HEADER_VERSION) then Load_null
                  else
                    let n_required := word_size * 4 in
                    match qb_rb_open (u64 (n_required - (QB_RB_CHUNK_MARGIN + 1)))
                            (Z.lor QB_RB_FLAG_CREATE QB_RB_FLAG_NO_SEMAPHORE) env with
                    | inl _ => Load_null
                    | inr rb =>
                      let rb := set_write_pt (set_read_pt rb read_pt) write_pt in
                      let '(b6, _) := file_read f5 n_required in
                      let rb := set_data rb (blit (shared_data rb) 0 b6) in
                      if zlen b6 =? n_required then Load_rb rb else Load_null
                    end.

Definition qb_rb_create_from_file (fd : Z) (file : list Z) (env : open_env) : load_result :=
  load_from fd (zlen file) file env.
