(* ===== verification/RingBufferInv.v ===== *)
(** * Ring buffer: the layout invariant and the chunk operations under it

    [rb_inv rb q] says that the data area of [rb] holds the chunks [q], oldest
    first, from the read pointer to the write pointer.  The lemmas give the
    effect of each chunk operation on a ring with this invariant, for any
    notifier; [RingBufferSpec] turns them into the refinement theorems. *)
From stdpp Require Import strings.
From S2P Require Import Prelude Memory RingBuffer.

(** ** Layout *)

(** Words taken by a chunk with [zlen d] bytes of data. *)
Definition chunk_words (d : list Z) : Z := 2 + (zlen d + 3) / 4.

Fixpoint used (q : list (list Z)) : Z :=
  match q with [] => 0 | d :: q' => chunk_words d + used q' end.

(** The chunks [q] lie one after the other from word [p] on ([p] is not
    reduced modulo the size of the area: the slices are). *)
Fixpoint laid (m : list Z) (p : Z) (q : list (list Z)) : Prop :=
  match q with
  | [] => True
  | d :: q' =>
    slice m (4 * p) 4 = le_split 4 (zlen d) /\
    slice m (4 * (p + 1)) 4 = le_split 4 QB_RB_CHUNK_MAGIC /\
    slice m (4 * (p + 2)) (zlen d) = d /\
    laid m (p + chunk_words d) q'
  end.

(** Up to this word size every chunk size and pointer sum fits [uint32_t]. *)
Definition max_word_size : Z := 2 ^ 30.

Record rb_inv {I} (rb : qb_ringbuffer_s I) (q : list (list Z)) : Prop := {
  inv_ws : 3 <= word_size (shared_hdr rb) <= max_word_size;
  inv_mem : zlen (shared_data rb) = 4 * word_size (shared_hdr rb);
  inv_rp : 0 <= read_pt (shared_hdr rb) < word_size (shared_hdr rb);
  inv_wp : write_pt (shared_hdr rb) =
           (read_pt (shared_hdr rb) + used q) mod word_size (shared_hdr rb);
  inv_used : used q < word_size (shared_hdr rb);
  inv_laid : laid (shared_data rb) (read_pt (shared_hdr rb)) q;
}.

(** Free words as the code counts them: one word is kept free in a ring that
    holds a chunk. *)
Definition free_words (N : Z) (q : list (list Z)) : Z :=
  match q with [] => N | _ => N - used q - 1 end.

Definition fits (N : Z) (q : list (list Z)) (len : Z) : bool :=
  len + QB_RB_CHUNK_MARGIN <=? 4 * free_words N q.

(** ** Arithmetic of the layout *)

Lemma chunk_words_pos d : 2 <= chunk_words d.
Proof. unfold chunk_words. pose proof (zlen_nonneg d). zlia. Qed.

Lemma used_nonneg q : 0 <= used q.
Proof. induction q as [|d q IH]; simpl; [lia|]. pose proof (chunk_words_pos d). lia. Qed.

Lemma used_app q k : used (q ++ k) = used q + used k.
Proof. induction q; simpl; lia. Qed.

Lemma used_length q : 2 * zlen q <= used q.
Proof.
  induction q as [|d q IH]; cbn [used app]; rewrite ?zlen_nil, ?zlen_cons; [lia|].
  pose proof (chunk_words_pos d). lia.
Qed.

Lemma chunk_words_bytes d : 4 * chunk_words d - 3 <= zlen d + 8 <= 4 * chunk_words d.
Proof. unfold chunk_words. pose proof (zlen_nonneg d). zlia. Qed.

(** A chunk that fits leaves the ring with a free word. *)
Lemma fits_used N q d : fits N q (zlen d) = true -> used q + chunk_words d < N.
Proof.
  unfold fits, free_words, QB_RB_CHUNK_MARGIN, chunk_words, QB_RB_CHUNK_HEADER_WORDS,
    QB_RB_WORD_ALIGN, QB_CACHE_LINE_WORDS.
  rewrite Z.leb_le. pose proof (zlen_nonneg d). destruct q; simpl; intros; zlia.
Qed.

(** ** The layout under writes elsewhere *)

Lemma laid_blit N m p q off bs :
  zlen m = 4 * N -> 4 * (p + used q) <= off -> off + zlen bs <= 4 * (p + N) ->
  laid m p q -> laid (blit m off bs) p q.
Proof.
  intros Hm. revert p. induction q as [|d q IH]; simpl; intros p Ho Hb; [done|].
  pose proof (chunk_words_bytes d). pose proof (zlen_nonneg bs). pose proof (used_nonneg q).
  pose proof (zlen_nonneg d). pose proof (chunk_words_pos d).
  assert (Hsame : forall j n, 4 * p <= j -> 0 <= n -> j + n <= off ->
             slice (blit m off bs) j n = slice m j n).
  { intros j n ? ? ?.
    rewrite <- (slice_congr m (off + (j + 4 * N - off))), <- (slice_congr (blit _ _ _)
      (off + (j + 4 * N - off))); rewrite ?zlen_blit, ?Hm.
    - apply slice_blit_disjoint; lia.
    - replace (off + (j + 4 * N - off)) with (j + 1 * (4 * N)) by lia. apply Z_mod_plus_full.
    - replace (off + (j + 4 * N - off)) with (j + 1 * (4 * N)) by lia. apply Z_mod_plus_full. }
  intros (L1 & L2 & L3 & L4).
  rewrite !Hsame by lia. repeat split; try done. apply IH; try lia. done.
Qed.

Lemma laid_word_set N m p q i w :
  zlen m = 4 * N -> p + used q <= i -> i + 1 <= p + N ->
  laid m p q -> laid (word_set m i w) p q.
Proof.
  intros Hm ? ? Hl. unfold word_set. apply (laid_blit N); try done; [lia|].
  rewrite zlen_le_split. lia.
Qed.

(** Shifting a word index by the size of the ring. *)
Lemma word_set_shift N m i w : 0 < N -> zlen m = 4 * N -> word_set m (i + N) w = word_set m i w.
Proof.
  intros. rewrite <- (word_set_mod m i w N), <- (word_set_mod m (i + N) w N) by done.
  f_equal. replace (i + N) with (i + 1 * N) by lia. apply Z_mod_plus_full.
Qed.

Lemma blit_shift N m off bs : zlen m = 4 * N -> blit m (off + 4 * N) bs = blit m off bs.
Proof.
  intros Hm. rewrite <- blit_mod, <- (blit_mod m off), Hm. f_equal.
  replace (off + 4 * N) with (off + 1 * (4 * N)) by lia. apply Z_mod_plus_full.
Qed.

Lemma laid_shift N m p q : zlen m = 4 * N -> laid m (p + N) q <-> laid m p q.
Proof.
  intros Hm. revert p. induction q as [|d q IH]; simpl; intros p; [done|].
  replace (p + N + chunk_words d) with (p + chunk_words d + N) by lia. rewrite IH.
  assert (Hs : forall j n, slice m (4 * (j + N)) n = slice m (4 * j) n).
  { intros. apply slice_congr. rewrite Hm. replace (4 * (j + N)) with (4 * j + 1 * (4 * N)) by lia.
    apply Z_mod_plus_full. }
  rewrite Hs. replace (p + N + 1) with (p + 1 + N) by lia. replace (p + N + 2) with (p + 2 + N) by lia.
  now rewrite !Hs.
Qed.

Lemma laid_mod N m p q : 0 < N -> zlen m = 4 * N -> laid m (p mod N) q <-> laid m p q.
Proof.
  intros HN Hm. rewrite (Z.div_mod p N) at 2 by lia. generalize (p / N), (p mod N). clear p.
  intros k p.
  assert (Hpos : forall j : nat, laid m p q <-> laid m (N * Z.of_nat j + p) q).
  { induction j as [|j IH]; [now rewrite Z.mul_0_r|]. rewrite IH.
    rewrite <- (laid_shift N) by done.
    replace (N * Z.of_nat j + p + N) with (N * Z.of_nat (S j) + p) by lia. done. }
  destruct (Z_lt_le_dec k 0).
  - assert (Hneg : forall (j : nat) p', laid m p' q <-> laid m (p' - N * Z.of_nat j) q).
    { induction j as [|j IH]; intros p'; [now rewrite Z.mul_0_r, Z.sub_0_r|]. rewrite IH.
      rewrite <- (laid_shift N _ (p' - N * Z.of_nat (S j))) by done.
      replace (p' - N * Z.of_nat (S j) + N) with (p' - N * Z.of_nat j) by lia. done. }
    rewrite (Hneg (Z.to_nat (- k)) p).
    replace (p - N * Z.of_nat (Z.to_nat (- k))) with (N * k + p) by lia. done.
  - rewrite (Hpos (Z.to_nat k)). now rewrite Z2Nat.id by lia.
Qed.

Lemma laid_app m p q k : laid m p (q ++ k) <-> laid m p q /\ laid m (p + used q) k.
Proof.
  revert p. induction q as [|d q IH]; simpl; intros p; [now rewrite Z.add_0_r|].
  rewrite IH, Z.add_assoc. tauto.
Qed.

(** ** The memory effect of writing one chunk *)

(** The stores of alloc, copy and commit at the unreduced word [W]. *)
Definition write_mem (m : list Z) (W : Z) (d : list Z) : list Z :=
  word_set
    (word_set
       (blit (word_set (word_set m W 0) (W + 1) QB_RB_CHUNK_MAGIC_ALLOC) (4 * (W + 2)) d)
       W (zlen d))
    (W + 1) QB_RB_CHUNK_MAGIC.

Lemma zlen_write_mem m W d : zlen (write_mem m W d) = zlen m.
Proof. unfold write_mem. now rewrite !zlen_word_set, zlen_blit, !zlen_word_set. Qed.

(** The size word, seen before and after the magic is stored. *)
Lemma slice_before_word_set N m i w n :
  1 < N -> zlen m = 4 * N -> 0 <= n <= 4 ->
  slice (word_set m (i + 1) w) (4 * i) n = slice m (4 * i) n.
Proof.
  intros ? Hm ?.
  assert (Hs : forall m', zlen m' = 4 * N -> slice m' (4 * i) n = slice m' (4 * (i + N)) n).
  { intros m' Hm'. apply slice_congr. rewrite Hm'.
    replace (4 * (i + N)) with (4 * i + 1 * (4 * N)) by lia. symmetry. apply Z_mod_plus_full. }
  rewrite !Hs by now rewrite ?zlen_word_set. apply slice_word_set_disjoint; lia.
Qed.

Lemma laid_write_same N m W d :
  zlen m = 4 * N -> chunk_words d <= N -> laid (write_mem m W d) W [d].
Proof.
  intros Hm Hc. pose proof (chunk_words_pos d). pose proof (chunk_words_bytes d).
  pose proof (zlen_nonneg d). unfold write_mem. simpl. split_and!; [| | |done].
  - rewrite (slice_before_word_set N); [| lia | now autorewrite with qb_len | lia].
    apply slice_word_set_same. autorewrite with qb_len. lia.
  - apply slice_word_set_same. autorewrite with qb_len. lia.
  - rewrite !slice_word_set_disjoint; autorewrite with qb_len; try lia.
    apply slice_blit_same. autorewrite with qb_len. lia.
Qed.

Lemma laid_write_other N m p q W d :
  zlen m = 4 * N -> p + used q <= W -> W + chunk_words d <= p + N ->
  laid m p q -> laid (write_mem m W d) p q.
Proof.
  intros Hm ? ? Hl. pose proof (chunk_words_pos d). pose proof (chunk_words_bytes d).
  unfold write_mem.
  repeat first [ apply (laid_word_set N) | apply (laid_blit N) ];
    autorewrite with qb_len; try lia. done.
Qed.

(** ** Operations under the invariant *)

Section Inv.
Context {I : Type}.
Implicit Types (rb : qb_ringbuffer_s I) (q : list (list Z)).

(** The part of the state no chunk operation touches. *)
Definition same_frame rb rb' : Prop :=
  flags rb' = flags rb /\ notifier rb' = notifier rb /\
  word_size (shared_hdr rb') = word_size (shared_hdr rb) /\
  hdr_path (shared_hdr rb') = hdr_path (shared_hdr rb) /\
  data_path (shared_hdr rb') = data_path (shared_hdr rb) /\
  ref_count (shared_hdr rb') = ref_count (shared_hdr rb).

Lemma same_frame_refl rb : same_frame rb rb.
Proof. by repeat split. Qed.

Lemma same_frame_trans rb1 rb2 rb3 : same_frame rb1 rb2 -> same_frame rb2 rb3 -> same_frame rb1 rb3.
Proof. unfold same_frame. intuition congruence. Qed.

(** The notifier's queue length is positive, as [qb_rb_space_free] tests it. *)
Definition q_len_pos rb : bool :=
  match q_len_fn (notifier rb) with
  | Some f => 0 <? f (instance rb)
  | None => false
  end.

Lemma rb_inv_set_instance rb q i : rb_inv rb q -> rb_inv (set_instance rb i) q.
Proof. intros []. by constructor. Qed.

(** Where the write pointer is relative to the read pointer. *)
Lemma wp_cases rb q (Hinv : rb_inv rb q) :
  let h := shared_hdr rb in
  (q = [] /\ write_pt h = read_pt h) \/
  (q <> [] /\ write_pt h = read_pt h + used q /\ read_pt h < write_pt h) \/
  (q <> [] /\ write_pt h = read_pt h + used q - word_size h /\ write_pt h < read_pt h).
Proof.
  destruct Hinv as [Hw Hm Hr Hwp Hu _]. simpl. rewrite Hwp.
  destruct q as [|d q].
  - left. split; [done|]. simpl. rewrite Z.add_0_r. now apply Z.mod_small.
  - right. pose proof (used_length (d :: q)). rewrite zlen_cons in *. pose proof (zlen_nonneg q).
    destruct (Z_lt_le_dec (read_pt (shared_hdr rb) + used (d :: q)) (word_size (shared_hdr rb))).
    + left. rewrite Z.mod_small by lia. split_and!; [done|done|lia].
    + right.
      replace (read_pt (shared_hdr rb) + used (d :: q)) with
        (read_pt (shared_hdr rb) + used (d :: q) - word_size (shared_hdr rb)
         + 1 * word_size (shared_hdr rb)) by lia.
      rewrite Z_mod_plus_full, Z.mod_small by lia. split_and!; [done|lia|lia].
Qed.

Lemma space_free_inv rb q :
  rb_inv rb q -> space_used_fn (notifier rb) = None -> (q = [] -> q_len_pos rb = false) ->
  qb_rb_space_free (Some rb) = 4 * free_words (word_size (shared_hdr rb)) q.
Proof.
  intros Hinv Hn Hq. pose proof (wp_cases rb q Hinv) as Hc. destruct Hinv as [Hw Hm Hr Hwp Hu _].
  unfold qb_rb_space_free. rewrite Hn. fold (q_len_pos rb). unfold max_word_size in Hw. simpl in Hc.
  pose proof (used_nonneg q).
  destruct Hc as [(-> & E)|[(Hne & E & ?)|(Hne & E & ?)]].
  - rewrite E, Z.ltb_irrefl, Hq by done. rewrite u64_small, i64_small by lia. simpl. lia.
  - destruct (Z.ltb_spec (read_pt (shared_hdr rb)) (write_pt (shared_hdr rb))); [|lia].
    rewrite !u32_small, u64_small, i64_small by (rewrite ?u32_small; lia).
    destruct q; [done|]. unfold free_words. lia.
  - destruct (Z.ltb_spec (read_pt (shared_hdr rb)) (write_pt (shared_hdr rb))); [lia|].
    destruct (Z.ltb_spec (write_pt (shared_hdr rb)) (read_pt (shared_hdr rb))); [|lia].
    rewrite !u32_small, u64_small, i64_small by (rewrite ?u32_small; lia).
    destruct q; [done|]. unfold free_words. lia.
Qed.

Lemma no_space_fits rb q len :
  rb_inv rb q -> space_used_fn (notifier rb) = None -> (q = [] -> q_len_pos rb = false) ->
  0 <= len < 2 ^ 64 - QB_RB_CHUNK_MARGIN ->
  no_space rb len = negb (fits (word_size (shared_hdr rb)) q len).
Proof.
  intros Hinv Hn Hq Hl. unfold no_space, fits. rewrite (space_free_inv rb q) by done.
  destruct Hinv as [Hw _ _ _ Hu _]. unfold max_word_size in Hw. pose proof (used_nonneg q).
  assert (0 <= free_words (word_size (shared_hdr rb)) q <= word_size (shared_hdr rb))
    by (unfold free_words; destruct q; lia).
  change QB_RB_CHUNK_MARGIN with 12 in *. rewrite !u64_small by lia. rewrite Z.leb_antisym. now rewrite negb_involutive.
Qed.

Lemma chunk_step_inv rb p d :
  3 <= word_size (shared_hdr rb) <= max_word_size ->
  0 <= p < word_size (shared_hdr rb) -> chunk_words d < word_size (shared_hdr rb) ->
  slice (shared_data rb) (4 * p) 4 = le_split 4 (zlen d) ->
  qb_rb_chunk_step rb p = (p + chunk_words d) mod word_size (shared_hdr rb).
Proof.
  intros Hw Hp Hc Hs. pose proof (zlen_nonneg d). unfold chunk_words, max_word_size in *.
  assert (zlen d / 4 < word_size (shared_hdr rb)) by zlia.
  unfold qb_rb_chunk_step, QB_RB_CHUNK_SIZE_GET, QB_RB_CHUNK_HEADER_WORDS, QB_RB_WORD_ALIGN.
  rewrite (word_get_slice _ _ (zlen d)) by (done || zlia).
  assert (0 <= zlen d / 4) by zlia.
  rewrite !(u32_small (p + 2)) by lia.
  rewrite !(u32_small (p + 2 + _)) by lia. change (4 * 1) with 4.
  set (x := if _ =? 0 then _ else _).
  assert (x = p + (2 + (zlen d + 3) / 4)) as ->.
  { unfold x. zcase; [zlia|]. rewrite u32_small by lia. zlia. }
  unfold idx_cache_line_step. rewrite u32_small by lia.
  zcase; [done|]. rewrite Z.mod_small; [done|zlia].
Qed.

(** The chunk at the read pointer, as the reader finds it. *)
Lemma head_magic rb d q (Hinv : rb_inv rb (d :: q)) :
  QB_RB_CHUNK_MAGIC_GET rb (read_pt (shared_hdr rb)) = QB_RB_CHUNK_MAGIC.
Proof.
  destruct Hinv as [Hw Hm Hr _ _ (_ & L & _)]. unfold max_word_size in Hw.
  unfold QB_RB_CHUNK_MAGIC_GET. rewrite u32_small by lia.
  rewrite word_get_mod by (done || lia). now apply word_get_slice.
Qed.

Lemma head_size rb d q (Hinv : rb_inv rb (d :: q)) :
  QB_RB_CHUNK_SIZE_GET rb (read_pt (shared_hdr rb)) = zlen d.
Proof.
  destruct Hinv as [Hw Hm Hr _ Hu (L & _)]. unfold max_word_size in Hw.
  simpl in Hu. pose proof (used_nonneg q). pose proof (chunk_words_bytes d).
  pose proof (zlen_nonneg d). unfold QB_RB_CHUNK_SIZE_GET. apply word_get_slice; [lia|done].
Qed.

Lemma head_data rb d q (Hinv : rb_inv rb (d :: q)) :
  slice (shared_data rb) (QB_RB_CHUNK_DATA_GET rb (read_pt (shared_hdr rb))) (zlen d) = d.
Proof.
  destruct Hinv as [Hw Hm Hr _ Hu (_ & _ & L & _)]. unfold max_word_size in Hw.
  unfold QB_RB_CHUNK_DATA_GET. rewrite u32_small by (unfold QB_RB_CHUNK_HEADER_WORDS; lia).
  now rewrite slice_word_mod by (done || lia).
Qed.

(** ** Reclaim *)

(** The ring after the oldest chunk is dropped, before the notifier runs. *)
Definition drop_head rb : qb_ringbuffer_s I :=
  let p := read_pt (shared_hdr rb) in
  set_read_pt
    (QB_RB_CHUNK_MAGIC_SET (set_data rb (word_set (shared_data rb) p 0)) p QB_RB_CHUNK_MAGIC_DEAD)
    (qb_rb_chunk_step rb p).

Lemma drop_head_frame rb : same_frame rb (drop_head rb) /\ instance (drop_head rb) = instance rb.
Proof. by repeat split. Qed.

Lemma drop_head_inv rb d q : rb_inv rb (d :: q) -> rb_inv (drop_head rb) q.
Proof.
  intros [Hw Hm Hr Hwp Hu (L1 & L2 & L3 & L4)]. simpl in Hu.
  pose proof (used_nonneg q). pose proof (chunk_words_pos d).
  assert (Hst : qb_rb_chunk_step rb (read_pt (shared_hdr rb)) =
     (read_pt (shared_hdr rb) + chunk_words d) mod word_size (shared_hdr rb))
    by (apply chunk_step_inv; [done|done|lia|done]).
  unfold max_word_size in *.
  constructor; simpl; rewrite ?Hst; unfold max_word_size; try done.
  - autorewrite with qb_len. done.
  - apply Z.mod_pos_bound. lia.
  - rewrite Hwp. simpl. rewrite Zplus_mod_idemp_l. f_equal. lia.
  - lia.
  - rewrite u32_small, word_set_mod by (autorewrite with qb_len; done || lia).
    rewrite laid_mod by (autorewrite with qb_len; done || lia).
    rewrite <- (word_set_shift (word_size (shared_hdr rb)) (shared_data rb)) by (done || lia).
    rewrite <- (word_set_shift (word_size (shared_hdr rb)) _ (_ + 1)) by (autorewrite with qb_len; done || lia).
    repeat apply (laid_word_set (word_size (shared_hdr rb))); autorewrite with qb_len; try lia; done.
Qed.

Lemma reclaim_inv rb d q errno :
  rb_inv rb (d :: q) ->
  _rb_chunk_reclaim rb errno =
    match reclaim_fn (notifier rb) with
    | Some f =>
      let '(i, rc) := f (instance rb) (zlen d) in
      (set_instance (drop_head rb) i, if rc <? 0 then - rc else errno, rc)
    | None => (drop_head rb, errno, 0)
    end.
Proof.
  intros Hinv. unfold _rb_chunk_reclaim.
  rewrite (head_magic _ _ _ Hinv), Z.eqb_refl, (head_size _ _ _ Hinv). reflexivity.
Qed.

(** A chunk header that is not there stops the reclaim. *)
Lemma reclaim_no_magic rb errno :
  QB_RB_CHUNK_MAGIC_GET rb (read_pt (shared_hdr rb)) <> QB_RB_CHUNK_MAGIC ->
  _rb_chunk_reclaim rb errno = (rb, EINVAL, - EINVAL).
Proof. intros Hne. unfold _rb_chunk_reclaim. zcase; [done|reflexivity]. Qed.

(** ** Write *)

(** The ring after a chunk is stored and committed, before the notifier runs. *)
Definition push_chunk rb (d : list Z) : qb_ringbuffer_s I :=
  let h := shared_hdr rb in
  set_write_pt (set_data rb (write_mem (shared_data rb) (write_pt h) d))
    ((write_pt h + chunk_words d) mod word_size h).

Lemma push_chunk_frame rb d : same_frame rb (push_chunk rb d) /\ instance (push_chunk rb d) = instance rb.
Proof. by repeat split. Qed.

Lemma write_mem_mod N m W d : 0 < N -> zlen m = 4 * N -> write_mem m (W mod N) d = write_mem m W d.
Proof.
  intros HN Hm. unfold write_mem.
  rewrite (word_set_mod m W) by done.
  rewrite <- (word_set_mod _ (W mod N + 1) _ N), Zplus_mod_idemp_l, (word_set_mod _ (W + 1))
    by (autorewrite with qb_len; done).
  rewrite <- (blit_mod _ (4 * (W mod N + 2))), <- (blit_mod _ (4 * (W + 2))).
  rewrite <- (word_mod _ (W mod N + 2) N), Zplus_mod_idemp_l, (word_mod _ (W + 2) N)
    by (autorewrite with qb_len; done).
  rewrite (word_set_mod _ W) by (autorewrite with qb_len; done).
  rewrite <- (word_set_mod _ (W mod N + 1) _ N), Zplus_mod_idemp_l, (word_set_mod _ (W + 1))
    by (autorewrite with qb_len; done).
  done.
Qed.

Lemma push_chunk_inv rb q d :
  rb_inv rb q -> fits (word_size (shared_hdr rb)) q (zlen d) = true ->
  rb_inv (push_chunk rb d) (q ++ [d]).
Proof.
  intros [Hw Hm Hr Hwp Hu L] Hf. apply fits_used in Hf.
  pose proof (used_nonneg q). pose proof (chunk_words_pos d).
  constructor; simpl; unfold max_word_size in *; try done.
  - now rewrite zlen_write_mem.
  - rewrite Hwp, Zplus_mod_idemp_l, used_app. simpl. f_equal. lia.
  - rewrite used_app. simpl. lia.
  - rewrite Hwp, write_mem_mod by (done || lia). apply laid_app. split.
    + apply (laid_write_other (word_size (shared_hdr rb))); try lia; done.
    + apply (laid_write_same (word_size (shared_hdr rb))); [done|lia].
Qed.

(** Run [post_fn] on the ring with the length of the new chunk. *)
Definition post_chunk rb (len : Z) : qb_ringbuffer_s I * Z :=
  match post_fn (notifier rb) with
  | Some f => let '(i, rc) := f (instance rb) len in (set_instance rb i, rc)
  | None => (rb, 0)
  end.

Lemma write_pt_range rb q : rb_inv rb q -> 0 <= write_pt (shared_hdr rb) < word_size (shared_hdr rb).
Proof. intros [Hw _ _ -> _ _]. apply Z.mod_pos_bound. lia. Qed.

(** Header, copy and commit together store the chunk as [push_chunk] says. *)
Lemma store_chunk rb q d :
  rb_inv rb q -> fits (word_size (shared_hdr rb)) q (zlen d) = true ->
  let rb1 := insert_chunk_header rb in
  let off := QB_RB_CHUNK_DATA_GET rb (write_pt (shared_hdr rb)) in
  qb_rb_chunk_commit (Some (set_data rb1 (blit (shared_data rb1) off d))) (zlen d) =
  let '(rb', rc) := post_chunk (push_chunk rb d) (zlen d) in (Some rb', rc).
Proof.
  intros Hinv Hf. pose proof (write_pt_range rb q Hinv) as Hwr.
  destruct Hinv as [Hw Hm Hr Hwp Hu L]. apply fits_used in Hf. unfold max_word_size in *.
  pose proof (used_nonneg q). pose proof (chunk_words_pos d). pose proof (chunk_words_bytes d).
  pose proof (zlen_nonneg d).
  set (N := word_size (shared_hdr rb)) in *. set (w := write_pt (shared_hdr rb)) in *.
  set (m3 := blit (word_set (word_set (shared_data rb) w 0) (w + 1) QB_RB_CHUNK_MAGIC_ALLOC)
               (4 * (w + 2)) d).
  cbn zeta. unfold insert_chunk_header, qb_rb_chunk_commit, QB_RB_CHUNK_MAGIC_SET,
    QB_RB_CHUNK_DATA_GET, QB_RB_CHUNK_HEADER_WORDS.
  cbn [set_data set_hdr set_write_pt shared_hdr shared_data word_size write_pt read_pt hdr_path
       data_path ref_count notifier instance flags]. fold w N.
  rewrite (u32_small (w + 1)), (u32_small (w + 2)), (u32_small (zlen d)) by lia.
  rewrite (word_set_mod (word_set (shared_data rb) w 0) (w + 1) _ N)
    by (autorewrite with qb_len; done || lia).
  rewrite <- (blit_mod _ (4 * ((w + 2) mod N))), (word_mod _ (w + 2) N), blit_mod
    by (autorewrite with qb_len; done || lia).
  fold m3.
  rewrite (word_set_mod (word_set m3 w (zlen d)) (w + 1) _ N)
    by (unfold m3; autorewrite with qb_len; done || lia).
  rewrite (chunk_step_inv _ w d); cbn [set_data shared_hdr shared_data];
    fold N; unfold max_word_size; [|lia|lia|lia|].
  - unfold post_chunk, push_chunk, write_mem. fold w N. fold m3.
    cbn [set_data set_hdr set_write_pt shared_hdr shared_data notifier instance flags].
    destruct (post_fn (notifier rb)) as [f|]; [|done]. by destruct (f (instance rb) (zlen d)).
  - apply slice_word_set_same. unfold m3. autorewrite with qb_len. lia.
Qed.

(** The same when more bytes were written behind the data, in the space that was
    allocated: [x] is lost, and the chunk is as before. *)
Definition prewrite rb (n : Z) (x : list Z) : qb_ringbuffer_s I :=
  set_data rb (blit (shared_data rb) (4 * (write_pt (shared_hdr rb) + 2) + n) x).

Lemma prewrite_inv rb q n x :
  rb_inv rb q -> 0 <= n -> fits (word_size (shared_hdr rb)) q (n + zlen x) = true -> rb_inv (prewrite rb n x) q.
Proof.
  intros Hinv Hn Hf. pose proof (write_pt_range rb q Hinv) as Hwr. pose proof Hinv as [Hw Hm Hr Hwp Hu L].
  pose proof (used_nonneg q). pose proof (zlen_nonneg x).
  constructor; simpl; try done; [by rewrite zlen_blit|].
  set (N := word_size (shared_hdr rb)) in *.
  assert (Hb : 4 * (2 + used q) + n + zlen x <= 4 * N).
  { unfold fits, free_words in Hf. change QB_RB_CHUNK_MARGIN with 12 in Hf. destruct q; cbn [used] in *; lia. }
  rewrite Hwp. rewrite <- blit_mod.
  replace ((4 * ((read_pt (shared_hdr rb) + used q) mod N + 2) + n) mod zlen (shared_data rb))
    with ((4 * (read_pt (shared_hdr rb) + used q + 2) + n) mod zlen (shared_data rb)).
  - rewrite blit_mod. apply (laid_blit N); try lia; done.
  - rewrite Hm. rewrite Z.mod_eq by lia.
    rewrite <- (Z.mod_add (4 * ((read_pt (shared_hdr rb) + used q) mod N + 2) + n) ((read_pt (shared_hdr rb) + used q) / N)) by lia.
    rewrite <- Z.mod_eq by lia. f_equal. rewrite (Z.div_mod (read_pt (shared_hdr rb) + used q) N) at 1 by lia. lia.
Qed.

Lemma prewrite_commutes rb q d x :
  rb_inv rb q -> fits (word_size (shared_hdr rb)) q (zlen d + zlen x) = true ->
  let off := QB_RB_CHUNK_DATA_GET rb (write_pt (shared_hdr rb)) in
  let rb1 := insert_chunk_header rb in
  let rb2 := insert_chunk_header (prewrite rb (zlen d) x) in
  set_data rb1 (blit (shared_data rb1) off (d ++ x)) = set_data rb2 (blit (shared_data rb2) off d).
Proof.
  intros Hinv Hf. pose proof (write_pt_range rb q Hinv) as Hwr. pose proof Hinv as [Hw Hm Hr Hwp Hu L].
  unfold max_word_size in *. pose proof (used_nonneg q). pose proof (zlen_nonneg x). pose proof (zlen_nonneg d).
  set (N := word_size (shared_hdr rb)) in *. set (w := write_pt (shared_hdr rb)) in *.
  assert (Hb : 4 * (2 + used q) + zlen d + zlen x <= 4 * N).
  { unfold fits, free_words in Hf. change QB_RB_CHUNK_MARGIN with 12 in Hf. destruct q; cbn [used] in *; lia. }
  cbn zeta. unfold insert_chunk_header, QB_RB_CHUNK_MAGIC_SET, QB_RB_CHUNK_DATA_GET, QB_RB_CHUNK_HEADER_WORDS, prewrite.
  cbn [set_data set_hdr shared_hdr shared_data word_size write_pt notifier instance flags]. fold w N. unfold set_data. cbn [flags shared_hdr shared_data notifier instance].
  match goal with |- Build_qb_ringbuffer_s _ _ ?m1 _ _ = Build_qb_ringbuffer_s _ _ ?m2 _ _ => cut (m1 = m2); [by intros ->|] end.
  rewrite (u32_small (w + 1)), (u32_small (w + 2)) by lia. rewrite blit_app.
  set (m := shared_data rb) in *. rewrite !(word_set_mod _ (w + 1) _ N) by (autorewrite with qb_len; done || lia).
  assert (Eoff : forall m' bs k, zlen m' = 4 * N -> blit m' (4 * ((w + 2) mod N) + k) bs = blit m' (4 * (w + 2) + k) bs).
  { intros m' bs k Hm'. rewrite <- blit_mod, <- (blit_mod _ (4 * (w + 2) + k)). f_equal.
    rewrite <- Zplus_mod_idemp_l, (word_mod _ (w + 2) N) by (done || lia). apply Zplus_mod_idemp_l. }
  rewrite Eoff by (autorewrite with qb_len; done).
  rewrite <- (Z.add_0_r (4 * ((w + 2) mod N))), !Eoff, Z.add_0_r by (autorewrite with qb_len; done).
  unfold word_set. rewrite (blit_comm _ (4 * (w + 2))) by (autorewrite with qb_len; lia).
  replace (4 * (w + 2) + zlen d) with (4 * (w + 1) + (4 + zlen d)) by lia.
  rewrite (blit_comm _ (4 * (w + 1))) by (autorewrite with qb_len; lia).
  replace (4 * (w + 1) + (4 + zlen d)) with (4 * w + (8 + zlen d)) by lia.
  by rewrite (blit_comm _ (4 * w)) by (autorewrite with qb_len; lia).
Qed.

Lemma store_window rb q d x :
  rb_inv rb q -> fits (word_size (shared_hdr rb)) q (zlen d + zlen x) = true ->
  let rb1 := insert_chunk_header rb in
  let off := QB_RB_CHUNK_DATA_GET rb (write_pt (shared_hdr rb)) in
  exists rb', rb_inv rb' (q ++ [d]) /\ same_frame rb rb' /\ instance rb' = instance rb /\
    qb_rb_chunk_commit (Some (set_data rb1 (blit (shared_data rb1) off (d ++ x)))) (zlen d) =
    let '(rb', rc) := post_chunk rb' (zlen d) in (Some rb', rc).
Proof.
  intros Hinv Hf rb1 off. pose proof (zlen_nonneg d). pose proof (zlen_nonneg x).
  pose proof (prewrite_inv rb q (zlen d) x Hinv ltac:(lia) Hf) as Hp.
  assert (Hfd : fits (word_size (shared_hdr (prewrite rb (zlen d) x))) q (zlen d) = true).
  { unfold fits in *. cbn [prewrite set_data shared_hdr]. lia. }
  exists (push_chunk (prewrite rb (zlen d) x) d). split; [by apply push_chunk_inv|]. split; [by repeat split|]. split; [done|].
  unfold rb1, off. rewrite (prewrite_commutes rb q d x) by done. apply (store_chunk (prewrite rb (zlen d) x) q d Hp Hfd).
Qed.

(** The pre-conditions under which a ring counts its free space by pointers. *)
Definition counts_by_pointers rb q : Prop :=
  space_used_fn (notifier rb) = None /\ (q = [] -> q_len_pos rb = false).

Lemma write_fits rb q d errno :
  rb_inv rb q -> counts_by_pointers rb q ->
  has_flag (flags rb) QB_RB_FLAG_OVERWRITE = false ->
  fits (word_size (shared_hdr rb)) q (zlen d) = true ->
  qb_rb_chunk_write (Some rb) d errno =
  let '(rb', rc) := post_chunk (push_chunk rb d) (zlen d) in
  Some (Some rb', errno, if rc <? 0 then rc else zlen d).
Proof.
  intros Hinv [Hn Hq] Ho Hf. pose proof (zlen_nonneg d).
  assert (zlen d < 2 ^ 64 - QB_RB_CHUNK_MARGIN).
  { pose proof (fits_used _ _ _ Hf). pose proof (chunk_words_bytes d). pose proof (used_nonneg q).
    destruct Hinv as [Hw _ _ _ _ _]. unfold max_word_size in Hw. change QB_RB_CHUNK_MARGIN with 12. lia. }
  unfold qb_rb_chunk_write, qb_rb_chunk_alloc.
  rewrite Ho, (no_space_fits rb q), Hf by done. cbn [negb].
  rewrite (store_chunk rb q d) by done. by destruct (post_chunk _ _).
Qed.

Lemma write_no_room rb q d errno :
  rb_inv rb q -> counts_by_pointers rb q ->
  has_flag (flags rb) QB_RB_FLAG_OVERWRITE = false ->
  zlen d < 2 ^ 64 - QB_RB_CHUNK_MARGIN ->
  fits (word_size (shared_hdr rb)) q (zlen d) = false ->
  qb_rb_chunk_write (Some rb) d errno = Some (Some rb, EAGAIN, - EAGAIN).
Proof.
  intros Hinv [Hn Hq] Ho Hl Hf. pose proof (zlen_nonneg d).
  unfold qb_rb_chunk_write, qb_rb_chunk_alloc.
  by rewrite Ho, (no_space_fits rb q), Hf by done.
Qed.
End Inv.
