(* ===== verification/RingBufferSpec.v ===== *)
(** * Ring buffer: abstract queue and refinement

    A ring that is not overwriting and has a semaphore behaves like a bounded
    FIFO queue of byte strings.  The queue is the specification; [rb_refines]
    is the simulation for any sequence of operations. *)
From stdpp Require Import strings.
From S2P Require Import Prelude Memory RingBuffer RingBufferOpen RingBufferInv.

(** ** The abstract queue *)

(** The operations of a client: write a chunk; read into a buffer of [len]
    bytes; peek at the oldest chunk and then reclaim it. *)
Inductive rb_op :=
  | Op_write (d : list Z)
  | Op_read (len timeout : Z)
  | Op_take (timeout : Z).

(** A return value and the bytes handed to the client. *)
Definition rb_out : Type := Z * list Z.

(** A wait on an empty queue: the errors that are left and the error returned,
    [None] if it blocks. *)
Fixpoint wait_empty (env : list Z) (timeout : Z) : option (list Z * Z) :=
  if timeout =? 0 then Some (env, - ETIMEDOUT)
  else
    match env with
    | [] => if 0 <? timeout then Some ([], - ETIMEDOUT) else None
    | e :: env' =>
      if e =? EINTR then wait_empty env' timeout
      else Some (env', if e =? EAGAIN then - ETIMEDOUT else - e)
    end.

(** One step of a queue of capacity [N] words. *)
Definition queue_step (N : Z) (st : list (list Z) * list Z) (op : rb_op)
    : option (list (list Z) * list Z * rb_out) :=
  let '(q, env) := st in
  match op with
  | Op_write d =>
    if fits N q (zlen d) then Some (q ++ [d], env, (zlen d, []))
    else Some (q, env, (- EAGAIN, []))
  | Op_read len timeout =>
    match q with
    | d :: q' =>
      if len <? zlen d then Some (q, env, (- ENOBUFS, []))
      else Some (q', env, (zlen d, d))
    | [] =>
      match wait_empty env timeout with
      | Some (env', e) => Some ([], env', (e, []))
      | None => None
      end
    end
  | Op_take timeout =>
    match q with
    | d :: q' => Some (q', env, (zlen d, d))
    | [] =>
      match wait_empty env timeout with
      | Some (env', e) => Some ([], env', (if e =? - ETIMEDOUT then 0 else e, []))
      | None => None
      end
    end
  end.

(** The same operation on the ring. *)
Definition ring_step (rb : qb_ringbuffer_s psem) (op : rb_op)
    : option (qb_ringbuffer_s psem * rb_out) :=
  match op with
  | Op_write d =>
    match qb_rb_chunk_write (Some rb) d 0 with
    | Some (Some rb', _, r) => Some (rb', (r, []))
    | _ => None
    end
  | Op_read len timeout =>
    match qb_rb_chunk_read (Some rb) len timeout 0 with
    | Some (Some rb', r, out) => Some (rb', (r, out))
    | _ => None
    end
  | Op_take timeout =>
    match qb_rb_chunk_peek (Some rb) timeout with
    | Some (Some rb', r, Some p) =>
      let out := slice (shared_data rb') p r in
      match fst (qb_rb_chunk_reclaim (Some rb') 0) with
      | Some rb'' => Some (rb'', (r, out))
      | None => None
      end
    | Some (Some rb', r, None) => Some (rb', (r, []))
    | _ => None
    end
  end.

(** Sequences of operations, with the outputs in order. *)
Fixpoint queue_run (N : Z) (st : list (list Z) * list Z) (ops : list rb_op)
    : option (list (list Z) * list Z * list rb_out) :=
  match ops with
  | [] => Some (st, [])
  | op :: ops' =>
    match queue_step N st op with
    | Some (st', o) =>
      match queue_run N st' ops' with
      | Some (st'', os) => Some (st'', o :: os)
      | None => None
      end
    | None => None
    end
  end.

Fixpoint ring_run (rb : qb_ringbuffer_s psem) (ops : list rb_op)
    : option (qb_ringbuffer_s psem * list rb_out) :=
  match ops with
  | [] => Some (rb, [])
  | op :: ops' =>
    match ring_step rb op with
    | Some (rb', o) =>
      match ring_run rb' ops' with
      | Some (rb'', os) => Some (rb'', o :: os)
      | None => None
      end
    | None => None
    end
  end.

(** ** Representation

    [env] is the errors the environment has in store for waits; POSIX
    semaphores do not report [EIDRM]. *)
Definition env_ok (env : list Z) : Prop := Forall (fun e => 0 < e /\ e <> EIDRM) env.

Record rb_rep (rb : qb_ringbuffer_s psem) (q : list (list Z)) (env : list Z) : Prop := {
  rep_inv : rb_inv rb q;
  rep_notifier : notifier rb = posix_notifier;
  rep_flags : has_flag (flags rb) QB_RB_FLAG_OVERWRITE = false;
  rep_sem : instance rb = {| posix_sem := zlen q; wait_env := env |};
  rep_env : env_ok env;
}.

(** What an operation may be given: buffer lengths are sizes, and data is
    shorter than the address space minus the margin. *)
Definition op_ok (op : rb_op) : Prop :=
  match op with
  | Op_write d => zlen d < 2 ^ 64 - QB_RB_CHUNK_MARGIN
  | Op_read len _ => 0 <= len
  | Op_take _ => True
  end.

(** ** Waiting *)

Lemma sem_wait_zero env t :
  sem_wait_again 0 env t =
  match wait_empty env t with
  | Some (env', e) => Some ({| posix_sem := 0; wait_env := env' |}, e)
  | None => None
  end.
Proof.
  induction env as [|e env IH]; cbn [sem_wait_again wait_empty]; rewrite Z.ltb_irrefl.
  - zcase; [done|]. by zcase.
  - destruct (t =? 0); [done|]. destruct (e =? EINTR); [done|]. by destruct (e =? EAGAIN).
Qed.

Lemma wait_empty_error env t env' e :
  env_ok env -> wait_empty env t = Some (env', e) -> e < 0 /\ e <> - EIDRM /\ env_ok env'.
Proof.
  induction 1 as [|x env [Hx1 Hx2] Hok IH]; cbn [wait_empty].
  - unfold ETIMEDOUT, EIDRM. repeat zcase; intros; simplify_eq; split_and!; try lia; by constructor.
  - unfold ETIMEDOUT, EIDRM, EAGAIN in *.
    repeat zcase; intros; simplify_eq; try (by apply IH); split_and!; try lia; try done.
    all: by constructor.
Qed.

Lemma sem_wait_pos n env t :
  0 < n -> sem_wait_again n env t = Some ({| posix_sem := n - 1; wait_env := env |}, 0).
Proof. intros. destruct env; cbn [sem_wait_again]; destruct (Z.ltb_spec 0 n); done || lia. Qed.

(** The semaphore cannot overflow: every chunk takes two words. *)
Lemma rep_sem_bound rb q env : rb_rep rb q env -> 0 <= zlen q < SEM_VALUE_MAX.
Proof.
  intros [[Hw _ _ _ Hu _] _ _ _ _]. pose proof (used_length q). pose proof (zlen_nonneg q).
  unfold max_word_size, SEM_VALUE_MAX in *. lia.
Qed.

Lemma rep_counts rb q env : rb_rep rb q env -> counts_by_pointers rb q.
Proof.
  intros [_ Hn _ Hs _]. unfold counts_by_pointers, q_len_pos. rewrite Hn, Hs.
  split; [done|]. by intros ->.
Qed.

(** ** Simulation of one step *)

Lemma write_rep rb q env d errno :
  rb_rep rb q env -> fits (word_size (shared_hdr rb)) q (zlen d) = true ->
  exists rb', qb_rb_chunk_write (Some rb) d errno = Some (Some rb', errno, zlen d) /\
    rb_rep rb' (q ++ [d]) env /\ same_frame rb rb'.
Proof.
  intros Hrep E. pose proof (rep_counts _ _ _ Hrep) as Hc. pose proof (rep_sem_bound _ _ _ Hrep).
  pose proof Hrep as [Hinv Hn Hf Hs He].
  rewrite (write_fits rb q) by done. unfold post_chunk.
  cbn [push_chunk notifier set_write_pt set_hdr set_data instance]. rewrite Hn, Hs.
  cbn [posix_notifier post_fn]. unfold my_posix_sem_post. cbn [posix_sem wait_env].
  destruct (Z.eqb_spec (zlen q) SEM_VALUE_MAX); [lia|].
  eexists. split; [done|]. split; [|done]. constructor; try done.
  - by apply rb_inv_set_instance, push_chunk_inv.
  - simpl. f_equal. rewrite zlen_app. done.
Qed.

Lemma step_write rb q env d :
  rb_rep rb q env -> zlen d < 2 ^ 64 - QB_RB_CHUNK_MARGIN ->
  exists rb' q' o, queue_step (word_size (shared_hdr rb)) (q, env) (Op_write d) = Some (q', env, o) /\
    ring_step rb (Op_write d) = Some (rb', o) /\ rb_rep rb' q' env /\ same_frame rb rb'.
Proof.
  intros Hrep Hl. cbn [queue_step ring_step].
  destruct (fits (word_size (shared_hdr rb)) q (zlen d)) eqn:E.
  - destruct (write_rep rb q env d 0 Hrep E) as (rb' & -> & ? & ?). eauto 10.
  - pose proof (rep_counts _ _ _ Hrep). pose proof Hrep as [Hinv Hn Hf Hs He].
    rewrite (write_no_room rb q) by done. eauto 10 using same_frame_refl.
Qed.

(** The wait of a ring that holds a chunk, and of an empty one. *)
Lemma wait_notifier_rep rb q env t :
  rb_rep rb q env ->
  wait_notifier rb t =
  match q with
  | _ :: q' => Some (set_instance rb {| posix_sem := zlen q'; wait_env := env |}, 0)
  | [] =>
    match wait_empty env t with
    | Some (env', e) => Some (set_instance rb {| posix_sem := 0; wait_env := env' |}, e)
    | None => None
    end
  end.
Proof.
  intros [_ Hn _ Hs _]. unfold wait_notifier. rewrite Hn, Hs. cbn [posix_notifier timedwait_fn].
  unfold my_posix_sem_timedwait. cbn [posix_sem wait_env]. destruct q as [|d q].
  - rewrite zlen_nil, sem_wait_zero. by destruct (wait_empty env t) as [[]|].
  - rewrite zlen_cons, sem_wait_pos by (pose proof (zlen_nonneg q); lia).
    by replace (1 + zlen q - 1) with (zlen q) by lia.
Qed.

Lemma rep_after_wait rb env env' :
  rb_rep rb [] env -> env_ok env' ->
  rb_rep (set_instance rb {| posix_sem := 0; wait_env := env' |}) [] env'.
Proof. intros [Hinv Hn Hf Hs He] ?. constructor; try done. by apply rb_inv_set_instance. Qed.

(** The bad-wait test of peek and read is true on an empty ring. *)
Lemma bad_wait e : e < 0 -> e <> - EIDRM -> (e <? 0) && negb (e =? - EIDRM) = true.
Proof. intros. zcase; [|lia]. by zcase. Qed.

Lemma rep_reclaimed rb d q env :
  rb_rep rb (d :: q) env ->
  rb_rep (drop_head (set_instance rb {| posix_sem := zlen q; wait_env := env |})) q env.
Proof.
  intros [Hinv Hn Hf Hs He]. constructor; try done.
  eapply drop_head_inv, rb_inv_set_instance, Hinv.
Qed.

Lemma step_read rb q env len t :
  rb_rep rb q env -> 0 <= len ->
  match queue_step (word_size (shared_hdr rb)) (q, env) (Op_read len t) with
  | None => ring_step rb (Op_read len t) = None
  | Some (q', env', o) => exists rb',
    ring_step rb (Op_read len t) = Some (rb', o) /\ rb_rep rb' q' env' /\ same_frame rb rb'
  end.
Proof.
  intros Hrep Hl. pose proof Hrep as [Hinv Hn Hf Hs He].
  pose proof (rep_sem_bound _ _ _ Hrep). cbn [queue_step ring_step]. unfold qb_rb_chunk_read.
  rewrite (wait_notifier_rep rb q env) by done. destruct q as [|d q].
  - destruct (wait_empty env t) as [[env' e]|] eqn:E; [|done].
    destruct (wait_empty_error _ _ _ _ He E) as (? & ? & ?).
    rewrite bad_wait by done. eexists. split; [done|]. split; [by eapply rep_after_wait|done].
  - change ((0 <? 0) && negb (0 =? - EIDRM)) with false. cbv beta iota zeta.
    assert (Hinv' : rb_inv (set_instance rb {| posix_sem := zlen q; wait_env := env |}) (d :: q))
      by by apply rb_inv_set_instance.
    rewrite (head_magic _ _ _ Hinv'), (head_size _ _ _ Hinv'), Z.eqb_refl. cbn [negb].
    rewrite zlen_cons in *. pose proof (zlen_nonneg q).
    destruct (Z.ltb_spec len (zlen d)).
    + eexists. split; [done|]. unfold repost. cbn [set_instance notifier]. rewrite Hn.
      cbn [posix_notifier post_fn instance set_instance]. unfold my_posix_sem_post.
      cbn [posix_sem]. destruct (Z.eqb_spec (zlen q) SEM_VALUE_MAX); [lia|].
      split; [|done]. constructor; try done; [by repeat apply rb_inv_set_instance|].
      simpl. rewrite zlen_cons. f_equal. lia.
    + rewrite (reclaim_inv _ d q) by done. cbn [set_instance notifier]. rewrite Hn.
      cbn [posix_notifier reclaim_fn]. eexists.
      rewrite (head_data _ _ _ Hinv').
      split; [done|]. split; [by apply (rep_reclaimed rb d)|done].
Qed.

Lemma step_take rb q env t :
  rb_rep rb q env ->
  match queue_step (word_size (shared_hdr rb)) (q, env) (Op_take t) with
  | None => ring_step rb (Op_take t) = None
  | Some (q', env', o) => exists rb',
    ring_step rb (Op_take t) = Some (rb', o) /\ rb_rep rb' q' env' /\ same_frame rb rb'
  end.
Proof.
  intros Hrep. pose proof Hrep as [Hinv Hn Hf Hs He].
  cbn [queue_step ring_step]. unfold qb_rb_chunk_peek.
  rewrite (wait_notifier_rep rb q env) by done. destruct q as [|d q].
  - destruct (wait_empty env t) as [[env' e]|] eqn:E; [|done].
    destruct (wait_empty_error _ _ _ _ He E) as (? & ? & ?).
    rewrite bad_wait by done. eexists. split; [by zcase|]. split; [by eapply rep_after_wait|done].
  - change ((0 <? 0) && negb (0 =? - EIDRM)) with false. cbv beta iota zeta.
    assert (Hinv' : rb_inv (set_instance rb {| posix_sem := zlen q; wait_env := env |}) (d :: q))
      by by apply rb_inv_set_instance.
    rewrite (head_magic _ _ _ Hinv'), (head_size _ _ _ Hinv'), Z.eqb_refl. cbn [negb].
    rewrite (head_data _ _ _ Hinv'). unfold qb_rb_chunk_reclaim.
    rewrite (reclaim_inv _ d q) by done. cbn [set_instance notifier]. rewrite Hn.
    cbn [posix_notifier reclaim_fn fst]. eexists.
    split; [done|]. split; [by apply (rep_reclaimed rb d)|done].
Qed.

(** ** The ring refines the queue *)

Lemma queue_step_refines rb q env op :
  rb_rep rb q env -> op_ok op ->
  match queue_step (word_size (shared_hdr rb)) (q, env) op with
  | None => ring_step rb op = None
  | Some (q', env', o) => exists rb',
    ring_step rb op = Some (rb', o) /\ rb_rep rb' q' env' /\ same_frame rb rb'
  end.
Proof.
  intros Hrep Hop. destruct op as [d|len t|t].
  - destruct (step_write rb q env d Hrep Hop) as (rb' & q' & o & -> & ? & ?). eauto.
  - by apply step_read.
  - by apply step_take.
Qed.

(** C1. A ring with a semaphore that is not overwriting behaves like a bounded
    FIFO queue of byte strings: for every sequence of writes, reads and
    peek-then-reclaims, the return values and the bytes delivered are those of
    the queue, it blocks exactly when the queue does, and the final ring again
    represents the final queue. *)
Theorem rb_refines ops : forall rb q env,
  rb_rep rb q env -> Forall op_ok ops ->
  match queue_run (word_size (shared_hdr rb)) (q, env) ops with
  | None => ring_run rb ops = None
  | Some (q', env', outs) => exists rb',
    ring_run rb ops = Some (rb', outs) /\ rb_rep rb' q' env'
  end.
Proof.
  induction ops as [|op ops IH]; intros rb q env Hrep Hok; [by simpl; eauto|].
  inversion Hok as [|? ? Hop Hok']; subst. pose proof (queue_step_refines rb q env op Hrep Hop) as Hstep.
  cbn [queue_run ring_run].
  destruct (queue_step _ (q, env) op) as [[[q' env'] o]|]; [|by rewrite Hstep].
  destruct Hstep as (rb' & -> & Hrep' & (_ & _ & Hws & _)).
  specialize (IH rb' q' env' Hrep' Hok'). rewrite Hws in IH.
  destruct (queue_run _ (q', env') ops) as [[[q'' env''] os]|]; [|by rewrite IH].
  destruct IH as (rb'' & -> & ?). eauto.
Qed.
