(* ===== verification/RingBufferTheorems.v ===== *)
(** * Ring buffer: opening, overwriting, termination, saving and loading

    The theorems about a ring that are not part of the refinement to a queue;
    they share the invariant and the lemmas of [RingBufferInv]. *)
From stdpp Require Import strings.
From S2P Require Import Prelude Memory RingBuffer RingBufferOpen RingBufferInv RingBufferSpec.

(** ** Opening a ring *)

(** Every call of [qb_rb_open] to the system succeeds. *)
Record open_succeeds (env : open_env) : Prop := {
  os_calloc : env_calloc_ok env = true;
  os_hdr : 0 <= env_fd_hdr env;
  os_mmap : env_mmap_hdr_errno env = 0;
  os_sem : env_sem_init_errno env = 0;
  os_data : 0 <= env_fd_data env;
  os_circ : env_circular_mmap env = 0;
}.

(** Pages are made of words, and the size asked for leaves the word count
    within the range of the pointers. *)
Record size_ok (env : open_env) (size : Z) : Prop := {
  so_size : 0 <= size;
  so_page : 0 < page_size env;
  so_words : (4 | page_size env);
  so_max : size + QB_RB_CHUNK_MARGIN + page_size env < 4 * max_word_size;
}.

Lemma real_size_exactly env size :
  0 <= size < 2 ^ 33 -> 0 < page_size env < 2 ^ 33 -> (4 | page_size env) ->
  let rs := real_size_of env size in
  size + 13 <= rs < size + 13 + page_size env /\ (page_size env | rs) /\ rs = 4 * (rs / 4).
Proof.
  intros Hs Hp [k Hk].
  assert (Heq : real_size_of env size = QB_ROUNDUP (size + 13) (page_size env)).
  { unfold real_size_of, QB_ROUNDUP. change (QB_RB_CHUNK_MARGIN + 1) with 13.
    rewrite (u64_small (size + 13)), (u64_small (size + 13 + _)) by lia.
    apply u64_small. pose proof (QB_ROUNDUP_bounds (size + 13) (page_size env)).
    unfold QB_ROUNDUP in *. lia. }
  cbn zeta. rewrite Heq. split; [apply QB_ROUNDUP_bounds; lia|]. split; [apply QB_ROUNDUP_divide|].
  destruct (QB_ROUNDUP_divide (size + 13) (page_size env)) as [j ->]. rewrite Hk.
  rewrite Z.mul_assoc, Z.div_mul; lia.
Qed.

Lemma real_size_ok env size :
  size_ok env size ->
  let rs := real_size_of env size in
  size + 13 <= rs < size + 13 + page_size env /\ (page_size env | rs) /\ rs = 4 * (rs / 4).
Proof.
  intros [Hs Hp Hk Hm]. change QB_RB_CHUNK_MARGIN with 12 in *. unfold max_word_size in Hm.
  apply real_size_exactly; [lia|lia|done].
Qed.

(** The header and data of a ring that has just been created. *)
Lemma fresh_inv env size (rb : qb_ringbuffer_s psem) :
  size_ok env size ->
  word_size (shared_hdr rb) = u32 (real_size_of env size / 4) ->
  write_pt (shared_hdr rb) = 0 -> read_pt (shared_hdr rb) = 0 ->
  zlen (shared_data rb) = real_size_of env size ->
  rb_inv rb [] /\ word_size (shared_hdr rb) = real_size_of env size / 4.
Proof.
  intros Hok Hw Hwp Hrp Hm. destruct (real_size_ok env size Hok) as (Hb & _ & H4).
  destruct Hok as [Hs Hp _ Hmax]. change QB_RB_CHUNK_MARGIN with 12 in *. unfold max_word_size in *.
  rewrite u32_small in Hw by zlia. split; [|done].
  constructor; unfold max_word_size; rewrite ?Hw, ?Hwp, ?Hrp, ?Hm; simpl; try done; try zlia.
Qed.

(** The result of opening with [QB_RB_FLAG_CREATE] when nothing fails. *)
Lemma open_create env size fl :
  open_succeeds env -> size_ok env size -> has_flag fl QB_RB_FLAG_CREATE = true ->
  exists rb, qb_rb_open size fl env = inr rb /\
    flags rb = fl /\ rb_inv rb [] /\ word_size (shared_hdr rb) = real_size_of env size / 4 /\
    ref_count (shared_hdr rb) = 1 /\
    (notifier rb, instance rb) =
      if has_flag fl QB_RB_FLAG_NO_SEMAPHORE then (no_notifier, env_psem env)
      else (posix_notifier, {| posix_sem := 0; wait_env := wait_env (env_psem env) |}).
Proof.
  intros [Hc Hh Hmm Hsem Hd Hci] Hok Hcr. unfold qb_rb_open, qb_rb_open_2.
  rewrite Hc, Hmm, Hci, Hcr. cbn [negb Z.eqb].
  destruct (Z.ltb_spec (env_fd_hdr env) 0); [lia|].
  unfold qb_rb_sem_create, my_posix_sem_create. rewrite Hcr, Hsem, andb_false_r.
  destruct (Z.ltb_spec (env_fd_data env) 0); [lia|].
  pose proof (real_size_ok env size Hok) as (Hb & _). pose proof (so_size _ _ Hok).
  assert (Hz : zlen (zrepeat 0 (real_size_of env size)) = real_size_of env size)
    by (apply zlen_zrepeat; lia).
  destruct (has_flag fl QB_RB_FLAG_NO_SEMAPHORE); cbn [Z.eqb Z.ltb Z.compare];
    (eexists; split; [reflexivity|]);
    match goal with |- flags ?rb = _ /\ _ =>
      destruct (fresh_inv env size rb Hok eq_refl eq_refl eq_refl) as [Hf Hws];
        [cbn [set_ref_count set_hdr set_data shared_data]; by rewrite zlen_word_set|]
    end; split_and!; done.
Qed.

(** C7. A ring created for [size] bytes is empty, refers to one user, and takes
    any single chunk of up to [size] bytes: the margin and the rounding to
    pages that [qb_rb_open] adds are enough. *)
Theorem open_capacity env size fl d errno :
  open_succeeds env -> size_ok env size -> env_ok (wait_env (env_psem env)) ->
  has_flag fl QB_RB_FLAG_CREATE = true ->
  has_flag fl QB_RB_FLAG_OVERWRITE = false ->
  has_flag fl QB_RB_FLAG_NO_SEMAPHORE = false ->
  zlen d <= size ->
  exists rb rb', qb_rb_open size fl env = inr rb /\
    ref_count (shared_hdr rb) = 1 /\
    rb_rep rb [] (wait_env (env_psem env)) /\
    qb_rb_chunk_write (Some rb) d errno = Some (Some rb', errno, zlen d) /\
    rb_rep rb' [d] (wait_env (env_psem env)).
Proof.
  intros Hos Hok Henv Hcr How Hns Hd.
  destruct (open_create env size fl Hos Hok Hcr) as (rb & E & Hfl & Hinv & Hws & Hrc & Hn).
  rewrite Hns in Hn. injection Hn as Hnt Hi.
  assert (Hrep : rb_rep rb [] (wait_env (env_psem env))) by (constructor; try done; congruence).
  destruct (real_size_ok env size Hok) as (Hb & _ & H4).
  destruct (write_rep rb [] _ d errno Hrep) as (rb' & Hw & Hrep' & _).
  - apply Z.leb_le. change QB_RB_CHUNK_MARGIN with 12. cbn [free_words]. lia.
  - exists rb, rb'. done.
Qed.

(** ** Overwriting *)

(** The newest chunks that are left when the oldest are dropped one by one
    until [len] more bytes fit. *)
Fixpoint make_room (N : Z) (q : list (list Z)) (len : Z) : list (list Z) :=
  if fits N q len then q
  else match q with [] => [] | _ :: q' => make_room N q' len end.

Lemma make_room_fits N q len : fits N [] len = true -> fits N (make_room N q len) len = true.
Proof.
  intros. induction q as [|d q IH]; cbn [make_room]; [by rewrite H|].
  by destruct (fits N (d :: q) len) eqn:E.
Qed.

Section Overwrite.
Context {I : Type} (rb0 : qb_ringbuffer_s I) (len : Z).
Hypothesis Hspace : space_used_fn (notifier rb0) = None.
Hypothesis Hreclaim : reclaim_fn (notifier rb0) = None.
Hypothesis Hlen : 0 <= len < 2 ^ 64 - QB_RB_CHUNK_MARGIN.
Let N := word_size (shared_hdr rb0).

Lemma overwrite_loop_room q : forall fuel rb errno,
  (length q < fuel)%nat -> same_frame rb0 rb -> instance rb = instance rb0 -> rb_inv rb q ->
  fits N [] len = true -> (make_room N q len = [] -> q_len_pos rb0 = false) ->
  exists rb', overwrite_loop fuel rb len errno = Some (inl (rb', errno)) /\
    rb_inv rb' (make_room N q len) /\ same_frame rb0 rb' /\ instance rb' = instance rb0.
Proof.
  induction q as [|d q IH]; intros fuel rb errno Hfu Hfr Hin Hinv Hf Hq;
    (destruct fuel as [|fuel]; [lia|]);
    pose proof Hfr as (Hfl & Hnt & Hws & Hrest); cbn [overwrite_loop];
    cbn [make_room] in *;
    (assert (Hqp : q_len_pos rb = q_len_pos rb0) by (unfold q_len_pos; by rewrite Hnt, Hin)).
  - rewrite Hf in Hq.
    rewrite (no_space_fits rb []), Hws by (rewrite ?Hnt, ?Hqp; auto). fold N. rewrite Hf. simpl.
    exists rb. by split_and!.
  - rewrite (no_space_fits rb (d :: q)), Hws by (rewrite ?Hnt, ?Hqp; done). fold N.
    destruct (fits N (d :: q) len) eqn:E; cbn [negb]; [exists rb; by split_and!|].
    rewrite (reclaim_inv rb d q) by done. rewrite Hnt, Hreclaim. rewrite Z.eqb_refl.
    apply IH; cbn [length] in Hfu; [lia|done|done|by eapply drop_head_inv|done|done].
Qed.
End Overwrite.

(** An allocation in an overwriting ring drops the oldest chunks, as few as make
    room. *)
Lemma alloc_room {I} (rb : qb_ringbuffer_s I) q len errno :
  rb_inv rb q ->
  space_used_fn (notifier rb) = None -> reclaim_fn (notifier rb) = None ->
  has_flag (flags rb) QB_RB_FLAG_OVERWRITE = true -> 0 <= len ->
  fits (word_size (shared_hdr rb)) [] len = true ->
  let kept := make_room (word_size (shared_hdr rb)) q len in
  (kept = [] -> q_len_pos rb = false) ->
  exists rb', rb_inv rb' kept /\ same_frame rb rb' /\ instance rb' = instance rb /\
    fits (word_size (shared_hdr rb')) kept len = true /\
    qb_rb_chunk_alloc (Some rb) len errno =
      (Some (insert_chunk_header rb'), errno, Alloc_at (QB_RB_CHUNK_DATA_GET rb' (write_pt (shared_hdr rb')))).
Proof.
  intros Hinv Hs Hr Ho Hl Hf kept Hq.
  assert (len < 2 ^ 64 - QB_RB_CHUNK_MARGIN).
  { pose proof (inv_ws _ _ Hinv) as Hw. unfold max_word_size in Hw. unfold fits in Hf.
    apply Z.leb_le in Hf. cbn [free_words] in Hf. change QB_RB_CHUNK_MARGIN with 12 in *. lia. }
  destruct (overwrite_loop_room rb len Hs Hr) with (q := q) (rb := rb) (errno := errno)
    (fuel := S (Z.to_nat (word_size (shared_hdr rb)))) as (rb' & El & Hinv' & Hfr & Hi);
    try done.
  { pose proof (used_length q). pose proof (inv_used _ _ Hinv). unfold zlen in *. lia. }
  pose proof Hfr as (_ & _ & Hws & _). exists rb'. split_and!; try done.
  - rewrite Hws. by apply make_room_fits.
  - unfold qb_rb_chunk_alloc. by rewrite Ho, El.
Qed.


(** ** The reclaim loop terminates on any memory *)

(** How many words of the data area hold the chunk magic. *)
Definition magics (m : list Z) (N : Z) : nat :=
  length (filter (fun i => word_get m i = QB_RB_CHUNK_MAGIC) (seqZ 0 N)).

Lemma magics_bound m N : (magics m N <= Z.to_nat N)%nat.
Proof. unfold magics. etransitivity; [apply length_filter|]. by rewrite length_seqZ. Qed.

(** A reclaim that succeeds turns one of them into the dead magic. *)
Lemma reclaim_magics {I} (rb rb' : qb_ringbuffer_s I) errno errno' :
  let N := word_size (shared_hdr rb) in
  0 < N -> zlen (shared_data rb) = 4 * N ->
  _rb_chunk_reclaim rb errno = (rb', errno', 0) ->
  (magics (shared_data rb') N < magics (shared_data rb) N)%nat /\
  word_size (shared_hdr rb') = N /\ zlen (shared_data rb') = 4 * N.
Proof.
  intros N HN Hm. unfold _rb_chunk_reclaim.
  destruct (Z.eqb_spec (QB_RB_CHUNK_MAGIC_GET rb (read_pt (shared_hdr rb))) QB_RB_CHUNK_MAGIC)
    as [Hmag|]; cbn [negb]; [|intros; simplify_eq].
  set (p := read_pt (shared_hdr rb)) in *.
  set (m' := word_set (word_set (shared_data rb) p 0) (u32 (p + 1) mod N) QB_RB_CHUNK_MAGIC_DEAD).
  intros Hrec.
  assert (Hrb' : shared_data rb' = m' /\ word_size (shared_hdr rb') = N).
  { cbn [QB_RB_CHUNK_MAGIC_SET set_data set_read_pt set_hdr shared_hdr notifier] in Hrec.
    destruct (reclaim_fn _) as [f|]; [destruct (f _ _) as [i rc]|]; by simplify_eq. }
  destruct Hrb' as [-> ->]. split; [|split; [done|unfold m'; by rewrite !zlen_word_set]].
  pose proof (Z.mod_pos_bound (u32 (p + 1)) N HN).
  assert (Hw : forall j, 0 <= j < N -> word_get m' j =
    if decide (u32 (p + 1) mod N = j) then QB_RB_CHUNK_MAGIC_DEAD
    else if decide (p mod N = j) then 0 else word_get (shared_data rb) j).
  { intros j Hj. unfold m'. rewrite !(word_get_set N) by (rewrite ?zlen_word_set; done).
    by rewrite Z.mod_mod_divide by apply Z.divide_refl. }
  apply filter_length_lt with (u32 (p + 1) mod N).
  - intros j Hj%elem_of_seqZ. rewrite Hw by lia. by repeat case_decide.
  - apply elem_of_seqZ. lia.
  - exact Hmag.
  - rewrite Hw by lia. by rewrite decide_True.
Qed.

Lemma overwrite_loop_total {I} fuel : forall (rb : qb_ringbuffer_s I) len errno,
  let N := word_size (shared_hdr rb) in
  0 < N -> zlen (shared_data rb) = 4 * N -> (magics (shared_data rb) N < fuel)%nat ->
  overwrite_loop fuel rb len errno <> None.
Proof.
  induction fuel as [|fuel IH]; intros rb len errno N HN Hm Hf; [lia|]. cbn [overwrite_loop].
  destruct (no_space rb len); [|done].
  destruct (_rb_chunk_reclaim rb errno) as [[rb' errno'] rc] eqn:E.
  destruct (Z.eqb_spec rc 0) as [->|]; [|done].
  destruct (reclaim_magics rb rb' errno errno' HN Hm E) as (Hlt & Hws & Hm').
  apply IH; rewrite Hws; [done|done|]. subst N. lia.
Qed.

(** The reclaim loop of an overwriting ring terminates whatever bytes the
    data area holds: every reclaim that succeeds destroys one chunk magic, so
    [word_size + 1] rounds are enough and [qb_rb_chunk_alloc] always returns. *)
Theorem alloc_terminates {I} (rb : qb_ringbuffer_s I) len errno :
  0 < word_size (shared_hdr rb) ->
  zlen (shared_data rb) = 4 * word_size (shared_hdr rb) ->
  snd (qb_rb_chunk_alloc (Some rb) len errno) <> Alloc_diverges.
Proof.
  intros HN Hm. unfold qb_rb_chunk_alloc.
  destruct (has_flag (flags rb) QB_RB_FLAG_OVERWRITE); [|by destruct (no_space rb len)].
  destruct (overwrite_loop _ rb len errno) as [[[]|[]]|] eqn:E; try done.
  exfalso. eapply (overwrite_loop_total (S _) rb); [done|done| |exact E].
  pose proof (magics_bound (shared_data rb) (word_size (shared_hdr rb))). lia.
Qed.

(** ** Saving and loading *)

(** Every [write] takes all the bytes it is given. *)
Definition writes_complete (parts : list (list Z)) (ws : list write_outcome) : Prop :=
  Forall2 (fun bs w => wr_result w = zlen bs) parts ws.

Lemma write_seq_complete parts ws : forall f n,
  writes_complete parts ws ->
  write_seq (f, n) parts ws = (f ++ concat parts, n + zlen (concat parts)).
Proof.
  intros f n H. revert f n. induction H as [|bs w parts ws Hw _ IH]; intros f n; simpl.
  - by rewrite app_nil_r, Z.add_0_r.
  - rewrite Hw, Z.eqb_refl, take_ge by (unfold zlen; lia).
    by rewrite IH, <- app_assoc, zlen_app, Z.add_assoc.
Qed.

(** A failed or short [write] ends the saving with its error. *)
Lemma file_read_app bs rest : file_read (bs ++ rest) (zlen bs) = (bs, rest).
Proof.
  unfold file_read, zlen. rewrite Nat2Z.id. by rewrite take_app_length, drop_app_length.
Qed.

Lemma file_read_word w rest : file_read (le_split 4 w ++ rest) 4 = (le_split 4 w, rest).
Proof. apply (file_read_app (le_split 4 w)). Qed.

Lemma slice_all m : slice m 0 (zlen m) = m.
Proof.
  pose proof (zlen_nonneg m). apply zlist_eq; rewrite zlen_slice; try lia. intros i Hi.
  rewrite zget_slice, Z.add_0_l, Z.mod_small by lia. done.
Qed.

(** The file of a ring. *)
Definition saved_bytes (N w r : Z) (data : list Z) : list Z :=
  le_split 4 N ++ le_split 4 w ++ le_split 4 r ++ le_split 4 QB_RB_FILE_HEADER_VERSION ++
  le_split 4 (header_hash N w r QB_RB_FILE_HEADER_VERSION) ++ data.

Lemma zlen_saved_bytes N w r data : zlen (saved_bytes N w r data) = 20 + zlen data.
Proof. unfold saved_bytes. rewrite !zlen_app, !zlen_le_split. lia. Qed.

(** Loading it goes through all checks and opens a ring, whatever is in the file
    before and behind it. *)
Lemma load_header N w r data fd st_size rest env :
  3 < N <= max_word_size -> 20 + 4 * N <= st_size -> 0 <= w <= st_size -> 0 <= r <= st_size ->
  w < 2 ^ 32 -> r < 2 ^ 32 -> zlen data = 4 * N -> 0 <= fd ->
  load_from fd st_size (saved_bytes N w r data ++ rest) env =
  match qb_rb_open (N * 4 - 13) (Z.lor QB_RB_FLAG_CREATE QB_RB_FLAG_NO_SEMAPHORE) env with
  | inl _ => Load_null
  | inr rb =>
    let rb := set_write_pt (set_read_pt rb r) w in
    Load_rb (set_data rb (blit (shared_data rb) 0 data))
  end.
Proof.
  intros HN Hst Hw Hr Hw32 Hr32 Hd Hfd. unfold max_word_size in HN. unfold load_from, saved_bytes. rewrite <- !app_assoc.
  destruct (Z.ltb_spec fd 0); [lia|].
  rewrite file_read_word. cbv beta iota zeta. rewrite zlen_le_split, le_combine_split_u32 by lia.
  cbn [negb]. change (Z.of_nat 4 =? 4) with true. cbn [negb].
  destruct (Z.ltb_spec (st_size / 4) N); [zlia|].
  do 2 (rewrite file_read_word; cbv beta iota zeta; rewrite zlen_le_split, le_combine_split_u32 by lia;
        change (Z.of_nat 4 =? 4) with true; cbn [negb]).
  destruct (Z.ltb_spec st_size w); [lia|]. destruct (Z.ltb_spec st_size r); [lia|].
  cbn [orb]. unfold header_hash.
  do 2 (rewrite file_read_word; cbv beta iota zeta; rewrite zlen_le_split, le_combine_split_u32
          by (apply u32_range || (unfold QB_RB_FILE_HEADER_VERSION; lia));
        change (Z.of_nat 4 =? 4) with true; cbn [negb]).
  rewrite !Z.eqb_refl. cbn [negb].
  rewrite u64_small by (change (QB_RB_CHUNK_MARGIN + 1) with 13; lia).
  change (QB_RB_CHUNK_MARGIN + 1) with 13.
  destruct (qb_rb_open _ _ env) as [|rb]; [done|].
  pose proof (file_read_app data rest) as Hrd. rewrite Hd, (Z.mul_comm 4) in Hrd.
  rewrite Hrd. cbv beta iota zeta. rewrite Hd, (Z.mul_comm N 4), Z.eqb_refl. done.
Qed.

(** A page size that divides the ring leaves its size as it is. *)
Lemma real_size_exact env N :
  size_ok env (4 * N - 13) -> (page_size env | 4 * N) -> real_size_of env (4 * N - 13) = 4 * N.
Proof.
  intros Hsz Hpg. destruct (real_size_ok env _ Hsz) as ([H1 H2] & [k Hk] & _).
  destruct Hpg as [j Hj]. pose proof (so_page _ _ Hsz). rewrite Hk in H1, H2 |- *.
  assert (j <= k) by nia. assert (k < j + 1) by nia. assert (k = j) by lia. by subst.
Qed.

(** What is written of a ring, and what is loaded from it. *)
Definition ring_bytes (rb : qb_ringbuffer_s psem) : list Z :=
  let h := shared_hdr rb in saved_bytes (word_size h) (write_pt h) (read_pt h) (shared_data rb).

Lemma save_ring (rb : qb_ringbuffer_s psem) q ws :
  rb_inv rb q -> writes_complete (file_parts rb) ws ->
  qb_rb_write_to_file (Some rb) ws = (ring_bytes rb, 20 + 4 * word_size (shared_hdr rb)).
Proof.
  intros Hinv Hws. unfold qb_rb_write_to_file. rewrite write_seq_complete by done. rewrite Z.add_0_l. cbn [app].
  pose proof (inv_mem _ _ Hinv) as Hm. unfold file_parts, ring_bytes.
  rewrite (Z.mul_comm (word_size (shared_hdr rb)) 4), <- Hm, slice_all. cbn [concat]. rewrite app_nil_r.
  f_equal. rewrite !zlen_app, !zlen_le_split. lia.
Qed.

Lemma load_ring (rb : qb_ringbuffer_s psem) q env fd st_size rest :
  let N := word_size (shared_hdr rb) in
  rb_inv rb q -> 0 <= fd -> 20 + 4 * N <= st_size ->
  open_succeeds env -> size_ok env (4 * N - 13) -> (page_size env | 4 * N) ->
  exists rb', load_from fd st_size (ring_bytes rb ++ rest) env = Load_rb rb' /\
    shared_data rb' = shared_data rb /\
    read_pt (shared_hdr rb') = read_pt (shared_hdr rb) /\
    write_pt (shared_hdr rb') = write_pt (shared_hdr rb) /\
    word_size (shared_hdr rb') = N /\
    notifier rb' = no_notifier /\ rb_inv rb' q.
Proof.
  intros N Hinv Hfd Hst Hos Hsz Hpg.
  pose proof (write_pt_range rb q Hinv) as Hwp. pose proof Hinv as [Hw Hm Hr _ Hu L].
  fold N in Hw, Hm, Hr, Hwp, Hu. unfold ring_bytes. fold N.
  pose proof (so_size _ _ Hsz). pose proof (so_max _ _ Hsz). pose proof (so_page _ _ Hsz).
  rewrite (load_header N) by (done || (unfold max_word_size in *; lia)).
  destruct (open_create env (4 * N - 13) (Z.lor QB_RB_FLAG_CREATE QB_RB_FLAG_NO_SEMAPHORE) Hos Hsz)
    as (rb2 & E & Hfl & Hinv2 & Hws2 & _ & Hn); [done|].
  rewrite (Z.mul_comm 4 N) in E. rewrite E. eexists. split; [reflexivity|].
  rewrite real_size_exact, (Z.mul_comm 4 N), Z.div_mul in Hws2 by done.
  change (has_flag (Z.lor QB_RB_FLAG_CREATE QB_RB_FLAG_NO_SEMAPHORE) QB_RB_FLAG_NO_SEMAPHORE)
    with true in Hn. injection Hn as Hnt _.
  cbn [set_data set_hdr set_write_pt set_read_pt shared_data shared_hdr read_pt write_pt word_size notifier].
  rewrite blit_full by (rewrite (inv_mem _ _ Hinv2), Hws2; done).
  split_and!; try done. destruct Hinv. by constructor; cbn; rewrite ?Hws2.
Qed.

(** C9. Saving a ring to a file and loading the file gives back the same
    chunks, pointers and bytes, in a ring without a semaphore, provided the
    loading machine's page size divides the size of the ring. *)
Theorem save_load_roundtrip (rb : qb_ringbuffer_s psem) q env ws fd :
  let N := word_size (shared_hdr rb) in
  rb_inv rb q -> writes_complete (file_parts rb) ws -> 0 <= fd ->
  open_succeeds env -> size_ok env (4 * N - 13) -> (page_size env | 4 * N) ->
  let '(file, n) := qb_rb_write_to_file (Some rb) ws in
  n = 20 + 4 * N /\
  exists rb', qb_rb_create_from_file fd file env = Load_rb rb' /\
    shared_data rb' = shared_data rb /\
    read_pt (shared_hdr rb') = read_pt (shared_hdr rb) /\
    write_pt (shared_hdr rb') = write_pt (shared_hdr rb) /\
    word_size (shared_hdr rb') = N /\
    notifier rb' = no_notifier /\ rb_inv rb' q.
Proof.
  intros N Hinv Hws Hfd Hos Hsz Hpg. rewrite (save_ring rb q) by done. split; [done|].
  unfold qb_rb_create_from_file. rewrite <- (app_nil_r (ring_bytes rb)). apply load_ring; try done.
  rewrite app_nil_r. unfold ring_bytes. rewrite zlen_saved_bytes, (inv_mem _ _ Hinv). fold N. lia.
Qed.

(** The header check of the loader does not bound the pointers by the data
    area: for every ring size there is a file that it accepts and that leaves
    the read pointer beyond both mappings of the data. *)
Theorem load_accepts_out_of_range N env fd :
  open_succeeds env -> size_ok env (4 * N - 13) -> (page_size env | 4 * N) ->
  N < max_word_size - 5 -> 0 <= fd ->
  exists file rb, qb_rb_create_from_file fd file env = Load_rb rb /\
    word_size (shared_hdr rb) = N /\ 2 * N <= read_pt (shared_hdr rb).
Proof.
  intros Hos Hsz Hpg HN Hfd.
  pose proof (so_size _ _ Hsz). pose proof (so_page _ _ Hsz).
  destruct (open_create env (4 * N - 13) (Z.lor QB_RB_FLAG_CREATE QB_RB_FLAG_NO_SEMAPHORE) Hos Hsz)
    as (rb2 & E & _ & _ & Hws2 & _); [done|].
  exists (saved_bytes N 0 (20 + 4 * N) (zrepeat 0 (4 * N))). eexists. unfold qb_rb_create_from_file.
  rewrite zlen_saved_bytes, <- (app_nil_r (saved_bytes _ _ _ _)), load_header
    by (rewrite ?zlen_zrepeat; unfold max_word_size in *; lia).
  rewrite (Z.mul_comm 4 N) in E. rewrite E. split; [reflexivity|].
  rewrite real_size_exact, (Z.mul_comm 4 N), Z.div_mul in Hws2 by done.
  cbn. split; [done|lia].
Qed.

(** ** Space accounting *)

(** On a ring that holds the chunks [q], [qb_rb_space_free] is the space
    the writer may use, and [qb_rb_space_used] is the space the chunks take,
    except that it is one word short while the chunks wrap around the end. *)
Theorem space_accounting {I} (rb : qb_ringbuffer_s I) q :
  rb_inv rb q -> counts_by_pointers rb q ->
  let h := shared_hdr rb in
  qb_rb_space_free (Some rb) = 4 * free_words (word_size h) q /\
  qb_rb_space_used (Some rb) =
    4 * (used q - if write_pt h <? read_pt h then 1 else 0).
Proof.
  intros Hinv [Hs Hq]. cbn zeta. split; [by apply space_free_inv|].
  pose proof (wp_cases rb q Hinv) as Hc. pose proof (write_pt_range rb q Hinv).
  destruct Hinv as [Hw Hm Hr _ Hu _].
  unfold max_word_size in Hw. pose proof (used_nonneg q).
  unfold qb_rb_space_used. rewrite Hs.
  destruct Hc as [(-> & E)|[(_ & E & ?)|(_ & E & ?)]].
  - rewrite E, Z.ltb_irrefl. reflexivity.
  - destruct (Z.ltb_spec (read_pt (shared_hdr rb)) (write_pt (shared_hdr rb))); [|lia].
    destruct (Z.ltb_spec (write_pt (shared_hdr rb)) (read_pt (shared_hdr rb))); [lia|].
    rewrite u32_small, u64_small, i64_small by (rewrite ?u32_small; lia). lia.
  - destruct (Z.ltb_spec (read_pt (shared_hdr rb)) (write_pt (shared_hdr rb))); [lia|].
    destruct (Z.ltb_spec (write_pt (shared_hdr rb)) (read_pt (shared_hdr rb))); [|lia].
    rewrite !u32_small, u64_small, i64_small by (rewrite ?u32_small; lia). lia.
Qed.

(** ** Error paths of opening *)

(** Every failure ends in [cleanup_hdr], after the data file was unlinked or
    nothing at all; the header pointer tells how far the opening got. *)
Lemma open_error_acts size fl ntf env err acts :
  qb_rb_open_2 size fl ntf env = inl (err, acts) -> env_calloc_ok env = true ->
  exists h has_destroy pre, acts = pre ++ cleanup_hdr (env_fd_hdr env) h fl has_destroy /\
    (pre = [] \/ exists p, pre = [Act_unlink p]) /\
    ((h = Hdr_null /\ env_fd_hdr env < 0) \/
     (h = Hdr_failed /\ 0 <= env_fd_hdr env /\ env_mmap_hdr_errno env <> 0) \/
     (exists h', h = Hdr_at h' /\ 0 <= env_fd_hdr env /\ env_mmap_hdr_errno env = 0 /\
        (has_flag fl QB_RB_FLAG_CREATE = true -> hdr_path h' = env_hdr_path env))).
Proof.
  unfold qb_rb_open_2. intros E Hc. rewrite Hc in E. cbn [negb] in E.
  destruct (Z.ltb_spec (env_fd_hdr env) 0); [simplify_eq; eexists _, _, []; eauto 10|].
  destruct (Z.eqb_spec (env_mmap_hdr_errno env) 0); cbn [negb] in E;
    [|simplify_eq; eexists _, _, []; eauto 10].
  set (sem := match ntf with Some _ => _ | None => _ end) in E.
  destruct sem as [[n i] error]. destruct (error <? 0).
  { simplify_eq. eexists _, _, []. split; [reflexivity|]. split; [eauto|]. do 2 right.
    eexists. split; [done|]. split; [done|]. split; [done|]. by intros ->. }
  destruct (env_fd_data env <? 0).
  { simplify_eq. eexists _, _, []. split; [reflexivity|]. split; [eauto|]. do 2 right.
    eexists. split; [done|]. split; [done|]. split; [done|]. by intros ->. }
  destruct (env_circular_mmap env =? 0); cbn [negb] in E;
    [by destruct (has_flag fl QB_RB_FLAG_CREATE)|].
  simplify_eq. eexists _, _, _. split; [reflexivity|].
  split; [destruct (has_flag fl QB_RB_FLAG_CREATE); eauto|]. do 2 right.
  eexists. split; [done|]. split; [done|]. split; [done|]. by intros ->.
Qed.

(** Every failed [qb_rb_open] frees the ring last and once, closes the
    header file exactly when it was opened, and unmaps the header unless the
    mapping failed; a creator also unlinks the header file once it is mapped,
    and unlinks through the null header pointer if it could not be opened. *)
Theorem open_error_cleanup size fl ntf env err acts :
  qb_rb_open_2 size fl ntf env = inl (err, acts) -> env_calloc_ok env = true ->
  (exists pre, acts = pre ++ [Act_free_rb] /\ ~ In Act_free_rb pre) /\
  (In Act_close_hdr acts <-> 0 <= env_fd_hdr env) /\
  (In Act_munmap_hdr acts <-> env_fd_hdr env < 0 \/ env_mmap_hdr_errno env = 0) /\
  (0 <= env_fd_hdr env -> env_mmap_hdr_errno env = 0 -> has_flag fl QB_RB_FLAG_CREATE = true ->
   In (Act_unlink (env_hdr_path env)) acts) /\
  (In Act_unlink_null_hdr acts <-> env_fd_hdr env < 0 /\ has_flag fl QB_RB_FLAG_CREATE = true).
Proof.
  intros E Hc. apply open_error_acts in E as (h & hd & pre & -> & Hpre & Hh); [|done].
  unfold cleanup_hdr. rewrite !app_assoc. split; [eexists; split; [reflexivity|]|].
  all: destruct Hpre as [->|[p ->]]; destruct Hh as [(-> & H1)|[(-> & H1 & H2)|(h' & -> & H1 & H2 & H3)]];
    repeat zcase; destruct hd, (has_flag fl QB_RB_FLAG_CREATE) eqn:Ec; try rewrite H3 by done;
    simpl; intuition (try done; try lia).
Qed.
