(* ===== verification/RingBufferExamples.v ===== *)
(** * Ring buffer: concrete rings

    Instances of the ring theorems on small rings, and two runs that show
    where a ring departs from the queue: a ring without a semaphore can be made
    to deliver bytes that were never written as a chunk, and an overwriting
    ring with a semaphore can refuse a chunk that fits it. *)
From stdpp Require Import strings.
From S2P Require Import Prelude Memory RingBuffer RingBufferOpen RingBufferInv RingBufferSpec.
From S2P Require Import RingBufferTheorems.

(** ** Rings *)

Definition small_hdr (N : Z) : qb_ringbuffer_shared_s :=
  {| write_pt := 0; read_pt := 0; word_size := N; hdr_path := "/dev/shm/qb-h";
     data_path := "/dev/shm/qb-d"; ref_count := 1 |}.

Definition small_ring (N fl : Z) (n : qb_rb_notifier psem) : qb_ringbuffer_s psem :=
  {| flags := fl; shared_hdr := small_hdr N; shared_data := zrepeat 0 (4 * N);
     notifier := n; instance := {| posix_sem := 0; wait_env := [] |} |}.

Definition small_env (page : Z) : open_env :=
  {| page_size := page; env_calloc_ok := true; env_fd_hdr := 3; env_hdr_path := "/dev/shm/qb-h";
     env_mmap_hdr_errno := 0; env_sem_init_errno := 0; env_fd_data := 4;
     env_data_path := "/dev/shm/qb-d"; env_circular_mmap := 0;
     env_shared_hdr := small_hdr 0; env_psem := {| posix_sem := 0; wait_env := [] |};
     env_data := [] |}.

Lemma small_ring_inv N fl n : 3 <= N <= max_word_size -> rb_inv (small_ring N fl n) [].
Proof.
  intros. constructor; simpl; try done; try lia. apply zlen_zrepeat. lia.
Qed.

Lemma small_ring_rep N : 3 <= N <= max_word_size -> rb_rep (small_ring N 1 posix_notifier) [] [].
Proof. intros. constructor; try done; [by apply small_ring_inv|by constructor]. Qed.

Lemma small_env_ok page : open_succeeds (small_env page).
Proof. by constructor. Qed.

Lemma small_size_ok size : 0 <= size < 2 ^ 30 -> size_ok (small_env 16) size.
Proof.
  intros. constructor; try (cbn; lia); [by exists 4|].
  change QB_RB_CHUNK_MARGIN with 12. unfold max_word_size. cbn. lia.
Qed.

(** ** Instances of the theorems *)

Definition demo_ops : list rb_op :=
  [Op_write [1; 2; 3; 4; 5]; Op_write [6]; Op_write (zrepeat 7 40); Op_read 16 0; Op_take 0; Op_read 16 5].

Lemma rb_refines_witness :
  queue_run 16 ([], []) demo_ops =
    Some ([], [], [(5, []); (1, []); (- EAGAIN, []); (5, [1; 2; 3; 4; 5]); (1, [6]); (- ETIMEDOUT, [])]) /\
  exists rb', ring_run (small_ring 16 1 posix_notifier) demo_ops =
    Some (rb', [(5, []); (1, []); (- EAGAIN, []); (5, [1; 2; 3; 4; 5]); (1, [6]); (- ETIMEDOUT, [])])
    /\ rb_rep rb' [] [].
Proof.
  split; [vm_compute; reflexivity|].
  exact (rb_refines demo_ops (small_ring 16 1 posix_notifier) [] []
           (small_ring_rep 16 ltac:(unfold max_word_size; lia))
           ltac:(repeat constructor; vm_compute; congruence)).
Defined.

Lemma open_capacity_witness :
  exists rb rb', qb_rb_open 20 1 (small_env 16) = inr rb /\ ref_count (shared_hdr rb) = 1 /\
    rb_rep rb [] [] /\
    qb_rb_chunk_write (Some rb) (zrepeat 9 20) 0 = Some (Some rb', 0, 20) /\
    rb_rep rb' [zrepeat 9 20] [].
Proof.
  apply (open_capacity (small_env 16) 20 1 (zrepeat 9 20) 0); try reflexivity.
  - apply small_env_ok.
  - apply small_size_ok; lia.
  - constructor.
Defined.

(** A ring of 16 words without a semaphore that overwrites; its chunks of eight
    bytes take four words each. *)
Definition three_chunks : list (list Z) := [zrepeat 1 8; zrepeat 2 8; zrepeat 3 8].
Definition over_ring : qb_ringbuffer_s psem :=
  push_chunk (push_chunk (push_chunk (small_ring 16 3 no_notifier) (zrepeat 1 8)) (zrepeat 2 8)) (zrepeat 3 8).

Lemma over_ring_inv : rb_inv over_ring three_chunks.
Proof.
  apply (push_chunk_inv _ [zrepeat 1 8; zrepeat 2 8]); [|reflexivity].
  apply (push_chunk_inv _ [zrepeat 1 8]); [|reflexivity].
  apply (push_chunk_inv _ []); [|reflexivity].
  apply small_ring_inv. unfold max_word_size; lia.
Defined.


(** Any bytes will do for the termination of the reclaim loop. *)
Lemma alloc_terminates_witness :
  snd (qb_rb_chunk_alloc (Some (set_data (small_ring 8 2 no_notifier) (zrepeat 0xA1 32))) 100 0)
    <> Alloc_diverges.
Proof. apply alloc_terminates; vm_compute; reflexivity. Defined.

Definition all_written (n : Z) : list write_outcome :=
  (fun k => {| wr_result := k; wr_errno := 0 |}) <$> [4; 4; 4; 4; 4; n].

Lemma save_load_roundtrip_witness :
  let '(file, n) := qb_rb_write_to_file (Some over_ring) (all_written 64) in
  n = 84 /\ exists rb', qb_rb_create_from_file 3 file (small_env 16) = Load_rb rb' /\
    shared_data rb' = shared_data over_ring /\
    read_pt (shared_hdr rb') = 0 /\ write_pt (shared_hdr rb') = 12 /\
    word_size (shared_hdr rb') = 16 /\ notifier rb' = no_notifier /\ rb_inv rb' three_chunks.
Proof.
  apply (save_load_roundtrip over_ring three_chunks (small_env 16) (all_written 64) 3).
  - exact over_ring_inv.
  - repeat constructor.
  - lia.
  - apply small_env_ok.
  - apply small_size_ok. vm_compute. split; congruence.
  - by exists 4.
Defined.

Lemma load_accepts_out_of_range_witness :
  exists file rb, qb_rb_create_from_file 3 file (small_env 16) = Load_rb rb /\
    word_size (shared_hdr rb) = 16 /\ 2 * 16 <= read_pt (shared_hdr rb).
Proof.
  apply (load_accepts_out_of_range 16 (small_env 16) 3).
  - apply small_env_ok.
  - apply small_size_ok; lia.
  - by exists 4.
  - unfold max_word_size. lia.
  - lia.
Defined.

(** Two of the three chunks read, one more written: the chunks wrap around. *)
Definition wrapped_ring : qb_ringbuffer_s psem :=
  push_chunk (drop_head (drop_head over_ring)) (zrepeat 4 12).

Lemma wrapped_ring_inv : rb_inv wrapped_ring [zrepeat 3 8; zrepeat 4 12].
Proof.
  apply (push_chunk_inv _ [zrepeat 3 8]); [|reflexivity].
  apply (drop_head_inv _ (zrepeat 2 8)), (drop_head_inv _ (zrepeat 1 8)). exact over_ring_inv.
Defined.

Lemma space_accounting_witness :
  qb_rb_space_free (Some wrapped_ring) = 24 /\ qb_rb_space_used (Some wrapped_ring) = 32 /\
  4 * used [zrepeat 3 8; zrepeat 4 12] = 36.
Proof.
  destruct (space_accounting wrapped_ring [zrepeat 3 8; zrepeat 4 12]) as [H1 H2].
  - exact wrapped_ring_inv.
  - by split.
  - split; [rewrite H1; reflexivity|]. split; [rewrite H2; reflexivity|reflexivity].
Defined.

Definition no_data_env : open_env :=
  {| page_size := 16; env_calloc_ok := true; env_fd_hdr := 3; env_hdr_path := "/dev/shm/qb-h";
     env_mmap_hdr_errno := 0; env_sem_init_errno := 0; env_fd_data := - ENOMEM;
     env_data_path := "/dev/shm/qb-d"; env_circular_mmap := 0;
     env_shared_hdr := small_hdr 0; env_psem := {| posix_sem := 0; wait_env := [] |};
     env_data := [] |}.

Lemma open_error_cleanup_witness :
  let acts := [Act_close_hdr; Act_unlink "/dev/shm/qb-h"; Act_destroy_notifier; Act_munmap_hdr; Act_free_rb] in
  qb_rb_open_2 20 1 None no_data_env = inl (ENOMEM, acts) /\
  (exists pre, acts = pre ++ [Act_free_rb] /\ ~ In Act_free_rb pre) /\
  (In Act_close_hdr acts <-> 0 <= 3) /\ (In Act_munmap_hdr acts <-> 3 < 0 \/ 0 = 0) /\
  (0 <= 3 -> 0 = 0 -> has_flag 1 QB_RB_FLAG_CREATE = true -> In (Act_unlink "/dev/shm/qb-h") acts) /\
  (In Act_unlink_null_hdr acts <-> 3 < 0 /\ has_flag 1 QB_RB_FLAG_CREATE = true).
Proof.
  split; [reflexivity|].
  apply (open_error_cleanup 20 1 None no_data_env ENOMEM _); reflexivity.
Defined.

(** ** Departures from the queue *)

(** A payload that carries, at the place where a later chunk would have its
    header, a size of four and the chunk magic. *)
Definition forging_payload : list Z :=
  le_split 4 0 ++ le_split 4 4 ++ le_split 4 QB_RB_CHUNK_MAGIC ++ [101; 118; 105; 108] ++ zrepeat 0 24.

(** In a ring without a semaphore a read finds the end of the data by the
    chunk magic alone.  After two chunks are written and both are read, a third
    read of the then empty ring succeeds with four bytes taken from the middle of
    the first chunk, where the queue has nothing to deliver. *)
Theorem forged_chunk_is_read :
  let ops := [Op_write forging_payload; Op_read 64 0; Op_write (zrepeat 7 20); Op_read 64 0; Op_read 64 0] in
  snd <$> ring_run (small_ring 16 1 no_notifier) ops =
    Some [(40, []); (40, forging_payload); (20, []); (20, zrepeat 7 20); (4, [101; 118; 105; 108])] /\
  snd <$> queue_run 16 ([], []) ops =
    Some [(40, []); (40, forging_payload); (20, []); (20, zrepeat 7 20); (- ETIMEDOUT, [])].
Proof. split; vm_compute; reflexivity. Qed.

(** An overwriting ring with a semaphore counts posts, not chunks: once a
    write has to drop every chunk, the positive count makes the empty ring look
    full, the reclaim finds no chunk, and the write fails with [EINVAL] although
    the same chunk fits an empty ring of that size.  The old data is lost too. *)
Theorem overwrite_semaphore_refuses :
  exists rb1 rb2,
    qb_rb_chunk_write (Some (small_ring 16 3 posix_notifier)) (zrepeat 1 20) 0 = Some (Some rb1, 0, 20) /\
    qb_rb_chunk_write (Some rb1) (zrepeat 2 44) 0 = Some (Some rb2, EINVAL, - EINVAL) /\
    fits 16 [] 44 = true /\
    read_pt (shared_hdr rb2) = write_pt (shared_hdr rb2).
Proof. do 2 eexists. split; [vm_compute; reflexivity|]. split; [vm_compute; reflexivity|]. done. Qed.
