(* ===== verification/Tlist.v ===== *)
(** * Timer list (include/tlist.h)

    A binary heap of pointers to timers, ordered by expiry time.  A pointer is
    a [Z], the timers live in a store from pointers to records, and the cells
    that hold the callers' handles in another; freeing a timer removes it from
    the store.  A failed [assert] is [None].  Locking is left out: every
    operation holds the list's mutex while it touches the heap. *)
From S2P Require Import Prelude.

(** ** State *)

Record timerlist_timer := {
  expire_time : Z;
  is_absolute_timer : bool;
  timer_fn : Z;
  data : Z;
  handle_addr : Z;
  heap_pos : Z;
}.

#[export] Instance timerlist_timer_inhabited : Inhabited timerlist_timer :=
  populate {| expire_time := 0; is_absolute_timer := false; timer_fn := 0; data := 0;
              handle_addr := 0; heap_pos := 0 |}.

Record timerlist := {
  heap_entries : list Z;
  allocated : Z;
  size : Z;
  timers : gmap Z timerlist_timer;
  handles : gmap Z Z;
}.

Definition set_heap (tl : timerlist) (h : list Z) (t : gmap Z timerlist_timer) : timerlist :=
  {| heap_entries := h; allocated := allocated tl; size := size tl; timers := t;
     handles := handles tl |}.
Definition set_size (tl : timerlist) (n : Z) : timerlist :=
  {| heap_entries := heap_entries tl; allocated := allocated tl; size := n;
     timers := timers tl; handles := handles tl |}.
Definition set_handles (tl : timerlist) (hs : gmap Z Z) : timerlist :=
  {| heap_entries := heap_entries tl; allocated := allocated tl; size := size tl;
     timers := timers tl; handles := hs |}.
Definition set_timers (tl : timerlist) (t : gmap Z timerlist_timer) : timerlist :=
  set_heap tl (heap_entries tl) t.

Definition set_heap_pos (t : timerlist_timer) (p : Z) : timerlist_timer :=
  {| expire_time := expire_time t; is_absolute_timer := is_absolute_timer t;
     timer_fn := timer_fn t; data := data t; handle_addr := handle_addr t; heap_pos := p |}.

(** [*a], the timer a pointer refers to. *)
Definition deref (tl : timerlist) (a : Z) : timerlist_timer := timers tl !!! a.

(** ** Heap helpers *)

Definition timerlist_heap_index_left (index : Z) : Z := u64 (2 * index + 1).
Definition timerlist_heap_index_right (index : Z) : Z := u64 (2 * index + 2).
Definition timerlist_heap_index_parent (index : Z) : Z := u64 (index - 1) / 2.

Definition timerlist_heap_entry_set (tl : timerlist) (item_pos timer : Z) : option timerlist :=
  if item_pos <? size tl then
    Some (set_heap tl (zset (heap_entries tl) item_pos timer)
            (<[timer := set_heap_pos (deref tl timer) item_pos]> (timers tl)))
  else None.

Definition timerlist_heap_entry_get (tl : timerlist) (item_pos : Z) : option Z :=
  if item_pos <? size tl then Some (zget (heap_entries tl) item_pos) else None.

Definition timerlist_entry_cmp (tl : timerlist) (t1 t2 : Z) : Z :=
  if expire_time (deref tl t1) =? expire_time (deref tl t2) then 0
  else if expire_time (deref tl t1) <? expire_time (deref tl t2) then -1
  else 1.

(** The loop of [timerlist_heap_sift_up]; [None] is a failed assertion or the
    fuel used up. *)
Fixpoint sift_up_loop (fuel : nat) (tl : timerlist) (timer item_pos parent_pos : Z)
    : option timerlist :=
  match fuel with
  | O => None
  | S fuel' =>
    if 0 <? item_pos then
      parent_timer ← timerlist_heap_entry_get tl parent_pos;
      if 0 <? timerlist_entry_cmp tl parent_timer timer then
        tl ← timerlist_heap_entry_set tl parent_pos timer;
        tl ← timerlist_heap_entry_set tl item_pos parent_timer;
        sift_up_loop fuel' tl timer parent_pos (timerlist_heap_index_parent parent_pos)
      else Some tl
    else Some tl
  end.

Definition timerlist_heap_sift_up (tl : timerlist) (item_pos : Z) : option timerlist :=
  timer ← timerlist_heap_entry_get tl item_pos;
  sift_up_loop (S (Z.to_nat item_pos)) tl timer item_pos (timerlist_heap_index_parent item_pos).

(** One child of the item against the smallest entry so far. *)
Definition smaller_child (tl : timerlist) (child_pos : Z) (smallest : Z * Z) : option (Z * Z) :=
  if child_pos <? size tl then
    child_entry ← timerlist_heap_entry_get tl child_pos;
    if timerlist_entry_cmp tl child_entry (snd smallest) <? 0
    then Some (child_pos, child_entry) else Some smallest
  else Some smallest.

Fixpoint sift_down_loop (fuel : nat) (tl : timerlist) (item_pos : Z) : option timerlist :=
  match fuel with
  | O => None
  | S fuel' =>
    smallest_entry ← timerlist_heap_entry_get tl item_pos;
    s ← smaller_child tl (timerlist_heap_index_left item_pos) (item_pos, smallest_entry);
    s ← smaller_child tl (timerlist_heap_index_right item_pos) s;
    let '(smallest_pos, smallest_entry) := s in
    if smallest_pos =? item_pos then Some tl
    else
      tmp_entry ← timerlist_heap_entry_get tl item_pos;
      tl ← timerlist_heap_entry_set tl item_pos smallest_entry;
      tl ← timerlist_heap_entry_set tl smallest_pos tmp_entry;
      sift_down_loop fuel' tl smallest_pos
  end.

Definition timerlist_heap_sift_down (tl : timerlist) (item_pos : Z) : option timerlist :=
  sift_down_loop (S (Z.to_nat (size tl - item_pos))) tl item_pos.

Definition timerlist_heap_delete (tl : timerlist) (entry : Z) : option timerlist :=
  let entry_pos := heap_pos (deref tl entry) in
  let tl := set_timers tl (<[entry := set_heap_pos (deref tl entry) SIZE_MAX]> (timers tl)) in
  replacement_entry ← timerlist_heap_entry_get tl (u64 (size tl - 1));
  tl ← timerlist_heap_entry_set tl entry_pos replacement_entry;
  let tl := set_size tl (u64 (size tl - 1)) in
  let cmp_entries := timerlist_entry_cmp tl replacement_entry entry in
  if cmp_entries <? 0 then timerlist_heap_sift_up tl entry_pos
  else if 0 <? cmp_entries then timerlist_heap_sift_down tl entry_pos
  else Some tl.

(** The two child tests of one round of [timerlist_debug_is_valid_heap]. *)
Definition child_valid (tl : timerlist) (cur_entry child_pos : Z) : bool :=
  if child_pos <? size tl then
    negb (timerlist_entry_cmp tl (zget (heap_entries tl) child_pos) cur_entry <? 0)
  else true.

Definition timerlist_debug_is_valid_heap (tl : timerlist) : bool :=
  forallb (fun i =>
    let cur_entry := zget (heap_entries tl) i in
    child_valid tl cur_entry (timerlist_heap_index_left i) &&
    child_valid tl cur_entry (timerlist_heap_index_right i)) (seqZ 0 (size tl)).

(** ** Main functions *)

Definition timerlist_init : timerlist :=
  {| heap_entries := []; allocated := 0; size := 0; timers := ∅; handles := ∅ |}.

(** [free(a)]. *)
Definition free_timer (tl : timerlist) (a : Z) : timerlist := set_timers tl (delete a (timers tl)).

(** The timers freed, and with them the heap. *)
Definition timerlist_destroy (tl : timerlist) : timerlist :=
  foldl free_timer tl (take (Z.to_nat (size tl)) (heap_entries tl)).

(** What [realloc] answers: the errno of a failure, or 0.  The cells past the
    old size are not initialised; the code does not read them. *)
Definition timerlist_add (tl : timerlist) (timer realloc_errno : Z) : option (timerlist * Z) :=
  let grow := allocated tl <? u64 (size tl + 1) in
  if grow && negb (realloc_errno =? 0) then Some (tl, - realloc_errno)
  else
    let tl :=
      if grow then
        let new_size := u64 ((allocated tl + 1) * 2) in
        {| heap_entries := heap_entries tl ++ zrepeat 0 (new_size - allocated tl);
           allocated := new_size; size := size tl; timers := timers tl; handles := handles tl |}
      else tl in
    let tl := set_size tl (u64 (size tl + 1)) in
    tl ← timerlist_heap_entry_set tl (u64 (size tl - 1)) timer;
    tl ← timerlist_heap_sift_up tl (u64 (size tl - 1));
    Some (tl, 0).

(** [malloc_at] is the address [malloc] returns, or 0; [now] is
    [qb_util_nano_current_get()]. *)
Definition timerlist_add_duration (tl : timerlist) (fn d nano_duration handle : Z)
    (malloc_at realloc_errno now : Z) : option (timerlist * Z) :=
  if malloc_at =? 0 then Some (tl, - ENOMEM)
  else
    let timer := {| expire_time := u64 (now + nano_duration); is_absolute_timer := false;
                    timer_fn := fn; data := d; handle_addr := handle; heap_pos := 0 |} in
    let tl := set_timers tl (<[malloc_at := timer]> (timers tl)) in
    '(tl, res) ← timerlist_add tl malloc_at realloc_errno;
    if res =? 0 then Some (set_handles tl (<[handle := malloc_at]> (handles tl)), 0)
    else Some (free_timer tl malloc_at, res).

Definition clear_handle (tl : timerlist) (timer : Z) : timerlist :=
  set_handles tl (<[handle_addr (deref tl timer) := 0]> (handles tl)).

Definition timerlist_del (tl : timerlist) (timer : Z) : option (timerlist * Z) :=
  let tl := clear_handle tl timer in
  tl ← timerlist_heap_delete tl timer;
  Some (free_timer tl timer, 0).

Definition timerlist_expire_time (tl : timerlist) (timer : Z) : Z := expire_time (deref tl timer).

Definition timerlist_pre_dispatch (tl : timerlist) (timer : Z) : option timerlist :=
  timerlist_heap_delete (clear_handle tl timer) timer.

Definition timerlist_post_dispatch (tl : timerlist) (timer : Z) : timerlist := free_timer tl timer.


(** [mono] and [epoch] are the two clocks; [hertz] is [timerlist_hertz]. *)
Definition timerlist_msec_duration_to_expire (tl : timerlist) (mono epoch hertz : Z) : option Z :=
  if size tl =? 0 then Some (u64 (-1))
  else
    timer_from_list ← timerlist_heap_entry_get tl 0;
    let t := deref tl timer_from_list in
    let current_time := if is_absolute_timer t then epoch else mono in
    if expire_time t <? current_time then Some 0
    else Some (u64 ((expire_time t - current_time) / QB_TIME_NS_IN_MSEC + 1000 / hertz)).

(** The loop of [timerlist_expire]: the calls of timer functions it makes, as
    pairs of the function and its argument, in order.  The callbacks leave the
    timer list alone, as [make_job_from_tmo] of lib/loop_timerlist.c does. *)
Fixpoint expire_loop (fuel : nat) (tl : timerlist) (mono epoch : Z)
    : option (timerlist * list (Z * Z)) :=
  match fuel with
  | O => None
  | S fuel' =>
    if 0 <? size tl then
      timer ← timerlist_heap_entry_get tl 0;
      let t := deref tl timer in
      let current_time := if is_absolute_timer t then epoch else mono in
      if expire_time t <? current_time then
        tl ← timerlist_pre_dispatch tl timer;
        let call := (timer_fn (deref tl timer), data (deref tl timer)) in
        let tl := timerlist_post_dispatch tl timer in
        '(tl, calls) ← expire_loop fuel' tl mono epoch;
        Some (tl, call :: calls)
      else Some (tl, [])
    else Some (tl, [])
  end.

Definition timerlist_expire (tl : timerlist) (mono epoch : Z)
    : option (timerlist * list (Z * Z)) :=
  expire_loop (S (Z.to_nat (size tl))) tl mono epoch.
