(* ===== verification/TlistHeap.v ===== *)
(** * Timer list: the heap

    The structural invariant of the heap, the heap order, and what sifting,
    deletion and insertion do to both and to the set of live timers. *)
From S2P Require Import Prelude Tlist.

(** ** Lists as arrays *)

Lemma delete_insert_list {A} (l : list A) i x : delete i (<[i:=x]> l) = delete i l.
Proof. revert i. induction l as [|y l IH]; intros [|i]; simpl; try done. by rewrite IH. Qed.

Lemma insert_Permutation {A} (l : list A) i x :
  (i < length l)%nat -> <[i:=x]> l ≡ₚ x :: delete i l.
Proof.
  intros. rewrite (delete_Permutation (<[i:=x]> l) i x) by by apply list_lookup_insert_eq.
  by rewrite delete_insert_list.
Qed.

Lemma swap_Permutation {A} (l : list A) i j x y :
  l !! i = Some x -> l !! j = Some y -> i <> j -> <[j:=x]> (<[i:=y]> l) ≡ₚ l.
Proof.
  intros Hi Hj Hne. apply lookup_lt_Some in Hj as Hlj. apply lookup_lt_Some in Hi as Hli.
  assert (<[i:=y]> l !! j = Some y) as H1 by by rewrite list_lookup_insert_ne.
  apply (Permutation_cons_inv (a := y)).
  rewrite insert_Permutation by by rewrite length_insert.
  rewrite Permutation_swap, <- (delete_Permutation (<[i:=y]> l) j y) by done.
  rewrite insert_Permutation by done. rewrite Permutation_swap.
  by rewrite <- (delete_Permutation l i x).
Qed.

(** ** Definitions *)

(** The parent of position [i > 0]. *)
Definition par (i : Z) : Z := (i - 1) / 2.

Definition ent (tl : timerlist) (i : Z) : Z := zget (heap_entries tl) i.
Definition key (tl : timerlist) (a : Z) : Z := expire_time (deref tl a).
(** The expiry time at position [i]. *)
Definition K (tl : timerlist) (i : Z) : Z := key tl (ent tl i).

(** The pointers in the heap, in heap order. *)
Definition live (tl : timerlist) : list Z := take (Z.to_nat (size tl)) (heap_entries tl).

(** The store without the positions, which is what the heap operations keep. *)
Definition strip (tl : timerlist) : gmap Z timerlist_timer :=
  (fun t => set_heap_pos t 0) <$> timers tl.

(** Every entry of the heap points to a timer that knows its position. *)
Record tl_wf (tl : timerlist) : Prop := {
  wf_size : 0 <= size tl <= allocated tl;
  wf_alloc : allocated tl < 2 ^ 60;
  wf_len : zlen (heap_entries tl) = allocated tl;
  wf_pos : forall i, 0 <= i < size tl ->
    exists t, timers tl !! ent tl i = Some t /\ heap_pos t = i;
}.

Definition heap_ok (tl : timerlist) : Prop := forall j, 0 < j < size tl -> K tl (par j) <= K tl j.

Definition tl_inv (tl : timerlist) : Prop := tl_wf tl /\ heap_ok tl.

(** What a heap operation leaves as it is. *)
Record heap_same (tl tl' : timerlist) : Prop := {
  hs_alloc : allocated tl' = allocated tl;
  hs_handles : handles tl' = handles tl;
  hs_strip : strip tl' = strip tl;
}.

(** The heap order may fail between [i] and its parent only, with the
    children of [i] above the parent of [i]. *)
Definition up_inv (tl : timerlist) (i : Z) : Prop :=
  (forall j, 0 < j < size tl -> j <> i -> K tl (par j) <= K tl j) /\
  (forall j, 0 < j < size tl -> 0 < i -> par j = i -> K tl (par i) <= K tl j).

(** The heap order may fail between [i] and its children only, again with the
    children of [i] above the parent of [i]. *)
Definition down_inv (tl : timerlist) (i : Z) : Prop :=
  (forall j, 0 < j < size tl -> par j <> i -> K tl (par j) <= K tl j) /\
  (forall j, 0 < j < size tl -> 0 < i -> par j = i -> K tl (par i) <= K tl j).

(** ** Positions *)

Lemma par_range j : 0 < j -> 0 <= par j < j.
Proof. unfold par. zlia. Qed.

Lemma par_child i j : 0 <= i -> 0 < j -> par j = i <-> j = 2 * i + 1 \/ j = 2 * i + 2.
Proof. unfold par. zlia. Qed.

Lemma index_parent_par i : 0 < i < 2 ^ 60 -> timerlist_heap_index_parent i = par i.
Proof. intros. unfold timerlist_heap_index_parent, par. by rewrite u64_small by lia. Qed.

Lemma index_left i : 0 <= i < 2 ^ 60 -> timerlist_heap_index_left i = 2 * i + 1.
Proof. intros. unfold timerlist_heap_index_left. by rewrite u64_small by lia. Qed.

Lemma index_right i : 0 <= i < 2 ^ 60 -> timerlist_heap_index_right i = 2 * i + 2.
Proof. intros. unfold timerlist_heap_index_right. by rewrite u64_small by lia. Qed.

(** ** The store *)

Lemma deref_strip tl a : set_heap_pos (deref tl a) 0 = strip tl !!! a.
Proof.
  unfold deref, strip. rewrite !lookup_total_alt, lookup_fmap. by destruct (timers tl !! a).
Qed.

Lemma key_strip tl tl' a : strip tl' = strip tl -> key tl' a = key tl a.
Proof.
  intros E. pose proof (deref_strip tl a) as H1. pose proof (deref_strip tl' a) as H2.
  rewrite E, <- H1 in H2. unfold key. by injection H2.
Qed.

Lemma strip_set_pos tl h a t p :
  timers tl !! a = Some t -> strip (set_heap tl h (<[a := set_heap_pos (deref tl a) p]> (timers tl))) = strip tl.
Proof.
  intros Ha. unfold strip, deref. cbn [set_heap timers].
  rewrite (lookup_total_correct _ _ _ Ha), fmap_insert. apply insert_id.
  by rewrite lookup_fmap, Ha.
Qed.

Lemma strip_is_Some tl tl' a : strip tl' = strip tl -> is_Some (timers tl !! a) -> is_Some (timers tl' !! a).
Proof.
  intros E [t Ht]. assert (strip tl' !! a = Some (set_heap_pos t 0)) as H1
    by (rewrite E; unfold strip; by rewrite lookup_fmap, Ht).
  unfold strip in H1. rewrite lookup_fmap in H1. by destruct (timers tl' !! a).
Qed.

Lemma heap_same_refl tl : heap_same tl tl.
Proof. by constructor. Qed.

Lemma heap_same_trans tl1 tl2 tl3 : heap_same tl1 tl2 -> heap_same tl2 tl3 -> heap_same tl1 tl3.
Proof. intros [] []. constructor; congruence. Qed.

Lemma wf_deref_pos tl i : tl_wf tl -> 0 <= i < size tl -> heap_pos (deref tl (ent tl i)) = i.
Proof.
  intros Hwf Hi. destruct (wf_pos tl Hwf i Hi) as (t & Ht & Hp). unfold deref.
  by rewrite (lookup_total_correct _ _ _ Ht).
Qed.

(** Two positions hold different timers. *)
Lemma ent_inj tl i j : tl_wf tl -> 0 <= i < size tl -> 0 <= j < size tl -> ent tl i = ent tl j -> i = j.
Proof. intros Hwf Hi Hj E. rewrite <- (wf_deref_pos tl i), <- (wf_deref_pos tl j) by done. by rewrite E. Qed.

Lemma live_lookup tl i : tl_wf tl -> 0 <= i < size tl -> live tl !! Z.to_nat i = Some (ent tl i).
Proof.
  intros [Hs Ha Hl _] Hi. unfold live, ent. rewrite lookup_take_lt by lia. apply lookup_zget. lia.
Qed.

Lemma live_elem tl a : tl_wf tl -> a ∈ live tl <-> exists i, 0 <= i < size tl /\ ent tl i = a.
Proof.
  intros Hwf. pose proof (wf_size tl Hwf). pose proof (wf_len tl Hwf). split.
  - intros (i & Hi)%list_elem_of_lookup. apply lookup_lt_Some in Hi as Hlt.
    unfold live in Hlt. rewrite length_take in Hlt. unfold zlen in *.
    exists (Z.of_nat i). split; [lia|]. pose proof (live_lookup tl (Z.of_nat i) Hwf ltac:(lia)) as E.
    rewrite Nat2Z.id in E. congruence.
  - intros (i & Hi & <-). apply list_elem_of_lookup. exists (Z.to_nat i). by apply live_lookup.
Qed.

Lemma live_length tl : tl_wf tl -> zlen (live tl) = size tl.
Proof. intros [Hs _ Hl _]. unfold live, zlen in *. rewrite length_take. lia. Qed.

(** ** Storing an entry and exchanging two *)

(** The list with the timer [a] stored at position [p]. *)
Definition store (tl : timerlist) (p a : Z) : timerlist :=
  set_heap tl (zset (heap_entries tl) p a) (<[a := set_heap_pos (deref tl a) p]> (timers tl)).

Lemma entry_set_store tl p a : p < size tl -> timerlist_heap_entry_set tl p a = Some (store tl p a).
Proof. intros. unfold timerlist_heap_entry_set. by destruct (Z.ltb_spec p (size tl)); [|lia]. Qed.

Lemma entry_get_ent tl p : p < size tl -> timerlist_heap_entry_get tl p = Some (ent tl p).
Proof. intros. unfold timerlist_heap_entry_get. by destruct (Z.ltb_spec p (size tl)); [|lia]. Qed.

Definition swap (tl : timerlist) (i j : Z) : timerlist := store (store tl i (ent tl j)) j (ent tl i).

Section Swap.
Context (tl : timerlist) (i j : Z).
Hypothesis Hwf : tl_wf tl.
Hypothesis Hi : 0 <= i < size tl.
Hypothesis Hj : 0 <= j < size tl.
Hypothesis Hne : i <> j.

Lemma swap_same : heap_same tl (swap tl i j).
Proof.
  destruct (wf_pos tl Hwf i Hi) as (ti & Hti & _). destruct (wf_pos tl Hwf j Hj) as (tj & Htj & _).
  constructor; try done. unfold swap, store.
  pose proof (strip_set_pos tl (zset (heap_entries tl) i (ent tl j)) _ _ i Htj) as E.
  destruct (strip_is_Some tl (store tl i (ent tl j)) (ent tl i)) as [t' Ht']; [exact E|eauto|].
  unfold store in Ht'. by rewrite (strip_set_pos _ _ _ _ _ Ht').
Qed.

Lemma swap_ent k : 0 <= k < size tl ->
  ent (swap tl i j) k = if decide (k = i) then ent tl j else if decide (k = j) then ent tl i else ent tl k.
Proof.
  intros Hk. pose proof (wf_size tl Hwf). pose proof (wf_len tl Hwf).
  unfold ent, swap, store; cbn [set_heap heap_entries].
  destruct (decide (k = j)) as [->|].
  - rewrite decide_False by done. apply zget_zset_eq. rewrite zlen_zset. lia.
  - rewrite zget_zset_ne by lia. case_decide; [subst; apply zget_zset_eq; lia|].
    by rewrite zget_zset_ne by lia.
Qed.

Lemma swap_K k : 0 <= k < size tl ->
  K (swap tl i j) k = if decide (k = i) then K tl j else if decide (k = j) then K tl i else K tl k.
Proof.
  intros Hk. unfold K. rewrite swap_ent by done. pose proof (hs_strip _ _ swap_same) as E.
  by repeat case_decide; rewrite (key_strip tl).
Qed.

Lemma swap_wf : tl_wf (swap tl i j).
Proof.
  pose proof (wf_size tl Hwf). pose proof (wf_len tl Hwf). pose proof (wf_alloc tl Hwf).
  constructor; try done; [by unfold swap, store; cbn; rewrite !zlen_zset|].
  intros k Hk. cbn in Hk. rewrite swap_ent by done.
  unfold swap, store at 1. cbn [set_heap timers].
  assert (ent tl i <> ent tl j) by (intros E%ent_inj; done).
  repeat case_decide; subst.
  - rewrite lookup_insert_ne by done. unfold store. cbn [set_heap timers]. rewrite lookup_insert_eq. eauto.
  - rewrite lookup_insert_eq. eauto.
  - assert (ent tl k <> ent tl i) by (intros E%ent_inj; done).
    assert (ent tl k <> ent tl j) by (intros E%ent_inj; done).
    rewrite lookup_insert_ne by done. unfold store. cbn [set_heap timers].
    rewrite lookup_insert_ne by done. by apply wf_pos.
Qed.

Lemma swap_live : live (swap tl i j) ≡ₚ live tl.
Proof.
  pose proof (live_lookup tl i Hwf Hi). pose proof (live_lookup tl j Hwf Hj).
  unfold live, swap, store. cbn [set_heap heap_entries size]. unfold zset.
  destruct (Z.ltb_spec i 0); [lia|]. destruct (Z.ltb_spec j 0); [lia|].
  rewrite !take_insert_lt by lia. fold (live tl).
  apply swap_Permutation; [done|done|lia].
Qed.
End Swap.

(** ** Sifting *)

Lemma cmp_pos tl a b : (0 <? timerlist_entry_cmp tl a b) = (key tl b <? key tl a).
Proof. unfold timerlist_entry_cmp, key. repeat zcase; try done; lia. Qed.

Lemma cmp_neg tl a b : (timerlist_entry_cmp tl a b <? 0) = (key tl a <? key tl b).
Proof. unfold timerlist_entry_cmp, key. repeat zcase; try done; lia. Qed.

(** The outcome of a successful heap operation that keeps the size. *)
Definition sifted (tl tl' : timerlist) : Prop :=
  tl_inv tl' /\ heap_same tl tl' /\ size tl' = size tl /\ live tl' ≡ₚ live tl.

Lemma sifted_swap tl i j tl' :
  tl_wf tl -> 0 <= i < size tl -> 0 <= j < size tl -> i <> j ->
  sifted (swap tl i j) tl' -> sifted tl tl'.
Proof.
  intros ? ? ? ? (? & ? & Hsz & Hl). split; [done|]. split; [|split; [done|]].
  - apply (heap_same_trans _ (swap tl i j)); [by apply swap_same|done].
  - by rewrite Hl, swap_live.
Qed.

Lemma up_swap tl i :
  tl_wf tl -> 0 < i < size tl -> up_inv tl i -> K tl i < K tl (par i) -> up_inv (swap tl (par i) i) (par i).
Proof.
  intros Hwf Hi [H1 H2] Hlt. pose proof (par_range i ltac:(lia)) as Hp. split.
  - intros j Hj Hne. pose proof (par_range j ltac:(cbn in Hj; lia)). cbn in Hj.
    rewrite !swap_K by (done || lia).
    destruct (decide (j = par i)); [done|]. destruct (decide (j = i)) as [->|].
    + rewrite decide_True by done. lia.
    + destruct (decide (par j = par i)) as [E|]; [specialize (H1 j); rewrite E in H1; lia|].
      destruct (decide (par j = i)); [apply H2; lia|]. apply H1; lia.
  - intros j Hj H0 Hpj. pose proof (par_range j ltac:(cbn in Hj; lia)). cbn in Hj.
    pose proof (par_range (par i) H0). rewrite !swap_K by (done || lia).
    rewrite (decide_False (P := par (par i) = par i)) by lia.
    rewrite (decide_False (P := par (par i) = i)) by lia.
    specialize (H1 (par i) ltac:(lia) ltac:(lia)) as Hpp.
    rewrite (decide_False (P := j = par i)) by lia.
    destruct (decide (j = i)); [lia|]. specialize (H1 j ltac:(lia) ltac:(done)). rewrite Hpj in H1. lia.
Qed.

Lemma up_done tl i : up_inv tl i -> (0 < i -> K tl (par i) <= K tl i) -> heap_ok tl.
Proof. intros [H1 H2] Hle j Hj. destruct (decide (j = i)) as [->|]; [apply Hle; lia|by apply H1]. Qed.

Lemma sift_up_loop_ok fuel : forall tl i,
  tl_wf tl -> 0 <= i < size tl -> (Z.to_nat i < fuel)%nat -> up_inv tl i ->
  exists tl', sift_up_loop fuel tl (ent tl i) i (timerlist_heap_index_parent i) = Some tl' /\ sifted tl tl'.
Proof.
  induction fuel as [|fuel IH]; intros tl i Hwf Hi Hf Hup; [lia|]. cbn [sift_up_loop].
  assert (Hstop : (0 < i -> K tl (par i) <= K tl i) -> sifted tl tl).
  { intros Hle. split; [split; [done|by eapply up_done]|]. split; [apply heap_same_refl|done]. }
  destruct (Z.ltb_spec 0 i); [|exists tl; split; [done|apply Hstop; lia]].
  pose proof (wf_alloc tl Hwf). pose proof (wf_size tl Hwf). pose proof (par_range i ltac:(lia)).
  rewrite index_parent_par, entry_get_ent by lia. cbn [mbind option_bind].
  rewrite cmp_pos. change (key tl (ent tl (par i))) with (K tl (par i)).
  change (key tl (ent tl i)) with (K tl i).
  destruct (Z.ltb_spec (K tl i) (K tl (par i))); [|exists tl; split; [done|apply Hstop; lia]].
  rewrite entry_set_store by lia. cbn [mbind option_bind].
  rewrite entry_set_store by (cbn; lia). cbn [mbind option_bind].
  change (store (store tl (par i) (ent tl i)) i (ent tl (par i))) with (swap tl (par i) i).
  replace (ent tl i) with (ent (swap tl (par i) i) (par i))
    by (rewrite swap_ent by (done || lia); by rewrite decide_True).
  destruct (IH (swap tl (par i) i) (par i)) as (tl' & -> & Hs);
    [apply swap_wf; done || lia|cbn; lia|lia|apply up_swap; done || lia|].
  exists tl'. split; [done|]. eapply sifted_swap; [| | | |exact Hs]; done || lia.
Qed.

Lemma sift_up_ok tl i :
  tl_wf tl -> 0 <= i < size tl -> up_inv tl i ->
  exists tl', timerlist_heap_sift_up tl i = Some tl' /\ sifted tl tl'.
Proof.
  intros. unfold timerlist_heap_sift_up. rewrite entry_get_ent by lia. apply sift_up_loop_ok; done || lia.
Qed.

(** The smaller of the candidate and one child, as a position. *)
Lemma smaller_child_pos tl c s :
  tl_wf tl -> 0 <= c < 2 ^ 62 -> 0 <= s < size tl ->
  exists s', smaller_child tl c (s, ent tl s) = Some (s', ent tl s') /\
    s' = (if (c <? size tl) && (K tl c <? K tl s) then c else s).
Proof.
  intros Hwf Hc Hs. unfold smaller_child. cbn [snd].
  destruct (Z.ltb_spec c (size tl)); [|by exists s].
  rewrite entry_get_ent by done. cbn [mbind option_bind]. rewrite cmp_neg. cbn [andb].
  change (key tl (ent tl c)) with (K tl c). change (key tl (ent tl s)) with (K tl s).
  destruct (K tl c <? K tl s); eauto.
Qed.

(** The position [sift_down] moves to, and why. *)
Definition smallest (tl : timerlist) (i : Z) : Z :=
  let s := if (2 * i + 1 <? size tl) && (K tl (2 * i + 1) <? K tl i) then 2 * i + 1 else i in
  if (2 * i + 2 <? size tl) && (K tl (2 * i + 2) <? K tl s) then 2 * i + 2 else s.

Lemma smallest_spec tl i : 0 <= i < size tl ->
  let s := smallest tl i in
  (s = i \/ (s = 2 * i + 1 \/ s = 2 * i + 2) /\ s < size tl /\ K tl s < K tl i) /\
  K tl s <= K tl i /\
  (forall j, 0 < j < size tl -> par j = i -> K tl s <= K tl j).
Proof.
  intros Hi. cbn zeta.
  assert (Hgoal : forall j, 0 < j < size tl -> par j = i ->
    (j = 2 * i + 1 /\ 2 * i + 1 < size tl) \/ (j = 2 * i + 2 /\ 2 * i + 2 < size tl)).
  { intros j Hj Hp. apply par_child in Hp; lia. }
  unfold smallest. set (s1 := if _ && _ then 2 * i + 1 else i).
  assert (Hs1 : (s1 = i \/ s1 = 2 * i + 1 /\ 2 * i + 1 < size tl /\ K tl s1 < K tl i) /\
     K tl s1 <= K tl i /\ (2 * i + 1 < size tl -> K tl s1 <= K tl (2 * i + 1))).
  { unfold s1. do 2 zcase; cbn [andb]; lia. }
  clearbody s1.
  assert (Hcase : forall s, K tl s <= K tl i -> (2 * i + 1 < size tl -> K tl s <= K tl (2 * i + 1)) ->
    (2 * i + 2 < size tl -> K tl s <= K tl (2 * i + 2)) ->
    forall j, 0 < j < size tl -> par j = i -> K tl s <= K tl j).
  { intros s ? ? ? j Hj Hp. destruct (Hgoal j Hj Hp) as [[-> ?]|[-> ?]]; auto. }
  do 2 zcase; cbn [andb]; (split; [lia|split; [lia|apply Hcase; lia]]).
Qed.

Lemma down_swap tl i :
  tl_wf tl -> 0 <= i < size tl -> down_inv tl i -> smallest tl i <> i ->
  down_inv (swap tl i (smallest tl i)) (smallest tl i).
Proof.
  intros Hwf Hi [H1 H2] Hne. destruct (smallest_spec tl i Hi) as ([?|(Hsc & Hs & Hlt)] & _ & Hmin); [done|].
  set (s := smallest tl i) in *. clearbody s.
  assert (Hps : par s = i) by (apply par_child; lia). split.
  - intros j Hj Hpj. pose proof (par_range j ltac:(cbn in Hj; lia)). cbn in Hj.
    rewrite !swap_K by (done || lia). rewrite (decide_False (P := par j = s)) by done.
    destruct (decide (par j = i)) as [E|].
    + rewrite (decide_False (P := j = i)) by lia.
      destruct (decide (j = s)); [lia|]. by apply Hmin.
    + destruct (decide (j = i)) as [->|].
      * specialize (H2 s ltac:(lia) ltac:(lia) Hps). lia.
      * rewrite (decide_False (P := j = s)) by congruence. by apply H1.
  - intros j Hj H0 Hpj. pose proof (par_range j ltac:(cbn in Hj; lia)). cbn in Hj.
    rewrite !swap_K by (done || lia). rewrite Hps, decide_True by done.
    rewrite !decide_False by lia. specialize (H1 j ltac:(lia)). rewrite Hpj in H1. apply H1. lia.
Qed.

Lemma down_done tl i : 0 <= i < size tl -> down_inv tl i -> smallest tl i = i -> heap_ok tl.
Proof.
  intros Hi [H1 _] E j Hj. destruct (decide (par j = i)) as [Hp|]; [|by apply H1].
  destruct (smallest_spec tl i Hi) as (_ & _ & Hmin). rewrite E in Hmin. rewrite Hp. by apply Hmin.
Qed.

Lemma sift_down_loop_ok fuel : forall tl i,
  tl_wf tl -> 0 <= i < size tl -> (Z.to_nat (size tl - i) < fuel)%nat -> down_inv tl i ->
  exists tl', sift_down_loop fuel tl i = Some tl' /\ sifted tl tl'.
Proof.
  induction fuel as [|fuel IH]; intros tl i Hwf Hi Hf Hdn; [lia|]. cbn [sift_down_loop].
  pose proof (wf_alloc tl Hwf). pose proof (wf_size tl Hwf).
  rewrite entry_get_ent, index_left, index_right by lia. cbn [mbind option_bind].
  destruct (smaller_child_pos tl (2 * i + 1) i) as (s1 & -> & Hs1); [done|lia|done|]. cbn [mbind option_bind].
  assert (0 <= s1 < size tl) by (subst s1; zcase; cbn; [|lia]; zcase; lia).
  destruct (smaller_child_pos tl (2 * i + 2) s1) as (s2 & -> & Hs2); [done|lia|done|]. cbn [mbind option_bind].
  assert (s2 = smallest tl i) as -> by (subst; reflexivity). clear Hs1 Hs2.
  destruct (Z.eqb_spec (smallest tl i) i) as [E|Hne].
  - exists tl. split; [done|]. split; [split; [done|by apply (down_done tl i)]|]. split; [apply heap_same_refl|done].
  - destruct (smallest_spec tl i Hi) as ([?|(Hsc & Hsz & _)] & _); [done|].
    rewrite !entry_set_store by (cbn; lia). cbn [mbind option_bind].
    rewrite !entry_set_store by (cbn; lia). cbn [mbind option_bind].
    change (store (store tl i (ent tl (smallest tl i))) (smallest tl i) (ent tl i))
      with (swap tl i (smallest tl i)).
    destruct (IH (swap tl i (smallest tl i)) (smallest tl i)) as (tl' & -> & Hs);
      [apply swap_wf; done || lia|cbn; lia|cbn; lia|by apply down_swap|].
    exists tl'. split; [done|]. eapply sifted_swap; [| | | |exact Hs]; done || lia.
Qed.

Lemma sift_down_ok tl i :
  tl_wf tl -> 0 <= i < size tl -> down_inv tl i ->
  exists tl', timerlist_heap_sift_down tl i = Some tl' /\ sifted tl tl'.
Proof. intros. apply sift_down_loop_ok; done || lia. Qed.

(** ** Deletion *)

Lemma heap_ok_up tl i : heap_ok tl -> up_inv tl i.
Proof.
  intros H. split; [by intros; apply H|]. intros j Hj Hi Hp.
  specialize (H j Hj) as H1. rewrite Hp in H1. pose proof (par_range j ltac:(lia)).
  specialize (H i ltac:(lia)). lia.
Qed.

(** The list after the last entry took the place of position [e], before
    sifting. *)
Definition replaced (tl : timerlist) (e : Z) : timerlist :=
  let tl1 := set_timers tl (<[ent tl e := set_heap_pos (deref tl (ent tl e)) SIZE_MAX]> (timers tl)) in
  set_size (store tl1 e (ent tl (size tl - 1))) (size tl - 1).

Section Replaced.
Context (tl : timerlist) (e : Z).
Hypothesis Hwf : tl_wf tl.
Hypothesis He : 0 <= e < size tl.

Lemma replaced_same : heap_same tl (replaced tl e).
Proof.
  destruct (wf_pos tl Hwf e He) as (t & Ht & _).
  destruct (wf_pos tl Hwf (size tl - 1) ltac:(lia)) as (t' & Ht' & _).
  constructor; try done. unfold replaced.
  set (tl1 := set_timers _ _). assert (E : strip tl1 = strip tl) by by eapply strip_set_pos.
  destruct (strip_is_Some tl tl1 (ent tl (size tl - 1)) E) as [t1 Ht1]; [eauto|].
  transitivity (strip tl1); [|done]. by eapply (strip_set_pos tl1).
Qed.

Lemma replaced_ent k : 0 <= k < size tl -> ent (replaced tl e) k = if decide (k = e) then ent tl (size tl - 1) else ent tl k.
Proof.
  intros Hk. pose proof (wf_size tl Hwf). pose proof (wf_len tl Hwf). unfold ent, replaced; cbn.
  case_decide; [subst; apply zget_zset_eq; lia|]. apply zget_zset_ne; lia.
Qed.

Lemma replaced_K k : 0 <= k < size tl -> K (replaced tl e) k = if decide (k = e) then K tl (size tl - 1) else K tl k.
Proof.
  intros Hk. unfold K. rewrite replaced_ent by done. pose proof (hs_strip _ _ replaced_same) as E.
  by case_decide; rewrite (key_strip tl).
Qed.

Lemma replaced_wf : tl_wf (replaced tl e).
Proof.
  pose proof (wf_size tl Hwf). pose proof (wf_len tl Hwf). pose proof (wf_alloc tl Hwf).
  constructor; cbn; try lia; [by rewrite zlen_zset|].
  intros k Hk. rewrite replaced_ent by lia.
  case_decide; subst.
  - rewrite lookup_insert_eq. eauto.
  - assert (ent tl k <> ent tl (size tl - 1)) by (intros E%ent_inj; done || lia).
    assert (ent tl k <> ent tl e) by (intros E%ent_inj; done || lia).
    rewrite !lookup_insert_ne by done. apply wf_pos; [done|lia].
Qed.

Lemma replaced_live : ent tl e :: live (replaced tl e) ≡ₚ live tl.
Proof.
  pose proof (live_lookup tl e Hwf He) as Hle.
  pose proof (live_lookup tl (size tl - 1) Hwf ltac:(lia)) as Hll.
  pose proof (live_length tl Hwf) as Hlen.
  assert (Hsplit : live tl = take (Z.to_nat (size tl - 1)) (heap_entries tl) ++ [ent tl (size tl - 1)]).
  { unfold live in *. replace (Z.to_nat (size tl)) with (S (Z.to_nat (size tl - 1))) in * by lia.
    apply take_S_r. by rewrite lookup_take_lt in Hll by lia. }
  unfold live at 1, replaced. cbn. unfold zset. destruct (Z.ltb_spec e 0); [lia|].
  set (l := take (Z.to_nat (size tl - 1)) (heap_entries tl)) in *.
  assert (length l = Z.to_nat (size tl - 1)).
  { unfold zlen in Hlen. rewrite Hsplit, length_app in Hlen. simpl in Hlen. lia. }
  destruct (decide (e = size tl - 1)) as [E|].
  - rewrite E, take_insert_ge by lia. fold l. rewrite Hsplit. apply Permutation_cons_append.
  - rewrite take_insert_lt by lia. fold l.
    assert (l !! Z.to_nat e = Some (ent tl e)).
    { rewrite Hsplit, lookup_app_l in Hle by lia. done. }
    rewrite insert_Permutation by lia. rewrite Permutation_swap, <- (delete_Permutation l) by done.
    rewrite Hsplit. apply Permutation_cons_append.
Qed.
End Replaced.

(** After the replacement the order can fail around [e] only, on the side the
    comparison of the two timers tells. *)
Lemma replaced_up tl e :
  tl_inv tl -> 0 <= e < size tl - 1 -> K tl (size tl - 1) <= K tl e -> up_inv (replaced tl e) e.
Proof.
  intros [Hwf Hok] He Hle. split.
  - intros j Hj Hne. pose proof (par_range j ltac:(cbn in Hj; lia)). cbn in Hj.
    rewrite !replaced_K by (done || lia). rewrite (decide_False (P := j = e)) by done.
    pose proof (Hok j ltac:(lia)). case_decide as E; [rewrite E in *|]; lia.
  - intros j Hj H0 Hp. pose proof (par_range j ltac:(cbn in Hj; lia)). cbn in Hj.
    pose proof (par_range e H0). rewrite !replaced_K by (done || lia). rewrite !decide_False by lia.
    pose proof (Hok j ltac:(lia)) as H3. rewrite Hp in H3. pose proof (Hok e ltac:(lia)). lia.
Qed.

Lemma replaced_down tl e :
  tl_inv tl -> 0 <= e < size tl - 1 -> K tl e <= K tl (size tl - 1) -> down_inv (replaced tl e) e.
Proof.
  intros [Hwf Hok] He Hle. split.
  - intros j Hj Hne. pose proof (par_range j ltac:(cbn in Hj; lia)). cbn in Hj.
    rewrite !replaced_K by (done || lia). rewrite (decide_False (P := par j = e)) by done.
    pose proof (Hok j ltac:(lia)). case_decide; [subst|]; lia.
  - intros j Hj H0 Hp. pose proof (par_range j ltac:(cbn in Hj; lia)). cbn in Hj.
    pose proof (par_range e H0). rewrite !replaced_K by (done || lia). rewrite !decide_False by lia.
    pose proof (Hok j ltac:(lia)) as H3. rewrite Hp in H3. pose proof (Hok e ltac:(lia)). lia.
Qed.

Lemma replaced_last tl : tl_inv tl -> 0 < size tl -> heap_ok (replaced tl (size tl - 1)).
Proof.
  intros [Hwf Hok] Hs j Hj. pose proof (par_range j ltac:(cbn in Hj; lia)). cbn in Hj.
  rewrite !replaced_K by (done || lia). rewrite !decide_False by lia. apply Hok. lia.
Qed.

(** The outcome of removing [a]. *)
Definition removed (tl : timerlist) (a : Z) (tl' : timerlist) : Prop :=
  tl_inv tl' /\ heap_same tl tl' /\ size tl' = size tl - 1 /\ a :: live tl' ≡ₚ live tl.

Lemma removed_sifted tl e tl' :
  tl_wf tl -> 0 <= e < size tl -> sifted (replaced tl e) tl' -> removed tl (ent tl e) tl'.
Proof.
  intros Hwf He (Hinv & Hsame & Hsz & Hl). split; [done|].
  split; [by apply (heap_same_trans _ (replaced tl e)); [apply replaced_same|]|].
  split; [done|]. by rewrite Hl, replaced_live.
Qed.

Lemma heap_delete_ok tl a :
  tl_inv tl -> a ∈ live tl -> exists tl', timerlist_heap_delete tl a = Some tl' /\ removed tl a tl'.
Proof.
  intros Hinv Ha. pose proof Hinv as [Hwf Hok]. apply live_elem in Ha as (e & He & <-); [|done].
  pose proof (wf_size tl Hwf). pose proof (wf_alloc tl Hwf).
  unfold timerlist_heap_delete. rewrite wf_deref_pos by done.
  set (tl1 := set_timers _ _).
  change (size tl1) with (size tl). rewrite u64_small by lia.
  rewrite (entry_get_ent tl1) by (cbn; lia). cbn [mbind option_bind].
  rewrite entry_set_store by (cbn; lia). cbn [mbind option_bind].
  change (size (store _ _ _)) with (size tl). rewrite u64_small by lia.
  change (set_size (store tl1 e (ent tl1 (size tl - 1))) (size tl - 1)) with (replaced tl e).
  change (ent tl1 (size tl - 1)) with (ent tl (size tl - 1)).
  rewrite cmp_neg, cmp_pos, !(key_strip tl (replaced tl e)) by (by apply hs_strip, replaced_same).
  change (key tl (ent tl (size tl - 1))) with (K tl (size tl - 1)).
  change (key tl (ent tl e)) with (K tl e).
  pose proof (replaced_wf tl e Hwf He) as Hrwf.
  destruct (decide (e = size tl - 1)) as [E|].
  { rewrite <- E, Z.ltb_irrefl. exists (replaced tl e). split; [done|].
    apply removed_sifted; [done|done|]. split; [split; [done|subst e; apply replaced_last; [done|lia]]|].
    split; [apply heap_same_refl|done]. }
  destruct (Z.ltb_spec (K tl (size tl - 1)) (K tl e)).
  { destruct (sift_up_ok (replaced tl e) e) as (tl' & -> & Hs); [done|cbn; lia|apply replaced_up; done || lia|].
    eauto using removed_sifted. }
  destruct (Z.ltb_spec (K tl e) (K tl (size tl - 1))).
  { destruct (sift_down_ok (replaced tl e) e) as (tl' & -> & Hs); [done|cbn; lia|apply replaced_down; done || lia|].
    eauto using removed_sifted. }
  exists (replaced tl e). split; [done|]. apply removed_sifted; [done|done|].
  split; [split; [done|]|split; [apply heap_same_refl|done]].
  eapply up_done; [apply replaced_up; done || lia|].
  intros Hpos. pose proof (par_range e Hpos). rewrite !replaced_K by (done || lia).
  rewrite (decide_False (P := par e = e)), decide_True by (done || lia). pose proof (Hok e ltac:(lia)). lia.
Qed.

(** ** Insertion *)

(** The list with room for one more entry. *)
Definition grown (tl : timerlist) : timerlist :=
  if allocated tl <? size tl + 1 then
    {| heap_entries := heap_entries tl ++ zrepeat 0 ((allocated tl + 1) * 2 - allocated tl);
       allocated := (allocated tl + 1) * 2; size := size tl; timers := timers tl; handles := handles tl |}
  else tl.

Lemma grown_ent tl i : tl_wf tl -> 0 <= i < size tl -> ent (grown tl) i = ent tl i.
Proof.
  intros Hwf Hi. pose proof (wf_size tl Hwf). pose proof (wf_len tl Hwf).
  unfold grown. zcase; [|done]. unfold ent, zget. cbn. unfold zlen in *.
  apply lookup_total_app_l. lia.
Qed.

Lemma grown_inv tl : tl_inv tl -> allocated tl < 2 ^ 58 ->
  tl_inv (grown tl) /\ size tl + 1 <= allocated (grown tl) /\ live (grown tl) = live tl.
Proof.
  intros [Hwf Hok] Ha. pose proof (wf_size tl Hwf). pose proof (wf_len tl Hwf).
  assert (Hent := fun i => grown_ent tl i Hwf).
  assert (Hsz : size (grown tl) = size tl) by (unfold grown; by zcase).
  assert (Htm : timers (grown tl) = timers tl) by (unfold grown; by zcase).
  split; [split|].
  - constructor; rewrite ?Hsz.
    + unfold grown. zcase; cbn; lia.
    + unfold grown. zcase; cbn; lia.
    + unfold grown. zcase; cbn; [|done]. rewrite zlen_app, zlen_zrepeat; lia.
    + intros i Hi. rewrite Htm, Hent by done. by apply wf_pos.
  - intros j Hj. rewrite Hsz in Hj. pose proof (par_range j ltac:(lia)). unfold K, key, deref.
    rewrite Htm, !Hent by lia. by apply Hok.
  - unfold grown, live. zcase; cbn; (split; [lia|]); [|done].
    apply take_app_le. unfold zlen in *. lia.
Qed.

Definition appended (tl : timerlist) (a : Z) : timerlist :=
  store (set_size tl (size tl + 1)) (size tl) a.

Section Appended.
Context (tl : timerlist) (a : Z).
Hypothesis Hinv : tl_inv tl.
Hypothesis Hroom : size tl + 1 <= allocated tl.
Hypothesis Ha : is_Some (timers tl !! a).
Hypothesis Hnew : a ∉ live tl.

Lemma appended_same : heap_same tl (appended tl a).
Proof. destruct Ha as [t Ht]. constructor; try done. apply (strip_set_pos (set_size tl _) _ _ _ _ Ht). Qed.

Lemma appended_ent k : 0 <= k <= size tl -> ent (appended tl a) k = if decide (k = size tl) then a else ent tl k.
Proof.
  intros Hk. destruct Hinv as [Hwf _]. pose proof (wf_len tl Hwf). pose proof (wf_size tl Hwf).
  unfold ent; cbn. case_decide; [subst; apply zget_zset_eq; lia|]. apply zget_zset_ne; lia.
Qed.

Lemma appended_wf : tl_wf (appended tl a).
Proof.
  destruct Hinv as [Hwf Hok]. pose proof (wf_len tl Hwf). pose proof (wf_size tl Hwf).
  pose proof (wf_alloc tl Hwf). constructor; cbn; try lia; [by rewrite zlen_zset|].
  intros k Hk. rewrite appended_ent by lia. case_decide; subst.
  - rewrite lookup_insert_eq. eauto.
  - assert (ent tl k <> a) by (intros <-; apply Hnew, live_elem; [done|]; exists k; split; [lia|done]).
    rewrite lookup_insert_ne by done. apply wf_pos; [done|lia].
Qed.

Lemma appended_up : up_inv (appended tl a) (size tl).
Proof.
  destruct Hinv as [Hwf Hok]. pose proof (wf_size tl Hwf).
  assert (HK : forall k, 0 <= k < size tl -> K (appended tl a) k = K tl k).
  { intros k Hk. unfold K. rewrite appended_ent by lia. rewrite decide_False by lia.
    apply key_strip, hs_strip, appended_same. }
  split; intros j Hj; pose proof (par_range j ltac:(cbn in Hj; lia)); cbn in Hj.
  - intros Hne. rewrite !HK by lia. apply Hok. lia.
  - intros _ Hp. lia.
Qed.

Lemma appended_live : live (appended tl a) ≡ₚ a :: live tl.
Proof.
  destruct Hinv as [Hwf Hok]. pose proof (wf_len tl Hwf). pose proof (wf_size tl Hwf).
  pose proof (live_lookup (appended tl a) (size tl) appended_wf ltac:(cbn; lia)) as Hl.
  rewrite appended_ent, decide_True in Hl by (done || lia).
  rewrite (delete_Permutation _ _ _ Hl). f_equiv. unfold live. cbn. unfold zset.
  destruct (Z.ltb_spec (size tl) 0); [lia|].
  replace (Z.to_nat (size tl + 1)) with (S (Z.to_nat (size tl))) by lia.
  unfold zlen in *. rewrite (take_S_r _ _ a) by (apply list_lookup_insert_eq; lia).
  rewrite take_insert_ge by lia.
  assert (Hlen : length (take (Z.to_nat (size tl)) (heap_entries tl)) = Z.to_nat (size tl))
    by (rewrite length_take; lia).
  rewrite <- Hlen at 1. rewrite delete_middle. by rewrite app_nil_r.
Qed.
End Appended.
