(* ===== verification/TlistTheorems.v ===== *)
(** * Timer list: correctness of the operations

    Adding, deleting and expiring timers keep the heap invariant and do to the
    set of pending timers what they should; the next expiry the poll loop waits
    for is the earliest one. *)
From S2P Require Import Prelude Tlist TlistHeap.

(** ** Shared lemmas *)

Lemma live_NoDup tl : tl_wf tl -> NoDup (live tl).
Proof.
  intros Hwf. pose proof (live_length tl Hwf) as Hlen. apply NoDup_alt. intros i j a Hi Hj.
  apply lookup_lt_Some in Hi as Hli. apply lookup_lt_Some in Hj as Hlj. unfold zlen in Hlen.
  pose proof (live_lookup tl (Z.of_nat i) Hwf ltac:(lia)) as E1.
  pose proof (live_lookup tl (Z.of_nat j) Hwf ltac:(lia)) as E2.
  rewrite Nat2Z.id in E1, E2. assert (Z.of_nat i = Z.of_nat j); [|lia].
  apply (ent_inj tl); [done|lia|lia|congruence].
Qed.

Lemma live_in_store tl a : tl_wf tl -> a ∈ live tl -> is_Some (timers tl !! a).
Proof.
  intros Hwf (i & Hi & <-)%live_elem; [|done]. destruct (wf_pos tl Hwf i Hi) as (t & -> & _). eauto.
Qed.

(** The entry at the root expires first. *)
Lemma root_min tl : tl_inv tl -> 0 < size tl -> forall a, a ∈ live tl -> K tl 0 <= key tl a.
Proof.
  intros [Hwf Hok] Hs a (i & Hi & <-)%live_elem; [|done]. change (K tl 0 <= K tl i).
  assert (Hind : forall n, (Z.to_nat i <= n)%nat -> K tl 0 <= K tl i); [|by eapply Hind].
  intros n. revert i Hi. induction n as [|n IH]; intros i Hi Hn.
  - by replace i with 0 by lia.
  - destruct (decide (i = 0)) as [->|]; [done|]. pose proof (par_range i ltac:(lia)).
    specialize (IH (par i) ltac:(lia) ltac:(lia)). pose proof (Hok i ltac:(lia)). lia.
Qed.

Lemma root_live tl : tl_wf tl -> 0 < size tl -> ent tl 0 ∈ live tl.
Proof. intros. apply live_elem; [done|]. exists 0. split; [lia|done]. Qed.

(** Handle cells do not matter to the heap. *)
Lemma tl_inv_set_handles tl hs : tl_inv tl <-> tl_inv (set_handles tl hs).
Proof. split; intros [[] Hok]; (split; [by constructor|done]). Qed.

(** Freeing a timer that is not in the heap keeps the heap. *)
Lemma free_inv tl a : tl_inv tl -> a ∉ live tl -> tl_inv (free_timer tl a).
Proof.
  intros [Hwf Hok] Ha.
  assert (Hne : forall i, 0 <= i < size tl -> ent tl i <> a).
  { intros i Hi <-. apply Ha, live_elem; [done|]. eauto. }
  split.
  - destruct Hwf as [Hs Hal Hl Hp]. constructor; try done. intros i Hi. cbn in *.
    rewrite lookup_delete_ne by (intros E; by eapply Hne). by apply Hp.
  - intros j Hj. cbn in Hj. pose proof (par_range j ltac:(lia)). unfold K, key, deref. cbn.
    rewrite !lookup_total_delete_ne by (intros E; eapply (Hne _); [|exact (eq_sym E)]; lia). by apply Hok.
Qed.

Lemma strip_free tl a : strip (free_timer tl a) = delete a (strip tl).
Proof. unfold strip, free_timer. cbn. by rewrite fmap_delete. Qed.

(** Taking one timer out of the heap and freeing it. *)
Lemma take_out tl a :
  tl_inv tl -> a ∈ live tl ->
  exists tl1, timerlist_heap_delete (clear_handle tl a) a = Some tl1 /\
    strip tl1 = strip tl /\ tl_inv (free_timer tl1 a) /\
    a :: live (free_timer tl1 a) ≡ₚ live tl /\
    strip (free_timer tl1 a) = delete a (strip tl) /\
    size tl1 = size tl - 1 /\ allocated tl1 = allocated tl /\
    handles tl1 = <[handle_addr (deref tl a) := 0]> (handles tl).
Proof.
  intros Hinv Ha.
  destruct (heap_delete_ok (clear_handle tl a) a) as (tl1 & -> & Hinv1 & Hsame & Hsz & Hl);
    [by apply tl_inv_set_handles|done|].
  exists tl1. destruct Hsame as [Hal Hh Hst].
  assert (Hn : a ∉ live tl1).
  { assert (Hnd : NoDup (a :: live tl1)).
    { rewrite Hl. apply (live_NoDup tl), Hinv. }
    by apply list.NoDup_cons in Hnd as [? _]. }
  split_and!; try done.
  - by apply free_inv.
  - rewrite strip_free. by rewrite Hst.
Qed.

(** ** Adding *)

Lemma add_ok tl a :
  tl_inv tl -> allocated tl < 2 ^ 58 -> is_Some (timers tl !! a) -> a ∉ live tl ->
  exists tl', timerlist_add tl a 0 = Some (tl', 0) /\ tl_inv tl' /\
    live tl' ≡ₚ a :: live tl /\ strip tl' = strip tl /\ handles tl' = handles tl.
Proof.
  intros Hinv Hal Ha Hn. destruct (grown_inv tl Hinv Hal) as (Hg & Hroom & Hgl).
  pose proof (wf_size _ (proj1 Hinv)).
  assert (Htm : timers (grown tl) = timers tl) by (unfold grown; by zcase).
  assert (Hsz : size (grown tl) = size tl) by (unfold grown; by zcase).
  unfold timerlist_add. rewrite Z.eqb_refl. cbn [negb]. rewrite andb_false_r.
  rewrite (u64_small (size tl + 1)), (u64_small ((allocated tl + 1) * 2)) by lia.
  set (g := if allocated tl <? size tl + 1 then _ else tl). change g with (grown tl). clear g.
  rewrite Hsz. rewrite (u64_small (size tl + 1)) by lia. change (size (set_size _ ?n)) with n.
  replace (u64 (size tl + 1 - 1)) with (size tl) by (rewrite u64_small; lia).
  rewrite entry_set_store by (cbn; lia). cbn [mbind option_bind].
  change (size (store _ _ _)) with (size tl + 1).
  replace (u64 (size tl + 1 - 1)) with (size tl) by (rewrite u64_small; lia).
  rewrite <- Hsz. change (store _ _ a) with (appended (grown tl) a).
  assert (Ha' : is_Some (timers (grown tl) !! a)) by by rewrite Htm.
  assert (Hn' : a ∉ live (grown tl)) by by rewrite Hgl. rewrite <- Hsz in Hroom.
  destruct (sift_up_ok (appended (grown tl) a) (size (grown tl))) as (tl' & -> & Hs & Hsame & _ & Hl).
  - by apply appended_wf.
  - cbn. lia.
  - by apply appended_up.
  - exists tl'. cbn [mbind option_bind]. split; [done|]. split; [done|].
    pose proof (appended_same (grown tl) a Ha') as Hap.
    split; [by rewrite Hl, appended_live, Hgl|].
    rewrite (hs_strip _ _ Hsame), (hs_strip _ _ Hap), (hs_handles _ _ Hsame), (hs_handles _ _ Hap).
    split; [unfold strip; by rewrite Htm|]. unfold grown. by zcase.
Qed.

(** C10. Adding a timer keeps the heap invariant, makes exactly the new timer
    pending, with the expiry [now + nano_duration], and stores its handle; when
    [malloc] or [realloc] fails the list is as before and the error is returned. *)
Theorem add_duration_correct tl fn d dur handle a now :
  tl_inv tl -> allocated tl < 2 ^ 58 -> timers tl !! a = None -> a <> 0 ->
  (exists tl', timerlist_add_duration tl fn d dur handle a 0 now = Some (tl', 0) /\
     tl_inv tl' /\ live tl' ≡ₚ a :: live tl /\
     handles tl' = <[handle := a]> (handles tl) /\
     strip tl' = <[a := {| expire_time := u64 (now + dur); is_absolute_timer := false;
                           timer_fn := fn; data := d; handle_addr := handle; heap_pos := 0 |}]> (strip tl)) /\
  timerlist_add_duration tl fn d dur handle 0 0 now = Some (tl, - ENOMEM) /\
  (forall e, 0 < e -> allocated tl < size tl + 1 ->
     timerlist_add_duration tl fn d dur handle a e now = Some (tl, - e)).
Proof.
  intros Hinv Hal Hfree Ha0. pose proof (proj1 Hinv) as Hwf. pose proof (wf_size tl Hwf).
  unfold timerlist_add_duration. rewrite Z.eqb_refl. destruct (Z.eqb_spec a 0); [done|].
  set (t := Build_timerlist_timer _ _ _ _ _ _).
  assert (Hnl : a ∉ live tl) by (intros [? E]%live_in_store; [congruence|done]).
  split_and!; [|done|].
  - set (tl1 := set_timers tl (<[a := t]> (timers tl))).
    assert (Hinv1 : tl_inv tl1).
    { assert (Hne : forall i, 0 <= i < size tl -> a <> ent tl i)
        by (intros i Hi ->; apply Hnl, live_elem; eauto).
      destruct Hinv as [[Hs1 Ha1 Hl1 Hp1] Hok]. split.
      - constructor; try done. intros i Hi. cbn in *. rewrite lookup_insert_ne by by apply Hne. by apply Hp1.
      - intros j Hj. cbn in Hj. pose proof (par_range j ltac:(lia)). unfold K, key, deref. cbn.
        rewrite !lookup_total_insert_ne by (apply Hne; lia). by apply Hok. }
    destruct (add_ok tl1 a Hinv1) as (tl' & -> & Hinv' & Hl & Hst & Hh);
      [done|cbn; rewrite lookup_insert_eq; eauto|done|].
    cbn [mbind option_bind]. rewrite Z.eqb_refl.
    eexists. split; [reflexivity|]. split; [by apply tl_inv_set_handles|]. split; [done|].
    split; [cbn; by rewrite Hh|].
    change (strip (set_handles tl' _)) with (strip tl'). rewrite Hst. unfold strip. cbn. by rewrite fmap_insert.
  - intros e He Hfull. unfold timerlist_add. cbn [set_timers set_heap allocated size].
    rewrite u64_small by (pose proof (wf_alloc tl Hwf); lia).
    destruct (Z.ltb_spec (allocated tl) (size tl + 1)); [|lia].
    destruct (Z.eqb_spec e 0); [lia|]. cbn [negb andb mbind option_bind].
    destruct (Z.eqb_spec (- e) 0); [lia|].
    unfold free_timer, set_timers, set_heap. cbn.
    rewrite delete_insert_id by done. by destruct tl.
Qed.

(** ** Deleting *)

(** C11. Deleting a pending timer keeps the heap invariant, makes exactly that
    timer no longer pending, frees it, clears the cell of its handle and
    succeeds. *)
Theorem del_correct tl a :
  tl_inv tl -> a ∈ live tl ->
  exists tl', timerlist_del tl a = Some (tl', 0) /\ tl_inv tl' /\
    a :: live tl' ≡ₚ live tl /\ strip tl' = delete a (strip tl) /\
    handles tl' = <[handle_addr (deref tl a) := 0]> (handles tl).
Proof.
  intros Hinv Ha. destruct (take_out tl a Hinv Ha) as (tl1 & E & _ & Hinv' & Hl & Hst & _ & _ & Hh).
  unfold timerlist_del. rewrite E. cbn [mbind option_bind]. eexists. split; [done|]. by split_and!.
Qed.

(** ** Expiring *)

(** All of a timer but its position. *)
Lemma deref_same tl tl' a :
  strip tl' !! a = strip tl !! a -> set_heap_pos (deref tl' a) 0 = set_heap_pos (deref tl a) 0.
Proof. intros E. rewrite !deref_strip, !lookup_total_alt. by rewrite E. Qed.

(** The call a timer makes. *)
Definition call_of (tl : timerlist) (a : Z) : Z * Z := (timer_fn (deref tl a), data (deref tl a)).

Lemma call_of_same tl tl' a : strip tl' !! a = strip tl !! a -> call_of tl' a = call_of tl a.
Proof. intros E%deref_same. unfold call_of. injection E. congruence. Qed.

Lemma key_same tl tl' a : strip tl' !! a = strip tl !! a -> key tl' a = key tl a.
Proof. intros E%deref_same. unfold key. by injection E. Qed.

Lemma absolute_same tl tl' a :
  strip tl' !! a = strip tl !! a -> is_absolute_timer (deref tl' a) = is_absolute_timer (deref tl a).
Proof. intros E%deref_same. by injection E. Qed.

(** No timer runs on the epoch clock; [timerlist_add_duration] makes none. *)
Definition all_relative (tl : timerlist) : Prop :=
  forall a, a ∈ live tl -> is_absolute_timer (deref tl a) = false.

(** The timers [fired] went off, in this order, and [tl'] is what is left. *)
Record expired (tl : timerlist) (mono : Z) (fired : list Z) (tl' : timerlist) : Prop := {
  ex_inv : tl_inv tl';
  ex_live : live tl ≡ₚ fired ++ live tl';
  ex_sorted : StronglySorted (fun a b => key tl a <= key tl b) fired;
  ex_due : forall a, a ∈ fired -> key tl a < mono;
  ex_rest : forall a, a ∈ live tl' -> mono <= key tl a;
  ex_strip : strip tl' = foldr delete (strip tl) fired;
}.

Lemma StronglySorted_ext {A} (R S : A -> A -> Prop) l :
  (forall x y, x ∈ l -> y ∈ l -> R x y -> S x y) -> StronglySorted R l -> StronglySorted S l.
Proof.
  intros HRS H. induction H as [|x l Hl IH Hx]; [by constructor|]. constructor.
  - apply IH. set_solver.
  - apply list.Forall_forall. intros y Hy. rewrite list.Forall_forall in Hx. apply HRS; [set_solver..|]. by apply Hx.
Qed.

Lemma expired_none tl mono :
  tl_inv tl -> (0 < size tl -> mono <= K tl 0) -> expired tl mono [] tl.
Proof.
  intros Hinv Hmin. constructor; try done; [by constructor|set_solver|].
  intros a Ha. pose proof (proj1 Hinv) as Hwf.
  assert (0 < size tl) by (apply live_elem in Ha as (i & ? & _); [lia|done]).
  pose proof (root_min tl Hinv ltac:(done) a Ha). lia.
Qed.

Lemma expired_cons tl mono tl2 fired tl' :
  tl_inv tl -> 0 < size tl -> K tl 0 < mono ->
  ent tl 0 :: live tl2 ≡ₚ live tl -> strip tl2 = delete (ent tl 0) (strip tl) ->
  expired tl2 mono fired tl' -> expired tl mono (ent tl 0 :: fired) tl'.
Proof.
  intros Hinv Hs Hdue Hl Hst [Hinv' Hlive Hsort Hd Hr Hst'].
  assert (Hnd : NoDup (ent tl 0 :: live tl2)) by (rewrite Hl; apply live_NoDup, Hinv).
  apply list.NoDup_cons in Hnd as [Hn _].
  assert (Hkey : forall b, b ∈ live tl2 -> key tl2 b = key tl b).
  { intros b Hb. apply key_same. rewrite Hst. apply lookup_delete_ne. by intros <-. }
  assert (Hfl : forall b, b ∈ fired -> b ∈ live tl2) by (intros; rewrite Hlive; set_solver).
  assert (Hrl : forall b, b ∈ live tl' -> b ∈ live tl2) by (intros; rewrite Hlive; set_solver).
  constructor; [done| | | | |].
  - rewrite <- Hl, Hlive. done.
  - constructor.
    + eapply StronglySorted_ext, Hsort. intros x y Hx Hy HR. cbv beta in HR |- *. by rewrite !Hkey in HR by auto.
    + apply list.Forall_forall. intros b Hb. apply (root_min tl Hinv Hs). rewrite <- Hl. set_solver.
  - intros b [->|Hb]%elem_of_cons; [done|]. rewrite <- Hkey by auto. by apply Hd.
  - intros b Hb. rewrite <- Hkey by auto. by apply Hr.
  - simpl. rewrite Hst', Hst. clear. induction fired as [|x fired IH]; simpl; [done|].
    rewrite IH. apply delete_delete.
Qed.

Lemma expire_loop_ok fuel : forall tl mono epoch,
  tl_inv tl -> all_relative tl -> (Z.to_nat (size tl) < fuel)%nat ->
  exists tl' fired, expire_loop fuel tl mono epoch = Some (tl', call_of tl <$> fired) /\
    expired tl mono fired tl'.
Proof.
  induction fuel as [|fuel IH]; intros tl mono epoch Hinv Hrel Hf; [lia|]. cbn [expire_loop].
  pose proof (proj1 Hinv) as Hwf. pose proof (wf_size tl Hwf).
  destruct (Z.ltb_spec 0 (size tl)); [|exists tl, []; split; [done|apply expired_none; done || lia]].
  rewrite entry_get_ent by lia. cbn [mbind option_bind].
  pose proof (root_live tl Hwf ltac:(done)) as Hroot. rewrite Hrel by done.
  change (expire_time (deref tl (ent tl 0))) with (K tl 0).
  destruct (Z.ltb_spec (K tl 0) mono); [|exists tl, []; split; [done|apply expired_none; done || lia]].
  destruct (take_out tl (ent tl 0) Hinv Hroot) as (tl1 & E & Hst1 & Hinv2 & Hl & Hst2 & Hsz & _).
  unfold timerlist_pre_dispatch. rewrite E. cbn [mbind option_bind].
  assert (Hn : ent tl 0 ∉ live (free_timer tl1 (ent tl 0))).
  { assert (Hnd : NoDup (ent tl 0 :: live (free_timer tl1 (ent tl 0)))) by (rewrite Hl; by apply live_NoDup).
    by apply list.NoDup_cons in Hnd as [? _]. }
  assert (Hne : forall b, b ∈ live (free_timer tl1 (ent tl 0)) ->
     strip (free_timer tl1 (ent tl 0)) !! b = strip tl !! b).
  { intros b Hb. rewrite Hst2. apply lookup_delete_ne. by intros <-. }
  destruct (IH (timerlist_post_dispatch tl1 (ent tl 0)) mono epoch) as (tl' & fired & -> & Hex).
  - done.
  - intros b Hb. erewrite absolute_same by by apply Hne. apply Hrel. rewrite <- Hl. by right.
  - cbn. lia.
  - cbn [mbind option_bind]. exists tl', (ent tl 0 :: fired). split.
    + rewrite fmap_cons. fold (call_of tl1 (ent tl 0)). do 2 f_equal. f_equal.
      * apply call_of_same. by rewrite Hst1.
      * apply list_fmap_ext. intros i b Hb. apply call_of_same, Hne.
        apply list_elem_of_lookup_2 in Hb. rewrite (ex_live _ _ _ _ Hex). set_solver.
    + by eapply expired_cons.
Qed.

(** C12. [timerlist_expire] terminates and calls the function of exactly the
    timers whose expiry lies before the clock, in order of expiry; those timers
    are freed, and the others stay pending in a heap. *)
Theorem expire_correct tl mono epoch :
  tl_inv tl -> all_relative tl ->
  exists tl' fired, timerlist_expire tl mono epoch = Some (tl', call_of tl <$> fired) /\
    expired tl mono fired tl'.
Proof. intros. apply expire_loop_ok; done || lia. Qed.

(** The time the poll loop may sleep is computed from the earliest expiry
    of all pending timers: none if there is no timer, 0 if it has passed, and
    otherwise the whole milliseconds up to it plus the clock tick. *)
Theorem msec_to_expire_earliest tl mono epoch hertz :
  tl_inv tl -> all_relative tl -> 0 < hertz -> 0 <= mono ->
  (forall a, a ∈ live tl -> key tl a < 2 ^ 63) ->
  (live tl = [] /\ timerlist_msec_duration_to_expire tl mono epoch hertz = Some (2 ^ 64 - 1)) \/
  exists a, a ∈ live tl /\ (forall b, b ∈ live tl -> key tl a <= key tl b) /\
    timerlist_msec_duration_to_expire tl mono epoch hertz =
      Some (if key tl a <? mono then 0 else (key tl a - mono) / QB_TIME_NS_IN_MSEC + 1000 / hertz).
Proof.
  intros Hinv Hrel Hz Hm Hbound. pose proof (proj1 Hinv) as Hwf. pose proof (live_length tl Hwf).
  pose proof (wf_size tl Hwf). unfold timerlist_msec_duration_to_expire.
  destruct (Z.eqb_spec (size tl) 0).
  - left. split; [|done]. destruct (live tl); [done|]. rewrite zlen_cons in *. pose proof (zlen_nonneg l). lia.
  - right. exists (ent tl 0). pose proof (root_live tl Hwf ltac:(lia)) as Hroot.
    split; [done|]. split; [apply (root_min tl Hinv); lia|].
    rewrite entry_get_ent by lia. cbn [mbind option_bind]. rewrite Hrel by done.
    change (expire_time (deref tl (ent tl 0))) with (key tl (ent tl 0)).
    pose proof (Hbound _ Hroot). zcase; [done|]. f_equal. apply u64_small.
    unfold QB_TIME_NS_IN_MSEC. assert (0 <= 1000 / hertz <= 1000).
    { split; [apply Z.div_pos; lia|]. apply Z.div_le_upper_bound; nia. }
    zlia.
Qed.

(** ** The debug check *)

(** [timerlist_debug_is_valid_heap] decides the heap order. *)
Theorem debug_check_decides tl :
  tl_wf tl -> timerlist_debug_is_valid_heap tl = true <-> heap_ok tl.
Proof.
  intros Hwf. pose proof (wf_size tl Hwf). pose proof (wf_alloc tl Hwf).
  unfold timerlist_debug_is_valid_heap. rewrite forallb_forall.
  assert (Hchild : forall i c, child_valid tl (ent tl i) c = true <-> (c < size tl -> K tl i <= K tl c)).
  { intros i c. unfold child_valid. zcase; [|by split; [lia|]].
    rewrite cmp_neg. unfold K, ent. rewrite negb_true_iff, Z.ltb_ge. tauto. }
  split.
  - intros Hall j Hj. pose proof (par_range j ltac:(lia)). specialize (Hall (par j)).
    rewrite <- list_elem_of_In, elem_of_seqZ in Hall. specialize (Hall ltac:(lia)).
    apply andb_prop in Hall as [Hl Hr]. fold (ent tl (par j)) in *.
    rewrite index_left in Hl by lia. rewrite index_right in Hr by lia.
    rewrite Hchild in Hl, Hr.
    destruct (proj1 (par_child (par j) j ltac:(lia) ltac:(lia)) eq_refl) as [E|E]; rewrite E at 2; [apply Hl|apply Hr]; lia.
  - intros Hok i Hi. rewrite <- list_elem_of_In, elem_of_seqZ in Hi.
    rewrite index_left, index_right by lia. fold (ent tl i).
    apply andb_true_intro. split; apply Hchild; intros Hc.
    + rewrite <- (proj2 (par_child i (2 * i + 1) ltac:(lia) ltac:(lia)) ltac:(lia)) at 1. apply Hok. lia.
    + rewrite <- (proj2 (par_child i (2 * i + 2) ltac:(lia) ltac:(lia)) ltac:(lia)) at 1. apply Hok. lia.
Qed.

(** * Timer list: a concrete list

    A list with three pending timers, and the theorems of the component at it. *)
Module TlistExamples.

(** The list [timerlist_init] makes satisfies the invariant. *)
Lemma init_inv : tl_inv timerlist_init.
Proof. split; [constructor; cbn; done || lia|intros j Hj; cbn in Hj; lia]. Qed.

(** Timers at 1000, 1001 and 1002 that expire at 70, 30 and 50; their handles
    are kept in cells 1, 2 and 3. *)
Definition three_timers : timerlist :=
  default timerlist_init
    (r ← timerlist_add_duration timerlist_init 11 21 60 1 1000 0 10;
     r ← timerlist_add_duration (fst r) 12 22 20 2 1001 0 10;
     r ← timerlist_add_duration (fst r) 13 23 40 3 1002 0 10;
     Some (fst r)).

Lemma three_timers_inv : tl_inv three_timers.
Proof.
  split.
  - constructor; [vm_compute; split; discriminate|reflexivity|reflexivity|].
    intros i Hi. change (size three_timers) with 3 in Hi.
    assert (i = 0 \/ i = 1 \/ i = 2) as [->|[->| ->]] by lia; eexists; split; vm_compute; reflexivity.
  - intros j Hj. change (size three_timers) with 3 in Hj.
    assert (j = 1 \/ j = 2) as [->| ->] by lia; vm_compute; discriminate.
Qed.

Lemma three_timers_live a : a ∈ live three_timers -> a = 1001 \/ a = 1000 \/ a = 1002.
Proof. change (live three_timers) with [1001; 1000; 1002]. set_solver. Qed.

Lemma three_timers_relative : all_relative three_timers.
Proof. intros a [->|[->| ->]]%three_timers_live; reflexivity. Qed.

(** ** Witnesses *)

Lemma add_duration_correct_witness :
  exists tl', timerlist_add_duration three_timers 14 24 5 4 1003 0 10 = Some (tl', 0) /\
    live tl' ≡ₚ 1003 :: live three_timers.
Proof.
  destruct (add_duration_correct three_timers 14 24 5 4 1003 10) as [(tl' & H & _ & Hl & _) _].
  - exact three_timers_inv.
  - vm_compute. reflexivity.
  - reflexivity.
  - discriminate.
  - exists tl'. split; [exact H|exact Hl].
Defined.

Lemma del_correct_witness :
  exists tl', timerlist_del three_timers 1001 = Some (tl', 0) /\ 1001 :: live tl' ≡ₚ live three_timers.
Proof.
  destruct (del_correct three_timers 1001) as (tl' & H & _ & Hl & _).
  - exact three_timers_inv.
  - change (live three_timers) with [1001; 1000; 1002]. set_solver.
  - exists tl'. split; [exact H|exact Hl].
Defined.

Lemma expire_correct_witness :
  exists tl' fired, timerlist_expire three_timers 60 0 = Some (tl', call_of three_timers <$> fired) /\
    expired three_timers 60 fired tl'.
Proof.
  apply (expire_correct three_timers 60 0); [exact three_timers_inv|exact three_timers_relative].
Defined.

(** The two timers before time 60 go off, the earlier one first. *)
Example expire_two :
  snd <$> timerlist_expire three_timers 60 0 = Some [(12, 22); (13, 23)].
Proof. vm_compute. reflexivity. Qed.

Lemma msec_to_expire_earliest_witness :
  (live three_timers = [] /\ timerlist_msec_duration_to_expire three_timers 20 0 100 = Some (2 ^ 64 - 1)) \/
  exists a, a ∈ live three_timers /\ (forall b, b ∈ live three_timers -> key three_timers a <= key three_timers b) /\
    timerlist_msec_duration_to_expire three_timers 20 0 100 =
      Some (if key three_timers a <? 20 then 0 else (key three_timers a - 20) / QB_TIME_NS_IN_MSEC + 1000 / 100).
Proof.
  apply (msec_to_expire_earliest three_timers 20 0 100);
    [exact three_timers_inv|exact three_timers_relative|lia|lia|].
  intros a [->|[->| ->]]%three_timers_live; reflexivity.
Defined.

Lemma debug_check_decides_witness :
  timerlist_debug_is_valid_heap three_timers = true <-> heap_ok three_timers.
Proof. apply (debug_check_decides three_timers). exact (proj1 three_timers_inv). Defined.

End TlistExamples.
