(* ===== verification/Array.v ===== *)
(** * Dynamic array (lib/array.c)

    An array of bins of 16 elements.  Bins are allocated when an element of
    them is first asked for, and the array of bins grows, so that the address
    of an element never changes.  The address of an element is the pair of its
    bin and its place in the bin.  The model is generic in the element type; a
    zeroed element is its inhabitant.  Which allocations fail is an argument.
    The lock around the growing is left out. *)
From S2P Require Import Prelude.

Definition ARRAY_INDEX_BITS_ELEMS_PER_BIN : Z := 4.
Definition QB_ARRAY_MAX_INDEX_BITS : Z := 16.
Definition QB_ARRAY_MAX_ELEMENTS : Z := Z.shiftl 1 QB_ARRAY_MAX_INDEX_BITS.
Definition ARRAY_INDEX_BITS_BINS : Z := QB_ARRAY_MAX_INDEX_BITS - ARRAY_INDEX_BITS_ELEMS_PER_BIN.
Definition MAX_ELEMENTS_PER_BIN : Z := Z.shiftl 1 ARRAY_INDEX_BITS_ELEMS_PER_BIN.
Definition MAX_BINS : Z := Z.shiftl 1 ARRAY_INDEX_BITS_BINS.
Definition BIN_NUM_GET (idx : Z) : Z := Z.shiftr idx ARRAY_INDEX_BITS_ELEMS_PER_BIN.
Definition ELEM_NUM_GET (idx : Z) : Z := Z.land idx (MAX_ELEMENTS_PER_BIN - 1).

(** Which of the allocations of one call succeed. *)
Record alloc_env := { realloc_ok : bool; calloc_ok : bool }.
Definition alloc_fine : alloc_env := {| realloc_ok := true; calloc_ok := true |}.

Section Array.
Context {E : Type} `{Inhabited E}.

(** [bin = None] is the null pointer; a bin is a null pointer or its elements. *)
Record qb_array := {
  bin : option (list (option (list E)));
  max_elements : Z;
  element_size : Z;
  num_bins : Z;
  autogrow_elements : Z;
  new_bin_cb : bool;
  (** the calls of [new_bin_cb] made so far *)
  bin_cb_calls : list Z;
}.

Definition set_bins (a : qb_array) (b : option (list (option (list E)))) (n : Z) : qb_array :=
  {| bin := b; max_elements := max_elements a; element_size := element_size a;
     num_bins := n; autogrow_elements := autogrow_elements a; new_bin_cb := new_bin_cb a;
     bin_cb_calls := bin_cb_calls a |}.
Definition set_max_elements (a : qb_array) (n : Z) : qb_array :=
  {| bin := bin a; max_elements := n; element_size := element_size a;
     num_bins := num_bins a; autogrow_elements := autogrow_elements a; new_bin_cb := new_bin_cb a;
     bin_cb_calls := bin_cb_calls a |}.
Definition call_new_bin_cb (a : qb_array) (b : Z) : qb_array :=
  {| bin := bin a; max_elements := max_elements a; element_size := element_size a;
     num_bins := num_bins a; autogrow_elements := autogrow_elements a; new_bin_cb := new_bin_cb a;
     bin_cb_calls := if new_bin_cb a then bin_cb_calls a ++ [b] else bin_cb_calls a |}.

(** The bins as a list, empty for the null pointer. *)
Definition bins (a : qb_array) : list (option (list E)) := default [] (bin a).

(** [a->bin[b]]; [None] is a read through the null pointer. *)
Definition bin_read (a : qb_array) (b : Z) : option (option (list E)) :=
  bs ← bin a; Some (zget bs b).

(** The bins a [realloc] of the null pointer leaves uninitialised are null. *)

Definition _grow_bin_array (a : qb_array) (new_bin_size : Z) (env : alloc_env) : qb_array * Z :=
  if realloc_ok env then
    (set_bins a (Some (take (Z.to_nat new_bin_size) (bins a) ++ zrepeat None (new_bin_size - num_bins a)))
       new_bin_size, 0)
  else (set_bins a None (num_bins a), - ENOMEM).

(** [inl errno] or the array; [alloc_array] says whether [calloc] for the
    structure succeeds. *)
Definition qb_array_create_2 (max_elems elem_size autogrow : Z) (alloc_array : bool) (env : alloc_env)
    : Z + qb_array :=
  if QB_ARRAY_MAX_ELEMENTS <? max_elems then inl EINVAL
  else if elem_size <? 1 then inl EINVAL
  else if MAX_ELEMENTS_PER_BIN <? autogrow then inl EINVAL
  else if negb alloc_array then inl ENOMEM
  else
    let a := {| bin := None; max_elements := max_elems; element_size := elem_size;
                num_bins := 0; autogrow_elements := autogrow; new_bin_cb := false;
                bin_cb_calls := [] |} in
    let b := QB_MIN (max_elems / MAX_ELEMENTS_PER_BIN + 1) MAX_BINS in
    let '(a, rc) := _grow_bin_array a b env in
    if rc <? 0 then inl ENOMEM else inr a.

Definition qb_array_create (max_elems elem_size : Z) (alloc_array : bool) (env : alloc_env)
    : Z + qb_array :=
  qb_array_create_2 max_elems elem_size 0 alloc_array env.

Definition qb_array_grow (oa : option qb_array) (max_elems : Z) (env : alloc_env)
    : option qb_array * Z :=
  match oa with
  | None => (None, - EINVAL)
  | Some a =>
    if QB_ARRAY_MAX_ELEMENTS <? max_elems then (Some a, - EINVAL)
    else if max_elems <=? max_elements a then (Some a, 0)
    else
      let a := set_max_elements a max_elems in
      let b := QB_MIN (max_elems / MAX_ELEMENTS_PER_BIN + 1) MAX_BINS in
      if num_bins a <? b then
        if num_bins a <=? b then
          let '(a, rc) := _grow_bin_array a (b + 1) env in (Some a, rc)
        else (Some a, 0)
      else (Some a, 0)
  end.

(** The part of [qb_array_index] after the index is known to be in range: find
    or allocate the bin.  The last component is [*element_out], an address. *)
Definition index_in_bin (a : qb_array) (idx : Z) (env : alloc_env) : option (qb_array * Z * option (Z * Z)) :=
  let b := BIN_NUM_GET (u32 idx) in
  found ← (if num_bins a <=? b then Some None else bin_read a b);
  '(a, rc) ←
    match found with
    | Some _ => Some (a, 0)
    | None =>
      let '(a, rc) := if num_bins a <=? b then _grow_bin_array a (b + 1) env else (a, 0) in
      if rc <? 0 then Some (a, rc)
      else
        cur ← bin_read a b;
        match cur with
        | Some _ => Some (a, 0)
        | None =>
          if calloc_ok env then
            Some (call_new_bin_cb
                    (set_bins a (Some (zset (bins a) b (Some (zrepeat inhabitant MAX_ELEMENTS_PER_BIN))))
                       (num_bins a)) b, 0)
          else Some (a, - ENOMEM)
        end
    end;
  if rc <? 0 then Some (a, rc, None) else Some (a, 0, Some (b, ELEM_NUM_GET idx)).

(** [wants_out] says whether [element_out] is not NULL.  [None] is a read
    through the null pointer. *)
Definition qb_array_index (oa : option qb_array) (idx : Z) (wants_out : bool) (env : alloc_env)
    : option (option qb_array * Z * option (Z * Z)) :=
  match oa with
  | None => Some (None, - EINVAL, None)
  | Some a =>
    if negb wants_out then Some (oa, - EINVAL, None)
    else if idx <? 0 then Some (oa, - ERANGE, None)
    else if max_elements a <=? u32 idx then
      if autogrow_elements a =? 0 then Some (oa, - ERANGE, None)
      else
        let '(oa, rc) := qb_array_grow oa (idx + 1) env in
        match oa with
        | None => Some (oa, rc, None)
        | Some a =>
          if rc =? 0 then '(a, rc, p) ← index_in_bin a idx env; Some (Some a, rc, p)
          else Some (Some a, rc, None)
        end
    else '(a, rc, p) ← index_in_bin a idx env; Some (Some a, rc, p)
  end.

Definition qb_array_new_bin_cb_set (oa : option qb_array) (fn : bool) : option qb_array * Z :=
  match oa with
  | None => (None, - EINVAL)
  | Some a =>
    (Some {| bin := bin a; max_elements := max_elements a; element_size := element_size a;
             num_bins := num_bins a; autogrow_elements := autogrow_elements a; new_bin_cb := fn;
             bin_cb_calls := bin_cb_calls a |}, 0)
  end.

Definition qb_array_num_bins_get (oa : option qb_array) : Z :=
  match oa with None => u64 (- EINVAL) | Some a => num_bins a end.

Definition qb_array_elems_per_bin_get (oa : option qb_array) : Z :=
  match oa with None => u64 (- EINVAL) | Some a => MAX_ELEMENTS_PER_BIN end.

(** The bins freed, in order; [None] is a read through the null pointer. *)
Definition qb_array_free (a : qb_array) : option (list (option (list E))) :=
  if num_bins a =? 0 then Some []
  else bs ← bin a; Some (take (Z.to_nat (num_bins a)) bs).

(** ** Elements through their address

    Reading and writing through the pointer that [qb_array_index] gave; bins
    that a failed [realloc] lost are not followed. *)

Definition elem_read (a : qb_array) (p : Z * Z) : E :=
  match zget (bins a) (fst p) with
  | Some l => zget l (snd p)
  | None => inhabitant
  end.

Definition elem_write (a : qb_array) (p : Z * Z) (x : E) : qb_array :=
  match zget (bins a) (fst p) with
  | Some l => set_bins a (Some (zset (bins a) (fst p) (Some (zset l (snd p) x)))) (num_bins a)
  | None => a
  end.
End Array.
Arguments qb_array E : clear implicits.
