(* ===== verification/ArrayTheorems.v ===== *)
(** * Dynamic array: correctness

    Growing and indexing never change the value at any index nor move an
    element: the array behaves like a total map from indices to elements, zero
    where nothing was stored. *)
From S2P Require Import Prelude Array.

Section Theorems.
Context {E : Type} `{Inhabited E}.
Implicit Types (a : qb_array E).

(** ** Invariant and contents *)

Record arr_wf a : Prop := {
  awf_bin : is_Some (bin a);
  awf_len : zlen (bins a) = num_bins a;
  awf_max : 0 <= max_elements a <= QB_ARRAY_MAX_ELEMENTS;
  awf_bins : forall b l, 0 <= b -> zget (bins a) b = Some l -> zlen l = MAX_ELEMENTS_PER_BIN;
}.

(** The value at index [i]. *)
Definition content a (i : Z) : E := elem_read a (i / 16, i mod 16).

Lemma bin_num idx : 0 <= idx < 2 ^ 31 -> BIN_NUM_GET (u32 idx) = idx / 16.
Proof.
  intros. unfold BIN_NUM_GET, ARRAY_INDEX_BITS_ELEMS_PER_BIN. rewrite u32_small by lia.
  by rewrite Z.shiftr_div_pow2 by lia.
Qed.

Lemma elem_num idx : ELEM_NUM_GET idx = idx mod 16.
Proof. unfold ELEM_NUM_GET. change (MAX_ELEMENTS_PER_BIN - 1) with (Z.ones 4). by rewrite Z.land_ones by lia. Qed.

(** Reading past the bins finds no bin. *)
Lemma zget_past {A} (l : list (option A)) i : zlen l <= i -> zget l i = None.
Proof. intros. unfold zget, zlen in *. rewrite list_lookup_total_alt, lookup_ge_None_2 by lia. done. Qed.

Lemma zget_bins_app {A} (l : list (option A)) n i : 0 <= i -> zget (l ++ zrepeat None n) i = zget l i.
Proof.
  intros Hi. destruct (Z_lt_le_dec i (zlen l)).
  - unfold zget, zlen in *. apply lookup_total_app_l. lia.
  - rewrite (zget_past l) by done. unfold zget, zlen in *. rewrite lookup_total_app_r by lia.
    unfold zrepeat. rewrite list_lookup_total_alt. destruct (replicate _ _ !! _) eqn:R; [|done].
    by apply lookup_replicate in R as [-> _].
Qed.

Lemma grow_bins_ok a n env :
  arr_wf a -> num_bins a <= n -> realloc_ok env = true ->
  exists a', _grow_bin_array a n env = (a', 0) /\ arr_wf a' /\ num_bins a' = n /\
    max_elements a' = max_elements a /\ autogrow_elements a' = autogrow_elements a /\
    (forall b, 0 <= b -> zget (bins a') b = zget (bins a) b).
Proof.
  intros Hwf Hn Hr. unfold _grow_bin_array. rewrite Hr. eexists. split; [reflexivity|].
  pose proof Hwf as [[l Hl] Hlen Hmax Hb]. pose proof (zlen_nonneg (bins a)).
  assert (take (Z.to_nat n) (bins a) = bins a) as E1 by (apply take_ge; unfold zlen in *; lia).
  assert (Hget : forall b, 0 <= b ->
    zget (take (Z.to_nat n) (bins a) ++ zrepeat None (n - num_bins a)) b = zget (bins a) b).
  { intros b Hb0. rewrite E1. by apply zget_bins_app. }
  split; [|by split_and!]. constructor; cbn; [eauto| |done|].
  - rewrite E1, zlen_app, zlen_zrepeat by lia. lia.
  - intros b l' Hb0. change (bins (set_bins _ (Some ?k) _)) with k. rewrite Hget by done. by apply Hb.
Qed.

(** ** Growing *)

Lemma content_bins a a' i :
  0 <= i -> (forall b, 0 <= b -> zget (bins a') b = zget (bins a) b) -> content a' i = content a i.
Proof. intros Hi Hb. unfold content, elem_read. cbn [fst snd]. rewrite Hb; [done|]. apply Z.div_pos; lia. Qed.

Lemma grow_ok a m env :
  arr_wf a -> 0 <= m <= QB_ARRAY_MAX_ELEMENTS -> realloc_ok env = true ->
  exists a', qb_array_grow (Some a) m env = (Some a', 0) /\ arr_wf a' /\
    max_elements a' = Z.max m (max_elements a) /\ autogrow_elements a' = autogrow_elements a /\
    (forall b, 0 <= b -> zget (bins a') b = zget (bins a) b).
Proof.
  intros Hwf Hm Hr. unfold qb_array_grow. destruct (Z.ltb_spec QB_ARRAY_MAX_ELEMENTS m); [lia|].
  destruct (Z.leb_spec m (max_elements a)).
  { exists a. split_and!; try done. lia. }
  set (a1 := set_max_elements a m).
  assert (Hwf1 : arr_wf a1) by (destruct Hwf; by constructor).
  assert (Hd : a1 = a1) by done. set (b := QB_MIN _ _).
  destruct (Z.ltb_spec (num_bins a1) b).
  - destruct (Z.leb_spec (num_bins a1) b); [|lia].
    destruct (grow_bins_ok a1 (b + 1) env) as (a' & -> & Hwf' & _ & Hmx & Hau & Hb); [done|lia|done|].
    exists a'. split_and!; try done. rewrite Hmx. cbn. lia.
  - exists a1. split_and!; try done. cbn. lia.
Qed.

(** ** Indexing *)

(** What a successful index leaves: an allocated bin for the element. *)
Record indexed a idx a' : Prop := {
  ix_wf : arr_wf a';
  ix_auto : autogrow_elements a' = autogrow_elements a;
  ix_content : forall i, 0 <= i -> content a' i = content a i;
  ix_keep : forall b, 0 <= b -> is_Some (zget (bins a) b) -> zget (bins a') b = zget (bins a) b;
  ix_alloc : is_Some (zget (bins a') (idx / 16));
}.

Lemma bin_read_wf a b : arr_wf a -> bin_read a b = Some (zget (bins a) b).
Proof. intros Hwf. destruct (awf_bin a Hwf) as [bs Hbs]. unfold bin_read, bins. by rewrite Hbs. Qed.

Lemma index_in_bin_ok a idx env :
  arr_wf a -> 0 <= idx < QB_ARRAY_MAX_ELEMENTS -> realloc_ok env = true -> calloc_ok env = true ->
  exists a', index_in_bin a idx env = Some (a', 0, Some (idx / 16, idx mod 16)) /\ indexed a idx a' /\
    max_elements a' = max_elements a.
Proof.
  intros Hwf Hi Hr Hc. unfold index_in_bin. change QB_ARRAY_MAX_ELEMENTS with 65536 in Hi.
  rewrite bin_num, elem_num by lia.
  assert (0 <= idx / 16) by zlia.
  assert (Hf : (if num_bins a <=? idx / 16 then Some None else bin_read a (idx / 16)) = Some (zget (bins a) (idx / 16))).
  { rewrite bin_read_wf by done. zcase; [|done]. rewrite zget_past; [done|]. by rewrite (awf_len a Hwf). }
  rewrite Hf. clear Hf. cbn [mbind option_bind].
  destruct (zget (bins a) (idx / 16)) as [l0|] eqn:Hf.
  { exists a. split; [done|]. split; [|done]. by constructor; try rewrite Hf. }
  set (g := if num_bins a <=? idx / 16 then _ else _).
  assert (Hg : exists a1, g = (a1, 0) /\ arr_wf a1 /\ max_elements a1 = max_elements a /\
    autogrow_elements a1 = autogrow_elements a /\ idx / 16 < num_bins a1 /\
    (forall b, 0 <= b -> zget (bins a1) b = zget (bins a) b)).
  { unfold g. zcase; [|exists a; split_and!; done || lia].
    destruct (grow_bins_ok a (idx / 16 + 1) env) as (a1 & -> & Hwf1 & Hn & Hmx & Hau & Hb); [done|lia|done|].
    exists a1. split_and!; done || lia. }
  destruct Hg as (a1 & -> & Hwf1 & Hmx & Hau & Hlt & Hb). cbn [Z.ltb Z.compare].
  rewrite bin_read_wf by done. cbn [mbind option_bind].
  destruct (zget (bins a1) (idx / 16)) as [l|] eqn:Hbin.
  - exists a1. split; [done|]. split; [|done]. constructor; [done|done| |auto|rewrite Hbin; eauto].
    intros i Hi0. by apply content_bins.
  - rewrite Hc. set (a2 := call_new_bin_cb _ _). exists a2. split; [done|].
    pose proof Hwf1 as [Hbn Hlen Hmax Hbs].
    assert (Hget : forall b, 0 <= b -> zget (bins a2) b =
      if decide (b = idx / 16) then Some (zrepeat inhabitant 16) else zget (bins a) b).
    { intros b Hb0. change (bins a2) with (zset (bins a1) (idx / 16) (Some (zrepeat (A := E) inhabitant 16))).
      case_decide; [subst; apply zget_zset_eq; lia|]. rewrite zget_zset_ne by lia. by apply Hb. }
    split; [constructor|done].
    + constructor; [cbn; eauto|cbn; by rewrite zlen_zset|done|].
      intros b l Hb0. rewrite Hget by done.
      case_decide; [intros; simplify_eq; by apply zlen_zrepeat|].
      rewrite <- Hb by done. by apply Hbs.
    + done.
    + intros i Hi0. unfold content, elem_read. cbn [fst snd].
      rewrite Hget by zlia. case_decide as E1; [|done].
      rewrite <- (Hb (i / 16)), E1, Hbin by zlia. apply zget_zrepeat. zlia.
    + intros b Hb0 [l Hl]. rewrite Hget by done. case_decide; [|done]. subst. rewrite Hb, Hl in Hbin; done.
    + rewrite Hget by done. rewrite decide_True by done. eauto.
Qed.

Lemma index_ok a idx env :
  arr_wf a -> 0 <= idx < QB_ARRAY_MAX_ELEMENTS -> realloc_ok env = true -> calloc_ok env = true ->
  idx < max_elements a \/ autogrow_elements a <> 0 ->
  exists a', qb_array_index (Some a) idx true env = Some (Some a', 0, Some (idx / 16, idx mod 16)) /\
    indexed a idx a' /\ max_elements a' = Z.max (idx + 1) (max_elements a).
Proof.
  intros Hwf Hi Hr Hc Hor. change QB_ARRAY_MAX_ELEMENTS with 65536 in Hi.
  unfold qb_array_index. cbn [negb]. destruct (Z.ltb_spec idx 0); [lia|].
  rewrite u32_small by lia. destruct (Z.leb_spec (max_elements a) idx).
  - destruct Hor; [lia|]. destruct (Z.eqb_spec (autogrow_elements a) 0); [done|].
    destruct (grow_ok a (idx + 1) env) as (a1 & -> & Hwf1 & Hm1 & Ha1 & Hb1);
      [done|change QB_ARRAY_MAX_ELEMENTS with 65536; lia|done|].
    rewrite Z.eqb_refl. destruct (index_in_bin_ok a1 idx env) as (a' & -> & Hx & Hm'); [done|done|done|done|].
    exists a'. split; [done|]. split; [|lia]. destruct Hx. constructor; [done|congruence| | |done].
    + intros i Hi0. rewrite ix_content0 by done. by apply content_bins.
    + intros b Hb0 Hs. rewrite <- Hb1 in Hs |- * by done. by apply ix_keep0.
  - destruct (index_in_bin_ok a idx env) as (a' & -> & Hx & Hm'); [done|done|done|done|].
    exists a'. split; [done|]. split; [done|lia].
Qed.

(** Indexing an element in range succeeds, keeps the invariant and the
    value at every index, and returns an address that depends on the index
    alone; an autogrow array also takes any index below the maximum, growing to
    hold it. *)
Theorem index_correct a idx env :
  arr_wf a -> 0 <= idx < QB_ARRAY_MAX_ELEMENTS -> realloc_ok env = true -> calloc_ok env = true ->
  idx < max_elements a \/ autogrow_elements a <> 0 ->
  exists a', qb_array_index (Some a) idx true env = Some (Some a', 0, Some (idx / 16, idx mod 16)) /\
    indexed a idx a' /\ max_elements a' = Z.max (idx + 1) (max_elements a).
Proof. apply index_ok. Qed.

(** An element whose bin is allocated is found without any allocation. *)
Lemma index_allocated a idx env :
  arr_wf a -> 0 <= idx < max_elements a -> is_Some (zget (bins a) (idx / 16)) ->
  qb_array_index (Some a) idx true env = Some (Some a, 0, Some (idx / 16, idx mod 16)).
Proof.
  intros Hwf Hi [l Hl]. pose proof (awf_max a Hwf) as Hm. change QB_ARRAY_MAX_ELEMENTS with 65536 in Hm.
  unfold qb_array_index. cbn [negb]. destruct (Z.ltb_spec idx 0); [lia|].
  rewrite u32_small by lia. destruct (Z.leb_spec (max_elements a) idx); [lia|].
  unfold index_in_bin. rewrite bin_num, elem_num by lia. rewrite bin_read_wf, Hl by done.
  destruct (Z.leb_spec (num_bins a) (idx / 16)); [|done].
  rewrite zget_past in Hl; [done|]. rewrite (awf_len a Hwf). lia.
Qed.

(** An index that succeeds does so whatever else could have been allocated. *)
Lemma grow_env a m env a' : qb_array_grow (Some a) m env = (Some a', 0) -> qb_array_grow (Some a) m alloc_fine = (Some a', 0).
Proof.
  unfold qb_array_grow. repeat (case_match; [by intros [= <-]|]).
  set (a1 := set_max_elements a m). set (b := QB_MIN _ _). destruct (num_bins a1 <? b); [|done]. destruct (num_bins a1 <=? b); [|done].
  unfold _grow_bin_array. cbn [realloc_ok alloc_fine]. by destruct (realloc_ok env).
Qed.

Lemma index_in_bin_env a idx env a' p :
  index_in_bin a idx env = Some (a', 0, p) -> index_in_bin a idx alloc_fine = Some (a', 0, p).
Proof.
  unfold index_in_bin, _grow_bin_array. cbn [realloc_ok calloc_ok alloc_fine].
  destruct (if num_bins a <=? BIN_NUM_GET (u32 idx) then Some None else bin_read a _) as [[l|]|]; cbn [mbind option_bind]; [done| |done].
  destruct (num_bins a <=? _); [destruct (realloc_ok env)|]; cbn [Z.ltb Z.compare Z.opp ENOMEM mbind option_bind]; try done.
  - destruct (bin_read _ _) as [[l|]|]; cbn [mbind option_bind]; [done| |done]. by destruct (calloc_ok env).
  - destruct (bin_read _ _) as [[l|]|]; cbn [mbind option_bind]; [done| |done]. by destruct (calloc_ok env).
Qed.

Lemma index_env a idx env a' p :
  qb_array_index (Some a) idx true env = Some (Some a', 0, p) -> qb_array_index (Some a) idx true alloc_fine = Some (Some a', 0, p).
Proof.
  unfold qb_array_index. cbn [negb]. destruct (idx <? 0); [done|].
  destruct (max_elements a <=? u32 idx); [destruct (autogrow_elements a =? 0); [done|]|].
  - destruct (qb_array_grow (Some a) (idx + 1) env) as [[a1|] rc] eqn:Eg; [|done]. destruct (Z.eqb_spec rc 0) as [->|]; [|by intros [= _ ->]].
    rewrite (grow_env _ _ _ _ Eg). cbn [Z.eqb].
    destruct (index_in_bin a1 idx env) as [[[a2 rc] q]|] eqn:Ei; cbn [mbind option_bind]; [|done]. intros [= <- -> <-].
    by rewrite (index_in_bin_env _ _ _ _ _ Ei).
  - destruct (index_in_bin a idx env) as [[[a2 rc] q]|] eqn:Ei; cbn [mbind option_bind]; [|done]. intros [= <- -> <-].
    by rewrite (index_in_bin_env _ _ _ _ _ Ei).
Qed.

(** The callback for a new bin is called when the bin is allocated, and no other
    bin changes. *)
Definition bin_called a (b : Z) a' : Prop :=
  new_bin_cb a' = new_bin_cb a /\
  bin_cb_calls a' = bin_cb_calls a ++ (if new_bin_cb a then match zget (bins a) b with Some _ => [] | None => [b] end else []) /\
  forall b', 0 <= b' -> b' <> b -> zget (bins a') b' = zget (bins a) b'.

Lemma grow_bins_calls a n env a' rc :
  _grow_bin_array a n env = (a', rc) -> new_bin_cb a' = new_bin_cb a /\ bin_cb_calls a' = bin_cb_calls a.
Proof. unfold _grow_bin_array. destruct (realloc_ok env); by intros [= <- _]. Qed.

Lemma grow_calls a m env a' rc :
  qb_array_grow (Some a) m env = (Some a', rc) -> new_bin_cb a' = new_bin_cb a /\ bin_cb_calls a' = bin_cb_calls a.
Proof.
  unfold qb_array_grow. repeat (case_match; [by intros [= <-]|]).
  set (a1 := set_max_elements a m). set (b := QB_MIN _ _). destruct (num_bins a1 <? b); [|by intros [= <- _]].
  destruct (num_bins a1 <=? b); [|by intros [= <- _]].
  destruct (_grow_bin_array a1 (b + 1) env) as [a2 rc2] eqn:E2. intros [= <- _]. by apply grow_bins_calls in E2.
Qed.

Lemma index_in_bin_calls a idx a' p :
  arr_wf a -> 0 <= idx < QB_ARRAY_MAX_ELEMENTS -> index_in_bin a idx alloc_fine = Some (a', 0, p) -> bin_called a (idx / 16) a'.
Proof.
  intros Hwf Hi. change QB_ARRAY_MAX_ELEMENTS with 65536 in Hi. unfold index_in_bin. rewrite bin_num, elem_num by lia.
  assert (0 <= idx / 16) by zlia.
  assert (Hf : (if num_bins a <=? idx / 16 then Some None else bin_read a (idx / 16)) = Some (zget (bins a) (idx / 16))).
  { rewrite bin_read_wf by done. zcase; [|done]. rewrite zget_past; [done|]. by rewrite (awf_len a Hwf). }
  rewrite Hf. clear Hf. cbn [mbind option_bind]. unfold bin_called. destruct (zget (bins a) (idx / 16)) as [l0|] eqn:Hf.
  { intros [= <- _]. split; [done|]. split; [|done]. destruct (new_bin_cb a); by rewrite app_nil_r. }
  destruct (num_bins a <=? idx / 16) eqn:En.
  - destruct (grow_bins_ok a (idx / 16 + 1) alloc_fine) as (a1 & Eg & Hwf1 & Hn & _ & _ & Hb); [done|lia|done|].
    pose proof (grow_bins_calls _ _ _ _ _ Eg) as [Hcb Hcalls]. rewrite Eg. cbn [Z.ltb Z.compare].
    rewrite bin_read_wf by done. rewrite Hb, Hf by done. cbn [mbind option_bind calloc_ok alloc_fine Z.ltb Z.compare]. intros [= <- _].
    cbn [new_bin_cb bin_cb_calls call_new_bin_cb set_bins]. rewrite Hcb, Hcalls. split; [done|].
    split; [destruct (new_bin_cb a); [done|by rewrite app_nil_r]|]. intros b' Hb' Hne.
    change (bins (call_new_bin_cb _ _)) with (zset (bins a1) (idx / 16) (Some (zrepeat (A := E) inhabitant MAX_ELEMENTS_PER_BIN))).
    rewrite zget_zset_ne by lia. by apply Hb.
  - cbn [Z.ltb Z.compare]. rewrite bin_read_wf, Hf by done. cbn [mbind option_bind calloc_ok alloc_fine Z.ltb Z.compare]. intros [= <- _].
    split; [done|]. cbn [new_bin_cb bin_cb_calls call_new_bin_cb set_bins].
    split; [destruct (new_bin_cb a); [done|by rewrite app_nil_r]|]. intros b' Hb' Hne.
    change (bins (call_new_bin_cb _ _)) with (zset (bins a) (idx / 16) (Some (zrepeat (A := E) inhabitant MAX_ELEMENTS_PER_BIN))).
    by rewrite zget_zset_ne by lia.
Qed.

Lemma index_calls a idx env a' p :
  arr_wf a -> 0 <= idx < QB_ARRAY_MAX_ELEMENTS -> qb_array_index (Some a) idx true env = Some (Some a', 0, p) ->
  bin_called a (idx / 16) a'.
Proof.
  intros Hwf Hi E1%index_env. revert E1. change QB_ARRAY_MAX_ELEMENTS with 65536 in Hi. unfold qb_array_index. cbn [negb].
  destruct (Z.ltb_spec idx 0); [lia|]. rewrite u32_small by lia. destruct (max_elements a <=? idx); [destruct (autogrow_elements a =? 0); [done|]|].
  - destruct (grow_ok a (idx + 1) alloc_fine) as (a1 & Eg & Hwf1 & _ & _ & Hb); [done|change QB_ARRAY_MAX_ELEMENTS with 65536; lia|done|].
    rewrite Eg. cbn [Z.eqb]. destruct (index_in_bin a1 idx alloc_fine) as [[[a2 rc] q]|] eqn:Ei; cbn [mbind option_bind]; [|done].
    intros [= <- -> _]. apply index_in_bin_calls in Ei as (H1 & H2 & H3); [|done|done]. apply grow_calls in Eg as [Hc1 Hc2].
    assert (0 <= idx / 16) by zlia. rewrite Hb, Hc1, Hc2 in H2 by done. unfold bin_called. split_and!; [congruence|done|].
    intros b' Hb0 Hne. rewrite H3 by done. by apply Hb.
  - destruct (index_in_bin a idx alloc_fine) as [[[a2 rc] q]|] eqn:Ei; cbn [mbind option_bind]; [|done].
    intros [= <- -> _]. by apply index_in_bin_calls in Ei.
Qed.

(** All about an index that succeeded on an array that grows. *)
Lemma index_inv a idx env oa p :
  arr_wf a -> autogrow_elements a <> 0 -> idx < 2 ^ 31 -> qb_array_index (Some a) idx true env = Some (oa, 0, p) ->
  exists a', oa = Some a' /\ 0 <= idx < QB_ARRAY_MAX_ELEMENTS /\ p = Some (idx / 16, idx mod 16) /\ indexed a idx a' /\
    bin_called a (idx / 16) a' /\ idx < max_elements a'.
Proof.
  intros Hwf Hauto H31 E1. pose proof (awf_max a Hwf) as Hm.
  assert (Hgrow : forall m, exists a' rc, qb_array_grow (Some a) m env = (Some a', rc)).
  { intros m. unfold qb_array_grow, _grow_bin_array. repeat case_match; simplify_eq; eauto. }
  assert (Hi : 0 <= idx < QB_ARRAY_MAX_ELEMENTS).
  { revert E1. unfold qb_array_index. cbn [negb]. destruct (Z.ltb_spec idx 0); [done|]. rewrite u32_small by lia.
    destruct (Z.leb_spec (max_elements a) idx); [|lia]. destruct (autogrow_elements a =? 0); [done|]. unfold qb_array_grow.
    destruct (Z.ltb_spec QB_ARRAY_MAX_ELEMENTS (idx + 1)); [done|]. lia. }
  assert (Hoa : exists a', oa = Some a').
  { revert E1. unfold qb_array_index. cbn [negb]. destruct (idx <? 0); [done|].
    destruct (max_elements a <=? u32 idx); [destruct (autogrow_elements a =? 0); [done|]|].
    - destruct (Hgrow (idx + 1)) as (a1 & rc & ->). destruct (rc =? 0); [|by intros [= <- _ _]; eauto].
      destruct (index_in_bin _ _ _) as [[[a2 ?] ?]|]; [|done]. intros [= <- _ _]. eauto.
    - destruct (index_in_bin _ _ _) as [[[a2 ?] ?]|]; [|done]. intros [= <- _ _]. eauto. }
  destruct Hoa as [a' ->]. pose proof (index_calls _ _ _ _ _ Hwf Hi E1) as Hcalls. apply index_env in E1.
  destruct (index_ok a idx alloc_fine) as (a2 & E2 & Hx & Hmx); [done|done|done|done|by right|].
  rewrite E2 in E1. injection E1 as <- <-. exists a2. split_and!; try done; lia.
Qed.

(** A new array is well formed and holds zeroed elements only. *)
Lemma create_ok max_elems elem_size autogrow env a :
  0 <= max_elems -> qb_array_create_2 max_elems elem_size autogrow true env = inr a ->
  arr_wf a /\ max_elements a = max_elems /\ (forall b, 0 <= b -> zget (bins a) b = None) /\
  (forall i, 0 <= i -> content a i = inhabitant).
Proof.
  intros H0. unfold qb_array_create_2. zcase; [done|]. do 2 (zcase; [done|]). cbn [negb].
  set (b := QB_MIN _ _). unfold _grow_bin_array. destruct (realloc_ok env); [|done].
  intros E1. cbn in E1. injection E1 as <-. rewrite take_nil. cbn [app].
  assert (0 <= b).
  { unfold b. rewrite QB_MIN_min. change MAX_BINS with 4096. change MAX_ELEMENTS_PER_BIN with 16. zlia. }
  assert (Hb : forall k, 0 <= k -> zget (zrepeat (None : option (list E)) (b - 0)) k = None).
  { intros k Hk. destruct (Z_lt_le_dec k b); [by apply zget_zrepeat; lia|]. apply zget_past. rewrite zlen_zrepeat; lia. }
  split_and!; try done.
  - constructor; cbn; [eauto|rewrite zlen_zrepeat; lia|lia|].
    intros k l Hk E1. change (bins _) with (zrepeat (None : option (list E)) (b - 0)) in E1. by rewrite Hb in E1.
  - intros i Hi. unfold content, elem_read. cbn [fst snd].
    change (bins _) with (zrepeat (None : option (list E)) (b - 0)). by rewrite Hb by zlia.
Qed.

(** The value read back through an address. *)
Lemma content_elem_write a idx x i :
  arr_wf a -> is_Some (zget (bins a) (idx / 16)) -> 0 <= idx -> 0 <= i ->
  arr_wf (elem_write a (idx / 16, idx mod 16) x) /\
  content (elem_write a (idx / 16, idx mod 16) x) i = if decide (i = idx) then x else content a i.
Proof.
  intros Hwf [l Hl] Hidx Hi. pose proof Hwf as [Hbn Hlen Hmax Hbs].
  unfold elem_write. cbn [fst snd]. rewrite Hl. set (a2 := set_bins _ _ _).
  assert (0 <= idx / 16 < num_bins a).
  { split; [zlia|]. destruct (Z_lt_le_dec (idx / 16) (num_bins a)); [done|].
    rewrite zget_past in Hl by lia. done. }
  assert (Hll : zlen l = 16) by (apply (Hbs (idx / 16)); [lia|done]).
  assert (Hget : forall b, 0 <= b -> zget (bins a2) b =
    if decide (b = idx / 16) then Some (zset l (idx mod 16) x) else zget (bins a) b).
  { intros b Hb0. change (bins a2) with (zset (bins a) (idx / 16) (Some (zset l (idx mod 16) x))).
    case_decide; [subst; apply zget_zset_eq; lia|]. by rewrite zget_zset_ne by lia. }
  split.
  - constructor; [cbn; eauto|cbn; by rewrite zlen_zset|done|].
    intros b l' Hb0. rewrite Hget by done. case_decide; [intros; simplify_eq; by rewrite zlen_zset|]. by apply Hbs.
  - unfold content, elem_read. cbn [fst snd]. rewrite Hget by zlia.
    destruct (decide (i = idx)) as [->|Hne].
    + rewrite decide_True by done. apply zget_zset_eq. zlia.
    + case_decide as E1; [|done]. rewrite E1, Hl. apply zget_zset_ne; zlia.
Qed.

(** Indices that the array does not have are refused with [ERANGE] or,
    past the maximum of an autogrow array, [EINVAL], and the array is unchanged. *)
Theorem index_errors a idx env :
  arr_wf a ->
  (idx < 0 -> qb_array_index (Some a) idx true env = Some (Some a, - ERANGE, None)) /\
  (max_elements a <= idx < 2 ^ 31 -> autogrow_elements a = 0 ->
     qb_array_index (Some a) idx true env = Some (Some a, - ERANGE, None)) /\
  (QB_ARRAY_MAX_ELEMENTS <= idx < 2 ^ 31 -> autogrow_elements a <> 0 ->
     qb_array_index (Some a) idx true env = Some (Some a, - EINVAL, None)) /\
  qb_array_index (None : option (qb_array E)) idx true env = Some (None, - EINVAL, None) /\
  qb_array_index (Some a) idx false env = Some (Some a, - EINVAL, None).
Proof.
  intros Hwf. pose proof (awf_max a Hwf). unfold qb_array_index. cbn [negb]. split_and!; try done.
  - intros. by destruct (Z.ltb_spec idx 0); [|lia].
  - intros ? Ha. destruct (Z.ltb_spec idx 0); [lia|]. rewrite u32_small by lia.
    destruct (Z.leb_spec (max_elements a) idx); [|lia]. by rewrite Ha.
  - intros ? Ha. destruct (Z.ltb_spec idx 0); [lia|]. rewrite u32_small by lia.
    destruct (Z.leb_spec (max_elements a) idx); [|lia].
    destruct (Z.eqb_spec (autogrow_elements a) 0); [done|]. unfold qb_array_grow.
    by destruct (Z.ltb_spec QB_ARRAY_MAX_ELEMENTS (idx + 1)); [|lia].
Qed.

(** When [realloc] fails while the array grows, the pointer to the bins is
    overwritten with NULL but the bin count stays: every element stored before
    is lost, and the next [qb_array_index] of any of them reads through the null
    pointer. *)
Theorem grow_failure_loses_bins a m env :
  arr_wf a -> 0 < num_bins a -> realloc_ok env = false ->
  max_elements a < m <= QB_ARRAY_MAX_ELEMENTS -> num_bins a < QB_MIN (m / 16 + 1) MAX_BINS ->
  exists a', qb_array_grow (Some a) m env = (Some a', - ENOMEM) /\
    bin a' = None /\ num_bins a' = num_bins a /\ max_elements a' = m /\
    forall idx env', 0 <= idx < max_elements a -> idx < 16 * num_bins a ->
      qb_array_index (Some a') idx true env' = None.
Proof.
  intros Hwf Hn Hr Hm Hb. unfold qb_array_grow.
  destruct (Z.ltb_spec QB_ARRAY_MAX_ELEMENTS m); [lia|]. destruct (Z.leb_spec m (max_elements a)); [lia|].
  change MAX_ELEMENTS_PER_BIN with 16. cbn [num_bins set_max_elements].
  destruct (Z.ltb_spec (num_bins a) (QB_MIN (m / 16 + 1) MAX_BINS)); [|lia].
  destruct (Z.leb_spec (num_bins a) (QB_MIN (m / 16 + 1) MAX_BINS)); [|lia].
  unfold _grow_bin_array. rewrite Hr. eexists. split; [reflexivity|]. split_and!; [done..|].
  intros idx env' Hi Hn'. change QB_ARRAY_MAX_ELEMENTS with 65536 in *. unfold qb_array_index. cbn [negb].
  destruct (Z.ltb_spec idx 0); [lia|]. rewrite u32_small by lia. cbn [max_elements set_bins set_max_elements].
  destruct (Z.leb_spec m idx); [lia|]. unfold index_in_bin. rewrite bin_num by lia. cbn.
  by rewrite (proj2 (Z.leb_gt (num_bins a) (idx / 16))) by zlia.
Qed.
End Theorems.

(** * Dynamic array: a concrete array

    An array of numbers with room for 20 elements, and the theorems of the
    component at it. *)
Module ArrayExamples.

Definition no_array : qb_array Z :=
  {| bin := None; max_elements := 0; element_size := 0; num_bins := 0; autogrow_elements := 0;
     new_bin_cb := false; bin_cb_calls := [] |}.

(** The array made by [qb_array_create_2 20 4 autogrow]. *)
Definition twenty (autogrow : Z) : qb_array Z :=
  match qb_array_create_2 20 4 autogrow true alloc_fine with inr a => a | inl _ => no_array end.

Lemma twenty_wf g : g = 0 \/ g = 16 -> arr_wf (twenty g).
Proof.
  intros [->| ->].
  all: (constructor; [eexists; reflexivity|reflexivity|vm_compute; split; discriminate|]).
  all: intros b l Hb.
  all: change (bins (twenty _)) with [None : option (list Z); None].
  all: destruct (Z_lt_le_dec b 2); [|by rewrite zget_past by done].
  all: by assert (b = 0 \/ b = 1) as [->| ->] by lia.
Qed.

Lemma index_correct_witness :
  exists a', qb_array_index (Some (twenty 16)) 100 true alloc_fine = Some (Some a', 0, Some (6, 4)) /\
    indexed (twenty 16) 100 a' /\ max_elements a' = 101.
Proof.
  destruct (index_correct (twenty 16) 100 alloc_fine) as (a' & H & Hx & Hm).
  - apply twenty_wf. by right.
  - vm_compute. split; [discriminate|reflexivity].
  - reflexivity.
  - reflexivity.
  - right. discriminate.
  - exists a'. split; [exact H|]. split; [exact Hx|exact Hm].
Defined.

Lemma index_errors_witness :
  qb_array_index (Some (twenty 0)) 20 true alloc_fine = Some (Some (twenty 0), - ERANGE, None).
Proof.
  destruct (index_errors (twenty 0) 20 alloc_fine) as (_ & H & _).
  - apply twenty_wf. by left.
  - apply H; [vm_compute; split; [discriminate|reflexivity]|reflexivity].
Defined.

Lemma grow_failure_loses_bins_witness :
  exists a', qb_array_grow (Some (twenty 0)) 100 {| realloc_ok := false; calloc_ok := true |} =
      (Some a', - ENOMEM) /\
    bin a' = None /\ num_bins a' = 2 /\ max_elements a' = 100 /\
    forall idx env', 0 <= idx < 20 -> idx < 16 * 2 -> qb_array_index (Some a') idx true env' = None.
Proof.
  apply (grow_failure_loses_bins (twenty 0) 100 {| realloc_ok := false; calloc_ok := true |}).
  - apply twenty_wf. by left.
  - reflexivity.
  - reflexivity.
  - vm_compute. split; [reflexivity|discriminate].
  - reflexivity.
Defined.

End ArrayExamples.
