(* ===== verification/Hdb.v ===== *)
(** * Handle database (lib/hdb.c)

    Reference counted objects behind 64-bit handles: the low half of a handle
    is the slot of the object in a dynamic array, the high half a random check
    value.  Pointers are [Z], with 0 for NULL.  The results of the allocations
    and of [random] are arguments; the calls of the destructor and of [free] are
    results.  The atomic operations are their sequential effect.  [None] is a read
    through a null pointer in the array. *)
From S2P Require Import Prelude Array.

Inductive QB_HDB_HANDLE_STATE :=
  | QB_HDB_HANDLE_STATE_EMPTY
  | QB_HDB_HANDLE_STATE_PENDINGREMOVAL
  | QB_HDB_HANDLE_STATE_ACTIVE.

#[export] Instance hdb_state_eq_dec : EqDecision QB_HDB_HANDLE_STATE.
Proof. solve_decision. Defined.

Record qb_hdb_handle := {
  state : QB_HDB_HANDLE_STATE;
  instance : Z;
  check : Z;
  ref_count : Z;
}.

(** A zeroed entry. *)
Definition empty_handle : qb_hdb_handle :=
  {| state := QB_HDB_HANDLE_STATE_EMPTY; instance := 0; check := 0; ref_count := 0 |}.
#[export] Instance qb_hdb_handle_inhabited : Inhabited qb_hdb_handle := populate empty_handle.

Definition with_ref_count (e : qb_hdb_handle) (n : Z) : qb_hdb_handle :=
  {| state := state e; instance := instance e; check := check e; ref_count := n |}.
Definition with_state (e : qb_hdb_handle) (s : QB_HDB_HANDLE_STATE) : qb_hdb_handle :=
  {| state := s; instance := instance e; check := check e; ref_count := ref_count e |}.

(** [destructor] says whether one is set. *)
Record qb_hdb := {
  handle_count : Z;
  handles : option (qb_array qb_hdb_handle);
  iterator : Z;
  destructor : bool;
  first_run : bool;
}.

Definition with_handles (h : qb_hdb) (a : option (qb_array qb_hdb_handle)) : qb_hdb :=
  {| handle_count := handle_count h; handles := a; iterator := iterator h;
     destructor := destructor h; first_run := first_run h |}.
Definition with_handle_count (h : qb_hdb) (n : Z) : qb_hdb :=
  {| handle_count := n; handles := handles h; iterator := iterator h;
     destructor := destructor h; first_run := first_run h |}.
Definition with_iterator (h : qb_hdb) (n : Z) : qb_hdb :=
  {| handle_count := handle_count h; handles := handles h; iterator := n;
     destructor := destructor h; first_run := first_run h |}.

(** All fields 0. *)
Definition zeroed_hdb : qb_hdb :=
  {| handle_count := 0; handles := None; iterator := 0; destructor := false; first_run := false |}.

(** Which allocations succeed during one call. *)
Record hdb_env := { array_calloc_ok : bool; array_env : alloc_env }.
Definition hdb_alloc_fine : hdb_env := {| array_calloc_ok := true; array_env := alloc_fine |}.

(** [sizeof(struct qb_hdb_handle)] on a 64-bit machine. *)
Definition sizeof_handle : Z := 24.

(** [QB_HDB_DECLARE]. *)
Definition QB_HDB_DECLARE (destructor_function : bool) : qb_hdb :=
  {| handle_count := 0; handles := None; iterator := 0; destructor := destructor_function;
     first_run := true |}.

Definition qb_hdb_create_first_run (h : qb_hdb) (env : hdb_env) : qb_hdb :=
  if first_run h then
    {| handle_count := handle_count h;
       handles :=
         match qb_array_create 32 sizeof_handle (array_calloc_ok env) (array_env env) with
         | inr a => Some a
         | inl _ => None
         end;
       iterator := iterator h; destructor := destructor h; first_run := false |}
  else h.

Definition qb_hdb_create (env : hdb_env) : qb_hdb :=
  qb_hdb_create_first_run (QB_HDB_DECLARE false) env.

(** [None] is the null pointer dereference of [qb_array_free]. *)
Definition qb_hdb_destroy (h : qb_hdb) : option qb_hdb :=
  a ← handles h; _ ← qb_array_free a; Some zeroed_hdb.

(** [qb_array_index(hdb->handles, handle, &entry)]: the address of the entry if
    the call returns 0, and otherwise the error. *)
Definition entry_index (h : qb_hdb) (handle : Z) (env : hdb_env) : option (qb_hdb * (Z + Z * Z)) :=
  '(a, rc, p) ← qb_array_index (handles h) handle true (array_env env);
  Some (with_handles h a,
        match p with Some addr => if rc =? 0 then inr addr else inl rc | None => inl rc end).

Definition entry_get (h : qb_hdb) (p : Z * Z) : qb_hdb_handle :=
  match handles h with Some a => elem_read a p | None => empty_handle end.
Definition entry_set (h : qb_hdb) (p : Z * Z) (e : qb_hdb_handle) : qb_hdb :=
  match handles h with Some a => with_handles h (Some (elem_write a p e)) | None => h end.

(** The search of [qb_hdb_handle_create] for a free slot, from [handle] on. *)
Fixpoint find_empty (fuel : nat) (h : qb_hdb) (handle : Z) (env : hdb_env)
    : option (qb_hdb * option (Z * (Z * Z))) :=
  match fuel with
  | O => Some (h, None)
  | S fuel' =>
    if handle <? handle_count h then
      '(h, r) ← entry_index h handle env;
      match r with
      | inr p =>
        if decide (state (entry_get h p) = QB_HDB_HANDLE_STATE_EMPTY) then
          Some (entry_set h p (with_ref_count (entry_get h p) (i32 (ref_count (entry_get h p) + 1))),
                Some (handle, p))
        else find_empty fuel' h (handle + 1) env
      | inl _ => find_empty fuel' h (handle + 1) env
      end
    else Some (h, None)
  end.

(** The loop that draws the check value; [last] is the value drawn before. *)
Fixpoint draw_check (tries : nat) (random : list Z) (last : Z) : Z :=
  match tries with
  | O => last
  | S n =>
    match random with
    | [] => last
    | r :: random' => if 0 <? i32 r then i32 r else draw_check n random' (i32 r)
    end
  end.

Definition make_handle (check handle : Z) : Z := Z.lor (u64 (Z.shiftl (u64 check) 32)) handle.

(** Returns the error code and, on success, the handle.  [addr] is the result
    of [malloc] (0 when it fails) and [random] the values drawn. *)
Definition qb_hdb_handle_create (h : qb_hdb) (addr : Z) (random : list Z) (env : hdb_env)
    : option (qb_hdb * Z * option Z) :=
  let h := qb_hdb_create_first_run h env in
  let handle_count0 := i32 (handle_count h) in
  '(h, found) ← find_empty (Z.to_nat handle_count0) h 0 env;
  '(h, slot) ←
    match found with
    | Some s => Some (h, inr s)
    | None =>
      let '(a, res) := qb_array_grow (handles h) (u32 (handle_count0 + 1)) (array_env env) in
      let h := with_handles h a in
      if negb (res =? 0) then Some (h, inl res)
      else
        '(h, r) ← entry_index h handle_count0 env;
        match r with
        | inl res => Some (h, inl res)
        | inr p => Some (with_handle_count h (u32 (handle_count h + 1)), inr (handle_count0, p))
        end
    end;
  match slot with
  | inl res => Some (h, res, None)
  | inr (handle, p) =>
    if addr =? 0 then Some (h, - ENOMEM, None)
    else
      let chk := draw_check 200 random 0 in
      Some (entry_set h p {| state := QB_HDB_HANDLE_STATE_ACTIVE; instance := addr; check := chk;
                             ref_count := 1 |}, 0, Some (make_handle chk handle))
  end.

Definition handle_check (handle_in : Z) : Z := i32 (Z.shiftr handle_in 32).
Definition handle_slot (handle_in : Z) : Z := i32 (Z.land handle_in UINT32_MAX).

(** [check != (int32_t) UINT32_MAX && check != entry->check]. *)
Definition check_differs (chk : Z) (e : qb_hdb_handle) : bool :=
  negb (chk =? i32 UINT32_MAX) && negb (chk =? check e).

(** The instance is 0 when the handle is refused. *)
Definition qb_hdb_handle_get (h : qb_hdb) (handle_in : Z) (env : hdb_env) : option (qb_hdb * Z * Z) :=
  let h := qb_hdb_create_first_run h env in
  if i32 (handle_count h) <=? handle_slot handle_in then Some (h, - EBADF, 0)
  else
    '(h, r) ← entry_index h (handle_slot handle_in) env;
    match r with
    | inl _ => Some (h, - EBADF, 0)
    | inr p =>
      let entry := entry_get h p in
      if negb (bool_decide (state entry = QB_HDB_HANDLE_STATE_ACTIVE)) then Some (h, - EBADF, 0)
      else if check_differs (handle_check handle_in) entry then Some (h, - EBADF, 0)
      else Some (entry_set h p (with_ref_count entry (i32 (ref_count entry + 1))), 0, instance entry)
    end.

Definition qb_hdb_handle_get_always (h : qb_hdb) (handle_in : Z) (env : hdb_env) : option (qb_hdb * Z * Z) :=
  qb_hdb_handle_get h handle_in env.

(** What a put does to the instance. *)
Inductive hdb_effect :=
  | Eff_destructor (inst : Z)
  | Eff_free (inst : Z).

(** The last reference gone. *)
Definition release (h : qb_hdb) (p : Z * Z) (entry : qb_hdb_handle) : qb_hdb * list hdb_effect :=
  (entry_set h p empty_handle,
   (if destructor h then [Eff_destructor (instance entry)] else []) ++ [Eff_free (instance entry)]).

Definition qb_hdb_handle_put (h : qb_hdb) (handle_in : Z) (env : hdb_env)
    : option (qb_hdb * Z * list hdb_effect) :=
  let h := qb_hdb_create_first_run h env in
  if i32 (handle_count h) <=? handle_slot handle_in then Some (h, - EBADF, [])
  else
    '(h, r) ← entry_index h (handle_slot handle_in) env;
    match r with
    | inl _ => Some (h, - EBADF, [])
    | inr p =>
      let entry := entry_get h p in
      if check_differs (handle_check handle_in) entry then Some (h, - EBADF, [])
      else if ref_count entry =? 1 then
        let '(h, eff) := release h p entry in Some (h, 0, eff)
      else Some (entry_set h p (with_ref_count entry (i32 (ref_count entry - 1))), 0, [])
    end.

Definition qb_hdb_handle_destroy (h : qb_hdb) (handle_in : Z) (env : hdb_env)
    : option (qb_hdb * Z * list hdb_effect) :=
  let h := qb_hdb_create_first_run h env in
  if i32 (handle_count h) <=? handle_slot handle_in then Some (h, - EBADF, [])
  else
    '(h, r) ← entry_index h (handle_slot handle_in) env;
    match r with
    | inl _ => Some (h, - EBADF, [])
    | inr p =>
      let entry := entry_get h p in
      if check_differs (handle_check handle_in) entry then Some (h, - EBADF, [])
      else qb_hdb_handle_put (entry_set h p (with_state entry QB_HDB_HANDLE_STATE_PENDINGREMOVAL))
             handle_in env
    end.

Definition qb_hdb_handle_refcount_get (h : qb_hdb) (handle_in : Z) (env : hdb_env) : option (qb_hdb * Z) :=
  let h := qb_hdb_create_first_run h env in
  if i32 (handle_count h) <=? handle_slot handle_in then Some (h, - EBADF)
  else
    '(h, r) ← entry_index h (handle_slot handle_in) env;
    match r with
    | inl _ => Some (h, - EBADF)
    | inr p =>
      let entry := entry_get h p in
      if check_differs (handle_check handle_in) entry then Some (h, - EBADF)
      else Some (h, ref_count entry)
    end.

Definition qb_hdb_iterator_reset (h : qb_hdb) : qb_hdb := with_iterator h 0.

(** Returns the error code, the instance and the handle that were set last. *)
Fixpoint iterator_loop (fuel : nat) (h : qb_hdb) (count res inst handle : Z) (env : hdb_env)
    : option (qb_hdb * Z * Z * Z) :=
  match fuel with
  | O => None
  | S fuel' =>
    if iterator h <? count then
      '(h, r) ← entry_index h (i32 (iterator h)) env;
      match r with
      | inl res => Some (h, res, inst, handle)
      | inr p =>
        let handle := make_handle (check (entry_get h p)) (iterator h) in
        '(h, res, inst) ← qb_hdb_handle_get h handle env;
        let h := with_iterator h (u32 (iterator h + 1)) in
        if res =? 0 then Some (h, res, inst, handle)
        else iterator_loop fuel' h count res inst handle env
      end
    else Some (h, res, inst, handle)
  end.

Definition qb_hdb_iterator_next (h : qb_hdb) (inst handle : Z) (env : hdb_env)
    : option (qb_hdb * Z * Z * Z) :=
  iterator_loop (S (Z.to_nat (handle_count h - iterator h))) h (handle_count h) (-1) inst handle env.

Definition qb_hdb_base_convert (handle : Z) : Z := u32 (Z.land handle UINT32_MAX).
Definition qb_hdb_nocheck_convert (handle : Z) : Z := Z.lor (Z.shiftl UINT32_MAX 32) handle.
