(* ===== verification/HdbTheorems.v ===== *)
(** * Handle database: specification and correctness

    The abstract database maps a slot to the object in it.  The code implements
    it ([hdb_refines]): handles find the object they were made for, and the
    object is released when its last reference is dropped, not earlier. *)
From S2P Require Import Prelude Array ArrayTheorems Hdb.

(** ** Specification *)

Record obj := {
  o_inst : Z;
  o_check : Z;
  o_refs : Z;
  o_pending : bool;
}.

Definition with_refs (o : obj) (n : Z) : obj :=
  {| o_inst := o_inst o; o_check := o_check o; o_refs := n; o_pending := o_pending o |}.
Definition pending (o : obj) : obj :=
  {| o_inst := o_inst o; o_check := o_check o; o_refs := o_refs o; o_pending := true |}.

(** The object a handle refers to; the check value -1 matches any object. *)
Definition find (db : gmap Z obj) (handle : Z) : option obj :=
  o ← db !! handle_slot handle;
  if (handle_check handle =? -1) || (handle_check handle =? o_check o) then Some o else None.

Definition spec_get (db : gmap Z obj) (handle : Z) : gmap Z obj * Z * Z :=
  match find db handle with
  | Some o => if o_pending o then (db, - EBADF, 0)
              else (<[handle_slot handle := with_refs o (o_refs o + 1)]> db, 0, o_inst o)
  | None => (db, - EBADF, 0)
  end.

Definition spec_drop (db : gmap Z obj) (slot : Z) (o : obj) : gmap Z obj * Z * list Z :=
  if o_refs o =? 1 then (delete slot db, 0, [o_inst o])
  else (<[slot := with_refs o (o_refs o - 1)]> db, 0, []).

(** The instances released are the third result. *)
Definition spec_put (db : gmap Z obj) (handle : Z) : gmap Z obj * Z * list Z :=
  match find db handle with
  | Some o => spec_drop db (handle_slot handle) o
  | None => (db, - EBADF, [])
  end.

Definition spec_destroy (db : gmap Z obj) (handle : Z) : gmap Z obj * Z * list Z :=
  match find db handle with
  | Some o => spec_drop db (handle_slot handle) (pending o)
  | None => (db, - EBADF, [])
  end.

Definition spec_refcount (db : gmap Z obj) (handle : Z) : Z :=
  match find db handle with Some o => o_refs o | None => - EBADF end.

(** The least slot from [i] on without an object. *)
Fixpoint least_free (n : nat) (db : gmap Z obj) (i : Z) : Z :=
  match n with
  | O => i
  | S n => match db !! i with Some _ => least_free n db (i + 1) | None => i end
  end.
Definition free_slot (db : gmap Z obj) : Z := least_free (Z.to_nat QB_ARRAY_MAX_ELEMENTS) db 0.

Definition spec_create (db : gmap Z obj) (addr chk : Z) : gmap Z obj * Z * option Z :=
  if free_slot db =? QB_ARRAY_MAX_ELEMENTS then (db, - EINVAL, None)
  else if addr =? 0 then (db, - ENOMEM, None)
  else (<[free_slot db := {| o_inst := addr; o_check := chk; o_refs := 1; o_pending := false |}]> db, 0,
        Some (chk * 2 ^ 32 + free_slot db)).

(** ** Representation *)

Definition address (i : Z) : Z * Z := (i / 16, i mod 16).
Definition slot (h : qb_hdb) (i : Z) : qb_hdb_handle := entry_get h (address i).

(** The entry of a slot and the object the slot holds. *)
Definition slot_rep (e : qb_hdb_handle) (oo : option obj) : Prop :=
  match oo with
  | None => state e = QB_HDB_HANDLE_STATE_EMPTY /\ check e = 0
  | Some o =>
    state e = (if o_pending o then QB_HDB_HANDLE_STATE_PENDINGREMOVAL else QB_HDB_HANDLE_STATE_ACTIVE) /\
    instance e = o_inst o /\ check e = o_check o /\ ref_count e = o_refs o /\
    0 < o_check o < 2 ^ 31 /\ 1 <= o_refs o < 2 ^ 31
  end.

(** The array has an allocated bin for each slot in use. *)
Record arr_rep (oa : option (qb_array qb_hdb_handle)) (n : Z) : Prop := {
  ar_some : is_Some oa;
  ar_wf : forall a, oa = Some a -> arr_wf a;
  ar_max : forall a, oa = Some a -> n <= max_elements a;
  ar_bins : forall a i, oa = Some a -> 0 <= i < n -> is_Some (zget (bins a) (i / 16));
}.

Record hdb_rep (h : qb_hdb) (db : gmap Z obj) : Prop := {
  hr_first : first_run h = false;
  hr_count : 0 <= handle_count h;
  hr_arr : arr_rep (handles h) (handle_count h);
  hr_slot : forall i, 0 <= i < handle_count h -> slot_rep (slot h i) (db !! i);
  hr_past : forall i, handle_count h <= i -> slot h i = empty_handle;
  hr_dom : forall i, is_Some (db !! i) -> 0 <= i < handle_count h;
}.

(** What every operation but the iterator's keeps. *)
Record frame (h h' : qb_hdb) : Prop := {
  fr_iter : iterator h' = iterator h;
  fr_destr : destructor h' = destructor h;
  fr_count : handle_count h <= handle_count h';
}.

Lemma rep_max h db : hdb_rep h db -> handle_count h <= 65536.
Proof.
  intros Hr. destruct (hr_arr _ _ Hr) as [[a Ha] Hwf Hm _].
  pose proof (awf_max a (Hwf a Ha)). pose proof (Hm a Ha). change QB_ARRAY_MAX_ELEMENTS with 65536 in *. lia.
Qed.

Lemma rep_first h db env : hdb_rep h db -> qb_hdb_create_first_run h env = h.
Proof. intros Hr. unfold qb_hdb_create_first_run. by rewrite (hr_first _ _ Hr). Qed.

Lemma rep_none h db i : hdb_rep h db -> i < 0 \/ handle_count h <= i -> db !! i = None.
Proof.
  intros Hr Hi. destruct (db !! i) eqn:E; [|done]. pose proof (hr_dom _ _ Hr i ltac:(eauto)). lia.
Qed.

Lemma with_handles_id h : with_handles h (handles h) = h.
Proof. by destruct h. Qed.

Lemma index_slot h db i env :
  hdb_rep h db -> 0 <= i < handle_count h -> entry_index h i env = Some (h, inr (address i)).
Proof.
  intros Hr Hi. destruct (hr_arr _ _ Hr) as [[a Ha] Hwf Hm Hb]. unfold entry_index. rewrite Ha.
  rewrite index_allocated; [|by apply Hwf|by split; [lia|specialize (Hm a Ha); lia]|by apply (Hb a)].
  cbn. rewrite <- Ha. by rewrite with_handles_id.
Qed.

Lemma index_negative h db i env :
  hdb_rep h db -> i < 0 -> entry_index h i env = Some (h, inl (- ERANGE)).
Proof.
  intros Hr Hi. destruct (hr_arr _ _ Hr) as [[a Ha] _ _ _]. unfold entry_index. rewrite Ha. unfold qb_array_index.
  cbn [negb]. destruct (Z.ltb_spec i 0); [|lia]. cbn. rewrite <- Ha. by rewrite with_handles_id.
Qed.

Lemma address_inj i j : address i = address j -> 0 <= i -> 0 <= j -> i = j.
Proof. unfold address. intros E ? ?. injection E. zlia. Qed.

(** Writing one entry. *)
Lemma set_slot h db i e oo :
  hdb_rep h db -> 0 <= i < handle_count h -> slot_rep e oo ->
  hdb_rep (entry_set h (address i) e) (partial_alter (fun _ => oo) i db) /\
  frame h (entry_set h (address i) e) /\
  (forall j, 0 <= j -> slot (entry_set h (address i) e) j = if decide (j = i) then e else slot h j).
Proof.
  intros Hr Hi He. destruct (hr_arr _ _ Hr) as [[a Ha] Hwf Hm Hb].
  assert (Hc : forall j, 0 <= j -> arr_wf (elem_write a (address i) e) /\
      content (elem_write a (address i) e) j = if decide (j = i) then e else content a j).
  { intros j Hj. by apply content_elem_write; [apply Hwf|apply (Hb a)|lia|]. }
  assert (Hset : entry_set h (address i) e = with_handles h (Some (elem_write a (address i) e)))
    by (unfold entry_set; by rewrite Ha).
  assert (Hs : forall j, 0 <= j -> slot (entry_set h (address i) e) j = if decide (j = i) then e else slot h j).
  { intros j Hj. rewrite Hset. unfold slot at 1. cbn.
    change (elem_read ?b (address j)) with (content b j). rewrite (proj2 (Hc j Hj)).
    unfold slot, entry_get. by rewrite Ha. }
  split_and!; [|by rewrite Hset|done].
  rewrite Hset in Hs |- *. destruct (Hb a i Ha Hi) as [l Hl].
  constructor; cbn [first_run handle_count handles with_handles].
  - apply Hr.
  - apply Hr.
  - assert (Hbins : bins (elem_write a (address i) e) = zset (bins a) (i / 16) (Some (zset l (i mod 16) e)))
      by (unfold elem_write, address; cbn [fst snd]; by rewrite Hl).
    assert (Hn : i / 16 < zlen (bins a)).
    { destruct (Z_lt_le_dec (i / 16) (zlen (bins a))); [done|]. by rewrite zget_past in Hl. }
    constructor; [eauto|..]; intros ? ?; simplify_eq.
    + by apply (Hc 0).
    + transitivity (max_elements a); [by apply Hm|]. unfold elem_write. by destruct (zget _ _).
    + intros E1 Hj. simplify_eq. rewrite Hbins. destruct (decide (i0 / 16 = i / 16)) as [->|Hne].
      * rewrite zget_zset_eq; [eauto|]. zlia.
      * rewrite zget_zset_ne by (try lia; zlia). by apply (Hb a).
  - intros j Hj. rewrite Hs by lia. destruct (decide (j = i)) as [->|].
    + by rewrite lookup_partial_alter_eq.
    + rewrite lookup_partial_alter_ne by done. by apply Hr.
  - intros j Hj. rewrite Hs by lia. rewrite decide_False by lia. by apply Hr.
  - intros j. destruct (decide (j = i)) as [->|]; [done|].
    rewrite lookup_partial_alter_ne by done. apply Hr.
Qed.

(** ** Operations on one handle *)

(** A handle whose slot has an object, or whose check value was drawn: the
    check values 0 and -1 also match the entry of a free slot. *)
Definition handle_valid (db : gmap Z obj) (handle : Z) : Prop :=
  is_Some (db !! handle_slot handle) \/ (handle_check handle <> 0 /\ handle_check handle <> -1).

Definition released (d : bool) (insts : list Z) : list hdb_effect :=
  flat_map (fun i => (if d then [Eff_destructor i] else []) ++ [Eff_free i]) insts.

Lemma count_i32 h db : hdb_rep h db -> i32 (handle_count h) = handle_count h.
Proof. intros Hr. pose proof (hr_count _ _ Hr). pose proof (rep_max _ _ Hr). apply i32_small. lia. Qed.

Lemma differs_rep handle e o :
  slot_rep e (Some o) ->
  check_differs (handle_check handle) e =
  negb ((handle_check handle =? -1) || (handle_check handle =? o_check o)).
Proof.
  intros (_ & _ & Hc & _). unfold check_differs. change (i32 UINT32_MAX) with (-1). rewrite Hc.
  by rewrite negb_orb.
Qed.

Lemma differs_free db handle e :
  slot_rep e None -> db !! handle_slot handle = None -> handle_valid db handle ->
  check_differs (handle_check handle) e = true.
Proof.
  intros [_ Hc] Hn [[? Hv]|[H0 H1]]; [congruence|]. unfold check_differs. change (i32 UINT32_MAX) with (-1).
  rewrite Hc. apply andb_true_intro. rewrite !negb_true_iff, !Z.eqb_neq. done.
Qed.

(** The two ways a lookup of a handle starts. *)
Lemma lookup_cases h db handle :
  hdb_rep h db ->
  (0 <= handle_slot handle < handle_count h /\ slot_rep (slot h (handle_slot handle)) (db !! handle_slot handle)) \/
  (db !! handle_slot handle = None /\ (handle_slot handle < 0 \/ handle_count h <= handle_slot handle)).
Proof.
  intros Hr. destruct (decide (0 <= handle_slot handle < handle_count h)).
  - left. split; [done|]. by apply Hr.
  - right. split; [|lia]. apply (rep_none h); [done|lia].
Qed.

(** The start of an operation on a handle, in range and out of range, where
    the handle is refused without any effect. *)
Ltac in_range Hr Hi :=
  rewrite (rep_first _ _ _ Hr), (count_i32 _ _ Hr);
  rewrite (proj2 (Z.leb_gt _ _)) by lia; rewrite (index_slot _ _ _ _ Hr Hi); cbn [mbind option_bind];
  match type of Hi with _ <= ?i < handle_count ?h => fold (slot h i) end.
Ltac out_of_range Hr :=
  rewrite (rep_first _ _ _ Hr), (count_i32 _ _ Hr);
  match goal with |- context [handle_count ?h <=? ?s] =>
    destruct (Z.leb_spec (handle_count h) s); [by eauto|]; rewrite (index_negative _ _ _ _ Hr) by lia; cbn [mbind option_bind]; by eauto
  end.

Lemma frame_refl h : frame h h.
Proof. constructor; done || lia. Qed.
#[local] Hint Resolve frame_refl : core.

Lemma get_ok h db handle env :
  hdb_rep h db -> (forall o, find db handle = Some o -> o_pending o = false -> o_refs o + 1 < 2 ^ 31) ->
  exists h', qb_hdb_handle_get h handle env = Some (h', snd (fst (spec_get db handle)), snd (spec_get db handle)) /\
    hdb_rep h' (fst (fst (spec_get db handle))) /\ frame h h' /\ handle_count h' = handle_count h.
Proof.
  intros Hr Hov. unfold qb_hdb_handle_get, spec_get, find in *.
  destruct (lookup_cases h db handle Hr) as [[Hi Hs]|[Hn Ho]]; [|rewrite Hn; cbn [mbind option_bind fst snd]; out_of_range Hr].
  in_range Hr Hi. destruct (db !! handle_slot handle) as [o|] eqn:E; cbn [mbind option_bind] in *.
  - pose proof Hs as (Hst & Hin & Hck & Hrc & Hc & Hrf). rewrite (differs_rep _ _ _ Hs), Hst. destruct (o_pending o) eqn:Ep.
    + rewrite bool_decide_false by done. cbn. destruct (_ || _); cbn; [rewrite Ep|]; cbn; eauto.
    + rewrite bool_decide_true by done. cbn. destruct (_ || _); cbn; [rewrite Ep|]; cbn; [|eauto].
      specialize (Hov o eq_refl Ep). rewrite Hin, Hrc, (i32_small (o_refs o + 1)) by lia.
      eexists. split; [done|]. destruct (set_slot h db (handle_slot handle)
        (with_ref_count (slot h (handle_slot handle)) (o_refs o + 1)) (Some (with_refs o (o_refs o + 1)))) as (Hr' & Hf & _); [done|done| |].
      { unfold slot_rep. cbn. rewrite Ep. split_and!; done || lia. }
      split; [exact Hr'|]. split; [exact Hf|]. unfold entry_set. by destruct (handles h).
  - destruct Hs as [Hst _]. rewrite Hst, bool_decide_false by done. cbn. eauto.
Qed.

(** Dropping a reference of the object in a slot. *)
Lemma drop_ok h db i o env handle :
  hdb_rep h db -> 0 <= i < handle_count h -> handle_slot handle = i -> db !! i = Some o ->
  (handle_check handle =? -1) || (handle_check handle =? o_check o) = true ->
  exists h', qb_hdb_handle_put h handle env =
      Some (h', snd (fst (spec_drop db i o)), released (destructor h) (snd (spec_drop db i o))) /\
    hdb_rep h' (fst (fst (spec_drop db i o))) /\ frame h h'.
Proof.
  intros Hr Hi Hsl E Hm. unfold qb_hdb_handle_put. rewrite Hsl. in_range Hr Hi.
  pose proof (hr_slot _ _ Hr i Hi) as Hs. rewrite E in Hs. pose proof Hs as (Hst & Hin & Hck & Hrc & Hc & Hrf).
  rewrite (differs_rep _ _ _ Hs), Hm, Hrc. cbn [negb]. unfold spec_drop. destruct (Z.eqb_spec (o_refs o) 1); cbn.
  - rewrite Hin, app_nil_r. eexists. split; [done|].
    destruct (set_slot h db i empty_handle None) as (Hr' & Hf & _); [done|done|done|].
    split; [exact Hr'|exact Hf].
  - rewrite i32_small by lia. eexists. split; [done|].
    destruct (set_slot h db i (with_ref_count (slot h i) (o_refs o - 1)) (Some (with_refs o (o_refs o - 1))))
      as (Hr' & Hf & _); [done|done| |split; [exact Hr'|exact Hf]].
    unfold slot_rep. cbn. split_and!; done || lia.
Qed.

Lemma put_ok h db handle env :
  hdb_rep h db -> handle_valid db handle ->
  exists h', qb_hdb_handle_put h handle env =
      Some (h', snd (fst (spec_put db handle)), released (destructor h) (snd (spec_put db handle))) /\
    hdb_rep h' (fst (fst (spec_put db handle))) /\ frame h h'.
Proof.
  intros Hr Hv. unfold spec_put, find.
  destruct (lookup_cases h db handle Hr) as [[Hi Hs]|[Hn Ho]].
  - destruct (db !! handle_slot handle) as [o|] eqn:E; cbn [mbind option_bind];
      [destruct ((handle_check handle =? -1) || (handle_check handle =? o_check o)) eqn:Hm|].
    + by apply drop_ok.
    + unfold qb_hdb_handle_put. in_range Hr Hi. rewrite (differs_rep _ _ _ Hs), Hm. cbn. eauto.
    + unfold qb_hdb_handle_put. in_range Hr Hi. rewrite (differs_free db) by done. cbn. eauto.
  - rewrite Hn. cbn [mbind option_bind fst snd]. unfold qb_hdb_handle_put. out_of_range Hr.
Qed.

Lemma frame_trans h h' h'' : frame h h' -> frame h' h'' -> frame h h''.
Proof. intros [] []. constructor; congruence || lia. Qed.

Lemma spec_drop_insert db i o o' : spec_drop (<[i := o']> db) i o = spec_drop db i o.
Proof. unfold spec_drop. zcase; [by rewrite delete_insert_eq|by rewrite insert_insert_eq]. Qed.

Lemma destroy_ok h db handle env :
  hdb_rep h db -> handle_valid db handle ->
  exists h', qb_hdb_handle_destroy h handle env =
      Some (h', snd (fst (spec_destroy db handle)), released (destructor h) (snd (spec_destroy db handle))) /\
    hdb_rep h' (fst (fst (spec_destroy db handle))) /\ frame h h'.
Proof.
  intros Hr Hv. unfold spec_destroy, find.
  destruct (lookup_cases h db handle Hr) as [[Hi Hs]|[Hn Ho]].
  - unfold qb_hdb_handle_destroy. in_range Hr Hi.
    destruct (db !! handle_slot handle) as [o|] eqn:E; cbn [mbind option_bind];
      [rewrite (differs_rep _ _ _ Hs); destruct (_ || _) eqn:Hm; cbn [negb]|].
    + destruct (set_slot h db (handle_slot handle)
        (with_state (slot h (handle_slot handle)) QB_HDB_HANDLE_STATE_PENDINGREMOVAL) (Some (pending o)))
        as (Hr' & Hf & _); [done|done| |].
      { destruct Hs as (Hst & Hin & Hck & Hrc & Hc & Hrf). unfold slot_rep. cbn. split_and!; done || lia. }
      set (h1 := entry_set _ _ _) in *. change (partial_alter _ _ db) with (<[handle_slot handle := pending o]> db) in Hr'.
      pose proof (fr_count _ _ Hf).
      destruct (drop_ok h1 _ (handle_slot handle) (pending o) env handle Hr') as (h' & E1 & Hr2 & Hf2);
        [lia|done|by rewrite lookup_insert_eq|done|].
      rewrite spec_drop_insert, (fr_destr _ _ Hf) in E1. rewrite spec_drop_insert in Hr2.
      exists h'. split; [done|]. split; [done|]. by eapply frame_trans.
    + cbn. eauto.
    + rewrite (differs_free db) by done. cbn. eauto.
  - rewrite Hn. cbn [mbind option_bind fst snd]. unfold qb_hdb_handle_destroy. out_of_range Hr.
Qed.

Lemma refcount_ok h db handle env :
  hdb_rep h db -> handle_valid db handle ->
  qb_hdb_handle_refcount_get h handle env = Some (h, spec_refcount db handle).
Proof.
  intros Hr Hv. unfold spec_refcount, find, qb_hdb_handle_refcount_get.
  destruct (lookup_cases h db handle Hr) as [[Hi Hs]|[Hn Ho]].
  - in_range Hr Hi. destruct (db !! handle_slot handle) as [o|] eqn:E; cbn [mbind option_bind].
    + rewrite (differs_rep _ _ _ Hs). destruct (_ || _); cbn [negb]; [|done]. by destruct Hs as (_ & _ & _ & -> & _).
    + by rewrite (differs_free db) by done.
  - rewrite Hn. cbn [mbind option_bind fst snd]. out_of_range Hr.
Qed.

(** ** Creating *)

(** The slot found by the specification is the first without an object. *)
Lemma least_free_spec n db i :
  i <= least_free n db i <= i + Z.of_nat n /\
  (forall j, i <= j < least_free n db i -> is_Some (db !! j)) /\
  (least_free n db i < i + Z.of_nat n -> db !! least_free n db i = None).
Proof.
  revert i. induction n as [|n IH]; intros i; cbn [least_free]; [split_and!; lia|].
  destruct (db !! i) eqn:E; [|by split_and!; try lia].
  destruct (IH (i + 1)) as (H1 & H2 & H3). split_and!; [lia|lia| |intros; apply H3; lia].
  intros j Hj. destruct (decide (j = i)) as [->|]; [eauto|]. apply H2. lia.
Qed.

Lemma free_slot_spec db :
  0 <= free_slot db <= 65536 /\ (forall j, 0 <= j < free_slot db -> is_Some (db !! j)) /\
  (free_slot db < 65536 -> db !! free_slot db = None).
Proof. apply (least_free_spec (Z.to_nat QB_ARRAY_MAX_ELEMENTS) db 0). Qed.

(** The first free slot in use at some time is the one the search finds. *)
Lemma find_empty_ok h db env :
  hdb_rep h db -> forall fuel i, 0 <= i <= free_slot db -> (Z.to_nat (handle_count h - i) <= fuel)%nat ->
  (free_slot db < handle_count h /\
   find_empty fuel h i env =
     Some (entry_set h (address (free_slot db))
        (with_ref_count (slot h (free_slot db)) (i32 (ref_count (slot h (free_slot db)) + 1))),
      Some (free_slot db, address (free_slot db)))) \/
  (free_slot db = handle_count h /\ find_empty fuel h i env = Some (h, None)).
Proof.
  intros Hr. destruct (free_slot_spec db) as (Hb & Hall & Hfree). pose proof (rep_max _ _ Hr).
  assert (Hle : free_slot db <= handle_count h).
  { destruct (Z_lt_le_dec (handle_count h) (free_slot db)); [|done].
    pose proof (hr_dom _ _ Hr (handle_count h) (Hall (handle_count h) ltac:(pose proof (hr_count _ _ Hr); lia))). lia. }
  induction fuel as [|fuel IH]; intros i Hi Hf; cbn [find_empty].
  - right. split; [lia|done].
  - destruct (Z.ltb_spec i (handle_count h)); [|right; split; [lia|done]].
    rewrite (index_slot h db) by (done || lia). cbn [mbind option_bind]. fold (slot h i).
    pose proof (hr_slot _ _ Hr i ltac:(lia)) as Hs.
    destruct (decide (i = free_slot db)) as [->|Hne].
    + rewrite Hfree in Hs by lia. rewrite decide_True by apply Hs. left. split; [lia|done].
    + destruct (Hall i ltac:(lia)) as [o Ho]. rewrite Ho in Hs. destruct Hs as (Hst & _).
      rewrite decide_False by (rewrite Hst; by destruct (o_pending o)). apply IH; lia.
Qed.

Lemma land_high_low a i : 0 <= i < 2 ^ 32 -> Z.land (a * 2 ^ 32) i = 0.
Proof.
  intros Hi. apply Z.bits_inj'. intros n Hn. rewrite Z.land_spec, Z.bits_0.
  destruct (Z_lt_le_dec n 32).
  - by rewrite Z.mul_pow2_bits_low.
  - rewrite (Z.bits_above_log2 i); [apply andb_false_r|lia|].
    destruct (decide (i = 0)) as [->|]; [cbn; lia|]. apply Z.log2_lt_pow2; [lia|].
    pose proof (Z.pow_le_mono_r 2 32 n). lia.
Qed.

Lemma make_handle_sum chk i : 0 <= chk < 2 ^ 31 -> 0 <= i < 2 ^ 32 -> make_handle chk i = chk * 2 ^ 32 + i.
Proof.
  intros Hc Hi. unfold make_handle. rewrite (u64_small chk) by lia. rewrite Z.shiftl_mul_pow2 by lia.
  rewrite u64_small by lia. by rewrite <- Z.add_nocarry_lor by by apply land_high_low.
Qed.

(** A handle decodes to the check value and the slot it was made of. *)
Lemma handle_decode chk i :
  0 <= chk < 2 ^ 31 -> 0 <= i < 2 ^ 31 ->
  handle_check (chk * 2 ^ 32 + i) = chk /\ handle_slot (chk * 2 ^ 32 + i) = i.
Proof.
  intros Hc Hi. unfold handle_check, handle_slot. split.
  - rewrite Z.shiftr_div_pow2 by lia. rewrite Z.div_add_l, (Z.div_small i), i32_small; lia.
  - change UINT32_MAX with (Z.ones 32). rewrite Z.land_ones by lia.
    rewrite Z.add_comm, Z.mod_add, Z.mod_small, i32_small; lia.
Qed.

Lemma draw_check_range n random last : -2 ^ 31 <= last < 2 ^ 31 -> -2 ^ 31 <= draw_check n random last < 2 ^ 31.
Proof.
  revert random last. induction n as [|n IH]; intros [|r random] last Hl; cbn [draw_check]; try done.
  pose proof (i32_range r). zcase; [done|]. by apply IH.
Qed.

(** Growing the array by one slot. *)
Lemma open_slot h db env :
  hdb_rep h db -> handle_count h < 65536 -> realloc_ok (array_env env) = true -> calloc_ok (array_env env) = true ->
  exists a1 h2,
    qb_array_grow (handles h) (u32 (handle_count h + 1)) (array_env env) = (a1, 0) /\
    entry_index (with_handles h a1) (handle_count h) env = Some (h2, inr (address (handle_count h))) /\
    hdb_rep (with_handle_count h2 (u32 (handle_count h2 + 1))) db /\
    frame h (with_handle_count h2 (u32 (handle_count h2 + 1))) /\ handle_count h2 = handle_count h.
Proof.
  intros Hr Hlt Hre Hca. pose proof (hr_count _ _ Hr). destruct (hr_arr _ _ Hr) as [[a Ha] Hwf Hm Hb].
  rewrite u32_small by lia. destruct (grow_ok a (handle_count h + 1) (array_env env)) as (a1 & E1 & Hwf1 & Hm1 & _ & Hb1);
    [by apply Hwf|change QB_ARRAY_MAX_ELEMENTS with 65536; lia|done|].
  destruct (index_in_bin_ok a1 (handle_count h) (array_env env)) as (a2 & E2 & Hx & Hm2);
    [done|change QB_ARRAY_MAX_ELEMENTS with 65536; lia|done|done|].
  exists (Some a1), (with_handles h (Some a2)). rewrite Ha. split; [done|].
  assert (entry_index (with_handles h (Some a1)) (handle_count h) env = Some (with_handles h (Some a2), inr (address (handle_count h)))) as ->.
  { unfold entry_index. cbn [handles with_handles]. unfold qb_array_index. cbn [negb].
    destruct (Z.ltb_spec (handle_count h) 0); [lia|]. rewrite u32_small by lia.
    destruct (Z.leb_spec (max_elements a1) (handle_count h)); [lia|]. by rewrite E2. }
  split; [done|]. cbn [handle_count with_handles]. rewrite u32_small by lia.
  assert (Hs : forall i, 0 <= i -> slot (with_handle_count (with_handles h (Some a2)) (handle_count h + 1)) i = slot h i).
  { intros i Hi. unfold slot. cbn. change (elem_read ?b (address i)) with (content b i).
    rewrite (ix_content _ _ _ Hx) by done. rewrite (content_bins a a1) by done. unfold entry_get. by rewrite Ha. }
  split_and!; [|constructor; cbn; done || lia|done]. constructor; cbn [first_run handle_count handles with_handles with_handle_count].
  - apply Hr.
  - lia.
  - constructor; [eauto|..].
    + intros; simplify_eq. apply Hx.
    + intros; simplify_eq. lia.
    + intros a' i E3 Hi. simplify_eq. destruct (decide (i = handle_count h)) as [->|]; [apply Hx|].
      assert (is_Some (zget (bins a1) (i / 16))) as Hal by (rewrite Hb1 by zlia; apply (Hb a); done || lia).
      by rewrite (ix_keep _ _ _ Hx) by (done || zlia).
  - intros i Hi. rewrite Hs by lia. destruct (decide (i = handle_count h)) as [->|]; [|apply Hr; lia].
    rewrite (rep_none h db) by (done || lia). rewrite (hr_past _ _ Hr) by lia. done.
  - intros i Hi. rewrite Hs by lia. apply Hr. lia.
  - intros i Hi. pose proof (hr_dom _ _ Hr i Hi). lia.
Qed.

Lemma create_handle_ok h db addr random env :
  hdb_rep h db -> realloc_ok (array_env env) = true -> calloc_ok (array_env env) = true ->
  0 < draw_check 200 random 0 ->
  exists h', qb_hdb_handle_create h addr random env =
      Some (h', snd (fst (spec_create db addr (draw_check 200 random 0))), snd (spec_create db addr (draw_check 200 random 0))) /\
    hdb_rep h' (fst (fst (spec_create db addr (draw_check 200 random 0)))) /\ frame h h'.
Proof.
  intros Hr Hre Hca Hchk. pose proof (draw_check_range 200 random 0 ltac:(lia)) as Hcr.
  set (chk := draw_check 200 random 0) in *. destruct (free_slot_spec db) as (Hb & Hall & Hfree).
  pose proof (hr_count _ _ Hr). pose proof (rep_max _ _ Hr).
  (* once the slot is found *)
  assert (Hfin : forall h1, hdb_rep h1 db -> frame h h1 -> 0 <= free_slot db < handle_count h1 -> free_slot db <> 65536 ->
    exists h', (if addr =? 0 then Some (h1, - ENOMEM, None)
      else Some (entry_set h1 (address (free_slot db)) {| state := QB_HDB_HANDLE_STATE_ACTIVE; instance := addr;
              check := chk; ref_count := 1 |}, 0, Some (make_handle chk (free_slot db)))) =
      Some (h', snd (fst (spec_create db addr chk)), snd (spec_create db addr chk)) /\
      hdb_rep h' (fst (fst (spec_create db addr chk))) /\ frame h h').
  { intros h1 Hr1 Hf1 Hi1 Hne. unfold spec_create. change QB_ARRAY_MAX_ELEMENTS with 65536.
    destruct (Z.eqb_spec (free_slot db) 65536); [done|]. destruct (Z.eqb_spec addr 0); [eauto|].
    rewrite make_handle_sum by lia. eexists. split; [done|].
    destruct (set_slot h1 db (free_slot db) {| state := QB_HDB_HANDLE_STATE_ACTIVE; instance := addr; check := chk; ref_count := 1 |}
      (Some {| o_inst := addr; o_check := chk; o_refs := 1; o_pending := false |})) as (Hr' & Hf & _); [done|done| |].
    - unfold slot_rep. cbn [state instance check ref_count o_inst o_check o_refs o_pending]. split_and!; done || lia.
    - split; [exact Hr'|by eapply frame_trans]. }
  unfold qb_hdb_handle_create. rewrite (rep_first _ _ _ Hr), (count_i32 _ _ Hr). fold chk.
  destruct (find_empty_ok h db env Hr (Z.to_nat (handle_count h)) 0) as [[Hlt ->]|[Heq ->]]; [lia|lia| |]; cbn [mbind option_bind].
  - set (h1 := entry_set _ _ _). destruct (set_slot h db (free_slot db)
      (with_ref_count (slot h (free_slot db)) (i32 (ref_count (slot h (free_slot db)) + 1))) None) as (Hr1 & Hf1 & _);
      [done|lia| |].
    { pose proof (hr_slot _ _ Hr (free_slot db) ltac:(lia)) as Hs. by rewrite Hfree in Hs by lia. }
    fold h1 in Hr1, Hf1. assert (partial_alter (fun _ => None) (free_slot db) db = db) as Edb.
    { apply map_eq. intros j. destruct (decide (j = free_slot db)) as [->|].
      - rewrite lookup_partial_alter_eq. symmetry. apply Hfree. lia.
      - by rewrite lookup_partial_alter_ne. }
    rewrite Edb in Hr1. apply (Hfin h1); done || (pose proof (fr_count _ _ Hf1); lia).
  - destruct (Z.eqb_spec (handle_count h) 65536) as [Hfull|].
    + destruct (hr_arr _ _ Hr) as [[a Ha] _ _ _]. rewrite Ha. unfold qb_array_grow. rewrite u32_small by lia.
      change QB_ARRAY_MAX_ELEMENTS with 65536. rewrite (proj2 (Z.ltb_lt _ _)) by lia. cbn.
      rewrite <- Ha, with_handles_id. unfold spec_create. change QB_ARRAY_MAX_ELEMENTS with 65536.
      rewrite (proj2 (Z.eqb_eq (free_slot db) 65536)) by lia. eauto.
    + destruct (open_slot h db env Hr) as (a1 & h2 & -> & E2 & Hr2 & Hf2 & Hc2); [lia|done|done|].
      cbn [negb Z.eqb mbind option_bind]. rewrite E2. cbn [mbind option_bind]. rewrite <- Heq. apply Hfin; [done|done|cbn; rewrite u32_small; lia|lia].
Qed.

(** ** Refinement of operation sequences *)

Inductive hdb_op :=
  | H_create (addr : Z) (random : list Z)
  | H_get (handle : Z)
  | H_put (handle : Z)
  | H_destroy (handle : Z)
  | H_refcount (handle : Z).

(** The result of an operation: the code returned, the instance or handle
    produced (0 if none) and what happened to instances. *)
Definition hdb_result : Type := Z * Z * list hdb_effect.

Definition hdb_step (env : hdb_env) (h : qb_hdb) (op : hdb_op) : option (qb_hdb * hdb_result) :=
  match op with
  | H_create addr random =>
    '(h, rc, hd) ← qb_hdb_handle_create h addr random env; Some (h, (rc, default 0 hd, []))
  | H_get hd => '(h, rc, inst) ← qb_hdb_handle_get h hd env; Some (h, (rc, inst, []))
  | H_put hd => '(h, rc, eff) ← qb_hdb_handle_put h hd env; Some (h, (rc, 0, eff))
  | H_destroy hd => '(h, rc, eff) ← qb_hdb_handle_destroy h hd env; Some (h, (rc, 0, eff))
  | H_refcount hd => '(h, n) ← qb_hdb_handle_refcount_get h hd env; Some (h, (n, 0, []))
  end.

Fixpoint hdb_run (env : hdb_env) (h : qb_hdb) (ops : list hdb_op) : option (qb_hdb * list hdb_result) :=
  match ops with
  | [] => Some (h, [])
  | op :: ops =>
    '(h, r) ← hdb_step env h op;
    '(h, rs) ← hdb_run env h ops; Some (h, r :: rs)
  end.

Definition spec_step (d : bool) (db : gmap Z obj) (op : hdb_op) : gmap Z obj * hdb_result :=
  match op with
  | H_create addr random =>
    let '(db, rc, hd) := spec_create db addr (draw_check 200 random 0) in (db, (rc, default 0 hd, []))
  | H_get hd => let '(db, rc, inst) := spec_get db hd in (db, (rc, inst, []))
  | H_put hd => let '(db, rc, l) := spec_put db hd in (db, (rc, 0, released d l))
  | H_destroy hd => let '(db, rc, l) := spec_destroy db hd in (db, (rc, 0, released d l))
  | H_refcount hd => (db, (spec_refcount db hd, 0, []))
  end.

Fixpoint spec_run (d : bool) (db : gmap Z obj) (ops : list hdb_op) : gmap Z obj * list hdb_result :=
  match ops with
  | [] => (db, [])
  | op :: ops =>
    let '(db, r) := spec_step d db op in
    let '(db, rs) := spec_run d db ops in (db, r :: rs)
  end.

(** No reference count overflows, the random source yields a positive number
    within the tries, and handles with the wildcard check name an object. *)
Definition op_fine (db : gmap Z obj) (op : hdb_op) : Prop :=
  match op with
  | H_create addr random => 0 < draw_check 200 random 0
  | H_get hd => forall o, find db hd = Some o -> o_pending o = false -> o_refs o + 1 < 2 ^ 31
  | H_put hd | H_destroy hd | H_refcount hd => handle_valid db hd
  end.

Fixpoint run_fine (d : bool) (db : gmap Z obj) (ops : list hdb_op) : Prop :=
  match ops with
  | [] => True
  | op :: ops => op_fine db op /\ run_fine d (fst (spec_step d db op)) ops
  end.

Lemma hdb_step_refines env h db op :
  realloc_ok (array_env env) = true -> calloc_ok (array_env env) = true ->
  hdb_rep h db -> op_fine db op ->
  exists h', hdb_step env h op = Some (h', snd (spec_step (destructor h) db op)) /\
    hdb_rep h' (fst (spec_step (destructor h) db op)) /\ frame h h'.
Proof.
  intros Hre Hca Hr Hop. destruct op as [addr random|hd|hd|hd|hd]; unfold hdb_step, spec_step; cbn in Hop.
  - destruct (create_handle_ok h db addr random env Hr Hre Hca Hop) as (h' & -> & Hr' & Hf).
    destruct (spec_create _ _ _) as [[db' rc] o]. eauto.
  - destruct (get_ok h db hd env Hr Hop) as (h' & -> & Hr' & Hf & _). destruct (spec_get _ _) as [[db' rc] o]. eauto.
  - destruct (put_ok h db hd env Hr Hop) as (h' & -> & Hr' & Hf). destruct (spec_put _ _) as [[db' rc] o]. eauto.
  - destruct (destroy_ok h db hd env Hr Hop) as (h' & -> & Hr' & Hf). destruct (spec_destroy _ _) as [[db' rc] o]. eauto.
  - rewrite (refcount_ok h db) by done. eauto.
Qed.

Lemma run_refines env ops : forall h db,
  realloc_ok (array_env env) = true -> calloc_ok (array_env env) = true ->
  hdb_rep h db -> run_fine (destructor h) db ops ->
  exists h', hdb_run env h ops = Some (h', snd (spec_run (destructor h) db ops)) /\
    hdb_rep h' (fst (spec_run (destructor h) db ops)) /\ frame h h'.
Proof.
  induction ops as [|op ops IH]; intros h db Hre Hca Hr; cbn [run_fine hdb_run spec_run]; [eauto|].
  intros [Hop Hops]. destruct (hdb_step_refines env h db op Hre Hca Hr Hop) as (h1 & -> & Hr1 & Hf1).
  destruct (spec_step _ _ _) as [db1 r]. cbn in *. rewrite <- (fr_destr _ _ Hf1) in Hops.
  destruct (IH h1 db1 Hre Hca Hr1 Hops) as (h2 & -> & Hr2 & Hf2). rewrite (fr_destr _ _ Hf1) in *.
  destruct (spec_run _ _ _) as [db2 rs]. eexists. split; [done|]. split; [done|]. by eapply frame_trans.
Qed.

(** A new database has no objects. *)
Lemma first_run_rep d env :
  array_calloc_ok env = true -> realloc_ok (array_env env) = true ->
  hdb_rep (qb_hdb_create_first_run (QB_HDB_DECLARE d) env) ∅ /\
  destructor (qb_hdb_create_first_run (QB_HDB_DECLARE d) env) = d.
Proof.
  intros Hc Hre. unfold qb_hdb_create_first_run. cbn [first_run QB_HDB_DECLARE]. rewrite Hc.
  destruct (qb_array_create 32 sizeof_handle true (array_env env)) as [e|a] eqn:E.
  { exfalso. unfold qb_array_create, qb_array_create_2, _grow_bin_array in E. rewrite Hre in E. discriminate. }
  destruct (create_ok _ _ _ _ _ (ltac:(lia) : 0 <= 32) E) as (Hwf & Hm & Hb & Hct). split; [|done].
  constructor; cbn [first_run handle_count handles QB_HDB_DECLARE]; [done|done|..].
  - constructor; [eauto|by intros; simplify_eq|..].
    + intros a' Ha. simplify_eq. rewrite Hm. done.
    + intros a' i _ Hi. lia.
  - intros i Hi. lia.
  - intros i Hi. by apply Hct.
  - intros i [? Hs]. done.
Qed.

(** C13. The handle database implements the map from slots to objects: every
    sequence of creates, gets, puts, destroys and reference counts on a new
    database, in which each operation is [op_fine], runs, returns the codes,
    instances and handles of the specification and releases the same instances at
    the same steps, the destructor first.  Stale handles, handles of other
    databases and invented ones are included.  Left out are: a put, destroy or
    reference count by a handle with the check 0, or the wildcard check -1, whose
    slot is free (there the code finds the check equal, or does not compare it,
    and changes the empty slot); a get at the largest reference count; a create
    for which the random source yields no positive number in 200 tries; and
    allocations that fail. *)
Theorem hdb_refines env d ops :
  array_calloc_ok env = true -> realloc_ok (array_env env) = true -> calloc_ok (array_env env) = true ->
  run_fine d ∅ ops ->
  snd <$> hdb_run env (qb_hdb_create_first_run (QB_HDB_DECLARE d) env) ops = Some (snd (spec_run d ∅ ops)).
Proof.
  intros Hc Hre Hca Hf. destruct (first_run_rep d env Hc Hre) as [Hr Hd].
  destruct (run_refines env ops _ ∅ Hre Hca Hr) as (h' & -> & _); [by rewrite Hd|]. by rewrite Hd.
Qed.

(** ** The life of an object *)

(** A holder of the object tries to get it again and drops its reference. *)
Definition drain_ops (hd : Z) (n : nat) : list hdb_op := concat (replicate n [H_get hd; H_put hd]).

(** The last put releases the instance. *)
Fixpoint drain_results (d : bool) (inst : Z) (n : nat) : list hdb_result :=
  match n with
  | O => [(- EBADF, 0, [])]
  | S n' => (- EBADF, 0, []) ::
      (0, 0, match n' with O => released d [inst] | _ => [] end) :: drain_results d inst n'
  end.

Lemma find_lookup db hd o :
  find db hd = Some o -> db !! handle_slot hd = Some o /\
    (handle_check hd =? -1) || (handle_check hd =? o_check o) = true.
Proof. unfold find. destruct (db !! _) as [o'|]; [|done]. cbn. destruct (_ || _) eqn:E; [|done]. by intros [= ->]. Qed.

Lemma find_insert db hd o : 
  (handle_check hd =? -1) || (handle_check hd =? o_check o) = true ->
  find (<[handle_slot hd := o]> db) hd = Some o.
Proof. intros E. unfold find. rewrite lookup_insert_eq. cbn. by rewrite E. Qed.

Lemma drain_spec d hd n : forall db o,
  find db hd = Some o -> o_pending o = true -> o_refs o = Z.of_nat (S n) -> o_refs o < 2 ^ 31 ->
  run_fine d db (drain_ops hd (S n) ++ [H_get hd]) /\
  snd (spec_run d db (drain_ops hd (S n) ++ [H_get hd])) = drain_results d (o_inst o) (S n).
Proof.
  assert (Hget : forall db o, find db hd = Some o -> o_pending o = true -> spec_get db hd = (db, - EBADF, 0)).
  { intros db o Hf Hp. unfold spec_get. by rewrite Hf, Hp. }
  induction n as [|n IH]; intros db o Hf Hp Hn Hlt; destruct (find_lookup _ _ _ Hf) as [Hl Hc].
  - assert (Hput : spec_put db hd = (delete (handle_slot hd) db, 0, [o_inst o])).
    { unfold spec_put, spec_drop. by rewrite Hf, Hn. }
    assert (Hnone : find (delete (handle_slot hd) db) hd = None) by (unfold find; by rewrite lookup_delete_eq).
    cbn -[released]. rewrite (Hget db o), Hput by done. cbn -[released].
    rewrite Hput. cbn -[released]. unfold spec_get. rewrite Hnone. cbn -[released]. split; [|done].
    split_and!; [|left; eauto| |done]; intros o' ? ?; congruence.
  - set (o1 := with_refs o (o_refs o - 1)). set (db1 := <[handle_slot hd := o1]> db).
    assert (Hput : spec_put db hd = (db1, 0, [])).
    { unfold spec_put, spec_drop. rewrite Hf. destruct (Z.eqb_spec (o_refs o) 1); [lia|done]. }
    assert (Hf1 : find db1 hd = Some o1) by by apply find_insert.
    destruct (IH db1 o1 Hf1) as [Hfine Hrun]; [done|change (o_refs o1) with (o_refs o - 1); lia..|].
    change (drain_ops hd (S (S n)) ++ [H_get hd]) with (H_get hd :: H_put hd :: (drain_ops hd (S n) ++ [H_get hd])).
    cbn [run_fine spec_run spec_step]. rewrite (Hget db o), Hput by done. cbn [fst snd].
    rewrite Hput. cbn [fst snd]. destruct (spec_run d db1 _) as [db2 rs]. cbn [fst snd] in *. subst rs.
    split; [|done]. split_and!; [|left; eauto|done]. intros o' ? ?. congruence.
Qed.

(** An object with [n > 0] references besides the one of its creation
    outlives [qb_hdb_handle_destroy]: from the destroy on every get of its handle
    is refused, its instance is released by the last of the [n] puts and not
    earlier, once, and the handle stays refused. *)
Theorem destroyed_object_drains env h db hd o n :
  realloc_ok (array_env env) = true -> calloc_ok (array_env env) = true ->
  hdb_rep h db -> find db hd = Some o -> o_refs o = Z.of_nat (S (S n)) ->
  snd <$> hdb_run env h (H_destroy hd :: drain_ops hd (S n) ++ [H_get hd]) =
    Some ((0, 0, []) :: drain_results (destructor h) (o_inst o) (S n)).
Proof.
  intros Hre Hca Hr Hf Hn. destruct (find_lookup _ _ _ Hf) as [Hl Hc].
  assert (o_refs o < 2 ^ 31).
  { destruct (hr_dom _ _ Hr (handle_slot hd)) as [? ?]; [eauto|].
    pose proof (hr_slot _ _ Hr (handle_slot hd) ltac:(lia)) as Hs. rewrite Hl in Hs. apply Hs. }
  set (o1 := with_refs (pending o) (o_refs o - 1)). set (db1 := <[handle_slot hd := o1]> db).
  assert (Hd : spec_destroy db hd = (db1, 0, [])).
  { unfold spec_destroy, spec_drop. rewrite Hf. cbn [o_refs pending]. destruct (Z.eqb_spec (o_refs o) 1); [lia|done]. }
  destruct (drain_spec (destructor h) hd n db1 o1) as [Hfine Hrun]; [by apply find_insert|done|change (o_refs o1) with (o_refs o - 1); lia..|].
  destruct (run_refines env (H_destroy hd :: drain_ops hd (S n) ++ [H_get hd]) h db Hre Hca Hr) as (h' & -> & _).
  - cbn [run_fine]. unfold spec_step at 1. rewrite Hd. split; [left; eauto|done].
  - cbn [spec_run]. unfold spec_step at 1. rewrite Hd.
    destruct (spec_run _ db1 _) as [db2 rs]. cbn [snd] in *. by rewrite Hrun.
Qed.

(** ** Iteration *)

Definition is_active (oo : option obj) : bool :=
  match oo with Some o => negb (o_pending o) | None => false end.

(** The iterator stepped over slots without an active object, up to [i]. *)
Definition skipped (db : gmap Z obj) (from upto : Z) : Prop :=
  forall j, from <= j < upto -> is_active (db !! j) = false.

Lemma slot_check h db i :
  hdb_rep h db -> 0 <= i < handle_count h ->
  make_handle (check (slot h i)) i = check (slot h i) * 2 ^ 32 + i /\
  handle_slot (check (slot h i) * 2 ^ 32 + i) = i /\ handle_check (check (slot h i) * 2 ^ 32 + i) = check (slot h i).
Proof.
  intros Hr Hi. pose proof (rep_max _ _ Hr). pose proof (hr_slot _ _ Hr i Hi) as Hs.
  assert (0 <= check (slot h i) < 2 ^ 31).
  { destruct (db !! i) as [o|]; [destruct Hs as (_ & _ & -> & _ & Hc & _); lia|destruct Hs as [_ ->]; lia]. }
  rewrite make_handle_sum by lia. destruct (handle_decode (check (slot h i)) i); [lia|lia|done].
Qed.

Lemma rep_iterator h db n : hdb_rep h db <-> hdb_rep (with_iterator h n) db.
Proof. split; intros []; by constructor. Qed.

(** The object in a slot has room for one more reference. *)
Definition refs_bounded (db : gmap Z obj) : Prop :=
  forall i o, db !! i = Some o -> o_pending o = false -> o_refs o + 1 < 2 ^ 31.

Lemma iterator_loop_ok env fuel : forall h db res inst hd,
  hdb_rep h db -> refs_bounded db -> 0 <= iterator h <= handle_count h -> res <> 0 ->
  (Z.to_nat (handle_count h - iterator h) < fuel)%nat ->
  exists h' res' inst' hd', iterator_loop fuel h (handle_count h) res inst hd env = Some (h', res', inst', hd') /\
    handle_count h' = handle_count h /\
    ((exists s o, iterator h <= s /\ skipped db (iterator h) s /\ db !! s = Some o /\ o_pending o = false /\
        res' = 0 /\ inst' = o_inst o /\ hd' = o_check o * 2 ^ 32 + s /\ iterator h' = s + 1 /\
        hdb_rep h' (<[s := with_refs o (o_refs o + 1)]> db)) \/
     (skipped db (iterator h) (handle_count h) /\ res' <> 0 /\ iterator h' = handle_count h /\ hdb_rep h' db)).
Proof.
  induction fuel as [|fuel IH]; intros h db res inst hd Hr Hb Hi Hres Hf; [lia|]. cbn [iterator_loop].
  pose proof (rep_max _ _ Hr). destruct (Z.ltb_spec (iterator h) (handle_count h)) as [Hlt|].
  2:{ exists h, res, inst, hd. split_and!; try done. right. split_and!; try done; [|lia]. intros j Hj. lia. }
  set (i := iterator h) in *. rewrite (i32_small i) by lia. rewrite (index_slot h db) by (done || lia).
  cbn [mbind option_bind]. fold (slot h i). fold i. destruct (slot_check h db i Hr ltac:(lia)) as (-> & Hds & Hdc).
  destruct (get_ok h db (check (slot h i) * 2 ^ 32 + i) env Hr) as (h1 & -> & Hr1 & [Hit _ _] & Hcn).
  { intros o (Hl & _)%find_lookup. by apply Hb in Hl. }
  cbn [mbind option_bind]. fold i in Hit. rewrite Hit, u32_small by lia. set (h2 := with_iterator h1 (i + 1)).
  pose proof (hr_slot _ _ Hr i ltac:(lia)) as Hs. destruct (is_active (db !! i)) eqn:Hact.
  - destruct (db !! i) as [o|] eqn:E; [|done]. cbn in Hact. apply negb_true_iff in Hact.
    assert (Hg : spec_get db (check (slot h i) * 2 ^ 32 + i) = (<[i := with_refs o (o_refs o + 1)]> db, 0, o_inst o)).
    { unfold spec_get, find. rewrite Hds, E. cbn. rewrite Hdc. destruct Hs as (_ & _ & -> & _).
      rewrite Z.eqb_refl, orb_true_r. by rewrite Hact. }
    rewrite Hg in *. cbn [fst snd]. rewrite Z.eqb_refl. exists h2, 0, (o_inst o), (o_check o * 2 ^ 32 + i).
    split; [by destruct Hs as (_ & _ & -> & _)|]. split; [done|]. left. exists i, o. split_and!; try done.
    + intros j Hj. lia.
    + by apply rep_iterator.
  - assert (Hg : spec_get db (check (slot h i) * 2 ^ 32 + i) = (db, - EBADF, 0)).
    { unfold spec_get, find. rewrite Hds. destruct (db !! i) as [o|]; [|done]. cbn in *.
      apply negb_false_iff in Hact. destruct (_ || _); [by rewrite Hact|done]. }
    rewrite Hg in *. cbn [fst snd]. change (- EBADF =? 0) with false.
    destruct (IH h2 db (- EBADF) 0 (check (slot h i) * 2 ^ 32 + i)) as (h' & res' & inst' & hd' & E & Hc' & Hcase);
      [by apply rep_iterator|done|cbn; lia|done|cbn; lia|].
    cbn [iterator handle_count h2 with_iterator] in *. rewrite Hcn in *.
    exists h', res', inst', hd'. split; [done|]. split; [done|].
    assert (Hskip : forall u, skipped db (i + 1) u -> skipped db i u).
    { intros u Hu j Hj. destruct (decide (j = i)) as [->|]; [done|]. apply Hu. lia. }
    destruct Hcase as [(s & o & Hle & Hsk & Hrest)|[Hsk Hrest]]; [left; exists s, o|right].
    + split; [lia|]. split; [by apply Hskip|exact Hrest].
    + split; [by apply Hskip|exact Hrest].
Qed.

(** The iterator visits the active objects in slot order: a step returns
    the handle and instance of the first active object from the iterator on,
    with a reference taken, and moves past it; when there is none it returns an
    error, takes no reference and moves to the end. *)
Theorem iterator_visits_active env h db inst hd :
  hdb_rep h db -> refs_bounded db -> 0 <= iterator h <= handle_count h ->
  exists h' res' inst' hd', qb_hdb_iterator_next h inst hd env = Some (h', res', inst', hd') /\
    handle_count h' = handle_count h /\
    ((exists s o, iterator h <= s /\ skipped db (iterator h) s /\ db !! s = Some o /\ o_pending o = false /\
        res' = 0 /\ inst' = o_inst o /\ hd' = o_check o * 2 ^ 32 + s /\ iterator h' = s + 1 /\
        hdb_rep h' (<[s := with_refs o (o_refs o + 1)]> db)) \/
     (skipped db (iterator h) (handle_count h) /\ res' <> 0 /\ iterator h' = handle_count h /\ hdb_rep h' db)).
Proof. intros. apply iterator_loop_ok; done || lia. Qed.

(** * Handle database: concrete runs

    The theorems of the component at a database with one object. *)
Module HdbExamples.

(** A new database with a destructor. *)
Definition new_hdb : qb_hdb := qb_hdb_create_first_run (QB_HDB_DECLARE true) hdb_alloc_fine.

Definition handle77 : Z := 77 * 2 ^ 32.

(** Create an object (the first random number is refused), take a second
    reference, destroy it, fail to get it, drop the last reference, and create
    another object in the same slot: the old handle stays refused. *)
Definition life : list hdb_op :=
  [H_create 5000 [0; 77]; H_get handle77; H_refcount handle77; H_destroy handle77; H_get handle77;
   H_put handle77; H_create 6000 [78]; H_get handle77].

Lemma hdb_refines_witness :
  snd <$> hdb_run hdb_alloc_fine new_hdb life = Some (snd (spec_run true ∅ life)).
Proof.
  apply (hdb_refines hdb_alloc_fine true life); [reflexivity..|].
  cbn [run_fine life]. split_and!; try reflexivity.
  all: try (left; eexists; vm_compute; reflexivity).
  all: intros o Ho Hp; vm_compute in Ho; try discriminate; injection Ho as <-; vm_compute in Hp; try discriminate; vm_compute; reflexivity.
Defined.

Example life_results :
  snd <$> hdb_run hdb_alloc_fine new_hdb life =
  Some [(0, handle77, []); (0, 5000, []); (2, 0, []); (0, 0, []); (- EBADF, 0, []);
   (0, 0, [Eff_destructor 5000; Eff_free 5000]); (0, 78 * 2 ^ 32, []); (- EBADF, 0, [])].
Proof. vm_compute. reflexivity. Qed.

(** A database with one object that has three references. *)
Definition obj3 : obj := {| o_inst := 5000; o_check := 77; o_refs := 3; o_pending := false |}.
Definition held_hdb : qb_hdb :=
  match hdb_run hdb_alloc_fine new_hdb [H_create 5000 [77]; H_get handle77; H_get handle77] with
  | Some (h, _) => h
  | None => zeroed_hdb
  end.

Lemma held_rep : hdb_rep held_hdb {[ 0 := obj3 ]}.
Proof.
  destruct (first_run_rep true hdb_alloc_fine) as [Hr Hd]; [reflexivity..|].
  destruct (run_refines hdb_alloc_fine [H_create 5000 [77]; H_get handle77; H_get handle77] new_hdb ∅)
    as (h' & E & Hr' & _); [reflexivity|reflexivity|exact Hr| |].
  - cbn [run_fine]. split_and!; [reflexivity| |..|exact I].
    all: intros o Ho Hp; vm_compute in Ho; injection Ho as <-; vm_compute; reflexivity.
  - unfold held_hdb. rewrite E.
    replace {[0 := obj3]} with (fst (spec_run (destructor new_hdb) ∅ [H_create 5000 [77]; H_get handle77; H_get handle77]));
      [exact Hr'|vm_compute; reflexivity].
Qed.

Lemma destroyed_object_drains_witness :
  snd <$> hdb_run hdb_alloc_fine held_hdb (H_destroy handle77 :: drain_ops handle77 2 ++ [H_get handle77]) =
    Some [(0, 0, []); (- EBADF, 0, []); (0, 0, []); (- EBADF, 0, []); (0, 0, [Eff_destructor 5000; Eff_free 5000]);
     (- EBADF, 0, [])].
Proof.
  apply (destroyed_object_drains hdb_alloc_fine held_hdb {[ 0 := obj3 ]} handle77 obj3 1);
    [reflexivity|reflexivity|exact held_rep|reflexivity|reflexivity].
Defined.

Lemma iterator_visits_active_witness :
  exists h' res' inst' hd', qb_hdb_iterator_next held_hdb 0 0 hdb_alloc_fine = Some (h', res', inst', hd') /\
    handle_count h' = 1.
Proof.
  destruct (iterator_visits_active hdb_alloc_fine held_hdb {[ 0 := obj3 ]} 0 0) as (h' & r & i & d & E & Hc & _).
  - exact held_rep.
  - intros i o [<- <-]%lookup_singleton_Some _. reflexivity.
  - vm_compute. split; discriminate.
  - exists h', r, i, d. split; [exact E|exact Hc].
Defined.

End HdbExamples.
