(* ===== verification/QbList.v ===== *)
(** * Linked lists (include/qb/qblist.h)

    Circular doubly linked lists of heads embedded in other structures, on a
    heap from addresses to heads, with every assignment of the source in its
    order.  [dll h head l]: from [head] the list runs through the addresses [l]
    and back, in both directions. *)
From S2P Require Import Prelude.

Record qb_list_head := { next_ : Z; prev_ : Z }.
#[export] Instance qb_list_head_inhabited : Inhabited qb_list_head := populate {| next_ := 0; prev_ := 0 |}.

Abbreviation list_heap := (gmap Z qb_list_head).

(** [p->next], [p->prev] and the assignments to them. *)
Definition next (h : list_heap) (p : Z) : Z := next_ (h !!! p).
Definition prev (h : list_heap) (p : Z) : Z := prev_ (h !!! p).
Definition set_next (h : list_heap) (p v : Z) : list_heap := <[p := {| next_ := v; prev_ := prev h p |}]> h.
Definition set_prev (h : list_heap) (p v : Z) : list_heap := <[p := {| next_ := next h p; prev_ := v |}]> h.

(** ** Operations *)

Definition qb_list_init (h : list_heap) (head : Z) : list_heap :=
  let h := set_next h head head in
  set_prev h head head.

Definition qb_list_add (h : list_heap) (element head : Z) : list_heap :=
  let h := set_prev h (next h head) element in
  let h := set_next h element (next h head) in
  let h := set_prev h element head in
  set_next h head element.

Definition qb_list_add_tail (h : list_heap) (element head : Z) : list_heap :=
  let h := set_next h (prev h head) element in
  let h := set_next h element head in
  let h := set_prev h element (prev h head) in
  set_prev h head element.

Definition qb_list_del (h : list_heap) (_remove : Z) : list_heap :=
  let h := set_prev h (next h _remove) (prev h _remove) in
  set_next h (prev h _remove) (next h _remove).

Definition qb_list_replace (h : list_heap) (old_one new_one : Z) : list_heap :=
  let h := set_next h new_one (next h old_one) in
  let h := set_prev h (next h new_one) new_one in
  let h := set_prev h new_one (prev h old_one) in
  set_next h (prev h new_one) new_one.

Definition qb_list_is_last (h : list_heap) (list head : Z) : bool := next h list =? head.

Definition qb_list_empty (h : list_heap) (head : Z) : bool := next h head =? head.

Definition qb_list_splice (h : list_heap) (list head : Z) : list_heap :=
  let first := next h list in
  let last := prev h list in
  let at_ := next h head in
  if negb (qb_list_empty h list) then
    let h := set_prev h first head in
    let h := set_next h head first in
    let h := set_next h last at_ in
    set_prev h at_ last
  else h.

Definition qb_list_splice_tail (h : list_heap) (list head : Z) : list_heap :=
  let first := next h list in
  let last := prev h list in
  let at_ := head in
  if negb (qb_list_empty h list) then
    let h := set_prev h first (prev h head) in
    let h := set_next h (prev h head) first in
    let h := set_next h last at_ in
    set_prev h at_ last
  else h.

(** [qb_list_for_each] from [pos] on: the entries visited; [None] when the walk
    does not come back to the head within the fuel. *)
Fixpoint qb_list_for_each (fuel : nat) (h : list_heap) (pos head : Z) : option (list Z) :=
  match fuel with
  | O => None
  | S fuel' =>
    if pos =? head then Some []
    else l ← qb_list_for_each fuel' h (next h pos) head; Some (pos :: l)
  end.

Fixpoint qb_list_for_each_reverse (fuel : nat) (h : list_heap) (pos head : Z) : option (list Z) :=
  match fuel with
  | O => None
  | S fuel' =>
    if pos =? head then Some []
    else l ← qb_list_for_each_reverse fuel' h (prev h pos) head; Some (pos :: l)
  end.

Definition qb_list_length (fuel : nat) (h : list_heap) (head : Z) : option Z :=
  l ← qb_list_for_each fuel h (next h head) head;
  Some (foldl (fun length _ => i32 (length + 1)) 0 l).

(** ** Representation *)

(** [b] follows [a]. *)
Definition link (h : list_heap) (a b : Z) : Prop := next h a = b /\ prev h b = a.

Fixpoint path (h : list_heap) (a : Z) (l : list Z) (b : Z) : Prop :=
  match l with
  | [] => link h a b
  | x :: l => link h a x /\ path h x l b
  end.

Definition dll (h : list_heap) (head : Z) (l : list Z) : Prop :=
  NoDup (head :: l) /\ path h head l head.

(** ** Reading after writing *)

Lemma next_set_next h p v x : next (set_next h p v) x = if decide (x = p) then v else next h x.
Proof.
  unfold next, set_next. case_decide; subst; [by rewrite lookup_total_insert_eq|].
  by rewrite lookup_total_insert_ne by done.
Qed.
Lemma prev_set_prev h p v x : prev (set_prev h p v) x = if decide (x = p) then v else prev h x.
Proof.
  unfold prev, set_prev. case_decide; subst; [by rewrite lookup_total_insert_eq|].
  by rewrite lookup_total_insert_ne by done.
Qed.
Lemma prev_set_next h p v x : prev (set_next h p v) x = prev h x.
Proof.
  unfold prev, set_next. destruct (decide (x = p)); subst; [by rewrite lookup_total_insert_eq|].
  by rewrite lookup_total_insert_ne by done.
Qed.
Lemma next_set_prev h p v x : next (set_prev h p v) x = next h x.
Proof.
  unfold next, set_prev. destruct (decide (x = p)); subst; [by rewrite lookup_total_insert_eq|].
  by rewrite lookup_total_insert_ne by done.
Qed.
Create Rewrite HintDb qb_list.
#[export] Hint Rewrite next_set_next prev_set_prev prev_set_next next_set_prev : qb_list.

(** Compute the fields after a sequence of assignments. *)
Ltac heap_simpl := repeat (progress (autorewrite with qb_list) || case_decide); subst.

(** ** Paths *)

Lemma path_app h a l1 x l2 b : path h a (l1 ++ x :: l2) b <-> path h a l1 x /\ path h x l2 b.
Proof. revert a. induction l1 as [|y l1 IH]; intros a; cbn [path app]; [done|]. rewrite IH. tauto. Qed.

(** A path reads the [next] of all its addresses but the last and the [prev]
    of all but the first. *)
Lemma path_ext h h' a l b :
  (forall x, x ∈ a :: l -> next h' x = next h x) -> (forall x, x ∈ b :: l -> prev h' x = prev h x) ->
  path h a l b -> path h' a l b.
Proof.
  revert a. induction l as [|y l IH]; intros a Hn Hp; cbn [path].
  - unfold link. rewrite Hn, Hp by set_solver. done.
  - unfold link. rewrite Hn, (Hp y) by set_solver. intros [? ?]. split; [done|]. apply IH; [set_solver..|done].
Qed.

(** The first and the last entry. *)
Lemma path_first h a l b : path h a l b -> next h a = hd b l.
Proof. destruct l; cbn; [by intros []|by intros [[] _]]. Qed.

Lemma path_last h a l b : path h a l b -> prev h b = List.last l a.
Proof.
  revert a. induction l as [|x l IH]; intros a; cbn [path]; [by intros []|].
  intros [_ Hp]. rewrite (IH x Hp). destruct l; [done|]. cbn. destruct l; [done|]. 
  clear. revert z0 x a. induction l as [|y l IH]; [done|]. intros. apply IH.
Qed.
