(* ===== verification/QbListTheorems.v ===== *)
(** * Linked lists: correctness

    Each operation on the pointers does to the sequence of entries what its
    name says, and leaves the lists it is not applied to alone. *)
From S2P Require Import Prelude QbList.

(** ** Shared lemmas *)

(** [h'] differs from [h] at most at the addresses [d]. *)
Definition changes_only (d : list Z) (h h' : list_heap) : Prop :=
  forall x, x ∉ d -> next h' x = next h x /\ prev h' x = prev h x.

Lemma dll_frame d h h' other l :
  changes_only d h h' -> (forall x, x ∈ other :: l -> x ∉ d) -> dll h other l -> dll h' other l.
Proof.
  intros Hc Ha [Hnd Hp]. split; [done|]. eapply path_ext, Hp; intros x Hx; apply Hc, Ha; set_solver.
Qed.

Lemma hd_in {A} (d : A) l : hd d l ∈ d :: l.
Proof. destruct l; set_solver. Qed.

Lemma last_in {A} (d : A) l : List.last l d ∈ d :: l.
Proof. induction l as [|x l IH]; [set_solver|]. destruct l; [set_solver|]. cbn in *. set_solver. Qed.

Lemma last_default {A} (d : A) x l : List.last (x :: l) d = List.last l x.
Proof.
  revert d x. induction l as [|y l IH]; [done|]. intros d x.
  change (List.last (x :: y :: l) d) with (List.last (y :: l) d). by rewrite (IH d y), (IH x y).
Qed.

Lemma last_snoc {A} (d : A) l x : List.last (l ++ [x]) d = x.
Proof. induction l as [|y l IH]; [done|]. cbn. rewrite IH. by destruct l. Qed.

Lemma dll_next h head l : dll h head l -> next h head = hd head l.
Proof. intros [_ Hp]. by apply path_first in Hp. Qed.

Lemma dll_prev h head l : dll h head l -> prev h head = List.last l head.
Proof. intros [_ Hp]. by apply path_last in Hp. Qed.

(** Split a list at its end. *)
Lemma snoc_case {A} (l : list A) : l = [] \/ exists k x, l = k ++ [x].
Proof. destruct l using rev_ind; [by left|right; eauto]. Qed.

(** ** Operations *)

Lemma init_dll h head : dll (qb_list_init h head) head [] /\ changes_only [head] h (qb_list_init h head).
Proof.
  unfold qb_list_init. split; [split; [apply NoDup_singleton|]|].
  - cbn. unfold link. by heap_simpl.
  - intros x Hx. heap_simpl; set_solver.
Qed.

(** A path keeps its entries when its ends are moved: [l] ran from [a] to [b]
    and now runs from [a'] to [b']. *)
Lemma path_reroute h h' a a' l b b' :
  NoDup l -> path h a l b ->
  next h' a' = hd b' l -> prev h' b' = List.last l a' ->
  (forall x, x ∈ l -> prev h' x = if decide (x = hd b' l) then a' else prev h x) ->
  (forall x, x ∈ l -> next h' x = if decide (x = List.last l a') then b' else next h x) ->
  path h' a' l b'.
Proof.
  revert a a'. induction l as [|x l IH]; intros a a' Hnd Hp Hn Hpr Hprev Hnext; [done|].
  apply list.NoDup_cons in Hnd as [Hx Hnd]. destruct Hp as [_ Hp]. cbn [hd] in *.
  rewrite last_default in *. split.
  - split; [done|]. rewrite Hprev by set_solver. by rewrite decide_True.
  - apply (IH x x); [done|done| |done|..].
    + rewrite Hnext by set_solver. case_decide as E.
      * destruct l; [done|]. exfalso. apply Hx. rewrite E, last_default. apply last_in.
      * destruct l; [done|]. by apply path_first in Hp.
    + intros y Hy. rewrite Hprev by set_solver. rewrite decide_False by set_solver.
      case_decide; [|done]. subst. destruct l as [|z l]; [set_solver|]. by destruct Hp as [[_ ?] _].
    + intros y Hy. by rewrite Hnext by set_solver.
Qed.

Lemma path_join h a l1 l2 b :
  path h a l1 (hd b l2) -> path h (List.last l1 a) l2 b -> path h a (l1 ++ l2) b.
Proof.
  revert a. induction l1 as [|x l1 IH]; intros a; [done|]. rewrite last_default. cbn [path app].
  intros [? ?] ?. split; [done|]. by apply IH.
Qed.

(** What the ends of a path know of each other. *)
Lemma path_ends h a l b :
  path h a l b ->
  next h a = hd b l /\ prev h (hd b l) = a /\ next h (List.last l a) = b /\ prev h b = List.last l a.
Proof.
  intros Hp. split; [by apply path_first in Hp|]. split; [destruct l; [by apply Hp|by apply Hp]|].
  split; [|by apply path_last in Hp].
  destruct (snoc_case l) as [->|(k & x & ->)]; [by apply Hp|]. rewrite last_snoc. apply path_app in Hp. by apply Hp.
Qed.

(** Resolve the conditionals of a rerouted path. *)
Ltac reroute :=
  intros; try match goal with |- _ /\ _ => split end;
  repeat (progress (autorewrite with qb_list) || case_decide); try congruence;
  repeat match goal with
  | E : prev ?h ?a = _, H : context [prev ?h ?a] |- _ => assert_fails (constr_eq E H); rewrite E in H
  | E : next ?h ?a = _, H : context [next ?h ?a] |- _ => assert_fails (constr_eq E H); rewrite E in H
  end;
  try congruence; exfalso;
  repeat match goal with
  | E : prev _ _ = _ |- _ => clear E
  | E : next _ _ = _ |- _ => clear E
  | E : path _ _ _ _ |- _ => clear E
  | E : NoDup _ |- _ => clear E
  end;
  repeat match goal with
  | H : context [hd ?a ?l] |- _ => let n := fresh in set (n := hd a l) in *; clearbody n
  | H : context [List.last ?l ?a] |- _ => let n := fresh in set (n := List.last l a) in *; clearbody n
  end;
  first
    [ match goal with
      | Hdis : forall a b, a ∈ _ -> b ∈ _ -> a <> b, E : ?a = ?b |- False =>
          solve [ refine (Hdis a b _ _ E); clear Hdis; rewrite !elem_of_cons in *; tauto
                | refine (Hdis b a _ _ (eq_sym E)); clear Hdis; rewrite !elem_of_cons in *; tauto ]
      end
    | set_solver ].

Lemma add_dll h head l e :
  dll h head l -> e ∉ head :: l ->
  dll (qb_list_add h e head) head (e :: l) /\ changes_only (e :: head :: l) h (qb_list_add h e head).
Proof.
  intros [Hnd Hp] He. destruct (path_ends _ _ _ _ Hp) as (E1 & E2 & E3 & E4).
  pose proof (hd_in head l) as Hin. rewrite <- E1 in Hin. pose proof Hnd as [Hh Hl]%list.NoDup_cons. split; [split|].
  - rewrite !list.NoDup_cons. set_solver.
  - unfold qb_list_add. split; [unfold link; reroute|].
    destruct l as [|x l]; [unfold path, link; cbn [hd List.last] in *; reroute|].
    rewrite last_default in *. cbn [hd] in *. pose proof (last_in x l).
    apply (path_reroute h _ head e (x :: l) head head); try done; rewrite ?last_default; cbn [hd]; reroute.
  - intros x Hx. unfold qb_list_add. reroute.
Qed.

Lemma add_tail_dll h head l e :
  dll h head l -> e ∉ head :: l ->
  dll (qb_list_add_tail h e head) head (l ++ [e]) /\ changes_only (e :: head :: l) h (qb_list_add_tail h e head).
Proof.
  intros [Hnd Hp] He. destruct (path_ends _ _ _ _ Hp) as (E1 & E2 & E3 & E4).
  pose proof (last_in head l) as Hin. rewrite <- E4 in Hin. pose proof Hnd as [Hh Hl]%list.NoDup_cons. split; [split|].
  - rewrite <- Permutation_cons_append. rewrite !list.NoDup_cons. set_solver.
  - unfold qb_list_add_tail. apply path_app. split; [|unfold path, link; reroute].
    destruct l as [|x l]; [unfold path, link; cbn [hd List.last] in *; reroute|].
    rewrite last_default in *. cbn [hd] in *. pose proof (last_in x l). rewrite E4.
    apply (path_reroute h _ head head (x :: l) head e); try done; rewrite ?last_default; cbn [hd]; reroute.
  - intros x Hx. unfold qb_list_add_tail. reroute.
Qed.

Lemma dll_middle h head l1 e l2 :
  dll h head (l1 ++ e :: l2) ->
  NoDup (head :: l1 ++ l2) /\ (e ∉ head :: l1 ++ l2) /\ NoDup l1 /\ NoDup l2 /\ (forall x, x ∈ l1 -> (x ∉ l2)) /\
  path h head l1 e /\ path h e l2 head.
Proof.
  intros [Hnd Hp]. apply path_app in Hp. rewrite <- Permutation_middle in Hnd.
  rewrite !list.NoDup_cons, list.NoDup_app in *. set_solver.
Qed.

(** Removing an entry; its own pointers stay as they were. *)
Lemma del_dll h head l1 e l2 :
  dll h head (l1 ++ e :: l2) ->
  dll (qb_list_del h e) head (l1 ++ l2) /\ changes_only (head :: l1 ++ l2) h (qb_list_del h e).
Proof.
  intros (Hnd & He & Hn1 & Hn2 & Hap & Hp1 & Hp2)%dll_middle.
  destruct (path_ends _ _ _ _ Hp1) as (E1 & E2 & E3 & E4). destruct (path_ends _ _ _ _ Hp2) as (F1 & F2 & F3 & F4).
  pose proof (last_in head l1) as Hi1. pose proof (hd_in head l2) as Hi2.
  apply list.NoDup_cons in Hnd as Hh. destruct Hh as [Hh _]. split; [split; [done|]|].
  - unfold qb_list_del. rewrite E4, F1. apply path_join.
    + destruct l1 as [|x l1].
      * unfold path, link. cbn [hd List.last] in *. reroute.
      * rewrite last_default in *. cbn [hd] in *. pose proof (last_in x l1).
        apply (path_reroute h _ head head (x :: l1) e); try done; rewrite ?last_default; cbn [hd]; reroute.
    + destruct l2 as [|x l2].
      * unfold path, link. cbn [hd List.last] in *. reroute.
      * rewrite (last_default _ x l2) in *. cbn [hd] in *. pose proof (last_in x l2).
        apply (path_reroute h _ e (List.last l1 head) (x :: l2) head); try done; rewrite ?last_default; cbn [hd]; reroute.
  - intros x Hx. unfold qb_list_del. rewrite E4, F1. reroute.
Qed.

(** The new entry takes the place of the old one, which keeps its pointers. *)
Lemma replace_dll h head l1 e l2 n :
  dll h head (l1 ++ e :: l2) -> n ∉ head :: l1 ++ e :: l2 ->
  dll (qb_list_replace h e n) head (l1 ++ n :: l2) /\
  changes_only (n :: head :: l1 ++ l2) h (qb_list_replace h e n).
Proof.
  intros (Hnd & He & Hn1 & Hn2 & Hap & Hp1 & Hp2)%dll_middle Hn.
  destruct (path_ends _ _ _ _ Hp1) as (E1 & E2 & E3 & E4). destruct (path_ends _ _ _ _ Hp2) as (F1 & F2 & F3 & F4).
  pose proof (last_in head l1) as Hi1. pose proof (hd_in head l2) as Hi2.
  pose proof Hnd as [Hh _]%list.NoDup_cons. split; [split|].
  - rewrite <- Permutation_middle. rewrite list.NoDup_cons in Hnd |- *. rewrite list.NoDup_cons. set_solver.
  - unfold qb_list_replace. rewrite F1. apply path_app. split.
    + destruct l1 as [|x l1].
      * unfold path, link. cbn [hd List.last] in *. reroute.
      * rewrite last_default in *. cbn [hd] in *. pose proof (last_in x l1).
        apply (path_reroute h _ head head (x :: l1) e n); try done; rewrite ?last_default; cbn [hd]; reroute.
    + destruct l2 as [|x l2].
      * unfold path, link. cbn [hd List.last] in *. reroute.
      * rewrite (last_default _ x l2) in *. cbn [hd] in *. pose proof (last_in x l2).
        apply (path_reroute h _ e n (x :: l2) head); try done; rewrite ?last_default; cbn [hd]; reroute.
  - intros x Hx. unfold qb_list_replace. rewrite F1. reroute.
Qed.

Lemma empty_dll h head l : dll h head l -> qb_list_empty h head = true <-> l = [].
Proof.
  intros [Hnd Hp]. unfold qb_list_empty. rewrite (path_first _ _ _ _ Hp), Z.eqb_eq.
  destruct l as [|x l]; [done|]. apply list.NoDup_cons in Hnd as [? _]. set_solver.
Qed.

Lemma NoDup_splice (a b : Z) l1 l2 :
  NoDup (a :: l1) -> NoDup (b :: l2) -> (forall x y, x ∈ a :: l1 -> y ∈ b :: l2 -> x <> y) -> NoDup (b :: l1 ++ l2).
Proof. rewrite !list.NoDup_cons, list.NoDup_app. set_solver. Qed.

(** Joining at the front; the spliced head keeps its pointers. *)
Lemma splice_dll h lst l1 head l2 :
  dll h lst l1 -> dll h head l2 -> (forall a b, a ∈ lst :: l1 -> b ∈ head :: l2 -> a <> b) ->
  dll (qb_list_splice h lst head) head (l1 ++ l2) /\
  changes_only (head :: l1 ++ l2) h (qb_list_splice h lst head) /\
  next (qb_list_splice h lst head) lst = hd lst l1.
Proof.
  intros Hd1 Hd2 Hdis. pose proof (empty_dll _ _ _ Hd1) as Hemp. destruct Hd1 as [Hnd1 Hp1], Hd2 as [Hnd2 Hp2].
  destruct (path_ends _ _ _ _ Hp1) as (E1 & E2 & E3 & E4). destruct (path_ends _ _ _ _ Hp2) as (F1 & F2 & F3 & F4).
  unfold qb_list_splice. destruct (qb_list_empty h lst); cbn [negb].
  { rewrite (proj1 Hemp eq_refl) in *. by split_and!. }
  destruct l1 as [|x l1]; [by assert (false = true) by by apply Hemp|]. rewrite last_default in *. cbn [hd] in *.
  pose proof (last_in x l1) as Hi1. pose proof (hd_in head l2) as Hi2. rewrite E1, E4, F1.
  pose proof Hnd1 as [? Hn1]%list.NoDup_cons. pose proof Hnd2 as [? Hn2]%list.NoDup_cons.
  split; [split; [by eapply NoDup_splice|]|split].
  - apply path_join; [|rewrite last_default].
    + apply (path_reroute h _ lst head (x :: l1) lst); try done; rewrite ?last_default; cbn [hd]; reroute.
    + destruct l2 as [|y l2].
      * unfold path, link. cbn [hd List.last] in *. reroute.
      * rewrite (last_default _ y l2) in *. cbn [hd] in *. pose proof (last_in y l2).
        apply (path_reroute h _ head _ (y :: l2) head); try done; rewrite ?last_default; cbn [hd]; reroute.
  - intros y Hy. reroute.
  - reroute.
Qed.

(** Joining at the end. *)
Lemma splice_tail_dll h lst l1 head l2 :
  dll h lst l1 -> dll h head l2 -> (forall a b, a ∈ lst :: l1 -> b ∈ head :: l2 -> a <> b) ->
  dll (qb_list_splice_tail h lst head) head (l2 ++ l1) /\
  changes_only (head :: l1 ++ l2) h (qb_list_splice_tail h lst head).
Proof.
  intros Hd1 Hd2 Hdis. pose proof (empty_dll _ _ _ Hd1) as Hemp. destruct Hd1 as [Hnd1 Hp1], Hd2 as [Hnd2 Hp2].
  destruct (path_ends _ _ _ _ Hp1) as (E1 & E2 & E3 & E4). destruct (path_ends _ _ _ _ Hp2) as (F1 & F2 & F3 & F4).
  unfold qb_list_splice_tail. destruct (qb_list_empty h lst); cbn [negb].
  { rewrite (proj1 Hemp eq_refl), app_nil_r in *. by split_and!. }
  destruct l1 as [|x l1]; [by assert (false = true) by by apply Hemp|]. rewrite last_default in *. cbn [hd] in *.
  pose proof (last_in x l1) as Hi1. pose proof (last_in head l2) as Hi2. rewrite E1, E4, F4.
  pose proof Hnd1 as [? Hn1]%list.NoDup_cons. pose proof Hnd2 as [? Hn2]%list.NoDup_cons.
  split; [split|].
  - rewrite (Permutation_app_comm l2). by eapply NoDup_splice.
  - apply path_join.
    + destruct l2 as [|y l2].
      * unfold path, link. cbn [hd List.last] in *. reroute.
      * rewrite (last_default _ y l2) in *. cbn [hd] in *. pose proof (last_in y l2).
        apply (path_reroute h _ head _ (y :: l2) head); try done; rewrite ?last_default; cbn [hd]; reroute.
    + apply (path_reroute h _ lst _ (x :: l1) lst); try done; rewrite ?last_default; cbn [hd]; reroute.
  - intros y Hy. reroute.
Qed.

(** ** Walking a list *)

Lemma for_each_path h b fuel : forall a l,
  path h a l b -> b ∉ l -> (length l < fuel)%nat -> qb_list_for_each fuel h (next h a) b = Some l.
Proof.
  induction fuel as [|fuel IH]; intros a l Hp Hb Hf; [lia|]. cbn [qb_list_for_each].
  rewrite (path_first _ _ _ _ Hp). destruct l as [|x l]; cbn [hd]; [by rewrite Z.eqb_refl|].
  destruct (Z.eqb_spec x b); [set_solver|]. destruct Hp as [_ Hp].
  rewrite (IH x l Hp); [done|set_solver|cbn in Hf; lia].
Qed.

Lemma for_each_reverse_path h a fuel : forall l b,
  path h a l b -> a ∉ l -> (length l < fuel)%nat -> qb_list_for_each_reverse fuel h (prev h b) a = Some (reverse l).
Proof.
  induction fuel as [|fuel IH]; intros l b Hp Ha Hf; [lia|]. cbn [qb_list_for_each_reverse].
  rewrite (path_last _ _ _ _ Hp). destruct (snoc_case l) as [->|(k & x & ->)]; [by rewrite Z.eqb_refl|].
  rewrite last_snoc. destruct (Z.eqb_spec x a); [set_solver|]. apply path_app in Hp as [Hp _].
  rewrite (IH k x Hp); [|set_solver|rewrite length_app in Hf; cbn in Hf; lia].
  cbn [mbind option_bind]. by rewrite reverse_app.
Qed.

Lemma count_i32_fold (l : list Z) n :
  0 <= n -> n + zlen l < 2 ^ 31 -> foldl (fun length _ => i32 (length + 1)) n l = n + zlen l.
Proof.
  revert n. induction l as [|x l IH]; intros n Hn Hl; cbn [foldl]; [rewrite zlen_nil; lia|].
  rewrite zlen_cons in *. pose proof (zlen_nonneg l). rewrite i32_small by lia. rewrite IH; lia.
Qed.

(** ** The operations as operations on sequences *)

(** The entries of every list that shares none with [touched] stay. *)
Definition others_stay (h h' : list_heap) (touched : list Z) : Prop :=
  forall other k, dll h other k -> (forall x, x ∈ other :: k -> x ∉ touched) -> dll h' other k.

(** C14. A list that was initialised is empty; adding in front or at the end, to
    the empty list as well, and removing and replacing an entry do so to the
    sequence of entries, and no list without a part in it changes. *)
Theorem insert_remove_correct h head l :
  dll (qb_list_init h head) head [] /\
  (dll h head l ->
   (forall n, n ∉ head :: l ->
      dll (qb_list_add h n head) head (n :: l) /\ others_stay h (qb_list_add h n head) (n :: head :: l) /\
      dll (qb_list_add_tail h n head) head (l ++ [n]) /\ others_stay h (qb_list_add_tail h n head) (n :: head :: l)) /\
   (forall l1 e l2, l = l1 ++ e :: l2 ->
      dll (qb_list_del h e) head (l1 ++ l2) /\ others_stay h (qb_list_del h e) (head :: l) /\
      forall n, n ∉ head :: l ->
        dll (qb_list_replace h e n) head (l1 ++ n :: l2) /\ others_stay h (qb_list_replace h e n) (n :: head :: l))).
Proof.
  split; [apply init_dll|]. intros Hd. split.
  - intros n Hn. destruct (add_dll _ _ _ _ Hd Hn) as [H1 F1]. destruct (add_tail_dll _ _ _ _ Hd Hn) as [H2 F2].
    split_and!; try done; intros other k Ho Hap; (eapply dll_frame; [eassumption| |done]); intros x Hx%Hap; set_solver.
  - intros l1 e l2 ->. destruct (del_dll _ _ _ _ _ Hd) as [H3 F3]. split_and!; [done| |].
    + intros other k Ho Hap. eapply dll_frame; [eassumption| |done]. intros x Hx%Hap. set_solver.
    + intros n Hn. destruct (replace_dll _ _ _ _ _ _ Hd Hn) as [H4 F4]. split; [done|]. intros other k Ho Hap.
      eapply dll_frame; [eassumption| |done]. intros x Hx%Hap. set_solver.
Qed.

(** Splicing moves the entries of the list [lst] in front of, or behind,
    those of [head].  The spliced head is not reset: while it had entries it
    still points at the first of them. *)
Theorem splice_correct h lst l1 head l2 :
  dll h lst l1 -> dll h head l2 -> (forall a b, a ∈ lst :: l1 -> b ∈ head :: l2 -> a <> b) ->
  dll (qb_list_splice h lst head) head (l1 ++ l2) /\
  dll (qb_list_splice_tail h lst head) head (l2 ++ l1) /\
  next (qb_list_splice h lst head) lst = hd lst l1 /\
  (dll (qb_list_init (qb_list_splice_tail h lst head) lst) head (l2 ++ l1) /\
   dll (qb_list_init (qb_list_splice_tail h lst head) lst) lst []) /\
  (forall other k, dll h other k -> (forall x, x ∈ other :: k -> (x ∉ head :: l1 ++ l2)) ->
     dll (qb_list_splice h lst head) other k /\ dll (qb_list_splice_tail h lst head) other k).
Proof.
  intros H1 H2 Hdis. destruct (splice_dll _ _ _ _ _ H1 H2 Hdis) as (Ha & Fa & Hn).
  destruct (splice_tail_dll _ _ _ _ _ H1 H2 Hdis) as [Hb Fb].
  destruct (init_dll (qb_list_splice_tail h lst head) lst) as [Hi Fi]. split_and!; try done.
  - eapply dll_frame; [exact Fi| |done]. intros x Hx ->%list_elem_of_singleton.
    destruct H1 as [Hnd _]. apply list.NoDup_cons in Hnd as [Hnd _].
    assert (lst ∉ head :: l2) by (intros Hin; apply (Hdis lst lst); [set_solver|done|done]). set_solver.
  - intros other k Ho Hap. split; [apply (dll_frame _ h _ other k Fa)|apply (dll_frame _ h _ other k Fb)]; done.
Qed.

(** Walking a list visits its entries in order, forwards and backwards,
    and ends; the length is their number, and the tests for the empty list and
    the last entry are exact. *)
Theorem traversal_correct h head l fuel :
  dll h head l -> (length l < fuel)%nat -> zlen l < 2 ^ 31 ->
  qb_list_for_each fuel h (next h head) head = Some l /\
  qb_list_for_each_reverse fuel h (prev h head) head = Some (reverse l) /\
  qb_list_length fuel h head = Some (zlen l) /\
  (qb_list_empty h head = true <-> l = []) /\
  (forall x, x ∈ l -> qb_list_is_last h x head = true <-> exists k, l = k ++ [x]).
Proof.
  intros Hd Hf Hl. pose proof (empty_dll _ _ _ Hd) as Hemp. destruct Hd as [Hnd Hp].
  apply list.NoDup_cons in Hnd as [Hh Hnd].
  pose proof (for_each_path _ _ _ _ _ Hp Hh Hf) as Hfe. split_and!; try done.
  - by apply for_each_reverse_path.
  - unfold qb_list_length. rewrite Hfe. cbn [mbind option_bind]. rewrite count_i32_fold by lia. done.
  - intros x (k1 & k2 & ->)%list_elem_of_split. unfold qb_list_is_last. apply path_app in Hp as [_ Hp].
    rewrite (path_first _ _ _ _ Hp), Z.eqb_eq. destruct k2 as [|y k2]; [split; [by exists k1|done]|].
    split; [cbn; set_solver|]. intros [k E]. exfalso.
    apply list.NoDup_app in Hnd as (_ & _ & Hnd). apply list.NoDup_cons in Hnd as [Hx _]. apply Hx.
    destruct (snoc_case (y :: k2)) as [E2|(k' & z & E2)]; [done|]. rewrite E2 in E |- *.
    rewrite app_comm_cons, app_assoc in E. apply app_inj_2 in E as [_ E]; [|done]. simplify_eq. set_solver.
Qed.

(** ** Witnesses *)

(** Two lists: head 1 with entries 10, 11, 12 and head 2 with entry 20. *)
Definition two_lists : list_heap :=
  let h := qb_list_init (qb_list_init ∅ 1) 2 in
  let h := qb_list_add_tail h 10 1 in
  let h := qb_list_add_tail h 11 1 in
  let h := qb_list_add_tail h 12 1 in
  qb_list_add h 20 2.

Lemma two_lists_dll : dll two_lists 1 [10; 11; 12] /\ dll two_lists 2 [20].
Proof.
  split; (split; [by apply (bool_decide_unpack _); vm_compute|]).
  all: repeat split; vm_compute; reflexivity.
Qed.

Lemma insert_remove_correct_witness :
  dll (qb_list_add (qb_list_init ∅ 5) 6 5) 5 [6] /\
  dll (qb_list_del two_lists 11) 1 [10; 12] /\ dll (qb_list_replace two_lists 11 13) 1 [10; 13; 12] /\
  dll (qb_list_del two_lists 11) 2 [20].
Proof.
  split.
  - destruct (insert_remove_correct ∅ 5 []) as [H0 _].
    destruct (insert_remove_correct (qb_list_init ∅ 5) 5 []) as [_ H]. destruct (H H0) as [Ha _].
    destruct (Ha 6) as [H1 _]; [set_solver|exact H1].
  - destruct (insert_remove_correct two_lists 1 [10; 11; 12]) as [_ H].
    destruct (H (proj1 two_lists_dll)) as [_ Hd]. destruct (Hd [10] 11 [12] eq_refl) as (H1 & Ho & Hr).
    split; [exact H1|]. destruct (Hr 13) as [H2 _]; [set_solver|]. split; [exact H2|].
    apply (Ho 2 [20]); [exact (proj2 two_lists_dll)|set_solver].
Defined.

Lemma splice_correct_witness :
  dll (qb_list_splice_tail two_lists 1 2) 2 [20; 10; 11; 12] /\ next (qb_list_splice two_lists 1 2) 1 = 10.
Proof.
  destruct (splice_correct two_lists 1 [10; 11; 12] 2 [20]) as (_ & H & Hn & _).
  - exact (proj1 two_lists_dll).
  - exact (proj2 two_lists_dll).
  - set_solver.
  - split; [exact H|exact Hn].
Defined.

Lemma traversal_correct_witness : qb_list_length 4 two_lists 1 = Some 3.
Proof.
  destruct (traversal_correct two_lists 1 [10; 11; 12] 4) as (_ & _ & H & _);
    [exact (proj1 two_lists_dll)|cbn; lia|reflexivity|exact H].
Defined.
