(* ===== verification/Map.v ===== *)
(** * Maps from strings (lib/map.c, lib/map_int.h)

    The table of functions that a kind of map provides, the public calls that
    go through it, and the laws a kind of map owes its users.  A key is the list
    of the bytes of a C string, which the caller leaves unchanged while the map
    refers to it; a value is a pointer (0 for NULL).  The calls of
    notification callbacks are results. *)
From S2P Require Import Prelude.

Abbreviation map_key := (list Z).

Definition QB_MAP_NOTIFY_DELETED : Z := 1.
Definition QB_MAP_NOTIFY_REPLACED : Z := 2.
Definition QB_MAP_NOTIFY_INSERTED : Z := 4.
Definition QB_MAP_NOTIFY_RECURSIVE : Z := 8.
Definition QB_MAP_NOTIFY_FREE : Z := 16.

Definition QB_TRUE : Z := 1.
Definition QB_FALSE : Z := 0.

Record qb_map_notifier := {
  callback : Z;
  events : Z;
  user_data : Z;
}.

(** One call of a notification callback. *)
Record notify_call := {
  nc_callback : Z;
  nc_event : Z;
  nc_key : option map_key;
  nc_old_value : Z;
  nc_value : Z;
  nc_user_data : Z;
}.

(** ** The function table

    [M] is the state of the map and [I] that of an iterator.  [put] takes the
    result of its allocation (0 when it fails); [notify_add] takes the [errno]
    of its allocation (0 when it succeeds).  [None] from [iter_next] is a use of
    freed memory. *)
Record qb_map (M I : Type) := {
  put : M -> map_key -> Z -> Z -> M * list notify_call;
  get : M -> map_key -> Z;
  rm : M -> map_key -> M * Z * list notify_call;
  count_get : M -> Z;
  destroy : M -> list notify_call;
  iter_create : M -> option map_key -> M * I;
  iter_next : M -> I -> option (M * I * option (map_key * Z) * list notify_call);
  iter_free : M -> I -> M * list notify_call;
  notify_add : option (M -> option map_key -> Z -> Z -> Z -> Z -> M * Z);
  notify_del : option (M -> option map_key -> Z -> Z -> bool -> Z -> M * Z);
}.
Arguments put {M I}. Arguments get {M I}. Arguments rm {M I}. Arguments count_get {M I}.
Arguments destroy {M I}. Arguments iter_create {M I}. Arguments iter_next {M I}. Arguments iter_free {M I}.
Arguments notify_add {M I}. Arguments notify_del {M I}.

(** ** The public calls *)

Section Calls.
Context {M I : Type} (map : qb_map M I).

Definition qb_map_put (m : M) (key : map_key) (value addr : Z) : M * list notify_call :=
  put map m key value addr.

Definition qb_map_get (m : M) (key : map_key) : Z := get map m key.

Definition qb_map_rm (m : M) (key : map_key) : M * Z * list notify_call := rm map m key.

Definition qb_map_count_get (m : M) : Z := count_get map m.

Definition qb_map_iter_create (m : M) : M * I := iter_create map m None.

Definition qb_map_pref_iter_create (m : M) (prefix : map_key) : M * I := iter_create map m (Some prefix).

Definition qb_map_iter_next (m : M) (i : I) : option (M * I * option (map_key * Z) * list notify_call) :=
  iter_next map m i.

Definition qb_map_iter_free (m : M) (i : I) : M * list notify_call := iter_free map m i.

(** The loop of [qb_map_foreach].  [func] gets the user's data and returns it
    with a flag that stops the walk. *)
Fixpoint foreach_loop {U : Type} (fuel : nat) (func : U -> map_key -> Z -> U * bool) (m : M) (i : I) (u : U)
    : option (M * U * list notify_call) :=
  match fuel with
  | O => None
  | S fuel' =>
    r ← qb_map_iter_next m i;
    let '(m, i, kv, calls) := r in
    match kv with
    | None => let '(m, calls') := qb_map_iter_free m i in Some (m, u, calls ++ calls')
    | Some (k, v) =>
      let '(u, stop) := func u k v in
      if stop : bool then let '(m, calls') := qb_map_iter_free m i in Some (m, u, calls ++ calls')
      else
        r ← foreach_loop fuel' func m i u;
        let '(m, u, calls') := r in Some (m, u, calls ++ calls')
    end
  end.

Definition qb_map_foreach {U : Type} (fuel : nat) (func : U -> map_key -> Z -> U * bool) (m : M) (u : U)
    : option (M * U * list notify_call) :=
  let '(m, i) := qb_map_iter_create m in foreach_loop fuel func m i u.

Definition qb_map_notify_add (m : M) (key : option map_key) (fn events_ user_data_ malloc_errno : Z) : M * Z :=
  match key with
  | Some _ =>
    if has_flag events_ QB_MAP_NOTIFY_FREE then (m, - EINVAL)
    else match notify_add map with
         | Some f => f m key fn events_ user_data_ malloc_errno
         | None => (m, - ENOSYS)
         end
  | None => match notify_add map with
            | Some f => f m key fn events_ user_data_ malloc_errno
            | None => (m, - ENOSYS)
            end
  end.

Definition qb_map_notify_del (m : M) (key : option map_key) (fn events_ : Z) : M * Z :=
  match notify_del map with
  | Some f => f m key fn events_ false 0
  | None => (m, - ENOSYS)
  end.

Definition qb_map_notify_del_2 (m : M) (key : option map_key) (fn events_ user_data_ : Z) : M * Z :=
  match notify_del map with
  | Some f => f m key fn events_ true user_data_
  | None => (m, - ENOSYS)
  end.

Definition qb_map_destroy (m : M) : list notify_call := destroy map m.
End Calls.

(** ** The laws

    [map_rep m s]: no iterator is at work and the map holds the pairs [s].
    [iter_rep m i s rest]: one iterator is at work, the pairs are [s] and [rest]
    are those it has not returned yet. *)
Class MapLaws {M I : Type} (map : qb_map M I) := {
  map_rep : M -> gmap map_key Z -> Prop;
  iter_rep : M -> I -> gmap map_key Z -> list (map_key * Z) -> Prop;
  (** an address the allocator may return next *)
  fresh : M -> Z -> Prop;
  get_law m s k : map_rep m s -> get map m k = default 0 (s !! k);
  put_law m s k v addr : map_rep m s -> fresh m addr -> map_rep (fst (put map m k v addr)) (<[k := v]> s);
  rm_law m s k : map_rep m s ->
    map_rep (fst (fst (rm map m k))) (delete k s) /\
    snd (fst (rm map m k)) = match s !! k with Some _ => QB_TRUE | None => QB_FALSE end;
  count_law m s : map_rep m s -> count_get map m = Z.of_nat (size s);
  iter_create_law m s : map_rep m s ->
    exists m' i rest, rest ≡ₚ map_to_list s /\ iter_create map m None = (m', i) /\ iter_rep m' i s rest;
  iter_next_law m i s k v rest : iter_rep m i s ((k, v) :: rest) ->
    exists m' i', iter_next map m i = Some (m', i', Some (k, v), []) /\ iter_rep m' i' s rest;
  iter_end_law m i s : iter_rep m i s [] ->
    exists m' i' m'', iter_next map m i = Some (m', i', None, []) /\ iter_free map m' i' = (m'', []) /\ map_rep m'' s;
}.

(** What a walk needs: a kind of map may have the laws of iterators without the
    other ones. *)
Class WalkLaws {M I : Type} (map : qb_map M I) := {
  walk_rep : M -> gmap map_key Z -> Prop;
  walk_iter : M -> I -> gmap map_key Z -> list (map_key * Z) -> Prop;
  walk_next m i s k v rest : walk_iter m i s ((k, v) :: rest) ->
    exists m' i', iter_next map m i = Some (m', i', Some (k, v), []) /\ walk_iter m' i' s rest;
  walk_end m i s : walk_iter m i s [] ->
    exists m' i' m'', iter_next map m i = Some (m', i', None, []) /\ iter_free map m' i' = (m'', []) /\ walk_rep m'' s;
}.
#[export] Instance map_walk {M I : Type} (map : qb_map M I) `{!MapLaws map} : WalkLaws map :=
  {| walk_rep := map_rep; walk_iter := iter_rep; walk_next := iter_next_law; walk_end := iter_end_law |}.

(** ** Sequences of calls *)

Inductive map_op :=
  | M_put (k : map_key) (v addr : Z)
  | M_get (k : map_key)
  | M_rm (k : map_key)
  | M_count.

(** The result of one call; a put has none. *)
Definition map_step {M I} (map : qb_map M I) (m : M) (op : map_op) : M * Z :=
  match op with
  | M_put k v addr => (fst (qb_map_put map m k v addr), 0)
  | M_get k => (m, qb_map_get map m k)
  | M_rm k => fst (qb_map_rm map m k)
  | M_count => (m, qb_map_count_get map m)
  end.

Fixpoint map_run {M I} (map : qb_map M I) (m : M) (ops : list map_op) : M * list Z :=
  match ops with
  | [] => (m, [])
  | op :: ops => let '(m, r) := map_step map m op in let '(m, rs) := map_run map m ops in (m, r :: rs)
  end.

(** The same calls on a finite map. *)
Definition spec_map_step (s : gmap map_key Z) (op : map_op) : gmap map_key Z * Z :=
  match op with
  | M_put k v _ => (<[k := v]> s, 0)
  | M_get k => (s, default 0 (s !! k))
  | M_rm k => (delete k s, match s !! k with Some _ => QB_TRUE | None => QB_FALSE end)
  | M_count => (s, Z.of_nat (size s))
  end.

Fixpoint spec_map_run (s : gmap map_key Z) (ops : list map_op) : gmap map_key Z * list Z :=
  match ops with
  | [] => (s, [])
  | op :: ops => let '(s, r) := spec_map_step s op in let '(s, rs) := spec_map_run s ops in (s, r :: rs)
  end.

(** Every put gets memory the map does not use yet. *)
Fixpoint allocations_fresh {M I} (map : qb_map M I) `{!MapLaws map} (m : M) (ops : list map_op) : Prop :=
  match ops with
  | [] => True
  | op :: ops =>
    match op with M_put _ _ addr => fresh m addr | _ => True end /\
    allocations_fresh map (fst (map_step map m op)) ops
  end.

(** ** What the laws give a user of any kind of map *)

Lemma foreach_loop_visits {M I U : Type} (map : qb_map M I) {W : WalkLaws map} (func : U -> map_key -> Z -> U) rest :
  forall m i s u fuel,
  walk_iter m i s rest -> (length rest < fuel)%nat ->
  exists m', foreach_loop map fuel (fun u k v => (func u k v, false)) m i u =
      Some (m', foldl (fun u kv => func u (fst kv) (snd kv)) u rest, []) /\ walk_rep m' s.
Proof.
  induction rest as [|[k v] rest IH]; intros m i s u [|fuel] Hi Hf; try (cbn in Hf; lia);
    cbn [foreach_loop foldl fst snd].
  - destruct (walk_end m i s Hi) as (m' & i' & m'' & E & Ef & Hr).
    unfold qb_map_iter_next, qb_map_iter_free. rewrite E. cbn. rewrite Ef. eauto.
  - destruct (walk_next m i s k v rest Hi) as (m' & i' & E & Hr). unfold qb_map_iter_next. rewrite E. cbn.
    destruct (IH m' i' s (func u k v) fuel Hr) as (m2 & -> & Hr2); [cbn in Hf; lia|]. cbn. eauto.
Qed.

Section Generic.
Context {M I : Type} (map : qb_map M I) `{!MapLaws map}.

Lemma map_run_refines ops : forall m s,
  map_rep m s -> allocations_fresh map m ops ->
  snd (map_run map m ops) = snd (spec_map_run s ops) /\
  map_rep (fst (map_run map m ops)) (fst (spec_map_run s ops)).
Proof.
  induction ops as [|op ops IH]; intros m s Hm; cbn [map_run spec_map_run allocations_fresh]; [done|].
  intros [Hf Hops].
  assert (Hstep : snd (map_step map m op) = snd (spec_map_step s op) /\
                  map_rep (fst (map_step map m op)) (fst (spec_map_step s op))).
  { destruct op as [k v addr|k|k|]; cbn.
    - split; [done|]. by apply put_law.
    - split; [by apply get_law|done].
    - destruct (rm_law m s k Hm) as [H1 H2]. unfold qb_map_rm. destruct (rm map m k) as [[m' r] c]. done.
    - split; [by apply count_law|done]. }
  destruct (map_step map m op) as [m1 r], (spec_map_step s op) as [s1 r']. cbn in Hstep, Hops.
  destruct Hstep as [-> Hm1]. destruct (IH m1 s1 Hm1 Hops) as [E Hm2].
  destruct (map_run map m1 ops), (spec_map_run s1 ops). cbn in *. by rewrite E.
Qed.

(** A complete walk visits every pair once and leaves the map as it was. *)
Lemma foreach_visits_all {U} (func : U -> map_key -> Z -> U) m s u fuel :
  map_rep m s -> (size s < fuel)%nat ->
  exists m' order, order ≡ₚ map_to_list s /\
    qb_map_foreach map fuel (fun u k v => (func u k v, false)) m u =
      Some (m', foldl (fun u kv => func u (fst kv) (snd kv)) u order, []) /\ map_rep m' s.
Proof.
  intros Hm Hf. destruct (iter_create_law m s Hm) as (m1 & i & rest & Hp & E1 & Hi).
  destruct (foreach_loop_visits map (W := map_walk map) func rest m1 _ s u fuel Hi) as (m' & E & Hr).
  { by rewrite Hp, length_map_to_list. }
  exists m', rest. split; [done|]. split; [|done]. unfold qb_map_foreach, qb_map_iter_create. by rewrite E1.
Qed.
End Generic.
