(* ===== verification/Hashtable.v ===== *)
(** * Hash table (lib/hashtable.c)

    Buckets are lists of node addresses, in the order of the linked lists, and
    the nodes live in a store: freeing a node removes it from the store.
    Notifiers are lists in the order of their linked lists. *)
From S2P Require Import Prelude Map.

Definition FNV_32_PRIME : Z := 0x01000193.

Record hash_node := {
  value : Z;
  key : map_key;
  refcount : Z;
  node_notifiers : list qb_map_notifier;
}.
#[export] Instance hash_node_inhabited : Inhabited hash_node :=
  populate {| value := 0; key := []; refcount := 0; node_notifiers := [] |}.

Record hash_table := {
  count : Z;
  order : Z;
  hash_buckets : list (list Z);
  table_notifiers : list qb_map_notifier;
  nodes : gmap Z hash_node;
}.

(** [node = 0] is the null pointer. *)
Record hashtable_iter := {
  node : Z;
  bucket : Z;
}.

Definition with_count (t : hash_table) (n : Z) : hash_table :=
  {| count := n; order := order t; hash_buckets := hash_buckets t;
     table_notifiers := table_notifiers t; nodes := nodes t |}.
Definition with_nodes (t : hash_table) (ns : gmap Z hash_node) : hash_table :=
  {| count := count t; order := order t; hash_buckets := hash_buckets t;
     table_notifiers := table_notifiers t; nodes := ns |}.
Definition with_buckets (t : hash_table) (bs : list (list Z)) : hash_table :=
  {| count := count t; order := order t; hash_buckets := bs;
     table_notifiers := table_notifiers t; nodes := nodes t |}.
Definition with_table_notifiers (t : hash_table) (l : list qb_map_notifier) : hash_table :=
  {| count := count t; order := order t; hash_buckets := hash_buckets t;
     table_notifiers := l; nodes := nodes t |}.

Definition with_refcount (n : hash_node) (r : Z) : hash_node :=
  {| value := value n; key := key n; refcount := r; node_notifiers := node_notifiers n |}.
Definition with_notifiers (n : hash_node) (l : list qb_map_notifier) : hash_node :=
  {| value := value n; key := key n; refcount := refcount n; node_notifiers := l |}.

Definition node_at (t : hash_table) (a : Z) : hash_node := nodes t !!! a.

(** ** Hashing *)

Definition fnv_step (hash_result cd : Z) : Z := u32 (Z.lxor hash_result cd * FNV_32_PRIME).

Definition hash_fnv (value : list Z) (order : Z) : Z :=
  let hash_result := foldl fnv_step 0x811c9dc5 value in
  Z.land (Z.lxor (Z.shiftr hash_result order) hash_result) (Z.shiftl 1 order - 1).

Definition qb_hash_string (key : map_key) (order : Z) : Z := hash_fnv key order.

(** ** Lookup *)

(** The first node of a bucket with the key. *)
Definition find_key (t : hash_table) (k : map_key) (l : list Z) : option Z :=
  List.find (fun a => bool_decide (key (node_at t a) = k)) l.

Definition hashtable_lookup (t : hash_table) (k : map_key) : option Z :=
  find_key t k (zget (hash_buckets t) (qb_hash_string k (order t))).

Definition hashtable_get (t : hash_table) (k : map_key) : Z :=
  match hashtable_lookup t k with Some a => value (node_at t a) | None => 0 end.

(** ** Notification *)

Definition call_notifier (tn : qb_map_notifier) (event : Z) (k : map_key) (old_value value : Z) : notify_call :=
  {| nc_callback := callback tn; nc_event := event; nc_key := Some k; nc_old_value := old_value;
     nc_value := value; nc_user_data := user_data tn |}.

Definition hashtable_notify (t : hash_table) (n : hash_node) (event : Z) (k : map_key) (old_value value : Z)
    : list notify_call :=
  concat ((fun tn => if has_flag (events tn) event then [call_notifier tn event k old_value value] else [])
          <$> node_notifiers n) ++
  concat ((fun tn =>
     (if has_flag (events tn) event then [call_notifier tn event k old_value value] else []) ++
     (if (has_flag event QB_MAP_NOTIFY_DELETED || has_flag event QB_MAP_NOTIFY_REPLACED)
         && has_flag (events tn) QB_MAP_NOTIFY_FREE
      then [call_notifier tn QB_MAP_NOTIFY_FREE k old_value value] else []))
          <$> table_notifiers t).

(** ** Nodes *)

(** [qb_list_del(&hash_node->list)]: the node is in one bucket. *)
Definition unlink_node (t : hash_table) (a : Z) : hash_table :=
  with_buckets t (filter (fun x => x <> a) <$> hash_buckets t).

Definition hashtable_node_destroy (t : hash_table) (a : Z) : hash_table * list notify_call :=
  let n := node_at t a in
  let calls := hashtable_notify t n QB_MAP_NOTIFY_DELETED (key n) (value n) 0 in
  let t := unlink_node t a in
  (with_nodes t (delete a (nodes t)), calls).

Definition hashtable_node_deref (t : hash_table) (a : Z) : hash_table * list notify_call :=
  let n := node_at t a in
  let t := with_nodes t (<[a := with_refcount n (u32 (refcount n - 1))]> (nodes t)) in
  if 0 <? refcount (node_at t a) then (t, []) else hashtable_node_destroy t a.

Definition hashtable_rm_with_hash (t : hash_table) (k : map_key) (hash_entry : Z)
    : hash_table * Z * list notify_call :=
  match find_key t k (zget (hash_buckets t) hash_entry) with
  | Some a =>
    let '(t, calls) := hashtable_node_deref t a in
    (with_count t (u64 (count t - 1)), QB_TRUE, calls)
  | None => (t, QB_FALSE, [])
  end.

Definition hashtable_rm (t : hash_table) (k : map_key) : hash_table * Z * list notify_call :=
  hashtable_rm_with_hash t k (qb_hash_string k (order t)).

(** [addr] is the result of [calloc], 0 when it fails. *)
Definition hashtable_put (t : hash_table) (k : map_key) (v addr : Z) : hash_table * list notify_call :=
  let hash_entry := qb_hash_string k (order t) in
  match find_key t k (zget (hash_buckets t) hash_entry) with
  | None =>
    if addr =? 0 then (t, [])
    else
      let t := with_count t (u64 (count t + 1)) in
      let n := {| value := v; key := k; refcount := 1; node_notifiers := [] |} in
      let t := with_nodes t (<[addr := n]> (nodes t)) in
      let t := with_buckets t (zset (hash_buckets t) hash_entry (zget (hash_buckets t) hash_entry ++ [addr])) in
      (t, hashtable_notify t n QB_MAP_NOTIFY_INSERTED k 0 v)
  | Some a =>
    let old := node_at t a in
    let n := {| value := v; key := k; refcount := refcount old; node_notifiers := node_notifiers old |} in
    let t := with_nodes t (<[a := n]> (nodes t)) in
    (t, hashtable_notify t n QB_MAP_NOTIFY_REPLACED (key old) (value old) v)
  end.

(** ** Notifiers *)

(** The list a notifier goes to: that of the table, or of the node of a key. *)
Inductive notifier_head := Head_table | Head_node (a : Z).

Definition notifier_head_of (t : hash_table) (k : option map_key) : option notifier_head :=
  match k with
  | Some k => match hashtable_lookup t k with Some a => Some (Head_node a) | None => None end
  | None => Some Head_table
  end.

Definition notifiers_at (t : hash_table) (h : notifier_head) : list qb_map_notifier :=
  match h with Head_table => table_notifiers t | Head_node a => node_notifiers (node_at t a) end.

Definition set_notifiers_at (t : hash_table) (h : notifier_head) (l : list qb_map_notifier) : hash_table :=
  match h with
  | Head_table => with_table_notifiers t l
  | Head_node a => with_nodes t (<[a := with_notifiers (node_at t a) l]> (nodes t))
  end.

Definition hashtable_notify_add (t : hash_table) (k : option map_key) (fn events_ user_data_ malloc_errno : Z)
    : hash_table * Z :=
  match notifier_head_of t k with
  | None => (t, - ENOENT)
  | Some head =>
    let add_to_tail := has_flag events_ QB_MAP_NOTIFY_FREE in
    if existsb (fun f => (has_flag events_ QB_MAP_NOTIFY_FREE && (events f =? events_))
                      || ((events f =? events_) && (user_data f =? user_data_) && (callback f =? fn)))
         (notifiers_at t head)
    then (t, - EEXIST)
    else if negb (malloc_errno =? 0) then (t, - malloc_errno)
    else
      let f := {| callback := fn; events := events_; user_data := user_data_ |} in
      (set_notifiers_at t head
         (if add_to_tail then notifiers_at t head ++ [f] else f :: notifiers_at t head), 0)
  end.

Definition del_matches (fn events_ : Z) (cmp_userdata : bool) (user_data_ : Z) (f : qb_map_notifier) : bool :=
  (events f =? events_) && (callback f =? fn) && (negb cmp_userdata || (user_data f =? user_data_)).

Definition hashtable_notify_del (t : hash_table) (k : option map_key) (fn events_ : Z) (cmp_userdata : bool)
    (user_data_ : Z) : hash_table * Z :=
  match notifier_head_of t k with
  | None => (t, - ENOENT)
  | Some head =>
    let l := notifiers_at t head in
    let found := existsb (del_matches fn events_ cmp_userdata user_data_) l in
    (set_notifiers_at t head (List.filter (fun f => negb (del_matches fn events_ cmp_userdata user_data_ f)) l),
     if found then 0 else - ENOENT)
  end.

Definition hashtable_count_get (t : hash_table) : Z := count t.

(** ** Iterating *)

(** [malloc] succeeds; a hash table has no prefixes. *)
Definition hashtable_iter_create (t : hash_table) (prefix : option map_key) : hash_table * hashtable_iter :=
  (t, {| node := 0; bucket := 0 |}).

(** The entries of a bucket behind a node. *)
Fixpoint behind (a : Z) (l : list Z) : list Z :=
  match l with
  | [] => []
  | x :: l => if x =? a then l else behind a l
  end.

(** The walk through the buckets from [b] on for a node with references. *)
Fixpoint next_from (t : hash_table) (fuel : nat) (b : Z) (cont : bool) (hi : hashtable_iter) : option (Z * Z) :=
  match fuel with
  | O => None
  | S fuel' =>
    if b <? zlen (hash_buckets t) then
      let ln := if cont then behind (node hi) (zget (hash_buckets t) b) else zget (hash_buckets t) b in
      match List.find (fun a => 0 <? refcount (node_at t a)) ln with
      | Some a => Some (b, a)
      | None => next_from t fuel' (b + 1) false hi
      end
    else None
  end.

(** [None] when the iterator's node has been freed. *)
Definition hashtable_iter_next (t : hash_table) (hi : hashtable_iter)
    : option (hash_table * hashtable_iter * option (map_key * Z) * list notify_call) :=
  let cont := negb (node hi =? 0) in
  if cont && negb (bool_decide (is_Some (nodes t !! node hi))) then None
  else
    let found := next_from t (S (length (hash_buckets t))) (bucket hi) cont hi in
    let '(t, hi1, kv) :=
      match found with
      | Some (b, a) =>
        let n := node_at t a in
        (with_nodes t (<[a := with_refcount n (u32 (refcount n + 1))]> (nodes t)),
         {| node := node hi; bucket := b |}, Some (key n, value n))
      | None => (t, hi, None)
      end in
    let '(t, calls) := if cont then hashtable_node_deref t (node hi) else (t, []) in
    match found with
    | Some (b, a) => Some (t, {| node := a; bucket := b |}, kv, calls)
    | None => Some (t, hi1, None, calls)
    end.

Definition hashtable_iter_free (t : hash_table) (hi : hashtable_iter) : hash_table := t.

(** ** Creating and destroying *)

Definition hashtable_node_deref_under_bucket (t : hash_table) (hash_entry : Z) : hash_table * list notify_call :=
  foldl (fun '(t, calls) a =>
           let '(t, c) := hashtable_node_deref t a in
           (with_count t (u64 (count t - 1)), calls ++ c))
    (t, []) (zget (hash_buckets t) hash_entry).

Definition hashtable_destroy (t : hash_table) : list notify_call :=
  snd (foldl (fun '(t, calls) i =>
                let '(t, c) := hashtable_node_deref_under_bucket t i in (t, calls ++ c))
         (t, []) (seqZ 0 (zlen (hash_buckets t)))).

(** The number of times [n] can be halved before it is 0; a negative [n] never is. *)
Fixpoint order_loop (fuel : nat) (n i : Z) : option Z :=
  match fuel with
  | O => None
  | S fuel' => if n =? 0 then Some i else order_loop fuel' (Z.shiftr n 1) (i + 1)
  end.

(** [alloc_ok] is the result of [calloc]; the outer [None] is a loop that does
    not end. *)
Definition qb_hashtable_create (max_size : Z) (alloc_ok : bool) : option (option hash_table) :=
  i ← order_loop 33 (i32 max_size) 0;
  let order := QB_MAX i 3 in
  if negb alloc_ok then Some None
  else Some (Some {| count := 0; order := order; hash_buckets := zrepeat [] (Z.shiftl 1 order);
                     table_notifiers := []; nodes := ∅ |}).

(** The function table the creation installs. *)
Definition hashtable_map : qb_map hash_table hashtable_iter :=
  {| put := hashtable_put; get := hashtable_get; rm := hashtable_rm; count_get := hashtable_count_get;
     destroy := hashtable_destroy; iter_create := hashtable_iter_create; iter_next := hashtable_iter_next;
     iter_free t hi := (hashtable_iter_free t hi, []); notify_add := Some hashtable_notify_add;
     notify_del := Some hashtable_notify_del |}.
