(* ===== verification/HashtableTheorems.v ===== *)
(** * Hash table: correctness

    The hash table is a lawful map: without an iterator at work it is the finite
    map of its pairs, and an iterator returns each pair once.  The laws hold as
    long as no pair is removed while an iterator holds its node; what happens
    then is stated separately. *)
From S2P Require Import Prelude Map Hashtable.

(** ** Representation *)

Definition entries (t : hash_table) : list Z := concat (hash_buckets t).
Definition kv (t : hash_table) (a : Z) : map_key * Z := (key (node_at t a), value (node_at t a)).

(** [refs] gives the references to each node. *)
Record ht_wf (t : hash_table) (refs : Z -> Z) : Prop := {
  w_order : 0 <= order t <= 30;
  w_len : zlen (hash_buckets t) = 2 ^ order t;
  w_nodup : NoDup (entries t);
  w_nodes : forall a, is_Some (nodes t !! a) <-> a ∈ entries t;
  w_zero : 0 ∉ entries t;
  w_hash : forall b a, 0 <= b < zlen (hash_buckets t) -> a ∈ zget (hash_buckets t) b ->
    qb_hash_string (key (node_at t a)) (order t) = b;
  w_keys : forall a b, a ∈ entries t -> b ∈ entries t -> key (node_at t a) = key (node_at t b) -> a = b;
  w_ref : forall a, a ∈ entries t -> refcount (node_at t a) = refs a;
  w_count : count t = zlen (entries t);
  w_bound : zlen (entries t) < 2 ^ 64;
}.

(** The pairs of the table are those of the map [s]. *)
Definition holds (t : hash_table) (s : gmap map_key Z) : Prop :=
  forall k v, s !! k = Some v <-> exists a, a ∈ entries t /\ kv t a = (k, v).

(** Without an iterator each node has one reference, that of the table; an
    iterator holds another one to its node [cur]. *)
Definition one_each : Z -> Z := fun _ => 1.
Definition two_at (cur : Z) : Z -> Z := fun a => if decide (a = cur) then 2 else 1.

Definition ht_rep (t : hash_table) (s : gmap map_key Z) : Prop := ht_wf t one_each /\ holds t s.

(** ** Hashing *)

Lemma hash_range k o : 0 <= o -> 0 <= qb_hash_string k o < 2 ^ o.
Proof.
  intros. unfold qb_hash_string, hash_fnv. rewrite Z.shiftl_1_l.
  replace (2 ^ o - 1) with (Z.ones o) by (rewrite Z.ones_equiv; lia). rewrite Z.land_ones by done. apply Z.mod_pos_bound. lia.
Qed.

(** ** Buckets *)

Lemma concat_elem {A} (bs : list (list A)) x :
  x ∈ concat bs <-> exists b, 0 <= b < zlen bs /\ x ∈ zget bs b.
Proof.
  induction bs as [|l bs IH]; cbn [concat].
  - split; [set_solver|]. intros (b & Hb & _). rewrite zlen_nil in Hb. lia.
  - rewrite elem_of_app, IH, zlen_cons. split.
    + intros [Hx|(b & Hb & Hx)]; [exists 0; pose proof (zlen_nonneg bs); split; [lia|done]|].
      exists (b + 1). rewrite zget_cons_S by lia. split; [lia|done].
    + intros (b & Hb & Hx). destruct (decide (b = 0)) as [->|]; [by left|right].
      exists (b - 1). split; [lia|]. replace b with (b - 1 + 1) in Hx by lia. by rewrite zget_cons_S in Hx by lia.
Qed.

Lemma concat_zset_snoc {A} (bs : list (list A)) b x :
  0 <= b < zlen bs -> concat (zset bs b (zget bs b ++ [x])) ≡ₚ x :: concat bs.
Proof.
  revert b. induction bs as [|l bs IH]; intros b Hb; [rewrite zlen_nil in Hb; lia|]. rewrite zlen_cons in Hb.
  unfold zset. destruct (Z.ltb_spec b 0); [lia|]. destruct (decide (b = 0)) as [->|].
  - change (zget (l :: bs) 0) with l. change (<[Z.to_nat 0 := ?y]> (l :: bs)) with (y :: bs).
    cbn [concat]. rewrite <- app_assoc. cbn [app]. by rewrite Permutation_middle.
  - replace (Z.to_nat b) with (S (Z.to_nat (b - 1))) by lia.
    change (<[S ?n := ?y]> (l :: bs)) with (l :: <[n := y]> bs). cbn [concat].
    specialize (IH (b - 1) ltac:(lia)). unfold zset in IH. destruct (Z.ltb_spec (b - 1) 0); [lia|].
    replace (zget (l :: bs) b) with (zget bs (b - 1))
      by (rewrite <- (zget_cons_S l bs (b - 1)) by lia; f_equal; lia).
    rewrite IH. by rewrite Permutation_middle.
Qed.

Lemma concat_filter {A} (P : A -> Prop) `{!forall x, Decision (P x)} (bs : list (list A)) :
  concat (filter P <$> bs) = filter P (concat bs).
Proof. induction bs as [|l bs IH]; [done|]. cbn. by rewrite IH, list.filter_app. Qed.

Lemma zget_filter {A} (P : A -> Prop) `{!forall x, Decision (P x)} (bs : list (list A)) b :
  0 <= b < zlen bs -> zget (filter P <$> bs) b = filter P (zget bs b).
Proof.
  intros Hb. apply zget_lookup; [lia|]. rewrite list_lookup_fmap, lookup_zget by done. done.
Qed.

Lemma entry_bucket t refs a :
  ht_wf t refs -> a ∈ entries t -> a ∈ zget (hash_buckets t) (qb_hash_string (key (node_at t a)) (order t)).
Proof. intros Hwf (b & Hb & Ha)%concat_elem. by rewrite (w_hash _ _ Hwf b a Hb Ha). Qed.

Lemma bucket_range t refs k : ht_wf t refs -> 0 <= qb_hash_string k (order t) < zlen (hash_buckets t).
Proof. intros Hwf. rewrite (w_len _ _ Hwf). apply hash_range. pose proof (w_order _ _ Hwf). lia. Qed.

(** ** Lookup *)

Lemma find_key_spec t refs k :
  ht_wf t refs ->
  match find_key t k (zget (hash_buckets t) (qb_hash_string k (order t))) with
  | Some a => a ∈ entries t /\ key (node_at t a) = k
  | None => forall a, a ∈ entries t -> key (node_at t a) <> k
  end.
Proof.
  intros Hwf. destruct (find_key _ _ _) as [a|] eqn:E; unfold find_key in E.
  - apply find_some in E as [Hin E]. apply bool_decide_eq_true in E. apply list_elem_of_In in Hin.
    split; [|done]. apply concat_elem. eexists. split; [by eapply bucket_range|done].
  - intros a Ha Hk. pose proof (entry_bucket t refs a Hwf Ha) as Hb. rewrite Hk in Hb.
    apply list_elem_of_In in Hb. eapply find_none in E; [|done]. by apply bool_decide_eq_false in E.
Qed.

Lemma find_key_holds t refs s k :
  ht_wf t refs -> holds t s ->
  match find_key t k (zget (hash_buckets t) (qb_hash_string k (order t))) with
  | Some a => a ∈ entries t /\ key (node_at t a) = k /\ s !! k = Some (value (node_at t a))
  | None => s !! k = None
  end.
Proof.
  intros Hwf Hs. pose proof (find_key_spec t refs k Hwf) as Hf. destruct (find_key _ _ _) as [a|].
  - destruct Hf as [Ha Hk]. split_and!; try done. apply Hs. exists a. unfold kv. by rewrite Hk.
  - destruct (s !! k) as [v|] eqn:E; [|done]. apply Hs in E as (a & Ha & E). injection E as E _. by destruct (Hf a Ha).
Qed.

(** The pairs of the map in the order of the table. *)
Lemma holds_pairs t refs s : ht_wf t refs -> holds t s -> kv t <$> entries t ≡ₚ map_to_list s.
Proof.
  intros Hwf Hs. apply NoDup_Permutation.
  - apply NoDup_fmap_2_strong, Hwf. intros a b Ha Hb E. injection E as Ek _. by apply (w_keys _ _ Hwf).
  - apply NoDup_map_to_list.
  - intros [k v]. rewrite list_elem_of_fmap, elem_of_map_to_list, (Hs k v). naive_solver.
Qed.

(** ** Changing one node *)

Lemma node_at_insert t a n x :
  node_at (with_nodes t (<[a := n]> (nodes t))) x = if decide (x = a) then n else node_at t x.
Proof.
  unfold node_at. cbn. case_decide; subst; [by rewrite lookup_total_insert_eq|].
  by rewrite lookup_total_insert_ne.
Qed.

(** A node gets another value, reference count and notifiers, but keeps its key. *)
Lemma change_node t refs refs' a n :
  ht_wf t refs -> a ∈ entries t -> key n = key (node_at t a) ->
  (forall x, x ∈ entries t -> refs' x = if decide (x = a) then refcount n else refs x) ->
  ht_wf (with_nodes t (<[a := n]> (nodes t))) refs'.
Proof.
  intros Hwf Ha Hk Hrefs.
  assert (Hkey : forall x, key (node_at (with_nodes t (<[a := n]> (nodes t))) x) = key (node_at t x)).
  { intros x. rewrite node_at_insert. case_decide; by subst. }
  destruct Hwf as [Ho Hl Hnd Hn H0 Hh Hks Hr Hc Hbd]. constructor; try done; cbn.
  - intros x. destruct (decide (x = a)) as [->|]; [rewrite lookup_insert_eq|rewrite lookup_insert_ne by done; apply Hn].
    split; eauto.
  - intros b x Hb Hx. rewrite Hkey. by apply Hh.
  - intros x y Hx Hy. rewrite !Hkey. by apply Hks.
  - intros x Hx. rewrite node_at_insert, Hrefs by done. case_decide; [done|]. by apply Hr.
Qed.

Lemma change_ref_holds t s a r : 
  holds t s -> holds (with_nodes t (<[a := with_refcount (node_at t a) r]> (nodes t))) s.
Proof.
  intros Hs k v. rewrite (Hs k v). split; intros (x & Hx & E); exists x; (split; [done|]); revert E; unfold kv;
    rewrite node_at_insert; case_decide; by subst.
Qed.

(** ** Put *)

Definition ht_fresh (t : hash_table) (addr : Z) : Prop :=
  addr <> 0 /\ nodes t !! addr = None /\ zlen (entries t) < 2 ^ 64 - 1.

Lemma put_new t s k v addr :
  ht_rep t s -> ht_fresh t addr -> s !! k = None -> 
  ht_rep (with_buckets (with_nodes (with_count t (u64 (count t + 1)))
      (<[addr := {| value := v; key := k; refcount := 1; node_notifiers := [] |}]> (nodes t)))
      (zset (hash_buckets t) (qb_hash_string k (order t))
         (zget (hash_buckets t) (qb_hash_string k (order t)) ++ [addr]))) (<[k := v]> s).
Proof.
  intros [Hwf Hs] (Ha0 & Hfree & Hbig) Hk. set (h := qb_hash_string k (order t)).
  set (n := {| value := v; key := k; refcount := 1; node_notifiers := [] |}). set (t' := with_buckets _ _).
  pose proof (bucket_range t _ k Hwf) as Hb. fold h in Hb.
  assert (He : entries t' ≡ₚ addr :: entries t) by by apply concat_zset_snoc.
  assert (Hnew : addr ∉ entries t) by (intros Hin; apply (w_nodes _ _ Hwf) in Hin as [? ?]; congruence).
  assert (Hat : forall x, node_at t' x = if decide (x = addr) then n else node_at t x)
    by (intros x; apply (node_at_insert t addr n x)).
  assert (Hnk : forall x, x ∈ entries t -> key (node_at t x) <> k).
  { intros x Hx E. assert (s !! k = Some (value (node_at t x))); [|congruence]. apply Hs. exists x. unfold kv. by rewrite E. }
  assert (Hold : forall x, x ∈ entries t -> node_at t' x = node_at t x) by (intros; rewrite Hat; case_decide; by subst).
  destruct Hwf as [Ho Hl Hnd Hn H0 Hh Hks Hr Hc Hbd]. pose proof (zlen_nonneg (entries t)). split; [constructor|].
  - done.
  - cbn. by rewrite zlen_zset.
  - rewrite He. by apply list.NoDup_cons.
  - intros x. rewrite He, elem_of_cons. cbn. destruct (decide (x = addr)) as [->|].
    + rewrite lookup_insert_eq. split; eauto.
    + rewrite lookup_insert_ne, Hn by done. naive_solver.
  - rewrite He. set_solver.
  - intros b x Hb' Hx. cbn in Hb', Hx. rewrite zlen_zset in Hb'. destruct (decide (b = h)) as [->|].
    + rewrite zget_zset_eq in Hx by done. apply elem_of_app in Hx as [Hx|Hx%list_elem_of_singleton].
      * rewrite Hold by (apply concat_elem; eauto). by apply Hh.
      * subst x. by rewrite Hat, decide_True.
    + rewrite zget_zset_ne in Hx by (done || lia). rewrite Hold by (apply concat_elem; eauto). by apply Hh.
  - assert (Hka : key (node_at t' addr) = k) by by rewrite Hat, decide_True.
    intros x y. rewrite He, !elem_of_cons. intros [->|Hx] [->|Hy] E; [done|..].
    + rewrite Hka, Hold in E by done. by destruct (Hnk y Hy).
    + rewrite Hka, Hold in E by done. by destruct (Hnk x Hx).
    + rewrite !Hold in E by done. by apply Hks.
  - intros x. rewrite He, elem_of_cons. intros [->|Hx]; [by rewrite Hat, decide_True|]. rewrite Hold by done. by apply Hr.
  - change (count t') with (u64 (count t + 1)). unfold zlen in *. rewrite He, length_cons, Hc, u64_small; lia.
  - unfold zlen in *. rewrite He, length_cons. lia.
  - intros k' v'. rewrite lookup_insert_Some. setoid_rewrite He. setoid_rewrite elem_of_cons. split.
    + intros [[<- <-]|[Hne (x & Hx & E)%Hs]].
      * exists addr. unfold kv. rewrite Hat, decide_True by done. split; [by left|done].
      * exists x. unfold kv. rewrite Hold by done. split; [by right|done].
    + intros (x & [->|Hx] & E); unfold kv in E.
      * rewrite Hat, decide_True in E by done. left. by injection E.
      * rewrite Hold in E by done. right. split; [|apply Hs; eauto]. injection E as <- _. intros ->. by destruct (Hnk x).
Qed.

Lemma put_replace t refs s a v :
  ht_wf t refs -> holds t s -> a ∈ entries t ->
  let n := {| value := v; key := key (node_at t a); refcount := refcount (node_at t a);
              node_notifiers := node_notifiers (node_at t a) |} in
  ht_wf (with_nodes t (<[a := n]> (nodes t))) refs /\
  holds (with_nodes t (<[a := n]> (nodes t))) (<[key (node_at t a) := v]> s).
Proof.
  intros Hwf Hs Ha n. split.
  - apply (change_node t refs); try done. intros x Hx. case_decide; [|done]. subst. symmetry. by apply (w_ref t refs Hwf).
  - intros k' v'. rewrite lookup_insert_Some. split.
    + intros [[<- <-]|[Hne (x & Hx & E)%Hs]].
      * exists a. split; [done|]. unfold kv. by rewrite node_at_insert, decide_True.
      * exists x. split; [done|]. unfold kv. rewrite node_at_insert, decide_False; [done|]. intros ->. by injection E.
    + intros (x & Hx & E). unfold kv in E. rewrite node_at_insert in E. case_decide.
      * left. by injection E.
      * right. split; [|apply Hs; eauto]. injection E as <- _. intros E. by apply (w_keys _ _ Hwf) in E.
Qed.

Lemma ht_put_law t s k v addr :
  ht_rep t s -> ht_fresh t addr -> ht_rep (fst (hashtable_put t k v addr)) (<[k := v]> s).
Proof.
  intros Hr Hf. pose proof Hr as [Hwf Hs]. pose proof (find_key_holds t _ s k Hwf Hs) as Hk.
  unfold hashtable_put. destruct (find_key _ _ _) as [a|]; cbn [fst].
  - destruct Hk as (Ha & <- & _). by apply (put_replace t).
  - destruct (Z.eqb_spec addr 0) as [->|]; [by destruct Hf|]. exact (put_new t s k v addr Hr Hf Hk).
Qed.

(** ** Remove *)

Lemma filter_ne_absent (a : Z) (l : list Z) : a ∉ l -> filter (fun x => x <> a) l = l.
Proof.
  induction l as [|x l IH]; [done|]. intros Ha. rewrite filter_cons, decide_True by set_solver.
  f_equal. apply IH. set_solver.
Qed.

Lemma destroy_wf t refs s a :
  ht_wf t refs -> holds t s -> a ∈ entries t ->
  let t' := fst (hashtable_node_destroy t a) in
  ht_wf (with_count t' (u64 (count t' - 1))) refs /\
  holds (with_count t' (u64 (count t' - 1))) (delete (key (node_at t a)) s).
Proof.
  intros Hwf Hs Ha t'. set (t2 := with_count _ _).
  assert (He : entries t2 = filter (fun x => x <> a) (entries t)) by apply concat_filter.
  assert (Hin : forall x, x ∈ entries t2 <-> x ∈ entries t /\ x <> a) by (intros x; rewrite He, list_elem_of_filter; naive_solver).
  assert (Hlen : entries t ≡ₚ a :: entries t2).
  { pose proof (w_nodup _ _ Hwf) as Hnd. rewrite He. clear -Ha Hnd. induction (entries t) as [|x l IH]; [set_solver|].
    apply list.NoDup_cons in Hnd as [Hx Hnd]. rewrite filter_cons. destruct (decide (x = a)) as [->|].
    - rewrite decide_False by tauto. by rewrite filter_ne_absent.
    - rewrite decide_True by done. rewrite (Permutation_swap x a), <- IH; [done|set_solver|done]. }
  assert (Hat : forall x, x <> a -> node_at t2 x = node_at t x).
  { intros x Hx. unfold node_at. cbn. by rewrite lookup_total_delete_ne. }
  assert (Hzl : zlen (entries t) = 1 + zlen (entries t2)) by (unfold zlen; rewrite Hlen, length_cons; lia).
  pose proof (zlen_nonneg (entries t2)) as Hge. destruct Hwf as [Ho Hl Hnd Hn H0 Hh Hks Hr Hc Hbd]. split; [constructor|].
  - done.
  - cbn. unfold zlen in *. by rewrite length_fmap.
  - rewrite He. by apply list.NoDup_filter.
  - intros x. rewrite Hin. cbn. destruct (decide (x = a)) as [->|].
    + rewrite lookup_delete_eq. split; [by intros []|naive_solver].
    + rewrite lookup_delete_ne, Hn by done. naive_solver.
  - rewrite Hin. naive_solver.
  - intros b x Hb Hx. cbn in Hb, Hx. unfold zlen in Hb. rewrite length_fmap in Hb.
    rewrite zget_filter in Hx by done. apply list_elem_of_filter in Hx as [Hne Hx]. rewrite Hat by done. by apply Hh.
  - intros x y [Hx ?]%Hin [Hy ?]%Hin. rewrite !Hat by done. by apply Hks.
  - intros x [Hx ?]%Hin. rewrite Hat by done. by apply Hr.
  - change (count t2) with (u64 (count t - 1)). rewrite u64_small; lia.
  - lia.
  - intros k v. rewrite lookup_delete_Some. split.
    + intros [Hne (x & Hx & E)%Hs]. exists x. assert (x <> a) by (intros ->; by injection E).
      rewrite Hin. unfold kv. by rewrite Hat.
    + intros (x & [Hx Hne]%Hin & E). unfold kv in E. rewrite Hat in E by done. split; [|apply Hs; eauto].
      injection E as <- _. intros E. by apply Hks in E.
Qed.

Lemma wf_refs t refs refs' : ht_wf t refs -> (forall x, x ∈ entries t -> refs x = refs' x) -> ht_wf t refs'.
Proof. intros [] He. constructor; try done. intros a Ha. rewrite <- He by done. auto. Qed.

(** Dropping the last reference. *)
Lemma deref_last t refs s a :
  ht_wf t refs -> holds t s -> a ∈ entries t -> refs a = 1 ->
  let t' := fst (hashtable_node_deref t a) in
  ht_wf (with_count t' (u64 (count t' - 1))) refs /\
  holds (with_count t' (u64 (count t' - 1))) (delete (key (node_at t a)) s) /\
  (forall x, x ∈ entries t' <-> x ∈ entries t /\ x <> a) /\
  snd (hashtable_node_deref t a) =
    hashtable_notify t (node_at t a) QB_MAP_NOTIFY_DELETED (key (node_at t a)) (value (node_at t a)) 0.
Proof.
  intros Hwf Hs Ha Hone. unfold hashtable_node_deref. rewrite (w_ref _ _ Hwf a Ha), Hone.
  change (u32 (1 - 1)) with 0. set (t1 := with_nodes _ _).
  assert (Hat : node_at t1 a = with_refcount (node_at t a) 0) by (unfold t1; by rewrite node_at_insert, decide_True).
  rewrite Hat. cbn [refcount with_refcount Z.ltb Z.compare].
  assert (Hwf1 : ht_wf t1 (fun x => if decide (x = a) then 0 else refs x)).
  { apply (change_node t refs); try done. }
  assert (Hin : forall x, x ∈ entries (fst (hashtable_node_destroy t1 a)) <-> x ∈ entries t /\ x <> a).
  { intros x. change (entries (fst (hashtable_node_destroy t1 a))) with (concat (filter (fun x => x <> a) <$> hash_buckets t)).
    rewrite concat_filter, list_elem_of_filter. unfold entries. naive_solver. }
  destruct (destroy_wf t1 _ s a Hwf1) as [H1 H2]; [by apply change_ref_holds|done|].
  cbv zeta. split_and!; try done.
  - eapply wf_refs; [exact H1|]. intros x Hx. apply Hin in Hx as [_ Hx]. by rewrite decide_False.
  - rewrite Hat in H2. exact H2.
  - unfold hashtable_node_destroy. cbn [snd]. by rewrite Hat.
Qed.

(** Dropping another reference. *)
Lemma deref_keep t refs a :
  ht_wf t refs -> a ∈ entries t -> 1 < refs a < 2 ^ 32 ->
  hashtable_node_deref t a = (with_nodes t (<[a := with_refcount (node_at t a) (refs a - 1)]> (nodes t)), []).
Proof.
  intros Hwf Ha Hr. unfold hashtable_node_deref. rewrite (w_ref _ _ Hwf a Ha), u32_small by lia.
  rewrite node_at_insert, decide_True by done. cbn [refcount with_refcount].
  by destruct (Z.ltb_spec 0 (refs a - 1)); [|lia].
Qed.

Lemma ht_rm_law t s k :
  ht_rep t s ->
  ht_rep (fst (fst (hashtable_rm t k))) (delete k s) /\
  snd (fst (hashtable_rm t k)) = match s !! k with Some _ => QB_TRUE | None => QB_FALSE end.
Proof.
  intros Hr. pose proof Hr as [Hwf Hs]. pose proof (find_key_holds t _ s k Hwf Hs) as Hk.
  unfold hashtable_rm, hashtable_rm_with_hash. destruct (find_key _ _ _) as [a|].
  - destruct Hk as (Ha & <- & ->). destruct (deref_last t _ s a Hwf Hs Ha eq_refl) as (H1 & H2 & _).
    destruct (hashtable_node_deref t a) as [t' calls]. done.
  - rewrite Hk. cbn. split; [|done]. rewrite delete_id by done. done.
Qed.

Lemma ht_count_law t refs s : ht_wf t refs -> holds t s -> count t = Z.of_nat (size s).
Proof.
  intros Hwf Hs. rewrite (w_count _ _ Hwf). rewrite <- length_map_to_list.
  rewrite <- (holds_pairs t refs s) by done. unfold zlen. by rewrite length_fmap.
Qed.

(** ** Iterating *)

(** What is behind the iterator's place: the rest of its bucket and the later
    buckets. *)
Definition later (t : hash_table) (b : Z) : list Z := concat (drop (Z.to_nat b) (hash_buckets t)).
Definition remaining (t : hash_table) (hi : hashtable_iter) : list Z :=
  if decide (node hi = 0) then later t (bucket hi)
  else behind (node hi) (zget (hash_buckets t) (bucket hi)) ++ later t (bucket hi + 1).

Definition ht_iter_rep (t : hash_table) (hi : hashtable_iter) (s : gmap map_key Z) (rest : list (map_key * Z)) : Prop :=
  holds t s /\ rest = kv t <$> remaining t hi /\ 0 <= bucket hi /\
  ((node hi = 0 /\ ht_wf t one_each) \/
   (node hi <> 0 /\ ht_wf t (two_at (node hi)) /\ bucket hi < zlen (hash_buckets t) /\
    node hi ∈ zget (hash_buckets t) (bucket hi))).

Lemma later_step t b : 0 <= b < zlen (hash_buckets t) -> later t b = zget (hash_buckets t) b ++ later t (b + 1).
Proof.
  intros Hb. unfold later. rewrite (drop_S (hash_buckets t) (zget (hash_buckets t) b)) by by apply lookup_zget.
  cbn [concat]. by replace (Z.to_nat (b + 1)) with (S (Z.to_nat b)) by lia.
Qed.

Lemma later_end t b : zlen (hash_buckets t) <= b -> later t b = [].
Proof. intros Hb. unfold later. rewrite drop_ge; [done|]. unfold zlen in Hb. lia. Qed.

Lemma find_first t refs l :
  ht_wf t refs -> (forall a, a ∈ entries t -> 0 < refs a) -> (forall a, a ∈ l -> a ∈ entries t) ->
  List.find (fun a => 0 <? refcount (node_at t a)) l = hd_error l.
Proof.
  intros Hwf Hpos Hl. destruct l as [|a l]; [done|]. cbn.
  rewrite (w_ref _ _ Hwf a) by (apply Hl; set_solver).
  by destruct (Z.ltb_spec 0 (refs a)); [|pose proof (Hpos a (Hl a ltac:(set_solver))); lia].
Qed.

Lemma behind_incl a l x : x ∈ behind a l -> x ∈ l.
Proof. induction l as [|y l IH]; cbn; [done|]. zcase; set_solver. Qed.

Lemma behind_step c l a l1 : NoDup l -> behind c l = a :: l1 -> behind a l = l1.
Proof.
  induction l as [|y l IH]; cbn; [done|]. intros [Hy Hnd]%list.NoDup_cons. destruct (Z.eqb_spec y c).
  - intros ->. destruct (Z.eqb_spec y a); [set_solver|]. cbn. by rewrite Z.eqb_refl.
  - intros E. destruct (Z.eqb_spec y a); [|by apply IH]. subst.
    exfalso. apply Hy. apply (behind_incl c). rewrite E. set_solver.
Qed.

Lemma bucket_nodup {A} (bs : list (list A)) b : 0 <= b < zlen bs -> NoDup (concat bs) -> NoDup (zget bs b).
Proof.
  intros Hb Hnd. rewrite <- (take_drop_middle bs (Z.to_nat b) (zget bs b)) in Hnd by by apply lookup_zget.
  rewrite concat_app in Hnd. cbn [concat] in Hnd. rewrite !list.NoDup_app in Hnd. naive_solver.
Qed.

Lemma bucket_entry t b a : 0 <= b < zlen (hash_buckets t) -> a ∈ zget (hash_buckets t) b -> a ∈ entries t.
Proof. intros. apply concat_elem. eauto. Qed.

Lemma next_from_start t refs hi fuel : forall b,
  ht_wf t refs -> (forall a, a ∈ entries t -> 0 < refs a) -> 0 <= b ->
  (Z.to_nat (zlen (hash_buckets t) - b) < fuel)%nat ->
  match later t b with
  | [] => next_from t fuel b false hi = None
  | a :: l => exists b', next_from t fuel b false hi = Some (b', a) /\ 0 <= b' < zlen (hash_buckets t) /\
      a ∈ zget (hash_buckets t) b' /\ l = behind a (zget (hash_buckets t) b') ++ later t (b' + 1)
  end.
Proof.
  induction fuel as [|fuel IH]; intros b Hwf Hpos Hb Hf; [lia|]. cbn [next_from].
  destruct (Z.ltb_spec b (zlen (hash_buckets t))); [|by rewrite later_end].
  rewrite (find_first t refs) by (try done; intros a Ha; by apply (bucket_entry t b)).
  rewrite later_step by lia. destruct (zget (hash_buckets t) b) as [|a l] eqn:E; cbn [hd_error app].
  - apply IH; done || lia.
  - exists b. split; [done|]. split; [lia|]. rewrite E. split; [set_solver|]. cbn. by rewrite Z.eqb_refl.
Qed.

(** The walk of the iterator finds the first of the remaining nodes. *)
Lemma next_from_ok t refs hi :
  ht_wf t refs -> (forall a, a ∈ entries t -> 0 < refs a) -> 0 <= bucket hi ->
  (node hi <> 0 -> bucket hi < zlen (hash_buckets t)) ->
  match remaining t hi with
  | [] => next_from t (S (length (hash_buckets t))) (bucket hi) (negb (node hi =? 0)) hi = None
  | a :: l => exists b', next_from t (S (length (hash_buckets t))) (bucket hi) (negb (node hi =? 0)) hi = Some (b', a) /\
      0 <= b' < zlen (hash_buckets t) /\ a ∈ zget (hash_buckets t) b' /\
      l = behind a (zget (hash_buckets t) b') ++ later t (b' + 1)
  end.
Proof.
  intros Hwf Hpos Hb Hin. unfold remaining. destruct (decide (node hi = 0)) as [E0|E0].
  { rewrite E0. cbn [Z.eqb negb]. apply (next_from_start t refs); try done. unfold zlen. lia. }
  specialize (Hin E0). destruct (Z.eqb_spec (node hi) 0); [done|]. cbn [negb next_from].
  destruct (Z.ltb_spec (bucket hi) (zlen (hash_buckets t))); [|lia].
  rewrite (find_first t refs) by (try done; intros a Ha%behind_incl; by apply (bucket_entry t (bucket hi))).
  destruct (behind (node hi) (zget (hash_buckets t) (bucket hi))) as [|a l] eqn:E; cbn [hd_error app].
  - apply (next_from_start t refs); try done; [lia|]. unfold zlen in *. lia.
  - exists (bucket hi). split; [done|]. split; [lia|]. split; [apply (behind_incl (node hi)); rewrite E; set_solver|].
    f_equal. symmetry. eapply behind_step, E. apply bucket_nodup; [lia|apply Hwf].
Qed.

Lemma remaining_change t a n hi : remaining (with_nodes t (<[a := n]> (nodes t))) hi = remaining t hi.
Proof. done. Qed.

Lemma kv_change_ref t a r (l : list Z) :
  kv (with_nodes t (<[a := with_refcount (node_at t a) r]> (nodes t))) <$> l = kv t <$> l.
Proof.
  apply list_fmap_ext. intros i x _. unfold kv. rewrite node_at_insert. case_decide; by subst.
Qed.

Lemma remaining_entry t refs hi a :
  ht_wf t refs -> 0 <= bucket hi -> (node hi <> 0 -> bucket hi < zlen (hash_buckets t)) ->
  a ∈ remaining t hi -> a ∈ entries t.
Proof.
  intros Hwf Hb Hin Ha.
  assert (Hlater : forall b, a ∈ later t b -> a ∈ entries t).
  { intros b. unfold later, entries. rewrite <- (take_drop (Z.to_nat b) (hash_buckets t)) at 2.
    rewrite concat_app. set_solver. }
  unfold remaining in Ha. case_decide; [by eapply Hlater|].
  apply elem_of_app in Ha as [Ha|Ha]; [|by eapply Hlater].
  apply (bucket_entry t (bucket hi)); [auto|by eapply behind_incl].
Qed.

(** The iterator lets go of its node. *)
Lemma iter_release t refs refs' s c :
  ht_wf t refs -> holds t s -> c ∈ entries t -> refs c = 2 ->
  (forall x, x ∈ entries t -> refs' x = if decide (x = c) then 1 else refs x) ->
  exists t', hashtable_node_deref t c = (t', []) /\ ht_wf t' refs' /\ holds t' s /\
    hash_buckets t' = hash_buckets t /\ (forall l : list Z, kv t' <$> l = kv t <$> l).
Proof.
  intros Hwf Hs Hc H2 Href. rewrite (deref_keep t refs) by (try done; lia). rewrite H2. eexists. split; [done|].
  split; [by apply (change_node t refs)|]. split; [by apply change_ref_holds|]. split; [done|].
  intros l. apply kv_change_ref.
Qed.

Lemma behind_not_in c l : NoDup l -> c ∉ behind c l.
Proof. induction l as [|y l IH]; cbn; [set_solver|]. intros [? ?]%list.NoDup_cons. zcase; [by subst|auto]. Qed.

Lemma node_not_remaining t refs hi :
  ht_wf t refs -> 0 <= bucket hi < zlen (hash_buckets t) -> node hi <> 0 ->
  node hi ∈ zget (hash_buckets t) (bucket hi) -> node hi ∉ remaining t hi.
Proof.
  intros Hwf Hb Hn Hin. unfold remaining. rewrite decide_False by done. rewrite elem_of_app. intros [Ha|Ha].
  - revert Ha. apply behind_not_in, bucket_nodup, Hwf. done.
  - pose proof (w_nodup _ _ Hwf) as Hnd. unfold entries in Hnd.
    rewrite <- (take_drop (Z.to_nat (bucket hi)) (hash_buckets t)), concat_app in Hnd.
    apply list.NoDup_app in Hnd as (_ & _ & Hnd). fold (later t (bucket hi)) in Hnd. rewrite later_step in Hnd by done.
    apply list.NoDup_app in Hnd as (_ & Hnd & _). by apply (Hnd (node hi)).
Qed.

(** The references while the iterator is at [hi]. *)
Definition iter_refs (hi : hashtable_iter) : Z -> Z := if decide (node hi = 0) then one_each else two_at (node hi).

Lemma iter_rep_facts t hi s rest :
  ht_iter_rep t hi s rest ->
  ht_wf t (iter_refs hi) /\ holds t s /\ rest = kv t <$> remaining t hi /\ 0 <= bucket hi /\
  (node hi <> 0 -> bucket hi < zlen (hash_buckets t) /\ node hi ∈ zget (hash_buckets t) (bucket hi) /\
     node hi ∈ entries t /\ node hi ∉ remaining t hi) /\
  (forall a, a ∈ entries t -> 0 < iter_refs hi a) /\
  negb (node hi =? 0) && negb (bool_decide (is_Some (nodes t !! node hi))) = false.
Proof.
  intros (Hs & Hrest & Hb & Hcase). unfold iter_refs. destruct Hcase as [[E Hwf]|(Hn & Hwf & Hlt & Hin)].
  - rewrite E. cbn. split_and!; try done. 
  - assert (node hi ∈ entries t) by by apply (bucket_entry t (bucket hi)).
    rewrite decide_False by done. split_and!; try done.
    + intros _. split_and!; try done. eapply node_not_remaining; done.
    + intros a Ha. unfold two_at. case_decide; lia.
    + rewrite bool_decide_true by by apply (w_nodes _ _ Hwf). by rewrite andb_false_r.
Qed.

Lemma ht_iter_next_law t hi s k v rest :
  ht_iter_rep t hi s ((k, v) :: rest) ->
  exists t' hi', hashtable_iter_next t hi = Some (t', hi', Some (k, v), []) /\ ht_iter_rep t' hi' s rest.
Proof.
  intros (Hwf & Hs & Hrest & Hb & Hnode & Hpos & Hguard)%iter_rep_facts.
  unfold hashtable_iter_next. cbv zeta. rewrite Hguard.
  pose proof (next_from_ok t _ hi Hwf Hpos Hb ltac:(naive_solver)) as Hnext.
  destruct (remaining t hi) as [|a l] eqn:El; [done|]. rewrite fmap_cons in Hrest. injection Hrest as -> -> Erest.
  destruct Hnext as (b' & -> & Hb' & Ha & ->).
  pose proof (bucket_entry t b' a Hb' Ha) as Hae.
  assert (Ha0 : a <> 0) by (intros ->; by apply (w_zero _ _ Hwf)).
  assert (Hac : node hi <> 0 -> a <> node hi).
  { intros Hn ->. destruct (Hnode Hn) as (_ & _ & _ & Hnin). apply Hnin. set_solver. }
  assert (Hra : iter_refs hi a = 1).
  { unfold iter_refs. case_decide; [done|]. unfold two_at. rewrite decide_False; [done|]. by apply Hac. }
  rewrite (w_ref _ _ Hwf a Hae), Hra. change (u32 (1 + 1)) with 2.
  set (t1 := with_nodes t (<[a := with_refcount (node_at t a) 2]> (nodes t))).
  assert (Hwf1 : ht_wf t1 (fun x => if decide (x = a) then 2 else iter_refs hi x)) by by apply (change_node t (iter_refs hi)).
  assert (Hs1 : holds t1 s) by by apply change_ref_holds.
  assert (Hkv1 : forall l' : list Z, kv t1 <$> l' = kv t <$> l') by (intros; apply kv_change_ref).
  assert (Hfin : forall t2, ht_wf t2 (two_at a) -> holds t2 s -> hash_buckets t2 = hash_buckets t ->
      (forall l' : list Z, kv t2 <$> l' = kv t <$> l') ->
      ht_iter_rep t2 {| node := a; bucket := b' |} s rest).
  { intros t2 Hwf2 Hs2 Hbk Hkv2. split; [done|]. split; [|split; [cbn; lia|right]].
    - rewrite Erest, Hkv2. unfold remaining, later. cbn. rewrite decide_False, Hbk by done. done.
    - cbn. rewrite Hbk. by split_and!; try lia. }
  destruct (Z.eqb_spec (node hi) 0) as [E0|E0]; cbn [negb].
  - eexists _, _. split; [done|]. apply Hfin; try done. eapply wf_refs; [exact Hwf1|].
    intros x Hx. unfold two_at, iter_refs. rewrite E0. cbn. done.
  - destruct (Hnode E0) as (_ & _ & Hce & _). specialize (Hac E0).
    destruct (iter_release t1 _ (two_at a) s (node hi) Hwf1 Hs1) as (t2 & -> & Hwf2 & Hs2 & Hbk & Hkv2); [done|..].
    + rewrite decide_False by done. unfold iter_refs, two_at. by rewrite decide_False, decide_True.
    + intros x Hx. unfold two_at, iter_refs. rewrite (decide_False (P := node hi = 0)) by done.
      unfold two_at. repeat case_decide; congruence || done.
    + eexists _, _. split; [done|]. apply Hfin; try done. intros l'. by rewrite Hkv2, Hkv1.
Qed.

Lemma ht_iter_end_law t hi s :
  ht_iter_rep t hi s [] ->
  exists t' hi' t'', hashtable_iter_next t hi = Some (t', hi', None, []) /\
    (hashtable_iter_free t' hi', @nil notify_call) = (t'', []) /\ ht_rep t'' s.
Proof.
  intros (Hwf & Hs & Hrest & Hb & Hnode & Hpos & Hguard)%iter_rep_facts.
  unfold hashtable_iter_next. cbv zeta. rewrite Hguard.
  pose proof (next_from_ok t _ hi Hwf Hpos Hb ltac:(naive_solver)) as Hnext.
  destruct (remaining t hi) as [|a l] eqn:El; [|done]. rewrite Hnext.
  destruct (Z.eqb_spec (node hi) 0) as [E0|E0]; cbn [negb].
  - eexists _, _, _. do 2 (split; [done|]). split; [|done]. unfold iter_refs in Hwf. by rewrite decide_True in Hwf.
  - destruct (Hnode E0) as (_ & _ & Hce & _).
    destruct (iter_release t _ one_each s (node hi) Hwf Hs Hce) as (t2 & -> & Hwf2 & Hs2 & _).
    + unfold iter_refs, two_at. by rewrite decide_False, decide_True.
    + intros x Hx. unfold iter_refs, one_each, two_at. rewrite (decide_False (P := node hi = 0)) by done. by repeat case_decide.
    + eexists _, _, _. do 2 (split; [done|]). by split.
Qed.

Lemma ht_iter_create_law t s :
  ht_rep t s ->
  exists t' i rest, rest ≡ₚ map_to_list s /\ hashtable_iter_create t None = (t', i) /\ ht_iter_rep t' i s rest.
Proof.
  intros [Hwf Hs]. eexists _, _, (kv t <$> entries t). split; [by apply (holds_pairs t one_each)|]. split; [done|].
  split; [done|]. split; [done|]. split; [done|]. by left.
Qed.

Lemma ht_get_law t s k : ht_rep t s -> hashtable_get t k = default 0 (s !! k).
Proof.
  intros [Hwf Hs]. unfold hashtable_get, hashtable_lookup. pose proof (find_key_holds t _ s k Hwf Hs) as Hk.
  destruct (find_key _ _ _) as [a|]; [by destruct Hk as (_ & _ & ->)|by rewrite Hk].
Qed.

(** A put that gets no memory for a new pair changes nothing. *)
Lemma ht_put_fail t s k v : ht_rep t s -> s !! k = None -> hashtable_put t k v 0 = (t, []).
Proof.
  intros [Hwf Hs] Hn. unfold hashtable_put. pose proof (find_key_holds t _ s k Hwf Hs) as Hk.
  destruct (find_key _ _ _) as [a|]; [destruct Hk as (_ & _ & ?); congruence|done].
Qed.

(** The hash table keeps the laws of a map. *)
#[export] Program Instance hashtable_laws : MapLaws hashtable_map := {|
  map_rep := ht_rep;
  iter_rep := ht_iter_rep;
  fresh := ht_fresh;
  get_law := ht_get_law;
  put_law := ht_put_law;
  rm_law := ht_rm_law;
  iter_create_law := ht_iter_create_law;
  iter_next_law := ht_iter_next_law;
  iter_end_law := ht_iter_end_law;
|}.
Next Obligation. intros t s [Hwf Hs]. by eapply ht_count_law. Qed.

(** ** Creation *)

(** The number of binary digits. *)
Definition bits (n : Z) : Z := if n =? 0 then 0 else Z.log2 n + 1.

Lemma bits_half n : 0 < n -> bits n = 1 + bits (Z.shiftr n 1).
Proof.
  intros Hn. unfold bits. rewrite Z.shiftr_div_pow2 by lia. change (2 ^ 1) with 2.
  destruct (Z.eqb_spec n 0); [lia|]. destruct (Z.eqb_spec (n / 2) 0).
  - by assert (n = 1) as -> by zlia.
  - change 2 with (2 ^ 1). rewrite <- Z.shiftr_div_pow2, Z.log2_shiftr by lia.
    assert (1 <= Z.log2 n); [|lia]. change 1 with (Z.log2 2). apply Z.log2_le_mono. zlia.
Qed.

Lemma order_loop_bits fuel : forall n i,
  0 <= n -> bits n < Z.of_nat fuel -> order_loop fuel n i = Some (i + bits n).
Proof.
  induction fuel as [|fuel IH]; intros n i Hn Hf.
  { unfold bits in Hf. pose proof (Z.log2_nonneg n). zcase; lia. }
  cbn [order_loop]. destruct (Z.eqb_spec n 0) as [->|]; [f_equal; unfold bits; cbn; lia|].
  pose proof (bits_half n ltac:(lia)). rewrite IH; [f_equal; lia| |lia].
  rewrite Z.shiftr_div_pow2 by lia. apply Z.div_pos; lia.
Qed.

Lemma bits_bound n k : 0 <= n < 2 ^ k -> 0 <= k -> 0 <= bits n <= k.
Proof.
  intros Hn Hk. unfold bits. pose proof (Z.log2_nonneg n). destruct (Z.eqb_spec n 0); [lia|].
  assert (Z.log2 n < k); [|lia]. apply Z.log2_lt_pow2; lia.
Qed.

Lemma concat_empty {A} n : concat (zrepeat ([] : list A) n) = [].
Proof. unfold zrepeat. induction (Z.to_nat n); [done|]. by cbn. Qed.

(** A new table is empty. *)
Lemma create_rep max_size :
  0 <= max_size < 2 ^ 30 ->
  exists t, qb_hashtable_create max_size true = Some (Some t) /\ ht_rep t ∅ /\
    order t = Z.max (bits max_size) 3 /\ table_notifiers t = [].
Proof.
  intros Hm. pose proof (bits_bound max_size 30 Hm ltac:(lia)). unfold qb_hashtable_create.
  rewrite i32_small by lia. rewrite order_loop_bits by lia. cbn [mbind option_bind negb]. rewrite QB_MAX_max.
  eexists. split; [done|]. cbn [order table_notifiers]. replace (0 + bits max_size) with (bits max_size) by lia.
  split; [|done]. set (t := Build_hash_table _ _ _ _ _).
  assert (He : entries t = []) by apply concat_empty.
  split; [constructor|]; rewrite ?He.
  - cbn. lia.
  - cbn. rewrite Z.shiftl_1_l, zlen_zrepeat; [done|]. apply Z.pow_nonneg. lia.
  - constructor.
  - intros a. cbn. rewrite lookup_empty. split; [by intros []|set_solver].
  - set_solver.
  - intros b a Hb Ha. assert (a ∈ entries t) by (apply concat_elem; eauto). rewrite He in *. set_solver.
  - intros a b Ha. set_solver.
  - intros a Ha. set_solver.
  - done.
  - done.
  - intros k v. rewrite He, lookup_empty. split; [done|]. intros (a & Ha & _). set_solver.
Qed.

(** ** The hash table as a map *)

(** C15. A hash table made for any size below [2^30] behaves like a finite map
    from strings to values: every sequence of puts, gets, removes and counts on
    it returns what the map returns, and never aliases two keys. *)
Theorem hashtable_refines max_size t ops :
  0 <= max_size < 2 ^ 30 -> qb_hashtable_create max_size true = Some (Some t) ->
  allocations_fresh hashtable_map t ops ->
  snd (map_run hashtable_map t ops) = snd (spec_map_run ∅ ops).
Proof.
  intros Hm Hc Hf. destruct (create_rep max_size Hm) as (t' & E & Hr & _). assert (t' = t) as -> by congruence.
  by apply (map_run_refines hashtable_map ops t ∅).
Qed.

(** A complete walk with [qb_map_foreach] ends and calls the function once
    for each pair of the table, on no other, and the table is as before. *)
Theorem hashtable_foreach_visits {U} (func : U -> map_key -> Z -> U) t s u fuel :
  ht_rep t s -> (size s < fuel)%nat ->
  exists t' order, order ≡ₚ map_to_list s /\
    qb_map_foreach hashtable_map fuel (fun u k v => (func u k v, false)) t u =
      Some (t', foldl (fun u kv => func u (fst kv) (snd kv)) u order, []) /\ ht_rep t' s.
Proof. intros Hr Hf. exact (foreach_visits_all hashtable_map func t s u fuel Hr Hf). Qed.

(** ** The free notification *)

(** The calls that tell the owner to free a value. *)
Definition free_calls (calls : list notify_call) : list notify_call :=
  List.filter (fun c => nc_event c =? QB_MAP_NOTIFY_FREE) calls.

Definition wants_free (f : qb_map_notifier) : bool := has_flag (events f) QB_MAP_NOTIFY_FREE.

Lemma free_calls_app a b : free_calls (a ++ b) = free_calls a ++ free_calls b.
Proof. apply List.filter_app. Qed.

Lemma free_calls_notify t n event k old v :
  event = QB_MAP_NOTIFY_DELETED \/ event = QB_MAP_NOTIFY_REPLACED \/ event = QB_MAP_NOTIFY_INSERTED ->
  free_calls (hashtable_notify t n event k old v) =
  if event =? QB_MAP_NOTIFY_INSERTED then []
  else (fun f => call_notifier f QB_MAP_NOTIFY_FREE k old v) <$> List.filter wants_free (table_notifiers t).
Proof.
  intros He. unfold hashtable_notify. rewrite free_calls_app.
  assert (Hev : forall f, free_calls (if has_flag (events f) event then [call_notifier f event k old v] else []) = []).
  { intros f. destruct (has_flag _ _); [|done]. unfold free_calls. cbn. by destruct He as [->|[->| ->]]. }
  assert (Hn : forall l, free_calls (concat ((fun tn =>
      if has_flag (events tn) event then [call_notifier tn event k old v] else []) <$> l)) = []).
  { induction l as [|f l IH]; [done|]. cbn [fmap list_fmap concat]. by rewrite free_calls_app, Hev. }
  rewrite Hn. cbn [app]. induction (table_notifiers t) as [|f l IH]; [by destruct (_ =? _)|].
  cbn [fmap list_fmap concat]. rewrite !free_calls_app, IH, Hev. cbn [app List.filter].
  change (has_flag (events f) QB_MAP_NOTIFY_FREE) with (wants_free f).
  destruct He as [->|[->| ->]]; cbn; by destruct (wants_free f).
Qed.

(** Memory of values is handed back exactly once: when a pair is removed or
    its value is replaced, each notifier of the table that asked for it is told
    once to free the old value, and when a new pair is put none is. *)
Theorem free_notified_once t s k v addr :
  ht_rep t s -> 
  free_calls (snd (hashtable_put t k v addr)) =
    match s !! k with
    | Some old => (fun f => call_notifier f QB_MAP_NOTIFY_FREE k old v) <$> List.filter wants_free (table_notifiers t)
    | None => []
    end /\
  free_calls (snd (hashtable_rm t k)) =
    match s !! k with
    | Some old => (fun f => call_notifier f QB_MAP_NOTIFY_FREE k old 0) <$> List.filter wants_free (table_notifiers t)
    | None => []
    end.
Proof.
  intros [Hwf Hs]. pose proof (find_key_holds t _ s k Hwf Hs) as Hk.
  unfold hashtable_put, hashtable_rm, hashtable_rm_with_hash. destruct (find_key _ _ _) as [a|].
  - destruct Hk as (Ha & <- & ->). cbn [snd]. split.
    + rewrite free_calls_notify by tauto. done.
    + destruct (deref_last t _ s a Hwf Hs Ha eq_refl) as (_ & _ & _ & Hcalls).
      destruct (hashtable_node_deref t a) as [t' calls]. cbn [snd] in *. subst calls.
      rewrite free_calls_notify by tauto. done.
  - rewrite Hk. split; [|done]. destruct (addr =? 0); [done|]. cbn [snd]. by rewrite free_calls_notify by tauto.
Qed.

(** ** Iterators that stop early *)

(** Freeing an iterator before the end of the walk, as [qb_map_foreach]
    does when the function stops it, leaves its reference on the node: a later
    remove of that key reports success but the pair stays in the table. *)
Theorem abandoned_iterator_pins_item t hi s rest k :
  ht_iter_rep t hi s rest -> node hi <> 0 -> key (node_at t (node hi)) = k ->
  let t0 := hashtable_iter_free t hi in
  snd (fst (hashtable_rm t0 k)) = QB_TRUE /\
  hashtable_get (fst (fst (hashtable_rm t0 k))) k = hashtable_get t0 k /\
  (forall a, a ∈ entries (fst (fst (hashtable_rm t0 k))) <-> a ∈ entries t0).
Proof.
  intros (Hwf & Hs & _ & _ & Hnode & _)%iter_rep_facts Hn <-. cbv zeta. unfold hashtable_iter_free.
  destruct (Hnode Hn) as (_ & _ & Ha & _). set (a := node hi) in *. set (k := key (node_at t a)).
  pose proof (find_key_spec t _ k Hwf) as Hf. unfold hashtable_rm, hashtable_rm_with_hash, hashtable_get, hashtable_lookup.
  destruct (find_key t k _) as [b|] eqn:Eb; [|by destruct (Hf a Ha)].
  destruct Hf as [Hb Hk]. assert (b = a) as -> by by apply (w_keys _ _ Hwf).
  assert (Hra : iter_refs hi a = 2) by (unfold iter_refs, two_at; by rewrite decide_False, decide_True).
  rewrite (deref_keep t (iter_refs hi)) by (try done; lia). cbn [fst snd]. split; [done|]. split; [|done].
  set (t' := with_count _ _).
  assert (Hkeys : forall x, key (node_at t' x) = key (node_at t x)).
  { intros x. unfold t'. change (node_at (with_count ?u _) x) with (node_at u x).
    rewrite node_at_insert. case_decide; by subst. }
  assert (Hfind : forall l, find_key t' k l = find_key t k l).
  { induction l as [|x l IH]; [done|]. cbn. unfold find_key in *. by rewrite Hkeys, IH. }
  rewrite Hfind. change (order t') with (order t). change (hash_buckets t') with (hash_buckets t). rewrite Eb.
  change (node_at t' a) with (node_at (with_nodes t (<[a := with_refcount (node_at t a) (iter_refs hi a - 1)]> (nodes t))) a).
  by rewrite node_at_insert, decide_True.
Qed.

(** * Hash table: concrete tables

    The theorems of the component at small tables, and what removing the pair an
    iterator stands at does. *)
Module HashtableExamples.

Definition no_table : hash_table :=
  {| count := 0; order := 0; hash_buckets := []; table_notifiers := []; nodes := ∅ |}.

(** The table [qb_hashtable_create(10)] makes: 16 buckets. *)
Definition new_table : hash_table :=
  match qb_hashtable_create 10 true with Some (Some t) => t | _ => no_table end.

(** The strings "a", "b" and "e"; "a" and "e" share a bucket. *)
Definition key_a : map_key := [97].
Definition key_b : map_key := [98].
Definition key_e : map_key := [101].

Definition some_calls : list map_op :=
  [M_put key_a 5 1000; M_put key_e 6 1001; M_get key_a; M_put key_a 7 1002; M_get key_a; M_count;
   M_rm key_a; M_rm key_a; M_get key_a; M_get key_e; M_count].

Lemma new_table_rep : ht_rep new_table ∅.
Proof.
  destruct (create_rep 10) as (t & E & Hr & _); [lia|].
  replace new_table with t; [done|]. unfold new_table. by rewrite E.
Qed.

Lemma hashtable_refines_witness :
  snd (map_run hashtable_map new_table some_calls) = [0; 0; 5; 0; 7; 2; 1; 0; 0; 6; 1].
Proof.
  rewrite (hashtable_refines 10 new_table some_calls); [vm_compute; reflexivity|lia|reflexivity|].
  cbn [allocations_fresh some_calls]. split_and!; try exact I.
  all: split_and!; [discriminate|vm_compute; reflexivity|vm_compute; reflexivity].
Defined.

Definition pairs_ab : gmap map_key Z := <[key_b := 6]> (<[key_a := 5]> ∅).

Example same_bucket : qb_hash_string key_a 4 = qb_hash_string key_e 4.
Proof. vm_compute. reflexivity. Qed.

(** A table with two pairs and a notifier that frees values. *)
Definition two_pairs : hash_table :=
  fst (map_run hashtable_map (fst (hashtable_notify_add new_table None 900 QB_MAP_NOTIFY_FREE 901 0))
         [M_put key_a 5 1000; M_put key_b 6 1001]).

Lemma two_pairs_rep : ht_rep two_pairs pairs_ab.
Proof.
  assert (Hn : ht_rep (fst (hashtable_notify_add new_table None 900 QB_MAP_NOTIFY_FREE 901 0)) ∅).
  { destruct new_table_rep as [[] Hs]. split; [by constructor|done]. }
  pose proof (map_run_refines hashtable_map [M_put key_a 5 1000; M_put key_b 6 1001]
    (fst (hashtable_notify_add new_table None 900 QB_MAP_NOTIFY_FREE 901 0)) ∅) as [_ Hr].
  - exact Hn.
  - cbn [allocations_fresh]. split_and!; try exact I.
    all: split_and!; [discriminate|vm_compute; reflexivity|vm_compute; reflexivity].
  - exact Hr.
Qed.

Lemma hashtable_foreach_visits_witness :
  exists t' order, order ≡ₚ map_to_list pairs_ab /\
    qb_map_foreach hashtable_map 3 (fun u k v => (u + v, false)) two_pairs 0 =
      Some (t', foldl (fun u kv => u + snd kv) 0 order, []) /\
    ht_rep t' pairs_ab.
Proof.
  apply (hashtable_foreach_visits (fun u (k : map_key) v => u + v) two_pairs pairs_ab 0 3).
  - exact two_pairs_rep.
  - vm_compute. lia.
Defined.

Lemma free_notified_once_witness :
  free_calls (snd (hashtable_rm two_pairs key_a)) =
    [{| nc_callback := 900; nc_event := QB_MAP_NOTIFY_FREE; nc_key := Some key_a; nc_old_value := 5; nc_value := 0;
        nc_user_data := 901 |}].
Proof. apply (proj2 (free_notified_once two_pairs _ key_a 0 0 two_pairs_rep)). Defined.

(** The iterator at the first pair. *)
Definition at_first : hash_table * hashtable_iter :=
  match hashtable_iter_next two_pairs (snd (hashtable_iter_create two_pairs None)) with
  | Some (t, hi, _, _) => (t, hi)
  | None => hashtable_iter_create two_pairs None
  end.

Lemma at_first_rep : exists rest, ht_iter_rep (fst at_first) (snd at_first) pairs_ab rest.
Proof.
  destruct (ht_iter_create_law two_pairs _ two_pairs_rep) as (t1 & i1 & rest & Hp & [= <- <-] & Hi).
  destruct rest as [|[k v] rest]; [apply Permutation_nil_l in Hp; vm_compute in Hp; discriminate|].
  destruct (ht_iter_next_law _ _ _ _ _ _ Hi) as (t' & hi' & E & Hr).
  exists rest. unfold at_first. cbn [snd hashtable_iter_create]. by rewrite E.
Qed.

(** Removing the key the walk stopped at succeeds, but the value stays. *)
Lemma abandoned_iterator_pins_item_witness :
  hashtable_get (fst (fst (hashtable_rm (fst at_first) (key (node_at (fst at_first) (node (snd at_first))))))) 
    (key (node_at (fst at_first) (node (snd at_first)))) =
  hashtable_get (fst at_first) (key (node_at (fst at_first) (node (snd at_first)))).
Proof.
  destruct at_first_rep as [rest Hr].
  apply (proj1 (proj2 (abandoned_iterator_pins_item (fst at_first) (snd at_first) _ rest
    (key (node_at (fst at_first) (node (snd at_first)))) Hr ltac:(vm_compute; discriminate) eq_refl))).
Defined.

Example pinned_value : hashtable_get (fst (fst (hashtable_rm (fst at_first) key_b))) key_b = 6.
Proof. vm_compute. reflexivity. Qed.

(** Removing the pair an iterator stands at and putting the key again
    before the iterator moves on loses the new pair: the put finds the node that
    is only waiting for the iterator, gives it the new value and does not count
    it, and the node is freed with it when the iterator moves. *)
Theorem put_during_iteration_lost :
  let t1 := fst (fst (hashtable_rm (fst at_first) key_b)) in
  let t2 := fst (hashtable_put t1 key_b 8 1005) in
  hashtable_get t2 key_b = 8 /\
  exists t3 hi3 kv3 calls, hashtable_iter_next t2 (snd at_first) = Some (t3, hi3, kv3, calls) /\
    hashtable_get t3 key_b = 0 /\ hashtable_count_get t3 = 1.
Proof. split; [vm_compute; reflexivity|]. do 4 eexists. split; [vm_compute; reflexivity|]. split; vm_compute; reflexivity. Qed.

End HashtableExamples.
