(* ===== verification/Skiplist.v ===== *)
(** * Skip list (lib/skiplist.c)

    Nodes and their arrays of forward pointers live in two stores, because the
    code moves the array of one node to another when an item is removed, and
    two nodes then share an array.  Freeing removes from the store.  [None] is a
    use of freed memory or of NULL, or a failed [assert].  Notifiers are lists in
    the order of their linked lists.  The numbers that [random] will return are
    part of the state, with a large number after the last; the addresses of a
    node and of its array are given to [skiplist_put] as one number. *)
From S2P Require Import Prelude Map.

Definition SKIPLIST_LEVEL_MAX : Z := 8.
Definition SKIPLIST_LEVEL_MIN : Z := 0.
Definition SKIPLIST_LEVEL_COUNT : Z := SKIPLIST_LEVEL_MAX - SKIPLIST_LEVEL_MIN + 1.

Record skiplist_node := {
  key : option map_key;
  value : Z;
  level : Z;
  refcount : Z;
  node_notifiers : list qb_map_notifier;
  forward : Z;
}.
#[export] Instance skiplist_node_inhabited : Inhabited skiplist_node :=
  populate {| key := None; value := 0; level := 0; refcount := 0; node_notifiers := []; forward := 0 |}.

Record skiplist := {
  length_ : Z;
  list_level : Z;
  header : Z;
  nodes : gmap Z skiplist_node;
  arrays : gmap Z (list Z);
  randoms : list Z;
}.

(** [n = 0] is the null pointer. *)
Record skiplist_iter := { iter_n : Z }.

(** ** Assignments *)

Definition with_length (l : skiplist) (n : Z) : skiplist :=
  {| length_ := n; list_level := list_level l; header := header l; nodes := nodes l; arrays := arrays l;
     randoms := randoms l |}.
Definition with_list_level (l : skiplist) (n : Z) : skiplist :=
  {| length_ := length_ l; list_level := n; header := header l; nodes := nodes l; arrays := arrays l;
     randoms := randoms l |}.
Definition with_nodes (l : skiplist) (ns : gmap Z skiplist_node) : skiplist :=
  {| length_ := length_ l; list_level := list_level l; header := header l; nodes := ns; arrays := arrays l;
     randoms := randoms l |}.
Definition with_arrays (l : skiplist) (a : gmap Z (list Z)) : skiplist :=
  {| length_ := length_ l; list_level := list_level l; header := header l; nodes := nodes l; arrays := a;
     randoms := randoms l |}.
Definition with_randoms (l : skiplist) (r : list Z) : skiplist :=
  {| length_ := length_ l; list_level := list_level l; header := header l; nodes := nodes l; arrays := arrays l;
     randoms := r |}.
Definition set_node (l : skiplist) (a : Z) (n : skiplist_node) : skiplist := with_nodes l (<[a := n]> (nodes l)).

Definition with_level (n : skiplist_node) (lev : Z) : skiplist_node :=
  {| key := key n; value := value n; level := lev; refcount := refcount n;
     node_notifiers := node_notifiers n; forward := forward n |}.
Definition with_refcount (n : skiplist_node) (r : Z) : skiplist_node :=
  {| key := key n; value := value n; level := level n; refcount := r;
     node_notifiers := node_notifiers n; forward := forward n |}.
Definition with_notifiers (n : skiplist_node) (ns : list qb_map_notifier) : skiplist_node :=
  {| key := key n; value := value n; level := level n; refcount := refcount n;
     node_notifiers := ns; forward := forward n |}.
Definition with_forward (n : skiplist_node) (f : Z) : skiplist_node :=
  {| key := key n; value := value n; level := level n; refcount := refcount n;
     node_notifiers := node_notifiers n; forward := f |}.
Definition with_pair (n : skiplist_node) (k : map_key) (v : Z) : skiplist_node :=
  {| key := Some k; value := v; level := level n; refcount := refcount n;
     node_notifiers := node_notifiers n; forward := forward n |}.

(** [a->forward[lev]], read and written. *)
Definition fwd (l : skiplist) (a lev : Z) : option Z :=
  n ← nodes l !! a;
  f ← arrays l !! forward n;
  if (0 <=? lev) && (lev <=? SKIPLIST_LEVEL_MAX) then Some (zget f lev) else None.
Definition set_fwd (l : skiplist) (a lev x : Z) : option skiplist :=
  n ← nodes l !! a;
  f ← arrays l !! forward n;
  if (0 <=? lev) && (lev <=? SKIPLIST_LEVEL_MAX)
  then Some (with_arrays l (<[forward n := zset f lev x]> (arrays l))) else None.

(** [free] of an array of forward pointers. *)
Definition free_array (l : skiplist) (f : Z) : option skiplist :=
  _ ← arrays l !! f; Some (with_arrays l (delete f (arrays l))).

(** A loop over levels. *)
Fixpoint for_levels (f : Z -> skiplist -> option skiplist) (levels : list Z) (l : skiplist) : option skiplist :=
  match levels with
  | [] => Some l
  | lev :: levels => l ← f lev l; for_levels f levels l
  end.

(** ** Levels *)

Definition P_CEIL : Z := 65535 / 4.

Definition i8 (z : Z) : Z := (z + 2 ^ 7) mod 2 ^ 8 - 2 ^ 7.

Fixpoint level_loop (r : list Z) (lev : Z) : Z * list Z :=
  match r with
  | [] => (lev, [])
  | x :: r => if u16 x <? P_CEIL then level_loop r (i8 (lev + 1)) else (lev, r)
  end.

(** The level and the random numbers that are left. *)
Definition skiplist_level_generate (r : list Z) : Z * list Z :=
  let '(lev, r) := level_loop r SKIPLIST_LEVEL_MIN in
  (if lev <? SKIPLIST_LEVEL_MAX then lev else SKIPLIST_LEVEL_MAX, r).

(** ** Searching *)

(** The sign of [strcmp]: the bytes are compared as unsigned numbers. *)
Fixpoint strcmp (a b : map_key) : Z :=
  match a, b with
  | [], [] => 0
  | [], _ :: _ => -1
  | _ :: _, [] => 1
  | x :: a, y :: b => if x <? y then -1 else if y <? x then 1 else strcmp a b
  end.

Inductive op_t := OP_GOTO_NEXT_LEVEL | OP_GOTO_NEXT_NODE | OP_FINISH.

Definition op_search (l : skiplist) (fwd_node : Z) (search : map_key) : option op_t :=
  if fwd_node =? 0 then Some OP_GOTO_NEXT_LEVEL
  else
    n ← nodes l !! fwd_node;
    k ← key n;
    let cmp := strcmp k search in
    if cmp <? 0 then Some OP_GOTO_NEXT_NODE
    else if cmp =? 0 then Some OP_FINISH
    else Some OP_GOTO_NEXT_LEVEL.

(** A search goes down at most [SKIPLIST_LEVEL_COUNT] levels and forward over
    each node once. *)
Definition search_fuel (l : skiplist) : nat := (size (nodes l) + 10)%nat.

(** The result 0 is the null pointer. *)
Fixpoint lookup_loop (fuel : nat) (l : skiplist) (cur_node lev : Z) (k : map_key) : option Z :=
  match fuel with
  | O => None
  | S fuel' =>
    if lev <? SKIPLIST_LEVEL_MIN then Some 0
    else
      fwd_node ← fwd l cur_node lev;
      op ← op_search l fwd_node k;
      match op with
      | OP_FINISH => Some fwd_node
      | OP_GOTO_NEXT_NODE => lookup_loop fuel' l fwd_node lev k
      | OP_GOTO_NEXT_LEVEL => lookup_loop fuel' l cur_node (lev - 1) k
      end
  end.

Definition skiplist_lookup (l : skiplist) (k : map_key) : option Z :=
  lookup_loop (search_fuel l) l (header l) (list_level l) k.

Fixpoint next_loop (fuel : nat) (l : skiplist) (n : Z) : option Z :=
  match fuel with
  | O => None
  | S fuel' =>
    n ← fwd l n SKIPLIST_LEVEL_MIN;
    if n =? 0 then Some 0
    else node ← nodes l !! n; if refcount node =? 0 then next_loop fuel' l n else Some n
  end.

Definition skiplist_node_next (l : skiplist) (node : Z) : option Z := next_loop (search_fuel l) l node.

Definition skiplist_get (l : skiplist) (k : map_key) : option Z :=
  a ← skiplist_lookup l k;
  if a =? 0 then Some 0 else n ← nodes l !! a; Some (value n).

(** ** Nodes *)

(** A node with the address and array [addr]; NULL when [addr] is 0. *)
Definition skiplist_node_new (l : skiplist) (lev : Z) (k : option map_key) (v addr : Z) : skiplist * Z :=
  if addr =? 0 then (l, 0)
  else
    let n := {| key := k; value := v; level := lev; refcount := 1; node_notifiers := []; forward := addr |} in
    (with_arrays (set_node l addr n) (<[addr := zrepeat 0 (SKIPLIST_LEVEL_MAX + 1)]> (arrays l)), addr).

Definition skiplist_header_node_new (l : skiplist) (addr : Z) : skiplist * Z :=
  skiplist_node_new l SKIPLIST_LEVEL_MAX None 0 addr.

Definition call_notifier (tn : qb_map_notifier) (event : Z) (k : option map_key) (old_value value : Z) : notify_call :=
  {| nc_callback := callback tn; nc_event := event; nc_key := k; nc_old_value := old_value;
     nc_value := value; nc_user_data := user_data tn |}.

(** The notifiers of the node, then those of the header. *)
Definition skiplist_notify (l : skiplist) (n : skiplist_node) (event : Z) (k : option map_key) (old_value value : Z)
    : option (list notify_call) :=
  h ← nodes l !! header l;
  Some (concat ((fun tn => if has_flag (events tn) event then [call_notifier tn event k old_value value] else [])
                <$> node_notifiers n) ++
        concat ((fun tn =>
           (if has_flag (events tn) event then [call_notifier tn event k old_value value] else []) ++
           (if (has_flag event QB_MAP_NOTIFY_DELETED || has_flag event QB_MAP_NOTIFY_REPLACED)
               && has_flag (events tn) QB_MAP_NOTIFY_FREE
            then [call_notifier tn QB_MAP_NOTIFY_FREE k old_value value] else []))
                <$> node_notifiers h)).

Definition skiplist_node_destroy (l : skiplist) (a : Z) : option (skiplist * list notify_call) :=
  n ← nodes l !! a;
  calls ← skiplist_notify l n QB_MAP_NOTIFY_DELETED (key n) (value n) 0;
  l ← (if (SKIPLIST_LEVEL_MIN <=? level n) || (list_level l <? SKIPLIST_LEVEL_MIN)
       then free_array l (forward n) else Some l);
  Some (with_nodes l (delete a (nodes l)), calls).

Definition skiplist_node_deref (l : skiplist) (a : Z) : option (skiplist * list notify_call) :=
  n ← nodes l !! a;
  let n := with_refcount n (u32 (refcount n - 1)) in
  let l := set_node l a n in
  if refcount n =? 0 then skiplist_node_destroy l a else Some (l, []).

(** ** Putting *)

(** The search of [skiplist_put]: [inl] the node with the key, or [inr] the
    array [update]. *)
Fixpoint put_loop (fuel : nat) (l : skiplist) (cur_node lev : Z) (k : map_key) (update : list Z)
    : option (Z + list Z) :=
  match fuel with
  | O => None
  | S fuel' =>
    if lev <? SKIPLIST_LEVEL_MIN then Some (inr update)
    else
      fwd_node ← fwd l cur_node lev;
      op ← op_search l fwd_node k;
      match op with
      | OP_FINISH => Some (inl fwd_node)
      | OP_GOTO_NEXT_NODE => put_loop fuel' l fwd_node lev k (zset update lev fwd_node)
      | OP_GOTO_NEXT_LEVEL => put_loop fuel' l cur_node (lev - 1) k (zset update lev cur_node)
      end
  end.

Definition no_update : list Z := zrepeat 0 SKIPLIST_LEVEL_COUNT.

(** The levels [a .. b]. *)
Definition levels (a b : Z) : list Z := seqZ a (b - a + 1).

(** Put the new node into the list of one level. *)
Definition drop_in (update : list Z) (new_node lev : Z) (l : skiplist) : option skiplist :=
  x ← fwd l (zget update lev) lev;
  l ← set_fwd l new_node lev x;
  set_fwd l (zget update lev) lev new_node.

Definition skiplist_put (l : skiplist) (k : map_key) (v addr : Z) : option (skiplist * list notify_call) :=
  r ← put_loop (search_fuel l) l (header l) (list_level l) k no_update;
  match r with
  | inl a =>
    n ← nodes l !! a;
    let n' := with_pair n k v in
    let l := set_node l a n' in
    calls ← skiplist_notify l n' QB_MAP_NOTIFY_REPLACED (key n) (value n) v;
    Some (l, calls)
  | inr update =>
    let '(new_node_level, r) := skiplist_level_generate (randoms l) in
    let l := with_randoms l r in
    let '(l, update) :=
      if list_level l <? new_node_level then
        (with_list_level l new_node_level,
         foldl (fun u lev => zset u lev (header l)) update (levels (list_level l + 1) new_node_level))
      else (l, update) in
    let '(l, new_node) := skiplist_node_new l new_node_level (Some k) v addr in
    if new_node =? 0 then None
    else
      n ← nodes l !! new_node;
      calls ← skiplist_notify l n QB_MAP_NOTIFY_INSERTED (key n) 0 (value n);
      l ← for_levels (drop_in update new_node) (levels SKIPLIST_LEVEL_MIN new_node_level) l;
      Some (with_length l (u64 (length_ l + 1)), calls)
  end.

(** ** Removing *)

(** The search of [skiplist_rm]: the last node before the key, and [update]. *)
Fixpoint rm_loop (fuel : nat) (l : skiplist) (cur_node lev : Z) (k : map_key) (update : list Z)
    : option (Z * list Z) :=
  match fuel with
  | O => None
  | S fuel' =>
    if lev <? SKIPLIST_LEVEL_MIN then Some (cur_node, update)
    else
      fwd_node ← fwd l cur_node lev;
      op ← op_search l fwd_node k;
      match op with
      | OP_GOTO_NEXT_NODE => rm_loop fuel' l fwd_node lev k (zset update lev fwd_node)
      | _ => rm_loop fuel' l cur_node (lev - 1) k (zset update lev cur_node)
      end
  end.

(** Take the found node out of the list of one level. *)
Definition splice_out (update : list Z) (found_node lev : Z) (l : skiplist) : option skiplist :=
  x ← fwd l (zget update lev) lev;
  if x =? found_node then
    y ← fwd l found_node lev;
    set_fwd l (zget update lev) lev y
  else Some l.

(** The array of the found node takes over the pointers of [cur_node] and
    becomes the array of both. *)
Definition take_over (found_node cur_node : Z) (l : skiplist) : option skiplist :=
  fn ← nodes l !! found_node;
  l ← for_levels (fun lev l => x ← fwd l cur_node lev; set_fwd l found_node lev x)
        (levels SKIPLIST_LEVEL_MIN (level fn)) l;
  let l := set_node l found_node (with_level fn (SKIPLIST_LEVEL_MIN - 1)) in
  cn ← nodes l !! cur_node;
  l ← free_array l (forward cn);
  Some (set_node l cur_node (with_forward cn (forward fn))).

(** Remove the unused levels at the top. *)
Fixpoint trim_levels (fuel : nat) (l : skiplist) (lev : Z) : option skiplist :=
  match fuel with
  | O => None
  | S fuel' =>
    if lev <? SKIPLIST_LEVEL_MIN then Some l
    else
      x ← fwd l (header l) lev;
      if x =? 0 then trim_levels fuel' (with_list_level l (i8 (list_level l - 1))) (lev - 1) else Some l
  end.

Definition skiplist_rm (l : skiplist) (k : map_key) : option (skiplist * Z * list notify_call) :=
  '(cur_node, update) ← rm_loop (search_fuel l) l (header l) (list_level l) k no_update;
  found_node ← skiplist_node_next l cur_node;
  if found_node =? 0 then Some (l, QB_FALSE, [])
  else
    fn ← nodes l !! found_node;
    fk ← key fn;
    if negb (strcmp fk k =? 0) then Some (l, QB_FALSE, [])
    else
      l ← for_levels (splice_out update found_node) (levels SKIPLIST_LEVEL_MIN (list_level l)) l;
      cn ← nodes l !! cur_node;
      l ← (if (1 <? refcount fn) || bool_decide (key cn = None) then take_over found_node cur_node l else Some l);
      '(l, calls) ← skiplist_node_deref l found_node;
      l ← trim_levels (S (Z.to_nat SKIPLIST_LEVEL_COUNT)) l (list_level l);
      Some (with_length l (u64 (length_ l - 1)), QB_TRUE, calls).

(** ** Notifiers *)

Definition skiplist_notify_add (l : skiplist) (k : option map_key) (fn events_ user_data_ malloc_errno : Z)
    : option (skiplist * Z) :=
  a ← match k with Some k => skiplist_lookup l k | None => Some (header l) end;
  if a =? 0 then Some (l, - EINVAL)
  else
    n ← nodes l !! a;
    let add_to_tail := has_flag events_ QB_MAP_NOTIFY_FREE in
    if existsb (fun f => (has_flag events_ QB_MAP_NOTIFY_FREE && (events f =? events_))
                      || ((events f =? events_) && (callback f =? fn) && (user_data f =? user_data_)))
         (node_notifiers n)
    then Some (l, - EEXIST)
    else if negb (malloc_errno =? 0) then Some (l, - malloc_errno)
    else
      let f := {| callback := fn; events := events_; user_data := user_data_ |} in
      Some (set_node l a (with_notifiers n
              (if add_to_tail then node_notifiers n ++ [f] else f :: node_notifiers n)), 0).

Definition del_matches (fn events_ : Z) (cmp_userdata : bool) (user_data_ : Z) (f : qb_map_notifier) : bool :=
  (events f =? events_) && (callback f =? fn) && (negb cmp_userdata || (user_data f =? user_data_)).

Definition skiplist_notify_del (l : skiplist) (k : option map_key) (fn events_ : Z) (cmp_userdata : bool)
    (user_data_ : Z) : option (skiplist * Z) :=
  a ← match k with Some k => skiplist_lookup l k | None => Some (header l) end;
  if a =? 0 then Some (l, - ENOENT)
  else
    n ← nodes l !! a;
    let matches := del_matches fn events_ cmp_userdata user_data_ in
    Some (set_node l a (with_notifiers n (List.filter (fun f => negb (matches f)) (node_notifiers n))),
          if existsb matches (node_notifiers n) then 0 else - ENOENT).

(** ** Iterating *)

Definition skiplist_count_get (l : skiplist) : Z := length_ l.

(** [malloc] succeeds; a skip list has no prefixes. *)
Definition skiplist_iter_create (l : skiplist) (prefix : option map_key) : option (skiplist * skiplist_iter) :=
  h ← nodes l !! header l;
  Some (set_node l (header l) (with_refcount h (u32 (refcount h + 1))), {| iter_n := header l |}).

Definition skiplist_iter_next (l : skiplist) (si : skiplist_iter)
    : option (skiplist * skiplist_iter * option (map_key * Z) * list notify_call) :=
  let p := iter_n si in
  if p =? 0 then Some (l, si, None, [])
  else
    a ← skiplist_node_next l p;
    if a =? 0 then
      '(l, calls) ← skiplist_node_deref l p;
      Some (l, {| iter_n := 0 |}, None, calls)
    else
      n ← nodes l !! a;
      let l := set_node l a (with_refcount n (u32 (refcount n + 1))) in
      '(l, calls) ← skiplist_node_deref l p;
      n ← nodes l !! a;
      k ← key n;
      Some (l, {| iter_n := a |}, Some (k, value n), calls).

Definition skiplist_iter_free (l : skiplist) (si : skiplist_iter) : skiplist := l.

(** ** Creating and destroying *)

Fixpoint destroy_loop (fuel : nat) (l : skiplist) (cur_node : Z) : option (skiplist * list notify_call) :=
  match fuel with
  | O => None
  | S fuel' =>
    if cur_node =? 0 then Some (l, [])
    else
      fwd_node ← skiplist_node_next l cur_node;
      '(l, calls) ← skiplist_node_destroy l cur_node;
      '(l, calls') ← destroy_loop fuel' l fwd_node;
      Some (l, calls ++ calls')
  end.

(** The calls of notifiers. *)
Definition skiplist_destroy (l : skiplist) : option (list notify_call) :=
  let l := with_list_level l (SKIPLIST_LEVEL_MIN - 1) in
  cur_node ← skiplist_node_next l (header l);
  '(l, calls) ← destroy_loop (search_fuel l) l cur_node;
  '(l, calls') ← skiplist_node_destroy l (header l);
  Some (calls ++ calls').

(** [addr] is the address of the header node; 0 leaves the header NULL, as the
    code does.  [None] is a failed [malloc]. *)
Definition qb_skiplist_create (alloc_ok : bool) (addr : Z) (r : list Z) : option skiplist :=
  if negb alloc_ok then None
  else
    let l := {| length_ := 0; list_level := SKIPLIST_LEVEL_MIN; header := 0; nodes := ∅; arrays := ∅; randoms := r |} in
    let '(l, h) := skiplist_header_node_new l addr in
    Some {| length_ := 0; list_level := SKIPLIST_LEVEL_MIN; header := h; nodes := nodes l; arrays := arrays l;
            randoms := r |}.

(** ** The function table

    The state is [None] after a fault; a fault ends the program. *)

Definition run_fault {R} (l : option skiplist) (none : R) (f : skiplist -> option (skiplist * R))
    : option skiplist * R :=
  match l with
  | Some l => match f l with Some (l, r) => (Some l, r) | None => (None, none) end
  | None => (None, none)
  end.

Definition skiplist_map : qb_map (option skiplist) skiplist_iter :=
  {| put l k v addr := run_fault l [] (fun l => skiplist_put l k v addr);
     get l k := default 0 (l ← l; skiplist_get l k);
     rm l k := let '(l, (r, calls)) := run_fault l (QB_FALSE, [])
                 (fun l => '(l, r, calls) ← skiplist_rm l k; Some (l, (r, calls))) in (l, r, calls);
     count_get l := default 0 (skiplist_count_get <$> l);
     destroy l := default [] (l ← l; skiplist_destroy l);
     iter_create l prefix := run_fault l {| iter_n := 0 |} (fun l => skiplist_iter_create l prefix);
     iter_next l si := l ← l; '(l, si, kv, calls) ← skiplist_iter_next l si; Some (Some l, si, kv, calls);
     iter_free l si := ((fun l => skiplist_iter_free l si) <$> l, []);
     notify_add := Some (fun l k fn ev ud e => run_fault l 0 (fun l => skiplist_notify_add l k fn ev ud e));
     notify_del := Some (fun l k fn ev c ud => run_fault l 0 (fun l => skiplist_notify_del l k fn ev c ud)) |}.
