(* ===== verification/SkiplistShape.v ===== *)
(** * Skip list: the shape of the lists

    The order of the keys, the chains of forward pointers at each level, and
    what the loops over the levels do to them. *)
From S2P Require Import Prelude Map Skiplist.

(** ** The order of the keys *)

Definition key_lt (a b : map_key) : Prop := strcmp a b < 0.
#[export] Instance key_lt_dec a b : Decision (key_lt a b).
Proof. unfold key_lt. apply _. Defined.

Lemma strcmp_range a b : strcmp a b = -1 \/ strcmp a b = 0 \/ strcmp a b = 1.
Proof. revert b. induction a as [|x a IH]; intros [|y b]; cbn [strcmp]; auto. repeat zcase; auto. Qed.

Lemma strcmp_eq a b : strcmp a b = 0 <-> a = b.
Proof.
  revert b. induction a as [|x a IH]; intros [|y b]; cbn [strcmp]; try by split.
  destruct (Z.ltb_spec x y); [split; [done|intros [= -> ->]; lia]|].
  destruct (Z.ltb_spec y x); [split; [done|intros [= -> ->]; lia]|].
  rewrite IH. split; [intros ->; f_equal; lia|by intros [= _ ->]].
Qed.

Lemma strcmp_opp a b : strcmp b a = - strcmp a b.
Proof.
  revert b. induction a as [|x a IH]; intros [|y b]; cbn [strcmp]; try done.
  destruct (Z.ltb_spec x y), (Z.ltb_spec y x); try done; lia.
Qed.

Lemma key_lt_trans a b c : key_lt a b -> key_lt b c -> key_lt a c.
Proof.
  unfold key_lt. revert b c. induction a as [|x a IH]; intros [|y b] [|z c]; cbn [strcmp]; try lia.
  destruct (Z.ltb_spec x y), (Z.ltb_spec y z), (Z.ltb_spec x z), (Z.ltb_spec y x), (Z.ltb_spec z y), (Z.ltb_spec z x);
    try lia. apply IH.
Qed.

Lemma key_lt_irrefl a : ~ key_lt a a.
Proof. unfold key_lt. by rewrite (proj2 (strcmp_eq a a)). Qed.

(** Not below and not equal is above. *)
Lemma key_trichotomy a b : key_lt a b \/ a = b \/ key_lt b a.
Proof. unfold key_lt. rewrite <- strcmp_eq, (strcmp_opp a b). lia. Qed.

(** ** Chains of pointers *)

(** From [a] the pointers [next] run through [ns]. *)
Fixpoint seg (next : Z -> Z) (a : Z) (ns : list Z) : Prop :=
  match ns with [] => True | b :: ns => next a = b /\ seg next b ns end.

(** ... and end there. *)
Definition chain (next : Z -> Z) (a : Z) (ns : list Z) : Prop := seg next a ns /\ next (List.last ns a) = 0.

Lemma last_cons_default (d x : Z) l : List.last (x :: l) d = List.last l x.
Proof.
  revert d x. induction l as [|y l IH]; [done|]. intros d x.
  change (List.last (x :: y :: l) d) with (List.last (y :: l) d). by rewrite (IH d y), (IH x y).
Qed.

Lemma last_elem (d : Z) l : List.last l d ∈ d :: l.
Proof. revert d. induction l as [|x l IH]; [set_solver|]. intros d. rewrite last_cons_default. specialize (IH x). set_solver. Qed.

Lemma seg_app next a ns ms : seg next a (ns ++ ms) <-> seg next a ns /\ seg next (List.last ns a) ms.
Proof.
  revert a. induction ns as [|b ns IH]; intros a; [by cbn; split; [|intros []]|].
  rewrite last_cons_default. cbn [app seg]. rewrite IH. tauto.
Qed.

Lemma last_app_default (d : Z) l k : List.last (l ++ k) d = List.last k (List.last l d).
Proof.
  revert d. induction l as [|x l IH]; [done|]. intros d. cbn [app]. by rewrite !last_cons_default.
Qed.

Lemma chain_app next a ns ms : chain next a (ns ++ ms) <-> seg next a ns /\ chain next (List.last ns a) ms.
Proof. unfold chain. rewrite seg_app, last_app_default. tauto. Qed.

Lemma chain_cons next a b ns : chain next a (b :: ns) <-> next a = b /\ chain next b ns.
Proof. unfold chain. rewrite last_cons_default. cbn [seg]. tauto. Qed.

Lemma chain_nil next a : chain next a [] <-> next a = 0.
Proof. unfold chain. cbn. tauto. Qed.

Lemma seg_ext next next' a ns : (forall b, b ∈ a :: ns -> b <> List.last ns a -> next' b = next b) ->
  NoDup (a :: ns) -> seg next a ns -> seg next' a ns.
Proof.
  revert a. induction ns as [|b ns IH]; intros a He Hd; [done|]. cbn [seg]. rewrite last_cons_default in He.
  apply list.NoDup_cons in Hd as [Ha Hd]. intros [Hn Hs]. split.
  - rewrite He; [done|set_solver|]. intros E. pose proof (last_elem b ns). congruence.
  - apply IH; [|done|done]. intros c Hc Hne. apply He; [set_solver|done].
Qed.

Lemma chain_ext next next' a ns : (forall b, b ∈ a :: ns -> next' b = next b) -> NoDup (a :: ns) ->
  chain next a ns -> chain next' a ns.
Proof.
  intros He Hd [Hs Hl]. split; [eapply seg_ext; [|done|exact Hs]; auto|]. rewrite He; [done|apply last_elem].
Qed.

(** Putting a node behind the last of [lo], and taking one out. *)
Lemma chain_insert next a lo hi n :
  NoDup (n :: a :: lo ++ hi) -> chain next a (lo ++ hi) ->
  chain (fun b => if decide (b = n) then next (List.last lo a) else if decide (b = List.last lo a) then n else next b)
    a (lo ++ n :: hi).
Proof.
  intros Hd [Hs Hc]%chain_app. apply list.NoDup_cons in Hd as [Hn Hd].
  assert (Hd1 : NoDup (a :: lo)) by (rewrite app_comm_cons in Hd; by apply list.NoDup_app in Hd as [? _]).
  pose proof (last_elem a lo) as Hlast. rewrite chain_app, chain_cons. split_and!.
  - eapply seg_ext; [|done|exact Hs]. intros b Hb Hne. cbn. rewrite !decide_False; [done|done|]. set_solver.
  - cbn. rewrite decide_False by set_solver. by rewrite decide_True.
  - set (u := List.last lo a) in *. destruct hi as [|b hi].
    + rewrite chain_nil in Hc |- *. by rewrite decide_True.
    + rewrite chain_cons in Hc |- *. destruct Hc as [Hu Hc]. split; [by rewrite decide_True|].
      eapply chain_ext; [| |exact Hc].
      * intros x Hx. cbn. rewrite app_comm_cons in Hd. apply list.NoDup_app in Hd as (_ & Hdis & _).
        rewrite !decide_False; [done| |].
        -- intros ->. by apply (Hdis u).
        -- set_solver.
      * rewrite app_comm_cons in Hd. by apply list.NoDup_app in Hd as (_ & _ & ?).
Qed.

Lemma chain_remove next a lo n hi :
  NoDup (a :: lo ++ n :: hi) -> chain next a (lo ++ n :: hi) ->
  chain (fun b => if decide (b = List.last lo a) then next n else next b) a (lo ++ hi).
Proof.
  intros Hd [Hs [Hu Hc]%chain_cons]%chain_app. rewrite app_comm_cons in Hd.
  pose proof Hd as (Hd1 & Hdis & Hd2)%list.NoDup_app. pose proof (last_elem a lo) as Hlast.
  apply list.NoDup_cons in Hd2 as [Hn Hd2].
  assert (Hne : forall x, x ∈ hi -> x <> List.last lo a) by (intros x Hx ->; apply (Hdis _ Hlast); set_solver).
  rewrite chain_app. split.
  - eapply seg_ext; [|done|exact Hs]. intros b Hb ?. cbn. by rewrite decide_False.
  - set (u := List.last lo a) in *. destruct hi as [|b hi].
    + rewrite chain_nil in Hc |- *. by rewrite decide_True.
    + rewrite chain_cons in Hc |- *. destruct Hc as [Hnb Hc]. split; [by rewrite decide_True|].
      eapply chain_ext; [|done|exact Hc]. intros x Hx. cbn. by rewrite decide_False by by apply Hne.
Qed.

(** ** Nodes and their arrays *)

Definition nd (l : skiplist) (a : Z) : skiplist_node := nodes l !!! a.
Definition fw (l : skiplist) (j a : Z) : Z := zget (arrays l !!! forward (nd l a)) j.
Definition keyof (l : skiplist) (a : Z) : map_key := default [] (key (nd l a)).

(** The nodes [L] are allocated and each has an array of its own. *)
Record owns (l : skiplist) (L : list Z) : Prop := {
  ow_nodup : NoDup L;
  ow_node : forall a, a ∈ L -> a <> 0 /\ nodes l !! a = Some (nd l a);
  ow_array : forall a, a ∈ L -> exists f, arrays l !! forward (nd l a) = Some f /\ zlen f = 9;
  ow_own : forall a b, a ∈ L -> b ∈ L -> forward (nd l a) = forward (nd l b) -> a = b;
}.

(** Nothing but the arrays has changed. *)
Record same_nodes (l l' : skiplist) : Prop := {
  sn_nodes : nodes l' = nodes l;
  sn_header : header l' = header l;
  sn_level : list_level l' = list_level l;
  sn_length : length_ l' = length_ l;
  sn_randoms : randoms l' = randoms l;
}.

Lemma same_nodes_refl l : same_nodes l l.
Proof. by constructor. Qed.
Lemma same_nodes_trans l l' l'' : same_nodes l l' -> same_nodes l' l'' -> same_nodes l l''.
Proof. intros [] []. constructor; congruence. Qed.
Lemma same_nodes_nd l l' a : same_nodes l l' -> nd l' a = nd l a.
Proof. intros []. unfold nd. congruence. Qed.

Lemma fwd_owns l L a j : owns l L -> a ∈ L -> 0 <= j <= 8 -> fwd l a j = Some (fw l j a).
Proof.
  intros Ho Ha Hj. unfold fwd, fw. destruct (ow_node l L Ho a Ha) as [_ ->]. cbn [mbind option_bind].
  destruct (ow_array l L Ho a Ha) as (f & Hf & _). rewrite Hf. cbn [mbind option_bind].
  rewrite (proj2 (Z.leb_le 0 j)), (proj2 (Z.leb_le j SKIPLIST_LEVEL_MAX)) by (unfold SKIPLIST_LEVEL_MAX; lia).
  cbn [andb]. by rewrite (lookup_total_correct _ _ _ Hf).
Qed.

(** One step of a loop over the levels: at level [j] the pointers [x] of the
    nodes [L] become [G x], the other levels stay. *)
Record level_step (L : list Z) (j : Z) (G : (Z -> Z) -> Z -> Z) (l l' : skiplist) : Prop := {
  ls_same : same_nodes l l';
  ls_owns : owns l' L;
  ls_here : forall a, a ∈ L -> fw l' j a = G (fw l j) a;
  ls_other : forall a i, a ∈ L -> 0 <= i <= 8 -> i <> j -> fw l' i a = fw l i a;
}.

Lemma set_fwd_owns l L a j x :
  owns l L -> a ∈ L -> 0 <= j <= 8 ->
  exists l', set_fwd l a j x = Some l' /\ level_step L j (fun y b => if decide (b = a) then x else y b) l l'.
Proof.
  intros Ho Ha Hj. unfold set_fwd. destruct (ow_node l L Ho a Ha) as [_ ->]. cbn [mbind option_bind].
  destruct (ow_array l L Ho a Ha) as (f & Hf & Hlf). rewrite Hf. cbn [mbind option_bind].
  rewrite (proj2 (Z.leb_le 0 j)), (proj2 (Z.leb_le j SKIPLIST_LEVEL_MAX)) by (unfold SKIPLIST_LEVEL_MAX; lia).
  cbn [andb]. eexists. split; [done|]. set (l' := with_arrays _ _).
  assert (Harr : forall b, b ∈ L -> arrays l' !! forward (nd l b) =
      if decide (b = a) then Some (zset f j x) else arrays l !! forward (nd l b)).
  { intros b Hb. cbn. case_decide as E; [subst; apply lookup_insert_eq|].
    apply lookup_insert_ne. intros E1. by apply E, (ow_own l L Ho). }
  assert (Hfw : forall b i, b ∈ L -> fw l' i b = if decide (b = a) then zget (zset f j x) i else fw l i b).
  { intros b i Hb. unfold fw. change (nd l' b) with (nd l b). rewrite lookup_total_alt, Harr by done.
    case_decide; [done|]. by rewrite lookup_total_alt. }
  assert (Efa : forall i, fw l i a = zget f i) by (intros i; unfold fw; by rewrite (lookup_total_correct _ _ _ Hf)).
  constructor.
  - by constructor.
  - constructor; try apply Ho. intros b Hb. change (nd l' b) with (nd l b). rewrite Harr by done.
    case_decide; [eexists; split; [done|]; by rewrite zlen_zset|by apply (ow_array l L Ho)].
  - intros b Hb. rewrite Hfw by done. case_decide; [|done]. apply zget_zset_eq. lia.
  - intros b i Hb Hi Hne. rewrite Hfw by done. case_decide; [|done]. subst. rewrite Efa. by apply zget_zset_ne; [lia|].
Qed.

(** A loop over distinct levels whose body is such a step. *)
Lemma for_levels_steps (L : list Z) (G : Z -> (Z -> Z) -> Z -> Z) f :
  (forall j x y, 0 <= j <= 8 -> (forall b, b ∈ L -> x b = y b) -> forall a, a ∈ L -> G j x a = G j y a) ->
  forall js l, owns l L -> NoDup js -> (forall j, j ∈ js -> 0 <= j <= 8) ->
  (forall j l1, j ∈ js -> owns l1 L -> same_nodes l l1 -> (forall a, a ∈ L -> fw l1 j a = fw l j a) ->
     exists l2, f j l1 = Some l2 /\ level_step L j (G j) l1 l2) ->
  exists l', for_levels f js l = Some l' /\ same_nodes l l' /\ owns l' L /\
    (forall a j, a ∈ L -> 0 <= j <= 8 -> fw l' j a = if decide (j ∈ js) then G j (fw l j) a else fw l j a).
Proof.
  intros HG. induction js as [|j js IH]; intros l Ho Hd Hr Hf; cbn [for_levels].
  { exists l. split_and!; [done|apply same_nodes_refl|done|]. intros a i Ha Hi. by rewrite decide_False by set_solver. }
  apply list.NoDup_cons in Hd as [Hj Hd].
  destruct (Hf j l) as (l1 & -> & [Hs1 Ho1 Hh1 Hx1]); [set_solver|done|apply same_nodes_refl|done|]. cbn [mbind option_bind].
  destruct (IH l1 Ho1 Hd) as (l' & -> & Hs & Ho' & Hfw); [set_solver| |].
  - intros i l2 Hi Ho2 Hs2 Heq. apply Hf; [set_solver|done|by eapply same_nodes_trans|].
    intros a Ha. rewrite Heq by done. apply Hx1; [done|apply Hr; set_solver|]. intros ->. done.
  - exists l'. split_and!; [done|by eapply same_nodes_trans|done|]. intros a i Ha Hi. rewrite Hfw by done.
    destruct (decide (i = j)) as [->|Hne].
    + rewrite decide_False, decide_True by set_solver. by apply Hh1.
    + destruct (decide (i ∈ js)) as [Hin|Hin].
      * rewrite decide_True by set_solver. apply HG; [done| |done]. intros b Hb. by apply Hx1.
      * rewrite decide_False by set_solver. by apply Hx1.
Qed.
