(* ===== verification/SkiplistSearch.v ===== *)
(** * Skip list: the invariant and the searches

    [shape l c]: at level [j] the list runs from the header through the nodes
    [c j]; each level is part of the one below, and level 0 holds all nodes in
    the order of their keys. *)
From S2P Require Import Prelude Map Skiplist SkiplistShape.

Record shape (l : skiplist) (c : Z -> list Z) : Prop := {
  sh_owns : owns l (header l :: c 0);
  sh_chain : forall j, 0 <= j <= 8 -> chain (fw l j) (header l) (c j);
  sh_nest : forall j, 0 <= j < 8 -> c (j + 1) `sublist_of` c j;
  sh_top : forall j, list_level l < j <= 8 -> c j = [];
  sh_bound : -1 <= list_level l <= 8;
  sh_hdr : key (nd l (header l)) = None;
  sh_key : forall a, a ∈ c 0 -> key (nd l a) = Some (keyof l a);
  sh_range : forall a, a ∈ c 0 -> 0 <= level (nd l a) <= 8;
  sh_level : forall j a, 0 <= j <= 8 -> a ∈ c j -> j <= level (nd l a);
  sh_zero : forall j a, a ∈ c 0 -> level (nd l a) < j <= 8 -> fw l j a = 0;
  sh_sorted : StronglySorted (fun a b => key_lt (keyof l a) (keyof l b)) (c 0);
}.

(** The nodes before and from a key on, and the last one before it. *)
Definition lo (l : skiplist) (k : map_key) (ns : list Z) : list Z := filter (fun a => key_lt (keyof l a) k) ns.
Definition hi (l : skiplist) (k : map_key) (ns : list Z) : list Z := filter (fun a => ~ key_lt (keyof l a) k) ns.
Definition spot (l : skiplist) (c : Z -> list Z) (k : map_key) (j : Z) : Z := List.last (lo l k (c j)) (header l).

Lemma sublist_StronglySorted {A} (R : A -> A -> Prop) l1 l2 :
  l1 `sublist_of` l2 -> StronglySorted R l2 -> StronglySorted R l1.
Proof.
  induction 1 as [|x l1 l2 Hsub IH|x l1 l2 Hsub IH]; intros Hs; [done|..]; apply StronglySorted_inv in Hs as [Hs Hx]; [|by apply IH].
  constructor; [by apply IH|]. rewrite list.Forall_forall in Hx |- *. intros y Hy. apply Hx.
  by eapply elem_of_sublist.
Qed.

Section Shape.
Context (l : skiplist) (c : Z -> list Z) (Hsh : shape l c).

(** Every level is part of level 0. *)
Lemma level_sublist j : 0 <= j <= 8 -> c j `sublist_of` c 0.
Proof.
  intros Hj. destruct (Z_of_nat_complete j) as [n ->]; [lia|]. induction n as [|n IH]; [done|].
  replace (Z.of_nat (S n)) with (Z.of_nat n + 1) in * by lia.
  etrans; [apply (sh_nest l c Hsh); lia|apply IH; lia].
Qed.

Lemma level_sorted j : 0 <= j <= 8 -> StronglySorted (fun a b => key_lt (keyof l a) (keyof l b)) (c j).
Proof. intros Hj. eapply sublist_StronglySorted; [by apply level_sublist|apply Hsh]. Qed.

Lemma level_nodup j : 0 <= j <= 8 -> NoDup (header l :: c j).
Proof. intros Hj. eapply sublist_NoDup; [apply (ow_nodup _ _ (sh_owns l c Hsh))|]. constructor. by apply level_sublist. Qed.

Lemma level_elem j a : 0 <= j <= 8 -> a ∈ c j -> a ∈ c 0.
Proof. intros Hj Ha. eapply elem_of_sublist; [exact Ha|by apply level_sublist]. Qed.

Lemma nest_le i j : 0 <= i <= j -> j <= 8 -> c j `sublist_of` c i.
Proof.
  intros Hi Hj. replace j with (i + Z.of_nat (Z.to_nat (j - i))) in * by lia.
  induction (Z.to_nat (j - i)) as [|n IH]; [by rewrite Z.add_0_r|].
  replace (i + Z.of_nat (S n)) with (i + Z.of_nat n + 1) in * by lia.
  etrans; [apply (sh_nest l c Hsh); lia|apply IH; lia].
Qed.

Lemma lo_hi k ns : StronglySorted (fun a b => key_lt (keyof l a) (keyof l b)) ns -> ns = lo l k ns ++ hi l k ns.
Proof.
  induction ns as [|x ns IH]; intros Hs; [done|]. apply StronglySorted_inv in Hs as [Hs Hx].
  unfold lo, hi in *. rewrite !filter_cons. destruct (decide (key_lt (keyof l x) k)) as [Hlt|Hge].
  - rewrite decide_False by tauto. cbn [app]. f_equal. by apply IH.
  - rewrite decide_True by done.
    assert (Hnone : filter (fun a => key_lt (keyof l a) k) ns = []).
    { apply filter_none. intros y Hy Hlt. rewrite list.Forall_forall in Hx. apply Hge. by eapply key_lt_trans; [apply Hx|]. }
    rewrite Hnone in *. cbn [app] in *. f_equal. by apply IH.
Qed.

(** ** One step of a search *)

Lemma chain_next next h ns p cur s : chain next h ns -> h :: ns = p ++ cur :: s -> next cur = hd 0 s.
Proof.
  intros Hc E. assert (Hcs : chain next cur s).
  { destruct p as [|h' p]; cbn in E; injection E as -> ->; [done|]. apply chain_app in Hc as [_ Hc]. by apply chain_cons in Hc as [_ Hc]. }
  destruct s; [by apply chain_nil in Hcs|by apply chain_cons in Hcs as [-> _]].
Qed.

Definition step_op (k : map_key) (s : list Z) : op_t :=
  match s with
  | [] => OP_GOTO_NEXT_LEVEL
  | b :: _ => if decide (key_lt (keyof l b) k) then OP_GOTO_NEXT_NODE
              else if decide (keyof l b = k) then OP_FINISH else OP_GOTO_NEXT_LEVEL
  end.

Lemma op_search_node k b : b ∈ c 0 -> op_search l b k = Some (step_op k [b]).
Proof.
  intros Hb. unfold op_search, step_op. destruct (ow_node _ _ (sh_owns l c Hsh) b) as [H0 Hn]; [set_solver|].
  destruct (Z.eqb_spec b 0); [done|]. rewrite Hn. cbn [mbind option_bind]. rewrite (sh_key l c Hsh) by done.
  cbn [mbind option_bind]. unfold key_lt. destruct (Z.ltb_spec (strcmp (keyof l b) k) 0).
  - by rewrite decide_True.
  - rewrite (decide_False (P := strcmp _ _ < 0)) by lia. pose proof (strcmp_eq (keyof l b) k) as Heq.
    destruct (Z.eqb_spec (strcmp (keyof l b) k) 0); [rewrite decide_True by tauto; done|rewrite decide_False by tauto; done].
Qed.

Lemma search_step k j p cur s :
  0 <= j <= 8 -> header l :: c j = p ++ cur :: s ->
  fwd l cur j = Some (hd 0 s) /\ op_search l (hd 0 s) k = Some (step_op k s).
Proof.
  intros Hj E. pose proof (sh_chain l c Hsh j Hj) as Hc. split.
  - rewrite (fwd_owns l (header l :: c 0)); [|apply Hsh| |done].
    + f_equal. by eapply chain_next.
    + assert (Hin : cur ∈ header l :: c j) by (rewrite E; set_solver).
      apply elem_of_cons in Hin as [->|Hin]; [set_solver|]. apply (level_elem j) in Hin; [set_solver|done].
  - destruct s as [|b s]; [done|]. cbn [hd]. apply op_search_node. apply (level_elem j); [done|].
    destruct p; injection E as E1 ->; set_solver.
Qed.

(** Where a search stops at a level. *)
Lemma search_stop k j p cur s :
  0 <= j <= 8 -> header l :: c j = p ++ cur :: s -> cur = header l \/ key_lt (keyof l cur) k ->
  step_op k s <> OP_GOTO_NEXT_NODE ->
  cur = spot l c k j /\ hi l k (c j) = s.
Proof.
  intros Hj E Hcur Hstop. pose proof (level_sorted j Hj) as Hs. pose proof (level_nodup j Hj) as Hd.
  assert (Hge : forall b, b ∈ s -> ~ key_lt (keyof l b) k).
  { assert (Hss : StronglySorted (fun a b => key_lt (keyof l a) (keyof l b)) s).
    { destruct p as [|h p]; injection E as _ E2; rewrite E2 in Hs; [done|]. apply StronglySorted_app_1_r in Hs.
      by apply StronglySorted_inv in Hs as [? _]. }
    destruct s as [|b0 s]; [set_solver|]. cbn in Hstop. apply StronglySorted_inv in Hss as [_ Hb0].
    destruct (decide (key_lt (keyof l b0) k)) as [|Hn]; [done|]. intros b [->|Hb]%elem_of_cons; [done|].
    rewrite list.Forall_forall in Hb0. intros Hlt. apply Hn. by eapply key_lt_trans; [apply Hb0|]. }
  assert (Hhs : forall q, (forall a, a ∈ q -> key_lt (keyof l a) k) -> c j = q ++ s -> lo l k (c j) = q /\ hi l k (c j) = s).
  { intros q Hq ->. unfold lo, hi. rewrite !list.filter_app. split.
    - rewrite filter_all, filter_none by done. by rewrite app_nil_r.
    - rewrite filter_none, filter_all by (intros x Hx; specialize (Hq x); tauto || by apply Hge). done. }
  destruct p as [|h p]; cbn in E; injection E as E1 E2.
  - destruct (Hhs [] ltac:(set_solver) E2) as [Hlo Hhi]. unfold spot. rewrite Hlo. split; [by cbn|done].
  - destruct (Hhs (p ++ [cur])) as [Hlo Hhi]; [|by rewrite E2, <- app_assoc|].
    + assert (Hck : key_lt (keyof l cur) k).
      { destruct Hcur as [->|]; [|done]. rewrite E2 in Hd. apply list.NoDup_cons in Hd as [Hd _]. set_solver. }
      intros a [Ha| ->%list_elem_of_singleton]%elem_of_app; [|done].
      eapply key_lt_trans; [|exact Hck]. rewrite E2 in Hs.
      by apply (StronglySorted_app_1_elem_of _ _ _ a cur Hs); [|set_solver].
    + unfold spot. rewrite Hlo, last_app_default. done.
Qed.

(** ** The searches *)

(** The nodes of level 0 that a search at [cur] has not passed yet. *)
Definition ahead (cur : Z) : list Z :=
  filter (fun a => cur = header l \/ key_lt (keyof l cur) (keyof l a)) (c 0).

(** A search at [cur] and level [j]. *)
Record searching (k : map_key) (cur j : Z) : Prop := {
  se_level : -1 <= j <= 8;
  se_here : 0 <= j -> cur ∈ header l :: c j;
  se_below : cur = header l \/ key_lt (keyof l cur) k;
}.

Lemma searching_split k cur j : searching k cur j -> 0 <= j -> exists p s, header l :: c j = p ++ cur :: s.
Proof. intros [_ Hh _] Hj. by apply list_elem_of_split, Hh. Qed.

(** Going on to the next node. *)
Lemma searching_next k cur j p b s :
  searching k cur j -> 0 <= j -> header l :: c j = p ++ cur :: b :: s -> key_lt (keyof l b) k ->
  searching k b j /\ (length (ahead b) < length (ahead cur))%nat.
Proof.
  intros [Hj Hh Hbelow] Hj0 E Hlt. pose proof (level_nodup j ltac:(lia)) as Hd.
  assert (Hb : b ∈ c j) by (destruct p; injection E as _ ->; set_solver).
  assert (Hcb : cur = header l \/ key_lt (keyof l cur) (keyof l b)).
  { destruct p as [|h p]; injection E as E1 E2; [by left|right].
    pose proof (level_sorted j ltac:(lia)) as Hs. rewrite E2 in Hs. apply StronglySorted_app_1_r in Hs.
    apply StronglySorted_inv in Hs as [_ Hs]. rewrite list.Forall_forall in Hs. apply Hs. set_solver. }
  assert (Hbh : b <> header l).
  { intros ->. apply list.NoDup_cons in Hd as [Hd _]. done. }
  split; [constructor; [done| |by right]; intros _; set_solver|].
  apply filter_length_lt with b.
  - intros y _ [?|Hy]; [done|]. destruct Hcb as [?|Hcb]; [by left|right]. by eapply key_lt_trans.
  - apply (level_elem j); [lia|done].
  - done.
  - intros [?|Hbb]; [done|]. by apply key_lt_irrefl in Hbb.
Qed.

(** Going down a level. *)
Lemma searching_down k cur j : searching k cur j -> 0 <= j -> searching k cur (j - 1).
Proof.
  intros [Hj Hh Hb] Hj0. constructor; [lia| |done]. intros Hj1.
  destruct (proj1 (elem_of_cons _ _ _) (Hh Hj0)) as [->|Hin]; [set_solver|].
  apply elem_of_cons. right. eapply elem_of_sublist; [exact Hin|]. apply nest_le; lia.
Qed.

Lemma ahead_fuel cur : (length (ahead cur) <= size (nodes l))%nat.
Proof.
  unfold ahead. etrans; [apply length_filter|].
  pose proof (sh_owns l c Hsh) as Ho. rewrite <- length_map_to_list, <- (length_fmap fst).
  apply submseteq_length, NoDup_submseteq.
  - apply (proj2 (proj1 (list.NoDup_cons _ _) (ow_nodup _ _ Ho))).
  - intros a Ha. destruct (ow_node _ _ Ho a) as [_ Hn]; [set_solver|].
    apply list_elem_of_fmap. exists (a, nd l a). split; [done|]. by apply elem_of_map_to_list.
Qed.

Lemma rm_loop_ok k fuel : forall cur j update,
  searching k cur j -> (j = -1 -> cur = spot l c k 0) ->
  (length (ahead cur) + Z.to_nat (j + 1) < fuel)%nat -> zlen update = 9 ->
  (forall i, j < i <= list_level l -> 0 <= i -> zget update i = spot l c k i) ->
  exists update', rm_loop fuel l cur j k update = Some (spot l c k 0, update') /\
    (forall i, 0 <= i <= list_level l -> zget update' i = spot l c k i).
Proof.
  induction fuel as [|fuel IH]; intros cur j update Hse Hend Hf Hlen Hup; [lia|]. cbn [rm_loop].
  unfold SKIPLIST_LEVEL_MIN. pose proof (se_level _ _ _ Hse). destruct (Z.ltb_spec j 0) as [Hneg|Hpos].
  { rewrite <- Hend by lia. exists update. split; [done|]. intros i Hi. apply Hup; lia. }
  destruct (searching_split k cur j Hse Hpos) as (p & s & E).
  destruct (search_step k j p cur s ltac:(lia) E) as [-> Hop]. cbn [mbind option_bind]. rewrite Hop.
  cbn [mbind option_bind].
  assert (Hdown : step_op k s <> OP_GOTO_NEXT_NODE -> exists update',
    rm_loop fuel l cur (j - 1) k (zset update j cur) = Some (spot l c k 0, update') /\
    (forall i, 0 <= i <= list_level l -> zget update' i = spot l c k i)).
  { intros Hst. destruct (search_stop k j p cur s ltac:(lia) E (se_below _ _ _ Hse) Hst) as [Hspot _].
    apply IH; [by apply searching_down| |lia|by rewrite zlen_zset|].
    - intros Hj. by replace j with 0 in Hspot by lia.
    - intros i Hi Hi0. destruct (decide (i = j)) as [->|].
      + rewrite zget_zset_eq by lia. done.
      + rewrite zget_zset_ne by lia. apply Hup; lia. }
  destruct (step_op k s) eqn:Est; try by apply Hdown.
  destruct s as [|b s]; [done|]. cbn [hd]. cbn in Est.
  destruct (decide (key_lt (keyof l b) k)) as [Hlt|]; [|by destruct (decide (keyof l b = k))].
  destruct (searching_next k cur j p b s Hse Hpos E Hlt) as [Hse' Hm].
  apply IH; [done|lia|lia|by rewrite zlen_zset|].
  intros i Hi Hi0. rewrite zget_zset_ne by lia. by apply Hup.
Qed.

(** The search of a put finds the node with the key, or there is none. *)
Lemma put_loop_ok k fuel : forall cur j update,
  searching k cur j -> (j = -1 -> forall a, a ∈ c 0 -> keyof l a <> k) ->
  (length (ahead cur) + Z.to_nat (j + 1) < fuel)%nat -> zlen update = 9 ->
  (forall i, j < i <= list_level l -> 0 <= i -> zget update i = spot l c k i) ->
  (exists a, put_loop fuel l cur j k update = Some (inl a) /\ a ∈ c 0 /\ keyof l a = k) \/
  (exists update', put_loop fuel l cur j k update = Some (inr update') /\ zlen update' = 9 /\
    (forall a, a ∈ c 0 -> keyof l a <> k) /\
    (forall i, 0 <= i <= list_level l -> zget update' i = spot l c k i)).
Proof.
  induction fuel as [|fuel IH]; intros cur j update Hse Hend Hf Hlen Hup; [lia|]. cbn [put_loop].
  unfold SKIPLIST_LEVEL_MIN. pose proof (se_level _ _ _ Hse). destruct (Z.ltb_spec j 0) as [Hneg|Hpos].
  { right. exists update. split_and!; [done|done|apply Hend; lia|]. intros i Hi. apply Hup; lia. }
  destruct (searching_split k cur j Hse Hpos) as (p & s & E).
  destruct (search_step k j p cur s ltac:(lia) E) as [-> Hop]. cbn [mbind option_bind]. rewrite Hop.
  cbn [mbind option_bind]. destruct (step_op k s) eqn:Est.
  - destruct (search_stop k j p cur s ltac:(lia) E (se_below _ _ _ Hse)) as [Hspot Hhi]; [by rewrite Est|].
    apply IH; [by apply searching_down| |lia|by rewrite zlen_zset|].
    + intros Hj a Ha Hk. replace j with 0 in * by lia.
      assert (Has : a ∈ s).
      { rewrite <- Hhi. apply list_elem_of_filter. split; [|done]. rewrite Hk. apply key_lt_irrefl. }
      destruct s as [|b s]; [set_solver|]. cbn in Est. destruct (decide (key_lt _ _)) as [|Hnlt]; [done|].
      destruct (decide (keyof l b = k)) as [|Hne]; [done|].
      apply elem_of_cons in Has as [->|Has]; [done|].
      assert (Hba : key_lt (keyof l b) (keyof l a)).
      { pose proof (level_sorted 0 ltac:(lia)) as Hs. rewrite (lo_hi k _ Hs), Hhi in Hs.
        apply StronglySorted_app_1_r, StronglySorted_inv in Hs as [_ Hs]. rewrite list.Forall_forall in Hs. by apply Hs. }
      rewrite Hk in Hba. done.
    + intros i Hi Hi0. destruct (decide (i = j)) as [->|]; [by rewrite zget_zset_eq by lia|].
      rewrite zget_zset_ne by lia. apply Hup; lia.
  - destruct s as [|b s]; [done|]. cbn [hd]. cbn in Est.
    destruct (decide (key_lt (keyof l b) k)) as [Hlt|]; [|by destruct (decide (keyof l b = k))].
    destruct (searching_next k cur j p b s Hse Hpos E Hlt) as [Hse' Hm].
    apply IH; [done|lia|lia|by rewrite zlen_zset|].
    intros i Hi Hi0. rewrite zget_zset_ne by lia. by apply Hup.
  - left. destruct s as [|b s]; [done|]. cbn [hd]. cbn in Est. exists b. split; [done|].
    destruct (decide (key_lt (keyof l b) k)); [done|]. destruct (decide (keyof l b = k)); [|done].
    split; [|done]. apply (level_elem j); [lia|]. destruct p; injection E as _ ->; set_solver.
Qed.

Lemma lookup_put fuel k : forall cur j update,
  lookup_loop fuel l cur j k =
  match put_loop fuel l cur j k update with Some (inl a) => Some a | Some (inr _) => Some 0 | None => None end.
Proof.
  induction fuel as [|fuel IH]; intros cur j update; [done|]. cbn [lookup_loop put_loop].
  destruct (j <? SKIPLIST_LEVEL_MIN); [done|]. destruct (fwd l cur j) as [b|]; [|done]. cbn [mbind option_bind].
  destruct (op_search l b k) as [[]|]; cbn [mbind option_bind]; done || apply IH.
Qed.

(** ** From the header *)

Lemma search_start k : searching k (header l) (list_level l).
Proof. constructor; [apply Hsh|set_solver|by left]. Qed.

Lemma start_fuel : (length (ahead (header l)) + Z.to_nat (list_level l + 1) < search_fuel l)%nat.
Proof. unfold search_fuel. pose proof (ahead_fuel (header l)). pose proof (sh_bound l c Hsh). lia. Qed.

Lemma rm_search k :
  exists update, rm_loop (search_fuel l) l (header l) (list_level l) k no_update = Some (spot l c k 0, update) /\
    (forall i, 0 <= i <= list_level l -> zget update i = spot l c k i).
Proof.
  apply rm_loop_ok; [apply search_start| |apply start_fuel|done|lia].
  intros Hj. unfold spot. by rewrite (sh_top l c Hsh 0) by lia.
Qed.

Lemma put_search k :
  (exists a, put_loop (search_fuel l) l (header l) (list_level l) k no_update = Some (inl a) /\ a ∈ c 0 /\ keyof l a = k) \/
  (exists update, put_loop (search_fuel l) l (header l) (list_level l) k no_update = Some (inr update) /\
    zlen update = 9 /\ (forall a, a ∈ c 0 -> keyof l a <> k) /\
    (forall i, 0 <= i <= list_level l -> zget update i = spot l c k i)).
Proof.
  apply put_loop_ok; [apply search_start| |apply start_fuel|done|lia].
  intros Hj a Ha. rewrite (sh_top l c Hsh 0) in Ha by lia. set_solver.
Qed.

Lemma lookup_ok k :
  (exists a, skiplist_lookup l k = Some a /\ a ∈ c 0 /\ keyof l a = k) \/
  (skiplist_lookup l k = Some 0 /\ forall a, a ∈ c 0 -> keyof l a <> k).
Proof.
  unfold skiplist_lookup. rewrite (lookup_put _ k _ _ no_update).
  destruct (put_search k) as [(a & -> & Ha & Hk)|(u & -> & _ & Hn & _)]; [left; eauto|by right].
Qed.

(** The next node of the lowest level; all nodes have references. *)
Lemma node_next_ok p cur s :
  (forall a, a ∈ c 0 -> refcount (nd l a) <> 0) -> header l :: c 0 = p ++ cur :: s ->
  skiplist_node_next l cur = Some (hd 0 s).
Proof.
  intros Href E. unfold skiplist_node_next, search_fuel. rewrite Nat.add_comm. cbn [Nat.add next_loop]. unfold SKIPLIST_LEVEL_MIN.
  destruct (search_step [] 0 p cur s ltac:(lia) E) as [-> _]. cbn [mbind option_bind].
  destruct s as [|b s]; [done|]. cbn [hd]. assert (Hb : b ∈ c 0) by (destruct p; injection E as _ ->; set_solver).
  destruct (ow_node _ _ (sh_owns l c Hsh) b) as [H0 Hn]; [set_solver|]. destruct (Z.eqb_spec b 0); [done|].
  rewrite Hn. cbn [mbind option_bind]. by destruct (Z.eqb_spec (refcount (nd l b)) 0) as [?%Href|].
Qed.
End Shape.
