(* ===== verification/SkiplistOps.v ===== *)
(** * Skip list: putting and removing keep the shape *)
From S2P Require Import Prelude Map Skiplist SkiplistShape SkiplistSearch.

(** ** Changes that do not touch pointers *)

(** The nodes [L] have the same keys, levels and arrays. *)
Record agree (L : list Z) (l l' : skiplist) : Prop := {
  ag_node : forall a, a ∈ L -> nodes l' !! a = Some (nd l' a);
  ag_key : forall a, a ∈ L -> key (nd l' a) = key (nd l a);
  ag_level : forall a, a ∈ L -> level (nd l' a) = level (nd l a);
  ag_forward : forall a, a ∈ L -> forward (nd l' a) = forward (nd l a);
  ag_array : forall a, a ∈ L -> arrays l' !! forward (nd l a) = arrays l !! forward (nd l a);
}.

Lemma agree_keyof L l l' a : agree L l l' -> a ∈ L -> keyof l' a = keyof l a.
Proof. intros Hag Ha. unfold keyof. by rewrite (ag_key _ _ _ Hag). Qed.

Lemma agree_fw L l l' a j : agree L l l' -> a ∈ L -> fw l' j a = fw l j a.
Proof.
  intros Hag Ha. unfold fw. rewrite (ag_forward _ _ _ Hag) by done.
  by rewrite lookup_total_alt, (ag_array _ _ _ Hag), <- lookup_total_alt.
Qed.

Lemma agree_owns L l l' : agree L l l' -> owns l L -> owns l' L.
Proof.
  intros Hag [Hd Hn Ha Ho]. constructor; [done|..].
  - intros a Hin. split; [by apply Hn|by apply (ag_node _ _ _ Hag)].
  - intros a Hin. rewrite (ag_forward _ _ _ Hag), (ag_array _ _ _ Hag) by done. by apply Ha.
  - intros a b Hin Hin'. rewrite !(ag_forward _ _ _ Hag) by done. by apply Ho.
Qed.

Lemma sorted_keyof l l' ns :
  (forall a, a ∈ ns -> keyof l' a = keyof l a) -> StronglySorted (fun a b => key_lt (keyof l a) (keyof l b)) ns ->
  StronglySorted (fun a b => key_lt (keyof l' a) (keyof l' b)) ns.
Proof.
  intros Hk. induction 1 as [|x ns Hs IH Hx]; [constructor|].
  constructor; [apply IH; intros; apply Hk; set_solver|]. rewrite list.Forall_forall in Hx |- *.
  intros y Hy. rewrite !Hk by set_solver. by apply Hx.
Qed.

Lemma shape_agree l l' c :
  shape l c -> header l' = header l -> list_level l' = list_level l -> agree (header l :: c 0) l l' -> shape l' c.
Proof.
  intros Hsh Hh Hl Hag. pose proof Hsh as [Ho Hc Hn Ht Hb Hk0 Hk Hr Hlv Hz Hs].
  assert (Hin : forall j a, 0 <= j <= 8 -> a ∈ header l :: c j -> a ∈ header l :: c 0).
  { intros j a Hj [->|Ha]%elem_of_cons; [set_solver|]. apply (level_elem l c Hsh j) in Ha; [set_solver|done]. }
  constructor; rewrite ?Hh, ?Hl; try done.
  - by eapply agree_owns.
  - intros j Hj. eapply chain_ext; [|by apply (level_nodup l c Hsh)|by apply Hc].
    intros b Hb'. eapply agree_fw; [exact Hag|by eapply Hin].
  - rewrite (ag_key _ _ _ Hag); [done|set_solver].
  - intros a Ha. rewrite (ag_key _ _ _ Hag) by set_solver. erewrite agree_keyof; [by apply Hk|done|set_solver].
  - intros a Ha. rewrite (ag_level _ _ _ Hag) by set_solver. by apply Hr.
  - intros j a Hj Ha. rewrite (ag_level _ _ _ Hag) by (eapply Hin; [exact Hj|set_solver]). by apply Hlv.
  - intros j a Ha Hj. rewrite (ag_level _ _ _ Hag) in Hj by set_solver. erewrite agree_fw; [by apply Hz|done|set_solver].
  - eapply sorted_keyof; [|exact Hs]. intros a Ha. eapply agree_keyof; [done|set_solver].
Qed.

Lemma nd_set_node l a n b : nd (set_node l a n) b = if decide (b = a) then n else nd l b.
Proof.
  unfold nd, set_node. cbn. case_decide; [subst; apply lookup_total_insert_eq|]. by apply lookup_total_insert_ne.
Qed.

(** Changing the value, the references or the notifiers of one node. *)
Lemma agree_set_node L l a n :
  owns l L -> key n = key (nd l a) -> level n = level (nd l a) -> forward n = forward (nd l a) ->
  agree L l (set_node l a n).
Proof.
  intros Ho Hk Hl Hf. constructor; intros b Hb; rewrite ?nd_set_node; try done; try (by case_decide; subst).
  - unfold set_node. cbn. case_decide; [subst; apply lookup_insert_eq|]. rewrite lookup_insert_ne by done.
    by apply (ow_node _ _ Ho).
Qed.

(** ** Levels as lists *)

Lemma elem_of_levels a b j : j ∈ levels a b <-> a <= j <= b.
Proof. unfold levels. rewrite elem_of_seqZ. lia. Qed.

Lemma NoDup_levels a b : NoDup (levels a b).
Proof. apply NoDup_seqZ. Qed.

Lemma owns_perm l L L' : owns l L -> L ≡ₚ L' -> owns l L'.
Proof.
  intros [Hd Hn Ha Ho] Hp. constructor; [by rewrite <- Hp|..].
  - intros a. rewrite <- Hp. apply Hn.
  - intros a. rewrite <- Hp. apply Ha.
  - intros a b. rewrite <- !Hp. apply Ho.
Qed.

Lemma owns_sub l L L' : owns l L -> NoDup L' -> (forall a, a ∈ L' -> a ∈ L) -> owns l L'.
Proof. intros [Hd Hn Ha Ho] Hd' Hs. constructor; auto. Qed.

(** ** Putting a new node in *)

Lemma filter_sublist_mono {A} (P : A -> Prop) `{!forall x, Decision (P x)} (l1 l2 : list A) :
  l1 `sublist_of` l2 -> filter P l1 `sublist_of` filter P l2.
Proof.
  induction 1 as [|x l1 l2 _ IH|x l1 l2 _ IH]; rewrite ?filter_cons; [done|..];
    destruct (decide (P x)); by (constructor || idtac).
Qed.

(** The last node before a key is a node. *)
Lemma spot_elem l c k (Hsh : shape l c) j : 0 <= j <= 8 -> spot l c k j ∈ header l :: c 0.
Proof.
  intros Hj. pose proof (last_elem (header l) (lo l k (c j))) as Hl. unfold spot.
  apply elem_of_cons in Hl as [->|[_ Hl]%list_elem_of_filter]; [set_solver|].
  apply (level_elem l c Hsh j) in Hl; [set_solver|done].
Qed.

Lemma level_split l c k (Hsh : shape l c) j : 0 <= j <= 8 -> c j = lo l k (c j) ++ hi l k (c j).
Proof. intros Hj. by apply lo_hi, (level_sorted l c Hsh). Qed.

Section Insert.
Context (l : skiplist) (c : Z -> list Z) (k : map_key) (new n : Z).

(** The level lists with the new node up to level [n]. *)
Definition inserted (j : Z) : list Z := if j <=? n then lo l k (c j) ++ new :: hi l k (c j) else c j.

(** The pointers of level [j] with the new node. *)
Definition link_in (j : Z) (x : Z -> Z) (a : Z) : Z :=
  if decide (a = new) then x (spot l c k j) else if decide (a = spot l c k j) then new else x a.

Hypothesis Hsh : shape l c.
Hypothesis Hn : 0 <= n <= 8.
Hypothesis Hfresh : new ∉ header l :: c 0.

Lemma spot_new j : 0 <= j <= 8 -> spot l c k j <> new.
Proof. intros Hj E. apply Hfresh. rewrite <- E. by apply spot_elem. Qed.

Lemma inserted_perm j : 0 <= j <= n -> inserted j ≡ₚ new :: c j.
Proof.
  intros Hj. unfold inserted. rewrite (proj2 (Z.leb_le _ _)) by lia. rewrite (level_split l c k Hsh j) at 3 by lia.
  by rewrite Permutation_middle.
Qed.

Lemma inserted_elem j a : 0 <= j <= 8 -> a ∈ inserted j <-> a ∈ c j \/ (a = new /\ j <= n).
Proof.
  intros Hj. destruct (Z_le_gt_dec j n) as [Hle|Hgt].
  - rewrite inserted_perm by lia. set_solver.
  - unfold inserted. rewrite (proj2 (Z.leb_gt _ _)) by lia. split; [by left|intros [?|[_ ?]]; [done|lia]].
Qed.

Lemma inserted_nest j : 0 <= j < 8 -> inserted (j + 1) `sublist_of` inserted j.
Proof.
  intros Hj. pose proof (sh_nest l c Hsh j Hj) as Hsub. unfold inserted.
  destruct (Z.leb_spec (j + 1) n), (Z.leb_spec j n); try lia.
  - apply sublist_app; [by apply filter_sublist_mono|]. constructor. by apply filter_sublist_mono.
  - etrans; [exact Hsub|]. rewrite (level_split l c k Hsh j) at 1 by lia. apply sublist_app; [done|]. by constructor.
  - done.
Qed.

Lemma link_in_step j l1 :
  owns l1 (new :: header l :: c 0) -> 0 <= j <= 8 ->
  forall update, zget update j = spot l c k j ->
  exists l2, drop_in update new j l1 = Some l2 /\ level_step (new :: header l :: c 0) j (link_in j) l1 l2.
Proof.
  intros Ho Hj update Hu. unfold drop_in. rewrite Hu. pose proof (spot_elem l c k Hsh j Hj) as Hsp.
  set (u := spot l c k j) in *. set (L := new :: header l :: c 0) in *.
  pose proof (spot_new j Hj : u <> new).
  rewrite (fwd_owns l1 L) by (done || set_solver). cbn [mbind option_bind].
  destruct (set_fwd_owns l1 L new j (fw l1 j u) Ho) as (l2 & -> & [Hs2 Ho2 Hh2 Hx2]); [set_solver|done|].
  cbn [mbind option_bind]. destruct (set_fwd_owns l2 L u j new Ho2) as (l3 & -> & [Hs3 Ho3 Hh3 Hx3]); [set_solver|done|].
  exists l3. split; [done|]. constructor; [by eapply same_nodes_trans|done|..].
  - intros a Ha. rewrite Hh3 by done. unfold link_in. fold u. destruct (decide (a = u)) as [->|].
    + by rewrite decide_False.
    + by rewrite Hh2.
  - intros a i Ha Hi Hne. rewrite Hx3 by done. by apply Hx2.
Qed.

(** All levels. *)
Lemma drop_in_loop l1 update :
  owns l1 (new :: header l :: c 0) ->
  (forall j, 0 <= j <= n -> zget update j = spot l c k j) ->
  exists l2, for_levels (drop_in update new) (levels SKIPLIST_LEVEL_MIN n) l1 = Some l2 /\
    same_nodes l1 l2 /\ owns l2 (new :: header l :: c 0) /\
    (forall a j, a ∈ new :: header l :: c 0 -> 0 <= j <= 8 ->
       fw l2 j a = if decide (0 <= j <= n) then link_in j (fw l1 j) a else fw l1 j a).
Proof.
  intros Ho Hu. destruct (for_levels_steps (new :: header l :: c 0) link_in (drop_in update new)) with
    (js := levels SKIPLIST_LEVEL_MIN n) (l := l1) as (l2 & E & Hs & Ho2 & Hfw).
  - intros j x y Hj Hxy a Ha. unfold link_in. pose proof (spot_elem l c k Hsh j Hj). repeat case_decide; auto. apply Hxy. set_solver.
  - done.
  - apply NoDup_levels.
  - intros j. rewrite elem_of_levels. unfold SKIPLIST_LEVEL_MIN. lia.
  - intros j l' Hj%elem_of_levels Ho' _ _. unfold SKIPLIST_LEVEL_MIN in Hj. apply link_in_step; [done|lia|]. apply Hu. lia.
  - exists l2. split_and!; try done. intros a j Ha Hj. rewrite Hfw by done.
    destruct (decide (0 <= j <= n)); [rewrite decide_True|rewrite decide_False]; try done;
      rewrite elem_of_levels; unfold SKIPLIST_LEVEL_MIN; lia.
Qed.

(** The new node in its levels. *)
Lemma inserted_shape l2 node :
  header l2 = header l -> list_level l2 = Z.max (list_level l) n ->
  nodes l2 = <[new := node]> (nodes l) -> key node = Some k -> level node = n ->
  (forall a, a ∈ c 0 -> keyof l a <> k) ->
  owns l2 (new :: header l :: c 0) ->
  (forall a j, a ∈ new :: header l :: c 0 -> 0 <= j <= 8 ->
     fw l2 j a = if decide (0 <= j <= n) then link_in j (fun b => if decide (b = new) then 0 else fw l j b) a
                 else if decide (a = new) then 0 else fw l j a) ->
  shape l2 inserted.
Proof.
  intros Hh Hlv Hnodes Hkey Hlevel Hnk Ho Hfw.
  assert (Hnew : nd l2 new = node) by (unfold nd; rewrite Hnodes; apply lookup_total_insert_eq).
  assert (Hold : forall a, a ∈ header l :: c 0 -> nd l2 a = nd l a).
  { intros a Ha. unfold nd. rewrite Hnodes. apply lookup_total_insert_ne. set_solver. }
  assert (Hkold : forall a, a ∈ c 0 -> keyof l2 a = keyof l a) by (intros a Ha; unfold keyof; by rewrite Hold by set_solver).
  assert (Hknew : keyof l2 new = k) by (unfold keyof; by rewrite Hnew, Hkey).
  pose proof (sh_bound l c Hsh) as Hb. constructor; rewrite ?Hh, ?Hlv.
  - eapply owns_perm; [exact Ho|]. rewrite (inserted_perm 0) by lia. apply perm_swap.
  - intros j Hj. pose proof (sh_chain l c Hsh j Hj) as Hc. pose proof (level_nodup l c Hsh j Hj) as Hd.
    assert (Hsub : forall a, a ∈ header l :: c j -> a ∈ header l :: c 0 /\ a <> new).
    { intros a Ha. assert (a ∈ header l :: c 0); [|set_solver].
      apply elem_of_cons in Ha as [->|Ha]; [set_solver|]. apply (level_elem l c Hsh j) in Ha; [set_solver|done]. }
    unfold inserted. destruct (Z.leb_spec j n).
    + rewrite (level_split l c k Hsh j) in Hc, Hd by lia.
      assert (Hd' : NoDup (new :: header l :: lo l k (c j) ++ hi l k (c j))).
      { apply list.NoDup_cons. split; [|done]. intros Hin. rewrite <- (level_split l c k Hsh j) in Hin by lia. by apply Hsub in Hin as [_ ?]. }
      eapply chain_ext; [| |exact (chain_insert _ _ _ _ new Hd' Hc)].
      * intros b Hb'. fold (spot l c k j).
        assert (Hbin : b = new \/ b ∈ header l :: c j).
        { rewrite (level_split l c k Hsh j) by lia. clear -Hb'. set_solver. }
        assert (b ∈ new :: header l :: c 0) by (apply elem_of_cons; destruct Hbin as [->|[? _]%Hsub]; [by left|by right]).
        rewrite Hfw by done.
        rewrite decide_True by lia. unfold link_in.
        pose proof (spot_new j Hj).
        destruct (decide (b = new)); [by rewrite decide_False|]. case_decide; done.
      * revert Hd'. rewrite <- !Permutation_middle. apply NoDup_Permutation_proper, perm_swap.
    + eapply chain_ext; [|exact Hd|exact Hc]. intros b Hb'. destruct (Hsub b Hb') as [Hb0 Hbn].
      rewrite Hfw by (done || set_solver). rewrite decide_False by lia. by rewrite decide_False.
  - apply inserted_nest.
  - intros j Hj. unfold inserted. rewrite (proj2 (Z.leb_gt _ _)) by lia. apply (sh_top l c Hsh). lia.
  - lia.
  - rewrite Hold by set_solver. apply Hsh.
  - intros a [Ha|[-> _]]%inserted_elem; [|by rewrite Hnew, Hkey, Hknew|lia].
    rewrite Hold, Hkold by set_solver. by apply Hsh.
  - intros a [Ha|[-> _]]%inserted_elem; [|by rewrite Hnew, Hlevel|lia]. rewrite Hold by set_solver. by apply Hsh.
  - intros j a Hj [Ha|[-> ?]]%inserted_elem; [|by rewrite Hnew, Hlevel|done].
    rewrite Hold by (apply (level_elem l c Hsh j) in Ha; [set_solver|done]). by apply Hsh.
  - intros j a [Ha|[-> _]]%inserted_elem Hj; [| |lia].
    + rewrite Hold in Hj by set_solver. pose proof (sh_range l c Hsh a Ha).
      rewrite Hfw by (set_solver || lia). assert (a <> new) by set_solver.
      assert (Hz : fw l j a = 0) by (apply (sh_zero l c Hsh); done || lia).
      unfold link_in. rewrite !(decide_False (P := a = new)) by done. case_decide; [|done].
      rewrite decide_False; [done|]. intros ->.
      pose proof (last_elem (header l) (lo l k (c j))) as Hl. fold (spot l c k j) in Hl.
      apply elem_of_cons in Hl as [Hl|[_ Hl]%list_elem_of_filter].
      * pose proof (level_nodup l c Hsh 0 ltac:(lia)) as [Hd _]%list.NoDup_cons. rewrite Hl in Ha. done.
      * apply (sh_level l c Hsh j) in Hl; lia.
    + rewrite Hnew, Hlevel in Hj. rewrite Hfw by (set_solver || lia). rewrite decide_False by lia. by rewrite decide_True.
  - unfold inserted. rewrite (proj2 (Z.leb_le _ _)) by lia. pose proof (sh_sorted l c Hsh) as Hs.
    assert (Hs2 : StronglySorted (fun a b => key_lt (keyof l2 a) (keyof l2 b)) (lo l k (c 0) ++ hi l k (c 0))).
    { rewrite <- (level_split l c k Hsh 0) by lia. by eapply sorted_keyof. }
    apply StronglySorted_app in Hs2 as (Hlh & Hs_lo & Hs_hi).
    apply StronglySorted_app_2; [|done|constructor; [done|]].
    + intros x y Hx [->|Hy]%elem_of_cons; [|by apply Hlh]. apply list_elem_of_filter in Hx as [Hlt Hx].
      by rewrite Hknew, Hkold.
    + apply list.Forall_forall. intros y [Hge Hy]%list_elem_of_filter. rewrite Hknew, Hkold by done.
      destruct (key_trichotomy (keyof l y) k) as [?|[?|?]]; [done|by apply Hnk in Hy|done].
Qed.
End Insert.

(** ** Taking a node out *)

Lemma last_split (d : Z) ns : exists p, d :: ns = p ++ [List.last ns d].
Proof.
  revert d. induction ns as [|x ns IH]; intros d; [by exists []|]. destruct (IH x) as [p Hp].
  exists (d :: p). rewrite last_cons_default. cbn. by rewrite Hp.
Qed.

(** The last reference to a node outside the lists is dropped. *)
Lemma sl_deref_last l c a n :
  shape l c -> nodes l !! a = Some n -> refcount n = 1 -> a ∉ header l :: c 0 -> 0 <= list_level l ->
  (0 <= level n -> is_Some (arrays l !! forward n) /\ forall b, b ∈ header l :: c 0 -> forward (nd l b) <> forward n) ->
  exists l' calls, skiplist_node_deref l a = Some (l', calls) /\ shape l' c /\ header l' = header l /\
    length_ l' = length_ l /\ list_level l' = list_level l /\ (forall b, b ∈ header l :: c 0 -> nd l' b = nd l b).
Proof.
  intros Hsh Hn Href Hout Hlev Harr. unfold skiplist_node_deref. rewrite Hn. cbn [mbind option_bind].
  rewrite Href. change (u32 (1 - 1)) with 0. cbn [refcount with_refcount Z.eqb].
  unfold skiplist_node_destroy, skiplist_notify. set (n0 := with_refcount n 0).
  change (nodes (set_node l a n0)) with (<[a := n0]> (nodes l)). change (header (set_node l a n0)) with (header l).
  rewrite lookup_insert_eq. cbn [mbind option_bind].
  destruct (ow_node _ _ (sh_owns l c Hsh) (header l)) as [_ Hh]; [set_solver|].
  rewrite lookup_insert_ne, Hh by set_solver. cbn [mbind option_bind].
  change (list_level (set_node l a n0)) with (list_level l). change (level n0) with (level n).
  change (forward n0) with (forward n). unfold SKIPLIST_LEVEL_MIN. rewrite (proj2 (Z.ltb_ge (list_level l) 0)) by lia.
  rewrite (orb_false_r (0 <=? level n)).
  assert (Hstep : exists l1, (if 0 <=? level n then free_array (set_node l a n0) (forward n) else Some (set_node l a n0)) = Some l1 /\
     nodes l1 = <[a := n0]> (nodes l) /\ header l1 = header l /\ length_ l1 = length_ l /\ list_level l1 = list_level l /\
     (forall b, b ∈ header l :: c 0 -> arrays l1 !! forward (nd l b) = arrays l !! forward (nd l b))).
  { destruct (Z.leb_spec 0 (level n)) as [Hle|_]; [|by eexists]. destruct (Harr Hle) as [[f Hf] Hne]. unfold free_array.
    change (arrays (set_node l a n0)) with (arrays l). rewrite Hf. cbn [mbind option_bind]. eexists. split_and!; try done.
    intros b Hb. cbn. apply lookup_delete_ne. by apply not_eq_sym, Hne. }
  destruct Hstep as (l1 & Es & Hn1 & Hh1 & Hle1 & Hl1 & Ha1).
  rewrite Es. cbn [mbind option_bind]. eexists _, _. split; [done|].
  assert (Hnd : forall b, b ∈ header l :: c 0 -> nodes (with_nodes l1 (delete a (nodes l1))) !! b = nodes l !! b).
  { intros b Hb. cbn. rewrite lookup_delete_ne, Hn1, lookup_insert_ne by set_solver. done. }
  assert (Hnd' : forall b, b ∈ header l :: c 0 -> nd (with_nodes l1 (delete a (nodes l1))) b = nd l b).
  { intros b Hb. unfold nd. by rewrite !lookup_total_alt, Hnd. }
  split_and!; try done. eapply shape_agree; [done|done|done|]. constructor; intros b Hb; rewrite ?Hnd' by done; try done.
  - rewrite Hnd by done. by apply (ow_node _ _ (sh_owns l c Hsh)).
  - by apply Ha1.
Qed.

Section Remove.
Context (l : skiplist) (c : Z -> list Z) (k : map_key) (found : Z).

Definition removed (j : Z) : list Z := filter (fun a => a <> found) (c j).

Definition link_out (j : Z) (x : Z -> Z) (b : Z) : Z :=
  if decide (x (spot l c k j) = found /\ b = spot l c k j) then x found else x b.

Hypothesis Hsh : shape l c.
Hypothesis Hfound : found ∈ c 0.
Hypothesis Hkey : keyof l found = k.

Lemma spot_next j : 0 <= j <= 8 ->
  (exists p, header l :: c j = p ++ spot l c k j :: hi l k (c j)) /\ fw l j (spot l c k j) = hd 0 (hi l k (c j)).
Proof.
  intros Hj. assert (E : exists p, header l :: c j = p ++ spot l c k j :: hi l k (c j)).
  { destruct (last_split (header l) (lo l k (c j))) as [p Hp]. exists p.
    rewrite (level_split l c k Hsh j) at 1 by done. by rewrite app_comm_cons, Hp, <- app_assoc. }
  split; [done|]. destruct E as [p E]. by eapply chain_next; [apply (sh_chain l c Hsh)|].
Qed.

Lemma found_not_spot j : 0 <= j <= 8 -> spot l c k j <> found.
Proof.
  intros Hj E. pose proof (last_elem (header l) (lo l k (c j))) as Hl. fold (spot l c k j) in Hl. rewrite E in Hl.
  apply elem_of_cons in Hl as [->|[Hlt _]%list_elem_of_filter].
  - by pose proof (level_nodup l c Hsh 0 ltac:(lia)) as [? _]%list.NoDup_cons.
  - rewrite Hkey in Hlt. by apply key_lt_irrefl in Hlt.
Qed.

Lemma hi_found j : 0 <= j <= 8 -> found ∈ c j -> exists rest, hi l k (c j) = found :: rest.
Proof.
  intros Hj Hin. pose proof (level_sorted l c Hsh j Hj) as Hs. rewrite (level_split l c k Hsh j) in Hs by done.
  apply StronglySorted_app_1_r in Hs.
  assert (Hfh : found ∈ hi l k (c j)) by (apply list_elem_of_filter; split; [rewrite Hkey; apply key_lt_irrefl|done]).
  destruct (hi l k (c j)) as [|b rest] eqn:E; [set_solver|]. exists rest. f_equal.
  apply elem_of_cons in Hfh as [->|Hr]; [done|]. exfalso. apply StronglySorted_inv in Hs as [_ Hb].
  rewrite list.Forall_forall in Hb. specialize (Hb found Hr). rewrite Hkey in Hb.
  assert (Hbh : b ∈ hi l k (c j)) by (rewrite E; set_solver). apply list_elem_of_filter in Hbh as [? _]. done.
Qed.

(** A level with the node, and one without. *)
Lemma removed_with j rest : 0 <= j <= 8 -> hi l k (c j) = found :: rest -> removed j = lo l k (c j) ++ rest.
Proof.
  intros Hj E. pose proof (level_nodup l c Hsh j Hj) as [_ Hd]%list.NoDup_cons.
  rewrite (level_split l c k Hsh j), E in Hd by done. apply list.NoDup_app in Hd as (_ & Hdis & [Hr _]%list.NoDup_cons).
  unfold removed. rewrite (level_split l c k Hsh j) at 1 by done. rewrite E, list.filter_app, filter_cons.
  rewrite (decide_False (P := found <> found)) by tauto. f_equal; apply filter_all.
  - intros x Hx ->. apply (Hdis _ Hx). set_solver.
  - by intros x Hx ->.
Qed.

Lemma removed_without j : found ∉ c j -> removed j = c j.
Proof. intros Hn. apply filter_all. by intros x Hx ->. Qed.

Lemma removed_elem j a : a ∈ removed j <-> a ∈ c j /\ a <> found.
Proof. unfold removed. rewrite list_elem_of_filter. tauto. Qed.

Lemma removed_nodup : NoDup (header l :: removed 0).
Proof.
  pose proof (level_nodup l c Hsh 0 ltac:(lia)) as [Hh Hd]%list.NoDup_cons.
  apply list.NoDup_cons. rewrite removed_elem. split; [tauto|]. by apply list.NoDup_filter.
Qed.

Lemma removed_chain j : 0 <= j <= 8 -> chain (link_out j (fw l j)) (header l) (removed j).
Proof.
  intros Hj. destruct (spot_next j Hj) as [[p E] Hnext]. pose proof (sh_chain l c Hsh j Hj) as Hc.
  pose proof (level_nodup l c Hsh j Hj) as Hd. destruct (decide (found ∈ c j)) as [Hin|Hout].
  - destruct (hi_found j Hj Hin) as [rest Er]. rewrite (removed_with j rest) by done.
    rewrite (level_split l c k Hsh j), Er in Hc, Hd by done.
    eapply chain_ext; [| |exact (chain_remove _ _ _ _ _ Hd Hc)].
    + intros b _. unfold link_out. fold (spot l c k j). rewrite Hnext, Er. cbn [hd].
      destruct (decide (b = spot l c k j)); [by rewrite decide_True|by rewrite decide_False by tauto].
    + eapply sublist_NoDup; [exact Hd|]. constructor. apply sublist_app; [done|]. by constructor.
  - rewrite removed_without by done. eapply chain_ext; [|exact Hd|exact Hc]. intros b _. unfold link_out.
    rewrite decide_False; [done|]. rewrite Hnext. intros [Ef _].
    destruct (ow_node _ _ (sh_owns l c Hsh) found) as [H0 _]; [set_solver|].
    destruct (hi l k (c j)) as [|b' rest] eqn:Eh; [cbn in Ef; congruence|]. cbn in Ef. subst b'.
    apply Hout. rewrite (level_split l c k Hsh j), Eh by done. set_solver.
Qed.

Lemma link_out_step j l1 update :
  owns l1 (header l :: c 0) -> 0 <= j <= 8 -> zget update j = spot l c k j ->
  exists l2, splice_out update found j l1 = Some l2 /\ level_step (header l :: c 0) j (link_out j) l1 l2.
Proof.
  intros Ho Hj Hu. unfold splice_out. rewrite Hu. pose proof (spot_elem l c k Hsh j Hj) as Hsp.
  set (u := spot l c k j) in *. rewrite (fwd_owns l1 (header l :: c 0) u j Ho Hsp Hj). cbn [mbind option_bind].
  destruct (Z.eqb_spec (fw l1 j u) found) as [Ef|Ef].
  - rewrite (fwd_owns l1 (header l :: c 0) found) by (done || by apply elem_of_cons; right). cbn [mbind option_bind].
    destruct (set_fwd_owns l1 (header l :: c 0) u j (fw l1 j found) Ho) as (l2 & -> & [Hs2 Ho2 Hh2 Hx2]); [done|done|].
    exists l2. split; [done|]. constructor; [done|done| |done]. intros a Ha. rewrite Hh2 by done. unfold link_out. fold u.
    destruct (decide (a = u)); [by rewrite decide_True|by rewrite decide_False by tauto].
  - exists l1. split; [done|]. constructor; [apply same_nodes_refl|done| |done].
    intros a Ha. unfold link_out. fold u. by rewrite decide_False by tauto.
Qed.

Lemma splice_out_loop update :
  (forall j, 0 <= j <= list_level l -> zget update j = spot l c k j) ->
  exists l2, for_levels (splice_out update found) (levels SKIPLIST_LEVEL_MIN (list_level l)) l = Some l2 /\
    same_nodes l l2 /\ owns l2 (header l :: c 0) /\
    (forall a j, a ∈ header l :: c 0 -> 0 <= j <= 8 -> fw l2 j a = link_out j (fw l j) a).
Proof.
  intros Hu. pose proof (sh_bound l c Hsh) as Hb.
  destruct (for_levels_steps (header l :: c 0) link_out (splice_out update found)) with
    (js := levels SKIPLIST_LEVEL_MIN (list_level l)) (l := l) as (l2 & E & Hs & Ho2 & Hfw).
  - intros j x y Hj Hxy a Ha. unfold link_out. pose proof (spot_elem l c k Hsh j Hj).
    rewrite (Hxy (spot l c k j)) by done. case_decide; apply Hxy; [set_solver|done].
  - apply Hsh.
  - apply NoDup_levels.
  - intros j. rewrite elem_of_levels. unfold SKIPLIST_LEVEL_MIN. lia.
  - intros j l' Hj%elem_of_levels Ho' _ _. unfold SKIPLIST_LEVEL_MIN in Hj. apply link_out_step; [done|lia|]. apply Hu. lia.
  - exists l2. split_and!; try done. intros a j Ha Hj. rewrite Hfw by done. case_decide as Hin; [done|].
    rewrite elem_of_levels in Hin. unfold SKIPLIST_LEVEL_MIN in Hin.
    destruct (spot_next j Hj) as [_ Hnext]. rewrite (sh_top l c Hsh j) in Hnext by lia. unfold link_out.
    rewrite decide_False; [done|]. rewrite Hnext. cbn. intros [E0 _].
    destruct (ow_node _ _ (sh_owns l c Hsh) found) as [H0 _]; [set_solver|]. congruence.
Qed.

(** ** The shape without the node *)

(** The lists cut above level [m]. *)
Definition kept (m j : Z) : list Z := if j <=? m then removed j else [].

Lemma kept_sub m j a : 0 <= j <= 8 -> a ∈ kept m j -> a ∈ c j /\ a <> found /\ a ∈ removed 0.
Proof.
  intros Hj Ha. unfold kept in Ha. destruct (j <=? m); [|set_solver]. apply removed_elem in Ha as [Ha Hne].
  split_and!; [done|done|]. apply removed_elem. split; [|done]. by apply (level_elem l c Hsh j).
Qed.

Lemma spot_level j : 0 <= j <= 8 -> spot l c k j ∈ c 0 -> j <= level (nd l (spot l c k j)).
Proof.
  intros Hj Hin. pose proof (last_elem (header l) (lo l k (c j))) as Hl. fold (spot l c k j) in Hl.
  apply elem_of_cons in Hl as [Hl|[_ Hl]%list_elem_of_filter]; [|by apply (sh_level l c Hsh)].
  pose proof (level_nodup l c Hsh 0 ltac:(lia)) as [Hd _]%list.NoDup_cons. by rewrite Hl in Hin.
Qed.

Lemma kept_shape l2 m :
  0 <= m -> header l2 = header l -> list_level l2 = list_level l -> owns l2 (header l :: removed 0) ->
  (forall a, a ∈ header l :: removed 0 -> key (nd l2 a) = key (nd l a)) ->
  (forall a, a ∈ header l :: removed 0 -> level (nd l2 a) = level (nd l a)) ->
  (forall a j, a ∈ header l :: removed 0 -> 0 <= j <= 8 ->
     fw l2 j a = if decide (a = header l /\ m < j) then 0 else link_out j (fw l j) a) ->
  shape l2 (kept m).
Proof.
  intros Hm Hh Hlv Ho Hnk Hnl Hfw.
  assert (E0 : kept m 0 = removed 0) by (unfold kept; by rewrite (proj2 (Z.leb_le 0 m))).
  assert (Hin0 : forall a, a ∈ removed 0 -> a ∈ c 0) by (intros a [? _]%removed_elem; done).
  assert (Hk2 : forall a, a ∈ removed 0 -> keyof l2 a = keyof l a).
  { intros a Ha. unfold keyof. by rewrite Hnk by set_solver. }
  constructor; rewrite ?Hh, ?Hlv, ?E0; try done.
  - intros j Hj. unfold kept. destruct (Z.leb_spec j m).
    + eapply chain_ext; [|eapply sublist_NoDup; [apply removed_nodup|]|by apply removed_chain].
      * intros b Hb. rewrite Hfw; [by rewrite decide_False by lia| |done].
        apply elem_of_cons in Hb as [->|Hb]; [set_solver|]. apply elem_of_cons. right.
        apply removed_elem in Hb as [Hb ?]. apply removed_elem. split; [by apply (level_elem l c Hsh j)|done].
      * constructor. apply filter_sublist_mono. by apply (level_sublist l c Hsh).
    + apply chain_nil. rewrite Hfw by (set_solver || done). by rewrite decide_True.
  - intros j Hj. unfold kept. destruct (Z.leb_spec (j + 1) m), (Z.leb_spec j m); try lia.
    + apply filter_sublist_mono. by apply Hsh.
    + apply sublist_nil_l.
    + done.
  - intros j Hj. unfold kept. destruct (j <=? m); [|done]. unfold removed. by rewrite (sh_top l c Hsh).
  - apply Hsh.
  - rewrite Hnk by set_solver. apply Hsh.
  - intros a Ha. rewrite Hnk, Hk2 by set_solver. by apply Hsh, Hin0.
  - intros a Ha. rewrite Hnl by set_solver. by apply (sh_range l c Hsh), Hin0.
  - intros j a Hj (Ha & _ & Ha0)%kept_sub; [|done]. rewrite Hnl by set_solver. by apply (sh_level l c Hsh).
  - intros j a Ha Hj. rewrite Hnl in Hj by set_solver. pose proof (sh_range l c Hsh a (Hin0 a Ha)).
    rewrite Hfw by (set_solver || lia). case_decide; [done|]. unfold link_out. rewrite decide_False.
    + apply (sh_zero l c Hsh); [by apply Hin0|lia].
    + intros [_ ->]. pose proof (spot_level j ltac:(lia) (Hin0 _ Ha)). lia.
  - eapply sorted_keyof; [exact Hk2|]. eapply sublist_StronglySorted; [apply sublist_filter|apply Hsh].
Qed.

(** ** The array of a first item becomes the header's *)

Definition spliced (l2 : skiplist) : Prop :=
  same_nodes l l2 /\ owns l2 (header l :: c 0) /\
  (forall a j, a ∈ header l :: c 0 -> 0 <= j <= 8 -> fw l2 j a = link_out j (fw l j) a).

Lemma header_not_found : header l <> found.
Proof. intros E. pose proof (level_nodup l c Hsh 0 ltac:(lia)) as [Hd _]%list.NoDup_cons. by rewrite E in Hd. Qed.

Lemma removed_in a : a ∈ header l :: removed 0 -> a ∈ header l :: c 0 /\ a <> found.
Proof.
  intros [->|[Ha Hne]%removed_elem]%elem_of_cons; [|set_solver]. split; [set_solver|apply header_not_found].
Qed.

Definition copied (j : Z) (x : Z -> Z) (b : Z) : Z := if decide (b = found) then x (header l) else x b.

Lemma copy_loop l2 m :
  owns l2 (header l :: c 0) -> 0 <= m <= 8 ->
  exists l3, for_levels (fun lev s => x ← fwd s (header l) lev; set_fwd s found lev x) (levels SKIPLIST_LEVEL_MIN m) l2 = Some l3 /\
    same_nodes l2 l3 /\ owns l3 (header l :: c 0) /\
    (forall a j, a ∈ header l :: c 0 -> 0 <= j <= 8 ->
       fw l3 j a = if decide (0 <= j <= m) then copied j (fw l2 j) a else fw l2 j a).
Proof.
  intros Ho Hm.
  destruct (for_levels_steps (header l :: c 0) copied (fun lev s => x ← fwd s (header l) lev; set_fwd s found lev x)) with
    (js := levels SKIPLIST_LEVEL_MIN m) (l := l2) as (l3 & E & Hs & Ho3 & Hfw).
  - intros j x y Hj Hxy a Ha. unfold copied. case_decide; apply Hxy; [set_solver|done].
  - done.
  - apply NoDup_levels.
  - intros j. rewrite elem_of_levels. unfold SKIPLIST_LEVEL_MIN. lia.
  - intros j l1 Hj%elem_of_levels Ho1 _ _. unfold SKIPLIST_LEVEL_MIN in Hj. 
    rewrite (fwd_owns l1 (header l :: c 0)) by (done || lia || set_solver). cbn [mbind option_bind].
    destruct (set_fwd_owns l1 (header l :: c 0) found j (fw l1 j (header l)) Ho1) as (l1' & E1 & [Hs1 Ho1' Hh1 Hx1]);
      [set_solver|lia|].
    exists l1'. split; [exact E1|]. by constructor.
  - exists l3. split_and!; try done. intros a j Ha Hj. rewrite Hfw by done.
    destruct (decide (0 <= j <= m)); [rewrite decide_True|rewrite decide_False]; try done;
      rewrite elem_of_levels; unfold SKIPLIST_LEVEL_MIN; lia.
Qed.

(** What stays of a node when its array may change. *)
Definition core (n : skiplist_node) : skiplist_node := with_forward n 0.

Lemma taken_shape l2 l3 l4 :
  spliced l2 -> owns l3 (header l :: c 0) -> (forall a, nd l3 a = nd l a) ->
  (forall a j, a ∈ header l :: c 0 -> 0 <= j <= 8 ->
     fw l3 j a = if decide (0 <= j <= level (nd l found)) then copied j (fw l2 j) a else fw l2 j a) ->
  header l4 = header l -> list_level l4 = list_level l ->
  nodes l4 = <[header l := with_forward (nd l (header l)) (forward (nd l found))]>
               (<[found := with_level (nd l found) (-1)]> (nodes l)) ->
  arrays l4 = delete (forward (nd l (header l))) (arrays l3) ->
  shape l4 (kept (level (nd l found))).
Proof.
  intros (_ & _ & Hfw2) Ho3 Hnd3 Hfw3 Hh Hl Hn4 Ha4. pose proof header_not_found as Hne.
  pose proof (sh_range l c Hsh found Hfound) as Hm.
  assert (Hother : forall a, a ∈ header l :: removed 0 -> a <> header l -> nd l4 a = nd l a).
  { intros a [Ha Hna]%removed_in Hah. unfold nd. rewrite Hn4. by rewrite !lookup_total_insert_ne by done. }
  assert (Hhead : nd l4 (header l) = with_forward (nd l (header l)) (forward (nd l found))).
  { unfold nd at 1. rewrite Hn4. apply lookup_total_insert_eq. }
  (** the node of [l] whose array a node of [l4] has *)
  set (src a := if decide (a = header l) then found else a).
  assert (Hsrc : forall a, a ∈ header l :: removed 0 -> forward (nd l4 a) = forward (nd l3 (src a)) /\
     src a ∈ header l :: c 0 /\ src a <> header l).
  { intros a Ha. unfold src. rewrite Hnd3. case_decide as E; [subst; rewrite Hhead; split_and!; [done|set_solver|done]|].
    rewrite Hother by done. by destruct (removed_in a Ha). }
  assert (Harr : forall a, a ∈ header l :: removed 0 -> arrays l4 !! forward (nd l4 a) = arrays l3 !! forward (nd l3 (src a))).
  { intros a (-> & Hin & Hnh)%Hsrc. rewrite Ha4. apply lookup_delete_ne. rewrite <- Hnd3. intros E.
    by apply Hnh, (ow_own _ _ Ho3); [done|set_solver|]. }
  assert (Hfw4 : forall a j, a ∈ header l :: removed 0 -> fw l4 j a = fw l3 j (src a)).
  { intros a j Ha. unfold fw. by rewrite !lookup_total_alt, Harr. }
  apply kept_shape; [lia|done|done|constructor|..].
  - apply removed_nodup.
  - intros a Ha. pose proof (removed_in a Ha) as [Ha' Hna]. destruct (ow_node _ _ Ho3 a Ha') as [H0 _]. split; [done|].
    apply lookup_lookup_total. rewrite Hn4. destruct (ow_node _ _ (sh_owns l c Hsh) a Ha') as [_ Hl1].
    destruct (decide (a = header l)) as [->|]; [by rewrite lookup_insert_eq|]. rewrite !lookup_insert_ne by done. by eexists.
  - intros a Ha. rewrite Harr by done. apply (ow_array _ _ Ho3). by apply Hsrc.
  - intros a b Ha Hb. rewrite (proj1 (Hsrc a Ha)), (proj1 (Hsrc b Hb)). intros E.
    apply (ow_own _ _ Ho3) in E; [|by apply Hsrc|by apply Hsrc]. pose proof (proj2 (removed_in a Ha)).
    pose proof (proj2 (removed_in b Hb)). unfold src in E. by repeat case_decide; subst.
  - intros a Ha. destruct (decide (a = header l)) as [->|]; [by rewrite Hhead|by rewrite Hother].
  - intros a Ha. destruct (decide (a = header l)) as [->|]; [by rewrite Hhead|by rewrite Hother].
  - intros a j Ha Hj. rewrite Hfw4 by done. destruct (Hsrc a Ha) as (_ & Hin & Hnh). rewrite Hfw3 by done.
    unfold copied, src. destruct (decide (a = header l)) as [->|Hah].
    + rewrite (decide_True (P := found = found)) by done. destruct (decide (0 <= j <= level (nd l found))) as [Hle|Hgt].
      * rewrite decide_False by lia. apply Hfw2; [set_solver|done].
      * rewrite decide_True by lia. rewrite Hfw2 by (set_solver || done). unfold link_out.
        rewrite decide_False by (intros [_ E]; by apply (found_not_spot j Hj)).
        apply (sh_zero l c Hsh); [done|lia].
    + pose proof (removed_in a Ha) as [Ha' Hna]. rewrite !(decide_False (P := a = found)) by done.
      rewrite (decide_False (P := a = header l /\ _)) by tauto. rewrite Hfw2 by done. by case_decide.
Qed.

Lemma take_over_ok l2 :
  spliced l2 -> exists l4, take_over found (header l) l2 = Some l4 /\
    shape l4 (kept (level (nd l found))) /\
    header l4 = header l /\ length_ l4 = length_ l /\ list_level l4 = list_level l /\
    nodes l4 !! found = Some (with_level (nd l found) (-1)) /\
    (forall a, a ∈ header l :: removed 0 -> core (nd l4 a) = core (nd l a)) /\
    forward (nd l4 (header l)) = forward (nd l found) /\ randoms l4 = randoms l.
Proof.
  intros Hsp. pose proof Hsp as ([Hnodes Hhd Hlv Hlen Hrnd] & Ho2 & Hfw2).
  pose proof (sh_range l c Hsh found Hfound) as Hm. set (m := level (nd l found)) in *.
  assert (Hnd : forall a, nd l2 a = nd l a) by (intros a; unfold nd; by rewrite Hnodes).
  destruct (ow_node _ _ Ho2 found) as [_ Hf2]; [set_solver|]. pose proof header_not_found as Hne.
  unfold take_over. rewrite Hf2. cbn [mbind option_bind]. rewrite Hnd. fold m.
  destruct (copy_loop l2 m Ho2 Hm) as (l3 & E3 & Hs3 & Ho3 & Hfw3). rewrite E3.
  cbn [mbind option_bind]. destruct Hs3 as [Hn3 Hh3 Hl3 Hle3 Hr3].
  assert (Hnd3 : forall a, nd l3 a = nd l a) by (intros a; unfold nd; by rewrite Hn3, Hnodes).
  destruct (ow_node _ _ Ho3 (header l)) as [_ Hhn]; [set_solver|].
  change (nodes (set_node l3 found ?n)) with (<[found := n]> (nodes l3)). rewrite lookup_insert_ne, Hhn by done. cbn [mbind option_bind].
  destruct (ow_array _ _ Ho3 (header l)) as (fa & Hfa & _); [set_solver|].
  unfold free_array, set_node. cbn [arrays with_nodes]. rewrite Hfa. cbn [mbind option_bind].
  eexists. split; [reflexivity|]. set (l4 := with_nodes _ _).
  assert (Hn4 : nodes l4 = <[header l := with_forward (nd l (header l)) (forward (nd l found))]>
                             (<[found := with_level (nd l found) (-1)]> (nodes l))) by (cbn; by rewrite Hnd3, Hn3, Hnodes).
  assert (Ha4 : arrays l4 = delete (forward (nd l (header l))) (arrays l3)) by (cbn; by rewrite Hnd3).
  split_and!; try (cbn; congruence).
  - apply (taken_shape l2 l3 l4); done || (cbn; congruence).
  - rewrite Hn4, lookup_insert_ne by done. apply lookup_insert_eq.
  - intros a [Ha Hna]%removed_in. unfold nd at 1. rewrite Hn4. destruct (decide (a = header l)) as [->|].
    + by rewrite lookup_total_insert_eq.
    + by rewrite !lookup_total_insert_ne by done.
  - unfold nd at 1. by rewrite Hn4, lookup_total_insert_eq.
Qed.

(** The node leaves the list and its only reference is dropped. *)
Lemma unlink_ok l2 :
  spliced l2 -> refcount (nd l found) = 1 ->
  exists l' calls m,
    (cn ← nodes l2 !! spot l c k 0;
     l ← (if (1 <? refcount (nd l found)) || bool_decide (key cn = None) then take_over found (spot l c k 0) l2 else Some l2);
     skiplist_node_deref l found) = Some (l', calls) /\
    shape l' (kept m) /\ 0 <= m /\ (spot l c k 0 = header l -> m = level (nd l found)) /\
    header l' = header l /\ length_ l' = length_ l /\
    (forall a, a ∈ header l :: removed 0 -> core (nd l' a) = core (nd l a)).
Proof.
  intros Hsp Href. pose proof Hsp as ([Hnodes Hhd Hlv Hlen Hrnd] & Ho2 & Hfw2).
  assert (Hnd : forall a, nd l2 a = nd l a) by (intros a; unfold nd; by rewrite Hnodes).
  pose proof (spot_elem l c k Hsh 0 ltac:(lia)) as Hcur.
  destruct (ow_node _ _ Ho2 _ Hcur) as [_ ->]. cbn [mbind option_bind]. rewrite Href. change (1 <? 1) with false. cbn [orb].
  assert (Hnf : forall m, found ∉ header l :: kept m 0).
  { intros m [?|(_ & ? & _)%kept_sub]%elem_of_cons; [by apply header_not_found|done|lia]. }
  assert (Hlev : 0 <= list_level l).
  { destruct (Z_lt_ge_dec (list_level l) 0) as [Hneg|]; [|lia]. rewrite (sh_top l c Hsh 0) in Hfound by lia. set_solver. }
  assert (Hk0 : forall m, 0 <= m -> kept m 0 = removed 0) by (intros m Hm; unfold kept; by rewrite (proj2 (Z.leb_le 0 m))).
  destruct (decide (spot l c k 0 = header l)) as [Eh|Eh].
  - pose proof (sh_range l c Hsh found Hfound) as Hm.
    rewrite Eh, Hnd, (sh_hdr l c Hsh), bool_decide_true by done.
    destruct (take_over_ok l2 Hsp) as (l4 & -> & Hsh4 & Hh4 & Hlen4 & Hl4 & Hf4 & Hcore & _). cbn [mbind option_bind].
    destruct (sl_deref_last l4 _ found _ Hsh4 Hf4) as (l' & calls & -> & Hsh' & Hh' & Hlen' & _ & Hnd'); [done| |lia|cbn; lia|].
    + rewrite Hh4. apply Hnf.
    + eexists _, _, _. split; [done|]. split_and!; [exact Hsh'|lia|done|congruence|congruence|].
      intros a Ha. rewrite Hnd'; [by apply Hcore|]. by rewrite Hh4, Hk0 by lia.
  - assert (Hin : spot l c k 0 ∈ c 0) by set_solver.
    rewrite Hnd, (sh_key l c Hsh _ Hin), bool_decide_false by done. cbn [mbind option_bind].
    assert (Hsh2 : shape l2 (kept 8)).
    { apply kept_shape; [lia|done|done| | | |].
      - eapply owns_sub; [exact Ho2|apply removed_nodup|]. intros a Ha. by apply removed_in.
      - intros a _. by rewrite Hnd.
      - intros a _. by rewrite Hnd.
      - intros a j Ha Hj. rewrite decide_False by lia. apply Hfw2; [by apply removed_in|done]. }
    destruct (ow_node _ _ Ho2 found) as [_ Hf2]; [set_solver|].
    destruct (sl_deref_last l2 _ found _ Hsh2 Hf2) as (l' & calls & -> & Hsh' & Hh' & Hlen' & _ & Hnd').
    + by rewrite Hnd.
    + rewrite Hhd. apply Hnf.
    + lia.
    + intros _. split; [destruct (ow_array _ _ Ho2 found) as (f & -> & _); [set_solver|done]|].
      intros b Hb E. rewrite Hhd, Hk0 in Hb by lia. apply removed_in in Hb as [Hb Hbf].
      apply (ow_own _ _ Ho2) in E; [done|done|set_solver].
    + eexists _, _, _. split; [done|]. split_and!; [exact Hsh'|lia|done|congruence|congruence|].
      intros a Ha. rewrite Hnd', Hnd; [done|]. by rewrite Hhd, Hk0 by lia.
Qed.
End Remove.

Lemma shape_lower l c : shape l c -> c (list_level l) = [] -> 0 <= list_level l ->
  shape (with_list_level l (list_level l - 1)) c.
Proof.
  intros [Ho Hc Hn Ht Hb Hk0 Hk Hr Hlv Hz Hs] E Hp.
  constructor; [by destruct Ho|exact Hc|exact Hn| | |exact Hk0|exact Hk|exact Hr|exact Hlv|exact Hz|exact Hs].
  - intros j. cbn [list_level with_list_level]. intros Hj. destruct (decide (j = list_level l)) as [->|]; [done|].
    apply Ht. lia.
  - cbn [list_level with_list_level]. lia.
Qed.

(** The unused levels at the top go. *)
Lemma trim_levels_ok c fuel : forall l,
  shape l c -> list_level l + 1 < Z.of_nat fuel ->
  exists n, trim_levels fuel l (list_level l) = Some (with_list_level l n) /\ shape (with_list_level l n) c /\
    (forall m, -1 <= m -> (forall j, m < j <= 8 -> c j = []) -> n <= m).
Proof.
  induction fuel as [|fuel IH]; intros l Hsh Hf; [pose proof (sh_bound l c Hsh); lia|]. cbn [trim_levels].
  pose proof (sh_bound l c Hsh) as Hb. unfold SKIPLIST_LEVEL_MIN. destruct (Z.ltb_spec (list_level l) 0) as [Hneg|Hpos].
  { exists (list_level l). replace (with_list_level l (list_level l)) with l by by destruct l. split_and!; [done|done|lia]. }
  pose proof (sh_chain l c Hsh (list_level l) ltac:(lia)) as Hc.
  rewrite (fwd_owns l (header l :: c 0)); [|apply Hsh|set_solver|lia]. cbn [mbind option_bind].
  destruct (c (list_level l)) as [|b ns] eqn:E.
  - apply chain_nil in Hc. rewrite Hc. cbn [Z.eqb].
    assert (E8 : i8 (list_level l - 1) = list_level l - 1) by (unfold i8; rewrite Z.mod_small; lia). rewrite E8.
    destruct (IH (with_list_level l (list_level l - 1))) as (n & En & Hsn & Htop).
    + apply shape_lower; [done|done|lia].
    + cbn. lia.
    + cbn in En. exists n. split_and!; done.
  - apply chain_cons in Hc as [Hc _]. rewrite Hc. destruct (ow_node _ _ (sh_owns l c Hsh) b) as [H0 _].
    { apply elem_of_cons. right. apply (level_elem l c Hsh (list_level l)); [lia|]. rewrite E. set_solver. }
    destruct (Z.eqb_spec b 0); [done|]. exists (list_level l). replace (with_list_level l (list_level l)) with l by by destruct l.
    split_and!; [done|done|]. intros m Hm Hnil. destruct (Z_le_gt_dec (list_level l) m); [done|].
    rewrite Hnil in E by lia. done.
Qed.
