(* ===== verification/SkiplistTheorems.v ===== *)
(** * Skip list: correctness

    The skip list is a lawful map whose iterator returns the pairs in the order
    of the keys.  The laws hold as long as nothing is removed while an iterator
    is at work; what happens then is stated separately. *)
From S2P Require Import Prelude Map Skiplist SkiplistShape SkiplistSearch SkiplistOps.

(** ** Representation *)

(** [refs] gives the references to each node, the header included. *)
Record sl_wf (l : skiplist) (c : Z -> list Z) (refs : Z -> Z) : Prop := {
  sw_shape : shape l c;
  sw_refs : forall a, a ∈ header l :: c 0 -> refcount (nd l a) = refs a;
  sw_length : length_ l = zlen (c 0);
  sw_bound : zlen (c 0) < 2 ^ 64;
}.

Definition sl_one_each : Z -> Z := fun _ => 1.
Definition sl_two_at (cur : Z) : Z -> Z := fun a => if decide (a = cur) then 2 else 1.

Definition pair_at (l : skiplist) (a : Z) : map_key * Z := (keyof l a, value (nd l a)).

(** The pairs of the nodes [ns] are those of the map [s]. *)
Definition sl_holds (l : skiplist) (ns : list Z) (s : gmap map_key Z) : Prop :=
  forall k v, s !! k = Some v <-> exists a, a ∈ ns /\ pair_at l a = (k, v).

Definition sl_rep (ol : option skiplist) (s : gmap map_key Z) : Prop :=
  exists l c, ol = Some l /\ sl_wf l c sl_one_each /\ sl_holds l (c 0) s.

(** The iterator is at a node, or at the header; the nodes behind it are those
    it has not returned. *)
Definition sl_iter_rep (ol : option skiplist) (si : skiplist_iter) (s : gmap map_key Z) (rest : list (map_key * Z)) : Prop :=
  exists l c p ns, ol = Some l /\ sl_wf l c (sl_two_at (iter_n si)) /\ sl_holds l (c 0) s /\
    header l :: c 0 = p ++ iter_n si :: ns /\ rest = pair_at l <$> ns.

(** What a put may get: an address the list does not use, and random numbers
    that do not overflow the level. *)
Definition sl_fresh (ol : option skiplist) (addr : Z) : Prop :=
  match ol with
  | Some l => addr <> 0 /\ nodes l !! addr = None /\ arrays l !! addr = None /\ length_ l < 2 ^ 64 - 1 /\
              0 <= fst (skiplist_level_generate (randoms l))
  | None => False
  end.

(** ** The pairs *)

Lemma sorted_keys l c : shape l c -> StronglySorted key_lt (keyof l <$> c 0).
Proof.
  intros Hsh. pose proof (sh_sorted l c Hsh) as Hs. induction Hs as [|a ns Hs IH Ha]; [constructor|].
  rewrite fmap_cons. constructor; [done|]. rewrite list.Forall_fmap. exact Ha.
Qed.

Lemma keys_inj l c a b : shape l c -> a ∈ c 0 -> b ∈ c 0 -> keyof l a = keyof l b -> a = b.
Proof.
  intros Hsh Ha Hb E. pose proof (sh_sorted l c Hsh) as Hs. induction Hs as [|x ns Hs IH Hx]; [set_solver|].
  rewrite list.Forall_forall in Hx. apply elem_of_cons in Ha as [->|Ha], Hb as [->|Hb]; auto.
  - apply Hx in Hb. rewrite E in Hb. by apply key_lt_irrefl in Hb.
  - apply Hx in Ha. rewrite E in Ha. by apply key_lt_irrefl in Ha.
Qed.

Lemma holds_get l c s a : shape l c -> sl_holds l (c 0) s -> a ∈ c 0 -> s !! keyof l a = Some (value (nd l a)).
Proof. intros Hsh Hs Ha. apply Hs. by exists a. Qed.

Lemma holds_none l c s k : sl_holds l (c 0) s -> (forall a, a ∈ c 0 -> keyof l a <> k) -> s !! k = None.
Proof.
  intros Hs Hn. destruct (s !! k) as [v|] eqn:E; [|done]. apply Hs in E as (a & Ha & [= Hk _]). by destruct (Hn a).
Qed.

Lemma sl_holds_pairs l c s : shape l c -> sl_holds l (c 0) s -> pair_at l <$> c 0 ≡ₚ map_to_list s.
Proof.
  intros Hsh Hs. apply NoDup_Permutation.
  - apply NoDup_fmap_2_strong.
    + intros a b Ha Hb [= E _]. by eapply keys_inj.
    + by pose proof (level_nodup l c Hsh 0 ltac:(lia)) as [_ ?]%list.NoDup_cons.
  - apply NoDup_map_to_list.
  - intros [k v]. rewrite elem_of_map_to_list, (Hs k v), list_elem_of_fmap. split; intros (a & H1 & H2); exists a; split; congruence.
Qed.

Lemma holds_size l c s : shape l c -> sl_holds l (c 0) s -> zlen (c 0) = Z.of_nat (size s).
Proof. intros Hsh Hs. unfold zlen. by rewrite <- length_map_to_list, <- (sl_holds_pairs l c s), length_fmap. Qed.

Lemma holds_ext l l' ns s : (forall a, a ∈ ns -> pair_at l' a = pair_at l a) -> sl_holds l ns s -> sl_holds l' ns s.
Proof.
  intros He Hs k v. rewrite (Hs k v). split; intros (a & Ha & Hp); exists a; (split; [done|]); rewrite <- Hp, He; done.
Qed.

(** ** Looking up *)

Lemma sl_get_ok l c s k : shape l c -> sl_holds l (c 0) s -> skiplist_get l k = Some (default 0 (s !! k)).
Proof.
  intros Hsh Hs. unfold skiplist_get. destruct (lookup_ok l c Hsh k) as [(a & -> & Ha & <-)|[-> Hn]]; cbn [mbind option_bind].
  - destruct (ow_node _ _ (sh_owns l c Hsh) a) as [H0 Hn]; [set_solver|]. destruct (Z.eqb_spec a 0); [done|].
    rewrite Hn. cbn. by rewrite (holds_get l c s).
  - cbn. by rewrite (holds_none l c s).
Qed.

(** ** Changing one node *)

(** A node gets other contents with the same key, level and array. *)
Lemma wf_set_node l c refs a n :
  sl_wf l c refs -> key n = key (nd l a) -> level n = level (nd l a) -> forward n = forward (nd l a) ->
  sl_wf (set_node l a n) c (fun b => if decide (b = a) then refcount n else refs b).
Proof.
  intros [Hsh Hr Hl Hb] Hk Hlv Hf. constructor; [|intros b Hb'|done|done].
  - eapply shape_agree; [done|done|done|]. apply agree_set_node; [apply Hsh|done..].
  - rewrite nd_set_node. case_decide; [done|]. by apply Hr.
Qed.

Lemma wf_refs_ext l c refs refs' : (forall a, a ∈ header l :: c 0 -> refs' a = refs a) -> sl_wf l c refs -> sl_wf l c refs'.
Proof. intros He [Hsh Hr Hl Hb]. constructor; try done. intros a Ha. by rewrite He, Hr. Qed.

Lemma pair_set_node l a n b : key n = key (nd l a) -> value n = value (nd l a) -> pair_at (set_node l a n) b = pair_at l b.
Proof. intros Hk Hv. unfold pair_at, keyof. rewrite nd_set_node. case_decide; [|done]. subst. by rewrite Hk, Hv. Qed.

(** A reference is dropped and another one stays. *)
Lemma deref_keeps l c refs a :
  sl_wf l c refs -> a ∈ header l :: c 0 -> refs a = 2 ->
  skiplist_node_deref l a = Some (set_node l a (with_refcount (nd l a) 1), []).
Proof.
  intros [Hsh Hr _ _] Ha H2. unfold skiplist_node_deref. destruct (ow_node _ _ (sh_owns l c Hsh) a Ha) as [_ ->].
  cbn [mbind option_bind]. by rewrite Hr, H2 by done.
Qed.

(** ** Iterating *)

Lemma wf_refs_pos l c refs : sl_wf l c refs -> (forall a, refs a <> 0) -> forall a, a ∈ c 0 -> refcount (nd l a) <> 0.
Proof. intros Hwf Hp a Ha. rewrite (sw_refs _ _ _ Hwf); [apply Hp|set_solver]. Qed.

Lemma two_at_pos cur a : sl_two_at cur a <> 0.
Proof. unfold sl_two_at. by case_decide. Qed.

Lemma iter_create_ok l c s :
  sl_wf l c sl_one_each -> sl_holds l (c 0) s ->
  exists l' si, skiplist_iter_create l None = Some (l', si) /\ sl_iter_rep (Some l') si s (pair_at l <$> c 0).
Proof.
  intros Hwf Hs. unfold skiplist_iter_create. pose proof (sw_shape _ _ _ Hwf) as Hsh.
  destruct (ow_node _ _ (sh_owns l c Hsh) (header l)) as [_ ->]; [set_solver|]. cbn [mbind option_bind].
  rewrite (sw_refs _ _ _ Hwf) by set_solver. eexists _, _. split; [done|]. change (u32 (sl_one_each (header l) + 1)) with 2.
  exists (set_node l (header l) (with_refcount (nd l (header l)) 2)), c, [], (c 0). split_and!; try done.
  - eapply wf_refs_ext; [|by apply wf_set_node]. done.
  - eapply holds_ext; [|exact Hs]. intros a _. by apply pair_set_node.
  - apply list_fmap_ext. intros i a _. symmetry. by apply pair_set_node.
Qed.

Lemma iter_next_ok l c s p cur b ns :
  sl_wf l c (sl_two_at cur) -> sl_holds l (c 0) s -> header l :: c 0 = p ++ cur :: b :: ns ->
  exists l', skiplist_iter_next l {| iter_n := cur |} = Some (l', {| iter_n := b |}, Some (pair_at l b), []) /\
    sl_iter_rep (Some l') {| iter_n := b |} s (pair_at l <$> ns).
Proof.
  intros Hwf Hs E. pose proof (sw_shape _ _ _ Hwf) as Hsh. pose proof (sh_owns l c Hsh) as Ho.
  assert (Hcur : cur ∈ header l :: c 0) by (rewrite E; set_solver).
  assert (Hb : b ∈ c 0) by (destruct p; injection E as _ ->; set_solver).
  assert (Hne : b <> cur).
  { pose proof (ow_nodup _ _ Ho) as Hd. rewrite E in Hd. apply list.NoDup_app in Hd as (_ & _ & [Hd _]%list.NoDup_cons). set_solver. }
  unfold skiplist_iter_next. cbn [iter_n]. destruct (ow_node _ _ Ho cur Hcur) as [Hc0 _]. destruct (Z.eqb_spec cur 0); [done|].
  rewrite (node_next_ok l c Hsh p cur (b :: ns)); [|by apply (wf_refs_pos _ _ _ Hwf), two_at_pos|done].
  cbn [mbind option_bind hd]. destruct (ow_node _ _ Ho b) as [Hb0 Hbn]; [set_solver|]. destruct (Z.eqb_spec b 0); [done|].
  rewrite Hbn. cbn [mbind option_bind]. rewrite (sw_refs _ _ _ Hwf) by set_solver.
  unfold sl_two_at at 1. rewrite decide_False by done. change (u32 (1 + 1)) with 2.
  pose proof (wf_set_node l c _ b (with_refcount (nd l b) 2) Hwf eq_refl eq_refl eq_refl) as Hwf1.
  set (l1 := set_node l b (with_refcount (nd l b) 2)) in *.
  rewrite (deref_keeps l1 c _ cur Hwf1 Hcur); [|rewrite decide_False by done; unfold sl_two_at; by rewrite decide_True].
  cbn [mbind option_bind].
  pose proof (wf_set_node l1 c _ cur (with_refcount (nd l1 cur) 1) Hwf1 eq_refl eq_refl eq_refl) as Hwf2.
  set (l2 := set_node l1 cur _) in *.
  assert (Hp : forall a, pair_at l2 a = pair_at l a).
  { intros a. unfold l2, l1. rewrite pair_set_node by done. by apply pair_set_node. }
  destruct (ow_node _ _ (sh_owns l2 c (sw_shape _ _ _ Hwf2)) b) as [_ ->]; [set_solver|]. cbn [mbind option_bind].
  rewrite (sh_key l2 c (sw_shape _ _ _ Hwf2)) by done. cbn [mbind option_bind].
  exists l2. split; [by rewrite <- (Hp b)|]. exists l2, c, (p ++ [cur]), ns. split_and!; [done| | | |].
  - eapply wf_refs_ext; [|exact Hwf2]. intros a _. cbn. unfold sl_two_at. repeat case_decide; by subst.
  - eapply holds_ext; [|exact Hs]. intros a _. apply Hp.
  - cbn. change (header l2) with (header l). by rewrite E, <- app_assoc.
  - apply list_fmap_ext. intros i a _. by rewrite Hp.
Qed.

Lemma iter_end_ok l c s p cur :
  sl_wf l c (sl_two_at cur) -> sl_holds l (c 0) s -> header l :: c 0 = p ++ [cur] ->
  exists l', skiplist_iter_next l {| iter_n := cur |} = Some (l', {| iter_n := 0 |}, None, []) /\ sl_rep (Some l') s.
Proof.
  intros Hwf Hs E. pose proof (sw_shape _ _ _ Hwf) as Hsh. pose proof (sh_owns l c Hsh) as Ho.
  assert (Hcur : cur ∈ header l :: c 0) by (rewrite E; set_solver).
  unfold skiplist_iter_next. cbn [iter_n]. destruct (ow_node _ _ Ho cur Hcur) as [Hc0 _]. destruct (Z.eqb_spec cur 0); [done|].
  rewrite (node_next_ok l c Hsh p cur []); [|by apply (wf_refs_pos _ _ _ Hwf), two_at_pos|done].
  cbn [mbind option_bind hd Z.eqb]. rewrite (deref_keeps l c _ cur Hwf Hcur) by (unfold sl_two_at; by rewrite decide_True).
  cbn [mbind option_bind]. eexists. split; [done|]. eexists _, c. split_and!; [done| |].
  - eapply wf_refs_ext; [|by apply wf_set_node]. intros a _. cbn. unfold sl_one_each, sl_two_at. by repeat case_decide.
  - eapply holds_ext; [|exact Hs]. intros a _. by apply pair_set_node.
Qed.

(** ** Putting *)

Lemma level_generate_le r : fst (skiplist_level_generate r) <= 8.
Proof. unfold skiplist_level_generate, SKIPLIST_LEVEL_MAX. destruct (level_loop r _) as [lev r']. cbn. zcase; cbn; lia. Qed.

(** The entries of [update] above the old levels. *)
Lemma update_fold (h : Z) (js : list Z) : forall u : list Z, zlen u = 9 -> (forall j, j ∈ js -> 0 <= j <= 8) ->
  forall i, 0 <= i <= 8 ->
  zget (foldl (fun u lev => zset u lev h) u js) i = if decide (i ∈ js) then h else zget u i.
Proof.
  induction js as [|j js IH]; intros u Hu Hjs i Hi; cbn [foldl]; [by rewrite decide_False by set_solver|].
  rewrite IH by (by rewrite ?zlen_zset || set_solver || done). destruct (decide (i ∈ js)).
  - by rewrite decide_True by set_solver.
  - destruct (decide (i = j)) as [->|].
    + rewrite decide_True by set_solver. apply zget_zset_eq. specialize (Hjs j ltac:(set_solver)). lia.
    + rewrite decide_False by set_solver. apply zget_zset_ne; [lia|congruence].
Qed.

(** A new node beside the others. *)
Lemma new_owns l l1 c addr n :
  shape l c -> addr <> 0 -> nodes l !! addr = None -> arrays l !! addr = None -> forward n = addr ->
  nodes l1 = <[addr := n]> (nodes l) -> arrays l1 = <[addr := zrepeat 0 (SKIPLIST_LEVEL_MAX + 1)]> (arrays l) ->
  (addr ∉ header l :: c 0) /\ owns l1 (addr :: header l :: c 0) /\
  (forall a j, a ∈ addr :: header l :: c 0 -> 0 <= j <= 8 -> fw l1 j a = if decide (a = addr) then 0 else fw l j a).
Proof.
  intros Hsh H0 Hn Ha Hf Hn1 Ha1. pose proof (sh_owns l c Hsh) as Ho.
  assert (Hout : addr ∉ header l :: c 0) by (intros Hin; apply (ow_node _ _ Ho) in Hin as [_ E]; congruence).
  assert (Hnew : nd l1 addr = n) by (unfold nd; rewrite Hn1; apply lookup_total_insert_eq).
  assert (Hold : forall a, a ∈ header l :: c 0 -> nd l1 a = nd l a).
  { intros a Hin. unfold nd. rewrite Hn1. apply lookup_total_insert_ne. by intros ->. }
  assert (Harr : forall a, a ∈ header l :: c 0 -> arrays l1 !! forward (nd l a) = arrays l !! forward (nd l a)).
  { intros a Hin. rewrite Ha1. apply lookup_insert_ne. intros E. destruct (ow_array _ _ Ho a Hin) as (f & Hfa & _). congruence. }
  assert (Hnf : forall a, a ∈ header l :: c 0 -> forward (nd l a) <> addr).
  { intros a Hin E. destruct (ow_array _ _ Ho a Hin) as (f & Hfa & _). congruence. }
  split; [done|]. split; [constructor|].
  - apply list.NoDup_cons. split; [done|apply Ho].
  - intros a [->|Hin]%elem_of_cons; [split; [done|]; by rewrite Hnew, Hn1, lookup_insert_eq|].
    destruct (ow_node _ _ Ho a Hin) as [? ?]. split; [done|]. rewrite Hold, Hn1, lookup_insert_ne; [done|by intros ->|done].
  - intros a [->|Hin]%elem_of_cons; [rewrite Hnew, Hf, Ha1, lookup_insert_eq; by eexists|].
    rewrite Hold, Harr by done. by apply (ow_array _ _ Ho).
  - intros a b [->|Hina]%elem_of_cons [->|Hinb]%elem_of_cons; try done; rewrite ?Hnew, ?Hold, ?Hf by done.
    + intros E. by destruct (Hnf b Hinb).
    + intros E. by destruct (Hnf a Hina).
    + by apply (ow_own _ _ Ho).
  - intros a j [->|Hin]%elem_of_cons Hj; unfold fw.
    + rewrite decide_True, Hnew, Hf, Ha1, lookup_total_insert_eq by done. by rewrite zget_zrepeat by (unfold SKIPLIST_LEVEL_MAX; lia).
    + rewrite decide_False by (by intros ->). by rewrite Hold, !lookup_total_alt, Harr.
Qed.

Lemma put_replaces l c s k v a :
  sl_wf l c sl_one_each -> sl_holds l (c 0) s -> a ∈ c 0 -> keyof l a = k ->
  sl_rep (Some (set_node l a (with_pair (nd l a) k v))) (<[k := v]> s).
Proof.
  intros Hwf Hs Ha Hk. pose proof (sw_shape _ _ _ Hwf) as Hsh. eexists _, c. split_and!; [done| |].
  - eapply wf_refs_ext; [|apply wf_set_node; [exact Hwf|by rewrite (sh_key l c Hsh a Ha), Hk|done|done]].
    intros b Hb. cbn. case_decide; [|done]. subst b. rewrite (sw_refs _ _ _ Hwf) by done. done.
  - assert (Hp : forall b, pair_at (set_node l a (with_pair (nd l a) k v)) b = if decide (b = a) then (k, v) else pair_at l b).
    { intros b. unfold pair_at, keyof. rewrite nd_set_node. by case_decide. }
    intros k' v'. destruct (decide (k' = k)) as [->|Hne].
    + rewrite lookup_insert_eq. split; [intros [= ->]; exists a; split; [done|]; rewrite Hp; by rewrite decide_True|].
      intros (b & Hb & Hbp). rewrite Hp in Hbp. case_decide as E; [congruence|]. destruct E. injection Hbp as E _.
      eapply keys_inj; [done|done|done|congruence].
    + rewrite lookup_insert_ne, (Hs k' v') by done. split; intros (b & Hb & Hbp); exists b; (split; [done|]); rewrite Hp in *.
      * rewrite decide_False; [done|]. intros ->. injection Hbp as E _. congruence.
      * case_decide; [congruence|done].
Qed.

Lemma inserted_zlen l c k new n : shape l c -> 0 <= n -> zlen (inserted l c k new n 0) = zlen (c 0) + 1.
Proof.
  intros Hsh Hn. unfold inserted. rewrite (proj2 (Z.leb_le 0 n)) by done.
  pose proof (f_equal zlen (level_split l c k Hsh 0 ltac:(done))) as E. rewrite zlen_app in E |- *. rewrite zlen_cons. lia.
Qed.

(** The bookkeeping of a put around the linking. *)
Lemma put_holds l l2 c s k v new n :
  shape l c -> sl_holds l (c 0) s -> 0 <= n <= 8 -> new ∉ header l :: c 0 -> (forall a, a ∈ c 0 -> keyof l a <> k) ->
  (forall a, a ∈ header l :: c 0 -> nd l2 a = nd l a) -> key (nd l2 new) = Some k -> value (nd l2 new) = v ->
  sl_holds l2 (inserted l c k new n 0) (<[k := v]> s).
Proof.
  intros Hsh Hs Hn Hout Hnk Hold Hkey Hval k' v'.
  assert (Hpn : pair_at l2 new = (k, v)) by (unfold pair_at, keyof; by rewrite Hkey, Hval).
  assert (Hpo : forall a, a ∈ c 0 -> pair_at l2 a = pair_at l a) by (intros a Ha; unfold pair_at, keyof; by rewrite Hold by set_solver).
  assert (Hel : forall a, a ∈ inserted l c k new n 0 <-> a ∈ c 0 \/ a = new).
  { intros a. rewrite (inserted_elem l c k new n Hsh Hn Hout) by lia. split; [intros [?|[? _]]; auto|intros [?| ->]; [by left|right; split; [done|lia]]]. }
  destruct (decide (k' = k)) as [->|Hne].
  - rewrite lookup_insert_eq. split; [intros [= ->]; exists new; split; [apply Hel; by right|done]|].
    intros (a & [Ha| ->]%Hel & Hp); [|congruence]. rewrite Hpo in Hp by done. injection Hp as E _. by destruct (Hnk a).
  - rewrite lookup_insert_ne, (Hs k' v') by done. split; intros (a & Ha & Hp).
    + exists a. rewrite Hel, Hpo by done. auto.
    + apply Hel in Ha as [Ha| ->]; [|congruence]. exists a. by rewrite Hpo in Hp by done.
Qed.

(** [update] names the last node before the key at every level of the new node. *)
Lemma put_update l c k u n :
  shape l c -> zlen u = 9 -> 0 <= n <= 8 -> (forall i, 0 <= i <= list_level l -> zget u i = spot l c k i) ->
  forall i, 0 <= i <= n ->
  zget (if list_level l <? n then foldl (fun u lev => zset u lev (header l)) u (levels (list_level l + 1) n) else u) i =
    spot l c k i.
Proof.
  intros Hsh Hu Hn Hold i Hi. pose proof (sh_bound l c Hsh). zcase; [|apply Hold; lia].
  rewrite update_fold by (done || lia || intros j ?%elem_of_levels; lia). case_decide as Hin; rewrite elem_of_levels in Hin.
  - unfold spot. by rewrite (sh_top l c Hsh) by lia.
  - apply Hold. lia.
Qed.

Lemma put_inserts l c s k v addr u n r :
  sl_wf l c sl_one_each -> sl_holds l (c 0) s -> sl_fresh (Some l) addr -> skiplist_level_generate (randoms l) = (n, r) ->
  zlen u = 9 -> (forall a, a ∈ c 0 -> keyof l a <> k) -> (forall i, 0 <= i <= list_level l -> zget u i = spot l c k i) ->
  let node := {| key := Some k; value := v; level := n; refcount := 1; node_notifiers := []; forward := addr |} in
  forall l1, nodes l1 = <[addr := node]> (nodes l) -> arrays l1 = <[addr := zrepeat 0 (SKIPLIST_LEVEL_MAX + 1)]> (arrays l) ->
  header l1 = header l -> list_level l1 = Z.max (list_level l) n -> length_ l1 = length_ l ->
  exists l2, for_levels
      (drop_in (if list_level l <? n then foldl (fun u lev => zset u lev (header l)) u (levels (list_level l + 1) n) else u) addr)
      (levels SKIPLIST_LEVEL_MIN n) l1 = Some l2 /\
    sl_rep (Some (with_length l2 (u64 (length_ l2 + 1)))) (<[k := v]> s).
Proof.
  intros Hwf Hs (H0 & Hna & Haa & Hlen & Hpos) Eg Hu Hnk Hup node l1 Hn1 Ha1 Hh1 Hl1 Hlen1.
  pose proof (sw_shape _ _ _ Hwf) as Hsh. rewrite Eg in Hpos. cbn in Hpos.
  pose proof (level_generate_le (randoms l)) as Hle. rewrite Eg in Hle. cbn in Hle.
  destruct (new_owns l l1 c addr node Hsh H0 Hna Haa eq_refl Hn1 Ha1) as (Hout & Ho1 & Hfw1).
  destruct (drop_in_loop l c k addr n Hsh ltac:(lia) Hout l1 _ Ho1 (put_update l c k u n Hsh Hu ltac:(lia) Hup))
    as (l2 & E & [Hsn Hsh2 Hsl Hslen _] & Ho2 & Hfw2).
  exists l2. split; [exact E|].
  assert (Hnew : nd l2 addr = node) by (unfold nd; rewrite Hsn, Hn1; apply lookup_total_insert_eq).
  assert (Hold : forall a, a ∈ header l :: c 0 -> nd l2 a = nd l a).
  { intros a Ha. unfold nd. rewrite Hsn, Hn1. apply lookup_total_insert_ne. by intros ->. }
  assert (Hshape : shape l2 (inserted l c k addr n)).
  { apply (inserted_shape l c k addr n Hsh ltac:(lia) Hout l2 node); try done; try congruence.
    intros a j Ha Hj. rewrite Hfw2 by done. case_decide; [|by apply Hfw1]. unfold link_in.
    pose proof (spot_elem l c k Hsh j Hj). repeat (case_decide; [by rewrite ?Hfw1 by (done || set_solver)|]).
    rewrite Hfw1 by done. by rewrite decide_False. }
  pose proof (sw_length _ _ _ Hwf) as Hlc. pose proof (inserted_zlen l c k addr n Hsh ltac:(lia)) as Hzl.
  pose proof (zlen_nonneg (c 0)). exists (with_length l2 (u64 (length_ l2 + 1))), (inserted l c k addr n). split_and!; [done|constructor| ].
  - eapply shape_agree; [exact Hshape|done|done|]. constructor; intros a Ha; try done. by apply (ow_node _ _ (sh_owns _ _ Hshape)).
  - intros a Ha. change (nd (with_length l2 _) a) with (nd l2 a). change (header (with_length l2 _)) with (header l2) in Ha.
    rewrite Hsh2, Hh1 in Ha. apply elem_of_cons in Ha as [->|Ha]; [|apply (inserted_elem l c k addr n Hsh ltac:(lia) Hout) in Ha as [Ha|[-> _]]; [| |lia]].
    + rewrite Hold by set_solver. apply (sw_refs _ _ _ Hwf). set_solver.
    + rewrite Hold by set_solver. apply (sw_refs _ _ _ Hwf). set_solver.
    + by rewrite Hnew.
  - cbn. rewrite Hzl, Hslen, Hlen1, Hlc. unfold u64. apply Z.mod_small. lia.
  - lia.
  - eapply (holds_ext l2); [done|]. apply put_holds; try done; try lia; by rewrite Hnew.
Qed.

Lemma skiplist_put_ok l c s k v addr :
  sl_wf l c sl_one_each -> sl_holds l (c 0) s -> sl_fresh (Some l) addr ->
  exists l' calls, skiplist_put l k v addr = Some (l', calls) /\ sl_rep (Some l') (<[k := v]> s).
Proof.
  intros Hwf Hs Hf. pose proof (sw_shape _ _ _ Hwf) as Hsh. unfold skiplist_put.
  destruct (put_search l c Hsh k) as [(a & -> & Ha & Hk)|(u & -> & Hu & Hnk & Hup)]; cbn [mbind option_bind].
  - destruct (ow_node _ _ (sh_owns l c Hsh) a) as [_ ->]; [set_solver|]. cbn [mbind option_bind].
    pose proof (put_replaces l c s k v a Hwf Hs Ha Hk) as Hrep. set (l' := set_node l a _) in *. unfold skiplist_notify.
    assert (Hwf' : sl_wf l' c (fun b => if decide (b = a) then refcount (with_pair (nd l a) k v) else sl_one_each b)).
    { apply wf_set_node; [done|by rewrite (sh_key l c Hsh a Ha), Hk|done|done]. }
    destruct (ow_node _ _ (sh_owns l' c (sw_shape _ _ _ Hwf')) (header l')) as [_ ->]; [set_solver|]. cbn. eauto.
  - destruct (skiplist_level_generate (randoms l)) as [n r] eqn:Eg.
    pose proof Hf as (H0 & Hna & _).
    assert (Hh : nodes l !! header l = Some (nd l (header l))) by (apply (ow_node _ _ (sh_owns l c Hsh)); set_solver).
    assert (Hha : header l <> addr) by congruence.
    pose proof (put_inserts l c s k v addr u n r Hwf Hs Hf Eg Hu Hnk Hup) as Hput. cbn zeta in Hput.
    change (list_level (with_randoms l r)) with (list_level l). change (header (with_randoms l r)) with (header l).
    unfold skiplist_node_new. destruct (Z.eqb_spec addr 0); [done|]. unfold skiplist_notify, set_node.
    destruct (Z.ltb_spec (list_level l) n); cbn -[for_levels levels zrepeat insert map_insert lookup Z.add].
    all: destruct (Z.eqb_spec addr 0); [done|].
    all: rewrite lookup_insert_eq; cbn [mbind option_bind]; rewrite lookup_insert_ne, Hh by done; cbn [mbind option_bind].
    all: match goal with |- context [for_levels _ _ ?l1] =>
      destruct (Hput l1 eq_refl eq_refl eq_refl ltac:(cbn; lia) eq_refl) as (l2 & -> & Hrep) end; cbn; eauto.
Qed.

(** ** Removing *)

Lemma bind3_Some {A B C D} (a : option A) (b : A -> option B) (d : B -> option C) (e : C -> option D) r :
  (x ← a; y ← b x; d y) = Some r -> (x ← a; y ← b x; z ← d y; e z) = e r.
Proof. destruct a as [x|]; cbn; [|done]. destruct (b x) as [y|]; cbn; [|done]. intros ->. done. Qed.

Lemma removed_zlen l c found : shape l c -> found ∈ c 0 -> zlen (removed c found 0) = zlen (c 0) - 1.
Proof.
  intros Hsh Hf. assert (Hd : NoDup (c 0)) by by pose proof (level_nodup l c Hsh 0 ltac:(lia)) as [_ ?]%list.NoDup_cons.
  clear Hsh. unfold removed. apply list_elem_of_split in Hf as (p & q & E). rewrite E in *.
  apply list.NoDup_app in Hd as (_ & Hpq & [Hq _]%list.NoDup_cons). rewrite list.filter_app, filter_cons, decide_False by tauto.
  rewrite !filter_all, !zlen_app, zlen_cons; [lia| |]; intros x Hx ->; [done|]. apply (Hpq _ Hx). set_solver.
Qed.

Lemma core_eq (n n' : skiplist_node) : core n = core n' -> key n = key n' /\ value n = value n' /\ refcount n = refcount n'.
Proof. destruct n, n'. by intros [= -> -> -> -> ->]. Qed.

Lemma rm_holds l l' c s k found :
  shape l c -> sl_holds l (c 0) s -> found ∈ c 0 -> keyof l found = k ->
  (forall a, a ∈ header l :: removed c found 0 -> core (nd l' a) = core (nd l a)) ->
  sl_holds l' (removed c found 0) (delete k s).
Proof.
  intros Hsh Hs Hf Hk Hcore k' v'.
  assert (Hp : forall a, a ∈ removed c found 0 -> pair_at l' a = pair_at l a).
  { intros a Ha. destruct (core_eq _ _ (Hcore a ltac:(set_solver))) as (E1 & E2 & _). unfold pair_at, keyof. congruence. }
  assert (Hne : forall a, a ∈ c 0 -> keyof l a = k -> a = found) by (intros a Ha E; eapply keys_inj; [done|done|done|congruence]).
  destruct (decide (k' = k)) as [->|Hk'].
  - rewrite lookup_delete_eq. split; [done|]. intros (a & Ha & Hpa). rewrite Hp in Hpa by done.
    apply removed_elem in Ha as [Ha Haf]. injection Hpa as E _. by destruct Haf; apply Hne.
  - rewrite lookup_delete_ne, (Hs k' v') by done. split; intros (a & Ha & Hpa).
    + exists a. assert (Hin : a ∈ removed c found 0).
      { apply removed_elem. split; [done|]. intros ->. injection Hpa as E _. congruence. }
      split; [done|]. by rewrite Hp.
    + exists a. rewrite Hp in Hpa by done. by apply removed_elem in Ha as [Ha _].
Qed.

(** The search of a removal ends before the node with the key, if there is one. *)
Lemma rm_found l c k :
  shape l c -> (forall a, a ∈ c 0 -> refcount (nd l a) <> 0) ->
  exists b, skiplist_node_next l (spot l c k 0) = Some b /\
    ((b = 0 /\ forall a, a ∈ c 0 -> keyof l a <> k) \/
     (b ∈ c 0 /\ keyof l b <> k /\ forall a, a ∈ c 0 -> keyof l a <> k) \/
     (b ∈ c 0 /\ keyof l b = k)).
Proof.
  intros Hsh Href. destruct (spot_next l c k Hsh 0 ltac:(lia)) as [[p E] _].
  exists (hd 0 (hi l k (c 0))). split; [by eapply node_next_ok|].
  assert (Hhi : forall a, a ∈ c 0 -> keyof l a = k -> a ∈ hi l k (c 0)).
  { intros a Ha Hk. apply list_elem_of_filter. split; [|done]. rewrite Hk. apply key_lt_irrefl. }
  destruct (hi l k (c 0)) as [|b ns] eqn:Eh; cbn [hd].
  - left. split; [done|]. intros a Ha Hk. specialize (Hhi a Ha Hk). set_solver.
  - right. assert (Hb : b ∈ c 0) by (rewrite (level_split l c k Hsh 0), Eh by lia; set_solver).
    destruct (decide (keyof l b = k)) as [|Hne]; [by right|left]. split_and!; [done|done|]. intros a Ha Hk.
    destruct (hi_found l c k a Hsh Ha Hk 0 ltac:(lia) Ha) as [rest Er]. rewrite Eh in Er. injection Er as -> _. done.
Qed.

(** Nothing is before the first key. *)
Lemma spot_first l c b ns : shape l c -> c 0 = b :: ns -> spot l c (keyof l b) 0 = header l.
Proof.
  intros Hsh Eb. unfold spot. pose proof (sh_sorted l c Hsh) as Hss. rewrite Eb in Hss |- *. unfold lo.
  rewrite filter_none; [done|]. apply StronglySorted_inv in Hss as [_ Hss]. rewrite list.Forall_forall in Hss.
  intros x [->|Hx]%elem_of_cons; [apply key_lt_irrefl|]. intros Hlt.
  eapply key_lt_irrefl, key_lt_trans; [exact Hlt|by apply Hss].
Qed.

(** The state after the removal of a node, from what the steps leave. *)
Lemma rm_rep l c s b l3 m n :
  sl_wf l c sl_one_each -> sl_holds l (c 0) s -> b ∈ c 0 -> 0 <= m ->
  header l3 = header l -> length_ l3 = length_ l ->
  (forall a, a ∈ header l :: removed c b 0 -> core (nd l3 a) = core (nd l a)) ->
  shape (with_list_level l3 n) (kept c b m) ->
  sl_rep (Some (with_length (with_list_level l3 n) (u64 (length_ l3 - 1)))) (delete (keyof l b) s).
Proof.
  intros Hwf Hs Hb Hm Hh3 Hlen3 Hcore Hsh4. pose proof (sw_shape _ _ _ Hwf) as Hsh.
  assert (E0 : kept c b m 0 = removed c b 0) by (unfold kept; by rewrite (proj2 (Z.leb_le 0 m))).
  pose proof (sw_bound _ _ _ Hwf). pose proof (removed_zlen l c b Hsh Hb). pose proof (zlen_nonneg (removed c b 0)).
  eexists _, (kept c b m). split_and!; [done|constructor|].
  - eapply shape_agree; [exact Hsh4|done|done|]. constructor; intros a Ha; try done. by apply (ow_node _ _ (sh_owns _ _ Hsh4)).
  - intros a Ha. cbn in Ha. rewrite Hh3, E0 in Ha. destruct (core_eq _ _ (Hcore a Ha)) as (_ & _ & E).
    change (nd (with_length _ _) a) with (nd l3 a). rewrite E. apply (sw_refs _ _ _ Hwf).
    apply elem_of_cons in Ha as [->|[Ha _]%removed_elem]; set_solver.
  - cbn. rewrite E0, Hlen3, (sw_length _ _ _ Hwf). unfold u64. rewrite Z.mod_small; lia.
  - rewrite E0. lia.
  - rewrite E0. eapply (holds_ext l3); [done|]. by eapply rm_holds.
Qed.

Lemma skiplist_rm_ok l c s k :
  sl_wf l c sl_one_each -> sl_holds l (c 0) s ->
  exists l' r calls, skiplist_rm l k = Some (l', r, calls) /\ sl_rep (Some l') (delete k s) /\
    r = match s !! k with Some _ => QB_TRUE | None => QB_FALSE end /\
    (forall b ns, c 0 = b :: ns -> keyof l b = k -> list_level l' <= level (nd l b)).
Proof.
  intros Hwf Hs. pose proof (sw_shape _ _ _ Hwf) as Hsh. unfold skiplist_rm.
  destruct (rm_search l c Hsh k) as (u & -> & Hu). cbn [mbind option_bind].
  destruct (rm_found l c k Hsh) as (b & -> & Hb).
  { intros a Ha. rewrite (sw_refs _ _ _ Hwf) by set_solver. done. }
  cbn [mbind option_bind].
  assert (Habs : (forall a, a ∈ c 0 -> keyof l a <> k) -> exists l' r calls, Some (l, QB_FALSE, [] : list notify_call) = Some (l', r, calls) /\
    sl_rep (Some l') (delete k s) /\ r = match s !! k with Some _ => QB_TRUE | None => QB_FALSE end /\
    (forall b ns, c 0 = b :: ns -> keyof l b = k -> list_level l' <= level (nd l b))).
  { intros Hn. assert (E : s !! k = None) by by eapply holds_none. exists l, QB_FALSE, []. rewrite E, delete_id by done.
    split_and!; try done; [by exists l, c|]. intros b' ns Eb Ek. destruct (Hn b'); [rewrite Eb; set_solver|done]. }
  destruct Hb as [[-> Hn]|Hb]; [by apply Habs|].
  destruct (ow_node _ _ (sh_owns l c Hsh) b) as [H0 ->]; [destruct Hb as [[? _]|[? _]]; set_solver|].
  destruct (Z.eqb_spec b 0); [done|]. cbn [mbind option_bind].
  rewrite (sh_key l c Hsh b) by (by destruct Hb as [[? _]|[? _]]). cbn [mbind option_bind]. destruct Hb as [(Hb & Hne & Hn)|[Hb Hk]].
  - destruct (Z.eqb_spec (strcmp (keyof l b) k) 0) as [E|E]; [by apply strcmp_eq in E|]. by apply Habs.
  - rewrite (proj2 (strcmp_eq _ _) Hk). cbn [negb Z.eqb].
    destruct (splice_out_loop l c k b Hsh Hb Hk u Hu) as (l2 & -> & Hsp). cbn [mbind option_bind].
    destruct (unlink_ok l c k b Hsh Hb Hk l2 Hsp) as (l3 & calls & m & E3 & Hsh3 & Hm & Hfirst & Hh3 & Hlen3 & Hcore).
    { apply (sw_refs _ _ _ Hwf). set_solver. }
    rewrite (bind3_Some _ _ _ _ _ E3). pose proof (sh_bound _ _ Hsh3).
    destruct (trim_levels_ok _ (S (Z.to_nat SKIPLIST_LEVEL_COUNT)) l3 Hsh3) as (n' & -> & Hsh4 & Htop).
    { unfold SKIPLIST_LEVEL_COUNT, SKIPLIST_LEVEL_MAX, SKIPLIST_LEVEL_MIN. lia. }
    cbn [mbind option_bind]. eexists _, _, _. split; [done|]. split_and!.
    + rewrite <- Hk. by apply (rm_rep l c s b l3 m n').
    + by rewrite <- Hk, (holds_get l c s).
    + intros b' ns Eb Ek. assert (b' = b) as -> by (apply (keys_inj l c); [done|rewrite Eb; set_solver|done|congruence]).
      cbn. rewrite <- Hfirst; [|rewrite <- Hk; by eapply spot_first].
      apply Htop; [lia|]. intros j Hj. unfold kept. by rewrite (proj2 (Z.leb_gt j m)) by lia.
Qed.

(** ** The laws *)

#[export] Program Instance skiplist_laws : MapLaws skiplist_map := {|
  map_rep := sl_rep;
  iter_rep := sl_iter_rep;
  fresh := sl_fresh;
|}.
Next Obligation.
  intros m s k (l & c & -> & Hwf & Hs). cbn. by rewrite (sl_get_ok l c s k (sw_shape _ _ _ Hwf) Hs).
Qed.
Next Obligation.
  intros m s k v addr (l & c & -> & Hwf & Hs) Hf. cbn.
  destruct (skiplist_put_ok l c s k v addr Hwf Hs Hf) as (l' & calls & -> & Hr). done.
Qed.
Next Obligation.
  intros m s k (l & c & -> & Hwf & Hs). cbn.
  destruct (skiplist_rm_ok l c s k Hwf Hs) as (l' & r & calls & -> & Hr & -> & _). done.
Qed.
Next Obligation.
  intros m s (l & c & -> & Hwf & Hs). cbn. unfold skiplist_count_get. rewrite (sw_length _ _ _ Hwf).
  apply (holds_size l c s); [apply Hwf|done].
Qed.
Next Obligation.
  intros m s (l & c & -> & Hwf & Hs). destruct (iter_create_ok l c s Hwf Hs) as (l' & si & E & Hi).
  exists (Some l'), si, (pair_at l <$> c 0). split_and!; [apply sl_holds_pairs; [apply Hwf|done]| |done]. cbn. by rewrite E.
Qed.
Next Obligation.
  intros m si s k v rest (l & c & p & ns & -> & Hwf & Hs & E & Er). destruct si as [cur]. cbn in Hwf, E.
  destruct ns as [|b ns]; [done|]. injection Er as Ek Ev ->.
  destruct (iter_next_ok l c s p cur b ns Hwf Hs E) as (l' & En & Hi). cbn. rewrite En. cbn.
  eexists _, _. split; [|exact Hi]. unfold pair_at. by rewrite Ek, Ev.
Qed.
Next Obligation.
  intros m si s (l & c & p & ns & -> & Hwf & Hs & E & Er). destruct si as [cur]. cbn in Hwf, E.
  destruct ns as [|b ns]; [|done].
  destruct (iter_end_ok l c s p cur Hwf Hs E) as (l' & En & Hr). cbn. rewrite En. cbn. eauto 10.
Qed.

(** A new skip list is empty. *)
Lemma skiplist_create_rep addr r l : addr <> 0 -> qb_skiplist_create true addr r = Some l -> sl_rep (Some l) ∅.
Proof.
  intros H0. unfold qb_skiplist_create, skiplist_header_node_new, skiplist_node_new. cbn [negb].
  destruct (Z.eqb_spec addr 0); [done|]. intros [= <-]. cbn. set (l := {| length_ := 0 |}).
  assert (Hn : nodes l !! addr = Some (nd l addr)) by (unfold nd; cbn; by rewrite lookup_insert_eq, lookup_total_insert_eq).
  assert (Hnd : nd l addr = {| key := None; value := 0; level := SKIPLIST_LEVEL_MAX; refcount := 1; node_notifiers := []; forward := addr |}).
  { unfold nd. cbn. apply lookup_total_insert_eq. }
  assert (Ha : arrays l !! addr = Some (zrepeat 0 (SKIPLIST_LEVEL_MAX + 1))) by (cbn; by rewrite lookup_insert_eq).
  exists l, (fun _ => []). split_and!; [done| |].
  - constructor; [constructor|..]; try done.
    + constructor.
      * apply NoDup_singleton.
      * by intros a ->%list_elem_of_singleton.
      * intros a ->%list_elem_of_singleton. change (header l) with addr. rewrite Hnd. cbn [forward]. rewrite Ha. by eexists.
      * by intros a b ->%list_elem_of_singleton ->%list_elem_of_singleton.
    + intros j Hj. apply chain_nil. unfold fw. change (header l) with addr. rewrite Hnd. cbn [forward].
      rewrite lookup_total_alt, Ha. cbn [default from_option]. apply zget_zrepeat. unfold SKIPLIST_LEVEL_MAX. lia.
    + change (header l) with addr. by rewrite Hnd.
    + intros a Hin. set_solver.
    + intros a Hin. set_solver.
    + intros j a Hj Hin. set_solver.
    + intros j a Hin. set_solver.
    + constructor.
    + intros a ->%list_elem_of_singleton. change (header l) with addr. by rewrite Hnd.
  - intros k v. rewrite lookup_empty. split; [done|]. intros (a & Hin & _). set_solver.
Qed.

(** ** Destroying *)

(** The calls for one node. *)
Definition deleted_calls (l : skiplist) (a : Z) : list notify_call :=
  default [] (skiplist_notify l (nd l a) QB_MAP_NOTIFY_DELETED (key (nd l a)) (value (nd l a)) 0).

(** During the destruction the header and the nodes [ns] are still as in [l0]. *)
Record remaining (l0 l : skiplist) (ns : list Z) : Prop := {
  re_header : header l = header l0;
  re_level : list_level l = -1;
  re_node : forall a, a ∈ header l0 :: ns -> nodes l !! a = Some (nd l0 a);
  re_array : forall a, a ∈ header l0 :: ns -> arrays l !! forward (nd l0 a) = arrays l0 !! forward (nd l0 a);
}.

Section Destroy.
Context (l0 : skiplist) (c : Z -> list Z) (Hwf : sl_wf l0 c sl_one_each).

Let Hsh : shape l0 c := sw_shape _ _ _ Hwf.
Let Ho : owns l0 (header l0 :: c 0) := sh_owns l0 c Hsh.

(** [cur] is the header or still there, and [ns] comes behind it. *)
Lemma remaining_next l p cur ns qs :
  remaining l0 l qs -> cur ∈ header l0 :: qs -> (forall a, a ∈ ns -> a ∈ qs) ->
  header l0 :: c 0 = p ++ cur :: ns -> skiplist_node_next l cur = Some (hd 0 ns).
Proof.
  intros [Hh Hl Hn Ha] Hcur Hsub E. unfold skiplist_node_next, search_fuel. rewrite Nat.add_comm. cbn [Nat.add next_loop].
  assert (Hin : cur ∈ header l0 :: c 0) by (rewrite E; set_solver).
  destruct (search_step l0 c Hsh [] 0 p cur ns ltac:(lia) E) as [Hf _].
  assert (Hfw : fwd l cur SKIPLIST_LEVEL_MIN = Some (hd 0 ns)).
  { rewrite <- Hf. unfold fwd. rewrite Hn by done. destruct (ow_node _ _ Ho cur Hin) as [_ ->]. cbn [mbind option_bind].
    by rewrite Ha. }
  rewrite Hfw. cbn [mbind option_bind]. destruct ns as [|b ns]; [done|]. cbn [hd].
  assert (Hb : b ∈ header l0 :: c 0) by (rewrite E; set_solver).
  destruct (ow_node _ _ Ho b Hb) as [H0 _]. destruct (Z.eqb_spec b 0); [done|].
  rewrite Hn by (apply elem_of_cons; right; apply Hsub; set_solver). cbn [mbind option_bind].
  by rewrite (sw_refs _ _ _ Hwf).
Qed.

Lemma remaining_notify l a :
  header l = header l0 -> nodes l !! header l0 = Some (nd l0 (header l0)) ->
  skiplist_notify l (nd l0 a) QB_MAP_NOTIFY_DELETED (key (nd l0 a)) (value (nd l0 a)) 0 = Some (deleted_calls l0 a).
Proof.
  intros Hh Hn. unfold deleted_calls, skiplist_notify. rewrite Hh, Hn.
  by destruct (ow_node _ _ Ho (header l0)) as [_ ->]; [set_solver|].
Qed.

(** One node is freed with its array, and its notifiers are called. *)
Lemma remaining_destroy l a ns :
  remaining l0 l (a :: ns) -> a ∉ header l0 :: ns -> (forall b, b ∈ header l0 :: a :: ns -> b ∈ header l0 :: c 0) ->
  exists l', skiplist_node_destroy l a = Some (l', deleted_calls l0 a) /\ remaining l0 l' ns.
Proof.
  intros [Hh Hl Hn Ha] Hout Hsub. unfold skiplist_node_destroy. rewrite Hn by set_solver. cbn [mbind option_bind].
  rewrite remaining_notify by (done || by apply Hn; set_solver). cbn [mbind option_bind]. rewrite Hl, orb_true_r. unfold free_array. rewrite Ha by set_solver.
  destruct (ow_array _ _ Ho a) as (f & -> & _); [apply Hsub; set_solver|]. cbn [mbind option_bind]. eexists. split; [done|].
  constructor; try done; intros b Hb; cbn; (assert (Hba : b <> a) by (by intros ->)).
  - rewrite lookup_delete_ne by done. apply Hn. set_solver.
  - rewrite lookup_delete_ne; [apply Ha; set_solver|]. intros E. apply Hba. symmetry.
    apply (ow_own _ _ Ho); [apply Hsub; set_solver|apply Hsub; set_solver|done].
Qed.

Lemma destroy_loop_ok fuel : forall l p ns,
  remaining l0 l ns -> header l0 :: c 0 = p ++ ns -> p <> [] -> (length ns < fuel)%nat ->
  exists l', destroy_loop fuel l (hd 0 ns) = Some (l', concat (deleted_calls l0 <$> ns)) /\ remaining l0 l' [].
Proof.
  induction fuel as [|fuel IH]; intros l p ns Hr E Hp Hf; [lia|]. cbn [destroy_loop]. destruct ns as [|a ns].
  { cbn. eauto. }
  assert (Hsub : forall b, b ∈ header l0 :: a :: ns -> b ∈ header l0 :: c 0).
  { intros b [->|Hb]%elem_of_cons; [set_solver|]. rewrite E. apply elem_of_app. by right. }
  pose proof (ow_nodup _ _ Ho) as Hd. destruct (ow_node _ _ Ho a) as [H0 _]; [apply Hsub; set_solver|].
  assert (Hout : a ∉ header l0 :: ns).
  { destruct p as [|h p]; [done|]. injection E as <- Ec. rewrite Ec in Hd. apply list.NoDup_cons in Hd as [Hh Hd].
    apply list.NoDup_app in Hd as (_ & _ & [Hd _]%list.NoDup_cons). intros [->|?]%elem_of_cons; [|done].
    apply Hh, elem_of_app. right. set_solver. }
  cbn [hd]. destruct (Z.eqb_spec a 0); [done|].
  rewrite (remaining_next l p a ns (a :: ns) Hr) by (set_solver || done). cbn [mbind option_bind].
  destruct (remaining_destroy l a ns Hr Hout Hsub) as (l1 & -> & Hr1). cbn [mbind option_bind].
  destruct (IH l1 (p ++ [a]) ns Hr1) as (l2 & -> & Hr2); [by rewrite E, <- app_assoc|by destruct p|cbn in Hf; lia|].
  cbn. eauto.
Qed.

Lemma skiplist_destroy_ok : skiplist_destroy l0 = Some (concat (deleted_calls l0 <$> (c 0 ++ [header l0]))).
Proof.
  unfold skiplist_destroy. unfold SKIPLIST_LEVEL_MIN. set (l1 := with_list_level l0 (0 - 1)). change (header l1) with (header l0).
  assert (Hr : remaining l0 l1 (c 0)).
  { constructor; try done. intros a Ha. by destruct (ow_node _ _ Ho a Ha). }
  rewrite (remaining_next l1 [] (header l0) (c 0) (c 0) Hr) by (set_solver || done). cbn [mbind option_bind].
  destruct (destroy_loop_ok (search_fuel l1) l1 [header l0] (c 0) Hr) as (l2 & -> & Hr2); [done|done| |].
  { pose proof (ahead_fuel l0 c Hsh (header l0)) as Hf. unfold ahead in Hf. rewrite filter_all in Hf by (by left).
    change (search_fuel l1) with (search_fuel l0). unfold search_fuel. lia. }
  cbn [mbind option_bind]. rewrite fmap_app, concat_app. cbn [concat fmap list_fmap].
  rewrite app_nil_r. destruct Hr2 as [Hh Hl Hn Ha]. unfold skiplist_node_destroy. rewrite Hh, Hn by set_solver. cbn [mbind option_bind].
  rewrite remaining_notify by (done || by apply Hn; set_solver). cbn [mbind option_bind].
  rewrite Hl, orb_true_r. unfold free_array. rewrite Ha by set_solver.
  by destruct (ow_array _ _ Ho (header l0)) as (f & -> & _); [set_solver|].
Qed.
End Destroy.

(** ** The skip list as a map *)

(** C18. A new skip list behaves like a finite map from strings to values,
    whatever the random levels: every sequence of puts, gets, removes and counts
    returns what the map returns, and none reads freed memory. *)
Theorem skiplist_refines addr r l ops :
  addr <> 0 -> qb_skiplist_create true addr r = Some l -> allocations_fresh skiplist_map (Some l) ops ->
  snd (map_run skiplist_map (Some l) ops) = snd (spec_map_run ∅ ops) /\
  is_Some (fst (map_run skiplist_map (Some l) ops)).
Proof.
  intros H0 Hc Hf. destruct (map_run_refines skiplist_map ops (Some l) ∅) as [E (l' & c & -> & _)]; [|done|done].
  by eapply skiplist_create_rep.
Qed.

(** C19. A complete walk with [qb_map_foreach] calls the function once for each
    pair of the skip list, in the strict order of the keys as unsigned bytes, and
    leaves the list as it was. *)
Theorem skiplist_foreach_ordered l s fuel :
  sl_rep l s -> (size s < fuel)%nat ->
  exists l' order, qb_map_foreach skiplist_map fuel (fun u k v => (u ++ [(k, v)], false)) l [] = Some (l', order, []) /\
    order ≡ₚ map_to_list s /\ StronglySorted key_lt order.*1 /\ sl_rep l' s.
Proof.
  intros (l0 & c & -> & Hwf & Hs) Hf. pose proof (sw_shape _ _ _ Hwf) as Hsh.
  pose proof (sl_holds_pairs l0 c s Hsh Hs) as Hp.
  destruct (iter_create_ok l0 c s Hwf Hs) as (l1 & si & E & Hi).
  destruct (foreach_loop_visits skiplist_map (W := map_walk skiplist_map) (fun u k v => u ++ [(k, v)]) (pair_at l0 <$> c 0) (Some l1) si s [] fuel) as (l' & El & Hr).
  { exact Hi. }
  { by rewrite Hp, length_map_to_list. }
  exists l', (pair_at l0 <$> c 0). split_and!; [|done| |done].
  - unfold qb_map_foreach, qb_map_iter_create. cbn [iter_create skiplist_map run_fault]. rewrite E, El. do 3 f_equal.
    assert (Hfold : forall q u, foldl (fun u (kv : map_key * Z) => u ++ [(kv.1, kv.2)]) u q = u ++ q).
    { induction q as [|[k v] q IH]; intros u; cbn; [by rewrite app_nil_r|]. by rewrite IH, <- app_assoc. }
    by rewrite Hfold.
  - rewrite <- list_fmap_compose. by apply sorted_keys.
Qed.

(** Removing the first item throws the levels above it away: however high
    the list was, it is afterwards no higher than the removed item, and searches
    no longer skip over the items there. *)
Theorem removing_first_flattens l s b :
  sl_rep (Some l) s -> skiplist_node_next l (header l) = Some b -> b <> 0 ->
  exists l' calls, skiplist_rm l (keyof l b) = Some (l', QB_TRUE, calls) /\ list_level l' <= level (nd l b).
Proof.
  intros (l0 & c & [= <-] & Hwf & Hs) Hb H0. pose proof (sw_shape _ _ _ Hwf) as Hsh.
  rewrite (node_next_ok l c Hsh [] (header l) (c 0)) in Hb; [|intros a Ha; by rewrite (sw_refs _ _ _ Hwf) by set_solver|done].
  destruct (c 0) as [|b' ns] eqn:Eb; [cbn in Hb; congruence|]. injection Hb as ->. rewrite <- Eb in Hs.
  destruct (skiplist_rm_ok l c s (keyof l b) Hwf Hs) as (l' & r & calls & E & _ & Er & Hl).
  rewrite (holds_get l c s) in Er by (done || rewrite Eb; set_solver). subst r.
  exists l', calls. split; [done|by eapply Hl].
Qed.

(** ** Removing under an iterator *)

(** The header's array has been freed and the list has no level. *)
Definition header_freed (l : skiplist) : Prop :=
  list_level l = -1 /\ exists h, nodes l !! header l = Some h /\ arrays l !! forward h = None.

Lemma put_freed_header l k v addr :
  header_freed l -> 0 <= fst (skiplist_level_generate (randoms l)) ->
  nodes l !! addr = None -> addr <> forward (nd l (header l)) -> skiplist_put l k v addr = None.
Proof.
  intros (Hl & h & Hh & Ha) Hg Hn Hne. unfold skiplist_put. rewrite Hl. unfold search_fuel at 1. rewrite Nat.add_comm. cbn [Nat.add put_loop].
  cbn [Z.ltb Z.compare SKIPLIST_LEVEL_MIN mbind option_bind]. pose proof (level_generate_le (randoms l)) as Hle.
  destruct (skiplist_level_generate (randoms l)) as [n r]. cbn in Hg, Hle.
  assert (Hnd : nd l (header l) = h) by (unfold nd; by rewrite lookup_total_alt, Hh). rewrite Hnd in Hne.
  change (list_level (with_randoms l r)) with (list_level l). change (header (with_randoms l r)) with (header l). rewrite Hl.
  destruct (Z.ltb_spec (-1) n); [|lia]. unfold skiplist_node_new. destruct (Z.eqb_spec addr 0) as [|H0]; [done|].
  destruct (Z.eqb_spec addr 0); [done|]. assert (Hha : header l <> addr) by congruence.
  set (l1 := with_arrays _ _). set (u := foldl _ _ _).
  assert (Hn1 : nodes l1 !! addr <> None) by (cbn; by rewrite lookup_insert_eq).
  destruct (nodes l1 !! addr) as [node|]; [|done]. cbn [mbind option_bind]. unfold skiplist_notify.
  assert (Hh1 : nodes l1 !! header l1 = Some h) by (cbn; by rewrite lookup_insert_ne).
  rewrite Hh1. cbn [mbind option_bind].
  replace (levels SKIPLIST_LEVEL_MIN n) with (0 :: levels 1 n).
  2:{ unfold levels, SKIPLIST_LEVEL_MIN. rewrite (seqZ_cons 0) by lia. do 2 f_equal; lia. }
  cbn [for_levels]. unfold drop_in.
  assert (Hu : zget u 0 = header l1).
  { unfold u. rewrite update_fold; [|done|intros j ?%elem_of_levels; lia|lia]. rewrite decide_True; [done|]. apply elem_of_levels. lia. }
  rewrite Hu. unfold fwd. rewrite Hh1. cbn [mbind option_bind].
  assert (Ha1 : arrays l1 !! forward h = None) by (cbn; by rewrite lookup_insert_ne). by rewrite Ha1.
Qed.

Lemma destroy_freed_header l : header_freed l -> skiplist_destroy l = None.
Proof.
  intros (Hl & h & Hh & Ha). unfold skiplist_destroy, skiplist_node_next, search_fuel. rewrite Nat.add_comm. cbn [Nat.add next_loop].
  unfold fwd. cbn [nodes arrays header with_list_level]. rewrite Hh. cbn [mbind option_bind]. by rewrite Ha.
Qed.

(** The removal of the only item while an iterator is at it. *)
Lemma rm_only_item l c b k :
  sl_wf l c (sl_two_at b) -> c 0 = [b] -> keyof l b = k ->
  exists l', skiplist_rm l k = Some (l', QB_TRUE, []) /\ list_level l' = -1 /\ header l' = header l /\ randoms l' = randoms l /\
    is_Some (nodes l' !! header l') /\ header l' <> b /\ b <> 0 /\
    exists n f, nodes l' !! b = Some n /\ refcount n = 1 /\ forward n = forward (nd l' (header l')) /\
      arrays l' !! forward n = Some f /\ zget f 0 = 0.
Proof.
  intros Hwf Ec Hk. pose proof (sw_shape _ _ _ Hwf) as Hsh. assert (Hb : b ∈ c 0) by (rewrite Ec; set_solver).
  pose proof (sw_refs _ _ _ Hwf b ltac:(set_solver)) as Href. unfold sl_two_at in Href. rewrite decide_True in Href by done.
  pose proof (header_not_found l c b Hsh Hb) as Hhb.
  pose proof (spot_first l c b [] Hsh Ec) as Hspot. rewrite Hk in Hspot.
  unfold skiplist_rm. destruct (rm_search l c Hsh k) as (u & -> & Hu). cbn [mbind option_bind].
  rewrite Hspot, (node_next_ok l c Hsh [] (header l) (c 0)); [|apply (wf_refs_pos _ _ _ Hwf), two_at_pos|done].
  rewrite Ec. cbn [mbind option_bind hd]. destruct (ow_node _ _ (sh_owns l c Hsh) b) as [H0 ->]; [set_solver|].
  destruct (Z.eqb_spec b 0); [done|]. cbn [mbind option_bind]. rewrite (sh_key l c Hsh b Hb). cbn [mbind option_bind].
  rewrite (proj2 (strcmp_eq _ _) Hk). cbn [negb Z.eqb].
  destruct (splice_out_loop l c k b Hsh Hb Hk u Hu) as (l2 & -> & Hsp). cbn [mbind option_bind].
  destruct (take_over_ok l c k b Hsh Hb Hk l2 Hsp) as (l4 & E4 & Hsh4 & Hh4 & _ & Hl4 & Hf4 & _ & Hfwd & Hr4).
  destruct (ow_node _ _ (proj1 (proj2 Hsp)) (header l)) as [_ ->]; [set_solver|]. cbn [mbind option_bind].
  rewrite Href. change (1 <? 2) with true. cbn [orb]. rewrite E4. cbn [mbind option_bind].
  unfold skiplist_node_deref. rewrite Hf4. cbn [mbind option_bind refcount with_refcount with_level].
  rewrite Href. change (u32 (2 - 1)) with 1. cbn [Z.eqb mbind option_bind].
  set (l5 := set_node l4 b _). assert (Hk0 : forall j, 0 <= j <= 8 -> kept c b (level (nd l b)) j = []).
  { intros j Hj. destruct (kept c b _ j) as [|x xs] eqn:Ex; [done|].
    destruct (kept_sub l c b Hsh Hb (level (nd l b)) j x Hj) as (Hx & Hxb & _); [rewrite Ex; set_solver|].
    apply (level_elem l c Hsh j) in Hx; [|done]. rewrite Ec in Hx. set_solver. }
  assert (Hnode : forall a, a <> b -> nodes l5 !! a = nodes l4 !! a) by (intros a Ha; cbn; by rewrite lookup_insert_ne).
  assert (Hhead : nodes l4 !! header l = Some (nd l4 (header l))).
  { apply (ow_node _ _ (sh_owns _ _ Hsh4)). rewrite Hh4. set_solver. }
  assert (Hnd : nd l5 (header l) = nd l4 (header l)) by (unfold nd; by rewrite !lookup_total_alt, Hnode).
  assert (Hsh5 : shape l5 (kept c b (level (nd l b)))).
  { eapply shape_agree; [exact Hsh4|done|done|]. rewrite Hk0, Hh4 by lia.
    constructor; intros a ->%list_elem_of_singleton; rewrite ?Hnd; try done. by rewrite Hnode. }
  destruct (trim_levels_ok _ (S (Z.to_nat SKIPLIST_LEVEL_COUNT)) l5 Hsh5) as (n' & -> & Hsh6 & Htop).
  { pose proof (sh_bound _ _ Hsh5). unfold SKIPLIST_LEVEL_COUNT, SKIPLIST_LEVEL_MAX, SKIPLIST_LEVEL_MIN. lia. }
  cbn [mbind option_bind]. eexists. split; [done|]. pose proof (sh_bound _ _ Hsh6) as Hb6. cbn [list_level with_list_level] in Hb6.
  assert (n' <= -1) by (apply Htop; [lia|intros j Hj; apply Hk0; lia]).
  cbn [list_level header randoms nodes arrays with_length with_list_level]. change (header l5) with (header l4). rewrite Hh4.
  destruct (ow_array _ _ (sh_owns _ _ Hsh4) (header l)) as (f & Hf & _); [rewrite Hh4; set_solver|].
  pose proof (sh_chain _ _ Hsh4 0 ltac:(lia)) as Hc. rewrite Hk0 in Hc by lia. apply chain_nil in Hc.
  split_and!; [lia|done|done|rewrite Hnode, Hhead by done; by eexists|done|done|].
  eexists _, f. split_and!; [cbn; apply lookup_insert_eq|done| | |].
  - change (nd (with_length _ _) (header l)) with (nd l5 (header l)). by rewrite Hnd, Hfwd.
  - cbn [forward with_level with_refcount]. by rewrite <- Hfwd.
  - rewrite Hh4 in Hc. unfold fw in Hc. by rewrite lookup_total_alt, Hf in Hc.
Qed.

(** An iterator stands at the only item and the item is removed, which the
    interface allows.  The removal succeeds; the next step of the iterator frees
    the array of forward pointers that the header still uses.  Whatever is put
    next, and the destruction of the list, then read freed memory. *)
Theorem removing_under_iterator_faults l si k v :
  sl_iter_rep (Some l) si {[k := v]} [] -> 0 <= fst (skiplist_level_generate (randoms l)) ->
  exists l1 l2 calls, skiplist_rm l k = Some (l1, QB_TRUE, []) /\
    skiplist_iter_next l1 si = Some (l2, {| iter_n := 0 |}, None, calls) /\ skiplist_destroy l2 = None /\
    forall k' v' addr, nodes l2 !! addr = None -> addr <> forward (nd l2 (header l2)) -> skiplist_put l2 k' v' addr = None.
Proof.
  intros (l0 & c & p & ns & [= <-] & Hwf & Hs & E & Er) Hg. symmetry in Er. apply fmap_nil_inv in Er as ->.
  pose proof (sw_shape _ _ _ Hwf) as Hsh. destruct si as [b]. cbn [iter_n] in *.
  pose proof (holds_size l c _ Hsh Hs) as Hsz. rewrite map_size_singleton in Hsz.
  assert (Ec : c 0 = [b]).
  { destruct (c 0) as [|x [|y xs]]; [done| |unfold zlen in Hsz; cbn in Hsz; lia].
    destruct p as [|h [|? [|? p]]]; try done; cbn in E; congruence. }
  assert (Hk : keyof l b = k).
  { assert (Hkb : ({[k := v]} : gmap map_key Z) !! keyof l b = Some (value (nd l b))).
    { apply (holds_get l c _ b Hsh Hs). rewrite Ec. set_solver. }
    apply lookup_singleton_Some in Hkb as [-> _]. done. }
  destruct (rm_only_item l c b k Hwf Ec Hk) as (l1 & -> & Hl1 & Hh1 & Hr1 & [h Hh] & Hhb & H0 & n & f & Hn & Hrf & Hfw & Hf & Hz).
  exists l1. unfold skiplist_iter_next. cbn [iter_n]. destruct (Z.eqb_spec b 0); [done|].
  assert (Hnext : skiplist_node_next l1 b = Some 0).
  { unfold skiplist_node_next, search_fuel. rewrite Nat.add_comm. cbn [Nat.add next_loop]. unfold fwd.
    rewrite Hn. cbn [mbind option_bind]. rewrite Hf. cbn [mbind option_bind].
    change (zget f SKIPLIST_LEVEL_MIN) with (zget f 0). by rewrite Hz. }
  rewrite Hnext. cbn [mbind option_bind Z.eqb]. unfold skiplist_node_deref. rewrite Hn. cbn [mbind option_bind].
  rewrite Hrf. change (u32 (1 - 1)) with 0. cbn [refcount with_refcount Z.eqb]. set (z0 := with_refcount n 0).
  unfold skiplist_node_destroy, skiplist_notify. change (nodes (set_node l1 b z0)) with (<[b := z0]> (nodes l1)).
  rewrite lookup_insert_eq. cbn [mbind option_bind]. change (header (set_node l1 b z0)) with (header l1).
  rewrite lookup_insert_ne, Hh by done. cbn [mbind option_bind]. change (list_level (set_node l1 b z0)) with (list_level l1).
  rewrite Hl1, orb_true_r. unfold free_array. change (arrays (set_node l1 b z0)) with (arrays l1).
  change (forward z0) with (forward n). rewrite Hf. cbn [mbind option_bind]. eexists _, _. split; [done|]. split; [done|].
  assert (Hnd : nd l1 (header l1) = h) by (unfold nd; by rewrite lookup_total_alt, Hh). rewrite Hnd in Hfw.
  set (l2 := with_nodes _ _). assert (Hfree : header_freed l2).
  { split; [done|]. exists h. cbn. rewrite lookup_delete_ne, lookup_insert_ne by done. split; [done|]. rewrite Hfw. apply lookup_delete_eq. }
  split; [by apply destroy_freed_header|]. intros k' v' addr. apply put_freed_header; [done|]. cbn. by rewrite Hr1.
Qed.

(** * Skip list: examples

    Concrete lists at which the theorems apply, and the fault of removing items
    while an iterator is at work. *)
Module SkiplistExamples.

Definition k_a : map_key := [97].
Definition k_b : map_key := [98].
Definition k_c : map_key := [99; 200].

(** Levels 1, 0 and 2. *)
Definition dice : list Z := [5; 60000; 60000; 7; 65536; 60000].

Definition new_list : skiplist :=
  default {| length_ := 0; list_level := 0; header := 0; nodes := ∅; arrays := ∅; randoms := [] |}
    (qb_skiplist_create true 1000 dice).

Definition calls_1 : list map_op :=
  [M_put k_b 6 1001; M_put k_a 5 1002; M_put k_c 7 1003; M_get k_a; M_get k_c; M_count; M_put k_a 8 1004; M_get k_a;
   M_rm k_a; M_get k_a; M_rm k_a; M_get k_c; M_count; M_rm k_c; M_rm k_b; M_count].

Lemma skiplist_refines_witness :
  snd (map_run skiplist_map (Some new_list) calls_1) = [0; 0; 0; 5; 7; 3; 0; 8; 1; 0; 0; 7; 2; 1; 1; 0].
Proof.
  rewrite (proj1 (skiplist_refines 1000 dice new_list calls_1 ltac:(discriminate) eq_refl ltac:(
    cbn [allocations_fresh calls_1]; split_and!; try exact I;
    vm_compute; split_and!; try reflexivity; discriminate))). vm_compute. reflexivity.
Defined.

(** Three items. *)
Definition three_items : option skiplist := fst (map_run skiplist_map (Some new_list) (take 3 calls_1)).
Definition pairs_3 : gmap map_key Z := fst (spec_map_run ∅ (take 3 calls_1)).

Lemma three_items_rep : sl_rep three_items pairs_3.
Proof.
  apply (proj2 (map_run_refines skiplist_map (take 3 calls_1) (Some new_list) ∅
    (skiplist_create_rep 1000 dice new_list ltac:(discriminate) eq_refl) ltac:(
    cbn [allocations_fresh calls_1 take]; split_and!; try exact I;
    vm_compute; split_and!; try reflexivity; discriminate))).
Qed.

Lemma skiplist_foreach_ordered_witness :
  exists l' order, qb_map_foreach skiplist_map 4 (fun u k v => (u ++ [(k, v)], false)) three_items [] = Some (l', order, []) /\
    order ≡ₚ map_to_list pairs_3 /\ StronglySorted key_lt order.*1 /\ sl_rep l' pairs_3.
Proof. apply (skiplist_foreach_ordered three_items pairs_3 4); [exact three_items_rep|vm_compute; lia]. Defined.

Example three_items_walk :
  (fun r => snd (fst r)) <$> qb_map_foreach skiplist_map 4 (fun u k v => (u ++ [(k, v)], false)) three_items [] =
  Some [(k_a, 5); (k_b, 6); (k_c, 7)].
Proof. vm_compute. reflexivity. Qed.

Definition three_list : skiplist := default new_list three_items.

Lemma three_list_rep : sl_rep (Some three_list) pairs_3.
Proof.
  assert (E : three_items = Some three_list) by (vm_compute; reflexivity). rewrite <- E. exact three_items_rep.
Qed.

Example three_list_level : list_level three_list = 2.
Proof. vm_compute. reflexivity. Qed.

Lemma removing_first_flattens_witness :
  exists l' calls, skiplist_rm three_list (keyof three_list 1002) = Some (l', QB_TRUE, calls) /\
    list_level l' <= level (nd three_list 1002) /\ level (nd three_list 1002) = 0.
Proof.
  destruct (removing_first_flattens three_list pairs_3 1002 three_list_rep) as (l' & calls & E & Hl);
    [vm_compute; reflexivity|discriminate|]. exists l', calls. split_and!; [exact E|exact Hl|vm_compute; reflexivity].
Defined.

(** One item with an iterator at it. *)
Definition one_item : option skiplist := fst (map_run skiplist_map (Some new_list) [M_put k_a 5 1001]).

Definition at_only : skiplist * skiplist_iter :=
  let '(l, i) := iter_create skiplist_map one_item None in
  match iter_next skiplist_map l i with
  | Some (Some l, i, _, _) => (l, i)
  | _ => (new_list, i)
  end.

Lemma one_item_rep : sl_rep one_item {[k_a := 5]}.
Proof.
  apply (proj2 (map_run_refines skiplist_map [M_put k_a 5 1001] (Some new_list) ∅
    (skiplist_create_rep 1000 dice new_list ltac:(discriminate) eq_refl) ltac:(
    cbn [allocations_fresh]; split_and!; try exact I; vm_compute; split_and!; try reflexivity; discriminate))).
Qed.

Lemma at_only_rep : sl_iter_rep (Some (fst at_only)) (snd at_only) {[k_a := 5]} [].
Proof.
  destruct (@iter_create_law _ _ skiplist_map skiplist_laws one_item _ one_item_rep) as (m & i & rest & Hp & E & Hr).
  rewrite map_to_list_singleton in Hp. symmetry in Hp. apply Permutation_singleton_l in Hp. subst rest.
  destruct (@iter_next_law _ _ skiplist_map skiplist_laws m i _ _ _ _ Hr) as (m' & i' & E' & Hr').
  unfold at_only. rewrite E, E'. by destruct m' as [l|]; [|destruct Hr' as (? & ? & ? & ? & ? & _)].
Qed.

Lemma removing_under_iterator_faults_witness :
  exists l1 l2 calls, skiplist_rm (fst at_only) k_a = Some (l1, QB_TRUE, []) /\
    skiplist_iter_next l1 (snd at_only) = Some (l2, {| iter_n := 0 |}, None, calls) /\ skiplist_destroy l2 = None /\
    forall k' v' addr, nodes l2 !! addr = None -> addr <> forward (nd l2 (header l2)) -> skiplist_put l2 k' v' addr = None.
Proof.
  apply (removing_under_iterator_faults (fst at_only) (snd at_only) k_a 5 at_only_rep). vm_compute. discriminate.
Defined.

(** The first item is removed with an iterator at it, then the second: the
    iterator goes on through the freed array as well. *)
Example removing_two_under_iterator :
  (let '(l, i) := iter_create skiplist_map three_items None in
   '(l, i, _, _) ← iter_next skiplist_map l i;
   let '(l, _, _) := rm skiplist_map l k_a in
   let '(l, _, _) := rm skiplist_map l k_b in
   iter_next skiplist_map l i) = None.
Proof. vm_compute. reflexivity. Qed.

End SkiplistExamples.
