(* ===== verification/Trie.v ===== *)
(** * Trie (lib/trie.c)

    Nodes live in a store from addresses to records, address 0 is NULL, and
    freeing removes from the store.  [None] is a use of freed memory or of NULL,
    an access outside an array, or a loop that runs out of its fuel.  A key is the
    list of the bytes of a C string; reading it at its end gives the final NUL,
    and the empty key is a fault, because the code steps over the NUL before it
    looks at it.  Notifiers are lists in the order of their linked lists; their
    reference counts are 1 whenever no callback runs and are left out.  Results
    of the allocator are part of the state: [alloc_fails] says which of the next
    allocations fail (none after the last), and a new block has an address that
    was never used before. *)
From S2P Require Import Prelude Map.

(** ** Data *)

Record trie_node := {
  idx : Z;
  segment : list Z;
  key : option map_key;
  value : Z;
  children : list Z;
  num_children : Z;
  refcount : Z;
  parent : Z;
  node_notifiers : list qb_map_notifier;
}.

Record trie := {
  length_ : Z;
  num_nodes : Z;
  mem_used : Z;
  header : Z;
  nodes : gmap Z trie_node;
  next_address : Z;
  alloc_fails : list bool;
}.

Record trie_iter := { prefix : option map_key; iter_n : Z; iter_root : Z }.

Definition sizeof_trie : Z := 104.
Definition sizeof_trie_node : Z := 72.
Definition sizeof_pointer : Z := 8.

(** ** Assignments *)

Definition with_length (t : trie) (n : Z) : trie :=
  {| length_ := n; num_nodes := num_nodes t; mem_used := mem_used t; header := header t; nodes := nodes t;
     next_address := next_address t; alloc_fails := alloc_fails t |}.
Definition with_num_nodes (t : trie) (n : Z) : trie :=
  {| length_ := length_ t; num_nodes := n; mem_used := mem_used t; header := header t; nodes := nodes t;
     next_address := next_address t; alloc_fails := alloc_fails t |}.
Definition with_mem_used (t : trie) (n : Z) : trie :=
  {| length_ := length_ t; num_nodes := num_nodes t; mem_used := n; header := header t; nodes := nodes t;
     next_address := next_address t; alloc_fails := alloc_fails t |}.
Definition with_header (t : trie) (a : Z) : trie :=
  {| length_ := length_ t; num_nodes := num_nodes t; mem_used := mem_used t; header := a; nodes := nodes t;
     next_address := next_address t; alloc_fails := alloc_fails t |}.
Definition with_nodes (t : trie) (ns : gmap Z trie_node) : trie :=
  {| length_ := length_ t; num_nodes := num_nodes t; mem_used := mem_used t; header := header t; nodes := ns;
     next_address := next_address t; alloc_fails := alloc_fails t |}.
Definition with_allocator (t : trie) (a : Z) (f : list bool) : trie :=
  {| length_ := length_ t; num_nodes := num_nodes t; mem_used := mem_used t; header := header t; nodes := nodes t;
     next_address := a; alloc_fails := f |}.
Definition set_node (t : trie) (a : Z) (n : trie_node) : trie := with_nodes t (<[a := n]> (nodes t)).

Definition with_idx (n : trie_node) (i : Z) : trie_node :=
  {| idx := i; segment := segment n; key := key n; value := value n; children := children n;
     num_children := num_children n; refcount := refcount n; parent := parent n; node_notifiers := node_notifiers n |}.
Definition with_segment (n : trie_node) (s : list Z) : trie_node :=
  {| idx := idx n; segment := s; key := key n; value := value n; children := children n;
     num_children := num_children n; refcount := refcount n; parent := parent n; node_notifiers := node_notifiers n |}.
Definition with_entry (n : trie_node) (k : option map_key) (v : Z) : trie_node :=
  {| idx := idx n; segment := segment n; key := k; value := v; children := children n;
     num_children := num_children n; refcount := refcount n; parent := parent n; node_notifiers := node_notifiers n |}.
Definition with_children (n : trie_node) (c : list Z) (num : Z) : trie_node :=
  {| idx := idx n; segment := segment n; key := key n; value := value n; children := c;
     num_children := num; refcount := refcount n; parent := parent n; node_notifiers := node_notifiers n |}.
Definition with_refcount (n : trie_node) (r : Z) : trie_node :=
  {| idx := idx n; segment := segment n; key := key n; value := value n; children := children n;
     num_children := num_children n; refcount := r; parent := parent n; node_notifiers := node_notifiers n |}.
Definition with_parent (n : trie_node) (p : Z) : trie_node :=
  {| idx := idx n; segment := segment n; key := key n; value := value n; children := children n;
     num_children := num_children n; refcount := refcount n; parent := p; node_notifiers := node_notifiers n |}.
Definition with_notifiers (n : trie_node) (l : list qb_map_notifier) : trie_node :=
  {| idx := idx n; segment := segment n; key := key n; value := value n; children := children n;
     num_children := num_children n; refcount := refcount n; parent := parent n; node_notifiers := l |}.

(** ** Memory *)

(** Whether the next allocation succeeds. *)
Definition try_alloc (t : trie) : trie * bool :=
  match alloc_fails t with
  | [] => (t, true)
  | f :: fs => (with_allocator t (next_address t) fs, negb f)
  end.

(** [calloc] of a structure: its address, or 0. *)
Definition calloc (t : trie) : trie * Z :=
  let '(t, ok) := try_alloc t in
  if ok then (with_allocator t (next_address t + 1) (alloc_fails t), next_address t) else (t, 0).

Definition trie_destroy_node (t : trie) (a : Z) : trie := with_nodes t (delete a (nodes t)).

Definition empty_node (p : Z) : trie_node :=
  {| idx := 0; segment := []; key := None; value := 0; children := []; num_children := 0; refcount := 0;
     parent := p; node_notifiers := [] |}.

Definition trie_new_node (t : trie) (p : Z) : trie * Z :=
  let '(t, new_node) := calloc t in
  if new_node =? 0 then (t, 0)
  else
    let '(t, ok) := try_alloc t in
    if negb ok then (t, 0)
    else
      let t := set_node t new_node (empty_node p) in
      let t := with_num_nodes t (u32 (num_nodes t + 1)) in
      (with_mem_used t (u32 (mem_used t + sizeof_trie_node)), new_node).

(** ** Characters *)

(** A byte as a signed char. *)
Definition schar (c : Z) : Z := (c + 128) mod 256 - 128.
Definition TRIE_CHAR2INDEX (ch : Z) : Z := 127 - schar ch.

(** The byte under a pointer into a string. *)
Definition deref_char (cur : map_key) : Z := hd 0 cur.

(** ** Walking *)

Definition trie_node_alive (n : trie_node) : bool := negb ((value n =? 0) || (refcount n <=? 0)).

(** The last child below index [i], 0 when there is none. *)
Fixpoint scan_down (i : nat) (c : list Z) : option Z :=
  match i with
  | O => Some 0
  | S i' => n ← c !! i'; if n =? 0 then scan_down i' c else Some n
  end.

(** The loop to the next sibling of [p] or of the nodes above it. *)
Fixpoint climb (fuel : nat) (t : trie) (root p : Z) : option Z :=
  match fuel with
  | O => None
  | S fuel' =>
    pn ← nodes t !! p;
    pp ← nodes t !! parent pn;
    n ← scan_down (Z.to_nat (idx pn)) (children pp);
    if negb (n =? 0) then Some n
    else if parent pn =? root then Some 0
    else climb fuel' t root (parent pn)
  end.

(** Enough for a walk, which meets each node at most once. *)
Definition walk_fuel (t : trie) : nat := S (size (nodes t)).

Fixpoint next_loop (fuel : nat) (t : trie) (root : Z) (all : bool) (c : Z) : option Z :=
  match fuel with
  | O => None
  | S fuel' =>
    cn ← nodes t !! c;
    n ← scan_down (Z.to_nat (num_children cn)) (children cn);
    if negb (n =? 0) then
      nn ← nodes t !! n;
      if all || trie_node_alive nn then Some n else next_loop fuel' t root all n
    else if c =? root then Some 0
    else
      n ← climb (walk_fuel t) t root c;
      if n =? 0 then Some 0
      else
        nn ← nodes t !! n;
        if all || trie_node_alive nn then Some n
        else if n =? root then Some 0
        else next_loop fuel' t root all n
  end.

Definition trie_node_next (t : trie) (node root : Z) (all : bool) : option Z :=
  next_loop (walk_fuel t) t root all node.

(** ** Inserting *)

(** A failed [realloc] leaves the pointer NULL and the count as if it had
    succeeded. *)
Definition grow_children (t : trie) (p : Z) (pn : trie_node) (i : Z) : trie * bool :=
  if num_children pn <=? i then
    let old_max_idx := num_children pn in
    let num := QB_MAX (i + 1) 30 in
    let t := with_mem_used t (u32 (mem_used t + sizeof_pointer * (num - old_max_idx))) in
    let '(t, ok) := try_alloc t in
    if ok then (set_node t p (with_children pn (children pn ++ zrepeat 0 (num - old_max_idx)) num), true)
    else (set_node t p (with_children pn [] num), false)
  else (t, true).

(** The new node, or 0. *)
Definition new_child_node (t : trie) (p : Z) (ch : Z) : option (trie * Z) :=
  let i := TRIE_CHAR2INDEX ch in
  pn ← nodes t !! p;
  let '(t, ok) := grow_children t p pn i in
  if negb ok then Some (t, 0)
  else
    let '(t, new_node) := trie_new_node t p in
    if new_node =? 0 then Some (t, 0)
    else
      nn ← nodes t !! new_node;
      let t := set_node t new_node (with_idx nn i) in
      pn ← nodes t !! p;
      _ ← children pn !! Z.to_nat i;
      Some (set_node t p (with_children pn (zset (children pn) i new_node) (num_children pn)), new_node).

(** [child->parent = p] for the children of an array. *)
Fixpoint reparent (t : trie) (p : Z) (c : list Z) : option trie :=
  match c with
  | [] => Some t
  | x :: c =>
    if x =? 0 then reparent t p c
    else n ← nodes t !! x; reparent (set_node t x (with_parent n p)) p c
  end.

(** [cur_node], or 0. *)
Definition trie_node_split (t : trie) (cur_node : Z) (seg_cnt : Z) : option (trie * Z) :=
  cn ← nodes t !! cur_node;
  let t := set_node t cur_node (with_children cn [] 0) in
  ch ← segment cn !! Z.to_nat seg_cnt;
  '(t, split_node) ← new_child_node t cur_node ch;
  if split_node =? 0 then Some (t, 0)
  else
    sn ← nodes t !! split_node;
    let sn := with_children sn (children cn) (num_children cn) in
    t ← reparent (set_node t split_node sn) split_node (children cn);
    sn ← nodes t !! split_node;
    let sn := with_refcount (with_entry sn (key cn) (value cn)) (refcount cn) in
    let t := set_node t split_node (with_notifiers sn (node_notifiers cn)) in
    cn' ← nodes t !! cur_node;
    let t := set_node t cur_node (with_notifiers (with_refcount (with_entry cn' None 0) 0) []) in
    if seg_cnt <? zlen (segment cn) then
      let '(t, ok) := try_alloc t in
      if negb ok then Some (trie_destroy_node t split_node, 0)
      else
        sn ← nodes t !! split_node;
        let t := set_node t split_node (with_segment sn (drop (Z.to_nat (seg_cnt + 1)) (segment cn))) in
        cn' ← nodes t !! cur_node;
        Some (set_node t cur_node (with_segment cn' (take (Z.to_nat seg_cnt) (segment cn))), cur_node)
    else Some (t, cur_node).

Definition split_and_add (t : trie) (cur_node seg_cnt ch : Z) : option (trie * Z * Z) :=
  '(t, cur_node) ← trie_node_split t cur_node seg_cnt;
  if cur_node =? 0 then Some (t, 0, 0)
  else '(t, new_node) ← new_child_node t cur_node ch; Some (t, cur_node, new_node).

(** One round of the loop of [trie_insert] for the character [ch]: the node
    that it is on afterwards (0 when an allocation failed) and [seg_cnt]. *)
Definition insert_step (t : trie) (cur_node seg_cnt ch : Z) : option (trie * Z * Z) :=
  cn ← nodes t !! cur_node;
  let num_segments := zlen (segment cn) in
  let i := TRIE_CHAR2INDEX ch in
  let add_child :=
    '(t, new_node) ← new_child_node t cur_node ch; Some (t, new_node, 0) in
  let split :=
    '(t, _, new_node) ← split_and_add t cur_node seg_cnt ch; Some (t, new_node, 0) in
  if (0 <? num_segments) && (seg_cnt <? num_segments) then
    c ← segment cn !! Z.to_nat seg_cnt;
    if c =? ch then Some (t, cur_node, seg_cnt + 1) else split
  else
    child ← (if i <? num_children cn then children cn !! Z.to_nat i else Some 0);
    if negb (child =? 0) then Some (t, child, 0)
    else if cur_node =? header t then add_child
    else if (value cn =? 0) && bool_decide (node_notifiers cn = []) && (num_children cn =? 0) &&
            (seg_cnt =? num_segments) then
      let '(t, ok) := try_alloc t in
      if ok then
        let t := set_node t cur_node (with_segment cn (segment cn ++ [ch])) in
        Some (with_mem_used t (u32 (mem_used t + 1)), cur_node, seg_cnt + 1)
      else None
    else if seg_cnt =? num_segments then add_child
    else split.

(** The loop for the rest of the key; the last result is [seg_cnt]. *)
Fixpoint insert_loop (t : trie) (cur_node seg_cnt : Z) (ch : Z) (rest : map_key) : option (trie * Z * Z) :=
  '(t, cur_node, seg_cnt) ← insert_step t cur_node seg_cnt ch;
  if cur_node =? 0 then Some (t, 0, 0)
  else match rest with
       | [] => Some (t, cur_node, seg_cnt)
       | ch :: rest => insert_loop t cur_node seg_cnt ch rest
       end.

(** The node of the key, or 0. *)
Definition trie_insert (t : trie) (k : map_key) : option (trie * Z) :=
  match k with
  | [] => None
  | ch :: rest =>
    '(t, cur_node, seg_cnt) ← insert_loop t (header t) 0 ch rest;
    if cur_node =? 0 then Some (t, 0)
    else
      cn ← nodes t !! cur_node;
      if (0 <? zlen (segment cn)) && (seg_cnt <? zlen (segment cn)) then
        '(t, cur_node, new_node) ← split_and_add t cur_node seg_cnt (deref_char []);
        Some (t, if new_node =? 0 then 0 else cur_node)
      else Some (t, cur_node)
  end.

(** ** Looking up *)

Fixpoint lookup_loop (t : trie) (cur_node seg_cnt : Z) (ch : Z) (rest : map_key) : option (Z * Z) :=
  cn ← nodes t !! cur_node;
  let num_segments := zlen (segment cn) in
  let i := TRIE_CHAR2INDEX ch in
  '(cur_node, seg_cnt) ←
    (if (0 <? num_segments) && (seg_cnt <? num_segments) then
       c ← segment cn !! Z.to_nat seg_cnt;
       if c =? ch then Some (cur_node, seg_cnt + 1) else Some (0, 0)
     else
       child ← (if i <? num_children cn then children cn !! Z.to_nat i else Some 0);
       if negb (child =? 0) then Some (child, 0) else Some (0, 0));
  if cur_node =? 0 then Some (0, 0)
  else match rest with
       | [] => Some (cur_node, seg_cnt)
       | ch :: rest => lookup_loop t cur_node seg_cnt ch rest
       end.

(** The result 0 is the null pointer. *)
Definition trie_lookup (t : trie) (k : map_key) (exact_match : bool) : option Z :=
  match k with
  | [] => None
  | ch :: rest =>
    '(cur_node, seg_cnt) ← lookup_loop t (header t) 0 ch rest;
    if cur_node =? 0 then Some 0
    else
      cn ← nodes t !! cur_node;
      if exact_match && (0 <? zlen (segment cn)) && (seg_cnt <? zlen (segment cn)) then Some 0
      else Some cur_node
  end.

(** ** Notifying *)

Definition call_notifier (tn : qb_map_notifier) (event : Z) (k : option map_key) (old_value value : Z) : notify_call :=
  {| nc_callback := callback tn; nc_event := event; nc_key := k; nc_old_value := old_value;
     nc_value := value; nc_user_data := user_data tn |}.

(** The calls of the notifiers of one node; [own] when it is the node of the
    key. *)
Definition notify_node (own : bool) (event : Z) (k : option map_key) (old_value value : Z) (l : list qb_map_notifier)
    : list notify_call :=
  concat ((fun tn =>
    (if has_flag (events tn) event && (has_flag (events tn) QB_MAP_NOTIFY_RECURSIVE || own)
     then [call_notifier tn event k old_value value] else []) ++
    (if (has_flag event QB_MAP_NOTIFY_DELETED || has_flag event QB_MAP_NOTIFY_REPLACED)
        && has_flag (events tn) QB_MAP_NOTIFY_FREE
     then [call_notifier tn QB_MAP_NOTIFY_FREE k old_value value] else [])) <$> l).

Fixpoint notify_loop (fuel : nat) (t : trie) (n c : Z) (event : Z) (k : option map_key) (old_value value : Z)
    : option (list notify_call) :=
  match fuel with
  | O => None
  | S fuel' =>
    cn ← nodes t !! c;
    let calls := notify_node (n =? c) event k old_value value (node_notifiers cn) in
    if parent cn =? 0 then Some calls
    else calls' ← notify_loop fuel' t n (parent cn) event k old_value value; Some (calls ++ calls')
  end.

Definition trie_notify (t : trie) (n : Z) (event : Z) (k : option map_key) (old_value value : Z)
    : option (list notify_call) := notify_loop (walk_fuel t) t n n event k old_value value.

(** ** Releasing *)

Fixpoint release_loop (fuel : nat) (t : trie) (node : Z) : option trie :=
  match fuel with
  | O => None
  | S fuel' =>
    n ← nodes t !! node;
    if bool_decide (key n = None) && negb (parent n =? 0) && bool_decide (node_notifiers n = []) then
      let p := parent n in
      child ← scan_down (Z.to_nat (num_children n)) (children n);
      if negb (child =? 0) then Some t
      else
        pn ← nodes t !! p;
        _ ← children pn !! Z.to_nat (idx n);
        let t := set_node t p (with_children pn (zset (children pn) (idx n) 0) (num_children pn)) in
        let t := trie_destroy_node t node in
        let t := with_num_nodes t (u32 (num_nodes t - 1)) in
        release_loop fuel' (with_mem_used t (u32 (mem_used t - sizeof_trie_node))) p
    else Some t
  end.

Definition trie_node_release (t : trie) (node : Z) : option trie := release_loop (walk_fuel t) t node.

Definition trie_node_destroy (t : trie) (a : Z) : option (trie * list notify_call) :=
  n ← nodes t !! a;
  if value n =? 0 then Some (t, [])
  else
    calls ← trie_notify t a QB_MAP_NOTIFY_DELETED (key n) (value n) 0;
    t ← trie_node_release (set_node t a (with_entry n None 0)) a;
    Some (t, calls).

Definition trie_node_ref (t : trie) (a : Z) : option trie :=
  if header t =? a then Some t
  else n ← nodes t !! a; Some (set_node t a (with_refcount n (u32 (refcount n + 1)))).

Definition trie_node_deref (t : trie) (a : Z) : option (trie * list notify_call) :=
  n ← nodes t !! a;
  if negb (trie_node_alive n) then Some (t, [])
  else
    let n := with_refcount n (u32 (refcount n - 1)) in
    let t := set_node t a n in
    if 0 <? refcount n then Some (t, []) else trie_node_destroy t a.

(** ** The operations *)

Definition trie_put (t : trie) (k : map_key) (v : Z) : option (trie * list notify_call) :=
  '(t, a) ← trie_insert t k;
  if a =? 0 then Some (t, [])
  else
    n ← nodes t !! a;
    let t := set_node t a (with_entry n (Some k) v) in
    if value n =? 0 then
      t ← trie_node_ref t a;
      let t := with_length t (u64 (length_ t + 1)) in
      calls ← trie_notify t a QB_MAP_NOTIFY_INSERTED (Some k) 0 v;
      Some (t, calls)
    else
      calls ← trie_notify t a QB_MAP_NOTIFY_REPLACED (key n) (value n) v;
      Some (t, calls).

Definition trie_rm (t : trie) (k : map_key) : option (trie * Z * list notify_call) :=
  a ← trie_lookup t k true;
  if a =? 0 then Some (t, QB_FALSE, [])
  else
    '(t, calls) ← trie_node_deref t a;
    Some (with_length t (u64 (length_ t - 1)), QB_TRUE, calls).

Definition trie_get (t : trie) (k : map_key) : option Z :=
  a ← trie_lookup t k true;
  if a =? 0 then Some 0 else n ← nodes t !! a; Some (value n).

Definition trie_count_get (t : trie) : Z := length_ t.

(** ** Notifiers *)

(** [errno_] is that of a failed allocation. *)
Definition trie_notify_add (t : trie) (k : option map_key) (fn events_ user_data_ errno_ : Z) : option (trie * Z) :=
  '(t, a) ← match k with
            | Some k => a ← trie_lookup t k true; if a =? 0 then trie_insert t k else Some (t, a)
            | None => Some (t, header t)
            end;
  if a =? 0 then Some (t, - EINVAL)
  else
    n ← nodes t !! a;
    if existsb (fun f => (has_flag events_ QB_MAP_NOTIFY_FREE && (events f =? events_))
                      || ((events f =? events_) && (callback f =? fn) && (user_data f =? user_data_)))
         (node_notifiers n)
    then Some (t, - EEXIST)
    else
      let '(t, ok) := try_alloc t in
      if negb ok then Some (t, - errno_)
      else
        let f := {| callback := fn; events := events_; user_data := user_data_ |} in
        let add_to_tail :=
          match k with
          | Some _ => has_flag events_ QB_MAP_NOTIFY_RECURSIVE
          | None => has_flag events_ QB_MAP_NOTIFY_FREE
          end in
        Some (set_node t a (with_notifiers n
                (if add_to_tail then node_notifiers n ++ [f] else f :: node_notifiers n)), 0).

Definition del_matches (fn events_ : Z) (cmp_userdata : bool) (user_data_ : Z) (f : qb_map_notifier) : bool :=
  (events f =? events_) && (callback f =? fn) && (negb cmp_userdata || (user_data f =? user_data_)).

Definition trie_notify_del (t : trie) (k : option map_key) (fn events_ : Z) (cmp_userdata : bool) (user_data_ : Z)
    : option (trie * Z) :=
  a ← match k with Some k => trie_lookup t k false | None => Some (header t) end;
  if a =? 0 then Some (t, - ENOENT)
  else
    n ← nodes t !! a;
    let matches := del_matches fn events_ cmp_userdata user_data_ in
    if existsb matches (node_notifiers n) then
      let t := set_node t a (with_notifiers n (List.filter (fun f => negb (matches f)) (node_notifiers n))) in
      t ← trie_node_release t a; Some (t, 0)
    else Some (t, - ENOENT).

(** ** Iterating *)

(** [malloc] of the iterator succeeds. *)
Definition trie_iter_create (t : trie) (prefix_ : option map_key) : trie * trie_iter :=
  (t, {| prefix := prefix_; iter_n := header t; iter_root := header t |}).

(** Where the iterator goes from the node [p]: the new [root] and [n]. *)
Definition iter_advance (t : trie) (si : trie_iter) (pn : trie_node) : option (Z * Z) :=
  let p := iter_n si in
  match prefix si with
  | Some pre =>
    if parent pn =? 0 then
      root ← trie_lookup t pre false;
      if root =? 0 then Some (root, 0)
      else
        rn ← nodes t !! root;
        if value rn =? 0 then n ← trie_node_next t root root false; Some (root, n)
        else Some (root, root)
    else n ← trie_node_next t p (iter_root si) false; Some (iter_root si, n)
  | None => n ← trie_node_next t p (iter_root si) false; Some (iter_root si, n)
  end.

Definition trie_iter_next (t : trie) (si : trie_iter)
    : option (trie * trie_iter * option (map_key * Z) * list notify_call) :=
  let p := iter_n si in
  if p =? 0 then Some (t, si, None, [])
  else
    pn ← nodes t !! p;
    '(root, n) ← iter_advance t si pn;
    let si := {| prefix := prefix si; iter_n := n; iter_root := root |} in
    if n =? 0 then
      '(t, calls) ← trie_node_deref t p;
      Some (t, si, None, calls)
    else
      t ← trie_node_ref t n;
      '(t, calls) ← trie_node_deref t p;
      nn ← nodes t !! n;
      Some (t, si, (fun k => (k, value nn)) <$> key nn, calls).

Definition trie_iter_free (t : trie) (si : trie_iter) : option (trie * list notify_call) :=
  if negb (iter_n si =? 0) then trie_node_deref t (iter_n si) else Some (t, []).

(** ** Creating and destroying *)

Fixpoint destroy_loop (fuel : nat) (t : trie) (cur_node : Z) : option (trie * list notify_call) :=
  match fuel with
  | O => None
  | S fuel' =>
    fwd_node ← trie_node_next t cur_node (header t) false;
    '(t, calls) ← trie_node_destroy t cur_node;
    if fwd_node =? 0 then Some (t, calls)
    else '(t, calls') ← destroy_loop fuel' t fwd_node; Some (t, calls ++ calls')
  end.

(** The calls of notifiers, with the nodes that are left when the trie itself is
    freed. *)
Definition trie_destroy (t : trie) : option (trie * list notify_call) := destroy_loop (walk_fuel t) t (header t).

(** A failed allocation of the header leaves it NULL, as the code does.  [None] is
    a failed [malloc]. *)
Definition qb_trie_create (alloc_ok : bool) (fails : list bool) : option trie :=
  if negb alloc_ok then None
  else
    let t := {| length_ := 0; num_nodes := 0; mem_used := sizeof_trie; header := 0; nodes := ∅; next_address := 1;
                alloc_fails := fails |} in
    let '(t, h) := trie_new_node t 0 in
    Some (with_header t h).

(** ** The function table

    The state is [None] after a fault; a fault ends the program. *)

Definition run_fault {R} (t : option trie) (none : R) (f : trie -> option (trie * R)) : option trie * R :=
  match t with
  | Some t => match f t with Some (t, r) => (Some t, r) | None => (None, none) end
  | None => (None, none)
  end.

(** The trie has an allocator of its own and does not use the address that the
    table gives to [put]. *)
Definition trie_map : qb_map (option trie) trie_iter :=
  {| put t k v _ := run_fault t [] (fun t => trie_put t k v);
     get t k := default 0 (t ← t; trie_get t k);
     rm t k := let '(t, (r, calls)) := run_fault t (QB_FALSE, [])
                 (fun t => '(t, r, calls) ← trie_rm t k; Some (t, (r, calls))) in (t, r, calls);
     count_get t := default 0 (trie_count_get <$> t);
     destroy t := default [] (t ← t; snd <$> trie_destroy t);
     iter_create t prefix_ := run_fault t {| prefix := None; iter_n := 0; iter_root := 0 |}
                                (fun t => Some (trie_iter_create t prefix_));
     iter_next t si := t ← t; '(t, si, kv, calls) ← trie_iter_next t si; Some (Some t, si, kv, calls);
     iter_free t si := run_fault t [] (fun t => trie_iter_free t si);
     notify_add := Some (fun t k fn ev ud e => run_fault t 0 (fun t => trie_notify_add t k fn ev ud e));
     notify_del := Some (fun t k fn ev c ud => run_fault t 0 (fun t => trie_notify_del t k fn ev c ud)) |}.
