(* ===== verification/TrieShape.v ===== *)
(** * Trie: shape and positions

    [bp a] is the string that leads to the node [a]: the characters of the
    segments and indices above it, and the one it was entered by.  The invariant
    [trie_shape] ties parents, arrays of children and these strings together.  A
    position is a node with a number of characters of its segment; every string
    leads to one position at most, which is what searching computes. *)
From S2P Require Import Prelude Map Trie.

Definition is_byte (c : Z) : Prop := 0 <= c < 256.

(** The characters of keys and segments; a node can also be entered by a NUL. *)
Definition is_char (c : Z) : Prop := 0 < c < 256.

Lemma is_char_byte c : is_char c -> is_byte c.
Proof. unfold is_char, is_byte. lia. Qed.

Lemma chars_bytes k : Forall is_char k -> Forall is_byte k.
Proof. intros H. eapply list.Forall_impl; [exact H|]. apply is_char_byte. Qed.

Lemma index_range c : 0 <= TRIE_CHAR2INDEX c < 256.
Proof. unfold TRIE_CHAR2INDEX, schar. pose proof (Z.mod_pos_bound (c + 128) 256 ltac:(lia)). lia. Qed.

Lemma index_inj c d : is_byte c -> is_byte d -> TRIE_CHAR2INDEX c = TRIE_CHAR2INDEX d -> c = d.
Proof.
  unfold is_byte, TRIE_CHAR2INDEX, schar. intros Hc Hd H.
  assert (E : (c + 128) mod 256 = (d + 128) mod 256) by lia.
  rewrite <- (Z.mod_small c 256), <- (Z.mod_small d 256) by lia.
  replace c with (c + 128 - 128) by lia. replace d with (d + 128 - 128) by lia.
  rewrite Zminus_mod, E, <- Zminus_mod. done.
Qed.

(** ** The invariant *)

Record trie_shape (t : trie) (bp : Z -> list Z) : Prop := {
  sh_header : exists h, nodes t !! header t = Some h /\ parent h = 0 /\ segment h = [] /\ value h = 0;
  sh_bp_header : bp (header t) = [];
  sh_addr a n : nodes t !! a = Some n -> 0 < a < next_address t;
  sh_array a n : nodes t !! a = Some n -> zlen (children n) = num_children n;
  sh_bytes a n : nodes t !! a = Some n -> Forall is_char (segment n);
  sh_up a n : nodes t !! a = Some n -> a <> header t ->
    exists p c, nodes t !! parent n = Some p /\ is_byte c /\ idx n = TRIE_CHAR2INDEX c /\
      children p !! Z.to_nat (idx n) = Some a /\ bp a = bp (parent n) ++ segment p ++ [c];
  sh_down a n i c : nodes t !! a = Some n -> children n !! i = Some c -> c <> 0 ->
    exists m, nodes t !! c = Some m /\ parent m = a /\ idx m = Z.of_nat i /\ c <> header t;
}.

(** The string at the end of a node. *)
Definition full (bp : Z -> list Z) (a : Z) (n : trie_node) : list Z := bp a ++ segment n.

(** ** Positions *)

Definition at_pos (t : trie) (bp : Z -> list Z) (a : Z) (s : nat) (x : list Z) : Prop :=
  exists n, nodes t !! a = Some n /\ (s <= length (segment n))%nat /\ x = bp a ++ take s (segment n).

Section Positions.
Context (t : trie) (bp : Z -> list Z) (Hsh : trie_shape t bp).

Lemma at_full a n : nodes t !! a = Some n -> at_pos t bp a (length (segment n)) (full bp a n).
Proof. intros H. exists n. split_and!; [done|done|]. unfold full. by rewrite firstn_all. Qed.

Lemma at_header : at_pos t bp (header t) 0 [].
Proof. destruct (sh_header _ _ Hsh) as (h & E & _). exists h. split_and!; [done|lia|]. by rewrite (sh_bp_header _ _ Hsh). Qed.

Lemma bp_nonempty a n : nodes t !! a = Some n -> a <> header t -> bp a <> [].
Proof. intros H Ha. destruct (sh_up _ _ Hsh a n H Ha) as (p & c & _ & _ & _ & _ & ->). by destruct (bp (parent n)), (segment p). Qed.

(** The position before the last character. *)
Lemma at_pred a s x c :
  at_pos t bp a s (x ++ [c]) ->
  (exists s', s = S s' /\ at_pos t bp a s' x /\ exists n, nodes t !! a = Some n /\ segment n !! s' = Some c) \/
  (s = 0%nat /\ exists p pn, nodes t !! p = Some pn /\ at_pos t bp p (length (segment pn)) x /\ is_byte c /\
     children pn !! Z.to_nat (TRIE_CHAR2INDEX c) = Some a).
Proof.
  intros (n & Hn & Hs & E). destruct s as [|s].
  - right. split; [done|]. rewrite take_0, app_nil_r in E.
    destruct (decide (a = header t)) as [->|Ha].
    { rewrite (sh_bp_header _ _ Hsh) in E. by destruct x. }
    destruct (sh_up _ _ Hsh a n Hn Ha) as (p & d & Hp & Hd & Hi & Hc & Eb). rewrite Eb, app_assoc in E.
    apply app_inj_tail in E as [-> ->]. exists (parent n), p. rewrite <- Hi. split_and!; try done. by apply at_full.
  - left. exists s. split; [done|].
    destruct (lookup_lt_is_Some_2 (segment n) s) as [d Hd]; [lia|].
    rewrite (take_S_r _ _ _ Hd), app_assoc in E. apply app_inj_tail in E as [-> ->].
    split; [exists n; split_and!; [done|lia|done]|eauto].
Qed.

(** A string leads to one position at most. *)
Lemma at_unique x : forall a s b s', at_pos t bp a s x -> at_pos t bp b s' x -> a = b /\ s = s'.
Proof.
  induction x as [|c x IH] using rev_ind; intros a s b s' Ha Hb.
  - assert (Hz : forall a s, at_pos t bp a s [] -> a = header t /\ s = 0%nat).
    { clear - Hsh. intros a s (n & Hn & Hs & E). destruct (decide (a = header t)) as [->|Hne].
      - destruct (sh_header _ _ Hsh) as (h & Eh & _ & Es & _). rewrite Hn in Eh. injection Eh as ->. rewrite Es in Hs. cbn in Hs.
        split; [done|lia].
      - symmetry in E. apply app_nil in E as [E _]. by destruct (bp_nonempty a n Hn Hne). }
    apply Hz in Ha as [-> ->], Hb as [-> ->]. done.
  - destruct (at_pred _ _ _ _ Ha) as [(s1 & -> & H1 & n1 & Hn1 & Hc1)|(-> & p & pn & Hp & H1 & Hc1 & Hch1)];
      destruct (at_pred _ _ _ _ Hb) as [(s2 & -> & H2 & n2 & Hn2 & Hc2)|(-> & q & qn & Hq & H2 & Hc2 & Hch2)];
      destruct (IH _ _ _ _ H1 H2) as [-> E].
    + by subst.
    + rewrite Hq in Hn1. injection Hn1 as <-. subst. apply lookup_lt_Some in Hc1. lia.
    + rewrite Hp in Hn2. injection Hn2 as <-. subst. apply lookup_lt_Some in Hc2. lia.
    + rewrite Hp in Hq. injection Hq as <-. rewrite Hch1 in Hch2. by injection Hch2 as ->.
Qed.

Lemma full_inj a b n m : nodes t !! a = Some n -> nodes t !! b = Some m -> full bp a n = full bp b m -> a = b.
Proof.
  intros Ha Hb E. assert (H : at_pos t bp b (length (segment m)) (full bp a n)) by (rewrite E; by apply at_full).
  exact (proj1 (at_unique _ _ _ _ _ (at_full a n Ha) H)).
Qed.

(** What comes after a position. *)
Lemma at_succ a s x b s' c :
  at_pos t bp a s x -> at_pos t bp b s' (x ++ [c]) ->
  exists n, nodes t !! a = Some n /\
    ((b = a /\ s' = S s /\ segment n !! s = Some c) \/
     (s' = 0%nat /\ s = length (segment n) /\ is_byte c /\ children n !! Z.to_nat (TRIE_CHAR2INDEX c) = Some b)).
Proof.
  intros Ha Hb. destruct (at_pred _ _ _ _ Hb) as [(s1 & -> & H1 & n & Hn & Hc)|(-> & p & pn & Hp & H1 & Hc & Hch)];
    destruct (at_unique _ _ _ _ _ Ha H1) as [-> ->]; eauto 10.
Qed.

(** Positions are closed under prefixes. *)
Lemma at_prefix x y b s : at_pos t bp b s (x ++ y) -> exists a s', at_pos t bp a s' x.
Proof.
  revert b s. induction y as [|c y IH] using rev_ind; intros b s H.
  - rewrite app_nil_r in H. eauto.
  - rewrite app_assoc in H. destruct (at_pred _ _ _ _ H) as [(s1 & -> & H1 & _)|(-> & p & pn & _ & H1 & _)]; eauto.
Qed.

(** A node at or above a node that its position leads to. *)
Lemma prefix_full a s x n b m :
  at_pos t bp a s x -> nodes t !! a = Some n -> nodes t !! b = Some m ->
  x `prefix_of` full bp b m -> full bp a n `prefix_of` full bp b m.
Proof.
  intros Ha Hn. remember (length (full bp b m)) as len eqn:El. revert b m El.
  induction (lt_wf len) as [len _ IH]. intros b m El Hm Hx.
  destruct (decide (length (bp b) <= length x)%nat) as [Hl|Hl].
  - assert (Hb : at_pos t bp b (length x - length (bp b)) x).
    { destruct Hx as [y Ey]. exists m. split_and!; [done| |].
      - unfold full in Ey. assert (E := f_equal length Ey). rewrite !length_app in E. lia.
      - unfold full in Ey. assert (E : take (length x) (bp b ++ segment m) = x) by (rewrite Ey; apply take_app_length).
        rewrite <- E at 1. by rewrite take_app, take_ge by lia. }
    destruct (at_unique _ _ _ _ _ Ha Hb) as [-> _]. rewrite Hm in Hn. by injection Hn as <-.
  - destruct (decide (b = header t)) as [->|Hh]; [rewrite (sh_bp_header _ _ Hsh) in Hl; cbn in Hl; lia|].
    destruct (sh_up _ _ Hsh b m Hm Hh) as (p & c & Hp & _ & _ & _ & Eb).
    assert (Hxp : x `prefix_of` full bp (parent m) p).
    { destruct Hx as [y Ey]. unfold full in *. rewrite Eb in Ey, Hl. rewrite !length_app in Hl. cbn in Hl.
      exists (take (length (bp (parent m) ++ segment p) - length x) y).
      assert (E := f_equal (take (length (bp (parent m) ++ segment p))) Ey).
      rewrite app_assoc, <- (app_assoc _ [c]), take_app_length, take_app, (take_ge x) in E; [done|].
      rewrite length_app. lia. }
    transitivity (full bp (parent m) p).
    + eapply IH; [|reflexivity|done|done]. subst len. unfold full. rewrite Eb, !length_app. cbn. lia.
    + unfold full. rewrite Eb. exists (c :: segment m). by rewrite <- !app_assoc.
Qed.
End Positions.

(** ** Searching *)

Section Search.
Context (t : trie) (bp : Z -> list Z) (Hsh : trie_shape t bp).

Lemma node_nonzero a n : nodes t !! a = Some n -> a <> 0.
Proof. intros H. pose proof (sh_addr _ _ Hsh a n H). lia. Qed.

Lemma at_nonzero a s x : at_pos t bp a s x -> a <> 0.
Proof. intros (n & H & _). by eapply node_nonzero. Qed.

(** A cell of the array of children. *)
Lemma child_cell a n ch c :
  nodes t !! a = Some n -> is_byte ch -> children n !! Z.to_nat (TRIE_CHAR2INDEX ch) = Some c -> c <> 0 ->
  exists m, nodes t !! c = Some m /\ parent m = a /\ idx m = TRIE_CHAR2INDEX ch /\ c <> header t /\
    bp c = full bp a n ++ [ch].
Proof.
  intros Hn Hb Hc Hc0. destruct (sh_down _ _ Hsh a n _ c Hn Hc Hc0) as (m & Hm & Hp & Hi & Hh).
  pose proof (index_range ch). destruct (sh_up _ _ Hsh c m Hm Hh) as (p & d & Hpn & Hd & Hi' & _ & Eb).
  rewrite Hp, Hn in Hpn. injection Hpn as <-. rewrite Z2Nat.id in Hi by lia.
  assert (d = ch) as -> by (apply index_inj; [done..|congruence]).
  exists m. split_and!; try done. by rewrite Eb, Hp, app_assoc.
Qed.

(** The child for a character, as the code reads it. *)
Lemma child_lookup a n ch :
  nodes t !! a = Some n -> is_byte ch ->
  exists c, (if TRIE_CHAR2INDEX ch <? num_children n then children n !! Z.to_nat (TRIE_CHAR2INDEX ch) else Some 0) = Some c /\
    (c <> 0 -> children n !! Z.to_nat (TRIE_CHAR2INDEX ch) = Some c /\ at_pos t bp c 0 (full bp a n ++ [ch])) /\
    (c = 0 -> forall b s, ~ at_pos t bp b s (full bp a n ++ [ch])).
Proof.
  intros Hn Hb. pose proof (index_range ch) as Hr. pose proof (sh_array _ _ Hsh a n Hn) as Harr.
  assert (Hnone : forall b s, at_pos t bp b s (full bp a n ++ [ch]) ->
            children n !! Z.to_nat (TRIE_CHAR2INDEX ch) = Some b /\ b <> 0).
  { intros b s H. destruct (at_succ t bp Hsh _ _ _ _ _ _ (at_full t bp a n Hn) H) as (n' & Hn' & Hcase).
    rewrite Hn in Hn'. injection Hn' as <-. destruct Hcase as [(-> & -> & Hseg)|(-> & _ & _ & Hc)].
    - apply lookup_lt_Some in Hseg. lia.
    - split; [done|]. by eapply at_nonzero. }
  destruct (Z.ltb_spec (TRIE_CHAR2INDEX ch) (num_children n)) as [Hlt|Hge].
  - destruct (lookup_lt_is_Some_2 (children n) (Z.to_nat (TRIE_CHAR2INDEX ch))) as [c Hc]; [unfold zlen in Harr; lia|].
    exists c. split_and!; [done| |].
    + intros Hc0. split; [done|]. destruct (child_cell a n ch c Hn Hb Hc Hc0) as (m & Hm & _ & _ & _ & Eb).
      exists m. split_and!; [done|lia|]. by rewrite take_0, app_nil_r.
    + intros -> b s H. destruct (Hnone b s H). congruence.
  - exists 0. split_and!; [done|done|]. intros _ b s H. destruct (Hnone b s H) as [H1 _].
    apply lookup_lt_Some in H1. unfold zlen in Harr. lia.
Qed.

(** Within a segment there is one way on. *)
Lemma in_segment a n s x ch b s' :
  nodes t !! a = Some n -> at_pos t bp a s x -> (s < length (segment n))%nat ->
  at_pos t bp b s' (x ++ [ch]) -> segment n !! s = Some ch.
Proof.
  intros Hn Ha Hs Hb. destruct (at_succ t bp Hsh _ _ _ _ _ _ Ha Hb) as (n' & Hn' & Hcase).
  rewrite Hn in Hn'. injection Hn' as <-. destruct Hcase as [(_ & _ & ?)|(_ & -> & _)]; [done|lia].
Qed.

Lemma at_next a n s x ch :
  nodes t !! a = Some n -> at_pos t bp a s x -> segment n !! s = Some ch -> at_pos t bp a (S s) (x ++ [ch]).
Proof.
  intros Hn (n' & Hn' & Hs & ->) Hc. rewrite Hn in Hn'. injection Hn' as <-. exists n. split_and!; [done| |].
  - apply lookup_lt_Some in Hc. lia.
  - by rewrite (take_S_r _ _ _ Hc), app_assoc.
Qed.

Lemma at_end a n s x : nodes t !! a = Some n -> at_pos t bp a s x -> ~ (s < length (segment n))%nat ->
  s = length (segment n) /\ x = full bp a n.
Proof.
  intros Hn (n' & Hn' & Hs & ->) Hlt. rewrite Hn in Hn'. injection Hn' as <-. split; [lia|]. unfold full. by rewrite take_ge by lia.
Qed.

Lemma lookup_loop_spec rest : forall ch a s x,
  at_pos t bp a s x -> is_byte ch -> Forall is_byte rest ->
  exists b s', lookup_loop t a (Z.of_nat s) ch rest = Some (b, Z.of_nat s') /\
    (b <> 0 -> at_pos t bp b s' (x ++ ch :: rest)) /\
    (b = 0 -> forall c s, ~ at_pos t bp c s (x ++ ch :: rest)).
Proof.
  induction rest as [|d rest IH]; intros ch a s x Ha Hch Hrest; destruct Ha as (n & Hn & Hs & Ex);
    assert (Ha : at_pos t bp a s x) by (by exists n); cbn [lookup_loop]; rewrite Hn; cbn [mbind option_bind].
  all: assert (Hlong : forall y, (forall b s', ~ at_pos t bp b s' (x ++ [ch])) -> forall b s', ~ at_pos t bp b s' (x ++ ch :: y))
      by (intros y H b s' Hb; change (ch :: y) with ([ch] ++ y) in Hb; rewrite app_assoc in Hb;
          destruct (at_prefix t bp Hsh _ _ _ _ Hb) as (? & ? & ?); by eapply H).
  all: assert (Hif : (0 <? zlen (segment n)) && (Z.of_nat s <? zlen (segment n)) = bool_decide (s < length (segment n))%nat)
      by (unfold zlen; case_bool_decide; apply eq_true_iff_eq; rewrite ?andb_true_iff, ?Z.ltb_lt; split; intros; first [lia|done]).
  all: rewrite Hif; case_bool_decide as Hlt.
  1, 3: destruct (lookup_lt_is_Some_2 (segment n) s Hlt) as [c Hc]; rewrite Nat2Z.id, Hc; cbn [mbind option_bind];
    destruct (Z.eqb_spec c ch) as [->|Hne]; cbn [mbind option_bind];
    [pose proof (at_next a n s x ch Hn Ha Hc) as Ha'; destruct (Z.eqb_spec a 0); [by apply node_nonzero in Hn|]
    |exists 0, 0%nat; split_and!; [done|done|]; intros _; apply Hlong; intros b s' Hb;
     pose proof (in_segment a n s x ch b s' Hn Ha Hlt Hb); congruence].
  3, 4: destruct (at_end a n s x Hn Ha Hlt) as [Es Ef]; destruct (child_lookup a n ch Hn Hch) as (c & -> & Hc & Hc0);
    cbn [mbind option_bind]; destruct (Z.eqb_spec c 0) as [->|Hne]; cbn [negb mbind option_bind];
    [exists 0, 0%nat; split_and!; [done|done|]; intros _; apply Hlong; rewrite Ef; by apply Hc0
    |destruct (Hc Hne) as [_ Hat]; destruct (Z.eqb_spec c 0); [done|]; rewrite <- Ef in Hat].
  - exists a, (S s). replace (Z.of_nat s + 1) with (Z.of_nat (S s)) by lia. done.
  - replace (Z.of_nat s + 1) with (Z.of_nat (S s)) by lia. apply list.Forall_cons in Hrest as [Hd Hrest].
    destruct (IH d a (S s) (x ++ [ch]) Ha' Hd Hrest) as (b & s' & E & H1 & H2). exists b, s'.
    rewrite <- app_assoc in H1, H2. done.
  - exists c, 0%nat. done.
  - apply list.Forall_cons in Hrest as [Hd Hrest].
    destruct (IH d c 0%nat (x ++ [ch]) Hat Hd Hrest) as (b & s' & E & H1 & H2). exists b, s'.
    rewrite <- app_assoc in H1, H2. done.
Qed.

(** The node that a search ends on; 0 when nothing leads there. *)
Lemma lookup_spec k exact_ :
  k <> [] -> Forall is_byte k ->
  exists b, trie_lookup t k exact_ = Some b /\
    (b <> 0 -> exists n s, nodes t !! b = Some n /\ at_pos t bp b s k /\ (exact_ = true -> full bp b n = k)) /\
    (b = 0 -> forall c n, nodes t !! c = Some n -> if exact_ then full bp c n <> k else forall s, ~ at_pos t bp c s k).
Proof.
  intros Hk Hb. destruct k as [|ch rest]; [done|]. apply list.Forall_cons in Hb as [Hch Hrest]. unfold trie_lookup.
  destruct (lookup_loop_spec rest ch _ _ _ (at_header t bp Hsh) Hch Hrest) as (b & s & E & H1 & H2).
  change (Z.of_nat 0) with 0 in E. rewrite E. cbn [mbind option_bind]. cbn [app] in H1, H2.
  destruct (Z.eqb_spec b 0) as [->|Hne].
  - exists 0. split_and!; [done|done|]. intros _ c n Hc. destruct exact_.
    + intros Ef. apply (H2 eq_refl c (length (segment n))). rewrite <- Ef. by apply at_full.
    + intros s'. by apply H2.
  - specialize (H1 Hne). destruct H1 as (n & Hn & Hs & Ek) eqn:Eat. clear Eat.
    assert (Hat : at_pos t bp b s (ch :: rest)) by (by exists n). rewrite Hn. cbn [mbind option_bind].
    destruct exact_; cbn [andb].
    2:{ exists b. split_and!; [done| |done]. intros _. by exists n, s. }
    case_match eqn:Eif.
    + exists 0. split_and!; [done|done|]. intros _ c m Hc Ef.
      apply andb_prop in Eif as [_ Hlt%Z.ltb_lt]. unfold zlen in Hlt.
      pose proof (at_full t bp c m Hc) as Hc'. rewrite Ef in Hc'.
      destruct (at_unique t bp Hsh _ _ _ _ _ Hat Hc') as [-> ->]. rewrite Hn in Hc. injection Hc as <-. lia.
    + exists b. split_and!; [done| |done]. intros _. exists n, s. split_and!; [done..|]. intros _.
      destruct (at_end b n s _ Hn Hat) as [_ Ef]; [|done]. unfold zlen in Eif. intros Hlt.
      apply andb_false_iff in Eif as [H|H]; apply Z.ltb_ge in H; lia.
Qed.
End Search.
