(* ===== verification/TrieChange.v ===== *)
(** * Trie: changes of the shape

    Adding a child, extending the segment of a leaf, splitting a node, removing
    a leaf: each keeps the invariant of the shape. *)
From stdpp Require Import functions.
From S2P Require Import Prelude Map Trie TrieShape.

Section Changes.
Context (t t' : trie) (bp : Z -> list Z) (Hsh : trie_shape t bp) (Hhdr : header t' = header t).

(** ** Notes on parents *)

Lemma parent_ne a n : nodes t !! a = Some n -> a <> header t -> parent n <> a.
Proof.
  intros Hn Ha E. destruct (sh_up _ _ Hsh a n Hn Ha) as (p & c & _ & _ & _ & _ & Eb). rewrite E in Eb.
  apply (f_equal length) in Eb. rewrite !length_app in Eb. cbn in Eb. lia.
Qed.

Lemma fresh_node : nodes t !! next_address t = None.
Proof. destruct (nodes t !! next_address t) as [n|] eqn:E; [|done]. pose proof (sh_addr _ _ Hsh _ _ E). lia. Qed.

Lemma child_of a n i c : nodes t !! a = Some n -> children n !! i = Some c -> c <> 0 ->
  exists m, nodes t !! c = Some m /\ parent m = a /\ idx m = Z.of_nat i /\ c <> header t /\ c <> a.
Proof.
  intros Hn Hc Hc0. destruct (sh_down _ _ Hsh a n i c Hn Hc Hc0) as (m & Hm & Hp & Hi & Hh). exists m.
  split_and!; try done. intros ->. by apply (parent_ne a m Hm Hh).
Qed.

(** ** Nodes that keep their place

    A change that touches neither segments, indices, parents nor children. *)
Lemma shape_same :
  next_address t <= next_address t' ->
  (forall a, match nodes t !! a, nodes t' !! a with
             | Some n, Some m => idx m = idx n /\ segment m = segment n /\ children m = children n /\
                 num_children m = num_children n /\ parent m = parent n
             | None, None => True
             | _, _ => False
             end) ->
  (exists h, nodes t' !! header t = Some h /\ value h = 0) ->
  trie_shape t' bp.
Proof.
  intros Hna Hsame (h' & Hh' & Hv').
  assert (Hback : forall a m, nodes t' !! a = Some m -> exists n, nodes t !! a = Some n /\ idx m = idx n /\
     segment m = segment n /\ children m = children n /\ num_children m = num_children n /\ parent m = parent n).
  { intros a m Hm. specialize (Hsame a). rewrite Hm in Hsame. destruct (nodes t !! a); [|done]. eauto. }
  assert (Hforth : forall a n, nodes t !! a = Some n -> exists m, nodes t' !! a = Some m /\ idx m = idx n /\
     segment m = segment n /\ children m = children n /\ num_children m = num_children n /\ parent m = parent n).
  { intros a m Hm. specialize (Hsame a). rewrite Hm in Hsame. destruct (nodes t' !! a); [|done]. eauto. }
  split.
  - destruct (sh_header _ _ Hsh) as (h & Hh & Hp & Hs & Hv). destruct (Hforth _ _ Hh) as (m & Hm & _ & Es & _ & _ & Ep).
    rewrite Hhdr. exists m. rewrite Hh' in Hm. injection Hm as <-. split_and!; congruence.
  - rewrite Hhdr. apply (sh_bp_header _ _ Hsh).
  - intros a m (n & Hn & _)%Hback. pose proof (sh_addr _ _ Hsh a n Hn). lia.
  - intros a m (n & Hn & _ & _ & -> & -> & _)%Hback. by apply (sh_array _ _ Hsh a).
  - intros a m (n & Hn & _ & -> & _)%Hback. by apply (sh_bytes _ _ Hsh a).
  - intros a m (n & Hn & Ei & _ & _ & _ & Ep)%Hback Ha. rewrite Hhdr in Ha.
    destruct (sh_up _ _ Hsh a n Hn Ha) as (p & c & Hp & Hc & Hi & Hch & Eb).
    destruct (Hforth _ _ Hp) as (p' & Hp' & _ & Es & Ec & _ & _). exists p', c. rewrite Ei, Ep, Es, Ec. done.
  - intros a m i c (n & Hn & _ & _ & Ec & _)%Hback Hc Hc0. rewrite Ec in Hc.
    destruct (sh_down _ _ Hsh a n i c Hn Hc Hc0) as (x & Hx & Hp & Hi & Hh).
    destruct (Hforth _ _ Hx) as (x' & Hx' & Ei & _ & _ & _ & Ep). exists x'. rewrite Hhdr, Ei, Ep. done.
Qed.

(** ** A new child *)

Definition child_node (p ch : Z) : trie_node := with_idx (empty_node p) (TRIE_CHAR2INDEX ch).

(** [cs'] is the array [cs] with one more child at [i]. *)
Definition adds_cell (cs cs' : list Z) (i : nat) (c : Z) : Prop :=
  cs' !! i = Some c /\ (forall x, cs !! i = Some x -> x = 0) /\
  (forall j x, j <> i -> x <> 0 -> cs' !! j = Some x <-> cs !! j = Some x).

Lemma shape_add p pn ch cs num :
  nodes t !! p = Some pn -> is_byte ch ->
  adds_cell (children pn) cs (Z.to_nat (TRIE_CHAR2INDEX ch)) (next_address t) -> zlen cs = num ->
  next_address t < next_address t' ->
  nodes t' = <[p := with_children pn cs num]> (<[next_address t := child_node p ch]> (nodes t)) ->
  trie_shape t' (<[next_address t := full bp p pn ++ [ch]]> bp).
Proof.
  intros Hp Hb (Hcell & Hold & Hcells) Hlen Hna En. set (c := next_address t) in *.
  pose proof fresh_node as Hfr. fold c in Hfr. pose proof (sh_addr _ _ Hsh p pn Hp) as Hpa. fold c in Hpa.
  assert (Hcp : c <> p) by lia. pose proof (index_range ch) as Hir.
  assert (Hforth : forall a n, nodes t !! a = Some n -> a <> c /\ exists m, nodes t' !! a = Some m /\ idx m = idx n /\ parent m = parent n /\
     segment m = segment n /\ value m = value n /\ (a <> p -> m = n)).
  { intros a n Ha. split; [congruence|]. rewrite En. destruct (decide (a = p)) as [->|Hne].
    - rewrite Hp in Ha. injection Ha as <-. eexists. rewrite lookup_insert_eq. done.
    - exists n. rewrite !lookup_insert_ne by congruence. done. }
  assert (Hback : forall a m, nodes t' !! a = Some m -> (a = c /\ m = child_node p ch) \/ (a = p /\ m = with_children pn cs num) \/
     (a <> c /\ a <> p /\ nodes t !! a = Some m)).
  { intros a m. rewrite En. destruct (decide (a = p)) as [->|Hne].
    - rewrite lookup_insert_eq. intros [= <-]. auto.
    - rewrite lookup_insert_ne by congruence. destruct (decide (a = c)) as [->|Hne'].
      + rewrite lookup_insert_eq. intros [= <-]. auto.
      + rewrite lookup_insert_ne by congruence. auto. }
  assert (Hbp : forall a n, nodes t !! a = Some n -> (<[c := full bp p pn ++ [ch]]> bp) a = bp a).
  { intros a n Ha. apply fn_lookup_insert_ne. congruence. }
  split.
  - destruct (sh_header _ _ Hsh) as (h & Hh & Hph & Hs & Hv). destruct (Hforth _ _ Hh) as (_ & m & Hm & _ & Ep & Es & Ev & _).
    rewrite Hhdr. exists m. split_and!; congruence.
  - rewrite Hhdr. destruct (sh_header _ _ Hsh) as (h & Hh & _). rewrite (Hbp _ _ Hh). apply (sh_bp_header _ _ Hsh).
  - intros a m [(-> & ->)|[(-> & ->)|(_ & _ & Hm)]]%Hback; [lia..|]. pose proof (sh_addr _ _ Hsh a m Hm). fold c in H. lia.
  - intros a m [(-> & ->)|[(-> & ->)|(_ & _ & Hm)]]%Hback; [done|done|]. by apply (sh_array _ _ Hsh a).
  - intros a m [(-> & ->)|[(-> & ->)|(_ & _ & Hm)]]%Hback; [exact (List.Forall_nil _)|exact (sh_bytes _ _ Hsh p pn Hp)|]. by apply (sh_bytes _ _ Hsh a).
  - rewrite Hhdr. intros a m Hm Ha. apply Hback in Hm as [(-> & ->)|Hm].
    { exists (with_children pn cs num), ch. cbn. rewrite En, lookup_insert_eq, fn_lookup_insert, (Hbp _ _ Hp). unfold full.
      rewrite <- app_assoc. done. }
    assert (Hm' : exists n, nodes t !! a = Some n /\ idx m = idx n /\ parent m = parent n).
    { destruct Hm as [(-> & ->)|(_ & _ & Hm)]; eauto. }
    destruct Hm' as (n & Hn & Ei & Ep). destruct (sh_up _ _ Hsh a n Hn Ha) as (q & d & Hq & Hd & Hi & Hch & Eb).
    destruct (Hforth _ _ Hq) as (_ & q' & Hq' & _ & _ & Es & _ & Hqq). exists q', d. rewrite Ep, Ei, Es, (Hbp _ _ Hn), (Hbp _ _ Hq).
    split_and!; try done. destruct (decide (parent n = p)) as [E|E]; [|by rewrite Hqq].
    rewrite E, Hp in Hq. injection Hq as <-. rewrite E, En, lookup_insert_eq in Hq'. injection Hq' as <-. cbn.
    pose proof (sh_addr _ _ Hsh a n Hn). apply Hcells; [|lia|done]. intros Ej. rewrite Ej in Hch. apply Hold in Hch. lia.
  - rewrite Hhdr. intros a m i x Hm Hx Hx0.
    assert (Hcase : (a = p /\ i = Z.to_nat (TRIE_CHAR2INDEX ch) /\ x = c) \/ exists n, nodes t !! a = Some n /\ children n !! i = Some x).
    { apply Hback in Hm as [(-> & ->)|[(-> & ->)|(_ & _ & Hm)]]; [done| |eauto]. cbn in Hx.
      destruct (decide (i = Z.to_nat (TRIE_CHAR2INDEX ch))) as [->|Hne].
      - left. rewrite Hcell in Hx. by injection Hx as <-.
      - right. exists pn. split; [done|]. by apply Hcells in Hx. }
    destruct Hcase as [(-> & -> & ->)|(n & Hn & Hx')].
    + exists (child_node p ch). rewrite En, lookup_insert_ne, lookup_insert_eq by done. split_and!; [done|done|cbn; lia|].
      destruct (sh_header _ _ Hsh) as (h & Hh & _). congruence.
    + destruct (sh_down _ _ Hsh a n i x Hn Hx' Hx0) as (y & Hy & Hpy & Hiy & Hhy).
      destruct (Hforth _ _ Hy) as (_ & y' & Hy' & Ei & Ep & _). exists y'. rewrite Ei, Ep. done.
Qed.

(** ** A longer segment *)

Lemma shape_extend a n ch :
  nodes t !! a = Some n -> a <> header t -> children n = [] -> is_char ch ->
  next_address t <= next_address t' ->
  nodes t' = <[a := with_segment n (segment n ++ [ch])]> (nodes t) ->
  trie_shape t' bp.
Proof.
  intros Hn Ha Hch Hb Hna En.
  assert (Hback : forall x m, nodes t' !! x = Some m -> exists n', nodes t !! x = Some n' /\ idx m = idx n' /\
     children m = children n' /\ num_children m = num_children n' /\ parent m = parent n' /\ value m = value n' /\
     (x <> a -> m = n') /\ Forall is_char (segment m)).
  { intros x m Hm. rewrite En in Hm. destruct (decide (x = a)) as [->|Hne].
    - rewrite lookup_insert_eq in Hm. injection Hm as <-. exists n. split_and!; try done. cbn. apply Forall_app_2.
      + by apply (sh_bytes _ _ Hsh a).
      + by constructor.
    - rewrite lookup_insert_ne in Hm by done. exists m. split_and!; try done. by apply (sh_bytes _ _ Hsh x). }
  assert (Hforth : forall x n', nodes t !! x = Some n' -> exists m, nodes t' !! x = Some m /\ idx m = idx n' /\ parent m = parent n' /\
     (x <> a -> m = n')).
  { intros x n' Hx. rewrite En. destruct (decide (x = a)) as [->|Hne].
    - rewrite Hn in Hx. injection Hx as <-. eexists. rewrite lookup_insert_eq. done.
    - exists n'. rewrite lookup_insert_ne by congruence. done. }
  split.
  - destruct (sh_header _ _ Hsh) as (h & Hh & Hp & Hs & Hv). destruct (Hforth _ _ Hh) as (m & Hm & _ & _ & Hmn).
    rewrite Hhdr. exists m. rewrite Hmn by done. rewrite Hmn in Hm by done. done.
  - rewrite Hhdr. apply (sh_bp_header _ _ Hsh).
  - intros x m (n' & Hx & _)%Hback. pose proof (sh_addr _ _ Hsh x n' Hx). lia.
  - intros x m (n' & Hx & _ & -> & -> & _)%Hback. by apply (sh_array _ _ Hsh x).
  - intros x m (n' & _ & _ & _ & _ & _ & _ & _ & H)%Hback. done.
  - rewrite Hhdr. intros x m (n' & Hx & Ei & _ & _ & Ep & _)%Hback Hxh.
    destruct (sh_up _ _ Hsh x n' Hx Hxh) as (q & d & Hq & Hd & Hi & Hc & Eb).
    assert (Hqa : parent n' <> a).
    { intros E. rewrite E, Hn in Hq. injection Hq as <-. by rewrite Hch in Hc. }
    destruct (Hforth _ _ Hq) as (q' & Hq' & _ & _ & Hqq). exists q, d. rewrite <- (Hqq Hqa), Ei, Ep in *. done.
  - rewrite Hhdr. intros x m i c (n' & Hx & _ & Ec & _)%Hback Hc Hc0. rewrite Ec in Hc.
    destruct (sh_down _ _ Hsh x n' i c Hx Hc Hc0) as (y & Hy & Hpy & Hiy & Hhy).
    destruct (Hforth _ _ Hy) as (y' & Hy' & Ei & Ep & _). exists y'. rewrite Ei, Ep. done.
Qed.

(** ** A split

    The new node [b] takes the rest of the segment behind the character [ch], the
    children and their parent pointers. *)
Definition adopt (b : Z) (cs : list Z) (x : Z) (n : trie_node) : trie_node :=
  if decide (x ∈ cs) then with_parent n b else n.

Record splits (a : Z) (cn : trie_node) (s : nat) (ch : Z) (cn' sn' : trie_node) : Prop := {
  sp_cur : nodes t' !! a = Some cn';
  sp_new : nodes t' !! next_address t = Some sn';
  sp_rest x : x <> a -> x <> next_address t -> nodes t' !! x = adopt (next_address t) (children cn) x <$> nodes t !! x;
  sp_idx : idx cn' = idx cn /\ idx sn' = TRIE_CHAR2INDEX ch;
  sp_parent : parent cn' = parent cn /\ parent sn' = a;
  sp_segment : segment cn' = take s (segment cn) /\ segment sn' = drop (S s) (segment cn);
  sp_children : children sn' = children cn /\ num_children sn' = num_children cn;
  sp_cell : adds_cell [] (children cn') (Z.to_nat (TRIE_CHAR2INDEX ch)) (next_address t);
  sp_num : zlen (children cn') = num_children cn';
}.

Lemma shape_split a cn s ch cn' sn' :
  nodes t !! a = Some cn -> segment cn !! s = Some ch -> next_address t < next_address t' ->
  splits a cn s ch cn' sn' ->
  trie_shape t' (<[next_address t := bp a ++ take s (segment cn) ++ [ch]]> bp).
Proof.
  intros Hn Hseg Hna [Hcur Hnew Hrest [Hi1 Hi2] [Hp1 Hp2] [Hs1 Hs2] [Hc1 Hc2] (Hcell & _ & Hcells) Hnum].
  set (b := next_address t) in *. pose proof fresh_node as Hfr. fold b in Hfr.
  assert (Hseg' : segment cn = take s (segment cn) ++ ch :: drop (S s) (segment cn)).
  { by rewrite take_drop_middle. }
  pose proof (sh_bytes _ _ Hsh a cn Hn) as Hby. assert (Hb : is_byte ch) by (apply is_char_byte; by eapply Forall_lookup_1).
  assert (Hah : a <> header t).
  { intros ->. destruct (sh_header _ _ Hsh) as (h & Hh & _ & Es & _). rewrite Hn in Hh. injection Hh as <-. by rewrite Es in Hseg. }
  assert (Hab : a <> b) by congruence. pose proof (index_range ch) as Hir.
  assert (Hbp : forall x n, nodes t !! x = Some n -> (<[b := bp a ++ take s (segment cn) ++ [ch]]> bp) x = bp x).
  { intros x n Hx. apply fn_lookup_insert_ne. congruence. }
  assert (Hold : forall x n, nodes t !! x = Some n -> exists m, nodes t' !! x = Some m /\ idx m = idx n /\
     (x <> a -> segment m = segment n /\ children m = children n /\ num_children m = num_children n /\ value m = value n /\
                m = adopt b (children cn) x n)).
  { intros x n Hx. destruct (decide (x = a)) as [->|Hxa].
    - rewrite Hn in Hx. injection Hx as <-. exists cn'. done.
    - exists (adopt b (children cn) x n). rewrite Hrest, Hx by congruence. unfold adopt. case_decide; done. }
  assert (Hkid : forall x n, nodes t !! x = Some n -> x <> header t -> x ∈ children cn <-> parent n = a).
  { intros x n Hx Hxh. split.
    - intros [i Hi]%list_elem_of_lookup. destruct (child_of a cn i x Hn Hi) as (m & Hm & Hp & _); [by eapply node_nonzero|].
      congruence.
    - intros E. destruct (sh_up _ _ Hsh x n Hx Hxh) as (q & d & Hq & _ & _ & Hc & _). rewrite E, Hn in Hq. injection Hq as <-.
      by eapply list_elem_of_lookup_2. }
  split.
  - destruct (sh_header _ _ Hsh) as (h & Hh & Hp & Hs & Hv). rewrite Hhdr. destruct (Hold _ _ Hh) as (m & Hm & _ & Hmm).
    destruct (Hmm ltac:(done)) as (Es & _ & _ & Ev & Em). exists m. split_and!; [done| |congruence..].
    rewrite Em. unfold adopt. case_decide as Hk; [|done].
    apply list_elem_of_lookup in Hk as [i Hk]. destruct (child_of a cn i (header t) Hn Hk) as (_ & _ & _ & _ & ? & _); [|done].
    by eapply node_nonzero.
  - rewrite Hhdr. destruct (sh_header _ _ Hsh) as (h & Hh & _). rewrite (Hbp _ _ Hh). apply (sh_bp_header _ _ Hsh).
  - intros x m Hm. pose proof (sh_addr _ _ Hsh a cn Hn) as Ha. fold b in Ha. destruct (decide (x = b)) as [->|Hxb]; [lia|].
    destruct (decide (x = a)) as [->|Hxa]; [lia|]. rewrite Hrest in Hm by done.
    apply fmap_Some in Hm as (n & Hx & _). pose proof (sh_addr _ _ Hsh x n Hx). fold b in H. lia.
  - intros x m Hm. destruct (decide (x = a)) as [->|Hxa]; [rewrite Hcur in Hm; by injection Hm as <-|].
    destruct (decide (x = b)) as [->|Hxb].
    { rewrite Hnew in Hm. injection Hm as <-. rewrite Hc1, Hc2. by apply (sh_array _ _ Hsh a). }
    rewrite Hrest in Hm by done. apply fmap_Some in Hm as (n & Hx & ->). pose proof (sh_array _ _ Hsh x n Hx).
    unfold adopt. by case_decide.
  - intros x m Hm. rewrite Hseg' in Hby. apply list.Forall_app in Hby as [Hby1 [_ Hby2]%list.Forall_cons].
    destruct (decide (x = a)) as [->|Hxa]; [rewrite Hcur in Hm; injection Hm as <-; by rewrite Hs1|].
    destruct (decide (x = b)) as [->|Hxb]; [rewrite Hnew in Hm; injection Hm as <-; by rewrite Hs2|].
    rewrite Hrest in Hm by done. apply fmap_Some in Hm as (n & Hx & ->). pose proof (sh_bytes _ _ Hsh x n Hx).
    unfold adopt. by case_decide.
  - rewrite Hhdr. intros x m Hm Hxh. destruct (decide (x = b)) as [->|Hxb].
    { rewrite Hnew in Hm. injection Hm as <-. exists cn', ch. rewrite Hp2, Hi2, fn_lookup_insert, (Hbp _ _ Hn), Hs1. done. }
    assert (Hx : exists n, nodes t !! x = Some n /\ idx m = idx n /\ (parent n <> a -> parent m = parent n) /\
       (parent n = a -> parent m = b)).
    { destruct (decide (x = a)) as [->|Hxa].
      - rewrite Hcur in Hm. injection Hm as <-. exists cn. split_and!; try done. by intros ?%(parent_ne a cn Hn Hah).
      - rewrite Hrest in Hm by done. apply fmap_Some in Hm as (n & Hx & ->). exists n. specialize (Hkid x n Hx Hxh).
        unfold adopt. case_decide as Hk; split_and!; try done; by intros ?%Hkid || (by apply Hkid in Hk). }
    destruct Hx as (n & Hx & Ei & Ep1 & Ep2). destruct (sh_up _ _ Hsh x n Hx Hxh) as (q & d & Hq & Hd & Hi & Hc & Eb).
    rewrite (Hbp _ _ Hx), Ei, Eb. destruct (decide (parent n = a)) as [E|E].
    + rewrite E, Hn in Hq. injection Hq as <-. exists sn', d. rewrite (Ep2 E), Hc1, Hs2, fn_lookup_insert, E. split_and!; try done.
      rewrite Hseg' at 1. by rewrite <- !app_assoc.
    + destruct (Hold _ _ Hq) as (q' & Hq' & _ & Hqq). destruct (Hqq E) as (Es & Ec & _). exists q', d.
      rewrite (Ep1 E), Es, Ec, (Hbp _ _ Hq). done.
  - rewrite Hhdr. intros x m i c Hm Hc Hc0.
    assert (Hcase : (x = a /\ c = b /\ i = Z.to_nat (TRIE_CHAR2INDEX ch)) \/
       exists y n, nodes t !! y = Some n /\ children n !! i = Some c /\ (y = a -> x = b) /\ (y <> a -> x = y)).
    { destruct (decide (x = a)) as [->|Hxa].
      - left. rewrite Hcur in Hm. injection Hm as <-. destruct (decide (i = Z.to_nat (TRIE_CHAR2INDEX ch))) as [->|Hne].
        + rewrite Hcell in Hc. by injection Hc as <-.
        + by apply Hcells in Hc.
      - right. destruct (decide (x = b)) as [->|Hxb].
        + rewrite Hnew in Hm. injection Hm as <-. rewrite Hc1 in Hc. exists a, cn. done.
        + rewrite Hrest in Hm by done. apply fmap_Some in Hm as (n & Hx & ->). exists x, n. split_and!; [done| |congruence|done].
          unfold adopt in Hc. by case_decide. }
    destruct Hcase as [(-> & -> & ->)|(y & n & Hy & Hc' & E1 & E2)].
    { exists sn'. split_and!; [done|done|lia|]. destruct (sh_header _ _ Hsh) as (h & Hh & _). congruence. }
    destruct (child_of y n i c Hy Hc' Hc0) as (z & Hz & Hpz & Hiz & Hhz & Hcy).
    destruct (Hold _ _ Hz) as (z' & Hz' & Ez & Hzz). exists z'. split_and!; [done| |congruence|done].
    destruct (decide (c = a)) as [->|Hca].
    + rewrite Hcur in Hz'. injection Hz' as <-. rewrite Hn in Hz. injection Hz as <-. rewrite Hp1, Hpz. symmetry. apply E2. congruence.
    + destruct (Hzz Hca) as (_ & _ & _ & _ & ->). specialize (Hkid c z Hz Hhz). unfold adopt.
      case_decide as Hk; cbn.
      * symmetry. apply E1. rewrite <- Hpz. by apply Hkid.
      * rewrite Hpz. symmetry. apply E2. intros ->. by apply Hk, Hkid.
Qed.

(** ** A leaf that goes *)

Lemma shape_remove a n p :
  nodes t !! a = Some n -> a <> header t -> nodes t !! parent n = Some p ->
  (forall i c, children n !! i = Some c -> c = 0) -> next_address t <= next_address t' ->
  nodes t' = delete a (<[parent n := with_children p (zset (children p) (idx n) 0) (num_children p)]> (nodes t)) ->
  trie_shape t' bp.
Proof.
  intros Hn Ha Hp Hleaf Hna En. pose proof (parent_ne a n Hn Ha) as Hpa.
  destruct (sh_up _ _ Hsh a n Hn Ha) as (p' & c & Hp' & Hc & Hi & Hcell & Eb). rewrite Hp in Hp'. injection Hp' as <-.
  pose proof (index_range c) as Hir. rewrite <- Hi in Hir.
  assert (Ez : zset (children p) (idx n) 0 = <[Z.to_nat (idx n) := 0]> (children p)).
  { unfold zset. destruct (Z.ltb_spec (idx n) 0); [lia|done]. }
  assert (Hback : forall x m, nodes t' !! x = Some m -> x <> a /\ exists n', nodes t !! x = Some n' /\ idx m = idx n' /\ parent m = parent n' /\
     segment m = segment n' /\ num_children m = num_children n' /\ value m = value n' /\ length (children m) = length (children n') /\
     (forall i y, y <> 0 -> children m !! i = Some y <-> children n' !! i = Some y /\ y <> a)).
  { intros x m Hm. rewrite En in Hm. apply lookup_delete_Some in Hm as [Hxa Hm]. split; [done|].
    assert (Hnot : forall z nz i y, nodes t !! z = Some nz -> z <> parent n -> y <> 0 -> children nz !! i = Some y -> y <> a).
    { intros z nz i y Hz Hzp Hy Hiy ->. destruct (child_of z nz i a Hz Hiy Hy) as (m' & Hm' & Hp' & _). congruence. }
    destruct (decide (x = parent n)) as [->|Hxp].
    - rewrite lookup_insert_eq in Hm. injection Hm as <-. exists p. cbn. rewrite Ez. split_and!; try done; [apply length_insert|].
      intros i y Hy. destruct (decide (i = Z.to_nat (idx n))) as [->|Hne].
      + rewrite list_lookup_insert_eq by (by eapply lookup_lt_Some). rewrite Hcell. naive_solver.
      + rewrite list_lookup_insert_ne by done. split; [|tauto]. intros Hy'. split; [done|]. intros ->.
        destruct (child_of _ p i a Hp Hy' Hy) as (m' & Hm' & _ & Hi' & _). rewrite Hn in Hm'. injection Hm' as <-. lia.
    - rewrite lookup_insert_ne in Hm by done. exists m. split_and!; try done. intros i y Hy. split; [|tauto]. intros Hy'. eauto. }
  assert (Hforth : forall x n', nodes t !! x = Some n' -> x <> a -> exists m, nodes t' !! x = Some m).
  { intros x n' Hx Hxa. rewrite En, lookup_delete_ne by done. destruct (decide (x = parent n)) as [->|Hxp].
    - rewrite lookup_insert_eq. eauto.
    - rewrite lookup_insert_ne by done. eauto. }
  split.
  - destruct (sh_header _ _ Hsh) as (h & Hh & Hph & Hs & Hv). rewrite Hhdr. destruct (Hforth _ _ Hh ltac:(done)) as (m & Hm).
    destruct (Hback _ _ Hm) as (_ & n' & Hn' & _ & Ep & Es & _ & Ev & _). exists m. split_and!; congruence.
  - rewrite Hhdr. apply (sh_bp_header _ _ Hsh).
  - intros x m (_ & n' & Hn' & _)%Hback. pose proof (sh_addr _ _ Hsh x n' Hn'). lia.
  - intros x m (_ & n' & Hn' & _ & _ & _ & -> & _ & El & _)%Hback. rewrite <- (sh_array _ _ Hsh x n' Hn'). unfold zlen. by rewrite El.
  - intros x m (_ & n' & Hn' & _ & _ & -> & _)%Hback. by apply (sh_bytes _ _ Hsh x).
  - rewrite Hhdr. intros x m Hm Hxh. destruct (Hback x m Hm) as (Hxa & n' & Hn' & Ei & Ep & _).
    destruct (sh_up _ _ Hsh x n' Hn' Hxh) as (q & d & Hq & Hd & Hi' & Hc' & Eb').
    assert (Hqa : parent n' <> a).
    { intros E. rewrite E, Hn in Hq. injection Hq as <-. apply Hleaf in Hc'. by eapply node_nonzero in Hn'. }
    destruct (Hforth _ _ Hq Hqa) as (q' & Hq'). destruct (Hback _ _ Hq') as (_ & q2 & Hq2 & _ & _ & Es & _ & _ & _ & Hcs).
    rewrite Hq in Hq2. injection Hq2 as <-. exists q', d. rewrite Ei, Ep, Es. split_and!; try done. apply Hcs; [|done].
    by eapply node_nonzero in Hn'.
  - rewrite Hhdr. intros x m i y Hm Hy Hy0. destruct (Hback x m Hm) as (Hxa & n' & Hn' & _ & _ & _ & _ & _ & _ & Hcs).
    apply Hcs in Hy as [Hy Hya]; [|done]. destruct (sh_down _ _ Hsh x n' i y Hn' Hy Hy0) as (z & Hz & Hpz & Hiz & Hhz).
    destruct (Hforth _ _ Hz Hya) as (z' & Hz'). destruct (Hback _ _ Hz') as (_ & z2 & Hz2 & Ei & Ep & _).
    rewrite Hz in Hz2. injection Hz2 as <-. exists z'. split_and!; congruence.
Qed.
End Changes.
