(* ===== verification/TrieInv.v ===== *)
(** * Trie: the invariant of its contents

    [trie_inv t bp refs s N P]: the trie holds the pairs [s], the notifiers
    [N y] at each string [y], and all its nodes are on the way to the strings [P].
    [refs] are the reference counts of the nodes with a value. *)
From stdpp Require Import functions.
From S2P Require Import Prelude Map Trie TrieShape TrieChange.

Record trie_inv (t : trie) (bp : Z -> list Z) (refs : Z -> Z) (s : gmap map_key Z)
    (N : map_key -> list qb_map_notifier) (P : list map_key) : Prop := {
  ti_shape : trie_shape t bp;
  ti_dead a n : nodes t !! a = Some n -> value n = 0 -> key n = None /\ refcount n = 0;
  ti_live a n : nodes t !! a = Some n -> value n <> 0 ->
    key n = Some (full bp a n) /\ refcount n = refs a /\ s !! full bp a n = Some (value n);
  ti_has k v : s !! k = Some v -> v <> 0 /\ exists a n, nodes t !! a = Some n /\ full bp a n = k /\ value n = v;
  ti_notifiers a n : nodes t !! a = Some n -> node_notifiers n = N (full bp a n);
  ti_notified y : N y <> [] -> exists a n, nodes t !! a = Some n /\ full bp a n = y;
  ti_covered a n : nodes t !! a = Some n -> a <> header t -> exists k, k ∈ P /\ full bp a n `prefix_of` k ++ [0];
  ti_mem : alloc_fails t = [];
}.

Definition one_each (_ : Z) : Z := 1.

(** What a node holds besides its place. *)
Definition same_entry (n m : trie_node) : Prop :=
  key m = key n /\ value m = value n /\ refcount m = refcount n /\ node_notifiers m = node_notifiers n.
Definition no_entry (n : trie_node) : Prop :=
  key n = None /\ value n = 0 /\ refcount n = 0 /\ node_notifiers n = [].

(** Nodes may move and empty ones come and go. *)
Lemma inv_transfer t t' bp bp' s N P :
  trie_inv t bp one_each s N P -> trie_shape t' bp' -> alloc_fails t' = [] -> header t' = header t ->
  (forall a n, nodes t !! a = Some n ->
     no_entry n \/ exists b m, nodes t' !! b = Some m /\ same_entry n m /\ full bp' b m = full bp a n) ->
  (forall b m, nodes t' !! b = Some m ->
     no_entry m \/ exists a n, nodes t !! a = Some n /\ same_entry n m /\ full bp' b m = full bp a n) ->
  (forall b m, nodes t' !! b = Some m -> b <> header t ->
     (exists a n, nodes t !! a = Some n /\ a <> header t /\ full bp' b m `prefix_of` full bp a n) \/
     (exists k, k ∈ P /\ full bp' b m `prefix_of` k ++ [0])) ->
  trie_inv t' bp' one_each s N P.
Proof.
  intros Hi Hsh Hm Hh Hforth Hback Hcov. split; [done|..].
  - intros b m Hb Hv. destruct (Hback b m Hb) as [(? & ? & ? & _)|(a & n & Ha & (-> & Ev & -> & _) & _)]; [done|].
    apply (ti_dead _ _ _ _ _ _ Hi a n Ha). congruence.
  - intros b m Hb Hv. destruct (Hback b m Hb) as [(? & ? & ? & _)|(a & n & Ha & (-> & Ev & -> & _) & ->)]; [done|].
    rewrite Ev. apply (ti_live _ _ _ _ _ _ Hi a n Ha). congruence.
  - intros k v Hk. destruct (ti_has _ _ _ _ _ _ Hi k v Hk) as (Hv & a & n & Ha & Ef & Ev). split; [done|].
    destruct (Hforth a n Ha) as [(_ & ? & _)|(b & m & Hb & (_ & Ev' & _) & Ef')]; [congruence|].
    exists b, m. split_and!; congruence.
  - intros b m Hb. destruct (Hback b m Hb) as [(_ & _ & _ & E)|(a & n & Ha & (_ & _ & _ & ->) & ->)].
    + rewrite E. destruct (N (full bp' b m)) eqn:EN; [done|].
      destruct (ti_notified _ _ _ _ _ _ Hi (full bp' b m)) as (a & n & Ha & Ef); [congruence|].
      pose proof (ti_notifiers _ _ _ _ _ _ Hi a n Ha) as En. rewrite Ef in En.
      destruct (Hforth a n Ha) as [(_ & _ & _ & E')|(b' & m' & Hb' & (_ & _ & _ & E') & Ef')]; [congruence|].
      rewrite Ef in Ef'. assert (b' = b) as -> by (by eapply full_inj). rewrite Hb in Hb'. injection Hb' as <-. congruence.
    + by apply (ti_notifiers _ _ _ _ _ _ Hi).
  - intros y Hy. destruct (ti_notified _ _ _ _ _ _ Hi y Hy) as (a & n & Ha & Ef).
    pose proof (ti_notifiers _ _ _ _ _ _ Hi a n Ha) as En. rewrite Ef in En.
    destruct (Hforth a n Ha) as [(_ & _ & _ & E')|(b & m & Hb & _ & Ef')]; [congruence|]. exists b, m. split; congruence.
  - rewrite Hh. intros b m Hb Hbh. destruct (Hcov b m Hb Hbh) as [(a & n & Ha & Hah & Hp)|?]; [|done].
    destruct (ti_covered _ _ _ _ _ _ Hi a n Ha Hah) as (k & Hk & Hk'). exists k. split; [done|]. by etransitivity.
  - done.
Qed.

(** A change of counters only. *)
Lemma inv_counters t t' bp refs s N P :
  trie_inv t bp refs s N P -> nodes t' = nodes t -> header t' = header t -> next_address t' = next_address t ->
  alloc_fails t' = alloc_fails t -> trie_inv t' bp refs s N P.
Proof.
  intros Hi En Eh Ea Ef. split; rewrite ?En, ?Eh, ?Ef; try apply Hi.
  eapply shape_same; [apply Hi|done|by rewrite Ea| |].
  - intros a. rewrite En. by destruct (nodes t !! a).
  - rewrite En. destruct (sh_header _ _ (ti_shape _ _ _ _ _ _ Hi)) as (h & Hh & _ & _ & Hv). eauto.
Qed.

Lemma inv_more_paths t bp refs s N P Q : trie_inv t bp refs s N P -> P ⊆ Q -> trie_inv t bp refs s N Q.
Proof.
  intros Hi HPQ. split; try apply Hi. intros a n Ha Hh.
  destruct (ti_covered _ _ _ _ _ _ Hi a n Ha Hh) as (k & Hk & Hp). eauto.
Qed.

(** Only what the invariant looks at counts. *)
Lemma inv_ext t bp refs refs' s s' N N' P :
  trie_inv t bp refs s N P -> (forall a n, nodes t !! a = Some n -> value n <> 0 -> refs' a = refs a) ->
  s' = s -> (forall y, N' y = N y) -> trie_inv t bp refs' s' N' P.
Proof.
  intros Hi Hr -> HN. split; try apply Hi.
  - intros a n Ha Hv. destruct (ti_live _ _ _ _ _ _ Hi a n Ha Hv) as (? & ? & ?). split_and!; [done| |done]. rewrite (Hr a n Ha Hv). done.
  - intros a n Ha. rewrite HN. by apply (ti_notifiers _ _ _ _ _ _ Hi).
  - intros y Hy. rewrite HN in Hy. by apply (ti_notified _ _ _ _ _ _ Hi).
Qed.

(** ** Entries *)

Section Entries.
Context (t : trie) (bp : Z -> list Z) (s : gmap map_key Z) (N : map_key -> list qb_map_notifier) (P : list map_key).

Lemma value_at refs a n : trie_inv t bp refs s N P -> nodes t !! a = Some n -> value n = default 0 (s !! full bp a n).
Proof.
  intros Hi Ha. destruct (decide (value n = 0)) as [E|E].
  - destruct (s !! full bp a n) as [v|] eqn:Ek; [|done].
    destruct (ti_has _ _ _ _ _ _ Hi _ _ Ek) as (Hv & b & m & Hb & Ef & Ev).
    assert (b = a) as -> by (by eapply full_inj; [apply Hi|..]). rewrite Ha in Hb. injection Hb as <-. congruence.
  - by destruct (ti_live _ _ _ _ _ _ Hi a n Ha E) as (_ & _ & ->).
Qed.

(** A node in its place with other contents. *)
Definition same_place (n n' : trie_node) : Prop :=
  idx n' = idx n /\ segment n' = segment n /\ children n' = children n /\ num_children n' = num_children n /\ parent n' = parent n.

Definition set_pair (s : gmap map_key Z) (k : map_key) (v : Z) : gmap map_key Z :=
  if decide (v = 0) then delete k s else <[k := v]> s.

Lemma shape_set a n n' :
  trie_shape t bp -> nodes t !! a = Some n -> same_place n n' -> (a = header t -> value n' = 0) ->
  trie_shape (set_node t a n') bp.
Proof.
  intros Hsh Ha Hpl Hv. eapply shape_same; [done..| |].
  - intros b. cbn. destruct (decide (b = a)) as [->|E].
    + rewrite lookup_insert_eq, Ha. exact Hpl.
    + rewrite lookup_insert_ne by done. by destruct (nodes t !! b).
  - cbn. destruct (sh_header _ _ Hsh) as (h & Hh & _ & _ & Hvh). destruct (decide (header t = a)) as [E|E].
    + rewrite E, lookup_insert_eq. eauto.
    + rewrite lookup_insert_ne by done. eauto.
Qed.

Lemma inv_set refs a n n' :
  trie_inv t bp refs s N P -> nodes t !! a = Some n -> same_place n n' -> (a = header t -> value n' = 0) ->
  (value n' = 0 -> key n' = None /\ refcount n' = 0) -> (value n' <> 0 -> key n' = Some (full bp a n)) ->
  trie_inv (set_node t a n') bp (<[a := refcount n']> refs) (set_pair s (full bp a n) (value n'))
    (<[full bp a n := node_notifiers n']> N) P.
Proof.
  intros Hi Ha Hpl Hhv Hdead Hlive. pose proof (ti_shape _ _ _ _ _ _ Hi) as Hsh.
  assert (Ef : full bp a n' = full bp a n) by (unfold full; destruct Hpl as (_ & -> & _); done).
  assert (Hback : forall b m, nodes (set_node t a n') !! b = Some m ->
     (b = a /\ m = n') \/ (b <> a /\ nodes t !! b = Some m /\ full bp b m <> full bp a n)).
  { intros b m Hb. cbn in Hb. destruct (decide (b = a)) as [->|E].
    - rewrite lookup_insert_eq in Hb. injection Hb as <-. auto.
    - rewrite lookup_insert_ne in Hb by done. right. split_and!; [done..|]. intros E'. apply E. by eapply full_inj. }
  assert (Hforth : forall b m, nodes t !! b = Some m -> exists m', nodes (set_node t a n') !! b = Some m' /\ full bp b m' = full bp b m).
  { intros b m Hb. cbn. destruct (decide (b = a)) as [->|E].
    - rewrite lookup_insert_eq. rewrite Ha in Hb. injection Hb as <-. eauto.
    - rewrite lookup_insert_ne by done. eauto. }
  assert (Hs : forall k, k <> full bp a n -> set_pair s (full bp a n) (value n') !! k = s !! k).
  { intros k Hk. unfold set_pair. case_decide; [by rewrite lookup_delete_ne|by rewrite lookup_insert_ne]. }
  split.
  - by eapply shape_set.
  - intros b m [[-> ->]|(_ & Hb & _)]%Hback; [done|]. by apply (ti_dead _ _ _ _ _ _ Hi b).
  - intros b m [[-> ->]|(Hne & Hb & Hf)]%Hback Hv.
    + rewrite fn_lookup_insert, Ef. split_and!; [by apply Hlive|done|]. unfold set_pair. by rewrite decide_False, lookup_insert_eq.
    + rewrite fn_lookup_insert_ne, Hs by done. by apply (ti_live _ _ _ _ _ _ Hi b).
  - intros k v Hk. destruct (decide (k = full bp a n)) as [->|Hne].
    + unfold set_pair in Hk. case_decide as E; [by rewrite lookup_delete_eq in Hk|]. rewrite lookup_insert_eq in Hk. injection Hk as <-.
      split; [done|]. exists a, n'. cbn. by rewrite lookup_insert_eq.
    + rewrite Hs in Hk by done. destruct (ti_has _ _ _ _ _ _ Hi k v Hk) as (Hv & b & m & Hb & Efb & Ev). split; [done|].
      exists b, m. cbn. rewrite lookup_insert_ne; [done|]. intros ->. rewrite Ha in Hb. injection Hb as <-. done.
  - intros b m [[-> ->]|(_ & Hb & Hf)]%Hback.
    + by rewrite Ef, fn_lookup_insert.
    + rewrite fn_lookup_insert_ne by done. by apply (ti_notifiers _ _ _ _ _ _ Hi).
  - intros y Hy. destruct (decide (y = full bp a n)) as [->|Hne].
    + exists a, n'. cbn. by rewrite lookup_insert_eq.
    + rewrite fn_lookup_insert_ne in Hy by done. destruct (ti_notified _ _ _ _ _ _ Hi y Hy) as (b & m & Hb & <-).
      destruct (Hforth b m Hb) as (m' & Hm' & E'). eauto.
  - intros b m [[-> ->]|(_ & Hb & _)]%Hback Hh.
    + rewrite Ef. by apply (ti_covered _ _ _ _ _ _ Hi).
    + by apply (ti_covered _ _ _ _ _ _ Hi).
  - apply Hi.
Qed.

Lemma set_pair_same refs a n : trie_inv t bp refs s N P -> nodes t !! a = Some n -> set_pair s (full bp a n) (value n) = s.
Proof.
  intros Hi Ha. unfold set_pair. case_decide as E.
  - apply delete_id. pose proof (value_at refs a n Hi Ha) as Hv. rewrite E in Hv.
    destruct (s !! full bp a n) as [v|] eqn:Ek; [|done]. cbn in Hv. subst v.
    by destruct (ti_has _ _ _ _ _ _ Hi _ _ Ek).
  - apply insert_id. by apply (ti_live _ _ _ _ _ _ Hi).
Qed.

Lemma notifiers_same refs a n : trie_inv t bp refs s N P -> nodes t !! a = Some n ->
  forall y, (<[full bp a n := node_notifiers n]> N) y = N y.
Proof.
  intros Hi Ha y. destruct (decide (y = full bp a n)) as [->|E].
  - rewrite fn_lookup_insert. by apply (ti_notifiers _ _ _ _ _ _ Hi).
  - by rewrite fn_lookup_insert_ne.
Qed.

Lemma header_dead refs a n : trie_inv t bp refs s N P -> nodes t !! a = Some n -> value n <> 0 -> a <> header t.
Proof. intros Hi Ha Hv ->. destruct (sh_header _ _ (ti_shape _ _ _ _ _ _ Hi)) as (h & Hh & _ & _ & E). congruence. Qed.

Lemma inv_set_refcount refs a n r :
  trie_inv t bp refs s N P -> nodes t !! a = Some n -> value n <> 0 ->
  trie_inv (set_node t a (with_refcount n r)) bp (<[a := r]> refs) s N P.
Proof.
  intros Hi Ha Hv. eapply inv_ext.
  - apply (inv_set refs a n (with_refcount n r) Hi Ha); [done|by intros ?%(header_dead refs a n Hi Ha)|done|].
    intros _. exact (proj1 (ti_live _ _ _ _ _ _ Hi a n Ha Hv)).
  - done.
  - exact (eq_sym (set_pair_same refs a n Hi Ha)).
  - intros y. exact (eq_sym (notifiers_same refs a n Hi Ha y)).
Qed.
End Entries.
