(* ===== verification/TrieInsert.v ===== *)
(** * Trie: inserting

    What the functions that insert do to the store, and that a key gets a node
    of its own without a change of the contents. *)
From stdpp Require Import functions.
From S2P Require Import Prelude Map Trie TrieShape TrieChange TrieInv.

(** The parts of the state that inserting does not touch. *)
Definition same_outside (t t' : trie) : Prop := header t' = header t /\ length_ t' = length_ t /\ alloc_fails t' = [].

Lemma same_outside_trans t1 t2 t3 : same_outside t1 t2 -> same_outside t2 t3 -> same_outside t1 t3.
Proof. unfold same_outside. intuition congruence. Qed.

(** ** A new child *)

Definition fits (cs : list Z) (num : Z) : Prop := zlen cs = num.

Lemma grow_code t p pn ch :
  alloc_fails t = [] -> zlen (children pn) = num_children pn ->
  exists t' cs, grow_children t p pn (TRIE_CHAR2INDEX ch) = (t', true) /\ same_outside t t' /\ next_address t' = next_address t /\
    <[p := pn]> (nodes t') = <[p := pn]> (nodes t) /\
    (nodes t !! p = Some pn -> nodes t' !! p = Some (with_children pn cs (zlen cs))) /\
    TRIE_CHAR2INDEX ch < zlen cs /\
    (forall j x, x <> 0 -> cs !! j = Some x <-> children pn !! j = Some x).
Proof.
  intros Ha Hl. unfold grow_children. pose proof (index_range ch). destruct (Z.leb_spec (num_children pn) (TRIE_CHAR2INDEX ch)).
  - unfold try_alloc. cbn [alloc_fails with_mem_used]. rewrite Ha.
    set (num := QB_MAX (TRIE_CHAR2INDEX ch + 1) 30). assert (Hnum : TRIE_CHAR2INDEX ch < num).
    { unfold num. rewrite QB_MAX_max. lia. }
    assert (Hz : zlen (children pn ++ zrepeat 0 (num - num_children pn)) = num).
    { unfold zlen, zrepeat in *. rewrite length_app, length_replicate. lia. }
    eexists _, (children pn ++ zrepeat 0 (num - num_children pn)). split; [reflexivity|]. split; [done|]. split; [done|]. split_and!.
    + cbn. by rewrite insert_insert_eq.
    + intros _. cbn. by rewrite lookup_insert_eq, Hz.
    + lia.
    + intros j x Hx. split.
      * intros [?|[_ H']]%lookup_app_Some; [done|]. unfold zrepeat in H'. apply lookup_replicate in H' as [-> _]. done.
      * apply lookup_app_l_Some.
  - eexists t, (children pn). rewrite Hl. split_and!; try done. intros ->. by destruct pn.
Qed.

Lemma new_child_code t p pn ch :
  alloc_fails t = [] -> nodes t !! p = Some pn -> zlen (children pn) = num_children pn ->
  p <> next_address t -> next_address t <> 0 ->
  (forall x, children pn !! Z.to_nat (TRIE_CHAR2INDEX ch) = Some x -> x = 0) ->
  exists t' cs, new_child_node t p ch = Some (t', next_address t) /\ same_outside t t' /\ next_address t' = next_address t + 1 /\
    adds_cell (children pn) cs (Z.to_nat (TRIE_CHAR2INDEX ch)) (next_address t) /\
    nodes t' = <[p := with_children pn cs (zlen cs)]> (<[next_address t := child_node p ch]> (nodes t)).
Proof.
  intros Ha Hp Hl Hne H0 Hz. pose proof (index_range ch) as Hir. unfold new_child_node. rewrite Hp. cbn [mbind option_bind].
  destruct (grow_code t p pn ch Ha Hl) as (t1 & cs & -> & (Eh & El & Ea) & En & Enodes & Hp1 & Hlt & Hcs). cbn [negb].
  specialize (Hp1 Hp). unfold trie_new_node, calloc, try_alloc. rewrite Ea. cbn [alloc_fails with_allocator]. rewrite Ea.
  cbn [alloc_fails with_allocator]. rewrite En. destruct (Z.eqb_spec (next_address t) 0); [done|]. cbn [negb].
  destruct (Z.eqb_spec (next_address t) 0); [done|]. cbn [nodes set_node with_nodes with_num_nodes with_mem_used with_allocator].
  rewrite lookup_insert_eq. cbn [mbind option_bind]. rewrite !lookup_insert_ne, Hp1 by done. cbn [mbind option_bind children with_children].
  destruct (lookup_lt_is_Some_2 cs (Z.to_nat (TRIE_CHAR2INDEX ch))) as [y Hy]; [unfold zlen in Hlt; lia|].
  rewrite Hy. cbn [mbind option_bind]. set (cs' := zset cs (TRIE_CHAR2INDEX ch) (next_address t)).
  assert (Ecs : cs' = <[Z.to_nat (TRIE_CHAR2INDEX ch) := next_address t]> cs).
  { unfold cs', zset. destruct (Z.ltb_spec (TRIE_CHAR2INDEX ch) 0); [lia|done]. }
  eexists _, cs'. split; [reflexivity|]. split; [done|]. split; [done|]. split.
  - split_and!.
    + rewrite Ecs. apply list_lookup_insert_eq. by eapply lookup_lt_Some.
    + done.
    + intros j x Hj Hx. rewrite Ecs, list_lookup_insert_ne by done. by apply Hcs.
  - cbn. unfold cs'. rewrite zlen_zset, insert_insert_eq. fold cs'. change (with_children (with_children pn cs (zlen cs)) cs' (num_children (with_children pn cs (zlen cs)))) with (with_children pn cs' (zlen cs)).
    assert (E : nodes t1 = <[p := with_children pn cs (zlen cs)]> (nodes t)).
    { rewrite <- (insert_insert_eq (nodes t) p (with_children pn cs (zlen cs)) pn), <- Enodes, insert_insert_eq. symmetry. by apply insert_id. }
    rewrite E, (insert_insert_ne _ _ p), insert_insert_eq by done. done.
Qed.

Lemma new_child_shape t bp p pn ch :
  trie_shape t bp -> alloc_fails t = [] -> nodes t !! p = Some pn -> is_byte ch ->
  (forall x, children pn !! Z.to_nat (TRIE_CHAR2INDEX ch) = Some x -> x = 0) ->
  exists t' cs, new_child_node t p ch = Some (t', next_address t) /\ same_outside t t' /\
    nodes t' = <[p := with_children pn cs (zlen cs)]> (<[next_address t := child_node p ch]> (nodes t)) /\
    trie_shape t' (<[next_address t := full bp p pn ++ [ch]]> bp).
Proof.
  intros Hsh Ha Hp Hb Hz. pose proof (sh_addr _ _ Hsh p pn Hp).
  destruct (new_child_code t p pn ch Ha Hp (sh_array _ _ Hsh p pn Hp)) as (t' & cs & E & Ho & En & Hc & Enodes); [lia|lia|done|].
  exists t', cs. split_and!; [done..|]. destruct Ho as (Eh & _). eapply (shape_add t t' bp Hsh Eh p pn ch cs); [done..|lia|done].
Qed.

Lemma new_child_inv t bp s N P p pn ch :
  trie_inv t bp one_each s N P -> nodes t !! p = Some pn -> is_byte ch ->
  (forall x, children pn !! Z.to_nat (TRIE_CHAR2INDEX ch) = Some x -> x = 0) ->
  (exists k, k ∈ P /\ full bp p pn ++ [ch] `prefix_of` k ++ [0]) ->
  exists t', new_child_node t p ch = Some (t', next_address t) /\ same_outside t t' /\
    trie_inv t' (<[next_address t := full bp p pn ++ [ch]]> bp) one_each s N P /\
    nodes t' !! next_address t = Some (child_node p ch).
Proof.
  intros Hi Hp Hb Hz Hcov. pose proof (ti_shape _ _ _ _ _ _ Hi) as Hsh.
  destruct (new_child_shape t bp p pn ch Hsh (ti_mem _ _ _ _ _ _ Hi) Hp Hb Hz) as (t' & cs & E & (Eh & El & Ea) & En & Hsh').
  pose proof (fresh_node t bp Hsh) as Hfr. set (c := next_address t) in *. assert (Hcp : c <> p) by congruence.
  assert (Hc : nodes t' !! c = Some (child_node p ch)) by (by rewrite En, lookup_insert_ne, lookup_insert_eq).
  exists t'. split_and!; try done. eapply inv_transfer; [exact Hi|done..| | |].
  - intros a n Hn. right. assert (a <> c) by congruence.
    destruct (decide (a = p)) as [->|Hne].
    + rewrite Hp in Hn. injection Hn as <-. exists p, (with_children pn cs (zlen cs)). rewrite En, lookup_insert_eq.
      split_and!; try done. unfold full. by rewrite fn_lookup_insert_ne.
    + exists a, n. rewrite En, !lookup_insert_ne by done. split_and!; try done. unfold full. by rewrite fn_lookup_insert_ne.
  - intros b m Hm. destruct (decide (b = c)) as [->|Hbc]; [left; rewrite Hc in Hm; by injection Hm as <-|right].
    rewrite En in Hm. destruct (decide (b = p)) as [->|Hne].
    + rewrite lookup_insert_eq in Hm. injection Hm as <-. exists p, pn. split_and!; try done. unfold full. by rewrite fn_lookup_insert_ne.
    + rewrite !lookup_insert_ne in Hm by done. exists b, m. split_and!; try done. unfold full. by rewrite fn_lookup_insert_ne.
  - intros b m Hm Hbh. destruct (decide (b = c)) as [->|Hbc].
    + right. rewrite Hc in Hm. injection Hm as <-. unfold full at 1. rewrite fn_lookup_insert. cbn. by rewrite app_nil_r.
    + left. rewrite En in Hm. destruct (decide (b = p)) as [->|Hne].
      * rewrite lookup_insert_eq in Hm. injection Hm as <-. exists p, pn. split_and!; try done. unfold full. rewrite fn_lookup_insert_ne by done. done.
      * rewrite !lookup_insert_ne in Hm by done. exists b, m. split_and!; try done. unfold full. rewrite fn_lookup_insert_ne by done. done.
Qed.

(** ** Splitting *)

Lemma reparent_code p cs : forall t,
  nodes t !! 0 = None -> (forall x, x ∈ cs -> x <> 0 -> is_Some (nodes t !! x)) ->
  exists t', reparent t p cs = Some t' /\ header t' = header t /\ length_ t' = length_ t /\ alloc_fails t' = alloc_fails t /\
    next_address t' = next_address t /\ forall x, nodes t' !! x = adopt p cs x <$> nodes t !! x.
Proof.
  induction cs as [|x cs IH]; intros t H0 Hin; cbn [reparent].
  - exists t. split_and!; try done. intros x. unfold adopt. destruct (nodes t !! x); [|done]. cbn. by rewrite decide_False by set_solver.
  - destruct (Z.eqb_spec x 0) as [->|Hx].
    + destruct (IH t H0) as (t' & -> & ? & ? & ? & ? & Hn); [intros; apply Hin; set_solver|]. exists t'. split_and!; try done.
      intros y. rewrite Hn. destruct (nodes t !! y) as [n|] eqn:Ey; [|done]. cbn. f_equal. unfold adopt.
      assert (y <> 0) by congruence. repeat case_decide; set_solver.
    + destruct (Hin x) as [n Hn]; [set_solver|done|]. rewrite Hn. cbn [mbind option_bind].
      destruct (IH (set_node t x (with_parent n p))) as (t' & -> & ? & ? & ? & ? & Hn').
      * cbn. by rewrite lookup_insert_ne.
      * intros y Hy Hy0. cbn. destruct (decide (y = x)) as [->|]; [rewrite lookup_insert_eq; eauto|].
        rewrite lookup_insert_ne by done. apply Hin; set_solver.
      * exists t'. split_and!; try done. intros y. rewrite Hn'. cbn. unfold adopt. destruct (decide (y = x)) as [->|Hyx].
        -- rewrite lookup_insert_eq, Hn. cbn. rewrite (decide_True (P := x ∈ x :: cs)) by set_solver. by case_decide.
        -- rewrite lookup_insert_ne by done. destruct (nodes t !! y); [|done]. cbn. f_equal. repeat case_decide; set_solver.
Qed.

Lemma split_code t bp a cn s ch :
  trie_shape t bp -> alloc_fails t = [] -> nodes t !! a = Some cn -> segment cn !! s = Some ch ->
  exists t' cn' sn', trie_node_split t a (Z.of_nat s) = Some (t', a) /\ same_outside t t' /\ next_address t' = next_address t + 1 /\
    splits t t' a cn s ch cn' sn' /\ no_entry cn' /\ same_entry cn sn'.
Proof.
  intros Hsh Ha Hn Hs. pose proof (sh_addr _ _ Hsh a cn Hn) as Hadr. pose proof (fresh_node t bp Hsh) as Hfr.
  pose proof (node_nonzero t bp Hsh a cn Hn) as Ha0. set (b := next_address t) in *.
  assert (Hab : a <> b) by lia. assert (Hb0 : b <> 0) by lia.
  assert (H00 : nodes t !! 0 = None) by (destruct (nodes t !! 0) as [n|] eqn:E; [by apply (node_nonzero t bp Hsh) in E|done]).
  assert (Hak : a ∉ children cn).
  { intros [i Hi]%list_elem_of_lookup. by destruct (child_of t bp Hsh a cn i a Hn Hi Ha0) as (_ & _ & _ & _ & _ & ?). }
  assert (Hkin : forall x, x ∈ children cn -> x <> 0 -> is_Some (nodes t !! x)).
  { intros x [i Hi]%list_elem_of_lookup Hx. destruct (child_of t bp Hsh a cn i x Hn Hi Hx) as (m & -> & _). eauto. }
  assert (Hbk : b ∉ children cn) by (intros [m Hm]%Hkin; congruence).
  unfold trie_node_split. rewrite Hn. cbn [mbind option_bind]. rewrite Nat2Z.id, Hs. cbn [mbind option_bind].
  set (t1 := set_node t a (with_children cn [] 0)).
  destruct (new_child_code t1 a (with_children cn [] 0) ch) as (t2 & cs & -> & (Eh2 & El2 & Ea2) & En2 & Hcell & Enodes2); [done|cbn; apply lookup_insert_eq|done|done|done|done|].
  cbn [mbind option_bind]. change (next_address t1) with b in *. destruct (Z.eqb_spec b 0); [done|].
  assert (Hb2 : nodes t2 !! b = Some (child_node a ch)) by (by rewrite Enodes2, lookup_insert_ne, lookup_insert_eq).
  rewrite Hb2. cbn [mbind option_bind]. set (sn1 := with_children (child_node a ch) (children cn) (num_children cn)).
  set (t3 := set_node t2 b sn1).
  assert (Hn3 : forall x, x <> a -> x <> b -> nodes t3 !! x = nodes t !! x).
  { intros x Hxa Hxb. unfold t3, t1 in *. cbn. rewrite lookup_insert_ne by done. rewrite Enodes2. cbn. by rewrite !lookup_insert_ne by done. }
  assert (Hb3 : nodes t3 !! b = Some sn1) by (cbn; apply lookup_insert_eq).
  assert (Ha3 : nodes t3 !! a = Some (with_children cn cs (zlen cs))).
  { unfold t3. cbn. rewrite lookup_insert_ne by done. by rewrite Enodes2, lookup_insert_eq. }
  destruct (reparent_code b (children cn) t3) as (t4 & -> & Eh4 & El4 & Ea4 & En4 & Hn4).
  { by rewrite Hn3. }
  { intros x Hx Hx0. rewrite Hn3; [by apply Hkin|congruence..]. }
  cbn [mbind option_bind]. rewrite (Hn4 b), Hb3. cbn [fmap option_fmap option_map mbind option_bind].
  unfold adopt at 1. rewrite decide_False by done. cbn [set_node with_nodes nodes]. rewrite lookup_insert_ne by done.
  rewrite (Hn4 a), Ha3. cbn [fmap option_fmap option_map mbind option_bind]. unfold adopt at 1. rewrite decide_False by done.
  destruct (Z.ltb_spec (Z.of_nat s) (zlen (segment cn))) as [_|Hge]; [|apply lookup_lt_Some in Hs; unfold zlen in Hge; lia].
  unfold try_alloc. cbn [alloc_fails with_nodes set_node]. rewrite Ea4. change (alloc_fails t3) with (alloc_fails t2). rewrite Ea2. cbn [negb nodes with_nodes set_node].
  rewrite lookup_insert_ne, lookup_insert_eq by done. cbn [mbind option_bind nodes with_nodes set_node]. rewrite lookup_insert_ne, lookup_insert_eq by done.
  cbn [mbind option_bind]. rewrite Z2Nat.inj_add, Nat2Z.id, Nat.add_1_r by lia.
  eexists _, _, _. split; [reflexivity|]. split; [|split; [|split; [split|]]].
  - split_and!; [exact (eq_trans Eh4 Eh2)|exact (eq_trans El4 El2)|exact (eq_trans Ea4 Ea2)].
  - cbn. by rewrite En4.
  - cbn. apply lookup_insert_eq.
  - cbn. by rewrite lookup_insert_ne, lookup_insert_eq by done.
  - intros x Hxa Hxb. cbn. rewrite !lookup_insert_ne by done. by rewrite Hn4, Hn3.
  - done.
  - done.
  - done.
  - done.
  - done.
  - done.
  - by split.
Qed.

Lemma split_inv t bp s N P a cn sc ch :
  trie_inv t bp one_each s N P -> nodes t !! a = Some cn -> segment cn !! sc = Some ch ->
  exists t' bp' cn', trie_node_split t a (Z.of_nat sc) = Some (t', a) /\ same_outside t t' /\
    trie_inv t' bp' one_each s N P /\ nodes t' !! a = Some cn' /\ no_entry cn' /\
    full bp' a cn' = bp a ++ take sc (segment cn) /\
    (forall i x, i <> Z.to_nat (TRIE_CHAR2INDEX ch) -> children cn' !! i = Some x -> x = 0).
Proof.
  intros Hi Hn Hs. pose proof (ti_shape _ _ _ _ _ _ Hi) as Hsh.
  destruct (split_code t bp a cn sc ch Hsh (ti_mem _ _ _ _ _ _ Hi) Hn Hs) as (t' & cn' & sn' & E & Ho & En & Hsp & Hno & Hsame).
  destruct Ho as (Eh & El & Ea). pose proof (fresh_node t bp Hsh) as Hfr.
  pose proof (shape_split t t' bp Hsh Eh a cn sc ch cn' sn' Hn Hs ltac:(lia) Hsp) as Hsh'.
  set (b := next_address t) in *. set (bp' := <[b := bp a ++ take sc (segment cn) ++ [ch]]> bp) in *.
  destruct Hsp as [Hcur Hnew Hrest _ _ [Hs1 Hs2] _ (_ & _ & Hcells) _]. fold b in Hnew, Hrest.
  assert (Hab : a <> b) by congruence.
  assert (Hbp : forall x, x <> b -> bp' x = bp x) by (intros; by apply fn_lookup_insert_ne).
  assert (Hseg : segment cn = take sc (segment cn) ++ ch :: drop (S sc) (segment cn)) by (by rewrite take_drop_middle).
  assert (Hfa : full bp' a cn' = bp a ++ take sc (segment cn)) by (unfold full; by rewrite Hs1, Hbp).
  assert (Hfb : full bp' b sn' = full bp a cn).
  { unfold full, bp'. rewrite fn_lookup_insert, Hs2. rewrite Hseg at 3. by rewrite <- !app_assoc. }
  assert (Hadopt : forall x n, same_entry n (adopt b (children cn) x n) /\ segment (adopt b (children cn) x n) = segment n)
    by (intros x n; unfold adopt; by case_decide).
  assert (Hback : forall x m, x <> a -> x <> b -> nodes t' !! x = Some m ->
     exists n, nodes t !! x = Some n /\ same_entry n m /\ full bp' x m = full bp x n).
  { intros x m Hxa Hxb Hm. rewrite Hrest in Hm by done. apply fmap_Some in Hm as (n & Hx & ->).
    destruct (Hadopt x n) as [He Hes]. exists n. split_and!; [done..|]. unfold full. by rewrite Hes, Hbp. }
  exists t', bp', cn'. split_and!; try done.
  2:{ intros i x Hne Hx. destruct (decide (x = 0)) as [|Hx0]; [done|]. by apply (Hcells i x Hne Hx0) in Hx. }
  eapply inv_transfer; [exact Hi|done..| | |].
  - intros x n Hx. right. destruct (decide (x = a)) as [->|Hxa].
    + rewrite Hn in Hx. injection Hx as <-. exists b, sn'. done.
    + assert (x <> b) by congruence. destruct (Hadopt x n) as [He Hes]. exists x, (adopt b (children cn) x n).
      rewrite Hrest, Hx by done. split_and!; try done. unfold full. by rewrite Hes, Hbp.
  - intros x m Hm. destruct (decide (x = a)) as [->|Hxa]; [left; rewrite Hcur in Hm; by injection Hm as <-|right].
    destruct (decide (x = b)) as [->|Hxb].
    + rewrite Hnew in Hm. injection Hm as <-. exists a, cn. done.
    + destruct (Hback x m Hxa Hxb Hm) as (n & ? & ? & ?). eauto.
  - intros x m Hm Hxh. left.
    assert (Hah : a <> header t).
    { intros ->. destruct (sh_header _ _ Hsh) as (h & Hh & _ & Es & _). rewrite Hn in Hh. injection Hh as <-. by rewrite Es in Hs. }
    destruct (decide (x = a)) as [->|Hxa].
    + rewrite Hcur in Hm. injection Hm as <-. exists a, cn. split_and!; [done..|]. rewrite Hfa. unfold full.
      rewrite Hseg at 2. rewrite app_assoc. by apply prefix_app_r.
    + destruct (decide (x = b)) as [->|Hxb].
      * rewrite Hnew in Hm. injection Hm as <-. exists a, cn. by rewrite Hfb.
      * destruct (Hback x m Hxa Hxb Hm) as (n & Hx & _ & ->). eauto.
Qed.

Lemma split_add_inv t bp s N P a cn sc ch d :
  trie_inv t bp one_each s N P -> nodes t !! a = Some cn -> segment cn !! sc = Some ch -> is_byte d -> d <> ch ->
  (exists k, k ∈ P /\ (bp a ++ take sc (segment cn)) ++ [d] `prefix_of` k ++ [0]) ->
  exists t' bp' b, split_and_add t a (Z.of_nat sc) d = Some (t', a, b) /\ same_outside t t' /\
    trie_inv t' bp' one_each s N P /\ at_pos t' bp' b 0 (bp a ++ take sc (segment cn) ++ [d]) /\
    exists n, nodes t' !! a = Some n /\ no_entry n /\ full bp' a n = bp a ++ take sc (segment cn).
Proof.
  intros Hi Hn Hs Hd Hne Hcov.
  destruct (split_inv t bp s N P a cn sc ch Hi Hn Hs) as (t1 & bp1 & cn1 & E1 & Ho1 & Hi1 & Hn1 & Hno1 & Ef1 & Hz1).
  assert (Hb : is_byte ch) by (apply is_char_byte; eapply Forall_lookup_1; [by apply (sh_bytes _ _ (ti_shape _ _ _ _ _ _ Hi) a)|done]).
  pose proof (index_range ch) as Hir. pose proof (index_range d) as Hir'.
  destruct (new_child_inv t1 bp1 s N P a cn1 d Hi1 Hn1 Hd) as (t2 & E2 & Ho2 & Hi2 & Hn2).
  { intros x Hx. eapply Hz1; [|exact Hx]. intros E. apply Hne, index_inj; [done..|lia]. }
  { by rewrite Ef1. }
  pose proof (ti_shape _ _ _ _ _ _ Hi1) as Hsh1. pose proof (fresh_node t1 bp1 Hsh1) as Hfr1.
  pose proof (node_nonzero t bp (ti_shape _ _ _ _ _ _ Hi) a cn Hn) as Ha0.
  exists t2, (<[next_address t1 := full bp1 a cn1 ++ [d]]> bp1), (next_address t1). split_and!.
  - unfold split_and_add. rewrite E1. cbn [mbind option_bind]. destruct (Z.eqb_spec a 0); [done|]. by rewrite E2.
  - by eapply same_outside_trans.
  - done.
  - exists (child_node a d). split_and!; [done|lia|]. rewrite fn_lookup_insert, Ef1, take_0, app_nil_r. by rewrite app_assoc.
  - destruct (new_child_shape t1 bp1 a cn1 d Hsh1 (ti_mem _ _ _ _ _ _ Hi1) Hn1 Hd) as (t2' & cs & E2' & _ & En2 & _).
    { intros x Hx. eapply Hz1; [|exact Hx]. intros E. apply Hne, index_inj; [done..|lia]. }
    rewrite E2 in E2'. injection E2' as <-. exists (with_children cn1 cs (zlen cs)). rewrite En2, lookup_insert_eq.
    split_and!; [done|by destruct Hno1 as (? & ? & ? & ?)..|]. unfold full in *. rewrite fn_lookup_insert_ne by congruence. done.
Qed.

(** ** The loop *)

Lemma insert_step_inv t bp s N P a sc x ch :
  trie_inv t bp one_each s N P -> at_pos t bp a sc x -> is_char ch ->
  (exists k, k ∈ P /\ x ++ [ch] `prefix_of` k ++ [0]) ->
  exists t' bp' b sc', insert_step t a (Z.of_nat sc) ch = Some (t', b, Z.of_nat sc') /\ same_outside t t' /\
    trie_inv t' bp' one_each s N P /\ at_pos t' bp' b sc' (x ++ [ch]).
Proof.
  intros Hi Ha Hcc Hcov. pose proof (is_char_byte ch Hcc) as Hb. pose proof (ti_shape _ _ _ _ _ _ Hi) as Hsh. pose proof (ti_mem _ _ _ _ _ _ Hi) as Hm.
  destruct Ha as (n & Hn & Hs & Ex). assert (Ha : at_pos t bp a sc x) by (by exists n).
  assert (Hsame : same_outside t t) by (by split_and!).
  unfold insert_step. rewrite Hn. cbn [mbind option_bind].
  assert (Hif : (0 <? zlen (segment n)) && (Z.of_nat sc <? zlen (segment n)) = bool_decide (sc < length (segment n))%nat)
    by (unfold zlen; case_bool_decide; apply eq_true_iff_eq; rewrite ?andb_true_iff, ?Z.ltb_lt; split; intros; first [lia|done]).
  rewrite Hif. case_bool_decide as Hlt.
  - destruct (lookup_lt_is_Some_2 (segment n) sc Hlt) as [c Hc]. rewrite Nat2Z.id, Hc. cbn [mbind option_bind].
    destruct (Z.eqb_spec c ch) as [->|Hne].
    + exists t, bp, a, (S sc). split_and!; try done; [by rewrite Nat2Z.inj_succ|]. by eapply at_next.
    + destruct (split_add_inv t bp s N P a n sc c ch Hi Hn Hc Hb ltac:(done)) as (t' & bp' & b & -> & Ho & Hi' & Hat & _); [by rewrite <- Ex|].
      exists t', bp', b, 0%nat. rewrite Ex, <- app_assoc. done.
  - destruct (at_end t bp a n sc x Hn Ha Hlt) as [Es Ef].
    destruct (child_lookup t bp Hsh a n ch Hn Hb) as (c & -> & Hc & Hc0). cbn [mbind option_bind].
    destruct (Z.eqb_spec c 0) as [->|Hne]; cbn [negb].
    2:{ destruct (Hc Hne) as [_ Hat]. rewrite <- Ef in Hat. exists t, bp, c, 0%nat. done. }
    assert (Hadd : exists t' bp' b sc', ('(t', new_node) ← new_child_node t a ch; Some (t', new_node, 0)) = Some (t', b, Z.of_nat sc') /\
      same_outside t t' /\ trie_inv t' bp' one_each s N P /\ at_pos t' bp' b sc' (x ++ [ch])).
    { destruct (new_child_inv t bp s N P a n ch Hi Hn Hb) as (t' & -> & Ho & Hi' & Hn'); [|by rewrite <- Ef|].
      - intros y Hy. destruct (decide (y = 0)) as [|Hy0]; [done|].
        destruct (child_cell t bp Hsh a n ch y Hn Hb Hy Hy0) as (m & Hm' & _ & _ & _ & Eb).
        exfalso. apply (Hc0 eq_refl y 0%nat). exists m. split_and!; [done|lia|]. by rewrite take_0, app_nil_r.
      - eexists t', _, (next_address t), 0%nat. cbn [mbind option_bind]. split_and!; [done|apply Ho..|exact Hi'|].
        exists (child_node a ch). split_and!; [done|lia|]. by rewrite fn_lookup_insert, take_0, app_nil_r, <- Ef. }
    destruct (Z.eqb_spec a (header t)) as [->|Hah]; [exact Hadd|].
    replace (Z.of_nat sc =? zlen (segment n)) with true by (symmetry; apply Z.eqb_eq; unfold zlen; lia).
    rewrite andb_true_r. case_match eqn:Eleaf; [|exact Hadd].
    apply andb_prop in Eleaf as [[Hv%Z.eqb_eq Hnt%bool_decide_eq_true]%andb_prop Hnum%Z.eqb_eq].
    unfold try_alloc. rewrite Hm.
    set (t' := with_mem_used _ _). exists t', bp, a, (S sc).
    assert (Hch : children n = []) by (apply length_zero_iff_nil; pose proof (sh_array _ _ Hsh a n Hn); unfold zlen in *; lia).
    assert (Hsh' : trie_shape t' bp) by (eapply (shape_extend t t' bp Hsh eq_refl a n ch); done).
    assert (Hn' : nodes t' !! a = Some (with_segment n (segment n ++ [ch]))) by (cbn; apply lookup_insert_eq).
    assert (Hrest : forall y, y <> a -> nodes t' !! y = nodes t !! y) by (intros; cbn; by rewrite lookup_insert_ne).
    destruct (ti_dead _ _ _ _ _ _ Hi a n Hn Hv) as [Hk Hr].
    split_and!; try done.
    + by rewrite Nat2Z.inj_succ.
    + eapply inv_transfer; [exact Hi|done..| | |].
      * intros y m Hy. destruct (decide (y = a)) as [->|Hya]; [left; rewrite Hn in Hy; by injection Hy as <-|].
        right. exists y, m. rewrite Hrest by done. done.
      * intros y m Hy. destruct (decide (y = a)) as [->|Hya]; [left; rewrite Hn' in Hy; by injection Hy as <-|].
        right. exists y, m. rewrite Hrest in Hy by done. done.
      * intros y m Hy Hyh. destruct (decide (y = a)) as [->|Hya].
        -- right. rewrite Hn' in Hy. injection Hy as <-. unfold full. cbn. rewrite app_assoc. rewrite Ef in Hcov. exact Hcov.
        -- left. exists y, m. rewrite Hrest in Hy by done. done.
    + eexists. split; [exact Hn'|]. cbn. split; [rewrite length_app; cbn; lia|].
      rewrite take_ge by (rewrite length_app; cbn; lia). rewrite app_assoc. by rewrite Ef.
Qed.

Lemma insert_loop_inv rest : forall t bp s N P a sc x ch,
  trie_inv t bp one_each s N P -> at_pos t bp a sc x -> is_char ch -> Forall is_char rest -> x ++ ch :: rest ∈ P ->
  exists t' bp' b sc', insert_loop t a (Z.of_nat sc) ch rest = Some (t', b, Z.of_nat sc') /\ same_outside t t' /\
    trie_inv t' bp' one_each s N P /\ at_pos t' bp' b sc' (x ++ ch :: rest).
Proof.
  induction rest as [|d rest IH]; intros t bp s N P a sc x ch Hi Ha Hb Hrest HP; cbn [insert_loop].
  all: destruct (insert_step_inv t bp s N P a sc x ch Hi Ha Hb) as (t1 & bp1 & b & s1 & -> & Ho1 & Hi1 & Hat1);
    [eexists; split; [exact HP|]; apply prefix_app_r, prefix_app; by apply prefix_cons, prefix_nil|].
  all: cbn [mbind option_bind]; destruct (Z.eqb_spec b 0) as [->|_];
    [by apply (at_nonzero t1 bp1 (ti_shape _ _ _ _ _ _ Hi1)) in Hat1|].
  - exists t1, bp1, b, s1. done.
  - apply list.Forall_cons in Hrest as [Hd Hrest].
    destruct (IH t1 bp1 s N P b s1 (x ++ [ch]) d Hi1 Hat1 Hd Hrest) as (t2 & bp2 & b2 & s2 & -> & Ho2 & Hi2 & Hat2);
      [by rewrite <- app_assoc|].
    exists t2, bp2, b2, s2. rewrite <- app_assoc in Hat2. split_and!; try done; by eapply same_outside_trans.
Qed.

(** A key gets a node of its own. *)
Lemma insert_inv t bp s N P k :
  trie_inv t bp one_each s N P -> k <> [] -> Forall is_char k -> k ∈ P ->
  exists t' bp' b n, trie_insert t k = Some (t', b) /\ same_outside t t' /\ trie_inv t' bp' one_each s N P /\
    nodes t' !! b = Some n /\ full bp' b n = k.
Proof.
  intros Hi Hk Hb HP. destruct k as [|ch rest]; [done|]. apply list.Forall_cons in Hb as [Hch Hrest]. unfold trie_insert.
  destruct (insert_loop_inv rest t bp s N P (header t) 0 [] ch Hi (at_header t bp (ti_shape _ _ _ _ _ _ Hi)) Hch Hrest HP)
    as (t1 & bp1 & b & sc & E & Ho1 & Hi1 & Hat). change (Z.of_nat 0) with 0 in E. rewrite E. cbn [mbind option_bind].
  pose proof (ti_shape _ _ _ _ _ _ Hi1) as Hsh1. cbn [app] in Hat.
  destruct (Z.eqb_spec b 0) as [->|Hne]; [by apply (at_nonzero t1 bp1 Hsh1) in Hat|].
  pose proof Hat as (n & Hn & Hs & Ek).
  rewrite Hn. cbn [mbind option_bind]. case_match eqn:Eif.
  - apply andb_prop in Eif as [_ Hlt%Z.ltb_lt]. unfold zlen in Hlt.
    destruct (lookup_lt_is_Some_2 (segment n) sc) as [c Hc]; [lia|].
    assert (Hc0 : 0 <> c).
    { pose proof (Forall_lookup_1 _ _ _ _ (sh_bytes _ _ Hsh1 b n Hn) Hc). unfold is_char in *. lia. }
    destruct (split_add_inv t1 bp1 s N P b n sc c 0 Hi1 Hn Hc ltac:(done) Hc0) as (t2 & bp2 & b2 & E2 & Ho2 & Hi2 & Hat2 & n2 & Hn2 & _ & Ef2).
    { exists (ch :: rest). split; [done|]. by rewrite <- Ek. }
    unfold deref_char. cbn [hd]. rewrite E2. cbn [mbind option_bind].
    destruct (Z.eqb_spec b2 0) as [->|_]; [by apply (at_nonzero t2 bp2 (ti_shape _ _ _ _ _ _ Hi2)) in Hat2|].
    exists t2, bp2, b, n2. split_and!; try done; [by eapply same_outside_trans|]. by rewrite Ef2.
  - exists t1, bp1, b, n. split_and!; try done. destruct (at_end t1 bp1 b n sc _ Hn Hat) as [_ Ef]; [|done].
    unfold zlen in Eif. intros Hlt. apply andb_false_iff in Eif as [H|H]; apply Z.ltb_ge in H; lia.
Qed.
