(* ===== verification/TrieOps.v ===== *)
(** * Trie: the operations

    Notifying, releasing, and what each operation does to the contents. *)
From stdpp Require Import functions.
From S2P Require Import Prelude Map Trie TrieShape TrieChange TrieInv TrieInsert.

(** ** Measures *)

(** Removing a node from consideration makes the rest smaller. *)
Lemma filter_smaller (ns : gmap Z trie_node) (P Q : Z * trie_node -> Prop) `{!forall x, Decision (P x), !forall x, Decision (Q x)} c m :
  (forall a n, ns !! a = Some n -> Q (a, n) -> P (a, n)) -> ns !! c = Some m -> P (c, m) -> ~ Q (c, m) ->
  (size (filter Q ns) < size (filter P ns))%nat.
Proof.
  intros HQP Hc HP HQ. apply map_subset_size. split.
  - apply map_subseteq_spec. intros a n [Ha Hq]%map_lookup_filter_Some. apply map_lookup_filter_Some. auto.
  - intros Hsub. rewrite map_subseteq_spec in Hsub. apply HQ.
    assert (Hin : filter P ns !! c = Some m) by (by apply map_lookup_filter_Some).
    apply Hsub, map_lookup_filter_Some in Hin as [_ Hin]. done.
Qed.

(** The number of nodes that end before a length bounds the number of nodes
    above one of that length. *)
Definition shorter (t : trie) (bp : Z -> list Z) (len : nat) : nat :=
  size (filter (fun x : Z * trie_node => (length (full bp (fst x) (snd x)) < len)%nat) (nodes t)).

Lemma shorter_parent t bp a n p :
  trie_shape t bp -> nodes t !! a = Some n -> a <> header t -> nodes t !! parent n = Some p ->
  (shorter t bp (length (full bp (parent n) p)) < shorter t bp (length (full bp a n)))%nat.
Proof.
  intros Hsh Ha Hh Hp. destruct (sh_up _ _ Hsh a n Ha Hh) as (p' & c & Hp' & _ & _ & _ & Eb). rewrite Hp in Hp'. injection Hp' as <-.
  assert (Hl : (length (full bp (parent n) p) < length (full bp a n))%nat).
  { unfold full. rewrite Eb, !length_app. cbn. lia. }
  apply (filter_smaller _ _ _ (parent n) p); [|done|done|cbn; lia]. intros x m _ H. cbn in *. lia.
Qed.

Lemma shorter_fuel t bp len : (shorter t bp len < walk_fuel t)%nat.
Proof. unfold shorter, walk_fuel. apply Nat.lt_succ_r, map_subseteq_size, map_filter_subseteq. Qed.

(** ** Notifying *)

(** The prefixes of [k] with at most [n] characters, the longest first. *)
Fixpoint prefixes_from (k : map_key) (n : nat) : list map_key :=
  take n k :: match n with O => [] | S n' => prefixes_from k n' end.

(** The calls of a change of the key [k]: its own notifiers, then those of its
    prefixes. *)
Definition notifications (N : map_key -> list qb_map_notifier) (k : map_key) (event : Z) (nk : option map_key)
    (old_value value : Z) : list notify_call :=
  concat ((fun y => notify_node (bool_decide (y = k)) event nk old_value value (N y)) <$> prefixes_from k (length k)).

Lemma prefixes_skip {B} (f : map_key -> list B) k n m :
  (m <= n)%nat -> (forall i, (m < i <= n)%nat -> f (take i k) = []) ->
  concat (f <$> prefixes_from k n) = concat (f <$> prefixes_from k m).
Proof.
  induction n as [|n IH]; intros Hm Hf; [by replace m with 0%nat by lia|].
  destruct (decide (m = S n)) as [->|Hne]; [done|]. cbn [prefixes_from fmap list_fmap concat].
  rewrite (Hf (S n)) by lia. apply IH; [lia|]. intros i Hi. apply Hf. lia.
Qed.

Section Operations.
Context (t : trie) (bp : Z -> list Z) (refs : Z -> Z) (s : gmap map_key Z)
  (N : map_key -> list qb_map_notifier) (P : list map_key).
Context (Hi : trie_inv t bp refs s N P).
Let Hsh : trie_shape t bp := ti_shape _ _ _ _ _ _ Hi.

(** No node ends inside another one or between it and its parent. *)
Lemma nothing_between a n p y :
  nodes t !! a = Some n -> a <> header t -> nodes t !! parent n = Some p ->
  y `prefix_of` full bp a n -> (length (full bp (parent n) p) < length y < length (full bp a n))%nat -> N y = [].
Proof.
  intros Ha Hh Hp Hy Hl. destruct (N y) as [|f l] eqn:EN; [done|].
  destruct (ti_notified _ _ _ _ _ _ Hi y) as (b & m & Hb & Ef); [congruence|].
  destruct (sh_up _ _ Hsh a n Ha Hh) as (p' & c & Hp' & _ & _ & _ & Eb). rewrite Hp in Hp'. injection Hp' as <-.
  assert (Hlb : length (bp a) = S (length (full bp (parent n) p))) by (rewrite Eb; unfold full; rewrite !length_app; cbn; lia).
  assert (Hpos : at_pos t bp a (length y - length (bp a)) y).
  { destruct Hy as [z Ez]. exists n. split_and!; [done| |].
    - unfold full in Hl. rewrite !length_app in Hl. lia.
    - assert (E : take (length y) (full bp a n) = y) by (rewrite Ez; apply take_app_length).
      rewrite <- E at 1. unfold full. by rewrite take_app, take_ge by lia. }
  pose proof (at_full t bp b m Hb) as Hbp. rewrite Ef in Hbp.
  destruct (at_unique t bp Hsh _ _ _ _ _ Hpos Hbp) as [-> E]. rewrite Ha in Hb. injection Hb as <-.
  unfold full in Hl. rewrite !length_app in Hl. unfold full in Ef. rewrite <- Ef, length_app in Hl. lia.
Qed.

Lemma notify_loop_spec event nk old_value v a an : nodes t !! a = Some an ->
  forall fuel c cn, nodes t !! c = Some cn -> full bp c cn `prefix_of` full bp a an ->
  (shorter t bp (length (full bp c cn)) < fuel)%nat ->
  notify_loop fuel t a c event nk old_value v =
    Some (concat ((fun y => notify_node (bool_decide (y = full bp a an)) event nk old_value v (N y)) <$>
                  prefixes_from (full bp a an) (length (full bp c cn)))).
Proof.
  intros Ha. set (f := fun y : map_key => notify_node (bool_decide (y = full bp a an)) event nk old_value v (N y)).
  induction fuel as [|fuel IH]; intros c cn Hc Hpre Hf; [lia|]. cbn [notify_loop]. rewrite Hc. cbn [mbind option_bind].
  assert (Ey : take (length (full bp c cn)) (full bp a an) = full bp c cn).
  { destruct Hpre as [z ->]. apply take_app_length. }
  assert (Eown : (a =? c) = bool_decide (full bp c cn = full bp a an)).
  { case_bool_decide as E; [|apply Z.eqb_neq; intros ->; rewrite Ha in Hc; injection Hc as <-; done].
    apply Z.eqb_eq. symmetry. by eapply full_inj. }
  assert (Ecall : notify_node (a =? c) event nk old_value v (node_notifiers cn) = f (full bp c cn)).
  { unfold f. by rewrite Eown, (ti_notifiers _ _ _ _ _ _ Hi c cn Hc). }
  rewrite Ecall. destruct (decide (c = header t)) as [->|Hh].
  - destruct (sh_header _ _ Hsh) as (h & Eh & Hp & Hs & _). rewrite Hc in Eh. injection Eh as <-. rewrite Hp.
    assert (E0 : full bp (header t) cn = []) by (unfold full; by rewrite (sh_bp_header _ _ Hsh), Hs).
    rewrite E0. cbn. by rewrite app_nil_r.
  - destruct (sh_up _ _ Hsh c cn Hc Hh) as (p & d & Hp & _ & _ & _ & Eb).
    pose proof (node_nonzero t bp Hsh _ _ Hp) as Hp0. destruct (Z.eqb_spec (parent cn) 0); [done|].
    pose proof (shorter_parent t bp c cn p Hsh Hc Hh Hp) as Hsp.
    assert (Hpc : full bp (parent cn) p `prefix_of` full bp c cn).
    { unfold full. rewrite Eb. exists (d :: segment cn). by rewrite <- !app_assoc. }
    assert (Hlen : (length (full bp (parent cn) p) < length (full bp c cn))%nat).
    { unfold full. rewrite Eb, !length_app. cbn. lia. }
    rewrite (IH (parent cn) p Hp); [|by etransitivity|lia]. cbn [mbind option_bind]. f_equal.
    destruct (length (full bp c cn)) as [|len] eqn:El; [lia|]. cbn [prefixes_from fmap list_fmap concat]. rewrite Ey. f_equal.
    symmetry. apply prefixes_skip; [lia|]. intros i Hi'. unfold f.
    rewrite (nothing_between c cn p (take i (full bp a an)) Hc Hh Hp); [done| |].
    + destruct Hpre as [z Ez]. rewrite Ez, take_app_le by lia. exists (drop i (full bp c cn)). by rewrite take_drop.
    + rewrite length_take. assert (length (full bp c cn) <= length (full bp a an))%nat by (by apply prefix_length). lia.
Qed.

Lemma notify_spec event nk old_value v a n :
  nodes t !! a = Some n -> trie_notify t a event nk old_value v = Some (notifications N (full bp a n) event nk old_value v).
Proof. intros Ha. apply (notify_loop_spec event nk old_value v a n Ha _ a n Ha); [done|apply shorter_fuel]. Qed.

(** ** Getting *)

Lemma get_spec k : k <> [] -> Forall is_byte k -> trie_get t k = Some (default 0 (s !! k)).
Proof.
  intros Hk Hb. unfold trie_get. destruct (lookup_spec t bp Hsh k true Hk Hb) as (b & -> & H1 & H2). cbn [mbind option_bind].
  destruct (Z.eqb_spec b 0) as [->|Hne].
  - destruct (s !! k) as [v|] eqn:E; [|done]. destruct (ti_has _ _ _ _ _ _ Hi k v E) as (_ & a & n & Ha & Ef & _).
    by apply (H2 eq_refl a n Ha) in Ef.
  - destruct (H1 Hne) as (n & sc & Hn & _ & Ef). rewrite Hn. cbn. by rewrite (value_at t bp s N P refs b n Hi Hn), (Ef eq_refl).
Qed.
End Operations.

(** ** Releasing *)

Lemma scan_down_spec cs : forall i, (i <= length cs)%nat ->
  exists x, scan_down i cs = Some x /\
    (x = 0 -> forall j y, (j < i)%nat -> cs !! j = Some y -> y = 0) /\
    (x <> 0 -> exists j, (j < i)%nat /\ cs !! j = Some x /\ forall l y, (j < l < i)%nat -> cs !! l = Some y -> y = 0).
Proof.
  induction i as [|i IH]; intros Hi; cbn [scan_down].
  - exists 0. split_and!; [done|lia|done].
  - destruct (lookup_lt_is_Some_2 cs i Hi) as [y Hy]. rewrite Hy. cbn [mbind option_bind].
    destruct (Z.eqb_spec y 0) as [->|Hy0].
    + destruct (IH ltac:(lia)) as (x & -> & H1 & H2). exists x. split_and!; [done| |].
      * intros E j z Hj Hz. destruct (decide (j = i)) as [->|]; [congruence|]. apply (H1 E j); [lia|done].
      * intros E. destruct (H2 E) as (j & Hj & Hc & Hz). exists j. split_and!; [lia|done|]. intros l z Hl Hlz.
        destruct (decide (l = i)) as [->|]; [congruence|]. apply (Hz l); [lia|done].
    + exists y. split_and!; [done|done|]. intros _. exists i. split_and!; [lia|done|lia].
Qed.

Lemma scan_children t bp a n :
  trie_shape t bp -> nodes t !! a = Some n ->
  exists x, scan_down (Z.to_nat (num_children n)) (children n) = Some x /\
    (x = 0 -> forall j y, children n !! j = Some y -> y = 0) /\
    (x <> 0 -> exists j, children n !! j = Some x /\ forall l y, (j < l)%nat -> children n !! l = Some y -> y = 0).
Proof.
  intros Hsh Ha. pose proof (sh_array _ _ Hsh a n Ha) as Hl. unfold zlen in Hl.
  destruct (scan_down_spec (children n) (Z.to_nat (num_children n))) as (x & -> & H1 & H2); [lia|]. exists x. split_and!; [done| |].
  - intros E j y Hy. apply (H1 E j); [|done]. apply lookup_lt_Some in Hy. lia.
  - intros E. destruct (H2 E) as (j & Hj & Hc & Hz). exists j. split; [done|]. intros l y Hl' Hy. apply (Hz l); [|done].
    apply lookup_lt_Some in Hy. lia.
Qed.

Lemma release_inv fuel : forall t bp s N P a n,
  trie_inv t bp one_each s N P -> nodes t !! a = Some n -> (size (nodes t) < fuel)%nat ->
  exists t', release_loop fuel t a = Some t' /\ trie_inv t' bp one_each s N P /\ header t' = header t /\ length_ t' = length_ t.
Proof.
  induction fuel as [|fuel IH]; intros t bp s N P a n Hi Ha Hf; [lia|]. cbn [release_loop]. rewrite Ha. cbn [mbind option_bind].
  pose proof (ti_shape _ _ _ _ _ _ Hi) as Hsh. case_match eqn:Eif; [|by exists t].
  apply andb_prop in Eif as [[Hk%bool_decide_eq_true Hp0%negb_true_iff%Z.eqb_neq]%andb_prop Hnt%bool_decide_eq_true].
  destruct (scan_children t bp a n Hsh Ha) as (x & -> & Hx0 & _). cbn [mbind option_bind].
  destruct (Z.eqb_spec x 0) as [->|Hx]; cbn [negb]; [|by exists t]. specialize (Hx0 eq_refl).
  assert (Hh : a <> header t).
  { intros ->. destruct (sh_header _ _ Hsh) as (h & Hh & Hp & _). rewrite Ha in Hh. injection Hh as <-. done. }
  destruct (sh_up _ _ Hsh a n Ha Hh) as (p & c & Hp & _ & _ & Hcell & _). pose proof (parent_ne t bp Hsh a n Ha Hh) as Hpa.
  rewrite Hp. cbn [mbind option_bind]. rewrite Hcell. cbn [mbind option_bind].
  set (p' := with_children p (zset (children p) (idx n) 0) (num_children p)).
  set (t' := with_mem_used _ _).
  assert (En : nodes t' = delete a (<[parent n := p']> (nodes t))) by done.
  assert (Hv : value n = 0).
  { destruct (decide (value n = 0)) as [|Hv]; [done|]. destruct (ti_live _ _ _ _ _ _ Hi a n Ha Hv) as (? & _). congruence. }
  destruct (ti_dead _ _ _ _ _ _ Hi a n Ha Hv) as [_ Hr].
  assert (Hrest : forall y, y <> a -> y <> parent n -> nodes t' !! y = nodes t !! y)
    by (intros; by rewrite En, lookup_delete_ne, lookup_insert_ne).
  assert (Hp' : nodes t' !! parent n = Some p') by (by rewrite En, lookup_delete_ne, lookup_insert_eq).
  assert (Hgone : nodes t' !! a = None) by (by rewrite En, lookup_delete_eq).
  assert (Hi' : trie_inv t' bp one_each s N P).
  { eapply inv_transfer; [exact Hi|by eapply (shape_remove t t' bp Hsh eq_refl a n p)|apply Hi|done| | |].
    - intros y m Hy. destruct (decide (y = a)) as [->|Hya]; [left; rewrite Ha in Hy; by injection Hy as <-|right].
      destruct (decide (y = parent n)) as [->|Hyp]; [|exists y, m; by rewrite Hrest].
      rewrite Hp in Hy. injection Hy as <-. exists (parent n), p'. done.
    - intros y m Hy. right. assert (y <> a) by congruence. destruct (decide (y = parent n)) as [->|Hyp].
      + rewrite Hp' in Hy. injection Hy as <-. exists (parent n), p. done.
      + rewrite Hrest in Hy by done. exists y, m. done.
    - intros y m Hy Hyh. left. assert (y <> a) by congruence. destruct (decide (y = parent n)) as [->|Hyp].
      + rewrite Hp' in Hy. injection Hy as <-. exists (parent n), p. done.
      + rewrite Hrest in Hy by done. exists y, m. done. }
  destruct (IH t' bp s N P (parent n) p' Hi' Hp') as (t2 & E2 & Hi2 & Eh2 & El2).
  { rewrite En, map_size_delete_Some by (rewrite lookup_insert_ne by done; eauto). rewrite map_size_insert_Some by done.
    assert (size (nodes t) <> 0%nat) by (apply map_size_ne_0_lookup; eauto). lia. }
  exists t2. done.
Qed.

(** ** The state between operations *)

Definition trie_rep (t : trie) (s : gmap map_key Z) (N : map_key -> list qb_map_notifier) (P : list map_key) : Prop :=
  exists bp, trie_inv t bp one_each s N P /\ length_ t = u64 (Z.of_nat (size s)).

(** A string that the code can handle as a key. *)
Definition good_key (k : map_key) : Prop := k <> [] /\ Forall is_char k.

Lemma node_of_key t bp refs s N P b n k : trie_inv t bp refs s N P -> nodes t !! b = Some n -> full bp b n = k -> k <> [] -> b <> header t.
Proof.
  intros Hi Hb <- Hk ->. destruct (sh_header _ _ (ti_shape _ _ _ _ _ _ Hi)) as (h & Hh & _ & Hs & _). rewrite Hb in Hh. injection Hh as <-.
  unfold full in Hk. by rewrite Hs, (sh_bp_header _ _ (ti_shape _ _ _ _ _ _ Hi)) in Hk.
Qed.

Lemma u64_add z n : u64 (u64 z + n) = u64 (z + n).
Proof. unfold u64. by rewrite Zplus_mod_idemp_l. Qed.

Lemma put_spec t s N P k v :
  trie_rep t s N P -> good_key k -> v <> 0 ->
  exists t', trie_put t k v =
      Some (t', match s !! k with
                | None => notifications N k QB_MAP_NOTIFY_INSERTED (Some k) 0 v
                | Some old => notifications N k QB_MAP_NOTIFY_REPLACED (Some k) old v
                end) /\
    trie_rep t' (<[k := v]> s) N (k :: P).
Proof.
  intros (bp & Hi & Hlen) [Hk Hb] Hv. unfold trie_put.
  destruct (insert_inv t bp s N (k :: P) k) as (t1 & bp1 & b & n & -> & (Eh & El & Ea) & Hi1 & Hn & Ef); [|done|done|set_solver|].
  { eapply inv_more_paths; [done|set_solver]. }
  cbn [mbind option_bind]. pose proof (node_nonzero t1 bp1 (ti_shape _ _ _ _ _ _ Hi1) b n Hn) as Hb0.
  destruct (Z.eqb_spec b 0); [done|]. rewrite Hn. cbn [mbind option_bind].
  pose proof (node_of_key _ _ _ _ _ _ _ _ _ Hi1 Hn Ef Hk) as Hbh.
  pose proof (value_at t1 bp1 s N (k :: P) one_each b n Hi1 Hn) as Hval. rewrite Ef in Hval.
  destruct (Z.eqb_spec (value n) 0) as [Ev|Ev].
  - assert (Es : s !! k = None).
    { destruct (s !! k) as [w|] eqn:E; [|done]. destruct (ti_has _ _ _ _ _ _ Hi1 k w E) as [? _]. cbn in Hval. congruence. }
    rewrite Es. destruct (ti_dead _ _ _ _ _ _ Hi1 b n Hn Ev) as [_ Hr]. unfold trie_node_ref. cbn [header set_node with_nodes nodes].
    destruct (Z.eqb_spec (header t1) b); [done|]. rewrite lookup_insert_eq. cbn [mbind option_bind refcount with_entry]. rewrite Hr.
    change (u32 (0 + 1)) with 1. set (n' := with_refcount (with_entry n (Some k) v) 1).
    set (t2 := with_length _ _).
    assert (Hi2 : trie_inv t2 bp1 one_each (<[k := v]> s) N (k :: P)).
    { apply (inv_counters (set_node t1 b n')); [|cbn; by rewrite insert_insert_eq|done..].
      eapply inv_ext; [apply (inv_set t1 bp1 s N (k :: P) one_each b n n' Hi1 Hn); try done; by intros _; rewrite Ef|..].
      - intros a m _ _. cbn. destruct (decide (a = b)) as [->|]; [by rewrite fn_lookup_insert|by rewrite fn_lookup_insert_ne].
      - unfold set_pair. rewrite Ef. cbn. by rewrite decide_False.
      - intros y. exact (eq_sym (notifiers_same t1 bp1 s N (k :: P) one_each b n Hi1 Hn y)). }
    assert (Hn2 : nodes t2 !! b = Some n') by (cbn; apply lookup_insert_eq).
    assert (Ef2 : full bp1 b n' = k) by done.
    rewrite (notify_spec t2 bp1 one_each _ N (k :: P) Hi2 _ _ _ _ b n' Hn2), Ef2. cbn [mbind option_bind].
    exists t2. split; [done|]. exists bp1. split; [done|]. cbn. rewrite El, Hlen, map_size_insert_None, u64_add by done. f_equal. lia.
  - destruct (ti_live _ _ _ _ _ _ Hi1 b n Hn Ev) as (Hkey & Hr & Es). rewrite Ef in Hkey, Es. rewrite Es, Hkey.
    set (n' := with_entry n (Some k) v). set (t2 := set_node t1 b n').
    assert (Hi2 : trie_inv t2 bp1 one_each (<[k := v]> s) N (k :: P)).
    { eapply inv_ext; [apply (inv_set t1 bp1 s N (k :: P) one_each b n n' Hi1 Hn); try done; by intros _; rewrite Ef|..].
      - intros a m _ _. cbn. rewrite Hr. destruct (decide (a = b)) as [->|]; [by rewrite fn_lookup_insert|by rewrite fn_lookup_insert_ne].
      - unfold set_pair. rewrite Ef. cbn. by rewrite decide_False.
      - intros y. exact (eq_sym (notifiers_same t1 bp1 s N (k :: P) one_each b n Hi1 Hn y)). }
    assert (Hn2 : nodes t2 !! b = Some n') by (cbn; apply lookup_insert_eq).
    assert (Ef2 : full bp1 b n' = k) by done.
    rewrite (notify_spec t2 bp1 one_each _ N (k :: P) Hi2 _ _ _ _ b n' Hn2), Ef2. cbn [mbind option_bind].
    exists t2. split; [done|]. exists bp1. split; [done|]. change (length_ t2) with (length_ t1).
    rewrite El, Hlen, map_size_insert_Some by eauto. done.
Qed.

Lemma rm_present t s N P k v :
  trie_rep t s N P -> good_key k -> s !! k = Some v ->
  exists t', trie_rm t k = Some (t', QB_TRUE, notifications N k QB_MAP_NOTIFY_DELETED (Some k) v 0) /\ trie_rep t' (delete k s) N P.
Proof.
  intros (bp & Hi & Hlen) [Hk Hb] Hs. pose proof (ti_shape _ _ _ _ _ _ Hi) as Hsh. unfold trie_rm.
  destruct (ti_has _ _ _ _ _ _ Hi k v Hs) as (Hv & a & n & Ha & Ef & Ev).
  destruct (lookup_spec t bp Hsh k true Hk (chars_bytes k Hb)) as (b & -> & H1 & H2). cbn [mbind option_bind].
  destruct (Z.eqb_spec b 0) as [->|Hb0]; [by apply (H2 eq_refl a n Ha) in Ef|].
  destruct (H1 Hb0) as (n' & sc & Hn & _ & Ef'). specialize (Ef' eq_refl).
  assert (b = a) as -> by (eapply full_inj; [exact Hsh|done..|congruence]). rewrite Ha in Hn. injection Hn as <-. clear Ef'.
  destruct (ti_live _ _ _ _ _ _ Hi a n Ha ltac:(congruence)) as (Hkey & Hr & _). unfold one_each in Hr. rewrite Ef in Hkey.
  unfold trie_node_deref. rewrite Ha. cbn [mbind option_bind]. unfold trie_node_alive. rewrite Hr.
  destruct (Z.eqb_spec (value n) 0); [congruence|]. cbn [orb negb Z.leb Z.compare refcount with_refcount]. change (u32 (1 - 1)) with 0. cbn [Z.ltb Z.compare].
  unfold trie_node_destroy. cbn [nodes set_node with_nodes]. rewrite lookup_insert_eq. cbn [mbind option_bind value with_refcount key].
  destruct (Z.eqb_spec (value n) 0); [congruence|]. rewrite Hkey, Ev.
  set (t1 := with_nodes t (<[a := with_refcount n 0]> (nodes t))).
  pose proof (inv_set_refcount t bp s N P one_each a n 0 Hi Ha ltac:(congruence)) as Hi1. fold t1 in Hi1.
  assert (Hn1 : nodes t1 !! a = Some (with_refcount n 0)) by (cbn; apply lookup_insert_eq).
  rewrite (notify_spec t1 bp _ s N P Hi1 _ _ _ _ a _ Hn1). cbn [mbind option_bind].
  change (full bp a (with_refcount n 0)) with (full bp a n). rewrite Ef.
  set (n2 := with_entry (with_refcount n 0) None 0). set (t2 := set_node t1 a n2).
  assert (Hi2 : trie_inv t2 bp one_each (delete k s) N P).
  { eapply inv_ext; [apply (inv_set t1 bp s N P _ a _ n2 Hi1 Hn1); done|..].
    - intros b m Hb' Hvb. destruct (decide (b = a)) as [->|].
      + cbn in Hb'. rewrite lookup_insert_eq in Hb'. injection Hb' as <-. done.
      + by rewrite !fn_lookup_insert_ne.
    - unfold set_pair. cbn. change (full bp a (with_refcount n 0)) with (full bp a n). by rewrite Ef.
    - intros y. exact (eq_sym (notifiers_same t1 bp s N P _ a _ Hi1 Hn1 y)). }
  assert (Hn2 : nodes t2 !! a = Some n2) by (cbn; apply lookup_insert_eq).
  destruct (release_inv (walk_fuel t2) t2 bp (delete k s) N P a n2 Hi2 Hn2) as (t3 & E3 & Hi3 & Eh3 & El3); [unfold walk_fuel; lia|].
  match goal with |- context [trie_node_release ?x a] => change (trie_node_release x a) with (release_loop (walk_fuel t2) t2 a) end.
  rewrite E3. cbn [mbind option_bind].
  exists (with_length t3 (u64 (length_ t3 - 1))). split; [done|]. exists bp. split; [by eapply inv_counters|].
  cbn. rewrite El3. cbn. rewrite Hlen. unfold Z.sub. rewrite u64_add, map_size_delete_Some by eauto. f_equal.
  assert (size s <> 0%nat) by (apply map_size_ne_0_lookup; eauto). lia.
Qed.

Lemma rm_absent t s N P k :
  trie_rep t s N P -> good_key k -> s !! k = None -> (forall p, p ∈ P -> ~ k `prefix_of` p) ->
  trie_rm t k = Some (t, QB_FALSE, []).
Proof.
  intros (bp & Hi & _) [Hk Hb] Hs HP. pose proof (ti_shape _ _ _ _ _ _ Hi) as Hsh. unfold trie_rm.
  destruct (lookup_spec t bp Hsh k true Hk (chars_bytes k Hb)) as (b & -> & H1 & _). cbn [mbind option_bind].
  destruct (Z.eqb_spec b 0) as [->|Hb0]; [done|]. exfalso. destruct (H1 Hb0) as (n & _ & Hn & _ & Ef). specialize (Ef eq_refl).
  destruct (ti_covered _ _ _ _ _ _ Hi b n Hn (node_of_key _ _ _ _ _ _ _ _ _ Hi Hn Ef Hk)) as (p & Hp & Hpre).
  rewrite Ef in Hpre. destruct Hpre as [z Ez]. destruct z as [|c z _] using rev_ind.
  - rewrite app_nil_r in Ez. rewrite <- Ez in Hb. apply list.Forall_app in Hb as [_ [H0 _]%list.Forall_cons]. unfold is_char in H0. lia.
  - rewrite app_assoc in Ez. apply app_inj_tail in Ez as [Ez _]. apply (HP p Hp). exists z. done.
Qed.

(** ** Notifiers *)

Definition spec_add (keyed : bool) (fn events_ user_data_ : Z) (l : list qb_map_notifier) : list qb_map_notifier * Z :=
  if existsb (fun f => (has_flag events_ QB_MAP_NOTIFY_FREE && (events f =? events_))
                    || ((events f =? events_) && (callback f =? fn) && (user_data f =? user_data_))) l
  then (l, - EEXIST)
  else
    let f := {| callback := fn; events := events_; user_data := user_data_ |} in
    (if has_flag events_ (if keyed then QB_MAP_NOTIFY_RECURSIVE else QB_MAP_NOTIFY_FREE) then l ++ [f] else f :: l, 0).

Definition spec_del (fn events_ : Z) (cmp_userdata : bool) (user_data_ : Z) (l : list qb_map_notifier) : list qb_map_notifier * Z :=
  let matches := del_matches fn events_ cmp_userdata user_data_ in
  if existsb matches l then (List.filter (fun f => negb (matches f)) l, 0) else (l, - ENOENT).

(** The contents of a node in its place but for its notifiers. *)
Lemma inv_set_notifiers t bp s N P a n l :
  trie_inv t bp one_each s N P -> nodes t !! a = Some n ->
  trie_inv (set_node t a (with_notifiers n l)) bp one_each s (<[full bp a n := l]> N) P.
Proof.
  intros Hi Ha. eapply inv_ext; [apply (inv_set t bp s N P one_each a n (with_notifiers n l) Hi Ha); try done|..].
  - intros ->. destruct (sh_header _ _ (ti_shape _ _ _ _ _ _ Hi)) as (h & Hh & _ & _ & Hv). cbn. congruence.
  - apply (ti_dead _ _ _ _ _ _ Hi a n Ha).
  - intros Hv. exact (proj1 (ti_live _ _ _ _ _ _ Hi a n Ha Hv)).
  - intros b m Hb Hv. cbn in Hb. destruct (decide (b = a)) as [->|]; [|by rewrite fn_lookup_insert_ne].
    rewrite lookup_insert_eq in Hb. injection Hb as <-. rewrite fn_lookup_insert. cbn in *.
    destruct (ti_live _ _ _ _ _ _ Hi a n Ha Hv) as (_ & -> & _). done.
  - exact (eq_sym (set_pair_same t bp s N P one_each a n Hi Ha)).
  - done.
Qed.

Definition key_path (k : option map_key) : map_key := default [] k.
Definition more_paths (k : option map_key) (P : list map_key) : list map_key :=
  match k with Some k => k :: P | None => P end.
Definition good_place (k : option map_key) : Prop := match k with Some k => good_key k | None => True end.

Lemma header_full t bp refs s N P : trie_inv t bp refs s N P -> exists h, nodes t !! header t = Some h /\ full bp (header t) h = [].
Proof.
  intros Hi. pose proof (ti_shape _ _ _ _ _ _ Hi) as Hsh. destruct (sh_header _ _ Hsh) as (h & Hh & _ & Hs & _).
  exists h. split; [done|]. unfold full. by rewrite Hs, (sh_bp_header _ _ Hsh).
Qed.

Lemma notify_add_spec t s N P k fn ev ud e :
  trie_rep t s N P -> good_place k ->
  let '(l, r) := spec_add (bool_decide (is_Some k)) fn ev ud (N (key_path k)) in
  exists t', trie_notify_add t k fn ev ud e = Some (t', r) /\ trie_rep t' s (<[key_path k := l]> N) (more_paths k P).
Proof.
  intros (bp & Hi & Hlen) Hk. destruct (spec_add _ _ _ _ _) as [l r] eqn:Espec.
  assert (Hplace : exists t1 bp1 a n,
    match k with
    | Some k => a ← trie_lookup t k true; if a =? 0 then trie_insert t k else Some (t, a)
    | None => Some (t, header t)
    end = Some (t1, a) /\ trie_inv t1 bp1 one_each s N (more_paths k P) /\ length_ t1 = length_ t /\
    nodes t1 !! a = Some n /\ full bp1 a n = key_path k).
  { destruct k as [k|].
    - destruct Hk as [Hk Hb]. destruct (lookup_spec t bp (ti_shape _ _ _ _ _ _ Hi) k true Hk (chars_bytes k Hb)) as (b & -> & H1 & _).
      cbn [mbind option_bind]. pose proof (inv_more_paths t bp one_each s N P (k :: P) Hi ltac:(set_solver)) as Hi'.
      destruct (Z.eqb_spec b 0) as [->|Hb0].
      + destruct (insert_inv t bp s N (k :: P) k Hi' Hk Hb ltac:(set_solver)) as (t1 & bp1 & b & n & -> & (_ & El & _) & Hi1 & Hn & Ef).
        exists t1, bp1, b, n. done.
      + destruct (H1 Hb0) as (n & _ & Hn & _ & Ef). exists t, bp, b, n. split_and!; [done..|]. by apply Ef.
    - destruct (header_full t bp one_each s N P Hi) as (h & Hh & Ef). exists t, bp, (header t), h. done. }
  destruct Hplace as (t1 & bp1 & a & n & E & Hi1 & El & Hn & Ef). unfold trie_notify_add. rewrite E. cbn [mbind option_bind].
  pose proof (node_nonzero t1 bp1 (ti_shape _ _ _ _ _ _ Hi1) a n Hn). destruct (Z.eqb_spec a 0); [done|]. rewrite Hn. cbn [mbind option_bind].
  assert (EN : node_notifiers n = N (key_path k)) by (rewrite (ti_notifiers _ _ _ _ _ _ Hi1 a n Hn); by rewrite Ef). rewrite EN.
  unfold spec_add in Espec. destruct (existsb _ (N (key_path k))) eqn:Eex.
  - injection Espec as <- <-. exists t1. split; [done|]. exists bp1. split; [|by rewrite El].
    eapply inv_ext; [exact Hi1|done..|]. intros y. destruct (decide (y = key_path k)) as [->|]; [by rewrite fn_lookup_insert|by rewrite fn_lookup_insert_ne].
  - unfold try_alloc. rewrite (ti_mem _ _ _ _ _ _ Hi1). cbn [negb]. injection Espec as El' <-.
    exists (set_node t1 a (with_notifiers n l)). split.
    + rewrite <- El'. by destruct k.
    + exists bp1. split; [|by cbn; rewrite El]. rewrite <- Ef. by apply inv_set_notifiers.
Qed.

Lemma notify_del_spec t s N P k fn ev c ud :
  trie_rep t s N P -> good_place k -> (is_Some k -> N (key_path k) <> []) ->
  let '(l, r) := spec_del fn ev c ud (N (key_path k)) in
  exists t', trie_notify_del t k fn ev c ud = Some (t', r) /\ trie_rep t' s (<[key_path k := l]> N) P.
Proof.
  intros (bp & Hi & Hlen) Hk HN. destruct (spec_del _ _ _ _ _) as [l r] eqn:Espec. pose proof (ti_shape _ _ _ _ _ _ Hi) as Hsh.
  assert (Hplace : exists a n, match k with Some k => trie_lookup t k false | None => Some (header t) end = Some a /\
    nodes t !! a = Some n /\ full bp a n = key_path k).
  { destruct k as [k|].
    - destruct Hk as [Hk Hb]. destruct (ti_notified _ _ _ _ _ _ Hi k (HN ltac:(eauto))) as (a & n & Ha & Ef).
      destruct (lookup_spec t bp Hsh k false Hk (chars_bytes k Hb)) as (b & E & H1 & H2). exists a, n. split_and!; [|done|done].
      pose proof (at_full t bp a n Ha) as Hat. rewrite Ef in Hat. rewrite E. f_equal.
      destruct (decide (b = 0)) as [->|Hb0]; [by apply (H2 eq_refl a n Ha) in Hat|].
      destruct (H1 Hb0) as (m & sc & _ & Hat' & _). by destruct (at_unique t bp Hsh _ _ _ _ _ Hat' Hat).
    - destruct (header_full t bp one_each s N P Hi) as (h & Hh & Ef). exists (header t), h. done. }
  destruct Hplace as (a & n & E & Hn & Ef). unfold trie_notify_del. rewrite E. cbn [mbind option_bind].
  pose proof (node_nonzero t bp Hsh a n Hn). destruct (Z.eqb_spec a 0); [done|]. rewrite Hn. cbn [mbind option_bind].
  assert (EN : node_notifiers n = N (key_path k)) by (rewrite (ti_notifiers _ _ _ _ _ _ Hi a n Hn); by rewrite Ef). rewrite EN.
  unfold spec_del in Espec. destruct (existsb _ (N (key_path k))) eqn:Eex; injection Espec as <- <-.
  - set (l := List.filter _ _). pose proof (inv_set_notifiers t bp s N P a n l Hi Hn) as Hi1. rewrite Ef in Hi1.
    set (t1 := set_node t a (with_notifiers n l)) in *.
    destruct (release_inv (walk_fuel t1) t1 bp s _ P a (with_notifiers n l) Hi1) as (t2 & E2 & Hi2 & _ & El2);
      [cbn; apply lookup_insert_eq|unfold walk_fuel; lia|].
    unfold trie_node_release. fold l t1. rewrite E2. cbn [mbind option_bind]. exists t2. split; [done|]. exists bp. split; [done|].
    by rewrite El2.
  - exists t. split; [done|]. exists bp. split; [|done]. eapply inv_ext; [exact Hi|done..|]. intros y.
    destruct (decide (y = key_path k)) as [->|]; [by rewrite fn_lookup_insert|by rewrite fn_lookup_insert_ne].
Qed.

(** ** Creating *)

Lemma trie_create_rep t : qb_trie_create true [] = Some t -> trie_rep t ∅ (fun _ => []) [].
Proof.
  intros [= <-]. exists (fun _ => []). split; [|done].
  assert (Hone : forall a n, (<[1 := empty_node 0]> ∅ : gmap Z trie_node) !! a = Some n -> a = 1 /\ n = empty_node 0).
  { intros a n [[<- <-]|[_ ?]]%lookup_insert_Some; [done|]. by apply lookup_empty_Some in H. }
  split; cbn [nodes header with_header set_node with_nodes with_num_nodes with_mem_used with_allocator alloc_fails next_address].
  - split; cbn [nodes header with_header set_node with_nodes with_num_nodes with_mem_used with_allocator next_address].
    + exists (empty_node 0). by rewrite lookup_insert_eq.
    + done.
    + intros a n [-> ->]%Hone. lia.
    + by intros a n [-> ->]%Hone.
    + intros a n [-> ->]%Hone. exact (List.Forall_nil _).
    + by intros a n [-> ->]%Hone.
    + by intros a n i c [-> ->]%Hone.
  - by intros a n [-> ->]%Hone.
  - by intros a n [-> ->]%Hone.
  - by intros k v H%lookup_empty_Some.
  - by intros a n [-> ->]%Hone.
  - done.
  - by intros a n [-> ->]%Hone.
  - done.
Qed.
