(* ===== verification/TrieWalk.v ===== *)
(** * Trie: walking

    The order of keys in which the trie is walked, and that going from one node
    to the next one follows it. *)
From stdpp Require Import functions.
From S2P Require Import Prelude Map Trie TrieShape TrieChange TrieInv TrieInsert TrieOps.

(** ** The order of keys

    Lexicographic, with characters compared as signed numbers. *)
Fixpoint key_less (a b : map_key) : bool :=
  match a, b with
  | _, [] => false
  | [], _ :: _ => true
  | x :: a, y :: b => (schar x <? schar y) || ((x =? y) && key_less a b)
  end.

Lemma key_less_irrefl a : key_less a a = false.
Proof. induction a as [|x a IH]; [done|]. cbn. rewrite IH, Z.ltb_irrefl. by rewrite andb_false_r. Qed.

Lemma key_less_cons x a y b : key_less (x :: a) (y :: b) <-> schar x < schar y \/ (x = y /\ key_less a b).
Proof. cbn. rewrite !Is_true_true, orb_true_iff, andb_true_iff, Z.ltb_lt, Z.eqb_eq. done. Qed.

Lemma key_less_trans a : forall b c, key_less a b -> key_less b c -> key_less a c.
Proof.
  induction a as [|x a IH]; intros [|y b] [|z c]; try done.
  rewrite !key_less_cons. intros [H1|[-> H1]] [H2|[-> H2]]; [lia|auto|auto|]. right. eauto.
Qed.

Lemma key_less_asym a b : key_less a b -> key_less b a -> False.
Proof. intros H1 H2. pose proof (key_less_trans _ _ _ H1 H2) as H. by rewrite key_less_irrefl in H. Qed.

Lemma key_less_app w a b : key_less (w ++ a) (w ++ b) <-> key_less a b.
Proof.
  induction w as [|x w IH]; [done|]. cbn [app]. rewrite key_less_cons, IH. intuition lia.
Qed.

Lemma key_less_nil a : a <> [] -> key_less [] a.
Proof. by destruct a. Qed.

Lemma key_less_branch w c d u v : c <> d -> key_less (w ++ c :: u) (w ++ d :: v) <-> schar c < schar d.
Proof. intros H. rewrite key_less_app, key_less_cons. intuition. Qed.

Lemma key_less_prefix a b : a `prefix_of` b -> a <> b -> key_less a b.
Proof.
  intros [z ->] H. rewrite <- (app_nil_r a) at 1. apply key_less_app, key_less_nil. intros ->. by rewrite app_nil_r in H.
Qed.

Lemma key_less_not_prefix a b : key_less a b -> ~ b `prefix_of` a.
Proof.
  intros H Hp. destruct (decide (b = a)) as [->|Hne]; [by rewrite key_less_irrefl in H|].
  exact (key_less_asym _ _ H (key_less_prefix _ _ Hp Hne)).
Qed.

(** What is behind [b] in the order but not below it stays behind everything
    below [b]. *)
Lemma key_less_below a b c : key_less a c -> ~ a `prefix_of` c -> a `prefix_of` b -> key_less b c.
Proof.
  revert b c. induction a as [|x a IH]; intros b c H1 H2 H3; [by destruct H2; apply prefix_nil|].
  destruct c as [|z c]; [done|]. destruct H3 as [w ->]. cbn [app]. apply key_less_cons in H1. apply key_less_cons.
  destruct H1 as [H1|[-> H1]]; [auto|]. right. split; [done|]. apply IH; [done| |by exists w].
  intros Hp. by apply H2, prefix_cons.
Qed.

Lemma key_less_above q a c b : q `prefix_of` a -> key_less a c -> ~ q `prefix_of` c -> q `prefix_of` b -> key_less b c.
Proof.
  intros Hq H Hn Hb. apply (key_less_below q); [|done|done]. destruct (decide (q = a)) as [->|Hne]; [done|].
  eapply key_less_trans; [|exact H]. by apply key_less_prefix.
Qed.

(** ** From a node to the next one *)

Section Next.
Context (t : trie) (bp : Z -> list Z) (Hsh : trie_shape t bp).

(** The child on the way to a node below. *)
Lemma child_below a n c cn d v :
  nodes t !! a = Some n -> nodes t !! c = Some cn -> full bp c cn = full bp a n ++ d :: v ->
  exists y yn, nodes t !! y = Some yn /\ is_byte d /\ children n !! Z.to_nat (TRIE_CHAR2INDEX d) = Some y /\
    full bp y yn `prefix_of` full bp c cn.
Proof.
  intros Ha Hc E. pose proof (at_full t bp c cn Hc) as Hat. rewrite E in Hat. change (d :: v) with ([d] ++ v) in Hat. rewrite app_assoc in Hat.
  destruct (at_prefix t bp Hsh _ _ _ _ Hat) as (y & s & Hy).
  destruct (at_succ t bp Hsh _ _ _ _ _ _ (at_full t bp a n Ha) Hy) as (n' & Hn' & Hcase). rewrite Ha in Hn'. injection Hn' as <-.
  destruct Hcase as [(_ & _ & Hl)|(-> & _ & Hd & Hcell)]; [apply lookup_lt_Some in Hl; lia|].
  pose proof Hy as (yn & Hyn & _). exists y, yn. split_and!; [done..|]. eapply (prefix_full t bp Hsh); [exact Hy|done..|].
  rewrite E. exists v. by rewrite <- app_assoc.
Qed.

Lemma child_full a n ch x : nodes t !! a = Some n -> is_byte ch -> children n !! Z.to_nat (TRIE_CHAR2INDEX ch) = Some x -> x <> 0 ->
  exists xn, nodes t !! x = Some xn /\ full bp x xn = full bp a n ++ ch :: segment xn.
Proof.
  intros Ha Hb Hx Hx0. destruct (child_cell t bp Hsh a n ch x Ha Hb Hx Hx0) as (xn & Hxn & _ & _ & _ & Eb).
  exists xn. split; [done|]. unfold full at 1. rewrite Eb, <- app_assoc. done.
Qed.

Lemma cell_char a n j x : nodes t !! a = Some n -> children n !! j = Some x -> x <> 0 ->
  exists ch xn, is_byte ch /\ j = Z.to_nat (TRIE_CHAR2INDEX ch) /\ nodes t !! x = Some xn /\ full bp x xn = full bp a n ++ ch :: segment xn.
Proof.
  intros Ha Hx Hx0. destruct (sh_down _ _ Hsh a n j x Ha Hx Hx0) as (m & Hm & Hp & Hi & Hh).
  destruct (sh_up _ _ Hsh x m Hm Hh) as (q & ch & _ & Hb & Hi' & _ & _).
  assert (Ej : j = Z.to_nat (TRIE_CHAR2INDEX ch)) by lia. rewrite Ej in Hx.
  destruct (child_full a n ch x Ha Hb Hx Hx0) as (xn & ? & ?). exists ch, xn. done.
Qed.

Lemma index_order c d : (Z.to_nat (TRIE_CHAR2INDEX c) < Z.to_nat (TRIE_CHAR2INDEX d))%nat <-> schar d < schar c.
Proof. pose proof (index_range c). pose proof (index_range d). unfold TRIE_CHAR2INDEX in *. lia. Qed.

(** The least child among those below an index comes before all nodes below the
    children there. *)
Lemma least_child a n j x c cn d v :
  nodes t !! a = Some n -> children n !! j = Some x -> x <> 0 -> nodes t !! c = Some cn ->
  full bp c cn = full bp a n ++ d :: v -> (Z.to_nat (TRIE_CHAR2INDEX d) <= j)%nat ->
  exists xn, nodes t !! x = Some xn /\ (c = x \/ key_less (full bp x xn) (full bp c cn)).
Proof.
  intros Ha Hx Hx0 Hc E Hj. destruct (cell_char a n j x Ha Hx Hx0) as (ch & xn & Hb & -> & Hxn & Ef). exists xn. split; [done|].
  destruct (child_below a n c cn d v Ha Hc E) as (y & yn & Hy & Hd & Hcell & Hpre).
  destruct (decide (Z.to_nat (TRIE_CHAR2INDEX d) = Z.to_nat (TRIE_CHAR2INDEX ch))) as [Eq|Hne].
  - rewrite Eq, Hx in Hcell. injection Hcell as <-. rewrite Hxn in Hy. injection Hy as <-.
    destruct (decide (full bp x xn = full bp c cn)) as [Efc|Hfc].
    + left. symmetry. by eapply full_inj.
    + right. by apply key_less_prefix.
  - right. rewrite Ef, E. apply key_less_branch; [congruence|]. apply index_order. lia.
Qed.

Lemma strict_prefix_cons (a b : map_key) : a `prefix_of` b -> a <> b -> exists d v, b = a ++ d :: v.
Proof. intros [[|d v] ->] H; [by rewrite app_nil_r in H|eauto]. Qed.

(** The first child comes next. *)
Lemma first_child a n :
  nodes t !! a = Some n ->
  exists x, scan_down (Z.to_nat (num_children n)) (children n) = Some x /\
    (x <> 0 -> exists xn, nodes t !! x = Some xn /\ full bp a n `prefix_of` full bp x xn /\ key_less (full bp a n) (full bp x xn) /\
       forall c cn, nodes t !! c = Some cn -> key_less (full bp a n) (full bp c cn) -> c = x \/ key_less (full bp x xn) (full bp c cn)) /\
    (x = 0 -> forall c cn, nodes t !! c = Some cn -> key_less (full bp a n) (full bp c cn) -> ~ full bp a n `prefix_of` full bp c cn).
Proof.
  intros Ha. destruct (scan_children t bp a n Hsh Ha) as (x & -> & H0 & H1). exists x. split_and!; [done| |].
  - intros Hx0. destruct (H1 Hx0) as (j & Hj & Hz). destruct (cell_char a n j x Ha Hj Hx0) as (ch & xn & Hb & Ej & Hxn & Ef).
    exists xn. assert (Hpre : full bp a n `prefix_of` full bp x xn) by (rewrite Ef; by apply prefix_app_r).
    split_and!; [done|done|apply key_less_prefix; [done|]|].
    { rewrite Ef. intros E. apply (f_equal length) in E. rewrite length_app in E. cbn in E. lia. }
    intros c cn Hc Hl. destruct (decide (full bp a n `prefix_of` full bp c cn)) as [Hp|Hp].
    + destruct (strict_prefix_cons _ _ Hp) as (d & v & E); [intros E; rewrite E, key_less_irrefl in Hl; done|].
      destruct (child_below a n c cn d v Ha Hc E) as (y & yn & Hy & Hd & Hcell & _).
      destruct (least_child a n j x c cn d v Ha Hj Hx0 Hc E) as (xn' & Hxn' & Hcase).
      * destruct (decide (j < Z.to_nat (TRIE_CHAR2INDEX d))%nat) as [Hlt|]; [|lia].
        apply (Hz _ y Hlt) in Hcell. by apply (node_nonzero t bp Hsh) in Hy.
      * rewrite Hxn in Hxn'. by injection Hxn' as <-.
    + right. by eapply key_less_below.
  - intros -> c cn Hc Hl Hp. destruct (strict_prefix_cons _ _ Hp) as (d & v & E); [intros E; rewrite E, key_less_irrefl in Hl; done|].
    destruct (child_below a n c cn d v Ha Hc E) as (y & yn & Hy & Hd & Hcell & _). apply (H0 eq_refl) in Hcell.
    by apply (node_nonzero t bp Hsh) in Hy.
Qed.

(** A node above another one is above its parent. *)
Lemma above_parent a n b m p :
  nodes t !! a = Some n -> a <> header t -> nodes t !! b = Some m -> nodes t !! parent n = Some p ->
  full bp b m `prefix_of` full bp a n -> b <> a -> full bp b m `prefix_of` full bp (parent n) p.
Proof.
  intros Ha Hh Hb Hp Hpre Hne. destruct (sh_up _ _ Hsh a n Ha Hh) as (p' & c & Hp' & _ & _ & _ & Eb). rewrite Hp in Hp'. injection Hp' as <-.
  assert (Eb' : bp a = full bp (parent n) p ++ [c]) by (unfold full; by rewrite <- app_assoc).
  destruct (decide (length (full bp b m) <= length (full bp (parent n) p))%nat) as [Hl|Hl].
  - destruct Hpre as [z Ez]. assert (E := f_equal (take (length (full bp b m))) Ez). rewrite take_app_length in E.
    unfold full at 2 in E. rewrite Eb', <- !app_assoc, take_app_le in E by done.
    exists (drop (length (full bp b m)) (full bp (parent n) p)). rewrite <- E at 1. by rewrite take_drop.
  - exfalso. apply Hne. destruct Hpre as [z Ez].
    assert (Hpos : at_pos t bp a (length (full bp b m) - length (bp a)) (full bp b m)).
    { exists n. assert (El := f_equal length Ez). unfold full at 1 in El. rewrite !length_app in El.
      assert (length (bp a) = S (length (full bp (parent n) p))) by (rewrite Eb', length_app; cbn; lia).
      split_and!; [done|lia|]. assert (E := f_equal (take (length (full bp b m))) Ez). rewrite take_app_length in E.
      rewrite <- E at 1. unfold full at 2. rewrite take_app, take_ge by lia. done. }
    by destruct (at_unique t bp Hsh _ _ _ _ _ Hpos (at_full t bp b m Hb)).
Qed.

(** [b] comes next after [a] among the nodes below [r] that satisfy [Q]; 0 when
    there is none. *)
Definition comes_next (Q : trie_node -> Prop) (r : list Z) (a : list Z) (b : Z) : Prop :=
  (b <> 0 -> exists bn, nodes t !! b = Some bn /\ r `prefix_of` full bp b bn /\ key_less a (full bp b bn) /\ Q bn /\
     forall c cn, nodes t !! c = Some cn -> Q cn -> r `prefix_of` full bp c cn -> key_less a (full bp c cn) ->
       c = b \/ key_less (full bp b bn) (full bp c cn)) /\
  (b = 0 -> forall c cn, nodes t !! c = Some cn -> Q cn -> r `prefix_of` full bp c cn -> ~ key_less a (full bp c cn)).

Definition any_node (_ : trie_node) : Prop := True.

(** The next sibling, if there is one. *)
Lemma next_sibling a p pn q :
  nodes t !! p = Some pn -> p <> header t -> nodes t !! parent pn = Some q -> full bp p pn `prefix_of` a ->
  (forall c cn, nodes t !! c = Some cn -> key_less a (full bp c cn) -> ~ full bp p pn `prefix_of` full bp c cn) ->
  exists x, scan_down (Z.to_nat (idx pn)) (children q) = Some x /\
    (x <> 0 -> exists xn, nodes t !! x = Some xn /\ full bp (parent pn) q `prefix_of` full bp x xn /\ key_less a (full bp x xn) /\
       forall c cn, nodes t !! c = Some cn -> key_less a (full bp c cn) -> c = x \/ key_less (full bp x xn) (full bp c cn)) /\
    (x = 0 -> forall c cn, nodes t !! c = Some cn -> key_less a (full bp c cn) -> ~ full bp (parent pn) q `prefix_of` full bp c cn).
Proof.
  intros Hp Hh Hq Hpa Hnot. destruct (sh_up _ _ Hsh p pn Hp Hh) as (q' & e & Hq' & He & Hi & Hcell & Eb). rewrite Hq in Hq'. injection Hq' as <-.
  assert (Ep : full bp p pn = full bp (parent pn) q ++ e :: segment pn) by (unfold full; rewrite Eb, <- !app_assoc; done).
  destruct (scan_down_spec (children q) (Z.to_nat (idx pn))) as (x & -> & H0 & H1); [apply lookup_lt_Some in Hcell; lia|].
  assert (Hqa : full bp (parent pn) q `prefix_of` a) by (etransitivity; [|exact Hpa]; rewrite Ep; by apply prefix_app_r).
  assert (Hbelow : forall c cn, nodes t !! c = Some cn -> key_less a (full bp c cn) -> full bp (parent pn) q `prefix_of` full bp c cn ->
     exists d v, full bp c cn = full bp (parent pn) q ++ d :: v /\ schar e < schar d).
  { intros c cn Hc Hl Hpre. destruct (strict_prefix_cons _ _ Hpre) as (d & v & E).
    { intros E. rewrite <- E in Hl. by apply key_less_not_prefix in Hl. }
    exists d, v. split; [done|]. destruct Hpa as [z Ez]. rewrite Ep, <- app_assoc in Ez. cbn in Ez.
    rewrite Ez, E in Hl. apply key_less_branch in Hl; [done|]. intros ->.
    destruct (child_below (parent pn) q c cn d v Hq Hc E) as (y & yn & Hy & _ & Hcy & Hpy).
    rewrite <- Hi, Hcell in Hcy. injection Hcy as <-. rewrite Hp in Hy. injection Hy as <-.
    apply (Hnot c cn Hc); [|done]. rewrite Ez, E. exact Hl. }
  exists x. split_and!; [done| |].
  - intros Hx0. destruct (H1 Hx0) as (j & Hj & Hjx & Hz).
    destruct (cell_char (parent pn) q j x Hq Hjx Hx0) as (g & xn & Hg & Ej & Hxn & Ef).
    rewrite Hi in Hj, Hz. rewrite Ej in Hj. apply index_order in Hj.
    exists xn. split_and!; [done|rewrite Ef; by apply prefix_app_r| |].
    + destruct Hpa as [z Ez]. rewrite Ez, Ep, Ef, <- app_assoc. cbn. apply key_less_branch; [intros ->; lia|lia].
    + intros c cn Hc Hl. destruct (decide (full bp (parent pn) q `prefix_of` full bp c cn)) as [Hpre|Hpre].
      * destruct (Hbelow c cn Hc Hl Hpre) as (d & v & E & Hed).
        destruct (child_below (parent pn) q c cn d v Hq Hc E) as (y & yn & Hy & Hd & Hcy & _).
        destruct (least_child (parent pn) q j x c cn d v Hq Hjx Hx0 Hc E) as (xn' & Hxn' & Hcase).
        { apply index_order in Hed. destruct (decide (j < Z.to_nat (TRIE_CHAR2INDEX d))%nat) as [Hlt|]; [|lia].
          apply (Hz (Z.to_nat (TRIE_CHAR2INDEX d)) y ltac:(lia)) in Hcy. by apply (node_nonzero t bp Hsh) in Hy. }
        rewrite Hxn in Hxn'. by injection Hxn' as <-.
      * right. eapply key_less_above; [exact Hqa|done|done|]. rewrite Ef. by apply prefix_app_r.
  - intros -> c cn Hc Hl Hpre. destruct (Hbelow c cn Hc Hl Hpre) as (d & v & E & Hed).
    destruct (child_below (parent pn) q c cn d v Hq Hc E) as (y & yn & Hy & Hd & Hcy & _).
    apply index_order in Hed. rewrite <- Hi in Hed. apply (H0 eq_refl _ _ Hed) in Hcy. by apply (node_nonzero t bp Hsh) in Hy.
Qed.

Lemma climb_spec r rn a : nodes t !! r = Some rn -> forall fuel p pn,
  nodes t !! p = Some pn -> p <> r -> full bp r rn `prefix_of` full bp p pn -> full bp p pn `prefix_of` a ->
  (forall c cn, nodes t !! c = Some cn -> key_less a (full bp c cn) -> ~ full bp p pn `prefix_of` full bp c cn) ->
  (shorter t bp (length (full bp p pn)) < fuel)%nat ->
  exists x, climb fuel t r p = Some x /\ comes_next any_node (full bp r rn) a x.
Proof.
  intros Hr. induction fuel as [|fuel IH]; intros p pn Hp Hne Hrp Hpa Hnot Hf; [lia|]. cbn [climb]. rewrite Hp. cbn [mbind option_bind].
  assert (Hh : p <> header t).
  { intros ->. apply Hne. destruct (sh_header _ _ Hsh) as (h & Hh & _ & Hs & _). rewrite Hp in Hh. injection Hh as <-.
    assert (E : full bp (header t) pn = []) by (unfold full; by rewrite (sh_bp_header _ _ Hsh), Hs).
    symmetry. eapply full_inj; [exact Hsh|done..|]. rewrite E in Hrp |- *. by apply prefix_nil_inv. }
  destruct (sh_up _ _ Hsh p pn Hp Hh) as (q & _ & Hq & _). rewrite Hq. cbn [mbind option_bind].
  assert (Hrq : full bp r rn `prefix_of` full bp (parent pn) q) by (eapply above_parent; [done..|congruence]).
  assert (Hqp : full bp (parent pn) q `prefix_of` full bp p pn).
  { destruct (sh_up _ _ Hsh p pn Hp Hh) as (q' & c & Hq' & _ & _ & _ & Eb). rewrite Hq in Hq'. injection Hq' as <-.
    unfold full. rewrite Eb. exists (c :: segment pn). by rewrite <- !app_assoc. }
  destruct (next_sibling a p pn q Hp Hh Hq Hpa Hnot) as (x & -> & H1 & H0). cbn [mbind option_bind].
  destruct (Z.eqb_spec x 0) as [->|Hx0]; cbn [negb].
  - specialize (H0 eq_refl). destruct (Z.eqb_spec (parent pn) r) as [Er|Hpr].
    + exists 0. split; [done|]. split; [done|]. intros _ c cn Hc _ Hpre Hl. rewrite Er, Hr in Hq. injection Hq as <-. rewrite Er in H0.
      by apply (H0 c cn Hc Hl).
    + apply (IH (parent pn) q Hq Hpr Hrq); [by etransitivity|done|].
      pose proof (shorter_parent t bp p pn q Hsh Hp Hh Hq). lia.
  - exists x. split; [done|]. split; [|done]. intros _. destruct (H1 Hx0) as (xn & Hxn & Hqx & Hax & Hleast). exists xn.
    split_and!; [done|by etransitivity|done|done|]. intros c cn Hc _ _ Hl. by apply Hleast.
Qed.

(** The nodes that are still to come. *)
Definition ahead (a : list Z) : nat := size (filter (fun x : Z * trie_node => key_less a (full bp (fst x) (snd x))) (nodes t)).

Lemma ahead_less a b bn : nodes t !! b = Some bn -> key_less a (full bp b bn) -> (ahead (full bp b bn) < ahead a)%nat.
Proof.
  intros Hb Hl. apply (filter_smaller _ _ _ b bn); [|done|done|cbn [fst snd]; rewrite key_less_irrefl; by intros []].
  intros c cn _ H. cbn in *. by eapply key_less_trans.
Qed.

Definition alive (n : trie_node) : Prop := trie_node_alive n = true.

Lemma next_loop_spec r rn : nodes t !! r = Some rn -> forall fuel a n,
  nodes t !! a = Some n -> full bp r rn `prefix_of` full bp a n -> (ahead (full bp a n) < fuel)%nat ->
  exists b, next_loop fuel t r false a = Some b /\ comes_next alive (full bp r rn) (full bp a n) b.
Proof.
  intros Hr. induction fuel as [|fuel IH]; intros a n Ha Hra Hf; [lia|]. cbn [next_loop]. rewrite Ha. cbn [mbind option_bind].
  assert (Hgo : forall x xn, nodes t !! x = Some xn -> full bp r rn `prefix_of` full bp x xn -> key_less (full bp a n) (full bp x xn) ->
     (forall c cn, nodes t !! c = Some cn -> full bp r rn `prefix_of` full bp c cn -> key_less (full bp a n) (full bp c cn) ->
        c = x \/ key_less (full bp x xn) (full bp c cn)) ->
     exists b, (if trie_node_alive xn then Some x else next_loop fuel t r false x) = Some b /\ comes_next alive (full bp r rn) (full bp a n) b).
  { intros x xn Hx Hrx Hax Hleast. pose proof (node_nonzero t bp Hsh x xn Hx) as Hx0. destruct (trie_node_alive xn) eqn:Eal.
    - exists x. split; [done|]. split; [|done]. intros _. exists xn. split_and!; try done. intros c cn Hc _. by apply Hleast.
    - destruct (IH x xn Hx Hrx) as (b & -> & H1 & H0); [pose proof (ahead_less _ x xn Hx Hax); lia|]. exists b. split; [done|].
      assert (Hlater : forall c cn, nodes t !! c = Some cn -> alive cn -> full bp r rn `prefix_of` full bp c cn ->
         key_less (full bp a n) (full bp c cn) -> key_less (full bp x xn) (full bp c cn)).
      { intros c cn Hc Hal Hpre Hl. destruct (Hleast c cn Hc Hpre Hl) as [->|]; [|done].
        rewrite Hx in Hc. injection Hc as <-. unfold alive in Hal. congruence. }
      split.
      + intros Hb. destruct (H1 Hb) as (bn & Hbn & ? & ? & ? & Hleast'). exists bn. split_and!; try done; [by eapply key_less_trans|]. eauto 10.
      + intros Hb c cn Hc Hal Hpre Hl. eapply H0; eauto. }
  destruct (first_child a n Ha) as (x & -> & H1 & H0). cbn [mbind option_bind]. destruct (Z.eqb_spec x 0) as [->|Hx0]; cbn [negb].
  - specialize (H0 eq_refl). destruct (Z.eqb_spec a r) as [->|Har].
    + exists 0. split; [done|]. split; [done|]. intros _ c cn Hc _ Hpre Hl. rewrite Ha in Hr. injection Hr as <-. by apply (H0 c cn Hc Hl).
    + destruct (climb_spec r rn (full bp a n) Hr (walk_fuel t) a n Ha Har Hra ltac:(done) H0 (shorter_fuel t bp _)) as (x & -> & Hx1 & Hx2).
      cbn [mbind option_bind]. destruct (Z.eqb_spec x 0) as [->|Hx0].
      * exists 0. split; [done|]. split; [done|]. intros _ c cn Hc _. by apply (Hx2 eq_refl c cn Hc).
      * destruct (Hx1 Hx0) as (xn & Hxn & Hrx & Hax & _ & Hleast). rewrite Hxn. cbn [mbind option_bind orb].
        destruct (Z.eqb_spec x r) as [->|Hxr].
        { exfalso. rewrite Hr in Hxn. injection Hxn as <-. by apply key_less_not_prefix in Hax. }
        apply Hgo; [done..|]. intros c cn Hc. by apply Hleast.
  - destruct (H1 Hx0) as (xn & Hxn & Hax & Hl & Hleast). rewrite Hxn. cbn [mbind option_bind orb]. apply Hgo; [done|by etransitivity|done|].
    intros c cn Hc _. by apply Hleast.
Qed.

Lemma node_next_spec r rn a n :
  nodes t !! r = Some rn -> nodes t !! a = Some n -> full bp r rn `prefix_of` full bp a n ->
  exists b, trie_node_next t a r false = Some b /\ comes_next alive (full bp r rn) (full bp a n) b.
Proof.
  intros Hr Ha Hra. apply (next_loop_spec r rn Hr _ a n Ha Hra).
  unfold ahead, walk_fuel. apply Nat.lt_succ_r, map_subseteq_size, map_filter_subseteq.
Qed.
End Next.
