(* ===== verification/TrieTheorems.v ===== *)
(** * Trie: theorems

    A trie behaves like a finite map with notifiers at strings, and walks visit
    the pairs below a prefix in the order of their keys. *)
From stdpp Require Import functions.
From S2P Require Import Prelude Map Trie TrieShape TrieChange TrieInv TrieInsert TrieOps TrieWalk.

(** ** The abstract map

    The pairs, the notifiers at each string and the strings that were ever put or
    given a notifier. *)
Record trie_spec := {
  sp_pairs : gmap map_key Z;
  sp_notifiers : map_key -> list qb_map_notifier;
  sp_paths : list map_key;
}.

Inductive trie_op :=
  | T_put (k : map_key) (v : Z)
  | T_get (k : map_key)
  | T_rm (k : map_key)
  | T_count
  | T_notify_add (k : option map_key) (fn events_ user_data_ : Z)
  | T_notify_del (k : option map_key) (fn events_ : Z)
  | T_notify_del_2 (k : option map_key) (fn events_ user_data_ : Z).

(** A call through the table, its result and the callbacks it made. *)
Definition trie_step (t : option trie) (op : trie_op) : option trie * Z * list notify_call :=
  match op with
  | T_put k v => let '(t, calls) := qb_map_put trie_map t k v 0 in (t, 0, calls)
  | T_get k => (t, qb_map_get trie_map t k, [])
  | T_rm k => qb_map_rm trie_map t k
  | T_count => (t, qb_map_count_get trie_map t, [])
  | T_notify_add k fn ev ud => let '(t, r) := qb_map_notify_add trie_map t k fn ev ud 0 in (t, r, [])
  | T_notify_del k fn ev => let '(t, r) := qb_map_notify_del trie_map t k fn ev in (t, r, [])
  | T_notify_del_2 k fn ev ud => let '(t, r) := qb_map_notify_del_2 trie_map t k fn ev ud in (t, r, [])
  end.

Definition with_notified (sp : trie_spec) (k : option map_key) (l : list qb_map_notifier) (P : list map_key) : trie_spec :=
  {| sp_pairs := sp_pairs sp; sp_notifiers := <[key_path k := l]> (sp_notifiers sp); sp_paths := P |}.

Definition spec_step (sp : trie_spec) (op : trie_op) : trie_spec * Z * list notify_call :=
  match op with
  | T_put k v =>
    ({| sp_pairs := <[k := v]> (sp_pairs sp); sp_notifiers := sp_notifiers sp; sp_paths := k :: sp_paths sp |}, 0,
     match sp_pairs sp !! k with
     | None => notifications (sp_notifiers sp) k QB_MAP_NOTIFY_INSERTED (Some k) 0 v
     | Some old => notifications (sp_notifiers sp) k QB_MAP_NOTIFY_REPLACED (Some k) old v
     end)
  | T_get k => (sp, default 0 (sp_pairs sp !! k), [])
  | T_rm k =>
    match sp_pairs sp !! k with
    | None => (sp, QB_FALSE, [])
    | Some v =>
      ({| sp_pairs := delete k (sp_pairs sp); sp_notifiers := sp_notifiers sp; sp_paths := sp_paths sp |}, QB_TRUE,
       notifications (sp_notifiers sp) k QB_MAP_NOTIFY_DELETED (Some k) v 0)
    end
  | T_count => (sp, u64 (Z.of_nat (size (sp_pairs sp))), [])
  | T_notify_add k fn ev ud =>
    if bool_decide (is_Some k) && has_flag ev QB_MAP_NOTIFY_FREE then (sp, - EINVAL, [])
    else
      let '(l, r) := spec_add (bool_decide (is_Some k)) fn ev ud (sp_notifiers sp (key_path k)) in
      (with_notified sp k l (more_paths k (sp_paths sp)), r, [])
  | T_notify_del k fn ev =>
    let '(l, r) := spec_del fn ev false 0 (sp_notifiers sp (key_path k)) in (with_notified sp k l (sp_paths sp), r, [])
  | T_notify_del_2 k fn ev ud =>
    let '(l, r) := spec_del fn ev true ud (sp_notifiers sp (key_path k)) in (with_notified sp k l (sp_paths sp), r, [])
  end.

(** Keys are not empty, values not NULL.  A key that is removed is there, or is
    not a prefix of a string that was put; a notifier is deleted from a string that
    has one. *)
Definition allowed (sp : trie_spec) (op : trie_op) : Prop :=
  match op with
  | T_put k v => good_key k /\ v <> 0
  | T_get k => good_key k
  | T_rm k => good_key k /\ (is_Some (sp_pairs sp !! k) \/ forall p, p ∈ sp_paths sp -> ~ k `prefix_of` p)
  | T_count => True
  | T_notify_add k _ _ _ => good_place k
  | T_notify_del k _ _ | T_notify_del_2 k _ _ _ => good_place k /\ (is_Some k -> sp_notifiers sp (key_path k) <> [])
  end.

Fixpoint trie_run (t : option trie) (ops : list trie_op) : option trie * list (Z * list notify_call) :=
  match ops with
  | [] => (t, [])
  | op :: ops => let '(t, r, calls) := trie_step t op in let '(t, rs) := trie_run t ops in (t, (r, calls) :: rs)
  end.

Fixpoint spec_run (sp : trie_spec) (ops : list trie_op) : trie_spec * list (Z * list notify_call) :=
  match ops with
  | [] => (sp, [])
  | op :: ops => let '(sp, r, calls) := spec_step sp op in let '(sp, rs) := spec_run sp ops in (sp, (r, calls) :: rs)
  end.

Fixpoint all_allowed (sp : trie_spec) (ops : list trie_op) : Prop :=
  match ops with
  | [] => True
  | op :: ops => allowed sp op /\ all_allowed (fst (fst (spec_step sp op))) ops
  end.

Definition spec_start : trie_spec := {| sp_pairs := ∅; sp_notifiers := fun _ => []; sp_paths := [] |}.

(** The trie implements the abstract map. *)
Definition implements (t : option trie) (sp : trie_spec) : Prop :=
  exists t0, t = Some t0 /\ trie_rep t0 (sp_pairs sp) (sp_notifiers sp) (sp_paths sp).

Lemma step_refines t sp op :
  implements t sp -> allowed sp op ->
  snd (fst (trie_step t op)) = snd (fst (spec_step sp op)) /\ snd (trie_step t op) = snd (spec_step sp op) /\
  implements (fst (fst (trie_step t op))) (fst (fst (spec_step sp op))).
Proof.
  intros (t0 & -> & Hr) Ha. destruct op as [k v|k|k| |k fn ev ud|k fn ev|k fn ev ud]; cbn [allowed] in Ha.
  - destruct Ha as [Hk Hv]. destruct (put_spec t0 _ _ _ k v Hr Hk Hv) as (t' & E & Hr'). unfold trie_step, qb_map_put. cbn. rewrite E. cbn.
    split_and!; [done..|]. by exists t'.
  - unfold trie_step, qb_map_get. cbn. destruct Hr as (bp & Hi & Hl). destruct Ha as [Hk Hb].
    rewrite (get_spec t0 bp one_each _ _ _ Hi k Hk (chars_bytes k Hb)). split_and!; [done..|]. exists t0. split; [done|]. by exists bp.
  - destruct Ha as [Hk Hcase]. unfold trie_step, qb_map_rm. cbn. destruct (sp_pairs sp !! k) as [v|] eqn:Es.
    + destruct (rm_present t0 _ _ _ k v Hr Hk Es) as (t' & -> & Hr'). cbn. split_and!; [done..|]. by exists t'.
    + destruct Hcase as [[? ?]|Hcase]; [congruence|]. rewrite (rm_absent t0 _ _ _ k Hr Hk Es Hcase). cbn. split_and!; [done..|]. by exists t0.
  - pose proof Hr as (bp & _ & Hl). cbn. split_and!; [done..|]. by exists t0.
  - unfold trie_step, spec_step, qb_map_notify_add. cbn [notify_add trie_map].
    pose proof (notify_add_spec t0 _ _ _ k fn ev ud 0 Hr Ha) as H. destruct (spec_add _ _ _ _ _) as [l r]. destruct H as (t' & E & Hr').
    destruct k as [k|]; cbn [run_fault].
    + rewrite bool_decide_eq_true_2 by eauto. cbn [andb]. destruct (has_flag ev QB_MAP_NOTIFY_FREE); [split_and!; [done..|]; by exists t0|].
      rewrite E. split_and!; [done..|]. by exists t'.
    + rewrite bool_decide_eq_false_2 by (by intros [? ?]). cbn [andb]. rewrite E. split_and!; [done..|]. by exists t'.
  - destruct Ha as [Hk HN]. unfold trie_step, spec_step, qb_map_notify_del. cbn [notify_del trie_map run_fault].
    pose proof (notify_del_spec t0 _ _ _ k fn ev false 0 Hr Hk HN) as H. destruct (spec_del _ _ _ _ _) as [l r]. destruct H as (t' & -> & Hr').
    split_and!; [done..|]. by exists t'.
  - destruct Ha as [Hk HN]. unfold trie_step, spec_step, qb_map_notify_del_2. cbn [notify_del trie_map run_fault].
    pose proof (notify_del_spec t0 _ _ _ k fn ev true ud Hr Hk HN) as H. destruct (spec_del _ _ _ _ _) as [l r]. destruct H as (t' & -> & Hr').
    split_and!; [done..|]. by exists t'.
Qed.

Lemma trie_run_refines ops : forall t sp, implements t sp -> all_allowed sp ops ->
  snd (trie_run t ops) = snd (spec_run sp ops) /\ implements (fst (trie_run t ops)) (fst (spec_run sp ops)).
Proof.
  induction ops as [|op ops IH]; intros t sp Hi; cbn [trie_run spec_run all_allowed]; [done|]. intros [Ha Hall].
  destruct (step_refines t sp op Hi Ha) as (E1 & E2 & Hi').
  destruct (trie_step t op) as [[t1 r] calls], (spec_step sp op) as [[sp1 r'] calls']. cbn in E1, E2, Hi', Hall. subst.
  destruct (IH t1 sp1 Hi' Hall) as [E Hi2]. destruct (trie_run t1 ops), (spec_run sp1 ops). cbn in *. by rewrite E.
Qed.

