(* ===== verification/TrieIter.v ===== *)
(** * Trie: iterators

    A walk with an iterator visits the pairs below its prefix once each, in the
    order of their keys, and leaves the trie as it was. *)
From stdpp Require Import functions.
From S2P Require Import Prelude Map Trie TrieShape TrieChange TrieInv TrieInsert TrieOps TrieWalk TrieTheorems.
From S2P Require Import Cstring.

(** ** What is left of a walk *)

(** [rest] are the pairs of [s] whose keys satisfy [todo], in order. *)
Definition to_visit (s : gmap map_key Z) (todo : map_key -> Prop) (rest : list (map_key * Z)) : Prop :=
  StronglySorted (fun a b => key_less a b) rest.*1 /\ forall k v, (k, v) ∈ rest <-> s !! k = Some v /\ todo k.

Lemma to_visit_nil s todo : (forall k v, s !! k = Some v -> ~ todo k) -> to_visit s todo [].
Proof. intros H. split; [constructor|]. intros k v. split; [by intros ?%elem_of_nil|]. intros [Hk Ht]. by apply H in Hk. Qed.

(** The least pair comes first. *)
Lemma to_visit_cons s todo rest k v :
  to_visit s todo rest -> s !! k = Some v -> todo k ->
  (forall k' v', s !! k' = Some v' -> todo k' -> k' = k \/ key_less k k') ->
  exists rest', rest = (k, v) :: rest' /\ to_visit s (fun k' => todo k' /\ key_less k k') rest'.
Proof.
  intros [Hs Hin] Hk Ht Hleast. destruct rest as [|[k1 v1] rest]; [exfalso; eapply elem_of_nil; by apply Hin|].
  cbn in Hs. apply StronglySorted_inv in Hs as [Hs Hall].
  assert (Hafter : forall k' v', (k', v') ∈ rest -> key_less k1 k').
  { intros k' v' H'. rewrite List.Forall_forall in Hall. apply Hall. apply list_elem_of_In. apply list_elem_of_fmap. by exists (k', v'). }
  destruct (proj1 (Hin k1 v1)) as [Hk1 Ht1]; [by apply list_elem_of_here|].
  assert (E : k1 = k).
  { destruct (Hleast k1 v1 Hk1 Ht1) as [|Hl]; [done|].
    assert (H' : (k, v) ∈ (k1, v1) :: rest) by (by apply Hin). apply elem_of_cons in H' as [[= -> ->]|H']; [done|].
    apply Hafter in H'. by destruct (key_less_asym _ _ Hl H'). }
  subst k1. rewrite Hk in Hk1. injection Hk1 as ->. exists rest. split; [done|]. split; [done|].
  intros k' v'. split.
  - intros H'. pose proof (Hafter k' v' H') as Hl. destruct (proj1 (Hin k' v')) as [? ?]; [by apply list_elem_of_further|]. done.
  - intros (Hk' & Ht' & Hl). assert (H' : (k', v') ∈ (k, v1) :: rest) by (by apply Hin).
    apply elem_of_cons in H' as [[= -> ->]|H']; [by rewrite key_less_irrefl in Hl|done].
Qed.

Lemma to_visit_ext s todo todo' rest :
  to_visit s todo rest -> (forall k v, s !! k = Some v -> todo k <-> todo' k) -> to_visit s todo' rest.
Proof.
  intros [Hs Hin] H. split; [done|]. intros k v. rewrite Hin. split; intros [Hk Ht]; (split; [done|]); by apply (H k v Hk).
Qed.

(** ** Iterators at work *)

Definition two_at (a : Z) : Z -> Z := <[a := 2]> one_each.

Section Iter.
Context (N : map_key -> list qb_map_notifier) (P : list map_key).

(** The iterator is on a node it has returned, or at the start of a walk. *)
Definition iter_state (t : trie) (bp : Z -> list Z) (si : trie_iter) (s : gmap map_key Z) (rest : list (map_key * Z)) : Prop :=
  (exists n rn, nodes t !! iter_n si = Some n /\ nodes t !! iter_root si = Some rn /\
     full bp (iter_root si) rn `prefix_of` full bp (iter_n si) n /\
     (iter_n si = header t /\ prefix si = None \/ value n <> 0) /\
     to_visit s (fun k => full bp (iter_root si) rn `prefix_of` k /\ key_less (full bp (iter_n si) n) k) rest) \/
  (exists pre, iter_n si = header t /\ prefix si = Some pre /\ good_key pre /\ to_visit s (fun k => pre `prefix_of` k) rest).

Definition tr_iter (ot : option trie) (si : trie_iter) (s : gmap map_key Z) (rest : list (map_key * Z)) : Prop :=
  exists t bp, ot = Some t /\ length_ t = u64 (Z.of_nat (size s)) /\ trie_inv t bp (two_at (iter_n si)) s N P /\ iter_state t bp si s rest.

Definition tr_rep (ot : option trie) (s : gmap map_key Z) : Prop := exists t, ot = Some t /\ trie_rep t s N P.

Section Step.
Context (t : trie) (bp : Z -> list Z) (cur : Z) (s : gmap map_key Z).
Context (Hi : trie_inv t bp (two_at cur) s N P).
Let Hsh : trie_shape t bp := ti_shape _ _ _ _ _ _ Hi.

Lemma alive_value a n : nodes t !! a = Some n -> alive n <-> value n <> 0.
Proof.
  intros Ha. unfold alive, trie_node_alive. rewrite negb_true_iff, orb_false_iff, Z.eqb_neq. split; [tauto|]. intros Hv. split; [done|].
  destruct (ti_live _ _ _ _ _ _ Hi a n Ha Hv) as (_ & -> & _). unfold two_at, one_each.
  destruct (decide (a = cur)) as [->|]; [by rewrite fn_lookup_insert|by rewrite fn_lookup_insert_ne].
Qed.

Lemma key_nonempty k v : s !! k = Some v -> k <> [].
Proof.
  intros Hk ->. destruct (ti_has _ _ _ _ _ _ Hi [] v Hk) as (Hv & a & n & Ha & Ef & Ev).
  apply (header_dead t bp s N P (two_at cur) a n Hi Ha); [congruence|].
  destruct (header_full t bp _ s N P Hi) as (h & Hh & Eh). eapply full_inj; [exact Hsh|done..|congruence].
Qed.

(** The nodes that come next are the keys that come next. *)
Lemma next_key r a b :
  comes_next t bp alive r a b ->
  (b <> 0 -> exists bn, nodes t !! b = Some bn /\ value bn <> 0 /\ r `prefix_of` full bp b bn /\ key_less a (full bp b bn) /\
     forall k v, s !! k = Some v -> r `prefix_of` k /\ key_less a k -> k = full bp b bn \/ key_less (full bp b bn) k) /\
  (b = 0 -> forall k v, s !! k = Some v -> ~ (r `prefix_of` k /\ key_less a k)).
Proof.
  intros [H1 H0].
  assert (Hnode : forall k v, s !! k = Some v -> exists c cn, nodes t !! c = Some cn /\ alive cn /\ full bp c cn = k).
  { intros k v Hk. destruct (ti_has _ _ _ _ _ _ Hi k v Hk) as (Hv & c & cn & Hc & Ef & Ev). exists c, cn. split_and!; [done| |done].
    apply (alive_value c cn Hc). congruence. }
  split.
  - intros Hb. destruct (H1 Hb) as (bn & Hbn & Hr & Hl & Hal & Hleast). exists bn. split_and!; [done|by apply (alive_value b)|done|done|].
    intros k v Hk [Hrk Hlk]. destruct (Hnode k v Hk) as (c & cn & Hc & Hac & <-).
    destruct (Hleast c cn Hc Hac Hrk Hlk) as [->|]; [left|by right]. rewrite Hbn in Hc. by injection Hc as <-.
  - intros Hb k v Hk [Hrk Hlk]. destruct (Hnode k v Hk) as (c & cn & Hc & Hac & <-). by apply (H0 Hb c cn Hc Hac Hrk).
Qed.

(** Where the iterator goes, and what is left to visit from there. *)
Lemma advance_spec si rest pn :
  iter_n si = cur -> iter_state t bp si s rest -> nodes t !! cur = Some pn ->
  exists root b, iter_advance t si pn = Some (root, b) /\ b <> cur /\
    (b = 0 -> rest = []) /\
    (b <> 0 -> exists bn rn rest', nodes t !! b = Some bn /\ value bn <> 0 /\ nodes t !! root = Some rn /\
       full bp root rn `prefix_of` full bp b bn /\ rest = (full bp b bn, value bn) :: rest' /\
       to_visit s (fun k => full bp root rn `prefix_of` k /\ key_less (full bp b bn) k) rest').
Proof.
  intros Ecur Hst Hpn. unfold iter_state in Hst. rewrite Ecur in Hst.
  assert (Hpair : forall b bn, nodes t !! b = Some bn -> value bn <> 0 -> s !! full bp b bn = Some (value bn)).
  { intros b bn Hb Hv. by apply (ti_live _ _ _ _ _ _ Hi). }
  assert (Hempty : forall todo, to_visit s todo rest -> (forall k v, s !! k = Some v -> ~ todo k) -> rest = []).
  { intros todo [_ Hin] Hno. destruct rest as [|[k v] l]; [done|]. destruct (proj1 (Hin k v)) as [Hk Ht]; [by apply list_elem_of_here|].
    by apply Hno in Hk. }
  destruct Hst as [(n & rn & Hn & Hr & Hpre & Hcase & Hvis)|(pre & Hp & Epre & [Hg Hgc] & Hvis)].
  - rewrite Hpn in Hn. injection Hn as <-.
    destruct (node_next_spec t bp Hsh (iter_root si) rn cur pn Hr Hpn Hpre) as (b & En & Hnext).
    assert (Eadv : iter_advance t si pn = Some (iter_root si, b)).
    { unfold iter_advance. rewrite Ecur. rewrite En. cbn [mbind option_bind]. destruct (prefix si) as [pre|] eqn:Epre; [|done].
      destruct Hcase as [[_ ?]|Hv]; [done|]. pose proof (header_dead t bp s N P _ cur pn Hi Hpn Hv) as Hh.
      destruct (sh_up _ _ Hsh cur pn Hpn Hh) as (q & _ & Hq & _). apply (node_nonzero t bp Hsh) in Hq.
      by destruct (Z.eqb_spec (parent pn) 0). }
    destruct (next_key _ _ _ Hnext) as [H1 H0]. exists (iter_root si), b. split_and!; [done| | |].
    + intros E. destruct (decide (b = 0)) as [->|Hb]; [rewrite <- E in Hpn; by apply (node_nonzero t bp Hsh) in Hpn|].
      destruct (H1 Hb) as (bn & Hbn & _ & _ & Hl & _). rewrite E, Hpn in Hbn. injection Hbn as <-. rewrite E in Hl. by rewrite key_less_irrefl in Hl.
    + intros Hb. eapply Hempty; [exact Hvis|]. intros k v Hk. by apply (H0 Hb k v).
    + intros Hb. destruct (H1 Hb) as (bn & Hbn & Hv & Hrb & Hl & Hleast).
      destruct (to_visit_cons _ _ rest (full bp b bn) (value bn) Hvis (Hpair b bn Hbn Hv)) as (rest' & -> & Hvis'); [done|done|].
      exists bn, rn, rest'. split_and!; try done. eapply to_visit_ext; [exact Hvis'|]. intros k v _. cbn.
      split; [tauto|]. intros [? ?]. split_and!; try done. by eapply key_less_trans.
  - assert (Hpar : parent pn = 0).
    { destruct (sh_header _ _ Hsh) as (h & Hh & Hpar & _). rewrite <- Hp in Hh. rewrite Hpn in Hh. by injection Hh as <-. }
    unfold iter_advance. rewrite Ecur. rewrite Epre, Hpar. cbn [Z.eqb].
    destruct (lookup_spec t bp Hsh pre false Hg (chars_bytes pre Hgc)) as (root & -> & H1 & H0). cbn [mbind option_bind].
    pose proof (node_nonzero t bp Hsh cur pn Hpn) as Hp0.
    destruct (Z.eqb_spec root 0) as [->|Hr0].
    { exists 0, 0. split_and!; [done|done| |done]. intros _. eapply Hempty; [exact Hvis|]. intros k v Hk [z Ez].
      destruct (ti_has _ _ _ _ _ _ Hi k v Hk) as (_ & c & cn & Hc & Ef & _). pose proof (at_full t bp c cn Hc) as Hat. rewrite Ef, Ez in Hat.
      destruct (at_prefix t bp Hsh _ _ _ _ Hat) as (a & sc & Ha). pose proof Ha as (an & Han & _). by apply (H0 eq_refl a an Han sc). }
    destruct (H1 Hr0) as (rn & sc & Hr & Hat & _). rewrite Hr. cbn [mbind option_bind].
    assert (Hsame : forall k v, s !! k = Some v -> pre `prefix_of` k <-> full bp root rn `prefix_of` k).
    { intros k v Hk. destruct (ti_has _ _ _ _ _ _ Hi k v Hk) as (_ & c & cn & Hc & <- & _). split.
      - by apply (prefix_full t bp Hsh root sc pre rn c cn Hat Hr Hc).
      - intros H. etransitivity; [|exact H]. pose proof Hat as (rn' & Hr' & _ & ->). rewrite Hr in Hr'. injection Hr' as <-.
        unfold full. apply prefix_app. exists (drop sc (segment rn)). by rewrite take_drop. }
    pose proof (to_visit_ext _ _ _ _ Hvis Hsame) as Hvis'.
    destruct (Z.eqb_spec (value rn) 0) as [Hv|Hv].
    + destruct (node_next_spec t bp Hsh root rn root rn Hr Hr ltac:(done)) as (b & -> & Hnext). cbn [mbind option_bind].
      destruct (next_key _ _ _ Hnext) as [H1' H0']. exists root, b.
      assert (Hstrict : forall k v, s !! k = Some v -> full bp root rn `prefix_of` k -> key_less (full bp root rn) k).
      { intros k v Hk Hrk. apply key_less_prefix; [done|]. intros <-.
        pose proof (value_at t bp s N P _ root rn Hi Hr) as E. rewrite Hk in E. destruct (ti_has _ _ _ _ _ _ Hi _ _ Hk) as [? _]. cbn in E. congruence. }
      split_and!; [done| | |].
      * intros ->. destruct (H1' Hp0) as (bn & Hbn & Hvb & _). rewrite Hpn in Hbn. injection Hbn as <-.
        by apply (header_dead t bp s N P _ cur pn Hi Hpn).
      * intros Hb. eapply Hempty; [exact Hvis'|]. intros k v Hk Hrk. apply (H0' Hb k v Hk). eauto.
      * intros Hb. destruct (H1' Hb) as (bn & Hbn & Hvb & Hrb & Hl & Hleast).
        destruct (to_visit_cons _ _ rest (full bp b bn) (value bn) Hvis' (Hpair b bn Hbn Hvb)) as (rest' & -> & Hvis2); [done|eauto|].
        exists bn, rn, rest'. done.
    + exists root, root. split_and!; [done| |done|].
      * intros ->. rewrite Hpn in Hr. injection Hr as <-. by apply (header_dead t bp s N P _ cur pn Hi Hpn).
      * intros _. destruct (to_visit_cons _ _ rest (full bp root rn) (value rn) Hvis' (Hpair root rn Hr Hv)) as (rest' & -> & Hvis2); [done| |].
        -- intros k v Hk Hrk. destruct (decide (k = full bp root rn)) as [->|Hne]; [by left|right]. by apply key_less_prefix.
        -- exists rn, rn, rest'. done.
Qed.
End Step.

(** Dropping the reference of the iterator. *)
Lemma drop_cur t bp refs s cur n :
  trie_inv t bp refs s N P -> nodes t !! cur = Some n -> (value n <> 0 -> refs cur = 2) ->
  exists t', trie_node_deref t cur = Some (t', []) /\ trie_inv t' bp (<[cur := 1]> refs) s N P /\ header t' = header t /\
    length_ t' = length_ t /\ (forall b, b <> cur -> nodes t' !! b = nodes t !! b) /\
    exists n', nodes t' !! cur = Some n' /\ segment n' = segment n.
Proof.
  intros Hi Hn Hr. unfold trie_node_deref. rewrite Hn. cbn [mbind option_bind]. unfold trie_node_alive.
  destruct (Z.eqb_spec (value n) 0) as [Hv|Hv]; cbn [orb negb].
  - exists t. split_and!; try done; [|eauto]. eapply inv_ext; [exact Hi| |done|done]. intros a m Ha Hva.
    apply fn_lookup_insert_ne. intros ->. congruence.
  - destruct (ti_live _ _ _ _ _ _ Hi cur n Hn Hv) as (_ & Er & _). rewrite (Hr Hv) in Er. rewrite Er. cbn [Z.leb Z.compare negb refcount with_refcount].
    change (u32 (2 - 1)) with 1. cbn [Z.ltb Z.compare]. eexists. split; [reflexivity|]. split_and!; try done.
    + by apply inv_set_refcount.
    + intros b Hb. cbn. by rewrite lookup_insert_ne.
    + eexists. cbn. by rewrite lookup_insert_eq.
Qed.

Lemma iter_step t bp si s rest pn :
  trie_inv t bp (two_at (iter_n si)) s N P -> length_ t = u64 (Z.of_nat (size s)) -> iter_state t bp si s rest ->
  nodes t !! iter_n si = Some pn ->
  match rest with
  | [] => exists t' si', trie_iter_next t si = Some (t', si', None, []) /\ iter_n si' = 0 /\ trie_rep t' s N P
  | (k, v) :: rest => exists t' si', trie_iter_next t si = Some (t', si', Some (k, v), []) /\ tr_iter (Some t') si' s rest
  end.
Proof.
  intros Hi Hlen Hst Hpn. pose proof (ti_shape _ _ _ _ _ _ Hi) as Hsh. pose proof (node_nonzero t bp Hsh _ _ Hpn) as Hp0.
  destruct (advance_spec t bp (iter_n si) s Hi si rest pn eq_refl Hst Hpn) as (root & b & Eadv & Hbp & Hend & Hgo).
  unfold trie_iter_next. destruct (Z.eqb_spec (iter_n si) 0); [done|]. rewrite Hpn. cbn [mbind option_bind]. rewrite Eadv. cbn [mbind option_bind].
  destruct (Z.eqb_spec b 0) as [->|Hb].
  - rewrite (Hend eq_refl).
    destruct (drop_cur t bp _ s _ pn Hi Hpn) as (t' & -> & Hi' & _ & El & _ & _); [intros _; apply fn_lookup_insert|]. cbn [mbind option_bind].
    eexists t', _. split; [reflexivity|]. split; [done|]. exists bp. split; [|by rewrite El]. eapply inv_ext; [exact Hi'| |done|done].
    intros a m _ _. unfold two_at. destruct (decide (a = iter_n si)) as [->|]; [by rewrite fn_lookup_insert|by rewrite !fn_lookup_insert_ne].
  - destruct (Hgo Hb) as (bn & rn & rest' & Hbn & Hv & Hr & Hpre & -> & Hvis).
    pose proof (header_dead t bp s N P _ b bn Hi Hbn Hv) as Hbh.
    unfold trie_node_ref. destruct (Z.eqb_spec (header t) b) as [E|_]; [by rewrite E in Hbh|]. rewrite Hbn. cbn [mbind option_bind].
    destruct (ti_live _ _ _ _ _ _ Hi b bn Hbn Hv) as (Hkey & Er & _). unfold two_at, one_each in Er. rewrite fn_lookup_insert_ne in Er by done. rewrite Er.
    change (u32 (1 + 1)) with 2. set (t1 := set_node t b (with_refcount bn 2)).
    pose proof (inv_set_refcount t bp s N P _ b bn 2 Hi Hbn Hv) as Hi1. fold t1 in Hi1.
    assert (Hpn1 : nodes t1 !! iter_n si = Some pn) by (cbn; by rewrite lookup_insert_ne).
    destruct (drop_cur t1 bp _ s _ pn Hi1 Hpn1) as (t2 & -> & Hi2 & Eh2 & El2 & Hsame2 & pn2 & Hpn2 & Epn2).
    { intros _. unfold two_at. by rewrite fn_lookup_insert_ne, fn_lookup_insert. }
    cbn [mbind option_bind]. assert (Hb2 : nodes t2 !! b = Some (with_refcount bn 2)) by (rewrite Hsame2 by done; cbn; apply lookup_insert_eq).
    rewrite Hb2. cbn [mbind option_bind key with_refcount value]. rewrite Hkey. cbn [fmap option_fmap option_map].
    eexists t2, _. split; [reflexivity|]. exists t2, bp. split_and!; [done|by rewrite El2| |].
    + cbn [iter_n]. eapply inv_ext; [exact Hi2| |done|done]. intros a m _ _. unfold two_at.
      destruct (decide (a = b)) as [->|Hab]; [by rewrite fn_lookup_insert, fn_lookup_insert_ne, fn_lookup_insert by done|].
      rewrite fn_lookup_insert_ne by done.
      destruct (decide (a = iter_n si)) as [->|]; [by rewrite fn_lookup_insert|by rewrite !fn_lookup_insert_ne by done].
    + left. cbn [iter_n iter_root prefix].
      assert (Hroot : exists rn', nodes t2 !! root = Some rn' /\ full bp root rn' = full bp root rn).
      { destruct (decide (root = b)) as [->|Hrb].
        - rewrite Hbn in Hr. injection Hr as <-. eauto.
        - destruct (decide (root = iter_n si)) as [->|Hrp]; [|exists rn; rewrite Hsame2 by done; cbn; by rewrite lookup_insert_ne].
          rewrite Hpn in Hr. injection Hr as <-. exists pn2. split; [done|]. unfold full. by rewrite Epn2. }
      destruct Hroot as (rn' & Hr' & Ef). exists (with_refcount bn 2), rn'. rewrite Ef. split_and!; try done. by right.
Qed.

(** ** The laws of walks *)

Lemma iter_on_node t bp si s rest : trie_inv t bp (two_at (iter_n si)) s N P -> iter_state t bp si s rest ->
  exists pn, nodes t !! iter_n si = Some pn.
Proof.
  intros Hi [(n & _ & Hn & _)|(pre & -> & _)]; [eauto|]. destruct (sh_header _ _ (ti_shape _ _ _ _ _ _ Hi)) as (h & Hh & _). eauto.
Qed.

#[export] Program Instance trie_walk : WalkLaws trie_map := {| walk_rep := tr_rep; walk_iter := tr_iter |}.
Next Obligation.
  intros ot si s k v rest (t & bp & -> & Hl & Hi & Hst). destruct (iter_on_node t bp si s _ Hi Hst) as (pn & Hpn).
  destruct (iter_step t bp si s _ pn Hi Hl Hst Hpn) as (t' & si' & E & Hit). cbn. rewrite E. cbn. eauto.
Qed.
Next Obligation.
  intros ot si s (t & bp & -> & Hl & Hi & Hst). destruct (iter_on_node t bp si s _ Hi Hst) as (pn & Hpn).
  destruct (iter_step t bp si s _ pn Hi Hl Hst Hpn) as (t' & si' & E & E0 & Hr). cbn. rewrite E. cbn.
  eexists _, _, _. split; [reflexivity|]. split; [|by exists t']. cbn. unfold trie_iter_free. by rewrite E0.
Qed.

End Iter.

(** ** Starting a walk *)

Lemma key_less_total a : forall b, Forall is_byte a -> Forall is_byte b -> a = b \/ key_less a b \/ key_less b a.
Proof.
  induction a as [|x a IH]; intros [|y b]; [auto|right; left; by apply key_less_nil|right; right; by apply key_less_nil|].
  rewrite !list.Forall_cons. intros [Hx Ha] [Hy Hb]. rewrite !key_less_cons.
  destruct (Z.lt_trichotomy (schar x) (schar y)) as [|[E|]]; [auto| |auto].
  assert (x = y) as -> by (apply index_inj; [done..|unfold TRIE_CHAR2INDEX; lia]).
  destruct (IH b Ha Hb) as [->|[|]]; auto.
Qed.

Lemma full_bytes t bp a n : trie_shape t bp -> nodes t !! a = Some n -> Forall is_byte (full bp a n).
Proof.
  intros Hsh. remember (length (full bp a n)) as len eqn:El. revert a n El.
  induction (lt_wf len) as [len _ IH]. intros a n El Ha. unfold full. apply Forall_app_2; [|by apply chars_bytes, (sh_bytes _ _ Hsh a)].
  destruct (decide (a = header t)) as [->|Hh]; [rewrite (sh_bp_header _ _ Hsh); constructor|].
  destruct (sh_up _ _ Hsh a n Ha Hh) as (p & c & Hp & Hc & _ & _ & Eb). rewrite Eb, app_assoc. apply Forall_app_2; [|by constructor].
  apply (IH (length (full bp (parent n) p))); [|done|done]. subst len. unfold full. rewrite Eb, !length_app. cbn. lia.
Qed.

Lemma insert_pair k v l :
  StronglySorted (fun a b => key_less a b) (l.*1 : list map_key) ->
  (forall k', k' ∈ l.*1 -> key_less k k' \/ key_less k' k) ->
  exists l', StronglySorted (fun a b => key_less a b) (l'.*1 : list map_key) /\ forall x : map_key * Z, x ∈ l' <-> x = (k, v) \/ x ∈ l.
Proof.
  induction l as [|[k1 v1] l IH]; intros Hs Hc.
  - exists [(k, v)]. split; [repeat constructor|]. intros x. rewrite elem_of_cons. done.
  - cbn in Hs, Hc. apply StronglySorted_inv in Hs as [Hs Hall]. destruct (Hc k1 ltac:(set_solver)) as [Hl|Hl].
    + exists ((k, v) :: (k1, v1) :: l). split; [|intros x; by rewrite elem_of_cons]. cbn. constructor; [by constructor|].
      constructor; [done|]. eapply list.Forall_impl; [exact Hall|]. intros y Hy. by eapply key_less_trans.
    + destruct IH as (l' & Hs' & Hin); [done|intros; apply Hc; set_solver|]. exists ((k1, v1) :: l'). split.
      * cbn. constructor; [done|]. apply list.Forall_forall. intros y [[k' v'] [-> H']]%list_elem_of_fmap. cbn.
        apply Hin in H' as [[= -> ->]|H']; [done|]. rewrite list.Forall_forall in Hall. apply Hall. apply list_elem_of_fmap. by exists (k', v').
      * intros x. rewrite !elem_of_cons, Hin. tauto.
Qed.

(** The pairs that a walk has to visit have an order. *)
Lemma visit_order (s : gmap map_key Z) (todo : map_key -> Prop) `{!forall k, Decision (todo k)} :
  (forall k v, s !! k = Some v -> Forall is_byte k) -> exists rest, to_visit s todo rest.
Proof.
  induction s as [|k v s Hk Hfirst IH] using map_first_key_ind; intros Hb.
  - exists []. apply to_visit_nil. by intros k v ?%lookup_empty_Some.
  - destruct IH as (rest & Hs & Hin).
    { intros k' v' H'. apply (Hb k' v'). rewrite lookup_insert_ne; [done|]. intros ->. congruence. }
    assert (Hlook : forall k' v', <[k := v]> s !! k' = Some v' <-> (k', v') = (k, v) \/ s !! k' = Some v').
    { intros k' v'. rewrite lookup_insert_Some. split; [intros [[-> ->]|[_ ?]]; auto|]. intros [[= -> ->]|H']; [auto|].
      right. split; [|done]. intros ->. congruence. }
    destruct (decide (todo k)) as [Ht|Ht].
    + destruct (insert_pair k v rest Hs) as (rest' & Hs' & Hin').
      { intros k' [[k2 v2] [-> H']]%list_elem_of_fmap. cbn. apply Hin in H' as [H' _].
        destruct (key_less_total k k2) as [->|]; [by eapply Hb, lookup_insert_eq| |congruence|done].
        apply (Hb k2 v2). rewrite lookup_insert_ne; [done|]. intros ->. congruence. }
      exists rest'. split; [done|]. intros k' v'. rewrite Hin', Hin, Hlook. split; [|tauto].
      intros [[= -> ->]|[? ?]]; auto.
    + exists rest. split; [done|]. intros k' v'. rewrite Hin, Hlook. split; [tauto|]. intros [[[= -> ->]|?] ?]; done.
Qed.

Lemma visit_length s todo rest : to_visit s todo rest -> (length rest <= size s)%nat.
Proof.
  intros [Hs Hin]. rewrite <- length_map_to_list. apply submseteq_length, NoDup_submseteq.
  - apply (NoDup_fmap_1 fst). induction Hs as [|k l Hs IH Hall]; [constructor|]. constructor; [|done].
    intros Hk. rewrite list.Forall_forall in Hall. apply Hall in Hk. by rewrite key_less_irrefl in Hk.
  - intros [k v] H. apply elem_of_map_to_list. by apply Hin in H as [? _].
Qed.

(** A walk over the pairs below a prefix, or over all of them. *)
Definition walk_all {U} (fuel : nat) (func : U -> map_key -> Z -> U * bool) (t : option trie) (pre : option map_key) (u : U)
    : option (option trie * U * list notify_call) :=
  match pre with
  | None => qb_map_foreach trie_map fuel func t u
  | Some p => let '(t, i) := qb_map_pref_iter_create trie_map t p in foreach_loop trie_map fuel func t i u
  end.

Lemma iter_start t sp pre :
  implements t sp -> good_place pre ->
  exists t' i rest, iter_create trie_map t pre = (t', i) /\ to_visit (sp_pairs sp) (fun k => key_path pre `prefix_of` k) rest /\
    tr_iter (sp_notifiers sp) (sp_paths sp) t' i (sp_pairs sp) rest.
Proof.
  intros (t0 & -> & bp & Hi & Hl) Hg. pose proof (ti_shape _ _ _ _ _ _ Hi) as Hsh.
  destruct (visit_order (sp_pairs sp) (fun k => key_path pre `prefix_of` k)) as (rest & Hvis).
  { intros k v Hk. destruct (ti_has _ _ _ _ _ _ Hi k v Hk) as (_ & a & n & Ha & <- & _). by eapply full_bytes. }
  assert (Hi' : trie_inv t0 bp (two_at (header t0)) (sp_pairs sp) (sp_notifiers sp) (sp_paths sp)).
  { eapply inv_ext; [exact Hi| |done|done]. intros a n Ha Hv. apply fn_lookup_insert_ne. intros <-.
    by apply (header_dead _ _ _ _ _ _ _ _ Hi Ha). }
  eexists _, _, rest. split; [reflexivity|]. split; [done|]. exists t0, bp. split_and!; [done|done|done|].
  destruct pre as [pre|]; [by right; exists pre|left]. destruct (header_full t0 bp _ _ _ _ Hi) as (h & Hh & Eh).
  exists h, h. cbn [iter_n iter_root prefix]. rewrite Eh. split_and!; try done; [by left|]. eapply to_visit_ext; [exact Hvis|]. intros k v Hk. cbn.
  split; [|tauto]. intros Hp. split; [done|]. apply key_less_nil. by eapply (key_nonempty _ _ _ _ _ _ Hi').
Qed.

(** C21. A complete walk with an iterator, below a prefix or over the whole trie,
    visits exactly the pairs whose key begins with the prefix, each once, in the
    order of the keys with characters compared as signed numbers; it ends, calls
    no notifier and leaves the trie as it was. *)
Theorem trie_walk_ordered t sp pre fuel :
  implements t sp -> good_place pre -> (size (sp_pairs sp) < fuel)%nat ->
  exists t' rest, walk_all fuel (fun u k v => (u ++ [(k, v)], false)) t pre [] = Some (t', rest, []) /\
    StronglySorted (fun a b => key_less a b) rest.*1 /\
    (forall k v, (k, v) ∈ rest <-> sp_pairs sp !! k = Some v /\ key_path pre `prefix_of` k) /\
    implements t' sp.
Proof.
  intros Ht Hg Hf. destruct (iter_start t sp pre Ht Hg) as (t1 & i & rest & E & Hvis & Hit).
  destruct (foreach_loop_visits trie_map (W := trie_walk (sp_notifiers sp) (sp_paths sp)) (fun u k v => u ++ [(k, v)]) rest t1 i
    (sp_pairs sp) [] fuel Hit) as (t' & El & Hr); [pose proof (visit_length _ _ _ Hvis); lia|].
  assert (Efold : forall l u, foldl (fun (u : list (map_key * Z)) kv => u ++ [(fst kv, snd kv)]) u l = u ++ l).
  { induction l as [|[k v] l IH]; intros u; cbn; [by rewrite app_nil_r|]. rewrite IH. by rewrite <- app_assoc. }
  exists t', rest.
  cbn in El. rewrite Efold in El. split.
  - unfold walk_all, qb_map_foreach, qb_map_pref_iter_create, qb_map_iter_create. destruct pre; rewrite E; exact El.
  - destruct Hvis as [? ?]. split_and!; [done..|]. destruct Hr as (t0 & -> & Hr). by exists t0.
Qed.

(** * Trie: examples

    Concrete tries at which the theorems apply, and what the code does outside
    their conditions. *)
Module TrieExamples.

Definition new_trie : trie :=
  default {| length_ := 0; num_nodes := 0; mem_used := 0; header := 0; nodes := ∅; next_address := 0; alloc_fails := [] |}
    (qb_trie_create true []).

Definition calls_of (r : Z * list notify_call) : Z * list (Z * Z) := (fst r, (fun c => (nc_callback c, nc_event c)) <$> snd r).

Lemma good_key_check k : k <> [] -> forallb (fun c => (0 <? c) && (c <? 256)) k = true -> good_key k.
Proof.
  intros Hk H. split; [done|]. apply list.Forall_forall. intros c Hc. rewrite forallb_forall in H.
  specialize (H c ltac:(by apply list_elem_of_In)). apply andb_prop in H as [?%Z.ltb_lt ?%Z.ltb_lt]. done.
Qed.

Ltac good := apply good_key_check; [discriminate|vm_compute; reflexivity].

Definition history : list trie_op :=
  [T_notify_add (Some (bytes "ab")) 7 (QB_MAP_NOTIFY_INSERTED + QB_MAP_NOTIFY_RECURSIVE) 0; T_notify_add None 8 QB_MAP_NOTIFY_FREE 0;
   T_put (bytes "abc") 5; T_put (bytes "a") 6; T_put (bytes "abd") 9; T_put (bytes "abc") 4; T_get (bytes "abc"); T_rm (bytes "abd"); T_rm (bytes "x");
   T_notify_del (Some (bytes "ab")) 7 (QB_MAP_NOTIFY_INSERTED + QB_MAP_NOTIFY_RECURSIVE); T_count].

Lemma history_allowed : all_allowed spec_start history.
Proof.
  cbn [all_allowed history allowed good_place]. split_and!; try exact I; try good; try discriminate.
  - left. vm_compute. eauto.
  - right. intros p Hp%list_elem_of_In [z Ez]. vm_compute in Hp, Ez. repeat destruct Hp as [<-|Hp]; done.
Qed.


Definition after_history : option trie := fst (trie_run (Some new_trie) (take 5 history)).
Definition spec_after : trie_spec := fst (spec_run spec_start (take 5 history)).

Lemma after_history_ok : implements after_history spec_after.
Proof.
  apply (trie_run_refines (take 5 history)).
  - exists new_trie. split; [reflexivity|]. apply trie_create_rep. reflexivity.
  - pose proof history_allowed as H. cbn [all_allowed history take] in *. tauto.
Qed.

Lemma trie_walk_ordered_witness :
  exists t' rest, walk_all 4 (fun u k v => (u ++ [(k, v)], false)) after_history (Some (bytes "ab")) [] = Some (t', rest, []) /\
    StronglySorted (fun a b => key_less a b) rest.*1 /\
    (forall k v, (k, v) ∈ rest <-> sp_pairs spec_after !! k = Some v /\ bytes "ab" `prefix_of` k) /\
    implements t' spec_after.
Proof.
  apply (trie_walk_ordered after_history spec_after (Some (bytes "ab")) 4); [exact after_history_ok|cbn [good_place]; good|vm_compute; lia].
Defined.

Example walk_below_ab :
  (fun r => snd (fst r)) <$> walk_all 4 (fun u k v => (u ++ [(k, v)], false)) after_history (Some (bytes "ab")) [] =
  Some [(bytes "abc", 5); (bytes "abd", 9)].
Proof. vm_compute. reflexivity. Qed.

(** ** Outside the conditions *)

Definition results (ops : list trie_op) : list (Z * list (Z * Z)) := calls_of <$> snd (trie_run (Some new_trie) ops).
Definition state_after (ops : list trie_op) : option trie := fst (trie_run (Some new_trie) ops).

(** The first step of a walk. *)
Definition first_step (t : option trie) : option trie * trie_iter :=
  let '(t, i) := qb_map_iter_create trie_map t in
  match qb_map_iter_next trie_map t i with
  | Some (t, i, _, _) => (t, i)
  | None => (None, i)
  end.

Definition one_pair : option trie * trie_iter := first_step (state_after [T_put (bytes "ab") 5]).

(** Where the code does less than it means to.  Removing a string at which keys
    part reports success and lowers the count, though it is not a key.  Deleting a
    notifier from a string deletes those of a longer string when the search ends
    inside its node.  A pair that is removed while an iterator is on it is still
    found; removing it again frees the node that the iterator is on.  A put that
    splits the node of an iterator moves the iterator's reference to another node,
    so that its pair is visited twice and stays after its removal.  Destroying a
    trie leaves its header allocated. *)
Theorem trie_faults :
  results [T_put (bytes "ab") 5; T_put (bytes "ac") 6; T_rm (bytes "a"); T_count; T_get (bytes "ab"); T_get (bytes "ac")] =
    [(0, []); (0, []); (QB_TRUE, []); (1, []); (5, []); (6, [])] /\
  results [T_notify_add (Some (bytes "abc")) 7 QB_MAP_NOTIFY_INSERTED 0; T_notify_del (Some (bytes "a")) 7 QB_MAP_NOTIFY_INSERTED; T_put (bytes "abc") 5] =
    [(0, []); (0, []); (0, [])] /\
  (let '(t, i) := one_pair in
   let '(t1, r1, _) := qb_map_rm trie_map t (bytes "ab") in
   let '(t2, r2, _) := qb_map_rm trie_map t1 (bytes "ab") in
   r1 = QB_TRUE /\ qb_map_get trie_map t1 (bytes "ab") = 5 /\ r2 = QB_TRUE /\ qb_map_iter_next trie_map t2 i = None) /\
  (let '(t, i) := one_pair in
   let '(t1, _) := qb_map_put trie_map t (bytes "a") 6 0 in
   option_map (fun r => snd (fst r)) (qb_map_iter_next trie_map t1 i) = Some (Some (bytes "ab", 5)) /\
   option_map (fun r => let '(t2, _, _, _) := r in
      let '(t3, r3, _) := qb_map_rm trie_map t2 (bytes "ab") in (r3, qb_map_get trie_map t3 (bytes "ab")))
     (qb_map_iter_next trie_map t1 i) = Some (QB_TRUE, 5)) /\
  option_map (fun r => size (nodes (fst r))) (t ← state_after [T_put (bytes "ab") 5]; trie_destroy t) = Some 1%nat.
Proof. vm_compute. repeat split; reflexivity. Qed.

End TrieExamples.
