(* ===== verification/Loop.v ===== *)
(** * Main loop: levels, jobs and timers (lib/loop.c, loop_job.c, loop_timerlist.c)

    A loop has a queue of jobs to run and a queue of jobs that wait for the next
    round, for each of three priorities, and a timer source on top of the timer
    list and the dynamic array.  The linked lists are sequences here; that the
    operations on the pointers are these operations on sequences is shown for
    [qblist.h] itself.  The file descriptor source is an interface
    ([FdSource]): how the kernel reports events is not part of the loop.  What a
    callback of the user does is a list of calls of the interface, given by a
    function of the callback and its data.  [None] is a failed [assert] or an
    access out of bounds.  The results of [malloc], [random] and the clock are
    read from an environment, one record per call. *)
From S2P Require Import Prelude Hdb Tlist Array.

Definition QB_LOOP_LOW : Z := 0.
Definition QB_LOOP_MED : Z := 1.
Definition QB_LOOP_HIGH : Z := 2.

Inductive qb_loop_type := QB_LOOP_FD | QB_LOOP_JOB | QB_LOOP_TIMER | QB_LOOP_SIG.
#[export] Instance qb_loop_type_eq_dec : EqDecision qb_loop_type.
Proof. solve_decision. Defined.

Inductive qb_poll_entry_state :=
  | QB_POLL_ENTRY_EMPTY
  | QB_POLL_ENTRY_JOBLIST
  | QB_POLL_ENTRY_DELETED
  | QB_POLL_ENTRY_ACTIVE.
#[export] Instance qb_poll_entry_state_eq_dec : EqDecision qb_poll_entry_state.
Proof. solve_decision. Defined.

(** An item of the file descriptor source: an entry (its place in the array), or
    the copy of a signal handler at an address. *)
Inductive fd_item :=
  | Fd_entry (install_pos : Z)
  | Fd_signal (addr : Z).
#[export] Instance fd_item_eq_dec : EqDecision fd_item.
Proof. solve_decision. Defined.

(** An item is a job at an address with its function and data, a timer of the
    timer source (its place in the array), or an item of the file descriptor
    source. *)
Inductive qb_loop_item :=
  | Item_job (addr dispatch_fn user_data : Z)
  | Item_timer (install_pos : Z)
  | Item_fd (i : fd_item).
#[export] Instance qb_loop_item_eq_dec : EqDecision qb_loop_item.
Proof. solve_decision. Defined.

(** [item->type]: [qb_loop_timer_add] leaves it 0. *)
Definition item_type (i : qb_loop_item) : qb_loop_type :=
  match i with
  | Item_job _ _ _ => QB_LOOP_JOB
  | Item_timer _ | Item_fd (Fd_entry _) => QB_LOOP_FD
  | Item_fd (Fd_signal _) => QB_LOOP_SIG
  end.

Record qb_loop_level := {
  priority : Z;
  to_process : Z;
  todo : Z;
  wait_head : list qb_loop_item;
  job_head : list qb_loop_item;
}.
#[export] Instance qb_loop_level_inhabited : Inhabited qb_loop_level :=
  populate {| priority := 0; to_process := 0; todo := 0; wait_head := []; job_head := [] |}.

(** [t->timerlist_handle] is the cell [install_pos] of the timer list's handles. *)
Record qb_loop_timer := {
  t_user_data : Z;
  t_dispatch_fn : Z;
  t_p : Z;
  t_state : qb_poll_entry_state;
  t_check : Z;
  t_install_pos : Z;
}.
#[export] Instance qb_loop_timer_inhabited : Inhabited qb_loop_timer :=
  populate {| t_user_data := 0; t_dispatch_fn := 0; t_p := 0; t_state := QB_POLL_ENTRY_EMPTY;
              t_check := 0; t_install_pos := 0 |}.

Record qb_timer_source := {
  ts_timerlist : timerlist;
  ts_timers : option (qb_array qb_loop_timer);
  timer_entry_count : Z;
}.

(** What happened to items: the calls of user functions, and the items taken
    out of a queue without being run. *)
Inductive loop_event :=
  | Ev_dispatch (p : Z) (i : qb_loop_item) (fn data : Z)
  | Ev_removed (p : Z) (i : qb_loop_item).

(** [tick] counts the calls that read the environment. *)
Record qb_loop := {
  level : list qb_loop_level;
  stop_requested : bool;
  timer_source : qb_timer_source;
  log : list loop_event;
  tick : nat;
}.

(** What one call gets from its surroundings. *)
Record call_env := {
  ce_addr : Z;
  ce_realloc_errno : Z;
  ce_array : alloc_env;
  ce_random : list Z;
  ce_now : Z;
  ce_epoch : Z;
}.

Definition with_level (l : qb_loop) (ls : list qb_loop_level) : qb_loop :=
  {| level := ls; stop_requested := stop_requested l; timer_source := timer_source l; log := log l;
     tick := tick l |}.
Definition with_timer_source (l : qb_loop) (ts : qb_timer_source) : qb_loop :=
  {| level := level l; stop_requested := stop_requested l; timer_source := ts; log := log l; tick := tick l |}.
Definition with_stop (l : qb_loop) (b : bool) : qb_loop :=
  {| level := level l; stop_requested := b; timer_source := timer_source l; log := log l; tick := tick l |}.
Definition add_event (l : qb_loop) (e : loop_event) : qb_loop :=
  {| level := level l; stop_requested := stop_requested l; timer_source := timer_source l;
     log := log l ++ [e]; tick := tick l |}.
Definition next_tick (l : qb_loop) : qb_loop :=
  {| level := level l; stop_requested := stop_requested l; timer_source := timer_source l;
     log := log l; tick := S (tick l) |}.

(** [l->level[p]]. *)
Definition lv (l : qb_loop) (p : Z) : qb_loop_level := zget (level l) p.
Definition set_lv (l : qb_loop) (p : Z) (v : qb_loop_level) : qb_loop := with_level l (zset (level l) p v).

Definition set_queues (v : qb_loop_level) (todo_ : Z) (w j : list qb_loop_item) : qb_loop_level :=
  {| priority := priority v; to_process := to_process v; todo := todo_; wait_head := w; job_head := j |}.

(** ** Levels (lib/loop.c) *)

Definition qb_loop_level_item_add (v : qb_loop_level) (job : qb_loop_item) : qb_loop_level :=
  set_queues v (i32 (todo v + 1)) (wait_head v) (job_head v ++ [job]).

Fixpoint remove_item (x : qb_loop_item) (l : list qb_loop_item) : list qb_loop_item :=
  match l with
  | [] => []
  | y :: l => if decide (y = x) then l else y :: remove_item x l
  end.

(** An item that is in no queue is left alone. *)
Definition qb_loop_level_item_del (v : qb_loop_level) (job : qb_loop_item) : qb_loop_level :=
  if decide (job ∈ job_head v) then
    set_queues v (i32 (todo v - 1)) (wait_head v) (remove_item job (job_head v))
  else v.

(** Take an item out of the queue of its level. *)
Definition delete_item (l : qb_loop) (p : Z) (job : qb_loop_item) : qb_loop :=
  let l' := set_lv l p (qb_loop_level_item_del (lv l p) job) in
  if decide (job ∈ job_head (lv l p)) then add_event l' (Ev_removed p job) else l'.

(** ** Jobs (lib/loop_job.c) *)

(** One round of the loop of [get_more_jobs]. *)
Definition more_jobs_level (l : qb_loop) (new_jobs p : Z) : qb_loop * Z :=
  let v := lv l p in
  match wait_head v with
  | [] => (l, new_jobs)
  | w =>
    let level_jobs := zlen w in
    (set_lv l p (set_queues v (i32 (todo v + level_jobs)) [] (job_head v ++ w)), i32 (new_jobs + level_jobs))
  end.

Definition get_more_jobs (l : qb_loop) : qb_loop * Z :=
  let '(l, n) := more_jobs_level l 0 QB_LOOP_LOW in
  let '(l, n) := more_jobs_level l n QB_LOOP_MED in
  more_jobs_level l n QB_LOOP_HIGH.

Definition priority_ok (p : Z) : bool := (QB_LOOP_LOW <=? p) && (p <=? QB_LOOP_HIGH).

Definition qb_loop_job_add (l : qb_loop) (p data dispatch_fn : Z) (ce : call_env) : qb_loop * Z :=
  if dispatch_fn =? 0 then (l, - EINVAL)
  else if negb (priority_ok p) then (l, - EINVAL)
  else if ce_addr ce =? 0 then (l, - ENOMEM)
  else
    let v := lv l p in
    (set_lv l p (set_queues v (todo v) (wait_head v ++ [Item_job (ce_addr ce) dispatch_fn data]) (job_head v)), 0).

Definition job_matches (data dispatch_fn : Z) (i : qb_loop_item) : bool :=
  match i with
  | Item_job _ fn d => (fn =? dispatch_fn) && (d =? data)
  | _ => false
  end.

(** The third result is the address freed, if any.  The queues are indexed
    with [p] as it is once it is at most [QB_LOOP_HIGH]. *)
Definition qb_loop_job_del (l : qb_loop) (p data dispatch_fn : Z) : option (qb_loop * Z * list Z) :=
  if dispatch_fn =? 0 then Some (l, - EINVAL, [])
  else if QB_LOOP_HIGH <? p then Some (l, - EINVAL, [])
  else if p <? 0 then None
  else
    let v := lv l p in
    match List.find (job_matches data dispatch_fn) (wait_head v) with
    | Some (Item_job a fn d as i) =>
      let l := set_lv l p (set_queues v (todo v) (remove_item i (wait_head v)) (job_head v)) in
      Some (l, 0, [a])
    | _ =>
      match List.find (job_matches data dispatch_fn) (job_head v) with
      | Some i => Some (delete_item l p i, 0, [])
      | None => Some (l, - ENOENT, [])
      end
    end.

(** ** Timers (lib/loop_timerlist.c) *)

(** The function pointer [make_job_from_tmo] in the timer list. *)
Definition make_job_from_tmo_fn : Z := 1.

Definition with_timers (ts : qb_timer_source) (a : option (qb_array qb_loop_timer)) : qb_timer_source :=
  {| ts_timerlist := ts_timerlist ts; ts_timers := a; timer_entry_count := timer_entry_count ts |}.
Definition with_timerlist (ts : qb_timer_source) (tl : timerlist) : qb_timer_source :=
  {| ts_timerlist := tl; ts_timers := ts_timers ts; timer_entry_count := timer_entry_count ts |}.
Definition with_entry_count (ts : qb_timer_source) (n : Z) : qb_timer_source :=
  {| ts_timerlist := ts_timerlist ts; ts_timers := ts_timers ts; timer_entry_count := n |}.

Definition with_t_state (t : qb_loop_timer) (s : qb_poll_entry_state) : qb_loop_timer :=
  {| t_user_data := t_user_data t; t_dispatch_fn := t_dispatch_fn t; t_p := t_p t; t_state := s;
     t_check := t_check t; t_install_pos := t_install_pos t |}.
Definition with_t_check (t : qb_loop_timer) (c : Z) : qb_loop_timer :=
  {| t_user_data := t_user_data t; t_dispatch_fn := t_dispatch_fn t; t_p := t_p t; t_state := t_state t;
     t_check := c; t_install_pos := t_install_pos t |}.

(** [qb_array_index(s->timers, pos, &timer)]: an error, or the element's address. *)
Definition timer_index (ts : qb_timer_source) (pos : Z) (env : alloc_env)
    : option (qb_timer_source * (Z + Z * Z)) :=
  '(a, rc, p) ← qb_array_index (ts_timers ts) pos true env;
  Some (with_timers ts a, match p with Some addr => if rc =? 0 then inr addr else inl rc | None => inl rc end).

Definition timer_get (ts : qb_timer_source) (p : Z * Z) : qb_loop_timer :=
  match ts_timers ts with Some a => elem_read a p | None => inhabitant end.
Definition timer_set (ts : qb_timer_source) (p : Z * Z) (t : qb_loop_timer) : qb_timer_source :=
  match ts_timers ts with Some a => with_timers ts (Some (elem_write a p t)) | None => ts end.

(** [timer->timerlist_handle] of the timer at a place. *)
Definition timerlist_handle (ts : qb_timer_source) (pos : Z) : Z := handles (ts_timerlist ts) !!! pos.

(** [sizeof(struct qb_loop_timer)] on a 64-bit machine. *)
Definition sizeof_timer : Z := 80.

(** [None] from [malloc] or the source; the array has room for 16
    and grows. *)
Definition qb_loop_timer_create (alloc_ok array_calloc_ok : bool) (env : alloc_env) : option qb_timer_source :=
  if alloc_ok then
    Some {| ts_timerlist := timerlist_init;
            ts_timers := match qb_array_create_2 16 sizeof_timer 16 array_calloc_ok env with
                         | inr a => Some a
                         | inl _ => None
                         end;
            timer_entry_count := 0 |}
  else None.

(** The address of the timer at a place of the array. *)
Definition timer_addr (pos : Z) : Z * Z := (pos / MAX_ELEMENTS_PER_BIN, pos mod MAX_ELEMENTS_PER_BIN).

(** The callback of an expired timer; its item goes to the end of its level's
    queue.  The result counts the expired timers. *)
Definition make_job_from_tmo (l : qb_loop) (pos expired_timers : Z) : option (qb_loop * Z) :=
  let ts := timer_source l in
  let t := timer_get ts (timer_addr pos) in
  if negb (bool_decide (t_state t = QB_POLL_ENTRY_ACTIVE)) then None
  else if negb (priority_ok (t_p t)) then None
  else
    let l := set_lv l (t_p t) (qb_loop_level_item_add (lv l (t_p t)) (Item_timer pos)) in
    Some (with_timer_source l (timer_set ts (timer_addr pos) (with_t_state t QB_POLL_ENTRY_JOBLIST)),
          i32 (expired_timers + 1)).

Fixpoint make_jobs (l : qb_loop) (calls : list (Z * Z)) (expired_timers : Z) : option (qb_loop * Z) :=
  match calls with
  | [] => Some (l, expired_timers)
  | (fn, pos) :: calls =>
    '(l, n) ← make_job_from_tmo l pos expired_timers;
    make_jobs l calls n
  end.

(** The callbacks do not touch the timer list, so they run after it. *)
Definition expire_the_timers (l : qb_loop) (ce : call_env) : option (qb_loop * Z) :=
  '(tl, calls) ← timerlist_expire (ts_timerlist (timer_source l)) (ce_now ce) (ce_epoch ce);
  make_jobs (with_timer_source l (with_timerlist (timer_source l) tl)) calls 0.

(** [left] is an unsigned 64-bit number, the result a signed 32-bit one. *)
Definition qb_loop_timer_msec_duration_to_expire (ts : qb_timer_source) (ce : call_env) (hertz : Z) : option Z :=
  left ← timerlist_msec_duration_to_expire (ts_timerlist ts) (ce_now ce) (ce_epoch ce) hertz;
  let left := if negb (left =? u64 (-1)) && (0xFFFFFFFF <? left) then 0xFFFFFFFE else left in
  Some (i32 left).

Definition _timer_from_handle_ (ts : qb_timer_source) (handle_in : Z) (env : alloc_env)
    : option (qb_timer_source * (Z + Z * (Z * Z))) :=
  if handle_in =? 0 then Some (ts, inl (- EINVAL))
  else
    let check := i32 (Z.shiftr handle_in 32) in
    let install_pos := Z.land handle_in UINT32_MAX in
    '(ts, r) ← timer_index ts (i32 install_pos) env;
    match r with
    | inl rc => Some (ts, inl rc)
    | inr a =>
      if negb (t_check (timer_get ts a) =? check) then Some (ts, inl (- EINVAL))
      else Some (ts, inr (install_pos, a))
    end.

(** The first free place, or the number of places when there is none. *)
Fixpoint first_empty (fuel : nat) (ts : qb_timer_source) (pos : Z) (env : alloc_env)
    : option (qb_timer_source * option Z) :=
  match fuel with
  | O => Some (ts, None)
  | S fuel' =>
    '(ts, r) ← timer_index ts pos env;
    match r with
    | inl _ => None
    | inr a =>
      if decide (t_state (timer_get ts a) = QB_POLL_ENTRY_EMPTY) then Some (ts, Some pos)
      else first_empty fuel' ts (pos + 1) env
    end
  end.

Definition _get_empty_array_position_ (ts : qb_timer_source) (env : alloc_env) : option (qb_timer_source * Z) :=
  '(ts, found) ← first_empty (Z.to_nat (timer_entry_count ts)) ts 0 env;
  match found with
  | Some pos => Some (ts, pos)
  | None =>
    let '(a, res) := qb_array_grow (ts_timers ts) (timer_entry_count ts + 1) env in
    let ts := with_timers ts a in
    if negb (res =? 0) then Some (ts, res)
    else
      let ts := with_entry_count ts (timer_entry_count ts + 1) in
      Some (ts, i32 (timer_entry_count ts - 1))
  end.

(** Returns the error code and the handle. *)
Definition qb_loop_timer_add (l : qb_loop) (p nsec_duration data timer_fn : Z) (ce : call_env)
    : option (qb_loop * Z * Z) :=
  if timer_fn =? 0 then Some (l, - EINVAL, 0)
  else
    '(ts, i) ← _get_empty_array_position_ (timer_source l) (ce_array ce);
    '(ts, r) ← timer_index ts i (ce_array ce);
    match r with
    | inl _ => None
    | inr a =>
      let t := {| t_user_data := data; t_dispatch_fn := timer_fn; t_p := p; t_state := QB_POLL_ENTRY_ACTIVE;
                  t_check := draw_check 200 (ce_random ce) (t_check (timer_get ts a)); t_install_pos := i |} in
      let ts := timer_set ts a t in
      let handle := make_handle (t_check t) (t_install_pos t) in
      '(tl, res) ← timerlist_add_duration (ts_timerlist ts) make_job_from_tmo_fn i nsec_duration i
                     (ce_addr ce) (ce_realloc_errno ce) (ce_now ce);
      Some (with_timer_source l (with_timerlist ts tl), res, handle)
    end.

Definition qb_loop_timer_del (l : qb_loop) (th : Z) (ce : call_env) : option (qb_loop * Z) :=
  '(ts, r) ← _timer_from_handle_ (timer_source l) th (ce_array ce);
  let l := with_timer_source l ts in
  match r with
  | inl res => Some (l, res)
  | inr (pos, a) =>
    let t := timer_get ts a in
    match t_state t with
    | QB_POLL_ENTRY_DELETED => Some (l, 0)
    | QB_POLL_ENTRY_EMPTY => Some (l, - EINVAL)
    | _ =>
      if bool_decide (t_state t = QB_POLL_ENTRY_JOBLIST) && negb (priority_ok (t_p t)) then None
      else
        let l := if decide (t_state t = QB_POLL_ENTRY_JOBLIST) then delete_item l (t_p t) (Item_timer pos) else l in
        let ts := timer_source l in
        tl ← (if timerlist_handle ts pos =? 0 then Some (ts_timerlist ts)
              else r ← timerlist_del (ts_timerlist ts) (timerlist_handle ts pos); Some (fst r));
        Some (with_timer_source l
                (timer_set (with_timerlist ts tl) a (with_t_state t QB_POLL_ENTRY_EMPTY)), 0)
    end
  end.

Definition qb_loop_timer_expire_time_get (l : qb_loop) (th : Z) (ce : call_env) : option (qb_loop * Z) :=
  '(ts, r) ← _timer_from_handle_ (timer_source l) th (ce_array ce);
  let l := with_timer_source l ts in
  match r with
  | inl _ => Some (l, 0)
  | inr (pos, a) =>
    if negb (bool_decide (t_state (timer_get ts a) = QB_POLL_ENTRY_ACTIVE)) then Some (l, 0)
    else Some (l, timerlist_expire_time (ts_timerlist ts) (timerlist_handle ts pos))
  end.

Definition qb_loop_timer_expire_time_remaining (l : qb_loop) (th : Z) (ce : call_env) : option (qb_loop * Z) :=
  '(ts, r) ← _timer_from_handle_ (timer_source l) th (ce_array ce);
  let l := with_timer_source l ts in
  match r with
  | inl _ => Some (l, 0)
  | inr (pos, a) =>
    if negb (bool_decide (t_state (timer_get ts a) = QB_POLL_ENTRY_ACTIVE)) then Some (l, 0)
    else
      let timer := deref (ts_timerlist ts) (timerlist_handle ts pos) in
      let current_ns := if is_absolute_timer timer then ce_epoch ce else ce_now ce in
      let timer_ns := timerlist_expire_time (ts_timerlist ts) (timerlist_handle ts pos) in
      if timer_ns <? current_ns then Some (l, 0) else Some (l, timer_ns - current_ns)
  end.

Definition qb_loop_timer_is_running (l : qb_loop) (th : Z) (ce : call_env) : option (qb_loop * bool) :=
  '(l, t) ← qb_loop_timer_expire_time_get l th ce; Some (l, 0 <? t).

(** ** Dispatch and the main loop (lib/loop.c) *)

(** The calls of the interface a user's callback may make. *)
Inductive api_call :=
  | Call_job_add (p data fn : Z)
  | Call_job_del (p data fn : Z)
  | Call_timer_add (p nsec_duration data fn : Z)
  | Call_timer_del (th : Z)
  | Call_stop.

Definition qb_loop_stop (l : qb_loop) : qb_loop := with_stop l true.

(** The file descriptor source: its poll, which may wait, and the dispatch of
    one of its items. *)
Class FdSource := {
  fd_poll : qb_loop -> Z -> qb_loop * Z;
  fd_dispatch : qb_loop -> fd_item -> option qb_loop;
}.

Section Run.
Context `{FdSource} (env : nat -> call_env) (user : Z -> Z -> list api_call) (hertz : Z).

Definition exec_call (l : qb_loop) (c : api_call) : option qb_loop :=
  let ce := env (tick l) in
  let l := next_tick l in
  match c with
  | Call_job_add p data fn => Some (fst (qb_loop_job_add l p data fn ce))
  | Call_job_del p data fn => r ← qb_loop_job_del l p data fn; Some (fst (fst r))
  | Call_timer_add p dur data fn => r ← qb_loop_timer_add l p dur data fn ce; Some (fst (fst r))
  | Call_timer_del th => r ← qb_loop_timer_del l th ce; Some (fst r)
  | Call_stop => Some (qb_loop_stop l)
  end.

Fixpoint exec_calls (l : qb_loop) (cs : list api_call) : option qb_loop :=
  match cs with
  | [] => Some l
  | c :: cs => l ← exec_call l c; exec_calls l cs
  end.

(** One-shot: the job is freed after its function returns. *)
Definition job_dispatch (l : qb_loop) (fn data : Z) : option qb_loop := exec_calls l (user fn data).

Definition timer_dispatch (l : qb_loop) (pos : Z) : option qb_loop :=
  let ts := timer_source l in
  let a := timer_addr pos in
  let t := timer_get ts a in
  if negb (bool_decide (t_state t = QB_POLL_ENTRY_JOBLIST)) then None
  else
    let l := with_timer_source l (timer_set ts a (with_t_check t 0)) in
    l ← exec_calls l (user (t_dispatch_fn t) (t_user_data t));
    let ts := timer_source l in
    Some (with_timer_source l (timer_set ts a (with_t_state (timer_get ts a) QB_POLL_ENTRY_EMPTY))).

(** What a dispatched item calls, for the log. *)
Definition item_call (l : qb_loop) (i : qb_loop_item) : Z * Z :=
  match i with
  | Item_job _ fn data => (fn, data)
  | Item_timer pos =>
    let t := timer_get (timer_source l) (timer_addr pos) in (t_dispatch_fn t, t_user_data t)
  | Item_fd _ => (0, 0)
  end.

Definition dispatch_and_take_back (l : qb_loop) (p : Z) (i : qb_loop_item) : option qb_loop :=
  let '(fn, data) := item_call l i in
  let l := add_event l (Ev_dispatch p i fn data) in
  match i with
  | Item_job _ fn data => job_dispatch l fn data
  | Item_timer pos => timer_dispatch l pos
  | Item_fd pos => fd_dispatch l pos
  end.

Definition set_job_head (v : qb_loop_level) (j : list qb_loop_item) : qb_loop_level :=
  set_queues v (todo v) (wait_head v) j.
Definition set_todo (v : qb_loop_level) (n : Z) : qb_loop_level := set_queues v n (wait_head v) (job_head v).

(** At most [n] more items of the level. *)
Fixpoint run_level (n : nat) (l : qb_loop) (p : Z) : option qb_loop :=
  match n with
  | O => Some l
  | S n' =>
    match job_head (lv l p) with
    | [] => Some l
    | job :: rest =>
      let l := set_lv l p (set_job_head (lv l p) rest) in
      l ← dispatch_and_take_back l p job;
      let l := set_lv l p (set_todo (lv l p) (i32 (todo (lv l p) - 1))) in
      if stop_requested l then Some l else run_level n' l p
    end
  end.

(** The label [Ill_have_another] is reached at least once. *)
Definition qb_loop_run_level (l : qb_loop) (p : Z) : option qb_loop :=
  run_level (Nat.max 1 (Z.to_nat (to_process (lv l p)))) l p.

(** The levels from [p] down to the lowest; those below [p_stop] are skipped.
    The second result is [remaining_todo]; [None] of it is the early return. *)
Fixpoint run_levels (n : nat) (l : qb_loop) (p p_stop remaining_todo : Z) : option (qb_loop * option Z) :=
  match n with
  | O => Some (l, Some remaining_todo)
  | S n' =>
    l ← (if p_stop <=? p then qb_loop_run_level l p else Some l);
    if (p_stop <=? p) && stop_requested l then Some (l, None)
    else run_levels n' l (p - 1) p_stop (i32 (remaining_todo + todo (lv l p)))
  end.

(** [ms_timeout] for the wait of the file descriptor source. *)
Definition poll_timeout (l : qb_loop) (remaining_todo job_todo timer_todo : Z) : option Z :=
  if (0 <? remaining_todo) || (0 <? timer_todo) then Some 0
  else if 0 <? job_todo then Some 50
  else qb_loop_timer_msec_duration_to_expire (timer_source l) (env (tick l)) hertz.

(** One round of the loop of [qb_loop_run]: the new state, [p_stop] and
    [remaining_todo], which is [None] when the loop returned. *)
Definition run_round (l : qb_loop) (p_stop remaining_todo : Z) : option (qb_loop * Z * option Z) :=
  let p_stop := if p_stop =? QB_LOOP_LOW then QB_LOOP_HIGH else p_stop - 1 in
  let '(l, rc) := get_more_jobs l in
  let job_todo := if 0 <? rc then rc else 0 in
  let ce := env (tick l) in
  '(l, rc) ← expire_the_timers (next_tick l) ce;
  let timer_todo := if 0 <? rc then rc else 0 in
  ms_timeout ← poll_timeout l remaining_todo job_todo timer_todo;
  let '(l, rc) := fd_poll (next_tick l) ms_timeout in
  '(l, rem) ← run_levels 3 l QB_LOOP_HIGH p_stop 0;
  match rem with
  | None => Some (l, p_stop, None)
  | Some n => Some (l, p_stop, if stop_requested l then None else Some n)
  end.

(** At most [n] rounds; the flag says whether the loop returned. *)
Fixpoint run_rounds (n : nat) (l : qb_loop) (p_stop remaining_todo : Z) : option (qb_loop * bool) :=
  match n with
  | O => Some (l, false)
  | S n' =>
    '(l, p_stop, rem) ← run_round l p_stop remaining_todo;
    match rem with
    | None => Some (l, true)
    | Some r => run_rounds n' l p_stop r
    end
  end.

Definition qb_loop_run (n : nat) (l : qb_loop) : option (qb_loop * bool) :=
  run_rounds n (with_stop l false) QB_LOOP_LOW 0.
End Run.

Definition new_level (p : Z) : qb_loop_level :=
  {| priority := p; to_process := 4; todo := 0; wait_head := []; job_head := [] |}.

(** [None] when [malloc] fails; the loop that runs without a timer source when
    that allocation fails is not modelled. *)
Definition qb_loop_create (alloc_ok : bool) (ts : option qb_timer_source) : option qb_loop :=
  if alloc_ok then
    ts ← ts;
    Some {| level := [new_level QB_LOOP_LOW; new_level QB_LOOP_MED; new_level QB_LOOP_HIGH];
            stop_requested := false; timer_source := ts; log := []; tick := 0 |}
  else None.
