(* ===== verification/LoopTheorems.v ===== *)
(** * Main loop: scheduling

    Whatever the callbacks do, the count of a level's jobs is the length of its
    queue, a job never moves back in its queue, and every queued job is run or
    deleted within a bounded number of rounds. *)
From S2P Require Import Prelude Hdb Tlist Array Loop.
From S2P Require Import TlistHeap TlistTheorems.

(** ** Relations between states *)

Definition ok (l : qb_loop) : Prop := zlen (level l) = 3.

(** [todo] counts the queue, up to an offset for the level being dispatched. *)
Definition acct (off : Z -> Z) (l : qb_loop) : Prop :=
  forall p, 0 <= p < 3 -> todo (lv l p) = i32 (zlen (job_head (lv l p)) + off p).

Definition touched (p : Z) (x : qb_loop_item) (ev : list loop_event) : Prop :=
  Ev_removed p x ∈ ev \/ exists fn data, Ev_dispatch p x fn data ∈ ev.

(** Every item of the queue was run or removed, or moved forward by [d] at least. *)
Definition moves (p d : Z) (ev : list loop_event) (l l' : qb_loop) : Prop :=
  forall k x, 0 <= k -> job_head (lv l p) !! Z.to_nat k = Some x ->
    touched p x ev \/ exists k', 0 <= k' /\ k' + d <= k /\ job_head (lv l' p) !! Z.to_nat k' = Some x.

(** The items run, with their priorities. *)
Definition dispatches (ev : list loop_event) : list (Z * qb_loop_item) :=
  omap (fun e => match e with Ev_dispatch p i _ _ => Some (p, i) | Ev_removed _ _ => None end) ev.

Definition same_limits (l l' : qb_loop) : Prop :=
  forall p, 0 <= p < 3 -> to_process (lv l' p) = to_process (lv l p).

(** What everything but running an item does to the queues. *)
Definition evolves (l l' : qb_loop) : Prop :=
  ok l -> ok l' /\ same_limits l l' /\ (forall off, acct off l -> acct off l') /\
  exists ev, log l' = log l ++ ev /\ dispatches ev = [] /\ forall p, 0 <= p < 3 -> moves p 0 ev l l'.

(** The file descriptor source adds its items at the end of the queues and
    leaves the others alone, or at least behaves as if. *)
Class FdLaws `{FdSource} := {
  fd_poll_law l ms : evolves l (fst (fd_poll l ms));
  fd_dispatch_law l pos l' : fd_dispatch l pos = Some l' -> evolves l l';
}.

(** ** Basic facts *)

Lemma i32_add a b : i32 (i32 a + b) = i32 (a + b).
Proof.
  unfold i32. replace ((a + 2 ^ 31) mod 2 ^ 32 - 2 ^ 31 + b + 2 ^ 31) with ((a + 2 ^ 31) mod 2 ^ 32 + b) by lia.
  rewrite Zplus_mod_idemp_l. f_equal. f_equal. lia.
Qed.

Lemma touched_app p x ev ev' : touched p x (ev ++ ev') <-> touched p x ev \/ touched p x ev'.
Proof. unfold touched. setoid_rewrite elem_of_app. naive_solver. Qed.

Lemma dispatches_app ev ev' : dispatches (ev ++ ev') = dispatches ev ++ dispatches ev'.
Proof. apply omap_app. Qed.

Lemma moves_trans p d d' ev ev' l l' l'' :
  moves p d ev l l' -> moves p d' ev' l' l'' -> moves p (d + d') (ev ++ ev') l l''.
Proof.
  intros H1 H2 k x Hk Hx. destruct (H1 k x Hk Hx) as [Ht|(k1 & Hk1 & Hle & Hx1)]; [left; apply touched_app; by left|].
  destruct (H2 k1 x Hk1 Hx1) as [Ht|(k2 & Hk2 & Hle2 & Hx2)]; [left; apply touched_app; by right|].
  right. exists k2. split_and!; done || lia.
Qed.

Lemma moves_same p ev l l' : job_head (lv l' p) = job_head (lv l p) -> moves p 0 ev l l'.
Proof. intros E k x Hk Hx. right. exists k. rewrite E. split_and!; done || lia. Qed.

Lemma moves_empty p d ev l l' : job_head (lv l p) = [] -> moves p d ev l l'.
Proof. intros E k x Hk. by rewrite E, lookup_nil. Qed.

Lemma lv_set l p v q : ok l -> 0 <= p < 3 -> 0 <= q -> lv (set_lv l p v) q = if decide (q = p) then v else lv l q.
Proof.
  intros Hok Hp Hq. unfold lv, set_lv. cbn. case_decide; subst; [apply zget_zset_eq; unfold ok in Hok; lia|].
  by apply zget_zset_ne.
Qed.

Lemma evolves_trans l l' l'' : evolves l l' -> evolves l' l'' -> evolves l l''.
Proof.
  intros H1 H2 Hok. destruct (H1 Hok) as (Hok1 & Hl1 & Ha1 & ev1 & E1 & Hd1 & Hm1).
  destruct (H2 Hok1) as (Hok2 & Hl2 & Ha2 & ev2 & E2 & Hd2 & Hm2). split; [done|]. split.
  { intros p Hp. by rewrite Hl2, Hl1. }
  split; [auto|]. exists (ev1 ++ ev2). rewrite E2, E1, app_assoc, dispatches_app, Hd1, Hd2. split; [done|].
  split; [done|]. intros p Hp. apply (moves_trans p 0 0 ev1 ev2 l l'); auto.
Qed.

(** The queues are not touched. *)
Lemma evolves_same l l' : level l' = level l -> log l' = log l -> evolves l l'.
Proof.
  intros E1 E2 Hok. unfold ok, same_limits, acct, lv. rewrite E1. split; [done|]. split; [done|]. split; [done|].
  exists []. rewrite E2, app_nil_r. split; [done|]. split; [done|]. intros p _. apply moves_same. unfold lv. by rewrite E1.
Qed.

Lemma evolves_refl l : evolves l l.
Proof. by apply evolves_same. Qed.
#[export] Hint Resolve evolves_refl : qb.

(** One level changes. *)
Lemma evolves_level l p v ev :
  0 <= p < 3 -> to_process v = to_process (lv l p) ->
  (forall n, todo (lv l p) = i32 n -> todo v = i32 (n + (zlen (job_head v) - zlen (job_head (lv l p))))) ->
  dispatches ev = [] ->
  (forall k x, 0 <= k -> job_head (lv l p) !! Z.to_nat k = Some x ->
     touched p x ev \/ exists k', 0 <= k' /\ k' + 0 <= k /\ job_head v !! Z.to_nat k' = Some x) ->
  evolves l (foldl add_event (set_lv l p v) ev).
Proof.
  intros Hp Htp Htodo Hd Hm Hok.
  assert (Hfold : forall l0, level (foldl add_event l0 ev) = level l0 /\ log (foldl add_event l0 ev) = log l0 ++ ev).
  { clear. induction ev as [|e ev IH]; intros l0; cbn [foldl]; [by rewrite app_nil_r|].
    destruct (IH (add_event l0 e)) as [-> ->]. cbn. by rewrite <- app_assoc. }
  destruct (Hfold (set_lv l p v)) as [El Elog]. set (l' := foldl _ _ _) in *.
  assert (Hlv : forall q, 0 <= q -> lv l' q = if decide (q = p) then v else lv l q).
  { intros q Hq. rewrite <- (lv_set l p v q) by done. unfold lv. by rewrite El. }
  split; [unfold ok; rewrite El; cbn; by rewrite zlen_zset|]. split.
  { intros q Hq. rewrite Hlv by lia. case_decide; by subst. }
  split.
  { intros off Ha q Hq. rewrite Hlv by lia. case_decide; [|by apply Ha]. subst. rewrite (Htodo _ (Ha p Hp)). f_equal. lia. }
  exists ev. rewrite Elog. split; [done|]. split; [done|]. intros q Hq k x Hk Hx. rewrite Hlv by lia.
  case_decide; [subst; by apply Hm|]. right. exists k. split_and!; done || lia.
Qed.

(** The queue of the level stays, or grows at its end. *)
Lemma evolves_append l p v extra :
  0 <= p < 3 -> to_process v = to_process (lv l p) -> job_head v = job_head (lv l p) ++ extra ->
  (forall n, todo (lv l p) = i32 n -> todo v = i32 (n + zlen extra)) -> evolves l (set_lv l p v).
Proof.
  intros Hp Htp Hj Ht. apply (evolves_level l p v []); try done.
  - intros n Hn. rewrite (Ht n Hn), Hj, zlen_app. f_equal. lia.
  - intros k x Hk Hx. right. exists k. rewrite Hj. split_and!; [done|lia|]. by apply lookup_app_l_Some.
Qed.

(** ** The operations *)

Lemma priority_range p : priority_ok p = true -> 0 <= p < 3.
Proof. unfold priority_ok, QB_LOOP_LOW, QB_LOOP_HIGH. intros [? ?]%andb_prop. lia. Qed.

Lemma more_jobs_evolves l n p : 0 <= p < 3 -> evolves l (fst (more_jobs_level l n p)).
Proof.
  intros Hp. unfold more_jobs_level. destruct (wait_head (lv l p)) as [|w ws] eqn:E; [auto with qb|].
  apply (evolves_append l p _ (w :: ws)); try done. intros m Hm. cbn [todo set_queues]. by rewrite Hm, i32_add.
Qed.

Lemma get_more_jobs_evolves l : evolves l (fst (get_more_jobs l)).
Proof.
  unfold get_more_jobs. pose proof (more_jobs_evolves l 0 QB_LOOP_LOW ltac:(done)) as H1.
  destruct (more_jobs_level l 0 QB_LOOP_LOW) as [l1 n1]. pose proof (more_jobs_evolves l1 n1 QB_LOOP_MED ltac:(done)) as H2.
  destruct (more_jobs_level l1 n1 QB_LOOP_MED) as [l2 n2]. cbn in *.
  eapply evolves_trans, more_jobs_evolves; [|done]. by eapply evolves_trans.
Qed.

Lemma job_add_evolves l p data fn ce : evolves l (fst (qb_loop_job_add l p data fn ce)).
Proof.
  unfold qb_loop_job_add. destruct (_ =? _); [auto with qb|]. destruct (priority_ok p) eqn:Hp; [|auto with qb].
  destruct (_ =? _); [auto with qb|]. apply priority_range in Hp.
  apply (evolves_append l p _ []); try done; cbn; [by rewrite app_nil_r|]. intros n Hn. by rewrite Hn, Z.add_0_r.
Qed.

Lemma remove_item_lookup i l k x :
  0 <= k -> l !! Z.to_nat k = Some x -> x = i \/ exists k', 0 <= k' /\ k' + 0 <= k /\ remove_item i l !! Z.to_nat k' = Some x.
Proof.
  revert k. induction l as [|y l IH]; intros k Hk; [by rewrite lookup_nil|]. cbn [remove_item].
  destruct (decide (k = 0)) as [->|].
  - intros [= ->]. case_decide; [by left|]. right. exists 0. split_and!; done || lia.
  - replace (Z.to_nat k) with (S (Z.to_nat (k - 1))) by lia. cbn [lookup list_lookup]. intros Hx.
    case_decide; [right; exists (k - 1); split_and!; done || lia|].
    destruct (IH (k - 1)) as [->|(k' & Hk' & Hle & Hx')]; [lia|done|by left|].
    right. exists (k' + 1). split_and!; [lia|lia|]. by replace (Z.to_nat (k' + 1)) with (S (Z.to_nat k')) by lia.
Qed.

Lemma remove_item_length i l : i ∈ l -> zlen (remove_item i l) = zlen l - 1.
Proof.
  induction l as [|y l IH]; [set_solver|]. intros Hi. cbn [remove_item]. rewrite zlen_cons. case_decide; [lia|].
  rewrite zlen_cons, IH; [lia|set_solver].
Qed.

Lemma delete_item_evolves l p i : 0 <= p < 3 -> evolves l (delete_item l p i).
Proof.
  intros Hp. unfold delete_item, qb_loop_level_item_del. case_decide as Hin.
  - apply (evolves_level l p _ [Ev_removed p i]); try done; cbn [job_head set_queues todo].
    + intros n Hn. rewrite Hn, remove_item_length by done. replace (n + _) with (n + -1) by lia. by rewrite <- i32_add.
    + intros k x Hk Hx. destruct (remove_item_lookup i _ k x Hk Hx) as [->|?]; [left; left; set_solver|by right].
  - apply (evolves_append l p _ []); try done; [by rewrite app_nil_r|]. intros n Hn. by rewrite Hn, Z.add_0_r.
Qed.

Lemma job_del_evolves l p data fn r : qb_loop_job_del l p data fn = Some r -> evolves l (fst (fst r)).
Proof.
  unfold qb_loop_job_del. destruct (_ =? _); [intros [= <-]; auto with qb|].
  destruct (Z.ltb_spec QB_LOOP_HIGH p); [intros [= <-]; auto with qb|]. destruct (Z.ltb_spec p 0); [done|].
  unfold QB_LOOP_HIGH in *. assert (Hp : 0 <= p < 3) by lia.
  assert (Hjob : forall r, match List.find (job_matches data fn) (job_head (lv l p)) with
      | Some i => Some (delete_item l p i, 0, [])
      | None => Some (l, - ENOENT, ([] : list Z)) end = Some r -> evolves l (fst (fst r))).
  { intros r0. destruct (List.find _ (job_head _)); intros [= <-]; [by apply delete_item_evolves|auto with qb]. }
  destruct (List.find _ (wait_head (lv l p))) as [[a f d| |]|]; try apply Hjob. intros [= <-].
  apply (evolves_append l p _ []); try done; cbn; [by rewrite app_nil_r|]. intros n Hn. by rewrite Hn, Z.add_0_r.
Qed.

Lemma timer_add_evolves l p dur data fn ce r : qb_loop_timer_add l p dur data fn ce = Some r -> evolves l (fst (fst r)).
Proof.
  unfold qb_loop_timer_add. destruct (_ =? _); [intros [= <-]; auto with qb|].
  destruct (_get_empty_array_position_ _ _) as [[ts i]|]; [|done]. cbn [mbind option_bind].
  destruct (timer_index ts i _) as [[ts' [?|a]]|]; [done| |done]. cbn [mbind option_bind]. destruct (timerlist_add_duration _ _ _ _ _ _ _ _) as [[tl res]|]; [|done].
  intros [= <-]. by apply evolves_same.
Qed.

Lemma timer_del_evolves l th ce r : qb_loop_timer_del l th ce = Some r -> evolves l (fst r).
Proof.
  unfold qb_loop_timer_del. destruct (_timer_from_handle_ _ _ _) as [[ts [rc|[pos a]]]|]; [..|done]; cbn [mbind option_bind].
  { intros [= <-]. by apply evolves_same. }
  set (l0 := with_timer_source l ts). assert (H0 : evolves l l0) by by apply evolves_same.
  set (t := timer_get ts a).
  destruct (t_state t) eqn:Est; try (intros [= <-]; exact H0).
  - destruct (priority_ok (t_p t)) eqn:Hp; [|done]. cbn. rewrite !decide_True by done.
    pose proof (delete_item_evolves l0 (t_p t) (Item_timer pos) (priority_range _ Hp)) as H1.
    set (l1 := delete_item _ _ _) in *.
    destruct (if _ =? 0 then _ else _) as [tl|]; [|done]. cbn [mbind option_bind]. intros [= <-].
    eapply evolves_trans; [exact H0|]. eapply evolves_trans; [exact H1|]. by apply evolves_same.
  - cbn. destruct (if _ =? 0 then _ else _) as [tl|]; [|done]. cbn [mbind option_bind]. intros [= <-].
    eapply evolves_trans; [exact H0|]. by apply evolves_same.
Qed.

Lemma make_job_evolves l pos n r : make_job_from_tmo l pos n = Some r -> evolves l (fst r).
Proof.
  unfold make_job_from_tmo.
  destruct (negb (bool_decide _)); [done|]. destruct (priority_ok _) eqn:Hp; [|done]. intros [= <-]. cbn [fst].
  eapply evolves_trans; [|by apply evolves_same].
  apply (evolves_append l _ _ [Item_timer pos]); try done; [by apply priority_range|].
  intros m Hm. cbn [todo set_queues qb_loop_level_item_add]. by rewrite Hm, i32_add.
Qed.

Lemma make_jobs_evolves calls : forall l n r, make_jobs l calls n = Some r -> evolves l (fst r).
Proof.
  induction calls as [|[fn pos] calls IH]; intros l n r; cbn [make_jobs]; [intros [= <-]; auto with qb|].
  destruct (make_job_from_tmo l pos n) as [[l1 n1]|] eqn:E; [|done]. cbn [mbind option_bind]. intros Hr.
  eapply evolves_trans; [exact (make_job_evolves _ _ _ _ E)|by eapply IH].
Qed.

Lemma expire_evolves l ce r : expire_the_timers l ce = Some r -> evolves l (fst r).
Proof.
  unfold expire_the_timers. destruct (timerlist_expire _ _ _) as [[tl calls]|]; [|done]. cbn [mbind option_bind].
  intros Hr. eapply evolves_trans; [|by eapply make_jobs_evolves]. by apply evolves_same.
Qed.

(** ** Running items *)

Section Run.
Context `{FdLaws} (env : nat -> call_env) (user : Z -> Z -> list api_call) (hertz : Z).

Lemma exec_call_evolves l c l' : exec_call env l c = Some l' -> evolves l l'.
Proof.
  assert (Ht : evolves l (next_tick l)) by by apply evolves_same.
  unfold exec_call. destruct c as [p d f|p d f|p du d f|th|]; intros E.
  - injection E as <-. eapply evolves_trans; [exact Ht|apply job_add_evolves].
  - destruct (qb_loop_job_del _ _ _ _) as [r|] eqn:Er; [|done]. injection E as <-.
    eapply evolves_trans; [exact Ht|by eapply job_del_evolves].
  - destruct (qb_loop_timer_add _ _ _ _ _ _) as [r|] eqn:Er; [|done]. injection E as <-.
    eapply evolves_trans; [exact Ht|by eapply timer_add_evolves].
  - destruct (qb_loop_timer_del _ _ _) as [r|] eqn:Er; [|done]. injection E as <-.
    eapply evolves_trans; [exact Ht|by eapply timer_del_evolves].
  - injection E as <-. by apply evolves_same.
Qed.

Lemma exec_calls_evolves cs : forall l l', exec_calls env l cs = Some l' -> evolves l l'.
Proof.
  induction cs as [|c cs IH]; intros l l'; cbn [exec_calls]; [intros [= <-]; auto with qb|].
  destruct (exec_call env l c) as [l1|] eqn:E; [|done]. cbn [mbind option_bind]. intros Hl.
  eapply evolves_trans; [by eapply exec_call_evolves|by apply IH].
Qed.

(** The body of a dispatch, after the event is recorded. *)
Lemma dispatch_evolves l p i l' :
  dispatch_and_take_back env user l p i = Some l' ->
  exists fn data, evolves (add_event l (Ev_dispatch p i fn data)) l'.
Proof.
  unfold dispatch_and_take_back. destruct (item_call l i) as [fn data]. intros E. exists fn, data.
  set (l0 := add_event l _) in *. destruct i as [a f d|pos|pos].
  - by eapply exec_calls_evolves.
  - unfold timer_dispatch in E.
    destruct (negb _); [done|]. destruct (exec_calls _ _ _) as [l1|] eqn:E1; [|done]. injection E as <-.
    apply exec_calls_evolves in E1. eapply evolves_trans; [|eapply evolves_trans; [exact E1|by apply evolves_same]].
    by apply evolves_same.
  - by eapply fd_dispatch_law.
Qed.

(** What running items of level [p] does: [ds] are the items run. *)
Record ran (p d : Z) (ds : list (Z * qb_loop_item)) (l l' : qb_loop) : Prop := {
  rn_ok : ok l';
  rn_limits : same_limits l l';
  rn_acct : forall off, acct off l -> acct off l';
  rn_log : exists ev, log l' = log l ++ ev /\ dispatches ev = ds /\ moves p d ev l l' /\
    forall q, 0 <= q < 3 -> moves q 0 ev l l';
}.

Lemma ran_trans p d d' ds ds' l l' l'' :
  0 <= d -> 0 <= d' -> ran p d ds l l' -> ran p d' ds' l' l'' -> ran p (d + d') (ds ++ ds') l l''.
Proof.
  intros Hd Hd' [Hok1 Hl1 Ha1 (ev1 & E1 & Hds1 & Hm1 & Hq1)] [Hok2 Hl2 Ha2 (ev2 & E2 & Hds2 & Hm2 & Hq2)].
  constructor; [done| |auto|].
  - intros q Hq. by rewrite Hl2, Hl1.
  - exists (ev1 ++ ev2). rewrite E2, E1, <- app_assoc, dispatches_app, Hds1, Hds2. split; [done|]. split; [done|].
    split; [by eapply moves_trans|]. intros q Hq. apply (moves_trans q 0 0 ev1 ev2 l l'); auto.
Qed.

Lemma evolves_ran p l l' : ok l -> 0 <= p < 3 -> evolves l l' -> ran p 0 [] l l'.
Proof.
  intros Hok Hp He. destruct (He Hok) as (Hok1 & Hl1 & Ha1 & ev1 & E1 & Hd1 & Hm1). constructor; try done.
  exists ev1. split_and!; try done. by apply Hm1.
Qed.

Lemma ran_nothing p d l : ok l -> job_head (lv l p) = [] -> ran p d [] l l.
Proof.
  intros Hok He. constructor; try done. exists []. rewrite app_nil_r. split_and!; try done.
  - by apply moves_empty.
  - intros q _. by apply moves_same.
Qed.

(** Running the first item of a level. *)
Lemma run_one l p job rest l2 :
  ok l -> 0 <= p < 3 -> job_head (lv l p) = job :: rest ->
  dispatch_and_take_back env user (set_lv l p (set_job_head (lv l p) rest)) p job = Some l2 ->
  ran p 1 [(p, job)] l (set_lv l2 p (set_todo (lv l2 p) (i32 (todo (lv l2 p) - 1)))).
Proof.
  intros Hok Hp Hj (fn & data & He)%dispatch_evolves. set (l1 := set_lv l p _) in *.
  assert (Hlv1 : forall q, 0 <= q -> lv l1 q = if decide (q = p) then set_job_head (lv l p) rest else lv l q)
    by (intros q Hq; by apply lv_set).
  destruct (He ltac:(unfold ok; cbn; by rewrite zlen_zset)) as (Hok2 & Hl2 & Ha2 & ev & Elog & Hd & Hm).
  change (lv (add_event l1 ?e)) with (lv l1) in *. 
  assert (Hlv3 : forall q, 0 <= q -> lv (set_lv l2 p (set_todo (lv l2 p) (i32 (todo (lv l2 p) - 1)))) q =
      if decide (q = p) then set_todo (lv l2 p) (i32 (todo (lv l2 p) - 1)) else lv l2 q)
    by (intros q Hq; by apply lv_set).
  assert (Hjh : forall q, 0 <= q -> job_head (lv (set_lv l2 p (set_todo (lv l2 p) (i32 (todo (lv l2 p) - 1)))) q) = job_head (lv l2 q))
    by (intros q Hq; rewrite Hlv3 by done; case_decide; by subst).
  set (l3 := set_lv l2 p _) in *. constructor.
  - unfold ok. cbn. by rewrite zlen_zset.
  - intros q Hq. transitivity (to_process (lv l2 q)); [rewrite Hlv3 by lia; case_decide; by subst|].
    rewrite (Hl2 q Hq). change (lv (add_event l1 _) q) with (lv l1 q). rewrite Hlv1 by lia. case_decide; by subst.
  - intros off Ha. assert (Ha1 : acct (fun q => off q + if decide (q = p) then 1 else 0) l2).
    { apply Ha2. intros q Hq. change (lv (add_event l1 _) q) with (lv l1 q). rewrite Hlv1 by lia. case_decide.
      - subst. cbn [todo set_job_head set_queues job_head]. rewrite (Ha p Hp), Hj, zlen_cons. f_equal. lia.
      - rewrite (Ha q Hq). f_equal. lia. }
    intros q Hq. rewrite Hjh, Hlv3 by lia. specialize (Ha1 q Hq). cbv beta in Ha1. case_decide.
    + subst. cbn [todo set_todo set_queues]. rewrite Ha1. rewrite <- Z.add_opp_r, i32_add. f_equal. lia.
    + rewrite Ha1. f_equal. lia.
  - exists (Ev_dispatch p job fn data :: ev). change (log l3) with (log l2). rewrite Elog. cbn [log add_event].
    rewrite <- app_assoc. split; [done|].
    assert (Hmv : forall q k x, 0 <= q < 3 -> 0 <= k -> job_head (lv l1 q) !! Z.to_nat k = Some x ->
        touched q x (Ev_dispatch p job fn data :: ev) \/
        exists k', 0 <= k' /\ k' + 0 <= k /\ job_head (lv l3 q) !! Z.to_nat k' = Some x).
    { intros q k x Hq Hk Hx. rewrite Hjh by lia. destruct (Hm q Hq k x Hk Hx) as [Ht|?]; [left|by right].
      change (Ev_dispatch p job fn data :: ev) with ([Ev_dispatch p job fn data] ++ ev). apply touched_app. by right. }
    split; [change (dispatches (Ev_dispatch p job fn data :: ev)) with ((p, job) :: dispatches ev); by rewrite Hd|].
    assert (Hpm : moves p 1 (Ev_dispatch p job fn data :: ev) l l3).
    { intros k x Hk Hx. rewrite Hj in Hx. destruct (decide (k = 0)) as [->|].
      - injection Hx as ->. left. right. exists fn, data. set_solver.
      - replace (Z.to_nat k) with (S (Z.to_nat (k - 1))) in Hx by lia.
        destruct (Hmv p (k - 1) x Hp ltac:(lia)) as [?|(k' & ? & ? & ?)].
        + rewrite Hlv1, decide_True by lia. exact Hx.
        + by left.
        + right. exists k'. split_and!; done || lia. }
    split; [exact Hpm|]. intros q Hq k x Hk Hx. destruct (decide (q = p)) as [->|].
    + destruct (Hpm k x Hk Hx) as [?|(k' & ? & ? & ?)]; [by left|]. right. exists k'. split_and!; done || lia.
    + apply Hmv; try done. rewrite Hlv1, decide_False by lia. exact Hx.
Qed.

Lemma run_level_ran n : forall l p l',
  ok l -> 0 <= p < 3 -> run_level env user n l p = Some l' ->
  exists d ds, ran p d ds l l' /\ 0 <= d /\ (Forall (fun x => fst x = p) ds) /\ (length ds <= n)%nat /\
    (stop_requested l' = true \/ d = Z.of_nat n).
Proof.
  induction n as [|n IH]; intros l p l' Hok Hp; cbn [run_level].
  { intros [= <-]. exists 0, []. split; [by apply evolves_ran, evolves_refl|]. split_and!; try done. by right. }
  destruct (job_head (lv l p)) as [|job rest] eqn:Hj.
  { intros [= <-]. exists (Z.of_nat (S n)), []. split; [by apply ran_nothing|]. split; [lia|]. split; [constructor|]. split; [cbn; lia|by right]. }
  destruct (dispatch_and_take_back _ _ _ _ _) as [l2|] eqn:E; [|done]. cbn [mbind option_bind].
  pose proof (run_one l p job rest l2 Hok Hp Hj E) as Hr. set (l3 := set_lv l2 p _) in *.
  destruct (stop_requested l3) eqn:Est.
  - intros [= <-]. exists 1, [(p, job)]. split; [done|]. split; [lia|]. split; [by constructor|]. split; [cbn; lia|by left].
  - intros Hrun. destruct (IH l3 p l' (rn_ok _ _ _ _ _ Hr) Hp Hrun) as (d & ds & Hr2 & Hd & Hf & Hlen & Hst).
    exists (1 + d), ([(p, job)] ++ ds). split; [by eapply ran_trans|]. split; [lia|].
    split; [by constructor|]. split; [cbn; lia|]. destruct Hst as [?|Hdn]; [by left|right; lia].
Qed.

(** ** A round *)

(** The limit [qb_loop_create] sets. *)
Definition limits4 (l : qb_loop) : Prop := forall p, 0 <= p < 3 -> to_process (lv l p) = 4.

(** The items run from level [p] down: each level in turn, at most four of it,
    none of a level below [p_stop]. *)
Fixpoint round_shape (n : nat) (p p_stop : Z) (ds : list (Z * qb_loop_item)) : Prop :=
  match n with
  | O => ds = []
  | S n' => exists d1 d2, ds = d1 ++ d2 /\ (Forall (fun x => fst x = p) d1) /\ (length d1 <= 4)%nat /\
      (p < p_stop -> d1 = []) /\ round_shape n' (p - 1) p_stop d2
  end.

Lemma round_shape_nil n : forall p p_stop, round_shape n p p_stop [].
Proof.
  induction n as [|n IH]; intros p p_stop; [done|]. exists [], []. split; [done|]. split; [done|]. split; [cbn; lia|]. split; [done|]. apply IH.
Qed.

(** What the part of a round that runs items does; [full] says that no stop was
    requested. *)
Record swept (n : nat) (p p_stop : Z) (full : bool) (l l' : qb_loop) : Prop := {
  sw_ok : ok l';
  sw_limits : same_limits l l';
  sw_acct : forall off, acct off l -> acct off l';
  sw_log : exists ev, log l' = log l ++ ev /\ round_shape n p p_stop (dispatches ev) /\
    (forall q, 0 <= q < 3 -> moves q 0 ev l l') /\
    (full = true -> forall q, p_stop <= q <= p -> 0 <= q -> moves q 4 ev l l');
}.

Lemma moves_weaken p d d' ev l l' : d' <= d -> moves p d ev l l' -> moves p d' ev l l'.
Proof.
  intros Hd Hm k x Hk Hx. destruct (Hm k x Hk Hx) as [?|(k' & ? & ? & ?)]; [by left|]. right. exists k'. split_and!; done || lia.
Qed.

Lemma run_levels_swept n : forall l p p_stop r l' rem,
  ok l -> limits4 l -> p = Z.of_nat n - 1 -> (n <= 3)%nat ->
  run_levels env user n l p p_stop r = Some (l', rem) ->
  swept n p p_stop (bool_decide (is_Some rem)) l l' /\ (rem = None -> stop_requested l' = true).
Proof.
  induction n as [|n IH]; intros l p p_stop r l' rem Hok H4 -> Hn; cbn [run_levels].
  { intros [= <- <-]. split; [|done]. constructor; try done. exists []. rewrite app_nil_r. split; [done|]. split; [done|].
    split; [intros q _; by apply moves_same|]. intros _ q Hq Hq0. cbn in Hq. lia. }
  set (p := Z.of_nat (S n) - 1). assert (Hp : 0 <= p < 3) by lia.
  assert (Hlevel : forall l1, (if p_stop <=? p then qb_loop_run_level env user l p else Some l) = Some l1 ->
     exists d ds, ran p d ds l l1 /\ 0 <= d /\ (Forall (fun x => fst x = p) ds) /\ (length ds <= 4)%nat /\
       (p < p_stop -> ds = []) /\ (p_stop <= p -> stop_requested l1 = true \/ d = 4)).
  { intros l1. destruct (Z.leb_spec p_stop p).
    - unfold qb_loop_run_level. rewrite (H4 p Hp). intros E. apply run_level_ran in E as (d & ds & Hr & Hd & Hf & Hl & Hs); try done.
      exists d, ds. split_and!; try done. intros Hlt. lia.
    - intros [= <-]. exists 0, []. split; [by apply evolves_ran, evolves_refl|]. split; [done|]. split; [done|]. split; [cbn; lia|]. split; [done|lia]. }
  destruct (if p_stop <=? p then _ else _) as [l1|]; [|done]. cbn [mbind option_bind].
  destruct (Hlevel l1 eq_refl) as (d & ds & [Hok1 Hl1 Ha1 (ev1 & E1 & Hds1 & Hm1 & Hq1)] & Hd & Hf & Hlen & Hnone & Hst).
  destruct ((p_stop <=? p) && stop_requested l1) eqn:Estop.
  - intros [= <- <-]. apply andb_prop in Estop as [Hle Hs1]. split; [|done]. constructor; try done.
    exists ev1. split; [done|]. split; [|split; [done|]].
    + exists ds, []. rewrite app_nil_r. split; [by rewrite Hds1|]. split_and!; try done. apply round_shape_nil.
    + by rewrite bool_decide_false by by intros [].
  - intros Hrun. destruct (IH l1 (p - 1) p_stop (i32 (r + todo (lv l1 p))) l' rem Hok1) as [Hsw Hrem]; [|lia|lia|exact Hrun|].
    { intros q Hq. by rewrite (Hl1 q Hq), H4. }
    split; [|done]. destruct Hsw as [Hok2 Hl2 Ha2 (ev2 & E2 & Hsh2 & Hq2 & Hfull2)]. constructor; [done| |auto|].
    + intros q Hq. by rewrite Hl2, Hl1.
    + exists (ev1 ++ ev2). rewrite E2, E1, <- app_assoc. split; [done|]. split; [|split].
      * exists ds, (dispatches ev2). rewrite dispatches_app, Hds1. by split_and!.
      * intros q Hq. apply (moves_trans q 0 0 ev1 ev2 l l1); auto.
      * intros Hfl q Hq Hq0. destruct (decide (q = p)) as [->|].
        -- destruct (Hst ltac:(lia)) as [Hs1|Hd4].
           ++ rewrite Hs1, (proj2 (Z.leb_le _ _)) in Estop by lia. done.
           ++ subst d. apply (moves_trans p 4 0 ev1 ev2 l l1); auto.
        -- apply (moves_trans q 0 4 ev1 ev2 l l1); [apply Hq1; lia|]. apply Hfull2; done || lia.
Qed.

(** The part of a round before the items are run. *)
Definition next_p_stop (p_stop : Z) : Z := if p_stop =? QB_LOOP_LOW then QB_LOOP_HIGH else p_stop - 1.

Lemma run_round_swept l p_stop r l' p_stop' rem :
  ok l -> limits4 l -> run_round env user hertz l p_stop r = Some (l', p_stop', rem) ->
  p_stop' = next_p_stop p_stop /\ swept 3 2 p_stop' (bool_decide (is_Some rem)) l l' /\
  (rem = None -> stop_requested l' = true).
Proof.
  intros Hok H4. unfold run_round. fold (next_p_stop p_stop). pose proof (get_more_jobs_evolves l) as H1.
  destruct (get_more_jobs l) as [l1 rc1]. cbn [fst] in H1.
  destruct (expire_the_timers (next_tick l1) (env (tick l1))) as [[l2 rc2]|] eqn:E2; [|done]. cbn [mbind option_bind].
  apply expire_evolves in E2. cbn [fst] in E2. destruct (poll_timeout _ _ _ _ _ _) as [ms|]; [|done]. cbn [mbind option_bind].
  pose proof (fd_poll_law (next_tick l2) ms) as H3. destruct (fd_poll (next_tick l2) ms) as [l3 rc3]. cbn [fst] in H3.
  assert (He : evolves l l3).
  { eapply evolves_trans; [exact H1|]. eapply evolves_trans; [by apply (evolves_same l1 (next_tick l1))|].
    eapply evolves_trans; [exact E2|]. eapply evolves_trans; [by apply (evolves_same l2 (next_tick l2))|exact H3]. }
  destruct (He Hok) as (Hok3 & Hl3 & Ha3 & ev3 & E3 & Hd3 & Hm3).
  destruct (run_levels _ _ _ _ _ _ _) as [[l4 rem4]|] eqn:E4; [|done]. cbn [mbind option_bind].
  apply run_levels_swept in E4 as [Hsw Hrem]; [|done| |done|done].
  2:{ intros q Hq. by rewrite (Hl3 q Hq), H4. }
  assert (Hsw2 : swept 3 2 (next_p_stop p_stop) (bool_decide (is_Some rem4)) l l4).
  { destruct Hsw as [Hok4 Hl4 Ha4 (ev4 & Elog4 & Hsh & Hq4 & Hfull)]. constructor; [done| |auto|].
    - intros q Hq. by rewrite Hl4, Hl3.
    - exists (ev3 ++ ev4). rewrite Elog4, E3, <- app_assoc, dispatches_app, Hd3. split; [done|]. split; [done|]. split.
      + intros q Hq. apply (moves_trans q 0 0 ev3 ev4 l l3); auto.
      + intros Hf q Hq Hq0. apply (moves_trans q 0 4 ev3 ev4 l l3); [apply Hm3; lia|by apply Hfull]. }
  destruct rem4 as [n|]; intros [= <- <- <-]; [|by split_and!; try apply Hrem].
  destruct (stop_requested l4) eqn:Es; [|by split_and!].
  split; [done|]. split; [|done]. destruct Hsw2 as [? ? ? (ev & ? & ? & ? & ?)]. constructor; try done.
  exists ev. by split_and!.
Qed.

(** ** Many rounds *)

(** The rounds until every level is served. *)
Definition rounds_left (p_stop : Z) : Z := if p_stop =? 0 then 3 else p_stop.

Lemma run_rounds_state n : forall l p_stop r l' returned,
  ok l -> limits4 l -> run_rounds env user hertz n l p_stop r = Some (l', returned) ->
  ok l' /\ (forall off, acct off l -> acct off l') /\ (returned = true -> stop_requested l' = true) /\
  exists ev, log l' = log l ++ ev.
Proof.
  induction n as [|n IH]; intros l p_stop r l' returned Hok H4; cbn [run_rounds].
  { intros [= <- <-]. split_and!; try done. exists []. by rewrite app_nil_r. }
  destruct (run_round _ _ _ _ _ _) as [[[l1 ps1] rem]|] eqn:E; [|done]. cbn [mbind option_bind].
  apply run_round_swept in E as (_ & [Hok1 Hl1 Ha1 (ev1 & E1 & _)] & Hrem); [|done|done].
  destruct rem as [r1|]; [|intros [= <- <-]; split_and!; try done; eauto].
  intros Hrun. apply IH in Hrun as (Hok2 & Ha2 & Hret & ev2 & E2); [|done|intros q Hq; by rewrite (Hl1 q Hq), H4].
  split_and!; try done; [auto|]. exists (ev1 ++ ev2). by rewrite E2, E1, app_assoc.
Qed.

Lemma run_rounds_waiting n : forall l p_stop r l' p k x,
  ok l -> limits4 l -> 0 <= p_stop < 3 -> 0 <= p < 3 -> 0 <= k ->
  job_head (lv l p) !! Z.to_nat k = Some x -> rounds_left p_stop + 3 * (k / 4) <= Z.of_nat n ->
  run_rounds env user hertz n l p_stop r = Some (l', false) ->
  exists ev, log l' = log l ++ ev /\ touched p x ev.
Proof.
  induction n as [|n IH]; intros l p_stop r l' p k x Hok H4 Hps Hp Hk Hx Hn; cbn [run_rounds].
  { exfalso. unfold rounds_left in Hn. assert (0 <= k / 4) by (apply Z.div_pos; lia). zcase; lia. }
  destruct (run_round _ _ _ _ _ _) as [[[l1 ps1] rem]|] eqn:E; [|done]. cbn [mbind option_bind].
  apply run_round_swept in E as (-> & [Hok1 Hl1 Ha1 (ev1 & E1 & _ & Hq1 & Hf1)] & Hrem); [|done|done].
  destruct rem as [r1|]; [|done]. rewrite bool_decide_true in Hf1 by eauto. intros Hrun.
  assert (H41 : limits4 l1) by (intros q Hq; by rewrite (Hl1 q Hq), H4).
  assert (Hd : touched p x ev1 \/ exists k', 0 <= k' /\ job_head (lv l1 p) !! Z.to_nat k' = Some x /\
      rounds_left (next_p_stop p_stop) + 3 * (k' / 4) <= Z.of_nat n).
  { unfold next_p_stop, rounds_left, QB_LOOP_LOW, QB_LOOP_HIGH in *.
    destruct (decide (p_stop = 1)) as [->|Hne].
    - destruct (Hf1 eq_refl p ltac:(cbn; lia) ltac:(lia) k x Hk Hx) as [?|(k' & ? & ? & ?)]; [by left|].
      right. exists k'. split_and!; try done. change (1 =? 0) with false in *. cbv iota in *.
      change (1 - 1 =? 0) with true. cbv iota. assert (k' / 4 + 1 <= k / 4) by (clear -H2; zlia). lia.
    - destruct (Hq1 p Hp k x Hk Hx) as [?|(k' & ? & ? & ?)]; [by left|].
      right. exists k'. split; [done|]. split; [done|]. assert (k' / 4 <= k / 4) by (apply Z.div_le_mono; lia).
      revert Hn. destruct (Z.eqb_spec p_stop 0) as [->|]; [cbn; lia|].
      destruct (Z.eqb_spec (p_stop - 1) 0); lia. }
  destruct Hd as [Ht|(k' & Hk' & Hx' & Hn')].
  - apply run_rounds_state in Hrun as (_ & _ & _ & ev2 & E2); [|done|done].
    exists (ev1 ++ ev2). rewrite E2, E1, app_assoc. split; [done|]. apply touched_app. by left.
  - assert (0 <= next_p_stop p_stop < 3) by (unfold next_p_stop, QB_LOOP_LOW, QB_LOOP_HIGH; zcase; lia).
    destruct (IH l1 _ _ _ p k' x Hok1 H41 ltac:(done) Hp Hk' Hx' Hn' Hrun) as (ev2 & E2 & Ht).
    exists (ev1 ++ ev2). rewrite E2, E1, app_assoc. split; [done|]. apply touched_app. by right.
Qed.
End Run.

(** ** Loops without timers never get stuck *)

Definition not_timer (i : qb_loop_item) : Prop := match i with Item_timer _ => False | _ => True end.

Record quiet (l : qb_loop) : Prop := {
  qt_ok : ok l;
  qt_timers : Tlist.size (ts_timerlist (timer_source l)) = 0;
  qt_queues : forall p, 0 <= p < 3 ->
    (forall i, i ∈ job_head (lv l p) -> not_timer i) /\ (forall i, i ∈ wait_head (lv l p) -> not_timer i);
}.

(** Calls that have nothing to do with timers and name a level. *)
Definition plain_call (c : api_call) : Prop :=
  match c with
  | Call_job_add _ _ _ | Call_stop => True
  | Call_job_del p _ _ => 0 <= p
  | Call_timer_add _ _ _ _ | Call_timer_del _ => False
  end.

(** A file descriptor source that does not use the timers and whose dispatch
    always returns. *)
Class FdQuiet `{FdSource} := {
  fd_poll_quiet l ms : quiet l -> quiet (fst (fd_poll l ms));
  fd_dispatch_quiet l pos : quiet l -> exists l', fd_dispatch l pos = Some l' /\ quiet l';
}.

Lemma quiet_same l l' :
  level l' = level l -> timer_source l' = timer_source l -> quiet l -> quiet l'.
Proof. intros E1 E2 [Hok Ht Hq]. constructor; unfold ok, lv; rewrite ?E1, ?E2; done. Qed.

Lemma quiet_set_lv l p v :
  quiet l -> 0 <= p < 3 -> (forall i, i ∈ job_head v -> not_timer i) -> (forall i, i ∈ wait_head v -> not_timer i) ->
  quiet (set_lv l p v).
Proof.
  intros [Hok Ht Hq] Hp Hj Hw. constructor; [unfold ok; cbn; by rewrite zlen_zset|done|].
  intros q Hq'. rewrite lv_set by (done || lia). case_decide; [done|]. by apply Hq.
Qed.

Lemma remove_item_incl i l x : x ∈ remove_item i l -> x ∈ l.
Proof. induction l as [|y l IH]; cbn; [done|]. case_decide; set_solver. Qed.

Lemma quiet_more_jobs l n p : quiet l -> 0 <= p < 3 -> quiet (fst (more_jobs_level l n p)).
Proof.
  intros Hl Hp. destruct (qt_queues l Hl p Hp) as [Hj Hw]. unfold more_jobs_level.
  destruct (wait_head (lv l p)) as [|w ws] eqn:E; [done|]. apply quiet_set_lv; try done; cbn.
  - intros i Hi. apply elem_of_app in Hi as [?|?]; [by apply Hj|by apply Hw].
  - set_solver.
Qed.

Lemma quiet_get_more_jobs l : quiet l -> quiet (fst (get_more_jobs l)).
Proof.
  intros Hl. unfold get_more_jobs. pose proof (quiet_more_jobs l 0 QB_LOOP_LOW Hl ltac:(done)) as H1.
  destruct (more_jobs_level l 0 _) as [l1 n1]. pose proof (quiet_more_jobs l1 n1 QB_LOOP_MED H1 ltac:(done)) as H2.
  destruct (more_jobs_level l1 n1 _) as [l2 n2]. by apply quiet_more_jobs.
Qed.

Lemma quiet_delete_item l p i : quiet l -> 0 <= p < 3 -> quiet (delete_item l p i).
Proof.
  intros Hl Hp. destruct (qt_queues l Hl p Hp) as [Hj Hw]. unfold delete_item, qb_loop_level_item_del.
  case_decide; [|by apply quiet_set_lv].
  match goal with |- quiet (add_event ?m _) => apply (quiet_same m); [done|done|] end.
  apply quiet_set_lv; try done. cbn. intros j Hj'%remove_item_incl. by apply Hj.
Qed.

Section Quiet.
Context `{FdQuiet} (env : nat -> call_env) (user : Z -> Z -> list api_call) (hertz : Z).
Hypothesis user_plain : forall fn data c, c ∈ user fn data -> plain_call c.

Lemma job_add_quiet l p d f ce : quiet l -> quiet (fst (qb_loop_job_add l p d f ce)).
Proof.
  intros Hl. unfold qb_loop_job_add. destruct (_ =? _); [done|]. destruct (priority_ok p) eqn:Hp; [|done].
  destruct (_ =? _); [done|]. apply priority_range in Hp. destruct (qt_queues _ Hl p Hp) as [Hj Hw].
  apply quiet_set_lv; try done. cbn [wait_head set_queues]. intros i [?| ->%list_elem_of_singleton]%elem_of_app; [by apply Hw|done].
Qed.

Lemma job_del_quiet l p d f : quiet l -> 0 <= p -> exists r, qb_loop_job_del l p d f = Some r /\ quiet (fst (fst r)).
Proof.
  intros Hl Hp0. unfold qb_loop_job_del. destruct (_ =? _); [eauto|]. destruct (Z.ltb_spec QB_LOOP_HIGH p); [eauto|].
  destruct (Z.ltb_spec p 0); [lia|]. unfold QB_LOOP_HIGH in *. assert (Hp : 0 <= p < 3) by lia.
  destruct (qt_queues _ Hl p Hp) as [Hj Hw].
  assert (Hjob : exists r, match List.find (job_matches d f) (job_head (lv l p)) with
      | Some i => Some (delete_item l p i, 0, [])
      | None => Some (l, - ENOENT, ([] : list Z)) end = Some r /\ quiet (fst (fst r))).
  { destruct (List.find _ (job_head _)); eexists; (split; [reflexivity|]); [by apply quiet_delete_item|done]. }
  destruct (List.find _ (wait_head (lv l p))) as [[a g e| |]|]; try exact Hjob.
  eexists. split; [reflexivity|]. apply quiet_set_lv; try done. cbn. intros i Hi%remove_item_incl. by apply Hw.
Qed.

Lemma exec_calls_quiet cs : forall l, quiet l -> (forall c, c ∈ cs -> plain_call c) ->
  exists l', exec_calls env l cs = Some l' /\ quiet l'.
Proof.
  induction cs as [|c cs IH]; intros l Hl Hcs; cbn [exec_calls]; [eauto|].
  assert (Hc : plain_call c) by (apply Hcs; set_solver).
  assert (exists l1, exec_call env l c = Some l1 /\ quiet l1) as (l1 & -> & Hl1).
  { assert (Ht : quiet (next_tick l)) by by apply (quiet_same l). unfold exec_call. destruct c as [p d f|p d f| | |]; try done.
    - eexists. split; [reflexivity|]. by apply job_add_quiet.
    - destruct (job_del_quiet (next_tick l) p d f Ht Hc) as (r & -> & Hr). cbn. eauto.
    - eexists. split; [reflexivity|]. by apply (quiet_same l). }
  cbn [mbind option_bind]. apply IH; [done|]. intros c' Hc'. apply Hcs. set_solver.
Qed.

Lemma dispatch_quiet l p i : quiet l -> not_timer i -> exists l', dispatch_and_take_back env user l p i = Some l' /\ quiet l'.
Proof.
  intros Hl Hi. unfold dispatch_and_take_back. destruct (item_call l i) as [fn data].
  assert (Hl1 : forall e, quiet (add_event l e)) by (intros e; by apply (quiet_same l)).
  destruct i as [a f d|pos|pos]; [|done|].
  - by apply exec_calls_quiet; [|apply user_plain].
  - by apply fd_dispatch_quiet.
Qed.

Lemma run_level_quiet n : forall l p, quiet l -> 0 <= p < 3 -> exists l', run_level env user n l p = Some l' /\ quiet l'.
Proof.
  induction n as [|n IH]; intros l p Hl Hp; cbn [run_level]; [eauto|].
  destruct (qt_queues l Hl p Hp) as [Hj Hw]. destruct (job_head (lv l p)) as [|job rest] eqn:E; [eauto|].
  destruct (dispatch_quiet (set_lv l p (set_job_head (lv l p) rest)) p job) as (l2 & -> & Hl2).
  { apply quiet_set_lv; try done. intros i Hi. apply Hj. set_solver. }
  { apply Hj. set_solver. }
  cbn [mbind option_bind]. destruct (qt_queues l2 Hl2 p Hp) as [Hj2 Hw2].
  assert (Hl3 : quiet (set_lv l2 p (set_todo (lv l2 p) (i32 (todo (lv l2 p) - 1))))) by by apply quiet_set_lv.
  destruct (stop_requested _); [eauto|]. by apply IH.
Qed.

Lemma run_levels_quiet n : forall l p p_stop r, quiet l -> p = Z.of_nat n - 1 -> (n <= 3)%nat ->
  exists l' rem, run_levels env user n l p p_stop r = Some (l', rem) /\ quiet l'.
Proof.
  induction n as [|n IH]; intros l p p_stop r Hl -> Hn; cbn [run_levels]; [eauto|]. set (p := Z.of_nat (S n) - 1).
  assert (exists l1, (if p_stop <=? p then qb_loop_run_level env user l p else Some l) = Some l1 /\ quiet l1) as (l1 & -> & Hl1).
  { destruct (p_stop <=? p); [apply run_level_quiet; [done|lia]|eauto]. }
  cbn [mbind option_bind]. destruct (_ && _); [eauto|]. apply IH; [done|lia|lia].
Qed.

Lemma run_round_quiet l p_stop r : quiet l ->
  exists l' ps rem, run_round env user hertz l p_stop r = Some (l', ps, rem) /\ quiet l'.
Proof.
  intros Hl. unfold run_round. pose proof (quiet_get_more_jobs l Hl) as H1. destruct (get_more_jobs l) as [l1 rc1].
  cbn [fst] in H1. unfold expire_the_timers, timerlist_expire. cbn [timer_source next_tick]. rewrite (qt_timers l1 H1).
  cbn [Z.to_nat expire_loop]. rewrite (qt_timers l1 H1). cbn [Z.ltb Z.compare mbind option_bind make_jobs].
  set (l2 := with_timer_source _ _). assert (H2 : quiet l2).
  { apply (quiet_same l1); [done| |done]. cbn. unfold with_timerlist. by destruct (timer_source l1). }
  assert (exists ms, poll_timeout env hertz l2 r (if 0 <? rc1 then rc1 else 0) 0 = Some ms) as [ms ->].
  { unfold poll_timeout. destruct (_ || _); [eauto|]. destruct (0 <? _); [eauto|].
    unfold qb_loop_timer_msec_duration_to_expire, timerlist_msec_duration_to_expire. rewrite (qt_timers l2 H2). cbn. eauto. }
  cbn [mbind option_bind]. assert (H2' : quiet (next_tick l2)) by by apply (quiet_same l2).
  pose proof (fd_poll_quiet (next_tick l2) ms H2') as H3. destruct (fd_poll _ _) as [l3 rc3]. cbn [fst] in H3.
  destruct (run_levels_quiet 3 l3 QB_LOOP_HIGH (if p_stop =? QB_LOOP_LOW then QB_LOOP_HIGH else p_stop - 1) 0 H3)
    as (l4 & rem & -> & H4); [done|lia|].
  cbn [mbind option_bind]. destruct rem; eauto 6.
Qed.

(** The loop runs any number of rounds, or returns. *)
Lemma run_rounds_quiet n : forall l p_stop r, quiet l ->
  exists l' returned, run_rounds env user hertz n l p_stop r = Some (l', returned).
Proof.
  induction n as [|n IH]; intros l p_stop r Hl; cbn [run_rounds]; [eauto|].
  destruct (run_round_quiet l p_stop r Hl) as (l1 & ps & rem & -> & H1). cbn [mbind option_bind].
  destruct rem; [by apply IH|eauto].
Qed.
End Quiet.

(** ** The theorems *)

Section Theorems.
Context `{FdLaws} (env : nat -> call_env) (user : Z -> Z -> list api_call) (hertz : Z).

(** Whatever the callbacks add, delete or stop, after any number of rounds
    the count of each level is the length of its queue, and the loop returns only
    when a stop was requested. *)
Theorem todo_counts_queue n l l' returned :
  ok l -> limits4 l -> acct (fun _ => 0) l -> qb_loop_run env user hertz n l = Some (l', returned) ->
  acct (fun _ => 0) l' /\ (returned = true -> stop_requested l' = true).
Proof.
  intros Hok H4 Ha Hrun. apply run_rounds_state in Hrun as (_ & Ha' & Hr & _); [|done|done].
  split; [|done]. by apply Ha'.
Qed.

(** C16. In one round the levels are served in order of priority, each at most
    four items and those below the round's limit not at all; the limit goes
    from high to low and around. *)
Theorem round_serves_by_priority l p_stop r l' p_stop' rem :
  ok l -> limits4 l -> 0 <= p_stop < 3 -> run_round env user hertz l p_stop r = Some (l', p_stop', rem) ->
  p_stop' = (p_stop + 2) mod 3 /\
  exists ev high med low, log l' = log l ++ ev /\ dispatches ev = high ++ med ++ low /\
    (Forall (fun x => fst x = QB_LOOP_HIGH) high) /\ (Forall (fun x => fst x = QB_LOOP_MED) med) /\
    (Forall (fun x => fst x = QB_LOOP_LOW) low) /\
    (length high <= 4 /\ length med <= 4 /\ length low <= 4)%nat /\
    (p_stop' = QB_LOOP_HIGH -> med = []) /\ (p_stop' <> QB_LOOP_LOW -> low = []).
Proof.
  intros Hok H4 Hps Hrun. apply run_round_swept in Hrun as (-> & [_ _ _ (ev & Elog & Hsh & _)] & _); [|done|done].
  split.
  { unfold next_p_stop, QB_LOOP_LOW, QB_LOOP_HIGH.
    assert (p_stop = 0 \/ p_stop = 1 \/ p_stop = 2) as [->|[->| ->]] by lia; reflexivity. }
  destruct Hsh as (high & d2 & E & Hh & Lh & _ & med & d1 & -> & Hm & Lm & Nm & low & d0 & -> & Hl & Ll & Nl & ->).
  rewrite app_nil_r in E. exists ev, high, med, low. unfold QB_LOOP_HIGH, QB_LOOP_MED, QB_LOOP_LOW in *.
  split_and!; try done; [intros E2; apply Nm; lia|].
  intros Hne. apply Nl. unfold next_p_stop, QB_LOOP_LOW, QB_LOOP_HIGH in *. zcase; lia.
Qed.
End Theorems.

(** C17. No job starves.  In a loop without timers, with a source of descriptors
    that does not use timers and whose dispatch returns, and callbacks that add and
    delete jobs and stop the loop as they like, the loop runs as long as it is let:
    after [3 * (k / 4 + 1)] rounds the item that was at place [k] of the queue of any
    level, also the lowest, has been run or deleted, or [qb_loop_stop] was called and
    the loop has returned before. *)
Theorem no_starvation `{FdLaws} `{!FdQuiet} env user hertz n l p k x :
  (forall fn data c, c ∈ user fn data -> plain_call c) ->
  quiet l -> limits4 l -> 0 <= p < 3 -> 0 <= k -> job_head (lv l p) !! Z.to_nat k = Some x ->
  3 * (k / 4 + 1) <= Z.of_nat n ->
  exists l' returned ev, qb_loop_run env user hertz n l = Some (l', returned) /\ log l' = log l ++ ev /\
    ((returned = true /\ stop_requested l' = true) \/ touched p x ev).
Proof.
  intros Hu Hq H4 Hp Hk Hx Hn. set (l0 := with_stop l false).
  assert (Hq0 : quiet l0) by by apply (quiet_same l). pose proof (qt_ok l0 Hq0) as Hok0.
  destruct (run_rounds_quiet env user hertz Hu n l0 QB_LOOP_LOW 0 Hq0) as (l' & returned & E).
  pose proof (run_rounds_state env user hertz n l0 _ _ l' returned Hok0 H4 E) as (_ & _ & Hret & ev & Elog).
  exists l', returned. destruct returned.
  - exists ev. split; [exact E|]. split; [done|]. left. auto.
  - destruct (run_rounds_waiting env user hertz n l0 QB_LOOP_LOW 0 l' p k x Hok0 H4) as (ev' & Elog' & Ht); try done.
    { unfold rounds_left, QB_LOOP_LOW. cbn. lia. }
    exists ev'. split; [exact E|]. split; [done|]. by right.
Qed.

(** The wait time of the main loop is right up to [2^31 - 1] milliseconds
    and is -1 (no limit) without timers; a timer further away than that, about
    25 days, makes the signed result negative, which waits without limit. *)
Theorem wait_time_overflows ts ce hertz left :
  timerlist_msec_duration_to_expire (ts_timerlist ts) (ce_now ce) (ce_epoch ce) hertz = Some left ->
  0 <= left < 2 ^ 64 ->
  exists ms, qb_loop_timer_msec_duration_to_expire ts ce hertz = Some ms /\
    (left < 2 ^ 31 -> ms = left) /\ (left = 2 ^ 64 - 1 -> ms = -1) /\ (2 ^ 31 <= left -> ms < 0).
Proof.
  intros E Hl. unfold qb_loop_timer_msec_duration_to_expire. rewrite E. cbn [mbind option_bind]. eexists. split; [done|].
  change (u64 (-1)) with (2 ^ 64 - 1). destruct (Z.eqb_spec left (2 ^ 64 - 1)) as [->|]; cbn [negb andb].
  - split_and!; [lia|done|done].
  - destruct (Z.ltb_spec 0xFFFFFFFF left); [split_and!; [lia|lia|done]|].
    split_and!; [intros; apply i32_small; lia|lia|]. intros. unfold i32.
    rewrite <- (Z_mod_plus_full (left + 2 ^ 31) (-1) (2 ^ 32)), Z.mod_small; lia.
Qed.

(** Deleting a job takes the first matching one, from the waiting jobs
    first, and reports [ENOENT] when there is none.  A job found in the queue is
    taken out of it but its memory is not freed. *)
Theorem job_del_correct l p data fn :
  quiet l -> 0 <= p < 3 -> fn <> 0 ->
  match List.find (job_matches data fn) (wait_head (lv l p)), List.find (job_matches data fn) (job_head (lv l p)) with
  | Some i, _ => exists l' a, qb_loop_job_del l p data fn = Some (l', 0, [a]) /\ i = Item_job a fn data /\
      wait_head (lv l' p) = remove_item i (wait_head (lv l p)) /\ job_head (lv l' p) = job_head (lv l p)
  | None, Some i => exists l', qb_loop_job_del l p data fn = Some (l', 0, []) /\
      wait_head (lv l' p) = wait_head (lv l p) /\ job_head (lv l' p) = remove_item i (job_head (lv l p))
  | None, None => qb_loop_job_del l p data fn = Some (l, - ENOENT, [])
  end.
Proof.
  intros Hq Hp Hfn. pose proof (qt_ok l Hq) as Hok. unfold qb_loop_job_del.
  destruct (Z.eqb_spec fn 0); [done|]. unfold QB_LOOP_HIGH. destruct (Z.ltb_spec 2 p); [lia|]. destruct (Z.ltb_spec p 0); [lia|].
  destruct (List.find _ (wait_head (lv l p))) as [i|] eqn:Ew.
  - apply find_some in Ew as [_ Em]. destruct i as [a g d|pos|pos]; [|done|done]. cbn in Em.
    apply andb_prop in Em as [->%Z.eqb_eq ->%Z.eqb_eq]. eexists _, a. split; [reflexivity|]. split; [done|].
    rewrite lv_set, decide_True by (done || lia). done.
  - destruct (List.find _ (job_head (lv l p))) as [i|] eqn:Ej; [|done].
    apply find_some in Ej as [Hin _]. apply list_elem_of_In in Hin. eexists. split; [reflexivity|].
    unfold delete_item, qb_loop_level_item_del. rewrite !decide_True by done.
    change (lv (add_event ?m _) p) with (lv m p). rewrite lv_set, decide_True by (done || lia). done.
Qed.

(** * Main loop: concrete loops

    A loop without file descriptors, and the theorems of the component at it. *)
Module LoopExamples.

(** No file descriptors. *)
#[export] Instance no_fds : FdSource := {| fd_poll l ms := (l, 0); fd_dispatch l pos := Some l |}.
#[export] Instance no_fds_laws : FdLaws.
Proof. constructor; [intros; apply evolves_refl|intros l pos l' [= <-]; apply evolves_refl]. Qed.
#[export] Instance no_fds_quiet : FdQuiet.
Proof. constructor; [done|intros l pos Hl; by exists l]. Qed.

Definition plain_env (k : nat) : call_env :=
  {| ce_addr := 1000 + Z.of_nat k; ce_realloc_errno := 0; ce_array := alloc_fine; ce_random := [77];
     ce_now := 10; ce_epoch := 0 |}.

Definition no_source : qb_timer_source := {| ts_timerlist := timerlist_init; ts_timers := None; timer_entry_count := 0 |}.
Definition empty_loop : qb_loop :=
  {| level := []; stop_requested := false; timer_source := no_source; log := []; tick := 0 |}.
Definition new_loop : qb_loop := default empty_loop (qb_loop_create true (qb_loop_timer_create true true alloc_fine)).

Lemma new_loop_quiet : quiet new_loop.
Proof.
  constructor; [reflexivity|reflexivity|]. intros p Hp.
  assert (p = 0 \/ p = 1 \/ p = 2) as [->|[->| ->]] by lia; split; intros i Hi; by apply elem_of_nil in Hi.
Qed.

(** Callback 5 adds job 6, callback 6 adds job 5, both of high priority; others
    do nothing. *)
Definition busy (fn data : Z) : list api_call :=
  if fn =? 5 then [Call_job_add QB_LOOP_HIGH data 6]
  else if fn =? 6 then [Call_job_add QB_LOOP_HIGH data 5] else [].

Lemma busy_plain fn data c : c ∈ busy fn data -> plain_call c.
Proof. unfold busy. repeat destruct (_ =? _); rewrite ?list_elem_of_singleton, ?elem_of_nil; [by intros ->|by intros ->|done]. Qed.

(** A busy pair of jobs of high priority and a queued job of low priority. *)
Definition busy_loop : qb_loop :=
  let l := fst (qb_loop_job_add new_loop QB_LOOP_HIGH 1 5 (plain_env 500)) in
  let l := fst (qb_loop_job_add l QB_LOOP_LOW 2 9 (plain_env 501)) in
  fst (get_more_jobs l).

Lemma busy_loop_quiet : quiet busy_loop.
Proof. apply quiet_get_more_jobs, job_add_quiet, job_add_quiet, new_loop_quiet. Qed.

Lemma busy_loop_limits : limits4 busy_loop.
Proof. intros p Hp. assert (p = 0 \/ p = 1 \/ p = 2) as [->|[->| ->]] by lia; reflexivity. Qed.

Lemma busy_loop_acct : acct (fun _ => 0) busy_loop.
Proof. intros p Hp. assert (p = 0 \/ p = 1 \/ p = 2) as [->|[->| ->]] by lia; vm_compute; reflexivity. Qed.

Lemma todo_counts_queue_witness :
  exists l', qb_loop_run plain_env busy 100 4 busy_loop = Some (l', false) /\ acct (fun _ => 0) l'.
Proof.
  destruct (qb_loop_run plain_env busy 100 4 busy_loop) as [[l' returned]|] eqn:E; [|vm_compute in E; discriminate].
  destruct (todo_counts_queue plain_env busy 100 4 busy_loop l' returned) as [Ha _];
    [reflexivity|exact busy_loop_limits|exact busy_loop_acct|exact E|].
  exists l'. split; [|exact Ha]. f_equal. f_equal. vm_compute in E. by injection E.
Defined.

Lemma round_serves_by_priority_witness :
  exists l' rem ev high med low, run_round plain_env busy 100 busy_loop QB_LOOP_LOW 0 = Some (l', QB_LOOP_HIGH, rem) /\
    log l' = log busy_loop ++ ev /\ dispatches ev = high ++ med ++ low /\ med = [] /\ low = [].
Proof.
  destruct (run_round plain_env busy 100 busy_loop QB_LOOP_LOW 0) as [[[l' ps] rem]|] eqn:E; [|vm_compute in E; discriminate].
  destruct (round_serves_by_priority plain_env busy 100 busy_loop QB_LOOP_LOW 0 l' ps rem)
    as (Hps & ev & high & med & low & Elog & Ed & _ & _ & _ & _ & Hm & Hl);
    [reflexivity|exact busy_loop_limits|split; [discriminate|reflexivity]|exact E|].
  change ((QB_LOOP_LOW + 2) mod 3) with QB_LOOP_HIGH in Hps. subst ps.
  exists l', rem, ev, high, med, low. split; [reflexivity|]. split; [exact Elog|]. split; [exact Ed|].
  split; [apply Hm; reflexivity|apply Hl; discriminate].
Defined.

(** The job of low priority is run in the third round. *)
Lemma no_starvation_witness :
  exists l' returned ev, qb_loop_run plain_env busy 100 3 busy_loop = Some (l', returned) /\
    log l' = log busy_loop ++ ev /\
    ((returned = true /\ stop_requested l' = true) \/ touched QB_LOOP_LOW (Item_job 1501 9 2) ev).
Proof.
  apply (no_starvation plain_env busy 100 3 busy_loop QB_LOOP_LOW 0 (Item_job 1501 9 2));
    [exact busy_plain|exact busy_loop_quiet|exact busy_loop_limits|split; [discriminate|reflexivity]|lia|reflexivity|].
  vm_compute. discriminate.
Defined.

Example busy_run :
  log <$> (fst <$> qb_loop_run plain_env busy 100 3 busy_loop) =
  Some [Ev_dispatch 2 (Item_job 1500 5 1) 5 1; Ev_dispatch 2 (Item_job 1002 6 1) 6 1;
        Ev_dispatch 2 (Item_job 1005 5 1) 5 1; Ev_dispatch 0 (Item_job 1501 9 2) 9 2].
Proof. vm_compute. reflexivity. Qed.

Lemma job_del_correct_witness :
  exists l', qb_loop_job_del busy_loop QB_LOOP_LOW 2 9 = Some (l', 0, []) /\
    wait_head (lv l' QB_LOOP_LOW) = [] /\ job_head (lv l' QB_LOOP_LOW) = [].
Proof.
  apply (job_del_correct busy_loop QB_LOOP_LOW 2 9);
    [exact busy_loop_quiet|split; [discriminate|reflexivity]|discriminate].
Defined.

(** ** Timers *)

(** A timer 30 days ahead. *)
Definition month_loop : qb_loop :=
  match qb_loop_timer_add new_loop QB_LOOP_HIGH (30 * 24 * 3600 * 1000000000) 3 8 (plain_env 0) with
  | Some (l, _, _) => l
  | None => new_loop
  end.

Lemma wait_time_overflows_witness :
  exists ms, qb_loop_timer_msec_duration_to_expire (timer_source month_loop) (plain_env 1) 100 = Some ms /\ ms < 0.
Proof.
  destruct (wait_time_overflows (timer_source month_loop) (plain_env 1) 100 (30 * 24 * 3600 * 1000 + 10)) as (ms & E & _ & _ & Hneg).
  - vm_compute. reflexivity.
  - lia.
  - exists ms. split; [exact E|]. apply Hneg. lia.
Defined.

(** The timer that expired runs once, its callback gets its data, and its
    handle is refused afterwards. *)
Definition timer_loop : option (qb_loop * Z * Z) := qb_loop_timer_add new_loop QB_LOOP_MED 5 3 8 (plain_env 0).

Definition late_env (k : nat) : call_env :=
  {| ce_addr := 1000 + Z.of_nat k; ce_realloc_errno := 0; ce_array := alloc_fine; ce_random := [78];
     ce_now := 20; ce_epoch := 0 |}.

Example timer_fires_once :
  (r ← timer_loop;
   let '(l, rc, th) := r in
   '(l, _) ← qb_loop_run late_env busy 100 6 l;
   d ← qb_loop_timer_del l th (late_env 0);
   Some (rc, log l, snd d)) =
  Some (0, [Ev_dispatch 1 (Item_timer 0) 8 3], - EINVAL).
Proof. vm_compute. reflexivity. Qed.

(** When the timer's memory cannot be allocated, [qb_loop_timer_add]
    reports the error but leaves the timer's place marked as in use: the next
    timer goes to another place, and the first is never used again. *)
Theorem failed_timer_add_leaks_slot :
  let no_mem := {| ce_addr := 0; ce_realloc_errno := 0; ce_array := alloc_fine; ce_random := [77];
                   ce_now := 10; ce_epoch := 0 |} in
  exists l1 l2 th1 th2,
    qb_loop_timer_add new_loop QB_LOOP_MED 5 3 8 no_mem = Some (l1, - ENOMEM, th1) /\
    t_state (timer_get (timer_source l1) (0, 0)) = QB_POLL_ENTRY_ACTIVE /\
    qb_loop_timer_add l1 QB_LOOP_MED 5 3 8 (plain_env 0) = Some (l2, 0, th2) /\
    Z.land th2 UINT32_MAX = 1 /\ timer_entry_count (timer_source l2) = 2.
Proof. do 4 eexists. split; [vm_compute; reflexivity|]. split; [reflexivity|]. split; [vm_compute; reflexivity|]. done. Qed.

End LoopExamples.
