(* ===== verification/LoopPoll.v ===== *)
(** * File descriptors and signals of the main loop (lib/loop_poll.c, lib/loop_poll_epoll.c)

    The source keeps an array of entries, one per file descriptor, and the kernel
    a list of descriptors with their events and a handle made of the place and the
    check value of the entry.  Calls of the system, of the user's functions and
    the sleeps are effects in the order they happen; the answers of the system
    and of the allocator come from an environment, one record per call.  The
    static variables of the file are part of the state.  Signal handlers and their
    copies in the queues live in a store.  [None] is a failed [assert], a call
    through a NULL pointer, an access out of bounds or of freed memory, or a
    system call that is interrupted for ever. *)
From S2P Require Import Prelude Hdb Tlist Array Loop.

Definition POLLIN : Z := 1.
Definition POLLPRI : Z := 2.
Definition POLLOUT : Z := 4.
Definition POLLERR : Z := 8.
Definition POLLHUP : Z := 16.
Definition POLLNVAL : Z := 32.
Definition EPOLLIN : Z := 1.
Definition EPOLLPRI : Z := 2.
Definition EPOLLOUT : Z := 4.
Definition EPOLLERR : Z := 8.
Definition EPOLLHUP : Z := 16.

Definition POLL_FDS_USED_MISC : Z := 50.
Definition MAX_EVENTS : nat := 12.
(** [NSIG] is 65. *)
Definition QB_MAX_NUM_SIGNALS : Z := 65 - 1.

Definition i16 (z : Z) : Z := (z + 2 ^ 15) mod 2 ^ 16 - 2 ^ 15.

(** ** Data *)

(** The function pointer [add_to_jobs]. *)
Inductive add_to_jobs_fn := Add_null | Add_poll | Add_signal.

Record qb_poll_entry := {
  pe_user_data : Z;
  pe_type : qb_loop_type;
  poll_dispatch_fn : Z;
  pe_p : Z;
  install_pos : Z;
  ufd_fd : Z;
  ufd_events : Z;
  ufd_revents : Z;
  add_to_jobs : add_to_jobs_fn;
  runs : Z;
  pe_state : qb_poll_entry_state;
  check : Z;
}.
Definition zero_entry : qb_poll_entry :=
  {| pe_user_data := 0; pe_type := QB_LOOP_FD; poll_dispatch_fn := 0; pe_p := 0; install_pos := 0; ufd_fd := 0;
     ufd_events := 0; ufd_revents := 0; add_to_jobs := Add_null; runs := 0; pe_state := QB_POLL_ENTRY_EMPTY; check := 0 |}.
#[export] Instance qb_poll_entry_inhabited : Inhabited qb_poll_entry := populate zero_entry.

(** [driver] says whether the functions of the driver are set. *)
Record qb_poll_source := {
  poll_entry_count : Z;
  poll_entries : option (qb_array qb_poll_entry);
  low_fds_event_fn : Z;
  not_enough_fds : bool;
  epollfd : Z;
  driver : bool;
}.

Record qb_loop_sig := {
  sig_user_data : Z;
  signal : Z;
  sig_p : Z;
  sig_dispatch_fn : Z;
  cloned_from : Z;
}.

(** [sigs] is the memory of the handlers and their copies. *)
Record qb_signal_source := {
  sig_head : list Z;
  signal_superset : list Z;
  sigs : gmap Z qb_loop_sig;
  next_sig : Z;
}.

Inductive poll_effect :=
  | F_ctl_add (fd events data res : Z)
  | F_ctl_mod (fd events data res : Z)
  | F_ctl_del (fd res : Z)
  | F_low_fds (fn : Z) (not_enough : bool) (fds_available : Z)
  | F_usleep
  | F_sigaction (sig : Z)
  | F_signal_default (sig : Z)
  | F_pipe_nonblock (fd : Z)
  | F_close (fd : Z)
  | F_fd_callback (fn fd revents data : Z)
  | F_sig_callback (fn sig data : Z).

Record pstate := {
  loop_ : qb_loop;
  fds : qb_poll_source;
  signals : option qb_signal_source;
  pipe_fds : Z * Z;
  socks_limit : Z;
  effects : list poll_effect;
}.

(** [ev_wait] are the answers of [epoll_wait]: an error, or events with their data
    and bits; [ev_reads] the signals read from the pipe, [None] for an error. *)
Record poll_env := {
  ev_array : alloc_env;
  ev_random : list Z;
  ev_ctl : Z;
  ev_rlimit : option Z;
  ev_wait : list (Z + list (Z * Z));
  ev_reads : list (option Z);
  ev_callocs : list bool;
  ev_pipe : Z + Z * Z;
}.

(** ** Assignments *)

Definition with_loop (s : pstate) (l : qb_loop) : pstate :=
  {| loop_ := l; fds := fds s; signals := signals s; pipe_fds := pipe_fds s; socks_limit := socks_limit s; effects := effects s |}.
Definition with_fds (s : pstate) (f : qb_poll_source) : pstate :=
  {| loop_ := loop_ s; fds := f; signals := signals s; pipe_fds := pipe_fds s; socks_limit := socks_limit s; effects := effects s |}.
Definition with_signals (s : pstate) (g : qb_signal_source) : pstate :=
  {| loop_ := loop_ s; fds := fds s; signals := Some g; pipe_fds := pipe_fds s; socks_limit := socks_limit s; effects := effects s |}.
Definition with_pipe (s : pstate) (p : Z * Z) : pstate :=
  {| loop_ := loop_ s; fds := fds s; signals := signals s; pipe_fds := p; socks_limit := socks_limit s; effects := effects s |}.
Definition with_socks_limit (s : pstate) (n : Z) : pstate :=
  {| loop_ := loop_ s; fds := fds s; signals := signals s; pipe_fds := pipe_fds s; socks_limit := n; effects := effects s |}.
Definition emit (s : pstate) (e : poll_effect) : pstate :=
  {| loop_ := loop_ s; fds := fds s; signals := signals s; pipe_fds := pipe_fds s; socks_limit := socks_limit s;
     effects := effects s ++ [e] |}.

Definition with_entries (f : qb_poll_source) (a : option (qb_array qb_poll_entry)) : qb_poll_source :=
  {| poll_entry_count := poll_entry_count f; poll_entries := a; low_fds_event_fn := low_fds_event_fn f;
     not_enough_fds := not_enough_fds f; epollfd := epollfd f; driver := driver f |}.
Definition with_count (f : qb_poll_source) (n : Z) : qb_poll_source :=
  {| poll_entry_count := n; poll_entries := poll_entries f; low_fds_event_fn := low_fds_event_fn f;
     not_enough_fds := not_enough_fds f; epollfd := epollfd f; driver := driver f |}.
Definition with_low_fds (f : qb_poll_source) (fn : Z) (b : bool) : qb_poll_source :=
  {| poll_entry_count := poll_entry_count f; poll_entries := poll_entries f; low_fds_event_fn := fn;
     not_enough_fds := b; epollfd := epollfd f; driver := driver f |}.
Definition with_epollfd (f : qb_poll_source) (fd : Z) (d : bool) : qb_poll_source :=
  {| poll_entry_count := poll_entry_count f; poll_entries := poll_entries f; low_fds_event_fn := low_fds_event_fn f;
     not_enough_fds := not_enough_fds f; epollfd := fd; driver := d |}.

Definition with_pe_state (e : qb_poll_entry) (st : qb_poll_entry_state) : qb_poll_entry :=
  {| pe_user_data := pe_user_data e; pe_type := pe_type e; poll_dispatch_fn := poll_dispatch_fn e; pe_p := pe_p e;
     install_pos := install_pos e; ufd_fd := ufd_fd e; ufd_events := ufd_events e; ufd_revents := ufd_revents e;
     add_to_jobs := add_to_jobs e; runs := runs e; pe_state := st; check := check e |}.
Definition with_revents (e : qb_poll_entry) (r : Z) : qb_poll_entry :=
  {| pe_user_data := pe_user_data e; pe_type := pe_type e; poll_dispatch_fn := poll_dispatch_fn e; pe_p := pe_p e;
     install_pos := install_pos e; ufd_fd := ufd_fd e; ufd_events := ufd_events e; ufd_revents := r;
     add_to_jobs := add_to_jobs e; runs := runs e; pe_state := pe_state e; check := check e |}.
Definition with_events (e : qb_poll_entry) (ev : Z) : qb_poll_entry :=
  {| pe_user_data := pe_user_data e; pe_type := pe_type e; poll_dispatch_fn := poll_dispatch_fn e; pe_p := pe_p e;
     install_pos := install_pos e; ufd_fd := ufd_fd e; ufd_events := ev; ufd_revents := ufd_revents e;
     add_to_jobs := add_to_jobs e; runs := runs e; pe_state := pe_state e; check := check e |}.
(** [pe->poll_dispatch_fn], [pe->item.user_data] and [pe->p]. *)
Definition with_target (e : qb_poll_entry) (fn data p : Z) : qb_poll_entry :=
  {| pe_user_data := data; pe_type := pe_type e; poll_dispatch_fn := fn; pe_p := p;
     install_pos := install_pos e; ufd_fd := ufd_fd e; ufd_events := ufd_events e; ufd_revents := ufd_revents e;
     add_to_jobs := add_to_jobs e; runs := runs e; pe_state := pe_state e; check := check e |}.
(** [pe->poll_dispatch_fn], [pe->item.type] and [pe->add_to_jobs]. *)
Definition with_kind (e : qb_poll_entry) (fn : Z) (ty : qb_loop_type) (add : add_to_jobs_fn) : qb_poll_entry :=
  {| pe_user_data := pe_user_data e; pe_type := ty; poll_dispatch_fn := fn; pe_p := pe_p e;
     install_pos := install_pos e; ufd_fd := ufd_fd e; ufd_events := ufd_events e; ufd_revents := ufd_revents e;
     add_to_jobs := add; runs := runs e; pe_state := pe_state e; check := check e |}.

Definition with_sigs (g : qb_signal_source) (m : gmap Z qb_loop_sig) : qb_signal_source :=
  {| sig_head := sig_head g; signal_superset := signal_superset g; sigs := m; next_sig := next_sig g |}.
Definition with_sig_head (g : qb_signal_source) (l : list Z) : qb_signal_source :=
  {| sig_head := l; signal_superset := signal_superset g; sigs := sigs g; next_sig := next_sig g |}.
Definition with_superset (g : qb_signal_source) (l : list Z) : qb_signal_source :=
  {| sig_head := sig_head g; signal_superset := l; sigs := sigs g; next_sig := next_sig g |}.

(** A new handler or copy at an address that was never used before. *)
Definition new_sig (g : qb_signal_source) (sig : qb_loop_sig) : qb_signal_source * Z :=
  ({| sig_head := sig_head g; signal_superset := signal_superset g; sigs := <[next_sig g := sig]> (sigs g);
      next_sig := next_sig g + 1 |}, next_sig g).

(** ** The entries *)

Definition entry_addr (pos : Z) : Z * Z := (pos / MAX_ELEMENTS_PER_BIN, pos mod MAX_ELEMENTS_PER_BIN).

Definition entry_get (f : qb_poll_source) (a : Z * Z) : qb_poll_entry :=
  match poll_entries f with Some arr => elem_read arr a | None => inhabitant end.
Definition entry_set (f : qb_poll_source) (a : Z * Z) (e : qb_poll_entry) : qb_poll_source :=
  match poll_entries f with Some arr => with_entries f (Some (elem_write arr a e)) | None => f end.

(** [qb_array_index(s->poll_entries, pos, &pe)]: an error, or the entry's address. *)
Definition entry_index (f : qb_poll_source) (pos : Z) (env : alloc_env) : option (qb_poll_source * (Z + Z * Z)) :=
  '(a, rc, p) ← qb_array_index (poll_entries f) pos true env;
  Some (with_entries f a, match p with Some addr => if rc =? 0 then inr addr else inl rc | None => inl rc end).

(** The same inside an [assert] that it succeeds. *)
Definition assert_index (f : qb_poll_source) (pos : Z) (env : alloc_env) : option (qb_poll_source * (Z * Z)) :=
  '(f, r) ← entry_index f pos env;
  match r with inr a => Some (f, a) | inl _ => None end.

Fixpoint check_loop (n : nat) (random : list Z) (last : Z) : Z :=
  match n, random with
  | S n', r :: random =>
    let c := u32 r in
    if negb (c =? 0) && negb (c =? UINT32_MAX) then c else check_loop n' random c
  | _, _ => last
  end.

Definition _poll_entry_check_generate_ (random : list Z) (last : Z) : Z := check_loop 200 random last.

Definition _poll_entry_mark_deleted_ (e : qb_poll_entry) : qb_poll_entry :=
  {| pe_user_data := pe_user_data e; pe_type := pe_type e; poll_dispatch_fn := poll_dispatch_fn e; pe_p := pe_p e;
     install_pos := install_pos e; ufd_fd := -1; ufd_events := ufd_events e; ufd_revents := ufd_revents e;
     add_to_jobs := add_to_jobs e; runs := runs e; pe_state := QB_POLL_ENTRY_DELETED; check := 0 |}.

Definition _poll_entry_empty_ (e : qb_poll_entry) : qb_poll_entry :=
  {| pe_user_data := 0; pe_type := QB_LOOP_FD; poll_dispatch_fn := 0; pe_p := 0; install_pos := 0; ufd_fd := -1;
     ufd_events := 0; ufd_revents := 0; add_to_jobs := Add_null; runs := 0; pe_state := QB_POLL_ENTRY_EMPTY; check := 0 |}.

(** ** The driver (lib/loop_poll_epoll.c) *)

Definition bit_map (event from to_ : Z) : Z := if has_flag event from then to_ else 0.

Definition _poll_to_epoll_event_ (event : Z) : Z :=
  Z.lor (bit_map event POLLIN EPOLLIN) (Z.lor (bit_map event POLLOUT EPOLLOUT) (Z.lor (bit_map event POLLPRI EPOLLPRI)
    (Z.lor (bit_map event POLLERR EPOLLERR) (Z.lor (bit_map event POLLHUP EPOLLHUP) (bit_map event POLLNVAL EPOLLERR))))).

Definition _epoll_to_poll_event_ (event : Z) : Z :=
  Z.lor (bit_map event EPOLLIN POLLIN) (Z.lor (bit_map event EPOLLOUT POLLOUT) (Z.lor (bit_map event EPOLLPRI POLLPRI)
    (Z.lor (bit_map event EPOLLERR POLLERR) (bit_map event EPOLLHUP POLLHUP)))).

(** [ev.data.u64]. *)
Definition event_data (e : qb_poll_entry) : Z := Z.lor (Z.shiftl (check e) 32) (install_pos e).

(** A driver function that was never set is a call through a wild pointer. *)
Definition _add (s : pstate) (e : qb_poll_entry) (fd events : Z) (env : poll_env) : option (pstate * Z) :=
  if driver (fds s) then
    let res := if ev_ctl env =? 0 then 0 else - ev_ctl env in
    Some (emit s (F_ctl_add fd (_poll_to_epoll_event_ events) (event_data e) res), res)
  else None.

Definition _mod (s : pstate) (e : qb_poll_entry) (fd events : Z) (env : poll_env) : option (pstate * Z) :=
  if driver (fds s) then
    let res := if ev_ctl env =? 0 then 0 else - ev_ctl env in
    Some (emit s (F_ctl_mod fd (_poll_to_epoll_event_ events) (event_data e) res), res)
  else None.

Definition _del (s : pstate) (fd : Z) (env : poll_env) : option (pstate * Z) :=
  if driver (fds s) then
    let res := if ev_ctl env =? 0 then 0 else - ev_ctl env in
    Some (emit s (F_ctl_del fd res), res)
  else None.

Definition _fini (s : pstate) : pstate :=
  if negb (epollfd (fds s) =? -1) then with_fds (emit s (F_close (epollfd (fds s)))) (with_epollfd (fds s) (-1) (driver (fds s)))
  else s.

(** [fd] is the result of [epoll_create1], negative with [errno] on failure. *)
Definition qb_epoll_init (f : qb_poll_source) (fd errno : Z) : qb_poll_source * Z :=
  if fd <? 0 then (with_epollfd f fd false, - errno) else (with_epollfd f fd true, 0).

Definition _poll_entry_from_handle_ (f : qb_poll_source) (handle_in : Z) (env : alloc_env) : option (qb_poll_source * (Z + Z * Z)) :=
  let check_ := u32 (Z.shiftr handle_in 32) in
  let handle := Z.land handle_in UINT32_MAX in
  '(f, r) ← entry_index f (i32 handle) env;
  match r with
  | inl res => Some (f, inl res)
  | inr a => if negb (check (entry_get f a) =? check_) then Some (f, inl (- EINVAL)) else Some (f, inr a)
  end.

(** ** How many descriptors are left *)

(** The entries from [pos] on: those deleted become empty, and those used are
    counted. *)
Fixpoint usage_loop (n : nat) (f : qb_poll_source) (pos socks_used : Z) (env : alloc_env) : option (qb_poll_source * Z) :=
  match n with
  | O => Some (f, socks_used)
  | S n' =>
    '(f, a) ← assert_index f pos env;
    let e := entry_get f a in
    let used := match pe_state e with
                | QB_POLL_ENTRY_ACTIVE | QB_POLL_ENTRY_JOBLIST => negb (ufd_fd e =? -1)
                | _ => false
                end in
    let f := if decide (pe_state e = QB_POLL_ENTRY_DELETED) then entry_set f a (_poll_entry_empty_ e) else f in
    usage_loop n' f (pos + 1) (if used then socks_used + 1 else socks_used) env
  end.

(** [None] when [getrlimit] fails. *)
Definition socks_limit_get (s : pstate) (env : poll_env) : option Z :=
  if socks_limit s =? 0 then
    lim ← ev_rlimit env;
    let n := i32 (i32 lim - POLL_FDS_USED_MISC) in
    Some (if n <? 0 then 0 else n)
  else Some (socks_limit s).

Definition qb_poll_fds_usage_check_ (s : pstate) (env : poll_env) : option pstate :=
  match socks_limit_get s env with
  | None => Some s
  | Some limit =>
    let s := with_socks_limit s limit in
    '(f, socks_used) ← usage_loop (Z.to_nat (poll_entry_count (fds s))) (fds s) 0 0 (ev_array env);
    let s := with_fds s f in
    let socks_avail := if limit - socks_used <? 0 then 0 else limit - socks_used in
    let send :=
      if not_enough_fds f then (if 2 <? socks_avail then Some false else None)
      else (if socks_avail <=? 1 then Some true else None) in
    match send with
    | None => Some s
    | Some b =>
      let s := with_fds s (with_low_fds f (low_fds_event_fn f) b) in
      Some (if low_fds_event_fn f =? 0 then s else emit s (F_low_fds (low_fds_event_fn f) b socks_avail))
    end
  end.

(** ** Queues *)

(** The level whose queue an item is in. *)
Definition find_level (l : qb_loop) (i : qb_loop_item) : option Z :=
  List.find (fun q => bool_decide (i ∈ job_head (lv l q))) [QB_LOOP_LOW; QB_LOOP_MED; QB_LOOP_HIGH].

(** [qb_loop_level_item_del(&l->level[p], item)]: an item is taken out of the
    queue it is in, and the count of the level [p] goes down. *)
Definition item_del (l : qb_loop) (p : Z) (i : qb_loop_item) : option qb_loop :=
  if negb (priority_ok p) then None
  else
    match find_level l i with
    | None => Some l
    | Some q =>
      let l := set_lv l q (set_job_head (lv l q) (remove_item i (job_head (lv l q)))) in
      let l := set_lv l p (set_todo (lv l p) (i32 (todo (lv l p) - 1))) in
      Some (add_event l (Ev_removed q i))
    end.

Definition level_add (l : qb_loop) (p : Z) (i : qb_loop_item) : option qb_loop :=
  if priority_ok p then Some (set_lv l p (qb_loop_level_item_add (lv l p) i)) else None.

(** ** Adding, changing, deleting *)

Fixpoint first_empty_entry (n : nat) (f : qb_poll_source) (pos : Z) (env : alloc_env) : option (qb_poll_source * option Z) :=
  match n with
  | O => Some (f, None)
  | S n' =>
    '(f, a) ← assert_index f pos env;
    if decide (pe_state (entry_get f a) = QB_POLL_ENTRY_EMPTY) then Some (f, Some pos)
    else first_empty_entry n' f (pos + 1) env
  end.

(** A place, or a negative error. *)
Definition empty_position (f : qb_poll_source) (env : alloc_env) : option (qb_poll_source * Z) :=
  '(f, found) ← first_empty_entry (Z.to_nat (poll_entry_count f)) f 0 env;
  match found with
  | Some pos => Some (f, pos)
  | None =>
    let '(a, res) := qb_array_grow (poll_entries f) (poll_entry_count f + 1) env in
    let f := with_entries f a in
    if negb (res =? 0) then Some (f, res)
    else Some (with_count f (poll_entry_count f + 1), poll_entry_count f)
  end.

(** The result and the place of the entry.  An error from [empty_position] is
    used as a place. *)
Definition _poll_add_ (s : pstate) (p fd events data : Z) (env : poll_env) : option (pstate * Z * Z) :=
  '(f, pos) ← empty_position (fds s) (ev_array env);
  let pos := u32 pos in
  '(f, a) ← assert_index f (i32 pos) (ev_array env);
  let old := entry_get f a in
  let e := {| pe_user_data := data; pe_type := pe_type old; poll_dispatch_fn := poll_dispatch_fn old; pe_p := p;
              install_pos := pos; ufd_fd := fd; ufd_events := i16 events; ufd_revents := 0; add_to_jobs := add_to_jobs old;
              runs := 0; pe_state := QB_POLL_ENTRY_ACTIVE;
              check := _poll_entry_check_generate_ (ev_random env) (check old) |} in
  '(s, res) ← _add (with_fds s (entry_set f a e)) e fd events env;
  if res =? 0 then Some (s, 0, pos)
  else Some (with_fds s (entry_set (fds s) a (with_pe_state e QB_POLL_ENTRY_EMPTY)), res, 0).

Definition qb_loop_poll_add (s : pstate) (p fd events data dispatch_fn : Z) (env : poll_env) : option (pstate * Z) :=
  '(s, res, pos) ← _poll_add_ s p fd events data env;
  if negb (res =? 0) then Some (s, res)
  else
    let a := entry_addr pos in
    let e := with_kind (entry_get (fds s) a) dispatch_fn QB_LOOP_FD Add_poll in
    Some (with_fds s (entry_set (fds s) a e), res).

Definition _qb_poll_add_to_jobs_ (s : pstate) (a : Z * Z) : option (pstate * Z) :=
  let e := entry_get (fds s) a in
  if negb (bool_decide (pe_type e = QB_LOOP_FD)) then None
  else
    l ← level_add (loop_ s) (pe_p e) (Item_fd (Fd_entry (install_pos e)));
    Some (with_fds (with_loop s l) (entry_set (fds s) a (with_pe_state e QB_POLL_ENTRY_JOBLIST)), 1).

(** The first entry that satisfies a test. *)
Fixpoint find_entry (test : qb_poll_entry -> bool) (n : nat) (f : qb_poll_source) (pos : Z) (env : alloc_env)
    : option (qb_poll_source * option (Z * (Z * Z))) :=
  match n with
  | O => Some (f, None)
  | S n' =>
    '(f, a) ← assert_index f pos env;
    if test (entry_get f a) then Some (f, Some (pos, a)) else find_entry test n' f (pos + 1) env
  end.

Definition qb_loop_poll_mod (s : pstate) (p fd events data dispatch_fn : Z) (env : poll_env) : option (pstate * Z) :=
  '(f, found) ← find_entry (fun e => ufd_fd e =? fd) (Z.to_nat (poll_entry_count (fds s))) (fds s) 0 (ev_array env);
  let s := with_fds s f in
  match found with
  | None => Some (s, - EBADF)
  | Some (pos, a) =>
    let e := entry_get f a in
    if bool_decide (pe_state e = QB_POLL_ENTRY_DELETED) || (check e =? 0) then Some (s, - EBADF)
    else
      let e := with_target e dispatch_fn data p in
      let s := with_fds s (entry_set f a e) in
      if negb (ufd_events e =? events) then
        '(s, res) ← _mod s e fd events env;
        Some (with_fds s (entry_set (fds s) a (with_events e (i16 events))), res)
      else Some (s, 0)
  end.

Definition qb_loop_poll_del (s : pstate) (fd : Z) (env : poll_env) : option (pstate * Z) :=
  '(f, found) ← find_entry (fun e => (ufd_fd e =? fd) && bool_decide (pe_type e = QB_LOOP_FD))
                  (Z.to_nat (poll_entry_count (fds s))) (fds s) 0 (ev_array env);
  let s := with_fds s f in
  match found with
  | None => Some (s, - EBADF)
  | Some (pos, a) =>
    let e := entry_get f a in
    match pe_state e with
    | QB_POLL_ENTRY_DELETED | QB_POLL_ENTRY_EMPTY => Some (s, 0)
    | st =>
      l ← (if decide (st = QB_POLL_ENTRY_JOBLIST) then item_del (loop_ s) (pe_p e) (Item_fd (Fd_entry (install_pos e)))
           else Some (loop_ s));
      '(s, res) ← _del (with_loop s l) fd env;
      Some (with_fds s (entry_set (fds s) a (_poll_entry_mark_deleted_ e)), res)
    end
  end.

Definition qb_loop_poll_low_fds_event_set (s : pstate) (fn : Z) : pstate * Z :=
  (with_fds s (with_low_fds (fds s) fn (not_enough_fds (fds s))), 0).

(** ** Signals *)

(** Queue a copy of every handler of the signal, until an allocation fails. *)
Fixpoint clone_loop (s : pstate) (g : qb_signal_source) (hs : list Z) (the_signal jobs_added : Z) (callocs : list bool)
    : option (pstate * Z) :=
  match hs with
  | [] => Some (s, jobs_added)
  | h :: hs =>
    sig ← sigs g !! h;
    if signal sig =? the_signal then
      if default true (hd_error callocs) then
        let '(g, c) := new_sig g {| sig_user_data := sig_user_data sig; signal := signal sig; sig_p := sig_p sig;
                                    sig_dispatch_fn := sig_dispatch_fn sig; cloned_from := h |} in
        l ← level_add (loop_ s) (sig_p sig) (Item_fd (Fd_signal c));
        clone_loop (with_signals (with_loop s l) g) g hs the_signal (jobs_added + 1) (tl callocs)
      else Some (s, jobs_added)
    else clone_loop s g hs the_signal jobs_added callocs
  end.

(** [read] is the signal that was read, if four bytes were. *)
Definition _qb_signal_add_to_jobs_ (s : pstate) (a : Z * Z) (read : option Z) (callocs : list bool) : option (pstate * Z) :=
  match read with
  | None => Some (s, 0)
  | Some the_signal =>
    let e := entry_get (fds s) a in
    let s := with_fds s (entry_set (fds s) a (with_revents e 0)) in
    g ← signals s;
    clone_loop s g (sig_head g) the_signal 0 callocs
  end.

(** The signals that have a handler get the function that writes to the pipe;
    [sigaddset] refuses 0. *)
Definition needed (g : qb_signal_source) (i : Z) : bool :=
  existsb (fun h => match sigs g !! h with Some sig => signal sig =? i | None => false end) (sig_head g).

Definition _adjust_sigactions_ (s : pstate) (g : qb_signal_source) : pstate :=
  let l := List.filter (needed g) (seqZ 0 QB_MAX_NUM_SIGNALS) in
  let g := with_superset g (List.filter (fun i => negb (i =? 0)) l) in
  foldl (fun s i => emit s (F_sigaction i)) (with_signals s g) l.

(** The result and the handle. *)
Definition qb_loop_signal_add (s : pstate) (p the_sig data dispatch_fn : Z) (calloc_errno : Z) : option (pstate * Z * Z) :=
  if dispatch_fn =? 0 then Some (s, - EINVAL, 0)
  else if (p <? QB_LOOP_LOW) || (QB_LOOP_HIGH <? p) then Some (s, - EINVAL, 0)
  else
    g ← signals s;
    if negb (calloc_errno =? 0) then Some (s, - calloc_errno, 0)
    else
      let '(g, h) := new_sig g {| sig_user_data := data; signal := the_sig; sig_p := p; sig_dispatch_fn := dispatch_fn; cloned_from := 0 |} in
      let g := with_sig_head g (sig_head g ++ [h]) in
      let s := with_signals s g in
      Some (if bool_decide (the_sig ∈ signal_superset g) then s else _adjust_sigactions_ s g, 0, h).

Definition qb_loop_signal_mod (s : pstate) (p the_sig data dispatch_fn handle : Z) : option (pstate * Z) :=
  if (dispatch_fn =? 0) || (handle =? 0) then Some (s, - EINVAL)
  else if (p <? QB_LOOP_LOW) || (QB_LOOP_HIGH <? p) then Some (s, - EINVAL)
  else
    g ← signals s;
    sig ← sigs g !! handle;
    let sig' := {| sig_user_data := data; signal := the_sig; sig_p := p; sig_dispatch_fn := dispatch_fn; cloned_from := cloned_from sig |} in
    let g := with_sigs g (<[handle := sig']> (sigs g)) in
    if negb (signal sig =? the_sig) then
      Some (_adjust_sigactions_ (emit s (F_signal_default (signal sig))) g, 0)
    else Some (with_signals s g, 0).

(** An item that is a copy of the handler. *)
Definition is_clone_of (g : qb_signal_source) (h : Z) (i : qb_loop_item) : bool :=
  match i with
  | Item_fd (Fd_signal c) => match sigs g !! c with Some sig => cloned_from sig =? h | None => false end
  | _ => false
  end.

Definition qb_loop_signal_del (s : pstate) (handle : Z) : option (pstate * Z) :=
  if handle =? 0 then Some (s, - EINVAL)
  else
    g ← signals s;
    sig ← sigs g !! handle;
    let p := sig_p sig in
    let v := lv (loop_ s) p in
    let '(s, g) :=
      match List.find (is_clone_of g handle) (wait_head v) with
      | Some (Item_fd (Fd_signal c) as i) =>
        (with_loop s (set_lv (loop_ s) p (set_queues v (todo v) (remove_item i (wait_head v)) (job_head v))),
         with_sigs g (delete c (sigs g)))
      | _ => (s, g)
      end in
    l ← match List.find (is_clone_of g handle) (job_head (lv (loop_ s) p)) with
        | Some i => item_del (loop_ s) p i
        | None => Some (loop_ s)
        end;
    let s := emit (with_loop s l) (F_signal_default (signal sig)) in
    let g := with_sigs (with_sig_head g (List.filter (fun h => negb (h =? handle)) (sig_head g))) (delete handle (sigs g)) in
    Some (_adjust_sigactions_ s g, 0).

(** ** Polling *)

(** The answer of [epoll_wait] that was not interrupted. *)
Fixpoint wait_loop (answers : list (Z + list (Z * Z))) : option (Z + list (Z * Z)) :=
  match answers with
  | [] => None
  | inl e :: answers => if e =? EINTR then wait_loop answers else Some (inl e)
  | inr evs :: _ => Some (inr (take MAX_EVENTS evs))
  end.

(** One event; the last result is what is left of the reads from the pipe. *)
Definition one_event (s : pstate) (data bits : Z) (reads : list (option Z)) (env : poll_env) : option (pstate * Z * list (option Z)) :=
  '(f, r) ← _poll_entry_from_handle_ (fds s) data (ev_array env);
  let s := with_fds s f in
  match r with
  | inl _ => Some (emit s F_usleep, 0, reads)
  | inr a =>
    let e := entry_get f a in
    if (ufd_fd e =? -1) || bool_decide (pe_state e = QB_POLL_ENTRY_DELETED) then Some (s, 0, reads)
    else
      let e := with_revents e (i16 (Z.lor (ufd_revents e) (_epoll_to_poll_event_ bits))) in
      let s := with_fds s (entry_set f a e) in
      if bool_decide (pe_state e = QB_POLL_ENTRY_JOBLIST) then Some (s, 0, reads)
      else
        match add_to_jobs e with
        | Add_null => None
        | Add_poll => '(s, n) ← _qb_poll_add_to_jobs_ s a; Some (s, n, reads)
        | Add_signal =>
          '(s, n) ← _qb_signal_add_to_jobs_ s a (default None (hd_error reads)) (ev_callocs env);
          Some (s, n, tl reads)
        end
  end.

Fixpoint event_loop (s : pstate) (evs : list (Z * Z)) (new_jobs : Z) (reads : list (option Z)) (env : poll_env) : option (pstate * Z) :=
  match evs with
  | [] => Some (s, new_jobs)
  | (data, bits) :: evs =>
    '(s, n, reads) ← one_event s data bits reads env;
    event_loop s evs (i32 (new_jobs + n)) reads env
  end.

Definition _poll_and_add_to_jobs_ (s : pstate) (env : poll_env) : option (pstate * Z) :=
  if negb (driver (fds s)) then None
  else
    s ← qb_poll_fds_usage_check_ s env;
    ans ← wait_loop (ev_wait env);
    match ans with
    | inl e => Some (s, - e)
    | inr evs => event_loop s evs 0 (ev_reads env) env
    end.

(** ** Dispatching *)

(** The calls of this interface and of the loop that a user's function may make. *)
Inductive poll_call :=
  | P_loop (c : api_call)
  | P_add (p fd events data fn : Z)
  | P_mod (p fd events data fn : Z)
  | P_del (fd : Z)
  | P_low_fds (fn : Z)
  | P_signal_add (p the_sig data fn calloc_errno : Z)
  | P_signal_mod (p the_sig data fn handle : Z)
  | P_signal_del (handle : Z).

Inductive poll_callback :=
  | Cb_fd (fn fd revents data : Z)
  | Cb_signal (fn sig data : Z).

Section Dispatch.
Context (env : nat -> call_env) (penv : nat -> poll_env).
(** What a user's function does, and its result. *)
Context (user : poll_callback -> list poll_call * Z).

Definition exec_poll_call (s : pstate) (c : poll_call) : option pstate :=
  let pe := penv (tick (loop_ s)) in
  match c with
  | P_loop c => l ← exec_call env (loop_ s) c; Some (with_loop s l)
  | _ =>
    let s := with_loop s (next_tick (loop_ s)) in
    match c with
    | P_loop _ => Some s
    | P_add p fd ev data fn => r ← qb_loop_poll_add s p fd ev data fn pe; Some (fst r)
    | P_mod p fd ev data fn => r ← qb_loop_poll_mod s p fd ev data fn pe; Some (fst r)
    | P_del fd => r ← qb_loop_poll_del s fd pe; Some (fst r)
    | P_low_fds fn => Some (fst (qb_loop_poll_low_fds_event_set s fn))
    | P_signal_add p sg data fn e => r ← qb_loop_signal_add s p sg data fn e; Some (fst (fst r))
    | P_signal_mod p sg data fn h => r ← qb_loop_signal_mod s p sg data fn h; Some (fst r)
    | P_signal_del h => r ← qb_loop_signal_del s h; Some (fst r)
    end
  end.

Fixpoint exec_poll_calls (s : pstate) (cs : list poll_call) : option pstate :=
  match cs with
  | [] => Some s
  | c :: cs => s ← exec_poll_call s c; exec_poll_calls s cs
  end.

Definition _poll_dispatch_and_take_back_ (s : pstate) (pos : Z) : option pstate :=
  let a := entry_addr pos in
  let e := entry_get (fds s) a in
  if negb (bool_decide (pe_state e = QB_POLL_ENTRY_JOBLIST)) then None
  else if negb (bool_decide (pe_type e = QB_LOOP_FD)) then None
  else
    let '(calls, res) := user (Cb_fd (poll_dispatch_fn e) (ufd_fd e) (ufd_revents e) (pe_user_data e)) in
    let s := emit s (F_fd_callback (poll_dispatch_fn e) (ufd_fd e) (ufd_revents e) (pe_user_data e)) in
    s ← exec_poll_calls s calls;
    let e := entry_get (fds s) a in
    if res <? 0 then Some (with_fds s (entry_set (fds s) a (_poll_entry_mark_deleted_ e)))
    else if negb (bool_decide (pe_state e = QB_POLL_ENTRY_DELETED)) then
      Some (with_fds s (entry_set (fds s) a (with_revents (with_pe_state e QB_POLL_ENTRY_ACTIVE) 0)))
    else Some s.

Definition _signal_dispatch_and_take_back_ (s : pstate) (c : Z) : option pstate :=
  g ← signals s;
  sig ← sigs g !! c;
  let '(calls, res) := user (Cb_signal (sig_dispatch_fn sig) (signal sig) (sig_user_data sig)) in
  let s := emit s (F_sig_callback (sig_dispatch_fn sig) (signal sig) (sig_user_data sig)) in
  s ← exec_poll_calls s calls;
  g ← signals s;
  sig ← sigs g !! c;
  s ← (if negb (res =? 0) then
         _ ← sigs g !! cloned_from sig;
         r ← qb_loop_signal_del s (cloned_from sig); Some (fst r)
       else Some s);
  g ← signals s;
  _ ← sigs g !! c;
  Some (with_signals s (with_sigs g (delete c (sigs g)))).

Definition dispatch_fd_item (s : pstate) (i : fd_item) : option pstate :=
  match i with
  | Fd_entry pos => _poll_dispatch_and_take_back_ s pos
  | Fd_signal c => _signal_dispatch_and_take_back_ s c
  end.
End Dispatch.

(** ** Creating and destroying *)

(** [sizeof(struct qb_poll_entry)] on a 64-bit machine. *)
Definition sizeof_poll_entry : Z := 96.

Definition qb_loop_poll_create (alloc_ok array_calloc_ok : bool) (env : alloc_env) (fd errno : Z) : option qb_poll_source :=
  if alloc_ok then
    let f := {| poll_entry_count := 0;
                poll_entries := match qb_array_create_2 16 sizeof_poll_entry 16 array_calloc_ok env with
                                | inr a => Some a
                                | inl _ => None
                                end;
                low_fds_event_fn := 0; not_enough_fds := false; epollfd := 0; driver := false |} in
    Some (fst (qb_epoll_init f fd errno))
  else None.

(** The bins of entries freed, and the descriptor closed. *)
Definition qb_loop_poll_destroy (s : pstate) : option (pstate * list (option (list qb_poll_entry))) :=
  arr ← poll_entries (fds s);
  freed ← qb_array_free arr;
  if driver (fds s) then Some (_fini s, freed) else None.

(** The source is there, or the pipe could not be made; the second result is
    [errno]. *)
Definition qb_loop_signals_create (s : pstate) (calloc_ok : bool) (env : poll_env) : option (pstate * Z) :=
  if negb calloc_ok then Some (s, 0)
  else
    let g := {| sig_head := []; signal_superset := []; sigs := ∅; next_sig := 1 |} in
    if fst (pipe_fds s) <? 0 then
      match ev_pipe env with
      | inl e =>
        let s := if 0 <=? snd (pipe_fds s) then emit s (F_close (snd (pipe_fds s))) else s in
        Some (s, e)
      | inr (r, w) =>
        let s := emit (emit (with_pipe s (r, w)) (F_pipe_nonblock r)) (F_pipe_nonblock w) in
        '(s, res, pos) ← _poll_add_ s QB_LOOP_HIGH r POLLIN 0 env;
        if res =? 0 then
          let a := entry_addr pos in
          let e := with_kind (entry_get (fds s) a) 0 QB_LOOP_SIG Add_signal in
          Some (with_signals (with_fds s (entry_set (fds s) a e)) g, 0)
        else Some (emit (emit s (F_close r)) (F_close w), - res)
      end
    else Some (with_signals s g, 0).

(** The handlers freed; the copies in the queues are not. *)
Definition qb_loop_signals_destroy (s : pstate) : option (pstate * list Z) :=
  g ← signals s;
  let s := emit (emit s (F_close (fst (pipe_fds s)))) (F_close (snd (pipe_fds s))) in
  Some (with_signals (with_pipe s (-1, -1)) (with_sigs (with_sig_head g []) (foldr delete (sigs g) (sig_head g))), sig_head g).

(** The handler of a signal writes its number to the pipe; the answers of
    [write] are errors, 0 for success. *)
Fixpoint _handle_real_signal_ (pipe_write : Z) (answers : list Z) : option bool :=
  if 0 <? pipe_write then
    match answers with
    | [] => None
    | e :: answers => if e =? EAGAIN then _handle_real_signal_ pipe_write answers else Some (e =? 0)
    end
  else Some false.
