(* ===== verification/LoopPollEntries.v ===== *)
(** * File descriptors of the main loop: the entries

    The entries of the source as a function from places to entries, and what the
    walks over them find.  The array has a bin for every place in use, so that no
    walk allocates, and nothing of the allocator is left in the results. *)
From S2P Require Import Prelude Hdb Tlist Array ArrayTheorems Loop LoopTheorems LoopPoll.

(** The entry at a place. *)
Definition ent (f : qb_poll_source) (i : Z) : qb_poll_entry := entry_get f (entry_addr i).

Record src_rep (f : qb_poll_source) : Prop := {
  sr_driver : driver f = true;
  sr_count : 0 <= poll_entry_count f <= QB_ARRAY_MAX_ELEMENTS;
  sr_arr : exists a, poll_entries f = Some a /\ arr_wf a /\ poll_entry_count f <= max_elements a /\
    forall i, 0 <= i < poll_entry_count f -> is_Some (zget (bins a) (i / 16));
}.

(** The allocator serves every request of a call. *)
Definition alloc_works (env : alloc_env) : Prop := realloc_ok env = true /\ calloc_ok env = true.

Lemma entry_addr_16 i : entry_addr i = (i / 16, i mod 16).
Proof. done. Qed.

Lemma ent_content f a i : poll_entries f = Some a -> ent f i = content a i.
Proof. intros E. unfold ent, entry_get. by rewrite E. Qed.

Lemma with_entries_same f : with_entries f (poll_entries f) = f.
Proof. by destruct f. Qed.

Lemma entry_index_rep f i env : src_rep f -> 0 <= i < poll_entry_count f -> entry_index f i env = Some (f, inr (entry_addr i)).
Proof.
  intros [Hd Hc (a & Ea & Hwf & Hm & Hb)] Hi. unfold entry_index. rewrite Ea, index_allocated by (auto; lia).
  cbn [mbind option_bind Z.eqb]. by rewrite <- Ea, with_entries_same.
Qed.

Lemma assert_index_rep f i env : src_rep f -> 0 <= i < poll_entry_count f -> assert_index f i env = Some (f, entry_addr i).
Proof. intros Hf Hi. unfold assert_index. by rewrite entry_index_rep. Qed.

(** Only the entries differ. *)
Record src_frame (f f' : qb_poll_source) : Prop := {
  sf_count : poll_entry_count f' = poll_entry_count f;
  sf_low : low_fds_event_fn f' = low_fds_event_fn f;
  sf_enough : not_enough_fds f' = not_enough_fds f;
  sf_epoll : epollfd f' = epollfd f;
}.

Lemma src_frame_refl f : src_frame f f.
Proof. done. Qed.

Lemma src_frame_trans f f' f'' : src_frame f f' -> src_frame f' f'' -> src_frame f f''.
Proof. intros [] []. constructor; congruence. Qed.

(** Writing an entry. *)
Lemma entry_set_rep f i e :
  src_rep f -> 0 <= i < poll_entry_count f ->
  src_rep (entry_set f (entry_addr i) e) /\ src_frame f (entry_set f (entry_addr i) e) /\
  forall j, 0 <= j -> ent (entry_set f (entry_addr i) e) j = if decide (j = i) then e else ent f j.
Proof.
  intros [Hd Hc (a & Ea & Hwf & Hm & Hb)] Hi. unfold entry_set. rewrite Ea, entry_addr_16.
  set (a' := elem_write _ _ _).
  assert (Hw : forall j, 0 <= j -> arr_wf a' /\ content a' j = if decide (j = i) then e else content a j).
  { intros j Hj. apply content_elem_write; try done; [by apply Hb|lia]. }
  assert (Hbs : max_elements a' = max_elements a /\ forall b, 0 <= b -> is_Some (zget (bins a) b) -> is_Some (zget (bins a') b)).
  { unfold a', elem_write. cbn [fst snd]. destruct (Hb i Hi) as [l El]. rewrite El. split; [done|]. intros b H0 Hsome.
    change (bins (set_bins a (Some ?l) (num_bins a))) with l. assert (0 <= i / 16) by zlia. destruct (decide (b = i / 16)) as [->|].
    - rewrite zget_zset_eq; [done|]. split; [lia|]. destruct (Z_lt_le_dec (i / 16) (zlen (bins a))); [done|].
      rewrite zget_past in El by lia. done.
    - by rewrite zget_zset_ne by lia. }
  destruct Hbs as [Em Hbs]. split; [|split; [done|]].
  - constructor; [done|done|]. exists a'. split; [done|]. split; [by apply (Hw 0)|]. rewrite Em. split; [done|].
    intros j Hj. cbn in Hj. apply Hbs; [zlia|by apply Hb].
  - intros j Hj. rewrite (ent_content f a j Ea). destruct (Hw j Hj) as [_ <-]. by apply ent_content.
Qed.

(** The second write wins. *)
Lemma entry_set_set f i e e' :
  src_rep f -> 0 <= i < poll_entry_count f ->
  entry_set (entry_set f (entry_addr i) e) (entry_addr i) e' = entry_set f (entry_addr i) e'.
Proof.
  intros [Hd Hc (a & Ea & Hwf & Hm & Hb)] Hi. unfold entry_set. rewrite Ea. cbn [poll_entries with_entries].
  unfold with_entries at 1. cbn. f_equal. f_equal. rewrite entry_addr_16. unfold elem_write. cbn [fst snd].
  destruct (Hb i Hi) as [l El]. rewrite El. assert (0 <= i / 16 < zlen (bins a)).
  { split; [zlia|]. destruct (Z_lt_le_dec (i / 16) (zlen (bins a))); [done|]. by rewrite zget_past in El by lia. }
  change (bins (set_bins a (Some ?k) (num_bins a))) with k. rewrite zget_zset_eq by lia.
  assert (Hz : forall {A} (k : list A) j x y, zset (zset k j x) j y = zset k j y).
  { intros A k j x y. unfold zset. zcase; [done|]. by rewrite list_insert_insert_eq. }
  unfold set_bins. cbn. by rewrite !Hz.
Qed.

(** ** Walks *)

(** The first place in a range that satisfies a test. *)
Definition first_at (f : qb_poll_source) (test : qb_poll_entry -> bool) (from upto pos : Z) : Prop :=
  from <= pos < upto /\ test (ent f pos) = true /\ forall j, from <= j < pos -> test (ent f j) = false.

Definition nowhere (f : qb_poll_source) (test : qb_poll_entry -> bool) (from upto : Z) : Prop :=
  forall j, from <= j < upto -> test (ent f j) = false.

Lemma find_entry_rep f test env n : forall pos,
  src_rep f -> 0 <= pos -> pos + Z.of_nat n <= poll_entry_count f ->
  exists r, find_entry test n f pos env = Some (f, r) /\
    match r with
    | Some (i, a) => a = entry_addr i /\ first_at f test pos (pos + Z.of_nat n) i
    | None => nowhere f test pos (pos + Z.of_nat n)
    end.
Proof.
  induction n as [|n IH]; intros pos Hf H0 Hn; cbn [find_entry]; [exists None; split; [done|]; intros j; lia|].
  rewrite assert_index_rep by (done || lia). cbn [mbind option_bind]. fold (ent f pos). destruct (test (ent f pos)) eqn:Et.
  - exists (Some (pos, entry_addr pos)). split; [done|]. split; [done|]. split; [lia|]. split; [done|]. intros; lia.
  - destruct (IH (pos + 1)) as (r & -> & Hr); [done|lia|lia|]. exists r. split; [done|].
    replace (pos + Z.of_nat (S n)) with (pos + 1 + Z.of_nat n) by lia. destruct r as [[i a]|].
    + destruct Hr as (-> & Hi & Hti & Hb). split; [done|]. split; [lia|]. split; [done|]. intros j Hj.
      destruct (decide (j = pos)) as [->|]; [done|]. apply Hb. lia.
    + intros j Hj. destruct (decide (j = pos)) as [->|]; [done|]. apply Hr. lia.
Qed.

(** The walk over all entries. *)
Lemma find_all_rep f test env :
  src_rep f ->
  exists r, find_entry test (Z.to_nat (poll_entry_count f)) f 0 env = Some (f, r) /\
    match r with
    | Some (i, a) => a = entry_addr i /\ first_at f test 0 (poll_entry_count f) i
    | None => nowhere f test 0 (poll_entry_count f)
    end.
Proof.
  intros Hf. pose proof (sr_count f Hf). destruct (find_entry_rep f test env (Z.to_nat (poll_entry_count f)) 0) as (r & -> & Hr); [done|lia|lia|].
  exists r. by replace (0 + Z.of_nat _) with (poll_entry_count f) in Hr by lia.
Qed.

Definition is_empty (e : qb_poll_entry) : bool := bool_decide (pe_state e = QB_POLL_ENTRY_EMPTY).

Lemma first_empty_find n : forall f pos env,
  first_empty_entry n f pos env = match find_entry is_empty n f pos env with Some (f, r) => Some (f, option_map fst r) | None => None end.
Proof.
  induction n as [|n IH]; intros f pos env; cbn [first_empty_entry find_entry]; [done|].
  destruct (assert_index f pos env) as [[f1 a]|]; [|done]. cbn [mbind option_bind]. unfold is_empty at 1.
  destruct (decide (pe_state (entry_get f1 a) = QB_POLL_ENTRY_EMPTY)) as [->|]; [done|].
  rewrite bool_decide_eq_false_2 by done. apply IH.
Qed.

(** A place that is empty, or the next one; the array is extended when needed. *)
Lemma empty_position_rep f env :
  src_rep f -> alloc_works env -> poll_entry_count f < QB_ARRAY_MAX_ELEMENTS ->
  exists f1 f' pos, empty_position f env = Some (f1, pos) /\ assert_index f1 pos env = Some (f', entry_addr pos) /\
    src_rep f' /\ 0 <= pos < poll_entry_count f' /\
    (forall j, 0 <= j -> ent f' j = ent f j) /\
    (poll_entry_count f' = poll_entry_count f /\ pe_state (ent f pos) = QB_POLL_ENTRY_EMPTY \/
     poll_entry_count f' = poll_entry_count f + 1 /\ pos = poll_entry_count f).
Proof.
  intros Hf [Hr Hc] Hlt. unfold empty_position. rewrite first_empty_find.
  destruct (find_all_rep f is_empty env Hf) as (r & -> & Hres). cbn [mbind option_bind].
  pose proof (sr_count f Hf) as Hn. destruct r as [[i a]|]; cbn [fmap option_fmap option_map fst].
  - destruct Hres as (_ & Hi & Ht & _). apply bool_decide_eq_true_1 in Ht. exists f, f, i.
    rewrite assert_index_rep by done. split; [done|]. split; [done|]. split; [done|]. split; [lia|]. split; [done|]. by left.
  - destruct Hf as [Hd _ (arr & Ea & Hwf & Hm & Hb)]. rewrite Ea.
    destruct (grow_ok arr (poll_entry_count f + 1) env) as (a1 & -> & Hwf1 & Hm1 & _ & Hb1); [done|lia|done|].
    cbn [Z.eqb negb]. set (f1 := with_count _ _).
    destruct (index_ok a1 (poll_entry_count f) env) as (a2 & Ei & [Hwf2 _ Hcont Hkeep Halloc] & Hm2); try done; [lia|left; lia|].
    assert (E1 : assert_index f1 (poll_entry_count f) env = Some (with_entries f1 (Some a2), entry_addr (poll_entry_count f))).
    { unfold assert_index, entry_index. change (poll_entries f1) with (Some a1). rewrite Ei. done. }
    exists f1, (with_entries f1 (Some a2)), (poll_entry_count f). split; [done|]. split; [exact E1|]. split; [|split; [|split; [|by right]]].
    + constructor; [done|cbn; lia|]. exists a2. split; [done|]. split; [done|]. cbn. split; [lia|]. intros j Hj.
      destruct (decide (j = poll_entry_count f)) as [->|]; [done|]. rewrite Hkeep; rewrite ?Hb1; try (apply Hb; lia); zlia.
    + cbn. lia.
    + intros j Hj. rewrite (ent_content _ a2) by done. rewrite Hcont by done. rewrite (content_bins arr a1) by done. symmetry. by apply ent_content.
Qed.

(** ** The usage check *)

Definition swept_entry (e : qb_poll_entry) : qb_poll_entry :=
  if decide (pe_state e = QB_POLL_ENTRY_DELETED) then _poll_entry_empty_ e else e.

Definition in_use (e : qb_poll_entry) : bool :=
  match pe_state e with
  | QB_POLL_ENTRY_ACTIVE | QB_POLL_ENTRY_JOBLIST => negb (ufd_fd e =? -1)
  | _ => false
  end.

(** The number of entries in use from a place on. *)
Fixpoint used_from (f : qb_poll_source) (pos : Z) (n : nat) : Z :=
  match n with
  | O => 0
  | S n => (if in_use (ent f pos) then 1 else 0) + used_from f (pos + 1) n
  end.

Lemma used_from_ext f f' n : forall pos,
  (forall j, pos <= j < pos + Z.of_nat n -> ent f' j = ent f j) -> used_from f' pos n = used_from f pos n.
Proof.
  induction n as [|n IH]; intros pos He; cbn [used_from]; [done|]. rewrite (He pos) by lia. f_equal. apply IH.
  intros j Hj. apply He. lia.
Qed.

Lemma usage_loop_rep n : forall f pos used env,
  src_rep f -> 0 <= pos -> pos + Z.of_nat n <= poll_entry_count f ->
  exists f', usage_loop n f pos used env = Some (f', used + used_from f pos n) /\ src_rep f' /\ src_frame f f' /\
    forall j, 0 <= j -> ent f' j = if decide (pos <= j < pos + Z.of_nat n) then swept_entry (ent f j) else ent f j.
Proof.
  induction n as [|n IH]; intros f pos used env Hf H0 Hn; cbn [usage_loop].
  { exists f. cbn. rewrite Z.add_0_r. split; [done|]. split; [done|]. split; [done|]. intros j _. case_decide; [lia|done]. }
  rewrite assert_index_rep by (done || lia). cbn [mbind option_bind]. fold (ent f pos). fold (in_use (ent f pos)).
  set (f1 := if decide _ then _ else f).
  assert (Hf1 : src_rep f1 /\ src_frame f f1 /\ forall j, 0 <= j -> ent f1 j = if decide (j = pos) then swept_entry (ent f j) else ent f j).
  { unfold f1. case_decide as Hst.
    - destruct (entry_set_rep f pos (_poll_entry_empty_ (ent f pos)) Hf) as (H1 & H2 & H3); [lia|]. split; [done|]. split; [done|].
      intros j Hj. rewrite H3 by done. case_decide; [|done]. subst. unfold swept_entry. by rewrite decide_True.
    - split; [done|]. split; [done|]. intros j _. case_decide; [|done]. subst. unfold swept_entry. by rewrite decide_False. }
  destruct Hf1 as (Hf1 & Hfr & He). rewrite <- (sf_count f f1 Hfr) in Hn.
  destruct (IH f1 (pos + 1) (if in_use (ent f pos) then used + 1 else used) env) as (f' & -> & Hf' & Hfr' & He'); [done|lia|lia|].
  exists f'. split.
  { f_equal. f_equal. cbn [used_from]. rewrite (used_from_ext f f1).
    - destruct (in_use _); lia.
    - intros j Hj. rewrite He by lia. case_decide; [lia|done]. }
  split; [done|]. split; [by eapply src_frame_trans|]. intros j Hj. rewrite He', He by done. repeat case_decide; done || lia.
Qed.
