(* ===== verification/LoopPollInv.v ===== *)
(** * File descriptors and signals of the main loop: the invariant

    An entry is in the queue of its level exactly when its state says so, and
    once; the one that is being dispatched ([busy]) is in none.  Handlers and
    their queued copies are in memory.  The lemmas of this file say what changes
    of the queues, of an entry and of the handlers keep this. *)
From S2P Require Import Prelude Hdb Tlist Array ArrayTheorems Loop LoopTheorems LoopPoll LoopPollEntries.

(** ** Items of the source in a queue *)

Definition as_fd (i : qb_loop_item) : option fd_item := match i with Item_fd x => Some x | _ => None end.
Definition fd_items (l : list qb_loop_item) : list fd_item := omap as_fd l.
Definition queued (l : qb_loop) (p : Z) : list fd_item := fd_items (job_head (lv l p)).
Definition waiting (l : qb_loop) (p : Z) : list fd_item := fd_items (wait_head (lv l p)).

Lemma fd_items_app l k : fd_items (l ++ k) = fd_items l ++ fd_items k.
Proof. apply omap_app. Qed.

Lemma elem_of_fd_items x l : x ∈ fd_items l <-> Item_fd x ∈ l.
Proof.
  unfold fd_items. rewrite list_elem_of_omap. split; [|intros ?; by exists (Item_fd x)].
  by intros ([| |y] & Hy & [= ->]).
Qed.

Lemma fd_items_remove_other i l : as_fd i = None -> fd_items (remove_item i l) = fd_items l.
Proof.
  intros Hi. induction l as [|y l IH]; [done|]. cbn [remove_item]. case_decide as E.
  - subst. unfold fd_items. cbn. by rewrite Hi.
  - unfold fd_items in *. cbn. by rewrite IH.
Qed.

Lemma fd_items_remove x l :
  NoDup (fd_items l) ->
  NoDup (fd_items (remove_item (Item_fd x) l)) /\ forall y, y ∈ fd_items (remove_item (Item_fd x) l) <-> y ∈ fd_items l /\ y <> x.
Proof.
  induction l as [|z l IH]; [intros _; split; [apply NoDup_nil_2|set_solver]|]. cbn [remove_item]. intros Hnd.
  assert (Hl : NoDup (fd_items l)) by (unfold fd_items in *; cbn in Hnd; destruct (as_fd z); [by apply list.NoDup_cons in Hnd as [_ ?]|done]).
  case_decide as E.
  - subst z. unfold fd_items in *. cbn in *. apply list.NoDup_cons in Hnd as [Hn _]. split; [done|]. intros y. rewrite elem_of_cons. split; [|naive_solver].
    intros Hy. split; [by right|]. by intros ->.
  - destruct (IH Hl) as [IH1 IH2]. unfold fd_items in *. cbn in *. destruct z as [a f d|pos|z]; cbn in *; [done|done|].
    apply list.NoDup_cons in Hnd as [Hn _]. split.
    + apply list.NoDup_cons. split; [|done]. rewrite IH2. naive_solver.
    + intros y. rewrite !elem_of_cons, IH2. split; [|naive_solver]. intros [->|?]; [|naive_solver]. split; [by left|]. congruence.
Qed.

(** An item is in one queue at most, and once. *)
Record distinct (l : qb_loop) : Prop := {
  di_nodup : forall p, 0 <= p < 3 -> NoDup (queued l p);
  di_apart : forall p q x, 0 <= p < 3 -> 0 <= q < 3 -> x ∈ queued l p -> x ∈ queued l q -> p = q;
}.

(** The items of the source are where they were. *)
Record same_fds (l l' : qb_loop) : Prop := {
  sm_ok : ok l -> ok l';
  sm_queued : ok l -> forall p, 0 <= p < 3 -> queued l' p = queued l p;
  sm_waiting : ok l -> forall p, 0 <= p < 3 -> waiting l' p = waiting l p;
}.

Lemma same_fds_levels l l' : level l' = level l -> same_fds l l'.
Proof. intros E. constructor; unfold ok, queued, waiting, lv; rewrite E; done. Qed.

Lemma same_fds_trans l l' l'' : same_fds l l' -> same_fds l' l'' -> same_fds l l''.
Proof.
  intros [H1 H2 H3] [G1 G2 G3]. constructor; intros Hok; [auto|intros p Hp; rewrite G2, H2; auto|intros p Hp; rewrite G3, H3; auto].
Qed.

Lemma same_fds_set l p v :
  0 <= p < 3 -> fd_items (job_head v) = queued l p -> fd_items (wait_head v) = waiting l p -> same_fds l (set_lv l p v).
Proof.
  intros Hp Hj Hw. constructor; intros Hok.
  - unfold ok. cbn. by rewrite zlen_zset.
  - intros q Hq. unfold queued. rewrite lv_set by (done || lia). case_decide; by subst.
  - intros q Hq. unfold waiting. rewrite lv_set by (done || lia). case_decide; by subst.
Qed.

(** The calls on jobs. *)
Lemma job_add_same l p d f ce : same_fds l (fst (qb_loop_job_add l p d f ce)).
Proof.
  unfold qb_loop_job_add. destruct (_ =? _); [by apply same_fds_levels|]. destruct (priority_ok p) eqn:Hp; [|by apply same_fds_levels].
  destruct (_ =? _); [by apply same_fds_levels|]. apply priority_range in Hp. apply same_fds_set; [done|done|].
  cbn [wait_head set_queues]. rewrite fd_items_app. by rewrite app_nil_r.
Qed.

Lemma delete_job_same l p i : 0 <= p < 3 -> as_fd i = None -> same_fds l (delete_item l p i).
Proof.
  intros Hp Hi. unfold delete_item, qb_loop_level_item_del. case_decide; [|by apply same_fds_set].
  match goal with |- same_fds _ (add_event ?m _) => apply (same_fds_trans l m); [|by apply same_fds_levels] end.
  apply same_fds_set; [done| |done]. cbn. by apply fd_items_remove_other.
Qed.

Lemma job_del_same l p d f : 0 <= p -> exists r, qb_loop_job_del l p d f = Some r /\ same_fds l (fst (fst r)).
Proof.
  intros Hp0. unfold qb_loop_job_del. destruct (_ =? _); [eexists; split; [done|by apply same_fds_levels]|].
  destruct (Z.ltb_spec QB_LOOP_HIGH p); [eexists; split; [done|by apply same_fds_levels]|].
  destruct (Z.ltb_spec p 0); [lia|]. unfold QB_LOOP_HIGH in *. assert (Hp : 0 <= p < 3) by lia.
  assert (Hjob : exists r, match List.find (job_matches d f) (job_head (lv l p)) with
      | Some i => Some (delete_item l p i, 0, [])
      | None => Some (l, - ENOENT, ([] : list Z)) end = Some r /\ same_fds l (fst (fst r))).
  { destruct (List.find _ (job_head _)) as [i|] eqn:E; eexists; (split; [reflexivity|]); [|by apply same_fds_levels].
    apply find_some in E as [_ Hm]. apply delete_job_same; [done|]. by destruct i. }
  destruct (List.find _ (wait_head (lv l p))) as [[a g e| |]|]; try exact Hjob.
  eexists. split; [reflexivity|]. apply same_fds_set; [done|done|]. cbn. by apply fd_items_remove_other.
Qed.

(** ** Adding and deleting items *)

Lemma level_add_spec l p x :
  ok l -> 0 <= p < 3 ->
  exists l', level_add l p (Item_fd x) = Some l' /\ ok l' /\ evolves l l' /\
    (forall q, 0 <= q < 3 -> job_head (lv l' q) = job_head (lv l q) ++ (if decide (q = p) then [Item_fd x] else [])) /\
    (forall q, 0 <= q < 3 -> queued l' q = queued l q ++ (if decide (q = p) then [x] else [])) /\
    (forall q, 0 <= q < 3 -> waiting l' q = waiting l q).
Proof.
  intros Hok Hp. unfold level_add. replace (priority_ok p) with true.
  2:{ unfold priority_ok, QB_LOOP_LOW, QB_LOOP_HIGH. symmetry. apply andb_true_intro. lia. }
  eexists. split; [done|]. split; [unfold ok; cbn; by rewrite zlen_zset|]. split.
  { apply (evolves_append l p _ [Item_fd x]); try done. intros m Hm. cbn [todo set_queues qb_loop_level_item_add]. by rewrite Hm, i32_add. }
  split_and!; intros q Hq; unfold queued, waiting; rewrite lv_set by (done || lia); case_decide; subst; cbn; rewrite ?app_nil_r; try done.
  by rewrite fd_items_app.
Qed.

Lemma find_level_spec l x p :
  0 <= p < 3 -> (forall q, 0 <= q < 3 -> x ∈ queued l q -> q = p) ->
  find_level l (Item_fd x) = if decide (x ∈ queued l p) then Some p else None.
Proof.
  intros Hp Hu. unfold find_level, QB_LOOP_LOW, QB_LOOP_MED, QB_LOOP_HIGH. cbn [List.find].
  assert (Hb : forall q, 0 <= q < 3 -> bool_decide (Item_fd x ∈ job_head (lv l q)) = bool_decide (q = p /\ x ∈ queued l p)).
  { intros q Hq. apply bool_decide_ext. split.
    - intros Hin. assert (Hx : x ∈ queued l q) by by apply elem_of_fd_items. pose proof (Hu q Hq Hx). by subst.
    - intros [-> Hx]. by apply elem_of_fd_items. }
  rewrite !Hb by lia. assert (p = 0 \/ p = 1 \/ p = 2) as [->|[->| ->]] by lia;
    destruct (decide (x ∈ _)) as [Hx|Hx]; repeat case_bool_decide; naive_solver.
Qed.

(** An item of the source taken out of the queue of its level, if it is there. *)
Lemma item_del_spec l x p :
  ok l -> distinct l -> 0 <= p < 3 -> (forall q, 0 <= q < 3 -> x ∈ queued l q -> q = p) ->
  exists l', item_del l p (Item_fd x) = Some l' /\ ok l' /\ evolves l l' /\ distinct l' /\
    (forall q, 0 <= q < 3 -> forall y, y ∈ queued l' q <-> y ∈ queued l q /\ y <> x) /\
    (forall q, 0 <= q < 3 -> waiting l' q = waiting l q).
Proof.
  intros Hok Hdi Hp Hu. unfold item_del. rewrite (find_level_spec l x p) by done. replace (priority_ok p) with true.
  2:{ unfold priority_ok, QB_LOOP_LOW, QB_LOOP_HIGH. symmetry. apply andb_true_intro. lia. }
  cbn [negb]. case_decide as Hx.
  2:{ exists l. split; [done|]. split; [done|]. split; [auto with qb|]. split; [done|]. split; [|done].
      intros q Hq y. split; [|naive_solver]. intros Hy. split; [done|]. intros ->. by rewrite (Hu q Hq Hy) in Hy. }
  set (l1 := set_lv l p _).
  assert (E : add_event (set_lv l1 p (set_todo (lv l1 p) (i32 (todo (lv l1 p) - 1)))) (Ev_removed p (Item_fd x)) = delete_item l p (Item_fd x)).
  { unfold delete_item, qb_loop_level_item_del. rewrite !decide_True by (by apply elem_of_fd_items).
    f_equal. unfold l1. rewrite !lv_set, !decide_True by (done || lia). unfold set_lv, with_level. cbn. f_equal.
    unfold zset. zcase; [lia|]. by rewrite list_insert_insert_eq. }
  rewrite E. eexists. split; [done|]. pose proof (delete_item_evolves l p (Item_fd x) Hp) as Hev.
  split; [by apply Hev|]. split; [done|].
  assert (Hlv : forall q, 0 <= q < 3 -> lv (delete_item l p (Item_fd x)) q =
      if decide (q = p) then set_queues (lv l p) (i32 (todo (lv l p) - 1)) (wait_head (lv l p)) (remove_item (Item_fd x) (job_head (lv l p))) else lv l q).
  { intros q Hq. unfold delete_item, qb_loop_level_item_del. rewrite !decide_True by (by apply elem_of_fd_items).
    change (lv (add_event ?m _) q) with (lv m q). by rewrite lv_set by (done || lia). }
  assert (Hq : forall q, 0 <= q < 3 -> NoDup (queued (delete_item l p (Item_fd x)) q) /\
      forall y, y ∈ queued (delete_item l p (Item_fd x)) q <-> y ∈ queued l q /\ y <> x).
  { intros q Hq. unfold queued. rewrite Hlv by done. case_decide as Eq; [subst; apply fd_items_remove; by apply Hdi|].
    split; [by apply Hdi|]. intros y. split; [|naive_solver]. intros Hy. split; [done|]. intros ->. by apply Eq, Hu. }
  split; [|split; [intros q Hq'; by apply Hq|]].
  - constructor; [intros q Hq'; by apply Hq|]. intros q q' y H1 H2 [Hy1 _]%Hq [Hy2 _]%Hq; [|done..]. by apply (di_apart l Hdi q q' y).
  - intros q Hq'. unfold waiting. rewrite Hlv by done. case_decide; by subst.
Qed.

(** ** The invariant *)

Definition live (e : qb_poll_entry) : Prop := pe_state e = QB_POLL_ENTRY_ACTIVE \/ pe_state e = QB_POLL_ENTRY_JOBLIST.

(** An entry in use: its place, its level, and what an event does. *)
Record entry_ok (i : Z) (e : qb_poll_entry) : Prop := {
  eo_pos : install_pos e = i;
  eo_level : 0 <= pe_p e < 3;
  eo_kind : add_to_jobs e = Add_poll /\ pe_type e = QB_LOOP_FD \/
            add_to_jobs e = Add_signal /\ pe_type e = QB_LOOP_SIG /\ pe_state e <> QB_POLL_ENTRY_JOBLIST;
}.

(** The entry says that it is in the queue of level [p]. *)
Definition wants (busy : option fd_item) (i : Z) (e : qb_poll_entry) (p : Z) : Prop :=
  pe_state e = QB_POLL_ENTRY_JOBLIST /\ pe_p e = p /\ busy <> Some (Fd_entry i).

(** The state of the entry being dispatched. *)
Definition busy_ok (e : qb_poll_entry) : Prop := pe_state e = QB_POLL_ENTRY_JOBLIST \/ pe_state e = QB_POLL_ENTRY_DELETED.

Record entries_inv (busy : option fd_item) (l : qb_loop) (f : qb_poll_source) : Prop := {
  ei_src : src_rep f;
  ei_live : forall i, 0 <= i < poll_entry_count f -> live (ent f i) -> entry_ok i (ent f i);
  ei_queue : forall p i, 0 <= p < 3 -> Fd_entry i ∈ queued l p <-> 0 <= i < poll_entry_count f /\ wants busy i (ent f i) p;
  ei_busy : forall i, busy = Some (Fd_entry i) -> 0 <= i < poll_entry_count f /\ busy_ok (ent f i);
}.

Record loop_inv (l : qb_loop) : Prop := {
  li_ok : ok l;
  li_distinct : distinct l;
  li_waiting : forall p, 0 <= p < 3 -> waiting l p = [];
}.

(** [copy l busy c]: a copy that is queued or being dispatched. *)
Definition copy (l : qb_loop) (busy : option fd_item) (c : Z) : Prop :=
  busy = Some (Fd_signal c) \/ exists p, 0 <= p < 3 /\ Fd_signal c ∈ queued l p.

Record sigs_inv (busy : option fd_item) (l : qb_loop) (g : qb_signal_source) : Prop := {
  gi_handlers : forall h, h ∈ sig_head g -> exists sig, sigs g !! h = Some sig /\ 0 <= sig_p sig < 3;
  gi_next : 0 < next_sig g;
  gi_addr : forall a, is_Some (sigs g !! a) -> 0 < a < next_sig g;
  gi_copies : forall c, copy l busy c -> is_Some (sigs g !! c) /\ c ∉ sig_head g;
  gi_busy : forall c p, busy = Some (Fd_signal c) -> 0 <= p < 3 -> Fd_signal c ∉ queued l p;
}.

Record inv (busy : option fd_item) (s : pstate) : Prop := {
  iv_loop : loop_inv (loop_ s);
  iv_entries : entries_inv busy (loop_ s) (fds s);
  iv_sigs : exists g, signals s = Some g /\ sigs_inv busy (loop_ s) g;
}.

(** What the calls keep: the invariant, and the order of the queues. *)
Definition keeps (busy : option fd_item) (s s' : pstate) : Prop := inv busy s' /\ evolves (loop_ s) (loop_ s').

Lemma keeps_refl busy s : inv busy s -> keeps busy s s.
Proof. split; [done|auto with qb]. Qed.

Lemma keeps_trans busy s s' s'' : keeps busy s s' -> keeps busy s' s'' -> keeps busy s s''.
Proof. intros [_ H1] [H2 H3]. split; [done|by eapply evolves_trans]. Qed.

(** The effects and the other fields do not matter. *)
Lemma poll_inv_ext busy s s' : loop_ s' = loop_ s -> fds s' = fds s -> signals s' = signals s -> inv busy s -> inv busy s'.
Proof. intros E1 E2 E3 [H1 H2 H3]. constructor; by rewrite ?E1, ?E2, ?E3. Qed.

Lemma keeps_ext busy s s' : loop_ s' = loop_ s -> fds s' = fds s -> signals s' = signals s -> inv busy s -> keeps busy s s'.
Proof. intros E1 E2 E3 H. split; [by apply (poll_inv_ext busy s)|]. rewrite E1. auto with qb. Qed.

(** *** Changes of the queues *)

Lemma loop_inv_same l l' : same_fds l l' -> loop_inv l -> loop_inv l'.
Proof.
  intros [H1 H2 H3] [Hok [Hn Ha] Hw]. constructor; [auto| |intros p Hp; by rewrite H3, Hw].
  constructor; [intros p Hp; rewrite H2; auto|]. intros p q x Hp Hq. rewrite !H2 by done. eauto.
Qed.

(** An item that is in no queue is put into one. *)
Lemma loop_inv_add l l' p x :
  loop_inv l -> ok l' -> 0 <= p < 3 -> (forall q, 0 <= q < 3 -> x ∉ queued l q) ->
  (forall q, 0 <= q < 3 -> queued l' q = queued l q ++ (if decide (q = p) then [x] else [])) ->
  (forall q, 0 <= q < 3 -> waiting l' q = waiting l q) -> loop_inv l'.
Proof.
  intros [Hok [Hn Ha] Hw] Hok' Hp Hx Hq Hw'. constructor; [done| |intros q Hqr; rewrite Hw'; auto].
  assert (Hin : forall q y, 0 <= q < 3 -> y ∈ queued l' q -> y ∈ queued l q /\ y <> x \/ y = x /\ q = p).
  { intros q y Hqr. rewrite Hq, elem_of_app by done. intros [Hy|Hy]; [left; split; [done|]; intros ->; by apply (Hx q)|].
    case_decide; [right; set_solver|set_solver]. }
  constructor.
  - intros q Hqr. rewrite Hq by done. apply list.NoDup_app. split; [auto|]. case_decide; [|split; [set_solver|apply NoDup_nil_2]].
    split; [|apply NoDup_singleton]. intros y Hy. rewrite list_elem_of_singleton. intros ->. by apply (Hx q).
  - intros q q' y H1 H2 Hy1 Hy2. destruct (Hin q y H1 Hy1) as [[G1 G2]|[G1 G2]], (Hin q' y H2 Hy2) as [[G3 G4]|[G3 G4]]; subst; try done. eauto.
Qed.

Lemma entries_inv_loop busy l l' f :
  (forall p i, 0 <= p < 3 -> Fd_entry i ∈ queued l' p <-> Fd_entry i ∈ queued l p) -> entries_inv busy l f -> entries_inv busy l' f.
Proof. intros Hq [H1 H2 H3 H4]. constructor; try done. intros p i Hp. by rewrite Hq, H3. Qed.

Lemma sigs_inv_loop busy l l' g :
  (forall p c, 0 <= p < 3 -> Fd_signal c ∈ queued l' p -> Fd_signal c ∈ queued l p) -> sigs_inv busy l g -> sigs_inv busy l' g.
Proof.
  intros Hq [H1 H0 H2 H3 H4]. constructor; try done.
  - intros c [Hb|(p & Hp & Hc)]; apply H3; [by left|right; exists p; auto].
  - intros c p Hb Hp Hc. by apply (H4 c p Hb Hp), Hq.
Qed.

Lemma inv_same busy s l' : same_fds (loop_ s) l' -> inv busy s -> inv busy (with_loop s l').
Proof.
  intros Hs [Hl He (g & Eg & Hg)]. constructor; cbn.
  - by apply (loop_inv_same (loop_ s)).
  - apply (entries_inv_loop busy (loop_ s)); [|done]. intros p i Hp. by rewrite (sm_queued _ _ Hs) by (done || apply Hl).
  - exists g. split; [done|]. apply (sigs_inv_loop busy (loop_ s)); [|done]. intros p c Hp. by rewrite (sm_queued _ _ Hs) by (done || apply Hl).
Qed.

(** *** Changes of an entry *)

(** One entry changes, and the queues with it. *)
Lemma entries_inv_set busy busy' l l' f i e :
  entries_inv busy l f -> 0 <= i < poll_entry_count f -> (live e -> entry_ok i e) ->
  (forall p, 0 <= p < 3 -> Fd_entry i ∈ queued l' p <-> wants busy' i e p) ->
  (forall p j, 0 <= p < 3 -> j <> i -> Fd_entry j ∈ queued l' p <-> Fd_entry j ∈ queued l p) ->
  (forall j, j <> i -> busy' = Some (Fd_entry j) <-> busy = Some (Fd_entry j)) ->
  (busy' = Some (Fd_entry i) -> busy_ok e) ->
  entries_inv busy' l' (entry_set f (entry_addr i) e).
Proof.
  intros [H1 H2 H3 H4] Hi He Hq Hother Hb Hbi. destruct (entry_set_rep f i e H1 Hi) as (Hrep & Hfr & Hent).
  constructor; rewrite ?(sf_count _ _ Hfr); try done.
  - intros j Hj. rewrite Hent by lia. case_decide; [by subst|auto].
  - intros p j Hp. destruct (decide (j = i)) as [->|Hne].
    + rewrite Hq, Hent, decide_True by (done || lia). tauto.
    + rewrite Hother, H3 by done. split; intros [Hj Hw]; (split; [done|]).
      * rewrite Hent, decide_False by (done || lia). unfold wants. by rewrite Hb.
      * rewrite Hent, decide_False in Hw by (done || lia). unfold wants in *. by rewrite Hb in Hw.
  - intros j Hj. destruct (decide (j = i)) as [->|Hne]; [rewrite Hent, decide_True by (done || lia); auto|].
    apply Hb in Hj; [|done]. destruct (H4 j Hj). rewrite Hent, decide_False by (done || lia). done.
Qed.

(** A change of an entry that the queues do not show. *)
Lemma inv_entry busy s i e :
  inv busy s -> 0 <= i < poll_entry_count (fds s) -> (live e -> entry_ok i e) ->
  (forall p, 0 <= p < 3 -> wants busy i e p <-> wants busy i (ent (fds s) i) p) ->
  (busy = Some (Fd_entry i) -> busy_ok e) ->
  inv busy (with_fds s (entry_set (fds s) (entry_addr i) e)).
Proof.
  intros [Hl He Hg] Hi Hlive Hw Hb. constructor; [done| |done]. cbn.
  apply (entries_inv_set busy busy (loop_ s) (loop_ s)); try done. intros p Hp. rewrite Hw by done.
  rewrite (ei_queue _ _ _ He) by done. tauto.
Qed.

Lemma keeps_entry busy s s' i e :
  keeps busy s s' -> 0 <= i < poll_entry_count (fds s') -> (live e -> entry_ok i e) ->
  (forall p, 0 <= p < 3 -> wants busy i e p <-> wants busy i (ent (fds s') i) p) ->
  (busy = Some (Fd_entry i) -> busy_ok e) ->
  keeps busy s (with_fds s' (entry_set (fds s') (entry_addr i) e)).
Proof. intros [H1 H2] Hi Hl Hw Hb. split; [by apply inv_entry|done]. Qed.
