(* ===== verification/LoopPollOps.v ===== *)
(** * File descriptors and signals of the main loop: the calls

    Every call of the interface keeps the invariant and the order of the queues,
    and returns: no [assert] fails.  What a call must not do is written down as
    [call_ok]. *)
From S2P Require Import Prelude Hdb Tlist Array ArrayTheorems Loop LoopTheorems LoopPoll LoopPollEntries LoopPollInv.

(** ** The usage check *)

Lemma entries_inv_sweep l f f' :
  entries_inv None l f -> src_rep f' -> poll_entry_count f' = poll_entry_count f ->
  (forall j, 0 <= j < poll_entry_count f -> ent f' j = swept_entry (ent f j) \/ ent f' j = ent f j) ->
  entries_inv None l f'.
Proof.
  intros [H1 H2 H3 H4] Hrep Hc He.
  assert (Hw : forall j, 0 <= j < poll_entry_count f -> (live (ent f' j) -> ent f' j = ent f j) /\ (forall p, wants None j (ent f' j) p <-> wants None j (ent f j) p)).
  { intros j Hj. destruct (He j Hj) as [-> | ->]; [|split; [done|tauto]]. unfold swept_entry. case_decide as Hst; [|split; [done|tauto]].
    split; [intros [?|?]; done|]. unfold wants. rewrite Hst. cbn. naive_solver. }
  constructor; try done; rewrite ?Hc.
  - intros i Hi Hl. destruct (Hw i Hi) as [Heq _]. rewrite Heq in * by done. auto.
  - intros p i Hp. rewrite H3 by done. split; intros [Hi Hx]; (split; [done|]); by apply (Hw i Hi).
Qed.

(** Entries marked deleted become empty, unless [getrlimit] fails; the callback
    is told when the number of free descriptors falls to one or rises over two. *)
Lemma usage_check_spec s env :
  inv None s ->
  exists s', qb_poll_fds_usage_check_ s env = Some s' /\ inv None s' /\ loop_ s' = loop_ s /\ signals s' = signals s /\
    poll_entry_count (fds s') = poll_entry_count (fds s) /\
    (forall j, 0 <= j < poll_entry_count (fds s) ->
       ent (fds s') j = match socks_limit_get s env with Some _ => swept_entry (ent (fds s) j) | None => ent (fds s) j end).
Proof.
  intros [Hl He Hg]. unfold qb_poll_fds_usage_check_. destruct (socks_limit_get s env) as [limit|]; [|by exists s].
  pose proof (ei_src _ _ _ He) as Hrep. pose proof (sr_count _ Hrep) as Hc. cbn [fds with_socks_limit].
  destruct (usage_loop_rep (Z.to_nat (poll_entry_count (fds s))) (fds s) 0 0 (ev_array env)) as (f' & -> & Hrep' & Hfr & Hent); [done|lia|lia|].
  cbn [mbind option_bind]. assert (Hsw : forall j, 0 <= j < poll_entry_count (fds s) -> ent f' j = swept_entry (ent (fds s) j)).
  { intros j Hj. rewrite Hent by lia. rewrite decide_True by lia. done. }
  assert (He' : entries_inv None (loop_ s) f').
  { apply (entries_inv_sweep _ (fds s)); try done; [apply Hfr|]. auto. }
  assert (Hlow : forall fn b, entries_inv None (loop_ s) (with_low_fds f' fn b)).
  { intros fn b. destruct He' as [[D1 D2 D3] H2 H3 H4]. by constructor; [constructor|..]. }
  assert (Hcount : poll_entry_count f' = poll_entry_count (fds s)) by apply Hfr.
  match goal with |- context [match ?m with None => _ | Some _ => _ end] => destruct m as [b|] end.
  - eexists. split; [done|]. destruct (low_fds_event_fn f' =? 0); (split; [by constructor; cbn|]); split_and!; done.
  - eexists. split; [done|]. split; [by constructor|]. split_and!; done.
Qed.

(** ** Adding *)

Lemma entries_inv_add busy l f f' pos e :
  entries_inv busy l f -> src_rep f' -> 0 <= pos < poll_entry_count f' -> (forall j, 0 <= j -> ent f' j = ent f j) ->
  (poll_entry_count f' = poll_entry_count f /\ pe_state (ent f pos) = QB_POLL_ENTRY_EMPTY \/
   poll_entry_count f' = poll_entry_count f + 1 /\ pos = poll_entry_count f) ->
  pe_state e <> QB_POLL_ENTRY_JOBLIST -> (live e -> entry_ok pos e) ->
  entries_inv busy l (entry_set f' (entry_addr pos) e).
Proof.
  intros [H1 H2 H3 H4] Hrep Hpos Hsame Hcase Hst Hlive. destruct (entry_set_rep f' pos e Hrep Hpos) as (Hrep' & Hfr & Hent).
  assert (Hin : forall j, j <> pos -> 0 <= j < poll_entry_count f' <-> 0 <= j < poll_entry_count f) by (intros; destruct Hcase as [[-> _]|[-> ->]]; lia).
  assert (Hj : forall j, 0 <= j -> j <> pos -> ent (entry_set f' (entry_addr pos) e) j = ent f j).
  { intros j H0 Hne. by rewrite Hent, decide_False, Hsame by done. }
  assert (Hp' : ent (entry_set f' (entry_addr pos) e) pos = e) by (by rewrite Hent, decide_True by (done || lia)).
  constructor; rewrite ?(sf_count _ _ Hfr); try done.
  - intros j Hjr. destruct (decide (j = pos)) as [->|]; [by rewrite Hp'|]. rewrite Hj by (done || lia). apply H2. by apply Hin.
  - intros p j Hp. rewrite H3 by done. destruct (decide (j = pos)) as [->|].
    + rewrite Hp'. split; intros [Hr [Hw _]]; [|done]. destruct Hcase as [[_ E]|[_ ->]]; [by rewrite E in Hw|lia].
    + rewrite Hin by done. split; intros [Hr Hw]; (split; [done|]); by rewrite Hj in * by (done || lia).
  - intros j Hb. destruct (H4 j Hb) as [Hr Hok]. destruct (decide (j = pos)) as [->|].
    + destruct Hcase as [[_ E]|[_ ->]]; [|lia]. destruct Hok as [?|?]; congruence.
    + rewrite Hj by (done || lia). split; [by apply Hin|done].
Qed.

(** The entry of a descriptor that the system refuses stays empty; that of one
    it accepts is ready once its kind is set. *)
Lemma poll_add_entry busy s p fd events data env :
  entries_inv busy (loop_ s) (fds s) -> 0 <= p < 3 -> alloc_works (ev_array env) -> poll_entry_count (fds s) < QB_ARRAY_MAX_ELEMENTS ->
  exists s' res pos, _poll_add_ s p fd events data env = Some (s', res, pos) /\ res = (if ev_ctl env =? 0 then 0 else - ev_ctl env) /\
    loop_ s' = loop_ s /\ signals s' = signals s /\ pipe_fds s' = pipe_fds s /\ (res <> 0 -> entries_inv busy (loop_ s) (fds s')) /\
    (res = 0 -> forall fn ty add, add = Add_poll /\ ty = QB_LOOP_FD \/ add = Add_signal /\ ty = QB_LOOP_SIG ->
       entries_inv busy (loop_ s) (entry_set (fds s') (entry_addr pos) (with_kind (ent (fds s') pos) fn ty add))).
Proof.
  intros He Hp Hal Hlt. pose proof (ei_src _ _ _ He) as Hrep. unfold _poll_add_.
  destruct (empty_position_rep (fds s) (ev_array env) Hrep Hal Hlt) as (f1 & f' & pos & -> & Eix & Hrep' & Hpos & Hsame & Hcase).
  cbn [mbind option_bind]. pose proof (sr_count _ Hrep') as Hc'. change QB_ARRAY_MAX_ELEMENTS with 65536 in *.
  rewrite (u32_small pos), (i32_small pos), Eix by lia. cbn [mbind option_bind]. set (e := Build_qb_poll_entry _ _ _ _ _ _ _ _ _ _ _ _).
  assert (Hadd : forall e', pe_state e' <> QB_POLL_ENTRY_JOBLIST -> (live e' -> entry_ok pos e') ->
      entries_inv busy (loop_ s) (entry_set f' (entry_addr pos) e')) by (intros; by apply (entries_inv_add busy _ (fds s))).
  destruct (entry_set_rep f' pos e Hrep' Hpos) as (Hrep2 & _ & Hent2). unfold _add. cbn [fds with_fds].
  rewrite (sr_driver _ Hrep2). cbn [mbind option_bind]. set (res := if ev_ctl env =? 0 then 0 else - ev_ctl env).
  destruct (Z.eqb_spec res 0) as [Er|Er]; eexists _, _, _; (split; [done|]); cbn [loop_ fds signals pipe_fds with_fds emit].
  - split; [done|]. split_and!; try done. intros _ fn ty add Hk. rewrite Hent2, decide_True, entry_set_set by (done || lia).
    apply Hadd; [done|]. intros _. constructor; [done|done|]. destruct Hk as [[-> ->]|[-> ->]]; [by left|by right].
  - split; [done|]. split_and!; try done. intros _. rewrite entry_set_set by done. apply Hadd; [done|]. by intros [?|?].
Qed.

Lemma poll_add_spec busy s p fd events data fn env :
  inv busy s -> 0 <= p < 3 -> alloc_works (ev_array env) -> poll_entry_count (fds s) < QB_ARRAY_MAX_ELEMENTS ->
  exists s' res, qb_loop_poll_add s p fd events data fn env = Some (s', res) /\ keeps busy s s' /\
    res = (if ev_ctl env =? 0 then 0 else - ev_ctl env).
Proof.
  intros [Hl He Hg] Hp Hal Hlt. unfold qb_loop_poll_add.
  destruct (poll_add_entry busy s p fd events data env He Hp Hal Hlt) as (s1 & res & pos & -> & Hres & E1 & E2 & _ & Hno & Hyes).
  cbn [mbind option_bind]. fold (ent (fds s1) pos).
  destruct (Z.eqb_spec res 0) as [E0|E0]; cbn [negb]; eexists _, _; (split; [done|]); (split; [|done]).
  - split; [|cbn; rewrite E1; auto with qb]. constructor; cbn; rewrite ?E1, ?E2; try done. apply Hyes; [done|by left].
  - split; [|rewrite E1; auto with qb]. constructor; rewrite ?E1, ?E2; auto.
Qed.

(** ** Changing *)

(** The level of an entry that is queued is not changed. *)
Definition mod_ok (busy : option fd_item) (s : pstate) (p fd : Z) : Prop :=
  0 <= p < 3 /\ forall i, 0 <= i < poll_entry_count (fds s) -> ufd_fd (ent (fds s) i) = fd ->
    pe_state (ent (fds s) i) = QB_POLL_ENTRY_JOBLIST -> busy <> Some (Fd_entry i) -> pe_p (ent (fds s) i) = p.

Lemma poll_mod_spec busy s p fd events data fn env :
  inv busy s -> mod_ok busy s p fd ->
  exists s' res, qb_loop_poll_mod s p fd events data fn env = Some (s', res) /\ keeps busy s s' /\
    (nowhere (fds s) (fun e => ufd_fd e =? fd) 0 (poll_entry_count (fds s)) -> res = - EBADF /\ s' = s).
Proof.
  intros Hinv [Hp Hq]. pose proof Hinv as [Hl He Hg]. pose proof (ei_src _ _ _ He) as Hrep. unfold qb_loop_poll_mod.
  destruct (find_all_rep (fds s) (fun e => ufd_fd e =? fd) (ev_array env) Hrep) as (r & -> & Hr). cbn [mbind option_bind].
  assert (E0 : with_fds s (fds s) = s) by by destruct s. rewrite E0. destruct r as [[i a]|].
  2:{ eexists _, _. split; [done|]. split; [by apply keeps_refl|done]. }
  destruct Hr as (-> & Hi & Ht & Hbefore). fold (ent (fds s) i). set (e := ent (fds s) i).
  assert (Hno : ~ nowhere (fds s) (fun e => ufd_fd e =? fd) 0 (poll_entry_count (fds s))) by (intros Hn; specialize (Hn i Hi); cbn in Hn, Ht; congruence).
  destruct (_ || _); [eexists _, _; split; [done|]; split; [by apply keeps_refl|done]|].
  set (e1 := with_target e fn data p).
  assert (Hkeep : forall e', pe_state e' = pe_state e -> install_pos e' = install_pos e -> pe_p e' = p ->
      add_to_jobs e' = add_to_jobs e -> pe_type e' = pe_type e ->
      forall s', loop_ s' = loop_ s -> fds s' = fds s -> signals s' = signals s ->
      keeps busy s (with_fds s' (entry_set (fds s) (entry_addr i) e'))).
  { intros e' E1 E2 E3 E4 E5 s' F1 F2 F3. rewrite <- F2. apply keeps_entry.
    - by apply keeps_ext.
    - by rewrite F2.
    - intros Hlv. destruct (ei_live _ _ _ He i Hi) as [G1 G2 G3]; [fold e; unfold live in *; by rewrite <- E1|].
      fold e in G1, G3. constructor; [by rewrite E2|by rewrite E3|]. by rewrite E4, E5, E1.
    - intros q Hq'. rewrite F2. fold e. unfold wants. rewrite E1, E3. apply Z.eqb_eq in Ht. split; intros (A & B & C); (split; [done|]); (split; [|done]).
      + subst q. by apply (Hq i).
      + rewrite <- B. symmetry. by apply (Hq i).
    - intros Hb. destruct (ei_busy _ _ _ He i Hb) as [_ H]. fold e in H. unfold busy_ok in *. by rewrite E1. }
  destruct (negb _).
  - unfold _mod. cbn [fds with_fds]. destruct (entry_set_rep (fds s) i e1 Hrep Hi) as (Hrep2 & _). rewrite (sr_driver _ Hrep2).
    cbn [mbind option_bind fds emit with_fds]. eexists _, _. split; [done|]. split; [|done]. rewrite entry_set_set by done.
    match goal with |- keeps _ _ (with_fds ?m _) => apply (Hkeep (with_events e1 (i16 events)) eq_refl eq_refl eq_refl eq_refl eq_refl (with_fds m (fds s))); try done end.
  - eexists _, _. split; [done|]. split; [|done]. by apply Hkeep.
Qed.

(** ** Deleting *)

Definition of_fd (fd : Z) (e : qb_poll_entry) : bool := (ufd_fd e =? fd) && bool_decide (pe_type e = QB_LOOP_FD).

(** An entry goes to deleted, and out of its queue. *)
Lemma inv_deleted busy s i e :
  inv busy s -> 0 <= i < poll_entry_count (fds s) -> live (ent (fds s) i) -> pe_state e = QB_POLL_ENTRY_DELETED ->
  exists l', item_del (loop_ s) (pe_p (ent (fds s) i)) (Item_fd (Fd_entry (install_pos (ent (fds s) i)))) = Some l' /\
    keeps busy s (with_fds (with_loop s l') (entry_set (fds s) (entry_addr i) e)) /\
    (forall q, 0 <= q < 3 -> Fd_entry i ∉ queued l' q).
Proof.
  intros [Hl He (g & Eg & Hg)] Hi Hlv Hst. destruct (ei_live _ _ _ He i Hi Hlv) as [Hpos Hp Hk]. rewrite Hpos.
  destruct (item_del_spec (loop_ s) (Fd_entry i) (pe_p (ent (fds s) i))) as (l' & -> & Hok & Hev & Hdi & Hq & Hw); [apply Hl|apply Hl|done| |].
  { intros q Hqr Hin. apply (ei_queue _ _ _ He q i Hqr) in Hin as (_ & _ & E & _). done. }
  assert (Hnot : forall q, 0 <= q < 3 -> Fd_entry i ∉ queued l' q) by (intros q Hqr Hin; by apply Hq in Hin as [_ ?]).
  exists l'. split; [done|]. split; [|done]. split; [|done]. constructor; cbn.
  - constructor; [done|done|]. intros q Hqr. rewrite Hw by done. by apply Hl.
  - apply (entries_inv_set busy busy (loop_ s)); try done.
    + intros [E|E]; congruence.
    + intros q Hqr. unfold wants. rewrite Hst. split; [intros Hin; by apply Hnot in Hin|by intros [? _]].
    + intros q j Hqr Hne. rewrite Hq by done. split; [by intros [? _]|]. intros Hin. split; [done|]. congruence.
    + intros _. by right.
  - exists g. split; [done|]. apply (sigs_inv_loop busy (loop_ s)); [|done]. intros q c Hqr Hin. by apply Hq in Hin as [? _].
Qed.

#[export] Instance live_dec e : Decision (live e).
Proof. unfold live. apply _. Defined.

(** The result of deleting a descriptor: the first entry of it is deleted, and
    nothing is done when that one is deleted or empty. *)
Definition deletes (s : pstate) (fd : Z) (env : poll_env) (s' : pstate) (res : Z) : Prop :=
  (nowhere (fds s) (of_fd fd) 0 (poll_entry_count (fds s)) /\ res = - EBADF /\ s' = s) \/
  exists i, first_at (fds s) (of_fd fd) 0 (poll_entry_count (fds s)) i /\
    (~ live (ent (fds s) i) /\ res = 0 /\ s' = s \/
     live (ent (fds s) i) /\ res = (if ev_ctl env =? 0 then 0 else - ev_ctl env) /\ effects s' = effects s ++ [F_ctl_del fd res] /\
     fds s' = entry_set (fds s) (entry_addr i) (_poll_entry_mark_deleted_ (ent (fds s) i)) /\
     forall q, 0 <= q < 3 -> Fd_entry i ∉ queued (loop_ s') q).

Lemma with_loop_same s : with_loop s (loop_ s) = s.
Proof. by destruct s. Qed.
Lemma with_fds_same s : with_fds s (fds s) = s.
Proof. by destruct s. Qed.

(** The part of [qb_loop_poll_del] after the entry is found in use. *)
Lemma del_live busy s i :
  inv busy s -> 0 <= i < poll_entry_count (fds s) -> live (ent (fds s) i) ->
  let e := ent (fds s) i in
  exists l', (if decide (pe_state e = QB_POLL_ENTRY_JOBLIST) then item_del (loop_ s) (pe_p e) (Item_fd (Fd_entry (install_pos e)))
              else Some (loop_ s)) = Some l' /\
    keeps busy s (with_fds (with_loop s l') (entry_set (fds s) (entry_addr i) (_poll_entry_mark_deleted_ e))) /\
    (forall q, 0 <= q < 3 -> Fd_entry i ∉ queued l' q).
Proof.
  intros Hinv Hi Hlv e. destruct (inv_deleted busy s i (_poll_entry_mark_deleted_ e) Hinv Hi Hlv eq_refl) as (l' & Ed & Hk & Hnq).
  case_decide as Hst; [by exists l'|]. exists (loop_ s). split; [done|]. split.
  - rewrite with_loop_same. apply keeps_entry; [by apply keeps_refl|done|by intros [?|?]| |by right].
    intros p Hp. unfold wants. fold e. split; by intros [? _].
  - intros q Hq Hin. apply (ei_queue _ _ _ (iv_entries _ _ Hinv) q i Hq) in Hin as (_ & E & _). done.
Qed.

Lemma poll_del_spec busy s fd env :
  inv busy s ->
  exists s' res, qb_loop_poll_del s fd env = Some (s', res) /\ keeps busy s s' /\ deletes s fd env s' res.
Proof.
  intros Hinv. pose proof (ei_src _ _ _ (iv_entries _ _ Hinv)) as Hrep. unfold qb_loop_poll_del. fold (of_fd fd).
  destruct (find_all_rep (fds s) (of_fd fd) (ev_array env) Hrep) as (r & -> & Hr). cbn [mbind option_bind]. rewrite with_fds_same.
  destruct r as [[i a]|]; [|eexists _, _; split; [done|]; split; [by apply keeps_refl|by left]].
  destruct Hr as (-> & Hf). fold (ent (fds s) i). set (e := ent (fds s) i). pose proof Hf as (Hi & _ & _).
  destruct (decide (live e)) as [Hlv|Hnl].
  - destruct (del_live busy s i Hinv Hi Hlv) as (l' & El & [Hk1 Hk2] & Hnq). fold e in El.
    assert (Hres : exists s' res,
      (l ← (if decide (pe_state e = QB_POLL_ENTRY_JOBLIST) then item_del (loop_ s) (pe_p e) (Item_fd (Fd_entry (install_pos e))) else Some (loop_ s));
       '(s0, res) ← _del (with_loop s l) fd env;
       Some (with_fds s0 (entry_set (fds s0) (entry_addr i) (_poll_entry_mark_deleted_ e)), res)) = Some (s', res) /\ keeps busy s s' /\
      deletes s fd env s' res).
    { rewrite El. cbn [mbind option_bind]. unfold _del. cbn [fds with_loop]. rewrite (sr_driver _ Hrep). cbn [mbind option_bind].
      eexists _, _. split; [done|]. split; [split; [|done]; by eapply poll_inv_ext; [..|exact Hk1]|]. right. exists i. split; [done|]. right. done. }
    destruct Hlv as [Est|Est]; rewrite Est in Hres |- *; exact Hres.
  - exists s, 0. split; [|split; [by apply keeps_refl|right; exists i; split; [done|by left]]].
    destruct (pe_state e) eqn:Est; [done|by destruct Hnl; right|done|by destruct Hnl; left].
Qed.
