(* ===== verification/LoopPollCalls.v ===== *)
(** * File descriptors and signals of the main loop: signals and all the calls

    The calls on signals keep the invariant, and then every sequence of calls
    that a function of the user may make does. *)
From S2P Require Import Prelude Hdb Tlist Array ArrayTheorems Loop LoopTheorems LoopPoll LoopPollEntries LoopPollInv LoopPollOps.

(** ** Signals *)

Definition handlers (s : pstate) : list Z := match signals s with Some g => sig_head g | None => [] end.

Lemma foldl_emit {A} (e : A -> poll_effect) l : forall s,
  let s' := foldl (fun s i => emit s (e i)) s l in
  loop_ s' = loop_ s /\ fds s' = fds s /\ signals s' = signals s /\ effects s' = effects s ++ (e <$> l).
Proof.
  induction l as [|x l IH]; intros s; cbn [foldl fmap list_fmap]; [by rewrite app_nil_r|].
  destruct (IH (emit s (e x))) as (-> & -> & -> & ->). cbn. by rewrite <- app_assoc.
Qed.

(** The signals that are handled. *)
Definition handled (g : qb_signal_source) : list Z := List.filter (needed g) (seqZ 0 QB_MAX_NUM_SIGNALS).

Lemma adjust_spec s g :
  let s' := _adjust_sigactions_ s g in
  loop_ s' = loop_ s /\ fds s' = fds s /\ effects s' = effects s ++ (F_sigaction <$> handled g) /\
  signals s' = Some (with_superset g (List.filter (fun i => negb (i =? 0)) (handled g))).
Proof.
  unfold _adjust_sigactions_, handled. generalize (List.filter (needed g) (seqZ 0 QB_MAX_NUM_SIGNALS)). intros l.
  set (s1 := with_signals s _). by destruct (foldl_emit F_sigaction l s1) as (-> & -> & -> & ->).
Qed.

Lemma sigs_inv_ext busy l g g' :
  sig_head g' = sig_head g -> sigs g' = sigs g -> next_sig g' = next_sig g -> sigs_inv busy l g -> sigs_inv busy l g'.
Proof. intros E1 E2 E3 [H1 H0 H2 H3 H4]. constructor; rewrite ?E1, ?E2, ?E3; done. Qed.

Lemma keeps_sigs busy s s' g :
  inv busy s -> loop_ s' = loop_ s -> fds s' = fds s -> signals s' = Some g -> sigs_inv busy (loop_ s) g -> keeps busy s s'.
Proof.
  intros [H1 H2 H3] E1 E2 E3 Hg. split; [|rewrite E1; auto with qb]. constructor; rewrite ?E1, ?E2, ?E3; [done|done|by exists g].
Qed.

Lemma keeps_adjust busy s s' g :
  inv busy s -> loop_ s' = loop_ s -> fds s' = fds s -> sigs_inv busy (loop_ s) g -> keeps busy s (_adjust_sigactions_ s' g).
Proof.
  intros H E1 E2 Hg. destruct (adjust_spec s' g) as (F1 & F2 & _ & F3). eapply keeps_sigs; [done|by rewrite F1|by rewrite F2|exact F3|].
  by apply (sigs_inv_ext busy _ g).
Qed.

(** A new handler. *)
Lemma sigs_inv_add busy l g sig :
  sigs_inv busy l g -> 0 <= sig_p sig < 3 ->
  sigs_inv busy l (with_sig_head (fst (new_sig g sig)) (sig_head g ++ [next_sig g])).
Proof.
  intros [H1 H0 H2 H3 H4] Hp. constructor; cbn; [|lia| | |done].
  - intros h Hh. apply elem_of_app in Hh as [Hh| ->%list_elem_of_singleton]; [|exists sig; by rewrite lookup_insert_eq].
    destruct (H1 h Hh) as (x & Ex & Hx). exists x. rewrite lookup_insert_ne; [done|]. intros <-.
    specialize (H2 (next_sig g) ltac:(eauto)). lia.
  - intros a Ha. apply lookup_insert_is_Some in Ha as [<-|[_ Ha]]; [lia|]. specialize (H2 a Ha). lia.
  - intros c Hc. destruct (H3 c Hc) as [Hs Hn]. specialize (H2 c Hs). split; [apply lookup_insert_is_Some; right; split; [lia|done]|].
    rewrite elem_of_app, list_elem_of_singleton. intros [?|?]; [done|lia].
Qed.

Lemma signal_add_spec busy s p sg data fn errno :
  inv busy s -> exists s' res h, qb_loop_signal_add s p sg data fn errno = Some (s', res, h) /\ keeps busy s s'.
Proof.
  intros Hinv. unfold qb_loop_signal_add. destruct (fn =? 0); [eexists _, _, _; split; [done|by apply keeps_refl]|].
  unfold QB_LOOP_LOW, QB_LOOP_HIGH. destruct (Z.ltb_spec p 0); cbn [orb]; [eexists _, _, _; split; [done|by apply keeps_refl]|].
  destruct (Z.ltb_spec 2 p); [eexists _, _, _; split; [done|by apply keeps_refl]|].
  pose proof Hinv as [Hl He (g & Eg & Hg)]. rewrite Eg. cbn [mbind option_bind]. destruct (negb _); [eexists _, _, _; split; [done|by apply keeps_refl]|].
  match goal with |- context [new_sig g ?x] => pose proof (sigs_inv_add busy _ g x Hg ltac:(cbn; lia)) as Hg'; set (sig := x) in * end.
  cbn [new_sig] in *. eexists _, _, _. split; [done|].
  case_bool_decide; [by eapply keeps_sigs; try reflexivity|by apply keeps_adjust].
Qed.

Lemma sigs_inv_mod busy l g h sig :
  sigs_inv busy l g -> h ∈ sig_head g -> 0 <= sig_p sig < 3 -> sigs_inv busy l (with_sigs g (<[h := sig]> (sigs g))).
Proof.
  intros [H1 H0 H2 H3 H4] Hh Hp. destruct (H1 h Hh) as (x & Ex & _). constructor; cbn; try done.
  - intros h' Hh'. destruct (decide (h' = h)) as [->|]; [exists sig; by rewrite lookup_insert_eq|]. rewrite lookup_insert_ne by done. auto.
  - intros a [<-|[_ Ha]]%lookup_insert_is_Some; [apply H2; eauto|auto].
  - intros c Hc. destruct (H3 c Hc) as [Hs Hn]. split; [|done]. apply lookup_insert_is_Some. destruct (decide (h = c)); auto.
Qed.

Lemma signal_mod_spec busy s p sg data fn h :
  inv busy s -> h = 0 \/ h ∈ handlers s -> exists s' res, qb_loop_signal_mod s p sg data fn h = Some (s', res) /\ keeps busy s s'.
Proof.
  intros Hinv Hh. unfold qb_loop_signal_mod. destruct (fn =? 0); cbn [orb]; [eexists _, _; split; [done|by apply keeps_refl]|].
  destruct (Z.eqb_spec h 0); [eexists _, _; split; [done|by apply keeps_refl]|]. destruct Hh as [->|Hh]; [done|].
  unfold QB_LOOP_LOW, QB_LOOP_HIGH. destruct (Z.ltb_spec p 0); cbn [orb]; [eexists _, _; split; [done|by apply keeps_refl]|].
  destruct (Z.ltb_spec 2 p); [eexists _, _; split; [done|by apply keeps_refl]|].
  pose proof Hinv as [Hl He (g & Eg & Hg)]. unfold handlers in Hh. rewrite Eg in *. cbn [mbind option_bind].
  destruct (gi_handlers _ _ _ Hg h Hh) as (sig & Es & Hp). rewrite Es. cbn [mbind option_bind].
  match goal with |- context [<[h := ?x]> _] => pose proof (sigs_inv_mod busy _ g h x Hg Hh ltac:(cbn; lia)) as Hg' end.
  destruct (negb _); (eexists _, _; split; [done|]); [by apply keeps_adjust|by eapply keeps_sigs; try reflexivity].
Qed.

Lemma sigs_inv_del busy l g h :
  sigs_inv busy l g -> h ∈ sig_head g ->
  sigs_inv busy l (with_sigs (with_sig_head g (List.filter (fun k => negb (k =? h)) (sig_head g))) (delete h (sigs g))).
Proof.
  intros [H1 H0 H2 H3 H4] Hh.
  assert (Hf : forall k, k ∈ List.filter (fun k => negb (k =? h)) (sig_head g) -> k ∈ sig_head g /\ k <> h).
  { intros k Hk. apply list_elem_of_In, filter_In in Hk as [Hk Hb]. split; [by apply list_elem_of_In|]. intros ->. by rewrite Z.eqb_refl in Hb. }
  constructor; cbn; try done.
  - intros k Hk. destruct (Hf k Hk) as [Hk' Hne]. destruct (H1 k Hk') as (x & Ex & Hx). exists x. by rewrite lookup_delete_ne.
  - intros a [_ Ha]%lookup_delete_is_Some. auto.
  - intros c Hc. destruct (H3 c Hc) as [Hs Hn]. split; [apply lookup_delete_is_Some; split; [by intros ->|done]|].
    intros Hin. by destruct (Hf c Hin).
Qed.

(** No copy waits, so the search among the waiting items finds none. *)
Lemma no_waiting_copy busy s g h p :
  inv busy s -> 0 <= p < 3 -> List.find (is_clone_of g h) (wait_head (lv (loop_ s) p)) = None.
Proof.
  intros [Hl _ _] Hp. destruct (List.find _ _) as [i|] eqn:E; [|done]. apply find_some in E as [Hin Hc].
  destruct i as [| |[|c]]; try done. apply list_elem_of_In, elem_of_fd_items in Hin. fold (waiting (loop_ s) p) in Hin.
  rewrite (li_waiting _ Hl p Hp) in Hin. set_solver.
Qed.

(** Deleting an item that no entry is. *)
Lemma inv_drop_signal busy s c p :
  inv busy s -> 0 <= p < 3 -> Fd_signal c ∈ queued (loop_ s) p ->
  exists l', item_del (loop_ s) p (Item_fd (Fd_signal c)) = Some l' /\ keeps busy s (with_loop s l').
Proof.
  intros [Hl He (g & Eg & Hg)] Hp Hin.
  destruct (item_del_spec (loop_ s) (Fd_signal c) p) as (l' & -> & Hok & Hev & Hdi & Hq & Hw); [apply Hl|apply Hl|done| |].
  { intros q Hqr Hin'. by apply (di_apart _ (li_distinct _ Hl) q p (Fd_signal c)). }
  exists l'. split; [done|]. split; [|done]. constructor; cbn.
  - constructor; [done|done|]. intros q Hqr. rewrite Hw by done. by apply Hl.
  - apply (entries_inv_loop busy (loop_ s)); [|done]. intros q i Hqr. rewrite Hq by done. naive_solver.
  - exists g. split; [done|]. apply (sigs_inv_loop busy (loop_ s)); [|done]. intros q d Hqr Hd. by apply Hq in Hd as [? _].
Qed.

Lemma signal_del_spec busy s h :
  inv busy s -> h = 0 \/ h ∈ handlers s -> exists s' res, qb_loop_signal_del s h = Some (s', res) /\ keeps busy s s' /\
    (forall c g', busy = Some (Fd_signal c) -> signals s' = Some g' -> is_Some (sigs g' !! c)).
Proof.
  intros Hinv Hh. pose proof Hinv as [Hl He (g & Eg & Hg)]. unfold qb_loop_signal_del. destruct (Z.eqb_spec h 0).
  { eexists _, _. split; [done|]. split; [by apply keeps_refl|]. intros c g' Hb E. rewrite Eg in E. injection E as <-.
    apply (gi_copies _ _ _ Hg). by left. }
  destruct Hh as [->|Hh]; [done|]. unfold handlers in Hh. rewrite Eg in *. cbn [mbind option_bind].
  destruct (gi_handlers _ _ _ Hg h Hh) as (sig & Es & Hp). rewrite Es. cbn [mbind option_bind].
  rewrite (no_waiting_copy busy s g h) by done.
  assert (exists l', (match List.find (is_clone_of g h) (job_head (lv (loop_ s) (sig_p sig))) with
                      | Some i => item_del (loop_ s) (sig_p sig) i | None => Some (loop_ s) end) = Some l' /\ keeps busy s (with_loop s l')) as (l' & -> & Hk).
  { destruct (List.find _ _) as [i|] eqn:E; [|exists (loop_ s); rewrite with_loop_same; split; [done|by apply keeps_refl]].
    apply find_some in E as [Hin Hc]. destruct i as [| |[|c]]; try done. apply inv_drop_signal; [done|done|].
    by apply elem_of_fd_items, list_elem_of_In. }
  cbn [mbind option_bind]. pose proof Hk as [[_ _ (g' & Eg' & Hg')] _]. cbn in Eg', Hg'. rewrite Eg in Eg'. injection Eg' as <-.
  pose proof (sigs_inv_del busy l' g h Hg' Hh) as Hg2. eexists _, _. split; [done|]. split.
  - eapply keeps_trans; [exact Hk|]. apply keeps_adjust; [apply Hk|done|done|done].
  - intros c g1 Hb. destruct (adjust_spec (emit (with_loop s l') (F_signal_default (signal sig)))
      (with_sigs (with_sig_head g (List.filter (fun k => negb (k =? h)) (sig_head g))) (delete h (sigs g)))) as (_ & _ & _ & ->).
    intros [= <-]. apply (gi_copies _ _ _ Hg2). by left.
Qed.

(** ** All the calls *)

Section Calls.
Context (env : nat -> call_env) (penv : nat -> poll_env).

(** What a call must respect: levels exist, the array is not full and the
    allocator works when a descriptor is added, handles are those of handlers. *)
Definition call_ok (busy : option fd_item) (s : pstate) (c : poll_call) : Prop :=
  match c with
  | P_loop c => plain_call c
  | P_add p _ _ _ _ =>
    0 <= p < 3 /\ alloc_works (ev_array (penv (tick (loop_ s)))) /\ poll_entry_count (fds s) < QB_ARRAY_MAX_ELEMENTS
  | P_mod p fd _ _ _ => mod_ok busy s p fd
  | P_signal_mod _ _ _ _ h | P_signal_del h => h = 0 \/ h ∈ handlers s
  | P_del _ | P_low_fds _ | P_signal_add _ _ _ _ _ => True
  end.

Fixpoint calls_ok (busy : option fd_item) (s : pstate) (cs : list poll_call) : Prop :=
  match cs with
  | [] => True
  | c :: cs => call_ok busy s c /\ forall s', exec_poll_call env penv s c = Some s' -> calls_ok busy s' cs
  end.

Lemma loop_call_spec busy s c :
  inv busy s -> plain_call c -> exists l', exec_call env (loop_ s) c = Some l' /\ keeps busy s (with_loop s l').
Proof.
  intros Hinv Hc.
  assert (exists l', exec_call env (loop_ s) c = Some l' /\ same_fds (loop_ s) l') as (l' & E & Hs).
  { assert (Ht : same_fds (loop_ s) (next_tick (loop_ s))) by by apply same_fds_levels. unfold exec_call. destruct c as [p d f|p d f| | |]; try done.
    - eexists. split; [done|]. eapply same_fds_trans; [exact Ht|apply job_add_same].
    - destruct (job_del_same (next_tick (loop_ s)) p d f Hc) as (r & -> & Hr). eexists. split; [done|]. by eapply same_fds_trans.
    - eexists. split; [done|]. by apply same_fds_levels. }
  exists l'. split; [done|]. split; [by apply inv_same|]. by eapply exec_call_evolves.
Qed.

Lemma exec_poll_call_spec busy s c :
  inv busy s -> call_ok busy s c -> exists s', exec_poll_call env penv s c = Some s' /\ keeps busy s s'.
Proof.
  intros Hinv Hok. assert (Ht : keeps busy s (with_loop s (next_tick (loop_ s)))).
  { split; [apply inv_same; [by apply same_fds_levels|done]|]. by apply evolves_same. }
  pose proof Ht as [Hinv1 _]. set (s1 := with_loop s _) in *. set (pe := penv (tick (loop_ s))) in *.
  assert (Hend : forall s2, keeps busy s1 s2 -> keeps busy s s2) by (intros s2; by apply keeps_trans).
  unfold exec_poll_call. fold pe s1. destruct c as [c|p fd ev d fn|p fd ev d fn|fd|fn|p sg d fn er|p sg d fn h|h].
  - destruct (loop_call_spec busy s c Hinv Hok) as (l' & -> & Hk). cbn. eauto.
  - destruct Hok as (Hp & Ha & Hn). destruct (poll_add_spec busy s1 p fd ev d fn pe Hinv1 Hp Ha Hn) as (s2 & r & -> & Hk & _). cbn. eauto.
  - destruct (poll_mod_spec busy s1 p fd ev d fn pe Hinv1 Hok) as (s2 & r & -> & Hk & _). cbn. eauto.
  - destruct (poll_del_spec busy s1 fd pe Hinv1) as (s2 & r & -> & Hk & _). cbn. eauto.
  - eexists. split; [done|]. apply Hend. split; [|cbn; auto with qb]. destruct Hinv1 as [Hl [[D1 D2 D3] H2 H3 H4] Hg].
    by constructor; cbn; [|constructor; [constructor|..]|].
  - destruct (signal_add_spec busy s1 p sg d fn er Hinv1) as (s2 & r & h & -> & Hk). cbn. eauto.
  - destruct (signal_mod_spec busy s1 p sg d fn h Hinv1 Hok) as (s2 & r & -> & Hk). cbn. eauto.
  - destruct (signal_del_spec busy s1 h Hinv1 Hok) as (s2 & r & -> & Hk & _). cbn. eauto.
Qed.

Lemma exec_poll_calls_spec busy cs : forall s,
  inv busy s -> calls_ok busy s cs -> exists s', exec_poll_calls env penv s cs = Some s' /\ keeps busy s s'.
Proof.
  induction cs as [|c cs IH]; intros s Hinv Hok; cbn [exec_poll_calls]; [exists s; split; [done|by apply keeps_refl]|].
  destruct Hok as [Hc Hcs]. destruct (exec_poll_call_spec busy s c Hinv Hc) as (s1 & E1 & Hk1). rewrite E1. cbn [mbind option_bind].
  destruct (IH s1) as (s2 & -> & Hk2); [apply Hk1|auto|]. exists s2. split; [done|by eapply keeps_trans].
Qed.
End Calls.
