(* ===== verification/LoopPollTheorems.v ===== *)
(** * File descriptors and signals of the main loop: polling and dispatching

    A poll queues the entries whose descriptors have events and one copy of each
    handler of a signal; running an item calls its function with what was
    reported and takes the item back.  Both keep the invariant and never fail an
    [assert]. *)
From S2P Require Import Prelude Hdb Tlist Array ArrayTheorems Loop LoopTheorems LoopPoll.
From S2P Require Import LoopPollEntries LoopPollInv LoopPollOps LoopPollCalls.

(** ** Dispatching *)

(** The state in which the loop calls the dispatch function of an item: taken
    out of its queue, and the event recorded. *)
Definition taken (s : pstate) (p : Z) (x : fd_item) (rest : list qb_loop_item) : pstate :=
  with_loop s (add_event (set_lv (loop_ s) p (set_job_head (lv (loop_ s) p) rest)) (Ev_dispatch p (Item_fd x) 0 0)).

Lemma inv_taken s p x rest :
  inv None s -> 0 <= p < 3 -> job_head (lv (loop_ s) p) = Item_fd x :: rest -> inv (Some x) (taken s p x rest).
Proof.
  intros [Hl He (g & Eg & Hg)] Hp Hj. set (l' := add_event (set_lv (loop_ s) p (set_job_head (lv (loop_ s) p) rest)) (Ev_dispatch p (Item_fd x) 0 0)).
  assert (Hlv : forall q, 0 <= q < 3 -> lv l' q = if decide (q = p) then set_job_head (lv (loop_ s) p) rest else lv (loop_ s) q).
  { intros q Hq. unfold l'. change (lv (add_event ?m _) q) with (lv m q). apply lv_set; [apply Hl|lia|lia]. }
  pose proof (li_distinct _ Hl) as [Hnd Hap].
  assert (Hqp : queued (loop_ s) p = x :: fd_items rest) by (unfold queued; by rewrite Hj).
  assert (Hx : (x ∉ fd_items rest) /\ NoDup (fd_items rest)) by (specialize (Hnd p Hp); rewrite Hqp in Hnd; by apply list.NoDup_cons in Hnd).
  assert (Hq : forall q, 0 <= q < 3 -> NoDup (queued l' q) /\ forall y, y ∈ queued l' q <-> y ∈ queued (loop_ s) q /\ y <> x).
  { intros q Hq. unfold queued at 1 2. rewrite Hlv by done. case_decide as E.
    - subst q. cbn. rewrite Hqp. split; [apply Hx|]. intros y. rewrite elem_of_cons. destruct Hx as [Hx _]. split; [|naive_solver].
      intros Hy. split; [by right|]. by intros ->.
    - split; [by apply Hnd|]. intros y. split; [|naive_solver]. intros Hy. split; [done|]. intros ->. apply E. apply (Hap q p x); try done.
      rewrite Hqp. set_solver. }
  assert (Hxp : x ∈ queued (loop_ s) p) by (rewrite Hqp; set_solver).
  constructor; cbn; fold l'.
  - constructor.
    + unfold ok, l'. cbn. rewrite zlen_zset. apply Hl.
    + constructor; [intros q Hq'; by apply Hq|]. intros q q' y Hq1 Hq2 [Hy1 _]%Hq [Hy2 _]%Hq; [|done..]. by apply (Hap q q' y).
    + intros q Hq'. unfold waiting. rewrite Hlv by done. case_decide; [subst|]; cbn; by apply (li_waiting _ Hl).
  - destruct He as [H1 H2 H3 H4]. constructor; try done.
    + intros q i Hq'. destruct (Hq q Hq') as [_ ->]. rewrite H3 by done. unfold wants. naive_solver.
    + intros i [= ->]. apply (H3 p i Hp) in Hxp as (Hi & Hst & _). split; [done|by left].
  - exists g. split; [done|]. destruct Hg as [H1 H0 H2 H3 H4]. constructor; try done.
    + intros c [[= ->]|(q & Hq' & Hc)]; apply H3; right; [by exists p|]. exists q. split; [done|]. by apply Hq in Hc as [? _].
    + intros c q [= ->] Hq' Hin. by apply Hq in Hin as [_ ?].
Qed.

Section Dispatch.
Context (env : nat -> call_env) (penv : nat -> poll_env) (user : poll_callback -> list poll_call * Z).

(** The function that an item calls. *)
Definition callback_of (s : pstate) (x : fd_item) : poll_callback :=
  match x with
  | Fd_entry i => let e := ent (fds s) i in Cb_fd (poll_dispatch_fn e) (ufd_fd e) (ufd_revents e) (pe_user_data e)
  | Fd_signal c =>
    match signals s ≫= (fun g => sigs g !! c) with
    | Some sig => Cb_signal (sig_dispatch_fn sig) (signal sig) (sig_user_data sig)
    | None => Cb_signal 0 0 0
    end
  end.

Definition callback_effect (cb : poll_callback) : poll_effect :=
  match cb with
  | Cb_fd fn fd revents data => F_fd_callback fn fd revents data
  | Cb_signal fn sg data => F_sig_callback fn sg data
  end.

(** The handler a copy was made from. *)
Definition handler_of (s : pstate) (c : Z) : Z :=
  match signals s ≫= (fun g => sigs g !! c) with Some sig => cloned_from sig | None => 0 end.

(** What the user's function of an item must respect: its calls are allowed, and
    a signal's function whose handler is gone does not ask to delete it. *)
Definition user_ok (s : pstate) (x : fd_item) : Prop :=
  let '(calls, res) := user (callback_of s x) in
  let s1 := emit s (callback_effect (callback_of s x)) in
  calls_ok env penv (Some x) s1 calls /\
  forall c s2, x = Fd_signal c -> exec_poll_calls env penv s1 calls = Some s2 -> res <> 0 -> handler_of s2 c ∈ handlers s2.

Lemma inv_idle_entry s i : inv (Some (Fd_entry i)) s -> pe_state (ent (fds s) i) <> QB_POLL_ENTRY_JOBLIST -> inv None s.
Proof.
  intros [Hl [H1 H2 H3 H4] (g & Eg & Hg)] Hst. constructor; [done| |].
  - constructor; try done. intros p j Hp. rewrite H3 by done. unfold wants. split; [naive_solver|].
    intros (Hj & Hw & Hpj & _). split; [done|]. split; [done|]. split; [done|]. intros [= ->]. done.
  - exists g. split; [done|]. destruct Hg as [G1 G0 G2 G3 G4]. constructor; try done.
    intros c [?|Hc]; [done|]. apply G3. by right.
Qed.

Lemma entry_dispatch_spec s i :
  inv (Some (Fd_entry i)) s -> pe_state (ent (fds s) i) = QB_POLL_ENTRY_JOBLIST -> user_ok s (Fd_entry i) ->
  exists s', dispatch_fd_item env penv user s (Fd_entry i) = Some s' /\ inv None s' /\ evolves (loop_ s) (loop_ s').
Proof.
  intros Hinv Hst Huser. cbn [dispatch_fd_item]. unfold _poll_dispatch_and_take_back_. fold (ent (fds s) i).
  pose proof (iv_entries _ _ Hinv) as He. destruct (ei_busy _ _ _ He i eq_refl) as [Hi _].
  destruct (ei_live _ _ _ He i Hi) as [_ _ Hk]; [by right|].
  rewrite Hst, bool_decide_eq_true_2 by done. cbn [negb].
  assert (pe_type (ent (fds s) i) = QB_LOOP_FD) as Hty by (destruct Hk as [[_ ?]|(_ & _ & ?)]; done).
  rewrite Hty, bool_decide_eq_true_2 by done. cbn [negb]. unfold user_ok in Huser. cbn [callback_of] in Huser.
  destruct (user _) as [calls res]. destruct Huser as [Hcalls _]. cbn [callback_effect] in Hcalls. set (s1 := emit s _) in *.
  assert (Hinv1 : inv (Some (Fd_entry i)) s1) by by apply (poll_inv_ext _ s).
  destruct (exec_poll_calls_spec env penv _ calls s1 Hinv1 Hcalls) as (s2 & -> & Hinv2 & Hev). cbn [mbind option_bind].
  fold (ent (fds s2) i). pose proof (iv_entries _ _ Hinv2) as He2. destruct (ei_busy _ _ _ He2 i eq_refl) as [Hi2 Hb2].
  assert (Hset : forall e, pe_state e <> QB_POLL_ENTRY_JOBLIST -> (live e -> entry_ok i e) ->
    inv None (with_fds s2 (entry_set (fds s2) (entry_addr i) e))).
  { intros e Hne Hlv. destruct Hinv2 as [Hl2 _ (g & Eg & Hg)]. constructor; [done| |].
    - cbn. apply (entries_inv_set (Some (Fd_entry i)) None (loop_ s2)); try done.
      + intros p Hp. rewrite (ei_queue _ _ _ He2) by done. unfold wants. naive_solver.
      + intros j Hne'. split; [done|]. intros [= ->]. done.
    - exists g. split; [done|]. destruct Hg as [G1 G0 G2 G3 G4]. constructor; try done. intros c [?|Hc]; [done|]. apply G3. by right. }
  destruct (res <? 0).
  - eexists. split; [done|]. split; [apply Hset; [done|by intros [?|?]]|done].
  - case_bool_decide as Hdel; cbn [negb].
    + eexists. split; [done|]. split; [|done]. apply (inv_idle_entry s2 i); [done|]. by rewrite Hdel.
    + eexists. split; [done|]. split; [|done]. destruct Hb2 as [Hj|?]; [|done].
      destruct (ei_live _ _ _ He2 i Hi2) as [K1 K2 K3]; [by right|]. apply Hset; [done|]. intros _.
      constructor; [done|done|]. destruct K3 as [?|(_ & _ & ?)]; [by left|done].
Qed.

Lemma signal_dispatch_spec s c :
  inv (Some (Fd_signal c)) s -> user_ok s (Fd_signal c) ->
  exists s', dispatch_fd_item env penv user s (Fd_signal c) = Some s' /\ inv None s' /\ evolves (loop_ s) (loop_ s').
Proof.
  intros Hinv Huser. cbn [dispatch_fd_item]. unfold _signal_dispatch_and_take_back_.
  assert (Hlook : forall s, inv (Some (Fd_signal c)) s -> exists g sig, signals s = Some g /\ sigs g !! c = Some sig).
  { intros s0 [_ _ (g & Eg & Hg)]. destruct (gi_copies _ _ _ Hg c) as [[sig Es] _]; [by left|]. eauto. }
  destruct (Hlook s Hinv) as (g & sig & Eg & Es). unfold user_ok in Huser. cbn [callback_of] in Huser. rewrite Eg in *. cbn [mbind option_bind] in *.
  rewrite Es in *. cbn [mbind option_bind]. destruct (user _) as [calls res]. destruct Huser as [Hcalls Hres]. cbn [callback_effect] in *.
  set (s1 := emit s _) in *. assert (Hinv1 : inv (Some (Fd_signal c)) s1) by by apply (poll_inv_ext _ s).
  destruct (exec_poll_calls_spec env penv _ calls s1 Hinv1 Hcalls) as (s2 & E2 & Hinv2 & Hev). rewrite E2. cbn [mbind option_bind].
  destruct (Hlook s2 Hinv2) as (g2 & sig2 & Eg2 & Es2). rewrite Eg2. cbn [mbind option_bind]. rewrite Es2. cbn [mbind option_bind].
  assert (exists s3, (if negb (res =? 0) then _ ← sigs g2 !! cloned_from sig2; r ← qb_loop_signal_del s2 (cloned_from sig2); Some (fst r) else Some s2) = Some s3 /\
    inv (Some (Fd_signal c)) s3 /\ evolves (loop_ s) (loop_ s3)) as (s3 & -> & Hinv3 & Hev3).
  { destruct (Z.eqb_spec res 0) as [E0|E0]; cbn [negb]; [exists s2; done|].
    specialize (Hres c s2 eq_refl E2 E0). unfold handler_of in Hres. rewrite Eg2 in Hres. cbn [mbind option_bind] in Hres. rewrite Es2 in Hres.
    pose proof Hres as Hin. unfold handlers in Hin. rewrite Eg2 in Hin. pose proof Hinv2 as [_ _ (g' & Eg' & Hg')]. rewrite Eg2 in Eg'. injection Eg' as <-.
    destruct (gi_handlers _ _ _ Hg' _ Hin) as (h & -> & _). cbn [mbind option_bind].
    destruct (signal_del_spec _ s2 (cloned_from sig2) Hinv2 (or_intror Hres)) as (s3 & r & -> & [Hk1 Hk2] & _). cbn. exists s3.
    split; [done|]. split; [done|]. by eapply evolves_trans. }
  cbn [mbind option_bind]. destruct (Hlook s3 Hinv3) as (g3 & sig3 & Eg3 & Es3). rewrite Eg3. cbn [mbind option_bind]. rewrite Es3. cbn [mbind option_bind].
  eexists. split; [done|]. split; [|done]. destruct Hinv3 as [Hl [H1 H2 H3 H4] (g' & Eg' & Hg)]. rewrite Eg3 in Eg'. injection Eg' as <-.
  destruct Hg as [G1 G0 G2 G3 G4]. constructor; [done| |].
  - constructor; try done. intros p i Hp. cbn. rewrite H3 by done. unfold wants. naive_solver.
  - eexists. split; [done|]. constructor; cbn; try done.
    + intros h Hh. destruct (G1 h Hh) as (x & Ex & Hx). exists x. rewrite lookup_delete_ne; [done|]. intros <-. destruct (G3 c) as [_ Hn]; [by left|]. done.
    + intros a [_ Ha]%lookup_delete_is_Some. auto.
    + intros d [?|(p & Hp & Hd)]; [done|]. destruct (G3 d) as [Hs Hn]; [by right; exists p|]. split; [|done].
      apply lookup_delete_is_Some. split; [|done]. intros <-. by apply (G4 c p).
Qed.
End Dispatch.

(** ** Signals *)

(** The copies that a signal gets: the address, the handler and its data. *)
Fixpoint copies (g : qb_signal_source) (hs : list Z) (the_signal a : Z) : list (Z * Z * qb_loop_sig) :=
  match hs with
  | [] => []
  | h :: hs =>
    match sigs g !! h with
    | Some sig => if signal sig =? the_signal then (a, h, sig) :: copies g hs the_signal (a + 1) else copies g hs the_signal a
    | None => copies g hs the_signal a
    end
  end.

Definition copy_of (h : Z) (sig : qb_loop_sig) : qb_loop_sig :=
  {| sig_user_data := sig_user_data sig; signal := signal sig; sig_p := sig_p sig; sig_dispatch_fn := sig_dispatch_fn sig; cloned_from := h |}.

Definition at_level (p : Z) (cs : list (Z * Z * qb_loop_sig)) : list qb_loop_item :=
  omap (fun c => if decide (sig_p (snd c) = p) then Some (Item_fd (Fd_signal (fst (fst c)))) else None) cs.

Lemma copies_ext g g' hs sg : forall a, (forall h, h ∈ hs -> sigs g' !! h = sigs g !! h) -> copies g' hs sg a = copies g hs sg a.
Proof.
  induction hs as [|h hs IH]; intros a Hs; cbn [copies]; [done|]. rewrite Hs by set_solver.
  assert (Hs' : forall h, h ∈ hs -> sigs g' !! h = sigs g !! h) by (intros; apply Hs; set_solver).
  destruct (sigs g !! h) as [sig|]; [|auto]. rewrite !IH by done. done.
Qed.

Lemma copies_from g hs sg : forall a x, x ∈ copies g hs sg a -> a <= fst (fst x).
Proof.
  induction hs as [|h hs IH]; intros a x; cbn [copies]; [set_solver|]. destruct (sigs g !! h) as [sig|]; [|auto].
  destruct (signal sig =? sg); [|auto]. intros [->|Hx]%elem_of_cons; [cbn; lia|]. apply IH in Hx. lia.
Qed.

(** Queueing one copy. *)
Lemma inv_copy busy s g h sig :
  inv busy s -> signals s = Some g -> 0 <= sig_p sig < 3 ->
  exists l', level_add (loop_ s) (sig_p sig) (Item_fd (Fd_signal (next_sig g))) = Some l' /\
    keeps busy s (with_signals (with_loop s l') (fst (new_sig g (copy_of h sig)))) /\
    (forall q, 0 <= q < 3 -> job_head (lv l' q) = job_head (lv (loop_ s) q) ++ (if decide (q = sig_p sig) then [Item_fd (Fd_signal (next_sig g))] else [])).
Proof.
  intros [Hl He (g' & Eg & Hg)] E Hp. rewrite E in Eg. injection Eg as <-.
  destruct (level_add_spec (loop_ s) (sig_p sig) (Fd_signal (next_sig g))) as (l' & -> & Hok & Hev & Hj & Hq & Hw); [apply Hl|done|].
  destruct Hg as [H1 H0 H2 H3 H4].
  assert (Hnew : forall c, copy (loop_ s) busy c -> c <> next_sig g) by (intros c [Hc _]%H3 ->; specialize (H2 _ Hc); lia).
  assert (Hfresh : forall q, 0 <= q < 3 -> Fd_signal (next_sig g) ∉ queued (loop_ s) q).
  { intros q Hqr Hin. apply (Hnew (next_sig g)); [|done]. right. by exists q. }
  exists l'. split; [done|]. split; [|done]. split; [|done]. constructor; cbn.
  - by apply (loop_inv_add (loop_ s) l' (sig_p sig) (Fd_signal (next_sig g))); [done..| |].
  - apply (entries_inv_loop busy (loop_ s)); [|done]. intros q i Hqr. rewrite Hq, elem_of_app by done. case_decide; set_solver.
  - eexists. split; [done|]. constructor; cbn; [|lia| | |].
    + intros k Hk. destruct (H1 k Hk) as (x & Ex & Hx). exists x. rewrite lookup_insert_ne; [done|]. intros <-. specialize (H2 (next_sig g) ltac:(eauto)). lia.
    + intros a Ha. apply lookup_insert_is_Some in Ha as [<-|[_ Ha]]; [lia|]. specialize (H2 a Ha). lia.
    + assert (Hcase : forall c, copy l' busy c -> c = next_sig g \/ copy (loop_ s) busy c).
      { intros c [Hb|(q & Hqr & Hc)]; [right; by left|]. rewrite Hq in Hc by done. apply elem_of_app in Hc as [Hc|Hc]; [right; right; by exists q|].
        left. case_decide; set_solver. }
      intros c [->|Hc]%Hcase.
      * split; [rewrite lookup_insert_eq; eauto|]. intros Hin. destruct (H1 _ Hin) as (x & Ex & _). specialize (H2 (next_sig g) ltac:(eauto)). lia.
      * destruct (H3 c Hc) as [Hs Hn]. split; [|done]. apply lookup_insert_is_Some. right. split; [|done]. intros <-. by apply (Hnew (next_sig g)).
    + intros c q Hb Hqr. rewrite Hq, elem_of_app by done. intros [Hin|Hin]; [by apply (H4 c q)|]. case_decide; [|set_solver].
      apply list_elem_of_singleton in Hin. injection Hin as ->. apply (Hnew (next_sig g)); [by left|done].
Qed.

Lemma at_level_cons p x cs :
  at_level p (x :: cs) = (if decide (p = sig_p (snd x)) then [Item_fd (Fd_signal (fst (fst x)))] else []) ++ at_level p cs.
Proof. unfold at_level. cbn. destruct (decide (sig_p (snd x) = p)), (decide (p = sig_p (snd x))); subst; done. Qed.

Lemma clone_loop_spec busy sg hs : forall s g n callocs,
  inv busy s -> signals s = Some g -> (forall h, h ∈ hs -> h ∈ sig_head g) ->
  exists s' n' g', clone_loop s g hs sg n callocs = Some (s', n') /\ keeps busy s s' /\ fds s' = fds s /\ effects s' = effects s /\
    signals s' = Some g' /\ sig_head g' = sig_head g /\ (forall a, a < next_sig g -> sigs g' !! a = sigs g !! a) /\
    (Forall (fun b => b = true) callocs ->
       let cs := copies g hs sg (next_sig g) in
       n' = n + zlen cs /\
       (forall p, 0 <= p < 3 -> job_head (lv (loop_ s') p) = job_head (lv (loop_ s) p) ++ at_level p cs) /\
       (forall a h sig, (a, h, sig) ∈ cs -> sigs g' !! a = Some (copy_of h sig))).
Proof.
  induction hs as [|h hs IH]; intros s g n callocs Hinv Eg Hhs; cbn [clone_loop].
  { exists s, n, g. split; [done|]. split; [by apply keeps_refl|]. split_and!; try done. intros _. cbn [copies at_level omap list_omap]. rewrite zlen_nil, Z.add_0_r. split; [done|].
    split; [intros; by rewrite app_nil_r|set_solver]. }
  pose proof Hinv as [_ _ (g0 & Eg0 & Hg)]. rewrite Eg in Eg0. injection Eg0 as <-.
  assert (Hh : h ∈ sig_head g) by (apply Hhs; set_solver). destruct (gi_handlers _ _ _ Hg h Hh) as (sig & Es & Hp).
  assert (Hhs' : forall h, h ∈ hs -> h ∈ sig_head g) by (intros; apply Hhs; set_solver).
  cbn [copies]. rewrite Es. cbn [mbind option_bind]. destruct (signal sig =? sg); [|by apply IH].
  destruct (default true (hd_error callocs)) eqn:Eal.
  2:{ exists s, n, g. split; [done|]. split; [by apply keeps_refl|]. split_and!; try done. intros Hall. destruct callocs as [|b bs]; [done|].
      cbn in Eal. apply list.Forall_cons in Hall as [-> _]. done. }
  destruct (inv_copy busy s g h sig Hinv Eg Hp) as (l' & El & Hk & Hj). cbn [new_sig]. rewrite El. cbn [mbind option_bind].
  set (g1 := fst (new_sig g (copy_of h sig))) in *. set (s1 := with_signals (with_loop s l') g1) in *.
  destruct (IH s1 g1 (n + 1) (tl callocs)) as (s' & n' & g' & E & Hk' & Hf & Hef & Eg' & Hhd & Hold & Hfun); [apply Hk|done|done|].
  assert (Hlt : forall k, k ∈ hs -> k < next_sig g).
  { intros k Hk0. destruct (gi_handlers _ _ _ Hg k (Hhs' k Hk0)) as (x & Ex & _). specialize (gi_addr _ _ _ Hg k ltac:(eauto)). lia. }
  assert (Hcs : copies g1 hs sg (next_sig g1) = copies g hs sg (next_sig g + 1)).
  { apply copies_ext. intros k Hk0. cbn. rewrite lookup_insert_ne; [done|]. specialize (Hlt k Hk0). lia. }
  exists s', n', g'. split; [exact E|]. split; [by eapply keeps_trans|]. split; [done|]. split; [done|]. split; [done|]. split; [done|]. split.
  { intros a Ha. rewrite Hold by (cbn; lia). cbn. rewrite lookup_insert_ne; [done|lia]. }
  intros Hall. destruct Hfun as (-> & Hq & Hnew). { destruct callocs; [done|]. by apply list.Forall_cons in Hall as [_ ?]. }
  rewrite Hcs in *. split; [rewrite zlen_cons; lia|]. split.
  - intros p Hpr. rewrite Hq by done. change (loop_ s1) with l'. rewrite Hj, at_level_cons by done. cbn [snd fst]. by rewrite <- app_assoc.
  - intros a k x [[= -> -> ->]|Hin]%elem_of_cons; [|by apply Hnew]. rewrite Hold by (cbn; lia). cbn. by rewrite lookup_insert_eq.
Qed.

(** ** Events *)

Definition event_pos (data : Z) : Z := Z.land data UINT32_MAX.

(** An event carries the handle of an entry; never that of one that the system
    refused to add. *)
Definition event_ok (f : qb_poll_source) (data : Z) : Prop :=
  0 <= event_pos data < poll_entry_count f /\
  (pe_state (ent f (event_pos data)) = QB_POLL_ENTRY_EMPTY ->
     check (ent f (event_pos data)) <> u32 (Z.shiftr data 32) \/ ufd_fd (ent f (event_pos data)) = -1).

(** The event is for an entry that is in use. *)
Definition ready (f : qb_poll_source) (data : Z) : Prop :=
  check (ent f (event_pos data)) = u32 (Z.shiftr data 32) /\ ufd_fd (ent f (event_pos data)) <> -1 /\ live (ent f (event_pos data)).
#[export] Instance ready_dec f data : Decision (ready f data).
Proof. unfold ready. apply _. Defined.

(** The entry with the bits of the event, queued. *)
Definition reported (e : qb_poll_entry) (bits : Z) : qb_poll_entry :=
  with_pe_state (with_revents e (i16 (Z.lor (ufd_revents e) (_epoll_to_poll_event_ bits)))) QB_POLL_ENTRY_JOBLIST.

Lemma from_handle_rep f data env :
  src_rep f -> 0 <= event_pos data < poll_entry_count f ->
  _poll_entry_from_handle_ f data env =
    Some (f, if decide (check (ent f (event_pos data)) = u32 (Z.shiftr data 32)) then inr (entry_addr (event_pos data)) else inl (- EINVAL)).
Proof.
  intros Hf Hp. unfold _poll_entry_from_handle_. fold (event_pos data). pose proof (sr_count _ Hf). change QB_ARRAY_MAX_ELEMENTS with 65536 in *.
  rewrite i32_small, entry_index_rep by (done || lia). cbn [mbind option_bind]. fold (ent f (event_pos data)).
  case_decide as E; [by rewrite E, Z.eqb_refl|]. by apply Z.eqb_neq in E as ->.
Qed.

Lemma event_ok_set f i e data :
  src_rep f -> 0 <= i < poll_entry_count f -> pe_state e <> QB_POLL_ENTRY_EMPTY -> event_ok f data -> event_ok (entry_set f (entry_addr i) e) data.
Proof.
  intros Hf Hi Hst [H1 H2]. destruct (entry_set_rep f i e Hf Hi) as (_ & Hfr & Hent). unfold event_ok. rewrite (sf_count _ _ Hfr), Hent by lia.
  split; [done|]. case_decide; [done|auto].
Qed.

(** An event for an entry whose state is active queues it; the next one only
    adds its bits. *)
Lemma ready_entry_spec s data bits reads env :
  inv None s -> event_ok (fds s) data -> ready (fds s) data -> pe_type (ent (fds s) (event_pos data)) = QB_LOOP_FD ->
  let i := event_pos data in let e := ent (fds s) i in
  exists s', one_event s data bits reads env = Some (s', if decide (pe_state e = QB_POLL_ENTRY_JOBLIST) then 0 else 1, reads) /\ keeps None s s' /\
    effects s' = effects s /\ signals s' = signals s /\ fds s' = entry_set (fds s) (entry_addr i) (reported e bits) /\
    forall q, 0 <= q < 3 -> job_head (lv (loop_ s') q) = job_head (lv (loop_ s) q) ++
      (if decide (pe_state e = QB_POLL_ENTRY_ACTIVE /\ pe_p e = q) then [Item_fd (Fd_entry i)] else []).
Proof.
  intros Hinv [Hi _] (Hchk & Hfd & Hlv) Hty i e. change (live e) in Hlv. change (pe_type e = QB_LOOP_FD) in Hty. pose proof Hinv as [Hl He (g & Eg & Hg)]. pose proof (ei_src _ _ _ He) as Hrep.
  unfold one_event. rewrite from_handle_rep, decide_True by done. cbn [mbind option_bind]. rewrite with_fds_same.
  fold i. fold (ent (fds s) i). fold e. destruct (ei_live _ _ _ He i Hi Hlv) as [K1 K2 K3]. fold e in K1, K2, K3.
  apply Z.eqb_neq in Hfd. change ((ufd_fd e =? -1) = false) in Hfd. rewrite Hfd. cbn [orb].
  rewrite (bool_decide_eq_false_2 (pe_state e = QB_POLL_ENTRY_DELETED)) by (intros ?; destruct Hlv; congruence). cbn [pe_state with_revents].
  set (e1 := with_revents e _). case_bool_decide as Hst.
  - assert (Erep : reported e bits = e1) by (unfold reported, e1, with_pe_state, with_revents; cbn; by rewrite <- Hst).
    rewrite decide_True by done. eexists. split; [done|]. rewrite Erep. split.
    { apply keeps_entry; [by apply keeps_refl|done| |done|done]. intros _. constructor; done. }
    split_and!; try done. intros q Hq. rewrite decide_False; [by rewrite app_nil_r|]. intros [? _]. congruence.
  - assert (Hact : pe_state e = QB_POLL_ENTRY_ACTIVE) by by destruct Hlv. rewrite (decide_False (P := pe_state e = QB_POLL_ENTRY_JOBLIST)) by done.
    assert (add_to_jobs e1 = Add_poll) as -> by (cbn; destruct K3 as [[? _]|(_ & ? & _)]; [done|congruence]).
    unfold _qb_poll_add_to_jobs_. cbn [fds with_fds]. destruct (entry_set_rep (fds s) i e1 Hrep Hi) as (Hrep2 & _ & Hent2).
    fold (ent (entry_set (fds s) (entry_addr i) e1) i). rewrite Hent2, decide_True by (done || lia). cbn [pe_type e1 with_revents].
    rewrite Hty, bool_decide_eq_true_2 by done. cbn [negb loop_ with_fds]. change (pe_p e1) with (pe_p e). change (install_pos e1) with (install_pos e). rewrite K1.
    destruct (level_add_spec (loop_ s) (pe_p e) (Fd_entry i)) as (l' & -> & Hok & Hev & Hj & Hq & Hw); [apply Hl|done|]. cbn [mbind option_bind].
    rewrite entry_set_set by done. eexists. split; [done|]. cbn [loop_ fds signals effects with_fds with_loop].
    assert (Hnq : forall q, 0 <= q < 3 -> Fd_entry i ∉ queued (loop_ s) q).
    { intros q Hqr Hin. apply (ei_queue _ _ _ He q i Hqr) in Hin as (_ & E & _). done. }
    split; [split; [|done]; constructor; cbn|].
    + by apply (loop_inv_add (loop_ s) l' (pe_p e) (Fd_entry i)).
    + apply (entries_inv_set None None (loop_ s)); try done.
      * intros _. constructor; [done|done|]. left. destruct K3 as [?|(_ & ? & _)]; [done|congruence].
      * intros q Hqr. rewrite Hq, elem_of_app by done. unfold wants. cbn. split.
        -- intros [Hin|Hin]; [by apply Hnq in Hin|]. case_decide; [by subst|set_solver].
        -- intros (_ & E & _). right. rewrite decide_True by done. set_solver.
      * intros q j Hqr Hne. rewrite Hq, elem_of_app by done. split; [|by left]. intros [?|Hin]; [done|]. case_decide; set_solver.
    + exists g. split; [done|]. apply (sigs_inv_loop None (loop_ s)); [|done]. intros q c Hqr. rewrite Hq, elem_of_app by done.
      intros [?|Hin]; [done|]. case_decide; set_solver.
    + split_and!; try done. intros q Hqr. rewrite Hj by done. destruct (decide (q = pe_p e)) as [->|Hne].
      * by rewrite decide_True.
      * rewrite decide_False by naive_solver. done.
Qed.

(** An event for no entry in use: nothing but a pause. *)
Lemma stale_event_spec s data bits reads env :
  inv None s -> event_ok (fds s) data -> ~ ready (fds s) data ->
  exists s', one_event s data bits reads env = Some (s', 0, reads) /\ loop_ s' = loop_ s /\ fds s' = fds s /\ signals s' = signals s /\
    effects s' = effects s ++ (if decide (check (ent (fds s) (event_pos data)) = u32 (Z.shiftr data 32)) then [] else [F_usleep]).
Proof.
  intros Hinv [Hi Hemp] Hnr. unfold one_event. rewrite from_handle_rep by (done || apply Hinv). cbn [mbind option_bind]. rewrite with_fds_same.
  case_decide as Hchk; [|by eexists]. fold (ent (fds s) (event_pos data)). set (e := ent (fds s) (event_pos data)) in *.
  destruct (Z.eqb_spec (ufd_fd e) (-1)) as [|Hfd]; cbn [orb]; [exists s; by rewrite app_nil_r|].
  case_bool_decide as Hdel; [exists s; by rewrite app_nil_r|]. exfalso. destruct (pe_state e) eqn:Est; try done.
  - destruct Hemp as [?|?]; done.
  - apply Hnr. split; [done|]. split; [done|]. by right.
  - apply Hnr. split; [done|]. split; [done|]. by left.
Qed.

(** An event of the pipe: the copies for the signal that is read from it. *)
Lemma pipe_event_spec s data bits reads env g :
  inv None s -> event_ok (fds s) data -> ready (fds s) data -> pe_type (ent (fds s) (event_pos data)) = QB_LOOP_SIG -> signals s = Some g ->
  exists s' n, one_event s data bits reads env = Some (s', n, tl reads) /\ keeps None s s' /\ (forall d, event_ok (fds s) d -> event_ok (fds s') d) /\
    poll_entry_count (fds s') = poll_entry_count (fds s) /\
    (forall sg, default None (hd_error reads) = Some sg -> Forall (fun b => b = true) (ev_callocs env) ->
       let cs := copies g (sig_head g) sg (next_sig g) in
       n = zlen cs /\ (forall p, 0 <= p < 3 -> job_head (lv (loop_ s') p) = job_head (lv (loop_ s) p) ++ at_level p cs) /\
       exists g', signals s' = Some g' /\ forall a h sig, (a, h, sig) ∈ cs -> sigs g' !! a = Some (copy_of h sig)).
Proof.
  intros Hinv [Hi Hemp] (Hchk & Hfd & Hlv) Hty Eg. pose proof Hinv as [Hl He _]. pose proof (ei_src _ _ _ He) as Hrep. set (i := event_pos data) in *.
  unfold one_event. rewrite from_handle_rep, decide_True by done. cbn [mbind option_bind]. rewrite with_fds_same.
  fold i. fold (ent (fds s) i). set (e := ent (fds s) i) in *. destruct (ei_live _ _ _ He i Hi Hlv) as [K1 K2 K3]. fold e in K1, K2, K3.
  assert (Hact : add_to_jobs e = Add_signal /\ pe_state e = QB_POLL_ENTRY_ACTIVE).
  { destruct K3 as [[_ ?]|(? & _ & ?)]; [congruence|]. split; [done|]. by destruct Hlv. }
  destruct Hact as [Hadd Hact]. apply Z.eqb_neq in Hfd. rewrite Hfd. cbn [orb]. rewrite Hact. cbn [pe_state with_revents]. rewrite Hact. cbn [bool_decide decide_rel].
  rewrite !bool_decide_eq_false_2 by done. cbn [add_to_jobs with_revents]. rewrite Hadd. set (e1 := with_revents e _). 
  assert (Hset : forall r, keeps None s (with_fds s (entry_set (fds s) (entry_addr i) (with_revents e r)))).
  { intros r. apply keeps_entry; [by apply keeps_refl|done| |done|done]. intros _. by constructor. }
  assert (Hev : forall r d, event_ok (fds s) d -> event_ok (entry_set (fds s) (entry_addr i) (with_revents e r)) d).
  { intros r d. apply event_ok_set; [done|done|]. cbn. by rewrite Hact. }
  assert (Hct : forall r, poll_entry_count (entry_set (fds s) (entry_addr i) (with_revents e r)) = poll_entry_count (fds s)).
  { intros r. by apply (entry_set_rep (fds s) i (with_revents e r) Hrep Hi). }
  destruct (default None (hd_error reads)) as [sg|]; cbn [_qb_signal_add_to_jobs_].
  2:{ eexists _, _. split; [done|]. split; [apply Hset|]. split; [apply Hev|]. split; [apply Hct|]. done. }
  cbn [fds with_fds]. destruct (entry_set_rep (fds s) i e1 Hrep Hi) as (_ & _ & Hent2).
  fold (ent (entry_set (fds s) (entry_addr i) e1) i). rewrite Hent2, decide_True, entry_set_set by (done || lia).
  cbn [signals with_fds]. rewrite Eg. cbn [mbind option_bind]. set (s1 := with_fds _ _).
  destruct (clone_loop_spec None sg (sig_head g) s1 g 0 (ev_callocs env)) as (s' & n & g' & -> & Hk & Hf & _ & Eg' & _ & _ & Hfun); [apply (Hset 0)|done|done|].
  cbn [mbind option_bind]. eexists _, _. split; [done|]. split; [eapply keeps_trans; [apply (Hset 0)|exact Hk]|]. rewrite Hf. split; [apply (Hev 0)|]. split; [apply (Hct 0)|].
  intros sg' [= <-] Hall. destruct (Hfun Hall) as (-> & Hj & Hnew). split; [done|]. split; [done|]. by exists g'.
Qed.
