(* ===== verification/LoopPollRun.v ===== *)
(** * File descriptors and signals of the main loop: whole runs

    What one poll does to the queues, and that any sequence of calls, polls and
    dispatches after the creation of the sources keeps the invariant. *)
From S2P Require Import Prelude Hdb Tlist Array ArrayTheorems Loop LoopTheorems LoopPoll.
From S2P Require Import LoopPollEntries LoopPollInv LoopPollOps LoopPollCalls LoopPollTheorems.

(** ** One poll *)

Lemma event_loop_safe env evs : forall s n reads,
  inv None s -> Forall (fun ev => event_ok (fds s) (fst ev)) evs ->
  exists s' n', event_loop s evs n reads env = Some (s', n') /\ keeps None s s'.
Proof.
  induction evs as [|[data bits] evs IH]; intros s n reads Hinv Hevs; cbn [event_loop]; [exists s, n; split; [done|by apply keeps_refl]|].
  apply list.Forall_cons in Hevs as [Hev Hevs]. cbn in Hev. pose proof Hinv as [_ He (g & Eg & _)].
  assert (exists s1 n1 r1, one_event s data bits reads env = Some (s1, n1, r1) /\ keeps None s s1 /\ forall d, event_ok (fds s) d -> event_ok (fds s1) d)
    as (s1 & n1 & r1 & -> & Hk & Hok).
  { destruct (decide (ready (fds s) data)) as [Hr|Hr].
    - destruct Hev as [Hi Hemp]. pose proof Hr as (_ & _ & Hlv). destruct (ei_live _ _ _ He _ Hi Hlv) as [_ _ K3].
      destruct K3 as [[_ Hty]|(_ & Hty & _)].
      + destruct (ready_entry_spec s data bits reads env Hinv (conj Hi Hemp) Hr Hty) as (s1 & -> & Hk & _ & _ & Hf & _). eexists _, _, _.
        split; [done|]. split; [done|]. intros d. rewrite Hf. apply event_ok_set; [apply He|done|done].
      + destruct (pipe_event_spec s data bits reads env g Hinv (conj Hi Hemp) Hr Hty Eg) as (s1 & n1 & -> & Hk & Hok & _). by eexists _, _, _.
    - destruct (stale_event_spec s data bits reads env Hinv Hev Hr) as (s1 & -> & E1 & E2 & E3 & _). eexists _, _, _. split; [done|].
      split; [by apply keeps_ext|]. by rewrite E2. }
  cbn [mbind option_bind]. destruct (IH s1 (i32 (n + n1)) r1) as (s' & n' & -> & Hk'); [apply Hk|by eapply list.Forall_impl; [exact Hevs|cbn; auto]|].
  exists s', n'. split; [done|by eapply keeps_trans].
Qed.

(** The system answers, and the events it reports are of this source. *)
Definition poll_ok (s : pstate) (env : poll_env) : Prop :=
  match wait_loop (ev_wait env) with
  | Some (inr evs) => Forall (fun ev => event_ok (fds s) (fst ev)) evs
  | Some (inl _) => True
  | None => False
  end.

Lemma event_ok_swept f f' data :
  poll_entry_count f' = poll_entry_count f ->
  (forall j, 0 <= j < poll_entry_count f -> ent f' j = swept_entry (ent f j) \/ ent f' j = ent f j) -> event_ok f data -> event_ok f' data.
Proof.
  intros Hc Hs [H1 H2]. unfold event_ok. rewrite Hc. split; [done|]. destruct (Hs _ H1) as [-> | ->]; [|done].
  unfold swept_entry. case_decide; [by right|done].
Qed.

Lemma poll_safe s env :
  inv None s -> poll_ok s env -> exists s' n, _poll_and_add_to_jobs_ s env = Some (s', n) /\ keeps None s s'.
Proof.
  intros Hinv Hok. unfold _poll_and_add_to_jobs_. rewrite (sr_driver _ (ei_src _ _ _ (iv_entries _ _ Hinv))). cbn [negb].
  destruct (usage_check_spec s env Hinv) as (s1 & -> & Hinv1 & E1 & E2 & Hc & Hsw). cbn [mbind option_bind]. unfold poll_ok in Hok.
  destruct (wait_loop (ev_wait env)) as [[e|evs]|]; [| |done]; cbn [mbind option_bind].
  - eexists _, _. split; [done|]. split; [done|]. rewrite E1. auto with qb.
  - destruct (event_loop_safe env evs s1 0 (ev_reads env)) as (s' & n & -> & [Hi Hev]); [done| |].
    + eapply list.Forall_impl; [exact Hok|]. intros ev. apply event_ok_swept; [done|]. intros j Hj. rewrite Hsw by done. destruct (socks_limit_get _ _); auto.
    + eexists _, _. split; [done|]. split; [done|]. by rewrite <- E1.
Qed.

(** *** The queues after a poll *)

(** The event queues the entry on level [q]. *)
Definition fires (f : qb_poll_source) (q : Z) (ev : Z * Z) : Prop :=
  ready f (fst ev) /\ pe_state (ent f (event_pos (fst ev))) = QB_POLL_ENTRY_ACTIVE /\ pe_p (ent f (event_pos (fst ev))) = q.
#[export] Instance fires_dec f q ev : Decision (fires f q ev).
Proof. unfold fires. apply _. Defined.

Definition entry_item (ev : Z * Z) : qb_loop_item := Item_fd (Fd_entry (event_pos (fst ev))).

(** The items of the events that queue an entry on the level, in order. *)
Definition fired (f : qb_poll_source) (q : Z) (evs : list (Z * Z)) : list qb_loop_item :=
  omap (fun ev => if decide (fires f q ev) then Some (entry_item ev) else None) evs.

(** The number of entries that the events queue. *)
Definition queues_one (f : qb_poll_source) (ev : Z * Z) : bool :=
  bool_decide (ready f (fst ev) /\ pe_state (ent f (event_pos (fst ev))) = QB_POLL_ENTRY_ACTIVE).
Definition jobs_of (f : qb_poll_source) (evs : list (Z * Z)) : Z := zlen (List.filter (queues_one f) evs).

Lemma fired_cons f q ev evs : fired f q (ev :: evs) = (if decide (fires f q ev) then [entry_item ev] else []) ++ fired f q evs.
Proof. unfold fired. cbn. by destruct (decide (fires f q ev)). Qed.

Lemma jobs_cons f ev evs : jobs_of f (ev :: evs) = (if queues_one f ev then 1 else 0) + jobs_of f evs.
Proof. unfold jobs_of. cbn [List.filter]. destruct (queues_one f ev); [by rewrite zlen_cons|lia]. Qed.

(** Only the entries of the events matter. *)
Definition agree (f f' : qb_poll_source) (evs : list (Z * Z)) : Prop :=
  forall ev, ev ∈ evs -> ent f' (event_pos (fst ev)) = ent f (event_pos (fst ev)).

Lemma agree_ext f f' evs : agree f f' evs -> (forall q, fired f' q evs = fired f q evs) /\ jobs_of f' evs = jobs_of f evs.
Proof.
  induction evs as [|ev evs IH]; intros Ha; [done|].
  assert (E : ent f' (event_pos (fst ev)) = ent f (event_pos (fst ev))) by (apply Ha; set_solver).
  destruct IH as [IH1 IH2]; [intros x Hx; apply Ha; set_solver|]. split.
  - intros q. rewrite !fired_cons, IH1. f_equal.
    destruct (decide (fires f' q ev)) as [H1|H1], (decide (fires f q ev)) as [H2|H2]; unfold fires, ready in *; rewrite E in *; tauto.
  - rewrite !jobs_cons, IH2. replace (queues_one f' ev) with (queues_one f ev); [done|].
    unfold queues_one. apply bool_decide_ext. unfold ready. by rewrite E.
Qed.

Lemma agree_ready f f' evs ev : agree f f' evs -> ev ∈ evs -> ready f' (fst ev) <-> ready f (fst ev).
Proof. intros Ha Hev. unfold ready. by rewrite (Ha ev Hev). Qed.

(** The events are of descriptors, at most one for each. *)
Record fd_events (f : qb_poll_source) (evs : list (Z * Z)) : Prop := {
  fe_ok : forall ev, ev ∈ evs -> event_ok f (fst ev);
  fe_once : NoDup ((fun ev => event_pos (fst ev)) <$> evs);
  fe_type : forall ev, ev ∈ evs -> ready f (fst ev) -> pe_type (ent f (event_pos (fst ev))) = QB_LOOP_FD;
}.

Lemma fd_events_tail f f' ev evs :
  fd_events f (ev :: evs) -> poll_entry_count f' = poll_entry_count f ->
  (forall j, 0 <= j < poll_entry_count f -> j <> event_pos (fst ev) -> ent f' j = ent f j) -> agree f f' evs /\ fd_events f' evs.
Proof.
  intros [H1 H2 H3] Hc He. cbn in H2. apply list.NoDup_cons in H2 as [Hn Hnd].
  assert (Ha : agree f f' evs).
  { intros x Hx. apply He; [apply H1; set_solver|]. intros E. apply Hn. rewrite <- E. apply list_elem_of_fmap. by exists x. }
  split; [done|]. constructor; [|done|].
  - intros x Hx. destruct (H1 x) as [G1 G2]; [set_solver|]. split; [by rewrite Hc|]. rewrite (Ha x Hx). done.
  - intros x Hx Hr. rewrite (Ha x Hx). apply H3; [set_solver|]. by apply (agree_ready f f' evs).
Qed.

Lemma event_loop_spec env evs : forall s n reads,
  inv None s -> fd_events (fds s) evs -> 0 <= n -> n + zlen evs < 2 ^ 31 ->
  exists s', event_loop s evs n reads env = Some (s', n + jobs_of (fds s) evs) /\ keeps None s s' /\
    (forall q, 0 <= q < 3 -> job_head (lv (loop_ s') q) = job_head (lv (loop_ s) q) ++ fired (fds s) q evs) /\
    (forall ev, ev ∈ evs -> ready (fds s) (fst ev) ->
       ent (fds s') (event_pos (fst ev)) = reported (ent (fds s) (event_pos (fst ev))) (snd ev)) /\
    (forall j, 0 <= j -> (forall ev, ev ∈ evs -> ready (fds s) (fst ev) -> event_pos (fst ev) <> j) -> ent (fds s') j = ent (fds s) j).
Proof.
  induction evs as [|[data bits] evs IH]; intros s n reads Hinv Hevs Hn Hlt; cbn [event_loop].
  { exists s. unfold jobs_of, fired. cbn. rewrite Z.add_0_r. split; [done|]. split; [by apply keeps_refl|].
    split; [intros; by rewrite app_nil_r|]. split; [set_solver|done]. }
  rewrite zlen_cons in Hlt. pose proof (zlen_nonneg evs) as Hnn. pose proof Hinv as [_ He _]. pose proof (ei_src _ _ _ He) as Hrep.
  assert (Hev : event_ok (fds s) data) by (apply (fe_ok _ _ Hevs (data, bits)); set_solver). pose proof Hev as [Hi _].
  assert (exists s1, one_event s data bits reads env = Some (s1, (if queues_one (fds s) (data, bits) then 1 else 0), reads) /\ keeps None s s1 /\
      poll_entry_count (fds s1) = poll_entry_count (fds s) /\
      (forall q, 0 <= q < 3 -> job_head (lv (loop_ s1) q) = job_head (lv (loop_ s) q) ++ (if decide (fires (fds s) q (data, bits)) then [entry_item (data, bits)] else [])) /\
      (forall j, 0 <= j -> ent (fds s1) j = if decide (j = event_pos data /\ ready (fds s) data) then reported (ent (fds s) j) bits else ent (fds s) j))
    as (s1 & -> & Hk & Hc & Hq & He1).
  { destruct (decide (ready (fds s) data)) as [Hr|Hr].
    - assert (Hty : pe_type (ent (fds s) (event_pos data)) = QB_LOOP_FD) by (apply (fe_type _ _ Hevs (data, bits)); [set_solver|done]).
      destruct (ready_entry_spec s data bits reads env Hinv Hev Hr Hty) as (s1 & E1 & Hk & _ & _ & Hf & Hj).
      destruct (entry_set_rep (fds s) (event_pos data) (reported (ent (fds s) (event_pos data)) bits) Hrep Hi) as (_ & Hfr & Hent).
      exists s1. split; [|split; [done|]; split; [rewrite Hf; apply Hfr|]; split].
      + rewrite E1. do 3 f_equal. unfold queues_one. cbn [fst]. pose proof Hr as (_ & _ & Hlv). case_decide as Hst.
        * rewrite bool_decide_eq_false_2; [done|]. intros [_ ?]. congruence.
        * rewrite bool_decide_eq_true_2; [done|]. split; [done|]. by destruct Hlv.
      + intros q Hqr. rewrite Hj by done. f_equal. clear E1.
        destruct (decide (fires (fds s) q (data, bits))) as [H1|H1]; unfold fires in H1; cbn [fst] in H1.
        * rewrite decide_True by tauto. done.
        * rewrite decide_False by tauto. done.
      + intros j Hj0. rewrite Hf, Hent by done. clear E1. destruct (decide (j = event_pos data)) as [->|Hne].
        * by rewrite decide_True by tauto.
        * by rewrite decide_False by tauto.
    - destruct (stale_event_spec s data bits reads env Hinv Hev Hr) as (s1 & E1 & F1 & F2 & F3 & _). exists s1. rewrite E1, F1, F2. split.
      + unfold queues_one. cbn [fst]. by rewrite bool_decide_eq_false_2 by tauto.
      + split; [by apply keeps_ext|]. split; [done|]. split.
        * intros q _. rewrite decide_False by (unfold fires; cbn [fst]; tauto). by rewrite app_nil_r.
        * intros j _. by rewrite decide_False by tauto. }
  cbn [mbind option_bind]. destruct (fd_events_tail (fds s) (fds s1) (data, bits) evs Hevs Hc) as [Ha Hevs1].
  { intros j Hj Hne. rewrite He1 by lia. by rewrite decide_False by tauto. }
  set (b := if queues_one _ _ then 1 else 0). assert (Hb : 0 <= b <= 1) by (unfold b; destruct (queues_one _ _); lia).
  rewrite i32_small by lia. destruct (IH s1 (n + b) reads) as (s' & -> & Hk' & Hq' & Hr' & Ho'); [apply Hk|done|lia|lia|].
  destruct (agree_ext _ _ _ Ha) as [Ea Ej]. rewrite Ej in *. exists s'. split; [rewrite jobs_cons; fold b; do 2 f_equal; lia|].
  split; [by eapply keeps_trans|]. split; [intros q Hqr; by rewrite Hq', Hq, Ea, fired_cons, app_assoc by done|].
  pose proof (fe_once _ _ Hevs) as Hnd. cbn in Hnd. apply list.NoDup_cons in Hnd as [Hfresh _].
  assert (Hne : forall ev, ev ∈ evs -> event_pos (fst ev) <> event_pos data).
  { intros ev Hin E. apply Hfresh. rewrite <- E. apply list_elem_of_fmap. by exists ev. }
  split.
  - intros ev [->|Hin]%elem_of_cons Hr.
    + cbn [fst snd] in *. rewrite Ho'; [rewrite He1 by lia; by rewrite decide_True|lia|]. intros x Hx _. auto.
    + rewrite Hr' by (try done; by apply (agree_ready _ _ _ _ Ha)). by rewrite (Ha ev Hin).
  - intros j Hj Hall. rewrite Ho'; [|done|].
    + rewrite He1 by done. rewrite decide_False; [done|]. intros [-> Hr]. by apply (Hall (data, bits)); [set_solver| |].
    + intros ev Hin Hr. apply Hall; [set_solver|]. by apply (agree_ready _ _ _ _ Ha).
Qed.

(** ** Runs *)

(** What can happen: a call from outside a callback, a poll, the waiting jobs put
    into the queues, and one item of a level run the way [qb_loop_run_level]
    does. *)
Inductive poll_op :=
  | Op_call (c : poll_call)
  | Op_poll (e : poll_env)
  | Op_more_jobs
  | Op_run (p : Z).

Section Runs.
Context (env : nat -> call_env) (penv : nat -> poll_env) (user : poll_callback -> list poll_call * Z) (job_user : Z -> Z -> list poll_call).

Definition taken_job (s : pstate) (p addr fn data : Z) (rest : list qb_loop_item) : pstate :=
  with_loop s (add_event (set_lv (loop_ s) p (set_job_head (lv (loop_ s) p) rest)) (Ev_dispatch p (Item_job addr fn data) fn data)).

(** [level->todo--]. *)
Definition count_down (s : pstate) (p : Z) : pstate :=
  with_loop s (set_lv (loop_ s) p (set_todo (lv (loop_ s) p) (i32 (todo (lv (loop_ s) p) - 1)))).

Definition run_op (s : pstate) (o : poll_op) : option pstate :=
  match o with
  | Op_call c => exec_poll_call env penv s c
  | Op_poll e => r ← _poll_and_add_to_jobs_ s e; Some (fst r)
  | Op_more_jobs => Some (with_loop s (fst (get_more_jobs (loop_ s))))
  | Op_run p =>
    match job_head (lv (loop_ s) p) with
    | [] => Some s
    | Item_fd x :: rest => s ← dispatch_fd_item env penv user (taken s p x rest) x; Some (count_down s p)
    | Item_job a fn d :: rest => s ← exec_poll_calls env penv (taken_job s p a fn d rest) (job_user fn d); Some (count_down s p)
    | Item_timer _ :: _ => None
    end
  end.

Definition op_ok (s : pstate) (o : poll_op) : Prop :=
  match o with
  | Op_call c => call_ok penv None s c
  | Op_poll e => poll_ok s e
  | Op_more_jobs => True
  | Op_run p =>
    0 <= p < 3 /\
    match job_head (lv (loop_ s) p) with
    | [] => True
    | Item_fd x :: rest => user_ok env penv user (taken s p x rest) x
    | Item_job a fn d :: rest => calls_ok env penv None (taken_job s p a fn d rest) (job_user fn d)
    | Item_timer _ :: _ => False
    end
  end.

Fixpoint run_ops (s : pstate) (os : list poll_op) : option pstate :=
  match os with
  | [] => Some s
  | o :: os => s ← run_op s o; run_ops s os
  end.

Fixpoint ops_ok (s : pstate) (os : list poll_op) : Prop :=
  match os with
  | [] => True
  | o :: os => op_ok s o /\ forall s', run_op s o = Some s' -> ops_ok s' os
  end.

(** The count of each level is the length of its queue. *)
Definition counted (s : pstate) : Prop := acct (fun _ => 0) (loop_ s).

(** Taking the first item of a level, running it and counting down. *)
Lemma counted_run l p job rest ev l1 :
  ok l -> 0 <= p < 3 -> job_head (lv l p) = job :: rest -> acct (fun _ => 0) l ->
  evolves (add_event (set_lv l p (set_job_head (lv l p) rest)) ev) l1 ->
  acct (fun _ => 0) (set_lv l1 p (set_todo (lv l1 p) (i32 (todo (lv l1 p) - 1)))).
Proof.
  intros Hok Hp Hj Ha Hev. set (l0 := add_event _ ev) in *.
  assert (Hok0 : ok l0) by (unfold ok, l0; cbn; by rewrite zlen_zset).
  assert (Ha0 : acct (fun q => if decide (q = p) then 1 else 0) l0).
  { intros q Hq. unfold l0. change (lv (add_event ?m _) q) with (lv m q). rewrite lv_set by (done || lia). specialize (Ha q Hq).
    case_decide; [|done]. subst q. cbn. rewrite Ha, Hj, zlen_cons. f_equal. lia. }
  destruct (Hev Hok0) as (Hok1 & _ & Hacct & _). specialize (Hacct _ Ha0). intros q Hq. rewrite lv_set by (done || lia). specialize (Hacct q Hq).
  revert Hacct. cbn beta. destruct (decide (q = p)) as [->|]; intros Hacct; [|done]. cbn. rewrite Hacct, <- Z.add_opp_r, i32_add. f_equal. lia.
Qed.

Lemma count_down_inv s p : inv None s -> 0 <= p < 3 -> inv None (count_down s p).
Proof. intros Hinv Hp. apply inv_same; [|done]. by apply same_fds_set. Qed.

Lemma more_jobs_same l n p : waiting l p = [] -> 0 <= p < 3 -> same_fds l (fst (more_jobs_level l n p)).
Proof.
  intros Hw Hp. unfold more_jobs_level. destruct (wait_head (lv l p)) as [|w ws] eqn:E; [by apply same_fds_levels|].
  unfold waiting in Hw. rewrite E in Hw. apply same_fds_set; [done| |].
  - cbn [job_head set_queues]. by rewrite fd_items_app, Hw, app_nil_r.
  - unfold waiting. by rewrite E, Hw.
Qed.

Lemma get_more_jobs_same l : loop_inv l -> same_fds l (fst (get_more_jobs l)).
Proof.
  intros Hl. unfold get_more_jobs. pose proof (more_jobs_same l 0 QB_LOOP_LOW (li_waiting _ Hl 0 ltac:(lia)) ltac:(done)) as H1.
  pose proof (loop_inv_same _ _ H1 Hl) as Hl1. destruct (more_jobs_level l 0 QB_LOOP_LOW) as [l1 n1]. cbn [fst] in *.
  pose proof (more_jobs_same l1 n1 QB_LOOP_MED (li_waiting _ Hl1 1 ltac:(lia)) ltac:(done)) as H2. pose proof (loop_inv_same _ _ H2 Hl1) as Hl2.
  destruct (more_jobs_level l1 n1 QB_LOOP_MED) as [l2 n2]. cbn [fst] in *.
  eapply same_fds_trans; [exact H1|]. eapply same_fds_trans; [exact H2|]. apply more_jobs_same; [|done]. by apply (li_waiting _ Hl2).
Qed.

Lemma inv_taken_job s p a fn d rest :
  inv None s -> 0 <= p < 3 -> job_head (lv (loop_ s) p) = Item_job a fn d :: rest -> inv None (taken_job s p a fn d rest).
Proof.
  intros Hinv Hp Hj. apply inv_same; [|done].
  apply (same_fds_trans _ (set_lv (loop_ s) p (set_job_head (lv (loop_ s) p) rest))); [|by apply same_fds_levels].
  apply same_fds_set; [done| |done]. cbn. unfold queued. by rewrite Hj.
Qed.

Lemma run_op_safe s o :
  inv None s -> counted s -> op_ok s o -> exists s', run_op s o = Some s' /\ inv None s' /\ counted s'.
Proof.
  intros Hinv Hc Hok. pose proof (li_ok _ (iv_loop _ _ Hinv)) as Hlok.
  assert (Hkeep : forall s', keeps None s s' -> inv None s' /\ counted s').
  { intros s' [H1 H2]. split; [done|]. by apply (H2 Hlok). }
  destruct o as [c|e| |p]; cbn [run_op op_ok] in *.
  - destruct (exec_poll_call_spec env penv None s c Hinv Hok) as (s' & -> & Hk). eauto.
  - destruct (poll_safe s e Hinv Hok) as (s' & n & -> & Hk). cbn. eauto.
  - eexists. split; [done|]. apply Hkeep. split; [apply inv_same; [|done]; apply get_more_jobs_same, Hinv|]. apply get_more_jobs_evolves.
  - destruct Hok as [Hp Hrun]. destruct (job_head (lv (loop_ s) p)) as [|[a fn d|pos|x] rest] eqn:Hj; [eauto| |done|].
    + pose proof (inv_taken_job s p a fn d rest Hinv Hp Hj) as Hinv1.
      destruct (exec_poll_calls_spec env penv None _ _ Hinv1 Hrun) as (s2 & -> & Hinv2 & Hev). cbn [mbind option_bind]. eexists. split; [done|].
      split; [by apply count_down_inv|]. by apply (counted_run (loop_ s) p (Item_job a fn d) rest (Ev_dispatch p (Item_job a fn d) fn d)).
    + pose proof (inv_taken s p x rest Hinv Hp Hj) as Hinv1.
      assert (exists s2, dispatch_fd_item env penv user (taken s p x rest) x = Some s2 /\ inv None s2 /\ evolves (loop_ (taken s p x rest)) (loop_ s2)) as (s2 & -> & Hinv2 & Hev).
      { destruct x as [i|c]; [|by apply signal_dispatch_spec]. apply entry_dispatch_spec; [done| |done].
        assert (Hin : Fd_entry i ∈ queued (loop_ s) p) by (unfold queued; rewrite Hj; set_solver).
        by apply (ei_queue _ _ _ (iv_entries _ _ Hinv) p i Hp) in Hin as (_ & ? & _). }
      cbn [mbind option_bind]. eexists. split; [done|]. split; [by apply count_down_inv|].
      by apply (counted_run (loop_ s) p (Item_fd x) rest (Ev_dispatch p (Item_fd x) 0 0)).
Qed.

Lemma run_ops_safe os : forall s,
  inv None s -> counted s -> ops_ok s os -> exists s', run_ops s os = Some s' /\ inv None s' /\ counted s'.
Proof.
  induction os as [|o os IH]; intros s Hinv Hc Hok; cbn [run_ops]; [eauto|]. destruct Hok as [Ho Hos].
  destruct (run_op_safe s o Hinv Hc Ho) as (s1 & E & Hinv1 & Hc1). rewrite E. cbn [mbind option_bind]. apply IH; auto.
Qed.
End Runs.

(** ** Creation *)

(** The state of the sources that [qb_loop_create] leaves: the loop and its
    descriptor source, then the signal source with its pipe. *)
Definition created (s : pstate) : Prop :=
  exists ts l f aenv fd env limit,
    qb_loop_create true (Some ts) = Some l /\ qb_loop_poll_create true true aenv fd 0 = Some f /\ realloc_ok aenv = true /\ 0 <= fd /\
    alloc_works (ev_array env) /\
    qb_loop_signals_create {| loop_ := l; fds := f; signals := None; pipe_fds := (-1, -1); socks_limit := limit; effects := [] |} true env = Some (s, 0) /\
    is_Some (signals s).

Lemma new_loop_queues ts l :
  qb_loop_create true (Some ts) = Some l ->
  ok l /\ acct (fun _ => 0) l /\ (forall p, 0 <= p < 3 -> queued l p = []) /\ (forall p, 0 <= p < 3 -> waiting l p = []).
Proof.
  intros [= <-]. split; [done|]. split; [|split]; intros p Hp; assert (p = 0 \/ p = 1 \/ p = 2) as [->|[->| ->]] by lia; done.
Qed.

Lemma new_source aenv fd f l :
  qb_loop_poll_create true true aenv fd 0 = Some f -> realloc_ok aenv = true -> 0 <= fd -> (forall p, 0 <= p < 3 -> queued l p = []) ->
  entries_inv None l f /\ poll_entry_count f = 0.
Proof.
  intros E Hr Hfd Hq. unfold qb_loop_poll_create, qb_epoll_init in E. destruct (Z.ltb_spec fd 0); [lia|].
  assert (exists a : qb_array qb_poll_entry, qb_array_create_2 16 sizeof_poll_entry 16 true aenv = inr a) as [a Ea].
  { unfold qb_array_create_2, _grow_bin_array. rewrite Hr. cbn. eauto. }
  rewrite Ea in E. injection E as <-. destruct (create_ok (E := qb_poll_entry) 16 sizeof_poll_entry 16 aenv a ltac:(lia) Ea) as (Hwf & Hm & _ & _).
  split; [|done]. constructor; cbn.
  - constructor; [done|cbn; change QB_ARRAY_MAX_ELEMENTS with 65536; lia|]. exists a. split; [done|]. split; [done|]. cbn. split; [lia|]. intros; lia.
  - intros; lia.
  - intros p i Hp. rewrite Hq by done. split; [set_solver|]. intros [? _]; lia.
  - done.
Qed.

Lemma created_inv s : created s -> inv None s /\ counted s.
Proof.
  intros (ts & l & f & aenv & fd & env & limit & El & Ef & Hr & Hfd & Hal & Es & [g Eg]).
  destruct (new_loop_queues ts l El) as (Hok & Ha & Hq & Hw). destruct (new_source aenv fd f l Ef Hr Hfd Hq) as [He Hc].
  assert (Hl : loop_inv l).
  { constructor; [done| |done]. constructor; intros p; [intros Hp; rewrite Hq by done; apply NoDup_nil_2|].
    intros q x Hp Hq'. rewrite (Hq p Hp). set_solver. }
  unfold qb_loop_signals_create in Es. cbn [negb pipe_fds fst snd Z.ltb Z.compare] in Es. destruct (ev_pipe env) as [e|[r w]].
  { injection Es as <- _. done. }
  match type of Es with context [_poll_add_ ?m _ _ _ _ _] => set (s0 := m) in * end.
  destruct (poll_add_entry None s0 QB_LOOP_HIGH r POLLIN 0 env) as (s1 & res & pos & E1 & Hres & F1 & F2 & _ & _ & Hyes); [done|done|done| |].
  { cbn. rewrite Hc. done. }
  rewrite E1 in Es. cbn [mbind option_bind] in Es. destruct (Z.eqb_spec res 0) as [E0|E0].
  - injection Es as <-. cbn in Eg. injection Eg as <-. split; [|unfold counted; cbn; by rewrite F1]. constructor; cbn; rewrite ?F1; [done| |].
    + apply (Hyes E0). by right.
    + eexists. split; [done|]. constructor; cbn; [set_solver|done| | |done].
      * intros a [x Hx]. by rewrite lookup_empty in Hx.
      * intros c [?|(p & Hp & Hin)]; [done|]. change (loop_ s0) with l in Hin. rewrite Hq in Hin by done. set_solver.
  - injection Es as <- _. cbn in Eg. rewrite F2 in Eg. done.
Qed.

(** ** The queues after a whole poll *)

(** The entries the usage check leaves: those in use are as they were. *)
Definition swept_source (f f' : qb_poll_source) : Prop :=
  poll_entry_count f' = poll_entry_count f /\
  forall j, 0 <= j < poll_entry_count f -> ent f' j = swept_entry (ent f j) \/ ent f' j = ent f j.

Lemma swept_live f f' j :
  swept_source f f' -> 0 <= j < poll_entry_count f -> live (ent f j) \/ live (ent f' j) -> ent f' j = ent f j.
Proof.
  intros [_ Hsw] Hj Hl. destruct (Hsw j Hj) as [E|E]; [|done]. revert Hl. rewrite E. unfold swept_entry. case_decide as Hd; [|done].
  unfold live. rewrite Hd. cbn. naive_solver.
Qed.

Lemma swept_ready f f' data :
  swept_source f f' -> event_ok f data ->
  (ready f' data <-> ready f data) /\ (ready f data -> ent f' (event_pos data) = ent f (event_pos data)).
Proof.
  intros Hsw [Hi _]. split; [|intros (_ & _ & Hl); eapply swept_live; eauto].
  split; intros Hr; pose proof Hr as (_ & _ & Hl); unfold ready in *.
  - by rewrite (swept_live f f' _ Hsw Hi) in Hr by auto.
  - by rewrite (swept_live f f' _ Hsw Hi) by auto.
Qed.

Lemma swept_fired f f' evs :
  swept_source f f' -> (forall ev, ev ∈ evs -> event_ok f (fst ev)) ->
  (forall q, fired f' q evs = fired f q evs) /\ jobs_of f' evs = jobs_of f evs.
Proof.
  intros Hsw. induction evs as [|ev evs IH]; intros Hok; [done|]. destruct IH as [IH1 IH2]; [intros; apply Hok; set_solver|].
  destruct (swept_ready f f' (fst ev) Hsw) as [Hr He]; [apply Hok; set_solver|]. split.
  - intros q. rewrite !fired_cons, IH1. f_equal.
    destruct (decide (fires f' q ev)) as [G1|G1], (decide (fires f q ev)) as [G2|G2]; try done; exfalso; unfold fires in *;
      [destruct G1 as [G1 ?]; apply Hr in G1|destruct G2 as [G2 ?]]; rewrite He in * by done; tauto.
  - rewrite !jobs_cons, IH2. replace (queues_one f' ev) with (queues_one f ev); [done|]. unfold queues_one. apply bool_decide_ext.
    rewrite Hr. split; intros [G1 G2]; (split; [done|]); by rewrite He in * by done.
Qed.

Lemma swept_events f f' evs : swept_source f f' -> fd_events f evs -> fd_events f' evs.
Proof.
  intros Hsw [F1 F2 F3]. constructor; [|done|].
  - intros ev Hev. apply (event_ok_swept f); [apply Hsw|apply Hsw|auto].
  - intros ev Hev Hr. destruct (swept_ready f f' (fst ev) Hsw (F1 ev Hev)) as [Hr' He]. apply Hr' in Hr. rewrite He by done. auto.
Qed.

(** A poll is the usage check and the walk over the events. *)
Lemma poll_split s env evs :
  inv None s -> wait_loop (ev_wait env) = Some (inr evs) ->
  exists s1, _poll_and_add_to_jobs_ s env = event_loop s1 evs 0 (ev_reads env) env /\ inv None s1 /\ loop_ s1 = loop_ s /\
    signals s1 = signals s /\ swept_source (fds s) (fds s1) /\ zlen evs < 2 ^ 31.
Proof.
  intros Hinv Ew. unfold _poll_and_add_to_jobs_. rewrite (sr_driver _ (ei_src _ _ _ (iv_entries _ _ Hinv))). cbn [negb].
  destruct (usage_check_spec s env Hinv) as (s1 & -> & Hinv1 & E1 & E2 & Hc & Hsw). cbn [mbind option_bind]. rewrite Ew. cbn [mbind option_bind].
  exists s1. split; [done|]. split; [done|]. split; [done|]. split; [done|]. split.
  - split; [done|]. intros j Hj. rewrite Hsw by done. destruct (socks_limit_get _ _); auto.
  - revert Ew. clear. induction (ev_wait env) as [|[e|k] a IH]; cbn [wait_loop]; [done|destruct (e =? EINTR); [auto|done]|].
    intros [= <-]. unfold zlen, MAX_EVENTS. rewrite length_take. lia.
Qed.

Lemma poll_ready_spec s env evs :
  inv None s -> wait_loop (ev_wait env) = Some (inr evs) -> fd_events (fds s) evs ->
  exists s', _poll_and_add_to_jobs_ s env = Some (s', jobs_of (fds s) evs) /\ inv None s' /\
    (forall q, 0 <= q < 3 -> job_head (lv (loop_ s') q) = job_head (lv (loop_ s) q) ++ fired (fds s) q evs) /\
    (forall ev, ev ∈ evs -> ready (fds s) (fst ev) ->
       ent (fds s') (event_pos (fst ev)) = reported (ent (fds s) (event_pos (fst ev))) (snd ev)) /\
    (forall j, 0 <= j < poll_entry_count (fds s) -> live (ent (fds s) j) ->
       (forall ev, ev ∈ evs -> ready (fds s) (fst ev) -> event_pos (fst ev) <> j) -> ent (fds s') j = ent (fds s) j).
Proof.
  intros Hinv Ew Hevs. destruct (poll_split s env evs Hinv Ew) as (s1 & -> & Hinv1 & E1 & _ & Hsw & Hlen).
  pose proof (fe_ok _ _ Hevs) as Hok. destruct (swept_fired _ _ evs Hsw Hok) as [Ef Ej].
  destruct (event_loop_spec env evs s1 0 (ev_reads env) Hinv1 (swept_events _ _ _ Hsw Hevs)) as (s' & -> & [Hk _] & Hq & Hr & Ho); [lia|lia|].
  rewrite Ej, Z.add_0_l. exists s'. split; [done|]. split; [done|]. split; [intros q Hqr; by rewrite Hq, E1, Ef|]. split.
  - intros ev Hev Hre. destruct (swept_ready _ _ (fst ev) Hsw (Hok ev Hev)) as [Hr1 He1]. rewrite Hr by (try done; by apply Hr1). by rewrite He1.
  - intros j Hj Hl Hnone. rewrite Ho; [by eapply swept_live; eauto|lia|]. intros ev Hev Hre. apply Hnone; [done|].
    by apply (swept_ready _ _ (fst ev) Hsw (Hok ev Hev)).
Qed.

(** ** The theorems *)


(** C23. A poll puts the entry of every descriptor that has events at the end of the
    queue of its level, in the order of the events, unless it is there already,
    and returns their number; the entry gets the bits reported, and no other
    entry that is in use changes. *)
Theorem poll_queues_ready s env evs :
  inv None s -> wait_loop (ev_wait env) = Some (inr evs) -> fd_events (fds s) evs ->
  exists s', _poll_and_add_to_jobs_ s env = Some (s', jobs_of (fds s) evs) /\
    (forall q, 0 <= q < 3 -> job_head (lv (loop_ s') q) = job_head (lv (loop_ s) q) ++ fired (fds s) q evs) /\
    (forall ev, ev ∈ evs -> ready (fds s) (fst ev) ->
       ent (fds s') (event_pos (fst ev)) = reported (ent (fds s) (event_pos (fst ev))) (snd ev)) /\
    (forall j, 0 <= j < poll_entry_count (fds s) -> live (ent (fds s) j) ->
       (forall ev, ev ∈ evs -> ready (fds s) (fst ev) -> event_pos (fst ev) <> j) -> ent (fds s') j = ent (fds s) j).
Proof.
  intros Hinv Ew Hevs. destruct (poll_ready_spec s env evs Hinv Ew Hevs) as (s' & E & _ & Hq & Hr & Ho). by exists s'.
Qed.

(** C24. A signal that the pipe reports queues one copy of every handler that is
    registered for it, in the order of registration, each at the end of the
    queue of its own level and with the handler's function and data. *)
Theorem signal_queues_copies s env data bits the_signal rest g :
  inv None s -> wait_loop (ev_wait env) = Some (inr [(data, bits)]) -> event_ok (fds s) data -> ready (fds s) data ->
  pe_type (ent (fds s) (event_pos data)) = QB_LOOP_SIG -> signals s = Some g -> ev_reads env = Some the_signal :: rest ->
  Forall (fun b => b = true) (ev_callocs env) ->
  let cs := copies g (sig_head g) the_signal (next_sig g) in
  exists s' g', _poll_and_add_to_jobs_ s env = Some (s', i32 (zlen cs)) /\ signals s' = Some g' /\
    (forall p, 0 <= p < 3 -> job_head (lv (loop_ s') p) = job_head (lv (loop_ s) p) ++ at_level p cs) /\
    (forall a h sig, (a, h, sig) ∈ cs -> sigs g' !! a = Some (copy_of h sig)).
Proof.
  intros Hinv Ew Hok Hr Hty Eg Erd Hall cs. destruct (poll_split s env _ Hinv Ew) as (s1 & -> & Hinv1 & E1 & E2 & Hsw & _).
  destruct (swept_ready _ _ data Hsw Hok) as [Hr1 He1]. rewrite Erd. cbn [event_loop].
  destruct (pipe_event_spec s1 data bits (Some the_signal :: rest) env g) as (s' & n & -> & _ & _ & _ & Hfun); try done.
  - apply (event_ok_swept (fds s)); [apply Hsw|apply Hsw|done].
  - by apply Hr1.
  - by rewrite He1.
  - by rewrite E2.
  - destruct (Hfun the_signal eq_refl Hall) as (-> & Hj & g' & Eg' & Hnew). exists s', g'. split; [done|]. rewrite <- E1. done.
Qed.

(** C25. An event is delivered.  When a descriptor whose entry is active has an
    event and its level has nothing else to do, the poll and the next run of the
    level call its function once, with the bits reported since the last call;
    the entry is then ready for the next event. *)
Theorem event_delivered cenv penv user job_user s env data bits :
  let i := event_pos data in let e := ent (fds s) i in
  let revents := i16 (Z.lor (ufd_revents e) (_epoll_to_poll_event_ bits)) in
  inv None s -> wait_loop (ev_wait env) = Some (inr [(data, bits)]) -> event_ok (fds s) data -> ready (fds s) data ->
  pe_type e = QB_LOOP_FD -> pe_state e = QB_POLL_ENTRY_ACTIVE -> job_head (lv (loop_ s) (pe_p e)) = [] ->
  (forall fn fd r d, fst (user (Cb_fd fn fd r d)) = [] /\ 0 <= snd (user (Cb_fd fn fd r d))) ->
  exists s1 s2, _poll_and_add_to_jobs_ s env = Some (s1, 1) /\ run_op cenv penv user job_user s1 (Op_run (pe_p e)) = Some s2 /\
    effects s2 = effects s1 ++ [F_fd_callback (poll_dispatch_fn e) (ufd_fd e) revents (pe_user_data e)] /\
    job_head (lv (loop_ s2) (pe_p e)) = [] /\ ent (fds s2) i = with_revents e 0.
Proof.
  intros i e revents Hinv Ew Hok Hr Hty Hst Hj Huser. pose proof Hok as [Hi _]. fold i in Hi.
  pose proof (eo_level _ _ (ei_live _ _ _ (iv_entries _ _ Hinv) i Hi (or_introl Hst))) as Hp. fold e in Hp.
  destruct (poll_ready_spec s env [(data, bits)] Hinv Ew) as (s1 & E1 & Hinv1 & Hq1 & He1 & _).
  { constructor; [intros ev ->%list_elem_of_singleton; done|apply NoDup_singleton|intros ev ->%list_elem_of_singleton; done]. }
  assert (Hf : fires (fds s) (pe_p e) (data, bits)) by done. exists s1.
  specialize (Hq1 _ Hp). rewrite fired_cons, decide_True, Hj in Hq1 by done. cbn [app fired omap list_omap] in Hq1.
  change (entry_item (data, bits)) with (Item_fd (Fd_entry i)) in Hq1.
  specialize (He1 (data, bits) ltac:(set_solver) Hr). cbn [fst snd] in He1. fold i e in He1.
  assert (jobs_of (fds s) [(data, bits)] = 1) as Ej.
  { rewrite jobs_cons. unfold queues_one. cbn [fst]. by rewrite bool_decide_eq_true_2. }
  rewrite Ej in E1. pose proof (inv_taken s1 (pe_p e) (Fd_entry i) [] Hinv1 Hp Hq1) as Hinv2.
  pose proof (ei_busy _ _ _ (iv_entries _ _ Hinv2) i eq_refl) as [Hi1 _].
  destruct (Huser (poll_dispatch_fn e) (ufd_fd e) revents (pe_user_data e)) as [Hc Hres].
  cbn [run_op]. rewrite Hq1. cbn [app dispatch_fd_item]. unfold _poll_dispatch_and_take_back_. set (s1' := taken s1 _ _ []) in *.
  change (entry_get (fds s1') (entry_addr i)) with (ent (fds s1) i). rewrite He1. cbn [reported with_pe_state with_revents pe_state pe_type poll_dispatch_fn ufd_fd ufd_revents pe_user_data].
  rewrite Hty, !bool_decide_eq_true_2 by done. cbn [negb]. fold revents. destruct (user _) as [calls res]. cbn [fst snd] in Hc, Hres. subst calls.
  cbn [exec_poll_calls mbind option_bind]. destruct (Z.ltb_spec res 0); [lia|]. cbn [fds emit]. change (entry_get (fds s1') (entry_addr i)) with (ent (fds s1) i).
  rewrite He1. cbn [reported with_pe_state pe_state with_revents]. rewrite bool_decide_eq_false_2 by done. cbn [negb mbind option_bind]. eexists. split; [done|]. split; [done|].
  split; [done|]. split.
  - unfold count_down. cbn [loop_ with_loop with_fds emit]. unfold s1', taken. cbn [loop_ with_loop].
    pose proof (li_ok _ (iv_loop _ _ Hinv1)) as Hok1. rewrite !lv_set by (try done; try lia; unfold ok; cbn; by rewrite zlen_zset).
    rewrite decide_True by done. change (lv (add_event ?m _) (pe_p e)) with (lv m (pe_p e)). rewrite lv_set, decide_True by (done || lia). done.
  - change (fds (count_down (with_fds ?m ?f) ?p)) with f. destruct (entry_set_rep (fds s1') i (with_revents (with_pe_state (reported e bits) QB_POLL_ENTRY_ACTIVE) 0)) as (_ & _ & Hent); [apply Hinv2|done|].
    etransitivity; [apply Hent; lia|]. rewrite decide_True by done. unfold with_revents, with_pe_state, reported. cbn. by rewrite Hst.
Qed.
