(* ===== verification/LoopPollExamples.v ===== *)
(** * File descriptors and signals of the main loop: concrete sources

    A loop with a pipe for signals and a descriptor, the theorems at it, and what
    goes wrong outside their hypotheses. *)
From S2P Require Import Prelude Hdb Tlist Array ArrayTheorems Loop LoopTheorems LoopPoll.
From S2P Require Import LoopPollEntries LoopPollInv LoopPollOps LoopPollCalls LoopPollTheorems LoopPollRun.
Import LoopExamples.

(** The surroundings of a call: a check value, and the result of [epoll_ctl]. *)
Definition call_with (random ctl : Z) : poll_env :=
  {| ev_array := alloc_fine; ev_random := [random]; ev_ctl := ctl; ev_rlimit := Some 1024; ev_wait := []; ev_reads := [];
     ev_callocs := []; ev_pipe := inr (3, 4) |}.
(** A poll that reports events, and a signal in the pipe. *)
Definition poll_with (evs : list (Z * Z)) (reads : list (option Z)) : poll_env :=
  {| ev_array := alloc_fine; ev_random := []; ev_ctl := 0; ev_rlimit := Some 1024; ev_wait := [inl EINTR; inr evs]; ev_reads := reads;
     ev_callocs := []; ev_pipe := inl 0 |}.

Definition no_array : qb_poll_source :=
  {| poll_entry_count := 0; poll_entries := None; low_fds_event_fn := 0; not_enough_fds := false; epollfd := 0; driver := false |}.
Definition bare : pstate :=
  {| loop_ := new_loop; fds := default no_array (qb_loop_poll_create true true alloc_fine 10 0); signals := None;
     pipe_fds := (-1, -1); socks_limit := 0; effects := [] |}.
Definition get {A} (r : option (pstate * A)) : pstate := match r with Some (s, _) => s | None => bare end.

(** The pipe is the entry 0. *)
Definition fresh : pstate := get (qb_loop_signals_create bare true (call_with 7 0)).

Lemma fresh_created : created fresh.
Proof.
  exists (default no_source (qb_loop_timer_create true true alloc_fine)), new_loop, (fds bare), alloc_fine, 10, (call_with 7 0), 0.
  split; [reflexivity|]. split; [reflexivity|]. split; [reflexivity|]. split; [lia|]. split; [split; reflexivity|].
  split; [vm_compute; reflexivity|]. vm_compute. eauto.
Qed.

(** Every call gets the check value 9, and the system accepts it; a function does
    nothing and stays registered. *)
Definition plain_penv (k : nat) : poll_env := call_with 9 0.
Definition idle_user (cb : poll_callback) : list poll_call * Z := ([], 0).
Definition idle_job (fn data : Z) : list poll_call := [].

(** The handle of the entry at a place with a check value. *)
Definition handle (chk pos : Z) : Z := Z.lor (Z.shiftl chk 32) pos.

Ltac run_one := intros ? ?; match goal with H : _ = Some ?s |- _ => vm_compute in H; injection H as <- end.

(** Descriptor 5 is added, has an event, and its function is called; then it is
    deleted. *)
Definition session : list poll_op :=
  [Op_call (P_add QB_LOOP_MED 5 POLLIN 77 100); Op_poll (poll_with [(handle 9 1, EPOLLIN)] []); Op_run QB_LOOP_MED; Op_call (P_del 5)].

Lemma session_ok : ops_ok plain_env plain_penv idle_user idle_job fresh session.
Proof.
  unfold session. split; [split; [unfold QB_LOOP_MED; lia|]; split; [split; reflexivity|vm_compute; reflexivity]|]. run_one.
  split. { constructor; [|constructor]. split; [vm_compute; split; [discriminate|reflexivity]|vm_compute; discriminate]. }
  run_one. split. { split; [unfold QB_LOOP_MED; lia|]. split; [exact I|]. intros c s2 [=]. }
  run_one. split; [exact I|]. intros s' _. exact I.
Qed.


(** The source with descriptor 5 at place 1. *)
Definition with_five : pstate := match run_ops plain_env plain_penv idle_user idle_job fresh (take 1 session) with Some s => s | None => bare end.

Lemma with_five_inv : inv None with_five.
Proof.
  destruct (created_inv fresh fresh_created) as [Hinv Hc].
  destruct (run_ops_safe plain_env plain_penv idle_user idle_job (take 1 session) fresh Hinv Hc) as (s' & E & Hinv' & _).
  { unfold session. cbn [take]. split; [apply session_ok|done]. }
  unfold with_five. by rewrite E.
Qed.

Lemma five_ready : ready (fds with_five) (handle 9 1).
Proof. split; [vm_compute; reflexivity|]. split; [vm_compute; discriminate|]. left. vm_compute. reflexivity. Qed.

Lemma five_event_ok : event_ok (fds with_five) (handle 9 1).
Proof. split; [vm_compute; split; [discriminate|reflexivity]|]. vm_compute. discriminate. Qed.

Lemma poll_queues_ready_witness :
  exists s', _poll_and_add_to_jobs_ with_five (poll_with [(handle 9 1, EPOLLIN)] []) = Some (s', 1) /\
    job_head (lv (loop_ s') QB_LOOP_MED) = [Item_fd (Fd_entry 1)].
Proof.
  destruct (poll_queues_ready with_five (poll_with [(handle 9 1, EPOLLIN)] []) [(handle 9 1, EPOLLIN)]) as (s' & E & Hq & _);
    [exact with_five_inv|reflexivity| |].
  { constructor.
    - intros ev ->%list_elem_of_singleton. exact five_event_ok.
    - apply NoDup_singleton.
    - intros ev ->%list_elem_of_singleton _. vm_compute. reflexivity. }
  exists s'. split; [etransitivity; [exact E|]; do 2 f_equal; vm_compute; reflexivity|].
  rewrite Hq by (unfold QB_LOOP_MED; lia). vm_compute. reflexivity.
Defined.

Lemma event_delivered_witness :
  exists s1 s2, _poll_and_add_to_jobs_ with_five (poll_with [(handle 9 1, EPOLLIN)] []) = Some (s1, 1) /\
    run_op plain_env plain_penv idle_user idle_job s1 (Op_run QB_LOOP_MED) = Some s2 /\
    effects s2 = effects s1 ++ [F_fd_callback 100 5 POLLIN 77].
Proof.
  destruct (event_delivered plain_env plain_penv idle_user idle_job with_five (poll_with [(handle 9 1, EPOLLIN)] []) (handle 9 1) EPOLLIN)
    as (s1 & s2 & E1 & E2 & E3 & _);
    [exact with_five_inv|reflexivity|exact five_event_ok|exact five_ready|vm_compute; reflexivity|vm_compute; reflexivity|vm_compute; reflexivity
    |intros; split; [reflexivity|apply Z.le_refl]|].
  exists s1, s2. split; [exact E1|]. split; [exact E2|]. exact E3.
Defined.

(** Two handlers of signal 10, of different levels. *)
Definition with_handlers : pstate :=
  match run_ops plain_env plain_penv idle_user idle_job fresh
          [Op_call (P_signal_add QB_LOOP_LOW 10 1 201 0); Op_call (P_signal_add QB_LOOP_HIGH 10 2 202 0)] with Some s => s | None => bare end.

Lemma with_handlers_inv : inv None with_handlers.
Proof.
  destruct (created_inv fresh fresh_created) as [Hinv Hc].
  destruct (run_ops_safe plain_env plain_penv idle_user idle_job
    [Op_call (P_signal_add QB_LOOP_LOW 10 1 201 0); Op_call (P_signal_add QB_LOOP_HIGH 10 2 202 0)] fresh Hinv Hc) as (s' & E & Hinv' & _).
  { split; [done|]. intros ? _. split; [done|]. done. }
  unfold with_handlers. by rewrite E.
Qed.

Lemma signal_queues_copies_witness :
  exists s' g', _poll_and_add_to_jobs_ with_handlers (poll_with [(handle 7 0, EPOLLIN)] [Some 10]) = Some (s', 2) /\ signals s' = Some g' /\
    job_head (lv (loop_ s') QB_LOOP_LOW) = [Item_fd (Fd_signal 3)] /\ job_head (lv (loop_ s') QB_LOOP_HIGH) = [Item_fd (Fd_signal 4)].
Proof.
  destruct (signals with_handlers) as [g|] eqn:Eg; [|vm_compute in Eg; discriminate].
  destruct (signal_queues_copies with_handlers (poll_with [(handle 7 0, EPOLLIN)] [Some 10]) (handle 7 0) EPOLLIN 10 [] g) as (s' & g' & E & Eg' & Hq & _);
    [exact with_handlers_inv|reflexivity|split; [vm_compute; split; [discriminate|reflexivity]|vm_compute; discriminate]
    |split; [vm_compute; reflexivity|]; split; [vm_compute; discriminate|left; vm_compute; reflexivity]
    |vm_compute; reflexivity|exact Eg|reflexivity|constructor|].
  assert (Hc : copies g (sig_head g) 10 (next_sig g) =
    [(3, 1, {| sig_user_data := 1; signal := 10; sig_p := QB_LOOP_LOW; sig_dispatch_fn := 201; cloned_from := 0 |});
     (4, 2, {| sig_user_data := 2; signal := 10; sig_p := QB_LOOP_HIGH; sig_dispatch_fn := 202; cloned_from := 0 |})])
    by (clear - Eg; vm_compute in Eg; injection Eg as <-; vm_compute; reflexivity).
  rewrite Hc in *. exists s', g'. split; [exact E|]. split; [exact Eg'|].
  rewrite !Hq by (unfold QB_LOOP_LOW, QB_LOOP_HIGH; lia). split; vm_compute; reflexivity.
Defined.

(** ** What goes wrong *)

Definition add_fd (s : pstate) (p fd chk ctl : Z) : pstate := get (qb_loop_poll_add s p fd POLLIN fd 100 (call_with chk ctl)).
Definition del_fd (s : pstate) (fd : Z) : pstate := get (qb_loop_poll_del s fd (call_with 0 0)).
Definition poll_events (s : pstate) (evs : list (Z * Z)) : pstate := get (_poll_and_add_to_jobs_ s (poll_with evs [])).
Definition poll_signal (s : pstate) (sg : Z) : pstate := get (_poll_and_add_to_jobs_ s (poll_with [(handle 7 0, EPOLLIN)] [Some sg])).
Definition new_effects (s s' : pstate) : list poll_effect := drop (length (effects s)) (effects s').

(** Descriptors 4 and 5 are added, 4 is deleted and its place becomes empty; 5 is
    added again, which the system refuses ([EEXIST], 17). *)
Definition refused : pstate :=
  let s := add_fd (add_fd fresh QB_LOOP_MED 4 21 0) QB_LOOP_MED 5 22 0 in
  add_fd (poll_events (del_fd s 4) []) QB_LOOP_MED 5 23 17.

(** After the refused addition [qb_loop_poll_del] finds the empty entry that is
    left of it and reports success; the descriptor stays registered and its
    entry active. *)
Example refused_add_blocks_delete :
  exists s', qb_loop_poll_del refused 5 (call_with 0 0) = Some (s', 0) /\ new_effects refused s' = [] /\
    pe_state (ent (fds s') 2) = QB_POLL_ENTRY_ACTIVE /\ ufd_fd (ent (fds s') 2) = 5.
Proof. eexists. split; [vm_compute; reflexivity|]. split_and!; vm_compute; reflexivity. Qed.

(** And [qb_loop_poll_mod] registers the handle of that entry with the system;
    the next event of the descriptor is a call through a NULL pointer. *)
Example refused_add_calls_null :
  exists s', qb_loop_poll_mod refused QB_LOOP_MED 5 POLLOUT 5 100 (call_with 0 0) = Some (s', 0) /\
    new_effects refused s' = [F_ctl_mod 5 EPOLLOUT (handle 23 1) 0] /\
    _poll_and_add_to_jobs_ s' (poll_with [(handle 23 1, EPOLLOUT)] []) = None.
Proof. eexists. split; [vm_compute; reflexivity|]. split; vm_compute; reflexivity. Qed.

(** Changing the level of a queued descriptor and deleting it takes it out of the
    old level and counts down the new one. *)
Example mod_of_queued_miscounts :
  let s := poll_events (add_fd fresh QB_LOOP_MED 5 22 0) [(handle 22 1, EPOLLIN)] in
  let s := del_fd (get (qb_loop_poll_mod s QB_LOOP_HIGH 5 POLLIN 5 100 (call_with 0 0))) 5 in
  (job_head (lv (loop_ s) QB_LOOP_MED), todo (lv (loop_ s) QB_LOOP_MED)) = ([], 1) /\
  (job_head (lv (loop_ s) QB_LOOP_HIGH), todo (lv (loop_ s) QB_LOOP_HIGH)) = ([], -1).
Proof. split; vm_compute; reflexivity. Qed.

(** A descriptor is added with a level that does not exist; its first event
    writes outside the levels. *)
Example add_takes_any_level :
  exists s', qb_loop_poll_add fresh 7 5 POLLIN 5 100 (call_with 22 0) = Some (s', 0) /\
    _poll_and_add_to_jobs_ s' (poll_with [(handle 22 1, EPOLLIN)] []) = None.
Proof. eexists. split; [vm_compute; reflexivity|]. vm_compute. reflexivity. Qed.

(** When the array of entries cannot grow the error is used as a place, and the
    program is aborted. *)
Definition no_memory : poll_env :=
  {| ev_array := {| realloc_ok := false; calloc_ok := false |}; ev_random := [22]; ev_ctl := 0; ev_rlimit := None; ev_wait := [];
     ev_reads := []; ev_callocs := []; ev_pipe := inl 0 |}.
Definition full : pstate := foldl (fun s fd => add_fd s QB_LOOP_MED (100 + fd) (1000 + fd) 0) fresh (seqZ 0 31).
Example growing_failure_aborts :
  poll_entry_count (fds full) = 32 /\ qb_loop_poll_add full QB_LOOP_MED 5 POLLIN 5 100 no_memory = None.
Proof. split; vm_compute; reflexivity. Qed.

(** A function that returns an error has its entry deleted, but the descriptor
    stays with the system: the next event finds no entry, and the loop sleeps. *)
Example failed_callback_stays_registered :
  let s := poll_events (add_fd fresh QB_LOOP_MED 5 22 0) [(handle 22 1, EPOLLIN)] in
  exists s', run_op plain_env plain_penv (fun _ => ([], -1)) idle_job s (Op_run QB_LOOP_MED) = Some s' /\
    new_effects s s' = [F_fd_callback 100 5 POLLIN 5] /\ pe_state (ent (fds s') 1) = QB_POLL_ENTRY_DELETED /\
    new_effects s' (poll_events s' [(handle 22 1, EPOLLIN)]) = [F_usleep].
Proof. eexists. split; [vm_compute; reflexivity|]. split_and!; vm_compute; reflexivity. Qed.

(** Without an epoll descriptor the source exists, but its functions are not set. *)
Example epoll_failure_ignored :
  exists f, qb_loop_poll_create true true alloc_fine (-1) 24 = Some f /\ driver f = false /\
    _poll_and_add_to_jobs_ (with_fds fresh f) (poll_with [] []) = None.
Proof. eexists. split; [reflexivity|]. split; vm_compute; reflexivity. Qed.

(** A handler with two queued copies is deleted: one of them is still run, and
    when its function asks to be deleted the freed handler is used. *)
Example deleted_handler_runs :
  let s := match qb_loop_signal_add fresh QB_LOOP_MED 10 1 201 0 with Some (s, _, _) => s | None => bare end in
  let s := get (qb_loop_signal_del (poll_signal (poll_signal s 10) 10) 1) in
  handlers s = [] /\ job_head (lv (loop_ s) QB_LOOP_MED) = [Item_fd (Fd_signal 3)] /\
  (exists s', run_op plain_env plain_penv idle_user idle_job s (Op_run QB_LOOP_MED) = Some s' /\ new_effects s s' = [F_sig_callback 201 10 1]) /\
  run_op plain_env plain_penv (fun _ => ([], -1)) idle_job s (Op_run QB_LOOP_MED) = None.
Proof.
  split; [vm_compute; reflexivity|]. split; [vm_compute; reflexivity|]. split; [|vm_compute; reflexivity].
  eexists. split; [vm_compute; reflexivity|]. vm_compute. reflexivity.
Qed.

(** The last real-time signal, 64, is accepted but never gets a handler. *)
Example last_signal_ignored :
  exists s', qb_loop_signal_add fresh QB_LOOP_MED 64 1 201 0 = Some (s', 0, 1) /\ handlers s' = [1] /\ new_effects fresh s' = [].
Proof. eexists. split; [vm_compute; reflexivity|]. split; vm_compute; reflexivity. Qed.
