(* ===== verification/Serialize.v ===== *)
(** * Log messages as data (lib/log_format.c)

    [qb_vsnprintf_serialize] stores a format string and the arguments it needs,
    and [qb_vsnprintf_deserialize] prints the message from them later.  The code
    is modelled for a 64-bit machine: [int] has 4 bytes, the other integers,
    [double] and pointers have 8.  [None] is undefined behaviour: an access
    outside a buffer, or [va_arg] with no argument or one of another type. *)
From S2P Require Import Prelude Memory Cstring.

(** ** Arguments *)

(** A [double] is the number with its 64 bits; a string may be NULL. *)
Inductive varg :=
  | V_int (z : Z)
  | V_long (z : Z)
  | V_double (bits : Z)
  | V_ptr (p : Z)
  | V_str (s : option (list Z)).

Definition va_int (ap : list varg) : option (Z * list varg) :=
  match ap with V_int z :: ap => Some (z, ap) | _ => None end.
Definition va_long (ap : list varg) : option (Z * list varg) :=
  match ap with V_long z :: ap => Some (z, ap) | _ => None end.
Definition va_double (ap : list varg) : option (Z * list varg) :=
  match ap with V_double z :: ap => Some (z, ap) | _ => None end.
Definition va_ptr (ap : list varg) : option (Z * list varg) :=
  match ap with V_ptr z :: ap => Some (z, ap) | _ => None end.
Definition va_str (ap : list varg) : option (option (list Z) * list varg) :=
  match ap with V_str s :: ap => Some (s, ap) | _ => None end.

Definition SIZEOF_INT : Z := 4.
Definition SIZEOF_LONG : Z := 8.
Definition SIZEOF_DOUBLE : Z := 8.
Definition SIZEOF_PTR : Z := 8.

Definition QB_XC : Z := 7.

(** ** Copies that return what was written *)

Definition my_strlcpy (dest : list Z) (at_ : Z) (src : list Z) (maxlen : Z) : option (list Z * Z) :=
  '(dest, rc) ← strlcpy dest at_ src maxlen;
  Some (dest, QB_MIN rc (u64 (maxlen - 1))).

Definition my_strlcat (dest : list Z) (src : list Z) (maxlen : Z) : option (list Z * Z) :=
  '(dest, rc) ← strlcat dest src maxlen;
  Some (dest, QB_MIN rc (u64 (maxlen - 1))).

(** ** Serializing *)

Record ser := {
  s_buf : list Z;
  location : Z;
  sformat_length : Z;
  sformat_precision : bool;
  s_ap : list varg;
}.

Definition with_precision (s : ser) (len : Z) (p : bool) : ser :=
  {| s_buf := s_buf s; location := location s; sformat_length := len; sformat_precision := p; s_ap := s_ap s |}.
Definition with_ap (s : ser) (ap : list varg) : ser :=
  {| s_buf := s_buf s; location := location s; sformat_length := sformat_length s;
     sformat_precision := sformat_precision s; s_ap := ap |}.
Definition with_out (s : ser) (b : list Z) (loc : Z) : ser :=
  {| s_buf := b; location := loc; sformat_length := sformat_length s;
     sformat_precision := sformat_precision s; s_ap := s_ap s |}.

(** [memcpy (&serialize[location], ...); location += ...]. *)
Definition append (s : ser) (bs : list Z) : option ser :=
  b ← buf_put (s_buf s) (location s) bs;
  Some (with_out s b (u32 (location s + zlen bs))).

(** After a conversion: the loop goes on with the rest of the format, or the
    buffer is full and [max_len] is returned. *)
Inductive ser_next := Next (format : list Z) (s : ser) | Full (s : ser).

(** Room for [n] bytes, else [return max_len]. *)
Definition if_room (max_len n : Z) (s : ser) (k : option ser_next) : option ser_next :=
  if max_len <? location s + n then Some (Full s) else k.

Definition ser_string (max_len : Z) (s : ser) (arg : option (list Z)) : option ser :=
  let left := u64 (max_len - location s) in
  '(b, n) ← match arg with
            | None => my_strlcpy (s_buf s) (location s) (bytes "(null)") (QB_MIN (zlen (bytes "(null)") + 1) left)
            | Some a =>
              if negb (sformat_length s =? 0)
              then my_strlcpy (s_buf s) (location s) a (QB_MIN (u64 (sformat_length s + 1)) left)
              else my_strlcpy (s_buf s) (location s) a (QB_MIN (zlen a + 1) left)
            end;
  Some (with_out s b (u32 (u32 (location s + n) + 1))).

(** From the label [reprocess] on: [format] is behind the percent sign. *)
Fixpoint ser_conv (max_len : Z) (format : list Z) (type_long type_longlong : bool) (s : ser) : option ser_next :=
  match format with
  | [] => Some (Next format s)
  | c :: rest =>
    if among c "#- +'I" then ser_conv max_len rest type_long type_longlong s
    else if among c "." then ser_conv max_len rest type_long type_longlong (with_precision s (sformat_length s) true)
    else if among c "0123456789" then
      ser_conv max_len rest type_long type_longlong
        (if sformat_precision s then with_precision s (u64 (u64 (sformat_length s * 10) + (c - 48))) true else s)
    else if among c "*" then
      '(arg_int, ap) ← va_int (s_ap s);
      let s := with_ap s ap in
      if max_len <? location s + SIZEOF_INT then Some (Full s)
      else s ← append s (le_split 4 arg_int); ser_conv max_len rest type_long type_longlong s
    else if among c "l" then
      match rest with
      | c' :: rest' => if among c' "l" then ser_conv max_len rest' false true s else ser_conv max_len rest true type_longlong s
      | [] => Some (Next rest s)
      end
    else if among c "z" then ser_conv max_len rest type_long true s
    else if among c "t" then ser_conv max_len rest type_long true s
    else if among c "j" then ser_conv max_len rest type_long true s
    else if among c "diouxX" then
      if type_long then
        if_room max_len SIZEOF_LONG s (
          '(arg_int, ap) ← va_long (s_ap s); s ← append (with_ap s ap) (le_split 8 arg_int); Some (Next rest s))
      else if type_longlong then
        if_room max_len SIZEOF_LONG s (
          '(arg_int, ap) ← va_long (s_ap s); s ← append (with_ap s ap) (le_split 8 arg_int); Some (Next rest s))
      else
        if_room max_len SIZEOF_INT s (
          '(arg_int, ap) ← va_int (s_ap s); s ← append (with_ap s ap) (le_split 4 arg_int); Some (Next rest s))
    else if among c "eEfFgGaA" then
      if_room max_len SIZEOF_DOUBLE s (
        '(arg_double, ap) ← va_double (s_ap s); s ← append (with_ap s ap) (le_split 8 arg_double); Some (Next rest s))
    else if among c "c" then
      if_room max_len 1 s (
        '(arg_int, ap) ← va_int (s_ap s); s ← append (with_ap s ap) [u8 arg_int]; Some (Next format s))
    else if among c "s" then
      '(arg_string, ap) ← va_str (s_ap s); s ← ser_string max_len (with_ap s ap) arg_string; Some (Next format s)
    else if among c "p" then
      '(arg_pointer, ap) ← va_ptr (s_ap s);
      let s := with_ap s ap in
      if_room max_len SIZEOF_PTR s (s ← append s (le_split 8 arg_pointer); Some (Next format s))
    else if among c "%" then
      if max_len <? u32 (location s + 1) then Some (Full s)
      else s ← append s (bytes "%"); Some (Next format (with_precision s 0 false))
    else Some (Next format s)
  end.

(** The buffer and the number of bytes used. *)
Fixpoint ser_loop (fuel : nat) (max_len : Z) (format : list Z) (s : ser) : option (list Z * Z) :=
  match fuel with
  | O => None
  | S fuel' =>
    match strchrnul format 37 with
    | [] => Some (s_buf s, location s)
    | _ :: format =>
      r ← ser_conv max_len format false false s;
      match r with
      | Next format s => ser_loop fuel' max_len format s
      | Full s => Some (s_buf s, max_len)
      end
    end
  end.

(** Replace the mark of extended information in the copy of the format. *)
Fixpoint replace_xc (b : list Z) : option (list Z) :=
  match b with
  | [] => None
  | c :: b' =>
    if c =? 0 then Some b
    else if c =? QB_XC then
      match b' with [] => None | n :: _ => Some ((if n =? 0 then 0 else 124) :: b') end
    else cons c <$> replace_xc b'
  end.

Definition qb_vsnprintf_serialize (serialize : list Z) (max_len : Z) (fmt : list Z) (ap : list varg) : option (list Z * Z) :=
  '(b, n) ← my_strlcpy serialize 0 fmt max_len;
  b ← replace_xc b;
  ser_loop (S (length fmt)) max_len fmt
    {| s_buf := b; location := u32 (n + 1); sformat_length := 0; sformat_precision := false; s_ap := ap |}.

(** ** Deserializing *)

(** How a run ends: with a result or with undefined behaviour.  A loop that has no
    fuel left has not ended. *)
Inductive ended (A : Type) := Ends (a : A) | Faults | Diverges.
#[global] Arguments Ends {A} a.
#[global] Arguments Faults {A}.
#[global] Arguments Diverges {A}.
#[export] Instance ended_ret : MRet ended := fun A a => Ends a.
#[export] Instance ended_bind : MBind ended := fun A B k x =>
  match x with Ends a => k a | Faults => Faults | Diverges => Diverges end.
Definition checked {A} (x : option A) : ended A := match x with Some a => Ends a | None => Faults end.

Definition MINI_FORMAT_STR_LEN : Z := 20.

Record des := {
  d_string : list Z;
  d_location : Z;
  data_pos : Z;
  d_fmt : list Z;
}.

Definition with_string (d : des) (b : list Z) (loc : Z) : des :=
  {| d_string := b; d_location := loc; data_pos := data_pos d; d_fmt := d_fmt d |}.
Definition with_pos (d : des) (pos : Z) : des :=
  {| d_string := d_string d; d_location := d_location d; data_pos := pos; d_fmt := d_fmt d |}.
Definition with_fmt (d : des) (f : list Z) : des :=
  {| d_string := d_string d; d_location := d_location d; data_pos := data_pos d; d_fmt := f |}.

(** [fmt[fmt_pos++] = c]. *)
Definition push (d : des) (fmt_pos c : Z) : option des :=
  f ← buf_put (d_fmt d) fmt_pos [c]; Some (with_fmt d f).

Section Render.
(** What [snprintf] prints for a format with one conversion and its argument. *)
Context (render : list Z -> varg -> list Z).

(** The end of a conversion: complete the small format and print the value. *)
Definition print (str_len : Z) (d : des) (fmt_pos c : Z) (v : varg) : option des :=
  d ← push d fmt_pos c;
  d ← push d (fmt_pos + 1) 0;
  f ← cstr (d_fmt d);
  '(b, n) ← snprintf (d_string d) (d_location d) (u64 (str_len - d_location d)) (render f v);
  Some (with_string d b (u32 (d_location d + n))).

(** From the label [reprocess] on; the result is the rest of the format. *)
Fixpoint des_conv (str_len : Z) (buf format : list Z) (type_long type_longlong : bool) (fmt_pos : Z) (d : des)
    : option (list Z * des) :=
  match format with
  | [] => Some (format, d)
  | c :: rest =>
    if among c "#- +'I.0123456789" then
      d ← push d fmt_pos c; des_conv str_len buf rest type_long type_longlong (fmt_pos + 1) d
    else if among c "*" then
      bs ← buf_get buf (data_pos d) SIZEOF_INT;
      let d := with_pos d (u32 (data_pos d + SIZEOF_INT)) in
      '(f, n) ← snprintf (d_fmt d) fmt_pos (u64 (MINI_FORMAT_STR_LEN - fmt_pos)) (decimal (i32 (le_combine bs)));
      des_conv str_len buf rest type_long type_longlong (fmt_pos + n) (with_fmt d f)
    else if among c "l" then
      d ← push d fmt_pos c;
      match rest with
      | c' :: _ => if among c' "l" then des_conv str_len buf rest false true (fmt_pos + 1) d
                   else des_conv str_len buf rest true type_longlong (fmt_pos + 1) d
      | [] => Some (rest, d)
      end
    else if among c "z" then d ← push d fmt_pos c; des_conv str_len buf rest false true (fmt_pos + 1) d
    else if among c "t" then d ← push d fmt_pos c; des_conv str_len buf rest type_long true (fmt_pos + 1) d
    else if among c "j" then d ← push d fmt_pos c; des_conv str_len buf rest type_long true (fmt_pos + 1) d
    else if among c "diouxX" then
      if type_long then
        bs ← buf_get buf (data_pos d) SIZEOF_LONG;
        d ← print str_len d fmt_pos c (V_long (i64 (le_combine bs)));
        Some (rest, with_pos d (u32 (data_pos d + SIZEOF_LONG)))
      else if type_longlong then
        bs ← buf_get buf (data_pos d) SIZEOF_LONG;
        d ← print str_len d fmt_pos c (V_long (i64 (le_combine bs)));
        Some (rest, with_pos d (u32 (data_pos d + SIZEOF_LONG)))
      else
        bs ← buf_get buf (data_pos d) SIZEOF_INT;
        d ← print str_len d fmt_pos c (V_int (i32 (le_combine bs)));
        Some (rest, with_pos d (u32 (data_pos d + SIZEOF_INT)))
    else if among c "eEfFgGaA" then
      bs ← buf_get buf (data_pos d) SIZEOF_DOUBLE;
      d ← print str_len d fmt_pos c (V_double (le_combine bs));
      Some (rest, with_pos d (u32 (data_pos d + SIZEOF_DOUBLE)))
    else if among c "c" then
      bs ← buf_get buf (data_pos d) 1;
      d ← print str_len d fmt_pos c (V_int (le_combine bs));
      Some (rest, with_pos d (u32 (data_pos d + 1)))
    else if among c "s" then
      a ← cstr_at buf (data_pos d);
      d ← print str_len d fmt_pos c (V_str (Some a));
      Some (rest, with_pos d (u32 (data_pos d + (zlen a + 1))))
    else if among c "p" then
      bs ← buf_get buf (data_pos d) SIZEOF_PTR;
      d ← print str_len d fmt_pos c (V_ptr (i64 (le_combine bs)));
      Some (rest, with_pos d (u32 (data_pos d + SIZEOF_PTR)))
    else if among c "%" then
      b ← buf_put (d_string d) (d_location d) (bytes "%");
      Some (rest, with_string d b (u32 (d_location d + 1)))
    else Some (format, d)
  end.

Fixpoint des_loop (fuel : nat) (str_len : Z) (buf format : list Z) (d : des) : ended (list Z * Z) :=
  match fuel with
  | O => Diverges
  | S fuel' =>
    match strchrnul format 37 with
    | [] => '(b, n) ← checked (my_strlcat (d_string d) format str_len); Ends (b, n + 1)
    | c :: rest =>
      let len := zlen format - zlen (c :: rest) in
      b ← checked (buf_put (d_string d) (d_location d) (take (Z.to_nat len) format));
      let d := with_string d b (u32 (d_location d + len)) in
      d ← checked (push d 0 c);
      '(format, d) ← checked (des_conv str_len buf rest false false 1 d);
      des_loop fuel' str_len buf format d
    end
  end.

(** The buffer with the message, and its length with the NUL. *)
Definition qb_vsnprintf_deserialize (string : list Z) (str_len : Z) (buf : list Z) : ended (list Z * Z) :=
  fmt ← checked (cstr buf);
  string ← checked (buf_put string 0 [0]);
  des_loop (S (length fmt)) str_len buf fmt
    {| d_string := string; d_location := 0; data_pos := u32 (zlen fmt + 1); d_fmt := zrepeat 0 MINI_FORMAT_STR_LEN |}.
End Render.
