(* ===== verification/SerializeTheorems.v ===== *)
(** * Log messages as data: the round trip

    A message is a list of texts and conversions with their arguments.  For the
    formats that the two functions agree on, printing from the stored message
    gives the text that printing at once would have given, whatever [snprintf]
    prints for one conversion.  Precisions are among them, also for strings, which
    are stored cut to the precision. *)
From S2P Require Import Prelude Memory Cstring Serialize.

(** ** Messages *)

(** A flag, a digit of a field width or of a precision, the dot between them, or a
    width given by an argument. *)
Inductive modifier := M_flag (c : Z) | M_star (n : Z).

Inductive width := W_none | W_l | W_ll | W_z | W_t | W_j.

Inductive value :=
  | A_int (c : Z) (w : width) (z : Z)
  | A_double (c bits : Z)
  | A_char (z : Z)
  | A_str (s : option (list Z))
  | A_ptr (p : Z).

Record conversion := { mods : list modifier; val : value }.

(** The text before each conversion, and the text at the end. *)
Record message := { parts : list (list Z * conversion); tail_text : list Z }.

(** The format of the message. *)
Definition mod_text (m : modifier) : list Z := match m with M_flag c => [c] | M_star _ => [42] end.
Definition width_text (w : width) : list Z :=
  match w with W_none => [] | W_l => [108] | W_ll => [108; 108] | W_z => [122] | W_t => [116] | W_j => [106] end.
Definition value_text (v : value) : list Z :=
  match v with
  | A_int c w _ => width_text w ++ [c]
  | A_double c _ => [c]
  | A_char _ => [99]
  | A_str _ => [115]
  | A_ptr _ => [112]
  end.
Definition conv_text (cv : conversion) : list Z := concat (mod_text <$> mods cv) ++ value_text (val cv).
Definition format_of (m : message) : list Z :=
  concat ((fun p => fst p ++ 37 :: conv_text (snd p)) <$> parts m) ++ tail_text m.

(** Its arguments. *)
Definition mod_args (m : modifier) : list varg := match m with M_flag _ => [] | M_star n => [V_int n] end.
Definition value_arg (v : value) : varg :=
  match v with
  | A_int _ W_none z => V_int z
  | A_int _ _ z => V_long z
  | A_double _ b => V_double b
  | A_char z => V_int z
  | A_str s => V_str s
  | A_ptr p => V_ptr p
  end.
Definition conv_args (cv : conversion) : list varg := concat (mod_args <$> mods cv) ++ [value_arg (val cv)].
Definition args_of (m : message) : list varg := concat ((fun p => conv_args (snd p)) <$> parts m).

(** The text that is printed: a width from an argument is put in as a number and
    NULL is printed like a string. *)
Definition mod_spec (m : modifier) : list Z := match m with M_flag c => [c] | M_star n => decimal n end.
Definition spec_of (cv : conversion) : list Z := 37 :: concat (mod_spec <$> mods cv) ++ value_text (val cv).
Definition shown (v : value) : varg :=
  match v with A_str None => V_str (Some (bytes "(null)")) | _ => value_arg v end.
Definition text_of (render : list Z -> varg -> list Z) (m : message) : list Z :=
  concat ((fun p => fst p ++ render (spec_of (snd p)) (shown (val (snd p)))) <$> parts m) ++ tail_text m.

(** The stored arguments. *)
Definition mod_data (m : modifier) : list Z := match m with M_flag _ => [] | M_star n => le_split 4 n end.
Definition value_data (v : value) : list Z :=
  match v with
  | A_int _ W_none z => le_split 4 z
  | A_int _ _ z => le_split 8 z
  | A_double _ b => le_split 8 b
  | A_char z => [u8 z]
  | A_str s => default (bytes "(null)") s ++ [0]
  | A_ptr p => le_split 8 p
  end.
Definition conv_data (cv : conversion) : list Z := concat (mod_data <$> mods cv) ++ value_data (val cv).

(** The limit for strings, and whether digits count for it: set by the precisions so
    far, also by those of earlier conversions. *)
Definition mod_limit (st : Z * bool) (m : modifier) : Z * bool :=
  match m with
  | M_flag c =>
    if among c "." then (fst st, true)
    else if among c "0123456789" && snd st then (u64 (u64 (fst st * 10) + (c - 48)), true) else st
  | M_star _ => st
  end.
Definition conv_limit (st : Z * bool) (cv : conversion) : Z * bool := foldl mod_limit st (mods cv).
Definition no_limit : Z * bool := (0, false).

(** The precision of the conversion itself; 0 if it has none. *)
Definition own_limit (cv : conversion) : Z := fst (conv_limit no_limit cv).

(** A string is stored up to the limit; 0 is none. *)
Definition cut (limit : Z) (v : value) : value :=
  match v with
  | A_str (Some a) => if limit =? 0 then v else A_str (Some (take (Z.to_nat limit) a))
  | _ => v
  end.
Definition cut_conv (limit : Z) (cv : conversion) : conversion := {| mods := mods cv; val := cut limit (val cv) |}.
Fixpoint cut_parts (st : Z * bool) (ps : list (list Z * conversion)) : list (list Z * conversion) :=
  match ps with
  | [] => []
  | (lit, cv) :: ps => let st := conv_limit st cv in (lit, cut_conv (fst st) cv) :: cut_parts st ps
  end.

Definition parts_data (ps : list (list Z * conversion)) : list Z := concat ((fun p => conv_data (snd p)) <$> ps).
Definition data_of (m : message) : list Z := parts_data (cut_parts no_limit (parts m)).

(** What is stored for a message. *)
Definition stored (m : message) : list Z := format_of m ++ 0 :: data_of m.

(** The messages in question: no percent signs in the text, arguments in their
    ranges, and strings that are stored whole or cut by their own precision, not by
    that of an earlier conversion. *)
Definition mod_ok (m : modifier) : Prop :=
  match m with M_flag c => among c "#- +'I.0123456789" = true | M_star n => - 2 ^ 31 <= n < 2 ^ 31 end.
Definition value_ok (v : value) : Prop :=
  match v with
  | A_int c W_none z => among c "diouxX" = true /\ - 2 ^ 31 <= z < 2 ^ 31
  | A_int c _ z => among c "diouxX" = true /\ - 2 ^ 63 <= z < 2 ^ 63
  | A_double c b => among c "eEfFgGaA" = true /\ 0 <= b < 2 ^ 64
  | A_char z => 0 < z < 256
  | A_str s => match s with Some a => nul_free a | None => True end
  | A_ptr p => - 2 ^ 63 <= p < 2 ^ 63
  end.
Definition conv_ok (cv : conversion) : Prop := Forall mod_ok (mods cv) /\ value_ok (val cv) /\ zlen (spec_of cv) < MINI_FORMAT_STR_LEN.
Definition part_ok (p : list Z * conversion) : Prop := plain_text (fst p) /\ conv_ok (snd p).
Definition string_kept (limit : Z) (cv : conversion) : Prop :=
  match val cv with
  | A_str (Some a) => 0 <= limit < 2 ^ 64 - 1 /\ (limit = 0 \/ zlen a <= limit \/ limit = own_limit cv)
  | _ => True
  end.
Fixpoint strings_kept (st : Z * bool) (ps : list (list Z * conversion)) : Prop :=
  match ps with
  | [] => True
  | (_, cv) :: ps => let st := conv_limit st cv in string_kept (fst st) cv /\ strings_kept st ps
  end.
Definition message_ok (m : message) : Prop :=
  Forall part_ok (parts m) /\ strings_kept no_limit (parts m) /\ plain_text (tail_text m).

(** What is asked of [snprintf] for the conversions of the message: a string with a
    precision is printed like its first characters, as many as the precision says. *)
Definition obeys_precision (render : list Z -> varg -> list Z) (p : list Z * conversion) : Prop :=
  match val (snd p) with
  | A_str (Some a) =>
    own_limit (snd p) <> 0 ->
    render (spec_of (snd p)) (V_str (Some (take (Z.to_nat (own_limit (snd p))) a))) = render (spec_of (snd p)) (V_str (Some a))
  | _ => True
  end.

#[export] Instance mod_ok_dec m : Decision (mod_ok m).
Proof. destruct m; cbn [mod_ok]; apply _. Defined.
#[export] Instance value_ok_dec v : Decision (value_ok v).
Proof. destruct v as [c [] z| | |[a|]|]; cbn [value_ok]; unfold nul_free; apply _. Defined.
#[export] Instance part_ok_dec p : Decision (part_ok p).
Proof. unfold part_ok, plain_text, plain, conv_ok. apply _. Defined.
#[export] Instance strings_kept_dec ps : forall st, Decision (strings_kept st ps).
Proof.
  induction ps as [|[lit cv] ps IH]; intros st; cbn [strings_kept]; [apply _|].
  assert (Decision (string_kept (fst (conv_limit st cv)) cv))
    by (unfold string_kept; destruct (val cv) as [| | |[a|]|]; apply _).
  apply _.
Defined.
#[export] Instance message_ok_dec m : Decision (message_ok m).
Proof. unfold message_ok, plain_text, plain. apply _. Defined.
#[export] Instance obeys_precision_dec render p : Decision (obeys_precision render p).
Proof. unfold obeys_precision. destruct (val (snd p)) as [| | |[a|]|]; apply _. Defined.

(** ** Serializing *)

(** [out] has been stored; nothing is known of the rest of the buffer. *)
Record ser_at (s : ser) (out rest : list Z) (ap : list varg) (st : Z * bool) : Prop := {
  sa_buf : s_buf s = out ++ rest;
  sa_loc : location s = zlen out;
  sa_prec : (sformat_length s, sformat_precision s) = st;
  sa_ap : s_ap s = ap;
}.

Lemma append_at s out rest ap st bs :
  ser_at s out rest ap st -> zlen bs <= zlen rest -> zlen out + zlen bs < 2 ^ 32 ->
  exists s', append s bs = Some s' /\ ser_at s' (out ++ bs) (drop (length bs) rest) ap st.
Proof.
  intros [Hb Hl Hp Ha] Hr Hm. unfold append. rewrite Hb, Hl, buf_put_end by done. cbn [mbind option_bind].
  eexists. split; [done|]. constructor; try done. cbn. rewrite zlen_app. unfold u32. apply Z.mod_small.
  pose proof (zlen_nonneg out). pose proof (zlen_nonneg bs). lia.
Qed.

Lemma with_ap_at s out rest ap ap' st : ser_at s out rest ap st -> ser_at (with_ap s ap') out rest ap' st.
Proof. intros []. by constructor. Qed.

Section Ser.
Context (max_len : Z) (Hmax : max_len < 2 ^ 32).

Lemma ser_mods ms : forall s out rest ap k tl tll st,
  Forall mod_ok ms -> ser_at s out rest (concat (mod_args <$> ms) ++ ap) st ->
  zlen out + zlen (concat (mod_data <$> ms)) <= max_len -> max_len <= zlen out + zlen rest ->
  exists s' rest', ser_conv max_len (concat (mod_text <$> ms) ++ k) tl tll s = ser_conv max_len k tl tll s' /\
    ser_at s' (out ++ concat (mod_data <$> ms)) rest' ap (foldl mod_limit st ms) /\
    zlen out + zlen rest = zlen (out ++ concat (mod_data <$> ms)) + zlen rest'.
Proof.
  induction ms as [|[c|n] ms IH]; intros s out rest ap k tl tll st Hok Hs Hroom Hcap.
  - exists s, rest. cbn. by rewrite app_nil_r.
  - apply list.Forall_cons in Hok as [Hc Hok]. cbn [mod_ok] in Hc. cbn [foldl].
    pose proof Hs as [Hb Hl Hp Ha].
    assert (exists s1, ser_conv max_len (c :: concat (mod_text <$> ms) ++ k) tl tll s =
        ser_conv max_len (concat (mod_text <$> ms) ++ k) tl tll s1 /\
      ser_at s1 out rest (concat (mod_args <$> ms) ++ ap) (mod_limit st (M_flag c))) as (s1 & E1 & Hs1).
    { rewrite <- Hp. cbn [ser_conv mod_limit fst snd].
      among_cases Hc; among_compute; cbn [andb];
        (eexists; split; [reflexivity|]); try (by constructor); destruct (sformat_precision s) eqn:Hsp; constructor; try done;
        cbn; by rewrite ?Hsp. }
    destruct (IH s1 out rest ap k tl tll _ Hok Hs1 Hroom Hcap) as (s' & rest' & E & Hs' & Hz). exists s', rest'. split; [|done].
    cbn [fmap list_fmap concat mod_text app]. by rewrite E1.
  - apply list.Forall_cons in Hok as [Hn Hok]. cbn [mod_ok] in Hn. cbn [fmap list_fmap concat mod_text mod_data mod_args app foldl mod_limit] in *.
    rewrite zlen_app, zlen_le_split in Hroom. pose proof (zlen_nonneg (concat (mod_data <$> ms))) as Hnn. change (Z.of_nat 4) with 4 in Hroom.
    cbn [ser_conv]. among_compute. rewrite (sa_ap _ _ _ _ _ Hs). cbn [va_int mbind option_bind].
    pose proof (with_ap_at _ _ _ _ (concat (mod_args <$> ms) ++ ap) _ Hs) as Hs1. rewrite (sa_loc _ _ _ _ _ Hs1).
    unfold SIZEOF_INT. destruct (Z.ltb_spec max_len (zlen out + 4)); [lia|].
    destruct (append_at _ _ _ _ _ (le_split 4 n) Hs1) as (s2 & -> & Hs2); [rewrite zlen_le_split; lia|rewrite zlen_le_split; lia|].
    cbn [mbind option_bind]. rewrite length_le_split in Hs2.
    assert (Hd : zlen (drop 4 rest) = zlen rest - 4) by (unfold zlen in *; rewrite length_drop; lia).
    destruct (IH s2 _ _ ap k tl tll st Hok Hs2) as (s' & rest' & E & Hs' & Hz);
      [rewrite zlen_app, zlen_le_split; lia|rewrite zlen_app, zlen_le_split; lia|].
    exists s', rest'. split; [exact E|]. rewrite app_assoc. split; [exact Hs'|].
    rewrite <- Hz, zlen_app, zlen_le_split. lia.
Qed.

(** An argument is taken and [bs] is stored for it. *)
Lemma store_at s out rest a ap st bs :
  ser_at s out rest (a :: ap) st -> zlen out + zlen bs <= max_len -> max_len <= zlen out + zlen rest ->
  exists s' rest', append (with_ap s ap) bs = Some s' /\ ser_at s' (out ++ bs) rest' ap st /\
    zlen out + zlen rest = zlen (out ++ bs) + zlen rest'.
Proof.
  intros Hs Hroom Hcap. destruct (append_at _ _ _ _ _ bs (with_ap_at _ _ _ _ ap _ Hs)) as (s' & E & Hs'); [lia|lia|].
  eexists _, _. split; [exact E|]. split; [exact Hs'|]. rewrite zlen_app. pose proof (zlen_nonneg bs).
  unfold zlen in *. rewrite length_drop. lia.
Qed.

Lemma if_room_ok n s out rest ap st k : ser_at s out rest ap st -> zlen out + n <= max_len -> if_room max_len n s k = k.
Proof. intros Hs H. unfold if_room. rewrite (sa_loc _ _ _ _ _ Hs). destruct (Z.ltb_spec max_len (zlen out + n)); [lia|done]. Qed.

(** The copy of a string stops at the limit, or at the end of the string. *)
Lemma my_strlcpy_cut out rest a lim left_ (b := take (Z.to_nat lim) a) :
  0 <= lim -> zlen b + 1 <= left_ -> left_ < 2 ^ 32 -> zlen b < zlen rest ->
  my_strlcpy (out ++ rest) (zlen out) a (QB_MIN (lim + 1) left_) = Some ((out ++ b ++ [0]) ++ drop (S (length b)) rest, zlen b).
Proof.
  intros Hlim Hleft Hmx Hr. pose proof (zlen_nonneg b). pose proof (zlen_nonneg a).
  assert (Hb : zlen b = Z.min lim (zlen a)) by (unfold b, zlen; rewrite length_take; lia).
  set (n := QB_MIN (lim + 1) left_). assert (Hn : zlen b + 1 <= n <= left_) by (unfold n, QB_MIN; zcase; lia).
  assert (Hn' : n <= lim + 1) by (unfold n, QB_MIN; zcase; lia).
  unfold my_strlcpy, strlcpy. destruct (Z.eqb_spec n 0); [lia|].
  assert (Hm : QB_MIN (n - 1) (zlen a) = zlen b) by (unfold QB_MIN; zcase; lia).
  rewrite Hm. replace (take (Z.to_nat (zlen b)) a) with b.
  2:{ unfold b at 1. destruct (Z.le_ge_cases lim (zlen a)).
      - f_equal. rewrite Hb. lia.
      - rewrite !take_ge; [done|unfold zlen in *; lia..]. }
  rewrite buf_put_end by lia. cbn [mbind option_bind]. rewrite <- zlen_app.
  rewrite buf_put_end by (unfold zlen in *; cbn [length]; rewrite length_drop; lia). cbn [mbind option_bind].
  rewrite drop_drop. cbn [length]. rewrite Nat.add_1_r, !app_assoc. do 2 f_equal.
  rewrite u64_small by lia. unfold QB_MIN. zcase; lia.
Qed.

Lemma ser_string_ok s out rest arg ap st (v := cut (fst st) (A_str arg)) :
  ser_at s out rest (V_str arg :: ap) st -> (is_Some arg -> 0 <= fst st < 2 ^ 64 - 1) ->
  zlen out + zlen (value_data v) <= max_len -> max_len <= zlen out + zlen rest ->
  exists s' rest', ser_string max_len (with_ap s ap) arg = Some s' /\ ser_at s' (out ++ value_data v) rest' ap st /\
    zlen out + zlen rest = zlen (out ++ value_data v) + zlen rest'.
Proof.
  intros Hs Hlim Hroom Hcap. pose proof (with_ap_at _ _ _ _ ap _ Hs) as [Hb Hl Hp Ha].
  assert (Hfl : sformat_length (with_ap s ap) = fst st) by (by rewrite <- Hp).
  assert (exists a lim, value_data v = take (Z.to_nat lim) a ++ [0] /\ 0 <= lim /\
    ser_string max_len (with_ap s ap) arg =
      '(b, n) ← my_strlcpy (s_buf (with_ap s ap)) (location (with_ap s ap)) a
                  (QB_MIN (lim + 1) (u64 (max_len - location (with_ap s ap))));
      Some (with_out (with_ap s ap) b (u32 (u32 (location (with_ap s ap) + n) + 1)))) as (a & lim & Hv & Hlim0 & ->).
  { assert (Hall : forall x : list Z, take (Z.to_nat (zlen x)) x = x) by (intros; unfold zlen; by rewrite Nat2Z.id, firstn_all).
    unfold ser_string, v. rewrite Hfl. destruct arg as [x|]; cbn [cut].
    - destruct (Z.eqb_spec (fst st) 0); cbn [negb].
      + exists x, (zlen x). rewrite Hall. pose proof (zlen_nonneg x). done.
      + specialize (Hlim ltac:(eauto)). exists x, (fst st). rewrite u64_small by lia. split; [done|]. split; [lia|done].
    - exists (bytes "(null)"), (zlen (bytes "(null)")). rewrite Hall. done. }
  set (b := take (Z.to_nat lim) a) in *. rewrite Hv in Hroom |- *. rewrite zlen_app, zlen_cons, zlen_nil in Hroom.
  pose proof (zlen_nonneg b). pose proof (zlen_nonneg out). rewrite Hb, Hl, u64_small by lia.
  rewrite my_strlcpy_cut by (fold b; lia). fold b. cbn [mbind option_bind]. eexists _, _. split; [done|]. split.
  - constructor; try done. cbn [location with_out]. rewrite !zlen_app, zlen_cons, zlen_nil. unfold u32.
    rewrite Z.mod_small; rewrite Z.mod_small; lia.
  - rewrite !zlen_app, zlen_cons, zlen_nil. unfold zlen in *. rewrite length_drop. lia.
Qed.

Lemma ser_value v s out rest ap st k (v' := cut (fst st) v) :
  value_ok v -> ser_at s out rest (value_arg v :: ap) st ->
  match v with A_str (Some _) => 0 <= fst st < 2 ^ 64 - 1 | _ => True end ->
  zlen out + zlen (value_data v') <= max_len -> max_len <= zlen out + zlen rest ->
  exists k' s' rest', ser_conv max_len (value_text v ++ k) false false s = Some (Next k' s') /\
    strchrnul k' 37 = strchrnul k 37 /\ ser_at s' (out ++ value_data v') rest' ap st /\
    zlen out + zlen rest = zlen (out ++ value_data v') + zlen rest'.
Proof.
  intros Hok Hs Hlim Hroom Hcap. subst v'. pose proof (sa_ap _ _ _ _ _ Hs) as Hap.
  destruct v as [c w z|c b|z|a|p]; cbn [value_text].
  - cbn [cut] in *. destruct (store_at s out rest _ ap _ _ Hs Hroom Hcap) as (s' & rest' & E & Hs' & Hz).
    exists k, s', rest'. split; [|done]. destruct w; cbn [width_text app value_ok value_data value_arg] in *; destruct Hok as [Hc _].
    all: rewrite zlen_le_split in Hroom; among_cases Hc; cbn [ser_conv]; among_compute.
    all: erewrite if_room_ok by (exact Hs || exact Hroom); rewrite Hap; cbn [va_int va_long mbind option_bind]; by rewrite E.
  - cbn [cut] in *. destruct (store_at s out rest _ ap _ _ Hs Hroom Hcap) as (s' & rest' & E & Hs' & Hz).
    exists k, s', rest'. split; [|done]. cbn [app value_ok value_data value_arg] in *. destruct Hok as [Hc _].
    rewrite zlen_le_split in Hroom. among_cases Hc; cbn [ser_conv]; among_compute.
    all: erewrite if_room_ok by (exact Hs || exact Hroom); rewrite Hap; cbn [va_double mbind option_bind]; by rewrite E.
  - cbn [cut] in *. destruct (store_at s out rest _ ap _ _ Hs Hroom Hcap) as (s' & rest' & E & Hs' & Hz).
    exists (99 :: k), s', rest'. split; [|done]. cbn [app value_data value_arg] in *. cbn [ser_conv]. among_compute.
    erewrite if_room_ok by (exact Hs || exact Hroom). rewrite Hap. cbn [va_int mbind option_bind]. by rewrite E.
  - destruct (ser_string_ok s out rest a ap st Hs) as (s' & rest' & E & Hs' & Hz); [|done|done|].
    { destruct a; [done|]. by intros []. }
    exists (115 :: k), s', rest'. split; [|done]. cbn [app]. cbn [ser_conv]. among_compute.
    rewrite Hap. cbn [value_arg va_str mbind option_bind]. by rewrite E.
  - cbn [cut] in *. destruct (store_at s out rest _ ap _ _ Hs Hroom Hcap) as (s' & rest' & E & Hs' & Hz).
    exists (112 :: k), s', rest'. split; [|done]. cbn [app value_data value_arg] in *. cbn [ser_conv]. among_compute.
    rewrite Hap. cbn [va_ptr mbind option_bind]. rewrite zlen_le_split in Hroom.
    rewrite (if_room_ok _ _ out rest ap st) by (by eapply with_ap_at || exact Hroom). by rewrite E.
Qed.

Lemma ser_conversion cv s out rest ap k st (st' := conv_limit st cv) (cv' := cut_conv (fst st') cv) :
  conv_ok cv -> string_kept (fst st') cv -> ser_at s out rest (conv_args cv ++ ap) st ->
  zlen out + zlen (conv_data cv') <= max_len -> max_len <= zlen out + zlen rest ->
  exists k' s' rest', ser_conv max_len (conv_text cv ++ k) false false s = Some (Next k' s') /\
    strchrnul k' 37 = strchrnul k 37 /\ ser_at s' (out ++ conv_data cv') rest' ap st' /\
    zlen out + zlen rest = zlen (out ++ conv_data cv') + zlen rest'.
Proof.
  intros (Hm & Hv & _) Hk Hs Hroom Hcap. unfold conv_args in Hs. rewrite <- app_assoc in Hs. unfold conv_data, conv_text in *.
  cbn [mods val cut_conv cv'] in *. rewrite zlen_app in Hroom. pose proof (zlen_nonneg (value_data (cut (fst st') (val cv)))).
  rewrite <- !app_assoc.
  destruct (ser_mods (mods cv) s out rest _ (value_text (val cv) ++ k) false false st Hm Hs) as (s1 & rest1 & -> & Hs1 & Hz1); [lia|lia|].
  fold (conv_limit st cv) in Hs1. fold st' in Hs1.
  destruct (ser_value (val cv) s1 _ rest1 ap st' k Hv Hs1) as (k' & s' & rest' & E & Hk' & Hs' & Hz').
  - unfold string_kept in Hk. destruct (val cv) as [| | |[a|]|]; try done. apply Hk.
  - rewrite zlen_app in *. lia.
  - lia.
  - exists k', s', rest'. rewrite app_assoc. split_and!; [done|done|done|lia].
Qed.

Lemma ser_loop_format fuel f f' s : strchrnul f 37 = strchrnul f' 37 -> ser_loop fuel max_len f s = ser_loop fuel max_len f' s.
Proof. intros E. destruct fuel; cbn [ser_loop]; by rewrite ?E. Qed.

Lemma ser_loop_ok ps tail : forall fuel s out rest st,
  Forall part_ok ps -> strings_kept st ps -> plain_text tail -> (length ps < fuel)%nat ->
  ser_at s out rest (concat ((fun p => conv_args (snd p)) <$> ps)) st ->
  let data := parts_data (cut_parts st ps) in
  zlen out + zlen data <= max_len -> max_len <= zlen out + zlen rest ->
  exists rest', ser_loop fuel max_len (concat ((fun p => fst p ++ 37 :: conv_text (snd p)) <$> ps) ++ tail) s =
    Some ((out ++ data) ++ rest', zlen (out ++ data)).
Proof.
  induction ps as [|[lit cv] ps IH]; intros fuel s out rest st Hok Hk Ht Hf Hs data Hroom Hcap; (destruct fuel as [|fuel]; [lia|]).
  - cbn [fmap list_fmap concat app ser_loop]. rewrite strchrnul_none by by apply plain_no_percent. subst data. cbn.
    rewrite app_nil_r, (sa_buf _ _ _ _ _ Hs), (sa_loc _ _ _ _ _ Hs). eauto.
  - apply list.Forall_cons in Hok as [[Hlit Hcv] Hok]. destruct Hk as [Hk Hks]. subst data. unfold parts_data in Hroom |- *.
    cbn [cut_parts fmap list_fmap concat fst snd] in *. set (st' := conv_limit st cv) in *.
    fold (parts_data (cut_parts st' ps)) in Hroom |- *. rewrite zlen_app in Hroom.
    set (data := parts_data (cut_parts st' ps)) in *. pose proof (zlen_nonneg data). rewrite <- !app_assoc. cbn [app].
    set (k := concat _ ++ tail). cbn [ser_loop]. rewrite strchrnul_skip by by apply plain_no_percent.
    destruct (ser_conversion cv s out rest _ k st Hcv Hk Hs) as (k' & s' & rest' & -> & Hk' & Hs' & Hz); [fold st'; lia|lia|].
    fold st' in Hs', Hz. cbn [mbind option_bind]. rewrite (ser_loop_format fuel k' k s' Hk').
    destruct (IH fuel s' _ rest' st' Hok Hks Ht ltac:(cbn in Hf; lia) Hs') as (rest2 & E2); [rewrite zlen_app; fold data; lia|lia|].
    exists rest2. fold data in E2. rewrite !app_assoc. exact E2.
Qed.
End Ser.

(** The characters of a format. *)
Definition no_mark (c : Z) : Prop := c <> 0 /\ c <> QB_XC.

Lemma plain_no_mark s : plain_text s -> Forall no_mark s.
Proof. apply Forall_impl. intros c (? & _ & ?). done. Qed.

Lemma conv_text_no_mark cv : conv_ok cv -> Forall no_mark (conv_text cv).
Proof.
  intros (Hm & Hv & _). unfold conv_text. apply Forall_app. split.
  - induction Hm as [|[c|n] ms Hm _ IH]; cbn [fmap list_fmap concat mod_text app]; [constructor|..]; (constructor; [|exact IH]); [|done].
    cbn [mod_ok] in Hm. among_cases Hm; done.
  - destruct (val cv) as [c w z|c b|z|a|p]; cbn [value_text value_ok] in *; try (by repeat constructor).
    + assert (Hc : among c "diouxX" = true) by (destruct w; apply Hv). apply Forall_app.
      split; [destruct w; by repeat constructor|]. constructor; [|constructor]. among_cases Hc; done.
    + destruct Hv as [Hc _]. constructor; [|constructor]. among_cases Hc; done.
Qed.

Lemma format_no_mark m : message_ok m -> Forall no_mark (format_of m).
Proof.
  intros (Hp & _ & Ht). unfold format_of. apply Forall_app. split; [|by apply plain_no_mark].
  induction Hp as [|[lit cv] ps [Hlit Hcv] _ IH]; cbn [fmap list_fmap concat fst snd]; [constructor|].
  rewrite <- app_assoc. cbn [app]. apply Forall_app. split; [by apply plain_no_mark|]. constructor; [done|].
  apply Forall_app. split; [by apply conv_text_no_mark|exact IH].
Qed.

Lemma replace_xc_id s rest : Forall no_mark s -> replace_xc (s ++ 0 :: rest) = Some (s ++ 0 :: rest).
Proof.
  induction 1 as [|c s [H0 H7] _ IH]; [done|]. cbn [app replace_xc]. destruct (Z.eqb_spec c 0); [done|].
  destruct (Z.eqb_spec c QB_XC); [done|]. by rewrite IH.
Qed.

Lemma parts_fuel m : (length (parts m) < S (length (format_of m)))%nat.
Proof.
  unfold format_of. rewrite length_app. induction (parts m) as [|[lit cv] ps IH]; cbn [fmap list_fmap concat fst snd length]; [lia|].
  rewrite !length_app. cbn [length]. lia.
Qed.

Lemma serialize_ok m buf max_len :
  message_ok m -> zlen (stored m) <= max_len -> max_len <= zlen buf -> max_len < 2 ^ 32 ->
  exists rest, qb_vsnprintf_serialize buf max_len (format_of m) (args_of m) = Some (stored m ++ rest, zlen (stored m)).
Proof.
  intros Hok Hroom Hcap Hmax. unfold stored in Hroom. rewrite zlen_app, zlen_cons in Hroom.
  pose proof (zlen_nonneg (data_of m)). pose proof (zlen_nonneg (format_of m)). unfold qb_vsnprintf_serialize, my_strlcpy.
  change buf with ([] ++ buf). change 0 with (zlen (@nil Z)) at 2. rewrite strlcpy_end by lia. cbn [mbind option_bind app].
  rewrite <- app_assoc. cbn [app]. rewrite replace_xc_id by by apply format_no_mark. cbn [mbind option_bind].
  assert (En : QB_MIN (zlen (format_of m)) (u64 (max_len - 1)) = zlen (format_of m)).
  { unfold u64, QB_MIN. rewrite Z.mod_small by lia. zcase; lia. }
  rewrite En. set (s := {| s_buf := _ |}). set (rest := drop (S (length (format_of m))) buf) in *.
  assert (Hs : ser_at s (format_of m ++ [0]) rest (args_of m) no_limit).
  { constructor; try done; cbn; [by rewrite <- app_assoc|]. rewrite zlen_app, zlen_cons, zlen_nil. unfold u32. apply Z.mod_small. lia. }
  destruct (ser_loop_ok max_len Hmax (parts m) (tail_text m) (S (length (format_of m))) s (format_of m ++ [0]) rest no_limit) as (rest' & E).
  - apply Hok.
  - apply Hok.
  - apply Hok.
  - apply parts_fuel.
  - exact Hs.
  - fold (data_of m). rewrite zlen_app, zlen_cons, zlen_nil. lia.
  - rewrite zlen_app, zlen_cons, zlen_nil. unfold rest, zlen in *. rewrite length_drop. lia.
  - fold (data_of m) in E. fold (format_of m) in E. exists rest'. rewrite E. unfold stored. by rewrite <- !app_assoc.
Qed.

(** ** Deserializing *)

Section Des.
Context (render : list Z -> varg -> list Z) (str_len : Z) (Hstr : str_len < 2 ^ 32).

(** [txt] has been printed, [f] is the start of the small format, and [data]
    comes next in the stored message. *)
Record des_at (d : des) (buf txt : list Z) (room : Z) (f data : list Z) : Prop := {
  da_string : exists rest, d_string d = txt ++ rest /\ zlen rest = room;
  da_loc : d_location d = zlen txt;
  da_fmt : exists rest, d_fmt d = f ++ rest /\ zlen f + zlen rest = MINI_FORMAT_STR_LEN;
  da_data : exists pre post, buf = pre ++ data ++ post /\ data_pos d = zlen pre /\ zlen buf < 2 ^ 32;
}.

Lemma push_at d buf txt room f data c :
  des_at d buf txt room f data -> zlen f + 1 <= MINI_FORMAT_STR_LEN ->
  exists d', push d (zlen f) c = Some d' /\ des_at d' buf txt room (f ++ [c]) data.
Proof.
  intros [Hs Hl (rest & Hf & Hz) Hd] Hr. unfold push. rewrite Hf, buf_put_end by (rewrite zlen_cons, zlen_nil; lia).
  cbn [mbind option_bind length]. eexists. split; [done|]. constructor; try done. eexists. split; [done|].
  rewrite zlen_app, zlen_cons, zlen_nil. unfold zlen in *. rewrite length_drop. lia.
Qed.

(** Taking [bs] from the data. *)
Lemma take_data d buf txt room f bs data :
  des_at d buf txt room f (bs ++ data) ->
  buf_get buf (data_pos d) (zlen bs) = Some bs /\ des_at (with_pos d (u32 (data_pos d + zlen bs))) buf txt room f data.
Proof.
  intros [Hs Hl Hf (pre & post & -> & Hp & Hb)]. rewrite Hp, <- app_assoc. split; [apply buf_get_mid|].
  constructor; try done. exists (pre ++ bs), post. rewrite <- !app_assoc. split_and!; [done| |by rewrite <- app_assoc in Hb].
  cbn [data_pos with_pos]. rewrite zlen_app. unfold u32. apply Z.mod_small.
  rewrite !zlen_app in Hb. pose proof (zlen_nonneg pre). pose proof (zlen_nonneg bs). pose proof (zlen_nonneg data). pose proof (zlen_nonneg post). lia.
Qed.

Lemma i32_le_split n : - 2 ^ 31 <= n < 2 ^ 31 -> i32 (le_combine (le_split 4 n)) = n.
Proof. intros H. rewrite le_combine_split. unfold i32. change (256 ^ Z.of_nat 4) with (2 ^ 32). zlia. Qed.
Lemma i64_le_split n : - 2 ^ 63 <= n < 2 ^ 63 -> i64 (le_combine (le_split 8 n)) = n.
Proof. intros H. rewrite le_combine_split. unfold i64. change (256 ^ Z.of_nat 8) with (2 ^ 64). zlia. Qed.

Lemma des_mods ms : forall d buf txt room f data k,
  Forall mod_ok ms -> des_at d buf txt room f (concat (mod_data <$> ms) ++ data) ->
  zlen f + zlen (concat (mod_spec <$> ms)) < MINI_FORMAT_STR_LEN ->
  exists d', des_conv render str_len buf (concat (mod_text <$> ms) ++ k) false false (zlen f) d =
      des_conv render str_len buf k false false (zlen (f ++ concat (mod_spec <$> ms))) d' /\
    des_at d' buf txt room (f ++ concat (mod_spec <$> ms)) data.
Proof.
  induction ms as [|[c|n] ms IH]; intros d buf txt room f data k Hok Hd Hr.
  - exists d. cbn in *. by rewrite app_nil_r.
  - apply list.Forall_cons in Hok as [Hc Hok]. cbn [mod_ok] in Hc. cbn [fmap list_fmap concat mod_text mod_data mod_spec app] in *.
    rewrite zlen_cons in Hr. pose proof (zlen_nonneg (concat (mod_spec <$> ms))).
    destruct (push_at d buf txt room f _ c Hd) as (d1 & E1 & Hd1); [lia|].
    destruct (IH d1 buf txt room (f ++ [c]) data k Hok Hd1) as (d' & E & Hd'); [rewrite zlen_app, zlen_cons, zlen_nil; lia|].
    exists d'. rewrite <- app_assoc in E, Hd'. split; [|exact Hd']. rewrite zlen_app, zlen_cons, zlen_nil in E.
    rewrite Z.add_0_r in E. cbn [app] in E. rewrite <- E. cbn [des_conv].
    among_cases Hc; among_compute; by rewrite E1.
  - apply list.Forall_cons in Hok as [Hn Hok]. cbn [mod_ok] in Hn. cbn [fmap list_fmap concat mod_text mod_data mod_spec app] in *.
    rewrite zlen_app in Hr. pose proof (zlen_nonneg (concat (mod_spec <$> ms))). pose proof (zlen_nonneg f).
    pose proof (zlen_nonneg (decimal n)). rewrite <- app_assoc in Hd.
    destruct (take_data _ _ _ _ _ _ _ Hd) as [Eg Hd1]. rewrite zlen_le_split in Eg, Hd1. change (Z.of_nat 4) with SIZEOF_INT in Eg, Hd1.
    pose proof Hd1 as [Hs Hl (rest & Hf & Hz) Hdata].
    cbn [des_conv]. among_compute. rewrite Eg. cbn [mbind option_bind]. rewrite i32_le_split by done. rewrite Hf.
    rewrite snprintf_end; [|unfold u64, MINI_FORMAT_STR_LEN in *; rewrite Z.mod_small; lia|lia]. cbn [mbind option_bind].
    rewrite <- (zlen_app f). set (d2 := with_fmt _ _).
    destruct (IH d2 buf txt room (f ++ decimal n) data k Hok) as (d' & E & Hd'); [|rewrite zlen_app; lia|].
    { constructor; try done. exists (0 :: drop (S (length (decimal n))) rest). split; [cbn; by rewrite <- !app_assoc|].
      rewrite zlen_cons, zlen_app. unfold zlen in *. rewrite length_drop. lia. }
    exists d'. rewrite <- !app_assoc in *. split; [exact E|exact Hd'].
Qed.

(** A value is printed behind [txt]. *)
Lemma print_at d buf txt room f data c v :
  des_at d buf txt room f data -> zlen f + 2 <= MINI_FORMAT_STR_LEN -> nul_free (f ++ [c]) ->
  let r := render (f ++ [c]) v in
  zlen txt + zlen r < str_len -> str_len <= zlen txt + room ->
  exists d', print render str_len d (zlen f) c v = Some d' /\ des_at d' buf (txt ++ r) (room - zlen r) [] data /\
    exists rest, d_string d' = (txt ++ r) ++ 0 :: rest.
Proof.
  intros Hd Hf Hnul r Hr Hroom. pose proof (zlen_nonneg r). pose proof (zlen_nonneg txt). unfold print.
  destruct (push_at d buf txt room f data c Hd) as (d1 & -> & Hd1); [lia|]. cbn [mbind option_bind].
  assert (El : zlen f + 1 = zlen (f ++ [c])) by (by rewrite zlen_app). rewrite El.
  destruct (push_at d1 buf txt room (f ++ [c]) data 0 Hd1) as (d2 & -> & Hd2); [lia|]. cbn [mbind option_bind].
  destruct Hd2 as [(srest & Hs & Hsr) Hl (frest & Hfr & Hz) Hdata]. rewrite Hfr, <- (app_assoc (f ++ [c])). cbn [app].
  rewrite cstr_app by done. cbn [mbind option_bind]. fold r. rewrite Hs, Hl.
  rewrite snprintf_end; [|unfold u64; rewrite Z.mod_small; lia|lia]. cbn [mbind option_bind]. eexists. split; [done|].
  split; [constructor|].
  - eexists (0 :: _). split; [cbn; by rewrite <- !app_assoc|]. rewrite zlen_cons. unfold zlen in *. rewrite length_drop. lia.
  - cbn. rewrite zlen_app. unfold u32. apply Z.mod_small. lia.
  - exists (d_fmt d2). split; [done|]. rewrite Hfr. by rewrite zlen_app, zlen_nil.
  - done.
  - eexists. cbn. by rewrite <- !app_assoc.
Qed.

Lemma des_width w c d buf txt room f data k :
  among c "diouxX" = true -> des_at d buf txt room f data -> zlen f + zlen (width_text w) < MINI_FORMAT_STR_LEN ->
  exists d' tl tll, des_conv render str_len buf (width_text w ++ c :: k) false false (zlen f) d =
      des_conv render str_len buf (c :: k) tl tll (zlen (f ++ width_text w)) d' /\
    des_at d' buf txt room (f ++ width_text w) data /\ tl || tll = match w with W_none => false | _ => true end.
Proof.
  intros Hc Hd Hr. destruct w; cbn [width_text app] in *; rewrite ?zlen_cons, ?zlen_nil in Hr.
  - exists d, false, false. by rewrite app_nil_r.
  - destruct (push_at d buf txt room f data 108 Hd) as (d1 & E1 & Hd1); [lia|]. exists d1, true, false. split; [|done].
    rewrite zlen_app, zlen_cons, zlen_nil, Z.add_0_r. change (des_conv render str_len buf (108 :: c :: ?k) false false ?p d) with
      (d' ← push d p 108; if among c "l" then des_conv render str_len buf (c :: k) false true (p + 1) d'
         else des_conv render str_len buf (c :: k) true false (p + 1) d').
    rewrite E1. cbn [mbind option_bind]. among_cases Hc; among_compute; done.
  - destruct (push_at d buf txt room f data 108 Hd) as (d1 & E1 & Hd1); [lia|].
    destruct (push_at d1 buf txt room _ data 108 Hd1) as (d2 & E2 & Hd2); [rewrite zlen_app, zlen_cons, zlen_nil; lia|].
    exists d2, true, true. rewrite <- app_assoc in Hd2. split; [|done].
    rewrite zlen_app, zlen_cons, zlen_nil, Z.add_0_r in E2. rewrite zlen_app, !zlen_cons, zlen_nil, Z.add_0_r, Z.add_assoc.
    change (des_conv render str_len buf (108 :: 108 :: c :: ?k) false false ?p d) with
      (d' ← push d p 108; d'' ← push d' (p + 1) 108;
       if among c "l" then des_conv render str_len buf (c :: k) false true (p + 1 + 1) d''
         else des_conv render str_len buf (c :: k) true true (p + 1 + 1) d'').
    rewrite E1. cbn [mbind option_bind]. rewrite E2. cbn [mbind option_bind]. among_cases Hc; among_compute; done.
  - destruct (push_at d buf txt room f data 122 Hd) as (d1 & E1 & Hd1); [lia|]. exists d1, false, true. split; [|done].
    rewrite zlen_app, zlen_cons, zlen_nil, Z.add_0_r. cbn [des_conv]. among_compute. by rewrite E1.
  - destruct (push_at d buf txt room f data 116 Hd) as (d1 & E1 & Hd1); [lia|]. exists d1, false, true. split; [|done].
    rewrite zlen_app, zlen_cons, zlen_nil, Z.add_0_r. cbn [des_conv]. among_compute. by rewrite E1.
  - destruct (push_at d buf txt room f data 106 Hd) as (d1 & E1 & Hd1); [lia|]. exists d1, false, true. split; [|done].
    rewrite zlen_app, zlen_cons, zlen_nil, Z.add_0_r. cbn [des_conv]. among_compute. by rewrite E1.
Qed.

(** What a conversion leaves. *)
Definition printed (d' : des) (buf txt : list Z) (room : Z) (r data : list Z) : Prop :=
  des_at d' buf (txt ++ r) (room - zlen r) [] data /\ exists rest, d_string d' = (txt ++ r) ++ 0 :: rest.

(** Print a value that is stored as [bs] and go past it. *)
Lemma print_take d buf txt room f bs data c v :
  des_at d buf txt room f (bs ++ data) -> zlen f + 2 <= MINI_FORMAT_STR_LEN -> nul_free (f ++ [c]) ->
  zlen txt + zlen (render (f ++ [c]) v) < str_len -> str_len <= zlen txt + room ->
  buf_get buf (data_pos d) (zlen bs) = Some bs /\
  exists d', print render str_len d (zlen f) c v = Some d' /\
    printed (with_pos d' (u32 (data_pos d' + zlen bs))) buf txt room (render (f ++ [c]) v) data.
Proof.
  intros Hd Hf Hnul Hr Hroom. split; [by apply (take_data _ _ _ _ _ _ _ Hd)|].
  destruct (print_at d buf txt room f (bs ++ data) c v Hd Hf Hnul Hr Hroom) as (d' & E & Hd' & Hs).
  exists d'. split; [exact E|]. split; [by apply (take_data _ _ _ _ _ _ _ Hd')|exact Hs].
Qed.

Lemma des_string_at d buf txt room f a data :
  des_at d buf txt room f ((a ++ [0]) ++ data) -> nul_free a -> cstr_at buf (data_pos d) = Some a.
Proof.
  intros [_ _ _ (pre & post & -> & Hp & _)] Ha. rewrite Hp, <- !app_assoc. cbn [app]. by apply cstr_at_mid.
Qed.

Lemma nul_free_snoc f c : nul_free f -> c <> 0 -> nul_free (f ++ [c]).
Proof. intros Hf Hc. apply Forall_app. split; [done|]. by repeat constructor. Qed.

Lemma des_int c w z d buf txt room f data k :
  value_ok (A_int c w z) -> des_at d buf txt room f (value_data (A_int c w z) ++ data) -> nul_free f ->
  zlen f + zlen (width_text w ++ [c]) < MINI_FORMAT_STR_LEN ->
  let r := render (f ++ width_text w ++ [c]) (shown (A_int c w z)) in
  zlen txt + zlen r < str_len -> str_len <= zlen txt + room ->
  exists d', des_conv render str_len buf ((width_text w ++ [c]) ++ k) false false (zlen f) d = Some (k, d') /\
    printed d' buf txt room r data.
Proof.
  intros Hok Hd Hnul Hf r Hr Hroom. assert (Hc : among c "diouxX" = true) by (destruct w; apply Hok).
  rewrite zlen_app, zlen_cons, zlen_nil in Hf. rewrite <- app_assoc. cbn [app].
  destruct (des_width w c d buf txt room f _ k Hc Hd) as (d1 & tl & tll & -> & Hd1 & Ht); [lia|].
  assert (Hnul1 : nul_free ((f ++ width_text w) ++ [c])).
  { apply nul_free_snoc; [|by among_cases Hc]. apply Forall_app. split; [done|]. destruct w; by repeat constructor. }
  subst r. rewrite (app_assoc f) in Hr |- *.
  destruct (print_take d1 buf txt room _ _ data c (shown (A_int c w z)) Hd1) as (Eg & d' & E & Hp); [rewrite zlen_app; lia|done|done|done|].
  eexists. split; [|exact Hp]. destruct w; cbn [value_data shown value_arg value_ok] in *; rewrite zlen_le_split in Eg |- *;
    change (Z.of_nat 4) with SIZEOF_INT in *; change (Z.of_nat 8) with SIZEOF_LONG in *.
  1: apply orb_false_iff in Ht as [-> ->].
  2-6: destruct tl; [|destruct tll; [|done]].
  all: among_cases Hc; cbn [des_conv]; among_compute; rewrite Eg; cbn [mbind option_bind].
  all: rewrite ?i32_le_split, ?i64_le_split by apply Hok; by rewrite E.
Qed.

Lemma des_value v d buf txt room f data k :
  value_ok v -> des_at d buf txt room f (value_data v ++ data) -> nul_free f ->
  zlen f + zlen (value_text v) < MINI_FORMAT_STR_LEN ->
  let r := render (f ++ value_text v) (shown v) in
  zlen txt + zlen r < str_len -> str_len <= zlen txt + room ->
  exists d', des_conv render str_len buf (value_text v ++ k) false false (zlen f) d = Some (k, d') /\
    printed d' buf txt room r data.
Proof.
  intros Hok Hd Hnul Hf r Hr Hroom. subst r. destruct v as [c w z|c b|z|a|p].
  { by apply des_int. }
  all: cbn [value_text] in *; rewrite zlen_cons, zlen_nil in Hf.
  all: pose proof (fun H1 H2 => print_take _ _ _ _ _ _ _ _ _ Hd H1 H2 Hr Hroom) as Hpt.
  all: destruct Hpt as (Eg & d' & E & Hp); [lia| |];
    [apply nul_free_snoc; [done|]; by first [done|destruct Hok as [Hc _]; among_cases Hc]|].
  all: eexists; (split; [|exact Hp]).
  - destruct Hok as [Hc Hb]. cbn [value_data shown value_arg] in *. rewrite zlen_le_split in Eg |- *. change (Z.of_nat 8) with SIZEOF_DOUBLE in *.
    assert (Ec : le_combine (le_split 8 b) = b) by (rewrite le_combine_split; apply Z.mod_small; exact Hb).
    among_cases Hc; cbn [app des_conv]; among_compute; rewrite Eg; cbn [mbind option_bind]; rewrite Ec; by rewrite E.
  - cbn [value_data shown value_arg value_ok] in *. cbn [app des_conv]. among_compute. change (zlen [u8 z]) with 1 in *. rewrite Eg.
    cbn [mbind option_bind le_combine]. assert (Ez : u8 z = z) by (unfold u8; apply Z.mod_small; lia).
    rewrite Ez, Z.mul_0_r, Z.add_0_r. by rewrite E.
  - cbn [app des_conv]. among_compute. cbn [value_data] in Hd.
    rewrite (des_string_at _ _ _ _ _ _ _ Hd) by (destruct a; [exact Hok|by repeat constructor]). cbn [mbind option_bind].
    cbn [value_data] in *. rewrite zlen_app, zlen_cons, zlen_nil, Z.add_0_r. destruct a as [a|]; cbn [shown value_arg default from_option id] in *; by rewrite E.
  - cbn [value_data shown value_arg value_ok] in *. rewrite zlen_le_split in Eg |- *. change (Z.of_nat 8) with SIZEOF_PTR in *.
    cbn [app des_conv]. among_compute. rewrite Eg. cbn [mbind option_bind]. rewrite i64_le_split by done. by rewrite E.
Qed.

Lemma mods_nul_free ms : Forall mod_ok ms -> nul_free (concat (mod_spec <$> ms)).
Proof.
  induction 1 as [|[c|n] ms Hm _ IH]; cbn [fmap list_fmap concat mod_spec app]; [constructor|..].
  - constructor; [|exact IH]. cbn [mod_ok] in Hm. among_cases Hm; done.
  - apply Forall_app. split; [apply decimal_nul_free|exact IH].
Qed.

Lemma des_conversion cv d buf txt room data k :
  conv_ok cv -> des_at d buf txt room [37] (conv_data cv ++ data) ->
  let r := render (spec_of cv) (shown (val cv)) in
  zlen txt + zlen r < str_len -> str_len <= zlen txt + room ->
  exists d', des_conv render str_len buf (conv_text cv ++ k) false false 1 d = Some (k, d') /\ printed d' buf txt room r data.
Proof.
  intros (Hm & Hv & Hlen) Hd r Hr Hroom. unfold conv_text, conv_data in *. rewrite <- app_assoc in Hd |- *.
  unfold spec_of in Hlen. rewrite zlen_cons, zlen_app in Hlen. pose proof (zlen_nonneg (value_text (val cv))).
  destruct (des_mods (mods cv) d buf txt room [37] _ (value_text (val cv) ++ k) Hm Hd) as (d1 & E1 & Hd1).
  { rewrite zlen_cons, zlen_nil. lia. }
  change (zlen [37]) with 1 in E1. rewrite E1. subst r. unfold spec_of in Hr |- *.
  change (37 :: concat (mod_spec <$> mods cv) ++ value_text (val cv)) with
    (([37] ++ concat (mod_spec <$> mods cv)) ++ value_text (val cv)) in *.
  apply des_value; try done; [constructor; [done|by apply mods_nul_free]|].
  change ([37] ++ ?x) with (37 :: x). rewrite zlen_cons. lia.
Qed.

(** The text before a conversion. *)
Lemma literal_at d buf txt room data lit :
  des_at d buf txt room [] data -> zlen lit <= room -> zlen txt + zlen lit < 2 ^ 32 ->
  exists b d', buf_put (d_string d) (d_location d) lit = Some b /\
    push (with_string d b (u32 (d_location d + zlen lit))) 0 37 = Some d' /\
    des_at d' buf (txt ++ lit) (room - zlen lit) [37] data.
Proof.
  intros [(rest & Hs & Hr) Hl Hf Hd] Hroom Hsz. pose proof (zlen_nonneg lit). pose proof (zlen_nonneg txt).
  rewrite Hs, Hl, buf_put_end by lia. set (b := (txt ++ lit) ++ _). exists b.
  assert (Hd1 : des_at (with_string d b (u32 (zlen txt + zlen lit))) buf (txt ++ lit) (room - zlen lit) [] data).
  { constructor; try done.
    - eexists. split; [done|]. unfold zlen in *. rewrite length_drop. lia.
    - cbn. rewrite zlen_app. unfold u32. apply Z.mod_small. lia. }
  destruct (push_at _ _ _ _ _ _ 37 Hd1) as (d' & E & Hd'); [done|]. exists d'. by split_and!.
Qed.

Definition part_shown (p : list Z * conversion) : list Z := fst p ++ render (spec_of (snd p)) (shown (val (snd p))).

Lemma des_tail d buf txt room data tail fuel :
  des_at d buf txt room [] data -> (exists rest, d_string d = txt ++ 0 :: rest) -> nul_free txt -> plain_text tail ->
  zlen txt + zlen tail < str_len -> str_len <= zlen txt + room ->
  exists rest, des_loop render (S fuel) str_len buf tail d = Ends (txt ++ tail ++ 0 :: rest, zlen (txt ++ tail) + 1).
Proof.
  intros [(srest & Hs & Hsr) Hl Hf Hd] [rest Hr] Hnul Htail Hlen Hroom. cbn [des_loop].
  pose proof (zlen_nonneg tail). pose proof (zlen_nonneg txt).
  rewrite strchrnul_none by by apply plain_no_percent. unfold my_strlcat, strlcat.
  assert (Ec : cstr (d_string d) = Some txt) by (rewrite Hr; by apply cstr_app). rewrite Ec. cbn [mbind option_bind]. unfold u64. rewrite !Z.mod_small by lia.
  destruct (Z.ltb_spec 0 (str_len - zlen txt)); [|lia]. rewrite Hs, strlcpy_end by lia. cbn [mbind option_bind ended_bind checked].
  eexists. rewrite <- !app_assoc. cbn [app]. do 2 f_equal. rewrite zlen_app. unfold QB_MIN. zcase; lia.
Qed.

Lemma des_loop_ok ps tail : forall fuel d buf txt room post,
  Forall part_ok ps -> plain_text tail -> (length ps < fuel)%nat ->
  Forall (fun p => nul_free (render (spec_of (snd p)) (shown (val (snd p))))) ps ->
  des_at d buf txt room [] (concat ((fun p => conv_data (snd p)) <$> ps) ++ post) ->
  (exists rest, d_string d = txt ++ 0 :: rest) -> nul_free txt ->
  let text := concat (part_shown <$> ps) ++ tail in
  zlen txt + zlen text < str_len -> str_len <= zlen txt + room ->
  exists rest, des_loop render fuel str_len buf (concat ((fun p => fst p ++ 37 :: conv_text (snd p)) <$> ps) ++ tail) d =
    Ends (txt ++ text ++ 0 :: rest, zlen (txt ++ text) + 1).
Proof.
  induction ps as [|[lit cv] ps IH]; intros fuel d buf txt room post Hok Ht Hf Hren Hd Hs Hnul text Hlen Hroom;
    (destruct fuel as [|fuel]; [lia|]).
  { by eapply des_tail. }
  apply list.Forall_cons in Hok as [[Hlit Hcv] Hok], Hren as [Hr0 Hren]. cbn [fst snd] in *. subst text.
  cbn [fmap list_fmap concat fst snd] in *. change (part_shown (lit, cv)) with (lit ++ render (spec_of cv) (shown (val cv))) in *.
  rewrite <- !app_assoc in *. cbn [app] in *. set (r := render (spec_of cv) (shown (val cv))) in *.
  set (more := concat (part_shown <$> ps) ++ tail) in *. rewrite !zlen_app in Hlen.
  pose proof (zlen_nonneg lit). pose proof (zlen_nonneg r). pose proof (zlen_nonneg more). pose proof (zlen_nonneg txt).
  set (k := concat _ ++ tail). cbn [des_loop]. rewrite strchrnul_skip by by apply plain_no_percent.
  assert (El : zlen (lit ++ 37 :: conv_text cv ++ k) - zlen (37 :: conv_text cv ++ k) = zlen lit) by (rewrite zlen_app; lia).
  rewrite El. replace (take (Z.to_nat (zlen lit)) (lit ++ 37 :: conv_text cv ++ k)) with lit
    by (unfold zlen; by rewrite Nat2Z.id, take_app_length).
  destruct (literal_at d buf txt room _ lit Hd) as (b & d1 & -> & E1 & Hd1); [lia|lia|]. cbn [mbind ended_bind checked]. rewrite E1.
  cbn [mbind ended_bind checked].
  destruct (des_conversion cv d1 buf (txt ++ lit) (room - zlen lit) _ k Hcv Hd1) as (d2 & -> & Hd2 & Hs2);
    [rewrite zlen_app; fold r; lia|rewrite zlen_app; lia|]. cbn [mbind ended_bind checked]. fold r in Hd2, Hs2.
  destruct (IH fuel d2 buf ((txt ++ lit) ++ r) (room - zlen lit - zlen r) post Hok Ht) as (rest & E); try done.
  - cbn in Hf. lia.
  - apply Forall_app. split; [apply Forall_app; split; [done|by apply plain_nul_free]|done].
  - fold more. rewrite !zlen_app. lia.
  - rewrite !zlen_app. lia.
  - exists rest. fold more in E. subst k. rewrite E, <- !app_assoc. done.
Qed.
End Des.

(** *** Cut strings print the same *)

Definition same_part (render : list Z -> varg -> list Z) (p p' : list Z * conversion) : Prop :=
  fst p' = fst p /\ conv_text (snd p') = conv_text (snd p) /\ (part_ok p -> part_ok p') /\
  render (spec_of (snd p')) (shown (val (snd p'))) = render (spec_of (snd p)) (shown (val (snd p))).

Lemma cut_same render limit lit cv :
  string_kept limit cv -> obeys_precision render (lit, cv) -> same_part render (lit, cv) (lit, cut_conv limit cv).
Proof.
  unfold string_kept, obeys_precision. cbn [snd]. intros Hk Hr.
  assert (Ht : value_text (cut limit (val cv)) = value_text (val cv)) by (destruct (val cv) as [| | |[a|]|]; try done; cbn; by case_match).
  assert (Hsp : spec_of (cut_conv limit cv) = spec_of cv) by (unfold spec_of; cbn [mods val cut_conv]; by rewrite Ht).
  split_and!; cbn [fst snd]; [done|unfold conv_text; cbn [mods val cut_conv]; by rewrite Ht| |].
  - intros [Hl (Hm & Hv & Hz)]. split; [done|]. cbn [snd]. split; [done|]. rewrite Hsp. split; [|done]. cbn [val cut_conv]. cbn [snd] in Hv.
    destruct (val cv) as [| | |[a|]|]; try done. cbn [cut]. destruct (limit =? 0); [done|]. cbn. by apply Forall_take.
  - rewrite Hsp. cbn [val cut_conv]. destruct (val cv) as [| | |[a|]|]; try done. cbn [cut].
    destruct (Z.eqb_spec limit 0); [done|]. destruct Hk as [Hk0 [?|[Hk|Hk]]]; [done| |].
    + by rewrite take_ge by (unfold zlen in Hk; lia).
    + rewrite Hk in *. cbn [shown value_arg]. by apply Hr.
Qed.

Lemma cut_parts_same render ps : forall st,
  strings_kept st ps -> Forall (obeys_precision render) ps -> Forall2 (same_part render) ps (cut_parts st ps).
Proof.
  induction ps as [|[lit cv] ps IH]; intros st Hk Hr; cbn [cut_parts]; [constructor|]. destruct Hk as [Hk Hks].
  apply list.Forall_cons in Hr as [Hr0 Hr]. constructor; [by apply cut_same|by apply IH].
Qed.

Lemma same_parts render ps ps' : Forall2 (same_part render) ps ps' ->
  (fun p => fst p ++ 37 :: conv_text (snd p)) <$> ps' = (fun p => fst p ++ 37 :: conv_text (snd p)) <$> ps /\
  part_shown render <$> ps' = part_shown render <$> ps /\ (Forall part_ok ps -> Forall part_ok ps') /\
  (Forall (fun p => nul_free (render (spec_of (snd p)) (shown (val (snd p))))) ps ->
   Forall (fun p => nul_free (render (spec_of (snd p)) (shown (val (snd p))))) ps').
Proof.
  induction 1 as [|p p' ps ps' (H1 & H2 & H3 & H4) _ (I1 & I2 & I3 & I4)]; [done|]. cbn [fmap list_fmap]. unfold part_shown at 1 3.
  rewrite H1, H2, H4. split_and!; [f_equal; exact I1|f_equal; exact I2|..]; (intros [? ?]%list.Forall_cons; constructor; auto).
  by rewrite H4.
Qed.

(** The formats are taken apart again. *)
Lemma deserialize_ok render m string str_len post :
  message_ok m -> Forall (obeys_precision render) (parts m) -> Forall (fun p => nul_free (render (spec_of (snd p)) (shown (val (snd p))))) (parts m) ->
  zlen (text_of render m) < str_len -> str_len <= zlen string -> str_len < 2 ^ 32 -> zlen (stored m ++ post) < 2 ^ 32 ->
  exists rest, qb_vsnprintf_deserialize render string str_len (stored m ++ post) =
    Ends (text_of render m ++ 0 :: rest, zlen (text_of render m) + 1).
Proof.
  intros Hok Hpr Hren Hlen Hcap Hstr Hst. pose proof (zlen_nonneg (text_of render m)). unfold qb_vsnprintf_deserialize, stored in *. rewrite <- app_assoc in *. cbn [app] in *.
  pose proof (format_no_mark m Hok) as Hmark. rewrite cstr_app by (eapply Forall_impl; [|exact Hmark]; by intros c [? _]).
  cbn [mbind ended_bind checked]. change string with ([] ++ string). change 0 with (zlen (@nil Z)) at 2.
  rewrite buf_put_end by (rewrite zlen_cons, zlen_nil; lia). cbn [mbind ended_bind checked app length].
  set (d := {| d_string := _ |}). rewrite zlen_app, zlen_cons in Hst. pose proof (zlen_nonneg (format_of m)). pose proof (zlen_nonneg (data_of m ++ post)).
  destruct Hok as (Hparts & Hkept & Htail). pose proof (cut_parts_same render _ _ Hkept Hpr) as Hsame.
  destruct (same_parts _ _ _ Hsame) as (Hfmt & Hshown & Hpok & Hpnul).
  assert (Htext : concat (part_shown render <$> cut_parts no_limit (parts m)) ++ tail_text m = text_of render m) by (by rewrite Hshown).
  edestruct (des_loop_ok render str_len Hstr (cut_parts no_limit (parts m)) (tail_text m) (S (length (format_of m))) d (format_of m ++ 0 :: data_of m ++ post) [] (zlen string) post)
    as (rest & E); auto.
  - rewrite <- (Forall2_length Hsame). apply parts_fuel.
  - constructor; try done.
    + eexists. split; [done|]. rewrite zlen_cons. unfold zlen in *. rewrite length_drop. lia.
    + exists (zrepeat 0 MINI_FORMAT_STR_LEN). split; done.
    + exists (format_of m ++ [0]), []. rewrite app_nil_r, <- app_assoc. split_and!; [done| |rewrite zlen_app, zlen_cons; lia].
      cbn. rewrite zlen_app, zlen_cons, zlen_nil. unfold u32. rewrite Z.mod_small; lia.
  - by eexists.
  - constructor.
  - rewrite Htext. change (zlen (@nil Z)) with 0. lia.
  - exists rest. rewrite Htext, Hfmt in E. fold (format_of m) in E. rewrite E. done.
Qed.

