(* ===== verification/SerializeBounds.v ===== *)
(** * Log messages as data: bounds and faults

    Which formats are stored within the bounds of the buffer, and what goes
    wrong with others. *)
From S2P Require Import Prelude Memory Cstring Serialize.
From S2P Require Import SerializeTheorems.

(** ** The size of the buffer *)

Lemma buf_put_zlen b i bs b' : buf_put b i bs = Some b' -> zlen b' = zlen b.
Proof. intros E. apply (buf_put_below (i + zlen bs)) in E; [apply E|lia]. Qed.

Lemma my_strlcpy_zlen b i src maxlen b' n : my_strlcpy b i src maxlen = Some (b', n) -> zlen b' = zlen b.
Proof.
  unfold my_strlcpy, strlcpy. destruct (maxlen =? 0); [by intros [= <- _]|].
  destruct (buf_put b i _) as [b1|] eqn:E1; [|done]. cbn [mbind option_bind].
  destruct (buf_put b1 _ [0]) as [b2|] eqn:E2; [|done]. intros [= <- _]. apply buf_put_zlen in E1, E2. congruence.
Qed.

Lemma append_zlen s bs s' : append s bs = Some s' -> zlen (s_buf s') = zlen (s_buf s).
Proof. unfold append. destruct (buf_put _ _ _) eqn:E; [|done]. intros [= <-]. by apply buf_put_zlen in E. Qed.

Lemma ser_string_zlen max_len s arg s' : ser_string max_len s arg = Some s' -> zlen (s_buf s') = zlen (s_buf s).
Proof.
  unfold ser_string. destruct arg as [a|]; [destruct (negb _)|];
    (destruct (my_strlcpy _ _ _ _) as [[b n]|] eqn:E; [|done]); intros [= <-]; by apply my_strlcpy_zlen in E.
Qed.

Definition next_buf (r : ser_next) : list Z := match r with Next _ s | Full s => s_buf s end.

(** Take apart the equation of a step of [ser_conv]. *)
Ltac conv_step :=
  match goal with
  | |- (if ?b then _ else _) = Some _ -> _ => destruct b
  | |- Some _ = Some _ -> _ => intros [= <-]
  | |- (mbind _ ?o) = Some _ -> _ => destruct o eqn:?; [|done]; cbn [mbind option_bind]
  | |- (let '(_, _) := ?p in _) = Some _ -> _ => destruct p
  | |- match ?p with _ => _ end = Some _ -> _ => destruct p
  | H : append _ _ = Some _ |- _ => apply append_zlen in H; cbn [with_ap with_precision s_buf] in H
  | H : ser_string _ _ _ = Some _ |- _ => apply ser_string_zlen in H; cbn [with_ap with_precision s_buf] in H
  end.

Lemma ser_conv_zlen max_len n : forall f tl tll s r,
  (length f < n)%nat -> ser_conv max_len f tl tll s = Some r -> zlen (next_buf r) = zlen (s_buf s).
Proof.
  induction n as [|n IH]; intros f tl tll s r Hn; [lia|]. destruct f as [|c f]; [by intros [= <-]|]. cbn [ser_conv length] in *.
  assert (forall s1 tl tll, ser_conv max_len f tl tll s1 = Some r -> zlen (next_buf r) = zlen (s_buf s1)) as IHf by (intros; eapply IH; [|eassumption]; lia).
  unfold if_room. repeat conv_step; try done; try (by intros E; apply IHf in E; cbn in E; congruence).
  all: try (intros E; apply IH in E; [|cbn in *; lia]; cbn in E; congruence).
  intros E. apply IHf in E. by destruct (sformat_precision s).
Qed.

Lemma ser_loop_zlen max_len fuel : forall f s b n, ser_loop fuel max_len f s = Some (b, n) -> zlen b = zlen (s_buf s).
Proof.
  induction fuel as [|fuel IH]; intros f s b n; [done|]. cbn [ser_loop]. destruct (strchrnul f 37) as [|c k]; [by intros [= <- _]|].
  destruct (ser_conv _ _ _ _ _) as [r|] eqn:E; [|done]. cbn [mbind option_bind]. apply (ser_conv_zlen _ (S (length k))) in E; [|lia].
  destruct r as [f' s'|s']; cbn [next_buf] in E; [|intros [= <- _]; done]. intros E'. apply IH in E'. congruence.
Qed.

Lemma replace_xc_zlen b : forall b', replace_xc b = Some b' -> zlen b' = zlen b.
Proof.
  induction b as [|c b IH]; intros b'; [done|]. cbn [replace_xc]. destruct (c =? 0); [by intros [= <-]|].
  destruct (c =? QB_XC); [destruct b; [done|by intros [= <-]]|].
  destruct (replace_xc b) as [k|] eqn:E; [|done]. intros [= <-]. by rewrite !zlen_cons, (IH k).
Qed.

Lemma serialize_zlen buf max_len fmt ap b n : qb_vsnprintf_serialize buf max_len fmt ap = Some (b, n) -> zlen b = zlen buf.
Proof.
  unfold qb_vsnprintf_serialize. destruct (my_strlcpy _ _ _ _) as [[b1 n1]|] eqn:E1; [|done]. cbn [mbind option_bind].
  destruct (replace_xc b1) as [b2|] eqn:E2; [|done]. cbn [mbind option_bind]. intros E3.
  apply my_strlcpy_zlen in E1. apply replace_xc_zlen in E2. apply ser_loop_zlen in E3. cbn in E3. congruence.
Qed.

(** The same of printing. *)
Lemma snprintf_zlen b i n text b' k : snprintf b i n text = Some (b', k) -> zlen b' = zlen b.
Proof.
  unfold snprintf. destruct (n =? 0); [by intros [= <- _]|]. destruct (buf_put _ _ _) eqn:E; [|done]. intros [= <- _].
  by apply buf_put_zlen in E.
Qed.

Lemma push_string d p c d' : push d p c = Some d' -> d_string d' = d_string d.
Proof. unfold push. destruct (buf_put _ _ _); [|done]. by intros [= <-]. Qed.

Lemma print_zlen render str_len d p c v d' : print render str_len d p c v = Some d' -> zlen (d_string d') = zlen (d_string d).
Proof.
  unfold print. destruct (push d p c) as [d1|] eqn:E1; [|done]. cbn [mbind option_bind].
  destruct (push d1 _ 0) as [d2|] eqn:E2; [|done]. cbn [mbind option_bind]. destruct (cstr _); [|done]. cbn [mbind option_bind].
  destruct (snprintf _ _ _ _) as [[b n]|] eqn:E; [|done]. intros [= <-]. apply snprintf_zlen in E. apply push_string in E1, E2. cbn. congruence.
Qed.

Lemma des_conv_zlen render str_len buf f : forall tl tll p d f' d',
  des_conv render str_len buf f tl tll p d = Some (f', d') -> zlen (d_string d') = zlen (d_string d).
Proof.
  induction f as [|c f IH]; intros tl tll p d f' d'; [by intros [= _ <-]|]. cbn [des_conv].
  repeat match goal with
  | H : push _ _ _ = Some _ |- _ => apply push_string in H
  | H : print _ _ _ _ _ _ = Some _ |- _ => apply print_zlen in H
  | H : buf_put (d_string _) _ _ = Some _ |- _ => apply buf_put_zlen in H
  | |- Some _ = Some _ -> _ => intros [= _ <-]
  | |- des_conv _ _ _ _ _ _ _ _ = Some _ -> _ => let E := fresh in intros E; apply IH in E
  | _ => conv_step
  end; cbn in *; congruence.
Qed.

Lemma des_loop_zlen render str_len buf fuel : forall f d b n,
  des_loop render fuel str_len buf f d = Ends (b, n) -> zlen b = zlen (d_string d).
Proof.
  induction fuel as [|fuel IH]; intros f d b n; [done|]. cbn [des_loop]. destruct (strchrnul f 37) as [|c k].
  - unfold my_strlcat, strlcat. destruct (cstr _) as [cur|]; [|done]. cbn [mbind option_bind]. destruct (0 <? _); [|by intros [= <- _]].
    destruct (strlcpy _ _ _ _) as [[b1 n1]|] eqn:E; [|done]. intros [= <- _].
    apply (my_strlcpy_zlen (d_string d) (zlen cur) f (u64 (str_len - zlen cur)) b1 (QB_MIN n1 (u64 (u64 (str_len - zlen cur) - 1)))). unfold my_strlcpy. by rewrite E.
  - destruct (buf_put _ _ _) as [b1|] eqn:E1; [|done]. cbn [mbind ended_bind checked]. destruct (push _ _ _) as [d1|] eqn:E2; [|done]. cbn [mbind ended_bind checked].
    destruct (des_conv _ _ _ _ _ _ _ _) as [[f' d']|] eqn:E3; [|done]. cbn [mbind ended_bind checked]. intros E4. apply IH in E4.
    apply buf_put_zlen in E1. apply push_string in E2. apply des_conv_zlen in E3. cbn in *. congruence.
Qed.

Lemma deserialize_zlen render string str_len buf b n : qb_vsnprintf_deserialize render string str_len buf = Ends (b, n) -> zlen b = zlen string.
Proof.
  unfold qb_vsnprintf_deserialize. destruct (cstr buf); [|done]. cbn [mbind ended_bind checked].
  destruct (buf_put string 0 [0]) as [s1|] eqn:E; [|done]. cbn [mbind ended_bind checked]. intros E'. apply des_loop_zlen in E'. apply buf_put_zlen in E. cbn in *. congruence.
Qed.

(** ** Printing ends *)

Lemma des_conv_rest render str_len buf f : forall tl tll p d f' d',
  des_conv render str_len buf f tl tll p d = Some (f', d') -> (length f' <= length f)%nat.
Proof.
  induction f as [|c f IH]; intros tl tll p d f' d'; [by intros [= <- _]|]. cbn [des_conv length].
  repeat match goal with
  | |- Some _ = Some _ -> _ => intros [= <- _]
  | |- des_conv _ _ _ _ _ _ _ _ = Some _ -> _ => let E := fresh in intros E; apply IH in E
  | _ => conv_step
  end; cbn in *; lia.
Qed.

Lemma strchrnul_length f c : (length (strchrnul f c) <= length f)%nat.
Proof. induction f as [|x f IH]; [done|]. cbn [strchrnul]. destruct (x =? c); cbn; lia. Qed.

(** Each round of the loop uses up one percent sign at least. *)
Lemma des_loop_ends render str_len buf fuel : forall f d,
  (length f < fuel)%nat -> des_loop render fuel str_len buf f d <> Diverges.
Proof.
  induction fuel as [|fuel IH]; intros f d Hf; [lia|]. cbn [des_loop]. pose proof (strchrnul_length f 37) as Hc.
  destruct (strchrnul f 37) as [|c k]; [by destruct (my_strlcat _ _ _) as [[]|]|]. cbn [length] in Hc.
  destruct (buf_put _ _ _); [|done]. cbn [mbind ended_bind checked]. destruct (push _ _ _); [|done]. cbn [mbind ended_bind checked].
  destruct (des_conv _ _ _ _ _ _ _ _) as [[f' d']|] eqn:E; [|done]. cbn [mbind ended_bind checked].
  apply des_conv_rest in E. apply IH. lia.
Qed.

Lemma deserialize_ends render string str_len buf : qb_vsnprintf_deserialize render string str_len buf <> Diverges.
Proof.
  unfold qb_vsnprintf_deserialize. destruct (cstr buf); [|done]. cbn [mbind ended_bind checked].
  destruct (buf_put _ _ _); [|done]. cbn [mbind ended_bind checked]. apply des_loop_ends. lia.
Qed.

(** ** Serializing below the bound *)

(** The arguments that are left, and the rest of the format, after the function has
    taken those for the conversion at the start of [format]; [None] if one is
    missing or has another type.  As in the code a second percent sign is not skipped. *)
Fixpoint conv_takes (format : list Z) (type_long type_longlong : bool) (ap : list varg) : option (list Z * list varg) :=
  match format with
  | [] => Some (format, ap)
  | c :: rest =>
    if among c "#- +'I.0123456789" then conv_takes rest type_long type_longlong ap
    else if among c "*" then '(_, ap) ← va_int ap; conv_takes rest type_long type_longlong ap
    else if among c "l" then
      match rest with
      | c' :: rest' => if among c' "l" then conv_takes rest' false true ap else conv_takes rest true type_longlong ap
      | [] => Some (rest, ap)
      end
    else if among c "ztj" then conv_takes rest type_long true ap
    else if among c "diouxX" then '(_, ap) ← (if type_long || type_longlong then va_long ap else va_int ap); Some (rest, ap)
    else if among c "eEfFgGaA" then '(_, ap) ← va_double ap; Some (rest, ap)
    else if among c "c" then '(_, ap) ← va_int ap; Some (format, ap)
    else if among c "s" then '(_, ap) ← va_str ap; Some (format, ap)
    else if among c "p" then '(_, ap) ← va_ptr ap; Some (format, ap)
    else Some (format, ap)
  end.

(** The arguments are those that are taken for the format, or more. *)
Fixpoint takes_all (fuel : nat) (format : list Z) (ap : list varg) : bool :=
  match fuel with
  | O => false
  | S fuel =>
    match strchrnul format 37 with
    | [] => true
    | _ :: rest => match conv_takes rest false false ap with Some (format, ap) => takes_all fuel format ap | None => false end
    end
  end.
Definition args_fit (format : list Z) (ap : list varg) : bool := takes_all (S (length format)) format ap.

(** The strings among the arguments. *)
Definition strings (ap : list varg) : list (option (list Z)) := omap (fun v => match v with V_str s => Some s | _ => None end) ap.

Definition short (ap : list varg) : Prop := Forall (fun s => zlen (default [] s) < 2 ^ 31 - 1) (strings ap).

Lemma va_int_spec ap : (exists z ap', ap = V_int z :: ap' /\ va_int ap = Some (z, ap')) \/ va_int ap = None.
Proof. destruct ap as [|[]]; cbn; eauto. Qed.
Lemma va_long_spec ap : (exists z ap', ap = V_long z :: ap' /\ va_long ap = Some (z, ap')) \/ va_long ap = None.
Proof. destruct ap as [|[]]; cbn; eauto. Qed.
Lemma va_double_spec ap : (exists z ap', ap = V_double z :: ap' /\ va_double ap = Some (z, ap')) \/ va_double ap = None.
Proof. destruct ap as [|[]]; cbn; eauto. Qed.

(** A character outside a set is outside its subsets. *)
Lemma not_flag c : among c "#- +'I.0123456789" = false ->
  among c "#- +'I" = false /\ among c "." = false /\ among c "0123456789" = false.
Proof.
  intros H. split_and!; apply not_true_is_false; intros Hc; among_cases Hc; vm_compute in H; discriminate.
Qed.
Lemma not_size c : among c "ztj" = false -> among c "z" = false /\ among c "t" = false /\ among c "j" = false.
Proof.
  intros H. split_and!; apply not_true_is_false; intros Hc; among_cases Hc; vm_compute in H; discriminate.
Qed.

Section Bounds.
Context (max_len : Z) (b0 : list Z) (Hmax : 0 < max_len < 2 ^ 31) (Hb0 : max_len <= zlen b0).

(** Nothing has been written from [max_len] on, and nothing will: the position
    is not above [max_len] and at most one string comes, or no string comes. *)
Definition in_bounds (s : ser) : Prop :=
  same_from max_len b0 (s_buf s) /\ 0 <= location s < 2 ^ 32 - 1 /\ short (s_ap s) /\
  (location s <= max_len /\ (length (strings (s_ap s)) <= 1)%nat \/ strings (s_ap s) = []).

Definition next_ok (f : list Z) (ap : list varg) (r : ser_next) : Prop :=
  match r with Next f' s => f' = f /\ s_ap s = ap /\ in_bounds s | Full s => same_from max_len b0 (s_buf s) end.

(** The result of a step is defined and keeps within the bounds. *)
Definition steps_to (x : option ser_next) (f : list Z) (ap : list varg) : Prop := exists r, x = Some r /\ next_ok f ap r.

Lemma in_bounds_ap s v ap : in_bounds s -> s_ap s = v :: ap -> (forall x, v <> V_str x) -> in_bounds (with_ap s ap).
Proof.
  intros (Hs & Hl & Hsh & H) Ha Hv. unfold short in *. rewrite Ha in Hsh, H. assert (Hst : strings (v :: ap) = strings ap).
  { cbn. destruct v; try done. by destruct (Hv s0). }
  rewrite Hst in *. split_and!; cbn; done || lia.
Qed.

Lemma append_in_bounds s bs : in_bounds s -> location s + zlen bs <= max_len ->
  exists s', append s bs = Some s' /\ s_ap s' = s_ap s /\ in_bounds s'.
Proof.
  intros (Hs & Hl & Hsh & H) Hm. pose proof (zlen_nonneg bs). destruct Hs as [Hz Hd]. unfold append, buf_put.
  rewrite (proj2 (Z.leb_le _ _)), (proj2 (Z.leb_le _ _)) by lia. cbn [andb mbind option_bind].
  eexists. split; [done|]. split; [done|]. split_and!; cbn [s_buf location s_ap with_out].
  - etrans; [by split|]. eapply buf_put_below; [|exact Hm]. unfold buf_put.
    by rewrite (proj2 (Z.leb_le _ _)), (proj2 (Z.leb_le _ _)) by lia.
  - apply u32_range.
  - rewrite u32_small by lia. lia.
  - done.
  - rewrite u32_small by lia. destruct H as [[? ?]|?]; [left; split; [lia|done]|by right].
Qed.

Lemma precision_in_bounds s len p : in_bounds s -> in_bounds (with_precision s len p).
Proof. done. Qed.

Lemma if_room_in_bounds n s k f ap : in_bounds s -> (location s + n <= max_len -> steps_to k f ap) -> steps_to (if_room max_len n s k) f ap.
Proof.
  intros Hs Hk. unfold if_room. destruct (Z.ltb_spec max_len (location s + n)); [|by apply Hk].
  eexists. split; [done|]. apply Hs.
Qed.

(** An argument that is no string, stored where there is room for it. *)
Lemma store_in_bounds s v ap n bs f :
  in_bounds s -> s_ap s = v :: ap -> (forall x, v <> V_str x) -> zlen bs = n ->
  steps_to (if_room max_len n s (s ← append (with_ap s ap) bs; Some (Next f s))) f ap.
Proof.
  intros Hs Ha Hv Hn. apply if_room_in_bounds; [done|]. intros Hr.
  destruct (append_in_bounds (with_ap s ap) bs) as (s' & -> & Ha' & Hs'); [by eapply in_bounds_ap|cbn; lia|].
  eexists. split; [done|]. done.
Qed.

(** The copy of a string: the bytes up to the [left_] are enough for it. *)
Lemma my_strlcpy_in_bounds b i src n left_ :
  same_from max_len b0 b -> 0 <= i -> 0 <= n -> 0 <= left_ -> i + left_ <= max_len ->
  exists b' rc, my_strlcpy b i src (QB_MIN n left_) = Some (b', rc) /\ same_from max_len b0 b' /\ 0 <= rc <= zlen src.
Proof.
  intros [Hz Hd] Hi Hn Hl Hm. pose proof (zlen_nonneg src). set (k := QB_MIN n left_).
  assert (Hk : 0 <= k <= left_) by (unfold k, QB_MIN; zcase; lia).
  assert (exists b' rc, strlcpy b i src k = Some (b', rc) /\ rc = zlen src) as (b' & rc & E & ->).
  { unfold strlcpy. destruct (Z.eqb_spec k 0); [eauto|]. set (len := QB_MIN (k - 1) (zlen src)).
    assert (Hlen : 0 <= len <= k - 1 /\ len <= zlen src) by (unfold len, QB_MIN; zcase; lia).
    assert (Ht : zlen (take (Z.to_nat len) src) = len) by (unfold zlen in *; rewrite length_take; lia).
    destruct (buf_put b i (take (Z.to_nat len) src)) as [b1|] eqn:E1.
    2:{ unfold buf_put in E1. by rewrite (proj2 (Z.leb_le _ _)), (proj2 (Z.leb_le _ _)) in E1 by lia. }
    cbn [mbind option_bind]. apply buf_put_zlen in E1 as Hz1. unfold buf_put at 1.
    rewrite (proj2 (Z.leb_le _ _)), (proj2 (Z.leb_le _ _)) by (rewrite ?zlen_cons, ?zlen_nil; lia). cbn. eauto. }
  exists b', (QB_MIN (zlen src) (u64 (k - 1))). unfold my_strlcpy. rewrite E. split; [done|]. split.
  - etrans; [by split|]. eapply strlcpy_below; [exact E|lia|lia].
  - pose proof (u64_range (k - 1)). unfold QB_MIN. zcase; lia.
Qed.

Lemma string_in_bounds s arg ap :
  in_bounds s -> s_ap s = V_str arg :: ap ->
  exists s', ser_string max_len (with_ap s ap) arg = Some s' /\ s_ap s' = ap /\ in_bounds s'.
Proof.
  intros (Hs & Hl & Hsh & H) Ha. unfold short in Hsh. rewrite Ha in Hsh, H.
  change (strings (V_str arg :: ap)) with (arg :: strings ap) in Hsh, H. cbn [length] in H.
  apply list.Forall_cons in Hsh as [Harg Hsh]. destruct H as [[Hle Hone]|]; [|done].
  assert (Hnil : strings ap = []) by (destruct (strings ap); [done|cbn [length] in Hone; lia]).
  unfold ser_string. cbn [location with_ap s_buf sformat_length]. rewrite (u64_small (max_len - location s)) by lia.
  assert (exists b rc, match arg with
     | None => my_strlcpy (s_buf s) (location s) (bytes "(null)") (QB_MIN (zlen (bytes "(null)") + 1) (max_len - location s))
     | Some a =>
       if negb (sformat_length s =? 0)
       then my_strlcpy (s_buf s) (location s) a (QB_MIN (u64 (sformat_length s + 1)) (max_len - location s))
       else my_strlcpy (s_buf s) (location s) a (QB_MIN (zlen a + 1) (max_len - location s))
     end = Some (b, rc) /\ same_from max_len b0 b /\ 0 <= rc < 2 ^ 31 - 1) as (b & rc & -> & Hb & Hrc).
  { pose proof (u64_range (sformat_length s + 1)). destruct arg as [a|]; [|].
    - cbn in Harg. pose proof (zlen_nonneg a). destruct (negb _).
      + destruct (my_strlcpy_in_bounds (s_buf s) (location s) a (u64 (sformat_length s + 1)) (max_len - location s))
          as (b & rc & E & ? & ?); [done|lia..|]. exists b, rc. split_and!; [done|done|lia..].
      + destruct (my_strlcpy_in_bounds (s_buf s) (location s) a (zlen a + 1) (max_len - location s))
          as (b & rc & E & ? & ?); [done|lia..|]. exists b, rc. split_and!; [done|done|lia..].
    - change (zlen (bytes "(null)")) with 6.
      destruct (my_strlcpy_in_bounds (s_buf s) (location s) (bytes "(null)") (6 + 1) (max_len - location s))
        as (b & rc & E & ? & Hrc); [done|lia..|]. change (zlen (bytes "(null)")) with 6 in Hrc.
      exists b, rc. split_and!; [done|done|lia..]. }
  cbn [mbind option_bind]. eexists. split; [done|]. split; [done|].
  split_and!; cbn [s_buf location s_ap with_out with_ap]; [done|apply u32_range| |done|by right].
  rewrite (u32_small (location s + rc)) by lia. rewrite u32_small by lia. lia.
Qed.

Lemma ser_conv_in_bounds n : forall f tl tll s f' ap',
  (length f < n)%nat -> in_bounds s -> conv_takes f tl tll (s_ap s) = Some (f', ap') -> steps_to (ser_conv max_len f tl tll s) f' ap'.
Proof.
  induction n as [|n IH]; intros f tl tll s f' ap' Hn Hs Ht; [lia|]. destruct f as [|c f].
  { injection Ht as <- <-. eexists. by split. }
  cbn [length] in Hn. cbn [conv_takes] in Ht. cbn [ser_conv].
  destruct (among c "#- +'I.0123456789") eqn:Hflag.
  { among_cases Hflag; among_compute; apply IH; try lia; try exact Ht; try exact Hs; by destruct (sformat_precision s). }
  assert (Hno : among c "#- +'I" = false /\ among c "." = false /\ among c "0123456789" = false) by by apply not_flag.
  destruct Hno as (-> & -> & ->).
  destruct (among c "*").
  { destruct (va_int_spec (s_ap s)) as [(z & ap & Ha & E)|E]; rewrite E in Ht |- *; cbn [mbind option_bind] in Ht |- *; [|done].
    assert (Hs' : in_bounds (with_ap s ap)) by (by eapply in_bounds_ap). unfold SIZEOF_INT.
    destruct (Z.ltb_spec max_len (location (with_ap s ap) + 4)); [eexists; split; [done|]; apply Hs|].
    destruct (append_in_bounds (with_ap s ap) (le_split 4 z)) as (s1 & -> & Ha1 & Hs1); [done|by rewrite zlen_le_split|].
    cbn [mbind option_bind]. apply IH; [lia|done|]. by rewrite Ha1. }
  destruct (among c "l").
  { destruct f as [|c' f]; [injection Ht as <- <-; eexists; by split|]. cbn [length] in Hn.
    destruct (among c' "l"); apply IH; try done; cbn [length]; lia. }
  destruct (among c "ztj") eqn:Hztj.
  { among_cases Hztj; among_compute; (apply IH; [lia|done|done]). }
  assert (Hno : among c "z" = false /\ among c "t" = false /\ among c "j" = false) by by apply not_size.
  destruct Hno as (-> & -> & ->).
  destruct (among c "diouxX").
  { destruct tl, tll; cbn [orb] in Ht.
    4: destruct (va_int_spec (s_ap s)) as [(z & ap & Ha & E)|E].
    1,2,3: destruct (va_long_spec (s_ap s)) as [(z & ap & Ha & E)|E].
    all: rewrite E in Ht |- *; cbn [mbind option_bind] in Ht |- *; try done; injection Ht as <- <-.
    all: eapply store_in_bounds; [done|exact Ha|done|apply zlen_le_split]. }
  destruct (among c "eEfFgGaA").
  { destruct (va_double_spec (s_ap s)) as [(z & ap & Ha & E)|E]; rewrite E in Ht |- *; cbn [mbind option_bind] in Ht |- *; [|done].
    injection Ht as <- <-. eapply store_in_bounds; [done|exact Ha|done|apply zlen_le_split]. }
  destruct (among c "c").
  { destruct (va_int_spec (s_ap s)) as [(z & ap & Ha & E)|E]; rewrite E in Ht |- *; cbn [mbind option_bind] in Ht |- *; [|done].
    injection Ht as <- <-. by eapply store_in_bounds; [done|exact Ha|done|]. }
  destruct (among c "s").
  { destruct (s_ap s) as [|[] ap] eqn:Ha; try done. cbn [va_str mbind option_bind] in Ht |- *. injection Ht as <- <-.
    destruct (string_in_bounds s s0 ap Hs Ha) as (s' & -> & Ha' & Hs'). eexists. split; [done|]. done. }
  destruct (among c "p").
  { destruct (s_ap s) as [|[] ap] eqn:Ha; try done. cbn [va_ptr mbind option_bind] in Ht |- *. injection Ht as <- <-.
    assert (Hs' : in_bounds (with_ap s ap)) by (by eapply in_bounds_ap). apply if_room_in_bounds; [done|]. intros Hr.
    destruct (append_in_bounds (with_ap s ap) (le_split 8 p)) as (s1 & -> & Ha1 & Hs1); [done|by rewrite zlen_le_split|].
    eexists. split; [done|]. done. }
  injection Ht as <- <-. destruct (among c "%"); [|eexists; by split].
  pose proof Hs as (Hb & Hl & _). rewrite u32_small by lia.
  destruct (Z.ltb_spec max_len (location s + 1)); [eexists; split; [done|]; apply Hs|].
  destruct (append_in_bounds s (bytes "%")) as (s1 & -> & Ha1 & Hs1); [done|change (zlen (bytes "%")) with 1; lia|].
  eexists. split; [done|]. split_and!; [done|exact Ha1|by apply precision_in_bounds].
Qed.

Lemma ser_loop_in_bounds fuel : forall f s,
  in_bounds s -> takes_all fuel f (s_ap s) = true ->
  exists b n, ser_loop fuel max_len f s = Some (b, n) /\ same_from max_len b0 b.
Proof.
  induction fuel as [|fuel IH]; intros f s Hs Ht; [done|]. cbn [ser_loop takes_all] in *.
  destruct (strchrnul f 37) as [|c k]; [eexists _, _; split; [done|]; apply Hs|].
  destruct (conv_takes k false false (s_ap s)) as [[f' ap']|] eqn:E; [|done].
  destruct (ser_conv_in_bounds (S (length k)) k false false s f' ap') as (r & -> & Hr); [lia|done|done|]. cbn [mbind option_bind].
  destruct r as [f1 s1|s1]; [|by eexists _, _]. destruct Hr as (-> & <- & Hs1). by apply IH.
Qed.
End Bounds.

Lemma replace_xc_below s : forall rest b',
  replace_xc (s ++ 0 :: rest) = Some b' -> same_from (zlen s + 1) (s ++ 0 :: rest) b'.
Proof.
  induction s as [|c s IH]; intros rest b'; cbn [app replace_xc]; [by intros [= <-]|].
  assert (Hsame : forall x y, zlen x = zlen y -> drop (S (length s)) x = drop (S (length s)) y ->
     same_from (zlen (c :: s) + 1) (c :: y) (c :: x)).
  { intros x y Hl Hd. split; [by rewrite !zlen_cons, Hl|]. unfold zlen in *. replace (Z.to_nat _) with (S (S (length s))) by (cbn; lia). exact Hd. }
  destruct (c =? 0); [by intros [= <-]|]. destruct (c =? QB_XC).
  - destruct (s ++ 0 :: rest) as [|n k] eqn:E; [done|]. intros [= <-]. split; [by rewrite !zlen_cons|].
    unfold zlen. by replace (Z.to_nat _) with (S (S (length s))) by (cbn; lia).
  - destruct (replace_xc (s ++ 0 :: rest)) as [b|] eqn:E; [|done]. intros [= <-]. apply IH in E as [Hl Hd].
    apply Hsame; [done|]. unfold zlen in Hd. by replace (Z.to_nat _) with (S (length s)) in Hd by lia.
Qed.

Lemma replace_xc_some s rest : exists b, replace_xc (s ++ 0 :: rest) = Some b.
Proof.
  induction s as [|c s IH]; cbn [app replace_xc]; [eauto|]. destruct (c =? 0); [eauto|].
  destruct (c =? QB_XC); [destruct s; cbn; eauto|]. destruct IH as [b ->]. eauto.
Qed.

(** C32. With at most one string among the arguments, storing a message stays within
    the [max_len] bytes it is given, however few they are, for every format: with
    arguments of the types that the function takes for the conversions, strings of
    less than 2 gigabytes, it succeeds, so that nothing outside the buffer is
    accessed and its loop ends, and the bytes from [max_len] on are as before.  With
    two strings it may write behind the buffer ([format_faults]). *)
Theorem serialize_in_bounds buf max_len fmt ap :
  0 < max_len < 2 ^ 31 -> max_len <= zlen buf -> args_fit fmt ap = true -> (length (strings ap) <= 1)%nat -> short ap ->
  exists b n, qb_vsnprintf_serialize buf max_len fmt ap = Some (b, n) /\
    zlen b = zlen buf /\ drop (Z.to_nat max_len) b = drop (Z.to_nat max_len) buf.
Proof.
  intros Hmax Hcap Hfit Hone Hsh. unfold qb_vsnprintf_serialize, my_strlcpy, strlcpy.
  destruct (Z.eqb_spec max_len 0); [lia|]. pose proof (zlen_nonneg fmt). set (len := QB_MIN (max_len - 1) (zlen fmt)).
  assert (Hlen : 0 <= len <= max_len - 1 /\ len <= zlen fmt) by (unfold len, QB_MIN; zcase; lia).
  set (t := take (Z.to_nat len) fmt). assert (Ht : zlen t = len) by (unfold t, zlen in *; rewrite length_take; lia).
  rewrite <- Ht. change buf with ([] ++ buf) at 1. change 0 with (zlen (@nil Z)) at 1. rewrite buf_put_end by lia.
  cbn [mbind option_bind app]. rewrite Z.add_0_l, buf_put_end by (rewrite zlen_cons, zlen_nil; unfold zlen in *; rewrite length_drop; lia).
  cbn [mbind option_bind length]. rewrite drop_drop, <- app_assoc. cbn [app]. set (rest := drop _ buf).
  assert (Hb : same_from max_len buf (t ++ 0 :: rest)).
  { split; [rewrite zlen_app, zlen_cons; unfold rest, zlen in *; rewrite length_drop; lia|].
    change (t ++ 0 :: rest) with (t ++ [0] ++ rest). rewrite app_assoc, drop_app_ge by (rewrite length_app; unfold zlen in *; cbn; lia).
    unfold rest. rewrite drop_drop. f_equal. rewrite length_app. unfold zlen in *. cbn [length]. lia. }
  destruct (replace_xc_some t rest) as [b1 Ex]. rewrite Ex. cbn [mbind option_bind].
  apply replace_xc_below in Ex as [Hx1 Hx2].
  assert (Hb1 : same_from max_len buf b1).
  { destruct Hb as [Hb1 Hb2]. split; [congruence|]. rewrite <- Hb2. replace (Z.to_nat max_len) with (Z.to_nat (zlen t + 1) + Z.to_nat (max_len - (zlen t + 1)))%nat by lia.
    by rewrite <- !drop_drop, Hx2. }
  assert (Hq : QB_MIN (zlen fmt) (u64 (max_len - 1)) = len).
  { rewrite u64_small by lia. unfold len, QB_MIN. repeat zcase; lia. }
  rewrite Hq, u32_small by lia. apply ser_loop_in_bounds; [done|done| |exact Hfit].
  split_and!; cbn [s_buf location s_ap]; [done|lia|lia|done|]. left. split; [lia|done].
Qed.

(** * Log messages as data: examples

    Concrete messages at which the theorems apply, and formats that are not
    stored as they are printed. *)
Module SerializeExamples.

(** Prints integers and strings without regard to flags, and the conversion
    itself for other values. *)
Definition plain_render (f : list Z) (v : varg) : list Z :=
  match v with
  | V_int z | V_long z => decimal z
  | V_str (Some s) => s
  | _ => tail f
  end.

Definition some_message : message :=
  {| parts := [(bytes "took ", {| mods := [M_flag 45; M_star 6]; val := A_int 100 W_none (-42) |});
               (bytes " ms in ", {| mods := []; val := A_str (Some (bytes "main")) |});
               (bytes ", ", {| mods := [M_flag 48; M_flag 56]; val := A_int 120 W_ll 1234567890123 |});
               (bytes " ", {| mods := []; val := A_str None |})];
     tail_text := bytes "!" |}.

Example some_format : format_of some_message = bytes "took %-*d ms in %s, %08llx %s!".
Proof. vm_compute. reflexivity. Qed.

Lemma some_message_ok : message_ok some_message.
Proof. apply (bool_decide_unpack _). vm_compute. exact I. Qed.

(** Strings are cut at the precision in the format. *)
Fixpoint digits_value (n : Z) (ds : list Z) : Z :=
  match ds with c :: ds => if among c "0123456789" then digits_value (n * 10 + (c - 48)) ds else n | [] => n end.
Definition clip_render (f : list Z) (v : varg) : list Z :=
  match v, strchrnul f 46 with
  | V_str (Some s), _ :: ds => take (Z.to_nat (digits_value 0 ds)) s
  | _, _ => plain_render f v
  end.

(** A string that is cut by its precision, a number with a precision, and a string
    that the limit left by both does not cut. *)
Definition precise_message : message :=
  {| parts := [(bytes "at ", {| mods := [M_flag 46; M_flag 52]; val := A_str (Some (bytes "longer")) |});
               (bytes " took ", {| mods := [M_flag 56; M_flag 46; M_flag 51]; val := A_int 100 W_none 42 |});
               (bytes " ms: ", {| mods := []; val := A_str (Some (bytes "ok")) |})];
     tail_text := bytes "!" |}.

Example precise_format : format_of precise_message = bytes "at %.4s took %8.3d ms: %s!" /\
  text_of clip_render precise_message = bytes "at long took 42 ms: ok!" /\
  data_of precise_message = bytes "long" ++ [0] ++ [42; 0; 0; 0] ++ bytes "ok" ++ [0].
Proof. vm_compute. auto. Qed.

Lemma precise_message_ok : message_ok precise_message.
Proof. apply (bool_decide_unpack _). vm_compute. exact I. Qed.


Example some_text : text_of plain_render some_message = bytes "took -42 ms in main, 1234567890123 (null)!".
Proof. vm_compute. reflexivity. Qed.

(** Store in a buffer of [n] bytes of which [max_len] may be used, and print. *)
Definition store_and_print (n max_len : Z) (fmt : list Z) (ap : list varg) : option (list Z) :=
  '(chunk, len) ← qb_vsnprintf_serialize (zrepeat 170 n) max_len fmt ap;
  match qb_vsnprintf_deserialize plain_render (zrepeat 170 100) 100 (take (Z.to_nat len) chunk) with
  | Ends (out, _) => cstr out
  | _ => None
  end.

Definition one_string : list varg := [V_int 1; V_str (Some (bytes "long string")); V_int 2].

(** Fourteen bytes are not enough for the format and its three arguments. *)
Lemma serialize_in_bounds_witness :
  exists b n, qb_vsnprintf_serialize (zrepeat 170 40) 14 (bytes "a%5d's %-s %d") one_string = Some (b, n) /\
    zlen b = zlen (zrepeat 170 40) /\ drop (Z.to_nat 14) b = drop (Z.to_nat 14) (zrepeat 170 40).
Proof.
  apply (serialize_in_bounds (zrepeat 170 40) 14 (bytes "a%5d's %-s %d") one_string).
  - lia.
  - vm_compute. discriminate.
  - vm_compute. reflexivity.
  - vm_compute. lia.
  - repeat constructor.
Defined.

(** A doubled percent sign can make the code take an argument that is not there. *)
Example percent_takes_argument :
  args_fit (bytes "100%% done") [] = false /\ qb_vsnprintf_serialize (zrepeat 170 40) 40 (bytes "100%% done") [] = None.
Proof. vm_compute. auto. Qed.

(** Formats that the two functions do not agree on.  A doubled percent sign
    is stored but not skipped, so that the arguments behind it are read at the
    wrong place; a precision applies to all strings that follow; with two
    strings at the end of the buffer, bytes behind it are written. *)
Theorem format_faults :
  store_and_print 90 90 (bytes "5%%, %d.") [V_int 77] = Some (bytes "5%, 19749.") /\
  store_and_print 90 90 (bytes "%.1d: %s") [V_int 5; V_str (Some (bytes "error"))] = Some (bytes "5: e") /\
  qb_vsnprintf_serialize (zrepeat 170 10) 10 (bytes "123456789%s%s") [V_str (Some (bytes "ab")); V_str (Some (bytes "cd"))] = None.
Proof. vm_compute. auto. Qed.

End SerializeExamples.
