(* ===== verification/LogFormat.v ===== *)
(** * Log lines (lib/log_format.c)

    How a target lays a message out: the names of priorities and facilities, the
    copy that pads or chops a field, and the two functions that walk a format,
    one when it is set and one for each message.  Characters are bytes, a buffer
    is a list of them; [None] is an access outside a buffer or a table, or [atoi]
    of a number that is not an [int].  The clock, the name of the host and the
    process are arguments.  Locks are left out. *)
From S2P Require Import Prelude Memory Cstring.

(** ** Names *)

Definition LOG_EMERG : Z := 0.
Definition LOG_ALERT : Z := 1.
Definition LOG_CRIT : Z := 2.
Definition LOG_ERR : Z := 3.
Definition LOG_WARNING : Z := 4.
Definition LOG_NOTICE : Z := 5.
Definition LOG_INFO : Z := 6.
Definition LOG_DEBUG : Z := 7.
Definition LOG_TRACE : Z := LOG_DEBUG + 1.

Definition prioritynames : list (list Z * Z) :=
  [(bytes "emerg", LOG_EMERG); (bytes "alert", LOG_ALERT); (bytes "crit", LOG_CRIT); (bytes "error", LOG_ERR);
   (bytes "warning", LOG_WARNING); (bytes "notice", LOG_NOTICE); (bytes "info", LOG_INFO); (bytes "debug", LOG_DEBUG);
   (bytes "trace", LOG_TRACE)].

(** The values of syslog.h. *)
Definition facilitynames : list (list Z * Z) :=
  [(bytes "auth", 32); (bytes "authpriv", 80); (bytes "cron", 72); (bytes "daemon", 24); (bytes "ftp", 88);
   (bytes "kern", 0); (bytes "lpr", 48); (bytes "mail", 16); (bytes "news", 56); (bytes "syslog", 40);
   (bytes "user", 8); (bytes "uucp", 64); (bytes "local0", 128); (bytes "local1", 136); (bytes "local2", 144);
   (bytes "local3", 152); (bytes "local4", 160); (bytes "local5", 168); (bytes "local6", 176); (bytes "local7", 184)].

Fixpoint facility_value (names : list (list Z * Z)) (fname : list Z) : Z :=
  match names with
  | [] => - EINVAL
  | (c_name, c_val) :: names => if bool_decide (fname = c_name) then c_val else facility_value names fname
  end.
Definition qb_log_facility2int (fname : option (list Z)) : Z :=
  match fname with None => - EINVAL | Some fname => facility_value facilitynames fname end.

Fixpoint facility_name (names : list (list Z * Z)) (fnum : Z) : option (list Z) :=
  match names with
  | [] => None
  | (c_name, c_val) :: names => if c_val =? fnum then Some c_name else facility_name names fnum
  end.
Definition qb_log_facility2str (fnum : Z) : option (list Z) := facility_name facilitynames fnum.

Definition priority_name (p : Z) : list Z := fst (zget prioritynames p).
Definition qb_log_priority2str (priority : Z) : list Z :=
  if LOG_TRACE <? priority then priority_name LOG_TRACE else priority_name priority.

(** ** Call sites *)

Record qb_log_callsite := {
  function : list Z;
  filename : list Z;
  format : list Z;
  priority : Z;
  lineno : Z;
  targets : Z;
  tags : Z;
  message_id : option (list Z);
}.

(** ** Fields *)

(** Copy [src] in [cutoff] places, or all of it for 0; the result is the number
    of places. *)
Definition _strcpy_cutoff (dest : list Z) (at_ : Z) (src : list Z) (cutoff : Z) (ralign : bool) (buf_len : Z)
    : option (list Z * Z) :=
  let len := zlen src in
  if buf_len <=? 1 then
    if buf_len =? 0 then dest ← buf_put dest at_ [0]; Some (dest, 0) else Some (dest, 0)
  else
    let cutoff := if cutoff =? 0 then len else cutoff in
    let cutoff := QB_MIN cutoff (buf_len - 1) in
    let len := QB_MIN len cutoff in
    dest ← (if ralign then
              dest ← buf_put dest at_ (zrepeat 32 (cutoff - len));
              buf_put dest (at_ + cutoff - len) (take (Z.to_nat len) src)
            else
              dest ← buf_put dest at_ (take (Z.to_nat len) src);
              buf_put dest (at_ + len) (zrepeat 32 (cutoff - len)));
    dest ← buf_put dest (at_ + cutoff) [0];
    Some (dest, i32 cutoff).

Definition isdigit (c : Z) : bool := (48 <=? c) && (c <=? 57).

(** [atoi] of the digits at the start of a string. *)
Fixpoint digits_of (f : list Z) : list Z :=
  match f with c :: f' => if isdigit c then c :: digits_of f' else [] | [] => [] end.
Definition number (ds : list Z) : Z := foldl (fun n c => n * 10 + (c - 48)) 0 ds.
Definition atoi (f : list Z) : option Z :=
  let n := number (digits_of f) in if n <? 2 ^ 31 then Some n else None.

(** Behind the percent sign: the alignment, the width and the rest of the
    format, from the conversion character on. *)
Definition parse_width (f : list Z) : option (bool * Z * list Z) :=
  let '(ralign, f) :=
    match f with c :: f' => if c =? 45 then (true, f') else (false, f) | [] => (false, f) end in
  cutoff ← atoi f;
  Some (ralign, cutoff, drop (length (digits_of f)) f).

(** The loop of both functions.  [pick pct conv cutoff ralign] is their [switch]:
    [pct] is the format from the percent sign on and [conv] from the conversion
    character on, empty at the NUL; the result is what to copy, and how.  Behind
    the NUL there is nothing to read. *)
Fixpoint format_loop (pick : list Z -> list Z -> Z -> bool -> option (list Z * Z * bool)) (fuel : nat)
    (max_line_length : Z) (f : list Z) (output_buffer : list Z) (idx : Z) : option (list Z * Z) :=
  match fuel with
  | O => None
  | S fuel' =>
    match f with
    | [] => Some (output_buffer, idx)
    | c :: f' =>
      '(b, idx, next) ←
        (if negb (c =? 37) then
           b ← buf_put output_buffer idx [c]; Some (b, u32 (idx + 1), Some f')
         else
           '(ralign, cutoff, conv) ← parse_width f';
           '(p, cutoff, ralign) ← pick f conv cutoff ralign;
           '(b, len) ← _strcpy_cutoff output_buffer idx p cutoff ralign (u64 (max_line_length - idx));
           Some (b, u32 (idx + len), match conv with [] => None | _ :: f => Some f end));
      if u64 (max_line_length - 1) <=? idx then Some (b, idx)
      else f ← next; format_loop pick fuel' max_line_length f b idx
    end
  end.

(** ** Setting a format *)

Section Static.
Context (pid : Z) (hostname : option (list Z)).

(** [%P], [%N] and [%H]; anything else is copied with its percent sign. *)
Definition pick_static (name : list Z) (pct conv : list Z) (cutoff : Z) (ralign : bool) : option (list Z * Z * bool) :=
  match conv with
  | 80 :: _ => Some (take 29 (decimal pid), cutoff, ralign)
  | 78 :: _ => Some (name, cutoff, ralign)
  | 72 :: _ => Some (match hostname with Some h => take 254 h | None => bytes "localhost" end, cutoff, ralign)
  | _ => Some (pct, zlen pct - zlen conv + 1, false)
  end.

Definition qb_log_target_format_static (name : list Z) (max_line_length : Z) (f : option (list Z)) (output_buffer : list Z)
    : option (list Z) :=
  match f with
  | None => Some output_buffer
  | Some f =>
    '(b, idx) ← format_loop (pick_static name) (S (length f)) max_line_length f output_buffer 0;
    buf_put b idx [0]
  end.
End Static.

(** ** Laying out a message *)

Record tm := { tm_mon : Z; tm_mday : Z; tm_hour : Z; tm_min : Z; tm_sec : Z }.

Definition log_month_name : list (list Z) :=
  [bytes "Jan"; bytes "Feb"; bytes "Mar"; bytes "Apr"; bytes "May"; bytes "Jun";
   bytes "Jul"; bytes "Aug"; bytes "Sep"; bytes "Oct"; bytes "Nov"; bytes "Dec"].

Definition TIME_STRING_SIZE : Z := 64.

(** [%0wd] of a number that is not negative. *)
Definition zero_padded (w : Z) (n : Z) : list Z := zrepeat 48 (w - zlen (decimal n)) ++ decimal n.

(** [%s %02d %02d:%02d:%02d]. *)
Definition time_text (t : tm) : option (list Z) :=
  mon ← (if tm_mon t <? 0 then None else log_month_name !! Z.to_nat (tm_mon t));
  Some (mon ++ [32] ++ zero_padded 2 (tm_mday t) ++ [32] ++ zero_padded 2 (tm_hour t) ++ [58] ++
        zero_padded 2 (tm_min t) ++ [58] ++ zero_padded 2 (tm_sec t)).

(** The string from the last occurrence of a character on. *)
Fixpoint strrchr (s : list Z) (c : Z) : option (list Z) :=
  match s with
  | [] => None
  | x :: s' => match strrchr s' c with Some r => Some r | None => if x =? c then Some s else None end
  end.

(** The file name behind the last slash. *)
Definition base_name (s : list Z) : list Z := match strrchr s 47 with Some (_ :: r) => r | _ => s end.

Section Dynamic.
(** [localtime_r], and the user's function that names tags. *)
Context (localtime : Z -> tm) (_user_tags_stringify_fn : option (Z -> list Z)).

(** The text for a conversion character; [building_in_place] is the switch of
    the same name of the build. *)
Definition conversion_text (building_in_place : bool) (cs : qb_log_callsite) (tv_sec tv_nsec : Z) (message : list Z) (c : Z)
    : option (list Z) :=
  if c =? 103 then Some (match _user_tags_stringify_fn with Some fn => fn (tags cs) | None => [] end)
  else if c =? 110 then Some (function cs)
  else if c =? 102 then Some (if building_in_place then filename cs else base_name (filename cs))
  else if c =? 108 then Some (take 29 (decimal (lineno cs)))
  else if c =? 116 then t ← time_text (localtime tv_sec); Some (take (Z.to_nat (TIME_STRING_SIZE - 1)) t)
  else if c =? 84 then
    t ← time_text (localtime tv_sec);
    Some (take (Z.to_nat (TIME_STRING_SIZE - 1)) (t ++ [46] ++ zero_padded 3 (u64 tv_nsec / QB_TIME_NS_IN_MSEC)))
  else if c =? 98 then Some message
  else if c =? 112 then Some (qb_log_priority2str (priority cs))
  else Some [].

Definition pick_dynamic (building_in_place : bool) (cs : qb_log_callsite) (tv_sec tv_nsec : Z) (message : list Z)
    (pct conv : list Z) (cutoff : Z) (ralign : bool) : option (list Z * Z * bool) :=
  p ← conversion_text building_in_place cs tv_sec tv_nsec message (default 0 (head conv));
  Some (p, cutoff, ralign).

(** The end of the line: a last newline is dropped, and the last three
    characters of a line that is as long as it may be are dots. *)
Definition finish_line (max_line_length : Z) (ellipsis : bool) (b : list Z) (idx : Z) : option (list Z) :=
  last ← buf_get b (u32 (idx - 1)) 1;
  b ← (if bool_decide (last = [10]) then buf_put b (u32 (idx - 1)) [0] else buf_put b idx [0]);
  if ellipsis && (u64 (max_line_length - 1) <=? idx) then
    b ← buf_put b (u32 (idx - 3)) [46];
    b ← buf_put b (u32 (idx - 2)) [46];
    buf_put b (u32 (idx - 1)) [46]
  else Some b.

Definition qb_log_target_format (building_in_place : bool) (t_format : option (list Z)) (max_line_length : Z) (ellipsis : bool)
    (cs : qb_log_callsite) (tv_sec tv_nsec : Z) (formatted_message : list Z) (output_buffer : list Z) : option (list Z) :=
  match t_format with
  | None => Some output_buffer
  | Some f =>
    '(b, idx) ← format_loop (pick_dynamic building_in_place cs tv_sec tv_nsec formatted_message) (S (length f))
                  max_line_length f output_buffer 0;
    finish_line max_line_length ellipsis b idx
  end.
End Dynamic.
