(* ===== verification/LogFormatTheorems.v ===== *)
(** * Log lines: theorems

    A format is a sequence of characters and fields.  Within the length of a
    line, laying a message out prints each of them in turn, and nothing is
    written behind the end of the line. *)
From S2P Require Import Prelude Memory Cstring LogFormat.

(** ** Formats as sequences of items *)

Inductive item := Lit (c : Z) | Fld (ralign : bool) (width : list Z) (conv : Z).

Definition item_text (i : item) : list Z :=
  match i with
  | Lit c => [c]
  | Fld ralign width conv => 37 :: (if ralign then [45] else []) ++ width ++ [conv]
  end.
Definition text_of_items (its : list item) : list Z := concat (item_text <$> its).

Definition item_ok (i : item) : Prop :=
  match i with
  | Lit c => c <> 0 /\ c <> 37
  | Fld ralign width conv =>
    Forall (fun c => isdigit c = true) width /\ number width < 2 ^ 31 /\ isdigit conv = false /\ conv <> 45 /\ conv <> 0
  end.

Definition left_aligned (i : item) : Prop := match i with Lit _ => True | Fld ralign _ _ => ralign = false end.

(** A field of [w] places, or as wide as its text. *)
Definition field (ralign : bool) (w : Z) (p : list Z) : list Z :=
  let w := if w =? 0 then zlen p else w in
  let text := take (Z.to_nat w) p in
  if ralign then zrepeat 32 (w - zlen text) ++ text else text ++ zrepeat 32 (w - zlen text).

(** ** Copying a field *)

Lemma zlen_take {A} (l : list A) n : 0 <= n -> zlen (take (Z.to_nat n) l) = Z.min n (zlen l).
Proof. intros. unfold zlen. rewrite length_take. lia. Qed.

Lemma zlen_field ra w p : 0 <= w -> zlen (field ra w p) = if w =? 0 then zlen p else w.
Proof.
  intros Hw. pose proof (zlen_nonneg p). unfold field. set (w' := if w =? 0 then _ else _).
  assert (0 <= w') by (unfold w'; zcase; lia).
  destruct ra; rewrite zlen_app, zlen_zrepeat, zlen_take by (rewrite ?zlen_take; lia); lia.
Qed.

(** What [_strcpy_cutoff] copies: a field that is cut to the room that is left. *)
Definition fitted (ralign : bool) (w : Z) (p : list Z) (room : Z) : list Z :=
  let c := Z.min (if w =? 0 then zlen p else w) room in
  let text := take (Z.to_nat c) p in
  if ralign then zrepeat 32 (c - zlen text) ++ text else text ++ zrepeat 32 (c - zlen text).

Lemma zlen_fitted ra w p room :
  0 <= w -> 0 <= room -> zlen (fitted ra w p room) = Z.min (if w =? 0 then zlen p else w) room.
Proof.
  intros Hw Hr. pose proof (zlen_nonneg p). unfold fitted. set (c := Z.min _ _). assert (0 <= c) by (unfold c; zcase; lia).
  destruct ra; rewrite zlen_app, zlen_zrepeat, zlen_take by (rewrite ?zlen_take; lia); lia.
Qed.

Lemma fitted_whole ra w p room : zlen (field ra w p) <= room -> 0 <= w -> fitted ra w p room = field ra w p.
Proof. intros H Hw. rewrite zlen_field in H by done. unfold fitted, field. by rewrite Z.min_l by done. Qed.

Lemma fitted_left w p room :
  0 <= w -> 0 <= room -> fitted false w p room = take (Z.to_nat room) (field false w p).
Proof.
  intros Hw Hr. unfold fitted, field. set (w' := if w =? 0 then _ else _). pose proof (zlen_nonneg p).
  assert (0 <= w') by (unfold w'; zcase; lia).
  rewrite take_app, take_take, !zlen_take by lia. unfold zrepeat. rewrite take_replicate. unfold zlen.
  f_equal; [f_equal; lia|]. rewrite length_take. f_equal. lia.
Qed.

Lemma strcpy_cutoff_ok out rest p w ra buf_len :
  2 <= buf_len <= zlen rest -> buf_len <= 2 ^ 31 -> 0 <= w ->
  let t := fitted ra w p (buf_len - 1) in
  _strcpy_cutoff (out ++ rest) (zlen out) p w ra buf_len =
    Some ((out ++ t) ++ 0 :: drop (S (length t)) rest, zlen t).
Proof.
  intros Hb Hsmall Hw t. unfold _strcpy_cutoff. destruct (Z.leb_spec buf_len 1); [lia|].
  assert (Ht : zlen t = Z.min (if w =? 0 then zlen p else w) (buf_len - 1)) by (apply zlen_fitted; lia).
  rewrite !QB_MIN_min, <- Ht. pose proof (zlen_nonneg p). pose proof (zlen_nonneg t). pose proof (zlen_nonneg out).
  set (text := take (Z.to_nat (Z.min (zlen p) (zlen t))) p).
  assert (Htext : take (Z.to_nat (zlen t)) p = text).
  { unfold text, zlen. rewrite !Nat2Z.id, <- Nat2Z.inj_min, Nat2Z.id. destruct (decide (length t <= length p)%nat).
    - by rewrite Nat.min_r by lia.
    - by rewrite Nat.min_l, !take_ge by lia. }
  assert (Hlen : zlen text = Z.min (zlen p) (zlen t)) by (unfold text; rewrite zlen_take; lia).
  assert (Hend : forall b, b = (out ++ t) ++ drop (length t) rest ->
     (dest ← buf_put b (zlen out + zlen t) [0]; Some (dest, i32 (zlen t))) =
     Some ((out ++ t) ++ 0 :: drop (S (length t)) rest, zlen t)).
  { intros b ->. rewrite <- zlen_app, buf_put_end by (rewrite zlen_cons, zlen_nil; unfold zlen in *; rewrite length_drop; lia).
    cbn [mbind option_bind length]. rewrite drop_drop, i32_small by (unfold zlen in *; lia).
    by rewrite <- app_assoc, Nat.add_1_r. }
  rewrite <- Hlen. destruct ra.
  - assert (Et : t = zrepeat 32 (zlen t - zlen text) ++ text) by (rewrite <- Htext, Ht; reflexivity).
    rewrite buf_put_end by (rewrite zlen_zrepeat; lia). cbn [mbind option_bind].
    replace (zlen out + zlen t - zlen text) with (zlen (out ++ zrepeat 32 (zlen t - zlen text)))
      by (rewrite zlen_app, zlen_zrepeat; lia).
    rewrite buf_put_end by (unfold zlen in *; rewrite length_drop; unfold zrepeat; rewrite length_replicate; lia).
    apply Hend. rewrite drop_drop, <- length_app, <- (app_assoc out), <- Et. reflexivity.
  - assert (Et : t = text ++ zrepeat 32 (zlen t - zlen text)) by (rewrite <- Htext, Ht; reflexivity).
    rewrite buf_put_end by lia. cbn [mbind option_bind]. rewrite <- (zlen_app out text).
    rewrite buf_put_end by (unfold zlen in *; rewrite length_drop; unfold zrepeat; rewrite length_replicate; lia).
    apply Hend. rewrite drop_drop, <- length_app, <- (app_assoc out), <- Et. reflexivity.
Qed.

(** ** Reading a field of the format *)

Lemma digits_of_app ds f : Forall (fun c => isdigit c = true) ds -> digits_of (ds ++ f) = ds ++ digits_of f.
Proof. induction 1 as [|c ds Hc _ IH]; [done|]. cbn [app digits_of]. by rewrite Hc, IH. Qed.

Lemma parse_width_ok ra ds conv rest :
  item_ok (Fld ra ds conv) ->
  parse_width ((if ra then [45] else []) ++ ds ++ conv :: rest) = Some (ra, number ds, conv :: rest).
Proof.
  intros (Hds & Hn & Hc & H45 & _).
  assert (Hd : digits_of (ds ++ conv :: rest) = ds) by (rewrite digits_of_app by done; cbn; by rewrite Hc, app_nil_r).
  assert (Hgo : forall r, (cutoff ← atoi (ds ++ conv :: rest);
     Some (r : bool, cutoff, drop (length (digits_of (ds ++ conv :: rest))) (ds ++ conv :: rest))) = Some (r, number ds, conv :: rest)).
  { intros r. unfold atoi. rewrite Hd. destruct (Z.ltb_spec (number ds) (2 ^ 31)); [|lia]. cbn [mbind option_bind].
    by rewrite drop_app_length. }
  unfold parse_width. destruct ra; [apply Hgo|]. cbn [app]. destruct ds as [|d ds]; cbn [app].
  - destruct (Z.eqb_spec conv 45); [done|]. apply (Hgo false).
  - destruct (Z.eqb_spec d 45) as [->|]; [|apply (Hgo false)]. apply list.Forall_cons in Hds as [? _]. done.
Qed.

(** ** The loop *)

Section Loop.
Context (pick : list Z -> list Z -> Z -> bool -> option (list Z * Z * bool)) (shown : bool -> list Z -> Z -> list Z).
Context (max : Z) (b0 : list Z) (Hmax : 2 <= max <= zlen b0) (Hsmall : max <= 2 ^ 31).

(** What the [switch] picks for a field makes the text [shown]. *)
Definition picks (i : item) : Prop :=
  match i with
  | Lit _ => True
  | Fld ra ds conv => forall rest, exists p w ra',
      pick (item_text i ++ rest) (conv :: rest) (number ds) ra = Some (p, w, ra') /\
      field ra' w p = shown ra ds conv /\ 0 <= w /\ (ra = false -> ra' = false)
  end.

Definition item_shown (i : item) : list Z := match i with Lit c => [c] | Fld ra ds conv => shown ra ds conv end.
Definition text_shown (its : list item) : list Z := concat (item_shown <$> its).

(** [out] is in the buffer and nothing from [max] on has changed. *)
Definition line_at (b out : list Z) : Prop := exists rest, b = out ++ rest /\ same_from max b0 b.

(** A newline at the end of [out] that is not of the format is followed by a NUL. *)
Definition closed (b out : list Z) : Prop := forall o, out = o ++ [10] -> exists rest, b = out ++ 0 :: rest.

Lemma same_from_zlen b : same_from max b0 b -> zlen b = zlen b0.
Proof. by intros []. Qed.

Lemma step_lit b out c :
  line_at b out -> zlen out < max - 1 ->
  exists b', buf_put b (zlen out) [c] = Some b' /\ line_at b' (out ++ [c]) /\ (c <> 10 -> closed b' (out ++ [c])).
Proof.
  intros (rest & -> & Hs) Hlt. pose proof (same_from_zlen _ Hs) as Hl. rewrite zlen_app in Hl.
  pose proof (buf_put_end out rest [c]) as E. rewrite zlen_cons, zlen_nil in E. specialize (E ltac:(lia)).
  eexists. split; [exact E|]. split.
  - eexists. split; [done|]. etrans; [exact Hs|]. eapply buf_put_below; [exact E|]. rewrite zlen_cons, zlen_nil. lia.
  - intros Hc o Ho. apply app_inj_tail in Ho as [_ ?]. done.
Qed.

Lemma step_fld b out p w ra :
  line_at b out -> zlen out < max - 1 -> 0 <= w ->
  let t := fitted ra w p (max - zlen out - 1) in
  exists b', _strcpy_cutoff b (zlen out) p w ra (u64 (max - zlen out)) = Some (b', zlen t) /\
    line_at b' (out ++ t) /\ closed b' (out ++ t).
Proof.
  intros (rest & -> & Hs) Hlt Hw t. pose proof (same_from_zlen _ Hs) as Hl. rewrite zlen_app in Hl. pose proof (zlen_nonneg out).
  rewrite u64_small by lia. exists ((out ++ t) ++ 0 :: drop (S (length t)) rest). split; [apply strcpy_cutoff_ok; lia|].
  assert (Ht : 0 <= zlen t <= max - zlen out - 1).
  { split; [apply zlen_nonneg|]. unfold t. rewrite zlen_fitted by lia. lia. }
  split; [|intros o _; eauto]. eexists. split; [done|]. etrans; [exact Hs|]. split.
  - rewrite !zlen_app, zlen_cons. unfold zlen in *. rewrite length_drop. lia.
  - change (0 :: drop (S (length t)) rest) with ([0] ++ drop (S (length t)) rest).
    rewrite app_assoc, !drop_app_ge by (unfold zlen in *; rewrite ?length_app; cbn [length]; lia).
    rewrite drop_drop. f_equal. rewrite !length_app. unfold zlen in *. cbn [length]. lia.
Qed.

Definition not_newline (i : item) : Prop := match i with Lit c => c <> 10 | Fld _ _ _ => True end.

Lemma take_app_cut {A} (l k : list A) n :
  zlen l <= n -> take (Z.to_nat n) (l ++ k) = l ++ take (Z.to_nat (n - zlen l)) k.
Proof.
  intros H. rewrite take_app. rewrite take_ge by (unfold zlen in *; lia). do 2 f_equal. unfold zlen. lia.
Qed.

(** One item: the loop goes on behind it, or the line is full. *)
Lemma loop_item i its fuel b out :
  item_ok i -> picks i -> line_at b out -> zlen out < max - 1 ->
  left_aligned i \/ zlen out + zlen (item_shown i) < max ->
  exists b', let t := take (Z.to_nat (max - 1 - zlen out)) (item_shown i) in
    format_loop pick (S fuel) max (text_of_items (i :: its)) b (zlen out) =
      (if max - 1 <=? zlen (out ++ t) then Some (b', zlen (out ++ t))
       else format_loop pick fuel max (text_of_items its) b' (zlen (out ++ t))) /\
    line_at b' (out ++ t) /\ (not_newline i -> closed b' (out ++ t)).
Proof.
  intros Hi Hp Hb Hlt Hfit. pose proof (zlen_nonneg out).
  unfold text_of_items. rewrite fmap_cons. cbn [concat].
  destruct i as [c|ra ds conv]; cbn [item_text item_shown app].
  - destruct Hi as [_ H37]. rewrite take_ge by (cbn [length]; lia). cbn [format_loop].
    destruct (Z.eqb_spec c 37); [done|]. cbn [negb].
    destruct (step_lit b out c Hb Hlt) as (b' & E & Hl & Hc). rewrite E. cbn [mbind option_bind]. exists b'.
    rewrite zlen_app, zlen_cons, zlen_nil. rewrite u32_small, u64_small by lia. split; [done|]. split; [done|exact Hc].
  - cbn [format_loop]. replace (37 =? 37) with true by done. cbn [negb]. rewrite <- !app_assoc. cbn [app].
    rewrite parse_width_ok by done. cbn [mbind option_bind].
    destruct (Hp (concat (item_text <$> its))) as (p & w & ra' & E & Hf & Hw & Hra). cbn [item_text] in E.
    rewrite <- app_comm_cons, <- !app_assoc in E. cbn [app] in E. rewrite E. cbn [mbind option_bind].
    destruct (step_fld b out p w ra' Hb Hlt Hw) as (b' & E' & Hl & Hc). rewrite E'. cbn [mbind option_bind].
    assert (Ht : fitted ra' w p (max - zlen out - 1) = take (Z.to_nat (max - 1 - zlen out)) (shown ra ds conv)).
    { replace (max - zlen out - 1) with (max - 1 - zlen out) by lia. destruct Hfit as [Ha|Hfit].
      - rewrite (Hra Ha), fitted_left, <- (Hra Ha), Hf by lia. done.
      - cbn [item_shown] in Hfit. rewrite fitted_whole, Hf by (rewrite ?Hf; lia). by rewrite take_ge by (unfold zlen in *; lia). }
    rewrite Ht in *. set (t := take _ (shown _ _ _)) in *. exists b'.
    assert (zlen t <= max - 1 - zlen out) by (unfold t; rewrite zlen_take; lia). pose proof (zlen_nonneg t).
    rewrite zlen_app. rewrite u32_small, u64_small by lia. split; [done|]. split; [done|]. intros _. exact Hc.
Qed.

Lemma loop_ok its : forall fuel b out,
  Forall item_ok its -> Forall picks its -> (length (text_of_items its) < fuel)%nat ->
  line_at b out -> zlen out < max - 1 ->
  Forall left_aligned its \/ zlen out + zlen (text_shown its) < max ->
  exists b', let out' := out ++ take (Z.to_nat (max - 1 - zlen out)) (text_shown its) in
    format_loop pick fuel max (text_of_items its) b (zlen out) = Some (b', zlen out') /\ line_at b' out' /\
    (closed b out -> Forall not_newline its -> closed b' out').
Proof.
  induction its as [|i its IH]; intros fuel b out Hi Hp Hf Hb Hlt Hfit.
  - exists b. cbn. rewrite take_nil, app_nil_r. destruct fuel; [cbn in Hf; lia|]. done.
  - apply list.Forall_cons in Hi as [Hi His]. apply list.Forall_cons in Hp as [Hp Hps].
    assert (Hshown : text_shown (i :: its) = item_shown i ++ text_shown its) by done. rewrite Hshown in *. rewrite zlen_app in Hfit.
    pose proof (zlen_nonneg (text_shown its)). pose proof (zlen_nonneg (item_shown i)). pose proof (zlen_nonneg out).
    assert (Hlen : (1 <= length (item_text i))%nat) by (destruct i; cbn; lia).
    assert (Hf' : (length (text_of_items (i :: its)) = length (item_text i) + length (text_of_items its))%nat).
    { unfold text_of_items. rewrite fmap_cons. cbn [concat]. by rewrite length_app. }
    destruct fuel as [|fuel]; [lia|].
    destruct (loop_item i its fuel b out) as (b' & E & Hl & Hc); [done|done|done|done| |].
    { destruct Hfit as [Ha|?]; [left; by apply list.Forall_cons in Ha as [? _]|right; lia]. }
    cbn zeta in E. rewrite E. set (t := take _ (item_shown i)) in *.
    assert (Hcut : zlen t = Z.min (max - 1 - zlen out) (zlen (item_shown i))) by (unfold t; rewrite zlen_take; lia).
    rewrite (zlen_app out t). destruct (Z.leb_spec (max - 1) (zlen out + zlen t)).
    + exists b'. assert (Et : take (Z.to_nat (max - 1 - zlen out)) (item_shown i ++ text_shown its) = t).
      { unfold t. rewrite take_app_le; [done|]. unfold zlen in *. lia. }
      cbn zeta. rewrite Et, zlen_app. split; [done|]. split; [done|]. intros _ Hn. apply Hc. by apply list.Forall_cons in Hn as [? _].
    + assert (Et : t = item_shown i) by (unfold t; apply take_ge; unfold zlen in *; lia).
      destruct (IH fuel b' (out ++ t)) as (b'' & E2 & Hl2 & Hc2); [done|done|lia|done|rewrite zlen_app; lia| |].
      { destruct Hfit as [Ha|?]; [left; by apply list.Forall_cons in Ha as [_ ?]|right; rewrite zlen_app; lia]. }
      exists b''. cbn zeta in *. rewrite take_app_cut by lia.
      replace (max - 1 - zlen out - zlen (item_shown i)) with (max - 1 - zlen (out ++ t)) by (rewrite zlen_app, Et; lia).
      rewrite <- Et, app_assoc, <- (zlen_app out t). split; [done|]. split; [done|]. intros _ Hn.
      apply list.Forall_cons in Hn as [Hn Hns]. by apply Hc2; [apply Hc|].
Qed.
End Loop.

(** ** The end of the line *)

Definition line_end (max : Z) (ellipsis : bool) (t : list Z) : list Z :=
  if ellipsis && (max - 1 <=? zlen t) then take (length t - 3) t ++ bytes "..."
  else if decide (t !! (length t - 1)%nat = Some 10) then take (length t - 1) t else t.

Lemma buf_put_mid pre old post bs :
  length old = length bs -> buf_put (pre ++ old ++ post) (zlen pre) bs = Some (pre ++ bs ++ post).
Proof.
  intros H. rewrite buf_put_end by (unfold zlen; rewrite length_app; lia). rewrite <- H, drop_app_length. by rewrite app_assoc.
Qed.

Section Finish.
Context (max : Z) (b0 : list Z) (Hmax : 2 <= max <= zlen b0) (Hsmall : max <= 2 ^ 31).

(** The last character is dropped or a NUL put behind it. *)
Definition terminated (o : list Z) (c : Z) (rest b : list Z) : Prop :=
  if decide (c = 10) then b = o ++ [0] ++ rest else exists r, b = o ++ [c] ++ 0 :: r.

Lemma close_line o c rest :
  same_from max b0 (o ++ [c] ++ rest) -> zlen o + 1 <= max - 1 ->
  exists b, terminated o c rest b /\ same_from max b0 b /\
    (last ← buf_get (o ++ [c] ++ rest) (u32 (zlen o + 1 - 1)) 1;
     if bool_decide (last = [10]) then buf_put (o ++ [c] ++ rest) (u32 (zlen o + 1 - 1)) [0]
     else buf_put (o ++ [c] ++ rest) (zlen o + 1) [0]) = Some b.
Proof.
  intros Hs Hle. pose proof (same_from_zlen max b0 _ Hs) as Hl. pose proof (zlen_nonneg o).
  replace (zlen o + 1 - 1) with (zlen o) by lia. rewrite u32_small by lia. rewrite !zlen_app, zlen_cons, zlen_nil in Hl.
  rewrite (buf_get_mid o [c] rest : buf_get _ _ 1 = _). cbn [mbind option_bind]. unfold terminated. destruct (decide (c = 10)) as [->|Hn].
  - rewrite bool_decide_eq_true_2 by done. rewrite buf_put_mid by done. eexists. split; [done|]. split; [|done].
    etrans; [exact Hs|]. eapply (buf_put_below max _ (zlen o) [0]); [by apply buf_put_mid|]. rewrite zlen_cons, zlen_nil. lia.
  - rewrite bool_decide_eq_false_2 by congruence. destruct rest as [|x rest]; [rewrite zlen_nil in Hl; lia|].
    assert (E : buf_put (o ++ [c] ++ x :: rest) (zlen o + 1) [0] = Some (o ++ [c] ++ 0 :: rest)).
    { rewrite app_assoc. replace (zlen o + 1) with (zlen (o ++ [c])) by (rewrite zlen_app, zlen_cons, zlen_nil; lia).
      change (x :: rest) with ([x] ++ rest). rewrite buf_put_mid by done. by rewrite <- app_assoc. }
    rewrite E. eexists. split; [eauto|]. split; [|done]. etrans; [exact Hs|]. eapply buf_put_below; [exact E|].
    rewrite zlen_cons, zlen_nil. lia.
Qed.

(** Three dots over the last three characters. *)
Lemma put_dots o x y z rest :
  same_from max b0 (o ++ [x; y; z] ++ rest) -> zlen o + 3 <= max -> nul_free o -> (exists r, rest = 0 :: r) ->
  exists b, same_from max b0 b /\ cstr b = Some (o ++ bytes "...") /\
    (b ← buf_put (o ++ [x; y; z] ++ rest) (u32 (zlen o + 3 - 3)) [46];
     b ← buf_put b (u32 (zlen o + 3 - 2)) [46];
     buf_put b (u32 (zlen o + 3 - 1)) [46]) = Some b.
Proof.
  intros Hs Hle Ho (r & ->). pose proof (zlen_nonneg o). rewrite !u32_small by lia.
  replace (zlen o + 3 - 3) with (zlen o) by lia.
  replace (zlen o + 3 - 2) with (zlen (o ++ [46])) by (rewrite zlen_app, zlen_cons, zlen_nil; lia).
  replace (zlen o + 3 - 1) with (zlen (o ++ [46; 46])) by (rewrite zlen_app, !zlen_cons, zlen_nil; lia).
  exists (o ++ bytes "..." ++ 0 :: r). split; [|split].
  - etrans; [exact Hs|]. apply (buf_put_below max _ (zlen o) (bytes "...")); [by apply buf_put_mid|]. change (zlen (bytes "...")) with 3. lia.
  - rewrite app_assoc. apply cstr_app. apply Forall_app. split; [done|]. repeat (apply list.Forall_cons; split; [done|]). constructor.
  - change ([x; y; z] ++ 0 :: r) with ([x] ++ [y; z] ++ 0 :: r). rewrite buf_put_mid by done. cbn [mbind option_bind].
    replace (o ++ [46] ++ [y; z] ++ 0 :: r) with ((o ++ [46]) ++ [y] ++ z :: 0 :: r) by by rewrite <- app_assoc.
    rewrite buf_put_mid by done. cbn [mbind option_bind].
    replace ((o ++ [46]) ++ [46] ++ z :: 0 :: r) with ((o ++ [46; 46]) ++ [z] ++ 0 :: r) by by rewrite <- !app_assoc.
    rewrite buf_put_mid by done. by rewrite <- app_assoc.
Qed.

Lemma finish_ok ell b out :
  line_at max b0 b out -> 0 < zlen out <= max - 1 -> nul_free out -> (ell = true -> 4 <= max /\ closed b out) ->
  exists b', finish_line max ell b (zlen out) = Some b' /\ cstr b' = Some (line_end max ell out) /\ same_from max b0 b'.
Proof.
  intros (rest & -> & Hs) Hlen Hnul Hell.
  destruct out as [|c o _] using rev_ind; [rewrite zlen_nil in Hlen; lia|].
  apply Forall_app in Hnul as [Ho Hc]. apply list.Forall_cons in Hc as [Hc _].
  rewrite <- app_assoc in *. rewrite zlen_app, zlen_cons, zlen_nil, Z.add_0_r in Hlen.
  assert (Ez : zlen (o ++ [c]) = zlen o + 1) by (rewrite zlen_app, zlen_cons, zlen_nil; lia).
  destruct (close_line o c rest Hs) as (b1 & Ht & Hs1 & E); [lia|].
  unfold finish_line, line_end. rewrite Ez.
  destruct (buf_get _ _ _) as [l|]; cbn [mbind option_bind] in *; [|done]. rewrite E. cbn [mbind option_bind].
  rewrite u64_small by lia. destruct (ell && (max - 1 <=? zlen o + 1)) eqn:Ee.
  - apply andb_true_iff in Ee as [-> Hfull%Z.leb_le]. destruct (Hell eq_refl) as [Hm Hcl]. clear E.
    destruct o as [|y o _] using rev_ind; [rewrite zlen_nil in Hfull; lia|].
    destruct o as [|x o _] using rev_ind; [change (zlen ([] ++ [y])) with 1 in Hfull; lia|].
    assert (Hb1 : exists z r, b1 = o ++ [x; y; z] ++ 0 :: r).
    { unfold terminated in Ht. destruct (decide (c = 10)) as [->|].
      - destruct (Hcl _ eq_refl) as (r & Er). rewrite <- !app_assoc in Er. cbn [app] in Er.
        apply app_inv_head in Er. injection Er as ->. exists 0, r. by rewrite Ht, <- !app_assoc.
      - destruct Ht as (r & ->). exists c, r. by rewrite <- !app_assoc. }
    destruct Hb1 as (z & r & ->). apply Forall_app in Ho as [Ho _]. apply Forall_app in Ho as [Ho _].
    replace (zlen ((o ++ [x]) ++ [y]) + 1) with (zlen o + 3) in * by (rewrite !zlen_app, !zlen_cons, zlen_nil; lia).
    destruct (put_dots o x y z (0 :: r) Hs1) as (b & Hb & Hcs & ->); [lia|done|eauto|].
    exists b. split; [done|]. split; [|done]. rewrite Hcs, <- !app_assoc. cbn [app]. do 2 f_equal.
    rewrite length_app. cbn [length]. replace (length o + 3 - 3)%nat with (length o) by lia. by rewrite take_app_length.
  - exists b1. split; [done|]. split; [|done]. rewrite length_app. cbn [length].
    replace (length o + 1 - 1)%nat with (length o) by lia. rewrite list_lookup_middle by done. rewrite take_app_length.
    unfold terminated in Ht. destruct (decide (c = 10)) as [->|].
    + rewrite decide_True, Ht by done. by apply cstr_app.
    + rewrite decide_False by congruence. destruct Ht as (r & ->). rewrite app_assoc. apply cstr_app.
      apply Forall_app. split; [done|]. apply list.Forall_cons. by split.
Qed.
End Finish.

(** ** The two functions *)

(** A field of a message, and one of a format that is set: there the process, the
    name and the host are filled in and other conversions are left alone. *)
Definition field_shown (value : Z -> list Z) (ra : bool) (ds : list Z) (conv : Z) : list Z :=
  field ra (number ds) (value conv).

Definition static_shown (pid : Z) (hostname : option (list Z)) (name : list Z) (ra : bool) (ds : list Z) (conv : Z) : list Z :=
  if conv =? 80 then field ra (number ds) (take 29 (decimal pid))
  else if conv =? 78 then field ra (number ds) name
  else if conv =? 72 then field ra (number ds) (match hostname with Some h => take 254 h | None => bytes "localhost" end)
  else item_text (Fld ra ds conv).

Lemma number_nonneg ds : Forall (fun c => isdigit c = true) ds -> 0 <= number ds.
Proof.
  unfold number. intros H. assert (Hg : forall n, 0 <= n -> 0 <= foldl (fun n c => n * 10 + (c - 48)) n ds).
  { induction H as [|c ds Hc _ IH]; intros n Hn; [done|]. cbn. apply IH. unfold isdigit in Hc. lia. }
  by apply Hg.
Qed.

Lemma field_prefix p k : k <> [] -> field false (zlen k) (k ++ p) = k.
Proof.
  intros Hk. unfold field. destruct (Z.eqb_spec (zlen k) 0) as [E|_]; [destruct k; [done|rewrite zlen_cons in E; pose proof (zlen_nonneg k); lia]|].
  unfold zlen. rewrite Nat2Z.id, take_app_length. by rewrite Z.sub_diag, app_nil_r.
Qed.

Section Main.
Context (max : Z) (its : list item) (Hmax : 2 <= max <= 2 ^ 31) (Hits : Forall item_ok its).

Lemma pick_static_ok pid hostname name i :
  item_ok i -> picks (pick_static pid hostname name) (static_shown pid hostname name) i.
Proof.
  destruct i as [c|ra ds conv]; [done|]. intros (Hds & _) rest. cbn [picks].
  assert (Hn := number_nonneg ds Hds). unfold static_shown.
  destruct (Z.eqb_spec conv 80) as [->|H80]; [eexists _, _, _; split; [reflexivity|by split_and!]|].
  destruct (Z.eqb_spec conv 78) as [->|H78]; [eexists _, _, _; split; [reflexivity|by split_and!]|].
  destruct (Z.eqb_spec conv 72) as [->|H72]; [eexists _, _, _; split; [reflexivity|by split_and!]|].
  set (t := item_text _). exists (t ++ rest), (zlen t), false.
  assert (Ht : t <> []) by done. split_and!; [|by apply field_prefix|apply zlen_nonneg|done].
  assert (Hw : zlen (t ++ rest) - zlen (conv :: rest) + 1 = zlen t) by (rewrite zlen_app, zlen_cons; lia).
  unfold pick_static. rewrite Hw. repeat (done || case_match).
Qed.

Lemma conversion_text_some localtime tags_fn bip cs sec nsec msg c :
  0 <= tm_mon (localtime sec) < 12 -> is_Some (conversion_text localtime tags_fn bip cs sec nsec msg c).
Proof.
  intros Hm. assert (Ht : is_Some (time_text (localtime sec))).
  { unfold time_text. destruct (Z.ltb_spec (tm_mon (localtime sec)) 0); [lia|].
    destruct (lookup_lt_is_Some_2 log_month_name (Z.to_nat (tm_mon (localtime sec)))) as [x ->]; [cbn; lia|]. by eexists. }
  destruct Ht as [t Ht]. unfold conversion_text. rewrite Ht. cbn [mbind option_bind].
  repeat (case_match; [by eexists|]). by eexists.
Qed.

Lemma pick_dynamic_ok localtime tags_fn bip cs sec nsec msg i :
  0 <= tm_mon (localtime sec) < 12 -> item_ok i ->
  picks (pick_dynamic localtime tags_fn bip cs sec nsec msg)
    (field_shown (fun c => default [] (conversion_text localtime tags_fn bip cs sec nsec msg c))) i.
Proof.
  intros Hm. destruct i as [c|ra ds conv]; [done|]. intros (Hds & _) rest. cbn [picks].
  destruct (conversion_text_some localtime tags_fn bip cs sec nsec msg conv Hm) as [v Hv].
  unfold field_shown. rewrite Hv. exists v, (number ds), ra. unfold pick_dynamic. cbn [head default id]. unfold id. rewrite Hv.
  split_and!; [done|done|by apply number_nonneg|done].
Qed.

Lemma text_shown_from_start pick shown buf :
  max <= zlen buf -> (forall i, item_ok i -> picks pick shown i) ->
  Forall left_aligned its \/ zlen (text_shown shown its) < max ->
  exists b, let out := take (Z.to_nat (max - 1)) (text_shown shown its) in
    format_loop pick (S (length (text_of_items its))) max (text_of_items its) buf 0 = Some (b, zlen out) /\
    line_at max buf b out /\ (Forall not_newline its -> closed b out).
Proof.
  intros Hb Hp Hfit. destruct (loop_ok pick shown max buf) with (its := its) (fuel := S (length (text_of_items its))) (b := buf) (out := @nil Z)
    as (b & E & Hl & Hc); [lia|lia|done|by eapply Forall_impl|lia|by exists buf|rewrite zlen_nil; lia|done|].
  rewrite zlen_nil, Z.sub_0_r in *. exists b. split; [done|]. split; [done|]. apply Hc. by intros [] ?.
Qed.

(** Setting a format fills the process, the program and the host in and
    leaves every other character as it is, cut at the length of a line; nothing
    is written behind that length. *)
Theorem format_static_correct pid hostname name buf :
  max <= zlen buf -> let text := text_shown (static_shown pid hostname name) its in
  nul_free text -> Forall left_aligned its \/ zlen text < max ->
  exists out, qb_log_target_format_static pid hostname name max (Some (text_of_items its)) buf = Some out /\
    cstr out = Some (take (Z.to_nat (max - 1)) text) /\ same_from max buf out.
Proof.
  intros Hb text Hnul Hfit.
  destruct (text_shown_from_start (pick_static pid hostname name) (static_shown pid hostname name) buf)
    as (b & E & (rest & -> & Hs) & _); [lia|intros; by apply pick_static_ok|done|].
  fold text in E, Hs. set (out := take _ text) in *. assert (zlen out <= max - 1) by (unfold out; rewrite zlen_take; lia).
  pose proof (same_from_zlen max buf _ Hs) as Hl. rewrite zlen_app in Hl.
  destruct rest as [|x rest]; [rewrite zlen_nil in Hl; lia|].
  assert (Ep : buf_put (out ++ x :: rest) (zlen out) [0] = Some (out ++ 0 :: rest)) by (apply (buf_put_mid out [x] rest [0]); done).
  exists (out ++ 0 :: rest). unfold qb_log_target_format_static. rewrite E. cbn [mbind option_bind]. split_and!; [exact Ep| |].
  - apply cstr_app. by apply Forall_take.
  - etrans; [exact Hs|]. eapply buf_put_below; [exact Ep|]. rewrite zlen_cons, zlen_nil. lia.
Qed.

(** C36. A message is laid out as the items of the format one after the other,
    cut at the length of a line; a last newline is dropped, or the last three
    characters are dots when the line is full and that is asked for; nothing is
    written behind the length of a line. *)
Theorem target_format_correct localtime tags_fn bip ellipsis cs sec nsec msg buf :
  max <= zlen buf -> 0 <= tm_mon (localtime sec) < 12 ->
  let value c := default [] (conversion_text localtime tags_fn bip cs sec nsec msg c) in
  let text := text_shown (field_shown value) its in
  nul_free text -> text <> [] -> Forall left_aligned its \/ zlen text < max ->
  (ellipsis = true -> 4 <= max /\ Forall not_newline its) ->
  exists out, qb_log_target_format localtime tags_fn bip (Some (text_of_items its)) max ellipsis cs sec nsec msg buf = Some out /\
    cstr out = Some (line_end max ellipsis (take (Z.to_nat (max - 1)) text)) /\ same_from max buf out.
Proof.
  intros Hb Hm value text Hnul Hne Hfit Hell.
  destruct (text_shown_from_start (pick_dynamic localtime tags_fn bip cs sec nsec msg) (field_shown value) buf)
    as (b & E & Hl & Hc); [lia|intros; by apply pick_dynamic_ok|done|].
  fold text in E, Hl, Hc. set (out := take _ text) in *. unfold qb_log_target_format. rewrite E. cbn [mbind option_bind].
  assert (Hlen : 0 < zlen out <= max - 1).
  { unfold out. rewrite zlen_take by lia. destruct text; [done|]. rewrite zlen_cons. pose proof (zlen_nonneg text). lia. }
  apply (finish_ok max buf); [lia|lia|done|done|by apply Forall_take|].
  intros He. destruct (Hell He). split; [done|]. by apply Hc.
Qed.
End Main.

(** * Log lines: examples

    A format with fields, and lines that are read or written outside their
    buffers. *)
Module LogFormatExamples.

Definition some_site : qb_log_callsite :=
  {| function := bytes "main"; filename := bytes "lib/a.c"; format := []; priority := LOG_ERR; lineno := 42; targets := 0; tags := 0;
     message_id := None |}.
Definition some_time (_ : Z) : tm := {| tm_mon := 1; tm_mday := 5; tm_hour := 3; tm_min := 4; tm_sec := 59 |}.

(** [%T [%-8p] %f:%l %b] *)
Definition some_items : list item :=
  [Fld false [] 84; Lit 32; Lit 91; Fld true (bytes "8") 112; Lit 93; Lit 32; Fld false [] 102; Lit 58; Fld false [] 108; Lit 32; Fld false [] 98].

Lemma some_items_ok : Forall item_ok some_items.
Proof.
  repeat (apply list.Forall_cons; split; [vm_compute; split_and?; first [discriminate|reflexivity|repeat constructor]|]). constructor.
Qed.

Example some_items_format : text_of_items some_items = bytes "%T [%-8p] %f:%l %b".
Proof. vm_compute. reflexivity. Qed.

Definition some_line (max : Z) (ellipsis : bool) (msg : list Z) : option (list Z) :=
  b ← qb_log_target_format some_time None false (Some (text_of_items some_items)) max ellipsis some_site 0 123456789 msg (zrepeat 170 100);
  cstr b.

Example some_line_full : some_line 100 false (bytes "hello") = Some (bytes "Feb 05 03:04:59.123 [   error] a.c:42 hello").
Proof. vm_compute. reflexivity. Qed.

Lemma target_format_correct_witness :
  exists out,
    qb_log_target_format some_time None false (Some (text_of_items some_items)) 60 true some_site 0 123456789 (bytes "hello") (zrepeat 170 100) = Some out /\
    cstr out = Some (bytes "Feb 05 03:04:59.123 [   error] a.c:42 hello") /\ same_from 60 (zrepeat 170 100) out.
Proof.
  pose proof (target_format_correct 60 some_items ltac:(lia) some_items_ok some_time None false true some_site 0 123456789 (bytes "hello") (zrepeat 170 100)) as H.
  apply H; clear H.
  - vm_compute. discriminate.
  - cbn. lia.
  - vm_compute. repeat (apply list.Forall_cons; split; [discriminate|]). constructor.
  - vm_compute. discriminate.
  - right. vm_compute. reflexivity.
  - intros _. split; [lia|]. repeat (apply list.Forall_cons; split; [vm_compute; first [exact I|discriminate]|]). constructor.
Defined.

(** [%N: %5P%b] *)
Definition static_items : list item := [Fld false [] 78; Lit 58; Lit 32; Fld false (bytes "5") 80; Fld false [] 98].

Lemma static_items_ok : Forall item_ok static_items.
Proof.
  repeat (apply list.Forall_cons; split; [vm_compute; split_and?; first [discriminate|reflexivity|repeat constructor]|]). constructor.
Qed.

Lemma format_static_correct_witness :
  exists out, qb_log_target_format_static 321 None (bytes "prog") 512 (Some (text_of_items static_items)) (zrepeat 0 600) = Some out /\
    cstr out = Some (bytes "prog: 321  %b") /\ same_from 512 (zrepeat 0 600) out.
Proof.
  pose proof (format_static_correct 512 static_items ltac:(lia) static_items_ok 321 None (bytes "prog") (zrepeat 0 600)) as H.
  apply H; clear H.
  - vm_compute. discriminate.
  - vm_compute. repeat (apply list.Forall_cons; split; [discriminate|]). constructor.
  - right. vm_compute. reflexivity.
Defined.

(** Lay a message out with a format in a buffer of 64 bytes. *)
Definition lay_out (f : list Z) (max : Z) (msg : list Z) : option (list Z) :=
  b ← qb_log_target_format some_time None false (Some f) max true some_site 0 0 msg (zrepeat 170 64); cstr b.

(** An empty message in a format with nothing else is looked for before the
    start of the buffer; a format that ends in a percent sign is read behind its
    end; a line of no length is written without limit, and one of three
    characters gets its dots before the start of the buffer; a format of more
    than 255 characters overruns the buffer it is copied to. *)
Theorem line_faults :
  lay_out (bytes "%b") 64 (bytes "x") = Some (bytes "x") /\ lay_out (bytes "%b") 64 [] = None /\
  lay_out (bytes "%b 100%") 64 (bytes "x") = None /\
  lay_out (bytes "%b") 0 (bytes "0123456789012345678901234567890123456789012345678901234567890123456789") = None /\
  lay_out (bytes "%b") 3 (bytes "abcdef") = None /\
  qb_log_target_format_static 1 None [] 512 (Some (zrepeat 45 300)) (zrepeat 0 256) = None.
Proof. vm_compute. repeat split. Qed.

End LogFormatExamples.
