(* ===== verification/LogState.v ===== *)
(** * Logging: data (lib/log.c, lib/log_int.h, include/qb/qblog.h)

    Targets, filters, call sites and the static variables of lib/log.c and
    lib/log_dcs.c, gathered in one state.  A call site is in a section that the
    program registered or in the array of dynamic ones. *)
From S2P Require Import Prelude Memory Cstring Serialize Array LogFormat.

(** ** Constants *)

Definition QB_LOG_TARGET_START : Z := 0.
Definition QB_LOG_SYSLOG : Z := 0.
Definition QB_LOG_STDERR : Z := 1.
Definition QB_LOG_BLACKBOX : Z := 2.
Definition QB_LOG_STDOUT : Z := 3.
Definition QB_LOG_TARGET_STATIC_MAX : Z := 4.
Definition QB_LOG_TARGET_MAX : Z := 32.

Inductive qb_log_target_state := QB_LOG_STATE_UNUSED | QB_LOG_STATE_DISABLED | QB_LOG_STATE_ENABLED.
#[export] Instance target_state_eq_dec : EqDecision qb_log_target_state.
Proof. solve_decision. Defined.
Definition state_value (s : qb_log_target_state) : Z :=
  match s with QB_LOG_STATE_UNUSED => 1 | QB_LOG_STATE_DISABLED => 2 | QB_LOG_STATE_ENABLED => 3 end.

(** A value of an [enum] can also be a number that is none of its constants. *)
Inductive qb_log_conf :=
  | QB_LOG_CONF_ENABLED | QB_LOG_CONF_FACILITY | QB_LOG_CONF_DEBUG | QB_LOG_CONF_SIZE | QB_LOG_CONF_THREADED
  | QB_LOG_CONF_PRIORITY_BUMP | QB_LOG_CONF_STATE_GET | QB_LOG_CONF_FILE_SYNC | QB_LOG_CONF_EXTENDED
  | QB_LOG_CONF_IDENT | QB_LOG_CONF_MAX_LINE_LEN | QB_LOG_CONF_ELLIPSIS | QB_LOG_CONF_USE_JOURNAL | OTHER_CONF.

Inductive qb_log_filter_type :=
  | QB_LOG_FILTER_FILE | QB_LOG_FILTER_FUNCTION | QB_LOG_FILTER_FORMAT
  | QB_LOG_FILTER_FILE_REGEX | QB_LOG_FILTER_FUNCTION_REGEX | QB_LOG_FILTER_FORMAT_REGEX | OTHER_TYPE.
#[export] Instance filter_type_eq_dec : EqDecision qb_log_filter_type.
Proof. solve_decision. Defined.

Inductive qb_log_filter_conf :=
  | QB_LOG_FILTER_ADD | QB_LOG_FILTER_REMOVE | QB_LOG_FILTER_CLEAR_ALL
  | QB_LOG_TAG_SET | QB_LOG_TAG_CLEAR | QB_LOG_TAG_CLEAR_ALL | OTHER_FILTER_CONF.
#[export] Instance filter_conf_eq_dec : EqDecision qb_log_filter_conf.
Proof. solve_decision. Defined.

Definition QB_LOG_MAX_LEN : Z := 512.
Definition QB_LOG_ABSOLUTE_MAX_LEN : Z := 4096.
Definition QB_LOG_TAG_LIBQB_MSG_BIT : Z := 31.
Definition PATH_MAX : Z := 4096.
Definition EMFILE : Z := 24.
Definition EOPNOTSUPP : Z := 95.

Definition qb_bit_value (bit : Z) : Z := u32 (Z.shiftl 1 bit).
Definition qb_bit_set (barray bit : Z) : Z := Z.lor barray (qb_bit_value bit).
Definition qb_bit_clear (barray bit : Z) : Z := Z.land barray (u32 (Z.lnot (qb_bit_value bit))).
Definition qb_bit_is_set (barray bit : Z) : bool := negb (Z.land barray (qb_bit_value bit) =? 0).

(** ** Call sites and filters *)

(** What [calloc] leaves. *)
Definition zero_callsite : qb_log_callsite :=
  {| function := []; filename := []; format := []; priority := 0; lineno := 0; targets := 0; tags := 0; message_id := None |}.
#[export] Instance callsite_inhabited : Inhabited qb_log_callsite := populate zero_callsite.

Definition set_targets (cs : qb_log_callsite) (x : Z) : qb_log_callsite :=
  {| function := function cs; filename := filename cs; format := format cs; priority := priority cs;
     lineno := lineno cs; targets := x; tags := tags cs; message_id := message_id cs |}.
Definition set_tags (cs : qb_log_callsite) (x : Z) : qb_log_callsite :=
  {| function := function cs; filename := filename cs; format := format cs; priority := priority cs;
     lineno := lineno cs; targets := targets cs; tags := x; message_id := message_id cs |}.

(** Where a call site is: one that the program registers, by its address, or an
    element of the array of dynamic ones, by its index. *)
Inductive cs_ptr := Static (a : Z) | Dynamic (i : Z).
#[export] Instance cs_ptr_eq_dec : EqDecision cs_ptr.
Proof. solve_decision. Defined.
#[export] Program Instance cs_ptr_countable : Countable cs_ptr :=
  inj_countable' (fun p => match p with Static a => inl a | Dynamic i => inr i end)
                 (fun s => match s with inl a => Static a | inr i => Dynamic i end) _.
Next Obligation. by intros []. Qed.

(** A compiled regular expression is the text it was made from. *)
Record qb_log_filter := {
  f_conf : qb_log_filter_conf;
  f_type : qb_log_filter_type;
  f_text : list Z;
  high_priority : Z;
  low_priority : Z;
  new_value : Z;
  regex : option (list Z);
}.

(** ** Targets *)

(** The functions of a target: none, those of the built-in targets, or those
    that the user passed to [qb_log_custom_open]. *)
Inductive target_fn := F_null | F_syslog | F_file | F_blackbox | F_user (n : Z).

Record qb_log_target := {
  pos : Z;
  state : qb_log_target_state;
  name : list Z;
  t_filename : list Z;
  filter_head : list qb_log_filter;
  facility : Z;
  priority_bump : Z;
  file_sync : Z;
  debug : Z;
  extended : Z;
  use_journal : Z;
  size_ : Z;
  max_line_length : Z;
  ellipsis : Z;
  t_format : option (list Z);
  threaded : Z;
  instance : Z;
  reload : target_fn;
  close : target_fn;
  logger : target_fn;
  vlogger : target_fn;
}.
#[export] Instance target_inhabited : Inhabited qb_log_target := populate
  {| pos := 0; state := QB_LOG_STATE_UNUSED; name := []; t_filename := []; filter_head := []; facility := 0; priority_bump := 0;
     file_sync := 0; debug := 0; extended := 0; use_journal := 0; size_ := 0; max_line_length := 0; ellipsis := 0; t_format := None;
     threaded := 0; instance := 0; reload := F_null; close := F_null; logger := F_null; vlogger := F_null |}.

Definition set_pos (t : qb_log_target) (x : Z) : qb_log_target :=
  {| pos := x; state := state t; name := name t; t_filename := t_filename t; filter_head := filter_head t;
     facility := facility t; priority_bump := priority_bump t; file_sync := file_sync t; debug := debug t;
     extended := extended t; use_journal := use_journal t; size_ := size_ t; max_line_length := max_line_length t;
     ellipsis := ellipsis t; t_format := t_format t; threaded := threaded t; instance := instance t; reload := reload t;
     close := close t; logger := logger t; vlogger := vlogger t |}.
Definition set_state (t : qb_log_target) (x : qb_log_target_state) : qb_log_target :=
  {| pos := pos t; state := x; name := name t; t_filename := t_filename t; filter_head := filter_head t;
     facility := facility t; priority_bump := priority_bump t; file_sync := file_sync t; debug := debug t;
     extended := extended t; use_journal := use_journal t; size_ := size_ t; max_line_length := max_line_length t;
     ellipsis := ellipsis t; t_format := t_format t; threaded := threaded t; instance := instance t; reload := reload t;
     close := close t; logger := logger t; vlogger := vlogger t |}.
Definition set_name (t : qb_log_target) (x : list Z) : qb_log_target :=
  {| pos := pos t; state := state t; name := x; t_filename := t_filename t; filter_head := filter_head t;
     facility := facility t; priority_bump := priority_bump t; file_sync := file_sync t; debug := debug t;
     extended := extended t; use_journal := use_journal t; size_ := size_ t; max_line_length := max_line_length t;
     ellipsis := ellipsis t; t_format := t_format t; threaded := threaded t; instance := instance t; reload := reload t;
     close := close t; logger := logger t; vlogger := vlogger t |}.
Definition set_t_filename (t : qb_log_target) (x : list Z) : qb_log_target :=
  {| pos := pos t; state := state t; name := name t; t_filename := x; filter_head := filter_head t;
     facility := facility t; priority_bump := priority_bump t; file_sync := file_sync t; debug := debug t;
     extended := extended t; use_journal := use_journal t; size_ := size_ t; max_line_length := max_line_length t;
     ellipsis := ellipsis t; t_format := t_format t; threaded := threaded t; instance := instance t; reload := reload t;
     close := close t; logger := logger t; vlogger := vlogger t |}.
Definition set_filter_head (t : qb_log_target) (x : list qb_log_filter) : qb_log_target :=
  {| pos := pos t; state := state t; name := name t; t_filename := t_filename t; filter_head := x;
     facility := facility t; priority_bump := priority_bump t; file_sync := file_sync t; debug := debug t;
     extended := extended t; use_journal := use_journal t; size_ := size_ t; max_line_length := max_line_length t;
     ellipsis := ellipsis t; t_format := t_format t; threaded := threaded t; instance := instance t; reload := reload t;
     close := close t; logger := logger t; vlogger := vlogger t |}.
Definition set_facility (t : qb_log_target) (x : Z) : qb_log_target :=
  {| pos := pos t; state := state t; name := name t; t_filename := t_filename t; filter_head := filter_head t;
     facility := x; priority_bump := priority_bump t; file_sync := file_sync t; debug := debug t; extended := extended t;
     use_journal := use_journal t; size_ := size_ t; max_line_length := max_line_length t; ellipsis := ellipsis t;
     t_format := t_format t; threaded := threaded t; instance := instance t; reload := reload t; close := close t;
     logger := logger t; vlogger := vlogger t |}.
Definition set_priority_bump (t : qb_log_target) (x : Z) : qb_log_target :=
  {| pos := pos t; state := state t; name := name t; t_filename := t_filename t; filter_head := filter_head t;
     facility := facility t; priority_bump := x; file_sync := file_sync t; debug := debug t; extended := extended t;
     use_journal := use_journal t; size_ := size_ t; max_line_length := max_line_length t; ellipsis := ellipsis t;
     t_format := t_format t; threaded := threaded t; instance := instance t; reload := reload t; close := close t;
     logger := logger t; vlogger := vlogger t |}.
Definition set_file_sync (t : qb_log_target) (x : Z) : qb_log_target :=
  {| pos := pos t; state := state t; name := name t; t_filename := t_filename t; filter_head := filter_head t;
     facility := facility t; priority_bump := priority_bump t; file_sync := x; debug := debug t; extended := extended t;
     use_journal := use_journal t; size_ := size_ t; max_line_length := max_line_length t; ellipsis := ellipsis t;
     t_format := t_format t; threaded := threaded t; instance := instance t; reload := reload t; close := close t;
     logger := logger t; vlogger := vlogger t |}.
Definition set_debug (t : qb_log_target) (x : Z) : qb_log_target :=
  {| pos := pos t; state := state t; name := name t; t_filename := t_filename t; filter_head := filter_head t;
     facility := facility t; priority_bump := priority_bump t; file_sync := file_sync t; debug := x;
     extended := extended t; use_journal := use_journal t; size_ := size_ t; max_line_length := max_line_length t;
     ellipsis := ellipsis t; t_format := t_format t; threaded := threaded t; instance := instance t; reload := reload t;
     close := close t; logger := logger t; vlogger := vlogger t |}.
Definition set_extended (t : qb_log_target) (x : Z) : qb_log_target :=
  {| pos := pos t; state := state t; name := name t; t_filename := t_filename t; filter_head := filter_head t;
     facility := facility t; priority_bump := priority_bump t; file_sync := file_sync t; debug := debug t; extended := x;
     use_journal := use_journal t; size_ := size_ t; max_line_length := max_line_length t; ellipsis := ellipsis t;
     t_format := t_format t; threaded := threaded t; instance := instance t; reload := reload t; close := close t;
     logger := logger t; vlogger := vlogger t |}.
Definition set_use_journal (t : qb_log_target) (x : Z) : qb_log_target :=
  {| pos := pos t; state := state t; name := name t; t_filename := t_filename t; filter_head := filter_head t;
     facility := facility t; priority_bump := priority_bump t; file_sync := file_sync t; debug := debug t;
     extended := extended t; use_journal := x; size_ := size_ t; max_line_length := max_line_length t;
     ellipsis := ellipsis t; t_format := t_format t; threaded := threaded t; instance := instance t; reload := reload t;
     close := close t; logger := logger t; vlogger := vlogger t |}.
Definition set_size_ (t : qb_log_target) (x : Z) : qb_log_target :=
  {| pos := pos t; state := state t; name := name t; t_filename := t_filename t; filter_head := filter_head t;
     facility := facility t; priority_bump := priority_bump t; file_sync := file_sync t; debug := debug t;
     extended := extended t; use_journal := use_journal t; size_ := x; max_line_length := max_line_length t;
     ellipsis := ellipsis t; t_format := t_format t; threaded := threaded t; instance := instance t; reload := reload t;
     close := close t; logger := logger t; vlogger := vlogger t |}.
Definition set_max_line_length (t : qb_log_target) (x : Z) : qb_log_target :=
  {| pos := pos t; state := state t; name := name t; t_filename := t_filename t; filter_head := filter_head t;
     facility := facility t; priority_bump := priority_bump t; file_sync := file_sync t; debug := debug t;
     extended := extended t; use_journal := use_journal t; size_ := size_ t; max_line_length := x;
     ellipsis := ellipsis t; t_format := t_format t; threaded := threaded t; instance := instance t; reload := reload t;
     close := close t; logger := logger t; vlogger := vlogger t |}.
Definition set_ellipsis (t : qb_log_target) (x : Z) : qb_log_target :=
  {| pos := pos t; state := state t; name := name t; t_filename := t_filename t; filter_head := filter_head t;
     facility := facility t; priority_bump := priority_bump t; file_sync := file_sync t; debug := debug t;
     extended := extended t; use_journal := use_journal t; size_ := size_ t; max_line_length := max_line_length t;
     ellipsis := x; t_format := t_format t; threaded := threaded t; instance := instance t; reload := reload t;
     close := close t; logger := logger t; vlogger := vlogger t |}.
Definition set_t_format (t : qb_log_target) (x : option (list Z)) : qb_log_target :=
  {| pos := pos t; state := state t; name := name t; t_filename := t_filename t; filter_head := filter_head t;
     facility := facility t; priority_bump := priority_bump t; file_sync := file_sync t; debug := debug t;
     extended := extended t; use_journal := use_journal t; size_ := size_ t; max_line_length := max_line_length t;
     ellipsis := ellipsis t; t_format := x; threaded := threaded t; instance := instance t; reload := reload t;
     close := close t; logger := logger t; vlogger := vlogger t |}.
Definition set_threaded (t : qb_log_target) (x : Z) : qb_log_target :=
  {| pos := pos t; state := state t; name := name t; t_filename := t_filename t; filter_head := filter_head t;
     facility := facility t; priority_bump := priority_bump t; file_sync := file_sync t; debug := debug t;
     extended := extended t; use_journal := use_journal t; size_ := size_ t; max_line_length := max_line_length t;
     ellipsis := ellipsis t; t_format := t_format t; threaded := x; instance := instance t; reload := reload t;
     close := close t; logger := logger t; vlogger := vlogger t |}.
Definition set_instance (t : qb_log_target) (x : Z) : qb_log_target :=
  {| pos := pos t; state := state t; name := name t; t_filename := t_filename t; filter_head := filter_head t;
     facility := facility t; priority_bump := priority_bump t; file_sync := file_sync t; debug := debug t;
     extended := extended t; use_journal := use_journal t; size_ := size_ t; max_line_length := max_line_length t;
     ellipsis := ellipsis t; t_format := t_format t; threaded := threaded t; instance := x; reload := reload t;
     close := close t; logger := logger t; vlogger := vlogger t |}.
Definition set_reload (t : qb_log_target) (x : target_fn) : qb_log_target :=
  {| pos := pos t; state := state t; name := name t; t_filename := t_filename t; filter_head := filter_head t;
     facility := facility t; priority_bump := priority_bump t; file_sync := file_sync t; debug := debug t;
     extended := extended t; use_journal := use_journal t; size_ := size_ t; max_line_length := max_line_length t;
     ellipsis := ellipsis t; t_format := t_format t; threaded := threaded t; instance := instance t; reload := x;
     close := close t; logger := logger t; vlogger := vlogger t |}.
Definition set_close (t : qb_log_target) (x : target_fn) : qb_log_target :=
  {| pos := pos t; state := state t; name := name t; t_filename := t_filename t; filter_head := filter_head t;
     facility := facility t; priority_bump := priority_bump t; file_sync := file_sync t; debug := debug t;
     extended := extended t; use_journal := use_journal t; size_ := size_ t; max_line_length := max_line_length t;
     ellipsis := ellipsis t; t_format := t_format t; threaded := threaded t; instance := instance t; reload := reload t;
     close := x; logger := logger t; vlogger := vlogger t |}.
Definition set_logger (t : qb_log_target) (x : target_fn) : qb_log_target :=
  {| pos := pos t; state := state t; name := name t; t_filename := t_filename t; filter_head := filter_head t;
     facility := facility t; priority_bump := priority_bump t; file_sync := file_sync t; debug := debug t;
     extended := extended t; use_journal := use_journal t; size_ := size_ t; max_line_length := max_line_length t;
     ellipsis := ellipsis t; t_format := t_format t; threaded := threaded t; instance := instance t; reload := reload t;
     close := close t; logger := x; vlogger := vlogger t |}.
Definition set_vlogger (t : qb_log_target) (x : target_fn) : qb_log_target :=
  {| pos := pos t; state := state t; name := name t; t_filename := t_filename t; filter_head := filter_head t;
     facility := facility t; priority_bump := priority_bump t; file_sync := file_sync t; debug := debug t;
     extended := extended t; use_journal := use_journal t; size_ := size_ t; max_line_length := max_line_length t;
     ellipsis := ellipsis t; t_format := t_format t; threaded := threaded t; instance := instance t; reload := reload t;
     close := close t; logger := logger t; vlogger := x |}.

(** ** The state *)

(** An element of [lookup_arr] is the list of the call sites of a line number;
    the elements of [callsite_arr] are in [callsites]. *)
Record log_state := {
  conf : list qb_log_target;
  conf_active_max : Z;
  in_logger : bool;
  logger_inited : bool;
  custom_filter_fn : option (qb_log_callsite -> qb_log_callsite);
  old_internal_log_fn : bool;
  tags_head : list qb_log_filter;
  callsite_sections : list (cs_ptr * cs_ptr);
  callsites : gmap cs_ptr qb_log_callsite;
  lookup_arr : option (qb_array (list cs_ptr));
  callsite_arr : option (qb_array ());
  callsite_arr_next : Z;
}.

Definition set_conf (st : log_state) (x : list qb_log_target) : log_state :=
  {| conf := x; conf_active_max := conf_active_max st; in_logger := in_logger st; logger_inited := logger_inited st;
     custom_filter_fn := custom_filter_fn st; old_internal_log_fn := old_internal_log_fn st; tags_head := tags_head st;
     callsite_sections := callsite_sections st; callsites := callsites st; lookup_arr := lookup_arr st;
     callsite_arr := callsite_arr st; callsite_arr_next := callsite_arr_next st |}.
Definition set_conf_active_max (st : log_state) (x : Z) : log_state :=
  {| conf := conf st; conf_active_max := x; in_logger := in_logger st; logger_inited := logger_inited st;
     custom_filter_fn := custom_filter_fn st; old_internal_log_fn := old_internal_log_fn st; tags_head := tags_head st;
     callsite_sections := callsite_sections st; callsites := callsites st; lookup_arr := lookup_arr st;
     callsite_arr := callsite_arr st; callsite_arr_next := callsite_arr_next st |}.
Definition set_in_logger (st : log_state) (x : bool) : log_state :=
  {| conf := conf st; conf_active_max := conf_active_max st; in_logger := x; logger_inited := logger_inited st;
     custom_filter_fn := custom_filter_fn st; old_internal_log_fn := old_internal_log_fn st; tags_head := tags_head st;
     callsite_sections := callsite_sections st; callsites := callsites st; lookup_arr := lookup_arr st;
     callsite_arr := callsite_arr st; callsite_arr_next := callsite_arr_next st |}.
Definition set_logger_inited (st : log_state) (x : bool) : log_state :=
  {| conf := conf st; conf_active_max := conf_active_max st; in_logger := in_logger st; logger_inited := x;
     custom_filter_fn := custom_filter_fn st; old_internal_log_fn := old_internal_log_fn st; tags_head := tags_head st;
     callsite_sections := callsite_sections st; callsites := callsites st; lookup_arr := lookup_arr st;
     callsite_arr := callsite_arr st; callsite_arr_next := callsite_arr_next st |}.
Definition set_custom_filter_fn (st : log_state) (x : option (qb_log_callsite -> qb_log_callsite)) : log_state :=
  {| conf := conf st; conf_active_max := conf_active_max st; in_logger := in_logger st;
     logger_inited := logger_inited st; custom_filter_fn := x; old_internal_log_fn := old_internal_log_fn st;
     tags_head := tags_head st; callsite_sections := callsite_sections st; callsites := callsites st;
     lookup_arr := lookup_arr st; callsite_arr := callsite_arr st; callsite_arr_next := callsite_arr_next st |}.
Definition set_old_internal_log_fn (st : log_state) (x : bool) : log_state :=
  {| conf := conf st; conf_active_max := conf_active_max st; in_logger := in_logger st;
     logger_inited := logger_inited st; custom_filter_fn := custom_filter_fn st; old_internal_log_fn := x;
     tags_head := tags_head st; callsite_sections := callsite_sections st; callsites := callsites st;
     lookup_arr := lookup_arr st; callsite_arr := callsite_arr st; callsite_arr_next := callsite_arr_next st |}.
Definition set_tags_head (st : log_state) (x : list qb_log_filter) : log_state :=
  {| conf := conf st; conf_active_max := conf_active_max st; in_logger := in_logger st;
     logger_inited := logger_inited st; custom_filter_fn := custom_filter_fn st;
     old_internal_log_fn := old_internal_log_fn st; tags_head := x; callsite_sections := callsite_sections st;
     callsites := callsites st; lookup_arr := lookup_arr st; callsite_arr := callsite_arr st;
     callsite_arr_next := callsite_arr_next st |}.
Definition set_callsite_sections (st : log_state) (x : list (cs_ptr * cs_ptr)) : log_state :=
  {| conf := conf st; conf_active_max := conf_active_max st; in_logger := in_logger st;
     logger_inited := logger_inited st; custom_filter_fn := custom_filter_fn st;
     old_internal_log_fn := old_internal_log_fn st; tags_head := tags_head st; callsite_sections := x;
     callsites := callsites st; lookup_arr := lookup_arr st; callsite_arr := callsite_arr st;
     callsite_arr_next := callsite_arr_next st |}.
Definition set_callsites (st : log_state) (x : gmap cs_ptr qb_log_callsite) : log_state :=
  {| conf := conf st; conf_active_max := conf_active_max st; in_logger := in_logger st;
     logger_inited := logger_inited st; custom_filter_fn := custom_filter_fn st;
     old_internal_log_fn := old_internal_log_fn st; tags_head := tags_head st; callsite_sections := callsite_sections st;
     callsites := x; lookup_arr := lookup_arr st; callsite_arr := callsite_arr st;
     callsite_arr_next := callsite_arr_next st |}.
Definition set_lookup_arr (st : log_state) (x : option (qb_array (list cs_ptr))) : log_state :=
  {| conf := conf st; conf_active_max := conf_active_max st; in_logger := in_logger st;
     logger_inited := logger_inited st; custom_filter_fn := custom_filter_fn st;
     old_internal_log_fn := old_internal_log_fn st; tags_head := tags_head st; callsite_sections := callsite_sections st;
     callsites := callsites st; lookup_arr := x; callsite_arr := callsite_arr st;
     callsite_arr_next := callsite_arr_next st |}.
Definition set_callsite_arr (st : log_state) (x : option (qb_array ())) : log_state :=
  {| conf := conf st; conf_active_max := conf_active_max st; in_logger := in_logger st;
     logger_inited := logger_inited st; custom_filter_fn := custom_filter_fn st;
     old_internal_log_fn := old_internal_log_fn st; tags_head := tags_head st; callsite_sections := callsite_sections st;
     callsites := callsites st; lookup_arr := lookup_arr st; callsite_arr := x;
     callsite_arr_next := callsite_arr_next st |}.
Definition set_callsite_arr_next (st : log_state) (x : Z) : log_state :=
  {| conf := conf st; conf_active_max := conf_active_max st; in_logger := in_logger st;
     logger_inited := logger_inited st; custom_filter_fn := custom_filter_fn st;
     old_internal_log_fn := old_internal_log_fn st; tags_head := tags_head st; callsite_sections := callsite_sections st;
     callsites := callsites st; lookup_arr := lookup_arr st; callsite_arr := callsite_arr st; callsite_arr_next := x |}.

Definition cs_at (st : log_state) (p : cs_ptr) : qb_log_callsite := callsites st !!! p.
Definition set_cs (st : log_state) (p : cs_ptr) (cs : qb_log_callsite) : log_state := set_callsites st (<[p := cs]> (callsites st)).
Definition target (st : log_state) (t : Z) : qb_log_target := zget (conf st) t.
Definition set_target (st : log_state) (t : Z) (tg : qb_log_target) : log_state := set_conf st (zset (conf st) t tg).

(** What is used of the C library: [regcomp] accepts a pattern, [regexec] finds a
    pattern in a string, and [vformat] is what [vsnprintf] prints for a format
    and its arguments. *)
Class Regex := { regcomp : list Z -> bool; regexec : list Z -> list Z -> bool }.
Class Printf := { vformat : list Z -> list varg -> list Z }.

(** What the functions of targets, the user's functions and the C library see. *)
Inductive log_event :=
  | E_log (t : Z) (fn : target_fn) (cs : cs_ptr) (msg : list Z)
  | E_vlog (t : Z) (fn : target_fn) (cs : cs_ptr)
  | E_post (cs : cs_ptr) (msg : list Z)
  | E_internal (cs : cs_ptr) (msg : list Z)
  | E_close (t : Z) (n : Z)
  | E_reload (t : Z) (n : Z)
  | E_openlog (ident : list Z) (facility : Z)
  | E_closelog
  | E_fclose (f : Z)
  | E_ring_close (r : Z)
  | E_thread_stop.

(** What the system answers to the calls of one operation: which allocations
    succeed, and the results of [fopen] and [qb_rb_open], an [errno] or a
    pointer. *)
Record log_env := {
  calloc_flt : bool;
  strdup_text : bool;
  calloc_regex : bool;
  calloc_sect : bool;
  calloc_csl : bool;
  lookup_alloc : alloc_env;
  callsite_alloc : alloc_env;
  malloc_line : Z -> bool;
  fopen_result : Z + Z;
  ring_result : Z + Z;
  pid : Z;
  hostname : option (list Z);
}.
