(* ===== verification/Log.v ===== *)
(** * Logging: operations (lib/log.c, lib/log_dcs.c, lib/log_file.c, lib/log_syslog.c)

    [None] is a failed [assert], a NULL or dangling pointer that is used, or an
    access outside a buffer.  Calls to the functions of targets, to the user and
    to the C library are the events an operation returns.  Regular expressions
    and the text that [vsnprintf] makes are parameters.  Locks are left out; the
    thread of threaded targets is modelled elsewhere. *)
From S2P Require Import Prelude Memory Cstring Serialize Array LogFormat LogState.

(** ** Matching a call site *)

(** [strstr (s, sub) != NULL]. *)
Fixpoint starts_with (sub s : list Z) : bool :=
  match sub, s with
  | [], _ => true
  | x :: sub, y :: s => (x =? y) && starts_with sub s
  | _ :: _, [] => false
  end.
Fixpoint contains (sub s : list Z) : bool :=
  starts_with sub s || match s with [] => false | _ :: s => contains sub s end.

(** The loop over the parts of a filter text that commas separate. *)
Fixpoint token_loop (fuel : nat) (offset word : list Z) : bool :=
  match fuel with
  | O => false
  | S fuel' =>
    let next := strchrnul offset 44 in
    let token := take 498 (take (length offset - length next) offset) in
    if bool_decide (word = token) then true
    else match next with
         | [] => false
         | _ :: next => match next with [] => false | _ => token_loop fuel' next word end
         end
  end.

Section Log.
Context {Hregex : Regex} {Hprintf : Printf}.

Definition _cs_matches_filter_ (cs : qb_log_callsite) (type : qb_log_filter_type) (text : list Z) (rx : option (list Z))
    (high low : Z) : bool :=
  if (low <? priority cs) || (priority cs <? high) then false
  else if bool_decide (text = bytes "*") then true
  else
    match type with
    | QB_LOG_FILTER_FILE => token_loop (S (length text)) text (filename cs)
    | QB_LOG_FILTER_FUNCTION => token_loop (S (length text)) text (function cs)
    | QB_LOG_FILTER_FILE_REGEX => match rx with None => false | Some re => regexec re (filename cs) end
    | QB_LOG_FILTER_FUNCTION_REGEX => match rx with None => false | Some re => regexec re (function cs) end
    | QB_LOG_FILTER_FORMAT_REGEX => match rx with None => false | Some re => regexec re (format cs) end
    | QB_LOG_FILTER_FORMAT => contains text (format cs)
    | OTHER_TYPE => false
    end.

(** ** Filters *)

Definition _log_filter_apply_to_cs (t : Z) (c : qb_log_filter_conf) (type : qb_log_filter_type) (text : list Z)
    (rx : option (list Z)) (high low : Z) (cs : qb_log_callsite) : qb_log_callsite :=
  match c with
  | QB_LOG_FILTER_CLEAR_ALL => set_targets cs (qb_bit_clear (targets cs) t)
  | QB_LOG_TAG_CLEAR_ALL => set_tags cs 0
  | _ =>
    if _cs_matches_filter_ cs type text rx high low then
      match c with
      | QB_LOG_FILTER_ADD => set_targets cs (qb_bit_set (targets cs) t)
      | QB_LOG_FILTER_REMOVE => set_targets cs (qb_bit_clear (targets cs) t)
      | QB_LOG_TAG_SET => set_tags cs t
      | QB_LOG_TAG_CLEAR => set_tags cs 0
      | _ => cs
      end
    else cs
  end.

(** The call sites from [start] up to [stop]. *)
Definition section_sites (s : cs_ptr * cs_ptr) : list cs_ptr :=
  match s with
  | (Static a, Static b) => Static <$> seqZ a (b - a)
  | (Dynamic a, Dynamic b) => Dynamic <$> seqZ a (b - a)
  | _ => []
  end.

(** Change the call sites in use among [ps]. *)
Definition change_sites (f : qb_log_callsite -> qb_log_callsite) (ps : list cs_ptr) (st : log_state) : log_state :=
  foldl (fun st p => if 0 <? lineno (cs_at st p) then set_cs st p (f (cs_at st p)) else st) st ps.

Definition _log_filter_apply (sect : cs_ptr * cs_ptr) (t : Z) (c : qb_log_filter_conf) (type : qb_log_filter_type)
    (text : list Z) (rx : option (list Z)) (high low : Z) (st : log_state) : log_state :=
  change_sites (_log_filter_apply_to_cs t c type text rx high low) (section_sites sect) st.

Definition _log_filter_exists (fs : list qb_log_filter) (type : qb_log_filter_type) (text : list Z) (high low value : Z) : bool :=
  existsb (fun flt => bool_decide (f_type flt = type) && (high_priority flt =? high) && (low_priority flt =? low) &&
                      (new_value flt =? value) && bool_decide (f_text flt = text)) fs.

(** Delete the first filter that matches. *)
Fixpoint remove_filter (type : qb_log_filter_type) (text : list Z) (high low : Z) (fs : list qb_log_filter) : list qb_log_filter :=
  match fs with
  | [] => []
  | flt :: fs' =>
    if bool_decide (f_type flt = type) && (low_priority flt <=? low) && (high <=? high_priority flt) &&
       (bool_decide (f_text flt = text) || bool_decide (text = bytes "*"))
    then fs' else flt :: remove_filter type text high low fs'
  end.

Definition is_regex (type : qb_log_filter_type) : bool :=
  match type with
  | QB_LOG_FILTER_FUNCTION_REGEX | QB_LOG_FILTER_FILE_REGEX | QB_LOG_FILTER_FORMAT_REGEX => true
  | _ => false
  end.

(** The state, the result and the new filter, if there is one. *)
Definition _log_filter_store (st : log_state) (env : log_env) (t : Z) (c : qb_log_filter_conf) (type : qb_log_filter_type)
    (text : list Z) (high low : Z) : log_state * Z * option qb_log_filter :=
  let '(get, put, known) :=
    match c with
    | QB_LOG_FILTER_ADD | QB_LOG_FILTER_REMOVE | QB_LOG_FILTER_CLEAR_ALL =>
      (filter_head (target st t), fun fs => set_target st t (set_filter_head (target st t) fs), true)
    | QB_LOG_TAG_SET | QB_LOG_TAG_CLEAR | QB_LOG_TAG_CLEAR_ALL => (tags_head st, set_tags_head st, true)
    | OTHER_FILTER_CONF => ([], fun _ => st, false)
    end in
  if negb known then (st, - ENOSYS, None)
  else
    match c with
    | QB_LOG_FILTER_ADD | QB_LOG_TAG_SET =>
      if _log_filter_exists get type text high low t then (st, - EEXIST, None)
      else if negb (calloc_flt env) then (st, - ENOMEM, None)
      else if negb (strdup_text env) then (st, - ENOMEM, None)
      else if is_regex type && negb (calloc_regex env) then (st, - ENOMEM, None)
      else if is_regex type && negb (regcomp text) then (st, - EINVAL, None)
      else
        let flt := {| f_conf := c; f_type := type; f_text := text; high_priority := high; low_priority := low;
                      new_value := t; regex := if is_regex type then Some text else None |} in
        (put (get ++ [flt]), 0, Some flt)
    | QB_LOG_FILTER_REMOVE | QB_LOG_TAG_CLEAR => (put (remove_filter type text high low get), 0, None)
    | QB_LOG_FILTER_CLEAR_ALL | QB_LOG_TAG_CLEAR_ALL => (put [], 0, None)
    | OTHER_FILTER_CONF => (st, 0, None)
    end.

Definition on_target (c : qb_log_filter_conf) : bool :=
  match c with QB_LOG_FILTER_ADD | QB_LOG_FILTER_CLEAR_ALL | QB_LOG_FILTER_REMOVE => true | _ => false end.

(** [t < 0 || t >= QB_LOG_TARGET_MAX || conf[t].state == QB_LOG_STATE_UNUSED] *)
Definition bad_target (st : log_state) (t : Z) : bool :=
  (t <? 0) || (QB_LOG_TARGET_MAX <=? t) || bool_decide (state (target st t) = QB_LOG_STATE_UNUSED).

Definition qb_log_filter_ctl2 (st : log_state) (env : log_env) (t : Z) (c : qb_log_filter_conf) (type : qb_log_filter_type)
    (text : option (list Z)) (high low : Z) : log_state * Z :=
  if negb (logger_inited st) then (st, - EINVAL)
  else if on_target c && bad_target st t then (st, - EBADF)
  else
    match text with
    | None => (st, - EINVAL)
    | Some text =>
      if (low <? high) || bool_decide (type = OTHER_TYPE) || bool_decide (c = OTHER_FILTER_CONF) then (st, - EINVAL)
      else
        let '(st, rc, new_flt) := _log_filter_store st env (u32 t) c type text high low in
        if rc <? 0 then (st, rc)
        else
          let rx := flt ← new_flt; regex flt in
          (foldl (fun st sect => _log_filter_apply sect (u32 t) c type text rx high low st) st (callsite_sections st), 0)
    end.

Definition qb_log_filter_ctl (st : log_state) (env : log_env) (t : Z) (c : qb_log_filter_conf) (type : qb_log_filter_type)
    (text : option (list Z)) (prio : Z) : log_state * Z :=
  qb_log_filter_ctl2 st env t c type text LOG_EMERG prio.

Definition qb_log_filter_fn_set (st : log_state) (fn : option (qb_log_callsite -> qb_log_callsite)) : log_state * Z :=
  if negb (logger_inited st) then (st, - EINVAL)
  else
    let st := set_custom_filter_fn st fn in
    match fn with
    | None => (st, 0)
    | Some f => (foldl (fun st sect => change_sites f (section_sites sect) st) st (callsite_sections st), 0)
    end.

(** ** Call sites *)

(** The slots the loops over targets visit. *)
Definition slots (st : log_state) : list Z := seqZ QB_LOG_TARGET_START (conf_active_max st + 1).

Definition enabled (st : log_state) (t : Z) : bool := bool_decide (state (target st t) = QB_LOG_STATE_ENABLED).

Definition apply_filter (t : Z) (flt : qb_log_filter) (cs : qb_log_callsite) : qb_log_callsite :=
  _log_filter_apply_to_cs t (f_conf flt) (f_type flt) (f_text flt) (regex flt) (high_priority flt) (low_priority flt) cs.

Definition qb_log_callsites_register (st : log_state) (env : log_env) (start stop : option cs_ptr) : log_state * Z :=
  match start, stop with
  | Some start, Some stop =>
    if existsb (fun s => bool_decide (fst s = start) || bool_decide (snd s = stop)) (callsite_sections st) then (st, - EEXIST)
    else if negb (calloc_sect env) then (st, - ENOMEM)
    else
      let st := set_callsite_sections st ((start, stop) :: callsite_sections st) in
      let sites := section_sites (start, stop) in
      let st := foldl (fun st t =>
                  if enabled st t
                  then foldl (fun st flt => change_sites (apply_filter (pos (target st t)) flt) sites st) st (filter_head (target st t))
                  else st) st (slots st) in
      let st := foldl (fun st flt => change_sites (apply_filter (new_value flt) flt) sites st) st (tags_head st) in
      (match custom_filter_fn st with Some f => change_sites f sites st | None => st end, 0)
  | _, _ => (st, - EINVAL)
  end.

(** The callback of the array of dynamic call sites for a new bin. *)
Definition _log_register_callsites (env : log_env) (st : log_state) (b : Z) : option log_state :=
  let elems := qb_array_elems_per_bin_get (callsite_arr st) in
  '(a, rc, _) ← qb_array_index (callsite_arr st) (i32 (u32 (b * elems))) true (callsite_alloc env);
  let st := set_callsite_arr st a in
  if rc =? 0 then
    let '(st, rc) := qb_log_callsites_register st env (Some (Dynamic (b * elems))) (Some (Dynamic (b * elems + elems))) in
    if rc =? 0 then Some st else None
  else Some st.

(** [qb_array_index] of the array of call sites, with the calls of its callback. *)
Definition index_callsite (st : log_state) (env : log_env) (idx : Z) : option (log_state * Z * option (Z * Z)) :=
  '(a, rc, p) ← qb_array_index (callsite_arr st) idx true (callsite_alloc env);
  let calls := drop (length (default [] (bin_cb_calls <$> callsite_arr st))) (default [] (bin_cb_calls <$> a)) in
  st ← foldl (fun ost b => st ← ost; _log_register_callsites env st b) (Some (set_callsite_arr st a)) calls;
  Some (st, rc, p).

Definition _log_dcs_new_cs (st : log_state) (env : log_env) (mid : option (list Z)) (fn file fmt : list Z) (prio line tg : Z)
    : option (log_state * cs_ptr) :=
  let idx := callsite_arr_next st in
  let st := set_callsite_arr_next st (u32 (idx + 1)) in
  '(st, rc, p) ← index_callsite st env (i32 idx);
  if negb (rc =? 0) then None
  else
    '(b, e) ← p;
    let cs := Dynamic (b * MAX_ELEMENTS_PER_BIN + e) in
    Some (set_cs st cs {| function := fn; filename := file; format := fmt; priority := prio; lineno := line;
                          targets := targets (cs_at st cs); tags := tg; message_id := mid |}, cs).

(** The first call site of a line: [message_id] is compared as well. *)
Definition matches_head (mid : option (list Z)) (file fmt : list Z) (prio : Z) (cs : qb_log_callsite) : option bool :=
  if prio =? priority cs then
    same ← match mid with None => Some true | Some mid => m ← message_id cs; Some (bool_decide (mid = m)) end;
    Some (same && bool_decide (file = filename cs) && bool_decide (fmt = format cs))
  else Some false.

(** The first of the list that has the priority, the format and the file. *)
Fixpoint find_site (st : log_state) (file fmt : list Z) (prio line : Z) (csl : list cs_ptr) : option (option cs_ptr) :=
  match csl with
  | [] => Some None
  | p :: csl =>
    let cs := cs_at st p in
    if negb (lineno cs =? line) then None
    else if (prio =? priority cs) && bool_decide (fmt = format cs) && bool_decide (file = filename cs) then Some (Some p)
    else find_site st file fmt prio line csl
  end.

Definition set_lookup (st : log_state) (e : Z * Z) (csl : list cs_ptr) : log_state :=
  set_lookup_arr st ((fun a => elem_write a e csl) <$> lookup_arr st).

(** The state, the call site and whether it is new. *)
Definition qb_log_dcs_get (st : log_state) (env : log_env) (mid fn file fmt : option (list Z)) (prio line tg : Z)
    : option (log_state * option cs_ptr * bool) :=
  let safe_filename := default [] file in
  let safe_function := default [] fn in
  let safe_format := default [] fmt in
  '(a, rc, e) ← qb_array_index (lookup_arr st) (i32 line) true (lookup_alloc env);
  let st := set_lookup_arr st a in
  if negb (rc =? 0) then None
  else
    e ← e;
    a ← lookup_arr st;
    match elem_read a e with
    | [] =>
      '(st, cs) ← _log_dcs_new_cs st env mid safe_function safe_filename safe_format prio line tg;
      Some (set_lookup st e [cs], Some cs, true)
    | head :: csl =>
      fast ← matches_head mid safe_filename safe_format prio (cs_at st head);
      if (fast : bool) then Some (st, Some head, false)
      else
        found ← find_site st safe_filename safe_format prio line (head :: csl);
        match found with
        | Some cs => Some (st, Some cs, false)
        | None =>
          if negb (calloc_csl env) then Some (st, None, false)
          else
            '(st, cs) ← _log_dcs_new_cs st env mid safe_function safe_filename safe_format prio line tg;
            Some (set_lookup st e ((head :: csl) ++ [cs]), Some cs, true)
        end
    end.

Definition run_custom (st : log_state) (p : cs_ptr) : log_state :=
  match custom_filter_fn st with Some f => set_cs st p (f (cs_at st p)) | None => st end.

Definition qb_log_callsite_get2 (st : log_state) (env : log_env) (mid fn file fmt : option (list Z)) (prio line tg : Z)
    : option (log_state * option cs_ptr) :=
  if negb (logger_inited st) then Some (st, None)
  else
    '(st, cs, new_dcs) ← qb_log_dcs_get st env mid fn file fmt prio line tg;
    match cs with
    | None => Some (st, None)
    | Some p =>
      if (new_dcs : bool) then
        let st := foldl (fun st t =>
                    if enabled st t
                    then foldl (fun st flt => set_cs st p (apply_filter (pos (target st t)) flt (cs_at st p))) st (filter_head (target st t))
                    else st) st (slots st) in
        let st := if tg =? 0
                  then foldl (fun st flt => set_cs st p (apply_filter (new_value flt) flt (cs_at st p))) st (tags_head st)
                  else set_cs st p (set_tags (cs_at st p) tg) in
        Some (run_custom st p, Some p)
      else
        let st := if negb (tg =? 0) && negb (tags (cs_at st p) =? tg) then set_cs st p (set_tags (cs_at st p) tg) else st in
        Some (run_custom st p, Some p)
    end.

Definition qb_log_callsite_get (st : log_state) (env : log_env) (fn file fmt : option (list Z)) (prio line tg : Z)
    : option (log_state * option cs_ptr) :=
  qb_log_callsite_get2 st env None fn file fmt prio line tg.

(** ** Writing a message *)

(** [cs_format]: the message as a string of less than [maxlen] characters; a last
    newline is dropped. *)
Definition cs_format (maxlen : Z) (cs : qb_log_callsite) (ap : list varg) : option (list Z) :=
  let text := vformat (format cs) ap in
  let len := if maxlen <? zlen text then maxlen else zlen text in
  let str := if maxlen =? 0 then [] else take (Z.to_nat (maxlen - 1)) text in
  if len - 1 <? 0 then None
  else if bool_decide (str !! Z.to_nat (len - 1) = Some 10) then Some (take (Z.to_nat (len - 1)) str) else Some str.

(** [qb_do_extended]: what the function is called with, if it is called. *)
Definition qb_do_extended (str : list Z) (ext : bool) : option (list Z) :=
  match strchrnul str QB_XC with
  | [] => Some str
  | _ :: more =>
    let before := take (length str - S (length more)) str in
    if negb (bool_decide (before = [])) || ext then
      Some (if ext && negb (bool_decide (more = [])) then before ++ [124] ++ more else before)
    else None
  end.

Definition is_null (f : target_fn) : bool := match f with F_null => true | _ => false end.

(** The messages a logger is called with. *)
Definition call_logger (t : Z) (fn : target_fn) (p : cs_ptr) (str : list Z) (ext : Z) : list log_event :=
  match qb_do_extended str (negb (ext =? 0)) with Some m => [E_log t fn p m] | None => [] end.

Definition wanted (st : log_state) (cs : qb_log_callsite) (t : Z) : bool := enabled st t && qb_bit_is_set (targets cs) t.

Definition longest_line (st : log_state) (cs : qb_log_callsite) : Z :=
  foldl (fun m t => if wanted st cs t then if m <? max_line_length (target st t) then max_line_length (target st t) else m else m)
    0 (slots st).

(** The loop over the targets: [str] is the message once it is formatted. *)
Fixpoint log_loop (st : log_state) (p : cs_ptr) (maxlen : Z) (ap : list varg) (ts : list Z) (str : option (list Z)) (found_threaded : bool)
    : option (list log_event * option (list Z) * bool) :=
  match ts with
  | [] => Some ([], str, found_threaded)
  | t :: ts =>
    let tg := target st t in
    if wanted st (cs_at st p) t then
      let formatted := match str with Some m => Some m | None => cs_format maxlen (cs_at st p) ap end in
      if negb (threaded tg =? 0) then
        str ← (if found_threaded then Some str else m ← formatted; Some (Some m));
        log_loop st p maxlen ap ts str true
      else if negb (is_null (vlogger tg)) then
        '(evs, str, ft) ← log_loop st p maxlen ap ts str found_threaded;
        Some (E_vlog (pos tg) (vlogger tg) p :: evs, str, ft)
      else if negb (is_null (logger tg)) then
        m ← formatted;
        '(evs, str, ft) ← log_loop st p maxlen ap ts (Some m) found_threaded;
        Some (call_logger (pos tg) (logger tg) p m (extended tg) ++ evs, str, ft)
      else log_loop st p maxlen ap ts str found_threaded
    else log_loop st p maxlen ap ts str found_threaded
  end.

Definition qb_log_real_va_ (st : log_state) (env : log_env) (cs : option cs_ptr) (ap : list varg) : option (log_state * list log_event) :=
  if in_logger st then Some (st, [])
  else
    let st := set_in_logger st true in
    match cs with
    | None => Some (st, [])
    | Some p =>
      let maxlen := longest_line st (cs_at st p) in
      if (QB_LOG_MAX_LEN <? maxlen) && negb (malloc_line env maxlen) then Some (st, [])
      else
        '(evs0, str) ←
          (if old_internal_log_fn st && qb_bit_is_set (tags (cs_at st p)) QB_LOG_TAG_LIBQB_MSG_BIT then
             m ← cs_format maxlen (cs_at st p) ap;
             Some (match qb_do_extended m true with Some m => [E_internal p m] | None => [] end, Some m)
           else Some ([], None));
        '(evs, str, found_threaded) ← log_loop st p maxlen ap (slots st) str false;
        post ← (if (found_threaded : bool) then m ← str; Some [E_post p m] else Some []);
        Some (set_in_logger st false, evs0 ++ evs ++ post)
    end.

(** What the thread does with a message that was posted. *)
Definition qb_log_thread_log_write (st : log_state) (p : cs_ptr) (buffer : list Z) : option (list log_event) :=
  foldr (fun t oevs =>
    let tg := target st t in
    if enabled st t && negb (threaded tg =? 0) && qb_bit_is_set (targets (cs_at st p)) (pos tg) then
      if is_null (logger tg) then None
      else evs ← oevs; Some (call_logger (pos tg) (logger tg) p buffer (extended tg) ++ evs)
    else oevs) (Some []) (slots st).

Definition qb_log_from_external_source_va2 (st : log_state) (env : log_env) (mid fn file fmt : option (list Z))
    (prio line tg : Z) (ap : list varg) : option (log_state * list log_event) :=
  if negb (logger_inited st) then Some (st, [])
  else
    '(st, cs) ← qb_log_callsite_get2 st env mid fn file fmt prio line tg;
    qb_log_real_va_ st env cs ap.

Definition qb_log_from_external_source_va (st : log_state) (env : log_env) (fn file fmt : option (list Z)) (prio line tg : Z)
    (ap : list varg) : option (log_state * list log_event) :=
  qb_log_from_external_source_va2 st env None fn file fmt prio line tg ap.

Definition qb_log_from_external_source (st : log_state) (env : log_env) (fn file fmt : option (list Z)) (prio line tg : Z)
    (ap : list varg) : option (log_state * list log_event) :=
  if negb (logger_inited st) then Some (st, [])
  else
    '(st, cs) ← qb_log_callsite_get st env fn file fmt prio line tg;
    qb_log_real_va_ st env cs ap.

(** ** Targets *)

(** The last slot that is enabled; the old value stays when there is none. *)
Definition _log_target_state_set (st : log_state) (t : Z) (s : qb_log_target_state) : log_state :=
  let st := set_target st t (set_state (target st t) s) in
  match list_find (fun i => enabled st i = true) (rev (seqZ QB_LOG_TARGET_START QB_LOG_TARGET_MAX)) with
  | Some (_, i) => set_conf_active_max st i
  | None => st
  end.

Definition qb_log_target_alloc (st : log_state) : log_state * (Z + Z) :=
  match list_find (fun i => state (target st i) = QB_LOG_STATE_UNUSED) (seqZ QB_LOG_TARGET_START QB_LOG_TARGET_MAX) with
  | Some (_, i) => (_log_target_state_set st i QB_LOG_STATE_DISABLED, inr i)
  | None => (st, inl EMFILE)
  end.

Definition DEFAULT_FORMAT : list Z := bytes "[%p] %b".

Definition qb_log_format_set (st : log_state) (env : log_env) (t : Z) (fmt : option (list Z)) : option log_state :=
  let tg := target st t in
  f ← match fmt with
      | Some f =>
        modified_format ← qb_log_target_format_static (pid env) (hostname env) (name tg) (max_line_length tg) (Some f) (zrepeat 0 256);
        cstr modified_format
      | None => Some DEFAULT_FORMAT
      end;
  if negb (strdup_text env) then None else Some (set_target st t (set_t_format tg (Some f))).

Definition qb_log_target_free (st : log_state) (env : log_env) (t : Z) : option log_state :=
  let '(st, _) := qb_log_filter_ctl st env (pos (target st t)) QB_LOG_FILTER_CLEAR_ALL QB_LOG_FILTER_FILE None 0 in
  let st := set_target st t (set_t_filename (set_debug (target st t) 0) []) in
  st ← qb_log_format_set st env (pos (target st t)) None;
  Some (_log_target_state_set st t QB_LOG_STATE_UNUSED).

(** [inl errno] or the pointer. *)
Definition qb_log_target_user_data_get (st : log_state) (t : Z) : Z + Z :=
  if bad_target st t then inl EBADF else inr (instance (target st t)).

Definition qb_log_target_user_data_set (st : log_state) (t user_data : Z) : log_state * Z :=
  if negb (logger_inited st) then (st, - EINVAL)
  else if bad_target st t then (st, - EBADF)
  else (set_target st t (set_instance (target st t) user_data), 0).

Definition qb_log_custom_open (st : log_state) (log_fn close_fn reload_fn : target_fn) (user_data : Z) : log_state * Z :=
  match qb_log_target_alloc st with
  | (st, inl err) => (st, - err)
  | (st, inr t) =>
    let tg := set_instance (target st t) user_data in
    let tg := set_t_filename tg (bytes "custom-" ++ decimal (pos tg)) in
    let tg := set_vlogger (set_logger tg log_fn) F_null in
    (set_target st t (set_close (set_reload tg reload_fn) close_fn), pos tg)
  end.

(** ** Built-in targets *)

Definition openlog (tg : qb_log_target) : list log_event :=
  if use_journal tg =? 0 then [E_openlog (name tg) (facility tg)] else [].

Definition qb_log_syslog_open (st : log_state) (t : Z) : log_state * list log_event :=
  let tg := set_close (set_reload (set_logger (target st t) F_syslog) F_syslog) F_syslog in
  (set_target st t tg, openlog tg).

(** The streams of stdio.h. *)
Definition STDERR : Z := 2.
Definition STDOUT : Z := 1.

Definition qb_log_stderr_open (st : log_state) (t : Z) : log_state :=
  let tg := set_close (set_reload (set_logger (target st t) F_file) F_null) F_null in
  set_target st t
    (if pos tg =? QB_LOG_STDERR then set_instance (set_t_filename tg (bytes "stderr")) STDERR
     else set_instance (set_t_filename tg (bytes "stdout")) STDOUT).

Definition qb_log_blackbox_open (st : log_state) (env : log_env) (t : Z) : log_state * Z :=
  let tg := target st t in
  if size_ tg <? 1024 then (st, - EINVAL)
  else
    let tg := set_t_filename tg (take (Z.to_nat (PATH_MAX - 1)) (name tg ++ bytes "-" ++ decimal (pid env) ++ bytes "-blackbox")) in
    match ring_result env with
    | inl err => (set_target st t (set_instance tg 0), - err)
    | inr r =>
      let tg := set_vlogger (set_logger (set_instance tg r) F_null) F_blackbox in
      (set_target st t (set_close (set_reload tg F_blackbox) F_blackbox), 0)
    end.

Definition qb_log_file_open (st : log_state) (env : log_env) (file : list Z) : option (log_state * Z) :=
  match qb_log_target_alloc st with
  | (st, inl err) => Some (st, - err)
  | (st, inr t) =>
    match fopen_result env with
    | inl err => st ← qb_log_target_free st env t; Some (st, - err)
    | inr f =>
      let tg := set_t_filename (set_instance (target st t) f) (take (Z.to_nat (PATH_MAX - 1)) file) in
      let tg := set_close (set_reload (set_logger tg F_file) F_file) F_file in
      Some (set_target st t tg, pos tg)
    end
  end.

Definition _file_close (st : log_state) (t : Z) : log_state * list log_event :=
  match qb_log_target_user_data_get st t with
  | inl _ => (st, [])
  | inr f => if f =? 0 then (st, []) else (fst (qb_log_target_user_data_set st t 0), [E_fclose f])
  end.

Definition _do_file_reload (st : log_state) (env : log_env) (file : option (list Z)) (t : Z) : log_state * Z * list log_event :=
  let oldfile := match qb_log_target_user_data_get st t with inl _ => 0 | inr f => f end in
  match fopen_result env with
  | inr newfile =>
    let evs := if oldfile =? 0 then [] else [E_fclose oldfile] in
    let st := match file with
              | Some f => set_target st t (set_t_filename (target st t) (take (Z.to_nat (PATH_MAX - 1)) f))
              | None => st
              end in
    (fst (qb_log_target_user_data_set st t newfile), 0, evs)
  | inl err => (st, - err, [])
  end.

Definition qb_log_file_reopen (st : log_state) (env : log_env) (t : Z) (file : option (list Z)) : log_state * Z * list log_event :=
  _do_file_reload st env file t.

(** [target->close (t)] and [target->reload (t)], with [in_logger] set while
    they run. *)
Definition call_close (st : log_state) (t : Z) : log_state * list log_event :=
  let tg := target st t in
  let '(st, evs) :=
    match close tg with
    | F_null => (st, [])
    | F_syslog => (st, if use_journal tg =? 0 then [E_closelog] else [])
    | F_file => _file_close st t
    | F_blackbox => (set_target st t (set_instance tg 0), [E_ring_close (instance tg)])
    | F_user n => (st, [E_close t n])
    end in
  (if is_null (close tg) then st else set_in_logger st false, evs).

Definition call_reload (st : log_state) (env : log_env) (t : Z) : log_state * list log_event :=
  let tg := target st t in
  let '(st, evs) :=
    match reload tg with
    | F_null => (st, [])
    | F_syslog => (st, E_closelog :: openlog tg)
    | F_file => let '(st, _, evs) := _do_file_reload st env None t in (st, evs)
    | F_blackbox =>
      if instance tg =? 0 then (st, [])
      else (set_target st t (set_instance tg (match ring_result env with inl _ => 0 | inr r => r end)), [E_ring_close (instance tg)])
    | F_user n => (st, [E_reload t n])
    end in
  (if is_null (reload tg) then st else set_in_logger st false, evs).

(** ** Closing, enabling and configuring *)

Definition qb_log_custom_close (st : log_state) (env : log_env) (t : Z) : option (log_state * list log_event) :=
  if negb (logger_inited st) then Some (st, [])
  else if bad_target st t then Some (st, [])
  else
    let '(st, evs) := call_close st t in
    st ← qb_log_target_free st env t;
    Some (st, evs).

Definition qb_log_file_close (st : log_state) (env : log_env) (t : Z) : option (log_state * list log_event) :=
  qb_log_custom_close st env t.

Definition _log_target_enable (st : log_state) (env : log_env) (t : Z) : log_state * Z * list log_event :=
  if enabled st t then (st, 0, [])
  else
    let p := pos (target st t) in
    let '(st, rc, evs) :=
      if (p =? QB_LOG_STDERR) || (p =? QB_LOG_STDOUT) then (qb_log_stderr_open st t, 0, [])
      else if p =? QB_LOG_SYSLOG then let '(st, evs) := qb_log_syslog_open st t in (st, 0, evs)
      else if p =? QB_LOG_BLACKBOX then let '(st, rc) := qb_log_blackbox_open st env t in (st, rc, [])
      else (st, 0, []) in
    (if rc =? 0 then _log_target_state_set st t QB_LOG_STATE_ENABLED else st, rc, evs).

Definition _log_target_disable (st : log_state) (t : Z) : log_state * list log_event :=
  if negb (enabled st t) then (st, [])
  else call_close (_log_target_state_set st t QB_LOG_STATE_DISABLED) t.

(** [journal] says whether the library is built to use the journal; the two
    members of the argument are [arg_i32] and [arg_s]. *)
Definition qb_log_ctl2 (st : log_state) (env : log_env) (journal : bool) (t : Z) (c : qb_log_conf) (arg_i32 : Z) (arg_s : list Z)
    : log_state * Z * list log_event :=
  if negb (logger_inited st) then (st, - EINVAL, [])
  else if bad_target st t then (st, - EBADF, [])
  else
    let tg := target st t in
    let set tg := set_target st t tg in
    let '(st, rc, need_reload, evs) :=
      match c with
      | QB_LOG_CONF_ENABLED =>
        if negb (arg_i32 =? 0) then let '(st, rc, evs) := _log_target_enable st env t in (st, rc, false, evs)
        else let '(st, evs) := _log_target_disable st t in (st, 0, false, evs)
      | QB_LOG_CONF_STATE_GET => (st, state_value (state tg), false, [])
      | QB_LOG_CONF_FACILITY => (set (set_facility tg arg_i32), 0, t =? QB_LOG_SYSLOG, [])
      | QB_LOG_CONF_IDENT => (set (set_name tg (take (Z.to_nat (PATH_MAX - 1)) arg_s)), 0, t =? QB_LOG_SYSLOG, [])
      | QB_LOG_CONF_FILE_SYNC => (set (set_file_sync tg arg_i32), 0, false, [])
      | QB_LOG_CONF_PRIORITY_BUMP => (set (set_priority_bump tg arg_i32), 0, false, [])
      | QB_LOG_CONF_SIZE =>
        if t =? QB_LOG_BLACKBOX then
          if arg_i32 <=? 0 then (st, - EINVAL, false, [])
          else (set (set_size_ tg arg_i32), 0, true, [])
        else (st, - ENOSYS, false, [])
      | QB_LOG_CONF_THREADED => (set (set_threaded tg arg_i32), 0, false, [])
      | QB_LOG_CONF_EXTENDED => (set (set_extended tg arg_i32), 0, false, [])
      | QB_LOG_CONF_MAX_LINE_LEN =>
        if QB_LOG_ABSOLUTE_MAX_LEN <? arg_i32 then (st, - EINVAL, false, [])
        else (set (set_max_line_length tg (u64 arg_i32)), 0, false, [])
      | QB_LOG_CONF_ELLIPSIS => (set (set_ellipsis tg arg_i32), 0, false, [])
      | QB_LOG_CONF_USE_JOURNAL =>
        if journal then
          if t =? QB_LOG_SYSLOG then (set (set_use_journal tg arg_i32), 0, true, []) else (st, - EINVAL, false, [])
        else (st, - EOPNOTSUPP, false, [])
      | QB_LOG_CONF_DEBUG | OTHER_CONF => (st, - EINVAL, false, [])
      end in
    if (rc =? 0) && need_reload then let '(st, evs') := call_reload st env t in (st, rc, evs ++ evs') else (st, rc, evs).

Definition qb_log_ctl (st : log_state) (env : log_env) (journal : bool) (t : Z) (c : qb_log_conf) (arg : Z)
    : log_state * Z * list log_event :=
  qb_log_ctl2 st env journal t c arg [].

(** ** The life of the logger *)

Definition qb_log_dcs_init (st : log_state) (env : log_env) : option log_state :=
  let made {E} `{Inhabited E} (r : Z + qb_array E) := match r with inl _ => None | inr a => Some a end in
  let lookup := made (qb_array_create_2 16 16 1 (calloc_ok (lookup_alloc env)) (lookup_alloc env)) in
  let sites := made (qb_array_create_2 16 48 1 (calloc_ok (callsite_alloc env)) (callsite_alloc env)) in
  let '(sites, rc) := qb_array_new_bin_cb_set sites true in
  if rc =? 0 then Some (set_callsite_arr (set_lookup_arr st lookup) sites) else None.

Definition init_target (env : log_env) (ident : list Z) (fac i : Z) (t : qb_log_target) : qb_log_target :=
  let t := set_t_format t (if strdup_text env then Some DEFAULT_FORMAT else None) in
  let t := set_debug (set_pos t i) 0 in
  let t := set_extended (set_file_sync t 0) 1 in
  let t := set_state t (if i <? QB_LOG_TARGET_STATIC_MAX then QB_LOG_STATE_DISABLED else QB_LOG_STATE_UNUSED) in
  let t := set_facility (set_name t (take (Z.to_nat (PATH_MAX - 1)) ident)) fac in
  set_filter_head (set_max_line_length t QB_LOG_MAX_LEN) [].

Definition qb_log_init (st : log_state) (env : log_env) (ident : list Z) (fac prio : Z) : option (log_state * list log_event) :=
  let st := set_conf st (imap (fun i t => init_target env ident fac (Z.of_nat i) t) (conf st)) in
  st ← qb_log_dcs_init st env;
  let st := set_logger_inited st true in
  let '(st, evs) := qb_log_syslog_open st QB_LOG_SYSLOG in
  let st := _log_target_state_set st QB_LOG_SYSLOG QB_LOG_STATE_ENABLED in
  let '(st, _) := qb_log_filter_ctl st env QB_LOG_SYSLOG QB_LOG_FILTER_ADD QB_LOG_FILTER_FILE (Some (bytes "*")) prio in
  Some (st, evs).

(** The loop of [qb_log_dcs_fini] over the call sites made so far: an element
    that the array does not have yet is allocated. *)
Definition dcs_fini_loop (st : log_state) (env : log_env) : option log_state :=
  foldl (fun ost i => st ← ost; '(st, _, _) ← index_callsite st env i; Some st) (Some st) (seqZ 0 (callsite_arr_next st)).

(** The loop over the targets, with the filters that are freed. *)
Fixpoint fini_targets (n : nat) (st : log_state) (t : Z) : log_state * list log_event :=
  match n with
  | O => (st, [])
  | S n =>
    if conf_active_max st <? t then (st, [])
    else
      let '(st, evs) := _log_target_disable st t in
      let st := set_target st t (set_filter_head (target st t) []) in
      let '(st, evs') := fini_targets n st (t + 1) in
      (st, evs ++ evs')
  end.

Definition is_static (p : cs_ptr) : bool := match p with Static _ => true | Dynamic _ => false end.

(** The arrays with the dynamic call sites and the formats are freed. *)
Definition qb_log_fini (st : log_state) (env : log_env) : option (log_state * list log_event) :=
  if negb (logger_inited st) then Some (st, [])
  else
    let st := set_logger_inited st false in
    let '(st, evs) := fini_targets (Z.to_nat QB_LOG_TARGET_MAX) st QB_LOG_TARGET_START in
    let st := set_conf st ((fun t => set_t_format t None) <$> conf st) in
    st ← dcs_fini_loop st env;
    let st := set_callsite_arr (set_lookup_arr st None) None in
    let st := set_callsites st (filter (fun pc => is_static (fst pc) = true) (callsites st)) in
    Some (set_tags_head (set_callsite_sections st []) [], E_thread_stop :: evs).

Definition qb_util_set_log_function (st : log_state) (fn : bool) : log_state := set_old_internal_log_fn st fn.
End Log.

(** Before the first call: the static variables of the program. *)
Definition log_start : log_state :=
  {| conf := replicate 32 inhabitant; conf_active_max := 0; in_logger := false; logger_inited := false; custom_filter_fn := None;
     old_internal_log_fn := false; tags_head := []; callsite_sections := []; callsites := ∅; lookup_arr := None; callsite_arr := None;
     callsite_arr_next := 0 |}.

(** ** Loggers of the built-in targets *)

Section Loggers.
Context (localtime : Z -> tm) (tags_fn : option (Z -> list Z)) (building_in_place : bool).

(** The line of a message, in a buffer of the stack or of the heap; the outer
    [None] is undefined, the inner one that there is no memory. *)
Definition target_line (tg : qb_log_target) (env : log_env) (cs : qb_log_callsite) (tv_sec tv_nsec : Z) (msg : list Z)
    : option (option (list Z)) :=
  if (QB_LOG_MAX_LEN <? max_line_length tg) && negb (malloc_line env (max_line_length tg)) then Some None
  else
    let output_buffer := zrepeat 0 (QB_MAX (max_line_length tg) QB_LOG_MAX_LEN) in
    b ← qb_log_target_format localtime tags_fn building_in_place (t_format tg) (max_line_length tg) (negb (ellipsis tg =? 0))
          cs tv_sec tv_nsec msg output_buffer;
    s ← cstr b;
    Some (Some s).

(** The priority, the text and whether it goes to the journal. *)
Definition _syslog_logger (st : log_state) (env : log_env) (journal : bool) (t : Z) (cs : qb_log_callsite) (tv_sec tv_nsec : Z)
    (msg : list Z) : option (option (Z * list Z * bool)) :=
  let tg := target st t in
  let final_priority := if LOG_INFO <? priority cs then i32 (priority cs + priority_bump tg) else priority cs in
  if LOG_DEBUG <? final_priority then Some None
  else
    line ← target_line tg env cs tv_sec tv_nsec msg;
    Some (s ← line; Some (if final_priority <? LOG_EMERG then LOG_EMERG else final_priority, s, journal && negb (use_journal tg =? 0))).

(** The stream and what is written to it. *)
Definition _file_logger (st : log_state) (env : log_env) (t : Z) (cs : qb_log_callsite) (tv_sec tv_nsec : Z) (msg : list Z)
    : option (option (Z * list Z)) :=
  match qb_log_target_user_data_get st t with
  | inl _ => Some None
  | inr f =>
    if f =? 0 then Some None
    else
      line ← target_line (target st t) env cs tv_sec tv_nsec msg;
      Some (s ← line; Some (f, s ++ [10]))
  end.
End Loggers.
