(* ===== verification/LogSites.v ===== *)
(** * Logging: what filters do to call sites

    Bits of a word, lists of names in the text of a filter, changes of a set of
    call sites, and the bits that the filters of targets set. *)
From S2P Require Import Prelude Memory Cstring Serialize Array ArrayTheorems LogFormat LogState Log.

(** ** Bits *)

Lemma bit_testbit bit : 0 <= bit < 32 -> qb_bit_value bit = 2 ^ bit.
Proof.
  intros H. unfold qb_bit_value. rewrite Z.shiftl_mul_pow2, Z.mul_1_l by lia. apply u32_small. split; [apply Z.pow_nonneg; lia|].
  apply Z.pow_lt_mono_r; lia.
Qed.

Lemma bit_is_set_testbit w bit : 0 <= bit < 32 -> qb_bit_is_set w bit = Z.testbit w bit.
Proof.
  intros H. unfold qb_bit_is_set. rewrite bit_testbit by done.
  destruct (Z.testbit w bit) eqn:E.
  - destruct (Z.eqb_spec (Z.land w (2 ^ bit)) 0) as [E0|]; [|done].
    assert (Z.testbit (Z.land w (2 ^ bit)) bit = true) as E1 by (rewrite Z.land_spec, E, Z.pow2_bits_true; [done|lia]).
    by rewrite E0, Z.bits_0 in E1.
  - replace (Z.land w (2 ^ bit)) with 0; [done|]. symmetry. apply Z.bits_inj'. intros n Hn. rewrite Z.bits_0, Z.land_spec.
    destruct (decide (n = bit)) as [->|]; [by rewrite E|]. rewrite Z.pow2_bits_false by lia. apply andb_false_r.
Qed.

Lemma bit_set_testbit w a b : 0 <= a < 32 -> 0 <= b < 32 -> Z.testbit (qb_bit_set w a) b = bool_decide (a = b) || Z.testbit w b.
Proof.
  intros Ha Hb. unfold qb_bit_set. rewrite bit_testbit, Z.lor_spec by done. case_bool_decide as E.
  - subst. rewrite Z.pow2_bits_true by lia. by rewrite orb_true_r.
  - rewrite Z.pow2_bits_false by lia. by rewrite orb_false_r.
Qed.

Lemma bit_clear_testbit w a b : 0 <= a < 32 -> 0 <= b < 32 -> Z.testbit (qb_bit_clear w a) b = negb (bool_decide (a = b)) && Z.testbit w b.
Proof.
  intros Ha Hb. unfold qb_bit_clear. rewrite bit_testbit, Z.land_spec by done. unfold u32.
  rewrite Z.mod_pow2_bits_low, Z.lnot_spec by lia. case_bool_decide as E.
  - subst. rewrite Z.pow2_bits_true by lia. cbn. by rewrite andb_false_r.
  - rewrite Z.pow2_bits_false by lia. cbn. by rewrite andb_true_r.
Qed.

(** ** Names in a filter text *)

(** A list of names as the text of a filter. *)
Fixpoint join (names : list (list Z)) : list Z :=
  match names with
  | [] => []
  | n :: names => n ++ match names with [] => [] | _ => 44 :: join names end
  end.

Definition name_ok (n : list Z) : Prop := n <> [] /\ Forall (fun c => c <> 44) n /\ (length n <= 498)%nat.

Lemma token_loop_join names : forall fuel word,
  Forall name_ok names -> (length (join names) < fuel)%nat -> names <> [] ->
  token_loop fuel (join names) word = bool_decide (word ∈ names).
Proof.
  induction names as [|n names IH]; intros fuel word Hok Hf Hne; [done|].
  apply list.Forall_cons in Hok as [(Hn & Hc & Hl) Hok]. destruct fuel as [|fuel]; [lia|]. cbn [token_loop].
  destruct names as [|m names].
  - cbn [join]. rewrite app_nil_r, strchrnul_none by done. cbn [length]. rewrite Nat.sub_0_r, !take_ge by (rewrite ?take_ge; lia).
    case_bool_decide as E; [subst; symmetry; apply bool_decide_eq_true_2; set_solver|].
    symmetry. apply bool_decide_eq_false_2. set_solver.
  - assert (Ej : join (n :: m :: names) = n ++ 44 :: join (m :: names)) by done. rewrite Ej in *.
    specialize (IH fuel word Hok). destruct (join (m :: names)) as [|x k] eqn:Em.
    { exfalso. apply list.Forall_cons in Hok as [(Hm & _) _]. cbn [join] in Em. destruct m; [done|]. done. }
    rewrite strchrnul_skip by done. rewrite length_app in *. replace (length n + _ - _)%nat with (length n) by lia.
    rewrite take_app_length, take_ge by lia. rewrite IH by (cbn [length] in *; first [lia|done]). clear IH.
    destruct (bool_decide_reflect (word = n)) as [->|E]; [symmetry; apply bool_decide_eq_true_2; set_solver|].
    apply bool_decide_ext. set_solver.
Qed.

(** ** Changing call sites *)

(** [st'] differs from [st] in call sites only. *)
Definition frame (st st' : log_state) : Prop := st' = set_callsites st (callsites st').

#[export] Instance frame_refl : Reflexive frame.
Proof. intros []. reflexivity. Qed.
#[export] Instance frame_trans : Transitive frame.
Proof. intros a b c Hb Hc. unfold frame in *. rewrite Hc, Hb. destruct a. reflexivity. Qed.

(** What logging and filters do not change in a call site. *)
Definition same_site (cs cs' : qb_log_callsite) : Prop :=
  function cs' = function cs /\ filename cs' = filename cs /\ format cs' = format cs /\ priority cs' = priority cs /\ lineno cs' = lineno cs.

#[export] Instance same_site_refl : Reflexive same_site.
Proof. by intros cs. Qed.
#[export] Instance same_site_trans : Transitive same_site.
Proof. intros a b c (?&?&?&?&?) (?&?&?&?&?). unfold same_site. split_and!; congruence. Qed.

(** The call sites in use among [ps] are changed by [F], others are not. *)
Definition sites_changed (ps : list cs_ptr) (F : qb_log_callsite -> qb_log_callsite) (st st' : log_state) : Prop :=
  frame st st' /\ forall p, cs_at st' p = if decide (p ∈ ps /\ 0 < lineno (cs_at st p)) then F (cs_at st p) else cs_at st p.

Definition keeps_site (F : qb_log_callsite -> qb_log_callsite) : Prop := forall cs, same_site cs (F cs).

Lemma cs_at_set st p cs q : cs_at (set_cs st p cs) q = if decide (p = q) then cs else cs_at st q.
Proof. unfold cs_at, set_cs. cbn. case_decide; [subst; apply lookup_total_insert_eq|by apply lookup_total_insert_ne]. Qed.

Lemma keeps_lineno F cs : keeps_site F -> lineno (F cs) = lineno cs.
Proof. intros H. apply H. Qed.

Lemma sites_changed_lineno ps F st st' p :
  keeps_site F -> sites_changed ps F st st' -> lineno (cs_at st' p) = lineno (cs_at st p).
Proof. intros HF [_ ->]. case_decide; [by apply keeps_lineno|done]. Qed.

Lemma change_sites_ok F ps : forall st, keeps_site F -> (forall cs, F (F cs) = F cs) -> sites_changed ps F st (change_sites F ps st).
Proof.
  induction ps as [|p ps IH]; intros st HF Hid.
  { split; [done|]. intros p. rewrite decide_False; [done|]. set_solver. }
  set (st1 := if 0 <? lineno (cs_at st p) then set_cs st p (F (cs_at st p)) else st).
  change (change_sites F (p :: ps) st) with (change_sites F ps st1).
  assert (Hf1 : frame st st1) by (unfold st1; destruct (0 <? _); done).
  assert (H1 : forall q, cs_at st1 q = if decide (q = p /\ 0 < lineno (cs_at st p)) then F (cs_at st q) else cs_at st q).
  { intros q. unfold st1. destruct (Z.ltb_spec 0 (lineno (cs_at st p))).
    - rewrite cs_at_set. destruct (decide (p = q)) as [->|]; [by rewrite decide_True|]. rewrite decide_False; [done|]. by intros [-> _].
    - rewrite decide_False; [done|]. lia. }
  destruct (IH st1 HF Hid) as [Hf2 H2]. split; [by etrans|]. intros q. rewrite H2.
  assert (Hl : lineno (cs_at st1 q) = lineno (cs_at st q)) by (rewrite H1; destruct (decide (q = p /\ _)); [by apply keeps_lineno|done]).
  rewrite Hl, H1. destruct (decide (q = p)) as [->|Hne].
  - destruct (decide (0 < lineno (cs_at st p))).
    + rewrite (decide_True (P := p = p /\ _)) by done. rewrite (decide_True (P := p ∈ p :: ps /\ _)) by (split; [set_solver|done]).
      destruct (decide (p ∈ ps /\ _)); [by rewrite Hid|done].
    + rewrite !decide_False by tauto. done.
  - rewrite (decide_False (P := q = p /\ _)) by tauto. apply decide_ext. set_solver.
Qed.

(** A sequence of changes of the same call sites. *)
Lemma sites_fold {A} (H : log_state -> A -> log_state) (K : A -> qb_log_callsite -> qb_log_callsite) ps (l : list A) : forall st,
  (forall a, keeps_site (K a)) ->
  (forall a st', frame st st' -> (forall p, lineno (cs_at st' p) = lineno (cs_at st p)) -> sites_changed ps (K a) st' (H st' a)) ->
  sites_changed ps (fun cs => foldl (fun cs a => K a cs) cs l) st (foldl H st l).
Proof.
  induction l as [|a l IH]; intros st HK HH; cbn [foldl].
  { split; [done|]. intros p. by case_decide. }
  destruct (HH a st) as [Hf1 H1]; [done|done|]. set (st1 := H st a) in *.
  assert (Hl : forall p, lineno (cs_at st1 p) = lineno (cs_at st p)) by (intros p; rewrite H1; destruct (decide (p ∈ ps /\ _)); [by apply keeps_lineno|done]).
  destruct (IH st1) as [Hf2 H2]; [done| |].
  { intros b st' Hf Hl'. apply HH; [by etrans|]. intros p. by rewrite Hl', Hl. }
  split; [by etrans|]. intros p. rewrite H2, Hl, H1. destruct (decide (p ∈ ps /\ _)); done.
Qed.

Lemma keeps_fold {A} (K : A -> qb_log_callsite -> qb_log_callsite) l :
  (forall a, keeps_site (K a)) -> keeps_site (fun cs => foldl (fun cs a => K a cs) cs l).
Proof.
  intros HK cs. revert cs. induction l as [|a l IH]; intros cs; cbn [foldl]; [done|]. etrans; [|apply IH]. apply HK.
Qed.

(** ** What filters select *)

Section Route.
Context {Hregex : Regex} {Hprintf : Printf}.

Definition flt_matches (flt : qb_log_filter) (cs : qb_log_callsite) : bool :=
  _cs_matches_filter_ cs (f_type flt) (f_text flt) (regex flt) (high_priority flt) (low_priority flt).

(** Some filter of the target matches the call site. *)
Definition selected (st : log_state) (t : Z) (cs : qb_log_callsite) : bool :=
  existsb (fun flt => flt_matches flt cs) (filter_head (target st t)).

Lemma matches_same cs cs' type text rx high low :
  same_site cs cs' -> _cs_matches_filter_ cs' type text rx high low = _cs_matches_filter_ cs type text rx high low.
Proof. intros (Hf & Hn & Ht & Hp & _). unfold _cs_matches_filter_. by rewrite Hf, Hn, Ht, Hp. Qed.

Lemma existsb_same fs cs cs' : same_site cs cs' -> existsb (fun flt => flt_matches flt cs') fs = existsb (fun flt => flt_matches flt cs) fs.
Proof. intros H. induction fs as [|flt fs IH]; [done|]. cbn [existsb]. rewrite IH. f_equal. by apply matches_same. Qed.

Lemma apply_to_cs_keeps t c type text rx high low : keeps_site (_log_filter_apply_to_cs t c type text rx high low).
Proof. intros cs. unfold _log_filter_apply_to_cs. destruct c; try done; destruct (_cs_matches_filter_ _ _ _ _ _ _); done. Qed.

Lemma bit_set_idem w t : qb_bit_set (qb_bit_set w t) t = qb_bit_set w t.
Proof. unfold qb_bit_set. by rewrite <- Z.lor_assoc, Z.lor_diag. Qed.
Lemma bit_clear_idem w t : qb_bit_clear (qb_bit_clear w t) t = qb_bit_clear w t.
Proof. unfold qb_bit_clear. by rewrite <- Z.land_assoc, Z.land_diag. Qed.

Lemma apply_to_cs_idem t c type text rx high low cs :
  let F := _log_filter_apply_to_cs t c type text rx high low in F (F cs) = F cs.
Proof.
  intros F. pose proof (apply_to_cs_keeps t c type text rx high low cs) as Hs. fold F in Hs.
  pose proof (matches_same _ _ type text rx high low Hs) as Hm. unfold F in *. unfold _log_filter_apply_to_cs at 1.
  destruct c; try rewrite Hm; unfold _log_filter_apply_to_cs; try destruct (_cs_matches_filter_ cs type text rx high low); try done;
    destruct cs; unfold set_targets; cbn; f_equal; first [apply bit_set_idem|apply bit_clear_idem].
Qed.

(** The filters of a target set its bit where one of them matches. *)
Lemma apply_add_bits t u flt cs :
  f_conf flt = QB_LOG_FILTER_ADD -> 0 <= t < 32 -> 0 <= u < 32 ->
  Z.testbit (targets (apply_filter t flt cs)) u = Z.testbit (targets cs) u || (bool_decide (t = u) && flt_matches flt cs).
Proof.
  intros Hc Ht Hu. unfold apply_filter, _log_filter_apply_to_cs. rewrite Hc. fold (flt_matches flt cs).
  destruct (flt_matches flt cs); [|by rewrite andb_false_r, orb_false_r]. cbn [targets set_targets].
  rewrite bit_set_testbit, andb_true_r by done. apply orb_comm.
Qed.

Lemma apply_tag_targets t flt cs : f_conf flt = QB_LOG_TAG_SET -> targets (apply_filter t flt cs) = targets cs.
Proof. intros Hc. unfold apply_filter, _log_filter_apply_to_cs. rewrite Hc. by destruct (_cs_matches_filter_ _ _ _ _ _ _). Qed.

Lemma apply_filter_keeps t flt : keeps_site (apply_filter t flt).
Proof. apply apply_to_cs_keeps. Qed.

Definition target_filters (t : Z) (fs : list qb_log_filter) (cs : qb_log_callsite) : qb_log_callsite :=
  foldl (fun cs flt => apply_filter t flt cs) cs fs.

Lemma target_filters_keeps t fs : keeps_site (target_filters t fs).
Proof. apply (keeps_fold (fun flt => apply_filter t flt)). intros flt. apply apply_filter_keeps. Qed.

Lemma target_filters_bits t u fs : forall cs,
  Forall (fun flt => f_conf flt = QB_LOG_FILTER_ADD) fs -> 0 <= t < 32 -> 0 <= u < 32 ->
  Z.testbit (targets (target_filters t fs cs)) u =
    Z.testbit (targets cs) u || (bool_decide (t = u) && existsb (fun flt => flt_matches flt cs) fs).
Proof.
  induction fs as [|flt fs IH]; intros cs Hfs Ht Hu; [by rewrite andb_false_r, orb_false_r|].
  apply list.Forall_cons in Hfs as [Hflt Hfs]. change (target_filters t (flt :: fs) cs) with (target_filters t fs (apply_filter t flt cs)).
  rewrite IH, apply_add_bits by done. cbn [existsb]. rewrite (existsb_same fs cs) by apply apply_filter_keeps.
  rewrite <- orb_assoc, <- andb_orb_distrib_r. done.
Qed.

(** The filters of all targets that are enabled. *)
Definition all_filters (st : log_state) (ts : list Z) (cs : qb_log_callsite) : qb_log_callsite :=
  foldl (fun cs t => if enabled st t then target_filters (pos (target st t)) (filter_head (target st t)) cs else cs) cs ts.

Lemma all_filters_keeps st ts : keeps_site (all_filters st ts).
Proof.
  apply (keeps_fold (fun t cs => if enabled st t then target_filters (pos (target st t)) (filter_head (target st t)) cs else cs)).
  intros t cs. destruct (enabled st t); [apply target_filters_keeps|done].
Qed.

Lemma all_filters_bits st u ts : forall cs,
  (forall t, t ∈ ts -> 0 <= t < 32) -> (forall t, 0 <= t < 32 -> pos (target st t) = t) ->
  (forall t, 0 <= t < 32 -> Forall (fun flt => f_conf flt = QB_LOG_FILTER_ADD) (filter_head (target st t))) -> 0 <= u < 32 ->
  Z.testbit (targets (all_filters st ts cs)) u =
    Z.testbit (targets cs) u || (bool_decide (u ∈ ts) && enabled st u && selected st u cs).
Proof.
  induction ts as [|t ts IH]; intros cs Hts Hpos Hadd Hu; [by rewrite orb_false_r|].
  set (cs1 := if enabled st t then target_filters (pos (target st t)) (filter_head (target st t)) cs else cs).
  change (all_filters st (t :: ts) cs) with (all_filters st ts cs1).
  assert (Ht : 0 <= t < 32) by (apply Hts; set_solver).
  assert (Hs : same_site cs cs1) by (unfold cs1; destruct (enabled st t); [apply target_filters_keeps|done]).
  rewrite IH; [|set_solver|done|done|done]. unfold selected at 1. rewrite (existsb_same _ _ _ Hs). fold (selected st u cs).
  assert (Hb : Z.testbit (targets cs1) u = Z.testbit (targets cs) u || (bool_decide (t = u) && enabled st u && selected st u cs)).
  { unfold cs1. destruct (enabled st t) eqn:Et.
    - rewrite Hpos, target_filters_bits by auto. destruct (bool_decide_reflect (t = u)) as [Etu|Etu]; [|done]. unfold selected. by rewrite <- Etu, Et.
    - destruct (bool_decide_reflect (t = u)) as [Etu|Etu]; [by rewrite <- Etu, Et, orb_false_r|by rewrite orb_false_r]. }
  rewrite Hb, <- orb_assoc. f_equal. destruct (enabled st u), (selected st u cs); rewrite ?andb_false_r, ?andb_true_r; try done.
  case_bool_decide as E1; case_bool_decide as E2; cbn; symmetry; try (apply bool_decide_eq_true_2; set_solver).
  apply bool_decide_eq_false_2. set_solver.
Qed.

Lemma tag_filters_ok fs : forall cs,
  Forall (fun flt => f_conf flt = QB_LOG_TAG_SET) fs ->
  let cs' := foldl (fun cs flt => apply_filter (new_value flt) flt cs) cs fs in same_site cs cs' /\ targets cs' = targets cs.
Proof.
  induction fs as [|flt fs IH]; intros cs Hfs; cbn [foldl]; [done|]. apply list.Forall_cons in Hfs as [Hflt Hfs].
  destruct (IH (apply_filter (new_value flt) flt cs) Hfs) as [Hs Ht]. split.
  - etrans; [apply apply_filter_keeps|exact Hs].
  - rewrite Ht. by apply apply_tag_targets.
Qed.
End Route.
