(* ===== verification/LogInv.v ===== *)
(** * Logging: the invariant

    The bits of a call site in use say which of the enabled targets have a filter
    that matches it.  Adding and clearing filters, registering call sites and
    making dynamic ones keep it. *)
From S2P Require Import Prelude Memory Cstring Serialize Array ArrayTheorems LogFormat LogState Log LogSites.

Section Route.
Context {Hregex : Regex} {Hprintf : Printf}.

(** ** The invariant *)

(** The call sites that filters reach. *)
Definition sites (st : log_state) : list cs_ptr := concat (section_sites <$> callsite_sections st).

Lemma sites_elem st p : p ∈ sites st <-> exists s, s ∈ callsite_sections st /\ p ∈ section_sites s.
Proof.
  unfold sites. rewrite list_elem_of_In, in_concat. split.
  - intros (l & Hl & Hp). apply list_elem_of_In in Hl. apply list_elem_of_In in Hp. apply list_elem_of_fmap in Hl as (s & -> & Hs). eauto.
  - intros (s & Hs & Hp). exists (section_sites s). rewrite <- !list_elem_of_In. split; [apply list_elem_of_fmap; eauto|done].
Qed.

(** Bit [t] of the call sites in use says whether a filter of target [t] matches. *)
Definition routed_at (st : log_state) (t : Z) : Prop :=
  forall p, p ∈ sites st -> 0 < lineno (cs_at st p) -> Z.testbit (targets (cs_at st p)) t = selected st t (cs_at st p).

(** The bins of the array of dynamic call sites are sections. *)
Definition bin_section (b : Z) : cs_ptr * cs_ptr := (Dynamic (b * 16), Dynamic (b * 16 + 16)).

Definition section_ok (ca : qb_array ()) (s : cs_ptr * cs_ptr) : Prop :=
  (exists a b, s = (Static a, Static b)) \/ exists b, 0 <= b /\ is_Some (zget (bins ca) b) /\ s = bin_section b.

Record dcs_arrays (st : log_state) (ca : qb_array ()) (la : qb_array (list cs_ptr)) : Prop := {
  da_ca : callsite_arr st = Some ca;
  da_la : lookup_arr st = Some la;
  da_cwf : arr_wf ca;
  da_lwf : arr_wf la;
  da_cgrow : autogrow_elements ca <> 0;
  da_lgrow : autogrow_elements la <> 0;
  da_cb : new_bin_cb ca = true;
  da_bins : forall b, 0 <= b -> is_Some (zget (bins ca) b) -> bin_section b ∈ callsite_sections st;
  da_sections : forall s, s ∈ callsite_sections st -> section_ok ca s;
  da_next : 0 <= callsite_arr_next st <= 65536;
  da_fresh : forall i, callsite_arr_next st <= i -> cs_at st (Dynamic i) = zero_callsite;
  da_used : forall i, 0 < lineno (cs_at st (Dynamic i)) -> 0 <= i /\ is_Some (zget (bins ca) (i / 16));
  da_lists : forall line p, 0 <= line -> p ∈ content la line ->
     exists i, p = Dynamic i /\ 0 <= i < callsite_arr_next st /\ is_Some (zget (bins ca) (i / 16)) /\ lineno (cs_at st p) = line;
}.

(** The slots of the targets. *)
Record slots_ok (st : log_state) : Prop := {
  so_len : length (conf st) = 32%nat;
  so_pos : forall t, 0 <= t < 32 -> pos (target st t) = t;
  so_max : 0 <= conf_active_max st < 32;
  so_active : forall t, 0 <= t < 32 -> enabled st t = true -> t <= conf_active_max st;
  so_inited : logger_inited st = true;
}.

Record log_base (st : log_state) : Prop := {
  lb_slots : slots_ok st;
  lb_add : forall t, 0 <= t < 32 -> Forall (fun flt => f_conf flt = QB_LOG_FILTER_ADD) (filter_head (target st t));
  lb_tag : Forall (fun flt => f_conf flt = QB_LOG_TAG_SET) (tags_head st);
  lb_custom : custom_filter_fn st = None;
  lb_dcs : exists ca la, dcs_arrays st ca la;
}.

(** The part of it that is about targets and filters. *)
Definition log_conf (st : log_state) : Prop :=
  slots_ok st /\ (forall t, 0 <= t < 32 -> Forall (fun flt => f_conf flt = QB_LOG_FILTER_ADD) (filter_head (target st t))) /\
  Forall (fun flt => f_conf flt = QB_LOG_TAG_SET) (tags_head st).

Lemma base_conf st : log_base st -> log_conf st.
Proof. by intros []. Qed.

Lemma conf_same st st' :
  conf st' = conf st -> conf_active_max st' = conf_active_max st -> tags_head st' = tags_head st -> logger_inited st' = logger_inited st ->
  log_conf st -> log_conf st'.
Proof.
  intros Ec Em Et Ei ([] & Hadd & Htag). unfold log_conf, target. rewrite Ec, Et. split; [|done].
  constructor; unfold enabled, target; rewrite ?Ec, ?Em, ?Ei; done.
Qed.

Definition log_inv (st : log_state) : Prop :=
  log_base st /\ forall t, 0 <= t < 32 -> enabled st t = true -> routed_at st t.

Lemma slots_elem st t : slots_ok st -> t ∈ slots st <-> 0 <= t <= conf_active_max st.
Proof. intros []. unfold slots. rewrite elem_of_seqZ. change QB_LOG_TARGET_START with 0. lia. Qed.

Lemma enabled_in_slots st t : slots_ok st -> 0 <= t < 32 -> enabled st t = true -> t ∈ slots st.
Proof. intros H Ht He. apply slots_elem; [done|]. split; [lia|]. by apply so_active. Qed.

(** ** Changes that keep the invariant *)

Lemma frame_base st st' :
  log_base st -> frame st st' -> (forall p, same_site (cs_at st p) (cs_at st' p)) ->
  (forall i, callsite_arr_next st <= i -> cs_at st' (Dynamic i) = zero_callsite) -> log_base st'.
Proof.
  intros [[] Hadd Htag Hc (ca & la & [])] Hf Hs Hz. unfold frame in Hf.
  assert (Hc' : forall A (g : log_state -> A), (forall m, g (set_callsites st m) = g st) -> g st' = g st) by (intros A g Hg; by rewrite Hf).
  constructor; [constructor|..].
  - by rewrite (Hc' _ conf).
  - intros t Ht. unfold target. rewrite (Hc' _ conf) by done. by apply so_pos0.
  - by rewrite (Hc' _ conf_active_max).
  - intros t Ht. rewrite (Hc' _ (fun st => enabled st t)), (Hc' _ conf_active_max) by done. by apply so_active0.
  - by rewrite (Hc' _ logger_inited).
  - intros t Ht. unfold target. rewrite (Hc' _ conf) by done. by apply Hadd.
  - by rewrite (Hc' _ tags_head).
  - by rewrite (Hc' _ custom_filter_fn).
  - exists ca, la. constructor; rewrite ?(Hc' _ callsite_arr), ?(Hc' _ lookup_arr), ?(Hc' _ callsite_sections), ?(Hc' _ callsite_arr_next); try done.
    + intros i Hi. apply da_used0. by destruct (Hs (Dynamic i)) as (_ & _ & _ & _ & <-).
    + intros line p Hl Hp. destruct (da_lists0 line p Hl Hp) as (i & -> & Hi & Hb & Hn). exists i. split_and!; try done; [lia|lia|].
      rewrite <- Hn. apply Hs.
Qed.

(** The arrays do not depend on the targets. *)
Lemma dcs_arrays_conf st st' ca la :
  callsite_arr st' = callsite_arr st -> lookup_arr st' = lookup_arr st -> callsite_sections st' = callsite_sections st ->
  callsite_arr_next st' = callsite_arr_next st -> callsites st' = callsites st -> dcs_arrays st ca la -> dcs_arrays st' ca la.
Proof.
  intros H1 H2 H3 H4 H5 []. constructor; rewrite ?H1, ?H2, ?H3, ?H4; try done; unfold cs_at; rewrite ?H5; done.
Qed.

Lemma target_set st t tg u :
  length (conf st) = 32%nat -> 0 <= t < 32 -> 0 <= u < 32 -> target (set_target st t tg) u = if decide (t = u) then tg else target st u.
Proof.
  intros Hl Ht Hu. unfold target, set_target. cbn [conf set_conf]. case_decide as E.
  - subst. apply zget_zset_eq. unfold zlen. lia.
  - apply zget_zset_ne; lia.
Qed.

Lemma set_target_base st t tg :
  log_base st -> 0 <= t < 32 -> pos tg = t -> state tg = state (target st t) ->
  Forall (fun flt => f_conf flt = QB_LOG_FILTER_ADD) (filter_head tg) -> log_base (set_target st t tg).
Proof.
  intros [[] Hadd Htag Hc (ca & la & Hd)] Ht Hp Hst Hf.
  assert (Hen : forall u, 0 <= u < 32 -> enabled (set_target st t tg) u = enabled st u).
  { intros u Hu. unfold enabled. rewrite target_set by done. case_decide; [subst u; by rewrite Hst|done]. }
  constructor; [constructor|..]; try done.
  - cbn. pose proof (zlen_zset (conf st) t tg) as Hz. unfold zlen in Hz. lia.
  - intros u Hu. rewrite target_set by done. case_decide; [congruence|]. by apply so_pos0.
  - intros u Hu. rewrite Hen by done. by apply so_active0.
  - intros u Hu. rewrite target_set by done. case_decide; [done|]. by apply Hadd.
  - exists ca, la. by apply (dcs_arrays_conf st).
Qed.

(** A target that keeps its filters and its state. *)
Lemma set_target_inv st t tg :
  log_inv st -> 0 <= t < 32 -> pos tg = t -> state tg = state (target st t) -> filter_head tg = filter_head (target st t) ->
  log_inv (set_target st t tg).
Proof.
  intros [Hb Hr] Ht Hp Hst Hf. pose proof Hb as [[] Hadd _ _ _]. split.
  - apply set_target_base; try done. rewrite Hf. by apply Hadd.
  - intros u Hu He p Hp1 Hp2. unfold selected. rewrite target_set by done. unfold enabled in He. rewrite target_set in He by done.
    case_decide as E.
    + subst u. rewrite Hf. apply (Hr t); [done|unfold enabled; by rewrite <- Hst|done|done].
    + by apply (Hr u).
Qed.

(** The slot that the search from the top finds is the last one enabled. *)
Lemma slot_at u : 0 <= u < 32 -> rev (seqZ QB_LOG_TARGET_START QB_LOG_TARGET_MAX) !! Z.to_nat (31 - u) = Some u.
Proof.
  intros Hu. assert (Hall : forallb (fun u => bool_decide (rev (seqZ 0 32) !! Z.to_nat (31 - u) = Some u)) (seqZ 0 32) = true) by (vm_compute; reflexivity).
  rewrite forallb_forall in Hall. specialize (Hall u). eapply bool_decide_eq_true_1, Hall. apply list_elem_of_In, elem_of_seqZ. lia.
Qed.

Lemma find_last_enabled st :
  match list_find (fun i => enabled st i = true) (rev (seqZ QB_LOG_TARGET_START QB_LOG_TARGET_MAX)) with
  | Some (_, i) => 0 <= i < 32 /\ enabled st i = true /\ forall u, 0 <= u < 32 -> enabled st u = true -> u <= i
  | None => forall u, 0 <= u < 32 -> enabled st u = false
  end.
Proof.
  destruct (list_find _ _) as [[j i]|] eqn:E.
  - apply list_find_Some in E as (Hj & Hi & Hmin). assert (Hr : 0 <= i < 32).
    { apply list_elem_of_lookup_2 in Hj. rewrite list_elem_of_In, <- in_rev, <- list_elem_of_In, elem_of_seqZ in Hj.
      change QB_LOG_TARGET_START with 0 in Hj. change QB_LOG_TARGET_MAX with 32 in Hj. lia. }
    split_and!; [lia|lia|done|]. intros u Hu He. destruct (Z_le_gt_dec u i); [done|].
    assert (Hju : j = Z.to_nat (31 - i)).
    { eapply NoDup_lookup; [|exact Hj|by apply slot_at]. apply NoDup_ListNoDup, List.NoDup_rev, NoDup_ListNoDup, NoDup_seqZ. }
    exfalso. apply (Hmin (Z.to_nat (31 - u)) u); [by apply slot_at|lia|done].
  - rewrite list_find_None in E. intros u Hu. destruct (enabled st u) eqn:He; [|done]. exfalso.
    rewrite Forall_forall in E. apply (E u); [|done]. by eapply list_elem_of_In, list_elem_of_lookup_2, slot_at.
Qed.

Lemma state_set_conf st t s :
  exists m, _log_target_state_set st t s = set_conf_active_max (set_target st t (set_state (target st t) s)) m /\
    ((0 <= conf_active_max st < 32 -> 0 <= m < 32) /\
     forall u, 0 <= u < 32 -> enabled (set_target st t (set_state (target st t) s)) u = true -> u <= m).
Proof.
  unfold _log_target_state_set. set (st1 := set_target _ _ _). pose proof (find_last_enabled st1) as H.
  destruct (list_find _ _) as [[j i]|].
  - destruct H as (Hi & _ & Hmax). exists i. split; [done|]. split; [lia|]. intros u Hu He. by apply Hmax.
  - exists (conf_active_max st). split; [by destruct st|]. split; [done|]. intros u Hu He. by rewrite H in He.
Qed.

Lemma state_set_inv st t s :
  log_inv st -> 0 <= t < 32 -> (s = QB_LOG_STATE_ENABLED -> routed_at st t) -> log_inv (_log_target_state_set st t s).
Proof.
  intros [Hb Hr] Ht Hs. destruct (state_set_conf st t s) as (m & -> & Hm & Hmax). pose proof Hb as [[] Hadd Htag Hc (ca & la & Hd)].
  set (st1 := set_target st t (set_state (target st t) s)) in *.
  assert (Htg : forall u, 0 <= u < 32 -> target (set_conf_active_max st1 m) u = if decide (t = u) then set_state (target st t) s else target st u).
  { intros u Hu. unfold st1. change (target (set_conf_active_max ?x m) u) with (target x u). by apply target_set. }
  split.
  - constructor; [constructor|..]; try done.
    + cbn. pose proof (zlen_zset (conf st) t (set_state (target st t) s)) as Hz. unfold zlen in Hz. lia.
    + intros u Hu. rewrite Htg by done. case_decide; [subst u; by apply so_pos0|by apply so_pos0].
    + by apply Hm.
    + intros u Hu. rewrite Htg by done. case_decide; [subst u; by apply Hadd|by apply Hadd].
    + exists ca, la. by apply (dcs_arrays_conf st).
  - intros u Hu He p Hp1 Hp2. unfold selected. rewrite Htg by done. unfold enabled in He. rewrite Htg in He by done. case_decide as E.
    + subst u. cbn [state set_state] in He. apply bool_decide_eq_true in He. by apply (Hs He).
    + by apply (Hr u).
Qed.

Lemma changed_base ps F st st' : log_base st -> keeps_site F -> sites_changed ps F st st' -> log_base st'.
Proof.
  intros Hb HF [Hf H]. apply (frame_base st); [done|done| |].
  - intros p. rewrite H. destruct (decide (p ∈ ps /\ _)); [apply HF|done].
  - pose proof Hb as [_ _ _ _ (ca & la & [])]. intros i Hi. rewrite H, da_fresh0 by done. by rewrite decide_False by (cbn; lia).
Qed.

Lemma frame_eq {A} st st' (g : log_state -> A) : frame st st' -> (forall m, g (set_callsites st m) = g st) -> g st' = g st.
Proof. unfold frame. intros -> Hg. apply Hg. Qed.

Lemma fold_sections F ss : forall st,
  foldl (fun st sect => change_sites F (section_sites sect) st) st ss = change_sites F (concat (section_sites <$> ss)) st.
Proof.
  induction ss as [|s ss IH]; intros st; [done|]. cbn [foldl]. rewrite IH, fmap_cons. cbn [concat]. unfold change_sites. by rewrite foldl_app.
Qed.

(** ** Filters keep the bits up to date *)

(** All call sites after a filter was added to, or all filters were taken from,
    target [t]. *)
Lemma add_filter_inv st t flt st' :
  log_inv st -> 0 <= t < 32 -> f_conf flt = QB_LOG_FILTER_ADD ->
  let st1 := set_target st t (set_filter_head (target st t) (filter_head (target st t) ++ [flt])) in
  sites_changed (sites st) (apply_filter t flt) st1 st' -> log_inv st'.
Proof.
  intros [Hb Hr] Ht Hadd st1 Hch. pose proof Hb as [[] Hall _ _ _].
  assert (Htg : forall u, 0 <= u < 32 -> target st1 u =
     if decide (t = u) then set_filter_head (target st t) (filter_head (target st t) ++ [flt]) else target st u)
    by (intros u Hu; by apply target_set).
  assert (Hb1 : log_base st1).
  { apply set_target_base; [done|done|by apply so_pos0|done|]. cbn. apply Forall_app. split; [by apply Hall|]. by constructor. }
  pose proof Hch as [Hf H]. split; [eapply changed_base; [exact Hb1| |exact Hch]; apply apply_filter_keeps|].
  intros u Hu He p Hp Hl. rewrite (frame_eq st1 st' (fun x => enabled x u) Hf) in He by done.
  unfold sites in Hp. rewrite (frame_eq st1 st' callsite_sections Hf) in Hp by done. change (p ∈ sites st) in Hp.
  rewrite (sites_changed_lineno _ _ _ _ p (apply_filter_keeps t flt) Hch) in Hl. change (0 < lineno (cs_at st p)) in Hl.
  unfold selected. rewrite (frame_eq st1 st' (fun x => target x u) Hf) by done. rewrite H, decide_True by done.
  change (cs_at st1 p) with (cs_at st p). rewrite (existsb_same _ _ _ (apply_filter_keeps t flt (cs_at st p))).
  rewrite apply_add_bits, Htg by done. unfold enabled in He. rewrite Htg in He by done.
  destruct (decide (t = u)) as [<-|Hne].
  - rewrite bool_decide_eq_true_2 by done. cbn [filter_head set_filter_head andb]. rewrite existsb_app. cbn [existsb]. rewrite orb_false_r.
    f_equal. by apply (Hr t).
  - rewrite bool_decide_eq_false_2 by done. rewrite orb_false_r. by apply (Hr u).
Qed.

Lemma clear_filters_inv st t st' text rx high low type :
  log_inv st -> 0 <= t < 32 ->
  let st1 := set_target st t (set_filter_head (target st t) []) in
  sites_changed (sites st) (_log_filter_apply_to_cs t QB_LOG_FILTER_CLEAR_ALL type text rx high low) st1 st' -> log_inv st'.
Proof.
  intros [Hb Hr] Ht st1 Hch. pose proof Hb as [[] Hall _ _ _].
  assert (Htg : forall u, 0 <= u < 32 -> target st1 u = if decide (t = u) then set_filter_head (target st t) [] else target st u)
    by (intros u Hu; by apply target_set).
  assert (Hb1 : log_base st1) by (apply set_target_base; [done|done|by apply so_pos0|done|constructor]).
  pose proof Hch as [Hf H]. split; [eapply changed_base; [exact Hb1| |exact Hch]; apply apply_to_cs_keeps|].
  intros u Hu He p Hp Hl. rewrite (frame_eq st1 st' (fun x => enabled x u) Hf) in He by done.
  unfold sites in Hp. rewrite (frame_eq st1 st' callsite_sections Hf) in Hp by done. change (p ∈ sites st) in Hp.
  rewrite (sites_changed_lineno _ _ _ _ p (apply_to_cs_keeps _ _ _ _ _ _ _) Hch) in Hl. change (0 < lineno (cs_at st p)) in Hl.
  unfold selected. rewrite (frame_eq st1 st' (fun x => target x u) Hf) by done. rewrite H, decide_True by done.
  change (cs_at st1 p) with (cs_at st p). cbn [_log_filter_apply_to_cs targets set_targets].
  rewrite bit_clear_testbit, Htg by done. unfold enabled in He. rewrite Htg in He by done.
  destruct (decide (t = u)) as [<-|Hne]; [by rewrite bool_decide_eq_true_2|].
  rewrite bool_decide_eq_false_2 by done. cbn [negb andb].
  rewrite (existsb_same (filter_head (target st u)) (cs_at st p)) by by split_and!. by apply (Hr u).
Qed.

(** A change of tags only. *)
Lemma tags_inv st st' tf F ps :
  log_inv st -> Forall (fun flt => f_conf flt = QB_LOG_TAG_SET) tf -> keeps_site F -> (forall cs, targets (F cs) = targets cs) ->
  sites_changed ps F (set_tags_head st tf) st' -> log_inv st'.
Proof.
  intros [Hb Hr] Htf HF Ht Hch. pose proof Hb as [[] Hall Htag Hc (ca & la & Hd)]. set (st1 := set_tags_head st tf) in *.
  assert (Hb1 : log_base st1).
  { constructor; [constructor|..]; try done. exists ca, la. by apply (dcs_arrays_conf st). }
  pose proof Hch as [Hf H]. split; [eapply changed_base; [exact Hb1|exact HF|exact Hch]|].
  intros u Hu He p Hp Hl. rewrite (frame_eq st1 st' (fun x => enabled x u) Hf) in He by done.
  unfold sites in Hp. rewrite (frame_eq st1 st' callsite_sections Hf) in Hp by done. change (p ∈ sites st) in Hp.
  rewrite (sites_changed_lineno _ _ _ _ p HF Hch) in Hl. change (0 < lineno (cs_at st p)) in Hl.
  unfold selected. rewrite (frame_eq st1 st' (fun x => target x u) Hf) by done.
  change (target st1 u) with (target st u).
  assert (Hsame : same_site (cs_at st p) (cs_at st' p) /\ targets (cs_at st' p) = targets (cs_at st p)).
  { rewrite H. change (cs_at st1 p) with (cs_at st p). destruct (decide (p ∈ ps /\ _)); [|done]. split; [apply HF|apply Ht]. }
  destruct Hsame as [Hs Htt]. rewrite (existsb_same _ _ _ Hs), Htt. by apply (Hr u).
Qed.

Lemma bad_target_range st t : bad_target st t = false -> 0 <= t < 32.
Proof. unfold bad_target. change QB_LOG_TARGET_MAX with 32. intros H. apply orb_false_iff in H as [H _]. lia. Qed.

Lemma filter_ctl2_inv st env t c type text high low :
  log_inv st -> c <> QB_LOG_FILTER_REMOVE -> log_inv (fst (qb_log_filter_ctl2 st env t c type text high low)).
Proof.
  intros Hinv Hc. unfold qb_log_filter_ctl2. destruct (negb (logger_inited st)); [done|].
  destruct (on_target c && bad_target st t) eqn:Ebad; [done|]. destruct text as [text|]; [|done].
  destruct ((low <? high) || _ || _) eqn:Earg; [done|].
  assert (Hok : on_target c = true -> 0 <= t < 32 /\ u32 t = t).
  { intros Hon. rewrite Hon in Ebad. apply bad_target_range in Ebad. split; [done|]. apply u32_small. lia. }
  pose proof (apply_to_cs_keeps (u32 t) c type text) as HK. pose proof (apply_to_cs_idem (u32 t) c type text) as HI.
  unfold _log_filter_apply, _log_filter_store. destruct c; try done; cbn [negb].
  - destruct Hok as [Ht Eu]; [done|]. rewrite Eu in *.
    destruct (_log_filter_exists _ _ _ _ _ _); [done|]. destruct (negb (calloc_flt env)); [done|]. destruct (negb (strdup_text env)); [done|].
    destruct (is_regex type && negb (calloc_regex env)); [done|]. destruct (is_regex type && negb (regcomp text)); [done|].
    set (flt := {| f_conf := QB_LOG_FILTER_ADD |}). cbn [Z.ltb Z.compare fst mbind option_bind].
    rewrite fold_sections. eapply (add_filter_inv st t flt); [done|done|done|]. apply change_sites_ok; [apply HK|apply HI].
  - destruct Hok as [Ht Eu]; [done|]. rewrite Eu in *. cbn [Z.ltb Z.compare fst mbind option_bind].
    rewrite fold_sections. eapply (clear_filters_inv st t); [done|done|]. apply change_sites_ok; [apply HK|apply HI].
  - destruct (_log_filter_exists _ _ _ _ _ _); [done|]. destruct (negb (calloc_flt env)); [done|]. destruct (negb (strdup_text env)); [done|].
    destruct (is_regex type && negb (calloc_regex env)); [done|]. destruct (is_regex type && negb (regcomp text)); [done|].
    set (flt := {| f_conf := QB_LOG_TAG_SET |}). cbn [Z.ltb Z.compare fst mbind option_bind]. rewrite fold_sections.
    eapply (tags_inv st); [done| |apply HK| |apply change_sites_ok; [apply HK|apply HI]].
    + apply Forall_app. split; [apply Hinv|]. by constructor.
    + intros cs. cbn. by destruct (_cs_matches_filter_ _ _ _ _ _ _).
  - cbn [Z.ltb Z.compare fst mbind option_bind]. rewrite fold_sections.
    eapply (tags_inv st); [done| |apply HK| |apply change_sites_ok; [apply HK|apply HI]].
    + destruct Hinv as [[_ _ Htag _ _] _]. clear -Htag. induction Htag as [|f fs Hf Hfs IH]; cbn; [constructor|].
      destruct (_ && _); [done|]. by constructor.
    + intros cs. cbn. by destruct (_cs_matches_filter_ _ _ _ _ _ _).
  - cbn [Z.ltb Z.compare fst mbind option_bind]. rewrite fold_sections.
    eapply (tags_inv st); [done|constructor|apply HK|done|apply change_sites_ok; [apply HK|apply HI]].
Qed.

(** ** New call sites get the bits of the filters *)

Lemma sites_compose ps F G st st1 st2 :
  keeps_site F -> sites_changed ps F st st1 -> sites_changed ps G st1 st2 -> sites_changed ps (fun cs => G (F cs)) st st2.
Proof.
  intros HF [Hf1 H1] [Hf2 H2]. split; [by etrans|]. intros p. rewrite H2.
  assert (Hl : lineno (cs_at st1 p) = lineno (cs_at st p)) by (apply (sites_changed_lineno ps F); [done|by split]).
  rewrite Hl, H1. by destruct (decide (p ∈ ps /\ _)).
Qed.

Lemma apply_filter_idem t flt cs : apply_filter t flt (apply_filter t flt cs) = apply_filter t flt cs.
Proof. apply apply_to_cs_idem. Qed.

Definition tag_filters (fs : list qb_log_filter) (cs : qb_log_callsite) : qb_log_callsite :=
  foldl (fun cs flt => apply_filter (new_value flt) flt cs) cs fs.

Lemma tag_filters_keeps fs : keeps_site (tag_filters fs).
Proof. apply (keeps_fold (fun flt => apply_filter (new_value flt) flt)). intros flt. apply apply_filter_keeps. Qed.

(** The filters of all targets on the call sites [ps]. *)
Lemma apply_all_changed ps st :
  sites_changed ps (all_filters st (slots st)) st
    (foldl (fun st t => if enabled st t
       then foldl (fun st flt => change_sites (apply_filter (pos (target st t)) flt) ps st) st (filter_head (target st t))
       else st) st (slots st)).
Proof.
  apply (sites_fold _ (fun t cs => if enabled st t then target_filters (pos (target st t)) (filter_head (target st t)) cs else cs)).
  { intros t cs. destruct (enabled st t); [apply target_filters_keeps|done]. }
  intros t st' Hf _. rewrite (frame_eq st st' (fun x => enabled x t) Hf) by done. destruct (enabled st t).
  - rewrite (frame_eq st st' (fun x => target x t) Hf) by done.
    apply (sites_fold _ (fun flt => apply_filter (pos (target st t)) flt)); [intros flt; apply apply_filter_keeps|].
    intros flt st'' Hf' _. rewrite (frame_eq st st'' (fun x => target x t) (frame_trans _ _ _ Hf Hf')) by done.
    apply change_sites_ok; [apply apply_filter_keeps|intros cs; apply apply_filter_idem].
  - split; [done|]. intros p. by destruct (decide _).
Qed.

Lemma apply_tags_changed ps st fs :
  sites_changed ps (tag_filters fs) st (foldl (fun st flt => change_sites (apply_filter (new_value flt) flt) ps st) st fs).
Proof.
  apply (sites_fold _ (fun flt => apply_filter (new_value flt) flt)); [intros flt; apply apply_filter_keeps|].
  intros flt st' _ _. apply change_sites_ok; [apply apply_filter_keeps|intros cs; apply apply_filter_idem].
Qed.

Definition new_site (st : log_state) (cs : qb_log_callsite) : qb_log_callsite := tag_filters (tags_head st) (all_filters st (slots st) cs).

Lemma new_site_keeps st : keeps_site (new_site st).
Proof. intros cs. unfold new_site. etrans; [apply all_filters_keeps|apply tag_filters_keeps]. Qed.

Lemma new_site_bits st u cs :
  log_conf st -> 0 <= u < 32 -> enabled st u = true ->
  Z.testbit (targets (new_site st cs)) u = Z.testbit (targets cs) u || selected st u cs.
Proof.
  intros (Hs & Hadd & Htag) Hu He. unfold new_site, tag_filters.
  destruct (tag_filters_ok (tags_head st) (all_filters st (slots st) cs) Htag) as [_ ->].
  rewrite all_filters_bits; [|intros t Ht; apply slots_elem in Ht; [destruct Hs; lia|done]|by apply so_pos|done|done].
  rewrite bool_decide_eq_true_2 by by apply enabled_in_slots. by rewrite He.
Qed.

Lemma register_changed st env start stop st' :
  custom_filter_fn st = None -> qb_log_callsites_register st env (Some start) (Some stop) = (st', 0) ->
  existsb (fun s => bool_decide (fst s = start) || bool_decide (snd s = stop)) (callsite_sections st) = false /\
  sites_changed (section_sites (start, stop)) (new_site st)
    (set_callsite_sections st ((start, stop) :: callsite_sections st)) st'.
Proof.
  intros Hc. unfold qb_log_callsites_register. destruct (existsb _ _); [done|]. destruct (negb (calloc_sect env)); [done|].
  set (st1 := set_callsite_sections st _). set (ps := section_sites (start, stop)). set (st2 := foldl _ st1 (slots st1)).
  pose proof (apply_all_changed ps st1 : sites_changed ps _ st1 st2) as H2.
  set (st3 := foldl _ st2 (tags_head st2)). pose proof (apply_tags_changed ps st2 (tags_head st2) : sites_changed ps _ st2 st3) as H3.
  assert (Hf : frame st1 st3) by (etrans; [apply H2|apply H3]).
  rewrite (frame_eq st1 st3 custom_filter_fn Hf) by done. change (custom_filter_fn st1) with (custom_filter_fn st). rewrite Hc.
  intros [= <-]. split; [done|]. rewrite (frame_eq st1 st2 tags_head (proj1 H2)) in H3 by done.
  exact (sites_compose ps (all_filters st1 (slots st1)) (tag_filters (tags_head st1)) st1 st2 st3 (all_filters_keeps _ _) H2 H3).
Qed.

Lemma new_section_routed st s st' u :
  log_conf st -> 0 <= u < 32 -> enabled st u = true -> routed_at st u ->
  (forall p, p ∈ section_sites s -> p ∉ sites st -> 0 < lineno (cs_at st p) -> targets (cs_at st p) = 0) ->
  sites_changed (section_sites s) (new_site st) (set_callsite_sections st (s :: callsite_sections st)) st' -> routed_at st' u.
Proof.
  intros Hb Hu He Hr Hz Hch. pose proof Hch as [Hf H]. set (st1 := set_callsite_sections st _) in *. intros p Hp Hl.
  unfold sites in Hp. rewrite (frame_eq st1 st' callsite_sections Hf) in Hp by done. cbn [callsite_sections st1 set_callsite_sections] in Hp.
  rewrite fmap_cons in Hp. cbn [concat] in Hp. rewrite elem_of_app in Hp. change (p ∈ section_sites s \/ p ∈ sites st) in Hp.
  rewrite (sites_changed_lineno _ _ _ _ p (new_site_keeps st) Hch) in Hl. change (0 < lineno (cs_at st p)) in Hl.
  unfold selected. rewrite (frame_eq st1 st' (fun x => target x u) Hf) by done. change (target st1 u) with (target st u).
  rewrite H. change (cs_at st1 p) with (cs_at st p). destruct (decide (p ∈ section_sites s /\ _)) as [[Hin _]|Hout].
  - rewrite (existsb_same _ _ _ (new_site_keeps st (cs_at st p))), new_site_bits by done. change (existsb _ _) with (selected st u (cs_at st p)).
    destruct (decide (p ∈ sites st)) as [Hs|Hs]; [rewrite Hr by done; apply orb_diag|]. by rewrite Hz, Z.bits_0.
  - destruct Hp as [Hp|Hp]; [by destruct Hout|]. by apply Hr.
Qed.

Lemma register_result st env start stop :
  let '(st', rc) := qb_log_callsites_register st env (Some start) (Some stop) in rc = 0 \/ st' = st.
Proof.
  unfold qb_log_callsites_register. destruct (existsb _ _); [by right|]. destruct (negb (calloc_sect env)); [by right|]. by left.
Qed.

Lemma static_section_base st a b :
  log_base st -> log_base (set_callsite_sections st ((Static a, Static b) :: callsite_sections st)).
Proof.
  intros [[] Hadd Htag Hc (ca & la & [])]. constructor; [constructor|..]; try done. exists ca, la. constructor; try done.
  - intros i Hi Hs. cbn. right. by apply da_bins0.
  - intros s. cbn. rewrite elem_of_cons. intros [->|Hs]; [left; eauto|by apply da_sections0].
Qed.

Lemma register_inv st env a b :
  log_inv st -> (forall p, p ∈ section_sites (Static a, Static b) -> p ∉ sites st -> 0 < lineno (cs_at st p) -> targets (cs_at st p) = 0) ->
  log_inv (fst (qb_log_callsites_register st env (Some (Static a)) (Some (Static b)))).
Proof.
  intros [Hb Hr] Hz. pose proof (register_result st env (Static a) (Static b)) as Hres.
  destruct (qb_log_callsites_register _ _ _ _) as [st' rc] eqn:E. cbn [fst]. destruct Hres as [->| ->]; [|done].
  apply register_changed in E as [_ Hch]; [|apply Hb]. split.
  - eapply changed_base; [by apply static_section_base|apply new_site_keeps|exact Hch].
  - intros u Hu He. assert (Eu : enabled st u = true) by (by rewrite (frame_eq _ _ (fun x => enabled x u) (proj1 Hch)) in He).
    eapply new_section_routed; [by apply base_conf|done|exact Eu|by apply Hr|exact Hz|exact Hch].
Qed.

(** ** Dynamic call sites *)

Lemma bin_section_sites b p : p ∈ section_sites (bin_section b) <-> exists i, p = Dynamic i /\ b * 16 <= i < b * 16 + 16.
Proof.
  unfold bin_section, section_sites. rewrite list_elem_of_fmap. setoid_rewrite elem_of_seqZ. split; intros (i & -> & Hi); exists i; split; try done; lia.
Qed.

(** The callback registers the new bin as a section and changes no call site. *)
Lemma register_bin st env b a0 la ca st' :
  dcs_arrays st a0 la -> custom_filter_fn st = None -> 0 <= b -> arr_wf ca -> zget (bins a0) b = None -> is_Some (zget (bins ca) b) ->
  b * 16 < max_elements ca -> _log_register_callsites env (set_callsite_arr st (Some ca)) b = Some st' ->
  sites_changed (section_sites (bin_section b)) (new_site (set_callsite_arr st (Some ca)))
    (set_callsite_sections (set_callsite_arr st (Some ca)) (bin_section b :: callsite_sections st)) st' /\
  (forall p, cs_at st' p = cs_at st p).
Proof.
  intros Hd Hc Hb Hwf Hnone Hs Hmax. unfold _log_register_callsites. cbn [callsite_arr set_callsite_arr qb_array_elems_per_bin_get].
  change MAX_ELEMENTS_PER_BIN with 16. pose proof (awf_max ca Hwf) as Hm. change QB_ARRAY_MAX_ELEMENTS with 65536 in Hm.
  rewrite u32_small, i32_small by lia. rewrite index_allocated; [|done|lia|by rewrite Z.div_mul by lia]. cbn [mbind option_bind Z.eqb].
  set (st1 := set_callsite_arr _ _). change (set_callsite_arr st1 _) with st1.
  destruct (qb_log_callsites_register _ _ _ _) as [st2 rc] eqn:E. destruct (Z.eqb_spec rc 0) as [->|]; [|done]. intros [= <-].
  apply register_changed in E as [_ Hch]; [|done]. split; [exact Hch|]. intros p. destruct Hch as [_ ->].
  change (cs_at (set_callsite_sections st1 _) p) with (cs_at st p). rewrite decide_False; [done|]. intros [Hp Hl].
  change (p ∈ section_sites (bin_section b)) in Hp. apply bin_section_sites in Hp as (i & -> & Hi).
  destruct (da_used _ _ _ Hd i Hl) as [_ Hbin]. replace (i / 16) with b in Hbin by zlia. rewrite Hnone in Hbin. by destruct Hbin.
Qed.

(** The state after an element of the array of call sites was asked for. *)
Record site_indexed (st : log_state) (idx : Z) (st' : log_state) (ca : qb_array ()) (la : qb_array (list cs_ptr)) : Prop := {
  si_inv : log_inv st';
  si_dcs : dcs_arrays st' ca la;
  si_alloc : is_Some (zget (bins ca) (idx / 16));
  si_sites : forall p, cs_at st' p = cs_at st p;
  si_conf : conf st' = conf st /\ conf_active_max st' = conf_active_max st /\ tags_head st' = tags_head st;
  si_next : callsite_arr_next st' = callsite_arr_next st;
}.

(** The parts of the invariant that do not change when a bin is added. *)
Lemma bin_added st st' ca ca' la b :
  log_base st -> dcs_arrays st ca la -> 0 <= b -> arr_wf ca' -> autogrow_elements ca' = autogrow_elements ca -> new_bin_cb ca' = new_bin_cb ca ->
  (forall c, 0 <= c -> c <> b -> zget (bins ca') c = zget (bins ca) c) -> is_Some (zget (bins ca') b) ->
  callsite_arr st' = Some ca' -> lookup_arr st' = lookup_arr st -> conf st' = conf st -> conf_active_max st' = conf_active_max st ->
  tags_head st' = tags_head st -> custom_filter_fn st' = custom_filter_fn st -> logger_inited st' = logger_inited st ->
  callsite_arr_next st' = callsite_arr_next st ->
  (forall p, cs_at st' p = cs_at st p) -> bin_section b ∈ callsite_sections st' ->
  (forall s, s ∈ callsite_sections st' <-> s = bin_section b \/ s ∈ callsite_sections st) -> dcs_arrays st' ca' la /\ log_base st'.
Proof.
  intros [[] Hadd Htag Hc _] [] Hb0 Hwf Hauto Hcb Hbins Hb Ea Ela Ec Em Et Eu Ei En Hcs Hin Hsec.
  assert (Hkeep : forall c, 0 <= c -> is_Some (zget (bins ca) c) -> is_Some (zget (bins ca') c)).
  { intros c Hc0 Hs. destruct (decide (c = b)) as [->|]; [done|]. by rewrite Hbins. }
  assert (Hd : dcs_arrays st' ca' la).
  { constructor; rewrite ?Ela, ?En, ?Hauto, ?Hcb; try done.
    - intros c Hc0 Hs. apply Hsec. destruct (decide (c = b)) as [->|]; [by left|]. right. apply da_bins0; [done|]. by rewrite <- Hbins.
    - intros s [->|Hs]%Hsec; [right; eauto|]. destruct (da_sections0 s Hs) as [?|(c & Hc0 & Hs' & ->)]; [by left|]. right. eauto.
    - intros i Hi. rewrite Hcs. by apply da_fresh0.
    - intros i Hi. rewrite Hcs in Hi. apply da_used0 in Hi as [Hi Hs]. split; [done|]. apply Hkeep; [zlia|done].
    - intros line p Hl Hp. destruct (da_lists0 line p Hl Hp) as (i & -> & Hi & Hs & Hn). exists i. rewrite Hcs.
      split_and!; try done; [lia|lia|]. apply Hkeep; [zlia|done]. }
  split; [done|]. constructor; [constructor|..]; unfold target, enabled, target; rewrite ?Ec, ?Em, ?Et, ?Eu, ?Ei; try done. eauto.
Qed.

Lemma index_callsite_ok st env idx st' p ca la :
  log_inv st -> dcs_arrays st ca la -> idx < 2 ^ 31 -> index_callsite st env idx = Some (st', 0, p) ->
  0 <= idx < 65536 /\ p = Some (idx / 16, idx mod 16) /\ exists ca', site_indexed st idx st' ca' la.
Proof.
  intros [Hb Hr] Hd Hidx. unfold index_callsite. rewrite (da_ca _ _ _ Hd).
  destruct (qb_array_index _ _ _ _) as [[[oa rc] q]|] eqn:Ei; cbn [mbind option_bind]; [|done].
  destruct (foldl _ _ _) as [st2|] eqn:Ef; cbn [mbind option_bind]; [|done]. intros [= -> -> ->].
  apply index_inv in Ei as (a' & -> & Hi & -> & Hx & (Hcb & Hcalls & Hbins) & Hmax); [|apply Hd|apply Hd|done].
  change QB_ARRAY_MAX_ELEMENTS with 65536 in Hi. split; [done|]. split; [done|]. exists a'.
  set (b := idx / 16) in *. assert (Hb0 : 0 <= b) by (unfold b; zlia).
  cbn [fmap option_fmap option_map default id from_option] in Ef. rewrite Hcalls, drop_app_length, (da_cb _ _ _ Hd) in Ef.
  pose proof (ix_wf _ _ _ Hx) as Hwf. pose proof (ix_alloc _ _ _ Hx) as Hal. pose proof (ix_auto _ _ _ Hx) as Hau. fold b in Hal.
  set (st1 := set_callsite_arr st (Some a')) in *. destruct (zget (bins ca) b) as [l|] eqn:Eb; cbn [foldl] in Ef.
  - injection Ef as <-. destruct (bin_added st st1 ca a' la b) as [Hd1 Hb1]; try done.
    { apply Hd; [done|by rewrite Eb]. }
    { intros s. split; [by right|]. intros [->|?]; [|done]. apply Hd; [done|by rewrite Eb]. }
  - cbn [mbind option_bind] in Ef. apply (register_bin st env b ca la a') in Ef as [Hch Hcs]; try done; [|apply Hb|unfold b; zlia].
    fold st1 in Hch. pose proof (proj1 Hch) as Hf. set (st2 := set_callsite_sections st1 _) in *.
    destruct (bin_added st st' ca a' la b) as [Hd1 Hb1]; try done.
    1-8: first [by rewrite (frame_eq st2 st' callsite_arr Hf)|by rewrite (frame_eq st2 st' lookup_arr Hf)|by rewrite (frame_eq st2 st' conf Hf)
               |by rewrite (frame_eq st2 st' conf_active_max Hf)|by rewrite (frame_eq st2 st' tags_head Hf)
               |by rewrite (frame_eq st2 st' custom_filter_fn Hf)|by rewrite (frame_eq st2 st' logger_inited Hf)|by rewrite (frame_eq st2 st' callsite_arr_next Hf)].
    { rewrite (frame_eq st2 st' callsite_sections Hf) by done. cbn. by left. }
    { intros s. rewrite (frame_eq st2 st' callsite_sections Hf) by done. cbn. by rewrite elem_of_cons. }
    constructor; try done.
    + split; [done|]. intros u Hu He. rewrite (frame_eq st2 st' (fun x => enabled x u) Hf) in He by done.
      eapply (new_section_routed st1); [by apply (conf_same st), base_conf|done|exact He|by apply Hr| |exact Hch].
      intros p Hp _ Hl. apply bin_section_sites in Hp as (i & -> & Hi').
      destruct (da_used _ _ _ Hd i Hl) as [_ Hbin]. replace (i / 16) with b in Hbin by zlia. rewrite Eb in Hbin. by destruct Hbin.
    + rewrite (frame_eq st2 st' conf Hf), (frame_eq st2 st' conf_active_max Hf), (frame_eq st2 st' tags_head Hf) by done. done.
    + by rewrite (frame_eq st2 st' callsite_arr_next Hf).
Qed.

Lemma index_callsite_range st env idx st' p ca :
  callsite_arr st = Some ca -> arr_wf ca -> autogrow_elements ca <> 0 -> idx < 2 ^ 31 ->
  index_callsite st env idx = Some (st', 0, p) -> 0 <= idx < 65536.
Proof.
  intros Ea Hwf Hau Hi. unfold index_callsite. rewrite Ea. destruct (qb_array_index _ _ _ _) as [[[oa rc] q]|] eqn:E; cbn [mbind option_bind]; [|done].
  destruct (foldl _ _ _); cbn [mbind option_bind]; [|done]. intros [= _ -> _]. apply index_inv in E as (a' & _ & Hr & _); done.
Qed.

(** A call site that was just made: its filters are not applied yet. *)
Record made (st : log_state) (p : cs_ptr) : Prop := {
  mk_base : log_base st;
  mk_site : p ∈ sites st;
  mk_used : 0 < lineno (cs_at st p);
  mk_clear : targets (cs_at st p) = 0;
  mk_routed : forall u q, 0 <= u < 32 -> enabled st u = true -> q <> p -> q ∈ sites st -> 0 < lineno (cs_at st q) ->
     Z.testbit (targets (cs_at st q)) u = selected st u (cs_at st q);
}.

Lemma new_cs_made st env mid fn file fmt prio line tg st' p ca la :
  log_inv st -> dcs_arrays st ca la -> 0 < line ->
  _log_dcs_new_cs st env mid fn file fmt prio line tg = Some (st', p) ->
  made st' p /\ exists ca', dcs_arrays st' ca' la /\ p = Dynamic (callsite_arr_next st) /\ is_Some (zget (bins ca') (callsite_arr_next st / 16)) /\
    callsite_arr_next st' = callsite_arr_next st + 1 /\ lineno (cs_at st' p) = line /\
    priority (cs_at st' p) = prio /\ filename (cs_at st' p) = file /\ format (cs_at st' p) = fmt /\ message_id (cs_at st' p) = mid /\
    forall q, q <> p -> cs_at st' q = cs_at st q.
Proof.
  intros Hinv Hd Hline. unfold _log_dcs_new_cs. set (idx := callsite_arr_next st). set (st0 := set_callsite_arr_next st _).
  pose proof (da_next _ _ _ Hd) as Hn. fold idx in Hn. rewrite i32_small by lia.
  destruct (index_callsite st0 env idx) as [[[st1 rc] q]|] eqn:Ei; cbn [mbind option_bind]; [|done].
  destruct (Z.eqb_spec rc 0) as [->|]; [|done]. cbn [negb].
  assert (Hr : 0 <= idx < 65536) by (eapply (index_callsite_range st0); [apply Hd|apply Hd|apply Hd|lia|exact Ei]).
  assert (Hinv0 : log_inv st0 /\ dcs_arrays st0 ca la).
  { destruct Hinv as [[[] Hadd Htag Hc _] Hrt]. unfold st0. rewrite u32_small by lia.
    assert (Hd0 : dcs_arrays (set_callsite_arr_next st (idx + 1)) ca la).
    { destruct Hd. constructor; try done; cbn [callsite_arr_next set_callsite_arr_next]; [lia| |].
      - intros i Hi. apply da_fresh0. fold idx. lia.
      - intros l q' Hl Hq. destruct (da_lists0 l q' Hl Hq) as (i & -> & Hi & Hs & Hln). exists i. split_and!; try done; fold idx in Hi; lia. }
    split; [|done]. split; [|done]. constructor; [constructor|..]; try done. eauto. }
  destruct Hinv0 as [Hinv0 Hd0]. destruct (index_callsite_ok st0 env idx st1 q ca la Hinv0 Hd0) as (_ & -> & ca' & []); [lia|exact Ei|].
  cbn [mbind option_bind]. change MAX_ELEMENTS_PER_BIN with 16. replace (idx / 16 * 16 + idx mod 16) with idx by zlia.
  set (cs := Build_qb_log_callsite _ _ _ _ _ _ _ _). intros [= <- <-].
  assert (Hzero : cs_at st1 (Dynamic idx) = zero_callsite) by (rewrite si_sites0; change (cs_at st0) with (cs_at st); apply Hd; done).
  set (st2 := set_cs st1 (Dynamic idx) cs).
  assert (Hnext : callsite_arr_next st2 = idx + 1) by (change (callsite_arr_next st2) with (callsite_arr_next st1); rewrite si_next0; cbn; apply u32_small; lia).
  assert (Hat : forall q, cs_at st2 q = if decide (Dynamic idx = q) then cs else cs_at st1 q) by (intros q; apply cs_at_set).
  assert (Hd2 : dcs_arrays st2 ca' la).
  { pose proof si_dcs0 as []. constructor; try done.
    - intros i Hi. rewrite Hat, decide_False; [by apply da_fresh0|]. intros [= <-]. lia.
    - intros i. rewrite Hat. case_decide as E; [injection E as <-|]; [|by apply da_used0]. by split; [lia|].
    - intros l q Hl Hq. destruct (da_lists0 l q Hl Hq) as (i & -> & Hi & Hs & Hln). exists i. rewrite Hat. split_and!; try done; [lia| |].
      + change (callsite_arr_next st2) with (callsite_arr_next st1). lia.
      + rewrite decide_False; [done|]. intros [= <-].
        destruct (da_lists _ _ _ Hd l (Dynamic idx) Hl Hq) as (j & [= <-] & Hj & _). fold idx in Hj. lia. }
  assert (Hsite : Dynamic idx ∈ sites st2).
  { apply sites_elem. exists (bin_section (idx / 16)). split.
    - change (callsite_sections st2) with (callsite_sections st1). apply si_dcs0; [zlia|done].
    - apply bin_section_sites. exists idx. split; [done|]. zlia. }
  split; [constructor|].
  - destruct si_inv0 as [[[] Hadd Htag Hc _] _]. constructor; [constructor|..]; try done. eauto.
  - done.
  - rewrite Hat, decide_True by done. done.
  - rewrite Hat, decide_True by done. cbn. by rewrite Hzero.
  - intros u q Hu He Hne Hq. rewrite Hat, decide_False by congruence. intros Hl. by apply (proj2 si_inv0 u).
  - exists ca'. split_and!; try done; [rewrite Hat, decide_True by done; done..|].
    intros q Hq. rewrite Hat, decide_False by congruence. by rewrite si_sites0.
Qed.

(** ** Looking call sites up *)

Definition site_is (file fmt : list Z) (prio line : Z) (cs : qb_log_callsite) : Prop :=
  filename cs = file /\ format cs = fmt /\ priority cs = prio /\ lineno cs = line.

#[export] Instance site_is_dec file fmt prio line cs : Decision (site_is file fmt prio line cs).
Proof. unfold site_is. apply _. Defined.

Lemma find_site_spec st file fmt prio line csl :
  Forall (fun p => lineno (cs_at st p) = line) csl ->
  find_site st file fmt prio line csl = Some (snd <$> list_find (fun p => site_is file fmt prio line (cs_at st p)) csl).
Proof.
  induction 1 as [|p csl Hp _ IH]; [done|]. cbn [find_site list_find]. rewrite Hp, Z.eqb_refl. cbn [negb].
  destruct (Z.eqb_spec prio (priority (cs_at st p))) as [E1|E1]; cbn [andb];
    [|rewrite decide_False by (unfold site_is; intuition congruence); rewrite IH; by destruct (list_find _ csl) as [[]|]].
  destruct (bool_decide_reflect (fmt = format (cs_at st p))) as [E2|E2]; cbn [andb];
    [|rewrite decide_False by (unfold site_is; intuition congruence); rewrite IH; by destruct (list_find _ csl) as [[]|]].
  destruct (bool_decide_reflect (file = filename (cs_at st p))) as [E3|E3];
    [|rewrite decide_False by (unfold site_is; intuition congruence); rewrite IH; by destruct (list_find _ csl) as [[]|]].
  rewrite decide_True by done. done.
Qed.

(** The first call site of the line that fits is [p]. *)
Record looked_up (st : log_state) (file fmt : list Z) (prio line : Z) (p : cs_ptr) : Prop := {
  lu_line : 0 <= line < 65536;
  lu_find : exists la, lookup_arr st = Some la /\ arr_wf la /\ is_Some (zget (bins la) (line / 16)) /\ line < max_elements la /\
     Forall (fun q => lineno (cs_at st q) = line) (content la line) /\
     snd <$> list_find (fun q => site_is file fmt prio line (cs_at st q)) (content la line) = Some p;
}.

Lemma elem_write_auto {E} `{Inhabited E} (a : qb_array E) e x :
  autogrow_elements (elem_write a e x) = autogrow_elements a /\ max_elements (elem_write a e x) = max_elements a.
Proof. unfold elem_write. by destruct (zget _ _). Qed.

Lemma elem_write_bins {E} `{Inhabited E} (a : qb_array E) b i x :
  0 <= b -> is_Some (zget (bins a) b) -> is_Some (zget (bins (elem_write a (b, i) x)) b).
Proof.
  intros Hb [l Hl]. unfold elem_write. cbn [fst]. rewrite Hl.
  change (bins (set_bins _ (Some ?k) _)) with k. rewrite zget_zset_eq; [eauto|]. split; [done|].
  destruct (Z_lt_le_dec b (zlen (bins a))); [done|]. by rewrite zget_past in Hl.
Qed.

Lemma set_lookup_arrays st ca la la' :
  dcs_arrays st ca la -> arr_wf la' -> autogrow_elements la' <> 0 ->
  (forall line p, 0 <= line -> p ∈ content la' line -> p ∈ content la line \/
     exists i, p = Dynamic i /\ 0 <= i < callsite_arr_next st /\ is_Some (zget (bins ca) (i / 16)) /\ lineno (cs_at st p) = line) ->
  dcs_arrays (set_lookup_arr st (Some la')) ca la'.
Proof.
  intros [] Hwf Hau Hl. constructor; try done. intros line p Hline Hp. destruct (Hl line p Hline Hp) as [H|H]; [|exact H].
  by apply da_lists0.
Qed.

Lemma lookup_base st ca la : log_base st -> dcs_arrays (set_lookup_arr st (Some la)) ca la -> log_base (set_lookup_arr st (Some la)).
Proof. intros [[] Hadd Htag Hc _] Hd. constructor; [constructor|..]; try done. eauto. Qed.

Lemma lookup_made st ca la p : made st p -> dcs_arrays (set_lookup_arr st (Some la)) ca la -> made (set_lookup_arr st (Some la)) p.
Proof. intros [] Hd. constructor; try done. by eapply lookup_base. Qed.

Lemma list_find_app {A} (P : A -> Prop) `{!forall x, Decision (P x)} l k :
  snd <$> list_find P (l ++ k) = match snd <$> list_find P l with Some x => Some x | None => snd <$> list_find P k end.
Proof.
  induction l as [|x l IH]; [done|]. cbn [app list_find]. destruct (decide (P x)); [done|].
  destruct (list_find P (l ++ k)) as [[]|], (list_find P l) as [[]|]; exact IH.
Qed.

(** A call site that is looked up is in a section. *)
Lemma listed_site st ca la line p : dcs_arrays st ca la -> 0 <= line -> p ∈ content la line -> p ∈ sites st.
Proof.
  intros Hd Hl Hp. destruct (da_lists _ _ _ Hd line p Hl Hp) as (i & -> & Hi & Hs & _). apply sites_elem.
  exists (bin_section (i / 16)). split; [apply Hd; [zlia|done]|]. apply bin_section_sites. exists i. split; [done|]. zlia.
Qed.

Lemma listed_lineno st ca la line : dcs_arrays st ca la -> 0 <= line -> Forall (fun p => lineno (cs_at st p) = line) (content la line).
Proof.
  intros Hd Hl. apply Forall_forall. intros p Hp%list_elem_of_In. by destruct (da_lists _ _ _ Hd line p Hl Hp) as (i & _ & _ & _ & Hn).
Qed.

Lemma matches_head_true mid file fmt prio line cs :
  lineno cs = line -> matches_head mid file fmt prio cs = Some true -> site_is file fmt prio line cs.
Proof.
  intros Hl. unfold matches_head. destruct (Z.eqb_spec prio (priority cs)); [|done].
  destruct (match mid with None => _ | Some m => _ end) as [same|]; cbn [mbind option_bind]; [|done]. intros [= H].
  apply andb_true_iff in H as [H Hf]. apply andb_true_iff in H as [_ Hn].
  apply bool_decide_eq_true in Hf. apply bool_decide_eq_true in Hn. by split_and!.
Qed.

Lemma matches_head_none file fmt prio line cs :
  lineno cs = line -> matches_head None file fmt prio cs = Some (bool_decide (site_is file fmt prio line cs)).
Proof.
  intros Hl. unfold matches_head, site_is. destruct (Z.eqb_spec prio (priority cs)); cbn [mbind option_bind andb].
  - f_equal. rewrite <- bool_decide_and. apply bool_decide_ext. intuition congruence.
  - f_equal. symmetry. apply bool_decide_eq_false_2. intuition congruence.
Qed.

(** A new call site behind the others of its line. *)
Lemma append_site st env mid fn file fmt prio line tg st' p ca la :
  log_inv st -> dcs_arrays st ca la -> 0 < line < 65536 -> is_Some (zget (bins la) (line / 16)) -> line < max_elements la ->
  list_find (fun q => site_is file fmt prio line (cs_at st q)) (content la line) = None ->
  _log_dcs_new_cs st env mid fn file fmt prio line tg = Some (st', p) ->
  let st2 := set_lookup st' (line / 16, line mod 16) (content la line ++ [p]) in
  made st2 p /\ looked_up st2 file fmt prio line p.
Proof.
  intros Hinv Hd Hline Hbin Hmax Hnone E st2. pose proof (new_cs_made st env mid fn file fmt prio line tg st' p ca la Hinv Hd ltac:(lia) E)
    as (Hmade & ca' & Hd' & Hp & Hbp & Hnext & Hln & Hpr & Hfi & Hfm & _ & Hsame).
  unfold st2, set_lookup in *. rewrite (da_la _ _ _ Hd'). cbn [fmap option_fmap option_map]. set (la2 := elem_write la _ _).
  assert (Hcont : forall i, 0 <= i -> arr_wf la2 /\ content la2 i = if decide (i = line) then content la line ++ [p] else content la i).
  { intros i Hi. apply content_elem_write; [apply Hd|done|lia|done]. }
  assert (Hwf : arr_wf la2) by apply (Hcont 0 ltac:(lia)).
  destruct (elem_write_auto la (line / 16, line mod 16) (content la line ++ [p])) as [Hau Hmx]. fold la2 in Hau, Hmx.
  assert (Hpi : exists i, p = Dynamic i /\ 0 <= i < callsite_arr_next st' /\ is_Some (zget (bins ca') (i / 16)) /\ lineno (cs_at st' p) = line).
  { exists (callsite_arr_next st). pose proof (da_next _ _ _ Hd). split_and!; try done; lia. }
  assert (Hd2 : dcs_arrays (set_lookup_arr st' (Some la2)) ca' la2).
  { apply (set_lookup_arrays st' ca' la); [done|done|rewrite Hau; apply Hd|]. intros l q Hl. rewrite (proj2 (Hcont l Hl)).
    case_decide; [subst l|by left]. rewrite elem_of_app, list_elem_of_singleton. intros [Hq|Hq]; [by left|]. right. rewrite Hq. done. }
  split; [by eapply lookup_made|]. constructor; [lia|]. exists la2. split_and!; try done.
  - apply elem_write_bins; [zlia|done].
  - lia.
  - by apply (listed_lineno (set_lookup_arr st' (Some la2)) ca'); [|lia].
  - rewrite (proj2 (Hcont line ltac:(lia))), decide_True, list_find_app by done.
    change (cs_at (set_lookup_arr st' (Some la2))) with (cs_at st').
    assert (Hold : list_find (fun q => site_is file fmt prio line (cs_at st' q)) (content la line) = None).
    { apply list_find_None, Forall_forall. intros q Hq. rewrite list_find_None, Forall_forall in Hnone. rewrite Hsame; [by apply Hnone|].
      apply list_elem_of_In in Hq. destruct (da_lists _ _ _ Hd line q ltac:(lia) Hq) as (i & -> & Hi & _). rewrite Hp. intros [= Hi']. lia. }
    rewrite Hold. cbn [fmap option_fmap option_map list_find]. rewrite decide_True; [done|]. by split_and!.
Qed.

Lemma dcs_get_ok st env mid fn file fmt prio line tg st' ocs new :
  log_inv st -> 0 < line < 2 ^ 32 ->
  qb_log_dcs_get st env mid fn file fmt prio line tg = Some (st', ocs, new) ->
  (new = false -> log_inv st') /\ (new = true -> ocs <> None) /\
  forall p, ocs = Some p -> (new = true -> made st' p) /\ looked_up st' (default [] file) (default [] fmt) prio line p.
Proof.
  intros Hinv Hline. pose proof Hinv as [Hb Hr]. destruct (lb_dcs _ Hb) as (ca & la & Hd). unfold qb_log_dcs_get. rewrite (da_la _ _ _ Hd).
  destruct (qb_array_index _ _ _ _) as [[[oa rc] e]|] eqn:Ei; cbn [mbind option_bind]; [|done].
  destruct (Z.eqb_spec rc 0) as [->|]; [|done]. cbn [negb].
  pose proof (i32_range line) as H32.
  apply index_inv in Ei as (la1 & -> & Hi & -> & Hx & _ & Hmax); [|apply Hd|apply Hd|lia]. change QB_ARRAY_MAX_ELEMENTS with 65536 in Hi.
  assert (Eline : i32 line = line) by (revert Hi; unfold i32; zlia). rewrite Eline in *. cbn [mbind option_bind lookup_arr set_lookup_arr].
  set (st1 := set_lookup_arr st (Some la1)).
  assert (Hd1 : dcs_arrays st1 ca la1).
  { apply (set_lookup_arrays st ca la); [done|apply Hx|rewrite (ix_auto _ _ _ Hx); apply Hd|].
    intros l q Hl Hq. left. by rewrite (ix_content _ _ _ Hx) in Hq. }
  assert (Hinv1 : log_inv st1) by (split; [by eapply lookup_base|exact Hr]).
  pose proof (ix_alloc _ _ _ Hx) as Hal. change (elem_read la1 (line / 16, line mod 16)) with (content la1 line).
  assert (Hll : Forall (fun q => lineno (cs_at st1 q) = line) (content la1 line)) by (eapply listed_lineno; [exact Hd1|lia]).
  assert (Hlook : forall p, snd <$> list_find (fun q => site_is (default [] file) (default [] fmt) prio line (cs_at st1 q)) (content la1 line) = Some p ->
     looked_up st1 (default [] file) (default [] fmt) prio line p).
  { intros p Hp. constructor; [lia|]. exists la1. split_and!; try done. apply Hx. }
  destruct (content la1 line) as [|head csl] eqn:Ec.
  - destruct (_log_dcs_new_cs _ _ _ _ _ _ _ _ _) as [[st2 p]|] eqn:En; cbn [mbind option_bind]; [|done]. intros [= <- <- <-].
    split; [done|]. split; [done|]. intros p' [= <-].
    destruct (append_site st1 env mid (default [] fn) (default [] file) (default [] fmt) prio line tg st2 p ca la1) as [Hm Hl]; try done;
      [lia|by rewrite Ec|]. rewrite Ec in Hm, Hl. by split.
  - destruct (matches_head _ _ _ _ _) as [[]|] eqn:Em; cbn [mbind option_bind]; [| |done].
    + intros [= <- <- <-]. split; [done|]. split; [done|]. intros p' [= <-]. split; [done|]. apply Hlook. cbn [list_find].
      rewrite decide_True; [done|]. eapply matches_head_true; [|exact Em]. by apply list.Forall_cons in Hll as [? _].
    + rewrite find_site_spec by done. cbn [mbind option_bind].
      destruct (snd <$> list_find _ (head :: csl)) as [p|] eqn:Ef.
      * intros [= <- <- <-]. split; [done|]. split; [done|]. intros p' [= <-]. split; [done|]. by apply Hlook.
      * destruct (negb (calloc_csl env)); [intros [= <- <- <-]; done|].
        destruct (_log_dcs_new_cs _ _ _ _ _ _ _ _ _) as [[st2 p]|] eqn:En; cbn [mbind option_bind]; [|done]. intros [= <- <- <-].
        split; [done|]. split; [done|]. intros p' [= <-].
        destruct (append_site st1 env mid (default [] fn) (default [] file) (default [] fmt) prio line tg st2 p ca la1) as [Hm Hl]; try done;
          [lia|rewrite Ec; by destruct (list_find _ (head :: csl))|]. rewrite Ec in Hm, Hl. by split.
Qed.

(** ** Getting a call site *)

Lemma set_cs_changed p F st : 0 < lineno (cs_at st p) -> sites_changed [p] F st (set_cs st p (F (cs_at st p))).
Proof.
  intros Hl. split; [done|]. intros q. rewrite cs_at_set. destruct (decide (p = q)) as [<-|Hne].
  - rewrite decide_True; [done|]. split; [set_solver|done].
  - rewrite decide_False; [done|]. rewrite list_elem_of_singleton. by intros [-> _].
Qed.

Lemma site_filters_changed p st :
  0 < lineno (cs_at st p) ->
  sites_changed [p] (all_filters st (slots st)) st
    (foldl (fun st t => if enabled st t
       then foldl (fun st flt => set_cs st p (apply_filter (pos (target st t)) flt (cs_at st p))) st (filter_head (target st t))
       else st) st (slots st)).
Proof.
  intros Hl. apply (sites_fold _ (fun t cs => if enabled st t then target_filters (pos (target st t)) (filter_head (target st t)) cs else cs)).
  { intros t cs. destruct (enabled st t); [apply target_filters_keeps|done]. }
  intros t st' Hf Hl'. rewrite (frame_eq st st' (fun x => enabled x t) Hf) by done. destruct (enabled st t).
  - rewrite (frame_eq st st' (fun x => target x t) Hf) by done.
    apply (sites_fold _ (fun flt => apply_filter (pos (target st t)) flt)); [intros flt; apply apply_filter_keeps|].
    intros flt st'' Hf' Hl''. rewrite (frame_eq st st'' (fun x => target x t) (frame_trans _ _ _ Hf Hf')) by done.
    apply set_cs_changed. by rewrite Hl'', Hl'.
  - split; [done|]. intros q. by destruct (decide _).
Qed.

Lemma site_tags_changed p st fs :
  0 < lineno (cs_at st p) ->
  sites_changed [p] (tag_filters fs) st (foldl (fun st flt => set_cs st p (apply_filter (new_value flt) flt (cs_at st p))) st fs).
Proof.
  intros Hl. apply (sites_fold _ (fun flt => apply_filter (new_value flt) flt)); [intros flt; apply apply_filter_keeps|].
  intros flt st' _ Hl'. apply set_cs_changed. by rewrite Hl'.
Qed.

(** The bits of a new call site are set from the filters. *)
Lemma made_inv st p F st' :
  made st p -> keeps_site F -> sites_changed [p] F st st' ->
  (forall u cs, 0 <= u < 32 -> enabled st u = true -> Z.testbit (targets (F cs)) u = Z.testbit (targets cs) u || selected st u cs) -> log_inv st'.
Proof.
  intros [Hb Hp Hl Hz Hr] HF Hch Hbits. pose proof Hch as [Hf H]. split; [by eapply changed_base|].
  intros u Hu He q Hq Hlq. rewrite (frame_eq st st' (fun x => enabled x u) Hf) in He by done.
  unfold sites in Hq. rewrite (frame_eq st st' callsite_sections Hf) in Hq by done. change (q ∈ sites st) in Hq.
  rewrite (sites_changed_lineno _ _ _ _ q HF Hch) in Hlq. unfold selected. rewrite (frame_eq st st' (fun x => target x u) Hf) by done.
  rewrite H. destruct (decide (q ∈ [p] /\ _)) as [[Hin _]|Hout].
  - apply list_elem_of_singleton in Hin as ->. rewrite (existsb_same _ _ _ (HF (cs_at st p))), Hbits, Hz, Z.bits_0 by done. done.
  - apply Hr; try done. intros ->. apply Hout. split; [set_solver|done].
Qed.

Lemma looked_up_same st st' file fmt prio line p :
  frame st st' -> (forall q, same_site (cs_at st q) (cs_at st' q)) -> looked_up st file fmt prio line p -> looked_up st' file fmt prio line p.
Proof.
  intros Hf Hs [Hl (la & E & Hwf & Hb & Hm & Hln & Hfind)]. constructor; [done|]. exists la.
  rewrite (frame_eq st st' lookup_arr Hf) by done. split_and!; try done.
  - eapply Forall_impl; [|exact Hln]. intros q Hq. cbn in *. rewrite <- Hq. apply Hs.
  - rewrite <- Hfind. f_equal. apply list_find_ext. intros q. destruct (Hs q) as (_ & H1 & H2 & H3 & H4).
    unfold site_is. by rewrite H1, H2, H3, H4.
Qed.

Lemma changed_same ps F st st' : keeps_site F -> sites_changed ps F st st' -> forall q, same_site (cs_at st q) (cs_at st' q).
Proof. intros HF [_ H] q. rewrite H. destruct (decide _); [apply HF|done]. Qed.

Lemma set_tags_keeps tg : keeps_site (fun cs => set_tags cs tg).
Proof. done. Qed.

Lemma callsite_get2_ok st env mid fn file fmt prio line tg st' ocs :
  log_inv st -> logger_inited st = true -> 0 < line < 2 ^ 32 ->
  qb_log_callsite_get2 st env mid fn file fmt prio line tg = Some (st', ocs) ->
  log_inv st' /\ forall p, ocs = Some p -> looked_up st' (default [] file) (default [] fmt) prio line p.
Proof.
  intros Hinv Hin Hline. unfold qb_log_callsite_get2. rewrite Hin. cbn [negb].
  destruct (qb_log_dcs_get _ _ _ _ _ _ _ _ _) as [[[st1 ocs1] new]|] eqn:E; cbn [mbind option_bind]; [|done].
  apply dcs_get_ok in E as (Hold & Hsome & Hp); [|done|done]. destruct ocs1 as [p|].
  2: { intros [= <- <-]. split; [|done]. apply Hold. destruct new; [by destruct Hsome|done]. }
  destruct (Hp p eq_refl) as [Hmade Hlook]. clear Hp. destruct new.
  - specialize (Hmade eq_refl). pose proof (mk_used _ _ Hmade) as Hl. set (st2 := foldl _ st1 (slots st1)).
    pose proof (site_filters_changed p st1 Hl : sites_changed [p] _ st1 st2) as H2.
    pose proof (all_filters_keeps st1 (slots st1)) as HK.
    assert (Hl2 : 0 < lineno (cs_at st2 p)) by by rewrite (sites_changed_lineno _ _ _ _ p HK H2).
    set (G := if tg =? 0 then tag_filters (tags_head st2) else fun cs => set_tags cs tg).
    assert (HG : keeps_site G) by (unfold G; destruct (tg =? 0); [apply tag_filters_keeps|apply set_tags_keeps]).
    assert (HGt : forall cs, targets (G cs) = targets cs).
    { intros cs. unfold G. destruct (tg =? 0); [|done]. apply tag_filters_ok. rewrite (frame_eq st1 st2 tags_head (proj1 H2)) by done. apply (mk_base _ _ Hmade). }
    set (st3 := if tg =? 0 then _ else _).
    assert (H3 : sites_changed [p] G st2 st3) by (unfold G, st3; destruct (tg =? 0); [by apply site_tags_changed|by apply (set_cs_changed p (fun cs => set_tags cs tg))]).
    pose proof (sites_compose [p] _ G st1 st2 st3 HK H2 H3) as H13.
    assert (HF : keeps_site (fun cs => G (all_filters st1 (slots st1) cs))) by (intros cs; etrans; [apply HK|apply HG]).
    assert (Hinv3 : log_inv st3).
    { eapply made_inv; [exact Hmade|exact HF|exact H13|]. intros u cs Hu He. cbn beta. rewrite HGt.
      destruct (base_conf _ (mk_base _ _ Hmade)) as (Hs & Hadd & _).
      rewrite all_filters_bits; [|intros t Ht; apply slots_elem in Ht; [destruct Hs; lia|done]|by apply so_pos|done|done].
      rewrite bool_decide_eq_true_2 by by apply enabled_in_slots. by rewrite He. }
    unfold run_custom. rewrite (lb_custom _ (proj1 Hinv3)). intros [= <- <-]. split; [done|]. intros p' [= <-].
    eapply looked_up_same; [apply H13|exact (changed_same _ _ _ _ HF H13)|done].
  - specialize (Hold eq_refl). set (st2 := if _ && _ then _ else _).
    assert (H2 : sites_changed [p] (fun cs => cs) st1 st1) by (split; [done|]; intros q; by destruct (decide _)).
    assert (Hl : 0 < lineno (cs_at st1 p)).
    { destruct Hlook as [_ (la & _ & _ & _ & _ & Hln & Hf)]. destruct (list_find _ _) as [[k q]|] eqn:Ef; [|done]. injection Hf as ->.
      apply list_find_Some in Ef as (Hk & (_ & _ & _ & ->) & _). lia. }
    assert (Hch : exists F, keeps_site F /\ (forall cs, targets (F cs) = targets cs) /\ sites_changed [p] F st1 st2).
    { unfold st2. destruct (_ && _); [|by exists (fun cs => cs)]. exists (fun cs => set_tags cs tg). split_and!; [done|done|].
      by apply (set_cs_changed p (fun cs => set_tags cs tg)). }
    destruct Hch as (F & HF & HFt & Hch).
    assert (Hinv2 : log_inv st2).
    { eapply (tags_inv st1 st2 (tags_head st1)); [done|apply (lb_tag _ (proj1 Hold))|exact HF|exact HFt|]. by destruct st1. }
    unfold run_custom. rewrite (lb_custom _ (proj1 Hinv2)). intros [= <- <-]. split; [done|]. intros p' [= <-].
    eapply looked_up_same; [apply Hch|exact (changed_same _ _ _ _ HF Hch)|done].
Qed.
End Route.
