(* ===== verification/LogTheorems.v ===== *)
(** * Logging: theorems

    Every history of logging operations keeps the invariant; a message goes to
    exactly the enabled targets with a filter that matches; a call site is found
    again. *)
From S2P Require Import Prelude Memory Cstring Serialize Array ArrayTheorems LogFormat LogState Log LogSites LogInv.

Section Route.
Context {Hregex : Regex} {Hprintf : Printf}.

(** ** Operations that do not touch filters *)

Record same_routing (st st' : log_state) : Prop := {
  sr_len : length (conf st') = length (conf st);
  sr_target : forall t, 0 <= t < 32 -> pos (target st' t) = pos (target st t) /\ state (target st' t) = state (target st t) /\
     filter_head (target st' t) = filter_head (target st t);
  sr_rest : conf_active_max st' = conf_active_max st /\ tags_head st' = tags_head st /\ custom_filter_fn st' = custom_filter_fn st /\
     callsite_sections st' = callsite_sections st /\ callsites st' = callsites st /\ lookup_arr st' = lookup_arr st /\
     callsite_arr st' = callsite_arr st /\ callsite_arr_next st' = callsite_arr_next st /\ logger_inited st' = logger_inited st;
}.

#[export] Instance same_routing_refl : Reflexive same_routing.
Proof. by intros st. Qed.
#[export] Instance same_routing_trans : Transitive same_routing.
Proof.
  intros a b c [L1 T1 (?&?&?&?&?&?&?&?&?)] [L2 T2 (?&?&?&?&?&?&?&?&?)]. constructor; [congruence| |split_and!; congruence].
  intros t Ht. destruct (T1 t Ht) as (?&?&?), (T2 t Ht) as (?&?&?). split_and!; congruence.
Qed.

Lemma routed_same st st' t : same_routing st st' -> 0 <= t < 32 -> routed_at st t -> routed_at st' t.
Proof.
  intros [_ Ht (_&_&_&Hs&Hc&_)] Hr H p Hp Hl. unfold sites in Hp. rewrite Hs in Hp. unfold cs_at, selected in *. rewrite Hc in *.
  destruct (Ht t Hr) as (_ & _ & ->). by apply H.
Qed.

Lemma enabled_same st st' t : same_routing st st' -> 0 <= t < 32 -> enabled st' t = enabled st t.
Proof. intros [_ Ht _] Hr. unfold enabled. by destruct (Ht t Hr) as (_ & -> & _). Qed.

Lemma routing_inv st st' : log_inv st -> same_routing st st' -> log_inv st'.
Proof.
  intros [[[] Hadd Htag Hc (ca & la & Hd)] Hr] Hs. pose proof Hs as [Hl Ht (Em&Etg&Ecf&Es&Ecs&Ela&Eca&En&Ein)]. split.
  - constructor; [constructor|..]; rewrite ?Em, ?Etg, ?Ecf, ?Ein; try done.
    + by rewrite Hl.
    + intros t Hr0. destruct (Ht t Hr0) as (-> & _). by apply so_pos.
    + intros t Hr0. rewrite (enabled_same st) by done. by apply so_active.
    + intros t Hr0. destruct (Ht t Hr0) as (_ & _ & ->). by apply Hadd.
    + exists ca, la. by apply (dcs_arrays_conf st).
  - intros t Hr0 He. rewrite (enabled_same st) in He by done. apply (routed_same st); [done|done|by apply Hr].
Qed.

Lemma set_target_routing st t tg :
  log_inv st -> 0 <= t < 32 -> pos tg = pos (target st t) -> state tg = state (target st t) -> filter_head tg = filter_head (target st t) ->
  same_routing st (set_target st t tg).
Proof.
  intros [[[] _ _ _ _] _] Ht Hp Hs Hf. constructor; [|intros u Hu; rewrite target_set by done; by case_decide; [subst u|]|done].
  cbn. pose proof (zlen_zset (conf st) t tg) as Hz. unfold zlen in Hz. lia.
Qed.

Lemma in_logger_routing st b : same_routing st (set_in_logger st b).
Proof. done. Qed.

Lemma user_data_set_routing st t x : log_inv st -> same_routing st (fst (qb_log_target_user_data_set st t x)).
Proof.
  intros Hinv. unfold qb_log_target_user_data_set. destruct (negb (logger_inited st)); [done|]. destruct (bad_target st t) eqn:Eb; [done|].
  apply bad_target_range in Eb. by apply set_target_routing.
Qed.

Lemma file_reload_routing st env file t : log_inv st -> 0 <= t < 32 -> same_routing st (fst (fst (_do_file_reload st env file t))).
Proof.
  intros Hinv Ht. unfold _do_file_reload. destruct (fopen_result env) as [e|f]; [done|]. cbn [fst]. destruct file as [file|].
  - assert (Hs : same_routing st (set_target st t (set_t_filename (target st t) (take (Z.to_nat (PATH_MAX - 1)) file)))) by by apply set_target_routing.
    etrans; [exact Hs|]. apply user_data_set_routing. by eapply routing_inv.
  - by apply user_data_set_routing.
Qed.

Lemma call_close_routing st t : log_inv st -> 0 <= t < 32 -> same_routing st (fst (call_close st t)).
Proof.
  intros Hinv Ht. unfold call_close. destruct (close (target st t)); try done; cbn [is_null].
  - unfold _file_close. destruct (qb_log_target_user_data_get st t) as [|f]; [done|]. destruct (f =? 0); [done|].
    pose proof (user_data_set_routing st t 0 Hinv) as H. destruct (qb_log_target_user_data_set st t 0) as [st1 rc]. cbn [fst] in *.
    etrans; [exact H|]. apply in_logger_routing.
  - cbn [fst]. etrans; [|apply in_logger_routing]. by apply set_target_routing.
Qed.

Lemma call_reload_routing st env t : log_inv st -> 0 <= t < 32 -> same_routing st (fst (call_reload st env t)).
Proof.
  intros Hinv Ht. unfold call_reload. destruct (reload (target st t)); try done; cbn [is_null].
  - pose proof (file_reload_routing st env None t Hinv Ht) as H. destruct (_do_file_reload st env None t) as [[st1 rc] evs]. cbn [fst] in *.
    etrans; [exact H|]. apply in_logger_routing.
  - destruct (instance (target st t) =? 0); [done|]. cbn [fst]. etrans; [|apply in_logger_routing]. by apply set_target_routing.
Qed.

Lemma state_set_sites st t s : sites (_log_target_state_set st t s) = sites st.
Proof. destruct (state_set_conf st t s) as (m & -> & _). done. Qed.

Lemma format_set_routing st env t fmt st' :
  log_inv st -> 0 <= t < 32 -> qb_log_format_set st env t fmt = Some st' -> same_routing st st'.
Proof.
  intros Hinv Ht. unfold qb_log_format_set. destruct (match fmt with Some f => _ | None => _ end) as [f|]; cbn [mbind option_bind]; [|done].
  destruct (negb (strdup_text env)); [done|]. intros [= <-]. by apply set_target_routing.
Qed.

(** ** Targets *)

Lemma target_free_inv st env t st' : log_inv st -> 0 <= t < 32 -> qb_log_target_free st env t = Some st' -> log_inv st'.
Proof.
  intros Hinv Ht. unfold qb_log_target_free, qb_log_filter_ctl.
  pose proof (filter_ctl2_inv st env (pos (target st t)) QB_LOG_FILTER_CLEAR_ALL QB_LOG_FILTER_FILE None LOG_EMERG 0 Hinv ltac:(done)) as H.
  destruct (qb_log_filter_ctl2 _ _ _ _ _ _ _ _) as [st1 rc]. cbn [fst] in H.
  set (st2 := set_target st1 t _). assert (H2 : log_inv st2) by (eapply routing_inv; [exact H|]; by apply set_target_routing).
  assert (Hp : pos (target st2 t) = t) by by apply H2. rewrite Hp. unfold qb_log_format_set.
  destruct (negb (strdup_text env)); cbn [mbind option_bind]; [done|]. intros [= <-]. apply state_set_inv; [|done|done].
  eapply routing_inv; [exact H2|]. by apply set_target_routing.
Qed.

Lemma alloc_inv st st' r :
  log_inv st -> qb_log_target_alloc st = (st', r) -> log_inv st' /\ match r with inr t => 0 <= t < 32 | inl _ => True end.
Proof.
  intros Hinv. unfold qb_log_target_alloc. destruct (list_find _ _) as [[k i]|] eqn:E; [|by intros [= <- <-]]. intros [= <- <-].
  apply list_find_Some in E as (Hi & _ & _). apply list_elem_of_lookup_2, elem_of_seqZ in Hi.
  change QB_LOG_TARGET_START with 0 in Hi. change QB_LOG_TARGET_MAX with 32 in Hi. split; [|lia]. apply state_set_inv; [done|lia|done].
Qed.

Lemma custom_open_inv st f1 f2 f3 u : log_inv st -> log_inv (fst (qb_log_custom_open st f1 f2 f3 u)).
Proof.
  intros Hinv. unfold qb_log_custom_open. destruct (qb_log_target_alloc st) as [st1 r] eqn:E. apply alloc_inv in E as [H1 Hr]; [|done].
  destruct r as [e|t]; [done|]. cbn [fst]. eapply routing_inv; [exact H1|]. by apply set_target_routing.
Qed.

Lemma file_open_inv st env file st' rc : log_inv st -> qb_log_file_open st env file = Some (st', rc) -> log_inv st'.
Proof.
  intros Hinv. unfold qb_log_file_open. destruct (qb_log_target_alloc st) as [st1 r] eqn:E. apply alloc_inv in E as [H1 Hr]; [|done].
  destruct r as [e|t]; [by intros [= <- _]|]. destruct (fopen_result env) as [e|f].
  - destruct (qb_log_target_free _ _ _) as [st2|] eqn:Ef; cbn [mbind option_bind]; [|done]. intros [= <- _].
    by eapply target_free_inv.
  - intros [= <- _]. eapply routing_inv; [exact H1|]. by apply set_target_routing.
Qed.

Lemma custom_close_inv st env t st' evs : log_inv st -> qb_log_custom_close st env t = Some (st', evs) -> log_inv st'.
Proof.
  intros Hinv. unfold qb_log_custom_close. destruct (negb (logger_inited st)); [by intros [= <- _]|].
  destruct (bad_target st t) eqn:Eb; [by intros [= <- _]|]. apply bad_target_range in Eb.
  pose proof (call_close_routing st t Hinv Eb) as H. destruct (call_close st t) as [st1 evs1]. cbn [fst] in H.
  destruct (qb_log_target_free _ _ _) as [st2|] eqn:Ef; cbn [mbind option_bind]; [|done]. intros [= <- _].
  eapply target_free_inv; [by eapply routing_inv|done|exact Ef].
Qed.

Lemma enable_inv st env t : log_inv st -> 0 <= t < 32 -> routed_at st t -> log_inv (fst (fst (_log_target_enable st env t))).
Proof.
  intros Hinv Ht Hr. unfold _log_target_enable. destruct (enabled st t); [done|].
  set (r := if _ || _ then _ else _). assert (H : same_routing st (fst (fst r))).
  { unfold r. destruct (_ || _); [unfold qb_log_stderr_open; cbn [fst]; destruct (_ =? QB_LOG_STDERR); by apply set_target_routing|].
    destruct (_ =? QB_LOG_SYSLOG); [by apply set_target_routing|]. destruct (_ =? QB_LOG_BLACKBOX); [|done].
    unfold qb_log_blackbox_open. destruct (_ <? 1024); [done|]. destruct (ring_result env); by apply set_target_routing. }
  destruct r as [[st1 rc] evs]. cbn [fst] in *. assert (H1 : log_inv st1) by by eapply routing_inv.
  destruct (rc =? 0); [|done]. apply state_set_inv; [done|done|]. intros _. by eapply routed_same.
Qed.

Lemma disable_inv st t : log_inv st -> 0 <= t < 32 -> log_inv (fst (_log_target_disable st t)).
Proof.
  intros Hinv Ht. unfold _log_target_disable. destruct (negb (enabled st t)); [done|].
  assert (H1 : log_inv (_log_target_state_set st t QB_LOG_STATE_DISABLED)) by by apply state_set_inv.
  eapply routing_inv; [exact H1|]. by apply call_close_routing.
Qed.

Lemma ctl2_inv st env journal t c i s :
  log_inv st -> (c = QB_LOG_CONF_ENABLED -> i <> 0 -> routed_at st t) -> log_inv (fst (fst (qb_log_ctl2 st env journal t c i s))).
Proof.
  intros Hinv Hg. unfold qb_log_ctl2. destruct (negb (logger_inited st)); [done|]. destruct (bad_target st t) eqn:Eb; [done|].
  apply bad_target_range in Eb. set (r := match c with QB_LOG_CONF_ENABLED => _ | _ => _ end).
  assert (H : log_inv (fst (fst (fst r)))).
  { assert (Hset : forall tg, pos tg = pos (target st t) -> state tg = state (target st t) -> filter_head tg = filter_head (target st t) ->
       log_inv (set_target st t tg)) by (intros; eapply routing_inv; [exact Hinv|by apply set_target_routing]).
    unfold r. destruct c; try done; try by apply Hset.
    - destruct (Z.eqb_spec i 0) as [->|Hi]; cbn [negb].
      + pose proof (disable_inv st t Hinv Eb) as H. by destruct (_log_target_disable st t).
      + pose proof (enable_inv st env t Hinv Eb (Hg eq_refl Hi)) as H. by destruct (_log_target_enable st env t) as [[]].
    - destruct (t =? QB_LOG_BLACKBOX); [|done]. destruct (i <=? 0); [done|]. by apply Hset.
    - destruct (QB_LOG_ABSOLUTE_MAX_LEN <? i); [done|]. by apply Hset.
    - destruct journal; [|done]. destruct (t =? QB_LOG_SYSLOG); [|done]. by apply Hset. }
  destruct r as [[[st1 rc] need] evs]. cbn [fst] in H. destruct ((rc =? 0) && need); [|done].
  pose proof (call_reload_routing st1 env t H Eb) as H2. destruct (call_reload st1 env t) as [st2 evs2]. cbn [fst] in *. by eapply routing_inv.
Qed.

(** ** Starting *)

(** No call site is known, as before the first start and after an end. *)
Record idle (st : log_state) : Prop := {
  id_len : length (conf st) = 32%nat;
  id_max : 0 <= conf_active_max st < 32;
  id_sections : callsite_sections st = [];
  id_tags : tags_head st = [];
  id_custom : custom_filter_fn st = None;
  id_next : 0 <= callsite_arr_next st <= 65536;
  id_sites : forall i, cs_at st (Dynamic i) = zero_callsite;
}.

Lemma log_start_idle : idle log_start.
Proof. constructor; try done. Qed.

Lemma init_target_at env ident fac st t :
  length (conf st) = 32%nat -> 0 <= t < 32 ->
  zget (imap (fun i t => init_target env ident fac (Z.of_nat i) t) (conf st)) t = init_target env ident fac t (zget (conf st) t).
Proof.
  intros Hl Ht. unfold zget. rewrite !list_lookup_total_alt, list_lookup_imap.
  destruct (lookup_lt_is_Some_2 (conf st) (Z.to_nat t)) as [x ->]; [lia|]. cbn. by rewrite Z2Nat.id by lia.
Qed.

Lemma dcs_init_arrays st env st' :
  callsite_sections st = [] -> 0 <= callsite_arr_next st <= 65536 -> (forall i, cs_at st (Dynamic i) = zero_callsite) ->
  lookup_alloc env = alloc_fine -> qb_log_dcs_init st env = Some st' ->
  exists ca la, dcs_arrays st' ca la /\ st' = set_callsite_arr (set_lookup_arr st (Some la)) (Some ca).
Proof.
  intros Hs Hn Hz Hla. unfold qb_log_dcs_init. rewrite Hla. cbn [calloc_ok alloc_fine].
  destruct (qb_array_create_2 16 16 1 true alloc_fine) as [e|la] eqn:El; [by vm_compute in El|].
  destruct (qb_array_create_2 16 48 1 _ (callsite_alloc env)) as [e|ca] eqn:Ec; [by intros|].
  cbn [qb_array_new_bin_cb_set]. set (ca' := Build_qb_array _ _ _ _ _ _ _). cbn [Z.eqb]. intros [= <-].
  assert (Hok : calloc_ok (callsite_alloc env) = true).
  { revert Ec. unfold qb_array_create_2. cbn. by destruct (calloc_ok (callsite_alloc env)). }
  rewrite Hok in Ec. assert (Hcg : autogrow_elements ca = 1).
  { revert Ec. unfold qb_array_create_2, _grow_bin_array. cbn. destruct (realloc_ok (callsite_alloc env)); cbn; [|done]. by intros [= <-]. }
  assert (Hlg : autogrow_elements la = 1) by (injection El as <-; done).
  apply create_ok in El as (Hlw & _ & _ & Hlc); [|lia]. apply create_ok in Ec as (Hcw & _ & Hcb & _); [|lia].
  assert (Hcw' : arr_wf ca') by (destruct Hcw; by constructor).
  exists ca', la. split; [|done]. constructor; try done.
  - change (autogrow_elements ca <> 0). by rewrite Hcg.
  - by rewrite Hlg.
  - intros b Hb. change (bins ca') with (bins ca). rewrite Hcb by done. by intros [].
  - cbn. rewrite Hs. by intros s Hin%not_elem_of_nil.
  - intros i Hi. apply Hz.
  - intros i. change (cs_at _ (Dynamic i)) with (cs_at st (Dynamic i)). rewrite Hz. cbn. lia.
  - intros line p Hl. rewrite Hlc by done. by intros Hin%not_elem_of_nil.
Qed.

Lemma log_init_inv st env ident fac prio st' evs :
  idle st -> lookup_alloc env = alloc_fine -> qb_log_init st env ident fac prio = Some (st', evs) ->
  log_inv st'.
Proof.
  intros [] Hla. unfold qb_log_init. set (st0 := set_conf st _).
  assert (Hlen : length (conf st0) = 32%nat) by (cbn; by rewrite length_imap).
  assert (Htg : forall t, 0 <= t < 32 -> target st0 t = init_target env ident fac t (target st t)) by (intros t Ht; by apply init_target_at).
  destruct (qb_log_dcs_init st0 env) as [st1|] eqn:Ed; cbn [mbind option_bind]; [|done].
  apply dcs_init_arrays in Ed as (ca & la & Hd & ->); [|done|done|done|done].
  set (st2 := set_logger_inited _ true).
  assert (H2 : log_inv st2).
  { split.
    - constructor; [constructor|..]; try done.
      + intros t Ht. change (target st2 t) with (target st0 t). by rewrite Htg.
      + intros t Ht. unfold enabled. change (target st2 t) with (target st0 t). rewrite Htg by done.
        cbn. intros He%bool_decide_eq_true. by destruct (t <? _) in He.
      + intros t Ht. change (target st2 t) with (target st0 t). rewrite Htg by done. constructor.
      + cbn. by rewrite id_tags0.
      + exists ca, la. destruct Hd. by constructor.
    - intros t Ht He p Hp. unfold sites in Hp. cbn in Hp. rewrite id_sections0 in Hp. by apply not_elem_of_nil in Hp. }
  unfold qb_log_syslog_open. set (st3 := set_target st2 _ _).
  assert (H3 : log_inv st3) by (eapply routing_inv; [exact H2|]; by apply set_target_routing).
  assert (Hs3 : sites st3 = []) by (unfold sites; cbn; by rewrite id_sections0).
  assert (H4 : log_inv (_log_target_state_set st3 QB_LOG_SYSLOG QB_LOG_STATE_ENABLED)).
  { apply state_set_inv; [done|done|]. intros _ p Hp. rewrite Hs3 in Hp. by apply not_elem_of_nil in Hp. }
  unfold qb_log_filter_ctl. set (st4 := _log_target_state_set _ _ _) in *.
  pose proof (filter_ctl2_inv st4 env QB_LOG_SYSLOG QB_LOG_FILTER_ADD QB_LOG_FILTER_FILE (Some (bytes "*")) LOG_EMERG prio H4 ltac:(done)) as H5.
  destruct (qb_log_filter_ctl2 _ _ _ _ _ _ _ _) as [st5 rc]. by intros [= <- _].
Qed.

(** ** Histories *)

Inductive log_op :=
  | O_filter (t : Z) (c : qb_log_filter_conf) (type : qb_log_filter_type) (text : option (list Z)) (high low : Z)
  | O_register (a b : Z)
  | O_get (mid fn file fmt : option (list Z)) (prio line tg : Z)
  | O_log (cs : option cs_ptr) (ap : list varg)
  | O_ctl (t : Z) (c : qb_log_conf) (arg_i32 : Z) (arg_s : list Z)
  | O_custom_open (log_fn close_fn reload_fn : target_fn) (user_data : Z)
  | O_file_open (file : list Z)
  | O_close (t : Z)
  | O_file_reopen (t : Z) (file : option (list Z))
  | O_user_data (t user_data : Z)
  | O_format_set (t : Z) (fmt : option (list Z))
  | O_log_function (fn : bool).

Definition run_op (st : log_state) (env : log_env) (journal : bool) (op : log_op) : option log_state :=
  match op with
  | O_filter t c type text high low => Some (fst (qb_log_filter_ctl2 st env t c type text high low))
  | O_register a b => Some (fst (qb_log_callsites_register st env (Some (Static a)) (Some (Static b))))
  | O_get mid fn file fmt prio line tg => fst <$> qb_log_callsite_get2 st env mid fn file fmt prio line tg
  | O_log cs ap => fst <$> qb_log_real_va_ st env cs ap
  | O_ctl t c i s => Some (fst (fst (qb_log_ctl2 st env journal t c i s)))
  | O_custom_open f1 f2 f3 u => Some (fst (qb_log_custom_open st f1 f2 f3 u))
  | O_file_open file => fst <$> qb_log_file_open st env file
  | O_close t => fst <$> qb_log_custom_close st env t
  | O_file_reopen t file => Some (fst (fst (qb_log_file_reopen st env t file)))
  | O_format_set t fmt => qb_log_format_set st env t fmt
  | O_user_data t u => Some (fst (qb_log_target_user_data_set st t u))
  | O_log_function fn => Some (qb_util_set_log_function st fn)
  end.

(** No filter is removed on its own; call sites that are registered have no bits
    yet; a target is enabled while its bits agree with its filters, since enabling
    does not apply them; line numbers are positive; no custom filter function is
    set, as it may change the bits as it likes. *)
Definition op_ok (st : log_state) (op : log_op) : Prop :=
  match op with
  | O_filter _ c _ _ _ _ => c <> QB_LOG_FILTER_REMOVE
  | O_register a b => forall p, p ∈ section_sites (Static a, Static b) -> p ∉ sites st -> 0 < lineno (cs_at st p) -> targets (cs_at st p) = 0
  | O_get _ _ _ _ _ line _ => 0 < line < 2 ^ 32
  | O_ctl t c i _ => c = QB_LOG_CONF_ENABLED -> i <> 0 -> routed_at st t
  | O_file_reopen t _ | O_format_set t _ => 0 <= t < 32
  | _ => True
  end.

Inductive reached : log_state -> Prop :=
  | reached_init st env ident fac prio st' evs :
      idle st -> lookup_alloc env = alloc_fine -> qb_log_init st env ident fac prio = Some (st', evs) -> reached st'
  | reached_op st env journal op st' :
      reached st -> op_ok st op -> run_op st env journal op = Some st' -> reached st'.

Lemma real_va_routing st env cs ap st' evs : qb_log_real_va_ st env cs ap = Some (st', evs) -> same_routing st st'.
Proof.
  unfold qb_log_real_va_. destruct (in_logger st); [by intros [= <- _]|]. destruct cs as [p|]; [|by intros [= <- _]].
  destruct (_ && _); [by intros [= <- _]|]. destruct (if _ && _ then _ else _) as [[e0 str]|]; cbn [mbind option_bind]; [|done].
  destruct (log_loop _ _ _ _ _ _ _) as [[[e1 s1] ft]|]; cbn [mbind option_bind]; [|done].
  destruct (if ft then _ else _) as [post|]; cbn [mbind option_bind]; [|done]. by intros [= <- _].
Qed.

Lemma run_op_inv st env journal op st' : log_inv st -> op_ok st op -> run_op st env journal op = Some st' -> log_inv st'.
Proof.
  intros Hinv Hok. destruct op; cbn [run_op op_ok] in *.
  - intros [= <-]. by apply filter_ctl2_inv.
  - intros [= <-]. by apply register_inv.
  - destruct (qb_log_callsite_get2 _ _ _ _ _ _ _ _ _) as [[st1 ocs]|] eqn:E; [|done]. intros [= <-]. cbn [fst].
    destruct (logger_inited st) eqn:Ei; [by apply callsite_get2_ok in E as [? _]|].
    unfold qb_log_callsite_get2 in E. rewrite Ei in E. by injection E as <- _.
  - destruct (qb_log_real_va_ _ _ _ _) as [[st1 evs]|] eqn:E; [|done]. intros [= <-]. cbn [fst]. apply real_va_routing in E. by eapply routing_inv.
  - intros [= <-]. by apply ctl2_inv.
  - intros [= <-]. by apply custom_open_inv.
  - destruct (qb_log_file_open _ _ _) as [[st1 rc]|] eqn:E; [|done]. intros [= <-]. by apply file_open_inv in E.
  - destruct (qb_log_custom_close _ _ _) as [[st1 evs]|] eqn:E; [|done]. intros [= <-]. by apply custom_close_inv in E.
  - intros [= <-]. eapply routing_inv; [exact Hinv|]. by apply file_reload_routing.
  - intros [= <-]. eapply routing_inv; [exact Hinv|]. by apply user_data_set_routing.
  - intros E. apply format_set_routing in E; [|done|done]. by eapply routing_inv.
  - intros [= <-]. by eapply routing_inv.
Qed.

Lemma reached_inv st : reached st -> log_inv st.
Proof. induction 1; [by eapply log_init_inv|by eapply run_op_inv]. Qed.

(** ** Delivery *)

(** The targets that are enabled and have a filter that matches, in slot order. *)
Definition receivers (st : log_state) (p : cs_ptr) : list Z :=
  filter (fun t => enabled st t && selected st t (cs_at st p) = true) (seqZ 0 32).

(** What one of them gets at once; threaded ones share one message that is posted. *)
Definition delivered (st : log_state) (p : cs_ptr) (m : list Z) (t : Z) : list log_event :=
  let tg := target st t in
  if negb (threaded tg =? 0) then []
  else if negb (is_null (vlogger tg)) then [E_vlog t (vlogger tg) p]
  else if negb (is_null (logger tg)) then call_logger t (logger tg) p m (extended tg)
  else [].

Definition has_threaded (st : log_state) (ts : list Z) : bool := existsb (fun t => negb (threaded (target st t) =? 0)) ts.

Definition deliveries (st : log_state) (p : cs_ptr) (m : list Z) : list log_event :=
  concat (delivered st p m <$> receivers st p) ++ (if has_threaded st (receivers st p) then [E_post p m] else []).

Lemma log_loop_ok st p maxlen ap m : forall ts str ft,
  (forall t, t ∈ ts -> pos (target st t) = t) -> cs_format maxlen (cs_at st p) ap = Some m ->
  (str = None \/ str = Some m) -> (ft = true -> str = Some m) ->
  let ws := filter (fun t => wanted st (cs_at st p) t = true) ts in
  exists str', log_loop st p maxlen ap ts str ft = Some (concat (delivered st p m <$> ws), str', ft || has_threaded st ws) /\
    (ft || has_threaded st ws = true -> str' = Some m).
Proof.
  induction ts as [|t ts IH]; intros str ft Hpos Hm Hstr Hft; cbn [log_loop].
  { exists str. cbn. rewrite orb_false_r. done. }
  assert (Hp : pos (target st t) = t) by (apply Hpos; set_solver). assert (Hpos' : forall t, t ∈ ts -> pos (target st t) = t) by set_solver.
  cbn zeta. rewrite filter_cons. destruct (wanted st (cs_at st p) t) eqn:Ew; [rewrite decide_True by done|rewrite decide_False by done; by apply IH].
  set (ws := filter _ ts). set (fmt := match str with Some x => Some x | None => _ end).
  assert (Hfmt : fmt = Some m) by (unfold fmt; destruct Hstr as [->| ->]; done).
  rewrite fmap_cons. cbn [concat has_threaded existsb]. unfold delivered at 1. rewrite Hp.
  destruct (threaded (target st t) =? 0) eqn:Et; cbn [negb].
  - destruct (is_null (vlogger (target st t))) eqn:Ev; cbn [negb].
    + destruct (is_null (logger (target st t))) eqn:El; cbn [negb]; [by apply IH|]. rewrite Hfmt. cbn [mbind option_bind].
      destruct (IH (Some m) ft) as (str' & -> & Hs); [done|done|by right|done|]. exists str'. by split.
    + destruct (IH str ft) as (str' & -> & Hs); [done|done|done|done|]. exists str'. by split.
  - assert (Hs1 : (if ft then Some str else m0 ← fmt; Some (Some m0)) = Some (Some m)).
    { destruct ft; [by rewrite Hft|]. by rewrite Hfmt. }
    rewrite Hs1. cbn [mbind option_bind]. destruct (IH (Some m) true) as (str' & -> & Hs); [done|done|by right|done|].
    exists str'. rewrite orb_true_r. by split.
Qed.

Lemma filter_ext_in {A} (P Q : A -> Prop) `{!forall x, Decision (P x), !forall x, Decision (Q x)} (l : list A) :
  (forall x, x ∈ l -> P x <-> Q x) -> filter P l = filter Q l.
Proof.
  induction l as [|x l IH]; intros Hl; [done|]. rewrite !filter_cons. rewrite IH by set_solver.
  destruct (decide (P x)), (decide (Q x)); try done; exfalso; specialize (Hl x ltac:(set_solver)); tauto.
Qed.
Lemma log_filter_none {A} (P : A -> Prop) `{!forall x, Decision (P x)} (l : list A) : (forall x, x ∈ l -> ~ P x) -> filter P l = [].
Proof. induction l as [|x l IH]; intros Hl; [done|]. rewrite filter_cons, decide_False by set_solver. apply IH. set_solver. Qed.

Lemma receivers_wanted st p :
  log_inv st -> p ∈ sites st -> 0 < lineno (cs_at st p) ->
  filter (fun t => wanted st (cs_at st p) t = true) (slots st) = receivers st p.
Proof.
  intros [[Hs _ _ _ _] Hr] Hp Hl. unfold receivers, slots. change QB_LOG_TARGET_START with 0. pose proof (so_max _ Hs) as Hm.
  replace (seqZ 0 32) with (seqZ 0 (conf_active_max st + 1) ++ seqZ (conf_active_max st + 1) (31 - conf_active_max st)).
  2: { replace 32 with (conf_active_max st + 1 + (31 - conf_active_max st)) by lia.
       by rewrite (seqZ_app 0 (conf_active_max st + 1)), Z.add_0_l by lia. }
  rewrite list.filter_app. replace (filter _ (seqZ (conf_active_max st + 1) _)) with (@nil Z).
  2: { symmetry. apply log_filter_none. intros t Ht%elem_of_seqZ. destruct (enabled st t) eqn:He; [|done].
       apply (so_active _ Hs) in He; lia. }
  rewrite app_nil_r. apply filter_ext_in. intros t Ht%elem_of_seqZ. unfold wanted. destruct (enabled st t) eqn:He; [|done].
  cbn [andb]. rewrite bit_is_set_testbit by lia. by rewrite (Hr t ltac:(lia) He).
Qed.

(** ** Main theorems *)

(** C33. As long as filters are only added and cleared, bit [t] of a call site in
    use is set exactly when a filter of target [t] matches the call site, for every
    target that is enabled; the loops over targets visit all of them.  This is after
    every history ([reached]) of opening, closing, configuring and reloading targets,
    adding and clearing filters and tags, registering and getting call sites and
    logging, in which no filter is removed on its own, no custom filter function is
    set, and a target is enabled at a time its bits agree with its filters, as when it
    has none or there are no call sites yet; with the others the code lets bits and
    filters part ([filter_faults]). *)
Theorem filters_route st p t :
  reached st -> p ∈ sites st -> 0 < lineno (cs_at st p) -> 0 <= t < QB_LOG_TARGET_MAX -> enabled st t = true ->
  t ∈ slots st /\ qb_bit_is_set (targets (cs_at st p)) t = existsb (fun flt => flt_matches flt (cs_at st p)) (filter_head (target st t)).
Proof.
  intros H Hp Hl Ht He. destruct (reached_inv st H) as [Hb Hr]. split; [apply enabled_in_slots; [apply Hb|done|done]|].
  rewrite bit_is_set_testbit by done. by apply (Hr t).
Qed.


(** A call site that was got has the file, the format, the priority and the
    line asked for, and the same request finds the same call site again. *)
Theorem callsite_found_again st env fn file fmt prio line tg st1 p env2 fn2 tg2 :
  reached st -> 0 < line < 2 ^ 32 ->
  qb_log_callsite_get st env fn file fmt prio line tg = Some (st1, Some p) ->
  site_is (default [] file) (default [] fmt) prio line (cs_at st1 p) /\
  exists st2, qb_log_callsite_get st1 env2 fn2 file fmt prio line tg2 = Some (st2, Some p).
Proof.
  intros H Hline E. pose proof (reached_inv st H) as Hinv. unfold qb_log_callsite_get in *.
  apply callsite_get2_ok in E as [Hinv1 Hlook]; [|done|apply Hinv|done]. destruct (Hlook p eq_refl) as [Hr (la & Ela & Hwf & Hb & Hmax & Hln & Hf)].
  destruct (list_find _ _) as [[k q]|] eqn:Ef; [|done]. injection Hf as ->. pose proof Ef as Ef0.
  apply list_find_Some in Ef0 as (Hk & Hsite & Hfirst). split; [done|].
  unfold qb_log_callsite_get2. rewrite (so_inited _ (lb_slots _ (proj1 Hinv1))). cbn [negb].
  assert (Ed : exists st2, qb_log_dcs_get st1 env2 None fn2 file fmt prio line tg2 = Some (st2, Some p, false)).
  { unfold qb_log_dcs_get. rewrite Ela. rewrite i32_small by lia. rewrite index_allocated by (done || lia). cbn [mbind option_bind Z.eqb negb lookup_arr set_lookup_arr].
    change (elem_read la (line / 16, line mod 16)) with (content la line). destruct (content la line) as [|h csl] eqn:Ec; [done|].
    set (st2 := set_lookup_arr st1 (Some la)). exists st2. apply list.Forall_cons in Hln as Hh. destruct Hh as [Hh _].
    rewrite matches_head_none with (line := line) by exact Hh. cbn [mbind option_bind]. cbn [list_find] in Ef.
    change (cs_at st2) with (cs_at st1). destruct (bool_decide_reflect (site_is (default [] file) (default [] fmt) prio line (cs_at st1 h))) as [Hs|Hs].
    - rewrite decide_True in Ef by done. by injection Ef as _ <-.
    - rewrite find_site_spec by exact Hln. cbn [list_find mbind option_bind]. change (cs_at st2) with (cs_at st1).
      rewrite decide_False in Ef |- * by done. destruct (list_find _ csl) as [[k' q']|]; [|done]. cbn in Ef |- *. by injection Ef as _ ->. }
  destruct Ed as (st2 & ->). cbn [mbind option_bind]. eauto.
Qed.

(** C35. A filter with a list of file or function names that commas separate
    matches the call sites of these files or functions whose priority is in the
    range, both ends included. *)
Theorem name_filter_matches cs names rx high low :
  Forall name_ok names -> names <> [] -> names <> [bytes "*"] ->
  let in_range := (high <=? priority cs) && (priority cs <=? low) in
  _cs_matches_filter_ cs QB_LOG_FILTER_FILE (join names) rx high low = in_range && bool_decide (filename cs ∈ names) /\
  _cs_matches_filter_ cs QB_LOG_FILTER_FUNCTION (join names) rx high low = in_range && bool_decide (function cs ∈ names).
Proof.
  intros Hok Hne Hstar in_range. unfold _cs_matches_filter_.
  assert (Hr : (low <? priority cs) || (priority cs <? high) = negb in_range) by (unfold in_range; lia). rewrite Hr.
  destruct in_range; [|done]. cbn [negb andb].
  assert (Hj : join names <> bytes "*").
  { intros Hj. destruct names as [|n [|m names]]; [done|apply Hstar; rewrite <- Hj; cbn [join]; by rewrite app_nil_r|].
    apply list.Forall_cons in Hok as [(Hn & _) _]. assert (Hl : (2 <= length (join (n :: m :: names)))%nat).
    { change (join (n :: m :: names)) with (n ++ 44 :: join (m :: names)). rewrite length_app. destruct n; [done|]. cbn [length]. lia. }
    rewrite Hj in Hl. cbn in Hl. lia. }
  rewrite bool_decide_eq_false_2 by done. split; apply token_loop_join; try done; lia.
Qed.

(** Line numbers from 65536 on are not possible: the program is ended by a
    failed assertion. *)
Theorem large_line_aborts st env fn file fmt prio line tg :
  reached st -> 65536 <= line < 2 ^ 32 -> qb_log_callsite_get st env fn file fmt prio line tg = None.
Proof.
  intros H Hl. destruct (reached_inv st H) as [Hb _]. unfold qb_log_callsite_get, qb_log_callsite_get2.
  rewrite (so_inited _ (lb_slots _ Hb)). cbn [negb]. destruct (lb_dcs _ Hb) as (ca & la & Hd). unfold qb_log_dcs_get. rewrite (da_la _ _ _ Hd).
  destruct (qb_array_index _ _ _ _) as [[[oa rc] e]|] eqn:Ei; cbn [mbind option_bind]; [|done].
  destruct (Z.eqb_spec rc 0) as [->|]; [|done]. exfalso. pose proof (i32_range line) as H32.
  apply index_inv in Ei as (la1 & _ & Hi & _); [|apply Hd|apply Hd|lia]. change QB_ARRAY_MAX_ELEMENTS with 65536 in Hi.
  revert Hi. unfold i32. zlia.
Qed.

(** Closing a target leaves its filters and the bits of all call sites: the
    clearing fails because it is asked for without a text.  The next target that
    gets the slot has them. *)
Theorem closed_target_keeps_filters st env t st' evs :
  reached st -> 0 <= t < QB_LOG_TARGET_MAX -> state (target st t) <> QB_LOG_STATE_UNUSED ->
  qb_log_custom_close st env t = Some (st', evs) ->
  state (target st' t) = QB_LOG_STATE_UNUSED /\ filter_head (target st' t) = filter_head (target st t) /\
  forall p, cs_at st' p = cs_at st p.
Proof.
  intros H Ht Hs. pose proof (reached_inv st H) as Hinv. unfold qb_log_custom_close.
  rewrite (so_inited _ (lb_slots _ (proj1 Hinv))). cbn [negb].
  assert (Eb : bad_target st t = false).
  { unfold bad_target. change QB_LOG_TARGET_MAX with 32 in *. rewrite bool_decide_eq_false_2 by done. lia. }
  rewrite Eb. pose proof (call_close_routing st t Hinv Ht) as Hc. destruct (call_close st t) as [st1 evs1]. cbn [fst] in Hc.
  pose proof (routing_inv _ _ Hinv Hc) as Hinv1. unfold qb_log_target_free, qb_log_filter_ctl, qb_log_filter_ctl2.
  rewrite (so_inited _ (lb_slots _ (proj1 Hinv1))), (so_pos _ (lb_slots _ (proj1 Hinv1)) t Ht). cbn [negb].
  replace (on_target QB_LOG_FILTER_CLEAR_ALL && bad_target st1 t) with false.
  2: { symmetry. cbn [on_target andb]. unfold bad_target in *. by rewrite (proj1 (proj2 (sr_target _ _ Hc t Ht))). }
  set (st2 := set_target st1 t _). assert (H2 : same_routing st1 st2) by by apply set_target_routing.
  assert (Hp2 : pos (target st2 t) = t) by (rewrite (proj1 (sr_target _ _ H2 t Ht)); by apply Hinv1). rewrite Hp2.
  pose proof (routing_inv _ _ Hinv1 H2) as Hinv2.
  destruct (qb_log_format_set st2 env t None) as [st3|] eqn:Ef; cbn [mbind option_bind]; [|done]. intros [= <- _].
  apply format_set_routing in Ef; [|done|done]. pose proof (routing_inv _ _ Hinv2 Ef) as Hinv3.
  assert (H03 : same_routing st st3) by (etrans; [exact Hc|]; etrans; [exact H2|exact Ef]).
  destruct (state_set_conf st3 t QB_LOG_STATE_UNUSED) as (m & -> & _).
  change (target (set_conf_active_max ?x m) t) with (target x t). rewrite target_set by (done || apply Hinv3). rewrite decide_True by done.
  split; [done|]. split; [apply (sr_target _ _ H03 t Ht)|]. intros p. unfold cs_at. cbn. by destruct H03 as [_ _ (_&_&_&_&->&_)].
Qed.
End Route.

(** * Logging: examples

    A program that opens a target of its own, and histories in which filters and
    targets do not agree. *)
Module LogExamples.

(** Patterns are strings to be found, and messages are their formats. *)
#[export] Instance plain_regex : Regex := {| regcomp := fun _ => true; regexec := contains |}.
#[export] Instance plain_printf : Printf := {| vformat := fun f _ => f |}.

Definition fine : log_env :=
  {| calloc_flt := true; strdup_text := true; calloc_regex := true; calloc_sect := true; calloc_csl := true; lookup_alloc := alloc_fine;
     callsite_alloc := alloc_fine; malloc_line := fun _ => true; fopen_result := inr 7; ring_result := inr 9; pid := 42; hostname := None |}.

Definition started : log_state := default log_start (fst <$> qb_log_init log_start fine (bytes "prog") 8 LOG_INFO).

Lemma started_reached : reached started.
Proof.
  eapply (reached_init log_start fine (bytes "prog") 8 LOG_INFO started _ log_start_idle eq_refl). vm_compute. reflexivity.
Qed.

(** Run operations; [None] when one of them is undefined. *)
Definition run (st : log_state) (ops : list log_op) : option log_state :=
  foldl (fun ost op => st ← ost; run_op st fine false op) (Some st) ops.
Definition after (ops : list log_op) : log_state := default log_start (run started ops).

Definition a_c : option (list Z) := Some (bytes "a.c").
Definition hello : log_op := O_get None (Some (bytes "f")) a_c (Some (bytes "hello")) LOG_NOTICE 10 0.
Definition my_target : log_op := O_custom_open (F_user 1) (F_user 2) (F_user 3) 0.
Definition my_filter : log_op := O_filter 4 QB_LOG_FILTER_ADD QB_LOG_FILTER_FILE (Some (bytes "a.c,b.c")) LOG_EMERG LOG_DEBUG.
Definition enable (t : Z) : log_op := O_ctl t QB_LOG_CONF_ENABLED 1 [].

Definition usual : log_state := after [my_target; my_filter; enable 4; hello].

Lemma usual_reached : reached usual.
Proof.
  apply (reached_op (after [my_target; my_filter; enable 4]) fine false hello); [|vm_compute; split; [reflexivity|reflexivity]|vm_compute; reflexivity].
  apply (reached_op (after [my_target; my_filter]) fine false (enable 4)); [|intros _ _ p Hp; by apply not_elem_of_nil in Hp|vm_compute; reflexivity].
  apply (reached_op (after [my_target]) fine false my_filter); [|discriminate|vm_compute; reflexivity].
  apply (reached_op started fine false my_target); [apply started_reached|exact I|vm_compute; reflexivity].
Qed.

Lemma site_known : Dynamic 0 ∈ sites usual.
Proof. apply (bool_decide_unpack _). vm_compute. exact I. Qed.

Lemma filters_route_witness :
  4 ∈ slots usual /\ qb_bit_is_set (targets (cs_at usual (Dynamic 0))) 4 =
    existsb (fun flt => flt_matches flt (cs_at usual (Dynamic 0))) (filter_head (target usual 4)).
Proof.
  apply (filters_route usual (Dynamic 0) 4 usual_reached site_known); [vm_compute; reflexivity|vm_compute; split; [discriminate|reflexivity]|vm_compute; reflexivity].
Defined.


Example both_get_it : deliveries usual (Dynamic 0) (bytes "hello") =
  [E_log 0 F_syslog (Dynamic 0) (bytes "hello"); E_log 4 (F_user 1) (Dynamic 0) (bytes "hello")].
Proof. vm_compute. reflexivity. Qed.

Lemma callsite_found_again_witness :
  exists st, qb_log_callsite_get started fine (Some (bytes "f")) a_c (Some (bytes "hello")) LOG_NOTICE 10 0 = Some (st, Some (Dynamic 0)) /\
    site_is (bytes "a.c") (bytes "hello") LOG_NOTICE 10 (cs_at st (Dynamic 0)) /\
    exists st2, qb_log_callsite_get st fine None a_c (Some (bytes "hello")) LOG_NOTICE 10 0 = Some (st2, Some (Dynamic 0)).
Proof.
  destruct (qb_log_callsite_get started fine (Some (bytes "f")) a_c (Some (bytes "hello")) LOG_NOTICE 10 0) as [[st [p|]]|] eqn:E;
    [|exfalso; vm_compute in E; discriminate..].
  assert (p = Dynamic 0) as -> by (vm_compute in E; congruence). exists st. split; [reflexivity|].
  apply (callsite_found_again started fine (Some (bytes "f")) a_c (Some (bytes "hello")) LOG_NOTICE 10 0 st (Dynamic 0) fine None 0 started_reached);
    [lia|exact E].
Defined.

Lemma name_filter_matches_witness :
  let cs := cs_at usual (Dynamic 0) in
  let in_range := (LOG_EMERG <=? priority cs) && (priority cs <=? LOG_DEBUG) in
  _cs_matches_filter_ cs QB_LOG_FILTER_FILE (join [bytes "b.c"; bytes "a.c"]) None LOG_EMERG LOG_DEBUG =
    in_range && bool_decide (filename cs ∈ [bytes "b.c"; bytes "a.c"]) /\
  _cs_matches_filter_ cs QB_LOG_FILTER_FUNCTION (join [bytes "b.c"; bytes "a.c"]) None LOG_EMERG LOG_DEBUG =
    in_range && bool_decide (function cs ∈ [bytes "b.c"; bytes "a.c"]).
Proof.
  apply (name_filter_matches (cs_at usual (Dynamic 0)) [bytes "b.c"; bytes "a.c"] None LOG_EMERG LOG_DEBUG).
  - repeat (apply list.Forall_cons; split; [split; [discriminate|split; [|vm_compute; lia]]|]); [..|constructor];
      repeat (apply list.Forall_cons; split; [discriminate|]); constructor.
  - discriminate.
  - discriminate.
Defined.

Lemma large_line_aborts_witness : qb_log_callsite_get started fine None a_c None LOG_NOTICE 70000 0 = None.
Proof. apply (large_line_aborts started fine None a_c None LOG_NOTICE 70000 0 started_reached). lia. Defined.

Lemma closed_target_keeps_filters_witness :
  exists st evs, qb_log_custom_close usual fine 4 = Some (st, evs) /\
    state (target st 4) = QB_LOG_STATE_UNUSED /\ filter_head (target st 4) = filter_head (target usual 4) /\
    forall p, cs_at st p = cs_at usual p.
Proof.
  destruct (qb_log_custom_close usual fine 4) as [[st evs]|] eqn:E; [|exfalso; vm_compute in E; discriminate].
  exists st, evs. split; [reflexivity|]. apply (closed_target_keeps_filters usual fine 4 st evs usual_reached).
  - vm_compute. split; [discriminate|reflexivity].
  - vm_compute. discriminate.
  - exact E.
Defined.

(** The targets that the message of the first call site goes to. *)
Definition served (ops : list log_op) : option (list Z) :=
  st ← run started ops;
  '(_, evs) ← qb_log_real_va_ st fine (Some (Dynamic 0)) [];
  Some (concat ((fun e => match e with E_log t _ _ _ => [t] | _ => [] end) <$> (evs : list log_event))).
Definition function_filter : log_op := O_filter 4 QB_LOG_FILTER_ADD QB_LOG_FILTER_FUNCTION (Some (bytes "f")) LOG_EMERG LOG_DEBUG.
Definition regex_filter (c : qb_log_filter_conf) : log_op := O_filter 4 c QB_LOG_FILTER_FILE_REGEX (Some (bytes "a")) LOG_EMERG LOG_DEBUG.

(** Where the bits and the filters part: a target that is enabled after the
    call site was made does not get its messages; removing a filter takes the
    call sites away from the other filters of the target; removing a filter with
    a pattern does not take them away; a new target has the call sites of the
    closed one whose slot it gets; and a message with no call site, as after a
    failed allocation, stops all logging. *)
Theorem filter_faults :
  served [my_target; my_filter; enable 4; hello] = Some [0; 4] /\
  served [my_target; my_filter; hello; enable 4] = Some [0] /\
  served [my_target; my_filter; function_filter; enable 4; hello;
          O_filter 4 QB_LOG_FILTER_REMOVE QB_LOG_FILTER_FILE (Some (bytes "a.c,b.c")) LOG_EMERG LOG_DEBUG] = Some [0] /\
  served [my_target; enable 4; regex_filter QB_LOG_FILTER_ADD; hello; regex_filter QB_LOG_FILTER_REMOVE] = Some [0; 4] /\
  served [my_target; my_filter; enable 4; hello; O_close 4; O_custom_open (F_user 9) F_null F_null 0; enable 4] = Some [0; 4] /\
  served [hello; O_log None []] = Some [].
Proof. vm_compute. repeat split. Qed.

End LogExamples.
