(* ===== verification/LogThread.v ===== *)
(** * The logging thread (lib/log_thread.c)

    Messages for threaded targets are queued and written by a thread.  The
    functions of the file are modelled as the steps between which other threads
    can run: a section under [logt_wthread_lock] is one step, and so are a post
    and a wait of the semaphore [logt_print_finished].  [None] is a use of a lock
    or of a semaphore that was destroyed, or of the first record of an empty
    list. *)
From S2P Require Import Prelude.

(** A message: its call site, its time stamp and its text. *)
Record qb_log_record := { rec_cs : Z; rec_timestamp : Z; rec_buffer : list Z }.

Definition SIZEOF_RECORD : Z := 48.
Definition LOGT_MEMORY_MAX : Z := 512000.

Definition total_size (r : qb_log_record) : Z := SIZEOF_RECORD + (zlen (rec_buffer r) + 1).

(** [logt_wthread_lock]: NULL, a lock, or a pointer to one that was destroyed. *)
Inductive lock_state := L_null | L_live | L_dead.

(** Where the thread is: not there, before [sem_wait], behind it, or ended. *)
Inductive worker := W_none | W_waiting | W_woken | W_exited.

(** Where a caller of [qb_log_thread_stop] is. *)
Inductive stopper := S_idle | S_flagged | S_posted | S_done.

(** The static variables, with [sems] for whether the semaphores are
    initialised; then the places of the threads, with [posting] the callers of
    [qb_log_thread_log_post] that have queued and not posted yet; then a record of
    what happened: the messages accepted and written in order, the number
    refused, and the number reported as lost. *)
Record logt := {
  wthread_active : bool;
  wthread_should_exit : bool;
  wthread_lock : lock_state;
  sems : bool;
  finished_records : list qb_log_record;
  logt_memory_used : Z;
  logt_dropped_messages : Z;
  print_finished : Z;
  sched_param_queued : bool;
  sched_policy : Z;
  sched_priority : Z;
  thread : worker;
  posting : Z;
  stopping : stopper;
  accepted : list qb_log_record;
  written : list qb_log_record;
  refused : Z;
  reported : Z;
}.

(** Before the first use. *)
Definition logt_start : logt :=
  {| wthread_active := false; wthread_should_exit := false; wthread_lock := L_null; sems := false; finished_records := [];
     logt_memory_used := 0; logt_dropped_messages := 0; print_finished := 0; sched_param_queued := false; sched_policy := 0;
     sched_priority := 0; thread := W_none; posting := 0; stopping := S_idle; accepted := []; written := []; refused := 0;
     reported := 0 |}.

Definition set_wthread_active (s : logt) (x : bool) : logt :=
  {| wthread_active := x; wthread_should_exit := wthread_should_exit s; wthread_lock := wthread_lock s; sems := sems s;
     finished_records := finished_records s; logt_memory_used := logt_memory_used s;
     logt_dropped_messages := logt_dropped_messages s; print_finished := print_finished s;
     sched_param_queued := sched_param_queued s; sched_policy := sched_policy s; sched_priority := sched_priority s;
     thread := thread s; posting := posting s; stopping := stopping s; accepted := accepted s; written := written s;
     refused := refused s; reported := reported s |}.
Definition set_wthread_should_exit (s : logt) (x : bool) : logt :=
  {| wthread_active := wthread_active s; wthread_should_exit := x; wthread_lock := wthread_lock s; sems := sems s;
     finished_records := finished_records s; logt_memory_used := logt_memory_used s;
     logt_dropped_messages := logt_dropped_messages s; print_finished := print_finished s;
     sched_param_queued := sched_param_queued s; sched_policy := sched_policy s; sched_priority := sched_priority s;
     thread := thread s; posting := posting s; stopping := stopping s; accepted := accepted s; written := written s;
     refused := refused s; reported := reported s |}.
Definition set_wthread_lock (s : logt) (x : lock_state) : logt :=
  {| wthread_active := wthread_active s; wthread_should_exit := wthread_should_exit s; wthread_lock := x; sems := sems s;
     finished_records := finished_records s; logt_memory_used := logt_memory_used s;
     logt_dropped_messages := logt_dropped_messages s; print_finished := print_finished s;
     sched_param_queued := sched_param_queued s; sched_policy := sched_policy s; sched_priority := sched_priority s;
     thread := thread s; posting := posting s; stopping := stopping s; accepted := accepted s; written := written s;
     refused := refused s; reported := reported s |}.
Definition set_sems (s : logt) (x : bool) : logt :=
  {| wthread_active := wthread_active s; wthread_should_exit := wthread_should_exit s; wthread_lock := wthread_lock s;
     sems := x; finished_records := finished_records s; logt_memory_used := logt_memory_used s;
     logt_dropped_messages := logt_dropped_messages s; print_finished := print_finished s;
     sched_param_queued := sched_param_queued s; sched_policy := sched_policy s; sched_priority := sched_priority s;
     thread := thread s; posting := posting s; stopping := stopping s; accepted := accepted s; written := written s;
     refused := refused s; reported := reported s |}.
Definition set_finished_records (s : logt) (x : list qb_log_record) : logt :=
  {| wthread_active := wthread_active s; wthread_should_exit := wthread_should_exit s; wthread_lock := wthread_lock s;
     sems := sems s; finished_records := x; logt_memory_used := logt_memory_used s;
     logt_dropped_messages := logt_dropped_messages s; print_finished := print_finished s;
     sched_param_queued := sched_param_queued s; sched_policy := sched_policy s; sched_priority := sched_priority s;
     thread := thread s; posting := posting s; stopping := stopping s; accepted := accepted s; written := written s;
     refused := refused s; reported := reported s |}.
Definition set_logt_memory_used (s : logt) (x : Z) : logt :=
  {| wthread_active := wthread_active s; wthread_should_exit := wthread_should_exit s; wthread_lock := wthread_lock s;
     sems := sems s; finished_records := finished_records s; logt_memory_used := x;
     logt_dropped_messages := logt_dropped_messages s; print_finished := print_finished s;
     sched_param_queued := sched_param_queued s; sched_policy := sched_policy s; sched_priority := sched_priority s;
     thread := thread s; posting := posting s; stopping := stopping s; accepted := accepted s; written := written s;
     refused := refused s; reported := reported s |}.
Definition set_logt_dropped_messages (s : logt) (x : Z) : logt :=
  {| wthread_active := wthread_active s; wthread_should_exit := wthread_should_exit s; wthread_lock := wthread_lock s;
     sems := sems s; finished_records := finished_records s; logt_memory_used := logt_memory_used s;
     logt_dropped_messages := x; print_finished := print_finished s; sched_param_queued := sched_param_queued s;
     sched_policy := sched_policy s; sched_priority := sched_priority s; thread := thread s; posting := posting s;
     stopping := stopping s; accepted := accepted s; written := written s; refused := refused s;
     reported := reported s |}.
Definition set_print_finished (s : logt) (x : Z) : logt :=
  {| wthread_active := wthread_active s; wthread_should_exit := wthread_should_exit s; wthread_lock := wthread_lock s;
     sems := sems s; finished_records := finished_records s; logt_memory_used := logt_memory_used s;
     logt_dropped_messages := logt_dropped_messages s; print_finished := x; sched_param_queued := sched_param_queued s;
     sched_policy := sched_policy s; sched_priority := sched_priority s; thread := thread s; posting := posting s;
     stopping := stopping s; accepted := accepted s; written := written s; refused := refused s;
     reported := reported s |}.
Definition set_sched_param_queued (s : logt) (x : bool) : logt :=
  {| wthread_active := wthread_active s; wthread_should_exit := wthread_should_exit s; wthread_lock := wthread_lock s;
     sems := sems s; finished_records := finished_records s; logt_memory_used := logt_memory_used s;
     logt_dropped_messages := logt_dropped_messages s; print_finished := print_finished s; sched_param_queued := x;
     sched_policy := sched_policy s; sched_priority := sched_priority s; thread := thread s; posting := posting s;
     stopping := stopping s; accepted := accepted s; written := written s; refused := refused s;
     reported := reported s |}.
Definition set_sched_policy (s : logt) (x : Z) : logt :=
  {| wthread_active := wthread_active s; wthread_should_exit := wthread_should_exit s; wthread_lock := wthread_lock s;
     sems := sems s; finished_records := finished_records s; logt_memory_used := logt_memory_used s;
     logt_dropped_messages := logt_dropped_messages s; print_finished := print_finished s;
     sched_param_queued := sched_param_queued s; sched_policy := x; sched_priority := sched_priority s;
     thread := thread s; posting := posting s; stopping := stopping s; accepted := accepted s; written := written s;
     refused := refused s; reported := reported s |}.
Definition set_sched_priority (s : logt) (x : Z) : logt :=
  {| wthread_active := wthread_active s; wthread_should_exit := wthread_should_exit s; wthread_lock := wthread_lock s;
     sems := sems s; finished_records := finished_records s; logt_memory_used := logt_memory_used s;
     logt_dropped_messages := logt_dropped_messages s; print_finished := print_finished s;
     sched_param_queued := sched_param_queued s; sched_policy := sched_policy s; sched_priority := x; thread := thread s;
     posting := posting s; stopping := stopping s; accepted := accepted s; written := written s; refused := refused s;
     reported := reported s |}.
Definition set_thread (s : logt) (x : worker) : logt :=
  {| wthread_active := wthread_active s; wthread_should_exit := wthread_should_exit s; wthread_lock := wthread_lock s;
     sems := sems s; finished_records := finished_records s; logt_memory_used := logt_memory_used s;
     logt_dropped_messages := logt_dropped_messages s; print_finished := print_finished s;
     sched_param_queued := sched_param_queued s; sched_policy := sched_policy s; sched_priority := sched_priority s;
     thread := x; posting := posting s; stopping := stopping s; accepted := accepted s; written := written s;
     refused := refused s; reported := reported s |}.
Definition set_posting (s : logt) (x : Z) : logt :=
  {| wthread_active := wthread_active s; wthread_should_exit := wthread_should_exit s; wthread_lock := wthread_lock s;
     sems := sems s; finished_records := finished_records s; logt_memory_used := logt_memory_used s;
     logt_dropped_messages := logt_dropped_messages s; print_finished := print_finished s;
     sched_param_queued := sched_param_queued s; sched_policy := sched_policy s; sched_priority := sched_priority s;
     thread := thread s; posting := x; stopping := stopping s; accepted := accepted s; written := written s;
     refused := refused s; reported := reported s |}.
Definition set_stopping (s : logt) (x : stopper) : logt :=
  {| wthread_active := wthread_active s; wthread_should_exit := wthread_should_exit s; wthread_lock := wthread_lock s;
     sems := sems s; finished_records := finished_records s; logt_memory_used := logt_memory_used s;
     logt_dropped_messages := logt_dropped_messages s; print_finished := print_finished s;
     sched_param_queued := sched_param_queued s; sched_policy := sched_policy s; sched_priority := sched_priority s;
     thread := thread s; posting := posting s; stopping := x; accepted := accepted s; written := written s;
     refused := refused s; reported := reported s |}.
Definition set_accepted (s : logt) (x : list qb_log_record) : logt :=
  {| wthread_active := wthread_active s; wthread_should_exit := wthread_should_exit s; wthread_lock := wthread_lock s;
     sems := sems s; finished_records := finished_records s; logt_memory_used := logt_memory_used s;
     logt_dropped_messages := logt_dropped_messages s; print_finished := print_finished s;
     sched_param_queued := sched_param_queued s; sched_policy := sched_policy s; sched_priority := sched_priority s;
     thread := thread s; posting := posting s; stopping := stopping s; accepted := x; written := written s;
     refused := refused s; reported := reported s |}.
Definition set_written (s : logt) (x : list qb_log_record) : logt :=
  {| wthread_active := wthread_active s; wthread_should_exit := wthread_should_exit s; wthread_lock := wthread_lock s;
     sems := sems s; finished_records := finished_records s; logt_memory_used := logt_memory_used s;
     logt_dropped_messages := logt_dropped_messages s; print_finished := print_finished s;
     sched_param_queued := sched_param_queued s; sched_policy := sched_policy s; sched_priority := sched_priority s;
     thread := thread s; posting := posting s; stopping := stopping s; accepted := accepted s; written := x;
     refused := refused s; reported := reported s |}.
Definition set_refused (s : logt) (x : Z) : logt :=
  {| wthread_active := wthread_active s; wthread_should_exit := wthread_should_exit s; wthread_lock := wthread_lock s;
     sems := sems s; finished_records := finished_records s; logt_memory_used := logt_memory_used s;
     logt_dropped_messages := logt_dropped_messages s; print_finished := print_finished s;
     sched_param_queued := sched_param_queued s; sched_policy := sched_policy s; sched_priority := sched_priority s;
     thread := thread s; posting := posting s; stopping := stopping s; accepted := accepted s; written := written s;
     refused := x; reported := reported s |}.
Definition set_reported (s : logt) (x : Z) : logt :=
  {| wthread_active := wthread_active s; wthread_should_exit := wthread_should_exit s; wthread_lock := wthread_lock s;
     sems := sems s; finished_records := finished_records s; logt_memory_used := logt_memory_used s;
     logt_dropped_messages := logt_dropped_messages s; print_finished := print_finished s;
     sched_param_queued := sched_param_queued s; sched_policy := sched_policy s; sched_priority := sched_priority s;
     thread := thread s; posting := posting s; stopping := stopping s; accepted := accepted s; written := written s;
     refused := refused s; reported := x |}.

(** ** Starting *)

Definition SCHED_OTHER : Z := 0.
Definition SCHED_BATCH : Z := 3.
Definition SCHED_IDLE : Z := 5.

Section System.
(** The result of [pthread_setschedparam] on a policy and a priority. *)
Context (setschedparam : Z -> Z -> Z).

Definition qb_log_thread_priority_set (s : logt) (policy priority : Z) : logt * Z :=
  let s := set_sched_policy s policy in
  let plain := (policy =? SCHED_OTHER) || (policy =? SCHED_IDLE) || (policy =? SCHED_BATCH) in
  let s := set_sched_priority s (if plain then 0 else priority) in
  if negb (wthread_active s) then (set_sched_param_queued s true, 0)
  else
    let res := setschedparam policy (sched_priority s) in
    (s, if negb (res =? 0) then - res else res).

(** What [qb_thread_lock_create] leaves in [errno] when it fails, and the result
    of [pthread_create]. *)
Record start_env := { lock_errno : option Z; create_result : Z }.

(** When the policy cannot be set the thread is told to end and is joined: it
    finds the semaphore at zero. *)
Definition qb_log_thread_start (s : logt) (env : start_env) : logt * Z :=
  if wthread_active s then (s, 0)
  else
    let s := set_print_finished (set_sems (set_wthread_active s true) true) 0 in
    match lock_errno env with
    | Some e => (set_wthread_lock s L_null, if negb (e =? 0) then - e else -1)
    | None =>
      let s := set_wthread_lock s L_live in
      if negb (create_result env =? 0) then
        (set_wthread_lock (set_wthread_active s false) L_dead, - create_result env)
      else
        let s := set_thread s W_waiting in
        if sched_param_queued s then
          let '(s, res) := qb_log_thread_priority_set s (sched_policy s) (sched_priority s) in
          if negb (res =? 0) then
            let s := set_thread (set_wthread_should_exit s true) W_exited in
            (set_sems (set_wthread_lock (set_wthread_active s false) L_null) false, res)
          else (set_sched_param_queued s false, 0)
        else (s, 0)
    end.

End System.

(** ** Queueing a message *)

(** [qb_log_thread_log_post] up to the end of its section under the lock; the
    booleans are the results of its two allocations. *)
Definition post_queue (s : logt) (rec_ok buffer_ok : bool) (r : qb_log_record) : option logt :=
  if negb rec_ok || negb buffer_ok then Some s
  else
    match wthread_lock s with
    | L_live =>
      let s := set_logt_memory_used s (logt_memory_used s + total_size r) in
      if LOGT_MEMORY_MAX <? logt_memory_used s then
        let s := set_logt_memory_used s (logt_memory_used s - total_size r) in
        Some (set_refused (set_logt_dropped_messages s (logt_dropped_messages s + 1)) (refused s + 1))
      else
        let s := set_finished_records s (finished_records s ++ [r]) in
        Some (set_accepted (set_posting s (posting s + 1)) (accepted s ++ [r]))
    | _ => None
    end.

(** Its [sem_post]. *)
Definition post_sem (s : logt) : option logt :=
  if sems s then Some (set_posting (set_print_finished s (print_finished s + 1)) (posting s - 1)) else None.

(** ** The thread *)

Definition worker_wait (s : logt) : option logt :=
  if sems s then Some (set_thread (set_print_finished s (print_finished s - 1)) W_woken) else None.

(** Behind [sem_wait]: end, or write the first record. *)
Definition take_record (s : logt) : option logt :=
  match finished_records s with
  | [] => None
  | r :: rs =>
    let s := set_logt_memory_used (set_finished_records s rs) (logt_memory_used s - zlen (rec_buffer r) - SIZEOF_RECORD - 1) in
    Some (set_written s (written s ++ [r]))
  end.

Definition worker_run (s : logt) : option logt :=
  match wthread_lock s with
  | L_live =>
    if wthread_should_exit s && (print_finished s =? 0) then Some (set_thread s W_exited)
    else
      s ← take_record s;
      let s := set_reported s (reported s + logt_dropped_messages s) in
      Some (set_thread (set_logt_dropped_messages s 0) W_waiting)
  | _ => None
  end.

(** ** Stopping *)

(** The guard of [qb_log_thread_stop]. *)
Definition stop_returns (s : logt) : bool :=
  match wthread_active s, wthread_lock s with false, L_null => true | _, _ => false end.

(** Its loop when no thread is active: one round for each token. *)
Fixpoint stop_drain (tokens : nat) (s : logt) : option logt :=
  match tokens with
  | O => Some s
  | S tokens =>
    match wthread_lock s with
    | L_live => s ← take_record (set_print_finished s (print_finished s - 1)); stop_drain tokens s
    | _ => None
    end
  end.

(** Its end: the lock and the semaphores are destroyed; [wthread_active] and the
    pointer to the lock are left. *)
Definition stop_destroy (s : logt) : option logt :=
  match wthread_lock s with
  | L_live => Some (set_stopping (set_sems (set_wthread_lock s L_dead) false) S_done)
  | _ => None
  end.

Definition stop_inactive (s : logt) : option logt :=
  if sems s then s ← stop_drain (Z.to_nat (print_finished s)) s; stop_destroy s else None.

(** When the thread is active: the flag, the post, and the end after the thread
    was joined. *)
Definition stop_flag (s : logt) : option logt :=
  match wthread_lock s with
  | L_live => Some (set_stopping (set_wthread_should_exit s true) S_flagged)
  | _ => None
  end.

Definition stop_sem (s : logt) : option logt :=
  if sems s then Some (set_stopping (set_print_finished s (print_finished s + 1)) S_posted) else None.

(** ** Steps *)

(** One step of a thread that is where the step says. *)
Inductive logt_step : logt -> logt -> Prop :=
  | step_queue s a b r s' : post_queue s a b r = Some s' -> logt_step s s'
  | step_post s s' : 0 < posting s -> post_sem s = Some s' -> logt_step s s'
  | step_wait s s' : thread s = W_waiting -> 0 < print_finished s -> worker_wait s = Some s' -> logt_step s s'
  | step_run s s' : thread s = W_woken -> worker_run s = Some s' -> logt_step s s'
  | step_flag s s' : stopping s = S_idle -> stop_returns s = false -> wthread_active s = true -> stop_flag s = Some s' -> logt_step s s'
  | step_stop_post s s' : stopping s = S_flagged -> stop_sem s = Some s' -> logt_step s s'
  | step_destroy s s' : stopping s = S_posted -> thread s = W_exited -> stop_destroy s = Some s' -> logt_step s s'.

(** From a first start that succeeds; [setschedparam] is only called when a
    policy was asked for before. *)
Definition logt_reached (s : logt) : Prop :=
  exists s0, qb_log_thread_start (fun _ _ => 0) logt_start {| lock_errno := None; create_result := 0 |} = (s0, 0) /\ rtc logt_step s0 s.
