(* ===== verification/LogThreadTheorems.v ===== *)
(** * The logging thread: theorems

    The invariant of the queue under every interleaving of posters, the thread and
    a stop; progress of the thread; and what is lost when it is stopped or
    restarted. *)
From stdpp Require Import relations.
From S2P Require Import Prelude LogThread.

(** ** Invariant *)

Definition queued_size (l : list qb_log_record) : Z := foldr (fun r n => total_size r + n) 0 l.

Definition if_woken (s : logt) : Z := match thread s with W_woken => 1 | _ => 0 end.
Definition if_stop_posted (s : logt) : Z := match stopping s with S_posted | S_done => 1 | _ => 0 end.

(** Tokens of the semaphore, in it or on their way, match the records of the
    queue and the stop request. *)
Record logt_inv (s : logt) : Prop := {
  inv_active : wthread_active s = true;
  inv_exit : wthread_should_exit s = match stopping s with S_idle => false | _ => true end;
  inv_lock : match stopping s with S_done => thread s = W_exited | _ => wthread_lock s = L_live /\ sems s = true end;
  inv_thread : thread s <> W_none;
  inv_value : 0 <= print_finished s;
  inv_posting : 0 <= posting s;
  inv_tokens : thread s <> W_exited ->
    print_finished s + posting s + if_woken s = zlen (finished_records s) + if_stop_posted s;
  inv_exited : thread s = W_exited -> stopping s <> S_idle;
  inv_fifo : accepted s = written s ++ finished_records s;
  inv_memory : logt_memory_used s = queued_size (finished_records s);
  inv_bound : logt_memory_used s <= LOGT_MEMORY_MAX;
  inv_dropped : 0 <= logt_dropped_messages s;
  inv_refused : refused s = reported s + logt_dropped_messages s;
}.

Lemma total_size_pos r : 0 < total_size r.
Proof. unfold total_size, SIZEOF_RECORD. pose proof (zlen_nonneg (rec_buffer r)). lia. Qed.

Lemma queued_size_app l1 l2 : queued_size (l1 ++ l2) = queued_size l1 + queued_size l2.
Proof. induction l1 as [|r l1 IH]; simpl; [done|]. rewrite IH. lia. Qed.

Lemma queued_size_one r : queued_size [r] = total_size r.
Proof. simpl. lia. Qed.

(** Cases on the state of a step: its guards become equations between fields. *)
Ltac step_cases :=
  repeat match goal with
  | H : match ?x with _ => _ end = Some _ |- _ => destruct x eqn:?; try discriminate
  | H : (if ?x then _ else _) = Some _ |- _ => destruct x eqn:?; try discriminate
  end; simplify_eq; simpl in *.

(** The fields of the invariant that a step does not touch. *)
Ltac inv_fields :=
  constructor; unfold if_woken, if_stop_posted in *; simpl; try done; try lia;
  try solve [repeat match goal with
    | E : wthread_lock ?s = _ |- context [wthread_lock ?s] => rewrite E
    | E : sems ?s = _ |- context [sems ?s] => rewrite E
    end; done].

Lemma take_record_inv s s' :
  take_record s = Some s' ->
  exists r rs, finished_records s = r :: rs
    /\ s' = set_written (set_logt_memory_used (set_finished_records s rs) (logt_memory_used s - total_size r)) (written s ++ [r]).
Proof.
  unfold take_record. destruct (finished_records s) as [|r rs] eqn:E; [done|]. intros [= <-].
  exists r, rs. split; [done|]. unfold set_written, set_logt_memory_used, set_finished_records, total_size. simpl. f_equal. lia.
Qed.

Lemma queue_inv s a b r s' : logt_inv s -> post_queue s a b r = Some s' -> logt_inv s'.
Proof.
  intros [] H. unfold post_queue in H. pose proof (total_size_pos r).
  destruct (negb a || negb b); [simplify_eq; constructor; done|].
  destruct (wthread_lock s) eqn:El; try done. simpl in H.
  destruct (Z.ltb_spec LOGT_MEMORY_MAX (logt_memory_used s + total_size r)); simplify_eq.
  - inv_fields.
  - inv_fields.
    + unfold if_woken, if_stop_posted in *. simpl. rewrite zlen_app, zlen_cons, zlen_nil. intros. match goal with H : thread s <> _ |- _ => specialize (inv_tokens0 H) end. lia.
    + rewrite inv_fifo0. now rewrite app_assoc.
    + rewrite queued_size_app, queued_size_one. lia.
Qed.

Lemma worker_inv s s' : logt_inv s -> thread s = W_woken -> worker_run s = Some s' -> logt_inv s'.
Proof.
  intros [] Hth H. unfold worker_run in H. unfold if_woken, if_stop_posted in *. rewrite Hth in inv_tokens0.
  specialize (inv_tokens0 ltac:(done)).
  destruct (wthread_lock s) eqn:El; try done.
  destruct (wthread_should_exit s && (print_finished s =? 0)) eqn:Ee; simplify_eq.
  - apply andb_prop in Ee as [Ee _]. inv_fields.
    + rewrite El. destruct (stopping s); done.
    + intros _ E. rewrite E in inv_exit0. congruence.
  - destruct (take_record s) as [s1|] eqn:Et; [|done].
    apply take_record_inv in Et as (r & rs & Er & ->). rewrite Er in *. simpl in *. rewrite zlen_cons in inv_tokens0. simplify_eq.
    pose proof (total_size_pos r).
    inv_fields.
    + rewrite El. destruct (stopping s); [done..|congruence].
    + rewrite inv_fifo0. now rewrite <- app_assoc.
Qed.

Lemma step_inv s s' : logt_inv s -> logt_step s s' -> logt_inv s'.
Proof.
  intros Hi H. destruct H.
  - eauto using queue_inv.
  - destruct Hi. unfold post_sem in *. step_cases. inv_fields.
    unfold if_woken, if_stop_posted in *. simpl. intros E. specialize (inv_tokens0 E). lia.
  - destruct Hi. unfold worker_wait in *. unfold if_woken, if_stop_posted in *. step_cases.
    rewrite H in *. specialize (inv_tokens0 ltac:(done)).
    inv_fields. rewrite Heqb. destruct (stopping s); naive_solver.
  - eauto using worker_inv.
  - destruct Hi. unfold stop_flag in *. unfold if_woken, if_stop_posted in *. rewrite H in *. step_cases. inv_fields.
  - destruct Hi. unfold stop_sem in *. unfold if_woken, if_stop_posted in *. rewrite H in *. step_cases. inv_fields.
    unfold if_woken, if_stop_posted. simpl. intros E. specialize (inv_tokens0 E). lia.
  - destruct Hi. unfold stop_destroy in *. unfold if_woken, if_stop_posted in *. rewrite H in *. step_cases. inv_fields.
Qed.

Lemma thread_reached_inv s : logt_reached s -> logt_inv s.
Proof.
  intros (s0 & E & Hs). vm_compute in E. injection E as <-.
  assert (forall a b, rtc logt_step a b -> logt_inv a -> logt_inv b) as H by (induction 1; eauto using step_inv).
  eapply H; [exact Hs|]. by constructor.
Qed.

(** ** The queue *)

(** C37. Whatever the interleaving of posters, the thread and a stop: messages are
    written in the order they were accepted, and those not written yet are the
    queue; the memory charged is that of the queue and never above 512000 bytes;
    and the messages refused for memory are those reported as lost and those still
    to be reported. *)
Theorem thread_queue_fifo s :
  logt_reached s ->
  accepted s = written s ++ finished_records s
  /\ logt_memory_used s = queued_size (finished_records s) /\ 0 <= logt_memory_used s <= LOGT_MEMORY_MAX
  /\ refused s = reported s + logt_dropped_messages s.
Proof.
  intros []%thread_reached_inv. repeat split; try done. rewrite inv_memory0.
  clear. induction (finished_records s) as [|r l IH]; simpl; [lia|]. pose proof (total_size_pos r). lia.
Qed.

(** ** Progress *)

(** The thread, woken, finds a record or ends. *)
Lemma woken_runs s : logt_inv s -> thread s = W_woken -> exists s', worker_run s = Some s'.
Proof.
  intros [] Hth. rewrite Hth in *. specialize (inv_tokens0 ltac:(done)). unfold if_woken, if_stop_posted in *. rewrite Hth in inv_tokens0.
  assert (wthread_lock s = L_live) as El by (destruct (stopping s); naive_solver).
  unfold worker_run. rewrite El. destruct (wthread_should_exit s && (print_finished s =? 0)) eqn:Ee; [by eexists|].
  unfold take_record. destruct (finished_records s) as [|r rs] eqn:Er; [|by eexists].
  exfalso. rewrite zlen_nil in inv_tokens0. rewrite inv_exit0 in Ee.
  destruct (stopping s); simpl in Ee; try lia; destruct (Z.eqb_spec (print_finished s) 0); (done || lia).
Qed.

(** The thread alone writes the first record, in a wait and a run. *)
Lemma worker_writes s r rs :
  logt_inv s -> stopping s = S_idle -> thread s = W_waiting -> 0 < print_finished s -> finished_records s = r :: rs ->
  exists s1 s2, logt_step s s1 /\ logt_step s1 s2
    /\ stopping s2 = S_idle /\ thread s2 = W_waiting /\ finished_records s2 = rs /\ written s2 = written s ++ [r]
    /\ accepted s2 = accepted s /\ print_finished s2 = print_finished s - 1 /\ logt_dropped_messages s2 = 0.
Proof.
  intros [] Hst Hth Hp Hf. rewrite Hst in *. destruct inv_lock0 as [El Es].
  eexists _, _. split; [apply step_wait; [done..|by unfold worker_wait; rewrite Es]|].
  split.
  - apply step_run; [done|]. unfold worker_run. simpl. rewrite El, inv_exit0. simpl.
    unfold take_record. simpl. rewrite Hf. reflexivity.
  - done.
Qed.

Lemma worker_drains s :
  logt_inv s -> stopping s = S_idle -> thread s = W_waiting -> print_finished s = zlen (finished_records s) ->
  exists s', nsteps logt_step (2 * length (finished_records s)) s s' /\ finished_records s' = [] /\ written s' = accepted s
    /\ print_finished s' = 0.
Proof.
  remember (finished_records s) as l eqn:Hl. symmetry in Hl. revert s Hl.
  induction l as [|r l IH]; intros s Hf Hi Hst Hth Hp.
  - exists s. destruct Hi. rewrite Hf, app_nil_r in inv_fifo0. split_and!; [constructor|done..].
  - rewrite zlen_cons in Hp. pose proof (zlen_nonneg l).
    destruct (worker_writes s r l) as (s1 & s2 & H1 & H2 & ? & ? & ? & ? & Ha & ? & _); [done..|lia|done|].
    destruct (IH s2) as (s' & Hn & ? & ? & ?); [done|eauto using step_inv|done..|lia|].
    exists s'. split; [|by rewrite <- Ha].
    replace (2 * length (r :: l))%nat with (S (S (2 * length l))) by (simpl; lia). eauto using nsteps_l.
Qed.

(** When the thread ends, what it leaves in the queue are the records whose
    posters have not posted yet, and one more when it ends between the flag and the
    post of the stop: that record was accepted and posted and is never written. *)
Lemma thread_end_leaves s s' :
  logt_reached s -> thread s = W_woken -> worker_run s = Some s' -> thread s' = W_exited ->
  zlen (finished_records s') = posting s' + (match stopping s with S_flagged => 1 | _ => 0 end).
Proof.
  intros []%thread_reached_inv Hth H He. unfold worker_run in H. unfold if_woken, if_stop_posted in *. rewrite Hth in inv_tokens0.
  specialize (inv_tokens0 ltac:(done)). destruct (wthread_lock s); try done.
  destruct (wthread_should_exit s && (print_finished s =? 0)) eqn:Ee.
  - simplify_eq. simpl. apply andb_prop in Ee as [Ee Ez%Z.eqb_eq]. rewrite Ee in inv_exit0. destruct (stopping s); try done; lia.
  - destruct (take_record s); naive_solver.
Qed.

(** C38. What the thread achieves.  Behind [sem_wait] it never takes the first record
    of an empty list and never uses a lock that is gone.  While no stop is requested,
    once the posters have posted, a wait and a run for each queued record write all
    the messages that were accepted.  After a stop this is not so: what the thread
    leaves unwritten when it ends are the records whose posters have not posted yet and,
    when it ends between the flag and the post of the stop, one more, which was
    accepted and posted. *)
Theorem worker_progress s :
  logt_reached s ->
  (thread s = W_woken -> exists s', worker_run s = Some s' /\ logt_step s s' /\
     (thread s' = W_exited ->
      zlen (finished_records s') = posting s' + (match stopping s with S_flagged => 1 | _ => 0 end)))
  /\ (stopping s = S_idle -> thread s = W_waiting -> posting s = 0 ->
      exists s', nsteps logt_step (2 * length (finished_records s)) s s' /\ finished_records s' = [] /\ written s' = accepted s).
Proof.
  intros Hr. pose proof (thread_reached_inv s Hr) as Hi. split.
  - intros Hth. destruct (woken_runs s Hi Hth) as [s' E]. exists s'. split_and!; [done|eauto using step_run|].
    by apply (thread_end_leaves s s').
  - intros Hst Hth Hp. destruct (worker_drains s) as (s' & ? & ? & ? & _); eauto.
    destruct Hi. unfold if_woken, if_stop_posted in *. rewrite Hst, Hth in inv_tokens0. specialize (inv_tokens0 ltac:(done)). lia.
Qed.

(** * The logging thread: schedules and witnesses *)
Module LogThreadExamples.

(** ** Schedules *)

(** Which thread takes the next step. *)
Inductive act := A_queue (r : qb_log_record) | A_post | A_wait | A_run | A_flag | A_stop_post | A_destroy.

Definition do_act (s : logt) (x : act) : option logt :=
  match x with
  | A_queue r => post_queue s true true r
  | A_post => if 0 <? posting s then post_sem s else None
  | A_wait => match thread s with W_waiting => if 0 <? print_finished s then worker_wait s else None | _ => None end
  | A_run => match thread s with W_woken => worker_run s | _ => None end
  | A_flag => match stopping s with S_idle => if stop_returns s then None else if wthread_active s then stop_flag s else None | _ => None end
  | A_stop_post => match stopping s with S_flagged => stop_sem s | _ => None end
  | A_destroy => match stopping s, thread s with S_posted, W_exited => stop_destroy s | _, _ => None end
  end.

Fixpoint do_acts (s : logt) (l : list act) : option logt :=
  match l with [] => Some s | x :: l => s ← do_act s x; do_acts s l end.

Definition good_env : start_env := {| lock_errno := None; create_result := 0 |}.
Definition no_sched (policy prio : Z) : Z := 0.
Definition started : logt := fst (qb_log_thread_start no_sched logt_start good_env).

Lemma do_act_step s x s' : do_act s x = Some s' -> logt_step s s'.
Proof.
  destruct x; simpl; intros H.
  - eauto using step_queue.
  - destruct (Z.ltb_spec 0 (posting s)); [|done]. eauto using step_post.
  - destruct (thread s) eqn:?; try done. destruct (Z.ltb_spec 0 (print_finished s)); [|done]. eauto using step_wait.
  - destruct (thread s) eqn:?; try done. eauto using step_run.
  - destruct (stopping s) eqn:?; try done. destruct (stop_returns s) eqn:?; [done|]. destruct (wthread_active s) eqn:?; [|done].
    eauto using step_flag.
  - destruct (stopping s) eqn:?; try done. eauto using step_stop_post.
  - destruct (stopping s) eqn:?; try done. destruct (thread s) eqn:?; try done. eauto using step_destroy.
Qed.

Lemma acts_reached l s : do_acts started l = Some s -> logt_reached s.
Proof.
  assert (forall l a b, do_acts a l = Some b -> rtc logt_step a b) as H.
  { intros l0. induction l0 as [|x l0 IH]; intros a b E; simpl in E; [by simplify_eq|].
    destruct (do_act a x) as [c|] eqn:Ec; [|done]. eapply rtc_l; [eapply do_act_step; exact Ec|]. by apply IH. }
  intros E. exists started. split; [(vm_compute; reflexivity)|]. eauto.
Qed.

Definition hello : qb_log_record := {| rec_cs := 1; rec_timestamp := 100; rec_buffer := [104; 105] |}.
Definition world : qb_log_record := {| rec_cs := 2; rec_timestamp := 101; rec_buffer := [119; 111; 119] |}.

(** Two messages queued, one of them written. *)
Definition busy : list act := [A_queue hello; A_post; A_wait; A_queue world; A_run; A_post].
Definition busy_state : logt := default started (do_acts started busy).

Lemma busy_reached : logt_reached busy_state.
Proof. apply (acts_reached busy). (vm_compute; reflexivity). Qed.

(** ** Witnesses *)

Lemma thread_queue_fifo_witness :
  logt_reached busy_state /\ accepted busy_state = [hello; world] /\ written busy_state = [hello]
  /\ accepted busy_state = written busy_state ++ finished_records busy_state.
Proof. split; [exact busy_reached|]. split; [(vm_compute; reflexivity)|]. split; [(vm_compute; reflexivity)|]. apply (thread_queue_fifo busy_state busy_reached). Defined.

Lemma worker_progress_witness :
  exists s', nsteps logt_step 2 busy_state s' /\ finished_records s' = [] /\ written s' = [hello; world].
Proof. apply (proj2 (worker_progress busy_state busy_reached)); (vm_compute; reflexivity). Defined.

(** The stop sets its flag while the thread is between [sem_wait] and the lock. *)
Definition early_flag : logt := default started (do_acts started [A_queue hello; A_post; A_wait; A_flag]).
Definition early_end : logt := set_thread early_flag W_exited.

Lemma early_reached : logt_reached early_flag.
Proof. apply (acts_reached [A_queue hello; A_post; A_wait; A_flag]). (vm_compute; reflexivity). Qed.

Lemma thread_end_leaves_witness : zlen (finished_records early_end) = posting early_end + 1.
Proof. apply (thread_end_leaves early_flag early_end early_reached); (vm_compute; reflexivity). Defined.

(** ** Faults *)

(** A message was queued and posted, the stop was requested and has ended, and the
    message was not written. *)
Definition lost_by_stop : list act := [A_queue hello; A_post; A_wait; A_flag; A_run; A_stop_post; A_destroy].

(** A stop that runs to its end on a thread with nothing to do. *)
Definition stopped : logt := default started (do_acts started [A_flag; A_stop_post; A_wait; A_run; A_destroy]).

(** The policy that was asked for cannot be set, then a start without one
    succeeds. *)
Definition refused_start : logt := fst (qb_log_thread_start (fun _ _ => 1) (fst (qb_log_thread_priority_set (fun _ _ => 1) logt_start 1 10)) good_env).
Definition restarted : logt := fst (qb_log_thread_start no_sched refused_start good_env).

(** Four faults of starting and stopping.  A message that was queued and posted
    before the stop is lost when the thread takes the lock between the flag and the
    post of [qb_log_thread_stop].  After a stop, [qb_log_thread_start] reports
    success and starts nothing, and posting a message uses the destroyed lock.
    After a start that failed to set the scheduling policy a second start succeeds,
    and its thread ends at the first message without writing it.  After a start
    that failed to create the thread, stopping destroys the lock a second time. *)
Theorem thread_faults :
  (exists s, do_acts started lost_by_stop = Some s /\ logt_reached s
     /\ stopping s = S_done /\ posting s = 0 /\ accepted s = [hello] /\ written s = [])
  /\ (stopping stopped = S_done /\ qb_log_thread_start no_sched stopped good_env = (stopped, 0) /\ thread stopped = W_exited
      /\ post_queue stopped true true hello = None)
  /\ (qb_log_thread_start no_sched refused_start good_env = (restarted, 0) /\ thread restarted = W_waiting
      /\ exists s, do_acts restarted [A_queue hello; A_post; A_wait; A_run] = Some s /\ thread s = W_exited /\ written s = [])
  /\ (let '(s, res) := qb_log_thread_start no_sched logt_start {| lock_errno := None; create_result := EAGAIN |} in
      res = - EAGAIN /\ stop_returns s = false /\ wthread_active s = false /\ stop_inactive s = None).
Proof.
  split; [|split; [|split]].
  - exists (default started (do_acts started lost_by_stop)). split; [vm_compute; reflexivity|].
    split; [apply (acts_reached lost_by_stop)|]; vm_compute; done.
  - vm_compute. done.
  - split; [vm_compute; done|]. split; [vm_compute; done|].
    exists (default started (do_acts restarted [A_queue hello; A_post; A_wait; A_run])). vm_compute. done.
  - vm_compute. done.
Qed.

End LogThreadExamples.
