(* ===== verification/BlackBox.v ===== *)
(** * The black box (lib/log_blackbox.c)

    Messages are stored unformatted in an overwriting ring buffer, the ring is
    saved to a file, and the messages are printed from the file.  The model stands
    on those of the ring buffer, of its file format and of the serialisation of
    messages.  [None] is undefined behaviour: an access outside the chunk that was
    allocated or outside a buffer of the stack, or a failed [assert]. *)
From S2P Require Import Prelude Memory RingBuffer RingBufferOpen Cstring Serialize LogFormat.

(** [4 * sizeof(uint32_t) + sizeof(uint8_t) + 2 * sizeof(char) + sizeof(time_t)] *)
Definition BB_MIN_ENTRY_SIZE : Z := 4 * 4 + 1 + 2 * 1 + 8.
Definition SIZEOF_TIMESPEC : Z := 16.
Definition SIZEOF_TIME_T : Z := 8.
Definition BB_LINE_MAX : Z := 512.
Definition EIO : Z := 5.

Abbreviation ring := (qb_ringbuffer_s psem).

(** ** Opening and closing *)

Definition BB_FLAGS : Z := Z.lor QB_RB_FLAG_CREATE QB_RB_FLAG_OVERWRITE.

Definition opened (r : open_result) : option ring := match r with inl _ => None | inr rb => Some rb end.

Definition _blackbox_reload (inst : option ring) (size : Z) (env : open_env) (ce : close_env) : option ring * list close_action :=
  match inst with
  | None => (None, [])
  | Some _ => (opened (qb_rb_open size BB_FLAGS env), snd (qb_rb_close inst ce))
  end.

Definition _blackbox_close (inst : option ring) (ce : close_env) : option ring * list close_action :=
  let '(inst, last) := qb_rb_lastref_and_ret inst in (inst, snd (qb_rb_close last ce)).

(** ** Storing a message *)

(** [memcpy (chunk, bs, len bs); chunk += len bs]. *)
Definition put_next (st : option (list Z * Z)) (bs : list Z) : option (list Z * Z) :=
  '(b, p) ← st; b ← buf_put b p bs; Some (b, p + zlen bs).

Definition fn_size_of (cs : qb_log_callsite) : Z := u32 (zlen (function cs) + 1).

(** Of an entry, without the message. *)
Definition fixed_size (cs : qb_log_callsite) : Z := 4 * 4 + 1 + fn_size_of cs + SIZEOF_TIMESPEC.

Definition TOO_LONG : list Z :=
  bytes "Log message too long to be stored in the blackbox.  Maximum is QB_LOG_MAX_LEN".

(** The allocated chunk filled in, and the size that is committed. *)
Definition fill_entry (max_line_length : Z) (cs : qb_log_callsite) (tv_sec tv_nsec : Z) (ap : list varg) (chunk : list Z)
    : option (list Z * Z) :=
  let st := put_next (Some (chunk, 0)) (le_split 4 (lineno cs)) in
  let st := put_next st (le_split 4 (tags cs)) in
  let st := put_next st (le_split 1 (priority cs)) in
  let st := put_next st (le_split 4 (fn_size_of cs)) in
  let st := put_next st (take (Z.to_nat (fn_size_of cs)) (function cs ++ [0])) in
  '(chunk, msg_len_pt) ← put_next st (le_split 8 tv_sec ++ le_split 8 tv_nsec);
  let msg_pt := Z.to_nat (msg_len_pt + 4) in
  '(msg, n) ← qb_vsnprintf_serialize (drop msg_pt chunk) max_line_length (format cs) ap;
  '(msg, n) ← (if max_line_length <=? u32 n then qb_vsnprintf_serialize msg BB_LINE_MAX TOO_LONG ap else Some (msg, n));
  chunk ← buf_put (take msg_pt chunk ++ msg) msg_len_pt (le_split 4 (u32 n));
  Some (chunk, u64 (fixed_size cs + u32 n)).

(** The new [t->instance] and what closing a ring does: a ring without room is
    given up. *)
Definition _blackbox_vlogger (inst : option ring) (max_line_length : Z) (cs : qb_log_callsite) (tv_sec tv_nsec : Z) (ap : list varg)
    (errno : Z) (ce : close_env) : option (option ring * list close_action) :=
  match inst with
  | None => Some (None, [])
  | Some _ =>
    let max_size := u64 (fixed_size cs + max_line_length) in
    let '(inst, _, chunk) := qb_rb_chunk_alloc inst max_size errno in
    match inst, chunk with
    | Some rb, Alloc_at off =>
      '(w, actual_size) ← fill_entry max_line_length cs tv_sec tv_nsec ap (slice (shared_data rb) off max_size);
      Some (fst (qb_rb_chunk_commit (Some (set_data rb (blit (shared_data rb) off w))) actual_size), [])
    | _, Alloc_null => Some (_blackbox_close inst ce)
    | _, _ => None
    end
  end.

(** ** Saving *)

Definition QB_BLACKBOX_HEADER_WORDSIZE : Z := 0.
Definition QB_BLACKBOX_HEADER_READPT : Z := 0xCCBBCCBB.
Definition QB_BLACKBOX_HEADER_WRITEPT : Z := 0xBBCCBBCC.
Definition QB_BLACKBOX_HEADER_VERSION : Z := 2.
Definition QB_BLACKBOX_HEADER_HASH : Z := 0.

Definition blackbox_file_header : list Z :=
  le_split 4 QB_BLACKBOX_HEADER_WORDSIZE ++ le_split 4 QB_BLACKBOX_HEADER_READPT ++ le_split 4 QB_BLACKBOX_HEADER_WRITEPT ++
  le_split 4 QB_BLACKBOX_HEADER_VERSION ++ le_split 4 QB_BLACKBOX_HEADER_HASH.
Definition SIZEOF_HEADER : Z := 20.

(** [new] written over the start of a file. *)
Definition overwritten (old new : list Z) : list Z := new ++ drop (length new) old.

(** The file and the result; [fd] is a descriptor or a negative error, [old] what
    the file holds, since it is not truncated.  The comparison of [written_size]
    with a [size_t] is unsigned. *)
Definition qb_log_blackbox_write_to_file (inst : option ring) (fd : Z) (old : list Z) (w : write_outcome) (ws : list write_outcome)
    : list Z * Z :=
  if fd <? 0 then (old, fd)
  else
    let written_size := wr_result w in
    let head := take (Z.to_nat written_size) blackbox_file_header in
    if u64 written_size <? SIZEOF_HEADER then (overwritten old head, written_size)
    else
      match inst with
      | Some _ =>
        let '(file, n) := qb_rb_write_to_file inst ws in
        (overwritten old (head ++ file), written_size + n)
      | None => (overwritten old head, - ENOENT)
      end.

(** ** Printing *)

Inductive bb_event :=
  | P_line (text : list Z)
  | P_header_too_small
  | P_fn_size_too_big
  | P_fn_size_negative
  | P_msg_len_out_of_bounds
  | P_perror (errno : Z).

(** An unsigned and a signed number at a place of the chunk. *)
Definition get_unsigned (b : list Z) (i n : Z) : option Z := bs ← buf_get b i n; Some (le_combine bs).
Definition get_i64 (b : list Z) (i : Z) : option Z := z ← get_unsigned b i 8; Some (i64 z).

(** The loop that drops newlines: [len] is the index looked at. *)
Fixpoint trim_loop (len : nat) (message : list Z) : list Z :=
  match len with
  | O => message
  | S len' =>
    match message !! len with
    | Some c => if (c =? 10) || (c =? 0) then trim_loop len' (<[len := 0]> message) else message
    | None => message
    end
  end.

(** [%-7s]. *)
Definition padded_right (w : Z) (s : list Z) : list Z := s ++ zrepeat 32 (w - zlen s).

Section Print.
(** [snprintf] of one conversion, and [localtime]. *)
Context (render : list Z -> varg -> list Z) (localtime : Z -> option tm).

Definition TIME_BUF_SIZE : Z := 64.

(** The time of an entry, with milliseconds when it can be broken down. *)
Definition entry_time (tv_sec tv_nsec : Z) : option (list Z) :=
  match localtime tv_sec with
  | Some tm =>
    t ← time_text tm;
    Some (take (Z.to_nat (TIME_BUF_SIZE - 1)) (t ++ [46] ++ zero_padded 3 (u64 tv_nsec / QB_TIME_NS_IN_MSEC)))
  | None => Some (take (Z.to_nat (TIME_BUF_SIZE - 1)) (decimal tv_sec))
  end.

Definition line_text (priority : Z) (time fn : list Z) (lineno tags : Z) (message : list Z) : list Z :=
  padded_right 7 (qb_log_priority2str priority) ++ [32] ++ time ++ [32] ++ fn ++ [40] ++ decimal lineno ++ [41; 58] ++
  decimal tags ++ [58; 32] ++ message ++ [10].

(** One entry: a complaint or a line.  [junk] is what the buffer for the message
    holds before. *)
Definition print_entry (have_timespecs : bool) (junk chunk : list Z) (bytes_read : Z) : ended (bb_event + bb_event) :=
  lineno ← checked (get_unsigned chunk 0 4);
  tags ← checked (get_unsigned chunk 4 4);
  priority ← checked (get_unsigned chunk 8 1);
  fn_size ← checked (get_unsigned chunk 9 4);
  if bytes_read <? fn_size + BB_MIN_ENTRY_SIZE then Ends (inl P_fn_size_too_big)
  else if fn_size <=? 0 then Ends (inl P_fn_size_negative)
  else
    let ptr := 13 + fn_size in
    '(tv_sec, tv_nsec, ptr) ←
      checked (if have_timespecs
               then s ← get_i64 chunk ptr; n ← get_i64 chunk (ptr + 8); Some (s, n, ptr + SIZEOF_TIMESPEC)
               else s ← get_i64 chunk ptr; Some (s, 0, ptr + SIZEOF_TIME_T));
    time ← checked (entry_time tv_sec tv_nsec);
    msg_len ← checked (get_unsigned chunk ptr 4);
    if (BB_LINE_MAX <? msg_len) || (msg_len <=? 0) then Ends (inl P_msg_len_out_of_bounds)
    else
      '(message, len) ← qb_vsnprintf_deserialize render junk BB_LINE_MAX (drop (Z.to_nat (ptr + 4)) chunk);
      let len := u32 len in
      if len <=? 0 then Faults
      else
        message ← checked (buf_put message len [0]);
        text ← checked (cstr (trim_loop (Z.to_nat (len - 1)) message));
        fn ← checked (cstr_at chunk 13);
        Ends (inr (P_line (line_text priority time fn lineno tags text))).

Inductive print_result :=
  | Printed (evs : list bb_event) (err : Z)
  | Print_undefined
  | Print_diverges.

Definition then_print (ev : bb_event) (r : print_result) : print_result :=
  match r with Printed evs err => Printed (ev :: evs) err | r => r end.

(** What a chunk is read into. *)
Definition CHUNK_MAX : Z := 2 * BB_LINE_MAX.

(** [err] is the result when the loop ends by its condition. *)
Fixpoint print_loop (fuel : nat) (have_timespecs : bool) (junk chunk : list Z) (rb : ring) (err : Z) : print_result :=
  match fuel with
  | O => Print_diverges
  | S fuel =>
    match qb_rb_chunk_read (Some rb) CHUNK_MAX 0 0 with
    | Some (Some rb, bytes_read, out) =>
      if (0 <=? bytes_read) && (bytes_read <? BB_MIN_ENTRY_SIZE) then Printed [P_header_too_small] (-1)
      else if bytes_read <? 0 then Printed [P_perror (- bytes_read)] (- EIO)
      else
        match buf_put chunk 0 out with
        | None => Print_undefined
        | Some chunk =>
          match print_entry have_timespecs junk chunk bytes_read with
          | Diverges => Print_diverges
          | Faults => Print_undefined
          | Ends (inl ev) => Printed [ev] (- EIO)
          | Ends (inr ev) =>
            then_print ev
              (if BB_MIN_ENTRY_SIZE <? bytes_read then print_loop fuel have_timespecs junk chunk rb err else Printed [] err)
          end
        end
    | _ => Print_undefined
    end
  end.

(** [chunk] is what [malloc] gives.  When it gives nothing, and when the loop ends
    by its condition, the result is the number of bytes of the header. *)
Definition qb_log_blackbox_print_from_file (fd : Z) (file : list Z) (errno : Z) (env : open_env) (chunk : option (list Z))
    (junk : list Z) : print_result :=
  if fd <? 0 then Printed [] fd
  else
    let '(header, rest) := file_read file SIZEOF_HEADER in
    let err := zlen header in
    if err <? SIZEOF_HEADER then Printed [] (- errno)
    else
      let have_timespecs := bool_decide (header = blackbox_file_header) in
      match load_from fd (zlen file) (if have_timespecs then rest else file) env with
      | Load_null => Printed [] (- EIO)
      | Load_assert_failed => Print_undefined
      | Load_rb rb =>
        match chunk with
        | None => Printed [] err
        | Some chunk => print_loop (S (Z.to_nat (word_size (shared_hdr rb)))) have_timespecs junk chunk rb err
        end
      end.
End Print.
