(* ===== verification/BlackBoxTheorems.v ===== *)
(** * The black box: theorems

    What is stored comes out: logging, saving and printing give the lines of the
    newest messages, whatever the file held before.  Printing ends for every
    file. *)
From stdpp Require Import strings.
From S2P Require Import Prelude Memory RingBuffer RingBufferOpen RingBufferInv RingBufferTheorems.
From S2P Require Import Cstring Serialize SerializeTheorems SerializeBounds LogFormat BlackBox.
From S2P Require Import RingBufferExamples.
Import SerializeExamples.

(** ** Entries *)

Record log_entry := { e_cs : qb_log_callsite; e_sec : Z; e_nsec : Z; e_msg : message }.

Definition entry_head (e : log_entry) : list Z :=
  le_split 4 (lineno (e_cs e)) ++ le_split 4 (tags (e_cs e)) ++ le_split 1 (priority (e_cs e)) ++
  le_split 4 (zlen (function (e_cs e)) + 1) ++ (function (e_cs e) ++ [0]) ++ (le_split 8 (e_sec e) ++ le_split 8 (e_nsec e)).

Definition entry_bytes (e : log_entry) : list Z :=
  entry_head e ++ le_split 4 (zlen (stored (e_msg e))) ++ stored (e_msg e).

(** What the code stores and prints as it should: numbers in their ranges, a
    message without doubled percent signs whose strings are not cut by the precision
    of an earlier conversion ([message_ok]), that is shorter than a line when it is
    stored and than 511 characters when it is printed. *)
Record entry_ok (render : list Z -> varg -> list Z) (localtime : Z -> option tm) (max_line_length : Z) (e : log_entry) : Prop := {
  eo_lineno : 0 <= lineno (e_cs e) < 2 ^ 32;
  eo_tags : 0 <= tags (e_cs e) < 2 ^ 32;
  eo_priority : 0 <= priority (e_cs e) < 256;
  eo_function : nul_free (function (e_cs e));
  eo_size : zlen (function (e_cs e)) <= 478;
  eo_sec : - 2 ^ 63 <= e_sec e < 2 ^ 63;
  eo_nsec : - 2 ^ 63 <= e_nsec e < 2 ^ 63;
  eo_time : is_Some (entry_time localtime (e_sec e) (e_nsec e));
  eo_format : format (e_cs e) = format_of (e_msg e);
  eo_message : message_ok (e_msg e);
  eo_precision : Forall (obeys_precision render) (parts (e_msg e));
  eo_render : Forall (fun p => nul_free (render (spec_of (snd p)) (shown (val (snd p))))) (parts (e_msg e));
  eo_stored : zlen (stored (e_msg e)) < max_line_length;
  eo_text : zlen (text_of render (e_msg e)) < 511;
}.

Lemma fn_size_small cs : zlen (function cs) <= 478 -> fn_size_of cs = zlen (function cs) + 1.
Proof. intros H. pose proof (zlen_nonneg (function cs)). unfold fn_size_of. apply u32_small. lia. Qed.

Lemma zlen_entry_head e : zlen (entry_head e) = 30 + zlen (function (e_cs e)).
Proof. unfold entry_head. rewrite !zlen_app, !zlen_le_split, zlen_cons, zlen_nil. lia. Qed.

Lemma fixed_size_head e : zlen (function (e_cs e)) <= 478 -> fixed_size (e_cs e) = zlen (entry_head e) + 4.
Proof. intros H. unfold fixed_size, SIZEOF_TIMESPEC. rewrite fn_size_small, zlen_entry_head by done. lia. Qed.

(** [put_next] at the end of what is filled in. *)
Lemma put_next_end out rest bs :
  zlen bs <= zlen rest -> put_next (Some (out ++ rest, zlen out)) bs = Some ((out ++ bs) ++ drop (length bs) rest, zlen (out ++ bs)).
Proof. intros H. unfold put_next. cbn [mbind option_bind]. rewrite buf_put_end by done. cbn [mbind option_bind]. by rewrite zlen_app. Qed.

(** Several of them. *)
Lemma put_all_end bss : forall out rest,
  zlen (concat bss) <= zlen rest ->
  foldl put_next (Some (out ++ rest, zlen out)) bss =
  Some ((out ++ concat bss) ++ drop (length (concat bss)) rest, zlen (out ++ concat bss)).
Proof.
  induction bss as [|bs bss IH]; intros out rest H; cbn [foldl concat].
  - by rewrite app_nil_r.
  - cbn [concat] in H. rewrite zlen_app in H. pose proof (zlen_nonneg (concat bss)).
    rewrite put_next_end by lia. rewrite IH by (unfold zlen in *; rewrite length_drop; lia).
    rewrite length_app, <- drop_drop, <- !app_assoc. done.
Qed.

(** The chunk after [fill_entry]: the entry, and bytes that are not committed. *)
Lemma fill_entry_ok render localtime max_line_length e w :
  entry_ok render localtime max_line_length e -> max_line_length < 2 ^ 31 ->
  zlen w = fixed_size (e_cs e) + max_line_length ->
  exists x, fill_entry max_line_length (e_cs e) (e_sec e) (e_nsec e) (args_of (e_msg e)) w = Some (entry_bytes e ++ x, zlen (entry_bytes e)) /\
    zlen (entry_bytes e) + zlen x = zlen w.
Proof.
  intros [] HL Hw. pose proof (zlen_nonneg (function (e_cs e))). pose proof (zlen_nonneg (stored (e_msg e))).
  rewrite fixed_size_head in Hw by done. pose proof (zlen_entry_head e) as Hh.
  unfold fill_entry. rewrite fn_size_small by done.
  replace (take (Z.to_nat (zlen (function (e_cs e)) + 1)) (function (e_cs e) ++ [0])) with (function (e_cs e) ++ [0])
    by (rewrite take_ge; [done|rewrite length_app; unfold zlen; cbn; lia]).
  pose proof (put_all_end [le_split 4 (lineno (e_cs e)); le_split 4 (tags (e_cs e)); le_split 1 (priority (e_cs e));
    le_split 4 (zlen (function (e_cs e)) + 1); function (e_cs e) ++ [0]; le_split 8 (e_sec e) ++ le_split 8 (e_nsec e)] [] w) as Hput.
  cbn [foldl concat app] in Hput. rewrite zlen_nil, app_nil_r in Hput. fold (entry_head e) in Hput.
  rewrite Hput by lia. clear Hput. cbn [mbind option_bind].
  replace (Z.to_nat (zlen (entry_head e) + 4)) with (length (entry_head e) + 4)%nat by (unfold zlen; lia).
  set (tl := drop (length (entry_head e)) w). assert (Htl : zlen tl = 4 + max_line_length).
  { unfold tl, zlen in *. rewrite length_drop. lia. }
  rewrite drop_app_add, eo_format0.
  destruct (serialize_ok (e_msg e) (drop 4 tl) max_line_length) as (x & E); [done|lia|unfold zlen in *; rewrite length_drop; lia|lia|].
  pose proof (serialize_zlen _ _ _ _ _ _ E) as Hx. rewrite zlen_app in Hx.
  assert (Hd4 : zlen (drop 4 tl) = max_line_length) by (unfold zlen in *; rewrite length_drop; lia).
  rewrite E. cbn [mbind option_bind]. rewrite u32_small by lia.
  destruct (Z.leb_spec max_line_length (zlen (stored (e_msg e)))); [lia|]. cbn [mbind option_bind]. rewrite ?(u32_small (zlen (stored (e_msg e)))) by lia.
  replace (take (length (entry_head e) + 4) (entry_head e ++ tl)) with (entry_head e ++ take 4 tl) by (by rewrite take_app_add).
  rewrite <- app_assoc, buf_put_end.
  2: { rewrite zlen_app, zlen_le_split. pose proof (zlen_nonneg (stored (e_msg e) ++ x)). unfold zlen in *. rewrite length_take. lia. }
  cbn [mbind option_bind]. exists x.
  assert (He : zlen (entry_bytes e) = zlen (entry_head e) + 4 + zlen (stored (e_msg e))) by (unfold entry_bytes; rewrite !zlen_app, zlen_le_split; lia).
  split; [|lia]. rewrite fixed_size_head, u64_small by (done || lia). f_equal. f_equal; [|done].
  unfold entry_bytes. rewrite <- !app_assoc. f_equal. f_equal. rewrite length_le_split, drop_app_le, drop_ge, app_nil_l by (rewrite length_take; unfold zlen in *; lia). done.
Qed.

(** ** Logging *)

Section Logging.
Context (render : list Z -> varg -> list Z) (localtime : Z -> option tm) (max_line_length : Z).
Hypothesis Hline : 0 < max_line_length <= BB_LINE_MAX.

Definition max_size_of (e : log_entry) : Z := fixed_size (e_cs e) + max_line_length.

(** A ring of [N] words has room for two entries of this size. *)
Definition two_fit (N : Z) (e : log_entry) : Prop := 2 * (fixed_size (e_cs e) + BB_LINE_MAX) + 32 <= 4 * N.

(** The newest entries that are left when [len] more bytes are allocated. *)
Fixpoint newest (N : Z) (q : list log_entry) (len : Z) : list log_entry :=
  if fits N (entry_bytes <$> q) len then q
  else match q with [] => [] | _ :: q' => newest N q' len end.

Lemma newest_bytes N q len : entry_bytes <$> newest N q len = make_room N (entry_bytes <$> q) len.
Proof. induction q as [|e q IH]; cbn [newest fmap list_fmap make_room]; [by destruct (fits _ _ _)|]. by destruct (fits _ _ _). Qed.

Lemma newest_forall (P : log_entry -> Prop) N q len : Forall P q -> Forall P (newest N q len).
Proof. induction 1 as [|e q He Hq IH]; cbn [newest]; destruct (fits _ _ _); auto. Qed.

(** The black box holds the entries [q]. *)
Record holds (rb : ring) (q : list log_entry) : Prop := {
  ho_inv : rb_inv rb (entry_bytes <$> q);
  ho_notifier : notifier rb = posix_notifier;
  ho_overwrite : has_flag (flags rb) QB_RB_FLAG_OVERWRITE = true;
  ho_sem : q = [] -> posix_sem (instance rb) = 0;
  ho_ok : Forall (entry_ok render localtime max_line_length) q;
}.

Lemma entry_size e : entry_ok render localtime max_line_length e -> zlen (entry_bytes e) <= fixed_size (e_cs e) + BB_LINE_MAX - 1.
Proof.
  intros []. rewrite fixed_size_head by done. unfold entry_bytes. rewrite !zlen_app, zlen_le_split. lia.
Qed.

(** The last entry stays when one more of at most that size is stored. *)
Lemma newest_keeps_one N q e cap :
  q <> [] -> (forall e', e' ∈ e :: q -> fixed_size (e_cs e') + BB_LINE_MAX <= cap) -> 2 * cap + 32 <= 4 * N ->
  Forall (entry_ok render localtime max_line_length) q -> newest N q (max_size_of e) <> [].
Proof.
  intros Hq Hcap HN Hok. induction q as [|d q IH]; [done|]. cbn [newest]. destruct (fits _ _ _) eqn:Ef; [done|].
  apply list.Forall_cons in Hok as [Hd Hok]. destruct q as [|d' q].
  - exfalso. apply entry_size in Hd. pose proof (Hcap d ltac:(set_solver)) as Hd'. pose proof (Hcap e ltac:(set_solver)) as He'.
    unfold fits in Ef. apply Z.leb_gt in Ef. cbn [fmap list_fmap free_words used] in Ef. change QB_RB_CHUNK_MARGIN with 12 in Ef.
    pose proof (chunk_words_bytes (entry_bytes d)). unfold max_size_of in *. lia.
  - apply IH; [done| |done]. intros e' He'. apply Hcap. set_solver.
Qed.

Lemma post_holds (rb : ring) n : notifier rb = posix_notifier ->
  exists rb', post_chunk rb n = (rb', snd (post_chunk rb n)) /\ shared_hdr rb' = shared_hdr rb /\ shared_data rb' = shared_data rb /\
    flags rb' = flags rb /\ notifier rb' = posix_notifier.
Proof.
  intros Hn. unfold post_chunk. rewrite Hn. cbn [post_fn posix_notifier]. unfold my_posix_sem_post.
  destruct (_ =? _); eexists; (split; [reflexivity|]); done.
Qed.

(** Logging a message keeps the newest entries and adds the new one. *)
Lemma vlogger_holds rb q e errno ce cap :
  holds rb q -> entry_ok render localtime max_line_length e ->
  (forall e', e' ∈ e :: q -> fixed_size (e_cs e') + BB_LINE_MAX <= cap) -> 2 * cap + 32 <= 4 * word_size (shared_hdr rb) ->
  exists rb', _blackbox_vlogger (Some rb) max_line_length (e_cs e) (e_sec e) (e_nsec e) (args_of (e_msg e)) errno ce = Some (Some rb', [])
    /\ holds rb' (newest (word_size (shared_hdr rb)) q (max_size_of e) ++ [e]) /\ word_size (shared_hdr rb') = word_size (shared_hdr rb).
Proof.
  intros Hh He Hcap HN. pose proof Hh as [Hinv Hn Ho Hs Hok]. pose proof (Hcap e ltac:(set_solver)) as He'.
  pose proof (entry_size e He) as Hsz. pose proof (zlen_nonneg (entry_bytes e)). unfold BB_LINE_MAX in *.
  assert (Hf : 0 <= max_size_of e < 2 ^ 31).
  { unfold max_size_of. pose proof (inv_ws _ _ Hinv) as Hw. unfold max_word_size in Hw. unfold fixed_size in *.
    pose proof (u32_range (zlen (function (e_cs e)) + 1)). unfold fn_size_of, SIZEOF_TIMESPEC in *. lia. }
  unfold _blackbox_vlogger. cbv zeta. fold (max_size_of e). rewrite u64_small by lia.
  destruct (alloc_room rb (entry_bytes <$> q) (max_size_of e) errno) as (rb1 & Hinv1 & Hfr & Hi & Hfits & ->);
    [done|by rewrite Hn|by rewrite Hn|done|lia| | |].
  { unfold fits. cbn [free_words]. change QB_RB_CHUNK_MARGIN with 12. unfold max_size_of. lia. }
  { rewrite <- newest_bytes. intros E%fmap_nil_inv. unfold q_len_pos. rewrite Hn. cbn. unfold my_posix_getvalue_fn.
    destruct q as [|d q]; [by rewrite Hs|]. exfalso. revert E. by apply (newest_keeps_one _ _ _ cap). }
  cbv beta iota zeta. set (w0 := slice _ _ _). destruct (fill_entry_ok render localtime max_line_length e w0) as (x & E & Hx); [done|lia| |].
  { unfold w0. rewrite zlen_slice by lia. done. }
  unfold w0 in Hx. rewrite zlen_slice in Hx by lia.
  rewrite E. cbn [mbind option_bind].
  destruct (store_window rb1 (make_room (word_size (shared_hdr rb)) (entry_bytes <$> q) (max_size_of e)) (entry_bytes e) x)
    as (rb2 & Hinv2 & Hfr2 & Hi2 & ->); [done|by rewrite Hx|].
  pose proof Hfr as (Hfl & Hnt & Hws & _). pose proof Hfr2 as (Hfl2 & Hnt2 & Hws2 & _).
  destruct (post_holds rb2 (zlen (entry_bytes e))) as (rb3 & -> & Hh3 & Hd3 & Hf3 & Hn3); [congruence|].
  exists rb3. split; [done|]. split; [|by rewrite Hh3, Hws2, Hws]. constructor; try done.
  - rewrite fmap_app, newest_bytes. destruct Hinv2. by constructor; rewrite ?Hh3, ?Hd3.
  - congruence.
  - by intros []%app_nil.
  - apply Forall_app. split; [|by constructor]. by apply newest_forall.
Qed.
End Logging.

(** ** Printing one entry *)

Lemma get_unsigned_mid pre n w post :
  0 <= w < 256 ^ Z.of_nat n -> get_unsigned (pre ++ le_split n w ++ post) (zlen pre) (Z.of_nat n) = Some w.
Proof.
  intros Hw. unfold get_unsigned. rewrite <- (zlen_le_split n w). rewrite buf_get_mid. cbn [mbind option_bind].
  by rewrite le_combine_split, Z.mod_small.
Qed.

Lemma get_i64_mid pre w post : - 2 ^ 63 <= w < 2 ^ 63 -> get_i64 (pre ++ le_split 8 w ++ post) (zlen pre) = Some w.
Proof.
  intros Hw. unfold get_i64, get_unsigned. change 8 with (Z.of_nat 8). rewrite <- (zlen_le_split 8 w), buf_get_mid. cbn [mbind option_bind].
  rewrite le_combine_split. change (256 ^ Z.of_nat 8) with (2 ^ 64). f_equal. unfold i64.
  rewrite Zplus_mod_idemp_l. rewrite Z.mod_small; lia.
Qed.

(** A text without the newlines at its end; the first character stays. *)
Fixpoint rstrip (t : list Z) : list Z :=
  match t with
  | [] => []
  | c :: t => match rstrip t with [] => if c =? 10 then [] else [c] | r => c :: r end
  end.
Definition trimmed (t : list Z) : list Z := match t with [] => [] | c :: t => c :: rstrip t end.

Lemma rstrip_snoc t c : rstrip (t ++ [c]) = if c =? 10 then rstrip t else t ++ [c].
Proof.
  induction t as [|x t IH]; cbn [app rstrip]; [by destruct (c =? 10)|]. rewrite IH. destruct (c =? 10); [done|]. by destruct t.
Qed.

Lemma trimmed_snoc t c : t <> [] -> trimmed (t ++ [c]) = if c =? 10 then trimmed t else t ++ [c].
Proof. destruct t as [|x t]; [done|]. intros _. cbn [app trimmed]. rewrite rstrip_snoc. by destruct (c =? 10). Qed.

Lemma insert_mid (t rest : list Z) x c : <[length t := c]> (t ++ x :: rest) = t ++ c :: rest.
Proof. rewrite <- (Nat.add_0_r (length t)), insert_app_r. done. Qed.

Lemma trim_loop_tail t : forall rest, t <> [] -> nul_free t ->
  cstr (trim_loop (length t - 1) (t ++ 0 :: rest)) = Some (trimmed t).
Proof.
  induction t as [|c t IH] using rev_ind; intros rest Hne Hnul; [done|].
  apply Forall_app in Hnul as Hn. destruct Hn as [Hnt Hc]. apply list.Forall_cons in Hc as [Hc _].
  rewrite length_app, Nat.add_sub. destruct t as [|x t]; [cbn; by destruct (Z.eqb_spec c 0)|].
  cbn [length trim_loop]. change (S (length t)) with (length (x :: t)). set (t1 := x :: t) in *.
  rewrite <- app_assoc. cbn [app]. rewrite list_lookup_middle by done.
  destruct (Z.eqb_spec c 0); [done|]. rewrite orb_false_r, trimmed_snoc by done.
  destruct (Z.eqb_spec c 10).
  - rewrite insert_mid. replace (length t) with (length t1 - 1)%nat by (cbn; lia). by apply IH.
  - change (t1 ++ c :: 0 :: rest) with (t1 ++ [c] ++ 0 :: rest). rewrite app_assoc. by apply cstr_app.
Qed.

Lemma trim_loop_ok t rest : nul_free t -> cstr (trim_loop (length t) (t ++ 0 :: rest)) = Some (trimmed t).
Proof.
  intros Hn. destruct t as [|c t]; [done|]. cbn [length trim_loop]. change (S (length t)) with (length (c :: t)).
  rewrite list_lookup_middle by done. cbn [Z.eqb orb]. rewrite insert_mid.
  replace (length t) with (length (c :: t) - 1)%nat by (cbn; lia). by apply trim_loop_tail.
Qed.

Section Printing.
Context (render : list Z -> varg -> list Z) (localtime : Z -> option tm) (max_line_length : Z).
Hypothesis Hline : 0 < max_line_length <= BB_LINE_MAX.
Implicit Types e : log_entry.

(** The line of an entry. *)
Definition entry_line e : list Z :=
  let cs := e_cs e in
  line_text (priority cs) (default [] (entry_time localtime (e_sec e) (e_nsec e))) (function cs) (lineno cs) (tags cs)
    (trimmed (text_of render (e_msg e))).

Lemma text_nul_free m : message_ok m -> Forall (fun p => nul_free (render (spec_of (snd p)) (shown (val (snd p))))) (parts m) -> nul_free (text_of render m).
Proof.
  intros (Hp & _ & Ht) Hr. unfold text_of. apply Forall_app. split; [|by apply plain_nul_free].
  induction Hr as [|[lit cv] ps Hr _ IH]; cbn [fmap list_fmap concat fst snd]; [constructor|]. apply list.Forall_cons in Hp as [[Hl _] Hp].
  apply Forall_app. split; [apply Forall_app; split; [by apply plain_nul_free|done]|by apply IH].
Qed.

(** The fields of an entry where the code looks for them. *)
Lemma entry_fields e rest (b := entry_bytes e ++ rest) (cs := e_cs e) (m := e_msg e) (fn_size := zlen (function (e_cs e)) + 1) :
  entry_ok render localtime max_line_length e ->
  get_unsigned b 0 4 = Some (lineno cs) /\ get_unsigned b 4 4 = Some (tags cs) /\ get_unsigned b 8 1 = Some (priority cs) /\
  get_unsigned b 9 4 = Some fn_size /\ cstr_at b 13 = Some (function cs) /\
  get_i64 b (13 + fn_size) = Some (e_sec e) /\ get_i64 b (13 + fn_size + 8) = Some (e_nsec e) /\
  get_unsigned b (13 + fn_size + 16) 4 = Some (zlen (stored m)) /\ drop (Z.to_nat (13 + fn_size + 16 + 4)) b = stored m ++ rest.
Proof.
  intros []. unfold BB_LINE_MAX in *. fold cs in eo_lineno0, eo_tags0, eo_priority0, eo_function0, eo_size0. fold m in eo_stored0.
  pose proof (zlen_nonneg (function cs)). pose proof (zlen_nonneg (stored m)).
  set (h1 := le_split 4 (lineno cs)). set (h2 := h1 ++ le_split 4 (tags cs)). set (h3 := h2 ++ le_split 1 (priority cs)).
  set (h4 := h3 ++ le_split 4 fn_size). set (h5 := h4 ++ function cs ++ [0]). set (h6 := h5 ++ le_split 8 (e_sec e)).
  set (h7 := h6 ++ le_split 8 (e_nsec e)). set (h8 := h7 ++ le_split 4 (zlen (stored m))).
  assert (Eb : b = h8 ++ stored m ++ rest) by (unfold b, entry_bytes, entry_head, h8, h7, h6, h5, h4, h3, h2, h1; by rewrite <- !app_assoc).
  assert (Z5 : zlen h5 = 13 + fn_size) by (unfold h5; rewrite !zlen_app, zlen_cons, zlen_nil; change (zlen h4) with 13; unfold fn_size, cs; lia).
  assert (Z6 : zlen h6 = 13 + fn_size + 8) by (unfold h6; rewrite zlen_app, zlen_le_split; lia).
  assert (Z7 : zlen h7 = 13 + fn_size + 16) by (unfold h7; rewrite !zlen_app, !zlen_le_split; lia).
  assert (Z8 : zlen h8 = 13 + fn_size + 16 + 4) by (unfold h8; rewrite !zlen_app, !zlen_le_split; lia).
  rewrite <- Z8, <- Z7, <- Z6, <- Z5, Eb. change 256 with (256 ^ Z.of_nat 1) in eo_priority0. change (2 ^ 32) with (256 ^ Z.of_nat 4) in *.
  split_and!.
  - unfold h8, h7, h6, h5, h4, h3, h2. rewrite <- !app_assoc. by apply (get_unsigned_mid [] 4).
  - unfold h8, h7, h6, h5, h4, h3, h2. rewrite <- !app_assoc. by apply (get_unsigned_mid h1 4).
  - unfold h8, h7, h6, h5, h4, h3. rewrite <- !app_assoc. by apply (get_unsigned_mid h2 1).
  - unfold h8, h7, h6, h5, h4. rewrite <- !app_assoc. apply (get_unsigned_mid h3 4). change (256 ^ Z.of_nat 4) with (2 ^ 32). unfold fn_size. fold cs. lia.
  - unfold h8, h7, h6, h5. rewrite <- !app_assoc. cbn [app]. by apply (cstr_at_mid h4).
  - unfold h8, h7, h6. rewrite <- !app_assoc. by apply get_i64_mid.
  - unfold h8, h7. rewrite <- !app_assoc. by apply get_i64_mid.
  - unfold h8. rewrite <- !app_assoc. apply (get_unsigned_mid h7 4). change (256 ^ Z.of_nat 4) with (2 ^ 32). lia.
  - rewrite drop_app_length'; [done|]. unfold zlen. lia.
Qed.

(** The message of an entry, as it is in the buffer and cut. *)
Lemma print_message m junk rest :
  message_ok m -> Forall (obeys_precision render) (parts m) ->
  Forall (fun p => nul_free (render (spec_of (snd p)) (shown (val (snd p))))) (parts m) ->
  zlen (text_of render m) < 511 -> zlen junk = BB_LINE_MAX -> zlen (stored m ++ rest) < 2 ^ 32 ->
  exists out out', qb_vsnprintf_deserialize render junk BB_LINE_MAX (stored m ++ rest) = Ends (out, zlen (text_of render m) + 1) /\
    buf_put out (zlen (text_of render m) + 1) [0] = Some out' /\
    cstr (trim_loop (length (text_of render m)) out') = Some (trimmed (text_of render m)).
Proof.
  intros Hok Hpr Hr Hl Hj Hb. unfold BB_LINE_MAX in *. pose proof (zlen_nonneg (text_of render m)).
  destruct (deserialize_ok render m junk 512 rest) as (x & Ed); [done|done|done|lia|lia|done|done|].
  pose proof (deserialize_zlen _ _ _ _ _ _ Ed) as Hx. rewrite zlen_app, zlen_cons in Hx. destruct x as [|y x]; [rewrite zlen_nil in Hx; lia|].
  eexists _, _. split; [exact Ed|]. change (text_of render m ++ 0 :: y :: x) with (text_of render m ++ [0] ++ y :: x). rewrite app_assoc.
  replace (zlen (text_of render m) + 1) with (zlen (text_of render m ++ [0])) by (by rewrite zlen_app).
  rewrite buf_put_end by (rewrite !zlen_cons, zlen_nil; pose proof (zlen_nonneg x); lia). split; [reflexivity|].
  rewrite <- !app_assoc. apply trim_loop_ok. by apply text_nul_free.
Qed.

Lemma print_entry_ok e junk rest :
  entry_ok render localtime max_line_length e -> zlen junk = BB_LINE_MAX -> zlen (entry_bytes e ++ rest) < 2 ^ 32 ->
  print_entry render localtime true junk (entry_bytes e ++ rest) (zlen (entry_bytes e)) = Ends (inr (P_line (entry_line e))).
Proof.
  intros He Hj Hb. destruct (entry_fields e rest He) as (E1 & E2 & E3 & E4 & E5 & E6 & E7 & E8 & E9). destruct He.
  pose proof (zlen_nonneg (function (e_cs e))). pose proof (zlen_nonneg (text_of render (e_msg e))).
  assert (0 < zlen (stored (e_msg e))).
  { unfold stored. rewrite zlen_app, zlen_cons. pose proof (zlen_nonneg (format_of (e_msg e))). pose proof (zlen_nonneg (data_of (e_msg e))). lia. }
  assert (Hz : zlen (entry_bytes e) = 34 + zlen (function (e_cs e)) + zlen (stored (e_msg e))).
  { unfold entry_bytes. rewrite !zlen_app, zlen_le_split, zlen_entry_head. lia. }
  destruct (print_message (e_msg e) junk rest) as (out & out' & Ed & Ep & Ec); try done.
  { rewrite <- E9. unfold zlen in *. rewrite length_drop. lia. }
  unfold print_entry. change SIZEOF_TIMESPEC with 16. change BB_MIN_ENTRY_SIZE with 27. unfold BB_LINE_MAX in *.
  rewrite E1. cbn [mbind ended_bind checked option_bind]. rewrite E2. cbn [mbind ended_bind checked option_bind]. rewrite E3. cbn [mbind ended_bind checked option_bind]. rewrite E4. cbn [mbind ended_bind checked option_bind].
  rewrite Hz. destruct (Z.ltb_spec (34 + zlen (function (e_cs e)) + zlen (stored (e_msg e))) (zlen (function (e_cs e)) + 1 + 27)); [lia|].
  destruct (Z.leb_spec (zlen (function (e_cs e)) + 1) 0); [lia|]. rewrite E6. cbn [mbind ended_bind checked option_bind]. rewrite E7. cbn [mbind ended_bind checked option_bind].
  destruct eo_time0 as [time Et]. rewrite Et. cbn [mbind ended_bind checked option_bind]. rewrite E8. cbn [mbind ended_bind checked option_bind].
  destruct (Z.ltb_spec 512 (zlen (stored (e_msg e)))); [lia|]. destruct (Z.leb_spec (zlen (stored (e_msg e))) 0); [lia|].
  cbn [orb]. rewrite E9, Ed. cbn [mbind ended_bind checked option_bind]. rewrite u32_small by lia. destruct (Z.leb_spec (zlen (text_of render (e_msg e)) + 1) 0); [lia|].
  rewrite Ep. cbn [mbind ended_bind checked option_bind]. replace (Z.to_nat (zlen (text_of render (e_msg e)) + 1 - 1)) with (length (text_of render (e_msg e))) by (unfold zlen; lia).
  rewrite Ec. cbn [mbind ended_bind checked option_bind]. rewrite E5. cbn [mbind ended_bind checked option_bind]. unfold entry_line. by rewrite Et.
Qed.

(** ** Printing all entries *)

Lemma read_chunk (rb : ring) d q len :
  rb_inv rb (d :: q) -> notifier rb = no_notifier -> zlen d <= len ->
  qb_rb_chunk_read (Some rb) len 0 0 = Some (Some (drop_head rb), zlen d, d).
Proof.
  intros Hinv Hn Hl. unfold qb_rb_chunk_read, wait_notifier. rewrite Hn. cbn [timedwait_fn no_notifier].
  rewrite (head_magic rb d q), (head_size rb d q), (head_data rb d q), (reclaim_inv rb d q), Hn by done. cbn.
  by destruct (Z.ltb_spec len (zlen d)); [lia|].
Qed.

Lemma read_nothing (rb : ring) len :
  notifier rb = no_notifier -> QB_RB_CHUNK_MAGIC_GET rb (read_pt (shared_hdr rb)) <> QB_RB_CHUNK_MAGIC ->
  qb_rb_chunk_read (Some rb) len 0 0 = Some (Some rb, - ETIMEDOUT, []).
Proof.
  intros Hn Hm. unfold qb_rb_chunk_read, wait_notifier. rewrite Hn. cbn [timedwait_fn no_notifier].
  cbn [Z.ltb Z.compare andb]. rewrite (proj2 (Z.eqb_neq _ _) Hm), Hn. done.
Qed.

(** Reading marks chunks as dead and never makes a new one. *)
Lemma drop_head_magic (rb : ring) d q p :
  rb_inv rb (d :: q) -> QB_RB_CHUNK_MAGIC_GET (drop_head rb) p = QB_RB_CHUNK_MAGIC -> QB_RB_CHUNK_MAGIC_GET rb p = QB_RB_CHUNK_MAGIC.
Proof.
  intros Hinv. pose proof Hinv as [Hw Hm Hr _ _ _]. unfold max_word_size in Hw. unfold QB_RB_CHUNK_MAGIC_GET, drop_head.
  cbn [set_read_pt set_hdr shared_hdr shared_data word_size QB_RB_CHUNK_MAGIC_SET set_data].
  pose proof (Z.mod_pos_bound (u32 (p + 1)) (word_size (shared_hdr rb)) ltac:(lia)) as Hp.
  rewrite !(word_get_set (word_size (shared_hdr rb))) by (autorewrite with qb_len; (done || lia)).
  repeat case_decide; done.
Qed.

Lemma print_loop_ok junk err q : forall fuel chunk rb,
  rb_inv rb (entry_bytes <$> q) -> notifier rb = no_notifier -> Forall (entry_ok render localtime max_line_length) q ->
  zlen junk = BB_LINE_MAX -> zlen chunk = CHUNK_MAX -> (length q < fuel)%nat ->
  exists r, print_loop render localtime fuel true junk chunk rb err = foldr then_print r ((fun e => P_line (entry_line e)) <$> q) /\
    (QB_RB_CHUNK_MAGIC_GET rb (write_pt (shared_hdr rb)) <> QB_RB_CHUNK_MAGIC -> r = Printed [P_perror ETIMEDOUT] (- EIO)).
Proof.
  induction q as [|e q IH]; intros fuel chunk rb Hinv Hn Hok Hj Hc Hf; (destruct fuel as [|fuel]; [lia|]).
  - eexists. split; [reflexivity|]. intros Hm. cbn [print_loop]. rewrite read_nothing; [done|done|].
    pose proof (inv_wp _ _ Hinv) as Hwp. cbn [fmap list_fmap used] in Hwp. pose proof (inv_rp _ _ Hinv).
    by rewrite Z.add_0_r, Z.mod_small in Hwp; [rewrite <- Hwp|].
  - apply list.Forall_cons in Hok as [He Hok]. pose proof (entry_size render localtime max_line_length Hline e He) as Hs.
    assert (Hz : 34 <= zlen (entry_bytes e) <= CHUNK_MAX).
    { unfold CHUNK_MAX, BB_LINE_MAX in *. pose proof (eo_size _ _ _ _ He) as Hfs. rewrite fixed_size_head, zlen_entry_head in Hs by done.
      split; [|lia]. unfold entry_bytes. rewrite !zlen_app, zlen_le_split, zlen_entry_head.
      pose proof (zlen_nonneg (function (e_cs e))). pose proof (zlen_nonneg (stored (e_msg e))). lia. }
    destruct (IH fuel (entry_bytes e ++ drop (length (entry_bytes e)) chunk) (drop_head rb)) as (r & E & Hr); try done.
    { by eapply drop_head_inv. }
    { unfold CHUNK_MAX, zlen in *. rewrite length_app, length_drop. lia. }
    { cbn in Hf. lia. }
    exists r. split.
    + cbn [print_loop fmap list_fmap foldr]. rewrite (read_chunk rb (entry_bytes e) (entry_bytes <$> q)) by (done || lia).
      change BB_MIN_ENTRY_SIZE with 27. destruct (Z.leb_spec 0 (zlen (entry_bytes e))); [|lia].
      destruct (Z.ltb_spec (zlen (entry_bytes e)) 27); [lia|]. cbn [andb]. destruct (Z.ltb_spec (zlen (entry_bytes e)) 0); [lia|].
      change chunk with ([] ++ chunk) at 1. change 0 with (zlen (@nil Z)) at 1. rewrite buf_put_end by lia. cbn [app].
      rewrite print_entry_ok; [|done|done|]. 2: { unfold CHUNK_MAX, BB_LINE_MAX, zlen in *. rewrite length_app, length_drop. lia. }
      destruct (Z.ltb_spec 27 (zlen (entry_bytes e))); [|lia]. by rewrite E.
    + intros Hm. apply Hr. intros Hm'. apply Hm. eapply drop_head_magic; [exact Hinv|]. exact Hm'.
Qed.
End Printing.

(** An entry is printed, or refused, or undefined. *)
Lemma print_entry_ends render localtime hts junk chunk n : print_entry render localtime hts junk chunk n <> Diverges.
Proof.
  unfold print_entry.
  repeat match goal with
  | |- mbind _ (checked ?x) <> _ => destruct x; [|done]; cbn [mbind ended_bind checked]
  | |- mbind _ (qb_vsnprintf_deserialize ?r ?junk ?n ?b) <> _ =>
      pose proof (deserialize_ends r junk n b); destruct (qb_vsnprintf_deserialize r junk n b); [|done..]; cbn [mbind ended_bind]
  | |- (if ?b then _ else _) <> _ => destruct b; [done|]
  | |- (let '(_, _) := ?p in _) <> _ => destruct p
  | |- (let _ := _ in _) <> _ => cbv zeta
  end.
  done.
Qed.

(** Printing ends for every ring: each round but the last destroys a magic
    number. *)
Lemma print_loop_total render localtime hts junk err fuel : forall chunk (rb : ring),
  let N := word_size (shared_hdr rb) in
  0 < N -> zlen (shared_data rb) = 4 * N -> notifier rb = no_notifier -> (magics (shared_data rb) N < fuel)%nat ->
  print_loop render localtime fuel hts junk chunk rb err <> Print_diverges.
Proof.
  induction fuel as [|fuel IH]; intros chunk rb N HN Hm Hn Hf; [lia|]. cbn [print_loop].
  destruct (decide (QB_RB_CHUNK_MAGIC_GET rb (read_pt (shared_hdr rb)) = QB_RB_CHUNK_MAGIC)) as [Em|Em]; [|by rewrite read_nothing].
  destruct (_rb_chunk_reclaim rb 0) as [[rb' errno'] rc] eqn:Er.
  assert (rc = 0 /\ notifier rb' = no_notifier) as [-> Hn'].
  { unfold _rb_chunk_reclaim in Er. rewrite Em, Z.eqb_refl in Er. cbn in Er. rewrite Hn in Er. cbn in Er. by injection Er as <- _ <-. }
  apply reclaim_magics in Er as Hr; [|done|done]. destruct Hr as (Hlt & Hws & Hlen).
  unfold qb_rb_chunk_read, wait_notifier. rewrite Hn. cbn [timedwait_fn no_notifier]. rewrite Em, Z.eqb_refl.
  cbn [Z.ltb Z.compare andb negb]. destruct (_ <? _); [unfold repost; by rewrite Hn|]. rewrite Er.
  set (sz := QB_RB_CHUNK_SIZE_GET rb _). destruct (_ && _); [done|]. destruct (sz <? 0); [done|].
  destruct (buf_put _ _ _) as [chunk'|]; [|done]. match goal with |- context [print_entry ?a ?b ?c ?d ?e ?f] => pose proof (print_entry_ends a b c d e f) as He end.
  destruct (print_entry _ _ _ _ _ _) as [[ev|ev]| |]; [done| |done|done].
  destruct (_ <? _); [|done]. specialize (IH chunk' rb'). cbv zeta in IH. rewrite Hws in IH. fold N in IH, Hlt, Hf.
  destruct (print_loop _ _ fuel _ _ _ _ _) eqn:E; [done..|]. exfalso. apply IH; [done|done|done|lia|done].
Qed.

(** ** Main theorems *)

(** Log the messages of [es] one after the other. *)
Fixpoint log_all (max_line_length : Z) (inst : option ring) (es : list log_entry) (ce : close_env) : option (option ring) :=
  match es with
  | [] => Some inst
  | e :: es =>
    '(inst, _) ← _blackbox_vlogger inst max_line_length (e_cs e) (e_sec e) (e_nsec e) (args_of (e_msg e)) 0 ce;
    log_all max_line_length inst es ce
  end.

(** The entries a box of [N] words holds after [es]. *)
Definition kept (max_line_length N : Z) (q es : list log_entry) : list log_entry :=
  foldl (fun q e => newest N q (max_size_of max_line_length e) ++ [e]) q es.

Lemma newest_sub N q len e : e ∈ newest N q len -> e ∈ q.
Proof. induction q as [|d q IH]; cbn [newest]; destruct (fits _ _ _); [done..|]. intros H. apply elem_of_cons. by right; apply IH. Qed.

Section Box.
Context (render : list Z -> varg -> list Z) (localtime : Z -> option tm) (max_line_length cap : Z) (ce : close_env).
Hypothesis Hline : 0 < max_line_length <= BB_LINE_MAX.

(** Entries of at most [cap] bytes, of which a ring has room for two. *)
Definition small (e : log_entry) : Prop := fixed_size (e_cs e) + BB_LINE_MAX <= cap.

Lemma log_all_holds es : forall rb q,
  holds render localtime max_line_length rb q -> Forall (entry_ok render localtime max_line_length) es ->
  Forall small (q ++ es) -> 2 * cap + 32 <= 4 * word_size (shared_hdr rb) ->
  exists rb', log_all max_line_length (Some rb) es ce = Some (Some rb')
    /\ holds render localtime max_line_length rb' (kept max_line_length (word_size (shared_hdr rb)) q es)
    /\ word_size (shared_hdr rb') = word_size (shared_hdr rb).
Proof.
  induction es as [|e es IH]; intros rb q Hh Hok Hs HN; [by exists rb|]. apply list.Forall_cons in Hok as [He Hok]. cbn [log_all].
  apply Forall_app in Hs as Hs'. destruct Hs' as [Hsq Hse]. apply list.Forall_cons in Hse as [Hse Hses].
  destruct (vlogger_holds render localtime max_line_length Hline rb q e 0 ce cap) as (rb1 & -> & Hh1 & Hw1); [done|done| |done|].
  { intros e' [->|Hin]%elem_of_cons; [done|]. rewrite list.Forall_forall in Hsq. by apply Hsq. }
  cbn [mbind option_bind]. destruct (IH rb1 (newest (word_size (shared_hdr rb)) q (max_size_of max_line_length e) ++ [e])) as (rb' & E & Hh' & Hw'); try done.
  - rewrite <- app_assoc. apply Forall_app. split; [|by constructor]. by apply newest_forall.
  - by rewrite Hw1.
  - exists rb'. rewrite Hw1 in *. done.
Qed.

(** A box that was just opened. *)
Lemma opened_holds env size :
  open_succeeds env -> size_ok env size ->
  exists rb, qb_rb_open size BB_FLAGS env = inr rb /\ holds render localtime max_line_length rb [] /\
    word_size (shared_hdr rb) = real_size_of env size / 4.
Proof.
  intros Hos Hsz. destruct (open_create env size BB_FLAGS Hos Hsz) as (rb & E & Hfl & Hinv & Hws & _ & Hn); [done|].
  exists rb. split; [done|]. split; [|done]. change (has_flag BB_FLAGS QB_RB_FLAG_NO_SEMAPHORE) with false in Hn. injection Hn as Hnt Hi.
  constructor; [done|done|by rewrite Hfl|intros _; by rewrite Hi|constructor].
Qed.
End Box.


(** A ring that the loader opens has a data area of its size. *)
Lemma created_shape words env (rb : ring) :
  0 < page_size env < 2 ^ 32 -> (4 | page_size env) -> 0 <= words < 2 ^ 30 ->
  qb_rb_open (u64 (words * 4 - (QB_RB_CHUNK_MARGIN + 1))) (Z.lor QB_RB_FLAG_CREATE QB_RB_FLAG_NO_SEMAPHORE) env = inr rb ->
  zlen (shared_data rb) = 4 * word_size (shared_hdr rb) /\ 0 <= word_size (shared_hdr rb) /\ notifier rb = no_notifier.
Proof.
  intros Hp [k Hk] Hw. unfold qb_rb_open, qb_rb_open_2.
  change (has_flag (Z.lor QB_RB_FLAG_CREATE QB_RB_FLAG_NO_SEMAPHORE) QB_RB_FLAG_CREATE) with true. cbn.
  change (qb_rb_sem_create _ _ _) with (no_notifier, env_psem env, 0). cbn.
  repeat match goal with |- (if ?c then _ else _) = _ -> _ => destruct c; [done|] end. intros [= <-]. cbn.
  autorewrite with qb_len.
  assert (Hr : real_size_of env (u64 (words * 4 - 13)) = (words * 4 + (page_size env - 1)) / page_size env * page_size env).
  { unfold real_size_of. change (QB_RB_CHUNK_MARGIN + 1) with 13. unfold u64 at 3 4. rewrite Zplus_mod_idemp_l.
    replace (words * 4 - 13 + 13) with (words * 4) by lia. rewrite (Z.mod_small (words * 4)) by lia. rewrite (u64_small (words * 4 + _)) by lia.
    apply u64_small. pose proof (Z.mul_div_le (words * 4 + (page_size env - 1)) (page_size env) ltac:(lia)).
    pose proof (Z.div_pos (words * 4 + (page_size env - 1)) (page_size env) ltac:(lia) ltac:(lia)). nia. }
  change (QB_RB_CHUNK_MARGIN + 1) with 13. rewrite Hr.
  set (n := (words * 4 + (page_size env - 1)) / page_size env).
  assert (0 <= n /\ n * page_size env <= words * 4 + (page_size env - 1)).
  { unfold n. split; [apply Z.div_pos; lia|]. rewrite Z.mul_comm. apply Z.mul_div_le. lia. }
  replace (n * page_size env) with (n * k * 4) by (rewrite Hk; lia). rewrite Z.div_mul, u32_small by nia.
  split_and!; [|nia|done]. rewrite zlen_zrepeat by nia. lia.
Qed.

Lemma le_combine_nonneg bs : Forall (fun b => 0 <= b < 256) bs -> 0 <= le_combine bs.
Proof. induction 1; cbn [le_combine]; lia. Qed.

(** A ring that was loaded from a file: its data area has its size. *)
Lemma loaded_shape fd st_size rest env rb :
  Forall (fun b => 0 <= b < 256) rest -> 0 < page_size env < 2 ^ 32 -> (4 | page_size env) -> st_size < 2 ^ 32 ->
  load_from fd st_size rest env = Load_rb rb ->
  zlen (shared_data rb) = 4 * word_size (shared_hdr rb) /\ 0 <= word_size (shared_hdr rb) /\ notifier rb = no_notifier.
Proof.
  intros Hby Hp Hp4 Hst. unfold load_from. destruct (fd <? 0); [done|].
  destruct (file_read rest 4) as [b1 f1] eqn:E1. destruct (negb (zlen b1 =? 4)); [done|].
  destruct (Z.ltb_spec (st_size / 4) (le_combine b1)) as [|Hw]; [done|].
  repeat match goal with
  | |- (let '(_, _) := file_read ?f 4 in _) = _ -> _ => destruct (file_read f 4) as [? ?]
  | |- (if ?c then _ else _) = _ -> _ => destruct c; [done|]
  end.
  destruct (qb_rb_open _ _ env) as [|rb1] eqn:Eo; [done|].
  match goal with |- (let '(_, _) := file_read ?f ?n in _) = _ -> _ => destruct (file_read f n) as [b6 f6] end.
  destruct (_ =? _); [|done]. intros [= <-]. cbn. rewrite zlen_blit. apply created_shape in Eo; [done|done|done|].
  split; [|zlia]. apply le_combine_nonneg. unfold file_read in E1. injection E1 as <- _. by apply Forall_take.
Qed.

(** C40. Printing from a file ends, whatever the file of less than 4 gigabytes and the
    memory hold: neither the loop over the chunks nor, in it, the loop over the format
    of a message runs for ever.  This is not that every file can be printed: for some
    contents the code accesses memory out of bounds or fails an assertion, which ends
    the run as well ([Print_undefined]). *)
Theorem print_terminates render localtime fd file errno env chunk junk :
  Forall (fun b => 0 <= b < 256) file -> zlen file < 2 ^ 32 -> 0 < page_size env < 2 ^ 32 -> (4 | page_size env) ->
  qb_log_blackbox_print_from_file render localtime fd file errno env chunk junk <> Print_diverges.
Proof.
  intros Hby Hf Hp Hp4. unfold qb_log_blackbox_print_from_file. destruct (fd <? 0); [done|].
  destruct (file_read file SIZEOF_HEADER) as [header rest] eqn:Er. destruct (_ <? _); [done|].
  destruct (load_from _ _ _ _) as [| |rb] eqn:El; [done..|]. apply loaded_shape in El as (Hm & HN & Hn); [| |done..].
  2: { case_bool_decide; [|done]. injection Er as _ <-. by apply Forall_drop. }
  destruct chunk as [chunk|]; [|done]. destruct (decide (word_size (shared_hdr rb) = 0)) as [E0|E0].
  - cbn [print_loop]. rewrite E0 in *. rewrite read_nothing; [done|done|]. unfold QB_RB_CHUNK_MAGIC_GET, word_get.
    destruct (shared_data rb) as [|x m]; [done|]. rewrite zlen_cons in Hm. pose proof (zlen_nonneg m). lia.
  - apply print_loop_total; [lia|done|done|]. pose proof (magics_bound (shared_data rb) (word_size (shared_hdr rb))). lia.
Qed.

(** * The black box: examples

    A small box at which the theorems apply, and what goes wrong with long
    messages, other lengths of lines and files that cannot be written. *)
Module BlackBoxExamples.

Definition bb_site (fmt : list Z) : qb_log_callsite :=
  {| function := bytes "main"; filename := bytes "a.c"; format := fmt; priority := LOG_INFO; lineno := 42; targets := 4; tags := 7;
     message_id := None |}.

Definition entry_of (m : message) (sec nsec : Z) : log_entry :=
  {| e_cs := bb_site (format_of m); e_sec := sec; e_nsec := nsec; e_msg := m |}.

Definition bb_time (sec : Z) : option tm := Some {| tm_mon := 3; tm_mday := 1; tm_hour := 12; tm_min := 30; tm_sec := sec |}.

Definition started_msg : message := {| parts := [(bytes "started with ", {| mods := []; val := A_int 100 W_none 3 |})]; tail_text := [10] |}.
Definition two_entries : list log_entry := [entry_of some_message 5 123000000; entry_of started_msg 6 7000000].

(** A box of 2000 bytes. *)
Definition bb_env : open_env := small_env 16.
Definition bb_close : close_env := {| ce_open_dir := 0; ce_unlink_data := 0; ce_unlink_hdr := 0; ce_munmap_data := 0; ce_munmap_hdr := 0 |}.
Definition wrote (n : Z) : write_outcome := {| wr_result := n; wr_errno := 0 |}.

Definition box_after (max_line_length : Z) (es : list log_entry) : option ring :=
  default None (log_all max_line_length (opened (qb_rb_open 2000 BB_FLAGS bb_env)) es bb_close).

(** Log, save and print. *)
Definition box_prints (render : list Z -> varg -> list Z) (max_line_length : Z) (es : list log_entry) : print_result :=
  let '(file, _) := qb_log_blackbox_write_to_file (box_after max_line_length es) 3 [] (wrote 20) (all_written 2016) in
  qb_log_blackbox_print_from_file render bb_time 3 file 0 bb_env (Some (zrepeat 170 1024)) (zrepeat 170 512).

Example box_prints_two : box_prints plain_render 512 two_entries =
  Printed [P_line (bytes "info    Apr 01 12:30:05.123 main(42):7: took -42 ms in main, 1234567890123 (null)!" ++ [10]);
           P_line (bytes "info    Apr 01 12:30:06.007 main(42):7: started with 3" ++ [10]); P_perror ETIMEDOUT] (- EIO).
Proof. vm_compute. reflexivity. Qed.

(** ** Witnesses *)

Ltac in_range := vm_compute; split; [discriminate|reflexivity].
Ltac by_decision := apply (bool_decide_unpack _); vm_compute; exact I.
Ltac entry_solve :=
  constructor;
  [ in_range | in_range | in_range | unfold nul_free; by_decision | vm_compute; discriminate | in_range | in_range | vm_compute; by eexists
  | reflexivity | by_decision | by_decision | unfold nul_free; by_decision | vm_compute; reflexivity | vm_compute; reflexivity ].

Lemma entries_ok : Forall (entry_ok plain_render bb_time 512) two_entries.
Proof. repeat (apply list.Forall_cons; split); [entry_solve|entry_solve|constructor]. Qed.


(** A file that is not a black box: bytes that look like a ring of four words. *)
Definition some_file : list Z := saved_bytes 4 0 0 (zrepeat 161 16).
Lemma print_terminates_witness :
  qb_log_blackbox_print_from_file plain_render bb_time 3 some_file 0 bb_env (Some (zrepeat 170 1024)) (zrepeat 170 512) <> Print_diverges.
Proof.
  apply (print_terminates plain_render bb_time 3 some_file 0 bb_env (Some (zrepeat 170 1024)) (zrepeat 170 512)).
  - apply (bool_decide_unpack _). vm_compute. exact I.
  - vm_compute. reflexivity.
  - vm_compute. split; reflexivity.
  - exists 4. reflexivity.
Defined.

(** ** Faults *)

Definition text_msg (t : list Z) : message := {| parts := []; tail_text := t |}.
Definition number_msg : message := {| parts := [([], {| mods := []; val := A_int 100 W_none 3 |})]; tail_text := [] |}.

(** Faults of the black box.  A message of 511 characters or more is ended
    behind the buffer it is printed to.  With lines of less than 78 characters a
    message that is too long overruns its chunk, since the text stored in its place
    may have 512.  With longer lines than 512 a message that was stored is taken
    for a corrupt file, and those behind it are not printed.  A file that cannot be
    written gives a result that is neither a size nor the error. *)
Theorem blackbox_faults :
  box_prints (fun _ _ => zrepeat 48 510) 512 [entry_of number_msg 1 0] <> Print_undefined /\
  box_prints (fun _ _ => zrepeat 48 511) 512 [entry_of number_msg 1 0] = Print_undefined /\
  log_all 64 (opened (qb_rb_open 2000 BB_FLAGS bb_env)) [entry_of (text_msg (zrepeat 48 64)) 1 0] bb_close = None /\
  box_prints plain_render 600 [entry_of (text_msg (zrepeat 48 520)) 1 0; entry_of started_msg 2 0] = Printed [P_msg_len_out_of_bounds] (- EIO) /\
  snd (qb_log_blackbox_write_to_file (box_after 512 two_entries) 3 [] (wrote 20) [{| wr_result := -1; wr_errno := 28 |}]) = -8 /\
  snd (qb_log_blackbox_write_to_file (box_after 512 two_entries) 3 [] (wrote (-1)) (all_written 2016)) = 2035.
Proof. vm_compute. repeat split; discriminate. Qed.

End BlackBoxExamples.
