(* ===== verification/IpcBase.v ===== *)
(** * Inter-process communication: data (lib/ipc_int.h, include/qb/qbipc_common.h,
      include/qb/qbipcs.h)

    The service and its connections, the connections of clients, the rings in
    shared memory and the calls to the system, gathered in one state of the
    machine, with the monad in which the operations are written.

    Objects are named by their address: a connection that was freed is no longer
    in [conns], and using it is the fault [F_freed].  There is one service.  The
    system (sockets, memory, directories) and the main loop of the application
    answer calls: an answer may depend on the whole history of calls, so that
    every behaviour of the environment is an [Env]. *)
From stdpp Require Import gmap.
From S2P Require Import Prelude Memory Cstring RingBuffer RingBufferOpen Loop.

(** ** Constants *)

Module IpcErrno.
Definition ESRCH : Z := 3.
Definition EIO : Z := 5.
Definition EACCES : Z := 13.
Definition EPIPE : Z := 32.
Definition ENAMETOOLONG : Z := 36.
Definition ENOMSG : Z := 42.
Definition EMSGSIZE : Z := 90.
Definition ECONNRESET : Z := 104.
Definition ENOTCONN : Z := 107.
Definition ESHUTDOWN : Z := 108.
End IpcErrno.
Export IpcErrno.

Definition POLLIN : Z := 1.
Definition POLLPRI : Z := 2.
Definition POLLOUT : Z := 4.
Definition POLLERR : Z := 8.
Definition POLLHUP : Z := 16.
Definition POLLNVAL : Z := 32.

Definition NAME_MAX : Z := 255.
Definition PATH_MAX : Z := 4096.
Definition UNIX_PATH_MAX : Z := 108.
Definition CONNECTION_DESCRIPTION : Z := NAME_MAX.
Definition QB_IPC_MAX_WAIT_MS : Z := 2000.

Definition QB_IPC_MSG_AUTHENTICATE : Z := -1.
Definition QB_IPC_MSG_NEW_EVENT_SOCK : Z := -2.
Definition QB_IPC_MSG_DISCONNECT : Z := -3.

(** An [enum] variable can also hold a number that is none of its constants. *)
Inductive qb_ipc_type :=
  | QB_IPC_SOCKET | QB_IPC_SHM | QB_IPC_POSIX_MQ | QB_IPC_SYSV_MQ | QB_IPC_NATIVE | OTHER_IPC_TYPE.
#[export] Instance ipc_type_eq_dec : EqDecision qb_ipc_type.
Proof. solve_decision. Defined.

Inductive qb_ipcs_rate_limit :=
  | QB_IPCS_RATE_FAST | QB_IPCS_RATE_NORMAL | QB_IPCS_RATE_SLOW | QB_IPCS_RATE_OFF | QB_IPCS_RATE_OFF_2
  | OTHER_RATE.
#[export] Instance rate_limit_eq_dec : EqDecision qb_ipcs_rate_limit.
Proof. solve_decision. Defined.

Inductive qb_ipcs_connection_state :=
  | QB_IPCS_CONNECTION_INACTIVE
  | QB_IPCS_CONNECTION_ACTIVE
  | QB_IPCS_CONNECTION_ESTABLISHED
  | QB_IPCS_CONNECTION_SHUTTING_DOWN.
#[export] Instance connection_state_eq_dec : EqDecision qb_ipcs_connection_state.
Proof. solve_decision. Defined.

(** ** One direction of a connection

    [u.us] and [u.shm] share memory in the code; a one-way is used as
    one or the other only.  A ring is named by its place in [rings] and the
    flags it was opened with.  [u.us.sock_name] is a cell: the pointer is NULL
    when nothing is stored under it; [u.us.shared_data] is a mapping of a control
    file and the place of a structure in it. *)
Record ring_handle := { rh_id : Z; rh_flags : Z }.

Record qb_ipc_one_way := {
  ow_max_msg_size : Z;
  ow_type : qb_ipc_type;
  ow_sock : Z;
  ow_rb : option ring_handle;
  ow_sock_name : option Z;
  ow_shared_data : option (Z * Z);
  ow_shared_file_name : list Z;
}.
Definition set_ow_max_msg_size (r : qb_ipc_one_way) (v : Z) : qb_ipc_one_way :=
  {| ow_max_msg_size := v; ow_type := ow_type r; ow_sock := ow_sock r; ow_rb := ow_rb r;
     ow_sock_name := ow_sock_name r; ow_shared_data := ow_shared_data r;
     ow_shared_file_name := ow_shared_file_name r |}.
Definition set_ow_type (r : qb_ipc_one_way) (v : qb_ipc_type) : qb_ipc_one_way :=
  {| ow_max_msg_size := ow_max_msg_size r; ow_type := v; ow_sock := ow_sock r; ow_rb :=
     ow_rb r; ow_sock_name := ow_sock_name r; ow_shared_data := ow_shared_data r;
     ow_shared_file_name := ow_shared_file_name r |}.
Definition set_ow_sock (r : qb_ipc_one_way) (v : Z) : qb_ipc_one_way :=
  {| ow_max_msg_size := ow_max_msg_size r; ow_type := ow_type r; ow_sock := v; ow_rb :=
     ow_rb r; ow_sock_name := ow_sock_name r; ow_shared_data := ow_shared_data r;
     ow_shared_file_name := ow_shared_file_name r |}.
Definition set_ow_rb (r : qb_ipc_one_way) (v : option ring_handle) : qb_ipc_one_way :=
  {| ow_max_msg_size := ow_max_msg_size r; ow_type := ow_type r; ow_sock := ow_sock r;
     ow_rb := v; ow_sock_name := ow_sock_name r; ow_shared_data := ow_shared_data r;
     ow_shared_file_name := ow_shared_file_name r |}.
Definition set_ow_sock_name (r : qb_ipc_one_way) (v : option Z) : qb_ipc_one_way :=
  {| ow_max_msg_size := ow_max_msg_size r; ow_type := ow_type r; ow_sock := ow_sock r;
     ow_rb := ow_rb r; ow_sock_name := v; ow_shared_data := ow_shared_data r;
     ow_shared_file_name := ow_shared_file_name r |}.
Definition set_ow_shared_data (r : qb_ipc_one_way) (v : option (Z * Z)) : qb_ipc_one_way :=
  {| ow_max_msg_size := ow_max_msg_size r; ow_type := ow_type r; ow_sock := ow_sock r;
     ow_rb := ow_rb r; ow_sock_name := ow_sock_name r; ow_shared_data := v;
     ow_shared_file_name := ow_shared_file_name r |}.
Definition set_ow_shared_file_name (r : qb_ipc_one_way) (v : list Z) : qb_ipc_one_way :=
  {| ow_max_msg_size := ow_max_msg_size r; ow_type := ow_type r; ow_sock := ow_sock r;
     ow_rb := ow_rb r; ow_sock_name := ow_sock_name r; ow_shared_data := ow_shared_data r;
     ow_shared_file_name := v |}.

(** What [calloc] leaves, with the type of the service. *)
Definition new_one_way (t : qb_ipc_type) : qb_ipc_one_way :=
  {| ow_max_msg_size := 0; ow_type := t; ow_sock := 0; ow_rb := None; ow_sock_name := None; ow_shared_data := None;
     ow_shared_file_name := [] |}.

(** The four one-ways of a connection. *)
Inductive ow_name := Ow_setup | Ow_request | Ow_response | Ow_event.
#[export] Instance ow_name_eq_dec : EqDecision ow_name.
Proof. solve_decision. Defined.

(** ** Connections of the server *)

Record qb_ipcs_connection_stats_2 := {
  st_client_pid : Z;
  st_requests : Z;
  st_responses : Z;
  st_events : Z;
  st_send_retries : Z;
  st_recv_retries : Z;
  st_flow_control_state : Z;
  st_flow_control_count : Z;
  st_event_q_length : Z;
}.
Definition set_st_client_pid (r : qb_ipcs_connection_stats_2) (v : Z) : qb_ipcs_connection_stats_2 :=
  {| st_client_pid := v; st_requests := st_requests r; st_responses := st_responses r;
     st_events := st_events r; st_send_retries := st_send_retries r; st_recv_retries :=
     st_recv_retries r; st_flow_control_state := st_flow_control_state r;
     st_flow_control_count := st_flow_control_count r; st_event_q_length := st_event_q_length
     r |}.
Definition set_st_requests (r : qb_ipcs_connection_stats_2) (v : Z) : qb_ipcs_connection_stats_2 :=
  {| st_client_pid := st_client_pid r; st_requests := v; st_responses := st_responses r;
     st_events := st_events r; st_send_retries := st_send_retries r; st_recv_retries :=
     st_recv_retries r; st_flow_control_state := st_flow_control_state r;
     st_flow_control_count := st_flow_control_count r; st_event_q_length := st_event_q_length
     r |}.
Definition set_st_responses (r : qb_ipcs_connection_stats_2) (v : Z) : qb_ipcs_connection_stats_2 :=
  {| st_client_pid := st_client_pid r; st_requests := st_requests r; st_responses := v;
     st_events := st_events r; st_send_retries := st_send_retries r; st_recv_retries :=
     st_recv_retries r; st_flow_control_state := st_flow_control_state r;
     st_flow_control_count := st_flow_control_count r; st_event_q_length := st_event_q_length
     r |}.
Definition set_st_events (r : qb_ipcs_connection_stats_2) (v : Z) : qb_ipcs_connection_stats_2 :=
  {| st_client_pid := st_client_pid r; st_requests := st_requests r; st_responses :=
     st_responses r; st_events := v; st_send_retries := st_send_retries r; st_recv_retries :=
     st_recv_retries r; st_flow_control_state := st_flow_control_state r;
     st_flow_control_count := st_flow_control_count r; st_event_q_length := st_event_q_length
     r |}.
Definition set_st_send_retries (r : qb_ipcs_connection_stats_2) (v : Z) : qb_ipcs_connection_stats_2 :=
  {| st_client_pid := st_client_pid r; st_requests := st_requests r; st_responses :=
     st_responses r; st_events := st_events r; st_send_retries := v; st_recv_retries :=
     st_recv_retries r; st_flow_control_state := st_flow_control_state r;
     st_flow_control_count := st_flow_control_count r; st_event_q_length := st_event_q_length
     r |}.
Definition set_st_recv_retries (r : qb_ipcs_connection_stats_2) (v : Z) : qb_ipcs_connection_stats_2 :=
  {| st_client_pid := st_client_pid r; st_requests := st_requests r; st_responses :=
     st_responses r; st_events := st_events r; st_send_retries := st_send_retries r;
     st_recv_retries := v; st_flow_control_state := st_flow_control_state r;
     st_flow_control_count := st_flow_control_count r; st_event_q_length := st_event_q_length
     r |}.
Definition set_st_flow_control_state (r : qb_ipcs_connection_stats_2) (v : Z) : qb_ipcs_connection_stats_2 :=
  {| st_client_pid := st_client_pid r; st_requests := st_requests r; st_responses :=
     st_responses r; st_events := st_events r; st_send_retries := st_send_retries r;
     st_recv_retries := st_recv_retries r; st_flow_control_state := v; st_flow_control_count
     := st_flow_control_count r; st_event_q_length := st_event_q_length r |}.
Definition set_st_flow_control_count (r : qb_ipcs_connection_stats_2) (v : Z) : qb_ipcs_connection_stats_2 :=
  {| st_client_pid := st_client_pid r; st_requests := st_requests r; st_responses :=
     st_responses r; st_events := st_events r; st_send_retries := st_send_retries r;
     st_recv_retries := st_recv_retries r; st_flow_control_state := st_flow_control_state r;
     st_flow_control_count := v; st_event_q_length := st_event_q_length r |}.
Definition set_st_event_q_length (r : qb_ipcs_connection_stats_2) (v : Z) : qb_ipcs_connection_stats_2 :=
  {| st_client_pid := st_client_pid r; st_requests := st_requests r; st_responses :=
     st_responses r; st_events := st_events r; st_send_retries := st_send_retries r;
     st_recv_retries := st_recv_retries r; st_flow_control_state := st_flow_control_state r;
     st_flow_control_count := st_flow_control_count r; st_event_q_length := v |}.

Definition zero_stats : qb_ipcs_connection_stats_2 :=
  {| st_client_pid := 0; st_requests := 0; st_responses := 0; st_events := 0; st_send_retries := 0;
     st_recv_retries := 0; st_flow_control_state := 0; st_flow_control_count := 0; st_event_q_length := 0 |}.

Record qb_ipcs_connection_auth := { auth_uid : Z; auth_gid : Z; auth_mode : Z }.

Record qb_ipcs_connection := {
  c_state : qb_ipcs_connection_state;
  c_refcount : Z;
  c_pid : Z;
  c_euid : Z;
  c_egid : Z;
  c_auth : qb_ipcs_connection_auth;
  c_setup : qb_ipc_one_way;
  c_request : qb_ipc_one_way;
  c_response : qb_ipc_one_way;
  c_event : qb_ipc_one_way;
  c_receive_buf : option (list Z);
  c_context : Z;
  c_fc_enabled : Z;
  c_poll_events : Z;
  c_outstanding_notifiers : Z;
  c_description : list Z;
  c_stats : qb_ipcs_connection_stats_2;
}.
Definition set_c_state (r : qb_ipcs_connection) (v : qb_ipcs_connection_state) : qb_ipcs_connection :=
  {| c_state := v; c_refcount := c_refcount r; c_pid := c_pid r; c_euid := c_euid r; c_egid
     := c_egid r; c_auth := c_auth r; c_setup := c_setup r; c_request := c_request r;
     c_response := c_response r; c_event := c_event r; c_receive_buf := c_receive_buf r;
     c_context := c_context r; c_fc_enabled := c_fc_enabled r; c_poll_events := c_poll_events
     r; c_outstanding_notifiers := c_outstanding_notifiers r; c_description := c_description
     r; c_stats := c_stats r |}.
Definition set_c_refcount (r : qb_ipcs_connection) (v : Z) : qb_ipcs_connection :=
  {| c_state := c_state r; c_refcount := v; c_pid := c_pid r; c_euid := c_euid r; c_egid :=
     c_egid r; c_auth := c_auth r; c_setup := c_setup r; c_request := c_request r; c_response
     := c_response r; c_event := c_event r; c_receive_buf := c_receive_buf r; c_context :=
     c_context r; c_fc_enabled := c_fc_enabled r; c_poll_events := c_poll_events r;
     c_outstanding_notifiers := c_outstanding_notifiers r; c_description := c_description r;
     c_stats := c_stats r |}.
Definition set_c_pid (r : qb_ipcs_connection) (v : Z) : qb_ipcs_connection :=
  {| c_state := c_state r; c_refcount := c_refcount r; c_pid := v; c_euid := c_euid r; c_egid
     := c_egid r; c_auth := c_auth r; c_setup := c_setup r; c_request := c_request r;
     c_response := c_response r; c_event := c_event r; c_receive_buf := c_receive_buf r;
     c_context := c_context r; c_fc_enabled := c_fc_enabled r; c_poll_events := c_poll_events
     r; c_outstanding_notifiers := c_outstanding_notifiers r; c_description := c_description
     r; c_stats := c_stats r |}.
Definition set_c_euid (r : qb_ipcs_connection) (v : Z) : qb_ipcs_connection :=
  {| c_state := c_state r; c_refcount := c_refcount r; c_pid := c_pid r; c_euid := v; c_egid
     := c_egid r; c_auth := c_auth r; c_setup := c_setup r; c_request := c_request r;
     c_response := c_response r; c_event := c_event r; c_receive_buf := c_receive_buf r;
     c_context := c_context r; c_fc_enabled := c_fc_enabled r; c_poll_events := c_poll_events
     r; c_outstanding_notifiers := c_outstanding_notifiers r; c_description := c_description
     r; c_stats := c_stats r |}.
Definition set_c_egid (r : qb_ipcs_connection) (v : Z) : qb_ipcs_connection :=
  {| c_state := c_state r; c_refcount := c_refcount r; c_pid := c_pid r; c_euid := c_euid r;
     c_egid := v; c_auth := c_auth r; c_setup := c_setup r; c_request := c_request r;
     c_response := c_response r; c_event := c_event r; c_receive_buf := c_receive_buf r;
     c_context := c_context r; c_fc_enabled := c_fc_enabled r; c_poll_events := c_poll_events
     r; c_outstanding_notifiers := c_outstanding_notifiers r; c_description := c_description
     r; c_stats := c_stats r |}.
Definition set_c_auth (r : qb_ipcs_connection) (v : qb_ipcs_connection_auth) : qb_ipcs_connection :=
  {| c_state := c_state r; c_refcount := c_refcount r; c_pid := c_pid r; c_euid := c_euid r;
     c_egid := c_egid r; c_auth := v; c_setup := c_setup r; c_request := c_request r;
     c_response := c_response r; c_event := c_event r; c_receive_buf := c_receive_buf r;
     c_context := c_context r; c_fc_enabled := c_fc_enabled r; c_poll_events := c_poll_events
     r; c_outstanding_notifiers := c_outstanding_notifiers r; c_description := c_description
     r; c_stats := c_stats r |}.
Definition set_c_setup (r : qb_ipcs_connection) (v : qb_ipc_one_way) : qb_ipcs_connection :=
  {| c_state := c_state r; c_refcount := c_refcount r; c_pid := c_pid r; c_euid := c_euid r;
     c_egid := c_egid r; c_auth := c_auth r; c_setup := v; c_request := c_request r;
     c_response := c_response r; c_event := c_event r; c_receive_buf := c_receive_buf r;
     c_context := c_context r; c_fc_enabled := c_fc_enabled r; c_poll_events := c_poll_events
     r; c_outstanding_notifiers := c_outstanding_notifiers r; c_description := c_description
     r; c_stats := c_stats r |}.
Definition set_c_request (r : qb_ipcs_connection) (v : qb_ipc_one_way) : qb_ipcs_connection :=
  {| c_state := c_state r; c_refcount := c_refcount r; c_pid := c_pid r; c_euid := c_euid r;
     c_egid := c_egid r; c_auth := c_auth r; c_setup := c_setup r; c_request := v; c_response
     := c_response r; c_event := c_event r; c_receive_buf := c_receive_buf r; c_context :=
     c_context r; c_fc_enabled := c_fc_enabled r; c_poll_events := c_poll_events r;
     c_outstanding_notifiers := c_outstanding_notifiers r; c_description := c_description r;
     c_stats := c_stats r |}.
Definition set_c_response (r : qb_ipcs_connection) (v : qb_ipc_one_way) : qb_ipcs_connection :=
  {| c_state := c_state r; c_refcount := c_refcount r; c_pid := c_pid r; c_euid := c_euid r;
     c_egid := c_egid r; c_auth := c_auth r; c_setup := c_setup r; c_request := c_request r;
     c_response := v; c_event := c_event r; c_receive_buf := c_receive_buf r; c_context :=
     c_context r; c_fc_enabled := c_fc_enabled r; c_poll_events := c_poll_events r;
     c_outstanding_notifiers := c_outstanding_notifiers r; c_description := c_description r;
     c_stats := c_stats r |}.
Definition set_c_event (r : qb_ipcs_connection) (v : qb_ipc_one_way) : qb_ipcs_connection :=
  {| c_state := c_state r; c_refcount := c_refcount r; c_pid := c_pid r; c_euid := c_euid r;
     c_egid := c_egid r; c_auth := c_auth r; c_setup := c_setup r; c_request := c_request r;
     c_response := c_response r; c_event := v; c_receive_buf := c_receive_buf r; c_context :=
     c_context r; c_fc_enabled := c_fc_enabled r; c_poll_events := c_poll_events r;
     c_outstanding_notifiers := c_outstanding_notifiers r; c_description := c_description r;
     c_stats := c_stats r |}.
Definition set_c_receive_buf (r : qb_ipcs_connection) (v : option (list Z)) : qb_ipcs_connection :=
  {| c_state := c_state r; c_refcount := c_refcount r; c_pid := c_pid r; c_euid := c_euid r;
     c_egid := c_egid r; c_auth := c_auth r; c_setup := c_setup r; c_request := c_request r;
     c_response := c_response r; c_event := c_event r; c_receive_buf := v; c_context :=
     c_context r; c_fc_enabled := c_fc_enabled r; c_poll_events := c_poll_events r;
     c_outstanding_notifiers := c_outstanding_notifiers r; c_description := c_description r;
     c_stats := c_stats r |}.
Definition set_c_context (r : qb_ipcs_connection) (v : Z) : qb_ipcs_connection :=
  {| c_state := c_state r; c_refcount := c_refcount r; c_pid := c_pid r; c_euid := c_euid r;
     c_egid := c_egid r; c_auth := c_auth r; c_setup := c_setup r; c_request := c_request r;
     c_response := c_response r; c_event := c_event r; c_receive_buf := c_receive_buf r;
     c_context := v; c_fc_enabled := c_fc_enabled r; c_poll_events := c_poll_events r;
     c_outstanding_notifiers := c_outstanding_notifiers r; c_description := c_description r;
     c_stats := c_stats r |}.
Definition set_c_fc_enabled (r : qb_ipcs_connection) (v : Z) : qb_ipcs_connection :=
  {| c_state := c_state r; c_refcount := c_refcount r; c_pid := c_pid r; c_euid := c_euid r;
     c_egid := c_egid r; c_auth := c_auth r; c_setup := c_setup r; c_request := c_request r;
     c_response := c_response r; c_event := c_event r; c_receive_buf := c_receive_buf r;
     c_context := c_context r; c_fc_enabled := v; c_poll_events := c_poll_events r;
     c_outstanding_notifiers := c_outstanding_notifiers r; c_description := c_description r;
     c_stats := c_stats r |}.
Definition set_c_poll_events (r : qb_ipcs_connection) (v : Z) : qb_ipcs_connection :=
  {| c_state := c_state r; c_refcount := c_refcount r; c_pid := c_pid r; c_euid := c_euid r;
     c_egid := c_egid r; c_auth := c_auth r; c_setup := c_setup r; c_request := c_request r;
     c_response := c_response r; c_event := c_event r; c_receive_buf := c_receive_buf r;
     c_context := c_context r; c_fc_enabled := c_fc_enabled r; c_poll_events := v;
     c_outstanding_notifiers := c_outstanding_notifiers r; c_description := c_description r;
     c_stats := c_stats r |}.
Definition set_c_outstanding_notifiers (r : qb_ipcs_connection) (v : Z) : qb_ipcs_connection :=
  {| c_state := c_state r; c_refcount := c_refcount r; c_pid := c_pid r; c_euid := c_euid r;
     c_egid := c_egid r; c_auth := c_auth r; c_setup := c_setup r; c_request := c_request r;
     c_response := c_response r; c_event := c_event r; c_receive_buf := c_receive_buf r;
     c_context := c_context r; c_fc_enabled := c_fc_enabled r; c_poll_events := c_poll_events
     r; c_outstanding_notifiers := v; c_description := c_description r; c_stats := c_stats r |}.
Definition set_c_description (r : qb_ipcs_connection) (v : list Z) : qb_ipcs_connection :=
  {| c_state := c_state r; c_refcount := c_refcount r; c_pid := c_pid r; c_euid := c_euid r;
     c_egid := c_egid r; c_auth := c_auth r; c_setup := c_setup r; c_request := c_request r;
     c_response := c_response r; c_event := c_event r; c_receive_buf := c_receive_buf r;
     c_context := c_context r; c_fc_enabled := c_fc_enabled r; c_poll_events := c_poll_events
     r; c_outstanding_notifiers := c_outstanding_notifiers r; c_description := v; c_stats :=
     c_stats r |}.
Definition set_c_stats (r : qb_ipcs_connection) (v : qb_ipcs_connection_stats_2) : qb_ipcs_connection :=
  {| c_state := c_state r; c_refcount := c_refcount r; c_pid := c_pid r; c_euid := c_euid r;
     c_egid := c_egid r; c_auth := c_auth r; c_setup := c_setup r; c_request := c_request r;
     c_response := c_response r; c_event := c_event r; c_receive_buf := c_receive_buf r;
     c_context := c_context r; c_fc_enabled := c_fc_enabled r; c_poll_events := c_poll_events
     r; c_outstanding_notifiers := c_outstanding_notifiers r; c_description := c_description
     r; c_stats := v |}.

Definition c_ow (c : qb_ipcs_connection) (o : ow_name) : qb_ipc_one_way :=
  match o with
  | Ow_setup => c_setup c | Ow_request => c_request c | Ow_response => c_response c | Ow_event => c_event c
  end.
Definition set_c_ow (c : qb_ipcs_connection) (o : ow_name) (w : qb_ipc_one_way) : qb_ipcs_connection :=
  match o with
  | Ow_setup => set_c_setup c w | Ow_request => set_c_request c w
  | Ow_response => set_c_response c w | Ow_event => set_c_event c w
  end.

(** ** The service

    [s_job_add] and the like say which function pointers are not NULL;
    [s_funcs] which table [qb_ipcs_run] installed. *)
Record qb_ipcs_stats := { active_connections : Z; closed_connections : Z }.

Record qb_ipcs_service := {
  s_type : qb_ipc_type;
  s_name : list Z;
  s_max_buffer_size : Z;
  s_service_id : Z;
  s_ref_count : Z;
  s_pid : Z;
  s_needs_sock_for_poll : bool;
  s_server_sock : Z;
  s_job_add : bool;
  s_dispatch_add : bool;
  s_dispatch_mod : bool;
  s_dispatch_del : bool;
  s_funcs : option qb_ipc_type;
  s_poll_priority : Z;
  s_stats : qb_ipcs_stats;
  s_context : Z;
}.
Definition set_s_type (r : qb_ipcs_service) (v : qb_ipc_type) : qb_ipcs_service :=
  {| s_type := v; s_name := s_name r; s_max_buffer_size := s_max_buffer_size r; s_service_id
     := s_service_id r; s_ref_count := s_ref_count r; s_pid := s_pid r; s_needs_sock_for_poll
     := s_needs_sock_for_poll r; s_server_sock := s_server_sock r; s_job_add := s_job_add r;
     s_dispatch_add := s_dispatch_add r; s_dispatch_mod := s_dispatch_mod r; s_dispatch_del
     := s_dispatch_del r; s_funcs := s_funcs r; s_poll_priority := s_poll_priority r; s_stats
     := s_stats r; s_context := s_context r |}.
Definition set_s_name (r : qb_ipcs_service) (v : list Z) : qb_ipcs_service :=
  {| s_type := s_type r; s_name := v; s_max_buffer_size := s_max_buffer_size r; s_service_id
     := s_service_id r; s_ref_count := s_ref_count r; s_pid := s_pid r; s_needs_sock_for_poll
     := s_needs_sock_for_poll r; s_server_sock := s_server_sock r; s_job_add := s_job_add r;
     s_dispatch_add := s_dispatch_add r; s_dispatch_mod := s_dispatch_mod r; s_dispatch_del
     := s_dispatch_del r; s_funcs := s_funcs r; s_poll_priority := s_poll_priority r; s_stats
     := s_stats r; s_context := s_context r |}.
Definition set_s_max_buffer_size (r : qb_ipcs_service) (v : Z) : qb_ipcs_service :=
  {| s_type := s_type r; s_name := s_name r; s_max_buffer_size := v; s_service_id :=
     s_service_id r; s_ref_count := s_ref_count r; s_pid := s_pid r; s_needs_sock_for_poll :=
     s_needs_sock_for_poll r; s_server_sock := s_server_sock r; s_job_add := s_job_add r;
     s_dispatch_add := s_dispatch_add r; s_dispatch_mod := s_dispatch_mod r; s_dispatch_del
     := s_dispatch_del r; s_funcs := s_funcs r; s_poll_priority := s_poll_priority r; s_stats
     := s_stats r; s_context := s_context r |}.
Definition set_s_service_id (r : qb_ipcs_service) (v : Z) : qb_ipcs_service :=
  {| s_type := s_type r; s_name := s_name r; s_max_buffer_size := s_max_buffer_size r;
     s_service_id := v; s_ref_count := s_ref_count r; s_pid := s_pid r; s_needs_sock_for_poll
     := s_needs_sock_for_poll r; s_server_sock := s_server_sock r; s_job_add := s_job_add r;
     s_dispatch_add := s_dispatch_add r; s_dispatch_mod := s_dispatch_mod r; s_dispatch_del
     := s_dispatch_del r; s_funcs := s_funcs r; s_poll_priority := s_poll_priority r; s_stats
     := s_stats r; s_context := s_context r |}.
Definition set_s_ref_count (r : qb_ipcs_service) (v : Z) : qb_ipcs_service :=
  {| s_type := s_type r; s_name := s_name r; s_max_buffer_size := s_max_buffer_size r;
     s_service_id := s_service_id r; s_ref_count := v; s_pid := s_pid r;
     s_needs_sock_for_poll := s_needs_sock_for_poll r; s_server_sock := s_server_sock r;
     s_job_add := s_job_add r; s_dispatch_add := s_dispatch_add r; s_dispatch_mod :=
     s_dispatch_mod r; s_dispatch_del := s_dispatch_del r; s_funcs := s_funcs r;
     s_poll_priority := s_poll_priority r; s_stats := s_stats r; s_context := s_context r |}.
Definition set_s_pid (r : qb_ipcs_service) (v : Z) : qb_ipcs_service :=
  {| s_type := s_type r; s_name := s_name r; s_max_buffer_size := s_max_buffer_size r;
     s_service_id := s_service_id r; s_ref_count := s_ref_count r; s_pid := v;
     s_needs_sock_for_poll := s_needs_sock_for_poll r; s_server_sock := s_server_sock r;
     s_job_add := s_job_add r; s_dispatch_add := s_dispatch_add r; s_dispatch_mod :=
     s_dispatch_mod r; s_dispatch_del := s_dispatch_del r; s_funcs := s_funcs r;
     s_poll_priority := s_poll_priority r; s_stats := s_stats r; s_context := s_context r |}.
Definition set_s_needs_sock_for_poll (r : qb_ipcs_service) (v : bool) : qb_ipcs_service :=
  {| s_type := s_type r; s_name := s_name r; s_max_buffer_size := s_max_buffer_size r;
     s_service_id := s_service_id r; s_ref_count := s_ref_count r; s_pid := s_pid r;
     s_needs_sock_for_poll := v; s_server_sock := s_server_sock r; s_job_add := s_job_add r;
     s_dispatch_add := s_dispatch_add r; s_dispatch_mod := s_dispatch_mod r; s_dispatch_del
     := s_dispatch_del r; s_funcs := s_funcs r; s_poll_priority := s_poll_priority r; s_stats
     := s_stats r; s_context := s_context r |}.
Definition set_s_server_sock (r : qb_ipcs_service) (v : Z) : qb_ipcs_service :=
  {| s_type := s_type r; s_name := s_name r; s_max_buffer_size := s_max_buffer_size r;
     s_service_id := s_service_id r; s_ref_count := s_ref_count r; s_pid := s_pid r;
     s_needs_sock_for_poll := s_needs_sock_for_poll r; s_server_sock := v; s_job_add :=
     s_job_add r; s_dispatch_add := s_dispatch_add r; s_dispatch_mod := s_dispatch_mod r;
     s_dispatch_del := s_dispatch_del r; s_funcs := s_funcs r; s_poll_priority :=
     s_poll_priority r; s_stats := s_stats r; s_context := s_context r |}.
Definition set_s_job_add (r : qb_ipcs_service) (v : bool) : qb_ipcs_service :=
  {| s_type := s_type r; s_name := s_name r; s_max_buffer_size := s_max_buffer_size r;
     s_service_id := s_service_id r; s_ref_count := s_ref_count r; s_pid := s_pid r;
     s_needs_sock_for_poll := s_needs_sock_for_poll r; s_server_sock := s_server_sock r;
     s_job_add := v; s_dispatch_add := s_dispatch_add r; s_dispatch_mod := s_dispatch_mod r;
     s_dispatch_del := s_dispatch_del r; s_funcs := s_funcs r; s_poll_priority :=
     s_poll_priority r; s_stats := s_stats r; s_context := s_context r |}.
Definition set_s_dispatch_add (r : qb_ipcs_service) (v : bool) : qb_ipcs_service :=
  {| s_type := s_type r; s_name := s_name r; s_max_buffer_size := s_max_buffer_size r;
     s_service_id := s_service_id r; s_ref_count := s_ref_count r; s_pid := s_pid r;
     s_needs_sock_for_poll := s_needs_sock_for_poll r; s_server_sock := s_server_sock r;
     s_job_add := s_job_add r; s_dispatch_add := v; s_dispatch_mod := s_dispatch_mod r;
     s_dispatch_del := s_dispatch_del r; s_funcs := s_funcs r; s_poll_priority :=
     s_poll_priority r; s_stats := s_stats r; s_context := s_context r |}.
Definition set_s_dispatch_mod (r : qb_ipcs_service) (v : bool) : qb_ipcs_service :=
  {| s_type := s_type r; s_name := s_name r; s_max_buffer_size := s_max_buffer_size r;
     s_service_id := s_service_id r; s_ref_count := s_ref_count r; s_pid := s_pid r;
     s_needs_sock_for_poll := s_needs_sock_for_poll r; s_server_sock := s_server_sock r;
     s_job_add := s_job_add r; s_dispatch_add := s_dispatch_add r; s_dispatch_mod := v;
     s_dispatch_del := s_dispatch_del r; s_funcs := s_funcs r; s_poll_priority :=
     s_poll_priority r; s_stats := s_stats r; s_context := s_context r |}.
Definition set_s_dispatch_del (r : qb_ipcs_service) (v : bool) : qb_ipcs_service :=
  {| s_type := s_type r; s_name := s_name r; s_max_buffer_size := s_max_buffer_size r;
     s_service_id := s_service_id r; s_ref_count := s_ref_count r; s_pid := s_pid r;
     s_needs_sock_for_poll := s_needs_sock_for_poll r; s_server_sock := s_server_sock r;
     s_job_add := s_job_add r; s_dispatch_add := s_dispatch_add r; s_dispatch_mod :=
     s_dispatch_mod r; s_dispatch_del := v; s_funcs := s_funcs r; s_poll_priority :=
     s_poll_priority r; s_stats := s_stats r; s_context := s_context r |}.
Definition set_s_funcs (r : qb_ipcs_service) (v : option qb_ipc_type) : qb_ipcs_service :=
  {| s_type := s_type r; s_name := s_name r; s_max_buffer_size := s_max_buffer_size r;
     s_service_id := s_service_id r; s_ref_count := s_ref_count r; s_pid := s_pid r;
     s_needs_sock_for_poll := s_needs_sock_for_poll r; s_server_sock := s_server_sock r;
     s_job_add := s_job_add r; s_dispatch_add := s_dispatch_add r; s_dispatch_mod :=
     s_dispatch_mod r; s_dispatch_del := s_dispatch_del r; s_funcs := v; s_poll_priority :=
     s_poll_priority r; s_stats := s_stats r; s_context := s_context r |}.
Definition set_s_poll_priority (r : qb_ipcs_service) (v : Z) : qb_ipcs_service :=
  {| s_type := s_type r; s_name := s_name r; s_max_buffer_size := s_max_buffer_size r;
     s_service_id := s_service_id r; s_ref_count := s_ref_count r; s_pid := s_pid r;
     s_needs_sock_for_poll := s_needs_sock_for_poll r; s_server_sock := s_server_sock r;
     s_job_add := s_job_add r; s_dispatch_add := s_dispatch_add r; s_dispatch_mod :=
     s_dispatch_mod r; s_dispatch_del := s_dispatch_del r; s_funcs := s_funcs r;
     s_poll_priority := v; s_stats := s_stats r; s_context := s_context r |}.
Definition set_s_stats (r : qb_ipcs_service) (v : qb_ipcs_stats) : qb_ipcs_service :=
  {| s_type := s_type r; s_name := s_name r; s_max_buffer_size := s_max_buffer_size r;
     s_service_id := s_service_id r; s_ref_count := s_ref_count r; s_pid := s_pid r;
     s_needs_sock_for_poll := s_needs_sock_for_poll r; s_server_sock := s_server_sock r;
     s_job_add := s_job_add r; s_dispatch_add := s_dispatch_add r; s_dispatch_mod :=
     s_dispatch_mod r; s_dispatch_del := s_dispatch_del r; s_funcs := s_funcs r;
     s_poll_priority := s_poll_priority r; s_stats := v; s_context := s_context r |}.
Definition set_s_context (r : qb_ipcs_service) (v : Z) : qb_ipcs_service :=
  {| s_type := s_type r; s_name := s_name r; s_max_buffer_size := s_max_buffer_size r;
     s_service_id := s_service_id r; s_ref_count := s_ref_count r; s_pid := s_pid r;
     s_needs_sock_for_poll := s_needs_sock_for_poll r; s_server_sock := s_server_sock r;
     s_job_add := s_job_add r; s_dispatch_add := s_dispatch_add r; s_dispatch_mod :=
     s_dispatch_mod r; s_dispatch_del := s_dispatch_del r; s_funcs := s_funcs r;
     s_poll_priority := s_poll_priority r; s_stats := s_stats r; s_context := v |}.

(** ** Authentication in progress (lib/ipc_setup.c)

    The message is received in [d_msg]; [d_cmsg] is the control messages that
    came with it: type, length and credentials. *)
Record ipc_auth_ugp := { ugp_uid : Z; ugp_gid : Z; ugp_pid : Z }.

Record ipc_auth_data := {
  d_sock : Z;
  d_s : bool;
  d_msg : list Z;
  d_cmsg : list (Z * Z * ipc_auth_ugp);
  d_ugp : ipc_auth_ugp;
  d_processed : Z;
  d_len : Z;
}.
Definition set_d_sock (r : ipc_auth_data) (v : Z) : ipc_auth_data :=
  {| d_sock := v; d_s := d_s r; d_msg := d_msg r; d_cmsg := d_cmsg r; d_ugp := d_ugp r;
     d_processed := d_processed r; d_len := d_len r |}.
Definition set_d_s (r : ipc_auth_data) (v : bool) : ipc_auth_data :=
  {| d_sock := d_sock r; d_s := v; d_msg := d_msg r; d_cmsg := d_cmsg r; d_ugp := d_ugp r;
     d_processed := d_processed r; d_len := d_len r |}.
Definition set_d_msg (r : ipc_auth_data) (v : list Z) : ipc_auth_data :=
  {| d_sock := d_sock r; d_s := d_s r; d_msg := v; d_cmsg := d_cmsg r; d_ugp := d_ugp r;
     d_processed := d_processed r; d_len := d_len r |}.
Definition set_d_cmsg (r : ipc_auth_data) (v : list (Z * Z * ipc_auth_ugp)) : ipc_auth_data :=
  {| d_sock := d_sock r; d_s := d_s r; d_msg := d_msg r; d_cmsg := v; d_ugp := d_ugp r;
     d_processed := d_processed r; d_len := d_len r |}.
Definition set_d_ugp (r : ipc_auth_data) (v : ipc_auth_ugp) : ipc_auth_data :=
  {| d_sock := d_sock r; d_s := d_s r; d_msg := d_msg r; d_cmsg := d_cmsg r; d_ugp := v;
     d_processed := d_processed r; d_len := d_len r |}.
Definition set_d_processed (r : ipc_auth_data) (v : Z) : ipc_auth_data :=
  {| d_sock := d_sock r; d_s := d_s r; d_msg := d_msg r; d_cmsg := d_cmsg r; d_ugp := d_ugp
     r; d_processed := v; d_len := d_len r |}.
Definition set_d_len (r : ipc_auth_data) (v : Z) : ipc_auth_data :=
  {| d_sock := d_sock r; d_s := d_s r; d_msg := d_msg r; d_cmsg := d_cmsg r; d_ugp := d_ugp
     r; d_processed := d_processed r; d_len := v |}.

(** ** Connections of clients *)

Record qb_ipcc_connection := {
  cc_name : list Z;
  cc_needs_sock_for_poll : bool;
  cc_egid : Z;
  cc_euid : Z;
  cc_server_pid : Z;
  cc_setup : qb_ipc_one_way;
  cc_request : qb_ipc_one_way;
  cc_response : qb_ipc_one_way;
  cc_event : qb_ipc_one_way;
  cc_funcs : option qb_ipc_type;
  cc_receive_buf : option (list Z);
  cc_fc_enable_max : Z;
  cc_is_connected : bool;
  cc_context : Z;
}.
Definition set_cc_name (r : qb_ipcc_connection) (v : list Z) : qb_ipcc_connection :=
  {| cc_name := v; cc_needs_sock_for_poll := cc_needs_sock_for_poll r; cc_egid := cc_egid r;
     cc_euid := cc_euid r; cc_server_pid := cc_server_pid r; cc_setup := cc_setup r;
     cc_request := cc_request r; cc_response := cc_response r; cc_event := cc_event r;
     cc_funcs := cc_funcs r; cc_receive_buf := cc_receive_buf r; cc_fc_enable_max :=
     cc_fc_enable_max r; cc_is_connected := cc_is_connected r; cc_context := cc_context r |}.
Definition set_cc_needs_sock_for_poll (r : qb_ipcc_connection) (v : bool) : qb_ipcc_connection :=
  {| cc_name := cc_name r; cc_needs_sock_for_poll := v; cc_egid := cc_egid r; cc_euid :=
     cc_euid r; cc_server_pid := cc_server_pid r; cc_setup := cc_setup r; cc_request :=
     cc_request r; cc_response := cc_response r; cc_event := cc_event r; cc_funcs := cc_funcs
     r; cc_receive_buf := cc_receive_buf r; cc_fc_enable_max := cc_fc_enable_max r;
     cc_is_connected := cc_is_connected r; cc_context := cc_context r |}.
Definition set_cc_egid (r : qb_ipcc_connection) (v : Z) : qb_ipcc_connection :=
  {| cc_name := cc_name r; cc_needs_sock_for_poll := cc_needs_sock_for_poll r; cc_egid := v;
     cc_euid := cc_euid r; cc_server_pid := cc_server_pid r; cc_setup := cc_setup r;
     cc_request := cc_request r; cc_response := cc_response r; cc_event := cc_event r;
     cc_funcs := cc_funcs r; cc_receive_buf := cc_receive_buf r; cc_fc_enable_max :=
     cc_fc_enable_max r; cc_is_connected := cc_is_connected r; cc_context := cc_context r |}.
Definition set_cc_euid (r : qb_ipcc_connection) (v : Z) : qb_ipcc_connection :=
  {| cc_name := cc_name r; cc_needs_sock_for_poll := cc_needs_sock_for_poll r; cc_egid :=
     cc_egid r; cc_euid := v; cc_server_pid := cc_server_pid r; cc_setup := cc_setup r;
     cc_request := cc_request r; cc_response := cc_response r; cc_event := cc_event r;
     cc_funcs := cc_funcs r; cc_receive_buf := cc_receive_buf r; cc_fc_enable_max :=
     cc_fc_enable_max r; cc_is_connected := cc_is_connected r; cc_context := cc_context r |}.
Definition set_cc_server_pid (r : qb_ipcc_connection) (v : Z) : qb_ipcc_connection :=
  {| cc_name := cc_name r; cc_needs_sock_for_poll := cc_needs_sock_for_poll r; cc_egid :=
     cc_egid r; cc_euid := cc_euid r; cc_server_pid := v; cc_setup := cc_setup r; cc_request
     := cc_request r; cc_response := cc_response r; cc_event := cc_event r; cc_funcs :=
     cc_funcs r; cc_receive_buf := cc_receive_buf r; cc_fc_enable_max := cc_fc_enable_max r;
     cc_is_connected := cc_is_connected r; cc_context := cc_context r |}.
Definition set_cc_setup (r : qb_ipcc_connection) (v : qb_ipc_one_way) : qb_ipcc_connection :=
  {| cc_name := cc_name r; cc_needs_sock_for_poll := cc_needs_sock_for_poll r; cc_egid :=
     cc_egid r; cc_euid := cc_euid r; cc_server_pid := cc_server_pid r; cc_setup := v;
     cc_request := cc_request r; cc_response := cc_response r; cc_event := cc_event r;
     cc_funcs := cc_funcs r; cc_receive_buf := cc_receive_buf r; cc_fc_enable_max :=
     cc_fc_enable_max r; cc_is_connected := cc_is_connected r; cc_context := cc_context r |}.
Definition set_cc_request (r : qb_ipcc_connection) (v : qb_ipc_one_way) : qb_ipcc_connection :=
  {| cc_name := cc_name r; cc_needs_sock_for_poll := cc_needs_sock_for_poll r; cc_egid :=
     cc_egid r; cc_euid := cc_euid r; cc_server_pid := cc_server_pid r; cc_setup := cc_setup
     r; cc_request := v; cc_response := cc_response r; cc_event := cc_event r; cc_funcs :=
     cc_funcs r; cc_receive_buf := cc_receive_buf r; cc_fc_enable_max := cc_fc_enable_max r;
     cc_is_connected := cc_is_connected r; cc_context := cc_context r |}.
Definition set_cc_response (r : qb_ipcc_connection) (v : qb_ipc_one_way) : qb_ipcc_connection :=
  {| cc_name := cc_name r; cc_needs_sock_for_poll := cc_needs_sock_for_poll r; cc_egid :=
     cc_egid r; cc_euid := cc_euid r; cc_server_pid := cc_server_pid r; cc_setup := cc_setup
     r; cc_request := cc_request r; cc_response := v; cc_event := cc_event r; cc_funcs :=
     cc_funcs r; cc_receive_buf := cc_receive_buf r; cc_fc_enable_max := cc_fc_enable_max r;
     cc_is_connected := cc_is_connected r; cc_context := cc_context r |}.
Definition set_cc_event (r : qb_ipcc_connection) (v : qb_ipc_one_way) : qb_ipcc_connection :=
  {| cc_name := cc_name r; cc_needs_sock_for_poll := cc_needs_sock_for_poll r; cc_egid :=
     cc_egid r; cc_euid := cc_euid r; cc_server_pid := cc_server_pid r; cc_setup := cc_setup
     r; cc_request := cc_request r; cc_response := cc_response r; cc_event := v; cc_funcs :=
     cc_funcs r; cc_receive_buf := cc_receive_buf r; cc_fc_enable_max := cc_fc_enable_max r;
     cc_is_connected := cc_is_connected r; cc_context := cc_context r |}.
Definition set_cc_funcs (r : qb_ipcc_connection) (v : option qb_ipc_type) : qb_ipcc_connection :=
  {| cc_name := cc_name r; cc_needs_sock_for_poll := cc_needs_sock_for_poll r; cc_egid :=
     cc_egid r; cc_euid := cc_euid r; cc_server_pid := cc_server_pid r; cc_setup := cc_setup
     r; cc_request := cc_request r; cc_response := cc_response r; cc_event := cc_event r;
     cc_funcs := v; cc_receive_buf := cc_receive_buf r; cc_fc_enable_max := cc_fc_enable_max
     r; cc_is_connected := cc_is_connected r; cc_context := cc_context r |}.
Definition set_cc_receive_buf (r : qb_ipcc_connection) (v : option (list Z)) : qb_ipcc_connection :=
  {| cc_name := cc_name r; cc_needs_sock_for_poll := cc_needs_sock_for_poll r; cc_egid :=
     cc_egid r; cc_euid := cc_euid r; cc_server_pid := cc_server_pid r; cc_setup := cc_setup
     r; cc_request := cc_request r; cc_response := cc_response r; cc_event := cc_event r;
     cc_funcs := cc_funcs r; cc_receive_buf := v; cc_fc_enable_max := cc_fc_enable_max r;
     cc_is_connected := cc_is_connected r; cc_context := cc_context r |}.
Definition set_cc_fc_enable_max (r : qb_ipcc_connection) (v : Z) : qb_ipcc_connection :=
  {| cc_name := cc_name r; cc_needs_sock_for_poll := cc_needs_sock_for_poll r; cc_egid :=
     cc_egid r; cc_euid := cc_euid r; cc_server_pid := cc_server_pid r; cc_setup := cc_setup
     r; cc_request := cc_request r; cc_response := cc_response r; cc_event := cc_event r;
     cc_funcs := cc_funcs r; cc_receive_buf := cc_receive_buf r; cc_fc_enable_max := v;
     cc_is_connected := cc_is_connected r; cc_context := cc_context r |}.
Definition set_cc_is_connected (r : qb_ipcc_connection) (v : bool) : qb_ipcc_connection :=
  {| cc_name := cc_name r; cc_needs_sock_for_poll := cc_needs_sock_for_poll r; cc_egid :=
     cc_egid r; cc_euid := cc_euid r; cc_server_pid := cc_server_pid r; cc_setup := cc_setup
     r; cc_request := cc_request r; cc_response := cc_response r; cc_event := cc_event r;
     cc_funcs := cc_funcs r; cc_receive_buf := cc_receive_buf r; cc_fc_enable_max :=
     cc_fc_enable_max r; cc_is_connected := v; cc_context := cc_context r |}.
Definition set_cc_context (r : qb_ipcc_connection) (v : Z) : qb_ipcc_connection :=
  {| cc_name := cc_name r; cc_needs_sock_for_poll := cc_needs_sock_for_poll r; cc_egid :=
     cc_egid r; cc_euid := cc_euid r; cc_server_pid := cc_server_pid r; cc_setup := cc_setup
     r; cc_request := cc_request r; cc_response := cc_response r; cc_event := cc_event r;
     cc_funcs := cc_funcs r; cc_receive_buf := cc_receive_buf r; cc_fc_enable_max :=
     cc_fc_enable_max r; cc_is_connected := cc_is_connected r; cc_context := v |}.

Definition cc_ow (c : qb_ipcc_connection) (o : ow_name) : qb_ipc_one_way :=
  match o with
  | Ow_setup => cc_setup c | Ow_request => cc_request c | Ow_response => cc_response c | Ow_event => cc_event c
  end.
Definition set_cc_ow (c : qb_ipcc_connection) (o : ow_name) (w : qb_ipc_one_way) : qb_ipcc_connection :=
  match o with
  | Ow_setup => set_cc_setup c w | Ow_request => set_cc_request c w
  | Ow_response => set_cc_response c w | Ow_event => set_cc_event c w
  end.

(** ** The answer to a request for a connection *)

Record qb_ipc_connection_response := {
  r_id : Z; r_size : Z; r_error : Z;
  r_connection_type : qb_ipc_type;
  r_max_msg_size : Z;
  r_connection : Z;
  r_request : list Z; r_response : list Z; r_event : list Z;
}.
Definition zero_response : qb_ipc_connection_response :=
  {| r_id := 0; r_size := 0; r_error := 0; r_connection_type := QB_IPC_SOCKET; r_max_msg_size := 0;
     r_connection := 0; r_request := []; r_response := []; r_event := [] |}.

(** ** Calls to the system and to the main loop

    [Sys_send] has the bytes offered, [Sys_recv] the room; [Sys_poll] the
    descriptors with the events asked for.  The main loop's functions have the
    address given as [data] and the function to call. *)
Inductive dispatch_fn := Fn_connection_request | Fn_acceptor | Fn_process_auth | Fn_liveliness.

(** What memory is asked for. *)
Inductive allocation :=
  | Alloc_connection | Alloc_receive_buf (n : Z) | Alloc_stats | Alloc_auth_data | Alloc_cmsg | Alloc_client.

Inductive sys_call :=
  | Sys_send (sock : Z) (data : list Z)
  | Sys_recv (sock n : Z)
  | Sys_recvmsg (sock n : Z)
  | Sys_poll (fds : list (Z * Z)) (ms_timeout : Z)
  | Sys_shutdown (sock : Z)
  | Sys_close (fd : Z)
  | Sys_calloc (what : allocation)
  | Sys_setsockopt_passcred (sock : Z) (on : bool)
  | Sys_socket
  | Sys_fd_nonblock_cloexec_set (fd : Z)
  | Sys_connect (fd : Z) (name : list Z)
  | Sys_stat_socketdir
  | Sys_unlink_socket (name : list Z)
  | Sys_bind (fd : Z) (name : list Z)
  | Sys_chmod_socket (name : list Z)
  | Sys_listen (fd : Z)
  | Sys_accept (fd : Z)
  | Sys_getsockname (fd : Z)
  | Sys_mkdtemp (template : list Z)
  | Sys_chmod (path : list Z) (mode : Z)
  | Sys_chown (path : list Z) (uid gid : Z)
  | Sys_rmdir (path : list Z)
  | Sys_rb_chown (id uid gid : Z)
  | Sys_rb_chmod (id mode : Z)
  | Sys_rb_close (id : Z) (acts : list close_action)
  | Sys_kill (pid : Z)
  | Sys_nanosleep
  | Sys_socket_dgram
  | Sys_chown_socket (name : list Z) (gid : Z)
  | Sys_getsockopt_size (sock : Z) (rcv : bool)
  | Sys_setsockopt_size (sock : Z) (rcv : bool) (size : Z)
  | Sys_socketpair
  | Sys_write (fd : Z) (data : list Z)
  | Sys_read (fd n : Z)
  | Sys_recv_peek (sock n : Z)
  | Sys_recv_dontwait (sock n : Z)
  | Sys_writev (sock : Z) (iov : list (list Z))
  | Sys_mmap_file_open (name : list Z) (create : bool)
  | Sys_mmap (fd : Z)
  | Sys_munmap (map : option Z)
  | Sys_unlink (path : list Z)
  | Sys_strdup (str : list Z)
  | Sys_usleep
  | Loop_dispatch_add (p fd events data : Z) (fn : dispatch_fn)
  | Loop_dispatch_mod (p fd events data : Z) (fn : dispatch_fn)
  | Loop_dispatch_del (fd : Z)
  | Loop_job_add (p data : Z).

(** The return value, [errno] after the call, the bytes received or the
    [revents] of the descriptors, and the control messages received. *)
Record answer := { ret : Z; err : Z; out : list Z; cmsgs : list (Z * Z * ipc_auth_ugp) }.

Abbreviation history := (list (sys_call * answer)).

Class Env := {
  reply : history -> sys_call -> answer;
  open_env_of : history -> list Z -> open_env;
  close_env_of : history -> Z -> close_env;
  filesystem_sockets : bool;
  SOCKETDIR : list Z;
}.

(** ** The memory of the socket transport (lib/ipc_socket.c)

    The control files by name, the structures in them, the mappings (a mapping
    that is gone is in [us_maps] no more) and the names of sockets still to be
    connected. *)
Record ipc_us_control := { sent : Z; flow_control : Z }.
#[export] Instance ipc_us_control_inhabited : Inhabited ipc_us_control := populate {| sent := 0; flow_control := 0 |}.

Record us_memory := {
  us_files : gmap (list Z) Z;
  us_ctl : gmap Z (list ipc_us_control);
  us_maps : gmap Z Z;
  us_names : gmap Z (list Z);
}.
Definition no_us_memory : us_memory := {| us_files := ∅; us_ctl := ∅; us_maps := ∅; us_names := ∅ |}.

(** ** The machine *)

(** A ring with the word that its creator asked for after the header. *)
Record shm_ring := { sr_rb : qb_ringbuffer_s psem; sr_user_data : Z }.

Record machine := {
  svc : option qb_ipcs_service;
  conns : gmap Z qb_ipcs_connection;
  conn_list : list Z;
  auths : gmap Z ipc_auth_data;
  rings : gmap Z shm_ring;
  files : gmap (list Z) Z;
  clients : gmap Z qb_ipcc_connection;
  us_mem : us_memory;
  fresh : Z;
  calls : history;
}.
Definition set_svc (r : machine) (v : option qb_ipcs_service) : machine :=
  {| svc := v; conns := conns r; conn_list := conn_list r; auths := auths r; rings := rings
     r; files := files r; clients := clients r; us_mem := us_mem r; fresh := fresh r; calls
     := calls r |}.
Definition set_conns (r : machine) (v : gmap Z qb_ipcs_connection) : machine :=
  {| svc := svc r; conns := v; conn_list := conn_list r; auths := auths r; rings := rings
     r; files := files r; clients := clients r; us_mem := us_mem r; fresh := fresh r; calls
     := calls r |}.
Definition set_conn_list (r : machine) (v : list Z) : machine :=
  {| svc := svc r; conns := conns r; conn_list := v; auths := auths r; rings := rings r;
     files := files r; clients := clients r; us_mem := us_mem r; fresh := fresh r; calls :=
     calls r |}.
Definition set_auths (r : machine) (v : gmap Z ipc_auth_data) : machine :=
  {| svc := svc r; conns := conns r; conn_list := conn_list r; auths := v; rings := rings
     r; files := files r; clients := clients r; us_mem := us_mem r; fresh := fresh r; calls
     := calls r |}.
Definition set_rings (r : machine) (v : gmap Z shm_ring) : machine :=
  {| svc := svc r; conns := conns r; conn_list := conn_list r; auths := auths r; rings :=
     v; files := files r; clients := clients r; us_mem := us_mem r; fresh := fresh r; calls
     := calls r |}.
Definition set_files (r : machine) (v : gmap (list Z) Z) : machine :=
  {| svc := svc r; conns := conns r; conn_list := conn_list r; auths := auths r; rings :=
     rings r; files := v; clients := clients r; us_mem := us_mem r; fresh := fresh r; calls
     := calls r |}.
Definition set_clients (r : machine) (v : gmap Z qb_ipcc_connection) : machine :=
  {| svc := svc r; conns := conns r; conn_list := conn_list r; auths := auths r; rings :=
     rings r; files := files r; clients := v; us_mem := us_mem r; fresh := fresh r; calls
     := calls r |}.
Definition set_us_mem (r : machine) (v : us_memory) : machine :=
  {| svc := svc r; conns := conns r; conn_list := conn_list r; auths := auths r; rings :=
     rings r; files := files r; clients := clients r; us_mem := v; fresh := fresh r; calls
     := calls r |}.
Definition set_fresh (r : machine) (v : Z) : machine :=
  {| svc := svc r; conns := conns r; conn_list := conn_list r; auths := auths r; rings :=
     rings r; files := files r; clients := clients r; us_mem := us_mem r; fresh := v; calls
     := calls r |}.
Definition set_calls (r : machine) (v : history) : machine :=
  {| svc := svc r; conns := conns r; conn_list := conn_list r; auths := auths r; rings :=
     rings r; files := files r; clients := clients r; us_mem := us_mem r; fresh := fresh r;
     calls := v |}.

(** ** The monad

    A fault is what the code must never do: fail an assertion, use a freed
    object, call through a NULL function pointer, reach outside a buffer, or
    loop for longer than the fuel. *)
Inductive fault := F_assert | F_freed | F_null_call | F_overrun | F_loop.

Inductive outcome (A : Type) :=
  | Done (a : A) (m : machine)
  | Fault (f : fault).
Arguments Done {A}. Arguments Fault {A}.

Definition M (A : Type) : Type := machine -> outcome A.

#[export] Instance M_ret : MRet M := fun _ a m => Done a m.
#[export] Instance M_bind : MBind M :=
  fun _ _ k x m => match x m with Done a m' => k a m' | Fault f => Fault f end.
Definition fail {A} (f : fault) : M A := fun _ => Fault f.
Definition get {A} (f : machine -> A) : M A := fun m => Done (f m) m.
Definition modify (f : machine -> machine) : M unit := fun m => Done tt (f m).

Definition when (b : bool) (x : M unit) : M unit := if b then x else mret tt.

Section Machine.
Context {E : Env}.

Definition sys (c : sys_call) : M answer :=
  fun m => let a := reply (calls m) c in Done a (set_calls m (calls m ++ [(c, a)])).

(** An address that was never used before. *)
Definition new_address : M Z := fun m => Done (fresh m) (set_fresh m (fresh m + 1)).

(** ** Objects *)

Definition get_service : M qb_ipcs_service :=
  fun m => match svc m with Some s => Done s m | None => Fault F_freed end.
Definition mod_service (f : qb_ipcs_service -> qb_ipcs_service) : M unit :=
  fun m => match svc m with Some s => Done tt (set_svc m (Some (f s))) | None => Fault F_freed end.

Definition get_conn (c : Z) : M qb_ipcs_connection :=
  fun m => match conns m !! c with Some x => Done x m | None => Fault F_freed end.
Definition mod_conn (c : Z) (f : qb_ipcs_connection -> qb_ipcs_connection) : M unit :=
  fun m =>
    match conns m !! c with
    | Some x => Done tt (set_conns m (<[c := f x]> (conns m)))
    | None => Fault F_freed
    end.
Definition mod_stats (c : Z) (f : qb_ipcs_connection_stats_2 -> qb_ipcs_connection_stats_2) : M unit :=
  mod_conn c (fun x => set_c_stats x (f (c_stats x))).

Definition get_auth (d : Z) : M ipc_auth_data :=
  fun m => match auths m !! d with Some x => Done x m | None => Fault F_freed end.
Definition mod_auth (d : Z) (f : ipc_auth_data -> ipc_auth_data) : M unit :=
  fun m =>
    match auths m !! d with
    | Some x => Done tt (set_auths m (<[d := f x]> (auths m)))
    | None => Fault F_freed
    end.

Definition get_client (c : Z) : M qb_ipcc_connection :=
  fun m => match clients m !! c with Some x => Done x m | None => Fault F_freed end.
Definition mod_client (c : Z) (f : qb_ipcc_connection -> qb_ipcc_connection) : M unit :=
  fun m =>
    match clients m !! c with
    | Some x => Done tt (set_clients m (<[c := f x]> (clients m)))
    | None => Fault F_freed
    end.

(** The ring of a handle as the process that opened it sees it. *)
Definition with_flags (rb : qb_ringbuffer_s psem) (fl : Z) : qb_ringbuffer_s psem :=
  {| flags := fl; shared_hdr := shared_hdr rb; shared_data := shared_data rb;
     notifier := notifier rb; instance := instance rb |}.
Definition get_ring (h : ring_handle) : M (qb_ringbuffer_s psem) :=
  fun m =>
    match rings m !! rh_id h with
    | Some r => Done (with_flags (sr_rb r) (rh_flags h)) m
    | None => Fault F_freed
    end.
Definition put_ring (h : ring_handle) (rb : qb_ringbuffer_s psem) : M unit :=
  fun m =>
    match rings m !! rh_id h with
    | Some r =>
      Done tt (set_rings m (<[rh_id h := {| sr_rb := rb; sr_user_data := sr_user_data r |}]> (rings m)))
    | None => Fault F_freed
    end.
Definition put_user_data (h : ring_handle) (v : Z) : M unit :=
  fun m =>
    match rings m !! rh_id h with
    | Some r => Done tt (set_rings m (<[rh_id h := {| sr_rb := sr_rb r; sr_user_data := v |}]> (rings m)))
    | None => Fault F_freed
    end.
Definition get_user_data (h : ring_handle) : M Z :=
  fun m =>
    match rings m !! rh_id h with
    | Some r => Done (sr_user_data r) m
    | None => Fault F_freed
    end.

(** ** Memory that messages are read from

    A ring's data area is mapped twice in a row, so an access may go beyond the
    first mapping but not beyond the second. *)
Inductive ptr := P_ring (h : ring_handle) (off : Z) | P_receive_buf (c : Z).

Definition read_mem (p : ptr) (at_ n : Z) : M (list Z) :=
  match p with
  | P_ring h off =>
    rb ← get_ring h;
    if off + at_ + n <=? 2 * zlen (shared_data rb)
    then mret (slice (shared_data rb) (off + at_) n)
    else fail F_overrun
  | P_receive_buf c =>
    x ← get_conn c;
    match c_receive_buf x with
    | Some b => if at_ + n <=? zlen b then mret (take (Z.to_nat n) (drop (Z.to_nat at_) b)) else fail F_overrun
    | None => fail F_overrun
    end
  end.

(** An [int32_t] in memory. *)
Definition read_i32 (p : ptr) (at_ : Z) : M Z :=
  bs ← read_mem p at_ 4; mret (i32 (le_combine bs)).
End Machine.
