(* ===== verification/IpcSock.v ===== *)
(** * Sockets of the IPC layer (lib/ipc_setup.c)

    Sending and receiving whole messages over a stream socket, and waiting for
    one.  [fuel] bounds the number of times a call is repeated. *)
From stdpp Require Import gmap.
From S2P Require Import Prelude Memory Cstring RingBuffer RingBufferOpen IpcBase.

Section Sock.
Context {E : Env}.

Fixpoint us_send_loop (fuel : nat) (sock : Z) (msg : list Z) (processed : Z) : M Z :=
  match fuel with
  | O => fail F_loop
  | S fuel' =>
    a ← sys (Sys_send sock (drop (Z.to_nat processed) msg));
    if ret a =? -1 then
      if (err a =? EAGAIN) && (0 <? processed) then us_send_loop fuel' sock msg processed
      else mret (- err a)
    else
      let processed := i32 (processed + ret a) in
      if negb (processed =? zlen msg) then us_send_loop fuel' sock msg processed
      else mret processed
  end.

(** [msg] is the [len] bytes sent. *)
Definition qb_ipc_us_send (fuel : nat) (one_way : qb_ipc_one_way) (msg : list Z) : M Z :=
  us_send_loop fuel (ow_sock one_way) msg 0.

Fixpoint recv_msghdr_loop (fuel : nat) (data : Z) : M Z :=
  match fuel with
  | O => fail F_loop
  | S fuel' =>
    d ← get_auth data;
    a ← sys (Sys_recvmsg (d_sock d) (u64 (d_len d - d_processed d)));
    if (ret a =? -1) && (err a =? EAGAIN) then mret (- EAGAIN)
    else if ret a =? -1 then mret (- err a)
    else if ret a =? 0 then mret (- ENOTCONN)
    else
      _ ← mod_auth data (fun d =>
        set_d_processed (set_d_cmsg (set_d_msg d (blit (d_msg d) (d_processed d) (out a))) (cmsgs a))
          (d_processed d + ret a));
      d ← get_auth data;
      if negb (d_processed d =? d_len d) then recv_msghdr_loop fuel' data
      else mret (d_processed d)
  end.

Definition qb_ipc_us_recv_msghdr (fuel : nat) (data : Z) : M Z := recv_msghdr_loop fuel data.

Definition qb_ipc_us_sock_error_is_disconnected (err : Z) : bool :=
  if 0 <=? err then false
  else negb ((err =? - EAGAIN) || (err =? - ETIMEDOUT) || (err =? - EINTR) ||
             (err =? - EMSGSIZE) || (err =? - ENOMSG) || (err =? - EINVAL)).

(** The descriptors examined: the first [poll_events] of the array. *)
Fixpoint check_revents (revents : list Z) (n : nat) : Z :=
  match n, revents with
  | S n', r :: revents' =>
    if has_flag r POLLERR then - ENOTCONN
    else if has_flag r POLLHUP then - ENOTCONN
    else if has_flag r POLLNVAL then - ENOTCONN
    else if r =? 0 then - ENOTCONN
    else check_revents revents' n'
  | _, _ => 0
  end.

(** [ow] is the connection's one-ways; the second one is polled too if it is
    given and not the same as the first. *)
Definition qb_ipc_us_ready (ow : ow_name -> qb_ipc_one_way) (ow_data : ow_name) (ow_conn : option ow_name)
    (ms_timeout events : Z) : M Z :=
  let fds :=
    (ow_sock (ow ow_data), events) ::
    match ow_conn with
    | Some o => if decide (ow_data = o) then [] else [(ow_sock (ow o), POLLIN)]
    | None => []
    end in
  a ← sys (Sys_poll fds ms_timeout);
  if ((ret a =? -1) && (err a =? EINTR)) || (ret a =? 0) then mret (- EAGAIN)
  else if ret a =? -1 then mret (- err a)
  else mret (check_revents (out a) (Z.to_nat (ret a))).

(** Returns the result and the bytes put in the caller's buffer. *)
Fixpoint us_recv_loop (fuel : nat) (one_way : qb_ipc_one_way) (len timeout processed : Z) (data : list Z)
    : M (Z * list Z) :=
  match fuel with
  | O => fail F_loop
  | S fuel' =>
    a ← sys (Sys_recv (ow_sock one_way) (i32 (len - processed)));
    if ret a =? -1 then
      if (err a =? EAGAIN) && ((0 <? processed) || (timeout =? -1)) then
        result ← qb_ipc_us_ready (fun _ => one_way) Ow_setup None timeout POLLIN;
        if (result =? 0) || (result =? - EAGAIN) then us_recv_loop fuel' one_way len timeout processed data
        else mret (result, data)
      else if (err a =? ECONNRESET) || (err a =? EPIPE) then mret (- ENOTCONN, data)
      else mret (- err a, data)
    else if ret a =? 0 then mret (- ENOTCONN, data)
    else
      let processed := i32 (processed + ret a) in
      let data := data ++ out a in
      if negb (processed =? len) then us_recv_loop fuel' one_way len timeout processed data
      else mret (processed, data)
  end.

Definition qb_ipc_us_recv (fuel : nat) (one_way : qb_ipc_one_way) (len timeout : Z) : M (Z * list Z) :=
  us_recv_loop fuel one_way len timeout 0 [].

Definition qb_ipcc_us_sock_close (sock : Z) : M unit :=
  _ ← sys (Sys_shutdown sock);
  _ ← sys (Sys_close sock);
  mret tt.

(** The part of [name] before its last slash. *)
Fixpoint dir_of (name : list Z) : option (list Z) :=
  match name with
  | [] => None
  | ch :: rest =>
    match dir_of rest with
    | Some d => Some (ch :: d)
    | None => if ch =? 47 then Some [] else None
    end
  end.

Definition remove_tempdir (name : list Z) : M unit :=
  match dir_of name with
  | Some dirname => if zlen dirname <? PATH_MAX then _ ← sys (Sys_rmdir dirname); mret tt else mret tt
  | None => mret tt
  end.
End Sock.
