(* ===== verification/Ipcs.v ===== *)
(** * The IPC service (lib/ipcs.c)

    The functions of a transport ([struct qb_ipcs_funcs]) and the callbacks of the
    application ([struct qb_ipcs_service_handlers]) are records of functions; an
    optional one is NULL if it is [None].  A callback is any function of the
    machine: it may call the operations below. *)
From stdpp Require Import strings gmap.
From S2P Require Import Prelude Memory Cstring RingBuffer RingBufferOpen Loop IpcBase IpcSock.

Record qb_ipcs_funcs := {
  fn_connect : option (Z -> qb_ipc_connection_response -> M (Z * qb_ipc_connection_response));
  fn_disconnect : Z -> M unit;
  fn_recv : qb_ipc_one_way -> Z -> Z -> M (Z * list Z);
  fn_peek : option (qb_ipc_one_way -> Z -> M (Z * option ptr));
  fn_reclaim : option (qb_ipc_one_way -> M unit);
  fn_send : qb_ipc_one_way -> list Z -> M Z;
  fn_sendv : qb_ipc_one_way -> list (list Z) -> M Z;
  fn_fc_set : qb_ipc_one_way -> Z -> M unit;
  fn_q_len_get : option (qb_ipc_one_way -> M Z);
}.

(** [msg_process] is given the message's address and size. *)
Record qb_ipcs_service_handlers := {
  connection_accept : option (Z -> Z -> Z -> M Z);
  connection_created : option (Z -> M unit);
  msg_process : Z -> ptr -> Z -> M Z;
  connection_closed : option (Z -> M Z);
  connection_destroyed : option (Z -> M unit);
}.

(** ** Creating the service *)

(** [poll_handlers_set] copies the four pointers; a [bool] says which is not
    NULL. *)
Definition qb_ipcs_create (name : list Z) (service_id : Z) (type : qb_ipc_type) (pid : Z) (calloc_ok : bool)
    : option qb_ipcs_service :=
  if negb calloc_ok then None
  else Some {|
    s_type := if decide (type = QB_IPC_NATIVE) then QB_IPC_SHM else type;
    s_name := take (Z.to_nat (NAME_MAX - 1)) name; s_max_buffer_size := 0; s_service_id := service_id;
    s_ref_count := 1; s_pid := pid; s_needs_sock_for_poll := false; s_server_sock := 0;
    s_job_add := false; s_dispatch_add := false; s_dispatch_mod := false; s_dispatch_del := false;
    s_funcs := None; s_poll_priority := QB_LOOP_MED;
    s_stats := {| active_connections := 0; closed_connections := 0 |}; s_context := 0 |}.

Definition qb_ipcs_poll_handlers_set (job_add dispatch_add dispatch_mod dispatch_del : bool) : M unit :=
  mod_service (fun s => set_s_dispatch_del (set_s_dispatch_mod (set_s_dispatch_add (set_s_job_add s job_add)
    dispatch_add) dispatch_mod) dispatch_del).

Definition qb_ipcs_service_context_set (context : Z) : M unit := mod_service (fun s => set_s_context s context).
Definition qb_ipcs_service_context_get : M Z := s ← get_service; mret (s_context s).

(** ** References to the service *)

Definition qb_ipcs_ref : M unit := mod_service (fun s => set_s_ref_count s (i32 (s_ref_count s + 1))).

Definition qb_ipcs_unref : M unit :=
  s ← get_service;
  if negb (0 <? s_ref_count s) then fail F_assert
  else
    _ ← mod_service (fun s => set_s_ref_count s (i32 (s_ref_count s - 1)));
    s ← get_service;
    if s_ref_count s =? 0 then modify (fun m => set_svc m None) else mret tt.

Section Service.
Context {E : Env}.
Context (fuel : nat).
Context (funcs : qb_ipc_type -> qb_ipcs_funcs).
Context (serv_fns : qb_ipcs_service_handlers).

(** [s->funcs], filled in by [qb_ipcs_run]. *)
Definition get_funcs : M qb_ipcs_funcs :=
  s ← get_service;
  match s_funcs s with
  | Some t => mret (funcs t)
  | None => fail F_null_call
  end.

(** A call through one of [s->poll_fns]. *)
Definition poll_fn (present : qb_ipcs_service -> bool) (c : sys_call) : M Z :=
  s ← get_service;
  if present s then a ← sys c; mret (ret a) else fail F_null_call.

Definition _modify_dispatch_descriptor_ (c : Z) : M Z :=
  s ← get_service;
  x ← get_conn c;
  let sock := if decide (s_type s = QB_IPC_SOCKET) then ow_sock (c_event x) else ow_sock (c_setup x) in
  poll_fn s_dispatch_mod (Loop_dispatch_mod (s_poll_priority s) sock (c_poll_events x) c Fn_connection_request).

(** ** References to a connection *)

Definition qb_ipcs_connection_ref (c : option Z) : M unit :=
  match c with
  | None => mret tt
  | Some c => mod_conn c (fun x => set_c_refcount x (i32 (c_refcount x + 1)))
  end.

Definition unlink_conn (c : Z) : M unit :=
  modify (fun m => set_conn_list m (filter (fun d => d <> c) (conn_list m))).
Definition free_conn (c : Z) : M unit :=
  _ ← get_conn c; modify (fun m => set_conns m (delete c (conns m))).

Definition qb_ipcs_connection_unref (c : option Z) : M unit :=
  match c with
  | None => mret tt
  | Some c =>
    x ← get_conn c;
    if c_refcount x <? 1 then fail F_assert
    else
      _ ← mod_conn c (fun x => set_c_refcount x (i32 (c_refcount x - 1)));
      x ← get_conn c;
      if c_refcount x =? 0 then
        _ ← unlink_conn c;
        _ ← match connection_destroyed serv_fns with Some f => f c | None => mret tt end;
        fs ← get_funcs;
        _ ← fn_disconnect fs c;
        _ ← qb_ipcs_unref;
        free_conn c
      else mret tt
  end.

Definition mod_service_stats (f : qb_ipcs_stats -> qb_ipcs_stats) : M unit :=
  mod_service (fun s => set_s_stats s (f (s_stats s))).
Definition count_closed (t : qb_ipcs_stats) : qb_ipcs_stats :=
  {| active_connections := active_connections t; closed_connections := u32 (closed_connections t + 1) |}.
Definition count_inactive (t : qb_ipcs_stats) : qb_ipcs_stats :=
  {| active_connections := u32 (active_connections t - 1); closed_connections := closed_connections t |}.
Definition count_active (t : qb_ipcs_stats) : qb_ipcs_stats :=
  {| active_connections := u32 (active_connections t + 1); closed_connections := closed_connections t |}.

(** The second half of [qb_ipcs_disconnect], from the test for the state
    [SHUTTING_DOWN] on. *)
Definition finish_disconnect (c : Z) : M unit :=
  x ← get_conn c;
  if decide (c_state x = QB_IPCS_CONNECTION_SHUTTING_DOWN) then
    res ← match connection_closed serv_fns with Some f => f c | None => mret 0 end;
    scheduled_retry ←
      (if negb (res =? 0) then
         res ← poll_fn s_job_add (Loop_job_add QB_LOOP_LOW c);
         mret (res =? 0)
       else mret false);
    x ← get_conn c;
    _ ← remove_tempdir (c_description x);
    if negb scheduled_retry then qb_ipcs_connection_unref (Some c) else mret tt
  else mret tt.

Definition qb_ipcs_disconnect (c : option Z) : M unit :=
  match c with
  | None => mret tt
  | Some c =>
    x ← get_conn c;
    if decide (c_state x = QB_IPCS_CONNECTION_ACTIVE) then
      fs ← get_funcs;
      _ ← fn_disconnect fs c;
      _ ← mod_conn c (fun x => set_c_state x QB_IPCS_CONNECTION_INACTIVE);
      _ ← mod_service_stats count_closed;
      qb_ipcs_connection_unref (Some c)
    else
      _ ← (if decide (c_state x = QB_IPCS_CONNECTION_ESTABLISHED) then
             fs ← get_funcs;
             _ ← fn_disconnect fs c;
             _ ← mod_conn c (fun x => set_c_state x QB_IPCS_CONNECTION_SHUTTING_DOWN);
             mod_service_stats (fun t => count_closed (count_inactive t))
           else mret tt);
      finish_disconnect c
  end.

(** ** Lists of connections *)

Fixpoint next_in (l : list Z) (c : Z) : option Z :=
  match l with
  | x :: rest => if x =? c then head rest else next_in rest c
  | [] => None
  end.

(** [qb_list_for_each_safe]: the next entry is taken before the body runs; an
    entry that is no longer in the list by its turn was freed. *)
Fixpoint for_each_safe (n : nat) (pos : option Z) (body : Z -> M unit) : M unit :=
  match pos with
  | None => mret tt
  | Some c =>
    match n with
    | O => fail F_loop
    | S n' =>
      l ← get conn_list;
      if decide (c ∈ l) then
        _ ← body c;
        for_each_safe n' (next_in l c) body
      else fail F_freed
    end
  end.
Definition for_each_connection (body : Z -> M unit) : M unit :=
  l ← get conn_list; for_each_safe (length l) (head l) body.

(** ** Flow control *)

Definition qb_ipcs_flowcontrol_set (c : option Z) (fc_enable : Z) : M unit :=
  match c with
  | None => mret tt
  | Some c =>
    x ← get_conn c;
    if negb (c_fc_enabled x =? fc_enable) then
      fs ← get_funcs;
      _ ← fn_fc_set fs (c_request x) fc_enable;
      _ ← mod_conn c (fun x => set_c_fc_enabled x fc_enable);
      mod_stats c (fun t => set_st_flow_control_count (set_st_flow_control_state t fc_enable)
                              (u64 (st_flow_control_count t + 1)))
    else mret tt
  end.

Definition rate_priority (rl : qb_ipcs_rate_limit) : Z :=
  match rl with
  | QB_IPCS_RATE_FAST => QB_LOOP_HIGH
  | QB_IPCS_RATE_SLOW | QB_IPCS_RATE_OFF | QB_IPCS_RATE_OFF_2 => QB_LOOP_LOW
  | _ => QB_LOOP_MED
  end.
Definition rate_fc (rl : qb_ipcs_rate_limit) : Z :=
  match rl with QB_IPCS_RATE_OFF => 1 | QB_IPCS_RATE_OFF_2 => 2 | _ => 0 end.

Definition qb_ipcs_request_rate_limit (rl : qb_ipcs_rate_limit) : M unit :=
  s ← get_service;
  let old_p := s_poll_priority s in
  _ ← mod_service (fun s => set_s_poll_priority s (rate_priority rl));
  for_each_connection (fun c =>
    _ ← qb_ipcs_connection_ref (Some c);
    r ←
      (_ ← qb_ipcs_flowcontrol_set (Some c) (rate_fc rl);
       s ← get_service;
       if negb (old_p =? s_poll_priority s) then _ ← _modify_dispatch_descriptor_ c; mret tt
       else mret tt);
    _ ← qb_ipcs_connection_unref (Some c);
    mret r).

(** ** Responses and events *)

Definition _event_sock_one_way_get (c : Z) : M (option ow_name) :=
  s ← get_service;
  x ← get_conn c;
  if s_needs_sock_for_poll s then mret (Some Ow_setup)
  else if decide (ow_type (c_event x) = QB_IPC_SOCKET) then mret (Some Ow_event)
  else mret None.

Definition _response_sock_one_way_get (c : Z) : M (option ow_name) :=
  s ← get_service;
  x ← get_conn c;
  if s_needs_sock_for_poll s then mret (Some Ow_setup)
  else if decide (ow_type (c_response x) = QB_IPC_SOCKET) then mret (Some Ow_response)
  else mret None.

(** The error to report when a message could not be sent for now: what the
    socket [ow] says, or [res]. *)
Definition ready_or (c : Z) (ow : option ow_name) (res : Z) : M Z :=
  match ow with
  | Some o =>
    x ← get_conn c;
    res2 ← qb_ipc_us_ready (c_ow x) o (Some Ow_setup) 0 POLLOUT;
    mret (if res2 <? 0 then res2 else res)
  | None => mret res
  end.

Definition count_send_retry (t : qb_ipcs_connection_stats_2) : qb_ipcs_connection_stats_2 :=
  set_st_send_retries t (u64 (st_send_retries t + 1)).
Definition count_response (t : qb_ipcs_connection_stats_2) : qb_ipcs_connection_stats_2 :=
  set_st_responses t (u64 (st_responses t + 1)).
Definition count_event (t : qb_ipcs_connection_stats_2) : qb_ipcs_connection_stats_2 :=
  set_st_events t (u64 (st_events t + 1)).

Definition try_later (res : Z) : bool := (res =? - EAGAIN) || (res =? - ETIMEDOUT).

(** [sent] is the code's test that the message was sent. *)
Definition response_sent (c : Z) (res : Z) (sent : bool) : M Z :=
  if sent then _ ← mod_stats c count_response; mret res
  else if try_later res then
    ow ← _response_sock_one_way_get c;
    res ← ready_or c ow res;
    _ ← mod_stats c count_send_retry;
    mret res
  else mret res.

Definition qb_ipcs_response_send (c : option Z) (data : list Z) : M Z :=
  match c with
  | None => mret (- EINVAL)
  | Some c =>
    _ ← qb_ipcs_connection_ref (Some c);
    res ←
      (fs ← get_funcs;
       x ← get_conn c;
       res ← fn_send fs (c_response x) data;
       response_sent c res (res =? zlen data));
    _ ← qb_ipcs_connection_unref (Some c);
    mret res
  end.

Definition qb_ipcs_response_sendv (c : option Z) (iov : list (list Z)) : M Z :=
  match c with
  | None => mret (- EINVAL)
  | Some c =>
    _ ← qb_ipcs_connection_ref (Some c);
    res ←
      (fs ← get_funcs;
       x ← get_conn c;
       res ← fn_sendv fs (c_response x) iov;
       response_sent c res (0 <? res));
    _ ← qb_ipcs_connection_unref (Some c);
    mret res
  end.

Definition EVENTS_IN : Z := Z.lor POLLIN (Z.lor POLLPRI POLLNVAL).
Definition EVENTS_IN_OUT : Z := Z.lor POLLOUT EVENTS_IN.

(** The bytes sent are those of [receive_buf], whatever they are. *)
Definition resend_event_notifications (c : Z) : M Z :=
  s ← get_service;
  if negb (s_needs_sock_for_poll s) then mret 0
  else
    x ← get_conn c;
    res ←
      (if 0 <? c_outstanding_notifiers x then
         bs ← read_mem (P_receive_buf c) 0 (c_outstanding_notifiers x);
         qb_ipc_us_send fuel (c_setup x) bs
       else mret 0);
    _ ← (if 0 <? res
         then mod_conn c (fun x => set_c_outstanding_notifiers x (i32 (c_outstanding_notifiers x - res)))
         else mret tt);
    x ← get_conn c;
    if negb (0 <=? c_outstanding_notifiers x) then fail F_assert
    else
      _ ← (if c_outstanding_notifiers x =? 0 then
             _ ← mod_conn c (fun x => set_c_poll_events x EVENTS_IN);
             _ ← _modify_dispatch_descriptor_ c; mret tt
           else mret tt);
      mret res.

Definition new_event_notification (c : Z) : M Z :=
  s ← get_service;
  if negb (s_needs_sock_for_poll s) then mret 0
  else
    x ← get_conn c;
    if negb (0 <=? c_outstanding_notifiers x) then fail F_assert
    else if 0 <? c_outstanding_notifiers x then
      _ ← mod_conn c (fun x => set_c_outstanding_notifiers x (i32 (c_outstanding_notifiers x + 1)));
      resend_event_notifications c
    else
      res ← qb_ipc_us_send fuel (c_setup x) (take 1 (le_split 4 (u32 (c_outstanding_notifiers x))));
      _ ← (if res =? - EAGAIN then
             _ ← mod_conn c (fun x => set_c_poll_events
                   (set_c_outstanding_notifiers x (i32 (c_outstanding_notifiers x + 1))) EVENTS_IN_OUT);
             _ ← _modify_dispatch_descriptor_ c; mret tt
           else mret tt);
      mret res.

(** After [funcs.send]: [ignored] is the errors of the notification that the
    caller does not see. *)
Definition event_sent (c : Z) (res : Z) (sent : bool) (ignored : Z -> bool) : M Z :=
  if sent then
    _ ← mod_stats c count_event;
    resn ← new_event_notification c;
    mret (if (resn <? 0) && negb (ignored resn) then resn else res)
  else if try_later res then
    ow ← _event_sock_one_way_get c;
    x ← get_conn c;
    _ ← (if 0 <? c_outstanding_notifiers x
         then _ ← resend_event_notifications c; mret tt else mret tt);
    res ← ready_or c ow res;
    _ ← mod_stats c count_send_retry;
    mret res
  else mret res.

Definition qb_ipcs_event_send (c : option Z) (data : list Z) : M Z :=
  match c with
  | None => mret (- EINVAL)
  | Some c =>
    x ← get_conn c;
    if ow_max_msg_size (c_event x) <? zlen data then mret (- EMSGSIZE)
    else
      _ ← qb_ipcs_connection_ref (Some c);
      res ←
        (fs ← get_funcs;
         x ← get_conn c;
         res ← fn_send fs (c_event x) data;
         event_sent c res (res =? zlen data) (fun e => (e =? - EAGAIN) || (e =? - ENOBUFS)));
      _ ← qb_ipcs_connection_unref (Some c);
      mret res
  end.

Definition qb_ipcs_event_sendv (c : option Z) (iov : list (list Z)) : M Z :=
  match c with
  | None => mret (- EINVAL)
  | Some c =>
    _ ← qb_ipcs_connection_ref (Some c);
    res ←
      (fs ← get_funcs;
       x ← get_conn c;
       res ← fn_sendv fs (c_event x) iov;
       event_sent c res (0 <? res) (fun e => e =? - EAGAIN));
    _ ← qb_ipcs_connection_unref (Some c);
    mret res
  end.

(** ** Requests *)

Definition IPC_REQUEST_TIMEOUT : Z := 10.
Definition MAX_RECV_MSGS : Z := 50.

Definition count_request (t : qb_ipcs_connection_stats_2) : qb_ipcs_connection_stats_2 :=
  set_st_requests t (u64 (st_requests t + 1)).
Definition count_recv_retry (t : qb_ipcs_connection_stats_2) : qb_ipcs_connection_stats_2 :=
  set_st_recv_retries t (u64 (st_recv_retries t + 1)).

(** [if (funcs.peek && funcs.reclaim)]. *)
Definition peek_reclaim (fs : qb_ipcs_funcs)
    : option ((qb_ipc_one_way -> Z -> M (Z * option ptr)) * (qb_ipc_one_way -> M unit)) :=
  match fn_peek fs, fn_reclaim fs with
  | Some p, Some r => Some (p, r)
  | _, _ => None
  end.

(** The size received, or an error, and the address of the message. *)
Definition receive_request (c : Z) (ms_timeout : Z) : M (Z * option ptr) :=
  fs ← get_funcs;
  x ← get_conn c;
  match peek_reclaim fs with
  | Some (peek, _) => peek (c_request x) ms_timeout
  | None =>
    '(size, bs) ← fn_recv fs (c_request x) (ow_max_msg_size (c_request x)) ms_timeout;
    x ← get_conn c;
    match c_receive_buf x with
    | Some b =>
      if zlen b <? zlen bs then fail F_overrun
      else
        _ ← mod_conn c (fun x => set_c_receive_buf x (Some (bs ++ drop (length bs) b)));
        mret (size, Some (P_receive_buf c))
    | None => if bool_decide (bs = []) then mret (size, Some (P_receive_buf c)) else fail F_overrun
    end
  end.

Definition _process_request_ (c : Z) (ms_timeout : Z) : M Z :=
  '(size, hdr) ← receive_request c ms_timeout;
  if size <? 0 then
    _ ← (if negb (size =? - EAGAIN) && negb (size =? - ETIMEDOUT) then mret tt
         else mod_stats c count_recv_retry);
    mret size
  else if size =? 0 then mret (- ESHUTDOWN)
  else
    match hdr with
    | None => fail F_overrun
    | Some hdr =>
      id ← read_i32 hdr 0;
      if id =? QB_IPC_MSG_DISCONNECT then mret (- ESHUTDOWN)
      else
        hdr_size ← read_i32 hdr 8;
        x ← get_conn c;
        if (hdr_size <=? 0) || (ow_max_msg_size (c_request x) <? hdr_size) then mret (- EINVAL)
        else
          _ ← mod_stats c count_request;
          res ← msg_process serv_fns c hdr hdr_size;
          let res := if res <? 0 then - ENOBUFS else size in
          fs ← get_funcs;
          x ← get_conn c;
          _ ← match peek_reclaim fs with
              | Some (_, reclaim) => reclaim (c_request x)
              | None => mret tt
              end;
          mret res
    end.

Definition _request_q_len_get (c : Z) : M Z :=
  fs ← get_funcs;
  x ← get_conn c;
  s ← get_service;
  match fn_q_len_get fs with
  | Some f =>
    q_len ← f (c_request x);
    if q_len <=? 0 then mret q_len
    else if s_poll_priority s =? QB_LOOP_MED then mret (QB_MIN q_len 5)
    else if s_poll_priority s =? QB_LOOP_LOW then mret 1
    else mret (QB_MIN q_len MAX_RECV_MSGS)
  | None => mret 1
  end.

(** The loop over the requests: [inl] a request to shut down, [inr] the last
    result and the number of messages received. *)
Fixpoint request_loop (n : nat) (c : Z) (avail recvd : Z) : M (unit + Z * Z) :=
  match n with
  | O => fail F_loop
  | S n' =>
    res ← _process_request_ c IPC_REQUEST_TIMEOUT;
    if res =? - ESHUTDOWN then mret (inl tt)
    else
      let recvd := if (0 <? res) || (res =? - ENOBUFS) || (res =? - EINVAL) then i32 (recvd + 1) else recvd in
      let avail := if 0 <? res then avail - 1 else avail in
      x ← get_conn c;
      if (0 <? avail) && (0 <? res) && (c_fc_enabled x =? 0) then request_loop n' c avail recvd
      else mret (inr (res, recvd))
  end.

(** The body of the dispatch function up to [dispatch_cleanup]: its result. *)
Definition dispatch_requests (c : Z) (avail : Z) : M Z :=
  r ← request_loop (S (Z.to_nat avail)) c avail 0;
  match r with
  | inl _ => mret (- ESHUTDOWN)
  | inr (res, recvd) =>
    s ← get_service;
    gone ←
      (if s_needs_sock_for_poll s && (0 <? recvd) then
         if MAX_RECV_MSGS <? recvd then fail F_overrun
         else
           x ← get_conn c;
           '(res2, _) ← qb_ipc_us_recv fuel (c_setup x) recvd (-1);
           mret (qb_ipc_us_sock_error_is_disconnected res2)
       else mret false);
    if (gone : bool) then mret (- ESHUTDOWN)
    else
      let res := QB_MIN 0 res in
      mret (if (res =? - EAGAIN) || (res =? - ETIMEDOUT) || (res =? - ENOBUFS) then 0 else res)
  end.

Definition dispatch_result (c : Z) (revents : Z) : M Z :=
  if has_flag revents POLLNVAL then mret (- EINVAL)
  else if has_flag revents POLLHUP then mret (- ESHUTDOWN)
  else
    _ ← (if has_flag revents POLLOUT then _ ← resend_event_notifications c; mret tt else mret tt);
    if has_flag revents POLLOUT && negb (has_flag revents POLLIN) then mret 0
    else
      x ← get_conn c;
      if negb (c_fc_enabled x =? 0) then mret 0
      else
        avail ← _request_q_len_get c;
        s ← get_service;
        if s_needs_sock_for_poll s && (avail =? 0) then
          x ← get_conn c;
          '(res2, _) ← qb_ipc_us_recv fuel (c_setup x) 1 0;
          mret (if qb_ipc_us_sock_error_is_disconnected res2 then - ESHUTDOWN else 0)
        else dispatch_requests c avail.

Definition qb_ipcs_dispatch_connection_request (revents : Z) (c : option Z) : M Z :=
  res ← match c with Some c => dispatch_result c revents | None => mret (- EINVAL) end;
  _ ← (if negb (res =? 0) then qb_ipcs_disconnect c else mret tt);
  mret res.

(** ** Connections *)

Definition qb_ipcs_connection_first_get : M (option Z) :=
  _ ← get_service;
  l ← get conn_list;
  match l with
  | [] => mret None
  | c :: _ => _ ← qb_ipcs_connection_ref (Some c); mret (Some c)
  end.

(** An entry that is in no list is linked to itself. *)
Definition qb_ipcs_connection_next_get (current : option Z) : M (option Z) :=
  _ ← get_service;
  match current with
  | None => mret None
  | Some cur =>
    _ ← get_conn cur;
    l ← get conn_list;
    let c := if decide (cur ∈ l) then next_in l cur else Some cur in
    _ ← qb_ipcs_connection_ref c;
    mret c
  end.

Definition qb_ipcs_service_id_get (c : option Z) : M Z :=
  match c with
  | None => mret (- EINVAL)
  | Some c => _ ← get_conn c; s ← get_service; mret (s_service_id s)
  end.

Definition new_connection (t : qb_ipc_type) : qb_ipcs_connection :=
  {| c_state := QB_IPCS_CONNECTION_INACTIVE; c_refcount := 1; c_pid := 0; c_euid := u32 (-1); c_egid := u32 (-1);
     c_auth := {| auth_uid := 0; auth_gid := 0; auth_mode := 0 |};
     c_setup := new_one_way t; c_request := new_one_way t; c_response := new_one_way t; c_event := new_one_way t;
     c_receive_buf := None; c_context := 0; c_fc_enabled := 0; c_poll_events := EVENTS_IN;
     c_outstanding_notifiers := 0; c_description := bytes "not set yet"%string; c_stats := zero_stats |}.

Definition qb_ipcs_connection_alloc : M (option Z) :=
  a ← sys (Sys_calloc Alloc_connection);
  if ret a =? 0 then mret None
  else
    s ← get_service;
    c ← new_address;
    _ ← modify (fun m => set_conns m (<[c := new_connection (s_type s)]> (conns m)));
    _ ← qb_ipcs_ref;
    mret (Some c).

Definition qb_ipcs_context_set (c : option Z) (context : Z) : M unit :=
  match c with None => mret tt | Some c => mod_conn c (fun x => set_c_context x context) end.
Definition qb_ipcs_context_get (c : option Z) : M Z :=
  match c with None => mret 0 | Some c => x ← get_conn c; mret (c_context x) end.
Definition qb_ipcs_connection_service_context_get (c : option Z) : M Z :=
  match c with None => mret 0 | Some c => _ ← get_conn c; s ← get_service; mret (s_context s) end.

Definition clear_stats (x : qb_ipcs_connection) : qb_ipcs_connection :=
  set_c_stats x (set_st_client_pid zero_stats (c_pid x)).

(** [struct qb_ipcs_connection_stats] is the first fields of
    [struct qb_ipcs_connection_stats_2]. *)
Definition qb_ipcs_connection_stats_get (c : option Z) (clear_after_read : bool)
    : M (Z * option qb_ipcs_connection_stats_2) :=
  match c with
  | None => mret (- EINVAL, None)
  | Some c =>
    x ← get_conn c;
    _ ← when clear_after_read (mod_conn c clear_stats);
    mret (0, Some (set_st_event_q_length (c_stats x) 0))
  end.

Definition qb_ipcs_connection_stats_get_2 (c : option Z) (clear_after_read : bool)
    : M (option qb_ipcs_connection_stats_2) :=
  match c with
  | None => mret None
  | Some c =>
    a ← sys (Sys_calloc Alloc_stats);
    if ret a =? 0 then mret None
    else
      x ← get_conn c;
      fs ← get_funcs;
      q ← match fn_q_len_get fs with Some f => f (c_event x) | None => mret 0 end;
      _ ← when clear_after_read (mod_conn c clear_stats);
      mret (Some (set_st_event_q_length (c_stats x) (u32 q)))
  end.

(** The service is not NULL. *)
Definition qb_ipcs_stats_get (clear_after_read : bool) : M (Z * qb_ipcs_stats) :=
  s ← get_service;
  _ ← when clear_after_read
        (mod_service_stats (fun _ => {| active_connections := 0; closed_connections := 0 |}));
  mret (0, s_stats s).

Definition qb_ipcs_connection_auth_set (c : option Z) (uid gid mode : Z) : M unit :=
  match c with
  | None => mret tt
  | Some c => mod_conn c (fun x => set_c_auth x {| auth_uid := uid; auth_gid := gid; auth_mode := mode |})
  end.

Definition qb_ipcs_connection_get_buffer_size (c : option Z) : M Z :=
  match c with
  | None => mret (- EINVAL)
  | Some c => x ← get_conn c; mret (i32 (ow_max_msg_size (c_response x)))
  end.

Definition qb_ipcs_enforce_buffer_size (buf_size : Z) : M unit :=
  mod_service (fun s => set_s_max_buffer_size s (u32 buf_size)).

(** ** Publishing the service (lib/ipc_setup.c) *)

(** The address a socket of the service is bound to. *)
Definition socket_address (name : list Z) : list Z :=
  if negb filesystem_sockets then 0 :: take (Z.to_nat (UNIX_PATH_MAX - 2)) name
  else take (Z.to_nat (UNIX_PATH_MAX - 1)) (SOCKETDIR ++ bytes "/"%string ++ name).

(** [close(s->server_sock)] and the error. *)
Definition publish_error (sock res : Z) : M Z := _ ← sys (Sys_close sock); mret res.

Definition qb_ipcs_us_publish : M Z :=
  a ← sys Sys_socket;
  _ ← mod_service (fun s => set_s_server_sock s (ret a));
  let sock := ret a in
  if sock =? -1 then mret (- err a)
  else
    a ← sys (Sys_fd_nonblock_cloexec_set sock);
    if ret a <? 0 then publish_error sock (ret a)
    else
      s ← get_service;
      let un_addr := socket_address (s_name s) in
      dir_error ←
        (if filesystem_sockets then
           a ← sys Sys_stat_socketdir;
           if (ret a =? -1) || ((ret a =? 0) && negb (bool_decide (out a = [1]))) then mret (Some (- err a))
           else _ ← sys (Sys_unlink_socket un_addr); mret None
         else mret None);
      match dir_error with
      | Some res => publish_error sock res
      | None =>
        a ← sys (Sys_bind sock un_addr);
        if negb (ret a =? 0) then publish_error sock (- err a)
        else
          _ ← when filesystem_sockets (_ ← sys (Sys_chmod_socket un_addr); mret tt);
          _ ← sys (Sys_setsockopt_passcred sock true);
          _ ← sys (Sys_listen sock);
          poll_fn s_dispatch_add (Loop_dispatch_add (s_poll_priority s) sock EVENTS_IN 0 Fn_acceptor)
      end.

(** [out] of [getsockname] is the path; the family is [AF_UNIX]. *)
Definition qb_ipcs_us_withdraw : M Z :=
  s ← get_service;
  let sock := s_server_sock s in
  _ ← poll_fn s_dispatch_del (Loop_dispatch_del sock);
  _ ← sys (Sys_shutdown sock);
  _ ← when filesystem_sockets
        (a ← sys (Sys_getsockname sock);
         if ret a =? 0 then _ ← sys (Sys_unlink_socket (out a)); mret tt else mret tt);
  _ ← sys (Sys_close sock);
  _ ← mod_service (fun s => set_s_server_sock s (-1));
  mret 0.

(** [qb_ipcs_shm_init] and [qb_ipcs_us_init]: which table is installed and
    whether events are announced on the setup socket. *)
Definition init_transport (t : qb_ipc_type) (needs_sock : bool) : M unit :=
  mod_service (fun s => set_s_needs_sock_for_poll (set_s_funcs s (Some t)) needs_sock).

Definition qb_ipcs_run : M Z :=
  s ← get_service;
  res ←
    (if negb (s_dispatch_add s && s_dispatch_mod s && s_dispatch_del s) then mret (- EINVAL)
     else
       res ←
         match s_type s with
         | QB_IPC_SOCKET => _ ← init_transport QB_IPC_SOCKET false; mret 0
         | QB_IPC_SHM => _ ← init_transport QB_IPC_SHM true; mret 0
         | QB_IPC_POSIX_MQ | QB_IPC_SYSV_MQ => mret (- ENOTSUP)
         | _ => mret (- EINVAL)
         end;
       if res =? 0 then
         res ← qb_ipcs_us_publish;
         _ ← when (res <? 0) (_ ← qb_ipcs_us_withdraw; mret tt);
         mret res
       else mret res);
  _ ← when (res <? 0) qb_ipcs_unref;
  mret res.

(** The service is not NULL. *)
Definition qb_ipcs_destroy : M unit :=
  _ ← for_each_connection (fun c => qb_ipcs_disconnect (Some c));
  _ ← qb_ipcs_us_withdraw;
  qb_ipcs_unref.
End Service.
