(* ===== verification/IpcShm.v ===== *)
(** * The shared memory transport (lib/ipc_shm.c)

    Requests, responses and events each go through a ring buffer; the setup
    socket carries one byte per message.  The rings are those of file
    [RingBuffer]. *)
From stdpp Require Import strings gmap.
From S2P Require Import Prelude Memory Cstring RingBuffer RingBufferOpen Loop IpcBase IpcSock Ipcs.

Section Shm.
Context {E : Env}.

(** ** Opening and closing rings by name *)

(** The header that a file of length zero is read as. *)
Definition no_hdr : qb_ringbuffer_shared_s :=
  {| write_pt := 0; read_pt := 0; word_size := 0; hdr_path := ""%string; data_path := ""%string; ref_count := 0 |}.

(** The environment of [qb_rb_open]: what it finds in the files of that name.
    Without [QB_RB_FLAG_CREATE] a missing file is an error. *)
Definition open_env_for (e : open_env) (create : bool) (r : option shm_ring) : open_env :=
  let set h p d fd :=
    {| page_size := page_size e; env_calloc_ok := env_calloc_ok e; env_fd_hdr := fd;
       env_hdr_path := env_hdr_path e; env_mmap_hdr_errno := env_mmap_hdr_errno e;
       env_sem_init_errno := env_sem_init_errno e; env_fd_data := env_fd_data e;
       env_data_path := env_data_path e; env_circular_mmap := env_circular_mmap e;
       env_shared_hdr := h; env_psem := p; env_data := d |} in
  if create then set no_hdr {| posix_sem := 0; wait_env := wait_env (env_psem e) |} [] (env_fd_hdr e)
  else
    match r with
    | Some r => set (shared_hdr (sr_rb r)) (instance (sr_rb r)) (shared_data (sr_rb r)) (env_fd_hdr e)
    | None => set no_hdr (env_psem e) [] (- ENOENT)
    end.

Definition is_unlink (a : cleanup_action) : bool := match a with Act_unlink _ => true | _ => false end.

(** [inl errno] or the handle. *)
Definition rb_open (name : list Z) (size fl : Z) : M (Z + ring_handle) :=
  h ← get calls;
  fs ← get files;
  rs ← get rings;
  let create := has_flag fl QB_RB_FLAG_CREATE in
  let old := fs !! name in
  match qb_rb_open size fl (open_env_for (open_env_of h name) create (old ≫= fun id => rs !! id)) with
  | inl (errno, acts) =>
    _ ← when (create && existsb is_unlink acts) (modify (fun m => set_files m (delete name (files m))));
    mret (inl errno)
  | inr rb =>
    match old, create with
    | Some id, false =>
      _ ← put_ring {| rh_id := id; rh_flags := fl |} rb;
      mret (inr {| rh_id := id; rh_flags := fl |})
    | _, _ =>
      id ← new_address;
      _ ← modify (fun m => set_rings m (<[id := {| sr_rb := rb; sr_user_data := 0 |}]> (rings m)));
      _ ← modify (fun m => set_files m (<[name := id]> (files m)));
      mret (inr {| rh_id := id; rh_flags := fl |})
    end
  end.

Definition is_close_unlink (a : close_action) : bool := match a with Close_unlink _ _ => true | _ => false end.

(** The names of a ring whose header file is unlinked are gone. *)
Definition rb_gone (h : ring_handle) (ce : close_env) (acts : list close_action) : M unit :=
  _ ← sys (Sys_rb_close (rh_id h) acts);
  when (existsb is_close_unlink acts && (ce_unlink_hdr ce =? 0))
    (modify (fun m => set_files m (filter (fun p => p.2 <> rh_id h) (files m)))).

(** [rb_destructor(qb_rb_lastref_and_ret(&rb))], the destructor being
    [qb_rb_close] or [qb_rb_force_close]; the caller's pointer is NULL after it. *)
Definition rb_destroy (force : bool) (orb : option ring_handle) : M unit :=
  match orb with
  | None => mret tt
  | Some h =>
    rb ← get_ring h;
    c ← get calls;
    let ce := close_env_of c (rh_id h) in
    let last := snd (qb_rb_lastref_and_ret (Some rb)) in
    match (if force then qb_rb_force_close last ce else qb_rb_close last ce) with
    | (Some rb, acts) => _ ← put_ring h rb; rb_gone h ce acts
    | (None, _) => mret tt
    end
  end.

(** ** Messages *)

Definition qb_ipc_shm_send (one_way : qb_ipc_one_way) (msg : list Z) : M Z :=
  match ow_rb one_way with
  | None =>
    match qb_rb_chunk_write (I := psem) None msg 0 with Some (_, _, r) => mret r | None => fail F_loop end
  | Some h =>
    rb ← get_ring h;
    match qb_rb_chunk_write (Some rb) msg 0 with
    | Some (Some rb, _, r) => _ ← put_ring h rb; mret r
    | _ => fail F_loop
    end
  end.

(** [total_size += iov[i].iov_len], in [int32_t]. *)
Definition iov_total (iov : list (list Z)) : Z := foldl (fun n b => i32 (n + zlen b)) 0 iov.

Fixpoint copy_iov (d : list Z) (pt : Z) (iov : list (list Z)) : list Z :=
  match iov with
  | [] => d
  | b :: rest => copy_iov (blit d pt b) (pt + zlen b) rest
  end.

Definition qb_ipc_shm_sendv (one_way : qb_ipc_one_way) (iov : list (list Z)) : M Z :=
  match ow_rb one_way with
  | None => mret (- ENOTCONN)
  | Some h =>
    let total_size := iov_total iov in
    rb ← get_ring h;
    match qb_rb_chunk_alloc (Some rb) (u64 total_size) 0 with
    | (Some rb, errno, Alloc_at dest) =>
      let rb := set_data rb (copy_iov (shared_data rb) dest iov) in
      match qb_rb_chunk_commit (Some rb) (u64 total_size) with
      | (Some rb, res) =>
        _ ← put_ring h rb;
        mret (if res <? 0 then res else total_size)
      | (None, res) => mret res
      end
    | (Some rb, errno, Alloc_null) => _ ← put_ring h rb; mret (- errno)
    | _ => fail F_loop
    end
  end.

Definition qb_ipc_shm_recv (one_way : qb_ipc_one_way) (msg_len ms_timeout : Z) : M (Z * list Z) :=
  match ow_rb one_way with
  | None => mret (- ENOTCONN, [])
  | Some h =>
    rb ← get_ring h;
    match qb_rb_chunk_read (Some rb) msg_len ms_timeout 0 with
    | Some (Some rb, r, bs) => _ ← put_ring h rb; mret (r, bs)
    | _ => fail F_loop
    end
  end.

Definition qb_ipc_shm_peek (one_way : qb_ipc_one_way) (ms_timeout : Z) : M (Z * option ptr) :=
  match ow_rb one_way with
  | None => mret (- ENOTCONN, None)
  | Some h =>
    rb ← get_ring h;
    match qb_rb_chunk_peek (Some rb) ms_timeout with
    | Some (Some rb, rc, p) =>
      _ ← put_ring h rb;
      mret (if rc =? 0 then - EAGAIN else rc, P_ring h <$> p)
    | _ => fail F_loop
    end
  end.

Definition qb_ipc_shm_reclaim (one_way : qb_ipc_one_way) : M unit :=
  match ow_rb one_way with
  | None => mret tt
  | Some h =>
    rb ← get_ring h;
    match fst (qb_rb_chunk_reclaim (Some rb) 0) with
    | Some rb => put_ring h rb
    | None => mret tt
    end
  end.

(** [qb_rb_shared_user_data_get] reads through the ring. *)
Definition qb_ipc_shm_fc_set (one_way : qb_ipc_one_way) (fc_enable : Z) : M unit :=
  match ow_rb one_way with
  | None => fail F_freed
  | Some h => put_user_data h fc_enable
  end.

Definition qb_ipc_shm_fc_get (one_way : qb_ipc_one_way) : M Z :=
  match ow_rb one_way with
  | None => mret (- ENOTCONN)
  | Some h =>
    rb ← get_ring h;
    if negb (qb_rb_refcount_get (Some rb) =? 2) then mret (- ENOTCONN)
    else get_user_data h
  end.

Definition qb_ipc_shm_q_len_get (one_way : qb_ipc_one_way) : M Z :=
  match ow_rb one_way with
  | None => mret (- ENOTCONN)
  | Some h => rb ← get_ring h; mret (qb_rb_chunks_used (Some rb))
  end.

(** ** The server's side *)

(** The ring of a one-way of a connection, if there is one, is closed. *)
Definition close_ring (c : Z) (o : ow_name) : M unit :=
  x ← get_conn c;
  _ ← rb_destroy false (ow_rb (c_ow x o));
  mod_conn c (fun x => set_c_ow x o (set_ow_rb (c_ow x o) None)).

(** The handler for SIGBUS, installed meanwhile, is not modelled. *)
Definition qb_ipcs_shm_disconnect (c : Z) : M unit :=
  x ← get_conn c;
  _ ← (if decide (c_state x = QB_IPCS_CONNECTION_SHUTTING_DOWN \/ c_state x = QB_IPCS_CONNECTION_ACTIVE) then
         _ ← close_ring c Ow_response;
         _ ← close_ring c Ow_event;
         close_ring c Ow_request
       else mret tt);
  _ ← (if decide (c_state x = QB_IPCS_CONNECTION_ESTABLISHED \/ c_state x = QB_IPCS_CONNECTION_ACTIVE) then
         if 0 <? ow_sock (c_setup x) then
           _ ← poll_fn s_dispatch_del (Loop_dispatch_del (ow_sock (c_setup x)));
           _ ← qb_ipcc_us_sock_close (ow_sock (c_setup x));
           mod_conn c (fun x => set_c_setup x (set_ow_sock (c_setup x) (-1)))
         else mret tt
       else mret tt);
  x ← get_conn c;
  remove_tempdir (c_description x).

Definition qb_ipcs_shm_rb_open (c : Z) (o : ow_name) (rb_name : list Z) : M Z :=
  x ← get_conn c;
  r ← rb_open rb_name (ow_max_msg_size (c_ow x o)) (Z.lor QB_RB_FLAG_CREATE QB_RB_FLAG_SHARED_PROCESS);
  match r with
  | inl errno =>
    _ ← mod_conn c (fun x => set_c_ow x o (set_ow_rb (c_ow x o) None));
    mret (- errno)
  | inr h =>
    _ ← mod_conn c (fun x => set_c_ow x o (set_ow_rb (c_ow x o) (Some h)));
    a ← sys (Sys_rb_chown (rh_id h) (auth_uid (c_auth x)) (auth_gid (c_auth x)));
    if negb (ret a =? 0) then _ ← close_ring c o; mret (ret a)
    else
      a ← sys (Sys_rb_chmod (rh_id h) (auth_mode (c_auth x)));
      if negb (ret a =? 0) then _ ← close_ring c o; mret (ret a)
      else mret (ret a)
  end.

(** [snprintf(r->request, NAME_MAX, "%s-request-%s", c->description, s->name)]. *)
Definition ring_name (description : list Z) (what : String.string) (name : list Z) : list Z :=
  take (Z.to_nat (NAME_MAX - 1)) (description ++ bytes what ++ name).

Definition with_names (r : qb_ipc_connection_response) (d n : list Z) : qb_ipc_connection_response :=
  {| r_id := r_id r; r_size := r_size r; r_error := r_error r; r_connection_type := r_connection_type r;
     r_max_msg_size := r_max_msg_size r; r_connection := r_connection r;
     r_request := ring_name d "-request-"%string n; r_response := ring_name d "-response-"%string n;
     r_event := ring_name d "-event-"%string n |}.
Definition with_error (r : qb_ipc_connection_response) (e : Z) : qb_ipc_connection_response :=
  {| r_id := r_id r; r_size := r_size r; r_error := e; r_connection_type := r_connection_type r;
     r_max_msg_size := r_max_msg_size r; r_connection := r_connection r;
     r_request := r_request r; r_response := r_response r; r_event := r_event r |}.

(** The rings are opened in order; [opened] is the ones to close on an error,
    the last one first. *)
Definition shm_connect_error (c : Z) (opened : list ow_name) (r : qb_ipc_connection_response) (res : Z)
    : M (Z * qb_ipc_connection_response) :=
  _ ← foldr (fun o k => _ ← close_ring c o; k) (mret tt) opened;
  mret (res, with_error r res).

Definition qb_ipcs_shm_connect (c : Z) (r : qb_ipc_connection_response) : M (Z * qb_ipc_connection_response) :=
  s ← get_service;
  x ← get_conn c;
  let r := with_names r (c_description x) (s_name s) in
  _ ← match dir_of (c_description x) with
      | Some dirname =>
        _ ← sys (Sys_chown dirname (auth_uid (c_auth x)) (auth_gid (c_auth x))); mret tt
      | None => mret tt
      end;
  res ← qb_ipcs_shm_rb_open c Ow_request (r_request r);
  if negb (res =? 0) then shm_connect_error c [] r res
  else
    res ← qb_ipcs_shm_rb_open c Ow_response (r_response r);
    if negb (res =? 0) then shm_connect_error c [Ow_request] r res
    else
      res ← qb_ipcs_shm_rb_open c Ow_event (r_event r);
      if negb (res =? 0) then shm_connect_error c [Ow_response; Ow_request] r res
      else
        res ← poll_fn s_dispatch_add (Loop_dispatch_add (s_poll_priority s) (ow_sock (c_setup x)) EVENTS_IN c
                                        Fn_connection_request);
        if negb (res =? 0) then shm_connect_error c [Ow_event; Ow_response; Ow_request] r res
        else mret (0, with_error r 0).

(** The table that [qb_ipcs_shm_init] installs. *)
Definition shm_funcs : qb_ipcs_funcs :=
  {| fn_connect := Some qb_ipcs_shm_connect;
     fn_disconnect := qb_ipcs_shm_disconnect;
     fn_recv := qb_ipc_shm_recv;
     fn_peek := Some qb_ipc_shm_peek;
     fn_reclaim := Some qb_ipc_shm_reclaim;
     fn_send := qb_ipc_shm_send;
     fn_sendv := qb_ipc_shm_sendv;
     fn_fc_set := qb_ipc_shm_fc_set;
     fn_q_len_get := Some qb_ipc_shm_q_len_get |}.

(** ** The client's side *)

(** The error, if the ring could not be opened. *)
Definition client_open_ring (c : Z) (o : ow_name) (name : list Z) (size : Z) : M (option Z) :=
  r ← rb_open name size QB_RB_FLAG_SHARED_PROCESS;
  match r with
  | inl errno =>
    _ ← mod_client c (fun x => set_cc_ow x o (set_ow_rb (cc_ow x o) None));
    mret (Some (- errno))
  | inr h =>
    _ ← mod_client c (fun x => set_cc_ow x o (set_ow_rb (cc_ow x o) (Some h)));
    mret None
  end.
Definition client_close_ring (force : bool) (c : Z) (o : ow_name) : M unit :=
  x ← get_client c;
  _ ← rb_destroy force (ow_rb (cc_ow x o));
  mod_client c (fun x => set_cc_ow x o (set_ow_rb (cc_ow x o) None)).

Definition qb_ipcc_shm_connect (c : Z) (response : qb_ipc_connection_response) : M Z :=
  _ ← mod_client c (fun x => set_cc_needs_sock_for_poll (set_cc_funcs x (Some QB_IPC_SHM)) true);
  x ← get_client c;
  if NAME_MAX - 20 <? zlen (cc_name x) then mret (- EINVAL)
  else
    e ← client_open_ring c Ow_request (r_request response) (ow_max_msg_size (cc_request x));
    match e with
    | Some res => mret res
    | None =>
      e ← client_open_ring c Ow_response (r_response response) (ow_max_msg_size (cc_response x));
      match e with
      | Some res => _ ← client_close_ring false c Ow_request; mret res
      | None =>
        e ← client_open_ring c Ow_event (r_event response) (ow_max_msg_size (cc_response x));
        match e with
        | Some res =>
          _ ← client_close_ring false c Ow_response;
          _ ← client_close_ring false c Ow_request;
          mret res
        | None => mret 0
        end
      end
    end.

(** [while (attempt++ <= 3 && rb_destructor == qb_rb_close)]: whether the server
    was found to be dead. *)
Fixpoint server_gone (attempts : nat) (pid : Z) : M bool :=
  match attempts with
  | O => mret false
  | S n =>
    a ← sys (Sys_kill pid);
    if (ret a =? -1) && (err a =? ESRCH) then mret true
    else _ ← sys Sys_nanosleep; server_gone n pid
  end.

Definition qb_ipcc_shm_disconnect (c : Z) : M unit :=
  x ← get_client c;
  force ←
    (if negb (cc_is_connected x) && negb (cc_server_pid x =? 0) then server_gone 4 (cc_server_pid x)
     else mret false);
  let force := force || (negb (cc_is_connected x) && (cc_server_pid x =? 0)) in
  _ ← qb_ipcc_us_sock_close (ow_sock (cc_setup x));
  _ ← client_close_ring force c Ow_request;
  _ ← client_close_ring force c Ow_response;
  client_close_ring force c Ow_event.
End Shm.
