(* ===== verification/IpcSocket.v ===== *)
(** * The socket transport (lib/ipc_socket.c)

    Requests and responses go through one pair of datagram sockets and events
    through another.  A file that both processes map holds three structures, one
    per direction, with the number of messages sent and not yet received and the
    flow control.  The server connects its sockets on the first send.  What the
    sockets do is up to the environment. *)
From stdpp Require Import strings gmap.
From S2P Require Import Prelude Memory Cstring RingBuffer RingBufferOpen Loop IpcBase IpcSock Ipcs.

Section Socket.
Context {E : Env}.

(** ** The shared control structures *)

Definition mod_us (f : us_memory -> us_memory) : M unit := modify (fun m => set_us_mem m (f (us_mem m))).

Definition with_us_files (u : us_memory) (v : gmap (list Z) Z) : us_memory :=
  {| us_files := v; us_ctl := us_ctl u; us_maps := us_maps u; us_names := us_names u |}.
Definition with_us_ctl (u : us_memory) (v : gmap Z (list ipc_us_control)) : us_memory :=
  {| us_files := us_files u; us_ctl := v; us_maps := us_maps u; us_names := us_names u |}.
Definition with_us_maps (u : us_memory) (v : gmap Z Z) : us_memory :=
  {| us_files := us_files u; us_ctl := us_ctl u; us_maps := v; us_names := us_names u |}.
Definition with_us_names (u : us_memory) (v : gmap Z (list Z)) : us_memory :=
  {| us_files := us_files u; us_ctl := us_ctl u; us_maps := us_maps u; us_names := v |}.

(** The structures of a new control file, which is full of zeros. *)
Definition zero_controls : list ipc_us_control := [inhabitant; inhabitant; inhabitant].

(** [mmap] of a control file: the new mapping. *)
Definition map_control (name : list Z) : M Z :=
  u ← get us_mem;
  map ← new_address;
  id ← match us_files u !! name with
       | Some id => mret id
       | None =>
         id ← new_address;
         _ ← mod_us (fun u => with_us_ctl (with_us_files u (<[name := id]> (us_files u))) (<[id := zero_controls]> (us_ctl u)));
         mret id
       end;
  _ ← mod_us (fun u => with_us_maps u (<[map := id]> (us_maps u)));
  mret map.

(** [munmap] of the mapping a pointer points into. *)
Definition unmap_control (p : option (Z * Z)) : M unit :=
  _ ← sys (Sys_munmap (fst <$> p));
  match p with
  | Some (map, _) => mod_us (fun u => with_us_maps u (delete map (us_maps u)))
  | None => mret tt
  end.

(** [unlink]: a control file of that name is gone for those who open it. *)
Definition unlink_file (path : list Z) : M unit :=
  _ ← sys (Sys_unlink path);
  mod_us (fun u => with_us_files u (delete path (us_files u))).

(** A structure through its pointer; a NULL pointer or one into a mapping that is
    gone is a fault. *)
Definition get_ctl (p : option (Z * Z)) : M ipc_us_control :=
  fun m =>
    match p with
    | Some (map, i) =>
      match us_maps (us_mem m) !! map ≫= (fun id => us_ctl (us_mem m) !! id) with
      | Some cs => Done (zget cs i) m
      | None => Fault F_freed
      end
    | None => Fault F_freed
    end.
Definition put_ctl (p : option (Z * Z)) (v : ipc_us_control) : M unit :=
  fun m =>
    match p with
    | Some (map, i) =>
      match us_maps (us_mem m) !! map with
      | Some id =>
        match us_ctl (us_mem m) !! id with
        | Some cs => Done tt (set_us_mem m (with_us_ctl (us_mem m) (<[id := zset cs i v]> (us_ctl (us_mem m)))))
        | None => Fault F_freed
        end
      | None => Fault F_freed
      end
    | None => Fault F_freed
    end.

(** [qb_atomic_int_inc] and [qb_atomic_int_dec_and_test] on [ctl->sent], if there
    is a [ctl]. *)
Definition count_sent (p : option (Z * Z)) (d : Z) : M unit :=
  match p with
  | None => mret tt
  | Some _ => ctl ← get_ctl p; put_ctl p {| sent := i32 (sent ctl + d); flow_control := flow_control ctl |}
  end.

(** ** Names *)

Definition set_sock_addr (socket_name : list Z) : list Z :=
  if bool_decide (hd_error socket_name = Some 47) || negb filesystem_sockets
  then 0 :: take (Z.to_nat (UNIX_PATH_MAX - 2)) socket_name
  else take (Z.to_nat (UNIX_PATH_MAX - 1)) (SOCKETDIR ++ bytes "/"%string ++ socket_name).

(** [snprintf(path, PATH_MAX, "%s-%s", base_name, what)]. *)
Definition dash_name (base_name : list Z) (what : String.string) : list Z :=
  take (Z.to_nat (PATH_MAX - 1)) (base_name ++ bytes "-"%string ++ bytes what).

(** ** Datagram sockets *)

(** The result, and what is stored through [sock_pt], if anything is. *)
Definition qb_ipc_dgram_sock_setup (base_name : list Z) (service_name : String.string) (gid : Z) : M (Z * option Z) :=
  a ← sys Sys_socket_dgram;
  let request_fd := ret a in
  if request_fd =? -1 then mret (- err a, None)
  else
    a ← sys (Sys_fd_nonblock_cloexec_set request_fd);
    if ret a <? 0 then _ ← sys (Sys_close request_fd); mret (ret a, Some (-1))
    else
      let local_address := set_sock_addr (dash_name base_name service_name) in
      _ ← when filesystem_sockets (_ ← sys (Sys_unlink_socket local_address); mret tt);
      a ← sys (Sys_bind request_fd local_address);
      if ret a <? 0 then _ ← sys (Sys_close request_fd); mret (ret a, Some (-1))
      else
        _ ← when filesystem_sockets (_ ← sys (Sys_chmod local_address 432); _ ← sys (Sys_chown_socket local_address gid); mret tt);
        mret (0, Some request_fd).

(** One of the two buffers of a socket; [None] for success, or the error. *)
Definition set_one_size (sockfd : Z) (rcv : bool) (max_msg_size : Z) : M (option Z) :=
  a ← sys (Sys_getsockopt_size sockfd rcv);
  a ← (if (ret a =? 0) && (u32 (hd 0 (out a)) <=? max_msg_size) then sys (Sys_setsockopt_size sockfd rcv (u32 max_msg_size))
       else mret a);
  mret (if negb (ret a =? 0) then Some (- err a) else None).

Definition set_sock_size (sockfd max_msg_size : Z) : M Z :=
  r ← set_one_size sockfd false max_msg_size;
  match r with
  | Some e => mret e
  | None => r ← set_one_size sockfd true max_msg_size; mret (default 0 r)
  end.

(** One of the two halves of a round of [dgram_verify_msg_size]: try again, give
    up, or go on. *)
Inductive verify_step := Step_continue | Step_break | Step_passed.
Definition verify_result (a : answer) (max_msg_size : Z) : verify_step :=
  if (ret a <? 0) && ((err a =? EAGAIN) || (err a =? EINTR)) then Step_continue
  else if ret a =? max_msg_size then Step_passed
  else Step_break.

Fixpoint verify_loop (tries : nat) (sock0 sock1 max_msg_size rc : Z) (write_passed read_passed : bool) : M Z :=
  match tries with
  | O => mret rc
  | S tries' =>
    '(rc, w) ← (if write_passed then mret (rc, Step_passed)
                else a ← sys (Sys_write sock1 (zrepeat 0 max_msg_size)); mret (ret a, verify_result a max_msg_size));
    match w with
    | Step_continue => verify_loop tries' sock0 sock1 max_msg_size rc false read_passed
    | Step_break => mret rc
    | Step_passed =>
      '(rc, r) ← (if read_passed then mret (rc, Step_passed)
                  else a ← sys (Sys_read sock0 max_msg_size); mret (ret a, verify_result a max_msg_size));
      match r with
      | Step_continue => verify_loop tries' sock0 sock1 max_msg_size rc true false
      | Step_break => mret rc
      | Step_passed => mret 0
      end
    end
  end.

(** When [socketpair] fails, whatever is in [sockets] is closed. *)
Definition dgram_verify_msg_size (max_msg_size : Z) : M Z :=
  a ← sys Sys_socketpair;
  let sock0 := hd 0 (out a) in
  let sock1 := hd 0 (tl (out a)) in
  rc ← (if ret a <? 0 then mret (-1)
        else
          r ← set_sock_size sock0 max_msg_size;
          if negb (r =? 0) then mret (-1)
          else
            r ← set_sock_size sock1 max_msg_size;
            if negb (r =? 0) then mret (-1) else verify_loop 3 sock0 sock1 max_msg_size (-1) false false);
  _ ← sys (Sys_close sock0);
  _ ← sys (Sys_close sock1);
  mret rc.

(** The search for the largest size; [verify] is [dgram_verify_msg_size]. *)
Section Search.
Context (verify : Z -> M Z).

Fixpoint size_loop (fuel : nat) (max_msg_size i inc last : Z) : M Z :=
  match fuel with
  | O => fail F_loop
  | S fuel' =>
    if u64 i <? max_msg_size then
      r ← verify i;
      if r =? 0 then size_loop fuel' max_msg_size (i32 (i + inc)) inc i
      else if 512 <=? inc then size_loop fuel' max_msg_size (i32 (i32 (i - inc) + inc / 2)) (inc / 2) last
      else mret last
    else mret last
  end.

Definition verify_max_msg_size (fuel : nat) (max_msg_size : Z) : M Z :=
  r ← verify max_msg_size;
  if r =? 0 then mret (i32 max_msg_size) else size_loop fuel max_msg_size 2048 2048 (-1).
End Search.

Definition qb_ipcc_verify_dgram_max_msg_size (fuel : nat) (max_msg_size : Z) : M Z :=
  verify_max_msg_size dgram_verify_msg_size fuel max_msg_size.

Definition qb_ipc_dgram_sock_connect (base_name : list Z) (local_name remote_name : String.string) (max_msg_size gid : Z)
    : M (Z * option Z) :=
  '(res, sock) ← qb_ipc_dgram_sock_setup base_name local_name gid;
  if res <? 0 then mret (res, sock)
  else
    let fd := default 0 sock in
    a ← sys (Sys_connect fd (set_sock_addr (dash_name base_name remote_name)));
    if ret a =? -1 then _ ← sys (Sys_close fd); mret (- err a, Some (-1))
    else r ← set_sock_size fd max_msg_size; mret (r, sock).

(** ** Messages *)

(** At most [n] attempts; the error of the last one. *)
Fixpoint connect_loop (n : nat) (sock : Z) (addr : list Z) (error : Z) : M (option Z) :=
  match n with
  | O => mret (Some error)
  | S n' =>
    a ← sys (Sys_connect sock addr);
    if ret a =? -1 then _ ← sys Sys_usleep; connect_loop n' sock addr (- err a) else mret None
  end.

(** The name that a one-way is still to be connected to. *)
Definition pending_name (one_way : qb_ipc_one_way) : M (option (list Z)) :=
  u ← get us_mem; mret (ow_sock_name one_way ≫= fun cell => us_names u !! cell).
Definition free_name (one_way : qb_ipc_one_way) : M unit :=
  match ow_sock_name one_way with
  | Some cell => mod_us (fun u => with_us_names u (delete cell (us_names u)))
  | None => mret tt
  end.

Definition _finish_connecting (one_way : qb_ipc_one_way) (name : list Z) : M Z :=
  e ← connect_loop 10 (ow_sock one_way) (set_sock_addr name) 0;
  match e with
  | Some error => mret error
  | None => _ ← free_name one_way; set_sock_size (ow_sock one_way) (ow_max_msg_size one_way)
  end.

(** The part of sending before the message: an error, if the one-way cannot be
    connected. *)
Definition connect_on_send (one_way : qb_ipc_one_way) : M (option Z) :=
  n ← pending_name one_way;
  match n with
  | Some name => rc ← _finish_connecting one_way name; mret (if rc <? 0 then Some rc else None)
  | None => mret None
  end.

Definition qb_ipc_socket_send (one_way : qb_ipc_one_way) (msg : list Z) : M Z :=
  e ← connect_on_send one_way;
  match e with
  | Some rc => mret rc
  | None =>
    a ← sys (Sys_send (ow_sock one_way) msg);
    let rc := if ret a =? -1 then - err a else ret a in
    _ ← (if rc =? zlen msg then count_sent (ow_shared_data one_way) 1 else mret tt);
    mret rc
  end.

Definition qb_ipc_socket_sendv (one_way : qb_ipc_one_way) (iov : list (list Z)) : M Z :=
  e ← connect_on_send one_way;
  match e with
  | Some rc => mret rc
  | None =>
    a ← sys (Sys_writev (ow_sock one_way) iov);
    let rc := if i32 (ret a) =? -1 then - err a else i32 (ret a) in
    _ ← (if 0 <? rc then count_sent (ow_shared_data one_way) 1 else mret tt);
    mret rc
  end.

(** [sizeof(struct qb_ipc_request_header)]; its field [size] is at 8. *)
Definition SIZEOF_REQUEST_HEADER : Z := 16.
Definition header_size (hdr : list Z) : Z := i32 (le_combine (take 4 (drop 8 hdr))).

(** Once a message is there: it is received up to the size in its header. *)
Definition recv_message (one_way : qb_ipc_one_way) (peeked : answer) : M (Z * list Z) :=
  let to_recv := if SIZEOF_REQUEST_HEADER <=? ret peeked then header_size (out peeked) else 0 in
  a ← sys (Sys_recv (ow_sock one_way) (u64 to_recv));
  let result := i32 (ret a) in
  if result =? -1 then mret (- err a, out peeked)
  else if result =? 0 then mret (- ENOTCONN, out peeked)
  else
    _ ← count_sent (ow_shared_data one_way) (-1);
    mret (result, out a ++ drop (length (out a)) (out peeked)).

Fixpoint peek_loop (fuel : nat) (one_way : qb_ipc_one_way) (timeout time_waited : Z) : M (Z * list Z) :=
  match fuel with
  | O => fail F_loop
  | S fuel' =>
    let time_to_wait := if timeout =? -1 then 1000 else timeout in
    a ← sys (Sys_recv_peek (ow_sock one_way) SIZEOF_REQUEST_HEADER);
    if ret a =? -1 then
      if negb (err a =? EAGAIN) then
        mret (if filesystem_sockets && ((err a =? ECONNRESET) || (err a =? EPIPE)) then - ENOTCONN else - err a, [])
      else if (time_waited <? timeout) || (timeout =? -1) then
        result ← qb_ipc_us_ready (fun _ => one_way) Ow_setup None time_to_wait POLLIN;
        if qb_ipc_us_sock_error_is_disconnected result then mret (result, [])
        else peek_loop fuel' one_way timeout (i32 (time_waited + time_to_wait))
      else mret (- ETIMEDOUT, [])
    else recv_message one_way a
  end.

(** The result and the bytes at the start of the caller's buffer; its length
    [len] is not looked at. *)
Definition qb_ipc_us_recv_at_most (fuel : nat) (one_way : qb_ipc_one_way) (len timeout : Z) : M (Z * list Z) :=
  peek_loop fuel one_way timeout 0.

Definition qb_ipc_us_fc_set (one_way : qb_ipc_one_way) (fc_enable : Z) : M unit :=
  ctl ← get_ctl (ow_shared_data one_way);
  put_ctl (ow_shared_data one_way) {| sent := sent ctl; flow_control := fc_enable |}.
Definition qb_ipc_us_fc_get (one_way : qb_ipc_one_way) : M Z :=
  ctl ← get_ctl (ow_shared_data one_way); mret (flow_control ctl).
Definition qb_ipc_us_q_len_get (one_way : qb_ipc_one_way) : M Z :=
  ctl ← get_ctl (ow_shared_data one_way); mret (sent ctl).

(** ** The files of bound sockets *)

(** [length - n] bytes of the name a socket is bound to, if sockets are files. *)
Definition unlink_bound (sock n : Z) : M unit :=
  if filesystem_sockets then
    a ← sys (Sys_getsockname sock);
    if ret a =? 0 then
      let base_name := take (Z.to_nat (u64 (zlen (out a) - n))) (out a) in
      _ ← sys (Sys_unlink (dash_name base_name "request"%string));
      _ ← sys (Sys_unlink (dash_name base_name "event"%string));
      _ ← sys (Sys_unlink (dash_name base_name "event-tx"%string));
      _ ← sys (Sys_unlink (dash_name base_name "response"%string));
      mret tt
    else mret tt
  else mret tt.

(** ** The client's side *)

Definition qb_ipcc_us_disconnect (c : Z) : M unit :=
  x ← get_client c;
  _ ← unmap_control (ow_shared_data (cc_request x));
  _ ← unlink_file (ow_shared_file_name (cc_request x));
  _ ← unlink_bound (ow_sock (cc_response x)) 9;
  _ ← remove_tempdir (ow_shared_file_name (cc_request x));
  _ ← qb_ipcc_us_sock_close (ow_sock (cc_event x));
  _ ← qb_ipcc_us_sock_close (ow_sock (cc_request x));
  qb_ipcc_us_sock_close (ow_sock (cc_setup x)).

Definition set_client_ow (c : Z) (o : ow_name) (f : qb_ipc_one_way -> qb_ipc_one_way) : M unit :=
  mod_client c (fun x => set_cc_ow x o (f (cc_ow x o))).

(** [cleanup_hdr]: both sockets are closed, whether they were opened or not. *)
Definition client_cleanup (c : Z) (fd_hdr : option Z) (r : qb_ipc_connection_response) (res : Z) : M Z :=
  _ ← match fd_hdr with Some fd => _ ← sys (Sys_close fd); mret tt | None => mret tt end;
  x ← get_client c;
  _ ← sys (Sys_close (ow_sock (cc_event x)));
  _ ← sys (Sys_close (ow_sock (cc_request x)));
  _ ← unlink_file (r_request r);
  _ ← unmap_control (ow_shared_data (cc_request x));
  mret res.

Definition qb_ipcc_us_connect (c : Z) (r : qb_ipc_connection_response) : M Z :=
  _ ← mod_client c (fun x => set_cc_needs_sock_for_poll (set_cc_funcs x (Some QB_IPC_SOCKET)) false);
  a ← sys (Sys_mmap_file_open (r_request r) false);
  let fd_hdr := ret a in
  if fd_hdr <? 0 then mret fd_hdr
  else
    _ ← set_client_ow c Ow_request (fun w => set_ow_shared_file_name w (take (Z.to_nat (NAME_MAX - 1)) (r_request r)));
    a ← sys (Sys_mmap fd_hdr);
    if ret a =? -1 then client_cleanup c (Some fd_hdr) r (- err a)
    else
      map ← map_control (r_request r);
      _ ← set_client_ow c Ow_request (fun w => set_ow_shared_data w (Some (map, 0)));
      _ ← set_client_ow c Ow_response (fun w => set_ow_shared_data w (Some (map, 1)));
      _ ← set_client_ow c Ow_event (fun w => set_ow_shared_data w (Some (map, 2)));
      _ ← sys (Sys_close fd_hdr);
      x ← get_client c;
      '(res, sock) ← qb_ipc_dgram_sock_connect (r_response r) "response"%string "request"%string (r_max_msg_size r) (cc_egid x);
      _ ← set_client_ow c Ow_request (fun w => set_ow_sock w (default (ow_sock w) sock));
      if negb (res =? 0) then client_cleanup c None r res
      else
        x ← get_client c;
        _ ← set_client_ow c Ow_response (fun w => set_ow_sock w (ow_sock (cc_request x)));
        '(res, sock) ← qb_ipc_dgram_sock_connect (r_response r) "event"%string "event-tx"%string (r_max_msg_size r) (cc_egid x);
        _ ← set_client_ow c Ow_event (fun w => set_ow_sock w (default (ow_sock w) sock));
        if negb (res =? 0) then client_cleanup c None r res else mret 0.

(** ** The server's side *)

Section Server.
Context (fuel : nat) (funcs : qb_ipc_type -> qb_ipcs_funcs) (serv_fns : qb_ipcs_service_handlers).

Definition _sock_connection_liveliness (fd revents c : Z) : M Z :=
  if has_flag revents POLLNVAL then _ ← qb_ipcs_disconnect funcs serv_fns (Some c); mret (- EINVAL)
  else if has_flag revents POLLHUP then _ ← qb_ipcs_disconnect funcs serv_fns (Some c); mret (- ESHUTDOWN)
  else if has_flag revents POLLIN then
    a ← sys (Sys_recv_dontwait fd 10);
    let res := if (ret a <? 0) && negb (err a =? EAGAIN) then - err a
               else if ret a =? 0 then - ESHUTDOWN else ret a in
    if res <? 0 then _ ← qb_ipcs_disconnect funcs serv_fns (Some c); mret res else mret 0
  else mret 0.
End Server.

Definition _sock_add_to_mainloop (c : Z) : M Z :=
  s ← get_service;
  x ← get_conn c;
  res ← poll_fn s_dispatch_add (Loop_dispatch_add (s_poll_priority s) (ow_sock (c_request x)) EVENTS_IN c Fn_connection_request);
  if res <? 0 then mret res
  else
    res ← poll_fn s_dispatch_add (Loop_dispatch_add (s_poll_priority s) (ow_sock (c_setup x)) EVENTS_IN c Fn_liveliness);
    _ ← (if res <? 0 then _ ← poll_fn s_dispatch_del (Loop_dispatch_del (ow_sock (c_request x))); mret tt else mret tt);
    mret res.

Definition _sock_rm_from_mainloop (c : Z) : M unit :=
  x ← get_conn c;
  _ ← poll_fn s_dispatch_del (Loop_dispatch_del (ow_sock (c_request x)));
  _ ← poll_fn s_dispatch_del (Loop_dispatch_del (ow_sock (c_setup x)));
  mret tt.

Definition qb_ipcs_us_disconnect (c : Z) : M unit :=
  x ← get_conn c;
  _ ← (if decide (c_state x = QB_IPCS_CONNECTION_ESTABLISHED \/ c_state x = QB_IPCS_CONNECTION_ACTIVE) then
         _ ← _sock_rm_from_mainloop c;
         _ ← free_name (c_response x);
         _ ← free_name (c_event x);
         _ ← unlink_bound (ow_sock (c_request x)) 8;
         _ ← qb_ipcc_us_sock_close (ow_sock (c_setup x));
         _ ← qb_ipcc_us_sock_close (ow_sock (c_request x));
         qb_ipcc_us_sock_close (ow_sock (c_event x))
       else mret tt);
  _ ← (if decide (c_state x = QB_IPCS_CONNECTION_SHUTTING_DOWN \/ c_state x = QB_IPCS_CONNECTION_ACTIVE) then
         _ ← unmap_control (ow_shared_data (c_request x));
         unlink_file (ow_shared_file_name (c_request x))
       else mret tt);
  remove_tempdir (c_description x).

Definition set_conn_ow (c : Z) (o : ow_name) (f : qb_ipc_one_way -> qb_ipc_one_way) : M unit :=
  mod_conn c (fun x => set_c_ow x o (f (c_ow x o))).

(** [strdup] of a name into the cell of a one-way: whether there was memory. *)
Definition dup_name (c : Z) (o : ow_name) (name : list Z) : M bool :=
  a ← sys (Sys_strdup name);
  if ret a =? 0 then
    _ ← set_conn_ow c o (fun w => set_ow_sock_name w None); mret false
  else
    cell ← new_address;
    _ ← mod_us (fun u => with_us_names u (<[cell := name]> (us_names u)));
    _ ← set_conn_ow c o (fun w => set_ow_sock_name w (Some cell));
    mret true.

Definition with_us_request (r : qb_ipc_connection_response) (req resp : list Z) : qb_ipc_connection_response :=
  {| r_id := r_id r; r_size := r_size r; r_error := r_error r; r_connection_type := r_connection_type r;
     r_max_msg_size := r_max_msg_size r; r_connection := r_connection r; r_request := req; r_response := resp; r_event := r_event r |}.

(** [cleanup_hdr]: the names are freed, but the sockets stay open.  The code leaves
    the pointers to the freed names as they are; a connection that could not be
    set up sends nothing any more. *)
Definition server_cleanup (c : Z) (fd_hdr : option Z) (r : qb_ipc_connection_response) (res : Z) : M (Z * qb_ipc_connection_response) :=
  x ← get_conn c;
  _ ← free_name (c_response x);
  _ ← free_name (c_event x);
  _ ← match fd_hdr with Some fd => _ ← sys (Sys_close fd); mret tt | None => mret tt end;
  _ ← unlink_file (r_request r);
  _ ← unmap_control (ow_shared_data (c_request x));
  mret (res, r).

Definition us_event_channel (c : Z) (r : qb_ipc_connection_response) : M (Z * qb_ipc_connection_response) :=
  x ← get_conn c;
  '(res, sock) ← qb_ipc_dgram_sock_setup (r_response r) "event-tx"%string (c_egid x);
  _ ← set_conn_ow c Ow_event (fun w => set_ow_sock w (default (ow_sock w) sock));
  if res <? 0 then server_cleanup c None r res
  else
    x ← get_conn c;
    res ← set_sock_size (ow_sock (c_event x)) (ow_max_msg_size (c_event x));
    if negb (res =? 0) then server_cleanup c None r res
    else
      ok ← dup_name c Ow_event (dash_name (r_response r) "event"%string);
      if negb ok then server_cleanup c None r (- ENOMEM)
      else
        res ← _sock_add_to_mainloop c;
        if res <? 0 then server_cleanup c None r res else mret (res, r).

Definition us_request_channel (c : Z) (r : qb_ipc_connection_response) : M (Z * qb_ipc_connection_response) :=
  x ← get_conn c;
  '(res, sock) ← qb_ipc_dgram_sock_setup (r_response r) "request"%string (c_egid x);
  _ ← set_conn_ow c Ow_request (fun w => set_ow_sock w (default (ow_sock w) sock));
  if res <? 0 then server_cleanup c None r res
  else
    x ← get_conn c;
    res ← set_sock_size (ow_sock (c_request x)) (ow_max_msg_size (c_request x));
    if negb (res =? 0) then server_cleanup c None r res
    else
      _ ← set_conn_ow c Ow_setup (fun w => set_ow_sock_name w None);
      _ ← set_conn_ow c Ow_request (fun w => set_ow_sock_name w None);
      _ ← set_conn_ow c Ow_response (fun w => set_ow_sock w (ow_sock (c_request x)));
      ok ← dup_name c Ow_response (dash_name (r_response r) "response"%string);
      if negb ok then server_cleanup c None r (- ENOMEM) else us_event_channel c r.

Definition qb_ipcs_us_connect (c : Z) (r : qb_ipc_connection_response) : M (Z * qb_ipc_connection_response) :=
  s ← get_service;
  x ← get_conn c;
  _ ← set_conn_ow c Ow_request (fun w => set_ow_sock w (ow_sock (c_setup x)));
  _ ← set_conn_ow c Ow_response (fun w => set_ow_sock w (ow_sock (c_setup x)));
  let cut l := take (Z.to_nat (NAME_MAX - 1)) l in
  let r := with_us_request r (cut (c_description x ++ bytes "-control-"%string ++ s_name s))
             (cut (c_description x ++ bytes "-"%string ++ s_name s)) in
  a ← sys (Sys_mmap_file_open (r_request r) true);
  let fd_hdr := ret a in
  if fd_hdr <? 0 then mret (fd_hdr, r)
  else
    let r := with_us_request r (take (Z.to_nat (PATH_MAX - 1)) (out a)) (r_response r) in
    _ ← set_conn_ow c Ow_request (fun w => set_ow_shared_file_name w (cut (r_request r)));
    _ ← sys (Sys_chown (r_request r) (auth_uid (c_auth x)) (auth_gid (c_auth x)));
    _ ← sys (Sys_chmod (r_request r) (auth_mode (c_auth x)));
    a ← sys (Sys_mmap fd_hdr);
    if ret a =? -1 then server_cleanup c (Some fd_hdr) r (- err a)
    else
      map ← map_control (r_request r);
      _ ← set_conn_ow c Ow_request (fun w => set_ow_shared_data w (Some (map, 0)));
      _ ← set_conn_ow c Ow_response (fun w => set_ow_shared_data w (Some (map, 1)));
      _ ← set_conn_ow c Ow_event (fun w => set_ow_shared_data w (Some (map, 2)));
      _ ← put_ctl (Some (map, 0)) inhabitant;
      _ ← put_ctl (Some (map, 1)) inhabitant;
      _ ← put_ctl (Some (map, 2)) inhabitant;
      _ ← sys (Sys_close fd_hdr);
      us_request_channel c r.

(** The table that [qb_ipcs_us_init] installs. *)
Definition us_funcs (fuel : nat) : qb_ipcs_funcs :=
  {| fn_connect := Some qb_ipcs_us_connect;
     fn_disconnect := qb_ipcs_us_disconnect;
     fn_recv := qb_ipc_us_recv_at_most fuel;
     fn_peek := None;
     fn_reclaim := None;
     fn_send := qb_ipc_socket_send;
     fn_sendv := qb_ipc_socket_sendv;
     fn_fc_set := qb_ipc_us_fc_set;
     fn_q_len_get := Some qb_ipc_us_q_len_get |}.
End Socket.
