(* ===== verification/IpcSetup.v ===== *)
(** * Setting up connections (lib/ipc_setup.c)

    The messages of the handshake, the authentication of a client and the
    creation of its connection, in the configuration for Linux. *)
From stdpp Require Import strings gmap.
From S2P Require Import Prelude Memory Cstring RingBuffer RingBufferOpen Loop IpcBase IpcSock Ipcs IpcShm.

(** ** Messages of the handshake *)

Definition type_number (t : qb_ipc_type) : Z :=
  match t with
  | QB_IPC_SOCKET => 0 | QB_IPC_SHM => 1 | QB_IPC_POSIX_MQ => 2 | QB_IPC_SYSV_MQ => 3 | QB_IPC_NATIVE => 4
  | OTHER_IPC_TYPE => 5
  end.
Definition type_of_number (n : Z) : qb_ipc_type :=
  if n =? 0 then QB_IPC_SOCKET else if n =? 1 then QB_IPC_SHM else if n =? 2 then QB_IPC_POSIX_MQ
  else if n =? 3 then QB_IPC_SYSV_MQ else if n =? 4 then QB_IPC_NATIVE else OTHER_IPC_TYPE.

(** An [int32_t] aligned to eight bytes, an unsigned number of [n] bytes, and a
    character array of [PATH_MAX] bytes that was zeroed before. *)
Definition field_i32 (v : Z) : list Z := le_split 4 (u32 v) ++ [0; 0; 0; 0].
Definition field_path (s : list Z) : list Z := s ++ zrepeat 0 (PATH_MAX - zlen s).

Record qb_ipc_connection_request := { q_id : Z; q_size : Z; q_max_msg_size : Z }.
Definition SIZEOF_CONNECTION_REQUEST : Z := 24.
Definition SIZEOF_CONNECTION_RESPONSE : Z := 12328.

Definition request_bytes (q : qb_ipc_connection_request) : list Z :=
  field_i32 (q_id q) ++ field_i32 (q_size q) ++ le_split 4 (q_max_msg_size q) ++ [0; 0; 0; 0].

Definition response_bytes (r : qb_ipc_connection_response) : list Z :=
  field_i32 (r_id r) ++ field_i32 (r_size r) ++ field_i32 (r_error r) ++
  le_split 4 (type_number (r_connection_type r)) ++ le_split 4 (r_max_msg_size r) ++
  le_split 8 (r_connection r) ++
  field_path (r_request r) ++ field_path (r_response r) ++ field_path (r_event r).

(** What a reader of the structure at the start of [b] sees. *)
Definition bytes_at (b : list Z) (at_ n : Z) : list Z := take (Z.to_nat n) (drop (Z.to_nat at_) b).
Definition i32_at (b : list Z) (at_ : Z) : Z := i32 (le_combine (bytes_at b at_ 4)).
Definition u32_at (b : list Z) (at_ : Z) : Z := u32 (le_combine (bytes_at b at_ 4)).
Fixpoint until_nul (b : list Z) : list Z :=
  match b with
  | [] => []
  | ch :: rest => if ch =? 0 then [] else ch :: until_nul rest
  end.

Definition read_request (b : list Z) : qb_ipc_connection_request :=
  {| q_id := i32_at b 0; q_size := i32_at b 8; q_max_msg_size := u32_at b 16 |}.
Definition read_response (b : list Z) : qb_ipc_connection_response :=
  {| r_id := i32_at b 0; r_size := i32_at b 8; r_error := i32_at b 16;
     r_connection_type := type_of_number (u32_at b 24); r_max_msg_size := u32_at b 28;
     r_connection := le_combine (bytes_at b 32 8);
     r_request := until_nul (bytes_at b 40 PATH_MAX);
     r_response := until_nul (bytes_at b (40 + PATH_MAX) PATH_MAX);
     r_event := until_nul (bytes_at b (40 + 2 * PATH_MAX) PATH_MAX) |}.

Section Setup.
Context {E : Env}.
Context (fuel : nat).
Context (funcs : qb_ipc_type -> qb_ipcs_funcs).
Context (serv_fns : qb_ipcs_service_handlers).

(** ** Authentication data *)

Definition zero_ugp : ipc_auth_ugp := {| ugp_uid := 0; ugp_gid := 0; ugp_pid := 0 |}.

Definition destroy_ipc_auth_data (data : Z) : M unit :=
  d ← get_auth data;
  _ ← when (d_s d) qb_ipcs_unref;
  modify (fun m => set_auths m (delete data (auths m))).

Definition init_ipc_auth_data (sock len : Z) : M (option Z) :=
  a ← sys (Sys_calloc Alloc_auth_data);
  if ret a =? 0 then mret None
  else
    data ← new_address;
    _ ← modify (fun m => set_auths m (<[data :=
      {| d_sock := 0; d_s := false; d_msg := zrepeat 0 SIZEOF_CONNECTION_RESPONSE; d_cmsg := [];
         d_ugp := zero_ugp; d_processed := 0; d_len := 0 |}]> (auths m)));
    a ← sys (Sys_calloc Alloc_cmsg);
    if ret a =? 0 then _ ← destroy_ipc_auth_data data; mret None
    else
      _ ← mod_auth data (fun d => set_d_sock (set_d_len d len) sock);
      mret (Some data).

Definition SCM_CREDENTIALS : Z := 2.
Definition CMSG_LEN_UCRED : Z := 28.

Fixpoint find_creds (l : list (Z * Z * ipc_auth_ugp)) : option ipc_auth_ugp :=
  match l with
  | [] => None
  | (cmsg_type, cmsg_len, cred) :: rest =>
    if negb (cmsg_type =? SCM_CREDENTIALS) then find_creds rest
    else if cmsg_len <? CMSG_LEN_UCRED then find_creds rest
    else Some cred
  end.

Definition qb_ipc_auth_creds (data : Z) : M Z :=
  d ← get_auth data;
  match find_creds (d_cmsg d) with
  | Some cred => _ ← mod_auth data (fun d => set_d_ugp d cred); mret 0
  | None => mret (- EINVAL)
  end.

(** ** A new connection *)

Definition suffix : list Z := bytes "/qb"%string.

(** The name of the connection's directory: [inl] the error, with the name as
    it is then, or [inr] the name. *)
Definition make_description (s_pid_ pid sock uid gid : Z) : M ((Z * list Z) + list Z) :=
  let text := bytes "/dev/shm/qb-"%string ++ decimal s_pid_ ++ bytes "-"%string ++ decimal pid ++
              bytes "-"%string ++ decimal sock ++ bytes "-XXXXXX"%string in
  let desc_len := zlen text in
  let room := CONNECTION_DESCRIPTION - (zlen suffix + 1) in
  if room <=? desc_len then mret (inl (- ENAMETOOLONG, take (Z.to_nat (room - 1)) text))
  else
    a ← sys (Sys_mkdtemp text);
    if ret a =? 0 then mret (inl (- err a, text))
    else
      let dir := out a in
      a ← sys (Sys_chmod dir 0x1F8);
      if negb (ret a =? 0) then mret (inl (- err a, dir))
      else
        _ ← sys (Sys_chown dir uid gid);
        mret (inr (take (Z.to_nat desc_len) dir ++ suffix)).

Definition init_connection (sock size : Z) (ugp : ipc_auth_ugp) (x : qb_ipcs_connection) : qb_ipcs_connection :=
  let ow w := set_ow_max_msg_size w size in
  let x := set_c_setup x (set_ow_sock (c_setup x) sock) in
  let x := set_c_event (set_c_response (set_c_request x (ow (c_request x))) (ow (c_response x))) (ow (c_event x)) in
  let x := set_c_egid (set_c_euid (set_c_pid x (ugp_pid ugp)) (ugp_uid ugp)) (ugp_gid ugp) in
  let x := set_c_auth x {| auth_uid := ugp_uid ugp; auth_gid := ugp_gid ugp; auth_mode := 0x180 |} in
  set_c_stats x (set_st_client_pid (c_stats x) (ugp_pid ugp)).

(** Up to [send_response]: the result and the response so far. *)
Definition accept_connection (c : Z) (auth_result sock : Z) (ugp : ipc_auth_ugp)
    : M (Z * qb_ipc_connection_response) :=
  s ← get_service;
  d ← make_description (s_pid s) (ugp_pid ugp) sock (ugp_uid ugp) (ugp_gid ugp);
  match d with
  | inl (e, name) => _ ← mod_conn c (fun x => set_c_description x name); mret (e, zero_response)
  | inr name =>
    _ ← mod_conn c (fun x => set_c_description x name);
    x ← get_conn c;
    res ←
      match connection_accept serv_fns with
      | Some f => if auth_result =? 0 then f c (c_euid x) (c_egid x) else mret auth_result
      | None => mret auth_result
      end;
    if negb (res =? 0) then mret (res, zero_response)
    else
      fs ← get_funcs funcs;
      '(res, response) ←
        match fn_connect fs with
        | Some f => f c zero_response
        | None => mret (0, zero_response)
        end;
      if negb (res =? 0) then mret (res, response)
      else
        _ ← mod_conn c (fun x => set_c_state x QB_IPCS_CONNECTION_ACTIVE);
        _ ← modify (fun m => set_conn_list m (c :: conn_list m));
        mret (0, response)
  end.

(** [response.hdr], and the rest of it if the connection is good. *)
Definition fill_response (r : qb_ipc_connection_response) (c : Z) (res : Z) (t : qb_ipc_type) (max_msg_size : Z)
    : qb_ipc_connection_response :=
  {| r_id := QB_IPC_MSG_AUTHENTICATE; r_size := SIZEOF_CONNECTION_RESPONSE; r_error := res;
     r_connection_type := if res =? 0 then t else r_connection_type r;
     r_max_msg_size := if res =? 0 then u32 max_msg_size else r_max_msg_size r;
     r_connection := if res =? 0 then c else r_connection r;
     r_request := r_request r; r_response := r_response r; r_event := r_event r |}.

(** From [send_response] on. *)
Definition finish_connection (c sock : Z) (res : Z) (response : qb_ipc_connection_response) : M Z :=
  s ← get_service;
  x ← get_conn c;
  let response := fill_response response c res (s_type s) (ow_max_msg_size (c_request x)) in
  _ ← when (res =? 0) (mod_service_stats count_active);
  res2 ← qb_ipc_us_send fuel (c_setup x) (response_bytes response);
  let res := if (res =? 0) && negb (res2 =? r_size response) then res2 else res in
  _ ←
    (if res =? 0 then
       _ ← qb_ipcs_connection_ref (Some c);
       _ ← match connection_created serv_fns with Some f => f c | None => mret tt end;
       x ← get_conn c;
       _ ← (if decide (c_state x = QB_IPCS_CONNECTION_ACTIVE)
            then mod_conn c (fun x => set_c_state x QB_IPCS_CONNECTION_ESTABLISHED) else mret tt);
       qb_ipcs_connection_unref funcs serv_fns (Some c)
     else
       x ← get_conn c;
       if decide (c_state x = QB_IPCS_CONNECTION_INACTIVE) then
         _ ← qb_ipcs_connection_unref funcs serv_fns (Some c);
         qb_ipcc_us_sock_close sock
       else qb_ipcs_disconnect funcs serv_fns (Some c));
  mret res.

Definition handle_new_connection (auth_result sock : Z) (msg : list Z) (ugp : ipc_auth_ugp) : M Z :=
  s ← get_service;
  let max_buffer_size := QB_MAX (q_max_msg_size (read_request msg)) (s_max_buffer_size s) in
  oc ← qb_ipcs_connection_alloc;
  match oc with
  | None => _ ← qb_ipcc_us_sock_close sock; mret (- ENOMEM)
  | Some c =>
    a ← sys (Sys_calloc (Alloc_receive_buf max_buffer_size));
    if ret a =? 0 then
      _ ← free_conn c;
      _ ← qb_ipcc_us_sock_close sock;
      mret (- ENOMEM)
    else
      _ ← mod_conn c (fun x => init_connection sock max_buffer_size ugp
                                 (set_c_receive_buf x (Some (zrepeat 0 max_buffer_size))));
      '(res, response) ← accept_connection c auth_result sock ugp;
      finish_connection c sock res response
  end.

(** ** Callbacks of the main loop *)

(** Up to [cleanup_and_return]: [inl] an early return. *)
Definition auth_result (data revents : Z) : M (unit + Z) :=
  d ← get_auth data;
  s ← get_service;
  if s_server_sock s =? -1 then mret (inr (- ESHUTDOWN))
  else if has_flag revents POLLNVAL then mret (inr (- EINVAL))
  else if has_flag revents POLLHUP then mret (inr (- ESHUTDOWN))
  else if negb (has_flag revents POLLIN) then mret (inl tt)
  else
    res ← qb_ipc_us_recv_msghdr fuel data;
    if res =? - EAGAIN then mret (inl tt)
    else if negb (u64 res =? d_len d) then mret (inr (- EIO))
    else res ← qb_ipc_auth_creds data; mret (inr res).

Definition process_auth (revents data : Z) : M Z :=
  r ← auth_result data revents;
  match r with
  | inl _ => mret 0
  | inr res =>
    d ← get_auth data;
    a ← sys (Sys_setsockopt_passcred (d_sock d) false);
    if negb (ret a =? 0) then _ ← sys (Sys_close (d_sock d)); mret res
    else
      _ ← poll_fn s_dispatch_del (Loop_dispatch_del (d_sock d));
      _ ←
        (if res <? 0 then _ ← sys (Sys_close (d_sock d)); mret tt
         else if q_id (read_request (d_msg d)) =? QB_IPC_MSG_AUTHENTICATE then
           _ ← handle_new_connection res (d_sock d) (d_msg d) (d_ugp d); mret tt
         else _ ← sys (Sys_close (d_sock d)); mret tt);
      _ ← destroy_ipc_auth_data data;
      mret 1
  end.

Definition qb_ipcs_uc_recv_and_auth (sock : Z) : M unit :=
  od ← init_ipc_auth_data sock SIZEOF_CONNECTION_REQUEST;
  match od with
  | None => _ ← sys (Sys_close sock); mret tt
  | Some data =>
    _ ← mod_auth data (fun d => set_d_s d true);
    _ ← qb_ipcs_ref;
    a ← sys (Sys_setsockopt_passcred sock true);
    if negb (ret a =? 0) then _ ← sys (Sys_close sock); mret tt
    else
      s ← get_service;
      res ← poll_fn s_dispatch_add (Loop_dispatch_add (s_poll_priority s) sock EVENTS_IN data Fn_process_auth);
      if res <? 0 then
        _ ← sys (Sys_close sock);
        destroy_ipc_auth_data data
      else mret tt
  end.

Fixpoint accept_loop (n : nat) (fd : Z) : M answer :=
  match n with
  | O => fail F_loop
  | S n' =>
    a ← sys (Sys_accept fd);
    if (ret a =? -1) && (err a =? EINTR) then accept_loop n' fd else mret a
  end.

Definition qb_ipcs_us_connection_acceptor (fd revent : Z) : M Z :=
  if has_flag revent (Z.lor POLLNVAL (Z.lor POLLHUP POLLERR)) then mret (-1)
  else
    a ← accept_loop fuel fd;
    if (ret a =? -1) && (err a =? EBADF) then mret (-1)
    else if ret a =? -1 then mret 0
    else
      let new_fd := ret a in
      a ← sys (Sys_fd_nonblock_cloexec_set new_fd);
      if ret a <? 0 then _ ← sys (Sys_close new_fd); mret 0
      else _ ← qb_ipcs_uc_recv_and_auth new_fd; mret 0.
End Setup.
