(* ===== verification/Ipcc.v ===== *)
(** * The IPC client (lib/ipcc.c and the client part of lib/ipc_setup.c)

    The functions of a transport ([struct qb_ipcc_funcs]) are a record; a
    connection has the table of its type once it is connected. *)
From stdpp Require Import strings gmap.
From S2P Require Import Prelude Memory Cstring RingBuffer RingBufferOpen Loop IpcBase IpcSock Ipcs IpcShm IpcSocket IpcSetup.

Record qb_ipcc_funcs := {
  cf_recv : qb_ipc_one_way -> Z -> Z -> M (Z * list Z);
  cf_send : qb_ipc_one_way -> list Z -> M Z;
  cf_sendv : qb_ipc_one_way -> list (list Z) -> M Z;
  cf_disconnect : option (Z -> M unit);
  cf_fc_get : option (qb_ipc_one_way -> M Z);
}.

Section Client.
Context {E : Env}.
Context (fuel : nat).
Context (cfuncs : qb_ipc_type -> qb_ipcc_funcs).
Context (transport_connect : qb_ipc_type -> Z -> qb_ipc_connection_response -> M Z).

(** ** Connecting *)

Definition qb_ipcc_stream_sock_connect (c : Z) (socket_name : list Z) : M Z :=
  let set_sock v := mod_client c (fun x => set_cc_setup x (set_ow_sock (cc_setup x) v)) in
  a ← sys Sys_socket;
  let request_fd := ret a in
  if request_fd =? -1 then mret (- err a)
  else
    a ← sys (Sys_fd_nonblock_cloexec_set request_fd);
    if ret a <? 0 then
      _ ← sys (Sys_close request_fd); _ ← set_sock (-1); mret (ret a)
    else
      b ← sys (Sys_connect request_fd (socket_address socket_name));
      if ret b =? -1 then
        _ ← sys (Sys_close request_fd); _ ← set_sock (-1); mret (- err b)
      else _ ← set_sock request_fd; mret 0.

Definition qb_ipcc_us_setup_connect (c : Z) : M Z :=
  x ← get_client c;
  res ← qb_ipcc_stream_sock_connect c (cc_name x);
  if negb (res =? 0) then mret res
  else
    x ← get_client c;
    let sock := ow_sock (cc_setup x) in
    a ← sys (Sys_setsockopt_passcred sock true);
    if negb (ret a =? 0) then _ ← qb_ipcc_us_sock_close sock; mret (ret a)
    else
      let request := {| q_id := QB_IPC_MSG_AUTHENTICATE; q_size := SIZEOF_CONNECTION_REQUEST;
                        q_max_msg_size := u32 (ow_max_msg_size (cc_setup x)) |} in
      res ← qb_ipc_us_send fuel (cc_setup x) (request_bytes request);
      if res <? 0 then _ ← qb_ipcc_us_sock_close sock; mret res
      else mret 0.

Definition AUTH_RECV_MAX_RETRIES : Z := 10.

Fixpoint auth_recv_loop (n : nat) (data : Z) (retry_count : Z) : M Z :=
  match n with
  | O => fail F_loop
  | S n' =>
    res ← qb_ipc_us_recv_msghdr fuel data;
    if (res =? - EAGAIN) && (retry_count + 1 <? AUTH_RECV_MAX_RETRIES) then
      _ ← sys Sys_nanosleep;
      auth_recv_loop n' data (retry_count + 1)
    else mret res
  end.

(** Returns the result and [*r] where it is assigned. *)
Definition qb_ipcc_setup_connect_continue (c : Z) : M (Z * option qb_ipc_connection_response) :=
  x ← get_client c;
  let sock := ow_sock (cc_setup x) in
  od ← init_ipc_auth_data sock SIZEOF_CONNECTION_RESPONSE;
  match od with
  | None => _ ← qb_ipcc_us_sock_close sock; mret (- ENOMEM, None)
  | Some data =>
    res ← auth_recv_loop (Z.to_nat AUTH_RECV_MAX_RETRIES) data 0;
    a ← sys (Sys_setsockopt_passcred sock false);
    if negb (ret a =? 0) then _ ← destroy_ipc_auth_data data; mret (res, None)
    else
      d ← get_auth data;
      if negb (u64 res =? d_len d) then _ ← destroy_ipc_auth_data data; mret (res, None)
      else
        _ ← qb_ipc_auth_creds data;
        d ← get_auth data;
        let r := read_response (d_msg d) in
        _ ← mod_client c (fun x => set_cc_server_pid (set_cc_euid (set_cc_egid x (ugp_gid (d_ugp d)))
                                     (ugp_uid (d_ugp d))) (ugp_pid (d_ugp d)));
        _ ← destroy_ipc_auth_data data;
        mret (r_error r, Some r)
  end.

(** [disconnect_and_cleanup]: the socket is closed and the connection freed. *)
Definition disconnect_and_cleanup (c : Z) : M unit :=
  x ← get_client c;
  _ ← when (0 <=? ow_sock (cc_setup x)) (qb_ipcc_us_sock_close (ow_sock (cc_setup x)));
  modify (fun m => set_clients m (delete c (clients m))).

Definition set_response (r : qb_ipc_connection_response) (x : qb_ipcc_connection) : qb_ipcc_connection :=
  let t := r_connection_type r in
  let size := r_max_msg_size r in
  let ow w := set_ow_max_msg_size (set_ow_type w t) size in
  set_cc_setup (set_cc_event (set_cc_request (set_cc_response x (ow (cc_response x))) (ow (cc_request x)))
    (ow (cc_event x))) (set_ow_type (cc_setup x) t).

Definition qb_ipcc_connect_continue (c : Z) : M Z :=
  '(res, or) ← qb_ipcc_setup_connect_continue c;
  match or with
  | Some r =>
    if negb (res =? 0) then _ ← disconnect_and_cleanup c; mret res
    else
      _ ← mod_client c (set_response r);
      a ← sys (Sys_calloc (Alloc_receive_buf (r_max_msg_size r)));
      _ ← mod_client c (fun x => set_cc_fc_enable_max x 1);
      if ret a =? 0 then _ ← disconnect_and_cleanup c; mret (- ENOMEM)
      else
        _ ← mod_client c (fun x => set_cc_receive_buf x (Some (zrepeat 0 (r_max_msg_size r))));
        res ←
          match r_connection_type r with
          | QB_IPC_SHM | QB_IPC_SOCKET => transport_connect (r_connection_type r) c r
          | QB_IPC_POSIX_MQ | QB_IPC_SYSV_MQ => mret (- ENOTSUP)
          | _ => mret (- EINVAL)
          end;
        if negb (res =? 0) then _ ← disconnect_and_cleanup c; mret res
        else _ ← mod_client c (fun x => set_cc_is_connected x true); mret 0
  | None => _ ← disconnect_and_cleanup c; mret res
  end.

Definition new_client (name : list Z) (max_msg_size : Z) : qb_ipcc_connection :=
  let ow := new_one_way QB_IPC_SOCKET in
  {| cc_name := take (Z.to_nat (NAME_MAX - 1)) name; cc_needs_sock_for_poll := false; cc_egid := 0; cc_euid := 0;
     cc_server_pid := 0;
     cc_setup := set_ow_max_msg_size ow (QB_MAX max_msg_size SIZEOF_CONNECTION_RESPONSE);
     cc_request := ow; cc_response := ow; cc_event := ow; cc_funcs := None; cc_receive_buf := None;
     cc_fc_enable_max := 0; cc_is_connected := false; cc_context := 0 |}.

(** The part that [qb_ipcc_connect] and [qb_ipcc_connect_async] share. *)
Definition start_connect (name : list Z) (max_msg_size : Z) : M (option Z) :=
  a ← sys (Sys_calloc Alloc_client);
  if ret a =? 0 then mret None
  else
    c ← new_address;
    _ ← modify (fun m => set_clients m (<[c := new_client name max_msg_size]> (clients m)));
    res ← qb_ipcc_us_setup_connect c;
    if res <? 0 then _ ← disconnect_and_cleanup c; mret None
    else mret (Some c).

Definition qb_ipcc_connect (name : list Z) (max_msg_size : Z) : M (option Z) :=
  oc ← start_connect name max_msg_size;
  match oc with
  | None => mret None
  | Some c =>
    x ← get_client c;
    _ ← qb_ipc_us_ready (cc_ow x) Ow_setup None (-1) POLLIN;
    res ← qb_ipcc_connect_continue c;
    mret (if negb (res =? 0) then None else Some c)
  end.

(** The connection and [*connect_fd]. *)
Definition qb_ipcc_connect_async (name : list Z) (max_msg_size : Z) : M (option (Z * Z)) :=
  oc ← start_connect name max_msg_size;
  match oc with
  | None => mret None
  | Some c => x ← get_client c; mret (Some (c, ow_sock (cc_setup x)))
  end.

(** ** The state of the connection *)

Definition note_disconnect (c res : Z) : M unit :=
  when (qb_ipc_us_sock_error_is_disconnected res) (mod_client c (fun x => set_cc_is_connected x false)).

Definition _check_connection_state (c res : Z) : M Z :=
  if 0 <=? res then mret res else _ ← note_disconnect c res; mret res.

Definition _check_connection_state_with (c res : Z) (one_way : ow_name) (ms_timeout events : Z) : M Z :=
  if 0 <=? res then mret res
  else
    _ ← note_disconnect c res;
    if (res =? - EAGAIN) || (res =? - ETIMEDOUT) then
      let poll_ms := if res =? - ETIMEDOUT then 0 else ms_timeout in
      x ← get_client c;
      res2 ← qb_ipc_us_ready (cc_ow x) one_way (Some Ow_setup) poll_ms events;
      if qb_ipc_us_sock_error_is_disconnected res2 then
        _ ← mod_client c (fun x => set_cc_is_connected x false); mret res2
      else mret (if negb (res =? - ETIMEDOUT) then res2 else res)
    else mret res.

Definition ipcc_event_sock_one_way_get (c : Z) : M ow_name :=
  x ← get_client c; mret (if cc_needs_sock_for_poll x then Ow_setup else Ow_event).
Definition ipcc_response_sock_one_way_get (c : Z) : M ow_name :=
  x ← get_client c; mret (if cc_needs_sock_for_poll x then Ow_setup else Ow_response).

(** ** Messages *)

Definition client_funcs (c : Z) : M qb_ipcc_funcs :=
  x ← get_client c;
  match cc_funcs x with
  | Some t => mret (cfuncs t)
  | None => fail F_null_call
  end.

(** The flow control check: an error or the go-ahead. *)
Definition fc_check (c : Z) : M (option Z) :=
  x ← get_client c;
  match cc_funcs x with
  | None => mret None
  | Some t =>
    match cf_fc_get (cfuncs t) with
    | None => mret None
    | Some f =>
      res ← f (cc_request x);
      if res <? 0 then mret (Some res)
      else if (0 <? res) && (res <=? cc_fc_enable_max x) then mret (Some (- EAGAIN))
      else mret None
    end
  end.

(** [do res2 = qb_ipc_us_send(...) while (res2 == -EAGAIN)]. *)
Fixpoint notify_server (n : nat) (one_way : qb_ipc_one_way) (byte : list Z) : M Z :=
  match n with
  | O => fail F_loop
  | S n' =>
    res2 ← qb_ipc_us_send fuel one_way byte;
    if res2 =? - EAGAIN then notify_server n' one_way byte
    else mret (if res2 =? - EPIPE then - ENOTCONN else res2)
  end.

(** Sending has put the message in the ring: tell the server, and report its
    result or the error of the socket. *)
Definition announce (c : Z) (res : Z) (sent : bool) (byte : list Z) : M Z :=
  x ← get_client c;
  if sent && cc_needs_sock_for_poll x then
    res2 ← notify_server fuel (cc_setup x) byte;
    mret (if negb (res2 =? 1) then res2 else res)
  else mret res.

Definition qb_ipcc_send (c : option Z) (msg : list Z) : M Z :=
  match c with
  | None => mret (- EINVAL)
  | Some c =>
    x ← get_client c;
    if ow_max_msg_size (cc_request x) <? zlen msg then mret (- EMSGSIZE)
    else
      e ← fc_check c;
      match e with
      | Some res => mret res
      | None =>
        fs ← client_funcs c;
        res ← cf_send fs (cc_request x) msg;
        res ← announce c res (res =? zlen msg) (take 1 msg);
        _check_connection_state c res
      end
  end.

Definition qb_ipcc_fc_enable_max_set (c : option Z) (max : Z) : M Z :=
  match c with
  | None => mret (- EINVAL)
  | Some c =>
    if 2 <? max then mret (- EINVAL)
    else _ ← mod_client c (fun x => set_cc_fc_enable_max x max); mret 0
  end.

Definition qb_ipcc_sendv (c : option Z) (iov : list (list Z)) : M Z :=
  let total_size := iov_total iov in
  match c with
  | None => mret (- EINVAL)
  | Some c =>
    x ← get_client c;
    if ow_max_msg_size (cc_request x) <? u64 total_size then mret (- EMSGSIZE)
    else
      e ← fc_check c;
      match e with
      | Some res => mret res
      | None =>
        fs ← client_funcs c;
        res ← cf_sendv fs (cc_request x) iov;
        let res := i32 res in
        res ← announce c res (0 <? res) (take 1 (le_split 4 (u32 res)));
        _check_connection_state c res
      end
  end.

Definition qb_ipcc_recv (c : option Z) (msg_len ms_timeout : Z) : M (Z * list Z) :=
  match c with
  | None => mret (- EINVAL, [])
  | Some c =>
    x ← get_client c;
    fs ← client_funcs c;
    '(res, bs) ← cf_recv fs (cc_response x) msg_len ms_timeout;
    let res := i32 res in
    if 0 <=? res then mret (res, bs)
    else
      ow ← ipcc_response_sock_one_way_get c;
      connect_res ← _check_connection_state_with c res ow ms_timeout POLLIN;
      mret (if connect_res <? 0 then connect_res else res, bs)
  end.

(** The loop that waits for the response; [n] bounds its rounds. *)
Fixpoint recv_loop (n : nat) (c : Z) (res_len ms_timeout timeout_rem : Z) : M (Z * list Z) :=
  match n with
  | O => fail F_loop
  | S n' =>
    let timeout_now :=
      if (QB_IPC_MAX_WAIT_MS <? timeout_rem) || (ms_timeout =? -1) then QB_IPC_MAX_WAIT_MS else timeout_rem in
    '(res, bs) ← qb_ipcc_recv (Some c) res_len timeout_now;
    let timed_out := res =? - ETIMEDOUT in
    let timeout_rem := if timed_out && negb (ms_timeout <? 0) then i32 (timeout_rem - timeout_now) else timeout_rem in
    let res := if timed_out && ((ms_timeout <? 0) || (0 <? timeout_rem)) then - EAGAIN else res in
    x ← get_client c;
    if (res =? - EAGAIN) && cc_is_connected x then recv_loop n' c res_len ms_timeout timeout_rem
    else mret (res, bs)
  end.

Definition qb_ipcc_sendv_recv (rounds : nat) (c : option Z) (iov : list (list Z)) (res_len ms_timeout : Z)
    : M (Z * list Z) :=
  match c with
  | None => mret (- EINVAL, [])
  | Some c =>
    e ← fc_check c;
    match e with
    | Some res => mret (res, [])
    | None =>
      res ← qb_ipcc_sendv (Some c) iov;
      if res <? 0 then mret (res, [])
      else recv_loop rounds c res_len ms_timeout ms_timeout
    end
  end.

Definition qb_ipcc_fd_get (c : option Z) : M (Z * option Z) :=
  match c with
  | None => mret (- EINVAL, None)
  | Some c =>
    x ← get_client c;
    mret (0, Some (if decide (ow_type (cc_event x) = QB_IPC_SOCKET) then ow_sock (cc_event x)
                   else ow_sock (cc_setup x)))
  end.

(** The three values, for callers that ask for all. *)
Definition qb_ipcc_auth_get (c : option Z) : M (Z * option (Z * Z * Z)) :=
  match c with
  | None => mret (- EINVAL, None)
  | Some c => x ← get_client c; mret (0, Some (cc_server_pid x, cc_euid x, cc_egid x))
  end.

Definition qb_ipcc_event_recv (c : option Z) (msg_len ms_timeout : Z) : M (Z * list Z) :=
  match c with
  | None => mret (- EINVAL, [])
  | Some c =>
    ow ← ipcc_event_sock_one_way_get c;
    res ← _check_connection_state_with c (- EAGAIN) ow ms_timeout POLLIN;
    if res <? 0 then mret (res, [])
    else
      x ← get_client c;
      fs ← client_funcs c;
      '(size, bs) ← cf_recv fs (cc_event x) msg_len ms_timeout;
      x ← get_client c;
      size ←
        (if (0 <? size) && cc_needs_sock_for_poll x then
           '(res, _) ← qb_ipc_us_recv fuel (cc_setup x) 1 (-1);
           mret (if negb (res =? 1) then res else size)
         else mret size);
      res ← _check_connection_state c (i32 size);
      mret (res, bs)
  end.

Definition qb_ipcc_disconnect (c : option Z) : M unit :=
  match c with
  | None => mret tt
  | Some c =>
    ow ← ipcc_event_sock_one_way_get c;
    _ ← _check_connection_state_with c (- EAGAIN) ow 0 POLLIN;
    x ← get_client c;
    _ ← match cc_funcs x with
        | Some t => match cf_disconnect (cfuncs t) with Some f => f c | None => mret tt end
        | None => mret tt
        end;
    modify (fun m => set_clients m (delete c (clients m)))
  end.

Definition qb_ipcc_context_set (c : option Z) (context : Z) : M unit :=
  match c with None => mret tt | Some c => mod_client c (fun x => set_cc_context x context) end.
Definition qb_ipcc_context_get (c : option Z) : M Z :=
  match c with None => mret 0 | Some c => x ← get_client c; mret (cc_context x) end.

Definition qb_ipcc_is_connected (c : option Z) : M bool :=
  match c with
  | None => mret false
  | Some c =>
    ow ← ipcc_response_sock_one_way_get c;
    _ ← _check_connection_state_with c (- EAGAIN) ow 0 POLLIN;
    x ← get_client c;
    mret (cc_is_connected x)
  end.

Definition qb_ipcc_get_buffer_size (c : option Z) : M Z :=
  match c with
  | None => mret (- EINVAL)
  | Some c => x ← get_client c; mret (i32 (ow_max_msg_size (cc_event x)))
  end.
End Client.

(** The client's table for shared memory, filled in by [qb_ipcc_shm_connect]. *)
Definition shm_cfuncs {E : Env} : qb_ipcc_funcs :=
  {| cf_recv := qb_ipc_shm_recv; cf_send := qb_ipc_shm_send; cf_sendv := qb_ipc_shm_sendv;
     cf_disconnect := Some qb_ipcc_shm_disconnect; cf_fc_get := Some qb_ipc_shm_fc_get |}.

(** The client's table for sockets, filled in by [qb_ipcc_us_connect]. *)
Definition us_cfuncs {E : Env} (fuel : nat) : qb_ipcc_funcs :=
  {| cf_recv := qb_ipc_us_recv_at_most fuel; cf_send := qb_ipc_socket_send; cf_sendv := qb_ipc_socket_sendv;
     cf_disconnect := Some qb_ipcc_us_disconnect; cf_fc_get := Some qb_ipc_us_fc_get |}.
