(* ===== verification/IpcLogic.v ===== *)
(** * Reasoning about the IPC layer

    [wp x m Q]: run from the machine [m], the computation [x] commits no fault
    of memory, assertion or function pointer, and where it returns [a] in the
    machine [m'], [Q a m'] holds.  A loop that waits for a socket for ever
    ([F_loop]) is no such fault; that loops end is shown separately. *)
From stdpp Require Import strings gmap.
From S2P Require Import Prelude Memory Cstring RingBuffer RingBufferOpen Loop IpcBase IpcSock.

Definition wp {A} (x : M A) (m : machine) (Q : A -> machine -> Prop) : Prop :=
  match x m with
  | Done a m' => Q a m'
  | Fault F_loop => True
  | Fault _ => False
  end.

Create HintDb ipc.

(** [returns x m Q]: the computation [x] does return, and [Q] holds then. *)
Definition returns {A} (x : M A) (m : machine) (Q : A -> machine -> Prop) : Prop :=
  match x m with
  | Done a m' => Q a m'
  | Fault _ => False
  end.

Lemma returns_wp {A} (x : M A) m Q : returns x m Q -> wp x m Q.
Proof. unfold returns, wp. by destruct (x m). Qed.
Lemma returns_ret {A} (a : A) m Q : Q a m -> returns (mret a) m Q.
Proof. done. Qed.
Lemma returns_bind {A B} (x : M A) (k : A -> M B) m Q :
  returns x m (fun a m' => returns (k a) m' Q) -> returns (x ≫= k) m Q.
Proof. unfold returns, mbind, M_bind. by destruct (x m). Qed.
Lemma returns_assoc {A B C} (x : M A) (y : A -> M B) (k : B -> M C) m Q :
  returns (a ← x; y a) m (fun b m' => returns (k b) m' Q) -> returns (a ← x; b ← y a; k b) m Q.
Proof. unfold returns, mbind, M_bind. destruct (x m) as [a m1|]; [|done]. by destruct (y a m1). Qed.
Lemma returns_mono {A} (x : M A) m (P Q : A -> machine -> Prop) :
  returns x m P -> (forall a m', P a m' -> Q a m') -> returns x m Q.
Proof. unfold returns. destruct (x m); auto. Qed.
Lemma returns_eq {A} (x : M A) m a m' Q : x m = Done a m' -> Q a m' -> returns x m Q.
Proof. unfold returns. by intros ->. Qed.

(** The machine with the connection [c] replaced. *)
Definition put_conn (m : machine) (c : Z) (x : qb_ipcs_connection) : machine :=
  set_conns m (<[c := x]> (conns m)).

Section Wp.
Context {E : Env}.
Implicit Types (m : machine).

Lemma wp_ret {A} (a : A) m Q : Q a m -> wp (mret a) m Q.
Proof. done. Qed.

Lemma wp_bind {A B} (x : M A) (k : A -> M B) m Q :
  wp x m (fun a m' => wp (k a) m' Q) -> wp (x ≫= k) m Q.
Proof. unfold wp, mbind, M_bind. by destruct (x m) as [|[]]. Qed.

Lemma wp_bind_inv {A B} (x : M A) (k : A -> M B) m Q :
  wp (x ≫= k) m Q -> wp x m (fun a m' => wp (k a) m' Q).
Proof. unfold wp, mbind, M_bind. by destruct (x m) as [|[]]. Qed.

Lemma wp_mono {A} (x : M A) m (P Q : A -> machine -> Prop) :
  wp x m P -> (forall a m', P a m' -> Q a m') -> wp x m Q.
Proof. unfold wp. destruct (x m) as [|[]]; auto. Qed.

(** A prefix of three steps with a specification of its own. *)
Lemma wp_prefix {A B C D} (x : M A) (y : A -> M B) (z : A -> B -> M C) (k : C -> M D) m Q :
  wp (a ← x; b ← y a; z a b) m (fun c m' => wp (k c) m' Q) ->
  wp (a ← x; b ← y a; c ← z a b; k c) m Q.
Proof.
  unfold wp, mbind, M_bind. destruct (x m) as [a m1|[]]; try done. destruct (y a m1) as [b m2|[]]; try done.
  by destruct (z a b m2) as [|[]].
Qed.

Lemma wp_loop {A} m (Q : A -> machine -> Prop) : wp (fail F_loop) m Q.
Proof. done. Qed.

Lemma wp_sys c m Q :
  Q (reply (calls m) c) (set_calls m (calls m ++ [(c, reply (calls m) c)])) -> wp (sys c) m Q.
Proof. done. Qed.

Lemma wp_get {A} (f : machine -> A) m Q : Q (f m) m -> wp (get f) m Q.
Proof. done. Qed.

Lemma wp_modify f m Q : Q tt (f m) -> wp (modify f) m Q.
Proof. done. Qed.

Lemma wp_get_conn c x m Q : conns m !! c = Some x -> Q x m -> wp (get_conn c) m Q.
Proof. unfold wp, get_conn. by intros ->. Qed.

Lemma wp_mod_conn c f x m Q :
  conns m !! c = Some x -> Q tt (put_conn m c (f x)) -> wp (mod_conn c f) m Q.
Proof. unfold wp, mod_conn. by intros ->. Qed.

Lemma put_conn_lookup m c x : conns (put_conn m c x) !! c = Some x.
Proof. apply lookup_insert_eq. Qed.

Lemma put_conn_twice m c x y : put_conn (put_conn m c x) c y = put_conn m c y.
Proof. unfold put_conn. cbn. by rewrite insert_insert_eq. Qed.

Lemma put_conn_same m c x : conns m !! c = Some x -> put_conn m c x = m.
Proof. intros Hx. unfold put_conn. rewrite insert_id by done. by destruct m. Qed.

Lemma wp_get_put c x m Q : Q x (put_conn m c x) -> wp (get_conn c) (put_conn m c x) Q.
Proof. eapply wp_get_conn, put_conn_lookup. Qed.

Lemma wp_mod_put c f x m Q : Q tt (put_conn m c (f x)) -> wp (mod_conn c f) (put_conn m c x) Q.
Proof. intros HQ. eapply wp_mod_conn; [apply put_conn_lookup|]. by rewrite put_conn_twice. Qed.

Lemma wp_get_service s m Q : svc m = Some s -> Q s m -> wp get_service m Q.
Proof. unfold wp, get_service. by intros ->. Qed.

Lemma wp_mod_service f s m Q :
  svc m = Some s -> Q tt (set_svc m (Some (f s))) -> wp (mod_service f) m Q.
Proof. unfold wp, mod_service. by intros ->. Qed.

Lemma wp_new_address m Q : Q (fresh m) (set_fresh m (fresh m + 1)) -> wp new_address m Q.
Proof. done. Qed.

Lemma wp_get_auth d x m Q : auths m !! d = Some x -> Q x m -> wp (get_auth d) m Q.
Proof. unfold wp, get_auth. by intros ->. Qed.

Lemma wp_mod_auth d f x m Q :
  auths m !! d = Some x -> Q tt (set_auths m (<[d := f x]> (auths m))) -> wp (mod_auth d f) m Q.
Proof. unfold wp, mod_auth. by intros ->. Qed.

Lemma wp_get_ring h r m Q :
  rings m !! rh_id h = Some r -> Q (with_flags (sr_rb r) (rh_flags h)) m -> wp (get_ring h) m Q.
Proof. unfold wp, get_ring. by intros ->. Qed.

Lemma wp_put_ring h rb r m Q :
  rings m !! rh_id h = Some r ->
  Q tt (set_rings m (<[rh_id h := {| sr_rb := rb; sr_user_data := sr_user_data r |}]> (rings m))) ->
  wp (put_ring h rb) m Q.
Proof. unfold wp, put_ring. by intros ->. Qed.

(** ** Computations that leave the objects alone

    What [steady m m'] allows to change is the history of calls and what the
    rings contain. *)
Definition shape (r : shm_ring) : Z * Z := (zlen (shared_data (sr_rb r)), word_size (shared_hdr (sr_rb r))).
Record steady m m' : Prop := {
  st_svc : svc m' = svc m;
  st_conns : conns m' = conns m;
  st_list : conn_list m' = conn_list m;
  st_auths : auths m' = auths m;
  st_clients : clients m' = clients m;
  st_fresh : fresh m' = fresh m;
  st_rings : forall k, shape <$> rings m' !! k = shape <$> rings m !! k;
}.

Lemma steady_refl m : steady m m.
Proof. by constructor. Qed.
Lemma steady_trans m1 m2 m3 : steady m1 m2 -> steady m2 m3 -> steady m1 m3.
Proof. intros [] []. constructor; congruence. Qed.

Lemma steady_calls m h : steady m (set_calls m h).
Proof. by constructor. Qed.

Lemma steady_rings m k r r' :
  rings m !! k = Some r -> shape r' = shape r -> steady m (set_rings m (<[k := r']> (rings m))).
Proof.
  intros Hk Hs. constructor; try done. intros j. cbn.
  destruct (decide (j = k)) as [->|]; [by rewrite lookup_insert_eq, Hk; cbn; rewrite Hs|by rewrite lookup_insert_ne].
Qed.

Lemma steady_ring m m' k r :
  steady m m' -> rings m !! k = Some r -> exists r', rings m' !! k = Some r' /\ shape r' = shape r.
Proof.
  intros Hs Hk. pose proof (st_rings _ _ Hs k) as H. rewrite Hk in H.
  destruct (rings m' !! k) as [r'|]; [|done]. injection H as H1 H2. exists r'. unfold shape. by rewrite H1, H2.
Qed.

Definition quiet {A} (x : M A) : Prop := forall m, wp x m (fun _ m' => steady m m').

Lemma wp_quiet {A} (x : M A) m Q :
  quiet x -> (forall a m', steady m m' -> Q a m') -> wp x m Q.
Proof. intros Hx HQ. eapply wp_mono; [apply Hx|]. eauto. Qed.

Lemma quiet_ret {A} (a : A) : quiet (mret a).
Proof. intros m. apply wp_ret, steady_refl. Qed.

Lemma quiet_bind {A B} (x : M A) (k : A -> M B) : quiet x -> (forall a, quiet (k a)) -> quiet (x ≫= k).
Proof.
  intros Hx Hk m. apply wp_bind. apply wp_quiet; [done|]. intros a m1 H1.
  apply wp_quiet; [done|]. intros b m2 H2. by eapply steady_trans.
Qed.

Lemma quiet_sys c : quiet (sys c).
Proof. intros m. apply wp_sys, steady_calls. Qed.

Lemma quiet_loop {A} : quiet (fail F_loop : M A).
Proof. intros m. apply wp_loop. Qed.

Lemma quiet_get {A} (f : machine -> A) : quiet (get f).
Proof. intros m. apply wp_get, steady_refl. Qed.
End Wp.

#[export] Hint Resolve quiet_ret quiet_sys quiet_loop quiet_get steady_refl steady_calls : ipc.

(** Decompose a quiet computation. *)
Ltac quiet_go :=
  repeat first
    [ progress auto with ipc
    | apply quiet_bind; [|intros]
    | case_match
    | match goal with |- quiet (let '(_, _) := ?x in _) => destruct x end ].

Section Sockets.
Context {E : Env}.

Lemma quiet_us_send fuel w msg : quiet (qb_ipc_us_send fuel w msg).
Proof.
  unfold qb_ipc_us_send. generalize 0 as p. induction fuel as [|n IH]; intros p; cbn [us_send_loop]; quiet_go.
Qed.

Lemma quiet_us_ready ow o1 o2 t e : quiet (qb_ipc_us_ready ow o1 o2 t e).
Proof. unfold qb_ipc_us_ready. quiet_go. Qed.
#[local] Hint Resolve quiet_us_ready : ipc.

Lemma quiet_us_recv fuel w len t : quiet (qb_ipc_us_recv fuel w len t).
Proof.
  unfold qb_ipc_us_recv. generalize 0 as p, (@nil Z) as d.
  induction fuel as [|n IH]; intros p d; cbn [us_recv_loop]; quiet_go.
Qed.

Lemma quiet_sock_close sock : quiet (qb_ipcc_us_sock_close sock).
Proof. unfold qb_ipcc_us_sock_close. quiet_go. Qed.

Lemma quiet_remove_tempdir d : quiet (remove_tempdir d).
Proof. unfold remove_tempdir. quiet_go. Qed.
End Sockets.

(** [errno] is never negative; a page is a power of two that is not tiny. *)
Class EnvOk (E : Env) : Prop := {
  err_nonneg : forall h c, 0 <= err (reply h c);
  page_ok : forall h n, let p := page_size (open_env_of h n) in 64 <= p <= 2 ^ 20 /\ p mod 4 = 0;
}.

(** A send that succeeds has sent the whole message. *)
Lemma us_send_result {E : Env} {EO : EnvOk E} fuel w msg m :
  wp (qb_ipc_us_send fuel w msg) m (fun r m' => steady m m' /\ (r <= 0 \/ r = zlen msg)).
Proof.
  unfold qb_ipc_us_send.
  enough (forall p, wp (us_send_loop fuel (ow_sock w) msg p) m
    (fun r m' => steady m m' /\ (r <= 0 \/ r = zlen msg))) by done.
  revert m. induction fuel as [|n IH]; intros m p; cbn [us_send_loop]; [apply wp_loop|].
  apply wp_bind, wp_sys. set (a := reply _ _). set (m1 := set_calls _ _).
  assert (Hs : steady m m1) by apply steady_calls.
  assert (Hnext : forall q, wp (us_send_loop n (ow_sock w) msg q) m1
    (fun r m' => steady m m' /\ (r <= 0 \/ r = zlen msg))).
  { intros q. eapply wp_mono; [apply IH|]. cbn. intros r m' [H1 H2]. split; [by eapply steady_trans|exact H2]. }
  destruct (ret a =? -1).
  - destruct (_ && _); [apply Hnext|]. apply wp_ret. split; [done|]. pose proof (err_nonneg (calls m) _ : 0 <= err a). lia.
  - destruct (Z.eqb_spec (i32 (p + ret a)) (zlen msg)); cbn [negb]; [|apply Hnext]. apply wp_ret. auto.
Qed.

#[export] Hint Resolve quiet_us_send quiet_us_ready quiet_us_recv quiet_sock_close quiet_remove_tempdir : ipc.

(** Run the first computation of a sequence. *)
Ltac wp_first :=
  match goal with
  | |- wp (_ ≫= _) _ _ => apply wp_bind
  | |- wp (mret _) _ _ => apply wp_ret
  | |- wp (get_conn ?c) (put_conn _ ?c _) _ => apply wp_get_put
  | |- wp (mod_conn ?c _) (put_conn _ ?c _) _ => apply wp_mod_put
  | |- wp (mod_stats ?c _) (put_conn _ ?c _) _ => apply wp_mod_put
  | H : conns ?m !! ?c = Some _ |- wp (get_conn ?c) ?m _ => eapply wp_get_conn; [exact H|]
  | H : conns ?m !! ?c = Some _ |- wp (mod_conn ?c _) ?m _ => eapply wp_mod_conn; [exact H|]
  | H : conns ?m !! ?c = Some _ |- wp (mod_stats ?c _) ?m _ => eapply wp_mod_conn; [exact H|]
  | H : svc ?m = Some _ |- wp get_service ?m _ => eapply wp_get_service; [exact H|]
  | H : svc ?m = Some _ |- wp (mod_service _) ?m _ => eapply wp_mod_service; [exact H|]
  | |- wp new_address _ _ => apply wp_new_address
  | |- wp (modify _) _ _ => apply wp_modify
  | |- wp (get _) _ _ => apply wp_get
  end.
Ltac wp_go := repeat wp_first.
