(* ===== verification/IpcInv.v ===== *)
(** * References in the IPC service: the invariant

    Every reference to the service or to a connection is counted once.  The
    holders of references are a ghost state: the library holds one reference to
    a connection that was not yet disconnected ([g_own]), the application and
    the functions that are running hold [g_refs]; [g_svc] is the application's
    references to the service, the one of its creation included. *)
From stdpp Require Import strings gmap functions.
From S2P Require Import Prelude Memory Cstring RingBuffer RingBufferOpen Loop IpcBase IpcSock Ipcs IpcLogic.

Record ghost := { g_svc : Z; g_own : Z -> bool; g_refs : Z -> Z }.

(** No connection has more references than [MAX_REFS]; a callback does not
    take references beyond [APP_REFS], which leaves room for the library's. *)
Definition MAX_REFS : Z := 2 ^ 30.
Definition APP_REFS : Z := 2 ^ 29.

Definition g_total (g : ghost) (c : Z) : Z := Z.b2z (g_own g c) + g_refs g c.
Definition set_own (g : ghost) (c : Z) (b : bool) : ghost :=
  {| g_svc := g_svc g; g_own := <[c := b]> (g_own g); g_refs := g_refs g |}.
Definition set_refs (g : ghost) (c n : Z) : ghost :=
  {| g_svc := g_svc g; g_own := g_own g; g_refs := <[c := n]> (g_refs g) |}.

(** [g] and [g'] differ at [c] only. *)
Definition agree_but (c : Z) (g g' : ghost) : Prop :=
  g_svc g' = g_svc g /\ forall d, d <> c -> g_own g' d = g_own g d /\ g_refs g' d = g_refs g d.

(** ** What a transport promises *)

(** A ring for messages of up to [n] bytes. *)
Definition shape_ok (n : Z) (r : shm_ring) : Prop :=
  zlen (shared_data (sr_rb r)) = 4 * word_size (shared_hdr (sr_rb r)) /\ 16 <= word_size (shared_hdr (sr_rb r)) /\
  n <= zlen (shared_data (sr_rb r)).

Definition handles_ok (rs : gmap Z shm_ring) (x : qb_ipcs_connection) : Prop :=
  forall o h, ow_rb (c_ow x o) = Some h ->
    exists r, rs !! rh_id h = Some r /\ shape_ok (ow_max_msg_size (c_ow x o)) r.

Lemma shape_ok_same n r r' : shape r' = shape r -> shape_ok n r -> shape_ok n r'.
Proof. unfold shape, shape_ok. intros [= -> ->]. done. Qed.

(** [n] bytes can be read at [p]. *)
Definition readable (p : ptr) (n : Z) (m : machine) : Prop :=
  forall at_ len, 0 <= at_ -> at_ + len <= n -> wp (read_mem p at_ len) m (fun _ m' => m' = m).

(** The room for a message: at least its header. *)
Definition msg_room (x : qb_ipcs_connection) : Z := Z.max 16 (ow_max_msg_size (c_request x)).

(** What a connection keeps while its transport is opened and closed. *)
Definition core (x : qb_ipcs_connection) : qb_ipcs_connection_state * Z * Z * option (list Z) :=
  (c_state x, c_refcount x, c_outstanding_notifiers x, c_receive_buf x).

(** Only the connection [c], [x] before and [y] after, is touched; rings may
    be added at new addresses. *)
Record touches (c : Z) (x y : qb_ipcs_connection) (m m' : machine) : Prop := {
  to_svc : svc m' = svc m;
  to_list : conn_list m' = conn_list m;
  to_auths : auths m' = auths m;
  to_clients : clients m' = clients m;
  to_fresh : fresh m <= fresh m';
  to_conns : conns m' = <[c := y]> (conns m);
  to_core : core y = core x;
  to_rings : forall k, k < fresh m -> shape <$> rings m' !! k = shape <$> rings m !! k;
  to_new : forall k, fresh m' <= k -> rings m !! k = None -> rings m' !! k = None;
}.

Definition ready (s : qb_ipcs_service) : Prop :=
  is_Some (s_funcs s) /\ s_job_add s = true /\ s_dispatch_add s = true /\ s_dispatch_mod s = true /\
  s_dispatch_del s = true /\ 0 <= s_max_buffer_size s < 2 ^ 32.

(** The sizes of messages are 32-bit numbers. *)
Definition sizes_ok (x : qb_ipcs_connection) : Prop := forall o, 0 <= ow_max_msg_size (c_ow x o) < 2 ^ 32.
Definition same_sizes (x y : qb_ipcs_connection) : Prop :=
  forall o, ow_max_msg_size (c_ow y o) = ow_max_msg_size (c_ow x o).

Lemma same_sizes_ok x y : same_sizes x y -> sizes_ok x -> sizes_ok y.
Proof. intros Hs Hx o. rewrite Hs. apply Hx. Qed.

Class TransportLaws (fs : qb_ipcs_funcs) := {
  (** flow control can be set *)
  tl_open : qb_ipcs_connection -> Prop;
  tl_open_core : forall x y, (forall o, c_ow y o = c_ow x o) -> tl_open x -> tl_open y;
  tl_send : forall m x o msg, handles_ok (rings m) x -> wp (fn_send fs (c_ow x o) msg) m (fun _ => steady m);
  tl_sendv : forall m x o iov, handles_ok (rings m) x -> wp (fn_sendv fs (c_ow x o) iov) m (fun _ => steady m);
  tl_fc_set : forall m x v, handles_ok (rings m) x -> tl_open x ->
    wp (fn_fc_set fs (c_request x) v) m (fun _ => steady m);
  tl_q_len : forall m x o f, handles_ok (rings m) x -> fn_q_len_get fs = Some f ->
    wp (f (c_ow x o)) m (fun _ => steady m);
  tl_peek : forall m x t pk rc, handles_ok (rings m) x -> peek_reclaim fs = Some (pk, rc) ->
    wp (pk (c_request x) t) m (fun r m' => steady m m' /\
      (0 < fst r -> exists p, snd r = Some p /\ readable p (msg_room x) m'));
  tl_reclaim : forall m x pk rc, handles_ok (rings m) x -> peek_reclaim fs = Some (pk, rc) ->
    wp (rc (c_request x)) m (fun _ => steady m);
  tl_peeks : is_Some (peek_reclaim fs);
  tl_disconnect : forall m c x s, conns m !! c = Some x -> handles_ok (rings m) x -> svc m = Some s -> ready s ->
    wp (fn_disconnect fs c) m (fun _ m' => exists y, touches c x y m m' /\ fresh m' = fresh m /\
      handles_ok (rings m') y /\ same_sizes x y /\ (c_state x = QB_IPCS_CONNECTION_ESTABLISHED -> tl_open x -> tl_open y));
  tl_connect : forall m c x s f r, conns m !! c = Some x -> handles_ok (rings m) x -> sizes_ok x ->
    svc m = Some s -> ready s ->
    (forall k, fresh m <= k -> rings m !! k = None) -> fn_connect fs = Some f ->
    wp (f c r) m (fun res m' => exists y, touches c x y m m' /\ handles_ok (rings m') y /\ same_sizes x y /\
      (forall k, fresh m' <= k -> rings m' !! k = None) /\ (fst res = 0 -> tl_open y));
  tl_connect_some : is_Some (fn_connect fs);
}.

Section Inv.
Context {E : Env}.
Context (fuel : nat).
Context (funcs : qb_ipc_type -> qb_ipcs_funcs).
Context {L : forall t, TransportLaws (funcs t)}.
Context (serv_fns : qb_ipcs_service_handlers).

(** ** The invariant *)

Definition opened (m : machine) (x : qb_ipcs_connection) : Prop :=
  match svc m with
  | Some s => match s_funcs s with Some t => tl_open (fs := funcs t) x | None => False end
  | None => False
  end.

Record conn_ok (m : machine) (g : ghost) (c : Z) (x : qb_ipcs_connection) : Prop := {
  co_count : c_refcount x = g_total g c;
  co_pos : 0 < c_refcount x;
  co_refs : 0 <= g_refs g c <= MAX_REFS;
  co_own : c_state x = QB_IPCS_CONNECTION_ACTIVE \/ c_state x = QB_IPCS_CONNECTION_ESTABLISHED -> g_own g c = true;
  co_listed : c_state x <> QB_IPCS_CONNECTION_INACTIVE -> c ∈ conn_list m /\ opened m x;
  co_handles : handles_ok (rings m) x;
  co_notifiers : 0 <= c_outstanding_notifiers x /\
    (0 < c_outstanding_notifiers x ->
     exists b, c_receive_buf x = Some b /\ c_outstanding_notifiers x <= zlen b);
  co_size : sizes_ok x;
}.

(** The authentications in progress that hold a reference to the service. *)
Definition held_of (a : gmap Z ipc_auth_data) : Z := Z.of_nat (size (filter (fun p => d_s (snd p) = true) a)).
Definition held (m : machine) : Z := held_of (auths m).

Definition svc_ok (m : machine) (g : ghost) : Prop :=
  match svc m with
  | Some s =>
    ready s /\ s_ref_count s = g_svc g + Z.of_nat (size (conns m)) + held m /\ 0 < s_ref_count s < 2 ^ 31
  | None => conns m = ∅ /\ held m = 0 /\ g_svc g = 0
  end.

Record ipcs_inv (m : machine) (g : ghost) : Prop := {
  iv_svc : svc_ok m g;
  iv_gsvc : 0 <= g_svc g <= MAX_REFS;
  iv_conns : map_Forall (conn_ok m g) (conns m);
  iv_none : forall c, conns m !! c = None -> g_own g c = false /\ g_refs g c = 0;
  iv_list : NoDup (conn_list m) /\ forall c, c ∈ conn_list m -> is_Some (conns m !! c);
  iv_fresh : forall k, fresh m <= k -> conns m !! k = None /\ auths m !! k = None /\ rings m !! k = None;
}.

(** ** Frames *)

Lemma opened_steady m m' x : svc m' = svc m -> opened m x -> opened m' x.
Proof. unfold opened. by intros ->. Qed.

Lemma handles_steady m m' x : steady m m' -> handles_ok (rings m) x -> handles_ok (rings m') x.
Proof.
  intros Hs Hh o h Ho. destruct (Hh o h Ho) as (r & Hr & Hok). destruct (steady_ring _ _ _ _ Hs Hr) as (r' & ? & ?).
  exists r'. split; [done|]. by eapply shape_ok_same.
Qed.

Lemma opened_same m x y : (forall o, c_ow y o = c_ow x o) -> opened m x -> opened m y.
Proof.
  unfold opened. destruct (svc m) as [s|]; [|done]. destruct (s_funcs s); [|done]. apply tl_open_core.
Qed.

Lemma inv_steady m m' g : steady m m' -> ipcs_inv m g -> ipcs_inv m' g.
Proof.
  intros Hs [Hv Hg Hc Hn Hl Hf]. pose proof Hs as [S1 S2 S3 S4 S5 S6 S7].
  constructor; try (rewrite ?S2, ?S3; done).
  - unfold svc_ok, held in *. by rewrite S1, S2, S4.
  - rewrite S2. intros c x Hx. destruct (Hc c x Hx) as [A B C D F G H Z0]. constructor; try done.
    + rewrite S3. intros Hx'. destruct (F Hx'). split; [done|]. by eapply opened_steady.
    + by eapply handles_steady.
  - intros k Hk. rewrite S6 in Hk. destruct (Hf k Hk) as (? & ? & Hr). rewrite S2, S4. split_and!; try done.
    specialize (S7 k). rewrite Hr in S7. by destruct (rings m' !! k).
Qed.

Lemma get_funcs_spec m s t Q : svc m = Some s -> s_funcs s = Some t -> Q (funcs t) m -> wp (get_funcs funcs) m Q.
Proof. intros Hs Ht HQ. unfold get_funcs. wp_go. rewrite Ht. by apply wp_ret. Qed.

Lemma poll_fn_spec m s p call :
  svc m = Some s -> p s = true -> wp (poll_fn p call) m (fun _ m' => steady m m').
Proof. intros Hs Hp. unfold poll_fn. wp_go. rewrite Hp. apply wp_quiet; quiet_go. Qed.

Lemma unref_service m s Q :
  svc m = Some s -> 0 < s_ref_count s < 2 ^ 31 ->
  Q tt (set_svc m (if s_ref_count s =? 1 then None else Some (set_s_ref_count s (s_ref_count s - 1)))) ->
  wp qb_ipcs_unref m Q.
Proof.
  intros Hs Hr HQ. unfold qb_ipcs_unref. wp_go. destruct (Z.ltb_spec 0 (s_ref_count s)); [|lia]. cbn [negb].
  wp_go. eapply wp_get_service; [done|]. cbn [set_s_ref_count s_ref_count]. rewrite i32_small by lia.
  destruct (Z.eqb_spec (s_ref_count s) 1) as [E1|E1].
  - rewrite E1. by wp_go.
  - destruct (Z.eqb_spec (s_ref_count s - 1) 0); [lia|]. by wp_go.
Qed.

(** ** Changing one connection *)

(** The connection [c] is replaced by [y] and rings may be added, while the
    references to the other connections stay. *)
Lemma inv_replace m m' g g' c x y :
  ipcs_inv m g -> conns m !! c = Some x -> agree_but c g g' ->
  svc m' = svc m -> conn_list m' = conn_list m -> auths m' = auths m -> conns m' = <[c := y]> (conns m) ->
  fresh m <= fresh m' ->
  (forall k, k < fresh m -> shape <$> rings m' !! k = shape <$> rings m !! k) ->
  (forall k, fresh m' <= k -> rings m' !! k = None) ->
  conn_ok m' g' c y -> ipcs_inv m' g'.
Proof.
  intros [Hv Hg Hc Hn Hl Hf] Hx [Ha1 Ha2] S1 S2 S3 S4 S5 S6 S7 Hy. constructor.
  - unfold svc_ok, held in *. rewrite S1, S3, S4. destruct (svc m) as [s|].
    + rewrite map_size_insert_Some by eauto. by rewrite Ha1.
    + destruct Hv as (He & _). by rewrite He in Hx.
  - by rewrite Ha1.
  - rewrite S4. intros d z. destruct (decide (d = c)) as [->|Hd].
    + rewrite lookup_insert_eq. by intros [= <-].
    + rewrite lookup_insert_ne by done. intros Hz. destruct (Ha2 d Hd) as [A B].
      destruct (Hc d z Hz). constructor; unfold g_total; rewrite ?A, ?B, ?S2; try done.
      * intros Hst. destruct (co_listed0 Hst). split; [done|]. by eapply opened_steady.
      * intros o h Hoh. destruct (co_handles0 o h Hoh) as (r & Hr & Hrs).
        assert (rh_id h < fresh m) as Hlt.
        { destruct (Z.lt_ge_cases (rh_id h) (fresh m)) as [|Hk]; [done|]. destruct (Hf _ Hk) as (_ & _ & Hr').
          by rewrite Hr in Hr'. }
        specialize (S6 _ Hlt). rewrite Hr in S6. destruct (rings m' !! rh_id h) as [r'|]; [|done].
        exists r'. split; [done|]. eapply shape_ok_same; [|done]. by apply (inj Some).
  - rewrite S4. intros d. destruct (decide (d = c)) as [->|Hd]; [by rewrite lookup_insert_eq|].
    rewrite lookup_insert_ne by done. intros Hz. destruct (Ha2 d Hd) as [-> ->]. by apply Hn.
  - rewrite S2, S4. destruct Hl as [? Hl]. split; [done|]. intros d Hd. apply lookup_insert_is_Some.
    destruct (decide (c = d)); eauto.
  - intros k Hk. destruct (Hf k ltac:(lia)) as (? & ? & ?). rewrite S3, S4, lookup_insert_ne by congruence. auto.
Qed.

Lemma inv_update m g g' c x y :
  ipcs_inv m g -> conns m !! c = Some x -> agree_but c g g' ->
  conn_ok m g' c y -> ipcs_inv (put_conn m c y) g'.
Proof.
  intros Hi Hx Ha Hy. apply (inv_replace m _ g g' c x y); try done.
  - intros k Hk. by apply (iv_fresh _ _ Hi).
  - by destruct Hy; constructor.
Qed.

(** Only numbers the invariant does not speak of change in the service. *)
Lemma inv_service m g s s' :
  ipcs_inv m g -> svc m = Some s -> s_ref_count s' = s_ref_count s -> s_funcs s' = s_funcs s ->
  ready s' -> ipcs_inv (set_svc m (Some s')) g.
Proof.
  intros [Hv Hg Hc Hn Hl Hf] Hs H1 H2 H3. constructor; try done.
  - unfold svc_ok in *. rewrite Hs in Hv. cbn. rewrite H1. by destruct Hv as (_ & ? & ?).
  - intros d z Hz. destruct (Hc d z Hz). constructor; try done. intros Hst. destruct (co_listed0 Hst) as [? Ho].
    split; [done|]. unfold opened in *. cbn. rewrite Hs in Ho. by rewrite H2.
Qed.

(** [y] differs from [x] in what the invariant does not speak of. *)
Lemma conn_ok_same m g c x y :
  conn_ok m g c x -> core y = core x -> (forall o, c_ow y o = c_ow x o) -> conn_ok m g c y.
Proof.
  intros [A B C D F G H Z0] Hc Ho. unfold core in Hc.
  assert (c_state y = c_state x /\ c_refcount y = c_refcount x /\
          c_outstanding_notifiers y = c_outstanding_notifiers x /\ c_receive_buf y = c_receive_buf x)
    as (E1 & E2 & E3 & E4) by (by simplify_eq).
  constructor; rewrite ?E1, ?E2, ?E3, ?E4; try done.
  - intros Hs. destruct (F Hs). split; [done|]. by eapply opened_same.
  - intros o h. rewrite Ho. apply G.
  - intros o. rewrite Ho. apply Z0.
Qed.

Lemma agree_but_refl c g : agree_but c g g.
Proof. by split. Qed.
Lemma agree_but_refs c g n : agree_but c g (set_refs g c n).
Proof. split; [done|]. intros d Hd. cbn. by rewrite fn_lookup_insert_ne. Qed.
Lemma agree_but_own c g b : agree_but c g (set_own g c b).
Proof. split; [done|]. intros d Hd. cbn. by rewrite fn_lookup_insert_ne. Qed.

Lemma refs_insert g c n : g_refs (set_refs g c n) c = n.
Proof. apply fn_lookup_insert. Qed.
Lemma own_insert g c b : g_own (set_own g c b) c = b.
Proof. apply fn_lookup_insert. Qed.

Lemma total_refs g c n : g_total (set_refs g c n) c = Z.b2z (g_own g c) + n.
Proof. unfold g_total. by rewrite refs_insert. Qed.
Lemma total_own g c b : g_total (set_own g c b) c = Z.b2z b + g_refs g c.
Proof. unfold g_total. by rewrite own_insert. Qed.

(** Taking a reference. *)
Lemma ref_spec m g c x :
  ipcs_inv m g -> conns m !! c = Some x -> g_refs g c < MAX_REFS ->
  wp (qb_ipcs_connection_ref (Some c)) m (fun _ m' =>
    m' = put_conn m c (set_c_refcount x (c_refcount x + 1)) /\
    ipcs_inv m' (set_refs g c (g_refs g c + 1))).
Proof.
  intros Hi Hx Hr. pose proof (iv_conns _ _ Hi c x Hx) as Hok. pose proof Hok as [A B C D F G H Z0].
  unfold qb_ipcs_connection_ref. wp_go. unfold g_total in A.
  rewrite i32_small by (unfold MAX_REFS in *; destruct (g_own g c); cbn in A; lia).
  split; [done|]. apply (inv_update m g _ c x); [done|done|apply agree_but_refs|].
  constructor; cbn [set_c_refcount c_refcount c_state c_outstanding_notifiers c_receive_buf]; try done;
    rewrite ?refs_insert, ?total_refs; try lia.
  intros Hs. destruct (F Hs). split; [done|]. eapply opened_same; [|done]. by intros [].
Qed.

(** ** Dropping a reference *)

Context (Hdestroyed : forall f c, connection_destroyed serv_fns = Some f -> quiet (f c)).

(** The machine without the connection [c] and its reference to the service. *)
Definition freed (m : machine) (s : qb_ipcs_service) (c : Z) : machine :=
  set_conns (set_svc (set_conn_list m (filter (fun d => d <> c) (conn_list m)))
      (if s_ref_count s =? 1 then None else Some (set_s_ref_count s (s_ref_count s - 1))))
    (delete c (conns m)).

Lemma inv_freed m g g' c x s :
  ipcs_inv m g -> conns m !! c = Some x -> svc m = Some s -> agree_but c g g' -> g_total g' c = 0 ->
  0 <= g_refs g' c -> ipcs_inv (freed m s c) g'.
Proof.
  unfold freed.
  intros [Hv Hg Hc Hn Hl Hf] Hx Hs [Ha1 Ha2] Ht Hr.
  unfold svc_ok in Hv. rewrite Hs in Hv. destruct Hv as (Hrd & Hcount & Hpos).
  pose proof (map_size_delete_Some c (conns m) (mk_is_Some _ _ Hx)) as Hsz.
  assert (Hsz' : (0 < size (conns m))%nat).
  { destruct (size (conns m)) eqn:Hz; [|lia]. apply map_size_empty_inv in Hz. by rewrite Hz in Hx. }
  assert (Hheld : 0 <= held m) by (unfold held, held_of; lia).
  constructor; cbn [conns set_conns set_svc set_conn_list conn_list fresh auths rings].
  - unfold svc_ok. cbn [svc set_conns set_svc conns]. rewrite Ha1.
    change (held (set_conns _ _)) with (held m). destruct (Z.eqb_spec (s_ref_count s) 1) as [E1|E1].
    + split_and!; [|lia|lia]. apply map_size_empty_inv. lia.
    + split; [done|]. cbn [set_s_ref_count s_ref_count]. lia.
  - by rewrite Ha1.
  - intros d z Hz. apply lookup_delete_Some in Hz as [Hd Hz]. destruct (Ha2 d ltac:(done)) as [A B].
    destruct (Hc d z Hz). constructor; try done; unfold g_total in *; rewrite ?A, ?B; try done.
    intros Hst. destruct (co_listed0 Hst) as [Hin Hop]. split.
    + cbn. apply list_elem_of_filter. split; [by intros ->|done].
    + unfold opened in *. cbn [svc set_conns set_svc]. rewrite Hs in Hop.
      destruct (Z.eqb_spec (s_ref_count s) 1) as [E1|E1]; [|done].
      assert (size (conns m) = 1)%nat as H1 by lia.
      pose proof (map_size_delete_Some d (conns m) (mk_is_Some _ _ Hz)).
      rewrite H1 in *. assert (delete d (conns m) = ∅) as He by (apply map_size_empty_inv; lia).
      assert (delete d (conns m) !! c = Some x) as Hx' by (by rewrite lookup_delete_ne).
      by rewrite He in Hx'.
  - intros d Hd. destruct (decide (d = c)) as [->|Hne].
    + unfold g_total in Ht. destruct (g_own g' c); cbn in Ht; [lia|]. split; [done|lia].
    + rewrite lookup_delete_ne in Hd by done. destruct (Ha2 d Hne) as [-> ->]. by apply Hn.
  - destruct Hl as [Hnd Hl]. split; [by apply list.NoDup_filter|]. intros d Hd.
    apply list_elem_of_filter in Hd as [Hne Hd]. rewrite lookup_delete_ne by done. by apply Hl.
  - intros k Hk. destruct (Hf k Hk) as (? & ? & ?). split_and!; try done. by apply lookup_delete_None; right.
Qed.

(** The code that runs when the last reference is dropped. *)
Definition release (c : Z) : M unit :=
  _ ← unlink_conn c;
  _ ← match connection_destroyed serv_fns with Some f => f c | None => mret tt end;
  fs ← get_funcs funcs;
  _ ← fn_disconnect fs c;
  _ ← qb_ipcs_unref;
  free_conn c.

Lemma release_spec m c x s :
  svc m = Some s -> ready s -> 0 < s_ref_count s < 2 ^ 31 -> handles_ok (rings m) x ->
  (forall k, fresh m <= k -> rings m !! k = None) ->
  wp (release c) (put_conn m c x) (fun _ => steady (freed m s c)).
Proof.
  intros Hs Hrd Hpos G Hnone. unfold release, unlink_conn. wp_go.
  cbn [set_conn_list conn_list put_conn set_conns].
  set (m1 := set_conn_list (put_conn m c x) _).
  apply wp_mono with (fun _ m' => steady m1 m').
  { destruct (connection_destroyed serv_fns) as [f|] eqn:Hf; [by eapply Hdestroyed|apply quiet_ret]. }
  intros _ m2 S12. pose proof S12 as [S1 S2 S3 S4 S5 S6 S7]. cbn in S1, S2, S3, S4, S5, S6. wp_go.
  destruct Hrd as [[t Ht0] Hfl]. eapply get_funcs_spec; [by rewrite S1|done|]. wp_go.
  assert (Hx2 : conns m2 !! c = Some x) by (rewrite S2; apply lookup_insert_eq).
  eapply wp_mono; [eapply (tl_disconnect m2 c x s); [done|by eapply (handles_steady m1)|by rewrite S1|by split; eauto]|].
  intros _ m3 (y & [T1 T2 T3 T4 T5 T6 T7 T8 T9] & Hfr & _). wp_go.
  eapply unref_service; [by rewrite T1, S1|done|]. unfold free_conn. wp_go.
  eapply wp_get_conn; [cbn; rewrite T6; apply lookup_insert_eq|]. wp_go.
  constructor; cbn [freed set_conns set_svc conns conn_list auths fresh svc clients set_conn_list rings];
    rewrite ?T6, ?S2, ?delete_insert_eq, ?T2, ?T3, ?T4, ?Hfr; try done.
  intros k. etransitivity; [|apply S7]. destruct (Z.lt_ge_cases k (fresh m2)) as [Hk|Hk]; [by apply T8|].
  assert (Hn2 : rings m2 !! k = None).
  { rewrite S6 in Hk. specialize (S7 k). cbn in S7. rewrite (Hnone k Hk) in S7. by destruct (rings m2 !! k). }
  rewrite Hn2, T9; [done|lia|done].
Qed.

(** What is left after [qb_ipcs_connection_unref]: the connection with one
    reference less, or nothing of it. *)
Definition unrefd (c : Z) (x : qb_ipcs_connection) (m m' : machine) : Prop :=
  if c_refcount x =? 1 then
    conns m' = delete c (conns m) /\ conn_list m' = filter (fun d => d <> c) (conn_list m)
  else m' = put_conn m c (set_c_refcount x (c_refcount x - 1)).

Lemma unref_spec m g g' c x :
  ipcs_inv m g -> conns m !! c = Some x -> agree_but c g g' ->
  g_total g' c = g_total g c - 1 -> 0 <= g_refs g' c <= MAX_REFS ->
  (c_state x = QB_IPCS_CONNECTION_ACTIVE \/ c_state x = QB_IPCS_CONNECTION_ESTABLISHED ->
   c_refcount x <> 1 -> g_own g' c = true) ->
  wp (qb_ipcs_connection_unref funcs serv_fns (Some c)) m (fun _ m' =>
    ipcs_inv m' g' /\ unrefd c x m m' /\ auths m' = auths m /\ fresh m' = fresh m).
Proof.
  intros Hi Hx Ha Ht Hr Ho. pose proof (iv_conns _ _ Hi c x Hx) as [A B C D F G H Z0].
  assert (Hmax : g_total g c < 2 ^ 31) by (unfold g_total, MAX_REFS in *; destruct (g_own g c); cbn; lia).
  unfold qb_ipcs_connection_unref, unrefd. wp_go. destruct (Z.ltb_spec (c_refcount x) 1); [lia|]. wp_go.
  cbn [set_c_refcount c_refcount]. rewrite i32_small by lia.
  destruct (Z.eqb_spec (c_refcount x) 1) as [E1|E1]; zcase; try lia.
  - pose proof (iv_svc _ _ Hi) as Hv. unfold svc_ok in Hv. destruct (svc m) as [s|] eqn:Hs;
      [|destruct Hv as (He & _); by rewrite He in Hx].
    destruct Hv as (Hrd & Hcnt & Hpos).
    eapply wp_mono; [eapply (release_spec m c _ s); try done; intros k Hk; by apply (iv_fresh _ _ Hi)|].
    intros [] m' St. pose proof St as [_ S2 S3 S4 _ S6 _]. split_and!; try done.
    eapply inv_steady; [done|]. by apply (inv_freed m g g' c x); lia || done.
  - wp_go. split_and!; [|done|done|done]. apply (inv_update m g _ c x); try done.
    constructor; cbn [set_c_refcount c_refcount c_state c_outstanding_notifiers c_receive_buf]; try done; try lia.
    + auto.
    + intros Hst. destruct (F Hst). split; [done|]. eapply opened_same; [|done]. by intros [].
Qed.
End Inv.
