(* ===== verification/IpcsSafe.v ===== *)
(** * The IPC service uses its objects safely

    Each operation and each callback of the main loop preserves the invariant of
    file [IpcInv], whatever the system answers, provided that the application
    releases only references that it holds. *)
From stdpp Require Import strings gmap functions.
From S2P Require Import Prelude Memory Cstring RingBuffer RingBufferOpen Loop IpcBase IpcSock Ipcs IpcShm IpcSetup.
From S2P Require Import IpcLogic IpcInv.

(** The holders keep what they have, but the library's own reference to the
    connections of [P]; more references may have been taken, but not too many. *)
Definition grows_but (P : Z -> Prop) (g g' : ghost) : Prop :=
  g_svc g <= g_svc g' /\
  forall d, (~ P d -> g_own g d = true -> g_own g' d = true) /\ g_refs g d <= g_refs g' d /\
    (g_refs g' d = g_refs g d \/ g_refs g' d < APP_REFS).
Definition grows : ghost -> ghost -> Prop := grows_but (fun _ => False).

Lemma grows_refl P g : grows_but P g g.
Proof. split; [lia|]. intros d. split_and!; [auto|lia|by left]. Qed.
Lemma grows_trans P g1 g2 g3 : grows_but P g1 g2 -> grows_but P g2 g3 -> grows_but P g1 g3.
Proof.
  intros [A1 A2] [B1 B2]. split; [lia|]. intros d. destruct (A2 d) as (? & ? & ?), (B2 d) as (? & ? & ?).
  split_and!; [auto|lia|lia].
Qed.
Lemma grows_weaken (P : Z -> Prop) g g' : grows g g' -> grows_but P g g'.
Proof. intros [A B]. split; [done|]. intros d. destruct (B d) as (? & ? & ?). auto. Qed.
Lemma grows_below P g g' c n : grows_but P g g' -> APP_REFS <= n -> g_refs g c < n -> g_refs g' c < n.
Proof. intros [_ H]. destruct (H c) as (_ & _ & ?). lia. Qed.

Section Safe.
Context {E : Env}.
Context (fuel : nat).
Context (funcs : qb_ipc_type -> qb_ipcs_funcs).
Context {L : forall t, TransportLaws (funcs t)}.
Context {EO : EnvOk E}.
Context (serv_fns : qb_ipcs_service_handlers).
Abbreviation inv := (ipcs_inv funcs).

(** After a callback: the invariant holds, references were only taken, the
    connections are in the states they were in, and no client came or went. *)
Definition kept (m : machine) (g : ghost) (m' : machine) (g' : ghost) : Prop :=
  inv m' g' /\ grows g g' /\
  (forall c x, conns m !! c = Some x -> exists y, conns m' !! c = Some y /\ c_state y = c_state x) /\
  conn_list m' = conn_list m /\ auths m' = auths m.

(** What is asked of a callback about the connection [c]. *)
Definition call_ok {A} (c : Z) (f : M A) : Prop :=
  forall m g, inv m g -> g_own g c = true -> g_refs g c < MAX_REFS ->
    wp f m (fun _ m' => exists g', kept m g m' g').

Record AppOk : Prop := {
  ao_accept : forall f c uid gid, connection_accept serv_fns = Some f -> call_ok c (f c uid gid);
  ao_created : forall f c, connection_created serv_fns = Some f -> call_ok c (f c);
  ao_process : forall c p n m g, inv m g -> g_own g c = true -> g_refs g c < MAX_REFS -> 0 < n -> readable p n m ->
    wp (msg_process serv_fns c p n) m (fun _ m' => exists g', kept m g m' g');
  ao_closed : forall f c, connection_closed serv_fns = Some f -> call_ok c (f c);
  ao_destroyed : forall f c, connection_destroyed serv_fns = Some f -> quiet (f c);
}.
Context (App : AppOk).

Lemma kept_steady m g m' : inv m g -> steady m m' -> kept m g m' g.
Proof.
  intros Hi Hs. split_and!; [by eapply inv_steady|apply grows_refl| |apply Hs|apply Hs]. intros c x Hx.
  rewrite (st_conns _ _ Hs). eauto.
Qed.

Lemma quiet_call_ok {A} c (f : M A) : quiet f -> call_ok c f.
Proof. intros Hq m g Hi _ _. eapply wp_quiet; [done|]. intros. exists g. by apply kept_steady. Qed.

(** ** Facts about a live connection *)

Lemma live_service m g c x : inv m g -> conns m !! c = Some x -> exists s, svc m = Some s /\ ready s.
Proof.
  intros Hi Hx. pose proof (iv_svc _ _ _ Hi) as Hv. unfold svc_ok in Hv. destruct (svc m) as [s|].
  - destruct Hv. eauto.
  - destruct Hv as (He & _). by rewrite He in Hx.
Qed.

Lemma owned_live m g c : inv m g -> g_own g c = true -> exists x, conns m !! c = Some x.
Proof.
  intros Hi Ho. destruct (conns m !! c) eqn:Hx; [eauto|]. destruct (iv_none _ _ _ Hi c Hx). congruence.
Qed.

(** Closing or opening the transport keeps the invariant, with a connection
    that is fit for it. *)
Lemma inv_touches m m' g g' c x y z :
  inv m g -> conns m !! c = Some x -> agree_but c g g' -> touches c x y m m' ->
  (forall k, fresh m' <= k -> rings m' !! k = None) ->
  conn_ok funcs m' g' c z -> inv (put_conn m' c z) g'.
Proof.
  intros Hi Hx Ha [T1 T2 T3 T4 T5 T6 T7 T8 T9] Hf Hz.
  apply (inv_replace funcs m _ g g' c x z); try done.
  - unfold put_conn. cbn. by rewrite T6, insert_insert_eq.
  - by destruct Hz; constructor.
Qed.

Lemma touches_fresh m m' g c x y :
  inv m g -> touches c x y m m' -> fresh m' = fresh m -> forall k, fresh m' <= k -> rings m' !! k = None.
Proof.
  intros Hi [] Hf k Hk. apply to_new; [lia|]. apply (iv_fresh _ _ _ Hi). lia.
Qed.

(** ** Disconnecting *)

(** The connection [c] may have left the list; no authentication is touched. *)
Definition leaves (c : Z) (m m' : machine) : Prop :=
  (conn_list m' = conn_list m \/ conn_list m' = filter (fun d => d <> c) (conn_list m)) /\ auths m' = auths m.

Lemma unrefd_leaves c x m m' : unrefd c x m m' -> auths m' = auths m -> leaves c m m'.
Proof.
  unfold unrefd, leaves. intros Hu Ha. split; [|done]. destruct (_ =? 1); [right; apply Hu|left; by subst].
Qed.

Lemma leaves_from c m m1 m2 :
  conn_list m1 = conn_list m -> auths m1 = auths m -> leaves c m1 m2 -> leaves c m m2.
Proof. unfold leaves. intros -> ->. done. Qed.

Definition drop_own (g : ghost) (c : Z) : ghost := set_own g c false.

Lemma drop_own_spec m g c x :
  inv m g -> conns m !! c = Some x -> g_own g c = true ->
  c_state x = QB_IPCS_CONNECTION_INACTIVE \/ c_state x = QB_IPCS_CONNECTION_SHUTTING_DOWN ->
  wp (qb_ipcs_connection_unref funcs serv_fns (Some c)) m (fun _ m' =>
    inv m' (drop_own g c) /\ unrefd c x m m' /\ auths m' = auths m /\ fresh m' = fresh m).
Proof.
  intros Hi Hx Ho Hst. pose proof (iv_conns _ _ _ Hi c x Hx) as [].
  apply (unref_spec funcs serv_fns (ao_destroyed App) m g); try done.
  - apply agree_but_own.
  - unfold drop_own. rewrite total_own. unfold g_total. rewrite Ho. cbn. lia.
  - intros [H1|H1]; destruct Hst; congruence.
Qed.

Lemma drop_own_grows g c : grows_but (eq c) g (drop_own g c).
Proof.
  split; [done|]. intros d. split_and!; [|cbn; lia|by left]. intros Hd Hg. cbn. by rewrite fn_lookup_insert_ne.
Qed.

Lemma finish_disconnect_spec m g c x :
  inv m g -> conns m !! c = Some x -> g_own g c = true -> g_refs g c < MAX_REFS -> c_state x = QB_IPCS_CONNECTION_SHUTTING_DOWN ->
  wp (finish_disconnect funcs serv_fns c) m (fun _ m' =>
    exists g', inv m' g' /\ grows_but (eq c) g g' /\ leaves c m m').
Proof.
  intros Hi Hx Ho Hmax Hst. unfold finish_disconnect. wp_go. rewrite decide_True by done. apply wp_bind.
  apply wp_mono with (fun _ m' => exists g', kept m g m' g').
  { destruct (connection_closed serv_fns) eqn:Hc; [by eapply ao_closed|].
    apply wp_ret. exists g. by apply kept_steady, steady_refl. }
  intros res m1 (g1 & Hi1 & Hg1 & Hk1 & Hl1 & Ha1). destruct (Hk1 c x Hx) as (x1 & Hx1 & Hst1).
  destruct (live_service _ _ _ _ Hi1 Hx1) as (s & Hs & Hrd).
  assert (Ho1 : g_own g1 c = true) by (apply Hg1; auto). apply wp_bind.
  apply wp_mono with (fun _ m' => steady m1 m').
  { destruct (negb _); [|apply quiet_ret]. apply wp_bind.
    eapply wp_mono; [eapply poll_fn_spec; [done|apply Hrd]|]. intros r m2 H2. apply wp_ret. done. }
  intros retry m2 Hs2. assert (Hi2 : inv m2 g1) by (by eapply inv_steady).
  assert (Hx2 : conns m2 !! c = Some x1) by (by rewrite (st_conns _ _ Hs2)). wp_go.
  apply wp_quiet; [auto with ipc|]. intros _ m3 Hs3. assert (Hi3 : inv m3 g1) by (by eapply inv_steady).
  pose proof (st_list _ _ (steady_trans _ _ _ Hs2 Hs3)) as Hl3.
  pose proof (st_auths _ _ (steady_trans _ _ _ Hs2 Hs3)) as Ha3.
  destruct retry; cbn [negb].
  - apply wp_ret. exists g1. split_and!; [done|by apply grows_weaken|]. split; [left|]; congruence.
  - eapply wp_mono; [eapply drop_own_spec; [done|by rewrite (st_conns _ _ Hs3)|done|right; congruence]|].
    intros _ m4 (Hi4 & Hu & Ha4 & _). exists (drop_own g1 c). split_and!; [done| |].
    + eapply grows_trans; [by apply grows_weaken|apply drop_own_grows].
    + eapply leaves_from; [| |by eapply unrefd_leaves]; congruence.
Qed.

(** [disconnect] of the transport followed by a change of state. *)
Lemma transport_disconnect_spec m g c x st :
  inv m g -> conns m !! c = Some x ->
  (st = QB_IPCS_CONNECTION_INACTIVE \/
   c_state x = QB_IPCS_CONNECTION_ESTABLISHED /\ st = QB_IPCS_CONNECTION_SHUTTING_DOWN) ->
  wp (fs ← get_funcs funcs; _ ← fn_disconnect fs c; mod_conn c (fun x => set_c_state x st)) m (fun _ m' =>
    inv m' g /\ exists y, conns m' !! c = Some y /\ c_state y = st /\ conn_list m' = conn_list m /\
      auths m' = auths m).
Proof.
  intros Hi Hx Hst. destruct (live_service _ _ _ _ Hi Hx) as (s & Hs & Hrd).
  pose proof (iv_conns _ _ _ Hi c x Hx) as [A B C D F G H Z0]. pose proof Hrd as [[t Ht] Hfl].
  apply wp_bind. eapply get_funcs_spec; [done|done|]. apply wp_bind.
  eapply wp_mono; [eapply (tl_disconnect m c x s); done|]. intros _ m1 (y & Ht1 & Hfr & Hh & Hsz & Ho).
  assert (Hy : conns m1 !! c = Some y) by (rewrite (to_conns _ _ _ _ _ Ht1); apply lookup_insert_eq).
  wp_go. split; [|exists (set_c_state y st); split_and!;
    [apply put_conn_lookup|done|apply (to_list _ _ _ _ _ Ht1)|apply (to_auths _ _ _ _ _ Ht1)]].
  pose proof (to_core _ _ _ _ _ Ht1) as Hc. unfold core in Hc. injection Hc as E1 E2 E3 E4.
  eapply (inv_touches m m1 g g c x y); try done; [by eapply touches_fresh|].
  constructor; cbn [set_c_state c_refcount c_state c_outstanding_notifiers c_receive_buf];
    rewrite ?E2, ?E3, ?E4; try done.
  - intros [H1|H1]; destruct Hst as [|[_ ?]]; congruence.
  - intros Hne. destruct Hst as [|[Hst ->]]; [done|]. destruct F as [Hin Hop]; [congruence|].
    split; [by rewrite (to_list _ _ _ _ _ Ht1)|]. unfold opened in *. rewrite (to_svc _ _ _ _ _ Ht1), Hs, Ht in *.
    eapply tl_open_core; [|by apply Ho]. by intros [].
  - eapply (same_sizes_ok x); [|done]. intros o. rewrite <- (Hsz o). by destruct o.
Qed.

(** The library's reference to [c] may be gone; the others keep theirs. *)
Lemma disconnect_spec m g c x :
  inv m g -> conns m !! c = Some x -> g_own g c = true -> g_refs g c < MAX_REFS ->
  wp (qb_ipcs_disconnect funcs serv_fns (Some c)) m (fun _ m' =>
    exists g', inv m' g' /\ grows_but (eq c) g g' /\ leaves c m m').
Proof.
  intros Hi Hx Ho Hmax. unfold qb_ipcs_disconnect. wp_go. destruct (decide _) as [Ha|Ha].
  - apply wp_prefix. eapply wp_mono; [apply (transport_disconnect_spec m g c x _ Hi Hx); by left|].
    intros _ m1 (Hi1 & y & Hy & Hst & Hl1 & Ha1). destruct (live_service _ _ _ _ Hi1 Hy) as (s & Hs & Hrd).
    unfold mod_service_stats. wp_go.
    eapply wp_mono; [eapply (drop_own_spec _ g c y); [by eapply inv_service|done|done|by left]|].
    intros _ m2 (Hi2 & Hu & Ha2 & _). exists (drop_own g c). split_and!; [done|apply drop_own_grows|].
    eapply leaves_from; [| |by eapply unrefd_leaves]; done.
  - destruct (decide (c_state x = QB_IPCS_CONNECTION_ESTABLISHED)) as [He|He].
    + apply wp_bind, wp_prefix.
      eapply wp_mono; [apply (transport_disconnect_spec m g c x _ Hi Hx); by right|].
      intros _ m1 (Hi1 & y & Hy & Hst & Hl1 & Ha1). destruct (live_service _ _ _ _ Hi1 Hy) as (s & Hs & Hrd).
      unfold mod_service_stats. wp_go.
      eapply wp_mono; [eapply finish_disconnect_spec; [by eapply inv_service|done|done|done|done]|].
      intros _ m2 (g2 & Hi2 & Hg2 & Hl2). exists g2. split_and!; [done|done|]. eapply leaves_from; [| |done]; done.
    + apply wp_bind, wp_ret. destruct (decide (c_state x = QB_IPCS_CONNECTION_SHUTTING_DOWN)) as [Hd|Hd].
      * by eapply finish_disconnect_spec.
      * unfold finish_disconnect. wp_go. rewrite decide_False by done. apply wp_ret.
        exists g. split_and!; [done|apply grows_refl|]. by split; [left|].
Qed.

(** ** Computations that keep the references *)

Lemma kept_trans m1 g1 m2 g2 m3 g3 : kept m1 g1 m2 g2 -> kept m2 g2 m3 g3 -> kept m1 g1 m3 g3.
Proof.
  intros (_ & A2 & A3 & A4 & A5) (B1 & B2 & B3 & B4 & B5).
  split_and!; [done|by eapply grows_trans| |congruence|congruence].
  intros c x Hx. destruct (A3 c x Hx) as (y & Hy & Hs). destruct (B3 c y Hy) as (z & Hz & Hs').
  exists z. split; [done|congruence].
Qed.

Ltac ktrans := cbv beta in *; eapply kept_trans; eassumption.

(** Run while [c] lives, [f] keeps everybody's references. *)
Definition keeps {A} (c : Z) (f : M A) : Prop :=
  forall m g x, inv m g -> conns m !! c = Some x -> wp f m (fun _ m' => kept m g m' g).

Lemma keeps_quiet {A} c (f : M A) : quiet f -> keeps c f.
Proof. intros Hq m g x Hi _. eapply wp_quiet; [done|]. intros. by apply kept_steady. Qed.

Lemma keeps_bind {A B} c (f : M A) (k : A -> M B) : keeps c f -> (forall a, keeps c (k a)) -> keeps c (f ≫= k).
Proof.
  intros Hf Hk m g x Hi Hx. apply wp_bind. eapply wp_mono; [by eapply Hf|]. intros a m1 H1.
  pose proof H1 as (Hi1 & _ & H3 & _). destruct (H3 c x Hx) as (y & Hy & _).
  eapply wp_mono; [by eapply Hk|]. intros b m2 H2. ktrans.
Qed.

(** The next step reads the connection, or the service with its functions. *)
Lemma keeps_conn {A} c (k : qb_ipcs_connection -> M A) :
  (forall m g x, inv m g -> conns m !! c = Some x -> wp (k x) m (fun _ m' => kept m g m' g)) ->
  keeps c (x ← get_conn c; k x).
Proof. intros Hk m g x Hi Hx. wp_go. by apply Hk. Qed.

Lemma keeps_service {A} c (k : qb_ipcs_service -> M A) : (forall s, keeps c (k s)) -> keeps c (s ← get_service; k s).
Proof.
  intros Hk m g x Hi Hx. destruct (live_service _ _ _ _ Hi Hx) as (s & Hs & _). wp_go. by eapply Hk.
Qed.

Lemma keeps_funcs {A} c (k : qb_ipcs_funcs -> M A) :
  (forall t, keeps c (k (funcs t))) -> keeps c (fs ← get_funcs funcs; k fs).
Proof.
  intros Hk m g x Hi Hx. destruct (live_service _ _ _ _ Hi Hx) as (s & Hs & [[t Ht] _]). apply wp_bind.
  eapply get_funcs_spec; [done..|]. by eapply Hk.
Qed.

Lemma keeps_mod c f :
  (forall x, core (f x) = core x) -> (forall x o, c_ow (f x) o = c_ow x o) -> keeps c (mod_conn c f).
Proof.
  intros Hc Ho m g x Hi Hx. wp_go. split_and!; [|apply grows_refl| |done|done].
  - eapply inv_update; [done|done|apply agree_but_refl|]. eapply conn_ok_same; [by eapply iv_conns|done|done].
  - intros d z Hz. unfold put_conn. cbn. destruct (decide (d = c)) as [->|].
    + rewrite lookup_insert_eq. assert (z = x) as -> by congruence. exists (f x). split; [done|].
      specialize (Hc x). unfold core in Hc. by injection Hc.
    + rewrite lookup_insert_ne by done. eauto.
Qed.

Lemma keeps_stats c f : keeps c (mod_stats c f).
Proof. apply keeps_mod; [done|]. by intros x []. Qed.

Lemma keeps_modify_dispatch c : keeps c (_modify_dispatch_descriptor_ c).
Proof.
  apply keeps_service. intros s. apply keeps_conn. intros m g x Hi Hx.
  destruct (live_service _ _ _ _ Hi Hx) as (s' & Hs & Hrd).
  eapply wp_mono; [eapply poll_fn_spec; [done|apply Hrd]|]. intros. by apply kept_steady.
Qed.

Lemma keeps_ready_or c ow res : keeps c (ready_or c ow res).
Proof.
  destruct ow as [o|]; [|by apply keeps_quiet, quiet_ret]. apply keeps_conn. intros m g x Hi Hx.
  eapply wp_mono; [eapply (keeps_quiet c); [quiet_go|done..]|]. done.
Qed.

Lemma keeps_response_sock c : keeps c (_response_sock_one_way_get c).
Proof.
  apply keeps_service. intros s. apply keeps_conn. intros m g x Hi Hx.
  eapply (keeps_quiet c); [quiet_go|done..].
Qed.
Lemma keeps_event_sock c : keeps c (_event_sock_one_way_get c).
Proof.
  apply keeps_service. intros s. apply keeps_conn. intros m g x Hi Hx.
  eapply (keeps_quiet c); [quiet_go|done..].
Qed.
#[local] Hint Resolve keeps_stats keeps_modify_dispatch keeps_ready_or keeps_response_sock keeps_event_sock : ipc.

Ltac keeps_go :=
  repeat first
    [ progress auto with ipc
    | apply keeps_quiet; solve [auto with ipc]
    | apply keeps_funcs; intros
    | apply keeps_service; intros
    | apply keeps_bind; [|intros]
    | case_match ].

(** ** Responses *)

(** A body that runs with a reference of its own to [c]. *)
Lemma with_ref {A} c (body : M A) m g x :
  inv m g -> conns m !! c = Some x -> g_refs g c < MAX_REFS ->
  (forall m1, inv m1 (set_refs g c (g_refs g c + 1)) ->
     conns m1 = <[c := set_c_refcount x (c_refcount x + 1)]> (conns m) ->
     wp body m1 (fun _ m2 => kept m1 (set_refs g c (g_refs g c + 1)) m2 (set_refs g c (g_refs g c + 1)))) ->
  wp (_ ← qb_ipcs_connection_ref (Some c); r ← body;
      _ ← qb_ipcs_connection_unref funcs serv_fns (Some c); mret r) m (fun _ m' => kept m g m' g).
Proof.
  intros Hi Hx Hr Hbody. apply wp_bind. eapply wp_mono; [by eapply ref_spec|]. intros _ m1 [-> Hi1].
  apply wp_bind. eapply wp_mono; [by eapply Hbody|]. intros r m2 (Hi2 & _ & Hk2 & Hl2 & Ha2).
  destruct (Hk2 c _ (put_conn_lookup m c _)) as (y & Hy & Hst). cbn in Hst.
  pose proof (iv_conns _ _ _ Hi2 c y Hy) as [A2 B2 C2 D2 _ _ _ _].
  pose proof (iv_conns _ _ _ Hi c x Hx) as [A1 B1 C1 D1 _ _ _ _].
  rewrite total_refs in A2. unfold g_total in A1.
  assert (Hay : agree_but c (set_refs g c (g_refs g c + 1)) g).
  { split; [done|]. intros d Hd. cbn. by rewrite fn_lookup_insert_ne. }
  apply wp_bind. eapply wp_mono; [eapply (unref_spec funcs serv_fns (ao_destroyed App) m2 _ g c y); try done|].
  - rewrite total_refs. unfold g_total. lia.
  - intros Hs _. apply D1. by rewrite <- Hst.
  - intros _ m3 (Hi3 & Hu & _). apply wp_ret.
    unfold unrefd in Hu. destruct (Z.eqb_spec (c_refcount y) 1); [lia|]. subst m3.
    split_and!; [done|apply grows_refl| |done|done].
    intros d z Hz. unfold put_conn. cbn. destruct (decide (d = c)) as [->|Hd].
    + rewrite lookup_insert_eq. eexists. split; [done|]. cbn. congruence.
    + rewrite lookup_insert_ne by done. apply Hk2. unfold put_conn. cbn. by rewrite lookup_insert_ne.
Qed.

Lemma keeps_response_sent c res sent : keeps c (response_sent c res sent).
Proof. unfold response_sent. keeps_go. Qed.

(** A message is handed to the transport, then [k] runs. *)
Lemma keeps_send {A} c o data (k : Z -> M A) :
  (forall res, keeps c (k res)) -> keeps c (fs ← get_funcs funcs; x ← get_conn c; res ← fn_send fs (c_ow x o) data; k res).
Proof.
  intros Hk. apply keeps_funcs. intros t. apply keeps_conn. intros m g x Hi Hx. apply wp_bind.
  eapply wp_mono; [eapply tl_send, (co_handles _ _ _ _ _ (iv_conns _ _ _ Hi _ _ Hx))|]. intros res m1 H1. cbv beta in H1.
  eapply wp_mono; [eapply (Hk res m1 g x); [by eapply inv_steady|by rewrite (st_conns _ _ H1)]|].
  intros a m2 H2. eapply kept_trans; [by apply kept_steady|done].
Qed.
Lemma keeps_sendv {A} c o iov (k : Z -> M A) :
  (forall res, keeps c (k res)) -> keeps c (fs ← get_funcs funcs; x ← get_conn c; res ← fn_sendv fs (c_ow x o) iov; k res).
Proof.
  intros Hk. apply keeps_funcs. intros t. apply keeps_conn. intros m g x Hi Hx. apply wp_bind.
  eapply wp_mono; [eapply tl_sendv, (co_handles _ _ _ _ _ (iv_conns _ _ _ Hi _ _ Hx))|]. intros res m1 H1. cbv beta in H1.
  eapply wp_mono; [eapply (Hk res m1 g x); [by eapply inv_steady|by rewrite (st_conns _ _ H1)]|].
  intros a m2 H2. eapply kept_trans; [by apply kept_steady|done].
Qed.

Lemma response_send_spec m g c x data :
  inv m g -> conns m !! c = Some x -> g_refs g c < MAX_REFS ->
  wp (qb_ipcs_response_send funcs serv_fns (Some c) data) m (fun _ m' => kept m g m' g).
Proof.
  intros Hi Hx Hr. eapply (with_ref c); [done..|]. intros m1 Hi1 Hc1.
  eapply (keeps_send c Ow_response); [intros; apply keeps_response_sent|done|rewrite Hc1; apply lookup_insert_eq].
Qed.

Lemma response_sendv_spec m g c x iov :
  inv m g -> conns m !! c = Some x -> g_refs g c < MAX_REFS ->
  wp (qb_ipcs_response_sendv funcs serv_fns (Some c) iov) m (fun _ m' => kept m g m' g).
Proof.
  intros Hi Hx Hr. eapply (with_ref c); [done..|]. intros m1 Hi1 Hc1.
  eapply (keeps_sendv c Ow_response); [intros; apply keeps_response_sent|done|rewrite Hc1; apply lookup_insert_eq].
Qed.

(** ** Events *)

(** One more notification can be outstanding. *)
Definition room_for_event (x : qb_ipcs_connection) : Prop :=
  exists b, c_receive_buf x = Some b /\ c_outstanding_notifiers x < zlen b < 2 ^ 31.

Lemma keeps_notifiers m g c x y :
  inv m g -> conns m !! c = Some x ->
  (c_state y, c_refcount y, c_receive_buf y) = (c_state x, c_refcount x, c_receive_buf x) ->
  (forall o, c_ow y o = c_ow x o) ->
  (0 <= c_outstanding_notifiers y /\ (0 < c_outstanding_notifiers y ->
     exists b, c_receive_buf x = Some b /\ c_outstanding_notifiers y <= zlen b)) ->
  kept m g (put_conn m c y) g.
Proof.
  intros Hi Hx Hc Ho Hn. injection Hc as E1 E2 E3. pose proof (iv_conns _ _ _ Hi c x Hx) as [A B C D F G H Z0].
  split_and!; [|apply grows_refl| |done|done].
  - eapply inv_update; [done|done|apply agree_but_refl|]. constructor; rewrite ?E1, ?E2, ?E3; try done.
    + intros Hs. destruct (F Hs). split; [done|]. by eapply opened_same.
    + intros o h. rewrite Ho. apply G.
    + intros o. rewrite Ho. apply Z0.
  - intros d z Hz. unfold put_conn. cbn. destruct (decide (d = c)) as [->|].
    + rewrite lookup_insert_eq. assert (z = x) as -> by congruence. eauto.
    + rewrite lookup_insert_ne by done. eauto.
Qed.

Lemma keeps_kept {A} c (f : M A) m g m1 g1 x (Q : A -> machine -> Prop) :
  keeps c f -> kept m g m1 g1 -> conns m1 !! c = Some x ->
  (forall a m2, kept m g m2 g1 -> Q a m2) -> wp f m1 Q.
Proof.
  intros Hf H1 Hx HQ. eapply wp_mono; [eapply Hf; [apply H1|done]|]. intros a m2 H2. apply HQ. ktrans.
Qed.

Lemma kept_live m g m' g' c x : kept m g m' g' -> conns m !! c = Some x -> exists y, conns m' !! c = Some y.
Proof. intros (_ & _ & H & _) Hx. destruct (H c x Hx) as (y & Hy & _). eauto. Qed.

(** The end of [resend_event_notifications]. *)
Lemma resend_tail m g m1 c x (res : Z) :
  kept m g m1 g -> conns m1 !! c = Some x ->
  wp (x ← get_conn c;
      if negb (0 <=? c_outstanding_notifiers x) then fail F_assert
      else
        _ ← (if c_outstanding_notifiers x =? 0 then
               _ ← mod_conn c (fun x => set_c_poll_events x EVENTS_IN);
               _ ← _modify_dispatch_descriptor_ c; mret tt
             else mret tt);
        mret res) m1 (fun _ m' => kept m g m' g).
Proof.
  intros Hk Hx. wp_go. pose proof (iv_conns _ _ _ (proj1 Hk) c x Hx) as [_ _ _ _ _ _ [H0 _] _].
  destruct (Z.leb_spec 0 (c_outstanding_notifiers x)); [|lia]. cbn [negb]. wp_go.
  destruct (_ =? 0); [|by wp_go].
  eapply (keeps_kept c); [|done|done|]; [|intros [] m2 H2; by wp_go].
  assert (keeps c (mod_conn c (fun x => set_c_poll_events x EVENTS_IN))) by (apply keeps_mod; [done|by intros ? []]).
  keeps_go.
Qed.

Lemma resend_spec m g c x :
  inv m g -> conns m !! c = Some x ->
  wp (resend_event_notifications fuel c) m (fun _ m' => kept m g m' g).
Proof.
  intros Hi Hx. destruct (live_service _ _ _ _ Hi Hx) as (s & Hs & Hrd).
  pose proof (iv_conns _ _ _ Hi c x Hx) as [_ _ _ _ _ _ [H0 Hb] _].
  unfold resend_event_notifications. wp_go. destruct (negb _); [by apply wp_ret, kept_steady, steady_refl|].
  wp_go. destruct (Z.ltb_spec 0 (c_outstanding_notifiers x)) as [Hp|Hp].
  - destruct (Hb Hp) as (b & Hbuf & Hlen). unfold read_mem. wp_go. rewrite Hbuf.
    destruct (Z.leb_spec (0 + c_outstanding_notifiers x) (zlen b)); [|lia]. wp_go.
    eapply wp_mono; [apply us_send_result|]. intros res m1 [S1 Hres].
    assert (Hx1 : conns m1 !! c = Some x) by (by rewrite (st_conns _ _ S1)).
    pose proof (kept_steady _ _ _ Hi S1) as K1. apply wp_bind. destruct (Z.ltb_spec 0 res).
    + assert (res = c_outstanding_notifiers x) as ->.
      { destruct Hres as [|Hres]; [lia|]. rewrite Hres. unfold zlen in *.
        rewrite length_take, length_drop. cbn. lia. }
      wp_first. eapply resend_tail; [|apply put_conn_lookup]. eapply kept_trans; [exact K1|].
      eapply (keeps_notifiers m1 g c x); [apply K1|done|done|by intros []|].
      cbn. rewrite Z.sub_diag. split; [done|]. intros Hc. by compute in Hc.
    + wp_first. by eapply resend_tail.
  - wp_go. rewrite Z.ltb_irrefl. wp_first. eapply resend_tail; [|done]. by apply kept_steady, steady_refl.
Qed.

Lemma new_event_spec m g c x :
  inv m g -> conns m !! c = Some x -> room_for_event x ->
  wp (new_event_notification fuel c) m (fun _ m' => kept m g m' g).
Proof.
  intros Hi Hx (b & Hbuf & Hroom). destruct (live_service _ _ _ _ Hi Hx) as (s & Hs & Hrd).
  pose proof (iv_conns _ _ _ Hi c x Hx) as [_ _ _ _ _ _ [H0 _] _].
  assert (Hmore : forall m1 y, inv m1 g -> conns m1 !! c = Some x ->
    (c_state y, c_refcount y, c_receive_buf y) = (c_state x, c_refcount x, c_receive_buf x) ->
    (forall o, c_ow y o = c_ow x o) -> c_outstanding_notifiers y = c_outstanding_notifiers x + 1 ->
    kept m1 g (put_conn m1 c y) g).
  { intros m1 y Hi1 Hx1 Hc Ho Hn. apply (keeps_notifiers m1 g c x); try done. rewrite Hn. split; [lia|].
    intros _. exists b. split; [done|lia]. }
  unfold new_event_notification. wp_go. destruct (negb _); [by apply wp_ret, kept_steady, steady_refl|].
  wp_go. destruct (Z.leb_spec 0 (c_outstanding_notifiers x)); [|lia]. cbn [negb].
  assert (Hi32 : i32 (c_outstanding_notifiers x + 1) = c_outstanding_notifiers x + 1) by (apply i32_small; lia).
  destruct (Z.ltb_spec 0 (c_outstanding_notifiers x)).
  - apply wp_bind. wp_first. rewrite Hi32.
    assert (K : kept m g (put_conn m c (set_c_outstanding_notifiers x (c_outstanding_notifiers x + 1))) g)
      by (by apply Hmore; try by intros []).
    eapply wp_mono; [eapply resend_spec; [apply K|apply put_conn_lookup]|]. intros r m2 K2. ktrans.
  - apply wp_bind. apply wp_quiet; [auto with ipc|]. intros res m1 S1.
    assert (Hx1 : conns m1 !! c = Some x) by (by rewrite (st_conns _ _ S1)).
    pose proof (kept_steady _ _ _ Hi S1) as K1. apply wp_bind. destruct (res =? _); [|by wp_go].
    apply wp_bind. wp_first. rewrite Hi32. set (y := set_c_poll_events _ _).
    assert (K : kept m g (put_conn m1 c y) g).
    { eapply kept_trans; [exact K1|]. apply Hmore; [apply K1|done|done|by intros []|done]. }
    apply wp_bind. eapply (keeps_kept c); [apply keeps_modify_dispatch|exact K|apply put_conn_lookup|].
    intros ? m3 K3. by wp_go.
Qed.

Lemma event_sent_spec m g c x res sent ignored :
  inv m g -> conns m !! c = Some x -> room_for_event x ->
  wp (event_sent fuel c res sent ignored) m (fun _ m' => kept m g m' g).
Proof.
  intros Hi Hx Hroom. unfold event_sent. destruct sent.
  - apply wp_bind. unfold mod_stats. wp_first. set (y := set_c_stats _ _).
    assert (K : kept m g (put_conn m c y) g).
    { apply (keeps_notifiers m g c x); [done|done|done|by intros []|]. apply (iv_conns _ _ _ Hi c x Hx). }
    apply wp_bind. eapply wp_mono; [eapply new_event_spec; [apply K|apply put_conn_lookup|done]|].
    intros r m2 K2. apply wp_ret. ktrans.
  - destruct (try_later res); [|by apply wp_ret, kept_steady, steady_refl]. apply wp_bind.
    eapply (keeps_kept c); [apply keeps_event_sock|apply kept_steady, steady_refl; exact Hi|done|].
    intros ow m1 K1. destruct (kept_live _ _ _ _ _ _ K1 Hx) as (x1 & Hx1). wp_go.
    apply wp_mono with (fun _ m' => kept m g m' g).
    { destruct (0 <? _); [|by wp_go]. apply wp_bind.
      eapply wp_mono; [eapply resend_spec; [apply K1|done]|]. intros ? m2 K2. wp_go. ktrans. }
    intros _ m2 K2. destruct (kept_live _ _ _ _ _ _ K2 Hx) as (x2 & Hx2).
    eapply (keeps_kept c); [|exact K2|done|auto]. keeps_go.
Qed.

(** The message is sent with a reference held, and then announced. *)
Lemma event_send_spec m g c x data :
  inv m g -> conns m !! c = Some x -> g_refs g c < MAX_REFS -> room_for_event x ->
  wp (qb_ipcs_event_send fuel funcs serv_fns (Some c) data) m (fun _ m' => kept m g m' g).
Proof.
  intros Hi Hx Hr Hroom. unfold qb_ipcs_event_send. wp_go.
  destruct (_ <? _); [by apply wp_ret, kept_steady, steady_refl|].
  eapply (with_ref c); [done..|]. intros m1 Hi1 Hc1.
  assert (Hx1 : conns m1 !! c = Some (set_c_refcount x (c_refcount x + 1))) by (rewrite Hc1; apply lookup_insert_eq).
  destruct (live_service _ _ _ _ Hi1 Hx1) as (s & Hs & [[t Ht] _]).
  apply wp_bind. eapply get_funcs_spec; [done..|]. wp_go.
  eapply wp_mono; [eapply (tl_send m1 _ Ow_event), (co_handles _ _ _ _ _ (iv_conns _ _ _ Hi1 _ _ Hx1))|].
  intros res m2 S2. cbv beta in S2.
  eapply wp_mono; [eapply (event_sent_spec m2); [by eapply inv_steady|by rewrite (st_conns _ _ S2)|done]|].
  intros r m3 K3. eapply kept_trans; [by apply kept_steady|done].
Qed.

Lemma event_sendv_spec m g c x iov :
  inv m g -> conns m !! c = Some x -> g_refs g c < MAX_REFS -> room_for_event x ->
  wp (qb_ipcs_event_sendv fuel funcs serv_fns (Some c) iov) m (fun _ m' => kept m g m' g).
Proof.
  intros Hi Hx Hr Hroom. unfold qb_ipcs_event_sendv. eapply (with_ref c); [done..|]. intros m1 Hi1 Hc1.
  assert (Hx1 : conns m1 !! c = Some (set_c_refcount x (c_refcount x + 1))) by (rewrite Hc1; apply lookup_insert_eq).
  destruct (live_service _ _ _ _ Hi1 Hx1) as (s & Hs & [[t Ht] _]).
  apply wp_bind. eapply get_funcs_spec; [done..|]. wp_go.
  eapply wp_mono; [eapply (tl_sendv m1 _ Ow_event), (co_handles _ _ _ _ _ (iv_conns _ _ _ Hi1 _ _ Hx1))|].
  intros res m2 S2. cbv beta in S2.
  eapply wp_mono; [eapply (event_sent_spec m2); [by eapply inv_steady|by rewrite (st_conns _ _ S2)|done]|].
  intros r m3 K3. eapply kept_trans; [by apply kept_steady|done].
Qed.

(** ** Requests *)

Lemma kept_below m g m' g' c : kept m g m' g' -> g_refs g c < MAX_REFS -> g_refs g' c < MAX_REFS.
Proof. intros K. eapply grows_below; [apply K|done]. Qed.

Lemma keeps_call_ok {A} c (f : M A) : keeps c f -> call_ok c f.
Proof.
  intros Hf m g Hi Ho _. destruct (owned_live _ _ _ Hi Ho) as (x & Hx).
  eapply wp_mono; [by eapply Hf|]. intros a m1 K. by exists g.
Qed.

Lemma call_ok_bind {A B} c (f : M A) (k : A -> M B) : call_ok c f -> (forall a, call_ok c (k a)) -> call_ok c (f ≫= k).
Proof.
  intros Hf Hk m g Hi Ho Hmax. apply wp_bind. eapply wp_mono; [by apply Hf|]. intros a m1 (g1 & K1).
  eapply wp_mono; [apply Hk; [apply K1|by apply K1; auto|by eapply kept_below]|]. intros b m2 (g2 & K2). exists g2. ktrans.
Qed.

Lemma read_header p at_ n m :
  readable p n m -> 0 <= at_ -> at_ + 4 <= n -> wp (read_i32 p at_) m (fun _ m' => m' = m).
Proof.
  intros Hr H0 Hn. unfold read_i32. apply wp_bind. eapply wp_mono; [by apply Hr|]. intros bs ? ->. by apply wp_ret.
Qed.

(** Counting does not move messages. *)
Lemma read_stats c x m p at_ len t :
  conns m !! c = Some x -> wp (read_mem p at_ len) m (fun _ m' => m' = m) ->
  let m1 := put_conn m c (set_c_stats x t) in wp (read_mem p at_ len) m1 (fun _ m' => m' = m1).
Proof.
  intros Hx. unfold read_mem, wp, mbind, M_bind. destruct p as [h off|d].
  - unfold get_ring. cbn [rings put_conn set_conns]. destruct (rings m !! rh_id h) as [r|]; [|done]. by destruct (_ <=? _).
  - unfold get_conn. cbn [conns put_conn set_conns]. destruct (decide (d = c)) as [->|Hd].
    + rewrite lookup_insert_eq, Hx. cbn [c_receive_buf set_c_stats]. by destruct (c_receive_buf x) as [b|]; [destruct (_ <=? _)|].
    + rewrite lookup_insert_ne by done. destruct (conns m !! d) as [z|]; [|done].
      by destruct (c_receive_buf z) as [b|]; [destruct (_ <=? _)|].
Qed.

Lemma process_request_ok c t : call_ok c (_process_request_ funcs serv_fns c t).
Proof.
  intros m g Hi Ho Hmax. destruct (owned_live _ _ _ Hi Ho) as (x & Hx).
  destruct (live_service _ _ _ _ Hi Hx) as (s & Hs & [[tr Htr] _]).
  pose proof (co_handles _ _ _ _ _ (iv_conns _ _ _ Hi _ _ Hx)) as Hh.
  destruct (tl_peeks (fs := funcs tr)) as ((pk & rc) & Hpk).
  unfold _process_request_, receive_request. do 2 apply wp_bind. eapply get_funcs_spec; [done..|]. wp_go. rewrite Hpk.
  eapply wp_mono; [by eapply tl_peek|]. intros [size hdr] m1 [S1 Hread]. cbn [fst snd] in Hread.
  pose proof (inv_steady _ _ _ _ S1 Hi) as Hi1.
  assert (K1 : exists g', kept m g m1 g') by (exists g; by apply kept_steady).
  assert (Hafter : forall A (f : M A), call_ok c f -> wp f m1 (fun _ m' => exists g', kept m g m' g')).
  { intros A f Hf. eapply wp_mono; [by apply Hf|]. intros a m2 (g2 & K2). exists g2.
    eapply kept_trans; [by apply kept_steady|done]. }
  destruct (Z.ltb_spec size 0).
  { apply Hafter, call_ok_bind; [|intros; apply keeps_call_ok; keeps_go]. apply keeps_call_ok. keeps_go. }
  destruct (Z.eqb_spec size 0); [by apply wp_ret|]. destruct (Hread ltac:(lia)) as (p & -> & Hrd).
  apply wp_bind. eapply wp_mono; [by apply (read_header _ 0 _ _ Hrd); unfold msg_room; lia|]. intros id ? ->.
  destruct (_ =? _); [by apply wp_ret|].
  apply wp_bind. eapply wp_mono; [by apply (read_header _ 8 _ _ Hrd); unfold msg_room; lia|]. intros hs ? ->.
  assert (Hx1 : conns m1 !! c = Some x) by (by rewrite (st_conns _ _ S1)).
  apply wp_bind. wp_first. destruct (_ || _) eqn:Hhs; [by apply wp_ret|]. apply orb_false_iff in Hhs as [Hh1 Hh2].
  apply Z.leb_gt in Hh1. apply Z.ltb_ge in Hh2.
  apply wp_bind. unfold mod_stats. wp_first. set (m2 := put_conn m1 c _).
  assert (K2 : kept m g m2 g).
  { eapply kept_trans; [by apply kept_steady|]. apply (keeps_notifiers m1 g c x); [done|done|done|by intros []|].
    apply (iv_conns _ _ _ Hi1 c x Hx1). }
  apply wp_bind. eapply wp_mono; [apply (ao_process App); [apply K2|done|done|lia|]|].
  { intros at_ len Hat Hlen. apply (read_stats c x m1 p at_ len _ Hx1). apply Hrd; [done|]. unfold msg_room. lia. }
  intros res m3 (g3 & K3). assert (Ho3 : g_own g3 c = true) by (by apply K3; auto).
  destruct (owned_live _ _ _ (proj1 K3) Ho3) as (x3 & Hx3).
  eapply (keeps_kept c); [|eapply kept_trans; [exact K2|exact K3]|done|eauto].
  apply keeps_funcs. intros tr'. apply keeps_conn. intros m4 g4 y Hi4 Hy.
  destruct (tl_peeks (fs := funcs tr')) as ((pk' & rc') & Hpk'). rewrite Hpk'. apply wp_bind.
  eapply wp_mono; [eapply tl_reclaim; [|done]; apply (co_handles _ _ _ _ _ (iv_conns _ _ _ Hi4 _ _ Hy))|].
  intros [] m5 S5. apply wp_ret. by apply kept_steady.
Qed.

(** At most [MAX_RECV_MSGS] messages are taken. *)
Lemma request_loop_ok n c : forall avail recvd m g,
  inv m g -> g_own g c = true -> g_refs g c < MAX_REFS -> 0 <= recvd -> recvd + Z.max 1 avail <= MAX_RECV_MSGS ->
  wp (request_loop funcs serv_fns n c avail recvd) m (fun r m' => (exists g', kept m g m' g') /\
    match r with inr (_, k) => k <= MAX_RECV_MSGS | inl _ => True end).
Proof.
  unfold MAX_RECV_MSGS.
  induction n as [|n IH]; intros avail recvd m g Hi Ho Hlim Hr Hmax; cbn [request_loop]; [apply wp_loop|].
  apply wp_bind. eapply wp_mono; [by apply process_request_ok|]. intros res m1 (g1 & K1).
  assert (Ho1 : g_own g1 c = true) by (by apply K1; auto).
  destruct (_ =? _); [by apply wp_ret; eauto|].
  destruct (owned_live _ _ _ (proj1 K1) Ho1) as (x1 & Hx1). apply wp_bind. wp_first.
  match goal with |- context [request_loop _ _ n c ?a ?r] => set (avail1 := a); set (recvd1 := r) end.
  assert (Hr1 : recvd <= recvd1 <= recvd + 1) by (unfold recvd1; case_match; [rewrite i32_small by lia|]; lia).
  destruct (Z.ltb_spec 0 avail1); cbn [andb]; [|apply wp_ret; split; [eauto|lia]].
  destruct (Z.ltb_spec 0 res); cbn [andb]; [|apply wp_ret; split; [eauto|lia]].
  destruct (_ =? 0); [|apply wp_ret; split; [eauto|lia]].
  eapply wp_mono; [eapply IH; [apply K1|done|by eapply kept_below|lia|unfold avail1 in *; lia]|].
  intros r m2 [(g2 & K2) Hk]. split; [|done]. exists g2. ktrans.
Qed.

Lemma q_len_spec m g c x :
  inv m g -> conns m !! c = Some x ->
  wp (_request_q_len_get funcs c) m (fun avail m' => steady m m' /\ avail <= MAX_RECV_MSGS).
Proof.
  intros Hi Hx. destruct (live_service _ _ _ _ Hi Hx) as (s & Hs & [[t Ht] _]).
  unfold _request_q_len_get. apply wp_bind. eapply get_funcs_spec; [done..|]. wp_go. unfold MAX_RECV_MSGS.
  destruct (fn_q_len_get (funcs t)) as [f|] eqn:Hf; [|apply wp_ret; split; [apply steady_refl|lia]].
  apply wp_bind. eapply wp_mono; [eapply (tl_q_len m x Ow_request); [|done];
    apply (co_handles _ _ _ _ _ (iv_conns _ _ _ Hi _ _ Hx))|].
  intros q m1 S1. cbv beta in S1. rewrite !QB_MIN_min.
  repeat case_match; apply wp_ret; (split; [done|]); lia || (apply Z.leb_le in H; lia).
Qed.

Lemma dispatch_requests_ok m g c avail :
  inv m g -> g_own g c = true -> g_refs g c < MAX_REFS -> avail <= MAX_RECV_MSGS ->
  wp (dispatch_requests fuel funcs serv_fns c avail) m (fun _ m' => exists g', kept m g m' g').
Proof.
  intros Hi Ho Hlim Ha. unfold dispatch_requests. apply wp_bind.
  eapply wp_mono; [eapply (request_loop_ok _ c avail 0); [done|done|done|lia|unfold MAX_RECV_MSGS in *; lia]|].
  intros r m1 [(g1 & K1) Hk]. destruct r as [[]|[res recvd]]; [by apply wp_ret; eauto|].
  assert (Ho1 : g_own g1 c = true) by (by apply K1; auto).
  destruct (owned_live _ _ _ (proj1 K1) Ho1) as (x1 & Hx1).
  eapply (keeps_kept c); [|exact K1|done|eauto]. apply keeps_service. intros s. apply keeps_bind.
  - destruct (_ && _); [|by apply keeps_quiet, quiet_ret]. destruct (Z.ltb_spec MAX_RECV_MSGS recvd); [lia|].
    apply keeps_conn. intros m2 g2 x2 Hi2 Hx2. eapply (keeps_quiet c); [quiet_go|done..].
  - intros gone. destruct gone; by apply keeps_quiet, quiet_ret.
Qed.

Lemma dispatch_result_ok c revents : call_ok c (dispatch_result fuel funcs serv_fns c revents).
Proof.
  unfold dispatch_result. destruct (has_flag _ POLLNVAL); [by apply quiet_call_ok, quiet_ret|].
  destruct (has_flag _ POLLHUP); [by apply quiet_call_ok, quiet_ret|]. apply call_ok_bind.
  { apply keeps_call_ok. destruct (has_flag _ POLLOUT); [|by apply keeps_quiet, quiet_ret]. apply keeps_bind.
    - intros m g x Hi Hx. by eapply resend_spec.
    - intros _. by apply keeps_quiet, quiet_ret. }
  intros _. destruct (_ && _); [by apply quiet_call_ok, quiet_ret|].
  intros m g Hi Ho Hlim. destruct (owned_live _ _ _ Hi Ho) as (x & Hx). wp_go.
  destruct (negb _); [apply wp_ret; exists g; by apply kept_steady, steady_refl|].
  apply wp_bind. eapply wp_mono; [by eapply q_len_spec|]. intros avail m1 [S1 Ha].
  pose proof (inv_steady _ _ _ _ S1 Hi) as Hi1.
  assert (Hx1 : conns m1 !! c = Some x) by (by rewrite (st_conns _ _ S1)).
  destruct (live_service _ _ _ _ Hi1 Hx1) as (s & Hs & _). wp_go. destruct (_ && _).
  - wp_go. eapply wp_quiet; [auto with ipc|]. intros [res2 bs] m2 S2. wp_go.
    exists g. apply kept_steady; [done|]. by eapply steady_trans.
  - eapply wp_mono; [by eapply dispatch_requests_ok|]. intros r m2 (g2 & K2). exists g2.
    eapply kept_trans; [by apply kept_steady|done].
Qed.

Lemma dispatch_spec m g c revents :
  inv m g -> g_own g c = true -> g_refs g c < MAX_REFS ->
  wp (qb_ipcs_dispatch_connection_request fuel funcs serv_fns revents (Some c)) m (fun _ m' =>
    exists g', inv m' g' /\ grows_but (eq c) g g' /\ leaves c m m').
Proof.
  intros Hi Ho Hlim. unfold qb_ipcs_dispatch_connection_request. apply wp_bind.
  eapply wp_mono; [by apply dispatch_result_ok|]. intros res m1 (g1 & K1).
  pose proof K1 as (Hi1 & Hg1 & _ & Hl1 & Ha1). assert (Ho1 : g_own g1 c = true) by (apply Hg1; auto).
  destruct (owned_live _ _ _ Hi1 Ho1) as (x1 & Hx1). apply wp_bind. destruct (negb _).
  - eapply wp_mono; [by eapply disconnect_spec; [| | |eapply kept_below]|]. intros [] m2 (g2 & Hi2 & Hg2 & Hl2). apply wp_ret.
    exists g2. split_and!; [done| |by eapply leaves_from]. eapply grows_trans; [by apply grows_weaken|done].
  - wp_go. exists g1. split_and!; [done|by apply grows_weaken|]. by split; [left|].
Qed.

(** ** Flow control *)

Lemma flowcontrol_spec m g c x fc :
  inv m g -> conns m !! c = Some x -> c_state x <> QB_IPCS_CONNECTION_INACTIVE ->
  wp (qb_ipcs_flowcontrol_set funcs (Some c) fc) m (fun _ m' => kept m g m' g).
Proof.
  intros Hi Hx Hst. destruct (live_service _ _ _ _ Hi Hx) as (s & Hs & [[t Ht] _]).
  pose proof (iv_conns _ _ _ Hi c x Hx) as [_ _ _ _ F G _ _]. destruct (F Hst) as [_ Hop].
  unfold opened in Hop. rewrite Hs, Ht in Hop.
  unfold qb_ipcs_flowcontrol_set. wp_go. destruct (negb _); [|by apply wp_ret, kept_steady, steady_refl].
  apply wp_bind. eapply get_funcs_spec; [done..|]. apply wp_bind.
  eapply wp_mono; [by eapply tl_fc_set|]. intros [] m1 S1. cbv beta in S1.
  eapply (keeps_kept c); [|by apply kept_steady|by rewrite (st_conns _ _ S1)|done].
  apply keeps_bind; [|auto with ipc]. apply keeps_mod; [done|by intros ? []].
Qed.
End Safe.
