(* ===== verification/IpcsLife.v ===== *)
(** * The life of the IPC service and its connections

    Loops over the connections, the end of the service, and the creation of
    connections preserve the invariant of file [IpcInv] too; the theorem at the
    end is about every callback of the main loop and every call of the
    application. *)
From stdpp Require Import strings gmap functions.
From S2P Require Import Prelude Memory Cstring RingBuffer RingBufferOpen Loop IpcBase IpcSock Ipcs IpcShm IpcSetup.
From S2P Require Import IpcLogic IpcInv IpcsSafe.

Section Life.
Context {E : Env}.
Context (fuel : nat).
Context (funcs : qb_ipc_type -> qb_ipcs_funcs).
Context {L : forall t, TransportLaws (funcs t)}.
Context {EO : EnvOk E}.
Context (serv_fns : qb_ipcs_service_handlers).
Abbreviation inv := (ipcs_inv funcs).
Abbreviation kept := (kept funcs).
Context (App : AppOk funcs serv_fns).

(** ** Loops over the list of connections *)

Lemma next_in_split l1 c l2 : NoDup (l1 ++ c :: l2) -> next_in (l1 ++ c :: l2) c = head l2.
Proof.
  induction l1 as [|d l1 IH]; cbn; intros Hnd; [by rewrite Z.eqb_refl|].
  apply list.NoDup_cons in Hnd as [Hd Hnd]. destruct (Z.eqb_spec d c) as [->|]; [set_solver|]. by apply IH.
Qed.

Lemma filter_absent (c : Z) (l : list Z) : c ∉ l -> filter (fun d => d <> c) l = l.
Proof.
  induction l as [|d l IH]; intros Hc; [done|]. rewrite filter_cons_True by set_solver. f_equal. apply IH. set_solver.
Qed.

Lemma for_each_step n m g l1 c l2 body Q :
  inv m g -> conn_list m = l1 ++ c :: l2 ->
  wp (body c) m (fun _ m' => wp (for_each_safe n (head l2) body) m' Q) ->
  wp (for_each_safe (S n) (Some c) body) m Q.
Proof.
  intros Hi Hl Hb. cbn [for_each_safe]. apply wp_bind, wp_get. rewrite decide_True by (rewrite Hl; set_solver).
  apply wp_bind. eapply wp_mono; [exact Hb|]. intros [] m1. cbv beta.
  destruct (iv_list _ _ _ Hi) as [Hnd _]. rewrite Hl in *. by rewrite next_in_split.
Qed.

Lemma rate_limit_loop body (Hbody : forall m g c x, inv m g -> conns m !! c = Some x ->
    c_state x <> QB_IPCS_CONNECTION_INACTIVE -> g_refs g c < MAX_REFS -> wp (body c) m (fun _ m' => kept m g m' g)) :
  forall l2 l1 n m g, inv m g -> conn_list m = l1 ++ l2 ->
  (forall c x, conns m !! c = Some x -> c ∈ l2 -> c_state x <> QB_IPCS_CONNECTION_INACTIVE /\ g_refs g c < MAX_REFS) ->
  wp (for_each_safe n (head l2) body) m (fun _ m' => kept m g m' g).
Proof.
  induction l2 as [|c l2 IH]; intros l1 n m g Hi Hl Hok.
  - destruct n; by apply wp_ret, kept_steady, steady_refl.
  - destruct n as [|n]; [apply wp_loop|]. destruct (iv_list _ _ _ Hi) as [_ Hlive].
    destruct (Hlive c) as [x Hx]; [rewrite Hl; set_solver|]. destruct (Hok c x Hx) as [Hst Hr]; [set_solver|].
    eapply for_each_step; [done|done|]. eapply wp_mono; [by eapply Hbody|]. intros [] m1 K1. cbv beta in K1.
    pose proof K1 as (Hi1 & _ & Hk & Hl1 & _).
    eapply wp_mono; [eapply (IH (l1 ++ [c])); [done|by rewrite Hl1, Hl, <- app_assoc|]|].
    + intros d y Hy Hd. destruct (conns m !! d) as [z|] eqn:Hz.
      * destruct (Hk d z Hz) as (y' & Hy' & Hst'). destruct (Hok d z Hz) as [? ?]; [set_solver|].
        assert (y' = y) as -> by congruence. rewrite Hst'. done.
      * exfalso. destruct (Hlive d) as [? ?]; [rewrite Hl; set_solver|congruence].
    + intros [] m2 K2. eapply kept_trans; [exact K1|exact K2].
Qed.

Definition no_inactive (m : machine) (g : ghost) : Prop :=
  forall c x, conns m !! c = Some x -> c ∈ conn_list m ->
    c_state x <> QB_IPCS_CONNECTION_INACTIVE /\ g_refs g c < MAX_REFS.

Lemma rate_limit_spec m g s rl :
  inv m g -> svc m = Some s -> no_inactive m g ->
  wp (qb_ipcs_request_rate_limit funcs serv_fns rl) m (fun _ m' => kept m g m' g).
Proof.
  intros Hi Hs Hok. unfold qb_ipcs_request_rate_limit. wp_go. set (m1 := set_svc _ _).
  assert (Hi1 : inv m1 g).
  { eapply inv_service; [done|done|done|done|]. pose proof (iv_svc _ _ _ Hi) as Hv. unfold svc_ok in Hv.
    rewrite Hs in Hv. apply Hv. }
  assert (K1 : kept m g m1 g) by (split_and!; [done|apply grows_refl|eauto|done|done]).
  unfold for_each_connection. apply wp_bind, wp_get.
  eapply wp_mono; [eapply (rate_limit_loop _) with (l1 := []) (l2 := conn_list m1); [|done|done|exact Hok]|].
  - intros m2 g2 c x Hi2 Hx Hst Hr. eapply (with_ref funcs serv_fns App c); [done..|]. intros m3 Hi3 Hc3.
    assert (Hx3 : conns m3 !! c = Some (set_c_refcount x (c_refcount x + 1))) by (rewrite Hc3; apply lookup_insert_eq).
    apply wp_bind. eapply wp_mono; [by eapply flowcontrol_spec|]. intros [] m4 K4. cbv beta in K4.
    destruct (kept_live _ _ _ _ _ _ _ K4 Hx3) as (x4 & Hx4).
    eapply (keeps_kept funcs c); [|exact K4|done|done]. apply keeps_service. intros s'.
    destruct (negb _); [|by apply keeps_quiet, quiet_ret]. apply keeps_bind; [by apply keeps_modify_dispatch|].
    intros _. by apply keeps_quiet, quiet_ret.
  - intros [] m2 K2. eapply kept_trans; [exact K1|exact K2].
Qed.

(** ** The end of the service *)

Definition set_gsvc (g : ghost) (n : Z) : ghost := {| g_svc := n; g_own := g_own g; g_refs := g_refs g |}.

(** The application drops a reference to the service. *)
Lemma unref_app m g :
  inv m g -> 1 <= g_svc g -> wp qb_ipcs_unref m (fun _ m' => inv m' (set_gsvc g (g_svc g - 1)) /\ auths m' = auths m).
Proof.
  intros [Hv Hg Hc Hn Hl Hf] H1. unfold svc_ok in Hv. destruct (svc m) as [s|] eqn:Hs; [|lia].
  destruct Hv as (Hrd & Hcnt & Hpos). eapply unref_service; [done|done|]. split; [|done].
  constructor; cbn [conns set_svc conn_list fresh auths rings set_gsvc g_own g_refs g_svc]; try done; try lia.
  - unfold svc_ok. cbn. change (held (set_svc m _)) with (held m).
    assert (0 <= held m) by (unfold held, held_of; lia).
    destruct (Z.eqb_spec (s_ref_count s) 1) as [E1|E1].
    + split_and!; [|lia|lia]. apply map_size_empty_inv. lia.
    + split; [done|]. cbn. lia.
  - intros c x Hx. destruct (Hc c x Hx) as [A B C D F G H Z0]. constructor; try done. intros Hst. destruct (F Hst) as [? Hop].
    split; [done|]. unfold opened in *. rewrite Hs in Hop. cbn.
    destruct (Z.eqb_spec (s_ref_count s) 1) as [E1|E1]; [|done]. exfalso.
    assert (size (conns m) = 0)%nat as Hz by (unfold held, held_of in *; lia).
    apply map_size_empty_inv in Hz. by rewrite Hz in Hx.
Qed.

Lemma destroy_loop : forall l2 l1 n m g,
  inv m g -> conn_list m = l1 ++ l2 -> (forall c, c ∈ l2 -> g_own g c = true /\ g_refs g c < MAX_REFS) ->
  wp (for_each_safe n (head l2) (fun c => qb_ipcs_disconnect funcs serv_fns (Some c))) m (fun _ m' =>
    exists g', inv m' g' /\ grows_but (fun c => c ∈ l2) g g' /\ auths m' = auths m).
Proof.
  induction l2 as [|c l2 IH]; intros l1 n m g Hi Hl Hown.
  - destruct n; apply wp_ret; exists g; (split_and!; [done|apply grows_refl|done]).
  - destruct n as [|n]; [apply wp_loop|]. destruct (Hown c ltac:(set_solver)) as [Hoc Hrc].
    destruct (owned_live _ _ _ _ Hi Hoc) as (x & Hx).
    pose proof (proj1 (iv_list _ _ _ Hi)) as Hnd. rewrite Hl in Hnd.
    apply list.NoDup_app in Hnd as (Hnd1 & Hdisj & [Hc2 Hnd2]%list.NoDup_cons).
    eapply for_each_step; [done|done|].
    eapply wp_mono; [by eapply (disconnect_spec funcs serv_fns App)|].
    intros [] m1 (g1 & Hi1 & Hg1 & [Hl1 Ha1]).
    assert (Hl1' : exists l1', conn_list m1 = l1' ++ l2).
    { destruct Hl1 as [->| ->]; rewrite Hl; [exists (l1 ++ [c]); by rewrite <- app_assoc|]. exists l1.
      rewrite list.filter_app, filter_cons_False by auto. rewrite !filter_absent by set_solver. done. }
    destruct Hl1' as (l1' & Hl1').
    eapply wp_mono; [eapply (IH l1'); [done|done|]|].
    + intros d Hd. destruct (Hown d ltac:(set_solver)) as [Hod Hrd].
      split; [apply Hg1; [by intros ->|done]|by eapply grows_below].
    + intros [] m2 (g2 & Hi2 & [Hg2 Hg2'] & Ha2). exists g2. split_and!; [done| |congruence].
      destruct Hg1 as [Hg1 Hg1']. split; [lia|]. intros d. destruct (Hg1' d) as (? & ? & ?), (Hg2' d) as (? & ? & ?).
      split_and!; [|lia|lia]. intros Hd Ho. set_solver.
Qed.

Lemma withdraw_spec m g s :
  inv m g -> svc m = Some s -> wp qb_ipcs_us_withdraw m (fun _ m' => kept m g m' g).
Proof.
  intros Hi Hs. pose proof (iv_svc _ _ _ Hi) as Hv. unfold svc_ok in Hv. rewrite Hs in Hv. destruct Hv as (Hrd & _).
  unfold qb_ipcs_us_withdraw. wp_go.
  eapply wp_mono; [eapply poll_fn_spec; [done|apply Hrd]|]. intros r m1 S1. cbv beta in S1. wp_go.
  apply wp_quiet; [auto with ipc|]. intros ? m2 S2. apply wp_bind.
  apply wp_quiet; [unfold when; quiet_go|]. intros [] m3 S3. apply wp_bind.
  apply wp_quiet; [auto with ipc|]. intros ? m4 S4.
  pose proof (steady_trans _ _ _ (steady_trans _ _ _ S1 S2) (steady_trans _ _ _ S3 S4)) as S.
  apply wp_bind. eapply wp_mod_service; [by rewrite (st_svc _ _ S)|]. wp_go.
  eapply kept_trans; [by apply kept_steady|]. split_and!; [|apply grows_refl|eauto|done|done].
  eapply inv_service; [by eapply inv_steady|by rewrite (st_svc _ _ S)|done|done|done].
Qed.

Lemma destroy_spec m g :
  inv m g -> 1 <= g_svc g -> (forall c, c ∈ conn_list m -> g_own g c = true /\ g_refs g c < MAX_REFS) ->
  wp (qb_ipcs_destroy funcs serv_fns) m (fun _ m' =>
    exists g', inv m' g' /\ g_svc g - 1 <= g_svc g' /\ auths m' = auths m).
Proof.
  intros Hi H1 Hown. unfold qb_ipcs_destroy, for_each_connection. do 2 apply wp_bind. apply wp_get.
  eapply wp_mono; [by eapply (destroy_loop _ [])|]. intros [] m1 (g1 & Hi1 & [Hg1 _] & Ha1).
  pose proof (iv_svc _ _ _ Hi1) as Hv. unfold svc_ok in Hv. destruct (svc m1) as [s|] eqn:Hs; [|lia].
  apply wp_bind. eapply wp_mono; [by eapply withdraw_spec|]. intros r m2 K2. cbv beta in K2.
  pose proof K2 as (Hi2 & _ & _ & _ & Ha2).
  eapply wp_mono; [eapply (unref_app m2 g1); [done|lia]|]. intros [] m3 (Hi3 & Ha3).
  exists (set_gsvc g1 (g_svc g1 - 1)). split_and!; [done|cbn; lia|congruence].
Qed.

(** ** New connections *)

(** A connection that was just allocated: no ring, nothing outstanding. *)
Definition blank (x : qb_ipcs_connection) : Prop :=
  c_state x = QB_IPCS_CONNECTION_INACTIVE /\ c_refcount x = 1 /\ c_outstanding_notifiers x = 0 /\
  forall o, ow_rb (c_ow x o) = None /\ ow_max_msg_size (c_ow x o) = 0.

Lemma inv_alloc m g s x :
  inv m g -> svc m = Some s -> s_ref_count s < 2 ^ 31 - 1 -> blank x ->
  inv (set_svc (set_conns (set_fresh m (fresh m + 1)) (<[fresh m := x]> (conns m)))
         (Some (set_s_ref_count s (s_ref_count s + 1)))) (set_own g (fresh m) true).
Proof.
  intros [Hv Hg Hc Hn Hl Hf] Hs Hmax (B1 & B2 & B3 & B4). unfold svc_ok in Hv. rewrite Hs in Hv.
  destruct Hv as (Hrd & Hcnt & Hpos). destruct (Hf (fresh m) ltac:(lia)) as (Hnew & _ & _).
  destruct (Hn _ Hnew) as [Hn1 Hn2].
  constructor; cbn [conns set_svc set_conns set_fresh conn_list fresh auths rings set_own g_own g_refs g_svc];
    try done.
  - unfold svc_ok. cbn. change (held (set_svc _ _)) with (held m). rewrite map_size_insert_None by done.
    split; [done|]. cbn. lia.
  - intros d y. destruct (decide (d = fresh m)) as [->|Hd].
    + rewrite lookup_insert_eq. intros [= <-]. constructor; rewrite ?B1, ?B2, ?B3; try done; try lia.
      * rewrite total_own, Hn2. done.
      * cbn. rewrite Hn2. unfold MAX_REFS. lia.
      * by rewrite own_insert.
      * intros o h. by rewrite (proj1 (B4 o)).
      * intros o. by rewrite (proj2 (B4 o)).
    + rewrite lookup_insert_ne by done. intros Hy. destruct (Hc d y Hy) as [A B C D F G H Z0].
      constructor; try done; unfold g_total; cbn; rewrite ?fn_lookup_insert_ne by done; try done.
      intros Hst. destruct (F Hst) as [? Hop]. split; [done|]. unfold opened in *. rewrite Hs in Hop. done.
  - intros d. destruct (decide (d = fresh m)) as [->|Hd]; [by rewrite lookup_insert_eq|].
    rewrite lookup_insert_ne, fn_lookup_insert_ne by done. apply Hn.
  - destruct Hl as [Hnd Hl]. split; [done|]. intros d Hd. apply lookup_insert_is_Some.
    destruct (decide (fresh m = d)); eauto.
  - intros k Hk. destruct (Hf k ltac:(lia)) as (? & ? & ?). rewrite lookup_insert_ne by lia. done.
Qed.

Lemma new_unlisted m g c : inv m g -> conns m !! c = None -> c ∉ conn_list m.
Proof. intros Hi Hc Hin. destruct (iv_list _ _ _ Hi) as [_ Hl]. destruct (Hl c Hin). congruence. Qed.

(** What [qb_ipcs_connection_alloc] leaves. *)
Record allocated (m : machine) (g : ghost) (c : Z) (m' : machine) : Prop := {
  al_new : conns m !! c = None;
  al_inv : inv m' (set_own g c true);
  al_blank : exists x, conns m' !! c = Some x /\ blank x;
  al_list : conn_list m' = conn_list m;
  al_auths : auths m' = auths m;
}.

Lemma alloc_spec m g s :
  inv m g -> svc m = Some s -> s_ref_count s < 2 ^ 31 - 1 ->
  wp qb_ipcs_connection_alloc m (fun oc m' =>
    match oc with None => steady m m' | Some c => allocated m g c m' end).
Proof.
  intros Hi Hs Hmax. pose proof (iv_svc _ _ _ Hi) as Hv. unfold svc_ok in Hv. rewrite Hs in Hv.
  unfold qb_ipcs_connection_alloc. apply wp_bind, wp_sys. set (a := reply _ _). set (m1 := set_calls _ _).
  assert (S1 : steady m m1) by apply steady_calls. destruct (_ =? 0); [by apply wp_ret|].
  assert (Hs1 : svc m1 = Some s) by done. wp_go. unfold qb_ipcs_ref. eapply wp_mod_service; [done|].
  apply wp_ret. rewrite i32_small by lia. constructor; try done.
  - by apply (iv_fresh _ _ _ Hi).
  - pose proof (inv_alloc m1 g s (new_connection (s_type s)) ltac:(by eapply inv_steady) Hs Hmax) as Hinv.
    apply Hinv. split_and!; try done. by intros [].
  - eexists. split; [apply lookup_insert_eq|]. split_and!; try done. by intros [].
Qed.

(** A connection that is open is put in the list. *)
Lemma inv_activate m g c x :
  inv m g -> conns m !! c = Some x -> c ∉ conn_list m -> g_own g c = true -> opened funcs m x ->
  inv (set_conn_list (put_conn m c (set_c_state x QB_IPCS_CONNECTION_ACTIVE)) (c :: conn_list m)) g.
Proof.
  intros Hi Hx Hnew Ho Hop. pose proof Hi as [Hv Hg Hc Hn Hl Hf]. pose proof (Hc c x Hx) as [A B C D F G H Z0].
  constructor; cbn [conns set_conn_list put_conn set_conns conn_list fresh auths rings]; try done.
  - unfold svc_ok in *. cbn. rewrite map_size_insert_Some by eauto. destruct (svc m); [done|].
    destruct Hv as (He & _). by rewrite He in Hx.
  - intros d y. destruct (decide (d = c)) as [->|Hd].
    + rewrite lookup_insert_eq. intros [= <-]. constructor; try done.
      intros _. split; [by left|]. by apply (opened_same funcs m x); [intros []|].
    + rewrite lookup_insert_ne by done. intros Hy. destruct (Hc d y Hy) as [A' B' C' D' F' G' H' Z'].
      constructor; try done. intros Hst. destruct (F' Hst). split; [by right|done].
  - intros d. destruct (decide (d = c)) as [->|Hd]; [by rewrite lookup_insert_eq|].
    rewrite lookup_insert_ne by done. apply Hn.
  - destruct Hl as [Hnd Hl]. split; [by apply list.NoDup_cons|]. intros d Hd. apply lookup_insert_is_Some.
    destruct (decide (c = d)); [by left|right]. split; [done|]. apply Hl. set_solver.
  - intros k Hk. destruct (Hf k Hk) as (? & ? & ?). by rewrite lookup_insert_ne by congruence.
Qed.

(** The connection as the handshake goes on. *)
Record pending (m0 : machine) (g0 : ghost) (c : Z) (st : qb_ipcs_connection_state) (m : machine) (g : ghost) : Prop := {
  pe_inv : inv m g;
  pe_grows : grows g0 g;
  pe_own : g_own g c = true;
  pe_refs : g_refs g c < MAX_REFS - 1;
  pe_conn : exists x, conns m !! c = Some x /\ c_state x = st;
  pe_list : st = QB_IPCS_CONNECTION_INACTIVE -> conn_list m = conn_list m0;
  pe_auths : auths m = auths m0;
}.

Lemma pending_kept m0 g0 c st m g m' g' :
  pending m0 g0 c st m g -> kept m g m' g' -> pending m0 g0 c st m' g'.
Proof.
  intros [P1 P2 P3 P4 (x & Hx & Hst) P6 P7] (K1 & K2 & K3 & K4 & K5).
  destruct (K3 c x Hx) as (y & Hy & Hst'). constructor; try done.
  - by eapply grows_trans.
  - by apply K2; auto.
  - by eapply grows_below.
  - exists y. split; [done|congruence].
  - intros H. rewrite K4. auto.
  - congruence.
Qed.

Lemma quiet_make_description a b c d e : quiet (make_description a b c d e).
Proof. unfold make_description. quiet_go. Qed.

Lemma accept_connection_spec m0 g0 c m g auth sock ugp :
  c ∉ conn_list m0 -> pending m0 g0 c QB_IPCS_CONNECTION_INACTIVE m g ->
  wp (accept_connection funcs serv_fns c auth sock ugp) m (fun _ m' => exists g' st, pending m0 g0 c st m' g').
Proof.
  intros Hnl P0. pose proof (pe_conn _ _ _ _ _ _ P0) as (x & Hx & Hst).
  destruct (live_service _ _ _ _ _ (pe_inv _ _ _ _ _ _ P0) Hx) as (s & Hs & Hrd).
  unfold accept_connection. wp_go. apply wp_quiet; [apply quiet_make_description|]. intros d m1 S1.
  assert (P1 : pending m0 g0 c QB_IPCS_CONNECTION_INACTIVE m1 g).
  { eapply pending_kept; [exact P0|by apply kept_steady; [apply P0|]]. }
  assert (Hx1 : conns m1 !! c = Some x) by (by rewrite (st_conns _ _ S1)).
  assert (Hdesc : forall name, pending m0 g0 c QB_IPCS_CONNECTION_INACTIVE (put_conn m1 c (set_c_description x name)) g).
  { intros name. eapply pending_kept; [exact P1|].
    eapply keeps_notifiers; [apply P1|done|done|by intros []|].
    apply (iv_conns _ _ _ (pe_inv _ _ _ _ _ _ P1) c x Hx1). }
  destruct d as [[e name]|name]; apply wp_bind; wp_first; [wp_go; eauto|]. wp_go.
  specialize (Hdesc name). set (m2 := put_conn _ _ _) in *.
  apply wp_mono with (fun _ m' => exists g', pending m0 g0 c QB_IPCS_CONNECTION_INACTIVE m' g').
  { destruct (connection_accept serv_fns) as [f|] eqn:Hf; [|apply wp_ret; eauto].
    destruct (auth =? 0); [|apply wp_ret; eauto].
    eapply wp_mono; [eapply (ao_accept _ _ App); [done|apply Hdesc|exact (pe_own _ _ _ _ _ _ Hdesc)|]|].
    { pose proof (pe_refs _ _ _ _ _ _ Hdesc). lia. }
    intros r m3 (g3 & K3). exists g3. by eapply pending_kept. }
  intros res m3 (g3 & P3). destruct (negb _); [apply wp_ret; eauto|].
  pose proof P3 as [I3 G3 O3 R3 (x3 & Hx3 & Hst3) L3 A3].
  destruct (live_service _ _ _ _ _ I3 Hx3) as (s3 & Hs3 & Hrd3). pose proof Hrd3 as [[t Ht] _].
  apply wp_bind. eapply get_funcs_spec; [done..|]. destruct (tl_connect_some (fs := funcs t)) as [f Hf]. rewrite Hf.
  pose proof (iv_conns _ _ _ I3 c x3 Hx3) as [A B C D F G H Z0].
  apply wp_bind. eapply wp_mono; [eapply (tl_connect m3 c x3 s3); try done; apply (iv_fresh _ _ _ I3)|].
  intros [res2 r2] m4 (y & T & Hh & Hsz & Hfr & Hopen). cbn [fst] in Hopen.
  pose proof (to_core _ _ _ _ _ T) as Hcore. unfold core in Hcore. injection Hcore as E1 E2 E3 E4.
  assert (Hy : conns m4 !! c = Some y) by (rewrite (to_conns _ _ _ _ _ T); apply lookup_insert_eq).
  assert (I4 : inv m4 g3).
  { rewrite <- (put_conn_same m4 c y Hy). eapply (inv_touches funcs m3 m4 g3 g3 c x3 y); try done.
    constructor; rewrite ?E1, ?E2, ?E3, ?E4; try done. by eapply same_sizes_ok. }
  pose proof (to_list _ _ _ _ _ T) as L4. pose proof (to_auths _ _ _ _ _ T) as A4.
  destruct (Z.eqb_spec res2 0) as [->|]; cbn [negb].
  - apply wp_bind. wp_first. wp_go. exists g3, QB_IPCS_CONNECTION_ACTIVE. constructor; try done.
    + apply (inv_activate m4 g3 c y); try done; [by rewrite L4, L3|]. unfold opened.
      rewrite (to_svc _ _ _ _ _ T), Hs3, Ht. by apply Hopen.
    + eexists. split; [apply put_conn_lookup|done].
    + cbn. congruence.
  - apply wp_ret. exists g3, QB_IPCS_CONNECTION_INACTIVE. constructor; try done; [|rewrite L4; auto|congruence].
    exists y. split; [done|congruence].
Qed.

(** The reference taken around [connection_created] is given back. *)
Lemma created_spec m0 g0 c st m g :
  pending m0 g0 c st m g ->
  wp (_ ← qb_ipcs_connection_ref (Some c);
      _ ← match connection_created serv_fns with Some f => f c | None => mret tt end;
      x ← get_conn c;
      _ ← (if decide (c_state x = QB_IPCS_CONNECTION_ACTIVE)
           then mod_conn c (fun x => set_c_state x QB_IPCS_CONNECTION_ESTABLISHED) else mret tt);
      qb_ipcs_connection_unref funcs serv_fns (Some c)) m (fun _ m' =>
    exists g', inv m' g' /\ grows g0 g' /\ auths m' = auths m0).
Proof.
  intros [P1 P2 P3 P4 (x & Hx & Hst) P6 P7]. apply wp_bind. eapply wp_mono; [eapply ref_spec; [done|done|lia]|].
  intros [] m1 [-> I1]. set (g1 := set_refs g c _) in *. apply wp_bind.
  apply wp_mono with (fun _ m' => exists g', kept (put_conn m c (set_c_refcount x (c_refcount x + 1))) g1 m' g').
  { destruct (connection_created serv_fns) as [f|] eqn:Hf.
    { eapply (ao_created _ _ App); [done|done|done|]. unfold g1. rewrite refs_insert. lia. }
    apply wp_ret. exists g1. by apply kept_steady, steady_refl. }
  intros [] m2 (g2 & I2 & G2 & K2 & L2 & A2). destruct (K2 c _ (put_conn_lookup _ _ _)) as (y & Hy & Hsty).
  pose proof (iv_conns _ _ _ I2 c y Hy) as [A B C D F G H Z0]. cbn in Hsty.
  assert (Hr2 : 1 <= g_refs g2 c).
  { destruct G2 as [_ G2]. destruct (G2 c) as (_ & Hle & _). unfold g1 in Hle. rewrite refs_insert in Hle.
    pose proof (co_refs _ _ _ _ _ (iv_conns _ _ _ P1 c x Hx)). lia. }
  assert (Ho2 : g_own g2 c = true) by (apply G2; auto).
  apply wp_bind. wp_first. apply wp_bind.
  apply wp_mono with (fun _ m' => exists z, conns m' !! c = Some z /\ inv m' g2 /\ auths m' = auths m).
  { destruct (decide _) as [Ha|Ha]; [|apply wp_ret; eauto]. wp_first. eexists. split; [apply put_conn_lookup|].
    split; [|done]. eapply inv_update; [done|done|apply agree_but_refl|].
    destruct F as [F1 F2]; [congruence|]. constructor; try done.
    intros _. split; [done|]. by apply (opened_same funcs m2 y); [intros []|]. }
  intros [] m3 (z & Hz & I3 & A3). pose proof (iv_conns _ _ _ I3 c z Hz) as [Az _ _ _ _ _ _ _].
  set (g3 := set_refs g2 c (g_refs g2 c - 1)).
  eapply wp_mono; [eapply (unref_spec funcs serv_fns (ao_destroyed _ _ App) m3 g2 g3 c z); try done|].
  - apply agree_but_refs.
  - unfold g3. rewrite total_refs. unfold g_total. lia.
  - unfold g3. rewrite refs_insert. lia.
  - intros [] m4 (I4 & _ & A4 & _). exists g3. split_and!; [done| |congruence].
    eapply grows_trans; [exact P2|]. destruct G2 as [Gs G2]. split; [done|]. intros d. destruct (G2 d) as (Hd1 & Hd2 & Hd3).
    split; [auto|]. unfold g3, g1 in *. cbn in *. destruct (decide (d = c)) as [->|].
    + rewrite fn_lookup_insert in *. lia.
    + rewrite fn_lookup_insert_ne in * by done. lia.
Qed.

Lemma finish_connection_spec m0 g0 c st m g sock res r :
  pending m0 g0 c st m g ->
  wp (finish_connection fuel funcs serv_fns c sock res r) m (fun _ m' =>
    exists g', inv m' g' /\ grows_but (eq c) g0 g' /\ auths m' = auths m0).
Proof.
  intros P0. pose proof P0 as [P1 P2 P3 P4 (x & Hx & Hst) P6 P7].
  destruct (live_service _ _ _ _ _ P1 Hx) as (s & Hs & Hrd). unfold finish_connection. wp_go.
  apply wp_mono with (fun _ m' => pending m0 g0 c st m' g).
  { unfold when, mod_service_stats. destruct (res =? 0); [|by apply wp_ret]. wp_go.
    eapply pending_kept; [exact P0|]. split_and!; [|apply grows_refl|eauto|done|done].
    by eapply inv_service. }
  intros [] m1 Pm1. wp_go. apply wp_quiet; [auto with ipc|]. intros res2 m2 S2.
  assert (Pm2 : pending m0 g0 c st m2 g).
  { eapply pending_kept; [exact Pm1|by apply kept_steady; [apply Pm1|]]. }
  match goal with |- context [if ?b =? 0 then qb_ipcs_connection_ref _ ≫= _ else _] => set (res' := b) end.
  apply wp_bind. destruct (res' =? 0).
  - eapply wp_mono; [by eapply created_spec|]. intros [] m3 (g3 & I3 & G3 & A3). apply wp_ret. exists g3.
    split_and!; [done|by apply grows_weaken|done].
  - pose proof Pm2 as [Q1 Q2 Q3 Q4 (y & Hy & Hsty) Q6 Q7]. apply wp_bind. wp_first. destruct (decide _) as [Hin|Hin].
    + apply wp_bind. eapply wp_mono; [eapply (drop_own_spec funcs serv_fns App); [done|done|done|by left]|].
      intros [] m3 (I3 & _ & A3 & _). apply wp_quiet; [auto with ipc|]. intros [] m4 S4. apply wp_ret.
      exists (drop_own g c). split_and!; [by eapply inv_steady| |rewrite (st_auths _ _ S4); congruence].
      eapply grows_trans; [by apply grows_weaken|apply drop_own_grows].
    + eapply wp_mono; [eapply (disconnect_spec funcs serv_fns App); done || lia|]. intros [] m3 (g3 & I3 & G3 & [_ A3]).
      apply wp_ret. exists g3. split_and!; [done| |congruence]. eapply grows_trans; [by apply grows_weaken|done].
Qed.

(** Memory for the buffer of a new connection can be had. *)
Context (Hbuf : forall h n, ret (reply h (Sys_calloc (Alloc_receive_buf n))) <> 0).

Lemma handle_new_connection_spec m g s auth sock msg ugp :
  inv m g -> svc m = Some s -> s_ref_count s < 2 ^ 31 - 1 ->
  wp (handle_new_connection fuel funcs serv_fns auth sock msg ugp) m (fun _ m' =>
    exists g', inv m' g' /\ grows g g' /\ auths m' = auths m).
Proof.
  intros Hi Hs Hmax. unfold handle_new_connection. wp_go. eapply wp_mono; [by eapply alloc_spec|].
  intros [c|] m1.
  - intros [B1 B2 (x & Hx & Hblank) B4 B5]. apply wp_bind, wp_sys.
    destruct (Z.eqb_spec (ret (reply (calls m1) (Sys_calloc (Alloc_receive_buf
      (QB_MAX (q_max_msg_size (read_request msg)) (s_max_buffer_size s)))))) 0) as [H0|_]; [by apply Hbuf in H0|].
    set (m2 := set_calls _ _). assert (Hx2 : conns m2 !! c = Some x) by done.
    assert (I2 : inv m2 (set_own g c true)) by (eapply inv_steady; [apply steady_calls|done]).
    apply wp_bind. wp_first. set (y := init_connection _ _ _ _). destruct Hblank as (H1 & H2 & H3 & H4).
    destruct (iv_none _ _ _ Hi c B1) as [Hno Hnr].
    assert (P : pending m g c QB_IPCS_CONNECTION_INACTIVE (put_conn m2 c y) (set_own g c true)).
    { pose proof (iv_conns _ _ _ I2 c x Hx2) as [A B C D F G H Z0]. constructor; try done.
      - eapply inv_update; [done|done|apply agree_but_refl|]. constructor; try done.
        + intros o h. assert (ow_rb (c_ow y o) = ow_rb (c_ow x o)) as -> by (by destruct o). by rewrite (proj1 (H4 o)).
        + change (c_outstanding_notifiers y) with (c_outstanding_notifiers x). rewrite H3. split; lia.
        + assert (0 <= QB_MAX (q_max_msg_size (read_request msg)) (s_max_buffer_size s) < 2 ^ 32).
          { pose proof (u32_range (le_combine (bytes_at msg 16 4))). rewrite QB_MAX_max. cbn [read_request q_max_msg_size].
            unfold u32_at. pose proof (iv_svc _ _ _ Hi) as Hv. unfold svc_ok in Hv. rewrite Hs in Hv.
            destruct Hv as ((_ & _ & _ & _ & _ & Hsz) & _). lia. }
          intros []; try done. pose proof (proj2 (H4 Ow_setup)) as H5. cbn in *. lia.
      - split; [done|]. intros d. cbn. split_and!; [|lia|by left]. intros _ Hd. destruct (decide (d = c)) as [->|].
        + by rewrite fn_lookup_insert.
        + by rewrite fn_lookup_insert_ne.
      - apply own_insert.
      - cbn. rewrite Hnr. done.
      - eexists. split; [apply put_conn_lookup|]. done. }
    apply wp_bind. eapply wp_mono; [eapply (accept_connection_spec m g c); [by eapply new_unlisted|exact P]|].
    intros [res r] m3 (g3 & st & P3). eapply wp_mono; [by eapply finish_connection_spec|].
    intros rr m4 (g4 & I4 & [G4 G4'] & A4). exists g4. split_and!; [done| |done]. split; [done|].
    intros d. destruct (G4' d) as [Hd1 Hd2]. split; [|done]. intros _ Hd. apply Hd1; [|done]. intros ->. congruence.
  - intros S1. apply wp_bind. apply wp_quiet; [auto with ipc|]. intros [] m2 S2. apply wp_ret. exists g.
    pose proof (steady_trans _ _ _ S1 S2) as S12. split_and!; [by eapply inv_steady|apply grows_refl|apply S12].
Qed.

(** ** Authentication *)

Lemma held_insert k x a : held_of (<[k := x]> a) = held_of (delete k a) + Z.b2z (d_s x).
Proof.
  unfold held_of. rewrite <- insert_delete_eq. destruct (d_s x) eqn:Hx.
  - rewrite map_filter_insert_True by done. rewrite map_size_insert_None; [cbn; lia|].
    apply map_lookup_filter_None. left. apply lookup_delete_eq.
  - rewrite map_filter_insert_False by (cbn; congruence). rewrite delete_delete_eq. cbn. lia.
Qed.

Lemma held_lookup k x a : a !! k = Some x -> held_of a = held_of (delete k a) + Z.b2z (d_s x).
Proof. intros Hx. rewrite <- held_insert. by rewrite insert_id. Qed.

Lemma held_absent k a : a !! k = None -> held_of (delete k a) = held_of a.
Proof. intros Hx. by rewrite delete_id. Qed.

Lemma held_nonneg a : 0 <= held_of a.
Proof. unfold held_of. lia. Qed.

(** The authentications and the service's count change together. *)
Lemma inv_auths m g s s' a f :
  inv m g -> svc m = Some s -> ready s' -> s_funcs s' = s_funcs s ->
  s_ref_count s' - s_ref_count s = held_of a - held m -> 0 < s_ref_count s' < 2 ^ 31 -> fresh m <= f ->
  (forall k, f <= k -> a !! k = None) ->
  inv (set_svc (set_auths (set_fresh m f) a) (Some s')) g.
Proof.
  intros [Hv Hg Hc Hn Hl Hf] Hs Hrd Hfn Hcnt Hpos Hf' Ha. unfold svc_ok in Hv. rewrite Hs in Hv.
  constructor; cbn [conns set_svc set_auths set_fresh conn_list fresh auths rings]; try done.
  - unfold svc_ok. cbn. change (held (set_svc _ _)) with (held_of a). split; [done|]. lia.
  - intros c x Hx. destruct (Hc c x Hx) as [A B C D F G H Z0]. constructor; try done. intros Hst.
    destruct (F Hst) as [? Hop]. split; [done|]. unfold opened in *. cbn. rewrite Hs in Hop. by rewrite Hfn.
  - intros k Hk. destruct (Hf k ltac:(lia)) as (? & ? & ?). auto.
Qed.

(** Only what is received changes in an authentication. *)
Lemma inv_auth_mod m g d x y :
  inv m g -> auths m !! d = Some x -> d_s y = d_s x -> inv (set_auths m (<[d := y]> (auths m))) g.
Proof.
  intros [Hv Hg Hc Hn Hl Hf] Hx Hy. constructor; try done.
  - unfold svc_ok, held in *. cbn.
    assert (held_of (<[d := y]> (auths m)) = held_of (auths m)) as ->; [|done].
    by rewrite held_insert, Hy, <- held_lookup.
  - intros c z Hz. destruct (Hc c z Hz). by constructor.
  - intros k Hk. cbn. destruct (Hf k Hk) as (? & ? & ?). by rewrite lookup_insert_ne by congruence.
Qed.

(** While [d] is being authenticated. *)
Record authenticating (g : ghost) (d : Z) (b : bool) (m : machine) : Prop := {
  au_inv : inv m g;
  au_data : exists x, auths m !! d = Some x /\ d_s x = b;
}.

Lemma authenticating_steady g d b m m' : steady m m' -> authenticating g d b m -> authenticating g d b m'.
Proof.
  intros S [Hi (x & Hx & Hb)]. constructor; [by eapply inv_steady|]. exists x. by rewrite (st_auths _ _ S).
Qed.

Lemma recv_msghdr_spec g d b m :
  authenticating g d b m ->
  wp (qb_ipc_us_recv_msghdr fuel d) m (fun _ m' => authenticating g d b m' /\ svc m' = svc m).
Proof.
  unfold qb_ipc_us_recv_msghdr. revert m. induction fuel as [|n IH]; intros m A; cbn [recv_msghdr_loop]; [apply wp_loop|].
  pose proof A as [Hi (x & Hx & Hb)]. apply wp_bind. eapply wp_get_auth; [done|]. apply wp_bind, wp_sys.
  set (m1 := set_calls _ _). assert (A1 : authenticating g d b m1) by (eapply authenticating_steady; [apply steady_calls|done]).
  repeat case_match; try by apply wp_ret.
  apply wp_bind. eapply wp_mod_auth; [done|]. set (y := set_d_processed _ _). set (m2 := set_auths _ _).
  assert (A2 : authenticating g d b m2).
  { constructor; [by eapply inv_auth_mod; [apply A1| |]|]. exists y. split; [apply lookup_insert_eq|done]. }
  apply wp_bind. eapply wp_get_auth; [apply lookup_insert_eq|]. case_match; [|by apply wp_ret].
  eapply wp_mono; [by apply IH|]. by intros ? m3 [? ?].
Qed.

Lemma auth_creds_spec g d b m :
  authenticating g d b m -> wp (qb_ipc_auth_creds d) m (fun _ m' => authenticating g d b m' /\ svc m' = svc m).
Proof.
  intros A. pose proof A as [Hi (x & Hx & Hb)]. unfold qb_ipc_auth_creds. apply wp_bind.
  eapply wp_get_auth; [done|]. case_match; [|by apply wp_ret]. apply wp_bind. eapply wp_mod_auth; [done|].
  apply wp_ret. split; [|done]. constructor; [by eapply inv_auth_mod|]. eexists. split; [apply lookup_insert_eq|done].
Qed.

Lemma destroy_auth_spec g d b m :
  authenticating g d b m -> wp (destroy_ipc_auth_data d) m (fun _ m' => inv m' g).
Proof.
  intros [Hi (x & Hx & Hb)]. unfold destroy_ipc_auth_data, when. apply wp_bind.
  eapply wp_get_auth; [done|]. pose proof (held_lookup d x _ Hx) as Hh. rewrite Hb in *.
  pose proof Hi as [Hv Hg Hc Hn Hl Hf]. unfold svc_ok in Hv.
  assert (Hfr : forall k, fresh m <= k -> delete d (auths m) !! k = None).
  { intros k Hk. apply lookup_delete_None. right. by apply Hf. }
  pose proof (held_nonneg (delete d (auths m))).
  destruct b; cbn [Z.b2z] in Hh.
  - destruct (svc m) as [s|] eqn:Hs; [|unfold held in *; lia]. destruct Hv as (Hrd & Hcnt & Hpos). apply wp_bind.
    eapply unref_service; [done|done|]. apply wp_modify. destruct (Z.eqb_spec (s_ref_count s) 1) as [E1|E1].
    + unfold held in *. assert (size (conns m) = 0)%nat as Hz by lia. apply map_size_empty_inv in Hz.
      constructor; try done; unfold svc_ok, held.
      * cbn. split_and!; [done|lia|lia].
      * cbn. rewrite Hz. apply map_Forall_empty.
      * cbn. intros k Hk. destruct (Hf k Hk) as (? & ? & ?). auto.
    + pose proof (inv_auths m g s (set_s_ref_count s (s_ref_count s - 1)) (delete d (auths m)) (fresh m)) as Hia.
      unfold held in *. destruct m. cbn in *. apply Hia; try done; cbn; lia.
  - apply wp_bind, wp_ret, wp_modify. constructor; try done.
    + unfold svc_ok, held in *. cbn. replace (held_of (delete d (auths m))) with (held_of (auths m)) by lia. done.
    + intros c z Hz. destruct (Hc c z Hz). by constructor.
    + cbn. intros k Hk. destruct (Hf k Hk) as (? & ? & ?). auto.
Qed.

Lemma auth_result_spec g d b m s revents :
  authenticating g d b m -> svc m = Some s ->
  wp (auth_result fuel d revents) m (fun _ m' => authenticating g d b m' /\ svc m' = Some s).
Proof.
  intros A Hs. pose proof A as [Hi (x & Hx & Hb)]. unfold auth_result. apply wp_bind.
  eapply wp_get_auth; [done|]. wp_go. repeat (case_match; [by apply wp_ret|]).
  apply wp_bind. eapply wp_mono; [by eapply recv_msghdr_spec|]. intros res m1 [A1 Hs1]. rewrite Hs in Hs1.
  case_match; [by apply wp_ret|]. case_match; [by apply wp_ret|].
  apply wp_bind. eapply wp_mono; [by eapply auth_creds_spec|]. intros res2 m2 [A2 Hs2]. apply wp_ret.
  split; [done|congruence].
Qed.

Lemma process_auth_spec g d m s revents :
  authenticating g d true m -> svc m = Some s -> s_ref_count s < 2 ^ 31 - 1 ->
  wp (process_auth fuel funcs serv_fns revents d) m (fun _ m' => exists g', inv m' g' /\ grows g g').
Proof.
  intros A Hs Hmax. unfold process_auth. apply wp_bind. eapply wp_mono; [by eapply auth_result_spec|].
  intros r m1 [A1 Hs1]. destruct r as [_|res].
  { apply wp_ret. exists g. split; [apply A1|apply grows_refl]. }
  pose proof A1 as [Hi1 (x & Hx & Hb)]. apply wp_bind. eapply wp_get_auth; [done|]. apply wp_bind.
  apply wp_quiet; [auto with ipc|]. intros a m2 S2. pose proof (authenticating_steady _ _ _ _ _ S2 A1) as A2.
  case_match.
  { apply wp_bind. apply wp_quiet; [auto with ipc|]. intros ? m3 S3. apply wp_ret. exists g.
    split; [by eapply inv_steady; [|apply A2]|apply grows_refl]. }
  assert (Hs2 : svc m2 = Some s) by (by rewrite (st_svc _ _ S2)).
  pose proof (iv_svc _ _ _ Hi1) as Hv. unfold svc_ok in Hv. rewrite Hs1 in Hv. destruct Hv as (Hrd & _).
  apply wp_bind. eapply wp_mono; [eapply poll_fn_spec; [done|apply Hrd]|]. intros ? m3 S3. cbv beta in S3.
  pose proof (authenticating_steady _ _ _ _ _ S3 A2) as A3.
  apply wp_bind, wp_mono with (fun _ m' => exists g', authenticating g' d true m' /\ grows g g').
  { repeat case_match.
    - apply wp_bind. apply wp_quiet; [auto with ipc|]. intros ? m4 S4. apply wp_ret. exists g.
      split; [by eapply authenticating_steady|apply grows_refl].
    - apply wp_bind. eapply wp_mono; [eapply (handle_new_connection_spec m3 g s); [apply A3|by rewrite (st_svc _ _ S3)|done]|].
      intros ? m4 (g4 & I4 & G4 & Ha4). apply wp_ret. exists g4. split; [|done]. constructor; [done|].
      rewrite Ha4. apply A3.
    - apply wp_bind. apply wp_quiet; [auto with ipc|]. intros ? m4 S4. apply wp_ret. exists g.
      split; [by eapply authenticating_steady|apply grows_refl]. }
  intros [] m4 (g4 & A4 & G4). apply wp_bind. eapply wp_mono; [by eapply destroy_auth_spec|].
  intros [] m5 I5. apply wp_ret. eauto.
Qed.

Lemma inv_auth_new m g x :
  inv m g -> d_s x = false -> inv (set_auths (set_fresh m (fresh m + 1)) (<[fresh m := x]> (auths m))) g.
Proof.
  intros [Hv Hg Hc Hn Hl Hf] Hx. destruct (Hf (fresh m) ltac:(lia)) as (_ & Hnew & _). constructor; try done.
  - unfold svc_ok, held in *. cbn. rewrite held_insert, Hx, held_absent, Z.add_0_r by done. done.
  - intros c z Hz. destruct (Hc c z Hz). by constructor.
  - intros k Hk. cbn in *. destruct (Hf k ltac:(lia)) as (? & ? & ?). by rewrite lookup_insert_ne by lia.
Qed.

Lemma init_auth_spec m g sock len :
  inv m g -> wp (init_ipc_auth_data sock len) m (fun od m' =>
    match od with None => inv m' g | Some d => authenticating g d false m' /\ svc m' = svc m end).
Proof.
  intros Hi. unfold init_ipc_auth_data. apply wp_bind. apply wp_quiet; [auto with ipc|]. intros a m1 S1.
  pose proof (inv_steady _ _ _ _ S1 Hi) as I1. case_match; [by apply wp_ret|]. wp_go.
  set (x := Build_ipc_auth_data _ _ _ _ _ _ _).
  pose proof (inv_auth_new m1 g x I1 eq_refl) as I2. apply wp_quiet; [auto with ipc|]. intros a3 m3 S3.
  assert (A3 : authenticating g (fresh m1) false m3).
  { eapply authenticating_steady; [exact S3|]. constructor; [exact I2|]. exists x. split; [apply lookup_insert_eq|done]. }
  case_match.
  - apply wp_bind. eapply wp_mono; [by eapply destroy_auth_spec|]. intros [] m4 I4. by apply wp_ret.
  - pose proof A3 as [I3 (y & Hy & Hb)]. apply wp_bind. eapply wp_mod_auth; [done|]. apply wp_ret.
    split; [|cbn; rewrite (st_svc _ _ S3); apply S1].
    constructor; [by eapply inv_auth_mod|]. eexists. split; [apply lookup_insert_eq|done].
Qed.

Lemma recv_and_auth_spec m g s sock :
  inv m g -> svc m = Some s -> s_ref_count s < 2 ^ 31 - 1 ->
  wp (qb_ipcs_uc_recv_and_auth sock) m (fun _ m' => inv m' g).
Proof.
  intros Hi Hs Hmax. unfold qb_ipcs_uc_recv_and_auth. apply wp_bind.
  eapply wp_mono; [by eapply init_auth_spec|]. intros [d|] m1.
  - intros [A1 Hs1]. rewrite Hs in Hs1. pose proof A1 as [I1 (x & Hx & Hb)].
    pose proof (iv_svc _ _ _ I1) as Hv. unfold svc_ok in Hv. rewrite Hs1 in Hv. destruct Hv as (Hrd & Hcnt & Hpos).
    apply wp_bind. eapply wp_mod_auth; [done|]. unfold qb_ipcs_ref. apply wp_bind.
    eapply wp_mod_service; [done|]. rewrite i32_small by lia. set (m2 := set_svc _ _).
    assert (A2 : authenticating g d true m2).
    { constructor.
      - pose proof (held_lookup d x _ Hx) as Hh. rewrite Hb in Hh. cbn in Hh.
        pose proof (inv_auths m1 g s (set_s_ref_count s (s_ref_count s + 1)) (<[d := set_d_s x true]> (auths m1))
          (fresh m1) I1 Hs1 Hrd eq_refl) as Hia. subst m2. destruct m1. cbn in *. apply Hia; try lia.
        + rewrite held_insert. unfold held. cbn. lia.
        + intros k Hk. destruct (iv_fresh _ _ _ I1 k Hk) as (_ & ? & _). cbn in *. by rewrite lookup_insert_ne by congruence.
      - eexists. split; [apply lookup_insert_eq|done]. }
    apply wp_bind. apply wp_quiet; [auto with ipc|]. intros a m3 S3.
    pose proof (authenticating_steady _ _ _ _ _ S3 A2) as A3. case_match.
    { apply wp_bind. apply wp_quiet; [auto with ipc|]. intros ? m4 S4. apply wp_ret. by eapply inv_steady; [|apply A3]. }
    apply wp_bind. eapply wp_get_service; [by rewrite (st_svc _ _ S3)|]. apply wp_bind.
    eapply wp_mono; [eapply poll_fn_spec; [by rewrite (st_svc _ _ S3)|apply Hrd]|]. intros ? m4 S4. cbv beta in S4.
    pose proof (authenticating_steady _ _ _ _ _ S4 A3) as A4. case_match; [|apply wp_ret; apply A4].
    apply wp_bind. apply wp_quiet; [auto with ipc|]. intros ? m5 S5.
    eapply destroy_auth_spec. by eapply authenticating_steady.
  - intros I1. apply wp_bind. apply wp_quiet; [auto with ipc|]. intros ? m2 S2. apply wp_ret. by eapply inv_steady.
Qed.

Lemma acceptor_spec m g s fd revent :
  inv m g -> svc m = Some s -> s_ref_count s < 2 ^ 31 - 1 ->
  wp (qb_ipcs_us_connection_acceptor fuel fd revent) m (fun _ m' => inv m' g).
Proof.
  intros Hi Hs Hmax. unfold qb_ipcs_us_connection_acceptor. case_match; [by apply wp_ret|]. apply wp_bind.
  apply wp_quiet.
  { clear. induction fuel as [|n IH]; cbn [accept_loop]; quiet_go. }
  intros a m1 S1. repeat (case_match; [by apply wp_ret; eapply inv_steady|]). apply wp_bind.
  apply wp_quiet; [auto with ipc|]. intros b m2 S2. pose proof (steady_trans _ _ _ S1 S2) as S12. case_match.
  - apply wp_bind. apply wp_quiet; [auto with ipc|]. intros ? m3 S3. apply wp_ret.
    eapply inv_steady; [eapply steady_trans; [exact S12|exact S3]|done].
  - apply wp_bind. eapply wp_mono; [eapply (recv_and_auth_spec m2 g s); [by eapply inv_steady|by rewrite (st_svc _ _ S12)|done]|].
    intros [] m3 I3. by apply wp_ret.
Qed.
End Life.
