(* ===== verification/IpcShmLaws.v ===== *)
(** * The shared memory transport keeps its promises

    [shm_funcs] is an instance of the interface [TransportLaws] of file
    [IpcInv]: whatever the rings contain, the functions reach only rings that
    exist and keep their sizes. *)
From stdpp Require Import strings gmap.
From S2P Require Import Prelude Memory Cstring RingBuffer RingBufferOpen RingBufferInv RingBufferTheorems Loop IpcBase IpcSock Ipcs IpcShm.
From S2P Require Import IpcLogic IpcInv.

(** ** Sizes of rings *)

Definition rshape (rb : qb_ringbuffer_s psem) : Z * Z := (zlen (shared_data rb), word_size (shared_hdr rb)).

Lemma rshape_set_data rb d : zlen d = zlen (shared_data rb) -> rshape (set_data rb d) = rshape rb.
Proof. intros H. unfold rshape. by rewrite <- H. Qed.

Lemma rshape_magic rb p v : rshape (QB_RB_CHUNK_MAGIC_SET rb p v) = rshape rb.
Proof. apply rshape_set_data. apply zlen_word_set. Qed.

Lemma rshape_word rb p v : rshape (set_data rb (word_set (shared_data rb) p v)) = rshape rb.
Proof. apply rshape_set_data, zlen_word_set. Qed.

Lemma rshape_reclaim rb e : rshape (fst (fst (_rb_chunk_reclaim rb e))) = rshape rb.
Proof.
  unfold _rb_chunk_reclaim. destruct (negb _); [done|].
  set (rb1 := QB_RB_CHUNK_MAGIC_SET _ _ _).
  assert (H : rshape rb1 = rshape rb) by (unfold rb1; rewrite rshape_magic; apply rshape_word).
  destruct (reclaim_fn _) as [f|]; [destruct (f _ _)|]; done.
Qed.

Lemma rshape_overwrite fuel rb len e r :
  overwrite_loop fuel rb len e = Some r ->
  rshape (match r with inl p | inr p => fst p end) = rshape rb.
Proof.
  revert rb e. induction fuel as [|n IH]; intros rb e; cbn [overwrite_loop]; [done|].
  destruct (no_space rb len); [|by intros [= <-]].
  pose proof (rshape_reclaim rb e) as Hr. destruct (_rb_chunk_reclaim rb e) as [[rb1 e1] rc]. cbn in Hr.
  destruct (rc =? 0); [|by intros [= <-]]. intros H. by rewrite (IH _ _ H).
Qed.

Lemma rshape_header rb : rshape (insert_chunk_header rb) = rshape rb.
Proof. unfold insert_chunk_header. rewrite rshape_magic. apply rshape_word. Qed.

Lemma rshape_alloc rb len e : exists rb' e' a,
  qb_rb_chunk_alloc (Some rb) len e = (Some rb', e', a) /\ rshape rb' = rshape rb.
Proof.
  unfold qb_rb_chunk_alloc. destruct (has_flag _ _).
  - destruct (overwrite_loop _ _ _ _) as [[[rb1 e1]|[rb1 e1]]|] eqn:H; [| |eauto 10].
    + apply rshape_overwrite in H. do 3 eexists. split; [done|]. by rewrite rshape_header.
    + apply rshape_overwrite in H. do 3 eexists. by split; [done|].
  - destruct (no_space _ _); [eauto 10|]. do 3 eexists. split; [done|]. apply rshape_header.
Qed.

Lemma rshape_commit rb len : exists rb' r, qb_rb_chunk_commit (Some rb) len = (Some rb', r) /\ rshape rb' = rshape rb.
Proof.
  unfold qb_rb_chunk_commit. set (rb1 := QB_RB_CHUNK_MAGIC_SET _ _ _).
  assert (H : rshape rb1 = rshape rb).
  { unfold rb1. rewrite rshape_magic. apply (rshape_word rb). }
  destruct (post_fn _) as [f|]; [destruct (f _ _)|]; eauto.
Qed.

Lemma rshape_write rb d e o e' r :
  qb_rb_chunk_write (Some rb) d e = Some (o, e', r) -> exists rb', o = Some rb' /\ rshape rb' = rshape rb.
Proof.
  unfold qb_rb_chunk_write. destruct (rshape_alloc rb (zlen d) e) as (rb1 & e1 & a & -> & H1).
  destruct a as [off| |]; [|intros [= <- <- <-]; eauto|done].
  destruct (rshape_commit (set_data rb1 (blit (shared_data rb1) off d)) (zlen d)) as (rb2 & r2 & -> & H2).
  intros [= <- <- <-]. eexists. split; [done|]. rewrite H2, rshape_set_data; [done|apply zlen_blit].
Qed.

Lemma rshape_wait rb t rb' r : wait_notifier rb t = Some (rb', r) -> rshape rb' = rshape rb.
Proof.
  unfold wait_notifier. destruct (timedwait_fn _) as [f|]; [|by intros [= <- <-]].
  destruct (f _ _) as [[i r']|]; [|done]. by intros [= <- <-].
Qed.

Lemma rshape_repost rb v : rshape (repost rb v) = rshape rb.
Proof. unfold repost. by destruct (post_fn _). Qed.

(** A chunk lies at the start of a word of the first mapping. *)
Lemma rshape_peek rb t o r p :
  0 < word_size (shared_hdr rb) -> qb_rb_chunk_peek (Some rb) t = Some (o, r, p) ->
  exists rb', o = Some rb' /\ rshape rb' = rshape rb /\
    (0 < r -> exists off, p = Some off /\ 0 <= off < 4 * word_size (shared_hdr rb)).
Proof.
  intros Hw. unfold qb_rb_chunk_peek. destruct (wait_notifier rb t) as [[rb1 r1]|] eqn:Hwt; [|done].
  apply rshape_wait in Hwt. assert (Hws : word_size (shared_hdr rb1) = word_size (shared_hdr rb)) by (by injection Hwt).
  destruct ((r1 <? 0) && _) eqn:Hneg.
  - apply andb_true_iff in Hneg as [Hneg _]. apply Z.ltb_lt in Hneg.
    destruct (r1 =? _); (intros Heq; inversion Heq; subst; exists rb1; split_and!; [done|done|lia]).
  - destruct (negb (QB_RB_CHUNK_MAGIC_GET _ _ =? _)).
    + intros Heq; inversion Heq; subst. exists (repost rb1 r1). split_and!; [done|by rewrite rshape_repost|unfold EBADMSG; lia].
    + intros Heq; inversion Heq; subst. exists rb1. split_and!; [done|done|]. intros _. eexists. split; [done|].
      unfold QB_RB_CHUNK_DATA_GET. rewrite Hws.
      pose proof (Z.mod_pos_bound (u32 (read_pt (shared_hdr rb1) + QB_RB_CHUNK_HEADER_WORDS)) (word_size (shared_hdr rb))).
      lia.
Qed.

Lemma copy_iov_zlen iov : forall d pt, zlen (copy_iov d pt iov) = zlen d.
Proof. induction iov as [|b iov IH]; intros d pt; cbn; [done|]. by rewrite IH, zlen_blit. Qed.

(** ** Messages *)

Section Laws.
Context {E : Env}.
Context {EO : EnvOk E}.

Lemma with_flags_shape rb fl : rshape (with_flags rb fl) = rshape rb.
Proof. done. Qed.

(** A ring is replaced by one of the same size. *)
Lemma put_ring_steady m h r rb Q :
  rings m !! rh_id h = Some r -> rshape rb = rshape (sr_rb r) ->
  (forall m', steady m m' -> Q tt m') -> wp (put_ring h rb) m Q.
Proof.
  intros Hr Hs HQ. eapply wp_put_ring; [done|]. apply HQ. by apply (steady_rings m (rh_id h) r).
Qed.

Lemma shm_send_law m x o msg :
  handles_ok (rings m) x -> wp (qb_ipc_shm_send (c_ow x o) msg) m (fun _ => steady m).
Proof.
  intros Hh. unfold qb_ipc_shm_send. destruct (ow_rb (c_ow x o)) as [h|] eqn:Ho.
  - destruct (Hh o h Ho) as (r & Hr & _). apply wp_bind. eapply wp_get_ring; [done|].
    destruct (qb_rb_chunk_write _ _ _) as [[[o' e'] res]|] eqn:Hw; [|apply wp_loop].
    destruct (rshape_write _ _ _ _ _ _ Hw) as (rb' & -> & Hs). apply wp_bind.
    eapply put_ring_steady; [done|by rewrite Hs|]. intros m' S. by apply wp_ret.
  - apply wp_ret, steady_refl.
Qed.

Lemma shm_sendv_law m x o iov :
  handles_ok (rings m) x -> wp (qb_ipc_shm_sendv (c_ow x o) iov) m (fun _ => steady m).
Proof.
  intros Hh. unfold qb_ipc_shm_sendv. destruct (ow_rb (c_ow x o)) as [h|] eqn:Ho; [|apply wp_ret, steady_refl].
  destruct (Hh o h Ho) as (r & Hr & _). apply wp_bind. eapply wp_get_ring; [done|].
  destruct (rshape_alloc (with_flags (sr_rb r) (rh_flags h)) (u64 (iov_total iov)) 0) as (rb1 & e1 & a & -> & H1).
  destruct a as [off| |]; [| |apply wp_loop].
  - destruct (rshape_commit (set_data rb1 (copy_iov (shared_data rb1) off iov)) (u64 (iov_total iov)))
      as (rb2 & r2 & -> & H2). apply wp_bind. eapply put_ring_steady; [done| |intros m' S; by apply wp_ret].
    rewrite H2, rshape_set_data; [by rewrite H1|apply copy_iov_zlen].
  - apply wp_bind. eapply put_ring_steady; [done|by rewrite H1|]. intros m' S. by apply wp_ret.
Qed.

(** A message that starts in the first mapping ends in the second. *)
Lemma readable_ring m h r off n :
  rings m !! rh_id h = Some r -> shape_ok n r -> 0 <= off < 4 * word_size (shared_hdr (sr_rb r)) ->
  readable (P_ring h off) (Z.max 16 n) m.
Proof.
  intros Hr (Hs1 & Hs2 & Hs3) Hoff at_ len Hat Hlen. unfold read_mem.
  apply wp_bind. eapply wp_get_ring; [done|]. cbn [shared_data with_flags].
  rewrite (proj2 (Z.leb_le _ _)) by lia. by apply wp_ret.
Qed.

Lemma shm_peek_law m x t :
  handles_ok (rings m) x ->
  wp (qb_ipc_shm_peek (c_request x) t) m (fun r m' => steady m m' /\
    (0 < fst r -> exists p, snd r = Some p /\ readable p (msg_room x) m')).
Proof.
  intros Hh. unfold qb_ipc_shm_peek. destruct (ow_rb (c_request x)) as [h|] eqn:Ho;
    [|apply wp_ret; split; [apply steady_refl|cbn; unfold ENOTCONN; lia]].
  destruct (Hh Ow_request h Ho) as (r & Hr & Hok). apply wp_bind. eapply wp_get_ring; [done|].
  destruct (qb_rb_chunk_peek _ _) as [[[o' rc] p]|] eqn:Hp; [|apply wp_loop].
  destruct (rshape_peek (with_flags (sr_rb r) (rh_flags h)) t _ _ _ ltac:(cbn; destruct Hok as (_ & ? & _); lia) Hp) as (rb' & -> & Hs & Hoff). apply wp_bind.
  eapply put_ring_steady; [done|by rewrite Hs|]. intros m' S. apply wp_ret. split; [done|]. cbn [fst snd].
  intros Hpos. assert (0 < rc) as Hrc by (destruct (Z.eqb_spec rc 0); [unfold EAGAIN in *; lia|done]).
  destruct (Hoff Hrc) as (off & -> & Hoff'). eexists. split; [done|].
  destruct (steady_ring _ _ _ _ S Hr) as (r' & Hr' & Hs'). eapply readable_ring; [done|by eapply shape_ok_same|].
  injection Hs' as _ Hw. rewrite Hw. exact Hoff'.
Qed.

Lemma shm_reclaim_law m x :
  handles_ok (rings m) x -> wp (qb_ipc_shm_reclaim (c_request x)) m (fun _ => steady m).
Proof.
  intros Hh. unfold qb_ipc_shm_reclaim. destruct (ow_rb (c_request x)) as [h|] eqn:Ho; [|apply wp_ret, steady_refl].
  destruct (Hh Ow_request h Ho) as (r & Hr & Hok). apply wp_bind. eapply wp_get_ring; [done|].
  unfold qb_rb_chunk_reclaim. pose proof (rshape_reclaim (with_flags (sr_rb r) (rh_flags h)) 0) as Hs.
  destruct (_rb_chunk_reclaim _ 0) as [[rb1 e1] rc]. cbn [fst] in *. eapply put_ring_steady; [done|by rewrite Hs|done].
Qed.

Lemma shm_fc_set_law m x v :
  handles_ok (rings m) x -> is_Some (ow_rb (c_request x)) ->
  wp (qb_ipc_shm_fc_set (c_request x) v) m (fun _ => steady m).
Proof.
  intros Hh [h Ho]. unfold qb_ipc_shm_fc_set. rewrite Ho. destruct (Hh Ow_request h Ho) as (r & Hr & _).
  unfold wp, put_user_data. rewrite Hr. by eapply steady_rings.
Qed.

Lemma shm_q_len_law m x o :
  handles_ok (rings m) x -> wp (qb_ipc_shm_q_len_get (c_ow x o)) m (fun _ => steady m).
Proof.
  intros Hh. unfold qb_ipc_shm_q_len_get. destruct (ow_rb (c_ow x o)) as [h|] eqn:Ho; [|apply wp_ret, steady_refl].
  destruct (Hh o h Ho) as (r & Hr & _). apply wp_bind. eapply wp_get_ring; [done|]. apply wp_ret, steady_refl.
Qed.

(** ** Opening and closing *)

(** Only [c] is touched, and it is left with rings that exist. *)
Definition good (c : Z) (x y : qb_ipcs_connection) (m m' : machine) : Prop :=
  touches c x y m m' /\ handles_ok (rings m') y /\ same_sizes x y.

Lemma good_trans c x y z m1 m2 m3 : good c x y m1 m2 -> good c y z m2 m3 -> good c x z m1 m3.
Proof.
  intros ([A1 A2 A3 A4 A5 A6 A7 A8 A9] & _ & A10) ([B1 B2 B3 B4 B5 B6 B7 B8 B9] & B10 & B11).
  split_and!; [|done|]; [|intros o; rewrite B11; apply A10]. constructor; try congruence; try lia.
  - by rewrite B6, A6, insert_insert_eq.
  - intros k Hk. rewrite B8 by lia. by apply A8.
  - intros k H1 H2. apply B9; [done|]. apply A9; [lia|done].
Qed.

Lemma good_steady c x m m' :
  steady m m' -> conns m !! c = Some x -> handles_ok (rings m) x -> good c x x m m'.
Proof.
  intros S Hx Hh. pose proof S as [S1 S2 S3 S4 S5 S6 S7]. split_and!; [|by eapply handles_steady|done].
  constructor; try done; [lia|by rewrite S2, insert_id|].
  intros k _ Hk. specialize (S7 k). rewrite Hk in S7. by destruct (rings m' !! k).
Qed.

Lemma good_put c x y m :
  conns m !! c = Some x -> core y = core x -> handles_ok (rings m) y -> same_sizes x y -> good c x y m (put_conn m c y).
Proof. intros Hx Hc Hh Hs. split_and!; [|done|done]. constructor; cbn; try done; lia. Qed.

Lemma good_conn c x y m m' : good c x y m m' -> conns m' !! c = Some y.
Proof. intros ([A1 A2 A3 A4 A5 A6 A7 A8 A9] & _). rewrite A6. apply lookup_insert_eq. Qed.

Lemma rb_destroy_spec force orb m :
  (forall h, orb = Some h -> exists r, rings m !! rh_id h = Some r) ->
  wp (rb_destroy force orb) m (fun _ => steady m).
Proof.
  intros Hh. unfold rb_destroy. destruct orb as [h|]; [|apply wp_ret, steady_refl].
  destruct (Hh h eq_refl) as (r & Hr). apply wp_bind. eapply wp_get_ring; [done|]. apply wp_bind, wp_get.
  cbn [qb_rb_lastref_and_ret snd]. destruct force; cbn [qb_rb_force_close qb_rb_close];
    (apply wp_bind; eapply put_ring_steady; [done|done|]); intros m1 S1; unfold rb_gone, when; apply wp_bind;
    (apply wp_quiet; [auto with ipc|]); intros a m2 S2; (apply wp_mono with (fun _ => steady m2);
    [case_match; [apply wp_modify; by constructor|apply wp_ret, steady_refl]|]);
    intros [] m3 S3; (eapply steady_trans; [exact S1|]); by eapply steady_trans.
Qed.

Lemma close_ring_spec c o m x :
  conns m !! c = Some x -> handles_ok (rings m) x ->
  wp (close_ring c o) m (fun _ m' => good c x (set_c_ow x o (set_ow_rb (c_ow x o) None)) m m' /\ fresh m' = fresh m).
Proof.
  intros Hx Hh. unfold close_ring. wp_go. eapply wp_mono; [eapply rb_destroy_spec|].
  { intros h Ho. destruct (Hh o h Ho) as (r & ? & _). eauto. }
  intros [] m1 S1. cbv beta in S1. pose proof (good_steady c x m m1 S1 Hx Hh) as G1.
  eapply wp_mod_conn; [by eapply good_conn|]. split; [|apply (st_fresh _ _ S1)]. eapply good_trans; [exact G1|].
  apply good_put; [by eapply good_conn|by destruct o| |by intros []; destruct o].
  intros o' h. destruct (decide (o' = o)) as [->|Hne]; [by destruct o|].
  assert (c_ow (set_c_ow x o (set_ow_rb (c_ow x o) None)) o' = c_ow x o') as -> by (by destruct o, o').
  apply G1.
Qed.

(** Only the rings that [b] allows are closed. *)
Definition loses (b : bool) (x y : qb_ipcs_connection) : Prop :=
  forall o, ow_rb (c_ow y o) = ow_rb (c_ow x o) \/ (b = true /\ ow_rb (c_ow y o) = None).

(** What steps that close rings, or none, do to a connection. *)
Definition closing (b : bool) (c : Z) (x : qb_ipcs_connection) (m m' : machine) : Prop :=
  exists y, good c x y m m' /\ fresh m' = fresh m /\ c_description y = c_description x /\ loses b x y.

Lemma closing_quiet {A} (k : M A) b c x m :
  quiet k -> conns m !! c = Some x -> handles_ok (rings m) x -> wp k m (fun _ => closing b c x m).
Proof.
  intros Hk Hx Hh. apply wp_quiet; [done|]. intros _ m' S. exists x.
  split_and!; [by apply good_steady|apply (st_fresh _ _ S)|done|by left].
Qed.

Lemma closing_bind {A B} (k1 : M A) (k2 : A -> M B) b c x m :
  wp k1 m (fun _ => closing b c x m) ->
  (forall a m' y, conns m' !! c = Some y -> handles_ok (rings m') y -> svc m' = svc m ->
     c_description y = c_description x -> wp (k2 a) m' (fun _ => closing b c y m')) ->
  wp (k1 ≫= k2) m (fun _ => closing b c x m).
Proof.
  intros H1 H2. apply wp_bind. eapply wp_mono; [exact H1|]. intros a m1 (y & G & F & D & Ls).
  eapply wp_mono; [apply (H2 a m1 y); [by eapply good_conn|apply G|apply G|done]|].
  intros r m2 (z & G' & F' & D' & Ls').
  exists z. split_and!; [by eapply good_trans|congruence|congruence|].
  intros o. destruct (Ls' o) as [->|[-> ->]]; [apply Ls|by right].
Qed.

Lemma closing_ring c o m x :
  conns m !! c = Some x -> handles_ok (rings m) x -> wp (close_ring c o) m (fun _ => closing true c x m).
Proof.
  intros Hx Hh. eapply wp_mono; [by apply close_ring_spec|]. intros _ m' [G F].
  eexists. split_and!; [exact G|done|by destruct o|]. intros o'. destruct (decide (o' = o)) as [->|Hne].
  - right. by destruct o.
  - left. by destruct o, o'.
Qed.

Lemma closing_sock c sock b m x s :
  conns m !! c = Some x -> handles_ok (rings m) x -> svc m = Some s -> ready s ->
  wp (_ ← poll_fn s_dispatch_del (Loop_dispatch_del sock);
      _ ← qb_ipcc_us_sock_close sock;
      mod_conn c (fun x => set_c_setup x (set_ow_sock (c_setup x) (-1)))) m (fun _ => closing b c x m).
Proof.
  intros Hx Hh Hs (_ & _ & _ & _ & Hdel & _). apply closing_bind.
  { eapply wp_mono; [by apply (poll_fn_spec m s)|]. intros v m' S. exists x.
    split_and!; [by apply good_steady|apply (st_fresh _ _ S)|done|by left]. }
  intros _ m1 y Hy Hhy _ _. apply closing_bind; [by apply closing_quiet; auto with ipc|].
  intros _ m2 z Hz Hhz _ _. eapply wp_mod_conn; [done|]. eexists. split_and!; [apply good_put; try done| | |].
  - intros o. pose proof (Hhz o) as Hho. by destruct o.
  - by intros [].
  - done.
  - done.
  - left. by destruct o.
Qed.

Definition shm_open (x : qb_ipcs_connection) : Prop := is_Some (ow_rb (c_request x)).

Lemma shm_disconnect_law m c x s :
  conns m !! c = Some x -> handles_ok (rings m) x -> svc m = Some s -> ready s ->
  wp (qb_ipcs_shm_disconnect c) m (fun _ m' => exists y, touches c x y m m' /\ fresh m' = fresh m /\
    handles_ok (rings m') y /\ same_sizes x y /\
    (c_state x = QB_IPCS_CONNECTION_ESTABLISHED -> shm_open x -> shm_open y)).
Proof.
  intros Hx Hh Hs Hr.
  set (b := if decide (c_state x = QB_IPCS_CONNECTION_ESTABLISHED) then false else true).
  apply wp_mono with (fun _ => closing b c x m).
  2:{ intros _ m' (y & (T & H & Sz) & F & _ & Ls). exists y. split_and!; try done. intros He Ho.
      subst b. rewrite decide_True in Ls by done. destruct (Ls Ow_request) as [Heq|[? _]]; [|done].
      unfold shm_open in *. cbn in Heq. by rewrite Heq. }
  unfold qb_ipcs_shm_disconnect. apply wp_bind. eapply wp_get_conn; [done|]. apply closing_bind.
  { case_decide as Hst; [|by apply closing_quiet; auto with ipc].
    assert (b = true) as -> by (subst b; case_decide; [naive_solver congruence|done]).
    apply closing_bind; [by apply closing_ring|]. intros _ m1 y1 Hy1 Hh1 _ _.
    apply closing_bind; [by apply closing_ring|]. intros _ m2 y2 Hy2 Hh2 _ _. by apply closing_ring. }
  intros _ m1 y1 Hy1 Hh1 Hs1 _. apply closing_bind.
  { case_decide; [|by apply closing_quiet; auto with ipc]. case_match; [|by apply closing_quiet; auto with ipc].
    apply (closing_sock c _ b m1 y1 s); [done|done|by rewrite Hs1|done]. }
  intros _ m2 y2 Hy2 Hh2 _ _. apply wp_bind. eapply wp_get_conn; [done|]. by apply closing_quiet; auto with ipc.
Qed.

(** ** Connecting *)

(** A ring that is created has at least one page. *)
Lemma open_shape size fl e rb :
  64 <= page_size e <= 2 ^ 20 -> page_size e mod 4 = 0 -> 0 <= size < 2 ^ 32 ->
  has_flag fl QB_RB_FLAG_CREATE = true -> qb_rb_open size fl e = inr rb ->
  shape_ok size {| sr_rb := rb; sr_user_data := 0 |}.
Proof.
  intros Hp Hp4 Hsz Hcr.
  destruct (real_size_exactly e size) as (Hb & [k Hk] & H4); [lia|lia|by apply Z.mod_divide|].
  assert (64 <= real_size_of e size) as Hmin by (assert (0 < k) by nia; nia).
  unfold qb_rb_open, qb_rb_open_2. rewrite Hcr. repeat case_match; try done; intros [= <-].
  all: unfold shape_ok; cbn [sr_rb set_ref_count set_hdr set_data shared_data shared_hdr word_size];
    rewrite zlen_word_set, zlen_zrepeat, u32_small by zlia; split_and!; [done|zlia|lia].
Qed.

Lemma open_errno size fl e errno acts : qb_rb_open size fl e = inl (errno, acts) -> errno <> 0.
Proof. unfold qb_rb_open, qb_rb_open_2. repeat case_match; intros [= <- <-]; unfold ENOMEM; lia. Qed.

Definition no_rings_above (m : machine) : Prop := forall k, fresh m <= k -> rings m !! k = None.

(** The machine with a new ring. *)
Definition with_ring (m : machine) (name : list Z) (rb : qb_ringbuffer_s psem) : machine :=
  set_files (set_rings (set_fresh m (fresh m + 1)) (<[fresh m := {| sr_rb := rb; sr_user_data := 0 |}]> (rings m)))
    (<[name := fresh m]> (files m)).

Lemma rb_open_create m name size fl :
  0 <= size < 2 ^ 32 -> has_flag fl QB_RB_FLAG_CREATE = true ->
  wp (rb_open name size fl) m (fun r m' =>
    match r with
    | inl errno => errno <> 0 /\ steady m m' /\ calls m' = calls m /\ rings m' = rings m
    | inr h => h = {| rh_id := fresh m; rh_flags := fl |} /\
        exists rb, m' = with_ring m name rb /\ shape_ok size {| sr_rb := rb; sr_user_data := 0 |}
    end).
Proof.
  intros Hsz Hcr. unfold rb_open. rewrite Hcr. wp_go.
  destruct (qb_rb_open _ _ _) as [[errno acts]|rb] eqn:Ho.
  - apply open_errno in Ho. unfold when. case_match; wp_go; (split_and!; [done| |done..]); [by constructor|apply steady_refl].
  - assert (shape_ok size {| sr_rb := rb; sr_user_data := 0 |}) as Hok.
    { destruct (page_ok (calls m) name) as [Hp1 Hp2]. by eapply open_shape; [..|exact Ho]. }
    case_match; wp_go; eauto.
Qed.

(** A connection whose one-way [o] is given the ring [orb]. *)
Definition with_rb (x : qb_ipcs_connection) (o : ow_name) (orb : option ring_handle) : qb_ipcs_connection :=
  set_c_ow x o (set_ow_rb (c_ow x o) orb).

Lemma with_rb_same x o orb : ow_rb (c_ow (with_rb x o orb) o) = orb.
Proof. by destruct o. Qed.
Lemma with_rb_other x o o' orb : o' <> o -> c_ow (with_rb x o orb) o' = c_ow x o'.
Proof. by destruct o, o'. Qed.
Lemma with_rb_core x o orb : core (with_rb x o orb) = core x.
Proof. by destruct o. Qed.
Lemma with_rb_sizes x o orb : same_sizes x (with_rb x o orb).
Proof. intros []; by destruct o. Qed.

Lemma with_rb_handles rs x o orb :
  handles_ok rs x -> (forall h, orb = Some h -> exists r, rs !! rh_id h = Some r /\ shape_ok (ow_max_msg_size (c_ow x o)) r) ->
  handles_ok rs (with_rb x o orb).
Proof.
  intros Hh Hr o' h. destruct (decide (o' = o)) as [->|Hne]; [rewrite with_rb_same, (with_rb_sizes x o orb o); apply Hr|].
  rewrite with_rb_other by done. apply Hh.
Qed.

Lemma good_with_ring c o x m name fl rb :
  conns m !! c = Some x -> handles_ok (rings m) x -> no_rings_above m ->
  shape_ok (ow_max_msg_size (c_ow x o)) {| sr_rb := rb; sr_user_data := 0 |} ->
  let y := with_rb x o (Some {| rh_id := fresh m; rh_flags := fl |}) in
  good c x y m (put_conn (with_ring m name rb) c y).
Proof.
  intros Hx Hh Hn Hok y. split_and!; [| |apply with_rb_sizes].
  - constructor; cbn; try done; try lia.
    + apply with_rb_core.
    + intros k Hk. by rewrite lookup_insert_ne by lia.
    + intros k Hk. by rewrite lookup_insert_ne by lia.
  - apply with_rb_handles; cbn.
    + intros o' h Ho'. destruct (Hh o' h Ho') as (r & Hr & ?). exists r. split; [|done].
      rewrite lookup_insert_ne; [done|]. intros Heq. rewrite <- Heq, Hn in Hr by lia. done.
    + intros h [= <-]. cbn. rewrite lookup_insert_eq. eauto.
Qed.

(** What opening the ring of the one-way [o] leaves. *)
Definition opened_ring (c : Z) (o : ow_name) (x : qb_ipcs_connection) (m : machine) (res : Z) (m' : machine) : Prop :=
  exists y, good c x y m m' /\ no_rings_above m' /\ (forall o', o' <> o -> c_ow y o' = c_ow x o') /\
    (res = 0 -> is_Some (ow_rb (c_ow y o))) /\ (res <> 0 -> ow_rb (c_ow y o) = None).

Lemma above_steady m m' : steady m m' -> no_rings_above m -> no_rings_above m'.
Proof.
  intros S Hn k Hk. rewrite (st_fresh _ _ S) in Hk. pose proof (st_rings _ _ S k) as Hr. rewrite (Hn k Hk) in Hr.
  by destruct (rings m' !! k).
Qed.

Lemma opened_closed c o x m m1 y res :
  good c x y m m1 -> no_rings_above m1 -> (forall o', o' <> o -> c_ow y o' = c_ow x o') -> res <> 0 ->
  wp (_ ← close_ring c o; mret res) m1 (opened_ring c o x m).
Proof.
  intros G Hn Ho Hr. apply wp_bind. eapply wp_mono; [apply (close_ring_spec c o m1 y); [by eapply good_conn|apply G]|].
  intros _ m2 [G2 F2]. cbv beta in G2, F2. apply wp_ret. fold (with_rb y o None) in G2.
  exists (with_rb y o None). split_and!; [by eapply good_trans| | |done|intros _; apply with_rb_same].
  - intros k Hk. apply (to_new _ _ _ _ _ (proj1 G2)); [done|]. apply Hn. lia.
  - intros o' Hne. rewrite with_rb_other by done. by apply Ho.
Qed.

Lemma shm_rb_open_spec c o name m x :
  conns m !! c = Some x -> handles_ok (rings m) x -> sizes_ok x -> no_rings_above m ->
  wp (qb_ipcs_shm_rb_open c o name) m (opened_ring c o x m).
Proof.
  intros Hx Hh Hsz Hn. unfold qb_ipcs_shm_rb_open. apply wp_bind. eapply wp_get_conn; [done|]. apply wp_bind.
  eapply wp_mono; [apply rb_open_create; [apply Hsz|reflexivity]|]. intros [errno|h] m1; cbv beta iota.
  - intros (He & S & _). pose proof (good_steady c x m m1 S Hx Hh) as G1. apply wp_bind.
    eapply wp_mod_conn; [by eapply good_conn|]. apply wp_ret. exists (with_rb x o None).
    split_and!; [| |intros o' Hne; by apply with_rb_other|lia|intros _; apply with_rb_same].
    + eapply good_trans; [exact G1|]. apply good_put; [by eapply good_conn|apply with_rb_core| |apply with_rb_sizes].
      by apply with_rb_handles; [apply G1|].
    + change (no_rings_above m1). by apply (above_steady m).
  - intros [-> (rb & -> & Hok)]. apply wp_bind. eapply wp_mod_conn; [done|].
    set (fl := Z.lor QB_RB_FLAG_CREATE QB_RB_FLAG_SHARED_PROCESS).
    set (y := with_rb x o (Some {| rh_id := fresh m; rh_flags := fl |})).
    pose proof (good_with_ring c o x m name fl rb Hx Hh Hn Hok : good c x y m _) as G.
    set (m1 := put_conn (with_ring m name rb) c y) in G.
    change (put_conn (with_ring m name rb) c (set_c_ow _ _ _)) with m1.
    assert (Hn1 : no_rings_above m1).
    { intros k Hk. cbn in Hk |- *. rewrite lookup_insert_ne by lia. apply Hn. lia. }
    assert (Hoth : forall o', o' <> o -> c_ow y o' = c_ow x o') by (intros; by apply with_rb_other).
    assert (Hnext : forall m2, steady m1 m2 -> good c x y m m2 /\ no_rings_above m2).
    { intros m2 S. split; [|by eapply above_steady]. eapply good_trans; [exact G|].
      apply good_steady; [done|by eapply good_conn|apply G]. }
    apply wp_bind, wp_quiet; [auto with ipc|]. intros a1 m2 S2. destruct (Hnext m2 S2) as [G2 Hn2].
    destruct (Z.eqb_spec (ret a1) 0) as [E1|E1]; [cbn [negb]|by eapply opened_closed].
    apply wp_bind, wp_quiet; [auto with ipc|]. intros a2 m3 S3.
    destruct (Hnext m3) as [G3 Hn3]; [by eapply steady_trans|].
    destruct (Z.eqb_spec (ret a2) 0) as [E2|E2]; [cbn [negb]|by eapply opened_closed].
    apply wp_ret. exists y. split_and!; try done. intros _. subst y. rewrite with_rb_same. eauto.
Qed.

(** What connecting leaves: all three rings, or, if it fails, none; the
    response carries the result. *)
Definition has_rings (y : qb_ipcs_connection) : Prop :=
  is_Some (ow_rb (c_request y)) /\ is_Some (ow_rb (c_response y)) /\ is_Some (ow_rb (c_event y)).
Definition no_rings (y : qb_ipcs_connection) : Prop := forall o, ow_rb (c_ow y o) = None.
Definition connected (c : Z) (x : qb_ipcs_connection) (m : machine)
    (res : Z * qb_ipc_connection_response) (m' : machine) : Prop :=
  exists y, good c x y m m' /\ no_rings_above m' /\ r_error (snd res) = fst res /\
    (fst res = 0 -> has_rings y) /\ (fst res <> 0 -> no_rings x -> no_rings y).

(** The connection has no ring but those of [opened]. *)
Definition rings_of (x y : qb_ipcs_connection) (opened : list ow_name) : Prop :=
  no_rings x -> forall o, o ∉ opened -> ow_rb (c_ow y o) = None.

Lemma connect_error_spec c x r res opened : forall m m1 y,
  good c x y m m1 -> no_rings_above m1 -> rings_of x y opened -> res <> 0 ->
  wp (shm_connect_error c opened r res) m1 (connected c x m).
Proof.
  unfold shm_connect_error. induction opened as [|o rest IH]; intros m m1 y G Hn Ho Hr; cbn [foldr].
  - apply wp_bind, wp_ret, wp_ret. exists y. split_and!; try done. intros _ Hx o. apply Ho; [done|]. set_solver.
  - apply wp_bind, wp_bind. eapply wp_mono; [apply (close_ring_spec c o m1 y); [by eapply good_conn|apply G]|].
    intros _ m2 [G2 F2]. cbv beta in G2, F2. fold (with_rb y o None) in G2.
    eapply wp_bind_inv, (IH _ _ (with_rb y o None)); [by eapply good_trans| | |done].
    + intros k Hk. apply (to_new _ _ _ _ _ (proj1 G2)); [done|]. apply Hn. lia.
    + intros Hx o' Ho'. destruct (decide (o' = o)) as [->|Hne]; [apply with_rb_same|].
      rewrite with_rb_other by done. apply Ho; [done|]. set_solver.
Qed.

Lemma shm_connect_spec m c x s r :
  conns m !! c = Some x -> handles_ok (rings m) x -> sizes_ok x -> svc m = Some s -> ready s ->
  no_rings_above m -> wp (qb_ipcs_shm_connect c r) m (connected c x m).
Proof.
  intros Hx Hh Hsz Hs (_ & _ & Hadd & _) Hn. unfold qb_ipcs_shm_connect.
  apply wp_bind. eapply wp_get_service; [done|]. apply wp_bind. eapply wp_get_conn; [done|].
  apply wp_bind, wp_quiet; [quiet_go|]. intros _ m0 S0. pose proof (good_steady c x m m0 S0 Hx Hh) as G0.
  assert (Hstep : forall o name m1 y k (Q : Z * qb_ipc_connection_response -> machine -> Prop),
    good c x y m m1 -> no_rings_above m1 ->
    (forall res m2 z, good c x z m m2 -> no_rings_above m2 -> (forall o', o' <> o -> c_ow z o' = c_ow y o') ->
       (res = 0 -> is_Some (ow_rb (c_ow z o))) -> (res <> 0 -> ow_rb (c_ow z o) = None) -> wp (k res) m2 Q) ->
    wp (qb_ipcs_shm_rb_open c o name ≫= k) m1 Q).
  { intros o name m1 y k Q G Hn1 Hk. apply wp_bind.
    eapply wp_mono; [apply (shm_rb_open_spec c o name m1 y); [by eapply good_conn|apply G| |done]|].
    - eapply same_sizes_ok; [apply G|done].
    - intros res m2 (z & G2 & Hn2 & Ho & H0 & H1). eapply Hk; [by eapply good_trans|done..]. }
  assert (Hfail : forall o y z opened, (forall o', o' <> o -> c_ow z o' = c_ow y o') -> ow_rb (c_ow z o) = None ->
    rings_of x y opened -> rings_of x z opened).
  { intros o y z opened Ho Hz Hy Hx0 o' Hn'. destruct (decide (o' = o)) as [->|Hne]; [done|].
    rewrite Ho by done. by apply Hy. }
  assert (Hadds : forall o y z opened, (forall o', o' <> o -> c_ow z o' = c_ow y o') ->
    rings_of x y opened -> rings_of x z (o :: opened)).
  { intros o y z opened Ho Hy Hx0 o' Hn'. rewrite Ho by set_solver. apply Hy; [done|set_solver]. }
  assert (R0 : rings_of x x []) by (intros Hx0 o _; apply Hx0).
  eapply Hstep; [exact G0|by eapply above_steady|]. intros r1 m1 y1 G1 Hn1 Ho1 H1 H1'.
  destruct (Z.eqb_spec r1 0) as [E1|E1]; [cbn [negb]|by eapply connect_error_spec; eauto].
  pose proof (Hadds _ _ _ _ Ho1 R0) as R1.
  eapply Hstep; [exact G1|done|]. intros r2 m2 y2 G2 Hn2 Ho2 H2 H2'.
  destruct (Z.eqb_spec r2 0) as [E2|E2]; [cbn [negb]|by eapply connect_error_spec; eauto].
  pose proof (Hadds _ _ _ _ Ho2 R1) as R2.
  eapply Hstep; [exact G2|done|]. intros r3 m3 y3 G3 Hn3 Ho3 H3 H3'.
  destruct (Z.eqb_spec r3 0) as [E3|E3]; [cbn [negb]|by eapply connect_error_spec; eauto].
  pose proof (Hadds _ _ _ _ Ho3 R2) as R3.
  apply wp_bind. eapply wp_mono; [apply (poll_fn_spec m3 s); [|done]|].
  { by rewrite (to_svc _ _ _ _ _ (proj1 G3)). }
  intros r4 m4 S4. assert (good c x y3 m m4) as G4.
  { eapply good_trans; [exact G3|]. apply good_steady; [done|by eapply good_conn|apply G3]. }
  destruct (Z.eqb_spec r4 0) as [E4|E4]; [cbn [negb]|].
  2:{ by apply (connect_error_spec c x _ _ _ m m4 y3 G4); [apply (above_steady m3)| |]. }
  apply wp_ret. exists y3. split_and!; [done|by apply (above_steady m3)|done| |done]. intros _.
  change (is_Some (ow_rb (c_ow y3 Ow_request)) /\ is_Some (ow_rb (c_ow y3 Ow_response)) /\
          is_Some (ow_rb (c_ow y3 Ow_event))).
  rewrite !Ho3, Ho2 by done. auto.
Qed.

#[export] Instance shm_laws : TransportLaws shm_funcs.
Proof.
  refine {| tl_open := shm_open |}.
  - intros x y H. unfold shm_open. change (c_request ?z) with (c_ow z Ow_request). by rewrite H.
  - exact shm_send_law.
  - exact shm_sendv_law.
  - exact shm_fc_set_law.
  - intros m x o f Hh [= <-]. by apply shm_q_len_law.
  - intros m x t pk rc Hh [= <- <-]. by apply shm_peek_law.
  - intros m x pk rc Hh [= <- <-]. by apply shm_reclaim_law.
  - eauto.
  - exact shm_disconnect_law.
  - intros m c x s f r Hx Hh Hsz Hs Hr Hn [= <-]. eapply wp_mono; [by eapply shm_connect_spec|].
    intros res m' (y & (T & H & Sz) & Hn' & _ & Ho & _). exists y. split_and!; try done. intros Hz. by apply Ho.
  - eauto.
Defined.

(** ** The rings of a connection that fails *)

(** Since the machine [m0], the ring [k] was unmapped and its memory freed. *)
Definition closed_since (m0 m : machine) (k : Z) : Prop :=
  exists new acts, calls m = calls m0 ++ new /\ Sys_rb_close k acts ∈ new.*1 /\
    (exists n, Close_munmap_data n ∈ acts) /\ Close_munmap_hdr ∈ acts /\ Close_free_rb ∈ acts.

(** Every ring created since [m0] was closed, or is that of a one-way of [opened]
    of the connection [c]; the other one-ways have none. *)
Definition accounts (c : Z) (m0 : machine) (opened : list ow_name) (m : machine) : Prop :=
  calls m0 `prefix_of` calls m /\ exists y, conns m !! c = Some y /\ sizes_ok y /\
    (forall o, o ∉ opened -> ow_rb (c_ow y o) = None) /\
    forall k, fresh m0 <= k -> is_Some (rings m !! k) ->
      closed_since m0 m k \/ exists o h, ow_rb (c_ow y o) = Some h /\ rh_id h = k.

(** [post x m Q]: if [x] returns, [Q] holds. *)
Definition post {A} (x : M A) (m : machine) (Q : A -> machine -> Prop) : Prop :=
  forall a m', x m = Done a m' -> Q a m'.
Lemma post_ret {A} (a : A) m (Q : A -> machine -> Prop) : Q a m -> post (mret a) m Q.
Proof. by intros HQ a' m' [= <- <-]. Qed.
Lemma post_bind {A B} (x : M A) (k : A -> M B) m Q :
  post x m (fun a m' => post (k a) m' Q) -> post (x ≫= k) m Q.
Proof.
  intros H b m' Hr. unfold mbind, M_bind in Hr. destruct (x m) as [a m1|] eqn:Hx; [|done]. by eapply H.
Qed.
Lemma post_bind_inv {A B} (x : M A) (k : A -> M B) m Q :
  post (x ≫= k) m Q -> post x m (fun a m' => post (k a) m' Q).
Proof. intros H a m1 Hx b m2 Hk. apply H. unfold mbind, M_bind. by rewrite Hx. Qed.
Lemma post_mono {A} (x : M A) m (P Q : A -> machine -> Prop) :
  post x m P -> (forall a m', P a m' -> Q a m') -> post x m Q.
Proof. intros H HPQ a m' Hr. by apply HPQ, H. Qed.
Lemma wp_post {A} (x : M A) m (P Q : A -> machine -> Prop) :
  wp x m P -> post x m Q -> wp x m (fun a m' => P a m' /\ Q a m').
Proof. unfold wp, post. destruct (x m) as [a m'|[]]; auto. Qed.

Lemma post_wp {A} (x : M A) m (P : A -> machine -> Prop) : wp x m P -> post x m P.
Proof. unfold wp, post. by intros H a m' Hr; rewrite Hr in H. Qed.
Lemma post_get_conn c x m Q : conns m !! c = Some x -> Q x m -> post (get_conn c) m Q.
Proof. intros Hx HQ. apply post_wp. by eapply wp_get_conn. Qed.

Lemma closed_since_more m0 m m' k :
  calls m `prefix_of` calls m' -> closed_since m0 m k -> closed_since m0 m' k.
Proof.
  intros [l Hl] (new & acts & Hc & Hk & Ha). exists (new ++ l), acts. rewrite Hl, Hc, fmap_app.
  split; [by rewrite (assoc_L (++))|]. split; [set_solver|done].
Qed.

Lemma accounts_calls c m0 opened m k a :
  accounts c m0 opened m -> accounts c m0 opened (set_calls m (calls m ++ [(k, a)])).
Proof.
  intros (Hp & y & Hy & Hz & Ho & Hr). assert (Hp' : calls m `prefix_of` calls m ++ [(k, a)]) by by eexists.
  split; [by etrans|]. exists y. split_and!; [done..|]. intros i Hi Hs.
  destruct (Hr i Hi Hs); [left|by right]. by eapply closed_since_more.
Qed.

Lemma accounts_sys c m0 opened k m (Q : answer -> machine -> Prop) :
  accounts c m0 opened m -> (forall a m', accounts c m0 opened m' -> Q a m') -> post (sys k) m Q.
Proof. intros Ha HQ a m' [= <- <-]. by apply HQ, accounts_calls. Qed.

Lemma rb_destroy_calls h m :
  post (rb_destroy false (Some h)) m (fun _ m' => conns m' = conns m /\ (forall k, is_Some (rings m' !! k) -> is_Some (rings m !! k)) /\
    exists acts a, calls m' = calls m ++ [(Sys_rb_close (rh_id h) acts, a)] /\
      (exists n, Close_munmap_data n ∈ acts) /\ Close_munmap_hdr ∈ acts /\ Close_free_rb ∈ acts).
Proof.
  intros [] m'. cbn [rb_destroy]. unfold get_ring, mbind, M_bind. destruct (rings m !! rh_id h) as [r|] eqn:Hr; [|done].
  cbn -[qb_rb_close_helper]. unfold put_ring. rewrite Hr. set (acts := fst (qb_rb_close_helper _ _ _ _)).
  assert (Hacts : (exists n, Close_munmap_data n ∈ acts) /\ Close_munmap_hdr ∈ acts /\ Close_free_rb ∈ acts).
  { unfold acts, qb_rb_close_helper. case_match. case_match; cbn [fst]; (split_and!; [eexists|..]); apply elem_of_app; right; repeat constructor. }
  unfold rb_gone, when, mbind, M_bind, sys. cbn. clearbody acts. destruct (_ && _); cbn; intros [= <-]; cbn.
  all: split_and!; [done| |by eexists _, _].
  all: intros k [r' Hk]; destruct (decide (k = rh_id h)) as [->|Hne]; [by eexists|].
  all: rewrite lookup_insert_ne in Hk by done; eauto.
Qed.

Lemma accounts_close c m0 o opened m :
  accounts c m0 (o :: opened) m -> post (close_ring c o) m (fun _ => accounts c m0 opened).
Proof.
  intros (Hp & y & Hy & Hz & Ho & Hr). unfold close_ring. apply post_bind. eapply post_get_conn; [done|]. apply post_bind.
  assert (Hend : forall m1, conns m1 = conns m -> calls m `prefix_of` calls m1 ->
    (forall k, is_Some (rings m1 !! k) -> is_Some (rings m !! k)) ->
    (forall h, ow_rb (c_ow y o) = Some h -> closed_since m0 m1 (rh_id h)) ->
    post (mod_conn c (fun x => set_c_ow x o (set_ow_rb (c_ow x o) None))) m1 (fun _ => accounts c m0 opened)).
  { intros m1 Hc1 Hp1 Hr1 Hcl [] m2. unfold mod_conn. rewrite Hc1, Hy. intros [= <-]. split; [by etrans|].
    fold (with_rb y o None). exists (with_rb y o None). split; [apply lookup_insert_eq|]. split; [by eapply same_sizes_ok, Hz; apply with_rb_sizes|]. split.
    - intros o' Ho'. destruct (decide (o' = o)) as [->|Hne]; [apply with_rb_same|]. rewrite with_rb_other by done.
      apply Ho. set_solver.
    - intros k Hk Hs. destruct (Hr k Hk (Hr1 k Hs)) as [Hc|(o' & h & Hh & Hi)].
      + left. by eapply closed_since_more.
      + destruct (decide (o' = o)) as [->|Hne]; [left; rewrite <- Hi; by apply Hcl|]. right. exists o', h.
        by rewrite with_rb_other. }
  destruct (ow_rb (c_ow y o)) as [h|] eqn:Hh.
  - eapply post_mono; [apply rb_destroy_calls|]. intros _ m1 (Hc1 & Hr1 & acts & a & Hl & Ha).
    apply Hend; [done|by eexists|done|]. intros h' [= <-]. destruct Hp as [l0 Hl0].
    exists (l0 ++ [(Sys_rb_close (rh_id h) acts, a)]), acts. rewrite Hl, Hl0, <- (assoc_L (++)), fmap_app.
    split; [done|]. split; [cbn; set_solver|done].
  - apply post_ret. by apply Hend.
Qed.

Lemma mod_conn_accounts c m0 o orb opened m m1 y :
  accounts c m0 opened m -> conns m !! c = Some y -> o ∉ opened -> conns m1 = conns m -> calls m1 = calls m ->
  (forall k, is_Some (rings m1 !! k) -> is_Some (rings m !! k) \/ exists h, orb = Some h /\ rh_id h = k) ->
  post (mod_conn c (fun x => set_c_ow x o (set_ow_rb (c_ow x o) orb))) m1
    (fun _ => accounts c m0 (match orb with Some _ => o :: opened | None => opened end)).
Proof.
  intros (Hp & y0 & Hy0 & Hz & Ho & Hr) Hy Hn Hc1 Hl1 Hr1 [] m2. assert (y0 = y) as -> by congruence. clear Hy0.
  unfold mod_conn. rewrite Hc1, Hy. intros [= <-]. fold (with_rb y o orb).
  split; [cbn; by rewrite Hl1|]. exists (with_rb y o orb). split; [apply lookup_insert_eq|]. split; [by eapply same_sizes_ok, Hz; apply with_rb_sizes|]. split.
  - intros o' Ho'. destruct (decide (o' = o)) as [->|Hne].
    + rewrite with_rb_same. destruct orb; [|done]. set_solver.
    + rewrite with_rb_other by done. apply Ho. destruct orb; set_solver.
  - intros k Hk Hs. destruct (Hr1 k Hs) as [Hs'|(h & -> & Hi)].
    + destruct (Hr k Hk Hs') as [Hc|(o' & h & Hh & Hi)].
      * left. eapply closed_since_more; [|done]. cbn. by rewrite Hl1.
      * right. exists o', h. rewrite with_rb_other; [done|]. intros ->. by rewrite (Ho o Hn) in Hh.
    + right. exists o, h. by rewrite with_rb_same.
Qed.

Lemma accounts_open c m0 o name opened m :
  o ∉ opened -> accounts c m0 opened m ->
  post (qb_ipcs_shm_rb_open c o name) m (fun res => accounts c m0 (if res =? 0 then o :: opened else opened)).
Proof.
  intros Hn Ha. pose proof Ha as (_ & y & Hy & Hsz & _). unfold qb_ipcs_shm_rb_open.
  apply post_bind. eapply post_get_conn; [done|]. apply post_bind.
  eapply post_mono; [apply post_wp, rb_open_create; [apply Hsz|done]|]. intros [errno|h] m1; cbv beta iota.
  - intros (He & S & Hl & Hr). apply post_bind.
    eapply post_mono; [apply (mod_conn_accounts c m0 o None opened m m1 y); try done; [apply S|]|].
    + intros k. rewrite Hr. by left.
    + intros ? m2 H2. apply post_ret. by rewrite (proj2 (Z.eqb_neq _ _)) by lia.
  - intros [-> (rb & -> & _)]. apply post_bind. set (h := {| rh_id := fresh m |}).
    eapply post_mono; [apply (mod_conn_accounts c m0 o (Some h) opened m _ y); try done|].
    { intros k. cbn. intros [r Hr]. destruct (decide (fresh m = k)) as [<-|Hne]; [right; by exists h|].
      rewrite lookup_insert_ne in Hr by done. left. eauto. }
    intros ? m2 H2. cbv beta iota in H2.
    assert (Hcl : forall m' res, accounts c m0 (o :: opened) m' -> res <> 0 ->
      post (_ ← close_ring c o; mret res) m' (fun res => accounts c m0 (if res =? 0 then o :: opened else opened))).
    { intros m' res H' Hr. apply post_bind. eapply post_mono; [by apply accounts_close|]. intros ? m3 H3.
      apply post_ret. by rewrite (proj2 (Z.eqb_neq _ _)) by done. }
    apply post_bind. eapply accounts_sys; [exact H2|]. intros a3 m3 H3.
    destruct (Z.eqb_spec (ret a3) 0); cbn [negb]; [|by apply Hcl].
    apply post_bind. eapply accounts_sys; [exact H3|]. intros a4 m4 H4.
    destruct (Z.eqb_spec (ret a4) 0); cbn [negb]; [|by apply Hcl]. apply post_ret.
    by rewrite (proj2 (Z.eqb_eq _ _)).
Qed.

Lemma accounts_error c m0 r res opened : forall m,
  accounts c m0 opened m -> res <> 0 ->
  post (shm_connect_error c opened r res) m (fun res => accounts c m0 (if fst res =? 0 then [Ow_event; Ow_response; Ow_request] else [])).
Proof.
  unfold shm_connect_error. induction opened as [|o rest IH]; intros m Ha Hr; cbn [foldr].
  - apply post_bind, post_ret, post_ret. cbn. by rewrite (proj2 (Z.eqb_neq _ _)) by done.
  - apply post_bind, post_bind. eapply post_mono; [by apply accounts_close|]. intros ? m1 H1.
    eapply post_bind_inv, IH; [exact H1|done].
Qed.

Lemma connect_accounts m c x s r :
  conns m !! c = Some x -> no_rings x -> sizes_ok x -> svc m = Some s -> ready s -> no_rings_above m ->
  post (qb_ipcs_shm_connect c r) m (fun res => accounts c m (if fst res =? 0 then [Ow_event; Ow_response; Ow_request] else [])).
Proof.
  intros Hx Hno Hsz Hs (_ & _ & Hadd & _) Hn.
  assert (A0 : accounts c m [] m).
  { split; [done|]. exists x. split_and!; [done..|]. intros k Hk. rewrite Hn by done. by intros []. }
  unfold qb_ipcs_shm_connect.
  apply post_bind. intros s' m' Hg. unfold get_service in Hg. rewrite Hs in Hg. injection Hg as <- <-. apply post_bind. eapply post_get_conn; [done|].
  apply post_bind. apply post_mono with (fun _ => accounts c m []).
  { case_match; [|by apply post_ret]. apply post_bind. eapply accounts_sys; [done|]. intros ? m' H'. by apply post_ret. }
  intros ? m1 H1. apply post_bind. eapply post_mono; [apply (accounts_open c m Ow_request _ []); [set_solver|done]|].
  intros r1 m2 H2. cbv beta in H2. destruct (Z.eqb_spec r1 0); cbn [negb]; [|by apply accounts_error].
  apply post_bind. eapply post_mono; [apply (accounts_open c m Ow_response _ [Ow_request]); [set_solver|done]|].
  intros r2 m3 H3. cbv beta in H3. destruct (Z.eqb_spec r2 0); cbn [negb]; [|by apply accounts_error].
  apply post_bind. eapply post_mono; [apply (accounts_open c m Ow_event _ [Ow_response; Ow_request]); [set_solver|done]|].
  intros r3 m4 H4. cbv beta in H4. destruct (Z.eqb_spec r3 0); cbn [negb]; [|by apply accounts_error].
  apply post_bind. apply post_mono with (fun _ => accounts c m [Ow_event; Ow_response; Ow_request]).
  { unfold poll_fn. apply post_bind. intros s' m' Hg. unfold get_service in Hg. destruct (svc m4); [|done].
    injection Hg as <- <-. case_match; [|done]. apply post_bind. eapply accounts_sys; [done|]. intros ? m' H'.
    by apply post_ret. }
  intros r4 m5 H5. cbv beta in H5. destruct (Z.eqb_spec r4 0); cbn [negb]; [|by apply accounts_error].
  by apply post_ret.
Qed.

(** C6. Connecting over shared memory is all or nothing.  For a connection that
    has no rings yet, [qb_ipcs_shm_connect] returns 0 with the rings for
    requests, responses and events open; or, whichever step failed, an error, the
    connection's pointers to rings NULL and each ring that was created meanwhile
    unmapped and freed by a call of [qb_rb_close].  The response carries the same
    result. *)
Theorem shm_connect_all_or_nothing m c x s r :
  conns m !! c = Some x -> no_rings x -> sizes_ok x -> svc m = Some s -> ready s -> no_rings_above m ->
  wp (qb_ipcs_shm_connect c r) m (fun res m' =>
    r_error (snd res) = fst res /\ exists y, conns m' !! c = Some y /\
      if fst res =? 0 then has_rings y
      else no_rings y /\ forall k, fresh m <= k -> is_Some (rings m' !! k) -> closed_since m m' k).
Proof.
  intros Hx Hno Hsz Hs Hr Hn. assert (Hh : handles_ok (rings m) x) by (intros o h; by rewrite Hno).
  eapply wp_mono; [apply wp_post; [by eapply shm_connect_spec|by eapply connect_accounts]|].
  intros res m' [(y & G & _ & He & H0 & H1) (_ & y' & Hy' & _ & Ho & Hc)]. split; [done|].
  exists y'. split; [done|]. assert (y' = y) as -> by (pose proof (good_conn _ _ _ _ _ G); congruence).
  destruct (Z.eqb_spec (fst res) 0); [by apply H0|]. split; [by apply H1|]. intros k Hk Hs'.
  destruct (Hc k Hk Hs') as [|(o & h & Hh' & _)]; [done|]. by rewrite (H1 n Hno o) in Hh'.
Qed.
End Laws.
