(* ===== verification/IpcsTheorems.v ===== *)
(** * The IPC service: theorems

    Runs of the service, from its creation on, as sequences of callbacks of the
    main loop and of calls by the application. *)
From stdpp Require Import strings gmap functions.
From S2P Require Import Prelude Memory Cstring RingBuffer RingBufferOpen Loop IpcBase IpcSock Ipcs IpcShm IpcSetup.
From S2P Require Import IpcLogic IpcInv IpcsSafe IpcsLife IpcShmLaws.

(** ** What can happen to a service *)

Inductive event :=
  | Ev_acceptor (fd revents : Z)
  | Ev_auth (d revents : Z)
  | Ev_dispatch (c revents : Z)
  | Ev_connection_ref (c : Z)
  | Ev_connection_unref (c : Z)
  | Ev_disconnect (c : Z)
  | Ev_response_send (c : Z) (data : list Z)
  | Ev_response_sendv (c : Z) (iov : list (list Z))
  | Ev_event_send (c : Z) (data : list Z)
  | Ev_event_sendv (c : Z) (iov : list (list Z))
  | Ev_rate_limit (rl : qb_ipcs_rate_limit)
  | Ev_unref
  | Ev_destroy.

Section Theorems.
Context {E : Env}.
Context (fuel : nat).
Context (funcs : qb_ipc_type -> qb_ipcs_funcs).
Context (serv_fns : qb_ipcs_service_handlers).

Definition ignore {A} (x : M A) : M unit := _ ← x; mret tt.

Definition run_event (e : event) : M unit :=
  match e with
  | Ev_acceptor fd revents => ignore (qb_ipcs_us_connection_acceptor fuel fd revents)
  | Ev_auth d revents => ignore (process_auth fuel funcs serv_fns revents d)
  | Ev_dispatch c revents => ignore (qb_ipcs_dispatch_connection_request fuel funcs serv_fns revents (Some c))
  | Ev_connection_ref c => qb_ipcs_connection_ref (Some c)
  | Ev_connection_unref c => qb_ipcs_connection_unref funcs serv_fns (Some c)
  | Ev_disconnect c => qb_ipcs_disconnect funcs serv_fns (Some c)
  | Ev_response_send c data => ignore (qb_ipcs_response_send funcs serv_fns (Some c) data)
  | Ev_response_sendv c iov => ignore (qb_ipcs_response_sendv funcs serv_fns (Some c) iov)
  | Ev_event_send c data => ignore (qb_ipcs_event_send fuel funcs serv_fns (Some c) data)
  | Ev_event_sendv c iov => ignore (qb_ipcs_event_sendv fuel funcs serv_fns (Some c) iov)
  | Ev_rate_limit rl => ignore (qb_ipcs_request_rate_limit funcs serv_fns rl)
  | Ev_unref => qb_ipcs_unref
  | Ev_destroy => qb_ipcs_destroy funcs serv_fns
  end.

Context {L : forall t, TransportLaws (funcs t)}.
Context {EO : EnvOk E}.
Abbreviation inv := (ipcs_inv funcs).

(** When each may happen: callbacks while they are registered, calls about a
    connection that is alive, releases of references that are held. *)
Definition allowed (e : event) (m : machine) (g : ghost) : Prop :=
  let serving := exists s, svc m = Some s /\ s_ref_count s < 2 ^ 31 - 1 in
  let usable c := g_refs g c < MAX_REFS in
  match e with
  | Ev_acceptor _ _ => serving
  | Ev_auth d _ => serving /\ exists x, auths m !! d = Some x /\ d_s x = true
  | Ev_dispatch c _ | Ev_disconnect c => g_own g c = true /\ usable c
  | Ev_connection_ref c | Ev_response_send c _ | Ev_response_sendv c _ => is_Some (conns m !! c) /\ usable c
  | Ev_connection_unref c => 1 <= g_refs g c
  | Ev_event_send c _ | Ev_event_sendv c _ =>
    exists x, conns m !! c = Some x /\ room_for_event x /\ usable c
  | Ev_rate_limit _ => is_Some (svc m) /\ no_inactive m g
  | Ev_unref => 1 <= g_svc g
  | Ev_destroy => 1 <= g_svc g /\ forall c, c ∈ conn_list m -> g_own g c = true /\ usable c
  end.

(** Who holds references afterwards. *)
Definition holders (e : event) (g g' : ghost) : Prop :=
  match e with
  | Ev_connection_ref c => g' = set_refs g c (g_refs g c + 1)
  | Ev_connection_unref c => g' = set_refs g c (g_refs g c - 1)
  | Ev_dispatch c _ | Ev_disconnect c => grows_but (eq c) g g'
  | Ev_unref => g' = set_gsvc g (g_svc g - 1)
  | Ev_destroy => g_svc g - 1 <= g_svc g'
  | _ => grows g g'
  end.

Context (App : AppOk funcs serv_fns).
Context (Hbuf : forall h n, ret (reply h (Sys_calloc (Alloc_receive_buf n))) <> 0).

Lemma wp_ignore {A} (x : M A) m (Q : machine -> Prop) :
  wp x m (fun _ m' => Q m') -> wp (ignore x) m (fun _ m' => Q m').
Proof. intros H. apply wp_bind. eapply wp_mono; [exact H|]. intros a m' HQ. by apply wp_ret. Qed.

Lemma kept_holders {A} (x : M A) m g :
  wp x m (fun _ m' => kept funcs m g m' g) -> wp (ignore x) m (fun _ m' => exists g', inv m' g' /\ grows g g').
Proof.
  intros H. apply wp_ignore. eapply wp_mono; [exact H|]. intros a m' K. exists g. split; [apply K|apply grows_refl].
Qed.

Lemma event_safe e m g :
  inv m g -> allowed e m g -> wp (run_event e) m (fun _ m' => exists g', inv m' g' /\ holders e g g').
Proof.
  intros Hi. destruct e; cbn [allowed run_event holders].
  - intros (s & Hs & Hc). apply wp_ignore. eapply wp_mono; [by eapply acceptor_spec|].
    intros a m' H. exists g. split; [done|apply grows_refl].
  - intros ((s & Hs & Hc) & Hd). apply wp_ignore. by eapply process_auth_spec.
  - intros (Ho & Hu). apply wp_ignore. eapply wp_mono; [by eapply dispatch_spec|].
    intros a m' (g' & ? & ? & _). eauto.
  - intros ([x Hx] & Hu). eapply wp_mono; [by eapply ref_spec|]. intros [] m' (_ & H). eauto.
  - intros Hr. destruct (conns m !! c) as [x|] eqn:Hx.
    + pose proof (iv_conns _ _ _ Hi c x Hx) as [A B C D F G H Z0].
      eapply wp_mono; [apply (unref_spec funcs serv_fns (ao_destroyed _ _ App) m g (set_refs g c (g_refs g c - 1)) c x);
        [done|done|apply agree_but_refs| | |]|].
      * rewrite total_refs. unfold g_total. lia.
      * rewrite refs_insert. lia.
      * intros Hs _. by apply D.
      * intros [] m' (H' & _). eauto.
    + destruct (iv_none _ _ _ Hi c Hx). lia.
  - intros (Ho & Hu). destruct (owned_live _ _ _ _ Hi Ho) as (x & Hx). eapply wp_mono; [by eapply disconnect_spec|].
    intros a m' (g' & ? & ? & _). eauto.
  - intros ([x Hx] & Hu). apply kept_holders. by eapply response_send_spec.
  - intros ([x Hx] & Hu). apply kept_holders. by eapply response_sendv_spec.
  - intros (x & Hx & Hroom & Hu). apply kept_holders. by eapply event_send_spec.
  - intros (x & Hx & Hroom & Hu). apply kept_holders. by eapply event_sendv_spec.
  - intros ([s Hs] & Hn). apply kept_holders. by eapply rate_limit_spec.
  - intros Hg. eapply wp_mono; [by eapply unref_app|]. intros [] m' [H _]. eauto.
  - intros (Hg & Hc). eapply wp_mono; [by eapply destroy_spec|]. intros [] m' (g' & ? & ? & _). eauto.
Qed.

(** ** Starting *)

(** The application holds its reference to the service it created. *)
Definition created_ghost : ghost := {| g_svc := 1; g_own := fun _ => false; g_refs := fun _ => 0 |}.

(** A machine with a service that was just created. *)
Definition just_created (m : machine) : Prop :=
  (exists name id type pid, svc m = qb_ipcs_create name id type pid true) /\
  conns m = ∅ /\ conn_list m = [] /\ auths m = ∅ /\ forall k, fresh m <= k -> rings m !! k = None.

Lemma inv_created m s :
  svc m = Some s -> ready s -> s_ref_count s = 1 -> conns m = ∅ -> conn_list m = [] -> auths m = ∅ ->
  (forall k, fresh m <= k -> rings m !! k = None) -> inv m created_ghost.
Proof.
  intros Hs Hr Hc Hcs Hl Ha Hn. constructor; rewrite ?Hcs, ?Hl, ?Ha; try done.
  - unfold svc_ok, held. rewrite Hs, Hc, Hcs, Ha. split; [done|]. split; [|lia]. reflexivity.
  - split; [constructor|]. set_solver.
  - intros k Hk. rewrite !lookup_empty. auto.
Qed.

Lemma gone m g :
  inv m g -> g_svc g = 0 -> (forall c, g_total g c = 0) -> held m = 0 -> svc m = None.
Proof.
  intros Hi Hg Ht Hh. pose proof (iv_svc _ _ _ Hi) as Hv. unfold svc_ok in Hv. destruct (svc m) as [s|]; [|done].
  destruct Hv as (_ & Hc & Hp). assert (conns m = ∅) as He.
  { apply map_empty. intros c. destruct (conns m !! c) as [x|] eqn:Hx; [|done].
    pose proof (iv_conns _ _ _ Hi c x Hx) as [A B _ _ _ _ _ _]. specialize (Ht c). lia. }
  rewrite He, map_size_empty in Hc. lia.
Qed.

Lemma publish_spec m g s :
  inv m g -> svc m = Some s -> wp qb_ipcs_us_publish m (fun _ m' => kept funcs m g m' g).
Proof.
  intros Hi Hs. pose proof (iv_svc _ _ _ Hi) as Hv. unfold svc_ok in Hv. rewrite Hs in Hv. destruct Hv as (Hrd & _).
  unfold qb_ipcs_us_publish, publish_error. apply wp_bind, wp_quiet; [auto with ipc|]. intros a m1 S1.
  apply wp_bind. eapply wp_mod_service; [by rewrite (st_svc _ _ S1)|].
  set (s2 := set_s_server_sock _ _). set (m2 := set_svc _ _).
  assert (K2 : kept funcs m g m2 g).
  { eapply kept_trans; [by apply kept_steady|]. split_and!; [|apply grows_refl|eauto|done|done].
    eapply inv_service; [by eapply inv_steady|by rewrite (st_svc _ _ S1)|done|done|done]. }
  assert (Hk : forall m', steady m2 m' -> kept funcs m g m' g).
  { intros m' S. eapply kept_trans; [exact K2|]. apply kept_steady; [apply K2|done]. }
  destruct (_ =? -1); [by apply wp_ret|].
  apply wp_bind, wp_quiet; [auto with ipc|]. intros a3 m3 S3.
  destruct (_ <? 0); [apply wp_quiet; [quiet_go|]; intros ? m4 S4; apply Hk; by eapply steady_trans|].
  apply wp_bind. eapply wp_get_service; [by rewrite (st_svc _ _ S3)|]. apply wp_bind.
  apply wp_quiet; [quiet_go|]. intros de m4 S4. pose proof (steady_trans _ _ _ S3 S4) as S24.
  destruct de as [res|]; [apply wp_quiet; [quiet_go|]; intros ? m5 S5; apply Hk; by eapply steady_trans|].
  apply wp_bind, wp_quiet; [auto with ipc|]. intros a5 m5 S5. pose proof (steady_trans _ _ _ S24 S5) as S25.
  destruct (negb _); [apply wp_quiet; [quiet_go|]; intros ? m6 S6; apply Hk; by eapply steady_trans|].
  apply wp_bind, wp_quiet; [unfold when; quiet_go|]. intros ? m6 S6. apply wp_bind, wp_quiet; [auto with ipc|].
  intros ? m7 S7. apply wp_bind, wp_quiet; [auto with ipc|]. intros ? m8 S8.
  pose proof (steady_trans _ _ _ (steady_trans _ _ _ S25 S6) (steady_trans _ _ _ S7 S8)) as S28.
  eapply wp_mono; [eapply (poll_fn_spec m8 s2); [by rewrite (st_svc _ _ S28)|apply Hrd]|].
  intros r m9 S9. apply Hk. by eapply steady_trans.
Qed.

(** [qb_ipcs_run] publishes the service, or frees it. *)
Lemma run_spec m :
  just_created m ->
  wp (_ ← qb_ipcs_poll_handlers_set true true true true; qb_ipcs_run) m (fun res m' =>
    if res <? 0 then svc m' = None else inv m' created_ghost).
Proof.
  intros ((name & id & type & pid & Hs) & Hcs & Hl & Ha & Hn). unfold qb_ipcs_create in Hs. cbn [negb] in Hs.
  set (s0 := {| s_type := _ |}) in Hs. unfold qb_ipcs_poll_handlers_set. wp_first. wp_first.
  set (m1 := set_svc _ _). set (s1 := set_s_dispatch_del _ _) in m1. unfold qb_ipcs_run.
  apply wp_bind. eapply (wp_get_service s1); [done|]. change (_ && s_dispatch_del s1) with true. cbn [negb].
  apply wp_bind.
  assert (Hbad : forall e, 0 < e -> wp (_ ← when (- e <? 0) qb_ipcs_unref; mret (- e)) m1 (fun res m' =>
    if res <? 0 then svc m' = None else inv m' created_ghost)).
  { intros e He. destruct (Z.ltb_spec (- e) 0); [|lia]. unfold when. apply wp_bind.
    eapply (unref_service m1 s1); [done|cbn; lia|]. apply wp_ret. destruct (Z.ltb_spec (- e) 0); [done|lia]. }
  assert (Hgood : forall t b, wp (res ← qb_ipcs_us_publish;
        _ ← when (res <? 0) (_ ← qb_ipcs_us_withdraw; mret tt); mret res)
      (set_svc m1 (Some (set_s_needs_sock_for_poll (set_s_funcs s1 (Some t)) b))) (fun res m' =>
      wp (_ ← when (res <? 0) qb_ipcs_unref; mret res) m' (fun res m' =>
        if res <? 0 then svc m' = None else inv m' created_ghost))).
  { intros t b. set (m2 := set_svc m1 _). set (s2 := set_s_needs_sock_for_poll _ _) in m2.
    assert (I2 : inv m2 created_ghost).
    { by apply (inv_created m2 s2). }
    apply wp_bind. eapply wp_mono; [by apply (publish_spec m2 created_ghost s2)|]. intros res m3 K3. cbv beta in K3.
    unfold when. destruct (Z.ltb_spec res 0).
    - apply wp_bind, wp_bind. pose proof (iv_svc _ _ _ (proj1 K3)) as Hv. unfold svc_ok in Hv.
      destruct (svc m3) as [s3|] eqn:Hs3; [|cbn in Hv; lia].
      eapply wp_mono; [apply (withdraw_spec funcs m3 created_ghost s3); [apply K3|done]|]. intros r m4 K4. cbv beta in K4. apply wp_ret, wp_ret.
      destruct (Z.ltb_spec res 0); [|lia]. apply wp_bind.
      eapply wp_mono; [eapply (unref_app funcs m4); [apply K4|cbn; lia]|]. intros [] m5 [I5 A5]. apply wp_ret.
      destruct (Z.ltb_spec res 0); [|lia]. eapply gone; [done|done|done|].
      unfold held. rewrite A5. destruct K4 as (_ & _ & _ & _ & ->), K3 as (_ & _ & _ & _ & ->). cbn. by rewrite Ha.
    - apply wp_bind, wp_ret, wp_ret. destruct (Z.ltb_spec res 0); [lia|]. apply wp_bind, wp_ret, wp_ret.
      destruct (Z.ltb_spec res 0); [lia|]. apply K3. }
  apply wp_bind. unfold init_transport. destruct (s_type s1); cbn [mret].
  all: try (apply wp_bind; eapply (wp_mod_service _ s1); [done|]; apply wp_ret; cbn [Z.eqb]; apply Hgood).
  all: apply wp_ret; cbn [Z.eqb]; apply wp_ret; by (apply (Hbad EINVAL) || apply (Hbad ENOTSUP)).
Qed.

(** ** Runs *)

(** A connection exists exactly as long as somebody holds a reference to it, its
    count is the number of references held, and the service exists as long as
    it, one of its connections or a client that is being authenticated needs
    it.  Every entry of the list is a connection. *)
Definition accounted (m : machine) (g : ghost) : Prop :=
  (forall c, is_Some (conns m !! c) <-> 0 < g_total g c) /\
  (forall c x, conns m !! c = Some x -> c_refcount x = g_total g c) /\
  (is_Some (svc m) <-> 0 < g_svc g + Z.of_nat (size (conns m)) + held m) /\
  NoDup (conn_list m) /\ (forall c, c ∈ conn_list m -> is_Some (conns m !! c)).

Lemma inv_accounted m g : inv m g -> accounted m g.
Proof.
  intros Hi. pose proof Hi as [Hv Hg Hc Hn [Hl1 Hl2] Hf]. split_and!; [| | |done|done].
  - intros c. split.
    + intros [x Hx]. pose proof (Hc c x Hx) as [A B _ _ _ _ _ _]. lia.
    + intros Ht. destruct (conns m !! c) as [x|] eqn:Hx; [eauto|]. destruct (Hn c Hx) as [H1 H2].
      unfold g_total in Ht. rewrite H1, H2 in Ht. cbn in Ht. lia.
  - intros c x Hx. apply (Hc c x Hx).
  - unfold svc_ok in Hv. destruct (svc m) as [s|].
    + destruct Hv as (_ & Heq & Hpos). split; [lia|eauto].
    + destruct Hv as (Hcs & Hh & H0). rewrite Hcs, map_size_empty, Hh, H0. split; [by intros []|lia].
Qed.

(** Each event of [es] that is allowed when its turn comes runs without a
    fault, and all is accounted for before and after it. *)
Fixpoint runs_safely (es : list event) (m : machine) (g : ghost) : Prop :=
  accounted m g /\
  match es with
  | [] => True
  | e :: es => allowed e m g -> wp (run_event e) m (fun _ m' => exists g', holders e g g' /\ runs_safely es m' g')
  end.

Lemma inv_runs_safely es : forall m g, inv m g -> runs_safely es m g.
Proof.
  induction es as [|e es IH]; intros m g Hi; cbn [runs_safely]; (split; [by apply inv_accounted|]); [done|].
  intros Ha. eapply wp_mono; [by apply event_safe|]. intros [] m' (g' & Hi' & Hh). eauto.
Qed.

(** Over any transport that keeps the laws. *)
Lemma service_safe_over es m :
  just_created m ->
  wp (_ ← qb_ipcs_poll_handlers_set true true true true; qb_ipcs_run) m (fun res m' =>
    if res <? 0 then svc m' = None else runs_safely es m' created_ghost).
Proof.
  intros Hm. eapply wp_mono; [by apply run_spec|]. intros res m' H. cbv beta in H. destruct (res <? 0); [done|].
  by apply inv_runs_safely.
Qed.
End Theorems.

(** ** The service over shared memory *)

Section Shm.
Context {E : Env} {EO : EnvOk E}.
Context (fuel : nat).
Context (serv_fns : qb_ipcs_service_handlers).

(** The only table of functions in use is the one that [qb_ipcs_shm_init]
    installs. *)
Definition over_shm (t : qb_ipc_type) : qb_ipcs_funcs := shm_funcs.
#[local] Instance over_shm_laws t : TransportLaws (over_shm t) := shm_laws.

End Shm.
