(* ===== verification/IpcsServe.v ===== *)
(** * Requests are served in order

    A connection over shared memory whose request ring holds the messages [q]:
    one call of the dispatch function hands the oldest of them to the
    application, in order and each once, and takes one byte per message off the
    setup socket. *)
From stdpp Require Import strings gmap.
From S2P Require Import Prelude Memory Cstring RingBuffer RingBufferOpen RingBufferInv RingBufferSpec Loop IpcBase IpcSock.
From S2P Require Import Ipcs IpcShm IpcLogic.

(** ** Reading a message through the ring *)

Lemma slice_within m off n at_ len :
  0 <= at_ -> 0 <= len -> at_ + len <= n ->
  slice m (off + at_) len = take (Z.to_nat len) (drop (Z.to_nat at_) (slice m off n)).
Proof.
  intros H1 H2 H3. unfold slice. rewrite <- fmap_drop, <- fmap_take. 
  apply list_eq. intros i. rewrite !list_lookup_fmap.
  destruct (decide (i < Z.to_nat len)%nat) as [Hi|Hi].
  - rewrite lookup_take_lt, lookup_drop, !lookup_seqZ_lt by lia. cbn. do 3 f_equal. lia.
  - rewrite lookup_take_ge, lookup_seqZ_ge by lia. done.
Qed.

(** A chunk ends before the double mapping does. *)
Lemma data_fits {I} (rb : qb_ringbuffer_s I) d q :
  rb_inv rb (d :: q) ->
  0 <= QB_RB_CHUNK_DATA_GET rb (read_pt (shared_hdr rb)) /\
  QB_RB_CHUNK_DATA_GET rb (read_pt (shared_hdr rb)) + zlen d <= 2 * zlen (shared_data rb).
Proof.
  intros [Hw Hm Hr _ Hu _]. cbn [used] in Hu. pose proof (chunk_words_bytes d). pose proof (used_nonneg q).
  unfold QB_RB_CHUNK_DATA_GET. rewrite Hm.
  pose proof (Z.mod_pos_bound (u32 (read_pt (shared_hdr rb) + QB_RB_CHUNK_HEADER_WORDS)) (word_size (shared_hdr rb)) ltac:(lia)).
  lia.
Qed.

(** What a request's header says. *)
Definition hdr_id (d : list Z) : Z := i32 (le_combine (take 4 d)).
Definition hdr_size (d : list Z) : Z := i32 (le_combine (take 4 (drop 8 d))).

Section Serve.
Context {E : Env}.
Context (fuel : nat).
Context (funcs : qb_ipc_type -> qb_ipcs_funcs).
Context (serv_fns : qb_ipcs_service_handlers).
(** The connection [c] of the service [s], whose requests come through [w]. *)
Context (s : qb_ipcs_service) (c : Z) (w : qb_ipc_one_way) (h : ring_handle) (sock : Z) (t : qb_ipc_type).
Context (Hfuncs : s_funcs s = Some t /\ funcs t = shm_funcs).
Context (Hw : ow_rb w = Some h).

(** What the library relies on while it serves requests. *)
Definition view (m : machine) : Prop :=
  svc m = Some s /\
  exists x, conns m !! c = Some x /\ c_request x = w /\ c_fc_enabled x = 0 /\ ow_sock (c_setup x) = sock.

Definition ring_holds (m : machine) (q : list (list Z)) : Prop :=
  exists r env, rings m !! rh_id h = Some r /\ rb_rep (with_flags (sr_rb r) (rh_flags h)) q env.

(** A message that the library passes on to the application. *)
Definition request_ok (d : list Z) : Prop :=
  hdr_id d <> QB_IPC_MSG_DISCONNECT /\ hdr_size d = zlen d /\ 12 <= zlen d <= ow_max_msg_size w.

(** ** The application

    [Log l m]: the application has been given the messages [l].  It is a fact
    about the machine that counting, taking messages off the ring and receiving
    from the setup socket do not change. *)
Context (Log : list (list Z) -> machine -> Prop).
Record LogOk : Prop := {
  lo_stats : forall l m x st, Log l m -> conns m !! c = Some x -> Log l (put_conn m c (set_c_stats x st));
  lo_ring : forall l m r, Log l m -> Log l (set_rings m (<[rh_id h := r]> (rings m)));
  lo_recv : forall l m sk n a, Log l m -> Log l (set_calls m (calls m ++ [(Sys_recv sk n, a)]));
  lo_process : forall l d m p, Log l m -> view m -> read_mem p 0 (zlen d) m = Done d m ->
    returns (msg_process serv_fns c p (zlen d)) m (fun res m' =>
      0 <= res /\ Log (l ++ [d]) m' /\ view m' /\ rings m' !! rh_id h = rings m !! rh_id h);
}.
Context (App : LogOk).

Lemma get_shm_funcs m Q : view m -> Q shm_funcs m -> returns (get_funcs funcs) m Q.
Proof.
  intros [Hs _] HQ. unfold get_funcs, returns, mbind, M_bind, get_service. rewrite Hs.
  destruct Hfuncs as [-> Hf]. cbn. by rewrite Hf.
Qed.

Lemma returns_get_conn m Q :
  view m -> (forall x, conns m !! c = Some x -> c_request x = w -> c_fc_enabled x = 0 -> ow_sock (c_setup x) = sock -> Q x m) ->
  returns (get_conn c) m Q.
Proof. intros (_ & x & Hx & H1 & H2 & H3) HQ. unfold returns, get_conn. rewrite Hx. by apply HQ. Qed.

Lemma view_stats m x st : view m -> conns m !! c = Some x -> view (put_conn m c (set_c_stats x st)).
Proof.
  intros (Hs & y & Hy & H1 & H2 & H3) Hx. split; [done|]. assert (y = x) as -> by congruence.
  exists (set_c_stats x st). split; [apply put_conn_lookup|done].
Qed.

(** The oldest message of the ring, as it is being processed. *)
Definition peeked (m : machine) (d : list Z) (q : list (list Z)) : Prop :=
  exists r env, rings m !! rh_id h = Some r /\
    let rb := with_flags (sr_rb r) (rh_flags h) in
    rb_inv rb (d :: q) /\ notifier rb = posix_notifier /\ has_flag (flags rb) QB_RB_FLAG_OVERWRITE = false /\
    instance rb = {| posix_sem := zlen q; wait_env := env |} /\ env_ok env.

(** Where that message is. *)
Definition at_head (m : machine) (p : ptr) (d : list Z) : Prop :=
  forall at_ len, 0 <= at_ -> 0 <= len -> at_ + len <= zlen d ->
    read_mem p at_ len m = Done (take (Z.to_nat len) (drop (Z.to_nat at_) d)) m.

Lemma peek_serves m d q ms :
  view m -> ring_holds m (d :: q) -> 0 < zlen d ->
  returns (qb_ipc_shm_peek w ms) m (fun r m' =>
    exists off rr, let p := P_ring h off in r = (zlen d, Some p) /\ m' = set_rings m (<[rh_id h := rr]> (rings m)) /\
      peeked m' d q /\ at_head m' p d).
Proof.
  intros Hv (r & env & Hr & Hrep) Hd0. pose proof Hrep as [Hinv Hn Hf Hs He].
  unfold qb_ipc_shm_peek. rewrite Hw. apply returns_bind. unfold returns at 1, get_ring. rewrite Hr.
  set (rb := with_flags _ _) in *. unfold qb_rb_chunk_peek. rewrite (wait_notifier_rep _ _ _ _ Hrep).
  change ((0 <? 0) && negb (0 =? - EIDRM)) with false. cbv beta iota zeta.
  set (rb1 := set_instance _ _).
  assert (Hinv1 : rb_inv rb1 (d :: q)) by by apply rb_inv_set_instance.
  rewrite (head_magic _ _ _ Hinv1), (head_size _ _ _ Hinv1), Z.eqb_refl. cbn [negb].
  apply returns_bind. unfold returns at 1, put_ring. rewrite Hr. apply returns_ret. cbn [fmap option_fmap option_map].
  destruct (Z.eqb_spec (zlen d) 0); [lia|]. exists (QB_RB_CHUNK_DATA_GET rb1 (read_pt (shared_hdr rb1))).
  exists {| sr_rb := rb1; sr_user_data := sr_user_data r |}. split_and!; [done|done| |].
  - exists {| sr_rb := rb1; sr_user_data := sr_user_data r |}, env. split; [apply lookup_insert_eq|].
    cbv zeta. split; [exact Hinv1|]. by split_and!.
  - intros at_ len H1 H2 H3. unfold read_mem, mbind, M_bind, get_ring. cbn [rings set_rings]. rewrite lookup_insert_eq.
    cbn [sr_rb shared_data with_flags]. pose proof (head_data _ _ _ Hinv1) as Hd. pose proof (data_fits _ _ _ Hinv1).
    rewrite (proj2 (Z.leb_le _ _)) by lia. rewrite (slice_within _ _ (zlen d)) by lia. by rewrite Hd.
Qed.

Lemma read_ring_frame h' off at_ n m m' d :
  rings m' = rings m -> read_mem (P_ring h' off) at_ n m = Done d m -> read_mem (P_ring h' off) at_ n m' = Done d m'.
Proof.
  intros Hr. unfold read_mem, mbind, M_bind, get_ring. rewrite Hr. destruct (rings m !! _); [|done].
  destruct (_ <=? _); [|done]. by intros [= <-].
Qed.

Lemma returns_read_i32 p at_ d m Q :
  at_head m p d -> 0 <= at_ -> at_ + 4 <= zlen d ->
  Q (i32 (le_combine (take 4 (drop (Z.to_nat at_) d)))) m -> returns (read_i32 p at_) m Q.
Proof.
  intros Hp H0 H4 HQ. unfold read_i32. apply returns_bind. eapply returns_eq; [by apply Hp|]. by apply returns_ret.
Qed.

Lemma reclaim_serves m d q :
  view m -> peeked m d q ->
  returns (qb_ipc_shm_reclaim w) m (fun _ m' =>
    ring_holds m' q /\ exists rr, m' = set_rings m (<[rh_id h := rr]> (rings m))).
Proof.
  intros Hv (r & env & Hr & Hinv & Hn & Hf & Hs & He). unfold qb_ipc_shm_reclaim. rewrite Hw. apply returns_bind.
  unfold returns at 1, get_ring. rewrite Hr. set (rb := with_flags _ _) in *.
  unfold qb_rb_chunk_reclaim. rewrite (reclaim_inv _ d q) by done. rewrite Hn. cbn [posix_notifier reclaim_fn fst].
  unfold returns, put_ring. rewrite Hr. split; [|eauto].
  eexists _, env. split; [apply lookup_insert_eq|]. cbn [sr_rb].
  constructor; try done. by eapply (drop_head_inv rb d q).
Qed.

(** One request is processed. *)
Lemma process_serves l m d q :
  Log l m -> view m -> ring_holds m (d :: q) -> request_ok d ->
  returns (_process_request_ funcs serv_fns c IPC_REQUEST_TIMEOUT) m (fun res m' =>
    res = zlen d /\ Log (l ++ [d]) m' /\ view m' /\ ring_holds m' q).
Proof.
  intros Hl Hv Hr (Hid & Hsz & Hlen). unfold _process_request_, receive_request.
  apply returns_bind, returns_bind, get_shm_funcs; [done|]. apply returns_bind, returns_get_conn; [done|].
  intros x Hx Hxw _ _. cbn [peek_reclaim shm_funcs fn_peek fn_reclaim]. rewrite Hxw.
  eapply returns_mono; [apply (peek_serves m d q); [done|done|lia]|].
  intros [size hdr] m1 (off & rr & [= -> ->] & Hm1 & Hpk & Hat). set (p := P_ring h off) in *.
  assert (Hl1 : Log l m1) by (rewrite Hm1; by apply (lo_ring App)).
  assert (Hv1 : view m1) by (by rewrite Hm1). clear Hm1.
  destruct (Z.ltb_spec (zlen d) 0); [lia|]. destruct (Z.eqb_spec (zlen d) 0); [lia|].
  apply returns_bind. eapply returns_read_i32; [done|lia|lia|]. change (drop (Z.to_nat 0) d) with d.
  fold (hdr_id d). destruct (Z.eqb_spec (hdr_id d) QB_IPC_MSG_DISCONNECT); [done|].
  apply returns_bind. eapply returns_read_i32; [done|lia|lia|]. change (Z.to_nat 8) with 8%nat.
  fold (hdr_size d). rewrite Hsz.
  apply returns_bind, returns_get_conn; [done|]. intros x1 Hx1 Hx1w _ _. rewrite Hx1w.
  destruct (Z.leb_spec (zlen d) 0); [lia|]. destruct (Z.ltb_spec (ow_max_msg_size w) (zlen d)); [lia|]. cbn [orb].
  apply returns_bind. unfold mod_stats, mod_conn, returns at 1. rewrite Hx1.
  change (set_conns m1 (<[c := ?y]> (conns m1))) with (put_conn m1 c y).
  set (m2 := put_conn m1 c _). apply returns_bind.
  eapply returns_mono; [apply (lo_process App l d m2 p)|].
  - by apply (lo_stats App).
  - by apply view_stats.
  - apply (read_ring_frame h off 0 (zlen d) m1); [done|]. rewrite Hat by lia.
    change (drop (Z.to_nat 0) d) with d. rewrite take_ge; [done|unfold zlen; lia].
  - intros res m3 (Hres & Hl3 & Hv3 & Hr3). destruct (Z.ltb_spec res 0); [lia|].
    apply returns_bind, get_shm_funcs; [done|]. apply returns_bind, returns_get_conn; [done|].
    intros x3 Hx3 Hx3w _ _. cbn [peek_reclaim shm_funcs fn_peek fn_reclaim]. rewrite Hx3w. apply returns_bind.
    eapply returns_mono; [apply (reclaim_serves m3 d q); [done|]|].
    + destruct Hpk as (rp & env & Hrp & Hrest). exists rp, env. by rewrite Hr3.
    + intros [] m4 [Hr4 (rr4 & ->)]. apply returns_ret. split_and!; [done|by apply (lo_ring App)|done|done].
Qed.

(** The loop over [q1], the messages that were counted before it. *)
Lemma loop_serves q2 q1 : forall l n recvd m,
  q1 <> [] -> Log l m -> view m -> ring_holds m (q1 ++ q2) -> Forall request_ok q1 -> (length q1 <= n)%nat ->
  0 <= recvd -> recvd + zlen q1 < 2 ^ 31 ->
  returns (request_loop funcs serv_fns n c (zlen q1) recvd) m (fun r m' =>
    exists res, 0 < res /\ r = inr (res, recvd + zlen q1) /\ Log (l ++ q1) m' /\ view m' /\ ring_holds m' q2).
Proof.
  induction q1 as [|d q1 IH]; intros l n recvd m Hne Hl Hv Hr Hok Hn H0 Hmax; [done|].
  destruct n as [|n]; [cbn in Hn; lia|]. inversion Hok as [|? ? Hd Hok1]; subst. cbn [request_loop].
  apply returns_bind. eapply returns_mono; [by apply (process_serves l m d (q1 ++ q2))|].
  intros res m1 (-> & Hl1 & Hv1 & Hr1). pose proof Hd as (_ & _ & Hdl).
  destruct (Z.eqb_spec (zlen d) (- ESHUTDOWN)); [unfold ESHUTDOWN in *; lia|].
  destruct (Z.ltb_spec 0 (zlen d)); [|lia]. cbn [orb]. rewrite zlen_cons in *. rewrite i32_small by (pose proof (zlen_nonneg q1); lia).
  apply returns_bind, returns_get_conn; [done|]. intros x Hx _ Hfc _. rewrite Hfc. cbn [Z.eqb]. rewrite !andb_true_r.
  replace (1 + zlen q1 - 1) with (zlen q1) by lia. destruct q1 as [|d1 q1].
  - apply returns_ret. exists (zlen d). rewrite zlen_nil. split_and!; [done|by rewrite Z.add_0_r|done|done|done].
  - pose proof (zlen_nonneg q1). rewrite (zlen_cons d1 q1) in *. destruct (Z.ltb_spec 0 (1 + zlen q1)); [|lia].
    rewrite <- (zlen_cons d1 q1) in *.
    eapply returns_mono; [apply (IH (l ++ [d]) n (recvd + 1) m1); [done|done|done|done|done|cbn in Hn |- *; lia|lia|lia]|].
    intros r m2 (res & Hres & -> & Hl2 & Hv2 & Hr2). exists res. rewrite <- app_assoc in Hl2.
    split_and!; [done|do 2 f_equal; lia|done|done|done].
Qed.

(** The messages that one call takes, by the priority of the service. *)
Definition batch : Z :=
  if s_poll_priority s =? QB_LOOP_MED then 5 else if s_poll_priority s =? QB_LOOP_LOW then 1 else MAX_RECV_MSGS.

Lemma q_len_serves m q :
  view m -> ring_holds m q ->
  returns (_request_q_len_get funcs c) m (fun n m' => n = Z.min batch (zlen q) /\ m' = m).
Proof.
  intros Hv (r & env & Hr & Hrep). unfold _request_q_len_get.
  apply returns_bind, get_shm_funcs; [done|]. apply returns_bind, returns_get_conn; [done|]. intros x Hx Hxw _ _.
  apply returns_bind. unfold returns at 1, get_service. rewrite (proj1 Hv).
  cbn [shm_funcs fn_q_len_get]. unfold qb_ipc_shm_q_len_get. rewrite Hxw, Hw.
  apply returns_bind, returns_bind. unfold returns at 1, get_ring. rewrite Hr. apply returns_ret.
  unfold qb_rb_chunks_used. destruct Hrep as [_ Hn _ Hs _]. rewrite Hn, Hs. cbn [posix_notifier q_len_fn].
  unfold my_posix_getvalue_fn. cbn [posix_sem]. pose proof (zlen_nonneg q). unfold batch, MAX_RECV_MSGS.
  destruct (Z.leb_spec (zlen q) 0); [apply returns_ret; split; [|done]; repeat case_match; lia|].
  rewrite !QB_MIN_min. repeat case_match; apply returns_ret; (split; [lia|done]).
Qed.

(** The setup socket holds the bytes that clients sent with their requests. *)
Context (Hrecv : forall hs n, ret (reply hs (Sys_recv sock n)) = n).

Lemma recv_serves x n timeout m Q :
  (0 < fuel)%nat -> ow_sock x = sock -> 0 < n < 2 ^ 31 ->
  (forall a bs, Q (n, bs) (set_calls m (calls m ++ [(Sys_recv sock n, a)]))) -> returns (qb_ipc_us_recv fuel x n timeout) m Q.
Proof.
  intros Hf Hx Hn HQ. unfold qb_ipc_us_recv. destruct fuel as [|f]; [lia|]. cbn [us_recv_loop].
  apply returns_bind. unfold returns at 1, sys. rewrite Hx, Z.sub_0_r, i32_small, Hrecv by lia.
  destruct (Z.eqb_spec n (-1)); [lia|]. destruct (Z.eqb_spec n 0); [lia|].
  cbn [Z.add]. rewrite i32_small, Z.eqb_refl by lia. cbn [negb]. apply returns_ret. apply HQ.
Qed.

Lemma batch_pos : 1 <= batch <= MAX_RECV_MSGS.
Proof. unfold batch, MAX_RECV_MSGS. repeat case_match; lia. Qed.

(** C3. Requests are served in order.  When a connection's request ring holds the
    messages [q], one call of the dispatch function gives the application the
    oldest ones, in order and each exactly once, as many as there are up to 50, 5
    or 1 depending on the service's rate; it leaves the others in the ring,
    takes one byte per message off the setup socket, and returns 0. *)
Theorem requests_in_order l q m revents :
  let k := Z.min batch (zlen q) in
  (0 < fuel)%nat -> s_needs_sock_for_poll s = true ->
  Log l m -> view m -> ring_holds m q -> q <> [] -> Forall request_ok q ->
  has_flag revents POLLNVAL = false -> has_flag revents POLLHUP = false -> has_flag revents POLLOUT = false ->
  returns (qb_ipcs_dispatch_connection_request fuel funcs serv_fns revents (Some c)) m (fun res m' =>
    res = 0 /\ Log (l ++ take (Z.to_nat k) q) m' /\ ring_holds m' (drop (Z.to_nat k) q) /\
    exists hs a, calls m' = hs ++ [(Sys_recv sock k, a)]).
Proof.
  intros k Hf Hns Hl Hv Hr Hq Hok R1 R2 R3. pose proof batch_pos as Hb. unfold MAX_RECV_MSGS in Hb.
  assert (0 < zlen q) as Hq0 by (destruct q as [|d0 q0]; [done|rewrite zlen_cons; pose proof (zlen_nonneg q0); lia]).
  assert (Hk0 : 1 <= k <= 50 /\ k <= zlen q) by (unfold k; lia).
  assert (Hk : zlen (take (Z.to_nat k) q) = k) by (clearbody k; unfold zlen in *; rewrite length_take; lia).
  unfold qb_ipcs_dispatch_connection_request. apply returns_bind. unfold dispatch_result. rewrite R1, R2, R3.
  apply returns_bind, returns_ret. cbn [andb]. apply returns_bind, returns_get_conn; [done|].
  intros x Hx _ Hfc _. rewrite Hfc. cbn [Z.eqb negb]. apply returns_bind.
  eapply returns_mono; [by eapply q_len_serves|]. intros ? ? [-> ->]. fold k.
  apply returns_bind. unfold returns at 1, get_service. rewrite (proj1 Hv), Hns.
  destruct (Z.eqb_spec k 0); [lia|]. cbn [andb]. unfold dispatch_requests. apply returns_bind.
  rewrite <- (take_drop (Z.to_nat k) q) in Hr, Hok. apply Forall_app in Hok as [Hok _].
  assert (length (take (Z.to_nat k) q) <= S (Z.to_nat k))%nat as Hn by (rewrite length_take; lia).
  pose proof (loop_serves (drop (Z.to_nat k) q) (take (Z.to_nat k) q) l (S (Z.to_nat k)) 0 m) as HL. rewrite Hk in HL.
  eapply returns_mono; [apply HL; try done; try lia|].
  - intros He. rewrite He, zlen_nil in Hk. lia.
  - intros r m1 (res & Hres & -> & Hl1 & Hv1 & Hr1). rewrite Z.add_0_l.
    apply returns_bind. unfold returns at 1, get_service. rewrite (proj1 Hv1), Hns.
    destruct (Z.ltb_spec 0 k); [|lia]. cbn [andb]. unfold MAX_RECV_MSGS. destruct (Z.ltb_spec 50 k); [lia|].
    apply returns_bind, returns_bind, returns_get_conn; [done|]. intros x1 Hx1 _ _ Hsk. apply returns_bind.
    apply recv_serves; [done|done|lia|]. intros a bs. apply returns_ret.
    replace (qb_ipc_us_sock_error_is_disconnected k) with false
      by (unfold qb_ipc_us_sock_error_is_disconnected; by destruct (Z.leb_spec 0 k); [|lia]).
    rewrite QB_MIN_min, Z.min_l by lia. apply returns_ret. cbn [Z.eqb orb]. apply returns_bind, returns_ret, returns_ret.
    split_and!; [done|by apply (lo_recv App)|done|]. eauto.
Qed.
End Serve.
