(* ===== verification/IpcsNotify.v ===== *)
(** * Announcing events

    A client that waits for events polls the setup socket, where the server puts
    one byte per event.  Bytes that the socket does not take yet are counted in
    [outstanding_notifiers] and sent later.  No event is announced twice or
    forgotten: the bytes sent and the bytes outstanding add up. *)
From stdpp Require Import strings gmap.
From S2P Require Import Prelude Memory Cstring RingBuffer RingBufferOpen Loop IpcBase IpcSock Ipcs IpcLogic IpcInv.
From S2P Require Import IpcsSafe.

(** Bytes that the system took for [sock]. *)
Definition taken_by (sock : Z) (p : sys_call * answer) : Z :=
  match fst p with Sys_send k _ => if k =? sock then Z.max 0 (ret (snd p)) else 0 | _ => 0 end.
Definition sent_on (sock : Z) (h : history) : Z := foldr (fun p n => taken_by sock p + n) 0 h.

#[local] Arguments sent_on : simpl never.

Lemma sent_on_snoc sock h p : sent_on sock (h ++ [p]) = sent_on sock h + taken_by sock p.
Proof.
  unfold sent_on. induction h as [|p' h IH]; [cbn; lia|]. rewrite <- app_comm_cons. cbn [foldr]. rewrite IH. lia.
Qed.

(** [send] takes no more than it is given; a call that fails returns -1 and
    sets [errno]. *)
Class SendOk (E : Env) : Prop := {
  send_range : forall h sk d, ret (reply h (Sys_send sk d)) = -1 \/ 0 <= ret (reply h (Sys_send sk d)) <= zlen d;
  send_errno : forall h sk d, ret (reply h (Sys_send sk d)) = -1 -> 0 < err (reply h (Sys_send sk d));
}.

Section Notify.
Context {E : Env} {SO : SendOk E}.

(** After a send of [msg] from byte [p] on that returns [r]: all is sent; or
    nothing if it is to be tried again; or, with another error, less than all. *)
Definition sent_or_not (sock : Z) (msg : list Z) (p : Z) (m : machine) (r : Z) (m' : machine) : Prop :=
  steady m m' /\
  (r = zlen msg /\ sent_on sock (calls m') = sent_on sock (calls m) + (zlen msg - p) \/
   r < 0 /\ (r = - EAGAIN -> p = 0 /\ sent_on sock (calls m') = sent_on sock (calls m)) /\
   0 <= sent_on sock (calls m') - sent_on sock (calls m) <= Z.max 0 (zlen msg - p - 1)).

Lemma us_send_loop_sent fuel sock msg : forall p m,
  zlen msg < 2 ^ 31 -> 0 <= p <= zlen msg ->
  wp (us_send_loop fuel sock msg p) m (sent_or_not sock msg p m).
Proof.
  induction fuel as [|n IH]; intros p m Hlen Hp; cbn [us_send_loop]; [apply wp_loop|].
  apply wp_bind, wp_sys. set (a := reply _ _). set (m1 := set_calls _ _).
  assert (S1 : steady m m1) by apply steady_calls.
  assert (Ha : ret a = -1 \/ 0 <= ret a <= zlen msg - p).
  { destruct (send_range (calls m) sock (drop (Z.to_nat p) msg)) as [|H]; [by left|right].
    unfold zlen in *. rewrite length_drop in H. fold a in H. lia. }
  assert (Hs : sent_on sock (calls m1) = sent_on sock (calls m) + Z.max 0 (ret a)).
  { unfold m1. cbn [calls set_calls]. rewrite sent_on_snoc. unfold taken_by. cbn [fst snd]. by rewrite Z.eqb_refl. }
  pose proof (send_errno (calls m) sock (drop (Z.to_nat p) msg) : ret a = -1 -> 0 < err a) as He.
  assert (Hnext : forall q, 0 <= q <= zlen msg -> q = p + Z.max 0 (ret a) -> q = p \/ q < zlen msg -> wp (us_send_loop n sock msg q) m1
    (sent_or_not sock msg p m)).
  { intros q Hq Hqp Hq'. eapply wp_mono; [by apply IH|]. intros r m' [S2 Hr]. split; [by eapply steady_trans|].
    destruct Hr as [[-> Hr]|[Hr1 Hr2]]; [left; split; [done|lia]|right]. destruct Hr2 as [Hr2 Hr3].
    split_and!; [done| |lia..]. intros H. destruct (Hr2 H). lia. }
  destruct (Z.eqb_spec (ret a) (-1)).
  - destruct (Z.eqb_spec (err a) EAGAIN), (Z.ltb_spec 0 p); cbn [andb]; [apply Hnext; lia| | |];
      apply wp_ret; (split; [done|right]); (split_and!; [lia| |lia..]); intros Hr; lia.
  - destruct Ha as [|Ha]; [done|]. rewrite i32_small by lia.
    destruct (Z.eqb_spec (p + ret a) (zlen msg)); cbn [negb]; [|apply Hnext; lia].
    apply wp_ret. split; [done|]. left. split; [done|lia].
Qed.

Lemma us_send_sent fuel w msg m :
  zlen msg < 2 ^ 31 -> wp (qb_ipc_us_send fuel w msg) m (sent_or_not (ow_sock w) msg 0 m).
Proof. intros Hlen. apply us_send_loop_sent; [done|]. pose proof (zlen_nonneg msg). lia. Qed.

Context (fuel : nat).
Context (funcs : qb_ipc_type -> qb_ipcs_funcs).
Context (s : qb_ipcs_service) (c sock : Z).
Context (Hsock : s_needs_sock_for_poll s = true) (Hready : ready s).

(** The bytes sent and outstanding for [c] are [n]. *)
Definition announced (m : machine) (n : Z) : Prop :=
  svc m = Some s /\ exists x b, conns m !! c = Some x /\ ow_sock (c_setup x) = sock /\ c_receive_buf x = Some b /\
    0 <= c_outstanding_notifiers x <= zlen b /\ zlen b < 2 ^ 31 /\
    sent_on sock (calls m) + c_outstanding_notifiers x = n.

(** What is not a [send] announces nothing. *)
Lemma announced_sys m n k a :
  (forall sk d, k <> Sys_send sk d) -> announced m n -> announced (set_calls m (calls m ++ [(k, a)])) n.
Proof.
  intros Hk (Hs & x & b & Hx & H1 & H2 & H3 & H4 & H5). split; [done|]. exists x, b. split_and!; try done; [lia..|].
  cbn [calls set_calls]. rewrite sent_on_snoc. assert (taken_by sock (k, a) = 0) as -> by (destruct k; try done; by destruct (Hk sock0 data)).
  lia.
Qed.

Lemma modify_announced m n : announced m n -> wp (_modify_dispatch_descriptor_ c) m (fun _ m' => announced m' n).
Proof.
  intros Hn. pose proof Hn as (Hs & x & b & Hx & _). unfold _modify_dispatch_descriptor_, poll_fn. wp_go.
  destruct Hready as (_ & _ & _ & -> & _). apply wp_bind, wp_sys, wp_ret. by apply announced_sys.
Qed.

(** The end of [resend_event_notifications] does not change what is announced. *)
Lemma resend_end m n (res : Z) :
  announced m n ->
  wp (x ← get_conn c;
      if negb (0 <=? c_outstanding_notifiers x) then fail F_assert
      else
        _ ← (if c_outstanding_notifiers x =? 0 then
               _ ← mod_conn c (fun x => set_c_poll_events x EVENTS_IN);
               _ ← _modify_dispatch_descriptor_ c; mret tt
             else mret tt);
        mret res) m (fun r m' => r = res /\ announced m' n).
Proof.
  intros Hn. pose proof Hn as (Hs & x & b & Hx & H1 & H2 & H3 & H4 & H5). wp_go.
  destruct (Z.leb_spec 0 (c_outstanding_notifiers x)); [|lia]. cbn [negb]. apply wp_bind.
  destruct (_ =? 0); [|by apply wp_ret, wp_ret]. apply wp_bind. wp_first. apply wp_bind.
  eapply wp_mono; [apply (modify_announced _ n)|].
  - split; [done|]. exists (set_c_poll_events x EVENTS_IN), b. split; [apply put_conn_lookup|].
    cbn. by split_and!; try done; lia.
  - intros ? m' Hn'. by apply wp_ret, wp_ret.
Qed.

Definition outstanding (m : machine) (k : Z) : Prop :=
  exists x, conns m !! c = Some x /\ c_outstanding_notifiers x = k.

(** Without an error, or when it is to be tried again, what is announced does
    not change; with another error the count of outstanding bytes does not. *)
Lemma resend_announced m n k :
  announced m n -> outstanding m k ->
  wp (resend_event_notifications fuel c) m (fun r m' =>
    if (0 <=? r) || (r =? - EAGAIN) then announced m' n
    else outstanding m' k /\ exists n', n <= n' < n + k /\ announced m' n').
Proof.
  intros Hn (x' & Hx' & Hk). pose proof Hn as (Hs & x & b & Hx & H1 & H2 & H3 & H4 & H5).
  assert (x' = x) as -> by congruence. clear Hx'. unfold resend_event_notifications.
  wp_go. rewrite Hsock. cbn [negb]. wp_go. destruct (Z.ltb_spec 0 (c_outstanding_notifiers x)).
  - unfold read_mem. wp_go. rewrite H2. rewrite (proj2 (Z.leb_le _ _)) by lia. wp_go. set (bs := take _ _).
    assert (Hbs : zlen bs = c_outstanding_notifiers x).
    { unfold bs, zlen in *. rewrite length_take, length_drop. cbn. lia. }
    eapply wp_mono; [apply us_send_sent; lia|]. intros res m1 [S1 Hres]. rewrite H1, Hbs in Hres.
    assert (Hx1 : conns m1 !! c = Some x) by (by rewrite (st_conns _ _ S1)).
    assert (Hs1 : svc m1 = Some s) by (by rewrite (st_svc _ _ S1)). apply wp_bind.
    destruct Hres as [[-> Hsent]|(Hneg & Hag & Hless)].
    + destruct (Z.ltb_spec 0 (c_outstanding_notifiers x)); [|lia]. wp_first.
      eapply wp_mono; [apply (resend_end _ n)|].
      * split; [done|]. eexists _, b. split; [apply put_conn_lookup|]. cbn. rewrite Z.sub_diag.
        change (i32 0) with 0. by split_and!; try done; lia.
      * intros r m2 [-> Hn2]. by rewrite (proj2 (Z.leb_le _ _)) by lia.
    + destruct (Z.ltb_spec 0 res); [lia|]. apply wp_ret.
      destruct (Z.eqb_spec res (- EAGAIN)) as [->|Hne].
      * destruct (Hag eq_refl) as [_ Hsent]. eapply wp_mono; [apply (resend_end _ n)|by intros ? ? [-> ?]].
        split; [done|]. exists x, b. by split_and!; try done; lia.
      * wp_go. rewrite (proj2 (Z.leb_le _ _)) by lia. cbn [negb].
        rewrite (proj2 (Z.eqb_neq _ _)) by lia. apply wp_bind, wp_ret, wp_ret.
        rewrite (proj2 (Z.leb_gt 0 res)), (proj2 (Z.eqb_neq _ _)) by lia. split; [by exists x|].
        exists (sent_on sock (calls m1) + c_outstanding_notifiers x). split; [lia|]. split; [done|].
        exists x, b. by split_and!; try done; lia.
  - wp_go. rewrite Z.ltb_irrefl. wp_first. eapply wp_mono; [by apply (resend_end _ n)|]. by intros ? ? [-> ?].
Qed.

(** C4. Announcing events, one byte each on the setup socket, for a connection
    whose [receive_buf] is longer than the count of outstanding bytes.  Where the
    notification returns no error, or EAGAIN, the bytes sent and the bytes
    outstanding together went up by exactly one: whether the socket took the byte,
    is full, or took the bytes that were outstanding as well; a partial [send] is
    completed or not counted at all.  With any other error the event is not
    announced: if no byte was outstanding before, nothing was sent and nothing is
    outstanding; otherwise it was added to the outstanding bytes, which all stay
    outstanding although a part of them may have been sent. *)
Theorem announced_once m n k b :
  announced m n -> outstanding m k ->
  (exists x, conns m !! c = Some x /\ c_receive_buf x = Some b) -> k < zlen b ->
  wp (new_event_notification fuel c) m (fun r m' =>
    if (0 <=? r) || (r =? - EAGAIN) then announced m' (n + 1)
    else if k =? 0 then announced m' n /\ outstanding m' 0
    else outstanding m' (k + 1) /\ exists n', n + 1 <= n' <= n + 1 + k /\ announced m' n').
Proof.
  intros (Hs & x & b0 & Hx & H1 & H2 & H3 & H4 & H5) (x0 & Hx0 & Hk) (x' & Hx' & H2') Hroom.
  assert (x' = x) as -> by congruence. assert (x0 = x) as -> by congruence.
  assert (b0 = b) as -> by congruence. clear Hx0 Hx' H2'.
  assert (Hmore : forall m1 y, svc m1 = Some s -> sent_on sock (calls m1) = sent_on sock (calls m) ->
    c_setup y = c_setup x -> c_receive_buf y = Some b -> c_outstanding_notifiers y = c_outstanding_notifiers x + 1 ->
    announced (put_conn m1 c y) (n + 1)).
  { intros m1 y Hs1 Hc1 E1 E2 E3. split; [done|]. exists y, b. split; [apply put_conn_lookup|]. rewrite E1, E3.
    by split_and!; try done; cbn; lia. }
  unfold new_event_notification. wp_go. rewrite Hsock. cbn [negb]. wp_go.
  destruct (Z.leb_spec 0 (c_outstanding_notifiers x)); [|lia]. cbn [negb].
  assert (Hi : i32 (c_outstanding_notifiers x + 1) = c_outstanding_notifiers x + 1) by (apply i32_small; lia).
  destruct (Z.ltb_spec 0 (c_outstanding_notifiers x)).
  - apply wp_bind. wp_first. eapply wp_mono.
    + apply (resend_announced _ (n + 1) (k + 1)); [by apply Hmore; try done; cbn; rewrite ?Hi|].
      eexists. split; [apply put_conn_lookup|]. cbn. lia.
    + intros r m'. rewrite (proj2 (Z.eqb_neq k 0)) by lia. destruct (_ || _); [done|].
      intros (? & n' & ? & ?). split; [done|]. exists n'. split; [lia|done].
  - set (msg := take 1 _). assert (Hmsg : zlen msg = 1) by done.
    apply wp_bind. eapply wp_mono; [apply us_send_sent; lia|]. intros res m1 [S1 Hres]. rewrite H1, Hmsg in Hres.
    assert (Hx1 : conns m1 !! c = Some x) by (by rewrite (st_conns _ _ S1)).
    assert (Hs1 : svc m1 = Some s) by (by rewrite (st_svc _ _ S1)). apply wp_bind.
    destruct Hres as [[-> Hsent]|(Hneg & Hag & Hless)].
    + change (1 =? - EAGAIN) with false. cbv iota. apply wp_ret, wp_ret. cbn. split; [done|]. exists x, b.
      by split_and!; try done; lia.
    + destruct (Z.eqb_spec res (- EAGAIN)) as [->|Hne].
      * destruct (Hag eq_refl) as [_ Hsent]. apply wp_bind. wp_first. apply wp_bind.
        eapply wp_mono; [apply (modify_announced _ (n + 1)), Hmore; try done; cbn; rewrite ?Hi; done|].
        intros ? m2 Hn2. by apply wp_ret, wp_ret.
      * apply wp_ret, wp_ret. rewrite (proj2 (Z.leb_gt 0 res)), (proj2 (Z.eqb_neq res _)) by lia. cbn [orb].
        rewrite (proj2 (Z.eqb_eq k 0)) by lia. split; [|by exists x; split; [|lia]]. split; [done|].
        exists x, b. by split_and!; try done; lia.
Qed.
End Notify.
