(* ===== verification/IpcSocketTheorems.v ===== *)
(** * The socket transport: theorems

    Waiting for a message ends, the search for the largest datagram finds the
    limit up to its step, and the messages of one direction are a queue. *)
From stdpp Require Import strings gmap.
From S2P Require Import Prelude Memory Cstring RingBuffer RingBufferOpen Loop IpcBase IpcSock Ipcs IpcLogic IpcSocket.

(** ** Waiting for a message *)
Section Wait.
Context {E : Env}.

(** The times that were waited for a socket. *)
Definition waits (h : history) : list Z :=
  omap (fun p => match fst p with Sys_poll _ ms => Some ms | _ => None end) h.

Lemma waits_app h h' : waits (h ++ h') = waits h ++ waits h'.
Proof. apply omap_app. Qed.

(** [x] ends, and waits for the times [ws] if it returns. *)
Definition ends_waiting {A} (x : M A) (m : machine) (ok : list Z -> Prop) : Prop :=
  match x m with
  | Done _ m' => exists ws, waits (calls m') = waits (calls m) ++ ws /\ ok ws
  | Fault f => f <> F_loop
  end.

Lemma count_sent_calls p d m :
  match count_sent p d m with Done _ m' => calls m' = calls m | Fault f => f = F_freed end.
Proof.
  unfold count_sent. destruct p as [[map i]|]; [|done]. unfold mbind, M_bind, get_ctl.
  destruct (us_maps (us_mem m) !! map) as [id|] eqn:Hm; [|done]. cbn.
  destruct (us_ctl (us_mem m) !! id) as [cs|] eqn:Hc; [|done]. by rewrite Hm, Hc.
Qed.

Lemma recv_message_waits w a m : ends_waiting (recv_message w a) m (fun ws => ws = []).
Proof.
  unfold recv_message, ends_waiting. set (n := u64 _). unfold mbind, M_bind, sys. cbv zeta. set (b := reply _ _).
  assert (Hc : waits (calls m ++ [(Sys_recv (ow_sock w) n, b)]) = waits (calls m) ++ []) by apply waits_app.
  destruct (i32 (ret b) =? -1); [by exists []|]. destruct (i32 (ret b) =? 0); [by exists []|].
  set (m1 := set_calls _ _). pose proof (count_sent_calls (ow_shared_data w) (-1) m1) as Hs.
  destruct (count_sent _ _ _) as [[] m2|f]; [|by subst]. exists []. split; [|done]. cbn. by rewrite Hs.
Qed.

(** Once the time is up the next look at the socket is the last one. *)
Lemma peek_last fuel w timeout waited m :
  timeout <> -1 -> timeout <= waited -> ends_waiting (peek_loop (S fuel) w timeout waited) m (fun ws => ws = []).
Proof.
  intros Ht Hw. cbn [peek_loop]. unfold ends_waiting, mbind, M_bind, sys. cbv zeta.
  set (m1 := set_calls _ _). set (a := reply _ _).
  assert (Hc : waits (calls m1) = waits (calls m) ++ []) by apply waits_app.
  destruct (ret a =? -1).
  - destruct (negb _); [by exists []|]. destruct (Z.ltb_spec waited timeout); [lia|].
    destruct (Z.eqb_spec timeout (-1)); [lia|]. by exists [].
  - pose proof (recv_message_waits w a m1) as H. unfold ends_waiting in H. rewrite app_nil_r in Hc.
    destruct (recv_message w a m1) as [r m2|f]; [|done]. destruct H as (ws & H & ->). exists []. by rewrite H, Hc.
Qed.

Lemma us_ready_polls ow o1 o2 ms events m : exists r m',
  qb_ipc_us_ready ow o1 o2 ms events m = Done r m' /\ waits (calls m') = waits (calls m) ++ [ms].
Proof.
  unfold qb_ipc_us_ready. set (fds := _ :: _). unfold mbind, M_bind, sys. cbv zeta. set (m1 := set_calls _ _).
  assert (waits (calls m1) = waits (calls m) ++ [ms]) by apply waits_app.
  repeat case_match; eauto.
Qed.

(** C27. Receiving from a socket ends, whatever the sockets do.  With a timeout
    other than -1 [qb_ipc_us_recv_at_most] looks at the socket at most twice and
    waits for it at most once, for the timeout. *)
Theorem recv_waits_once fuel w len timeout m :
  timeout <> -1 -> - 2 ^ 31 <= timeout < 2 ^ 31 -> (2 <= fuel)%nat ->
  ends_waiting (qb_ipc_us_recv_at_most fuel w len timeout) m (fun ws => ws = [] \/ ws = [timeout] /\ 0 < timeout).
Proof.
  intros Ht Hr Hf. destruct fuel as [|[|fuel]]; [lia..|]. unfold qb_ipc_us_recv_at_most.
  destruct (Z.le_gt_cases timeout 0) as [Hle|Hgt].
  { pose proof (peek_last (S fuel) w timeout 0 m Ht Hle) as H. unfold ends_waiting in *.
    destruct (peek_loop _ _ _ _ m); [|done]. destruct H as (ws & ? & ->). eauto. }
  remember (S fuel) as n eqn:Hn. cbn [peek_loop]. unfold ends_waiting, mbind, M_bind, sys. cbv zeta.
  set (m1 := set_calls _ _). set (a := reply _ _).
  assert (Hc : waits (calls m1) = waits (calls m)) by (unfold m1; cbn; rewrite waits_app; apply app_nil_r).
  destruct (ret a =? -1).
  2:{ pose proof (recv_message_waits w a m1) as H. unfold ends_waiting in H. rewrite Hc in H.
      destruct (recv_message w a m1); [|done]. destruct H as (ws & ? & ->). eauto. }
  destruct (negb _); [exists []; rewrite app_nil_r; eauto|].
  destruct (Z.ltb_spec 0 timeout); [cbn [orb]|lia]. destruct (Z.eqb_spec timeout (-1)); [lia|].
  destruct (us_ready_polls (fun _ => w) Ow_setup None timeout POLLIN m1) as (r & m2 & -> & H2). rewrite Hc in H2.
  destruct (qb_ipc_us_sock_error_is_disconnected r); [by exists [timeout]; eauto|]. rewrite Z.add_0_l, i32_small by lia. subst n.
  pose proof (peek_last fuel w timeout timeout m2 Ht) as H3. unfold ends_waiting in H3.
  destruct (peek_loop _ _ _ _ m2) as [v m3|f]; [|by apply H3]. destruct H3 as (ws & H3 & ->); [lia|].
  exists [timeout]. rewrite H3, H2, app_nil_r. eauto.
Qed.
End Wait.

(** ** The largest datagram *)
Section Largest.
Context {E : Env}.

(** The limit [L] rounded down to a multiple of 256; -1 stands for no size at
    all. *)
Definition rounded (L : Z) : Z := if L <? 256 then -1 else 256 * (L / 256).

(** The answer for the limit [L] when [max] bytes are too many: the limit rounded
    down; but when [max] is at most 2048 bytes beyond the limit, the search may end
    early, with a size within the limit, or none, that is up to 2048 bytes short of
    [max]. *)
Definition found (L max r : Z) : Prop :=
  r = rounded L \/ max <= L + 2048 /\ (r = -1 \/ 0 <= r <= L) /\ max <= Z.max r 0 + 2048.

(** [verify] accepts the sizes up to [L]. *)
Definition accepts_upto (L : Z) (verify : Z -> M Z) : Prop :=
  forall i m, 0 <= i -> returns (verify i) m (fun r _ => (r =? 0) = (i <=? L)).

(** The step and the logarithm that counts how often it can be halved. *)
Definition step_of (k : nat) : Z := 256 * 2 ^ Z.of_nat k.
Lemma step_of_S k : step_of (S k) = 2 * step_of k.
Proof. unfold step_of. rewrite Nat2Z.inj_succ, Z.pow_succ_r by lia. lia. Qed.
Lemma step_of_min k : 256 <= step_of k.
Proof. unfold step_of. pose proof (Z.pow_pos_nonneg 2 (Z.of_nat k)). lia. Qed.

(** What is known between rounds: [base] is a multiple of 256 that was accepted, or
    nothing was yet. *)
Definition searching (L base last : Z) : Prop :=
  base mod 256 = 0 /\ (last = base /\ 0 < base <= L \/ last = -1 /\ base = 0).

Lemma searching_found L base last : searching L base last -> L < base + 256 -> last = rounded L.
Proof.
  intros [Hm Hl] HL. unfold rounded. pose proof (Z.div_mod base 256). destruct (Z.ltb_spec L 256); [lia|].
  destruct Hl as [[-> Hb]|[-> ->]]; [|lia].
  rewrite <- (Z.div_unique_pos L 256 (base / 256) (L - base)) by lia. lia.
Qed.

Lemma size_search_next L base last k : searching L base last -> base + step_of k <= L ->
  searching L (base + step_of k) (base + step_of k).
Proof.
  intros [Hm Hl] HL. pose proof (step_of_min k). split; [|lia]. unfold step_of.
  by rewrite (Z.mul_comm 256), Z.mod_add by done.
Qed.

(** In a round [base + step_of k] is tried. *)
Lemma size_loop_found L verify max : accepts_upto L verify -> L < max < 2 ^ 31 - 2048 ->
  forall fuel k base last m, (k <= 3)%nat -> 0 <= base < max -> searching L base last ->
  (max - base) / 256 + Z.of_nat k < Z.of_nat fuel ->
  returns (size_loop verify fuel max (base + step_of k) (step_of k) last) m (fun r _ => found L max r).
Proof.
  intros Hv HL fuel. induction fuel as [|fuel IH]; intros k base last m Hk Hb Hl Hf.
  { pose proof (Z.div_pos (max - base) 256). lia. }
  cbn [size_loop]. pose proof (step_of_min k) as Hmin. pose proof Hl as [_ Hlast].
  assert (Hstep : step_of k <= 2048).
  { change 2048 with (256 * 2 ^ 3). apply Z.mul_le_mono_nonneg_l, Z.pow_le_mono_r; lia. }
  rewrite u64_small by lia. destruct (Z.ltb_spec (base + step_of k) max) as [Hlt|Hge].
  2:{ apply returns_ret. destruct (Z.lt_ge_cases L 0) as [Hneg|Hpos]; [left; apply (searching_found _ base); [done|lia]|].
      right. lia. }
  apply returns_bind. eapply returns_mono; [apply (Hv (base + step_of k)); lia|]. intros r m' ->.
  destruct (Z.leb_spec (base + step_of k) L) as [Hok|Hbad].
  - rewrite i32_small by lia. apply IH; [done|lia|by eapply size_search_next|].
    assert ((max - (base + step_of k)) / 256 <= (max - base + (-1) * 256) / 256) as Hd by (apply Z.div_le_mono; lia).
    rewrite Z.div_add in Hd by lia. lia.
  - destruct (Z.leb_spec 512 (step_of k)) as [Hbig|Hsmall].
    + destruct k as [|k]; [done|]. rewrite step_of_S in *. rewrite (Z.mul_comm 2), Z.div_mul by lia.
      pose proof (step_of_min k). rewrite (i32_small (_ - _)), i32_small by lia.
      replace (base + step_of k * 2 - step_of k * 2 + step_of k) with (base + step_of k) by lia.
      apply IH; [lia|lia|done|lia].
    + apply returns_ret. left. apply (searching_found _ base); [done|].
      destruct k as [|k]; [unfold step_of in Hbad; lia|]. pose proof (step_of_min k). rewrite step_of_S in Hsmall. lia.
Qed.

(** Rounds of the search; each of them moves by 256 bytes or halves the step. *)
Definition search_fuel (max : Z) : nat := Z.to_nat (max / 256 + 4).

Lemma search_found L verify fuel max m :
  accepts_upto L verify -> 0 < max < 2 ^ 31 - 2048 -> (search_fuel max <= fuel)%nat ->
  returns (verify_max_msg_size verify fuel max) m (fun r _ => if max <=? L then r = max else found L max r).
Proof.
  intros Hv Hm Hf. unfold verify_max_msg_size. apply returns_bind. eapply returns_mono; [apply (Hv max); lia|].
  intros r m' ->. destruct (Z.leb_spec max L) as [Hok|Hbad].
  - apply returns_ret. by apply i32_small; lia.
  - apply (size_loop_found L verify max Hv ltac:(lia) fuel 3 0 (-1)); [lia|lia|by split; [|right]|].
    rewrite Z.sub_0_r. unfold search_fuel in Hf. pose proof (Z.div_pos max 256). lia.
Qed.

(** What the pair of sockets does: it can be made and its buffers can be set; it
    takes a datagram of up to [L] bytes, and gives back what it took last. *)
Class PairLimit (L : Z) : Prop := {
  pl_pair : forall h, 0 <= ret (reply h Sys_socketpair);
  pl_get : forall h s b, ret (reply h (Sys_getsockopt_size s b)) = 0;
  pl_set : forall h s b n, ret (reply h (Sys_setsockopt_size s b n)) = 0;
  pl_write : forall h s d, zlen d <= L -> ret (reply h (Sys_write s d)) = zlen d;
  pl_refuse : forall h s d, L < zlen d -> ret (reply h (Sys_write s d)) = -1 /\ err (reply h (Sys_write s d)) = EMSGSIZE;
  pl_read : forall h s s' d a, ret a = zlen d -> ret (reply (h ++ [(Sys_write s d, a)]) (Sys_read s' (zlen d))) = zlen d;
}.

Context {L : Z} {P : PairLimit L}.

Lemma set_one_size_ok s b n m : returns (set_one_size s b n) m (fun r _ => r = None).
Proof.
  unfold set_one_size. apply returns_bind. unfold returns at 1, sys. apply returns_bind.
  rewrite pl_get. cbn [Z.eqb andb]. destruct (_ <=? n).
  - unfold returns at 1, sys. apply returns_ret. by rewrite pl_set.
  - apply returns_ret, returns_ret. by rewrite pl_get.
Qed.

Lemma set_sock_size_ok s n m : returns (set_sock_size s n) m (fun r _ => r = 0).
Proof.
  unfold set_sock_size. apply returns_bind. eapply returns_mono; [apply set_one_size_ok|]. intros ? m1 ->.
  apply returns_bind. eapply returns_mono; [apply set_one_size_ok|]. intros ? m2 ->. by apply returns_ret.
Qed.

Lemma verify_result_passed a n : 0 <= n -> ret a = n -> verify_result a n = Step_passed.
Proof. intros Hn Ha. unfold verify_result. rewrite Ha, Z.eqb_refl. by destruct (Z.ltb_spec n 0); [lia|]. Qed.
Lemma verify_result_refused a n : 0 <= n -> ret a = -1 -> err a = EMSGSIZE -> verify_result a n = Step_break.
Proof. intros Hn Hr He. unfold verify_result. rewrite Hr, He. by destruct (Z.eqb_spec (-1) n); [lia|]. Qed.

Lemma verify_loop_once s0 s1 n m : 0 <= n ->
  returns (verify_loop 3 s0 s1 n (-1) false false) m (fun r _ => (r =? 0) = (n <=? L)).
Proof.
  intros Hn. cbn [verify_loop]. apply returns_bind, returns_bind. unfold returns at 1, sys.
  assert (Hz : zlen (zrepeat 0 n) = n) by (apply zlen_zrepeat; lia).
  set (a := reply (calls m) (Sys_write s1 (zrepeat 0 n))). apply returns_ret. destruct (Z.leb_spec n L) as [Hok|Hbad].
  - assert (Ha : ret a = n) by (unfold a; rewrite pl_write; lia). rewrite verify_result_passed by done.
    apply returns_bind, returns_bind. unfold returns at 1, sys. apply returns_ret. cbn [set_calls calls].
    rewrite verify_result_passed; [by apply returns_ret|done|]. rewrite <- Hz at 2. rewrite pl_read; [done|by rewrite Hz].
  - destruct (pl_refuse (calls m) s1 (zrepeat 0 n)) as [Hr He]; [lia|]. fold a in Hr, He.
    rewrite verify_result_refused, Hr by done. by apply returns_ret.
Qed.

Lemma dgram_verify_accepts : accepts_upto L dgram_verify_msg_size.
Proof.
  intros n m Hn. unfold dgram_verify_msg_size. apply returns_bind. unfold returns at 1, sys.
  destruct (Z.ltb_spec (ret (reply (calls m) Sys_socketpair)) 0); [pose proof (pl_pair (calls m)); lia|].
  apply returns_bind, returns_bind. eapply returns_mono; [apply set_sock_size_ok|]. intros ? m1 ->.
  cbn [Z.eqb negb]. apply returns_bind. eapply returns_mono; [apply set_sock_size_ok|]. intros ? m2 ->.
  cbn [Z.eqb negb]. eapply returns_mono; [by apply verify_loop_once|]. intros r m3 Hr.
  apply returns_bind. unfold returns at 1, sys. apply returns_bind. unfold returns at 1, sys. by apply returns_ret.
Qed.

End Largest.

(** ** One direction of a connection is a queue *)

(** The channel as both ends see it. *)
Record channel := { ch_queue : list (list Z); ch_fc : Z }.

Inductive chan_op :=
  | Ch_send (msg : list Z)
  | Ch_sendv (iov : list (list Z))
  | Ch_recv (len timeout : Z)
  | Ch_fc_set (v : Z)
  | Ch_fc_get
  | Ch_q_len.

(** A message has a header, which says how long the message is, and is not longer
    than the ends agreed, [lim]; buffers for receiving are not shorter than that. *)
Definition message_ok (lim : Z) (d : list Z) : Prop :=
  SIZEOF_REQUEST_HEADER <= zlen d < 2 ^ 31 /\ zlen d <= lim /\ header_size d = zlen d.
Definition op_ok (lim : Z) (o : chan_op) : Prop :=
  match o with
  | Ch_send msg => message_ok lim msg
  | Ch_sendv iov => message_ok lim (concat iov)
  | Ch_recv len timeout => 0 <= lim <= len /\ timeout <> -1 /\ - 2 ^ 31 <= timeout < 2 ^ 31
  | _ => True
  end.

(** What an operation may do: a message that is not taken is reported as an error and
    does not reach the queue, one that is taken arrives whole, in its turn and
    once, in a buffer that has room for it. *)
Inductive chan_step : channel -> chan_op -> Z * list Z -> channel -> Prop :=
  | step_send q fc msg :
      chan_step {| ch_queue := q; ch_fc := fc |} (Ch_send msg) (zlen msg, []) {| ch_queue := q ++ [msg]; ch_fc := fc |}
  | step_not_sent s msg e : e < 0 -> chan_step s (Ch_send msg) (e, []) s
  | step_sendv q fc iov :
      chan_step {| ch_queue := q; ch_fc := fc |} (Ch_sendv iov) (zlen (concat iov), [])
        {| ch_queue := q ++ [concat iov]; ch_fc := fc |}
  | step_not_sentv s iov e : e < 0 -> chan_step s (Ch_sendv iov) (e, []) s
  | step_recv d q fc len timeout :
      zlen d <= len ->
      chan_step {| ch_queue := d :: q; ch_fc := fc |} (Ch_recv len timeout) (zlen d, d) {| ch_queue := q; ch_fc := fc |}
  | step_empty fc len timeout e :
      e = - ETIMEDOUT \/ 0 < timeout /\ qb_ipc_us_sock_error_is_disconnected e = true ->
      chan_step {| ch_queue := []; ch_fc := fc |} (Ch_recv len timeout) (e, []) {| ch_queue := []; ch_fc := fc |}
  | step_fc_set q fc v :
      chan_step {| ch_queue := q; ch_fc := fc |} (Ch_fc_set v) (0, []) {| ch_queue := q; ch_fc := v |}
  | step_fc_get s : chan_step s Ch_fc_get (ch_fc s, []) s
  | step_q_len s : chan_step s Ch_q_len (i32 (zlen (ch_queue s)), []) s.

Inductive chan_run : channel -> list chan_op -> list (Z * list Z) -> channel -> Prop :=
  | run_nil s : chan_run s [] [] s
  | run_cons s1 o r s2 os rs s3 :
      chan_step s1 o r s2 -> chan_run s2 os rs s3 -> chan_run s1 (o :: os) (r :: rs) s3.

Section Channel.
Context {E : Env}.

(** The datagrams that were sent on the socket [stx] and not yet taken from
    [srx], by the history of calls. *)
Definition deliver (stx srx : Z) (q : list (list Z)) (p : sys_call * answer) : list (list Z) :=
  match fst p with
  | Sys_send s d => if decide (s = stx /\ ret (snd p) <> -1) then q ++ [d] else q
  | Sys_writev s iov => if decide (s = stx /\ ret (snd p) <> -1) then q ++ [concat iov] else q
  | Sys_recv s _ => if decide (s = srx /\ ret (snd p) <> -1) then tail q else q
  | _ => q
  end.
Definition pending (stx srx : Z) (h : history) : list (list Z) := foldl (deliver stx srx) [] h.

(** Datagram sockets: a datagram is sent whole or not at all, and they arrive in
    the order in which they were sent; [recv] with too little room cuts one. *)
Class Datagrams (stx srx : Z) : Prop := {
  dg_send : forall h d, let a := reply h (Sys_send stx d) in ret a = zlen d \/ ret a = -1 /\ 0 < err a;
  dg_writev : forall h iov, let a := reply h (Sys_writev stx iov) in ret a = zlen (concat iov) \/ ret a = -1 /\ 0 < err a;
  dg_empty : forall h n, pending stx srx h = [] ->
    let a := reply h (Sys_recv_peek srx n) in ret a = -1 /\ err a = EAGAIN;
  dg_peek : forall h n d q, pending stx srx h = d :: q -> 0 <= n ->
    let a := reply h (Sys_recv_peek srx n) in out a = take (Z.to_nat n) d /\ ret a = zlen (out a);
  dg_recv : forall h n d q, pending stx srx h = d :: q -> 0 <= n ->
    let a := reply h (Sys_recv srx n) in out a = take (Z.to_nat n) d /\ ret a = zlen (out a);
}.

(** The two ends: [tx] is where messages are sent, [rx] where they are received.  Both
    point to the structure [slot] of the control file [file]. *)
Context (fuel : nat) (tx rx : qb_ipc_one_way) (file slot lim : Z).
Context {D : Datagrams (ow_sock tx) (ow_sock rx)}.

(** What is received is written to the caller's buffer of [len] bytes. *)
Definition us_op (o : chan_op) : M (Z * list Z) :=
  match o with
  | Ch_send msg => r ← qb_ipc_socket_send tx msg; mret (r, [])
  | Ch_sendv iov => r ← qb_ipc_socket_sendv tx iov; mret (r, [])
  | Ch_recv len timeout =>
    r ← qb_ipc_us_recv_at_most fuel rx len timeout;
    if zlen (snd r) <=? len then mret r else fail F_overrun
  | Ch_fc_set v => _ ← qb_ipc_us_fc_set rx v; mret (0, [])
  | Ch_fc_get => r ← qb_ipc_us_fc_get tx; mret (r, [])
  | Ch_q_len => r ← qb_ipc_us_q_len_get tx; mret (r, [])
  end.
Fixpoint us_run (os : list chan_op) : M (list (Z * list Z)) :=
  match os with
  | [] => mret []
  | o :: os => r ← us_op o; rs ← us_run os; mret (r :: rs)
  end.

Abbreviation sent_on := (pending (ow_sock tx) (ow_sock rx)).

(** The memory holds the structure [v], and both ends see it. *)
Definition points_to (u : us_memory) (v : ipc_us_control) : Prop :=
  exists map1 map2 cs,
    ow_shared_data tx = Some (map1, slot) /\ ow_shared_data rx = Some (map2, slot) /\
    us_maps u !! map1 = Some file /\ us_maps u !! map2 = Some file /\
    us_ctl u !! file = Some cs /\ 0 <= slot < zlen cs /\ zget cs slot = v.

Record chan_rep (m : machine) (s : channel) : Prop := {
  cr_queue : sent_on (calls m) = ch_queue s;
  cr_ctl : points_to (us_mem m) {| sent := i32 (zlen (ch_queue s)); flow_control := ch_fc s |};
  cr_ok : Forall (message_ok lim) (ch_queue s);
}.

(** *** The control structure *)

Lemma get_ctl_spec m v w : points_to (us_mem m) v -> w = tx \/ w = rx ->
  get_ctl (ow_shared_data w) m = Done v m.
Proof.
  intros (map1 & map2 & cs & H1 & H2 & Hm1 & Hm2 & Hc & Hs & <-) [->| ->]; unfold get_ctl;
    rewrite ?H1, ?H2, ?Hm1, ?Hm2; cbn; by rewrite Hc.
Qed.

Lemma put_ctl_spec m v v' w : points_to (us_mem m) v -> w = tx \/ w = rx ->
  exists u, put_ctl (ow_shared_data w) v' m = Done tt (set_us_mem m u) /\ points_to u v'.
Proof.
  intros (map1 & map2 & cs & H1 & H2 & Hm1 & Hm2 & Hc & Hs & _) Hw. unfold put_ctl.
  exists (with_us_ctl (us_mem m) (<[file := zset cs slot v']> (us_ctl (us_mem m)))). split.
  - destruct Hw as [->| ->]; rewrite ?H1, ?H2, ?Hm1, ?Hm2, Hc; done.
  - exists map1, map2, (zset cs slot v'). cbn. rewrite lookup_insert_eq, zlen_zset, zget_zset_eq by done. done.
Qed.

Lemma i32_add_i32 a d : i32 (i32 a + d) = i32 (a + d).
Proof.
  unfold i32. f_equal. replace ((a + 2 ^ 31) mod 2 ^ 32 - 2 ^ 31 + d + 2 ^ 31) with ((a + 2 ^ 31) mod 2 ^ 32 + d) by lia.
  rewrite Zplus_mod_idemp_l. f_equal. lia.
Qed.

Lemma count_sent_spec m n fc d w : points_to (us_mem m) {| sent := i32 n; flow_control := fc |} -> w = tx \/ w = rx ->
  exists u, count_sent (ow_shared_data w) d m = Done tt (set_us_mem m u) /\
    points_to u {| sent := i32 (n + d); flow_control := fc |}.
Proof.
  intros Hp Hw. assert (exists p, ow_shared_data w = Some p) as [p Hsd].
  { destruct Hp as (map1 & map2 & cs & H1 & H2 & _). destruct Hw as [->| ->]; eauto. }
  pose proof (get_ctl_spec m _ w Hp Hw) as Hg. rewrite Hsd in Hg. unfold count_sent. rewrite Hsd.
  unfold mbind, M_bind. rewrite Hg, <- Hsd. cbn [sent flow_control]. rewrite i32_add_i32. by eapply put_ctl_spec.
Qed.

(** *** Steps that leave the channel alone *)

Record keeps (m m' : machine) : Prop := {
  ke_queue : sent_on (calls m') = sent_on (calls m);
  ke_ctl : us_ctl (us_mem m') = us_ctl (us_mem m);
  ke_maps : us_maps (us_mem m') = us_maps (us_mem m);
}.
Definition undisturbed {A} (x : M A) : Prop := forall m, returns x m (fun _ m' => keeps m m').

Lemma chan_keeps_trans m1 m2 m3 : keeps m1 m2 -> keeps m2 m3 -> keeps m1 m3.
Proof. intros [A1 B1 C1] [A2 B2 C2]. constructor; congruence. Qed.
Lemma chan_keeps_rep m m' s : keeps m m' -> chan_rep m s -> chan_rep m' s.
Proof. intros [A B C] [H1 H2 H3]. constructor; [congruence| |done]. unfold points_to in *. by rewrite B, C. Qed.

Lemma undisturbed_ret {A} (a : A) : undisturbed (mret a).
Proof. by intros m. Qed.
Lemma undisturbed_bind {A B} (x : M A) (k : A -> M B) :
  undisturbed x -> (forall a, undisturbed (k a)) -> undisturbed (x ≫= k).
Proof.
  intros Hx Hk m. apply returns_bind. eapply returns_mono; [apply Hx|]. intros a m1 K1.
  eapply returns_mono; [apply Hk|]. intros b m2 K2. exact (chan_keeps_trans _ _ _ K1 K2).
Qed.

Lemma chan_sent_snoc h c a : sent_on (h ++ [(c, a)]) = deliver (ow_sock tx) (ow_sock rx) (sent_on h) (c, a).
Proof. unfold pending. by rewrite foldl_app. Qed.

Lemma undisturbed_sys c : (forall q a, deliver (ow_sock tx) (ow_sock rx) q (c, a) = q) -> undisturbed (sys c).
Proof. intros Hc m. constructor; [|done..]. cbn [set_calls set_us_mem calls]. rewrite chan_sent_snoc. apply Hc. Qed.
Lemma undisturbed_get {A} (f : machine -> A) : undisturbed (get f).
Proof. by intros m. Qed.
Lemma undisturbed_free w : undisturbed (free_name w).
Proof. intros m. unfold free_name. by destruct (ow_sock_name w). Qed.

Create HintDb chan.
#[local] Hint Resolve undisturbed_ret undisturbed_get undisturbed_free : chan.
#[local] Hint Extern 2 (undisturbed (sys _)) => (apply undisturbed_sys; reflexivity) : chan.
Ltac calm := repeat first [solve [auto with chan]|apply undisturbed_bind; [|intros ?]|case_match].

Lemma undisturbed_set_sock_size s n : undisturbed (set_sock_size s n).
Proof. unfold set_sock_size, set_one_size. calm. Qed.
Lemma undisturbed_connect_loop n s addr e : undisturbed (connect_loop n s addr e).
Proof. revert e. induction n as [|n IH]; intros e; cbn [connect_loop]; calm. Qed.
#[local] Hint Resolve undisturbed_set_sock_size undisturbed_connect_loop : chan.

Lemma undisturbed_connect_on_send w : undisturbed (connect_on_send w).
Proof. unfold connect_on_send, pending_name, _finish_connecting. calm. Qed.
Lemma undisturbed_us_ready ow o1 o2 t e : undisturbed (qb_ipc_us_ready ow o1 o2 t e).
Proof. unfold qb_ipc_us_ready. calm. Qed.

Lemma connect_on_send_error w m : returns (connect_on_send w) m (fun e m' => keeps m m' /\ forall rc, e = Some rc -> rc < 0).
Proof.
  pose proof (undisturbed_connect_on_send w m) as K. revert K. unfold connect_on_send, returns, mbind, M_bind.
  destruct (pending_name w m) as [[name|] m1|]; [|done..]. destruct (_finish_connecting w name m1) as [rc m2|]; [|done].
  intros K. split; [exact K|]. intros rc'. destruct (Z.ltb_spec rc 0); [by intros [= <-]|done].
Qed.

(** *** The operations *)

(** A datagram [d] has been accepted. *)
Lemma accepted_rep m s c a d : chan_rep m s -> message_ok lim d -> c = Sys_send (ow_sock tx) d \/ (exists iov, c = Sys_writev (ow_sock tx) iov /\ concat iov = d) ->
  ret a = zlen d ->
  exists m', count_sent (ow_shared_data tx) 1 (set_calls m (calls m ++ [(c, a)])) = Done tt m' /\
    chan_rep m' {| ch_queue := ch_queue s ++ [d]; ch_fc := ch_fc s |}.
Proof.
  intros [Hq Hc Hok] Hd Hcall Ha. set (m1 := set_calls m _).
  destruct (count_sent_spec m1 (zlen (ch_queue s)) (ch_fc s) 1 tx Hc (or_introl eq_refl)) as (u & -> & Hu).
  eexists. split; [done|]. constructor; cbn [ch_queue ch_fc].
  - change (calls (set_us_mem m1 u)) with (calls m ++ [(c, a)]). rewrite chan_sent_snoc, Hq. pose proof (zlen_nonneg d).
    destruct Hcall as [->|(iov & -> & <-)]; cbn; rewrite decide_True by (split; [done|lia]); done.
  - rewrite zlen_app. exact Hu.
  - by apply Forall_app; split; [|constructor].
Qed.

(** A datagram has been refused. *)
Lemma refused_rep m s c a : chan_rep m s -> (exists d, c = Sys_send (ow_sock tx) d) \/ (exists iov, c = Sys_writev (ow_sock tx) iov) ->
  ret a = -1 -> chan_rep (set_calls m (calls m ++ [(c, a)])) s.
Proof.
  intros Hr Hcall Ha. eapply chan_keeps_rep; [|exact Hr]. constructor; [|done..]. cbn [set_calls set_us_mem calls]. rewrite chan_sent_snoc.
  destruct Hcall as [[d ->]|[iov ->]]; cbn; by rewrite decide_False by (intros []; lia).
Qed.

Lemma send_refines m s msg : chan_rep m s -> message_ok lim msg ->
  returns (us_op (Ch_send msg)) m (fun r m' => exists s', chan_step s (Ch_send msg) r s' /\ chan_rep m' s').
Proof.
  intros Hr Hok. cbn [us_op]. unfold qb_ipc_socket_send. apply returns_bind, returns_bind.
  eapply returns_mono; [apply connect_on_send_error|]. intros e m1 [K He]. apply (chan_keeps_rep _ _ _ K) in Hr.
  destruct e as [rc|]; [apply returns_ret, returns_ret; exists s; split; [by constructor; apply He|done]|].
  apply returns_bind. unfold returns at 1, sys. set (a := reply _ _).
  destruct (dg_send (stx := ow_sock tx) (calls m1) msg) as [Ha|[Ha Herr]]; fold a in Ha.
  - rewrite Ha. destruct Hok as (Hlen & Hlim & Hhdr). unfold SIZEOF_REQUEST_HEADER in Hlen. destruct (Z.eqb_spec (zlen msg) (-1)); [lia|].
    rewrite Z.eqb_refl. destruct (accepted_rep m1 s (Sys_send (ow_sock tx) msg) a msg) as (m2 & Hm2 & Hr2); eauto; [done|].
    apply returns_bind. eapply returns_eq; [exact Hm2|]. apply returns_ret, returns_ret. eexists. split; [|exact Hr2].
    destruct s. constructor.
  - fold a in Herr. rewrite Ha. change (-1 =? -1) with true. cbv iota. pose proof (zlen_nonneg msg). destruct (Z.eqb_spec (- err a) (zlen msg)); [lia|].
    apply returns_bind, returns_ret, returns_ret, returns_ret. exists s. split; [constructor; lia|]. apply refused_rep; eauto.
Qed.

Lemma sendv_refines m s iov : chan_rep m s -> message_ok lim (concat iov) ->
  returns (us_op (Ch_sendv iov)) m (fun r m' => exists s', chan_step s (Ch_sendv iov) r s' /\ chan_rep m' s').
Proof.
  intros Hr Hok. cbn [us_op]. unfold qb_ipc_socket_sendv. apply returns_bind, returns_bind.
  eapply returns_mono; [apply connect_on_send_error|]. intros e m1 [K He]. apply (chan_keeps_rep _ _ _ K) in Hr.
  destruct e as [rc|]; [apply returns_ret, returns_ret; exists s; split; [by constructor; apply He|done]|].
  apply returns_bind. unfold returns at 1, sys. set (a := reply _ _).
  destruct (dg_writev (stx := ow_sock tx) (calls m1) iov) as [Ha|[Ha Herr]]; fold a in Ha.
  - rewrite Ha. pose proof Hok as [Hlen _]. unfold SIZEOF_REQUEST_HEADER in Hlen. rewrite i32_small by lia.
    destruct (Z.eqb_spec (zlen (concat iov)) (-1)); [lia|]. destruct (Z.ltb_spec 0 (zlen (concat iov))); [|lia].
    destruct (accepted_rep m1 s (Sys_writev (ow_sock tx) iov) a (concat iov)) as (m2 & Hm2 & Hr2); eauto.
    apply returns_bind. eapply returns_eq; [exact Hm2|]. apply returns_ret, returns_ret. eexists. split; [|exact Hr2].
    destruct s. constructor.
  - fold a in Herr. rewrite Ha. change (i32 (-1) =? -1) with true. cbv iota. destruct (Z.ltb_spec 0 (- err a)); [lia|].
    apply returns_bind, returns_ret, returns_ret, returns_ret. exists s. split; [constructor; lia|]. apply refused_rep; eauto.
Qed.

Lemma undisturbed_peek w n : undisturbed (sys (Sys_recv_peek w n)).
Proof. by apply undisturbed_sys. Qed.

Lemma header_size_peeked d : header_size (take 16 d) = header_size d.
Proof. unfold header_size. by rewrite skipn_firstn_comm, take_take. Qed.

Lemma recv_message_refines m d q fc a len timeout :
  chan_rep m {| ch_queue := d :: q; ch_fc := fc |} -> out a = take (Z.to_nat SIZEOF_REQUEST_HEADER) d -> ret a = zlen (out a) ->
  lim <= len ->
  returns (recv_message rx a) m (fun r m' => zlen (snd r) <= len /\ exists s',
    chan_step {| ch_queue := d :: q; ch_fc := fc |} (Ch_recv len timeout) r s' /\ chan_rep m' s').
Proof.
  intros [Hq Hc Hok] Ho Ha Hl. cbn [ch_queue ch_fc] in *. inversion Hok as [|? ? (Hlen & Hlim & Hhdr) Hok']; subst.
  unfold SIZEOF_REQUEST_HEADER in *. change (Z.to_nat 16) with 16%nat in Ho.
  assert (H16 : ret a = 16) by (rewrite Ha, Ho; unfold zlen in *; rewrite length_take; lia).
  unfold recv_message, SIZEOF_REQUEST_HEADER. rewrite H16, Ho, header_size_peeked, Hhdr. cbn [Z.leb Z.compare Pos.compare Pos.compare_cont].
  rewrite u64_small by lia. apply returns_bind. unfold returns at 1, sys. set (b := reply _ _).
  destruct (dg_recv (calls m) (zlen d) d q Hq) as [Hb1 Hb2]; [lia|]. fold b in Hb1, Hb2.
  assert (Hd : out b = d) by (rewrite Hb1; apply take_ge; unfold zlen; lia). rewrite Hd in Hb2. rewrite Hb2, Hd.
  rewrite i32_small by lia. destruct (Z.eqb_spec (zlen d) (-1)); [lia|]. destruct (Z.eqb_spec (zlen d) 0); [lia|].
  set (m1 := set_calls m _). rewrite zlen_cons in Hc.
  destruct (count_sent_spec m1 (1 + zlen q) fc (-1) rx Hc (or_intror eq_refl)) as (u & Hu & Hp).
  apply returns_bind. eapply returns_eq; [exact Hu|]. apply returns_ret.
  rewrite (drop_ge (take 16 d)), app_nil_r by (rewrite length_take; lia). split; [cbn; lia|].
  exists {| ch_queue := q; ch_fc := fc |}. split.
  - constructor. lia.
  - constructor; cbn [ch_queue ch_fc]; [|by replace (1 + zlen q + -1) with (zlen q) in Hp by lia|done].
    change (calls (set_us_mem m1 u)) with (calls m ++ [(Sys_recv (ow_sock rx) (zlen d), b)]).
    rewrite chan_sent_snoc, Hq. cbn. rewrite decide_True by (split; [done|lia]). done.
Qed.

(** An empty queue: the second look at the socket, if there is one, is the last. *)
Lemma peek_empty m fc timeout waited n :
  chan_rep m {| ch_queue := []; ch_fc := fc |} -> timeout <> -1 -> timeout <= waited ->
  returns (peek_loop (S n) rx timeout waited) m (fun r m' => r = (- ETIMEDOUT, []) /\ chan_rep m' {| ch_queue := []; ch_fc := fc |}).
Proof.
  intros Hr Ht Hw. cbn [peek_loop]. apply returns_bind. eapply returns_mono; [|intros a m1 H; exact H].
  pose proof (undisturbed_peek (ow_sock rx) SIZEOF_REQUEST_HEADER m) as K. unfold returns, sys in K |- *.
  destruct (dg_empty (calls m) SIZEOF_REQUEST_HEADER (cr_queue _ _ Hr)) as [-> ->].
  change (-1 =? -1) with true. change (EAGAIN =? EAGAIN) with true. cbn [negb].
  destruct (Z.ltb_spec waited timeout); [lia|]. destruct (Z.eqb_spec timeout (-1)); [lia|].
  cbn. split; [done|]. by eapply chan_keeps_rep.
Qed.

Lemma recv_refines m s len timeout : chan_rep m s -> op_ok lim (Ch_recv len timeout) -> (2 <= fuel)%nat ->
  returns (us_op (Ch_recv len timeout)) m (fun r m' => exists s', chan_step s (Ch_recv len timeout) r s' /\ chan_rep m' s').
Proof.
  intros Hr (Hl & Ht & Hrange) Hf. cbn [us_op]. apply returns_bind.
  assert (Hfits : forall x, returns x m (fun r m' => zlen (snd r) <= len /\ exists s', chan_step s (Ch_recv len timeout) r s' /\ chan_rep m' s') ->
    returns x m (fun r m' => returns (if zlen (snd r) <=? len then mret r else fail F_overrun) m'
      (fun r m' => exists s', chan_step s (Ch_recv len timeout) r s' /\ chan_rep m' s'))).
  { intros x Hx. eapply returns_mono; [exact Hx|]. intros r m' [Hz H]. by rewrite (proj2 (Z.leb_le _ _)) by done. }
  apply Hfits. clear Hfits. assert (Hnil : zlen (@nil Z) <= len) by (unfold zlen; cbn; lia).
  unfold qb_ipc_us_recv_at_most. destruct fuel as [|[|n]]; [lia..|].
  destruct s as [[|d q] fc].
  - destruct (Z.le_gt_cases timeout 0) as [Hle|Hgt].
    { eapply returns_mono; [by apply (peek_empty m fc)|]. intros r m' [-> Hr']. split; [done|]. eexists. split; [|exact Hr'].
      constructor. by left. }
    remember (S n) as n' eqn:Hn'. cbn [peek_loop]. apply returns_bind.
    pose proof (undisturbed_peek (ow_sock rx) SIZEOF_REQUEST_HEADER m) as K. unfold returns at 1, sys.
    destruct (dg_empty (calls m) SIZEOF_REQUEST_HEADER (cr_queue _ _ Hr)) as [Ha He]. rewrite Ha, He.
    change (-1 =? -1) with true. change (EAGAIN =? EAGAIN) with true. cbn [negb].
    destruct (Z.ltb_spec 0 timeout); [cbn [orb]|lia]. destruct (Z.eqb_spec timeout (-1)); [lia|].
    apply (chan_keeps_rep _ _ _ K) in Hr. apply returns_bind. eapply returns_mono; [apply undisturbed_us_ready|].
    intros e m2 K2. apply (chan_keeps_rep _ _ _ K2) in Hr.
    destruct (qb_ipc_us_sock_error_is_disconnected e) eqn:Hd.
    { apply returns_ret. split; [done|]. eexists. split; [|exact Hr]. constructor. by right. }
    rewrite Z.add_0_l, i32_small by lia. subst n'.
    eapply returns_mono; [by apply (peek_empty m2 fc)|]. intros r m' [-> Hr']. split; [done|]. eexists. split; [|exact Hr'].
    constructor. by left.
  - remember (S n) as n' eqn:Hn'. cbn [peek_loop]. apply returns_bind.
    pose proof (undisturbed_peek (ow_sock rx) SIZEOF_REQUEST_HEADER m) as K. unfold returns at 1, sys. unfold returns, sys in K.
    set (a := reply _ _) in *.
    destruct (dg_peek (calls m) SIZEOF_REQUEST_HEADER d q (cr_queue _ _ Hr)) as [Ho Ha]; [done|]. fold a in Ho, Ha.
    destruct (Z.eqb_spec (ret a) (-1)) as [E1|_]; [pose proof (zlen_nonneg (out a)); lia|].
    apply recv_message_refines; [by eapply chan_keeps_rep|done|done|lia].
Qed.

Lemma op_refines m s o : chan_rep m s -> op_ok lim o -> (2 <= fuel)%nat ->
  returns (us_op o) m (fun r m' => exists s', chan_step s o r s' /\ chan_rep m' s').
Proof.
  intros Hr Ho Hf. destruct o as [msg|iov|len timeout|v| |].
  - by apply send_refines.
  - by apply sendv_refines.
  - by apply recv_refines.
  - cbn [us_op]. unfold qb_ipc_us_fc_set. destruct Hr as [Hq Hc Hok]. apply returns_bind, returns_bind.
    eapply returns_eq; [by apply (get_ctl_spec m _ rx Hc); right|].
    destruct (put_ctl_spec m _ {| sent := i32 (zlen (ch_queue s)); flow_control := v |} rx Hc (or_intror eq_refl)) as (u & Hu & Hp).
    eapply returns_eq; [exact Hu|]. apply returns_ret. exists {| ch_queue := ch_queue s; ch_fc := v |}.
    split; [|by constructor]. destruct s. constructor.
  - cbn [us_op]. unfold qb_ipc_us_fc_get. apply returns_bind, returns_bind.
    eapply returns_eq; [apply (get_ctl_spec m _ tx (cr_ctl _ _ Hr)); by left|]. apply returns_ret, returns_ret.
    exists s. split; [constructor|done].
  - cbn [us_op]. unfold qb_ipc_us_q_len_get. apply returns_bind, returns_bind.
    eapply returns_eq; [apply (get_ctl_spec m _ tx (cr_ctl _ _ Hr)); by left|]. apply returns_ret, returns_ret.
    exists s. split; [constructor|done].
Qed.

(** C26. One direction of a connection over sockets is a queue of messages.  Whatever is
    sent, received and asked at its two ends, with messages that have a header whose
    size field is their length, none longer than [lim], and buffers of [lim] bytes at
    least, every operation returns as the specification allows: a message is refused
    with an error or delivered once, whole, in its turn and within the buffer;
    receiving from an empty queue ends with [-ETIMEDOUT] or the news that the peer is
    gone; the length that [qb_ipc_us_q_len_get] reports is that of the queue, and the
    flow control is the one that was set last.  This holds also while the socket is
    still to be connected.  A shorter buffer is not within the contract of the code:
    it receives as many bytes as the message says, whatever the buffer's length. *)
Theorem us_channel_refines os s m :
  (2 <= fuel)%nat -> Forall (op_ok lim) os -> chan_rep m s ->
  returns (us_run os) m (fun rs m' => exists s', chan_run s os rs s' /\ chan_rep m' s').
Proof.
  intros Hf Hos. revert s m. induction Hos as [|o os Ho Hos IH]; intros s m Hr; cbn [us_run].
  - apply returns_ret. exists s. split; [constructor|done].
  - apply returns_bind. eapply returns_mono; [by apply op_refines|]. intros r m1 (s1 & Hs1 & Hr1).
    apply returns_bind. eapply returns_mono; [by apply IH|]. intros rs m2 (s2 & Hs2 & Hr2).
    apply returns_ret. exists s2. split; [by econstructor|done].
Qed.
End Channel.
