(* ===== verification/IpccTheorems.v ===== *)
(** * The client's side: theorems

    A client that waits for the response to a request over shared memory. *)
From stdpp Require Import strings gmap.
From S2P Require Import Prelude Memory Cstring RingBuffer RingBufferOpen RingBufferInv RingBufferSpec Loop IpcBase IpcSock.
From S2P Require Import Ipcs IpcShm Ipcc IpcLogic.

Section Client.
Context {E : Env}.
Context (cfuncs : qb_ipc_type -> qb_ipcc_funcs).
Context (c : Z) (w : qb_ipc_one_way) (h : ring_handle) (t : qb_ipc_type).
Context (Hfuncs : cfuncs t = shm_cfuncs) (Hw : ow_rb w = Some h).

(** A client that is connected, with the responses [q] in its ring; its waits
    meet no error but the timeout. *)
Definition waiting (m : machine) (q : list (list Z)) : Prop :=
  (exists x, clients m !! c = Some x /\ cc_funcs x = Some t /\ cc_response x = w /\ cc_is_connected x = true) /\
  exists r, rings m !! rh_id h = Some r /\ rb_rep (with_flags (sr_rb r) (rh_flags h)) q [].

Lemma returns_client m q Q :
  waiting m q -> (forall x, clients m !! c = Some x -> cc_funcs x = Some t -> cc_response x = w ->
    cc_is_connected x = true -> Q x m) -> returns (get_client c) m Q.
Proof. intros ((x & Hx & H1 & H2 & H3) & _) HQ. unfold returns, get_client. rewrite Hx. by apply HQ. Qed.

Lemma with_flags_inv rb fl q : rb_inv rb q -> rb_inv (with_flags rb fl) q.
Proof. intros []. by constructor. Qed.

Lemma client_recv m q len ms :
  waiting m q -> 0 <= len -> 0 <= ms ->
  returns (qb_ipc_shm_recv w len ms) m (fun r m' =>
    match q with
    | d :: q' =>
      if len <? zlen d then r = (- ENOBUFS, []) /\ waiting m' q
      else r = (zlen d, d) /\ waiting m' q'
    | [] => r = (- ETIMEDOUT, []) /\ waiting m' []
    end).
Proof.
  intros [Hc (r & Hr & Hrep)] Hlen Hms. unfold qb_ipc_shm_recv. rewrite Hw. apply returns_bind.
  unfold returns at 1, get_ring. rewrite Hr. set (rb := with_flags _ _) in *.
  pose proof (step_read rb q [] len ms Hrep Hlen) as Hstep. cbn [queue_step] in Hstep.
  assert (Hput : forall rb' q', rb_rep rb' q' [] -> waiting
    (set_rings m (<[rh_id h := {| sr_rb := rb'; sr_user_data := sr_user_data r |}]> (rings m))) q').
  { intros rb' q' [A B _ D F]. split; [done|]. eexists. split; [apply lookup_insert_eq|]. cbn [sr_rb].
    constructor; try done; [by apply with_flags_inv|]. exact (rep_flags _ _ _ Hrep). }
  assert (Hdone : forall rb' res out, qb_rb_chunk_read (Some rb) len ms 0 = Some (Some rb', res, out) ->
    forall P : Z * list Z -> machine -> Prop,
    P (res, out) (set_rings m (<[rh_id h := {| sr_rb := rb'; sr_user_data := sr_user_data r |}]> (rings m))) ->
    returns match qb_rb_chunk_read (Some rb) len ms 0 with
            | Some (Some rb, r, bs) => _ ← put_ring h rb; mret (r, bs)
            | _ => fail F_loop
            end m P).
  { intros rb' res out -> P HP. apply returns_bind. unfold returns at 1, put_ring. by rewrite Hr. }
  assert (Hread : forall o, ring_step rb (Op_read len ms) = Some o ->
    qb_rb_chunk_read (Some rb) len ms 0 = Some (Some (fst o), fst (snd o), snd (snd o))).
  { intros [rb' [res out]]. cbn [ring_step]. destruct (qb_rb_chunk_read _ _ _ _) as [[[[?|] ?] ?]|]; try done.
    by intros [= <- <- <-]. }
  destruct q as [|d q].
  - assert (wait_empty [] ms = Some ([], - ETIMEDOUT)) as Hwait.
    { cbn. destruct (Z.eqb_spec ms 0); [done|]. destruct (Z.ltb_spec 0 ms); [done|lia]. }
    rewrite Hwait in Hstep. destruct Hstep as (rb' & Hstep & Hrep' & _).
    apply Hread in Hstep. eapply Hdone; [exact Hstep|]. auto.
  - destruct (len <? zlen d); destruct Hstep as (rb' & Hstep & Hrep' & _);
      apply Hread in Hstep; (eapply Hdone; [exact Hstep|]); auto.
Qed.

Abbreviation disconnected := qb_ipc_us_sock_error_is_disconnected.

(** After a wait that found nothing, the client looks at the socket. *)
Lemma check_timed_out m ms :
  waiting m [] ->
  returns (ow ← ipcc_response_sock_one_way_get c;
           _check_connection_state_with c (- ETIMEDOUT) ow ms POLLIN) m (fun res m' =>
    res = - ETIMEDOUT /\ waiting m' [] \/ disconnected res = true /\ is_Some (clients m' !! c)).
Proof.
  intros Hm. unfold ipcc_response_sock_one_way_get. apply returns_bind, returns_bind.
  eapply returns_client; [done|]. intros x Hx Hf Hr Hc. apply returns_ret.
  unfold _check_connection_state_with. cbn [Z.leb]. change (0 <=? - ETIMEDOUT) with false. cbv iota.
  apply returns_bind, returns_ret. change ((- ETIMEDOUT =? - EAGAIN) || _) with true. cbv iota.
  change (- ETIMEDOUT =? - ETIMEDOUT) with true. cbn [negb].
  apply returns_bind. eapply returns_client; [done|]. intros ? _ _ _ _. apply returns_bind.
  unfold qb_ipc_us_ready. apply returns_bind. unfold returns at 1, sys. set (m1 := set_calls _ _).
  assert (Hm1 : waiting m1 []) by exact Hm. set (a := reply _ _).
  assert (Hafter : forall res2, returns (if disconnected res2 then
      _ ← mod_client c (fun x => set_cc_is_connected x false); mret res2 else mret (- ETIMEDOUT)) m1 (fun res m' =>
    res = - ETIMEDOUT /\ waiting m' [] \/ disconnected res = true /\ is_Some (clients m' !! c))).
  { intros res2. destruct (disconnected res2) eqn:Hd; [|by apply returns_ret; left].
    apply returns_bind. unfold returns at 1, mod_client. change (clients m1) with (clients m). rewrite Hx.
    apply returns_ret. right. split; [done|]. cbn. rewrite lookup_insert_eq. eauto. }
  repeat case_match; apply returns_ret; apply Hafter.
Qed.

(** One round of waiting. *)
Lemma ipcc_recv_spec m q len ms :
  waiting m q -> 0 <= len -> 0 <= ms -> Forall (fun d => zlen d < 2 ^ 31) q ->
  returns (qb_ipcc_recv cfuncs (Some c) len ms) m (fun r m' =>
    match q with
    | d :: q' =>
      if len <? zlen d then r = (- ENOBUFS, []) /\ is_Some (clients m' !! c)
      else r = (zlen d, d) /\ waiting m' q'
    | [] => r = (- ETIMEDOUT, []) /\ waiting m' [] \/ disconnected (fst r) = true /\ is_Some (clients m' !! c)
    end).
Proof.
  intros Hm Hlen Hms Hsz. unfold qb_ipcc_recv, client_funcs. apply returns_bind. eapply returns_client; [done|].
  intros x Hx Hf Hr Hc. apply returns_bind, returns_bind. eapply returns_client; [done|]. intros x' _ -> _ _.
  apply returns_ret. rewrite Hfuncs. cbn [cf_recv shm_cfuncs]. rewrite Hr. apply returns_bind.
  eapply returns_mono; [by eapply client_recv|]. intros [res bs] m1. destruct q as [|d q].
  - intros [[= -> ->] Hm1]. change (i32 (- ETIMEDOUT)) with (- ETIMEDOUT). change (0 <=? - ETIMEDOUT) with false.
    cbv iota zeta. apply returns_assoc. eapply returns_mono; [by apply check_timed_out|].
    intros cr m2 [[-> Hm2]|[Hd Hx2]]; apply returns_ret; [by left|right].
    assert (cr < 0) as Hneg by (unfold disconnected in Hd; destruct (Z.leb_spec 0 cr); [done|lia]).
    destruct (Z.ltb_spec cr 0); [|lia]. done.
  - inversion Hsz as [|? ? Hd Hsz']; subst. destruct (Z.ltb_spec len (zlen d)).
    + intros [[= -> ->] Hm1]. change (i32 (- ENOBUFS)) with (- ENOBUFS). change (0 <=? - ENOBUFS) with false.
      cbv iota zeta. unfold ipcc_response_sock_one_way_get.
      apply returns_bind, returns_bind. eapply returns_client; [done|]. intros x1 Hx1 _ _ _. apply returns_ret.
      unfold _check_connection_state_with, note_disconnect, when.
      change (0 <=? - ENOBUFS) with false. cbv iota. change (disconnected (- ENOBUFS)) with true. cbv iota.
      apply returns_bind, returns_bind. unfold returns at 1, mod_client. rewrite Hx1.
      change ((- ENOBUFS =? - EAGAIN) || _) with false. cbv iota. apply returns_ret, returns_ret.
      split; [done|]. cbn. rewrite lookup_insert_eq. eauto.
    + intros [[= -> ->] Hm1]. pose proof (zlen_nonneg d). rewrite i32_small by lia.
      destruct (Z.leb_spec 0 (zlen d)); [|lia]. by apply returns_ret.
Qed.

(** Rounds that find nothing use up the time that remains. *)
Lemma recv_loop_times_out len ms : 0 <= len -> 0 <= ms < 2 ^ 31 ->
  forall n rem m, waiting m [] -> 0 <= rem <= ms -> (Z.to_nat (rem / QB_IPC_MAX_WAIT_MS) < n)%nat ->
  returns (recv_loop cfuncs n c len ms rem) m (fun r _ => fst r = - ETIMEDOUT \/ disconnected (fst r) = true).
Proof.
  intros Hlen Hms n. unfold QB_IPC_MAX_WAIT_MS. induction n as [|n IH]; intros rem m Hm Hrem Hn; [lia|].
  cbn [recv_loop]. destruct (Z.eqb_spec ms (-1)); [lia|]. rewrite orb_false_r. unfold QB_IPC_MAX_WAIT_MS.
  set (now := if 2000 <? rem then 2000 else rem).
  assert (Hnow : 0 <= now <= rem /\ (now = rem \/ now = 2000 /\ 2000 < rem))
    by (unfold now; destruct (Z.ltb_spec 2000 rem); lia).
  apply returns_bind. eapply returns_mono; [apply (ipcc_recv_spec m [] len now); [done|done|lia|constructor]|].
  intros [res bs] m1 [[[= -> ->] Hm1]|[Hd [x1 Hx1]]]; cbn [fst] in *.
  - change (- ETIMEDOUT =? - ETIMEDOUT) with true. destruct (Z.ltb_spec ms 0); [lia|]. cbn [negb andb orb].
    rewrite i32_small by lia. apply returns_bind. eapply returns_client; [done|]. intros x Hx _ _ Hc. rewrite Hc.
    destruct (Z.ltb_spec 0 (rem - now)).
    + change (- EAGAIN =? - EAGAIN) with true. cbn [andb]. apply IH; [done|lia|].
      destruct Hnow as [_ [|[-> Hbig]]]; [lia|]. replace (rem - 2000) with (rem + (-1) * 2000) by lia.
      rewrite Z.div_add by lia. assert (1 <= rem / 2000) by (apply Z.div_le_lower_bound; lia). lia.
    + change (- ETIMEDOUT =? - EAGAIN) with false. cbn [andb]. apply returns_ret. by left.
  - assert (Ht : (res =? - ETIMEDOUT) = false) by (destruct (Z.eqb_spec res (- ETIMEDOUT)) as [->|]; done).
    assert (Ha : (res =? - EAGAIN) = false) by (destruct (Z.eqb_spec res (- EAGAIN)) as [->|]; done).
    rewrite Ht. cbn [andb]. rewrite Ha. cbn [andb]. apply returns_bind. unfold returns at 1, get_client. rewrite Hx1.
    apply returns_ret. by right.
Qed.

(** C5. Waiting for a response ends.  With a timeout that is not negative the loop of
    [qb_ipcc_sendv_recv] returns after at most one round per two seconds of the
    timeout and one more: with the response and the response taken off the
    ring, with [-ENOBUFS] if the buffer is too small, or, if there is none, with
    [-ETIMEDOUT] or an error that says that the server is gone. *)
Theorem response_wait_ends m q n len ms :
  waiting m q -> 0 <= len -> 0 <= ms < 2 ^ 31 -> Forall (fun d => zlen d < 2 ^ 31) q ->
  (Z.to_nat (ms / QB_IPC_MAX_WAIT_MS) < n)%nat ->
  returns (recv_loop cfuncs n c len ms ms) m (fun r m' =>
    match q with
    | d :: q' => if len <? zlen d then fst r = - ENOBUFS else r = (zlen d, d) /\ waiting m' q'
    | [] => fst r = - ETIMEDOUT \/ disconnected (fst r) = true
    end).
Proof.
  intros Hm Hlen Hms Hsz Hn. destruct q as [|d q]; [apply recv_loop_times_out; done || lia|].
  destruct n as [|n]; [lia|]. cbn [recv_loop]. set (now := if _ || _ then QB_IPC_MAX_WAIT_MS else ms).
  assert (0 <= now) as Hnow by (unfold now, QB_IPC_MAX_WAIT_MS; case_match; lia). apply returns_bind.
  eapply returns_mono; [by apply (ipcc_recv_spec m (d :: q) len now)|]. intros [res bs] m1.
  destruct (len <? zlen d).
  - intros [[= -> ->] [x Hx]]. change (- ENOBUFS =? - ETIMEDOUT) with false. cbn [andb].
    change (- ENOBUFS =? - EAGAIN) with false. cbn [andb]. apply returns_bind. unfold returns at 1, get_client.
    rewrite Hx. by apply returns_ret.
  - intros [[= -> ->] Hm1]. pose proof (zlen_nonneg d).
    destruct (Z.eqb_spec (zlen d) (- ETIMEDOUT)); [unfold ETIMEDOUT in *; lia|]. cbn [andb].
    destruct (Z.eqb_spec (zlen d) (- EAGAIN)); [unfold EAGAIN in *; lia|]. cbn [andb]. apply returns_bind.
    eapply returns_client; [done|]. intros x _ _ _ _. by apply returns_ret.
Qed.
End Client.
