(* ===== verification/IpcWitnesses.v ===== *)
(** * IPC: the hypotheses of the theorems can hold

    The theorems applied to the environment of module [IpcExamples], in which every
    call succeeds, to the shared memory transport and to concrete
    applications. *)
From stdpp Require Import strings gmap functions.
From S2P Require Import Prelude Memory Cstring RingBuffer RingBufferOpen RingBufferInv RingBufferSpec RingBufferExamples.
From S2P Require Import Loop IpcBase IpcSock Ipcs IpcShm IpcSetup Ipcc IpcLogic IpcInv IpcsSafe IpcsLife IpcShmLaws IpcsTheorems IpcsServe.
From S2P Require Import IpcsNotify IpccTheorems.

(** * IPC: runs of a server and a client *)
Module IpcExamples.

(** ** An environment

    Every call succeeds: sockets take and give all the bytes asked for, the
    client's credentials arrive with its request, and a client receives the last
    response that was sent. *)
Definition answer_ret (r : Z) : answer := {| ret := r; err := 0; out := []; cmsgs := [] |}.
Definition answer_out (r : Z) (o : list Z) : answer := {| ret := r; err := 0; out := o; cmsgs := [] |}.

Definition the_request : list Z :=
  request_bytes {| q_id := QB_IPC_MSG_AUTHENTICATE; q_size := SIZEOF_CONNECTION_REQUEST; q_max_msg_size := 64 |}.
Definition the_creds : ipc_auth_ugp := {| ugp_uid := 1000; ugp_gid := 100; ugp_pid := 4242 |}.

Definition last_response (h : history) : list Z :=
  foldl (fun acc p => match fst p with
                      | Sys_send _ d => if zlen d =? SIZEOF_CONNECTION_RESPONSE then d else acc
                      | _ => acc end) [] h.

Definition plain_reply (h : history) (c : sys_call) : answer :=
  match c with
  | Sys_send _ d => answer_ret (zlen d)
  | Sys_recv _ n => answer_out n (zrepeat 0 n)
  | Sys_recvmsg _ n =>
    {| ret := n; err := 0; out := if n =? SIZEOF_CONNECTION_REQUEST then the_request else last_response h;
       cmsgs := [(SCM_CREDENTIALS, CMSG_LEN_UCRED, the_creds)] |}
  | Sys_poll fds _ => answer_out (zlen fds) (snd <$> fds)
  | Sys_calloc _ => answer_ret 1
  | Sys_socket => answer_ret 5
  | Sys_accept _ => answer_ret 7
  | Sys_mkdtemp t => answer_out 1 (take (length t - 6) t ++ bytes "abcdef"%string)
  | _ => answer_ret 0
  end.

Definition plain_open : open_env :=
  {| page_size := 4096; env_calloc_ok := true; env_fd_hdr := 20; env_hdr_path := "/dev/shm/qb-1/h"%string;
     env_mmap_hdr_errno := 0; env_sem_init_errno := 0; env_fd_data := 21; env_data_path := "/dev/shm/qb-1/d"%string;
     env_circular_mmap := 0; env_shared_hdr := no_hdr; env_psem := {| posix_sem := 0; wait_env := [] |};
     env_data := [] |}.
Definition plain_close : close_env :=
  {| ce_open_dir := 3; ce_unlink_data := 0; ce_unlink_hdr := 0; ce_munmap_data := 0; ce_munmap_hdr := 0 |}.

Definition plain : Env :=
  {| reply := plain_reply; open_env_of := fun _ _ => plain_open; close_env_of := fun _ _ => plain_close;
     filesystem_sockets := false; SOCKETDIR := bytes "/run"%string |}.

(** ** The application: it accepts every client and echoes messages *)
Section Echo.
Context {E : Env}.
Definition shm_only (_ : qb_ipc_type) : qb_ipcs_funcs := shm_funcs.
Definition no_callbacks : qb_ipcs_service_handlers :=
  {| connection_accept := None; connection_created := None; msg_process := fun _ _ _ => mret 0;
     connection_closed := None; connection_destroyed := None |}.
Definition echo (c : Z) (p : ptr) (n : Z) : M Z :=
  bs ← read_mem p 0 n;
  r ← qb_ipcs_response_send shm_only no_callbacks (Some c) bs;
  mret (if r <? 0 then r else 0).
Definition app : qb_ipcs_service_handlers :=
  {| connection_accept := Some (fun _ _ _ => mret 0); connection_created := None; msg_process := echo;
     connection_closed := None; connection_destroyed := None |}.
End Echo.
#[local] Existing Instance plain.

Definition cfuncs {E : Env} (_ : qb_ipc_type) : qb_ipcc_funcs := shm_cfuncs.

Definition empty_machine : machine :=
  {| svc := qb_ipcs_create (bytes "echo"%string) 7 QB_IPC_NATIVE 99 true; conns := ∅; conn_list := []; auths := ∅;
     rings := ∅; files := ∅; clients := ∅; us_mem := no_us_memory; fresh := 1; calls := [] |}.

Definition the_message : list Z := field_i32 3 ++ field_i32 20 ++ [1; 2; 3; 4].

Definition serve : M (Z * Z * Z * list Z) :=
  _ ← qb_ipcs_poll_handlers_set true true true true;
  _ ← qb_ipcs_run (E := plain);
  _ ← qb_ipcs_us_connection_acceptor (E := plain) 10 5 POLLIN;
  a ← get (fun m => fresh m - 1);
  _ ← process_auth (E := plain) 10 shm_only app POLLIN a;
  l ← get conn_list;
  oc ← qb_ipcc_connect (E := plain) 10 (fun _ => qb_ipcc_shm_connect) (bytes "echo"%string) 64;
  r1 ← qb_ipcc_send (E := plain) 10 cfuncs oc the_message;
  r2 ← qb_ipcs_dispatch_connection_request (E := plain) 10 shm_only app POLLIN (head l);
  '(r3, bs) ← qb_ipcc_recv (E := plain) cfuncs oc 64 0;
  mret (r1, r2, r3, bs).

Example serve_echoes :
  match serve empty_machine with Done r _ => r = (20, 0, 20, the_message) | Fault _ => False end.
Proof. vm_compute. reflexivity. Qed.

(** ** Behaviour that an application has to avoid, and paths that leak *)

(** A server with one client, its first connection. *)
Definition with_client (E : Env) (a : qb_ipcs_service_handlers) : M Z :=
  _ ← qb_ipcs_poll_handlers_set true true true true;
  _ ← qb_ipcs_run (E := E);
  _ ← qb_ipcs_us_connection_acceptor (E := E) 10 5 POLLIN;
  d ← get (fun m => fresh m - 1);
  _ ← process_auth (E := E) 10 (shm_only (E := E)) a POLLIN d;
  mret (d + 1).

Definition disconnecting : qb_ipcs_service_handlers :=
  {| connection_accept := None; connection_created := None;
     msg_process := fun c _ _ => _ ← qb_ipcs_disconnect (E := plain) shm_only no_callbacks (Some c); mret 0;
     connection_closed := None; connection_destroyed := None |}.

(** An application that disconnects the client while it processes a message
    frees the connection that the dispatch function goes on using. *)
Example disconnect_in_msg_process :
  (c ← with_client plain disconnecting;
   x ← get_conn c;
   _ ← qb_ipc_shm_send (c_request x) the_message;
   qb_ipcs_dispatch_connection_request (E := plain) 10 shm_only disconnecting POLLIN (Some c)) empty_machine
  = Fault F_freed.
Proof. vm_compute. reflexivity. Qed.

(** A second [qb_ipcs_disconnect] takes the application's own reference. *)
Example disconnect_twice :
  (c ← with_client plain no_callbacks;
   _ ← qb_ipcs_connection_ref (Some c);
   _ ← qb_ipcs_disconnect shm_only no_callbacks (Some c);
   _ ← qb_ipcs_disconnect shm_only no_callbacks (Some c);
   qb_ipcs_connection_unref shm_only no_callbacks (Some c)) empty_machine
  = Fault F_freed.
Proof. vm_compute. reflexivity. Qed.

(** The system has no memory for a receive buffer. *)
Definition no_buffer : Env :=
  {| reply := fun h k => match k with Sys_calloc (Alloc_receive_buf _) => answer_ret 0 | _ => plain_reply h k end;
     open_env_of := fun _ _ => plain_open; close_env_of := fun _ _ => plain_close;
     filesystem_sockets := false; SOCKETDIR := bytes "/run"%string |}.

(** The reference to the service that the connection took is not given back:
    there is no connection and no client left, but two references. *)
Example no_receive_buffer_leaks :
  match with_client no_buffer no_callbacks empty_machine with
  | Done _ m => (s_ref_count <$> svc m, size (conns m), size (auths m)) = (Some 2, 0%nat, 0%nat)
  | Fault _ => False
  end.
Proof. vm_compute. reflexivity. Qed.

(** [setsockopt] fails once the client is authenticated. *)
Definition no_sockopt : Env :=
  {| reply := fun h k => match k with Sys_setsockopt_passcred _ false => answer_ret (-1) | _ => plain_reply h k end;
     open_env_of := fun _ _ => plain_open; close_env_of := fun _ _ => plain_close;
     filesystem_sockets := false; SOCKETDIR := bytes "/run"%string |}.

(** The socket is closed, but it stays in the main loop with the
    authentication's data and its reference to the service. *)
Example passcred_error_leaks :
  match with_client no_sockopt no_callbacks empty_machine with
  | Done _ m =>
    (s_ref_count <$> svc m, size (conns m), size (auths m)) = (Some 2, 0%nat, 1%nat) /\
    In (Sys_close 7) (map fst (calls m)) /\ ~ In (Loop_dispatch_del 7) (map fst (calls m))
  | Fault _ => False
  end.
Proof.
  vm_compute. split; [reflexivity|]. split.
  - repeat (first [left; reflexivity|right]).
  - intros H. repeat (destruct H as [H|H]; [discriminate H|]). exact H.
Qed.

(** A client at the other end of the rings. *)
Definition attached_client (description : list Z) : M (option Z) :=
  k ← new_address;
  _ ← modify (fun m => set_clients m (<[k := new_client (bytes "echo"%string) 64]> (clients m)));
  _ ← qb_ipcc_shm_connect (E := plain) k (with_names zero_response description (bytes "echo"%string));
  _ ← mod_client k (fun x => set_cc_is_connected (set_cc_request x (set_ow_max_msg_size (cc_request x) 64)) true);
  mret (Some k).

(** A response that is too big for the client's buffer makes the client take
    the server for dead. *)
Example small_buffer_disconnects :
  match (c ← with_client plain app;
         x ← get_conn c;
         oc ← attached_client (c_description x);
         _ ← qb_ipcc_send (E := plain) 10 cfuncs oc the_message;
         _ ← qb_ipcs_dispatch_connection_request (E := plain) 10 shm_only app POLLIN (Some c);
         '(r, _) ← qb_ipcc_recv (E := plain) cfuncs oc 8 0;
         x ← get_client (default 0 oc);
         mret (r, cc_is_connected x)) empty_machine with
  | Done v _ => v = (- ENOBUFS, false)
  | Fault _ => False
  end.
Proof. vm_compute. reflexivity. Qed.

End IpcExamples.
Import IpcExamples.

#[local] Existing Instance plain.

#[local] Instance plain_ok : EnvOk plain.
Proof. constructor; [by intros h []|]. intros h n. by vm_compute. Qed.

#[local] Instance plain_send : SendOk plain.
Proof. constructor; intros h sk d; cbn; [pose proof (zlen_nonneg d); lia|]. pose proof (zlen_nonneg d). lia. Qed.

#[local] Instance shm_only_laws t : TransportLaws (shm_only t) := shm_laws.

Lemma no_callbacks_ok : AppOk shm_only no_callbacks.
Proof.
  constructor; try done. intros c p n m g Hi Ho Hr Hn Hrd. apply wp_ret. exists g.
  by apply kept_steady, steady_refl.
Qed.

(** The echo server keeps to the rules of the callbacks. *)
Lemma app_ok : AppOk shm_only app.
Proof.
  constructor; try done.
  - intros f c uid gid [= <-] m g Hi _ _. apply wp_ret. exists g. by apply kept_steady, steady_refl.
  - intros c p n m g Hi Ho Hr Hn Hrd. cbn [msg_process app]. unfold echo. apply wp_bind.
    eapply wp_mono; [by apply (Hrd 0 n); lia|]. intros bs ? ->. apply wp_bind.
    destruct (owned_live _ _ _ _ Hi Ho) as (x & Hx).
    eapply wp_mono; [by eapply (response_send_spec shm_only no_callbacks no_callbacks_ok)|].
    intros r m' K. apply wp_ret. by exists g.
Qed.

Lemma empty_created : just_created empty_machine.
Proof. split; [|done]. by eexists _, _, _, _. Qed.

(** A client connects, sends a request and goes. *)
Definition a_visit : list event :=
  [Ev_acceptor 5 POLLIN; Ev_auth 1 POLLIN; Ev_dispatch 2 POLLIN; Ev_disconnect 2; Ev_destroy].


Lemma shm_connect_all_or_nothing_witness :
  let x := new_connection QB_IPC_SHM in
  let s := {| s_type := QB_IPC_SHM; s_name := [97]; s_max_buffer_size := 0; s_service_id := 1; s_ref_count := 2;
              s_pid := 9; s_needs_sock_for_poll := true; s_server_sock := 5; s_job_add := true;
              s_dispatch_add := true; s_dispatch_mod := true; s_dispatch_del := true; s_funcs := Some QB_IPC_SHM;
              s_poll_priority := QB_LOOP_MED; s_stats := {| active_connections := 0; closed_connections := 0 |};
              s_context := 0 |} in
  let m := set_svc (put_conn empty_machine 1 x) (Some s) in
  wp (qb_ipcs_shm_connect 1 zero_response) m (fun res m' =>
    r_error (snd res) = fst res /\ exists y, conns m' !! 1 = Some y /\
      if fst res =? 0 then has_rings y
      else no_rings y /\ forall k, fresh m <= k -> is_Some (rings m' !! k) -> closed_since m m' k).
Proof.
  intros x s m. apply (shm_connect_all_or_nothing m 1 x s).
  - reflexivity.
  - by intros [].
  - by intros [].
  - reflexivity.
  - by repeat split; eauto.
  - intros k _. reflexivity.
Defined.

(** ** A connection with a request in its ring *)

Lemma with_flags_rep rb fl q env :
  rb_rep rb q env -> has_flag fl QB_RB_FLAG_OVERWRITE = false -> rb_rep (with_flags rb fl) q env.
Proof. intros [Hi Hn _ Hs He] Hf. constructor; try done. by apply with_flags_inv. Qed.

(** A ring of 64 words with the message in it. *)
Lemma ring_with_message : exists rb, rb_rep rb [the_message] [].
Proof.
  destruct (write_rep (small_ring 64 1 posix_notifier) [] [] the_message 0) as (rb & _ & Hrep & _).
  - apply small_ring_rep. unfold max_word_size. lia.
  - reflexivity.
  - by exists rb.
Qed.

Definition demo_handle : ring_handle := {| rh_id := 3; rh_flags := 1 |}.
Definition demo_way : qb_ipc_one_way :=
  set_ow_rb (set_ow_max_msg_size (new_one_way QB_IPC_SHM) 64) (Some demo_handle).
Definition demo_conn : qb_ipcs_connection :=
  set_c_receive_buf
    (set_c_setup (set_c_request (new_connection QB_IPC_SHM) demo_way) (set_ow_sock (new_one_way QB_IPC_SHM) 7))
    (Some (zrepeat 0 64)).
Definition demo_service : qb_ipcs_service :=
  {| s_type := QB_IPC_SHM; s_name := [97]; s_max_buffer_size := 0; s_service_id := 1; s_ref_count := 2;
     s_pid := 9; s_needs_sock_for_poll := true; s_server_sock := 5; s_job_add := true;
     s_dispatch_add := true; s_dispatch_mod := true; s_dispatch_del := true; s_funcs := Some QB_IPC_SHM;
     s_poll_priority := QB_LOOP_MED; s_stats := {| active_connections := 1; closed_connections := 0 |};
     s_context := 0 |}.
Definition demo_machine (rb : qb_ringbuffer_s psem) : machine :=
  set_rings (set_svc (put_conn empty_machine 1 demo_conn) (Some demo_service))
    {[3 := {| sr_rb := rb; sr_user_data := 0 |}]}.

(** An application that writes each message to descriptor 99. *)
Definition logging : qb_ipcs_service_handlers :=
  {| connection_accept := None; connection_created := None;
     msg_process := fun _ p n => bs ← read_mem p 0 n; _ ← sys (Sys_send 99 bs); mret 0;
     connection_closed := None; connection_destroyed := None |}.
Definition logged (h : history) : list (list Z) :=
  omap (fun p => match fst p with Sys_send 99 d => Some d | _ => None end) h.

Lemma logging_ok s sock :
  LogOk logging s 1 demo_way demo_handle sock (fun l m => logged (calls m) = l).
Proof.
  constructor; try done.
  - intros l m sk n a Hl. cbn. unfold logged in *. rewrite omap_app, Hl. cbn. apply app_nil_r.
  - intros l d m p Hl Hv Hrd. cbn [msg_process logging]. apply returns_bind. eapply returns_eq; [exact Hrd|].
    apply returns_bind. unfold returns at 1, sys. apply returns_ret. split_and!; [done| |done|done].
    cbn [calls set_calls]. unfold logged in *. rewrite omap_app, Hl. done.
Qed.

Lemma requests_in_order_witness : exists rb,
  rb_rep rb [the_message] [] /\
  returns (qb_ipcs_dispatch_connection_request 1 shm_only logging POLLIN (Some 1)) (demo_machine rb) (fun res m' =>
    res = 0 /\ logged (calls m') = [the_message] /\ ring_holds demo_handle m' [] /\
    exists hs a, calls m' = hs ++ [(Sys_recv 7 1, a)]).
Proof.
  destruct ring_with_message as [rb Hrb]. exists rb. split; [exact Hrb|].
  apply (requests_in_order (E := plain) 1 shm_only logging demo_service 1 demo_way demo_handle 7 QB_IPC_SHM
           (conj eq_refl eq_refl) eq_refl (fun l m => logged (calls m) = l) (logging_ok demo_service 7)
           (fun _ _ => eq_refl) [] [the_message] (demo_machine rb) POLLIN).
  - lia.
  - reflexivity.
  - reflexivity.
  - split; [reflexivity|]. by exists demo_conn.
  - exists {| sr_rb := rb; sr_user_data := 0 |}, []. split; [reflexivity|]. by apply with_flags_rep.
  - discriminate.
  - constructor; [|constructor]. by split; [|split].
  - reflexivity.
  - reflexivity.
  - reflexivity.
Defined.

Lemma announced_once_witness :
  let m := demo_machine (small_ring 64 1 posix_notifier) in
  wp (new_event_notification 1 1) m (fun r m' =>
    if (0 <=? r) || (r =? - EAGAIN) then announced demo_service 1 7 m' 1
    else announced demo_service 1 7 m' 0 /\ outstanding 1 m' 0).
Proof.
  intros m. apply (announced_once 1 demo_service 1 7 eq_refl ltac:(by repeat split; eauto) m 0 0 (zrepeat 0 64)).
  - split; [reflexivity|]. exists demo_conn, (zrepeat 0 64). by repeat split; vm_compute.
  - by exists demo_conn.
  - by exists demo_conn.
  - reflexivity.
Defined.

Lemma response_wait_ends_witness : exists rb,
  let m := set_clients (set_rings empty_machine {[3 := {| sr_rb := rb; sr_user_data := 0 |}]})
    {[1 := set_cc_is_connected (set_cc_response (set_cc_funcs (new_client [97] 64) (Some QB_IPC_SHM)) demo_way) true]} in
  returns (recv_loop cfuncs 1 1 64 0 0) m (fun r m' =>
    r = (20, the_message) /\ waiting 1 demo_way demo_handle QB_IPC_SHM m' []).
Proof.
  destruct ring_with_message as [rb Hrb]. exists rb. intros m.
  apply (response_wait_ends cfuncs 1 demo_way demo_handle QB_IPC_SHM eq_refl eq_refl m [the_message] 1 64 0).
  - split; [by eexists|]. exists {| sr_rb := rb; sr_user_data := 0 |}. split; [reflexivity|]. by apply with_flags_rep.
  - lia.
  - lia.
  - by repeat constructor.
  - by vm_compute; lia.
Defined.
