(* ===== verification/IpcSocketExamples.v ===== *)
(** * The socket transport: witnesses, a run of a server and a client, and paths
      that go wrong *)
From stdpp Require Import strings gmap.
From S2P Require Import Prelude Memory Cstring RingBuffer RingBufferOpen Loop IpcBase IpcSock Ipcs IpcShm IpcSocket IpcSetup Ipcc.
From S2P Require Import IpcLogic IpcSocketTheorems IpcWitnesses.
Import IpcExamples.

(** ** A network of datagram sockets

    Descriptors from 100 on are datagram sockets.  A socket has the address it was bound
    to and, once connected, a peer, into whose box it sends. *)
Record net := {
  n_bound : gmap (list Z) Z;
  n_peer : gmap Z Z;
  n_box : gmap Z (list (list Z));
  n_next : Z;
}.
Definition no_net : net := {| n_bound := ∅; n_peer := ∅; n_box := ∅; n_next := 100 |}.
Definition box (n : net) (fd : Z) : list (list Z) := default [] (n_box n !! fd).
Definition set_box (n : net) (fd : Z) (q : list (list Z)) : net :=
  {| n_bound := n_bound n; n_peer := n_peer n; n_box := <[fd := q]> (n_box n); n_next := n_next n |}.
Definition post (n : net) (fd : Z) (d : list Z) : net :=
  match n_peer n !! fd with Some g => set_box n g (box n g ++ [d]) | None => n end.

Definition net_step (n : net) (p : sys_call * answer) : net :=
  match fst p with
  | Sys_socket_dgram =>
    {| n_bound := n_bound n; n_peer := n_peer n; n_box := n_box n; n_next := n_next n + 1 |}
  | Sys_bind fd name =>
    {| n_bound := <[name := fd]> (n_bound n); n_peer := n_peer n; n_box := n_box n; n_next := n_next n |}
  | Sys_connect fd name =>
    match n_bound n !! name with
    | Some g => {| n_bound := n_bound n; n_peer := <[fd := g]> (n_peer n); n_box := n_box n; n_next := n_next n |}
    | None => n
    end
  | Sys_send fd d => post n fd d
  | Sys_writev fd iov => post n fd (concat iov)
  | Sys_recv fd _ => set_box n fd (tail (box n fd))
  | _ => n
  end.
Definition net_of (h : history) : net := foldl net_step no_net h.

Definition answer_err (e : Z) : answer := {| ret := -1; err := e; out := []; cmsgs := [] |}.
Definition first_of (q : list (list Z)) (n : Z) : answer :=
  match q with
  | [] => answer_err EAGAIN
  | d :: _ => let o := take (Z.to_nat n) d in answer_out (zlen o) o
  end.

Definition net_reply (h : history) (c : sys_call) : answer :=
  match c with
  | Sys_socket_dgram => answer_ret (n_next (net_of h))
  | Sys_recv_peek fd n => first_of (box (net_of h) fd) n
  | Sys_recv fd n => if 100 <=? fd then first_of (box (net_of h) fd) n else plain_reply h c
  | Sys_writev _ iov => answer_ret (zlen (concat iov))
  | Sys_mmap_file_open name _ => answer_out 50 name
  | Sys_strdup _ => answer_ret 1
  | Sys_getsockopt_size _ _ => answer_out 0 [4096]
  | _ => plain_reply h c
  end.
Definition env_with (r : history -> sys_call -> answer) : Env :=
  {| reply := r; open_env_of := fun _ _ => plain_open; close_env_of := fun _ _ => plain_close;
     filesystem_sockets := false; SOCKETDIR := bytes "/run"%string |}.
Definition network : Env := env_with net_reply.

(** ** A server that echoes what a client sends *)

Definition us_only {E : Env} (_ : qb_ipc_type) : qb_ipcs_funcs := us_funcs 5.
Definition us_client {E : Env} (_ : qb_ipc_type) : qb_ipcc_funcs := us_cfuncs 5.
Definition us_echo {E : Env} (c : Z) (p : ptr) (n : Z) : M Z :=
  bs ← read_mem p 0 n;
  r ← qb_ipcs_response_send us_only no_callbacks (Some c) bs;
  mret (if r <? 0 then r else 0).
Definition us_app {E : Env} : qb_ipcs_service_handlers :=
  {| connection_accept := None; connection_created := None; msg_process := us_echo;
     connection_closed := None; connection_destroyed := None |}.

Definition socket_machine : machine :=
  {| svc := qb_ipcs_create (bytes "echo"%string) 7 QB_IPC_SOCKET 99 true; conns := ∅; conn_list := []; auths := ∅;
     rings := ∅; files := ∅; clients := ∅; us_mem := no_us_memory; fresh := 1; calls := [] |}.

(** A server with one client, its first connection. *)
Definition us_with_client {E : Env} : M Z :=
  _ ← qb_ipcs_poll_handlers_set true true true true;
  _ ← qb_ipcs_run;
  _ ← qb_ipcs_us_connection_acceptor 10 5 POLLIN;
  d ← get (fun m => fresh m - 1);
  _ ← process_auth 10 us_only us_app POLLIN d;
  mret (d + 1).

Definition us_serve {E : Env} : M (Z * Z * Z * list Z * nat) :=
  c ← us_with_client;
  oc ← qb_ipcc_connect 10 (fun _ => qb_ipcc_us_connect) (bytes "echo"%string) 64;
  r1 ← qb_ipcc_send 10 us_client oc the_message;
  r2 ← qb_ipcs_dispatch_connection_request 10 us_only us_app POLLIN (Some c);
  '(r3, bs) ← qb_ipcc_recv us_client oc 64 0;
  _ ← qb_ipcs_disconnect us_only us_app (Some c);
  n ← get (fun m => size (conns m));
  mret (r1, r2, r3, bs, n).

(** The request and the response pass through the sockets, and the connection can be
    closed. *)
Example socket_serve_echoes :
  match us_serve (E := network) socket_machine with
  | Done r m => r = (20, 0, 20, the_message, 0%nat) /\ us_files (us_mem m) = ∅
  | Fault _ => False
  end.
Proof. vm_compute. split; reflexivity. Qed.

(** ** The hypotheses of the theorems can hold *)

(** One direction, from socket 3 to socket 4, with its control structure the second of
    the file; the sender is still to be connected. *)
Definition pair_reply (h : history) (c : sys_call) : answer :=
  match c with
  | Sys_send _ d => answer_ret (zlen d)
  | Sys_writev _ iov => answer_ret (zlen (concat iov))
  | Sys_recv_peek _ n | Sys_recv _ n => first_of (pending 3 4 h) n
  | Sys_poll _ _ => answer_ret 0
  | Sys_getsockopt_size _ _ => answer_out 0 [4096]
  | _ => answer_ret 0
  end.
Definition pair_env : Env := env_with pair_reply.

Definition the_tx : qb_ipc_one_way :=
  {| ow_max_msg_size := 64; ow_type := QB_IPC_SOCKET; ow_sock := 3; ow_rb := None; ow_sock_name := Some 30;
     ow_shared_data := Some (10, 1); ow_shared_file_name := [] |}.
Definition the_rx : qb_ipc_one_way :=
  {| ow_max_msg_size := 64; ow_type := QB_IPC_SOCKET; ow_sock := 4; ow_rb := None; ow_sock_name := None;
     ow_shared_data := Some (11, 1); ow_shared_file_name := [] |}.
Definition pair_machine : machine :=
  set_us_mem socket_machine
    {| us_files := {[bytes "control"%string := 20]}; us_ctl := {[20 := zero_controls]}; us_maps := {[10 := 20; 11 := 20]};
       us_names := {[30 := bytes "response"%string]} |}.

Lemma pair_datagrams : Datagrams (E := pair_env) (ow_sock the_tx) (ow_sock the_rx).
Proof.
  constructor; cbn [reply pair_env env_with pair_reply].
  - intros h d. by left.
  - intros h iov. by left.
  - intros h n Hq. change (pending 3 4 h = []) in Hq. cbn. by rewrite Hq.
  - intros h n d q Hq Hn. change (pending 3 4 h = d :: q) in Hq. cbn. by rewrite Hq.
  - intros h n d q Hq Hn. change (pending 3 4 h = d :: q) in Hq. cbn. by rewrite Hq.
Qed.

Definition a_message (n : Z) : list Z := field_i32 7 ++ field_i32 n ++ zrepeat 5 (n - 16).
Lemma a_message_ok n : 16 <= n <= 64 -> message_ok 64 (a_message n).
Proof.
  intros Hn. unfold message_ok, a_message.
  assert (Hl : zlen (field_i32 7 ++ field_i32 n ++ zrepeat 5 (n - 16)) = n).
  { unfold field_i32. rewrite !zlen_app, !zlen_le_split, zlen_zrepeat by lia. unfold zlen. cbn. lia. }
  rewrite Hl. split; [unfold SIZEOF_REQUEST_HEADER; lia|]. split; [lia|]. unfold header_size, field_i32.
  change (drop 8 ((le_split 4 (u32 7) ++ [0; 0; 0; 0]) ++ ?l)) with l. rewrite <- !app_assoc, take_app_length'.
  - rewrite le_combine_split. cbn. rewrite u32_small by lia. rewrite i32_small by zlia. zlia.
  - pose proof (zlen_le_split 4 (u32 n)). unfold zlen in *. lia.
Qed.

Definition some_ops : list chan_op :=
  [Ch_q_len; Ch_send (a_message 20); Ch_sendv [a_message 24]; Ch_q_len; Ch_recv 64 0; Ch_fc_set 1; Ch_recv 64 100;
   Ch_recv 64 100; Ch_fc_get; Ch_q_len].

Lemma us_channel_refines_witness :
  chan_rep the_tx the_rx 20 1 64 pair_machine {| ch_queue := []; ch_fc := 0 |} /\
  returns (us_run (E := pair_env) 2 the_tx the_rx some_ops) pair_machine (fun rs m' => exists s',
    chan_run {| ch_queue := []; ch_fc := 0 |} some_ops rs s' /\ chan_rep the_tx the_rx 20 1 64 m' s').
Proof.
  assert (Hr : chan_rep the_tx the_rx 20 1 64 pair_machine {| ch_queue := []; ch_fc := 0 |}).
  { constructor; [reflexivity| |constructor]. exists 10, 11, zero_controls. split_and!; try reflexivity; done. }
  split; [exact Hr|]. apply (us_channel_refines (E := pair_env) 2 the_tx the_rx 20 1 64 (D := pair_datagrams)).
  - lia.
  - repeat constructor; cbn [op_ok]; try done; try (apply a_message_ok; lia).
  - exact Hr.
Defined.

(** What the run returns. *)
Example some_ops_results :
  match us_run (E := pair_env) 2 the_tx the_rx some_ops pair_machine with
  | Done rs _ => rs = [(0, []); (20, []); (24, []); (2, []); (20, a_message 20); (0, []); (24, a_message 24);
                       (- ETIMEDOUT, []); (1, []); (0, [])]
  | Fault _ => False
  end.
Proof. vm_compute. reflexivity. Qed.

Lemma recv_waits_once_witness :
  ends_waiting (qb_ipc_us_recv_at_most (E := pair_env) 2 the_rx 64 100) pair_machine
    (fun ws => ws = [] \/ ws = [100] /\ 0 < 100).
Proof. apply (recv_waits_once (E := pair_env)); lia. Defined.

(** Sockets that take datagrams of up to 5000 bytes. *)
Definition limit_reply (L : Z) (h : history) (c : sys_call) : answer :=
  match c with
  | Sys_socketpair => answer_out 0 [8; 9]
  | Sys_getsockopt_size _ _ => answer_out 0 [4096]
  | Sys_write _ d => if zlen d <=? L then answer_ret (zlen d) else answer_err EMSGSIZE
  | Sys_read _ n => answer_ret n
  | _ => answer_ret 0
  end.
Definition limited (L : Z) : Env := env_with (limit_reply L).
Lemma limited_pair L : PairLimit (E := limited L) L.
Proof.
  constructor; cbn; try done.
  - intros h s d Hd. by destruct (Z.leb_spec (zlen d) L); [|lia].
  - intros h s d Hd. by destruct (Z.leb_spec (zlen d) L); [lia|].
Qed.


(** ** Paths that go wrong *)

(** A connection of a server over sockets that receives from socket 4 into a buffer
    of 64 bytes. *)
Definition receiving (E : Env) (d : list Z) : M (Z * option ptr) :=
  _ ← qb_ipcs_poll_handlers_set true true true true;
  _ ← qb_ipcs_run;
  _ ← modify (fun m => put_conn m 1 (set_c_receive_buf (set_c_request (new_connection QB_IPC_SOCKET) the_rx) (Some (zrepeat 0 64))));
  _ ← qb_ipc_socket_send the_tx d;
  receive_request us_only 1 0.

(** A message as long as the buffer is received. *)
Example message_fits :
  match receiving pair_env (a_message 64) pair_machine with Done r _ => r = (64, Some (P_receive_buf 1)) | Fault _ => False end.
Proof. vm_compute. reflexivity. Qed.

(** A message that says that it is longer than the buffer is received beyond its end. *)
Example long_message_overruns : receiving pair_env (a_message 200) pair_machine = Fault F_overrun.
Proof. vm_compute. reflexivity. Qed.

(** A message without a whole header is thrown away, taken for the end of the connection,
    and counted as queued for ever. *)
Example short_message_lost :
  match us_run (E := pair_env) 2 the_tx the_rx [Ch_send [1; 2; 3]; Ch_recv 64 0; Ch_q_len; Ch_recv 64 0] pair_machine with
  | Done rs _ => rs = [(3, []); (- ENOTCONN, [1; 2; 3]); (1, []); (- ETIMEDOUT, [])]
  | Fault _ => False
  end.
Proof. vm_compute. reflexivity. Qed.

(** The search does not try sizes below 2048 when no more than that is asked for. *)
Example small_sizes_not_tried :
  match qb_ipcc_verify_dgram_max_msg_size (E := limited 1500) 20 2000 pair_machine with Done r _ => r = -1 | Fault _ => False end.
Proof. vm_compute. reflexivity. Qed.

(** The size found is not the largest one that can be sent. *)
Example largest_size_missed :
  match qb_ipcc_verify_dgram_max_msg_size (E := limited 5999) 20 6000 pair_machine with Done r _ => r = 4096 | Fault _ => False end.
Proof. vm_compute. reflexivity. Qed.

(** Without a pair of sockets the descriptors in the uninitialised array are closed. *)
Example no_pair_closes :
  match dgram_verify_msg_size (E := env_with (fun h c => match c with Sys_socketpair => answer_err 24 | _ => answer_ret 0 end))
          16 pair_machine with
  | Done r m => r = -1 /\ map fst (calls m) = [Sys_socketpair; Sys_close 0; Sys_close 0]
  | Fault _ => False
  end.
Proof. vm_compute. split; reflexivity. Qed.

(** The error of [bind] is not the error that is returned. *)
Example bind_error_lost :
  match qb_ipc_dgram_sock_setup (E := env_with (fun h c => match c with Sys_bind _ _ => answer_err 98 | _ => answer_ret 0 end))
          (bytes "base"%string) "request"%string 0 pair_machine with
  | Done r _ => r = (-1, Some (-1))
  | Fault _ => False
  end.
Proof. vm_compute. reflexivity. Qed.

(** All sockets of a connection with a long name have the same address. *)
Example long_names_collide :
  let base := zrepeat 97 120 in
  set_sock_addr (E := network) (dash_name base "request"%string) = set_sock_addr (E := network) (dash_name base "response"%string) /\
  set_sock_addr (E := network) (dash_name base "request"%string) = set_sock_addr (E := network) (dash_name base "event"%string).
Proof. vm_compute. split; reflexivity. Qed.

(** A client that cannot map the control file closes descriptor 0, which is not its own,
    twice, and unmaps NULL. *)
Example client_closes_stdin :
  match (k ← new_address;
         _ ← modify (fun m => set_clients m (<[k := new_client (bytes "echo"%string) 64]> (clients m)));
         qb_ipcc_us_connect (E := env_with (fun h c => match c with Sys_mmap _ => answer_err ENOMEM | _ => net_reply h c end)) k
           (with_us_request zero_response (bytes "control"%string) (bytes "echo"%string))) socket_machine with
  | Done r m => r = - ENOMEM /\
      map fst (calls m) = [Sys_mmap_file_open (bytes "control"%string) false; Sys_mmap 50; Sys_close 50; Sys_close 0; Sys_close 0;
                           Sys_unlink (bytes "control"%string); Sys_munmap None]
  | Fault _ => False
  end.
Proof. vm_compute. split; reflexivity. Qed.

(** The size of the second socket's buffer cannot be read: the server gives up the connection, and
    neither then nor when the connection is freed the two sockets are closed. *)
Definition second_size_fails (h : history) (c : sys_call) : answer :=
  match c with Sys_getsockopt_size 101 _ => answer_err ENOMEM | _ => net_reply h c end.

Example failed_connect_leaks_sockets :
  match us_with_client (E := env_with second_size_fails) socket_machine with
  | Done _ m =>
    (size (conns m), n_next (net_of (calls m))) = (0%nat, 102) /\
    Forall (fun p => fst p <> Sys_close 100 /\ fst p <> Sys_close 101) (calls m)
  | Fault _ => False
  end.
Proof. vm_compute. split; [reflexivity|]. repeat (constructor; [split; discriminate|]). constructor. Qed.

(** Nothing to read on the setup socket, which says that the client is alive: the code
    takes the -1 of [recv] for an error all the same, and disconnects. *)
Definition nothing_to_read (h : history) (c : sys_call) : answer :=
  match c with Sys_recv_dontwait _ _ => answer_err EAGAIN | _ => net_reply h c end.

Example spurious_wakeup_disconnects :
  match (c ← us_with_client (E := env_with nothing_to_read);
         _sock_connection_liveliness (E := env_with nothing_to_read) (us_only (E := env_with nothing_to_read)) (us_app (E := env_with nothing_to_read)) 7 POLLIN c) socket_machine with
  | Done r m => (r, size (conns m)) = (-1, 0%nat)
  | Fault _ => False
  end.
Proof. vm_compute. reflexivity. Qed.
